(* ===== verification/_CoqProject ===== *)
-Q . S2P
Prelude.v
Leb128.v
Utf.v
Ir.v
BoundsRange.v
CountableLoop.v
BoundsAnalysis.v
Float.v
ConstFolding.v
DynChunk.v
RegExpOpCode.v
RangeSet.v
RegExpExecutor.v
RegExpMatch.v
RegExpParser.v
RegExpCompile.v
RegExpPatterns.v
MarkWord.v
Threads.v
Monitor.v
MonitorInv.v
MonitorRules.v
MonitorLists.v
MonitorSafe.v
MonitorCalls.v
MonitorCollector.v
MonitorSystem.v
MonitorLive.v
Futex.v
FutexInv.v
FutexRules.v
FutexSafe.v
FutexSystem.v
RWLock.v
RWLockInv.v
RWLockSafe.v
RWLockSystem.v
BytecodeEmitter.v
BytecodeEncode.v
BytecodeLayout.v
BytecodeBuild.v
BytecodeProgram.v
BytecodeRun.v
BytecodeIsa.v
BytecodeTheorems.v
GcBitmap.v
GcBitmapTheorems.v
RunSlots.v
RunSlotsAllocator.v
MemLists.v
RunSlotsLists.v
RunSlotsPools.v
RunSlotsManager.v
RunSlotsInv.v
RunSlotsAlloc.v
RunSlotsIterate.v
RunSlotsReturn.v
RunSlotsSpec.v
RunSlotsTheorems.v
LineProgram.v
DebugInfo.v
LineProgramOps.v
DebugBuild.v
DebugItem.v
DebugTheorems.v
DebugTables.v
