(* ===== verification/Prelude.v ===== *)
(** * A verification library for the Ark runtime core

    The repository holds a language runtime: a base library
    (static_core/libpandabase), a file format, an assembler and a verifier, an
    optimising compiler (static_core/compiler), and a runtime with an
    interpreter, memory managers, plugins for languages, and a regular
    expression engine (static_core/runtime/regexp).  Paths below are relative to
    src/static_core.  The library follows eight parts of it from data to
    algorithm.

    ** Encodings of the base library

    - Leb128 ([Module Leb128]): libpandabase/utils/leb128.h with [Clz] and
      [MinimumBitsToStore] of bit_utils.h: [EncodeUnsigned], [EncodeSigned],
      [DecodeUnsigned] (generic and its uint32_t version), [DecodeSigned] and
      the size functions.  Shown: decoding what was encoded gives the value and
      the number of bytes, at every width; the announced sizes are exact; the
      special decoder agrees with the generic one on every buffer.
    - Utf ([Module Utf]): libpandabase/utils/utf.cpp and utf.h: conversions
      between UTF-16, UTF-8 and modified UTF-8, their sizes, the validity scans,
      the comparisons, and printing of numbers.  Shown: round trips in the
      announced size, totality of decoding on arbitrary bytes, the scan and the
      order of the comparison.

    ** Value analysis and folding of the compiler

    - Ir: data types, condition codes, instructions with their users, constants
      and blocks of compiler/optimizer/ir, as the passes below use them.
      Pointers are identifiers, the graph maps them to records.  Shown: sharing
      of constants, redirection of users with consistent def-use chains,
      agreement of condition codes with comparison.
    - BoundsRange ([Module Bounds]): the class BoundsRange of
      compiler/optimizer/analysis/bounds_analysis.cpp, an interval domain with
      wrap-around and array lengths.  The operations are sound but for INT64_MIN as a
      bound that is negated or multiplied by -1 and for narrowing by unsigned codes, where
      [Neg_min_unsound], [Mul_by_minus_one_unsound] and [narrow_unsigned_unsound] show what
      goes wrong; the theorems exclude these cases.
    - CountableLoop ([Module CountableLoopParser]):
      analysis/countable_loop_parser.cpp; the number of iterations it gives is
      the number of rounds of the loop, whether it exits in its header or at its back edge (for a
      positive number; [count_zero_runs_once] is the other case).
    - BoundsAnalysis ([Module BoundsAnalysis]): the visitors and the pass of
      bounds_analysis.cpp, against [info_sound]: in every execution, every
      recorded range holds where it was recorded, under the conditions on types and operands that
      [operands_ok] and the theorems name.
    - Float: bit patterns, comparison and conversion of IEEE-754 numbers.
    - ConstFolding ([Module ConstFolding]): optimizations/const_folding.cpp; the
      constant that replaces an instruction denotes the value the instruction
      computes at its type (for division, of constants held as extensions of their value).

    ** The regular expression engine (runtime/regexp/ecmascript)

    - DynChunk ([Module Chunk]): mem/dyn_chunk.h and .cpp, the growing buffer the
      code is written to.  The allocator and the memory functions are the
      operations of the class [Memory]; that they succeed is a hypothesis of the
      theorems that need it.
    - RegExpOpCode ([Module RegExpOpCode]): the opcodes of regexp_opcode.h and
      .cpp, their emission, insertion and dump, against instructions as data
      ([Instr], [encode]): what is emitted or inserted is the encoding, and the
      dump reads it back.
    - RangeSet ([Module RangeSet]): sets of characters as range lists; insertion
      is union, inversion is complement, and when the lists are in the normal
      form that the matcher needs.
    - RegExpExecutor ([Module RegExpExecutor]): the matcher of
      regexp_executor.h and .cpp: characters (with the macros of the ICU library
      as the class [ICU]), saved states, every opcode handler, the loop over
      instructions and [Execute].
    - RegExpMatch ([Module RegExpMatch]): a specification of it.  [attempt] is a
      recursive, depth-first semantics of programs given as lists of
      instructions, without a stack of saved states; [find] tries every start
      position.  [Execute_refines_semantics]: on the encoded program the machine
      returns the answer of the semantics; lists of ranges have to be in normal form
      ([overlapping_class_missed] shows another one).  [Execute_total]: on programs
      without backward jumps and counters there always is an answer.
    - RegExpParser ([Module RegExpParser]): regexp_parser.h and .cpp, the compiler
      of patterns, as computations of a state-and-outcome monad [M] over the
      record [Parser]; all of its functions, the recursion of disjunctions,
      alternatives and groups with fuel.  ICU's text functions are the class
      [ICUText].
    - RegExpCompile ([Module Compile]): patterns as syntax trees with a printer
      and a translation into instructions.  [Parse_compiles]: on the printed
      pattern [Parse] leaves exactly the encoding of the translated program in
      its buffer.  [Parse_then_Execute] composes it with the refinement theorem
      of the matcher, and [Parse_rejects_unopened] is an error it reports.  The
      trees leave out bracketed classes, named groups and characters outside
      ASCII; patterns that put a jump in front of no code are excluded, since
      there the parser loses the jump.
    - RegExpPatterns ([Module Patterns]): concrete patterns on which the engine
      departs from ECMAScript or does not end.

    ** Monitors (runtime/monitor.cpp and what it uses)

    - MarkWord: runtime/mark_word.h, .cpp and object_header_config.h, the lock word
      of an object, in the three memory-model configurations.  [view_of] reads a word abstractly;
      shown: what is put into a word is read back, and every operation gives a word.
    - Threads: concurrent programs.  [prog] are programs of atomic steps on a shared
      store, [cstep] interleaves the calls of any number of threads,
      and [Safe] is a rely-guarantee judgement with its rules; a global
      invariant and the guarantees of every call give the facts of all
      reachable configurations.
    - Monitor: runtime/monitor.h, .cpp, monitor_pool.h, .cpp, the lock and hash operations of
      object_header.h and .cpp, the operations of a thread they use and the suspension of the owner for
      inflation (mt_thread_manager.cpp, managed_thread.h), each as a [prog]: light locks, inflation, entry and exit, wait and notify, hash codes,
      deflation.
    - MonitorInv, MonitorRules, MonitorLists, MonitorSafe, MonitorCalls, MonitorCollector:
      the invariant that ties words, monitors, pool and threads together, what a thread relies on, and
      the rule of every step, of the linked lists of waiting threads and of every call.
    - MonitorSystem: threads that call the operations in any interleaving while
      collectors mark and deflate, and the abstract specification [spec] of their answers.
      [mutual_exclusion], [calls_refine_spec], [no_fault], [one_hash_code]
      hold in every reachable configuration; [Module Scenario] is one run.  The owner query answers with the internal id
      for a light lock and with the id of the operating system for a heavy one, as the code does; the assertion that a thread does
      not suspend itself can fail ([suspends_itself]), every other one holds.
    - MonitorLive: [enter_exit_alone] and [notify_then_exit_wakes], that calls return and
      wake-ups are not lost when the thread runs alone.

    ** Locks of the platform layer (platforms/unix/libpandabase/futex)

    - Futex: fmutex.h, fmutex.cpp and the classes Mutex and ConditionVariable of mutex.h and
      mutex.cpp, as programs of Threads over one process with the futex system call; which
      sleepers the kernel takes is the class [Kernel].
    - FutexInv, FutexRules, FutexSafe: the invariant (who has the held bit, who is counted as a waiter, who has to
      wake somebody), the rules of the steps and of every function.
    - FutexSystem ([Module FutexSystem]): threads that lock, try, unlock, wait and signal in any interleaving.
      [mutex_refines_spec] is the contract, from which [mutex_excludes] is mutual exclusion, [mutex_no_fault] that no
      assertion fails, [no_lost_wakeup] that a sleeper at a mutex is never forgotten.
    - RWLock ([Module RWLocks]): the class RWLock of mutex.h and mutex.cpp; RWLockInv and RWLockSafe: its invariant and
      the rules of its functions.
    - RWLockSystem ([Module RWLockSystem]): threads that use readers-writer locks.  [rw_excludes],
      [rw_refines_spec], [rw_no_fault], [rw_no_lost_wakeup].
    The mutex and the condition variables of Monitor are abstract there (a lock bit, a set of signalled threads): their contract
    is what FutexSystem shows.

    ** The byte code emitter (libpandafile)

    - BytecodeEmitter ([Module BytecodeEmitter]): bytecode_emitter.h and .cpp and the reading of operands of
      bytecode_instruction-inl.h: labels, the methods that emit, and [Build], which gives every jump an immediate of
      sufficient width and fills in the distances.  What the build generates from the instruction tables is the class [Isa].
    - BytecodeEncode: instructions as bytes; what is emitted is read back, and what widening and reverting a jump does.
    - BytecodeLayout, BytecodeBuild: the class [IsaOk] of what the emitter needs of the tables; the emitted items, the pieces
      of the output, and the loops of [Build] followed piece by piece.
    - BytecodeProgram, BytecodeRun: the calls of a client, and the run of jumps by the interpreter ([jump_step]).
    - BytecodeIsa ([Module CoreIsa]): the jumps of isa/isa.yaml, the functions the template bytecode_emitter_gen.h.erb makes of
      them, and the handlers of runtime/interpreter/interpreter-inl.h; they have what the emitter needs.
    - BytecodeTheorems: [Build_runs], that a jump of the output leads to its label exactly when its condition holds,
      [Build_short_code], that up to 32767 bytes it always does, and [Build_unbound], which labels are reported.  The
      estimate of distances leaves out the pairs of jumps that replace conditional ones, so that a forward jump over such a pair
      may be cut: the theorems exclude it, and [estimate_misses_pair] shows what is missing.

    ** The run-slots allocator (runtime/mem)

    - GcBitmap ([Module Bitmap]): gc/bitmap.h and bitmap.cpp, bitmaps and bitmaps of memory: single bits, ranges, walks over marks.
      Every operation is related to the set of numbers a bitmap is.  GcBitmapTheorems: [marked_chunks_in_range], what a walk over the
      marked chunks of a range visits.
    - RunSlots ([Module RunSlots]): runslots.h and runslots.cpp, a page with slots of one size.  The class [Layout] has what the build and
      the platform fix (sizes of headers, the page size, what released memory reads as, the bytes cleared in a new object).  [run_ok]
      is the invariant of a run with its free and its occupied slots.
    - RunSlotsAllocator ([Module Allocator]): runslots_allocator.h and runslots_allocator-inl.h, as computations of a monad over the
      headers of runs and pools and the words of memory: lists of runs, pools, the manager of pools, [Alloc], [Free], [Collect],
      [AddMemoryPool], [VisitAndRemoveFreePools], the walks over objects, [VerifyAllocator], [TrimUnsafe].
    - MemLists, RunSlotsLists: doubly linked lists in memory, and the lists of runs.  RunSlotsPools, RunSlotsManager: the pages of a pool,
      and the two lists of pools.  RunSlotsInv: the invariant of the allocator.  RunSlotsAlloc, RunSlotsIterate, RunSlotsReturn: what its
      operations do to it.
    - RunSlotsSpec: an abstract heap of blocks, pools and contents, clients as trees of calls, and the simulation of the heap.
    - RunSlotsTheorems: [allocator_refines], [IterateOverObjects_visits_blocks], [all_pools_come_back], for every client of a new allocator.
      Pools are aligned to pages of 4096 bytes, have at least three of them (with one page for runs the list of pools with room would
      begin with a full pool) and lie below [2 ^ 64] by twice the size of the largest pool; [misaligned_pool] shows why the first is needed.

    ** Debug information (assembler, libpandafile)

    - LineProgram ([Module LineProgram]): the emitters of LineNumberProgramItem in file_items.cpp; line_number_program.h, the interpreter of
      line number programs, over the class [Handler] of its clients; the two clients, BytecodeOffsetResolver of debug_helpers.h and
      LineNumberProgramHandler of debug_info_extractor.cpp.
    - DebugInfo ([Module DebugInfo]): [BuildLineNumberProgram], [EmitDebugInfo] and what they call in assembler/assembly-emitter.cpp;
      the item DebugInfoItem of file_items.cpp; DebugInfoDataAccessor; [GetLineNumber] of debug_helpers.cpp; the extractor.  Strings are given by
      their offsets; the offsets and the sizes of instructions are the class [Tables], as the string table and the instruction tables are
      not modelled.
    - LineProgramOps: programs as lists of operations ([Op]): what the emitters add, what the interpreter reads back, and what operations mean,
      as events ([trace]).  DebugBuild: the events of a function ([events]), and that the assembler emits operations with these events.
      DebugItem: the bytes of the item, and what the accessor reads from them.
    - DebugTheorems: [GetLineNumber_gives_line], from the assembler through the file to the line of an offset.  DebugTables:
      [Extract_tables], the tables of lines, columns, variables and parameters.  The code of a function has at most [2 ^ 28] bytes (the
      product in [EmitSpecialOpcode] wraps behind that: [special_wraps]), lines are below [2 ^ 31 - 4] and columns below [2 ^ 31].  The last section
      of DebugTables has what happens at the edges: a variable that lives to the end of the function, line 0, a program that starts with the
      end of the prologue.

    ** Conventions

    A machine integer is a [Z] in its range, every conversion is a [wrapu] or a
    [wraps].  A function that can stop the program ([UNREACHABLE], an access
    outside a buffer, a failed CHECK) or loop returns an [outcome]: [Done],
    [Crash] or [NoFuel].  [ASSERT]s are not compiled into release builds; a
    theorem that relies on one has it as a hypothesis.

    Fuel.  A loop of the source that is not structural takes a number of rounds.
    Inside an operation it is chosen large enough from the data (the bits of the
    value for LEB128, the length of the buffer for the encodings and the dump,
    the number of ranges for the search, the length of the input for back
    references, the length of a line number program), and the theorems about the operation show that the result is
    not [NoFuel].  [ExecuteInternal] takes it as an argument, since a program may
    loop: the refinement theorem gives a number from which on every fuel gives
    the same answer, and for forward programs that there is one.  [Parse] takes it
    too, since there are patterns it never ends on; four rounds for each
    character of the pattern are enough for the patterns of RegExpCompile.

    ** Not modelled

    The items of the file format and the assembler but for debug information, the verifier, the other compiler passes, code generation, the
    interpreter but for its jumps, class linking, the collectors and the other allocators, and the
    rest of the platform layer.  Of the run-slots allocator: calls are run one at a time, its locks are left out, and so are statistics and the
    marks for sanitizers; [TrimUnsafe], [IterateOverObjectsInRange] and [VerifyAllocator] are defined but not among the calls of a client.  Of the byte code: instructions that are not jumps are bytes; the instrumentation of
    branches, which may hand over to compiled code, is left out.  Of the locks: the memory order is sequential; initialisation and destruction, and
    [MutexLockForOther] and [MutexUnlockForOther], are defined but not among the calls of the systems.  Of the monitors: the memory order is sequential; objects are not moved and threads do
    not end; at a safepoint a thread may or may not stop for a collector, whichever it does (suspension for inflation is followed
    step by step); [ReleaseMonitors], [Deflate], [DeflateMonitorsWithCallBack] and
    [GetEnteredMonitorsIds] are defined but not among the calls of MonitorSystem.  Next in the plan: the lexer of the assembler; the free-list allocator of the
    runtime; the checks the compiler removes with the ranges of BoundsAnalysis.

    This file holds what the others share: outcomes, machine integers,
    exhaustive checks over small ranges, and linked lists. *)

From Stdlib Require Export ZArith Lia Bool.
From stdpp Require Export base list numbers.

Declare Scope ark_scope.
Delimit Scope ark_scope with ark.
(** The source's tests, as booleans. *)
Notation "x == y" := (bool_decide (x = y)) (at level 70, no associativity) : ark_scope.
Notation "x != y" := (negb (bool_decide (x = y))) (at level 70, no associativity) : ark_scope.
Global Open Scope Z_scope.

(** * Outcomes of code that can stop

    [UNREACHABLE()] and an access outside a buffer stop the program
    ([Crash]); a loop modelled with fuel that runs out of it gives [NoFuel],
    which every total-correctness theorem of the library excludes. *)
Inductive outcome (A : Type) : Type :=
| Done (a : A)
| Crash
| NoFuel.
Arguments Done {A} a.
Arguments Crash {A}.
Arguments NoFuel {A}.

#[export] Instance outcome_ret : MRet outcome := @Done.
#[export] Instance outcome_bind : MBind outcome :=
  fun A B k m => match m with Done a => k a | Crash => Crash | NoFuel => NoFuel end.

(** A memory read: outside the buffer the program is stopped. *)
Definition read {A} (l : list A) (i : nat) : outcome A :=
  match l !! i with Some a => Done a | None => Crash end.

(** A memory write inside a buffer of fixed size. *)
Definition write {A} (l : list A) (i : nat) (a : A) : outcome (list A) :=
  if (i <? length l)%nat then Done (<[i := a]> l) else Crash.

(** * Machine integers: a [w]-bit value is a [Z] in range, every conversion
    written out. *)
Definition wrapu (w x : Z) : Z := x mod 2 ^ w.
Definition wraps (w x : Z) : Z := (x + 2 ^ (w - 1)) mod 2 ^ w - 2 ^ (w - 1).
Definition in_u (w x : Z) : Prop := 0 <= x < 2 ^ w.
Definition in_s (w x : Z) : Prop := - 2 ^ (w - 1) <= x < 2 ^ (w - 1).

Abbreviation u8 := (wrapu 8).
Abbreviation u16 := (wrapu 16).
Abbreviation u32 := (wrapu 32).
Abbreviation u64 := (wrapu 64).
Abbreviation i8 := (wraps 8).
Abbreviation i16 := (wraps 16).
Abbreviation i32 := (wraps 32).
Abbreviation i64 := (wraps 64).

Abbreviation INT8_MIN := (-128).
Abbreviation INT8_MAX := 127.
Abbreviation INT16_MIN := (-32768).
Abbreviation INT16_MAX := 32767.
Abbreviation INT32_MIN := (-2147483648).
Abbreviation INT32_MAX := 2147483647.
Abbreviation INT64_MIN := (-9223372036854775808).
Abbreviation INT64_MAX := 9223372036854775807.
Abbreviation UINT8_MAX := 255.
Abbreviation UINT16_MAX := 65535.
Abbreviation UINT32_MAX := 4294967295.
Abbreviation UINT64_MAX := 18446744073709551615.

(** A buffer of bytes. *)
Definition bytes_ok (l : list Z) : Prop := Forall (in_u 8) l.

Create HintDb ark.

(** ** Ranges of the conversions *)
Lemma pow2_pos (w : Z) : 0 <= w -> 0 < 2 ^ w.
Proof. intros; apply Z.pow_pos_nonneg; lia. Qed.

Lemma pow2_half (w : Z) : 0 < w -> 2 ^ w = 2 * 2 ^ (w - 1).
Proof. intros. rewrite <- Z.pow_succ_r by lia. f_equal; lia. Qed.

Lemma wrapu_range (w x : Z) : 0 <= w -> in_u w (wrapu w x).
Proof. intros; unfold in_u, wrapu. apply Z.mod_pos_bound, pow2_pos; lia. Qed.

Lemma wraps_range (w x : Z) : 0 < w -> in_s w (wraps w x).
Proof.
  intros. unfold in_s, wraps. rewrite (pow2_half w) by lia.
  pose proof (pow2_pos (w - 1) ltac:(lia)).
  pose proof (Z.mod_pos_bound (x + 2 ^ (w - 1)) (2 * 2 ^ (w - 1)) ltac:(lia)).
  lia.
Qed.

Lemma wrapu_id (w x : Z) : in_u w x -> wrapu w x = x.
Proof. unfold in_u, wrapu. apply Z.mod_small. Qed.

Lemma wraps_id (w x : Z) : 0 < w -> in_s w x -> wraps w x = x.
Proof.
  unfold in_s, wraps. intros Hw [? ?]. rewrite (pow2_half w) by lia.
  rewrite Z.mod_small; lia.
Qed.

(** Both conversions only look at the low [w] bits. *)
Lemma wrapu_congr (w x y : Z) : x mod 2 ^ w = y mod 2 ^ w -> wrapu w x = wrapu w y.
Proof. unfold wrapu; auto. Qed.

Lemma wraps_congr (w x y : Z) : x mod 2 ^ w = y mod 2 ^ w -> wraps w x = wraps w y.
Proof.
  unfold wraps; intros E. rewrite <- Zplus_mod_idemp_l, E, Zplus_mod_idemp_l. done.
Qed.

Lemma wraps_mod (w x : Z) : 0 < w -> wraps w x mod 2 ^ w = x mod 2 ^ w.
Proof.
  intros. unfold wraps. rewrite Zminus_mod_idemp_l. f_equal; lia.
Qed.

Lemma wrapu_mod (w x : Z) : wrapu w x mod 2 ^ w = x mod 2 ^ w.
Proof. unfold wrapu. apply Zmod_mod. Qed.

Lemma wraps_wrapu (w x : Z) : wraps w (wrapu w x) = wraps w x.
Proof. apply wraps_congr, wrapu_mod. Qed.

Lemma wrapu_wraps (w x : Z) : 0 < w -> wrapu w (wraps w x) = wrapu w x.
Proof. intros; apply wrapu_congr, wraps_mod; lia. Qed.

Lemma wrapu_mod_le (n w x : Z) : 0 <= n <= w -> wrapu w x mod 2 ^ n = x mod 2 ^ n.
Proof.
  intros. unfold wrapu. apply Z.mod_mod_divide.
  exists (2 ^ (w - n)). rewrite <- Z.pow_add_r by lia. f_equal; lia.
Qed.

Lemma wraps_mod_le (n w x : Z) : 0 <= n <= w -> 0 < w -> wraps w x mod 2 ^ n = x mod 2 ^ n.
Proof. intros. by rewrite <- (wrapu_mod_le n w), wrapu_wraps, wrapu_mod_le by lia. Qed.

#[export] Hint Resolve wrapu_range wraps_range : ark.

(** ** Bit operations as arithmetic *)
Lemma land_mask (x n : Z) : 0 <= n -> Z.land x (2 ^ n - 1) = x mod 2 ^ n.
Proof. intros. rewrite <- Z.land_ones, Z.ones_equiv by lia. f_equal; lia. Qed.

Lemma land_bit (v n : Z) : 0 <= n -> negb (bool_decide (Z.land v (2 ^ n) = 0)) = Z.testbit v n.
Proof.
  intros. case_bool_decide as E; simpl; symmetry.
  - assert (B : Z.testbit (Z.land v (2 ^ n)) n = false) by (rewrite E; apply Z.bits_0).
    by rewrite Z.land_spec, Z.pow2_bits_true, andb_true_r in B by lia.
  - apply not_false_iff_true. intros B. apply E. apply Z.bits_inj'. intros i Hi.
    rewrite Z.land_spec, Z.bits_0, Z.pow2_bits_eqb by lia.
    destruct (Z.eqb_spec n i); [subst; by rewrite B|apply andb_false_r].
Qed.

Lemma land_low_high (n x y : Z) :
  0 <= n -> 0 <= x < 2 ^ n -> Z.land x (Z.shiftl y n) = 0.
Proof.
  intros Hn Hx. apply Z.bits_inj'; intros i Hi.
  rewrite Z.land_spec, Z.bits_0. destruct (Z.lt_ge_cases i n).
  - rewrite Z.shiftl_spec_low by lia. apply andb_false_r.
  - assert (E : Z.testbit x i = false); [|by rewrite E].
    rewrite <- (Z.mod_small x (2 ^ n)) by lia. apply Z.mod_pow2_bits_high; lia.
Qed.

(** Bitwise operations commute with the reduction modulo a power of two. *)
Lemma bitop_mod (op : Z -> Z -> Z) (bop : bool -> bool -> bool) (n x y : Z) :
  (forall a b i, Z.testbit (op a b) i = bop (Z.testbit a i) (Z.testbit b i)) ->
  bop false false = false -> 0 <= n ->
  op x y mod 2 ^ n = op (x mod 2 ^ n) (y mod 2 ^ n).
Proof.
  intros Hop Hf Hn. apply Z.bits_inj'. intros i Hi. rewrite Hop. destruct (Z.lt_ge_cases i n).
  - by rewrite !Z.mod_pow2_bits_low, Hop by lia.
  - by rewrite !Z.mod_pow2_bits_high, Hf by lia.
Qed.

(** Setting disjoint bits is addition. *)
Lemma lor_add (n x y : Z) :
  0 <= n -> 0 <= x < 2 ^ n -> Z.lor x (Z.shiftl y n) = x + y * 2 ^ n.
Proof.
  intros. rewrite <- Z.add_nocarry_lor by (apply land_low_high; lia).
  rewrite Z.shiftl_mul_pow2 by lia. done.
Qed.

Lemma lor_mul (n x y : Z) :
  0 <= n -> 0 <= x < 2 ^ n -> Z.lor x (y * 2 ^ n) = x + y * 2 ^ n.
Proof. intros. rewrite <- (lor_add n x y) by lia. by rewrite Z.shiftl_mul_pow2 by lia. Qed.

(** ** Facts about a bounded integer, decided by evaluation *)
Fixpoint check_from (P : Z -> bool) (k : nat) (x : Z) : bool :=
  match k with
  | O => true
  | S k' => P x && check_from P k' (x + 1)
  end.

Lemma check_from_sound (P : Z -> bool) (k : nat) (x : Z) :
  check_from P k x = true -> forall y, x <= y < x + Z.of_nat k -> P y = true.
Proof.
  revert x; induction k as [|k IH]; intros x; simpl; intros Hc y Hy; [lia|].
  apply andb_true_iff in Hc as [HP Hc]. destruct (Z.eq_dec y x) as [->|]; [done|].
  apply (IH (x + 1)); [done|lia].
Qed.

Definition check_below (P : Z -> bool) (n : Z) : bool := check_from P (Z.to_nat n) 0.

Lemma check_below_sound (P : Z -> bool) (n : Z) :
  check_below P n = true -> forall x, 0 <= x < n -> P x = true.
Proof. intros Hc x Hx. eapply check_from_sound; [exact Hc|lia]. Qed.

(** [by_cases_below n] proves a boolean fact about a variable below the
    numeral [n] by running through all values. *)
Ltac by_cases_below x n :=
  match goal with H : 0 <= x < _ |- _ => revert x H end;
  match goal with
  | |- forall x, 0 <= x < _ -> @?P x = true =>
      exact (check_below_sound P n ltac:(vm_cast_no_check (eq_refl true)))
  end.

(** * Lists *)
Lemma filter_none {A} (P : A -> bool) l : (forall x, x ∈ l -> P x = false) -> List.filter P l = [].
Proof.
  induction l as [|x l IH]; intros Hl; [done|]. simpl. rewrite Hl by left. apply IH. intros y Hy. apply Hl. by right.
Qed.

(** * Linked lists without cycles *)
(** [links next p l]: following [next] from the pointer [p] visits [l] and ends
    at a null pointer. *)
Inductive links {K} (next : K -> option (option K)) : option K -> list K -> Prop :=
| links_nil : links next None []
| links_cons c n l : next c = Some n -> links next n l -> links next (Some c) (c :: l).

Lemma links_det {K} (next : K -> option (option K)) p l1 l2 :
  links next p l1 -> links next p l2 -> l1 = l2.
Proof.
  intros H; revert l2; induction H as [|c n l Hn Hl IH]; intros l2 H2; inversion H2; [done|].
  simplify_eq. f_equal; auto.
Qed.

Lemma links_suffix {K} (next : K -> option (option K)) p l c l1 l2 :
  links next p l -> l = l1 ++ c :: l2 -> links next (Some c) (c :: l2).
Proof.
  intros H; revert l1; induction H as [|d n l Hn Hl IH]; intros l1 E.
  - by destruct l1.
  - destruct l1 as [|d' l1]; simplify_eq/=; [by econstructor|by eapply IH].
Qed.

Lemma links_NoDup {K} (next : K -> option (option K)) p l : links next p l -> NoDup l.
Proof.
  induction 1 as [|c n l Hn Hl IH]; constructor; [|done].
  intros (l1 & l2 & E)%list_elem_of_split.
  pose proof (links_det next _ _ _ (links_suffix next _ _ _ _ _ Hl E) (links_cons next c n l Hn Hl)) as E2.
  apply (f_equal length) in E2. apply (f_equal length) in E.
  rewrite length_app in E. simpl in *. lia.
Qed.

Lemma links_next {K} (next : K -> option (option K)) p l c :
  links next p l -> c ∈ l -> is_Some (next c).
Proof.
  induction 1 as [|d n l Hn Hl IH]; intros Hin; [by apply elem_of_nil in Hin|].
  apply elem_of_cons in Hin as [->|?]; eauto.
Qed.
