(* ===== verification/Leb128.v ===== *)
(** LEB128 variable-length integers: [static_core/libpandabase/utils/leb128.h]
    with the bit counting of [bit_utils.h].  A pointer into a buffer is the
    list of bytes from it on; reading past its end stops the program.  An
    encoder's output pointer is the list of the bytes it wrote, so the
    returned count is that list's length. *)

From S2P Require Import Prelude.

Module Leb128.

Definition PAYLOAD_WIDTH : Z := 7.
Definition PAYLOAD_MASK : Z := 127.
Definition EXTENSION_BIT : Z := 128.
Definition SIGN_BIT : Z := 64.

(** [Clz] of a non-zero [w]-bit value: the builtins count at 64 bits, or at
    32 bits with the missing width subtracted. *)
Definition Clz (w x : Z) : Z :=
  if w =? 64 then 63 - Z.log2 x else (31 - Z.log2 x) - (32 - w).

Definition MinimumBitsToStore (w value : Z) : Z :=
  if value =? 0 then 0 else w - Clz w value.

(** The number of bytes a [w]-bit value takes at most. *)
Definition max_bytes (w : Z) : nat := Z.to_nat ((w + PAYLOAD_WIDTH - 1) / PAYLOAD_WIDTH).

Record decoded := Decoded { dec_value : Z; dec_size : nat; dec_full : bool }.

(** The loop of [DecodeUnsigned<T>]: [k] iterations left, the next is [i]. *)
Fixpoint DecodeUnsigned_loop (w : Z) (k i : nat) (data : list Z) (result : Z)
  : outcome decoded :=
  match k with
  | O => Done (Decoded result (max_bytes w) false)
  | S k' =>
      d ← read data i;
      let byte := Z.land d PAYLOAD_MASK in
      let shift := Z.of_nat i * PAYLOAD_WIDTH in
      let result := Z.lor result (wrapu w (Z.shiftl byte shift)) in
      if Z.land d EXTENSION_BIT =? 0
      then Done (Decoded result (i + 1) (MinimumBitsToStore 8 byte <=? w - shift))
      else DecodeUnsigned_loop w k' (i + 1) data result
  end.

Definition DecodeUnsigned (w : Z) (data : list Z) : outcome decoded :=
  DecodeUnsigned_loop w (max_bytes w) 0 data 0.

(** The [uint32_t] specialisation, unrolled in the source. *)
Definition DecodeUnsigned_uint32 (data : list Z) : outcome decoded :=
  d0 ← read data 0;
  if PAYLOAD_MASK <? d0 then
    d1 ← read data 1;
    let result := Z.lor (Z.land d0 PAYLOAD_MASK) (u32 (Z.shiftl (Z.land d1 PAYLOAD_MASK) 7)) in
    if PAYLOAD_MASK <? d1 then
      d2 ← read data 2;
      let result := Z.lor result (u32 (Z.shiftl (Z.land d2 PAYLOAD_MASK) 14)) in
      if PAYLOAD_MASK <? d2 then
        d3 ← read data 3;
        let result := Z.lor result (u32 (Z.shiftl (Z.land d3 PAYLOAD_MASK) 21)) in
        if PAYLOAD_MASK <? d3 then
          d4 ← read data 4;
          Done (Decoded (Z.lor result (u32 (Z.shiftl d4 28))) 5 (d4 <? 2 ^ 4))
        else Done (Decoded result 4 true)
      else Done (Decoded result 3 true)
    else Done (Decoded result 2 true)
  else Done (Decoded d0 1 true).

(** The loop of [DecodeSigned<T>]; [result] has the signed type. *)
Fixpoint DecodeSigned_loop (w : Z) (k i : nat) (data : list Z) (result : Z)
  : outcome decoded :=
  match k with
  | O => Done (Decoded result (max_bytes w) false)
  | S k' =>
      byte ← read data i;
      let shift := Z.of_nat i * PAYLOAD_WIDTH in
      let result :=
        wraps w (Z.lor (wrapu w result) (wrapu w (Z.shiftl (Z.land byte PAYLOAD_MASK) shift))) in
      if Z.land byte EXTENSION_BIT =? 0 then
        let shift := w - shift in
        let signedExtended := i8 (Z.shiftr (i8 (Z.shiftl byte 1)) 1) in
        let masked := u8 (Z.lor (Z.lxor signedExtended (Z.shiftr signedExtended PAYLOAD_WIDTH)) 1) in
        let isFull := MinimumBitsToStore 8 masked <=? shift in
        let result :=
          if PAYLOAD_WIDTH <? shift then
            let shift := shift - PAYLOAD_WIDTH in
            Z.shiftr (wraps w (Z.shiftl result shift)) shift
          else result in
        Done (Decoded result (i + 1) isFull)
      else DecodeSigned_loop w k' (i + 1) data result
  end.

Definition DecodeSigned (w : Z) (data : list Z) : outcome decoded :=
  DecodeSigned_loop w (max_bytes w) 0 data 0.

(** The [while] loop of [EncodeUnsigned]: the pending [byte] and the rest of
    the value. *)
Fixpoint EncodeUnsigned_loop (fuel : nat) (data byte : Z) (out : list Z) : outcome (list Z) :=
  if data =? 0 then Done (out ++ [byte])
  else match fuel with
       | O => NoFuel
       | S fuel' =>
           EncodeUnsigned_loop fuel' (Z.shiftr data PAYLOAD_WIDTH)
             (Z.land data PAYLOAD_MASK) (out ++ [Z.lor byte EXTENSION_BIT])
       end.

Definition EncodeUnsigned (w data : Z) : outcome (list Z) :=
  EncodeUnsigned_loop (max_bytes w) (Z.shiftr data PAYLOAD_WIDTH)
    (Z.land data PAYLOAD_MASK) [].

Fixpoint EncodeSigned_loop (fuel : nat) (data : Z) (out : list Z) : outcome (list Z) :=
  match fuel with
  | O => NoFuel
  | S fuel' =>
      let byte := u8 (Z.land (u64 data) PAYLOAD_MASK) in
      let data := Z.shiftr data PAYLOAD_WIDTH in
      let more := negb (((data =? 0) && (Z.land byte SIGN_BIT =? 0))
                        || ((data =? -1) && negb (Z.land byte SIGN_BIT =? 0))) in
      if more then EncodeSigned_loop fuel' data (out ++ [Z.lor byte EXTENSION_BIT])
      else Done (out ++ [byte])
  end.

Definition EncodeSigned (w data : Z) : outcome (list Z) := EncodeSigned_loop (max_bytes w) data [].

Definition UnsignedEncodingSize (w data : Z) : Z :=
  (MinimumBitsToStore w (Z.lor data 1) + PAYLOAD_WIDTH - 1) / PAYLOAD_WIDTH.

(** [digits] of the signed type is [w - 1], so the source shifts by [w - 2]. *)
Definition SignedEncodingSize (w data : Z) : Z :=
  let data := Z.lxor data (Z.shiftr data ((w - 1) - 1)) in
  let udata := wrapu w data in
  MinimumBitsToStore w (wrapu w (Z.lor udata 1)) / PAYLOAD_WIDTH + 1.

Example enc_624485 : EncodeUnsigned 32 624485 = Done [229; 142; 38].
Proof. vm_compute. reflexivity. Qed.
Example enc_neg : EncodeSigned 32 (-123456) = Done [192; 187; 120].
Proof. vm_compute. reflexivity. Qed.
Example dec_neg : DecodeSigned 32 [192; 187; 120] = Done (Decoded (-123456) 3 true).
Proof. vm_compute. reflexivity. Qed.
Example dec_min : DecodeSigned 32 [128;128;128;128;120] = Done (Decoded INT32_MIN 5 true).
Proof. vm_compute. reflexivity. Qed.
Example sz_min : map (SignedEncodingSize 32) [INT32_MIN; INT32_MAX; 63; 64; -64; -65; 0] = [5;5;1;2;1;2;1].
Proof. vm_compute. reflexivity. Qed.

(** ** Bit counting *)
Lemma MinimumBitsToStore_log2 (w v : Z) : v <> 0 -> MinimumBitsToStore w v = Z.log2 v + 1.
Proof.
  intros. unfold MinimumBitsToStore, Clz. rewrite (proj2 (Z.eqb_neq v 0)) by done.
  destruct (w =? 64) eqn:E; lia.
Qed.

Lemma MinimumBitsToStore_le (w v n : Z) :
  0 <= v -> 0 <= n -> (MinimumBitsToStore w v <=? n) = (v <? 2 ^ n).
Proof.
  intros Hv Hn. destruct (Z.eq_dec v 0) as [->|Hne].
  - change (MinimumBitsToStore w 0) with 0.
    pose proof (pow2_pos n Hn). by rewrite (proj2 (Z.leb_le _ _)), (proj2 (Z.ltb_lt _ _)) by lia.
  - rewrite MinimumBitsToStore_log2 by done.
    destruct (Z.ltb_spec v (2 ^ n)) as [H|H].
    + apply Z.leb_le. pose proof (proj1 (Z.log2_lt_pow2 v n ltac:(lia)) H). lia.
    + apply Z.leb_gt. pose proof (proj1 (Z.log2_le_pow2 v n ltac:(lia)) H). lia.
Qed.

(** ** Unsigned values *)

(** The bytes of [x], least significant group first. *)
Fixpoint ubytes (n : nat) (x : Z) : list Z :=
  match n with
  | O => []
  | S n' => if x / 128 =? 0 then [x mod 128] else (x mod 128 + 128) :: ubytes n' (x / 128)
  end.

Lemma land_payload (x : Z) : Z.land x PAYLOAD_MASK = x mod 128.
Proof. exact (land_mask x 7 ltac:(lia)). Qed.

Lemma lor_extension (b : Z) : 0 <= b < 128 -> Z.lor b EXTENSION_BIT = b + 128.
Proof. intros. exact (lor_mul 7 b 1 ltac:(lia) ltac:(lia)). Qed.

Lemma shiftr_payload (x : Z) : Z.shiftr x PAYLOAD_WIDTH = x / 128.
Proof. apply (Z.shiftr_div_pow2 x 7). unfold PAYLOAD_WIDTH; lia. Qed.

Lemma EncodeUnsigned_loop_ubytes (fuel : nat) (x : Z) (out : list Z) :
  0 <= x < 2 ^ (7 * Z.of_nat (S fuel)) ->
  EncodeUnsigned_loop fuel (x / 128) (x mod 128) out = Done (out ++ ubytes (S fuel) x).
Proof.
  revert x out; induction fuel as [|fuel IH]; intros x out Hx.
  - simpl. rewrite (Z.div_small x 128) by (change (2 ^ (7 * Z.of_nat 1)) with 128 in Hx; lia).
    done.
  - cbn [EncodeUnsigned_loop ubytes]. destruct (x / 128 =? 0) eqn:E; [done|].
    rewrite shiftr_payload, land_payload, lor_extension by (apply Z.mod_pos_bound; lia).
    rewrite IH; [by rewrite <- app_assoc|].
    split; [apply Z.div_pos; lia|]. apply Z.div_lt_upper_bound; [lia|].
    replace (128 * 2 ^ (7 * Z.of_nat (S fuel))) with (2 ^ (7 + 7 * Z.of_nat (S fuel)))
      by (rewrite Z.pow_add_r by lia; done).
    replace (7 + 7 * Z.of_nat (S fuel)) with (7 * Z.of_nat (S (S fuel))) by lia. lia.
Qed.

Lemma max_bytes_bits (w : Z) : 0 <= w -> w <= 7 * Z.of_nat (max_bytes w) < w + 7.
Proof.
  intros. unfold max_bytes, PAYLOAD_WIDTH.
  pose proof (Z.div_mod (w + 7 - 1) 7 ltac:(lia)).
  pose proof (Z.mod_pos_bound (w + 7 - 1) 7 ltac:(lia)).
  rewrite Z2Nat.id; [lia|]. apply Z.div_pos; lia.
Qed.

Lemma EncodeUnsigned_ubytes (w x : Z) :
  0 <= w -> in_u w x -> EncodeUnsigned w x = Done (ubytes (S (max_bytes w)) x).
Proof.
  intros Hw [Hx0 Hx]. unfold EncodeUnsigned. rewrite shiftr_payload, land_payload.
  apply (EncodeUnsigned_loop_ubytes _ _ []). split; [done|].
  eapply Z.lt_le_trans; [exact Hx|]. apply Z.pow_le_mono_r; [lia|].
  pose proof (max_bytes_bits w Hw). lia.
Qed.

Lemma extension_clear (b : Z) : 0 <= b < 128 -> Z.land b EXTENSION_BIT = 0.
Proof. intros; apply Z.eqb_eq. by_cases_below b 128. Qed.

Lemma extension_set (b : Z) : 0 <= b < 128 -> (Z.land (b + 128) EXTENSION_BIT =? 0) = false.
Proof. intros; apply negb_true_iff. by_cases_below b 128. Qed.

Lemma shift_in (w r x i : Z) :
  0 <= i -> 0 <= r < 2 ^ i -> 0 <= x -> x * 2 ^ i < 2 ^ w ->
  Z.lor r (wrapu w (Z.shiftl x i)) = r + x * 2 ^ i.
Proof.
  intros Hi Hr Hx Hb. pose proof (pow2_pos i Hi).
  rewrite wrapu_id by (unfold in_u; rewrite Z.shiftl_mul_pow2 by lia; nia).
  by apply lor_add.
Qed.

Lemma DecodeUnsigned_loop_ubytes (w : Z) (n k i : nat) (pre suf : list Z) (r x : Z) :
  0 <= w -> length pre = i -> (i + k = max_bytes w)%nat -> 7 * Z.of_nat i < w ->
  0 <= r < 2 ^ (7 * Z.of_nat i) ->
  0 <= x < 2 ^ (7 * Z.of_nat n) -> x * 2 ^ (7 * Z.of_nat i) < 2 ^ w -> (0 < n)%nat ->
  DecodeUnsigned_loop w k i (pre ++ ubytes n x ++ suf) r
  = Done (Decoded (r + x * 2 ^ (7 * Z.of_nat i)) (i + length (ubytes n x)) true).
Proof.
  intros Hw. revert k i pre r x; induction n as [|n IH]; intros k i pre r x Hi Hk Hiw Hr Hx Hxw Hn;
    [lia|].
  pose proof (max_bytes_bits w Hw). destruct k as [|k]; [lia|].
  pose proof (Z.mod_pos_bound x 128 ltac:(lia)) as Hm.
  pose proof (Z.div_mod x 128 ltac:(lia)) as Hdm.
  pose proof (pow2_pos (7 * Z.of_nat i) ltac:(lia)) as Hp.
  assert (Hlow : x mod 128 * 2 ^ (7 * Z.of_nat i) < 2 ^ w).
  { eapply Z.le_lt_trans; [|exact Hxw]. apply Z.mul_le_mono_nonneg_r; [lia|].
    apply Z.mod_le; lia. }
  cbn [DecodeUnsigned_loop ubytes]. unfold read.
  rewrite lookup_app_r, Hi, Nat.sub_diag by lia. unfold PAYLOAD_WIDTH.
  replace (Z.of_nat i * 7) with (7 * Z.of_nat i) by lia.
  destruct (x / 128 =? 0) eqn:Hd; cbn [app]; cbv beta.
  - apply Z.eqb_eq in Hd. simpl (_ !! _). cbn [mbind outcome_bind].
    rewrite land_payload, Zmod_mod, shift_in, extension_clear by (rewrite ?extension_clear; lia).
    replace (x mod 128) with x by lia.
    cbn. repeat f_equal; try lia.
    rewrite MinimumBitsToStore_le by lia. apply Z.ltb_lt.
    apply (Z.mul_lt_mono_pos_r (2 ^ (7 * Z.of_nat i))); [lia|].
    rewrite <- Z.pow_add_r by lia. replace (w - _ + _) with w by lia. lia.
  - apply Z.eqb_neq in Hd. simpl (_ !! _). cbn [mbind outcome_bind].
    rewrite land_payload, extension_set by lia.
    replace ((x mod 128 + 128) mod 128) with (x mod 128)
      by (rewrite Z.add_mod, Z_mod_same_full, Z.add_0_r, !Zmod_mod by lia; done).
    rewrite shift_in by lia.
    assert (Hq : 0 < x / 128) by (pose proof (Z.div_pos x 128); lia).
    change ((x mod 128 + 128) :: ubytes n (x / 128) ++ suf)
      with ([x mod 128 + 128] ++ ubytes n (x / 128) ++ suf).
    rewrite (app_assoc pre).
    assert (E7 : 2 ^ (7 * Z.of_nat (i + 1)) = 128 * 2 ^ (7 * Z.of_nat i)).
    { replace (7 * Z.of_nat (i + 1)) with (7 + 7 * Z.of_nat i) by lia.
      rewrite Z.pow_add_r by lia. done. }
    assert (Hxw' : x / 128 * 2 ^ (7 * Z.of_nat (i + 1)) < 2 ^ w) by (rewrite E7; nia).
    assert (En : 2 ^ (7 * Z.of_nat (S n)) = 128 * 2 ^ (7 * Z.of_nat n)).
    { replace (7 * Z.of_nat (S n)) with (7 + 7 * Z.of_nat n) by lia.
      rewrite Z.pow_add_r by lia. done. }
    assert (0 < n)%nat.
    { destruct n; [|lia]. change (2 ^ (7 * Z.of_nat 1)) with 128 in Hx.
      rewrite Z.div_small in Hd by lia. lia. }
    rewrite IH; [| rewrite length_app; simpl; lia | lia | | nia | nia | done | done].
    + f_equal. f_equal; [rewrite E7; nia | simpl; lia].
    + apply (Z.pow_lt_mono_r_iff 2); [lia|lia|].
      eapply Z.le_lt_trans; [|exact Hxw']. nia.
Qed.

(** Every unsigned [w]-bit value survives the round trip: the encoder
    terminates, and decoding its bytes, whatever follows them, gives the value,
    the number of bytes and the validity flag. *)
Lemma unsigned_bytes (w x : Z) (suf : list Z) :
  0 < w -> in_u w x ->
  exists bs, EncodeUnsigned w x = Done bs
    /\ DecodeUnsigned w (bs ++ suf) = Done (Decoded x (length bs) true).
Proof.
  intros Hw Hx. exists (ubytes (S (max_bytes w)) x).
  split; [apply EncodeUnsigned_ubytes; [lia|done]|].
  pose proof (max_bytes_bits w ltac:(lia)). destruct Hx.
  unfold DecodeUnsigned.
  pose proof (DecodeUnsigned_loop_ubytes w (S (max_bytes w)) (max_bytes w) 0 [] suf 0 x) as E.
  change (2 ^ (7 * Z.of_nat 0)) with 1 in E.
  cbn [app] in E. rewrite E; try lia; try done; clear E; [by rewrite Z.mul_1_r|].
  split; [done|]. eapply Z.lt_le_trans; [eassumption|]. apply Z.pow_le_mono_r; lia.
Qed.

(** The bytes of a signed value: the last group has the value's sign in its
    bit 6. *)
Fixpoint sbytes (n : nat) (x : Z) : list Z :=
  match n with
  | O => []
  | S n' => if (-64 <=? x) && (x <? 64) then [x mod 128] else (x mod 128 + 128) :: sbytes n' (x / 128)
  end.

Lemma sign_bit_clear (b : Z) : 0 <= b < 128 -> (Z.land b SIGN_BIT =? 0) = (b <? 64).
Proof. intros. apply eqb_prop. by_cases_below b 128. Qed.

Lemma sign_stop (x : Z) :
  (((x / 128 =? 0) && (Z.land (x mod 128) SIGN_BIT =? 0))
   || ((x / 128 =? -1) && negb (Z.land (x mod 128) SIGN_BIT =? 0)))
  = ((-64 <=? x) && (x <? 64)).
Proof.
  pose proof (Z.mod_pos_bound x 128 ltac:(lia)). pose proof (Z.div_mod x 128 ltac:(lia)).
  rewrite sign_bit_clear by lia. lia.
Qed.

Lemma EncodeSigned_loop_sbytes (fuel : nat) (x : Z) (out : list Z) :
  (0 < fuel)%nat -> - 2 ^ (7 * Z.of_nat fuel - 1) <= x < 2 ^ (7 * Z.of_nat fuel - 1) ->
  EncodeSigned_loop fuel x out = Done (out ++ sbytes fuel x).
Proof.
  revert x out; induction fuel as [|fuel IH]; intros x out Hf Hx; [lia|].
  cbn [EncodeSigned_loop sbytes].
  pose proof (Z.mod_pos_bound x 128 ltac:(lia)) as Hm.
  rewrite land_payload, shiftr_payload.
  replace (u64 x mod 128) with (x mod 128)
    by (symmetry; apply (wrapu_mod_le 7 64); lia).
  rewrite (wrapu_id 8) by (unfold in_u; lia). rewrite sign_stop.
  destruct ((-64 <=? x) && (x <? 64)) eqn:E; cbn [negb]; [done|].
  rewrite lor_extension by lia.
  destruct fuel as [|fuel]; [change (2 ^ _) with 64 in Hx; lia|].
  rewrite IH; [by rewrite <- app_assoc|lia|].
  assert (E7 : 2 ^ (7 * Z.of_nat (S (S fuel)) - 1) = 128 * 2 ^ (7 * Z.of_nat (S fuel) - 1)).
  { replace (7 * Z.of_nat (S (S fuel)) - 1) with (7 + (7 * Z.of_nat (S fuel) - 1)) by lia.
    rewrite Z.pow_add_r by lia. done. }
  rewrite E7 in Hx. split; [apply Z.div_le_lower_bound; lia|apply Z.div_lt_upper_bound; lia].
Qed.

(** The 7-bit group of a final byte, sign extended as the source does. *)
Lemma final_group (x : Z) :
  -64 <= x < 64 ->
  let se := i8 (Z.shiftr (i8 (Z.shiftl (x mod 128) 1)) 1) in
  u8 (Z.lor (Z.lxor se (Z.shiftr se PAYLOAD_WIDTH)) 1) = Z.lor (if x <? 0 then -x - 1 else x) 1.
Proof.
  intros Hx se; subst se. apply Z.eqb_eq.
  remember (x + 64) as y eqn:Ey. assert (x = y - 64) as -> by lia.
  assert (Hy : 0 <= y < 128) by lia. clear - Hy. by_cases_below y 128.
Qed.

Lemma sign_extend (w t R v : Z) :
  0 < t < w -> v = R \/ v = R - 2 ^ t -> - 2 ^ (t - 1) <= v < 2 ^ (t - 1) ->
  Z.shiftr (wraps w (Z.shiftl R (w - t))) (w - t) = v.
Proof.
  intros Ht HR Hv. rewrite Z.shiftl_mul_pow2 by lia.
  assert (Ew : 2 ^ w = 2 ^ t * 2 ^ (w - t)) by (rewrite <- Z.pow_add_r by lia; f_equal; lia).
  assert (Ew1 : 2 ^ (w - 1) = 2 ^ (t - 1) * 2 ^ (w - t))
    by (rewrite <- Z.pow_add_r by lia; f_equal; lia).
  pose proof (pow2_pos (w - t) ltac:(lia)).
  rewrite (wraps_congr w _ (v * 2 ^ (w - t))).
  - rewrite wraps_id by (unfold in_s; rewrite ?Ew1; nia).
    rewrite Z.shiftr_div_pow2 by lia. apply Z.div_mul; lia.
  - destruct HR as [-> | ->]; [done|].
    replace ((R - 2 ^ t) * 2 ^ (w - t)) with (R * 2 ^ (w - t) + (-1) * 2 ^ w) by (rewrite Ew; ring).
    by rewrite Z_mod_plus_full.
Qed.

Lemma group_full (x n : Z) :
  0 < n -> -64 <= x < 64 -> - 2 ^ (n - 1) <= x < 2 ^ (n - 1) ->
  (MinimumBitsToStore 8 (Z.lor (if x <? 0 then -x - 1 else x) 1) <=? n) = true.
Proof.
  intros Hn Hx Hb. set (y := if x <? 0 then -x - 1 else x).
  assert (Hy : 0 <= y < 2 ^ (n - 1)) by (unfold y; destruct (x <? 0) eqn:?; lia).
  assert (Hpos : 0 <= Z.lor y 1) by (apply Z.lor_nonneg; lia).
  rewrite MinimumBitsToStore_le by lia. apply Z.ltb_lt.
  pose proof (Z.add_lor_land y 1). pose proof (proj2 (Z.land_nonneg y 1) ltac:(lia)).
  rewrite (pow2_half n) by lia. pose proof (pow2_pos (n - 1) ltac:(lia)). lia.
Qed.

Lemma pow2_step (i : nat) : 2 ^ (7 * Z.of_nat (S i)) = 128 * 2 ^ (7 * Z.of_nat i).
Proof.
  replace (7 * Z.of_nat (S i)) with (7 + 7 * Z.of_nat i) by lia.
  rewrite Z.pow_add_r by lia. done.
Qed.

Lemma shift_in_trunc (w r x t : Z) :
  0 <= t <= w -> 0 <= r < 2 ^ t -> Z.lor r (wrapu w (Z.shiftl x t)) = r + wrapu w (x * 2 ^ t).
Proof.
  intros. rewrite Z.shiftl_mul_pow2 by lia. unfold wrapu.
  replace (2 ^ w) with (2 ^ (w - t) * 2 ^ t) by (rewrite <- Z.pow_add_r by lia; f_equal; lia).
  pose proof (pow2_pos t ltac:(lia)). pose proof (pow2_pos (w - t) ltac:(lia)).
  rewrite Z.mul_mod_distr_r by lia. apply lor_mul; lia.
Qed.

(** One final byte read by [DecodeSigned]. *)
Lemma DecodeSigned_final (w : Z) (k i : nat) (pre suf : list Z) (r x : Z) :
  0 <= w -> length pre = i -> 7 * Z.of_nat i < w ->
  0 <= r < 2 ^ (7 * Z.of_nat i) -> -64 <= x < 64 -> in_s w (x * 2 ^ (7 * Z.of_nat i)) ->
  DecodeSigned_loop w (S k) i (pre ++ (x mod 128) :: suf) r
  = Done (Decoded (r + x * 2 ^ (7 * Z.of_nat i)) (i + 1) true).
Proof.
  intros Hw Hi Hiw Hr Hx Hs. pose proof (Z.mod_pos_bound x 128 ltac:(lia)) as Hm.
  pose proof (pow2_pos (7 * Z.of_nat i) ltac:(lia)) as Hp.
  cbn [DecodeSigned_loop]. unfold read. rewrite lookup_app_r, Hi, Nat.sub_diag by lia.
  simpl (_ !! _). cbn [mbind outcome_bind]. cbv zeta.
  rewrite extension_clear, Z.eqb_refl, final_group, land_payload, Zmod_mod by lia.
  unfold PAYLOAD_WIDTH. replace (Z.of_nat i * 7) with (7 * Z.of_nat i) by lia.
  set (t := 7 * Z.of_nat i) in *.
  assert (Ex : x mod 128 = x \/ x mod 128 = x + 128).
  { destruct (Z.lt_ge_cases x 0); [right|left; apply Z.mod_small; lia].
    rewrite <- (Z_mod_plus_full x 1 128). apply Z.mod_small; lia. }
  assert (Hs' : - 2 ^ (w - t - 1) <= x < 2 ^ (w - t - 1)).
  { unfold in_s in Hs. replace (w - 1) with (w - t - 1 + t) in Hs by lia.
    rewrite Z.pow_add_r in Hs by lia. nia. }
  rewrite group_full by lia. f_equal. f_equal.
  assert (Er : wrapu w r = r).
  { apply wrapu_id. split; [lia|]. eapply Z.lt_trans; [apply Hr|]. apply Z.pow_lt_mono_r; lia. }
  rewrite Er. destruct (Z.ltb_spec 7 (w - t)).
  - assert (E7 : 2 ^ (t + 7) = 128 * 2 ^ t) by (rewrite Z.pow_add_r by lia; ring).
    assert (Hle : 2 ^ (t + 7) <= 2 ^ (w - 1)) by (apply Z.pow_le_mono_r; lia).
    pose proof (pow2_half w ltac:(lia)).
    assert (Hgrp : 0 <= x mod 128 * 2 ^ t <= 127 * 2 ^ t) by nia.
    rewrite shift_in_trunc by lia. rewrite (wrapu_id w) by (unfold in_u; lia).
    rewrite (wraps_id w (r + _)) by (unfold in_s; lia).
    replace (w - t - 7) with (w - (t + 7)) by lia.
    assert (E6 : 2 ^ (t + 7 - 1) = 64 * 2 ^ t)
      by (replace (t + 7 - 1) with (t + 6) by lia; rewrite Z.pow_add_r by lia; ring).
    apply sign_extend; [lia|rewrite E7; destruct Ex as [-> | ->]; [left|right]; ring|].
    rewrite E6. nia.
  - rewrite shift_in_trunc by lia. rewrite (wraps_congr w _ (r + x * 2 ^ t)).
    + apply wraps_id; [lia|]. unfold in_s in *.
      replace (w - 1) with (w - t - 1 + t) in * by lia. rewrite Z.pow_add_r in * by lia. nia.
    + unfold wrapu. rewrite Zplus_mod_idemp_r. destruct Ex as [-> | ->]; [done|].
      replace (r + (x + 128) * 2 ^ t) with (r + x * 2 ^ t + 2 ^ (t + 7 - w) * 2 ^ w)
        by (rewrite <- Z.pow_add_r by lia; replace (t + 7 - w + w) with (t + 7) by lia;
            rewrite Z.pow_add_r by lia; ring).
      by rewrite Z_mod_plus_full.
Qed.

Lemma in_s_step (w x : Z) (i : nat) :
  7 * Z.of_nat (S i) < w -> in_s w (x * 2 ^ (7 * Z.of_nat i)) ->
  in_s w (x / 128 * 2 ^ (7 * Z.of_nat (S i))).
Proof.
  intros Hw Hs. unfold in_s in *. rewrite pow2_step.
  pose proof (pow2_pos (7 * Z.of_nat i) ltac:(lia)).
  pose proof (Z.mod_pos_bound x 128 ltac:(lia)). pose proof (Z.div_mod x 128 ltac:(lia)).
  assert (E : 2 ^ (w - 1) = 2 ^ (w - 1 - 7 * Z.of_nat (S i)) * 128 * 2 ^ (7 * Z.of_nat i)).
  { rewrite <- Z.mul_assoc, <- pow2_step, <- Z.pow_add_r by lia. f_equal; lia. }
  rewrite E in *. set (P := 2 ^ (w - 1 - 7 * Z.of_nat (S i))) in *.
  set (T := 2 ^ (7 * Z.of_nat i)) in *.
  assert (- P * 128 <= x < P * 128) by nia. assert (- P <= x / 128 < P) by lia. nia.
Qed.

Lemma DecodeSigned_loop_sbytes (w : Z) (n k i : nat) (pre suf : list Z) (r x : Z) :
  0 <= w -> length pre = i -> (i + k = max_bytes w)%nat -> 7 * Z.of_nat i < w ->
  0 <= r < 2 ^ (7 * Z.of_nat i) -> (0 < n)%nat ->
  - 2 ^ (7 * Z.of_nat n - 1) <= x < 2 ^ (7 * Z.of_nat n - 1) ->
  in_s w (x * 2 ^ (7 * Z.of_nat i)) ->
  DecodeSigned_loop w k i (pre ++ sbytes n x ++ suf) r
  = Done (Decoded (r + x * 2 ^ (7 * Z.of_nat i)) (i + length (sbytes n x)) true).
Proof.
  intros Hw. revert k i pre r x; induction n as [|n IH]; intros k i pre r x Hi Hk Hiw Hr Hn Hx Hs;
    [lia|].
  pose proof (max_bytes_bits w Hw). destruct k as [|k]; [lia|].
  pose proof (Z.mod_pos_bound x 128 ltac:(lia)) as Hm.
  pose proof (Z.div_mod x 128 ltac:(lia)) as Hdm.
  pose proof (pow2_pos (7 * Z.of_nat i) ltac:(lia)) as Hp.
  cbn [sbytes]. destruct ((-64 <=? x) && (x <? 64)) eqn:Hd.
  { cbn [app]. rewrite (DecodeSigned_final w k i); try lia; done. }
  assert (Hnext : 7 * Z.of_nat (S i) < w).
  { destruct (Z.lt_ge_cases (7 * Z.of_nat (S i)) w) as [|Hge]; [done|]. exfalso.
    unfold in_s in Hs. pose proof (Z.pow_le_mono_r 2 (w - 1) (6 + 7 * Z.of_nat i) ltac:(lia) ltac:(lia)).
    rewrite Z.pow_add_r in * by lia. change (2 ^ 6) with 64 in *. nia. }
  assert (Hle : 2 ^ (7 * Z.of_nat (S i)) <= 2 ^ (w - 1)) by (apply Z.pow_le_mono_r; lia).
  pose proof (pow2_half w ltac:(lia)) as Hhalf. rewrite pow2_step in Hle.
  cbn [DecodeSigned_loop]. unfold read. rewrite lookup_app_r, Hi, Nat.sub_diag by lia.
  simpl (_ !! _). cbn [mbind outcome_bind]. cbv zeta. rewrite extension_set by lia.
  unfold PAYLOAD_WIDTH. replace (Z.of_nat i * 7) with (7 * Z.of_nat i) by lia.
  rewrite land_payload.
  replace ((x mod 128 + 128) mod 128) with (x mod 128)
    by (rewrite Z.add_mod, Z_mod_same_full, Z.add_0_r, !Zmod_mod by lia; done).
  assert (Hgrp : 0 <= x mod 128 * 2 ^ (7 * Z.of_nat i) <= 127 * 2 ^ (7 * Z.of_nat i)) by nia.
  rewrite (wrapu_id w r) by (unfold in_u; lia).
  rewrite shift_in_trunc by lia. rewrite (wrapu_id w) by (unfold in_u; lia).
  rewrite (wraps_id w) by (unfold in_s; lia).
  change ((x mod 128 + 128) :: sbytes n (x / 128)) with ([x mod 128 + 128] ++ sbytes n (x / 128)).
  rewrite <- (app_assoc [_]), (app_assoc pre), Nat.add_1_r.
  assert (0 < n)%nat by (destruct n; [change (2 ^ _) with 64 in Hx; lia|lia]).
  assert (E7 : 2 ^ (7 * Z.of_nat (S n) - 1) = 128 * 2 ^ (7 * Z.of_nat n - 1)).
  { replace (7 * Z.of_nat (S n) - 1) with (7 + (7 * Z.of_nat n - 1)) by lia.
    rewrite Z.pow_add_r by lia. done. }
  rewrite E7 in Hx.
  rewrite IH; [|rewrite length_app; simpl; lia|lia|lia|rewrite pow2_step; lia|done| |].
  - f_equal. f_equal; [rewrite pow2_step; nia|simpl; lia].
  - split; [apply Z.div_le_lower_bound|apply Z.div_lt_upper_bound]; lia.
  - by apply in_s_step.
Qed.

(** Every signed [w]-bit value survives the round trip: the encoder
    terminates, and decoding its bytes, whatever follows them, gives the value,
    the number of bytes and the validity flag. *)
Lemma signed_bytes (w x : Z) (suf : list Z) :
  0 < w -> in_s w x ->
  exists bs, EncodeSigned w x = Done bs
    /\ DecodeSigned w (bs ++ suf) = Done (Decoded x (length bs) true).
Proof.
  intros Hw Hx. exists (sbytes (max_bytes w) x).
  pose proof (max_bytes_bits w ltac:(lia)). unfold in_s in Hx.
  assert (Hmono : 2 ^ (w - 1) <= 2 ^ (7 * Z.of_nat (max_bytes w) - 1)) by (apply Z.pow_le_mono_r; lia).
  split.
  - unfold EncodeSigned. rewrite EncodeSigned_loop_sbytes by lia. done.
  - unfold DecodeSigned.
    pose proof (DecodeSigned_loop_sbytes w (max_bytes w) (max_bytes w) 0 [] suf 0 x) as E.
    change (2 ^ (7 * Z.of_nat 0)) with 1 in E. rewrite Z.mul_1_r in E.
    cbn [app] in E. rewrite E; try lia; done.
Qed.


(** ** The unrolled [uint32_t] decoder *)
Lemma extension_test (b : Z) : in_u 8 b -> (Z.land b EXTENSION_BIT =? 0) = negb (PAYLOAD_MASK <? b).
Proof. unfold in_u. intros. apply eqb_prop. by_cases_below b 256. Qed.

Lemma payload_small (b : Z) : in_u 8 b -> (PAYLOAD_MASK <? b) = false -> Z.land b PAYLOAD_MASK = b.
Proof. unfold in_u, PAYLOAD_MASK. intros. rewrite land_payload. apply Z.mod_small. lia. Qed.

Lemma payload_full (b n : Z) :
  7 <= n -> (MinimumBitsToStore 8 (Z.land b PAYLOAD_MASK) <=? n) = true.
Proof.
  intros. rewrite land_payload. pose proof (Z.mod_pos_bound b 128 ltac:(lia)).
  rewrite MinimumBitsToStore_le by lia. apply Z.ltb_lt.
  pose proof (Z.pow_le_mono_r 2 7 n ltac:(lia) ltac:(lia)). lia.
Qed.

(** The fifth byte: four bits of it are used, the others must be clear. *)
Lemma fifth_byte (b : Z) :
  in_u 8 b ->
  u32 (Z.shiftl b 28) = u32 (Z.shiftl (Z.land b PAYLOAD_MASK) 28)
  /\ (b <? 2 ^ 4) = (if PAYLOAD_MASK <? b then false else MinimumBitsToStore 8 (Z.land b PAYLOAD_MASK) <=? 4).
Proof.
  unfold in_u. intros. split; [apply Z.eqb_eq|apply eqb_prop]; by_cases_below b 256.
Qed.

Lemma uint32_decoder (data : list Z) :
  bytes_ok data -> DecodeUnsigned_uint32 data = DecodeUnsigned 32 data.
Proof.
  intros Hb. unfold DecodeUnsigned_uint32, DecodeUnsigned.
  change (max_bytes 32) with 5%nat. cbn [DecodeUnsigned_loop Nat.add Z.of_nat Pos.of_succ_nat Pos.succ].
  assert (Hin : forall i d, data !! i = Some d -> in_u 8 d)
    by (intros i d Hd; exact (Forall_lookup_1 _ _ _ _ Hb Hd)).
  unfold read, PAYLOAD_WIDTH. clear Hb.
  destruct (data !! 0%nat) as [d0|] eqn:H0; cbn [mbind outcome_bind]; [|done].
  apply Hin in H0. rewrite (extension_test d0) by done.
  rewrite Z.lor_0_l, Z.mul_0_l, Z.shiftl_0_r.
  rewrite (wrapu_id 32 (Z.land d0 _))
    by (rewrite land_payload; pose proof (Z.mod_pos_bound d0 128); unfold in_u; lia).
  destruct (PAYLOAD_MASK <? d0) eqn:E0; cbn [negb];
    [|by rewrite payload_full, payload_small by (done || lia)].
  destruct (data !! 1%nat) as [d1|] eqn:H1; cbn [mbind outcome_bind]; [|done].
  apply Hin in H1. rewrite (extension_test d1) by done.
  destruct (PAYLOAD_MASK <? d1) eqn:E1; cbn [negb]; [|by rewrite payload_full by lia].
  destruct (data !! 2%nat) as [d2|] eqn:H2; cbn [mbind outcome_bind]; [|done].
  apply Hin in H2. rewrite (extension_test d2) by done.
  destruct (PAYLOAD_MASK <? d2) eqn:E2; cbn [negb]; [|by rewrite payload_full by lia].
  destruct (data !! 3%nat) as [d3|] eqn:H3; cbn [mbind outcome_bind]; [|done].
  apply Hin in H3. rewrite (extension_test d3) by done.
  destruct (PAYLOAD_MASK <? d3) eqn:E3; cbn [negb]; [|by rewrite payload_full by lia].
  destruct (data !! 4%nat) as [d4|] eqn:H4; cbn [mbind outcome_bind]; [|done].
  apply Hin in H4. rewrite (extension_test d4) by done.
  destruct (fifth_byte d4 H4) as [-> ->]. by destruct (PAYLOAD_MASK <? d4).
Qed.

(** ** The sizes announced before encoding *)
Lemma log2_lor_1 (x : Z) : 0 <= x -> Z.log2 (Z.lor x 1) = Z.log2 x.
Proof.
  intros. rewrite Z.log2_lor by lia. change (Z.log2 1) with 0.
  pose proof (Z.log2_nonneg x). lia.
Qed.

Lemma log2_div128 (x : Z) : 128 <= x -> Z.log2 x = Z.log2 (x / 128) + 7.
Proof.
  intros. rewrite <- shiftr_payload. unfold PAYLOAD_WIDTH. rewrite Z.log2_shiftr by lia.
  pose proof (Z.log2_le_mono 128 x ltac:(lia)). change (Z.log2 128) with 7 in *. lia.
Qed.

Lemma ubytes_length (n : nat) (x : Z) :
  0 <= x < 2 ^ (7 * Z.of_nat n) -> (0 < n)%nat ->
  Z.of_nat (length (ubytes n x)) = Z.log2 x / 7 + 1.
Proof.
  revert x; induction n as [|n IH]; intros x Hx Hn; [lia|]. cbn [ubytes].
  pose proof (Z.mod_pos_bound x 128 ltac:(lia)). pose proof (Z.div_mod x 128 ltac:(lia)).
  destruct (x / 128 =? 0) eqn:E.
  - simpl. pose proof (Z.log2_nonneg x).
    pose proof (Z.log2_le_mono x 127 ltac:(lia)). change (Z.log2 127) with 6 in *.
    rewrite Z.div_small by lia. done.
  - rewrite (log2_div128 x) by lia. rewrite pow2_step in Hx. cbn [length].
    rewrite Nat2Z.inj_succ, IH; [|lia|].
    + replace (Z.log2 (x / 128) + 7) with (Z.log2 (x / 128) + 1 * 7) by lia.
      rewrite Z.div_add by lia. lia.
    + destruct n; [simpl in Hx; lia|lia].
Qed.

(** [UnsignedEncodingSize] is the number of bytes [EncodeUnsigned] writes. *)
Theorem UnsignedEncodingSize_exact (w x : Z) :
  0 < w -> in_u w x ->
  exists bs, EncodeUnsigned w x = Done bs /\ Z.of_nat (length bs) = UnsignedEncodingSize w x.
Proof.
  intros Hw Hx. pose proof (max_bytes_bits w ltac:(lia)).
  exists (ubytes (S (max_bytes w)) x). split; [apply EncodeUnsigned_ubytes; [lia|done]|].
  destruct Hx as [Hx0 Hx]. rewrite ubytes_length; [|split; [done|]|lia].
  - unfold UnsignedEncodingSize, PAYLOAD_WIDTH.
    assert (Z.lor x 1 <> 0) by (intros E; apply Z.lor_eq_0_iff in E as [_ E]; lia).
    rewrite MinimumBitsToStore_log2, log2_lor_1 by done.
    replace (Z.log2 x + 1 + 7 - 1) with (Z.log2 x + 1 * 7) by lia. rewrite Z.div_add by lia. done.
  - eapply Z.lt_le_trans; [eassumption|]. apply Z.pow_le_mono_r; lia.
Qed.

Definition magnitude (x : Z) : Z := if x <? 0 then - x - 1 else x.

Lemma magnitude_div128 (x : Z) : magnitude (x / 128) = magnitude x / 128.
Proof.
  unfold magnitude. pose proof (Z.mod_pos_bound x 128 ltac:(lia)).
  pose proof (Z.div_mod x 128 ltac:(lia)).
  destruct (Z.ltb_spec x 0), (Z.ltb_spec (x / 128) 0); try lia.
  apply (Z.div_unique (- x - 1) 128 (- (x / 128) - 1) (127 - x mod 128)); lia.
Qed.

Lemma sbytes_length (n : nat) (x : Z) :
  - 2 ^ (7 * Z.of_nat n - 1) <= x < 2 ^ (7 * Z.of_nat n - 1) -> (0 < n)%nat ->
  Z.of_nat (length (sbytes n x)) = (Z.log2 (magnitude x) + (if magnitude x =? 0 then 0 else 1)) / 7 + 1.
Proof.
  revert x; induction n as [|n IH]; intros x Hx Hn; [lia|]. cbn [sbytes].
  destruct ((-64 <=? x) && (x <? 64)) eqn:E.
  - assert (Hm : 0 <= magnitude x < 64) by (unfold magnitude; destruct (x <? 0) eqn:?; lia).
    simpl. pose proof (Z.log2_nonneg (magnitude x)).
    pose proof (Z.log2_le_mono (magnitude x) 63 ltac:(lia)). change (Z.log2 63) with 5 in *.
    rewrite Z.div_small by (destruct (magnitude x =? 0); lia). done.
  - assert (Hm : 64 <= magnitude x) by (unfold magnitude; destruct (x <? 0) eqn:?; lia).
    destruct n as [|n]; [change (2 ^ _) with 64 in Hx; lia|].
    assert (E7 : 2 ^ (7 * Z.of_nat (S (S n)) - 1) = 128 * 2 ^ (7 * Z.of_nat (S n) - 1)).
    { replace (7 * Z.of_nat (S (S n)) - 1) with (7 + (7 * Z.of_nat (S n) - 1)) by lia.
      rewrite Z.pow_add_r by lia. done. }
    rewrite E7 in Hx. remember (S n) as n'. cbn [length].
    rewrite Nat2Z.inj_succ, IH; [|split; [apply Z.div_le_lower_bound|apply Z.div_lt_upper_bound]; lia|lia].
    rewrite magnitude_div128. rewrite (proj2 (Z.eqb_neq (magnitude x) 0)) by lia.
    destruct (Z.lt_ge_cases (magnitude x) 128).
    + rewrite (Z.div_small (magnitude x) 128) by lia. assert (Z.log2 (magnitude x) = 6) as ->; [|done].
      apply Z.log2_unique; simpl; lia.
    + rewrite (log2_div128 (magnitude x)) by lia.
      rewrite (proj2 (Z.eqb_neq (magnitude x / 128) 0))
        by (pose proof (Z.div_le_lower_bound (magnitude x) 128 1); lia).
      replace (Z.log2 (magnitude x / 128) + 7 + 1) with (Z.log2 (magnitude x / 128) + 1 + 1 * 7) by lia.
      rewrite Z.div_add by lia. lia.
Qed.

Lemma lor_lxor_1 (a : Z) : Z.lor (Z.lxor a 1) 1 = Z.lor a 1.
Proof.
  apply Z.bits_inj'; intros i Hi. rewrite !Z.lor_spec, Z.lxor_spec.
  by destruct (Z.testbit a i), (Z.testbit 1 i).
Qed.

(** The sign mask of the source is [-2], [-1], [0] or [1]: its low bit does
    not matter once bit 0 is set. *)
Lemma sign_mask_magnitude (w x : Z) :
  2 <= w -> in_s w x ->
  Z.lor (Z.lxor x (Z.shiftr x (w - 1 - 1))) 1 = Z.lor (magnitude x) 1.
Proof.
  intros Hw Hx. unfold in_s in Hx. rewrite Z.shiftr_div_pow2 by lia.
  replace (w - 1) with (w - 1 - 1 + 1) in Hx by lia. rewrite Z.pow_add_r in Hx by lia.
  set (P := 2 ^ (w - 1 - 1)) in *. pose proof (pow2_pos (w - 1 - 1) ltac:(lia)) as HP. fold P in HP.
  assert (Hlnot : forall a, Z.lnot a = - a - 1) by (intros a; unfold Z.lnot; lia).
  unfold magnitude. destruct (Z.ltb_spec x 0).
  - rewrite <- Hlnot. destruct (Z.le_gt_cases (- P) x).
    + rewrite <- (Z.div_unique x P (-1) (x + P)) by lia. by rewrite Z.lxor_m1_r.
    + rewrite <- (Z.div_unique x P (-2) (x + 2 * P)) by lia.
      change (-2) with (Z.lnot 1). by rewrite <- Z.lnot_lxor_r, Z.lnot_lxor_l, lor_lxor_1.
  - destruct (Z.lt_ge_cases x P).
    + rewrite Z.div_small by lia. by rewrite Z.lxor_0_r.
    + rewrite <- (Z.div_unique x P 1 (x - P)) by lia. apply lor_lxor_1.
Qed.

(** [SignedEncodingSize] is the number of bytes [EncodeSigned] writes. *)
Theorem SignedEncodingSize_exact (w x : Z) :
  2 <= w -> in_s w x ->
  exists bs, EncodeSigned w x = Done bs /\ Z.of_nat (length bs) = SignedEncodingSize w x.
Proof.
  intros Hw Hx. pose proof (max_bytes_bits w ltac:(lia)). pose proof Hx as Hx'. unfold in_s in Hx'.
  assert (Hmono : 2 ^ (w - 1) <= 2 ^ (7 * Z.of_nat (max_bytes w) - 1)) by (apply Z.pow_le_mono_r; lia).
  exists (sbytes (max_bytes w) x). split.
  { unfold EncodeSigned. rewrite EncodeSigned_loop_sbytes by lia. done. }
  rewrite sbytes_length by lia. unfold SignedEncodingSize, PAYLOAD_WIDTH. cbv zeta. f_equal.
  assert (Hm : 0 <= magnitude x < 2 ^ (w - 1)) by (unfold magnitude; destruct (Z.ltb_spec x 0); lia).
  assert (Hlor : 0 <= Z.lor (magnitude x) 1 < 2 ^ w).
  { split; [apply Z.lor_nonneg; lia|]. pose proof (Z.add_lor_land (magnitude x) 1).
    pose proof (proj2 (Z.land_nonneg (magnitude x) 1) ltac:(lia)).
    rewrite (pow2_half w) by lia. pose proof (pow2_pos (w - 1) ltac:(lia)). lia. }
  replace (wrapu w (Z.lor (wrapu w (Z.lxor x (Z.shiftr x (w - 1 - 1)))) 1)) with (Z.lor (magnitude x) 1).
  - assert (Z.lor (magnitude x) 1 <> 0) by (intros E; apply Z.lor_eq_0_iff in E as [_ E]; lia).
    rewrite MinimumBitsToStore_log2, log2_lor_1 by lia.
    destruct (magnitude x =? 0) eqn:E; [|done]. apply Z.eqb_eq in E. by rewrite E.
  - rewrite <- (sign_mask_magnitude w x Hw Hx) in *. unfold wrapu. rewrite <- !Z.land_ones by lia.
    rewrite Z.land_lor_distr_l, <- Z.land_assoc, Z.land_diag, <- Z.land_lor_distr_l.
    rewrite Z.land_ones by lia. symmetry. by apply Z.mod_small.
Qed.

(** * The codec *)
(** C25: every value of a width of two bits or more, unsigned or signed, is encoded in as many bytes as its size function announces, and
    decoding these bytes, whatever follows them, gives the value, the number of bytes and the validity flag. *)
Theorem leb128_roundtrip (w x : Z) (suf : list Z) :
  2 <= w ->
  (in_u w x -> exists bs, EncodeUnsigned w x = Done bs /\ Z.of_nat (length bs) = UnsignedEncodingSize w x /\
     DecodeUnsigned w (bs ++ suf) = Done (Decoded x (length bs) true)) /\
  (in_s w x -> exists bs, EncodeSigned w x = Done bs /\ Z.of_nat (length bs) = SignedEncodingSize w x /\
     DecodeSigned w (bs ++ suf) = Done (Decoded x (length bs) true)).
Proof.
  intros Hw. split; intros Hx.
  - destruct (unsigned_bytes w x suf ltac:(lia) Hx) as (bs & E & D). destruct (UnsignedEncodingSize_exact w x ltac:(lia) Hx) as (bs' & E' & L).
    exists bs. assert (bs' = bs) as -> by congruence. done.
  - destruct (signed_bytes w x suf ltac:(lia) Hx) as (bs & E & D). destruct (SignedEncodingSize_exact w x Hw Hx) as (bs' & E' & L).
    exists bs. assert (bs' = bs) as -> by congruence. done.
Qed.

(** C38: the specialised decoder of [uint32_t] and the generic one read the same bytes and give
    the same value, size and validity, on every buffer. *)
Theorem DecodeUnsigned_uint32_generic (data : list Z) :
  bytes_ok data -> DecodeUnsigned_uint32 data = DecodeUnsigned 32 data.
Proof. apply uint32_decoder. Qed.

(** * Concrete encodings *)
Lemma leb128_roundtrip_witness :
  exists bs, EncodeSigned 64 (-123456) = Done bs /\ Z.of_nat (length bs) = SignedEncodingSize 64 (-123456) /\
    DecodeSigned 64 (bs ++ [7]) = Done (Decoded (-123456) (length bs) true).
Proof. apply (leb128_roundtrip 64 (-123456) [7]); [lia|split; vm_compute; congruence]. Defined.

Lemma DecodeUnsigned_uint32_witness :
  DecodeUnsigned_uint32 [0xff; 0xff; 0xff; 0xff; 0x1f] = DecodeUnsigned 32 [0xff; 0xff; 0xff; 0xff; 0x1f].
Proof.
  apply (DecodeUnsigned_uint32_generic [0xff; 0xff; 0xff; 0xff; 0x1f]).
  repeat constructor; vm_compute; congruence.
Defined.

Lemma UnsignedEncodingSize_witness :
  exists bs, EncodeUnsigned 32 300 = Done bs /\ Z.of_nat (length bs) = UnsignedEncodingSize 32 300.
Proof. apply (UnsignedEncodingSize_exact 32 300); [lia|split; vm_compute; congruence]. Defined.

Lemma SignedEncodingSize_witness :
  exists bs, EncodeSigned 32 (-65) = Done bs /\ Z.of_nat (length bs) = SignedEncodingSize 32 (-65).
Proof. apply (SignedEncodingSize_exact 32 (-65)); [lia|split; vm_compute; congruence]. Defined.
End Leb128.
