(* ===== verification/Utf.v ===== *)
(** UTF-8, modified UTF-8 and UTF-16 conversion:
    [static_core/libpandabase/utils/utf.cpp] and [utf.h].  A pointer to bytes
    or code units is the list from it on (reading past the end stops the
    program); an output pointer that is only written through and advanced is
    the list of what was written; [size_t] positions that can wrap are [Z]
    with the wrap written out. *)

From S2P Require Import Prelude.

Module Utf.

Definition MASK1 : Z := 0x80.
Definition MASK2 : Z := 0x20.
Definition MASK3 : Z := 0x10.
Definition MASK_4BIT : Z := 0x0f.
Definition MASK_5BIT : Z := 0x1f.
Definition MASK_6BIT : Z := 0x3f.
Definition MASK_10BIT : Z := 0x03ff.
Definition MASK_16BIT : Z := 0xffff.
Definition DATA_WIDTH : Z := 6.
Definition PAIR_ELEMENT_WIDTH : Z := 16.
Definition U16_LEAD : Z := 0xd7c0.
Definition U16_TAIL : Z := 0xdc00.
Definition DECODE_LEAD_LOW : Z := 0xD800.
Definition DECODE_LEAD_HIGH : Z := 0xDBFF.
Definition DECODE_TRAIL_LOW : Z := 0xDC00.
Definition DECODE_TRAIL_HIGH : Z := 0xDFFF.
Definition DECODE_FIRST_FACTOR : Z := 0x400.
Definition DECODE_SECOND_FACTOR : Z := 0x10000.
Definition BIT_MASK_1 : Z := 0x80.
Definition BIT_MASK_2 : Z := 0xC0.
Definition BIT_MASK_3 : Z := 0xE0.
Definition BIT_MASK_4 : Z := 0xF0.
Definition BIT_MASK_5 : Z := 0xF8.
Definition UTF8_1B_MAX : Z := 0x7f.
Definition UTF8_2B_MAX : Z := 0x7ff.
Definition UTF8_2B_FIRST : Z := 0xc0.
Definition UTF8_2B_SECOND : Z := 0x80.
Definition UTF8_3B_FIRST : Z := 0xe0.
Definition UTF8_3B_SECOND : Z := 0x80.
Definition UTF8_3B_THIRD : Z := 0x80.
Definition UTF8_4B_FIRST : Z := 0xf0.
Definition MAX_U16 : Z := 0xffff.
Definition U16_SURROGATE_OFFSET : Z := u32 (Z.shiftl 0xd800 10 + 0xdc00 - 0x10000).

Definition U16_GET_SUPPLEMENTARY (lead trail : Z) : Z :=
  u32 (u32 (Z.shiftl lead 10) + trail - U16_SURROGATE_OFFSET).

Definition SplitUtf16Pair (pr : Z) : Z * Z :=
  (u16 (Z.shiftr pr 16), u16 (Z.land pr 0xffff)).

Definition IsAvailableNextUtf16Code (val : Z) : bool :=
  (DECODE_LEAD_LOW <=? val) && (val <=? DECODE_TRAIL_HIGH).

(** [Utf8Char]: the [n] used bytes of [ch]. *)
Definition Utf8Char : Type := list Z.

(** ** Decoding one sequence *)
Definition ConvertMUtf8ToUtf16Pair (data : list Z) (maxBytes : nat) : outcome (Z * nat) :=
  let sp := take maxBytes data in
  d0 ← read sp 0;
  if Z.land d0 MASK1 =? 0 then Done (d0, 1%nat)
  else if (maxBytes <? 2)%nat then Done (d0, 1%nat)
  else
  d1 ← read sp 1;
  if Z.land d0 MASK2 =? 0
  then Done (Z.lor (Z.shiftl (Z.land d0 MASK_5BIT) DATA_WIDTH) (Z.land d1 MASK_6BIT), 2%nat)
  else if (maxBytes <? 3)%nat then Done (d0, 1%nat)
  else
  d2 ← read sp 2;
  if Z.land d0 MASK3 =? 0
  then Done (Z.lor (Z.lor (Z.shiftl (Z.land d0 MASK_4BIT) (DATA_WIDTH * 2))
                          (Z.shiftl (Z.land d1 MASK_6BIT) DATA_WIDTH))
                   (Z.land d2 MASK_6BIT), 3%nat)
  else if (maxBytes <? 4)%nat then Done (d0, 1%nat)
  else
  d3 ← read sp 3;
  let codePoint :=
    Z.lor (Z.lor (Z.lor (Z.shiftl (Z.land d0 MASK_4BIT) (DATA_WIDTH * 3))
                        (Z.shiftl (Z.land d1 MASK_6BIT) (DATA_WIDTH * 2)))
                 (Z.shiftl (Z.land d2 MASK_6BIT) DATA_WIDTH))
          (Z.land d3 MASK_6BIT) in
  let pr := Z.land (Z.shiftr codePoint (PAIR_ELEMENT_WIDTH - DATA_WIDTH) + U16_LEAD) MASK_16BIT in
  let pr := u32 (Z.shiftl pr PAIR_ELEMENT_WIDTH) in
  let pr := Z.lor pr (Z.land codePoint MASK_10BIT + U16_TAIL) in
  Done (pr, 4%nat).

Definition CombineTwoU16 (d0 d1 : Z) : Z :=
  let codePoint := u32 (d0 - DECODE_LEAD_LOW) in
  let codePoint := u32 (Z.shiftl codePoint (PAIR_ELEMENT_WIDTH - DATA_WIDTH)) in
  let codePoint := Z.lor codePoint (u32 (d1 - DECODE_TRAIL_LOW)) in
  u32 (codePoint + DECODE_SECOND_FACTOR).

(** The scan of a zero-terminated string: the list's end is past the
    terminator. *)
Fixpoint IsMUtf8OnlySingleBytes (mutf8In : list Z) : outcome bool :=
  match mutf8In with
  | [] => Crash
  | b :: rest =>
      if b =? 0 then Done true
      else if MASK1 <=? b then Done false
      else IsMUtf8OnlySingleBytes rest
  end.

(** ** Decoding a whole buffer *)
Definition push_pair (pr : Z) (out : list Z) : list Z :=
  let '(p_hi, p_lo) := SplitUtf16Pair pr in
  (if p_hi =? 0 then out else out ++ [p_hi]) ++ [p_lo].

Fixpoint ConvertMUtf8ToUtf16_loop (fuel : nat) (mutf8In : list Z) (mutf8Len inPos : nat)
  (utf16Out : list Z) : outcome (list Z) :=
  if (inPos <? mutf8Len)%nat then
    match fuel with
    | O => NoFuel
    | S fuel' =>
        '(pr, nbytes) ← ConvertMUtf8ToUtf16Pair mutf8In (mutf8Len - inPos);
        ConvertMUtf8ToUtf16_loop fuel' (drop nbytes mutf8In) mutf8Len (inPos + nbytes)
          (push_pair pr utf16Out)
    end
  else Done utf16Out.

Definition ConvertMUtf8ToUtf16 (mutf8In : list Z) (mutf8Len : nat) : outcome (list Z) :=
  ConvertMUtf8ToUtf16_loop mutf8Len mutf8In mutf8Len 0 [].

(** [ConvertRegionMUtf8ToUtf16]: [utf16Out] is the buffer behind the output
    pointer, [outPos] both the cell written next and the counter. *)
Fixpoint ConvertRegionMUtf8ToUtf16_loop (fuel : nat) (mutf8In : list Z) (mutf8Len : nat)
  (utf16Len start : Z) (inPos : nat) (utf16Out : list Z) (outPos : nat) : outcome (list Z * nat) :=
  if (inPos <? mutf8Len)%nat then
    match fuel with
    | O => NoFuel
    | S fuel' =>
        '(pr, nbytes) ← ConvertMUtf8ToUtf16Pair mutf8In (mutf8Len - inPos);
        let '(p_hi, p_lo) := SplitUtf16Pair pr in
        let mutf8In := drop nbytes mutf8In in
        let inPos := (inPos + nbytes)%nat in
        if 0 <? start then
          ConvertRegionMUtf8ToUtf16_loop fuel' mutf8In mutf8Len utf16Len
            (u64 (start - Z.of_nat nbytes)) inPos utf16Out outPos
        else if negb (p_hi =? 0) && (u64 (utf16Len - 1) <=? Z.of_nat outPos)
        then Done (utf16Out, outPos)
        else
          '(utf16Out, outPos) ←
            (if p_hi =? 0 then Done (utf16Out, outPos)
             else b ← write utf16Out outPos p_hi; Done (b, S outPos));
          if utf16Len <=? Z.of_nat outPos then Done (utf16Out, outPos)
          else
            utf16Out ← write utf16Out outPos p_lo;
            ConvertRegionMUtf8ToUtf16_loop fuel' mutf8In mutf8Len utf16Len start inPos
              utf16Out (S outPos)
    end
  else Done (utf16Out, outPos).

Definition ConvertRegionMUtf8ToUtf16 (mutf8In utf16Out : list Z) (mutf8Len : nat)
  (utf16Len start : Z) : outcome (list Z * nat) :=
  ConvertRegionMUtf8ToUtf16_loop mutf8Len mutf8In mutf8Len utf16Len start 0 utf16Out 0.

Definition ConvertRegionUtf8ToUtf16 (utf8In utf16Out : list Z) (utf8Len : nat)
  (utf16Len start : Z) : outcome (list Z * nat) :=
  ConvertRegionMUtf8ToUtf16 utf8In utf16Out utf8Len utf16Len start.

(** ** Sizes *)
Fixpoint strlen (s : list Z) : outcome nat :=
  match s with
  | [] => Crash
  | b :: rest => if b =? 0 then Done 0%nat else n ← strlen rest; Done (S n)
  end.

Definition Mutf8Size (mutf8 : list Z) : outcome nat := strlen mutf8.

Fixpoint MUtf8ToUtf16Size_loop (fuel : nat) (mutf8 : list Z) (res : Z) : outcome Z :=
  match fuel with
  | O => NoFuel
  | S fuel' =>
      b ← read mutf8 0;
      if b =? 0 then Done res
      else
        '(pr, nbytes) ← ConvertMUtf8ToUtf16Pair mutf8 4;
        MUtf8ToUtf16Size_loop fuel' (drop nbytes mutf8) (res + (if MAX_U16 <? pr then 2 else 1))
  end.

Definition MUtf8ToUtf16Size (mutf8 : list Z) : outcome Z :=
  MUtf8ToUtf16Size_loop (S (length mutf8)) mutf8 0.

Fixpoint MUtf8ToUtf16Size_len_loop (fuel : nat) (mutf8 : list Z) (mutf8Len pos : nat) (res : Z)
  : outcome Z :=
  if (pos =? mutf8Len)%nat then Done res
  else match fuel with
       | O => NoFuel
       | S fuel' =>
           '(pr, nbytes) ← ConvertMUtf8ToUtf16Pair mutf8 (mutf8Len - pos);
           let nbytes := if (nbytes =? 0)%nat then 1%nat else nbytes in
           MUtf8ToUtf16Size_len_loop fuel' (drop nbytes mutf8) mutf8Len (pos + nbytes)
             (res + (if MAX_U16 <? pr then 2 else 1))
       end.

Definition MUtf8ToUtf16Size_len (mutf8 : list Z) (mutf8Len : nat) : outcome Z :=
  MUtf8ToUtf16Size_len_loop mutf8Len mutf8 mutf8Len 0 0.

Definition Utf8ToUtf16Size (utf8 : list Z) (utf8Len : nat) : outcome Z :=
  MUtf8ToUtf16Size_len utf8 utf8Len.

(** ** Comparison *)
Definition compare_pairs (c1 c2 : Z) : Z :=
  let '(c1p1, c1p2) := SplitUtf16Pair c1 in
  let '(c2p1, c2p2) := SplitUtf16Pair c2 in
  let result := c1p1 - c2p1 in
  if negb (result =? 0) then result else c1p2 - c2p2.

Fixpoint CompareMUtf8ToMUtf8_loop (fuel : nat) (mutf81 mutf82 : list Z) : outcome Z :=
  match fuel with
  | O => NoFuel
  | S fuel' =>
      c1 ← read mutf81 0;
      c2 ← read mutf82 0;
      if (c1 =? 0) && (c2 =? 0) then Done 0
      else if (c1 =? 0) && negb (c2 =? 0) then Done (-1)
      else if negb (c1 =? 0) && (c2 =? 0) then Done 1
      else
        '(c1, n1) ← ConvertMUtf8ToUtf16Pair mutf81 4;
        '(c2, n2) ← ConvertMUtf8ToUtf16Pair mutf82 4;
        if c1 =? c2 then CompareMUtf8ToMUtf8_loop fuel' (drop n1 mutf81) (drop n2 mutf82)
        else Done (compare_pairs c1 c2)
  end.

Definition CompareMUtf8ToMUtf8 (mutf81 mutf82 : list Z) : outcome Z :=
  CompareMUtf8ToMUtf8_loop (S (length mutf81)) mutf81 mutf82.

Fixpoint CompareUtf8ToUtf8_loop (fuel : nat) (utf81 utf82 : list Z)
  (utf81Length utf82Length utf81Index utf82Index : Z) : outcome Z :=
  match fuel with
  | O => NoFuel
  | S fuel' =>
      if (utf81Index =? utf81Length) && (utf82Index =? utf82Length) then Done 0
      else if (utf81Index =? utf81Length) && (utf82Index <? utf82Length) then Done (-1)
      else if (utf81Index <? utf81Length) && (utf82Index =? utf82Length) then Done 1
      else
        _ ← read utf81 0;
        _ ← read utf82 0;
        '(c1, n1) ← ConvertMUtf8ToUtf16Pair utf81 4;
        '(c2, n2) ← ConvertMUtf8ToUtf16Pair utf82 4;
        if c1 =? c2 then
          CompareUtf8ToUtf8_loop fuel' (drop n1 utf81) (drop n2 utf82) utf81Length utf82Length
            (u32 (utf81Index + Z.of_nat n1)) (u32 (utf82Index + Z.of_nat n2))
        else Done (compare_pairs c1 c2)
  end.

Definition CompareUtf8ToUtf8 (utf81 : list Z) (utf81Length : Z) (utf82 : list Z) (utf82Length : Z)
  : outcome Z :=
  CompareUtf8ToUtf8_loop (S (length utf81)) utf81 utf82 utf81Length utf82Length 0 0.

(** [IsEqual] on two spans. *)
Definition IsEqual (utf81 utf82 : list Z) : bool :=
  if negb (length utf81 =? length utf82)%nat then false
  else forallb (fun '(a, b) => a =? b) (zip utf81 utf82).

(** ** Validity *)

(** One continuation byte at [elems]. *)
Definition is_continuation (elems : list Z) : outcome bool :=
  b ← read elems 0; Done (Z.land b 0xc0 =? 0x80).

Fixpoint IsValidModifiedUTF8_loop (fuel : nat) (elems : list Z) : outcome bool :=
  match fuel with
  | O => NoFuel
  | S fuel' =>
      let case_cd elems :=
        let elems := drop 1 elems in
        ok ← is_continuation elems;
        if negb ok then Done false else IsValidModifiedUTF8_loop fuel' (drop 1 elems) in
      let case_e elems :=
        let elems := drop 1 elems in
        ok ← is_continuation elems;
        if negb ok then Done false else case_cd elems in
      let case_f elems b :=
        if Z.land b 0x08 =? 0 then
          let elems := drop 1 elems in
          ok ← is_continuation elems;
          if negb ok then Done false else case_e elems
        else Done false in
      b ← read elems 0;
      if b =? 0 then Done true
      else
        let hi := Z.land b 0xf0 in
        if hi <=? 0x70 then IsValidModifiedUTF8_loop fuel' (drop 1 elems)
        else if hi <=? 0xb0 then Done false
        else if hi =? 0xf0 then case_f elems b
        else if hi =? 0xe0 then case_e elems
        else case_cd elems
  end.

Definition IsValidModifiedUTF8 (elems : list Z) : outcome bool :=
  IsValidModifiedUTF8_loop (S (length elems)) elems.

Definition UTF16Decode (lead trail : Z) : Z :=
  u32 ((lead - DECODE_LEAD_LOW) * DECODE_FIRST_FACTOR + (trail - DECODE_TRAIL_LOW)
       + DECODE_SECOND_FACTOR).

Definition IsValidUTF8 (data : list Z) : outcome bool :=
  let head_ok :=
    match data with
    | [d0] => Done (negb (BIT_MASK_1 <=? d0))
    | [d0; _] => Done (Z.land d0 BIT_MASK_3 =? BIT_MASK_2)
    | [d0; _; _] => Done (Z.land d0 BIT_MASK_4 =? BIT_MASK_3)
    | [d0; _; _; _] => Done (Z.land d0 BIT_MASK_5 =? BIT_MASK_4)
    | _ => Crash
    end in
  ok ← head_ok;
  if negb ok then Done false
  else Done (forallb (fun d => Z.land d BIT_MASK_2 =? BIT_MASK_1) (drop 1 data)).

(** ** Encoding *)
Definition ConvertUtf16ToUtf8 (d0 d1 : Z) (modify : bool) : outcome Utf8Char :=
  let three :=
    [ u8 (Z.lor UTF8_3B_FIRST (u8 (Z.shiftr d0 12)));
      u8 (Z.lor UTF8_3B_SECOND (Z.land (u8 (Z.shiftr d0 6)) MASK_6BIT));
      u8 (Z.lor UTF8_3B_THIRD (Z.land d0 MASK_6BIT)) ] in
  if (d1 =? 0) && (DECODE_LEAD_LOW <=? d0) && (d0 <=? DECODE_TRAIL_HIGH) then Done three
  else if d0 =? 0 then
    if modify then Done [UTF8_2B_FIRST; UTF8_2B_SECOND] else Done []
  else if d0 <=? UTF8_1B_MAX then Done [u8 d0]
  else if d0 <=? UTF8_2B_MAX then
    Done [ u8 (Z.lor UTF8_2B_FIRST (u8 (Z.shiftr d0 6)));
           u8 (Z.lor UTF8_2B_SECOND (Z.land d0 MASK_6BIT)) ]
  else if (d0 <? DECODE_LEAD_LOW) || (DECODE_LEAD_HIGH <? d0) then Done three
  else if (d1 <? DECODE_TRAIL_LOW) || (DECODE_TRAIL_HIGH <? d1) then Crash
  else
    let codePoint := CombineTwoU16 d0 d1 in
    Done [ u8 (Z.lor (Z.shiftr codePoint 18) UTF8_4B_FIRST);
           u8 (Z.lor (Z.land (Z.shiftr codePoint 12) MASK_6BIT) MASK1);
           u8 (Z.lor (Z.land (Z.shiftr codePoint 6) MASK_6BIT) MASK1);
           u8 (Z.lor (Z.land codePoint MASK_6BIT) MASK1) ].

Definition ConvertUtf16ToMUtf8 (d0 d1 : Z) : outcome Utf8Char := ConvertUtf16ToUtf8 d0 d1 true.

Fixpoint Utf16ToUtf8Size_loop (fuel : nat) (utf16 : list Z) (length i : nat) (modify : bool) (res : Z)
  : outcome Z :=
  if (i <? length)%nat then
    match fuel with
    | O => NoFuel
    | S fuel' =>
        c ← read utf16 i;
        let next := Utf16ToUtf8Size_loop fuel' utf16 length in
        if c =? 0 then next (i + 1)%nat modify (if modify then res + 2 else res)
        else if c <=? UTF8_1B_MAX then next (i + 1)%nat modify (res + 1)
        else if c <=? UTF8_2B_MAX then next (i + 1)%nat modify (res + 2)
        else if (c <? DECODE_LEAD_LOW) || (DECODE_LEAD_HIGH <? c)
        then next (i + 1)%nat modify (res + 3)
        else
          is_trail ←
            (if (i <? length - 1)%nat then
               t ← read utf16 (i + 1);
               Done ((DECODE_TRAIL_LOW <=? t) && (t <=? DECODE_TRAIL_HIGH))
             else Done false);
          if (is_trail : bool) then next (i + 2)%nat modify (res + 4) else next (i + 1)%nat modify (res + 3)
    end
  else Done res.

Definition Utf16ToUtf8Size (utf16 : list Z) (length : nat) (modify : bool) : outcome Z :=
  lone ← (if (length =? 1)%nat then
            c ← read utf16 0;
            Done ((DECODE_LEAD_LOW <=? c) && (c <=? DECODE_TRAIL_HIGH))
          else Done false);
  if (lone : bool) then Done (1 + 3)
  else Utf16ToUtf8Size_loop length utf16 length 0 modify 1.

Definition Utf16ToMUtf8Size (mutf16 : list Z) (length : nat) : outcome Z :=
  Utf16ToUtf8Size mutf16 length true.

Fixpoint ConvertRegionUtf16ToUtf8_loop (fuel : nat) (utf16In : list Z) (e i : nat) (utf8Len : nat)
  (modify : bool) (utf8Out : list Z) : outcome (list Z) :=
  if (i <? e)%nat then
    match fuel with
    | O => NoFuel
    | S fuel' =>
        next16Code ←
          (if negb (i + 1 =? e)%nat then
             c ← read utf16In (i + 1);
             Done (if IsAvailableNextUtf16Code c then c else 0)
           else Done 0);
        d0 ← read utf16In i;
        ch ← ConvertUtf16ToUtf8 d0 next16Code modify;
        if (utf8Len <? length utf8Out + length ch)%nat then Done utf8Out
        else
          ConvertRegionUtf16ToUtf8_loop fuel' utf16In e
            (if (length ch =? 4)%nat then i + 2 else i + 1)%nat utf8Len modify (utf8Out ++ ch)
    end
  else Done utf8Out.

(** The pointers can be null: [utf16In = None], [utf8Out_null]. *)
Definition ConvertRegionUtf16ToUtf8 (utf16In : option (list Z)) (utf8Out_null : bool)
  (utf16Len utf8Len start : nat) (modify : bool) : outcome (list Z) :=
  match utf16In with
  | None => Done []
  | Some utf16In =>
      if utf8Out_null || (utf8Len =? 0)%nat then Done []
      else ConvertRegionUtf16ToUtf8_loop utf16Len utf16In (start + utf16Len) start utf8Len modify []
  end.

Definition ConvertRegionUtf16ToMUtf8 (utf16In : option (list Z)) (mutf8Out_null : bool)
  (utf16Len mutf8Len start : nat) : outcome (list Z) :=
  ConvertRegionUtf16ToUtf8 utf16In mutf8Out_null utf16Len mutf8Len start true.

Definition ConvertUtf8ToUtf16Pair (data : list Z) (combine : bool) : outcome (Z * nat) :=
  d0 ← read data 0;
  if Z.land d0 MASK1 =? 0 then Done (d0, 1%nat)
  else
  d1 ← read data 1;
  if Z.land d0 MASK2 =? 0
  then Done (Z.lor (Z.shiftl (Z.land d0 MASK_5BIT) DATA_WIDTH) (Z.land d1 MASK_6BIT), 2%nat)
  else
  d2 ← read data 2;
  if Z.land d0 MASK3 =? 0
  then Done (Z.lor (Z.lor (Z.shiftl (Z.land d0 MASK_4BIT) 12)
                          (Z.shiftl (Z.land d1 MASK_6BIT) DATA_WIDTH))
                   (Z.land d2 MASK_6BIT), 3%nat)
  else
  d3 ← read data 3;
  let codePoint :=
    Z.lor (Z.lor (Z.lor (Z.shiftl (Z.land d0 MASK_4BIT) 18) (Z.shiftl (Z.land d1 MASK_6BIT) 12))
                 (Z.shiftl (Z.land d2 MASK_6BIT) DATA_WIDTH))
          (Z.land d3 MASK_6BIT) in
  let lead := Z.shiftr codePoint (PAIR_ELEMENT_WIDTH - DATA_WIDTH) + U16_LEAD in
  let tail := Z.land (Z.land codePoint MASK_10BIT + U16_TAIL) MASK_16BIT in
  let pr :=
    if combine then U16_GET_SUPPLEMENTARY lead tail
    else Z.lor (u32 (Z.shiftl lead PAIR_ELEMENT_WIDTH)) tail in
  Done (pr, 4%nat).

Definition IsUTF16SurrogatePair (lead : Z) : bool :=
  (DECODE_LEAD_LOW <=? lead) && (lead <=? DECODE_LEAD_HIGH).

(** ** Decimal digits *)
Definition BIDIGITS_CODE_TAB : list Z :=
  [0x00300030; 0x00310030; 0x00320030; 0x00330030; 0x00340030; 0x00350030; 0x00360030;
   0x00370030; 0x00380030; 0x00390030; 0x00300031; 0x00310031; 0x00320031; 0x00330031;
   0x00340031; 0x00350031; 0x00360031; 0x00370031; 0x00380031; 0x00390031; 0x00300032;
   0x00310032; 0x00320032; 0x00330032; 0x00340032; 0x00350032; 0x00360032; 0x00370032;
   0x00380032; 0x00390032; 0x00300033; 0x00310033; 0x00320033; 0x00330033; 0x00340033;
   0x00350033; 0x00360033; 0x00370033; 0x00380033; 0x00390033; 0x00300034; 0x00310034;
   0x00320034; 0x00330034; 0x00340034; 0x00350034; 0x00360034; 0x00370034; 0x00380034;
   0x00390034; 0x00300035; 0x00310035; 0x00320035; 0x00330035; 0x00340035; 0x00350035;
   0x00360035; 0x00370035; 0x00380035; 0x00390035; 0x00300036; 0x00310036; 0x00320036;
   0x00330036; 0x00340036; 0x00350036; 0x00360036; 0x00370036; 0x00380036; 0x00390036;
   0x00300037; 0x00310037; 0x00320037; 0x00330037; 0x00340037; 0x00350037; 0x00360037;
   0x00370037; 0x00380037; 0x00390037; 0x00300038; 0x00310038; 0x00320038; 0x00330038;
   0x00340038; 0x00350038; 0x00360038; 0x00370038; 0x00380038; 0x00390038; 0x00300039;
   0x00310039; 0x00320039; 0x00330039; 0x00340039; 0x00350039; 0x00360039; 0x00370039;
   0x00380039; 0x00390039].

(** A store of 32 bits through [out], a [uint32_t] pointer into the middle of
    the [uint16_t] buffer: two cells, the low half first. *)
Definition write_bidigits (buf : list Z) (nDigits : nat) (i : Z) (code : Z) : outcome (list Z) :=
  let at_ := Z.of_nat nDigits + 2 * i in
  if at_ <? 0 then Crash
  else
    buf ← write buf (Z.to_nat at_) (Z.land code 0xffff);
    write buf (Z.to_nat (at_ + 1)) (Z.shiftr code 16).

Fixpoint UInt64ToUtf16Array_loop (fuel : nat) (v : Z) (buf : list Z) (nDigits : nat) (i : Z)
  : outcome (Z * list Z * Z) :=
  if 100 <=? v then
    match fuel with
    | O => NoFuel
    | S fuel' =>
        let i := i - 1 in
        code ← read BIDIGITS_CODE_TAB (Z.to_nat (v mod 100));
        buf ← write_bidigits buf nDigits i code;
        UInt64ToUtf16Array_loop fuel' (v / 100) buf nDigits i
    end
  else Done (v, buf, i).

(** A 64-bit value has at most ten pairs of digits. *)
Definition UInt64ToUtf16Array (v : Z) (outUtf16Buf : list Z) (nDigits : nat) (negative : bool)
  : outcome (list Z) :=
  '(v, buf, i) ← UInt64ToUtf16Array_loop 10 v outUtf16Buf nDigits 0;
  buf ← (if 10 <=? v then
           let i := i - 1 in
           code ← read BIDIGITS_CODE_TAB (Z.to_nat v);
           write_bidigits buf nDigits i code
         else write buf (if negative then 1 else 0)%nat (v + 48));
  if negative then write buf 0 45 else Done buf.

Example conv_ex : ConvertMUtf8ToUtf16 [0x41; 0xc0; 0x80; 0xf0; 0x9f; 0x98; 0x80] 7
  = Done [0x41; 0; 0xd83d; 0xde00].
Proof. vm_compute. reflexivity. Qed.
Example dig_ex : UInt64ToUtf16Array 1234567 (replicate 8 0) 8 true
  = Done [45; 49; 50; 51; 52; 53; 54; 55].
Proof. vm_compute. reflexivity. Qed.

(** ** Sequences in normal form: lead byte plus continuation bytes *)
Section sequences.

Lemma lead1_test (b : Z) : 0 <= b < 128 -> Z.land b MASK1 = 0.
Proof. intros; apply Z.eqb_eq. by_cases_below b 128. Qed.

Lemma cont_payload (b : Z) : 0 <= b < 64 -> Z.land (128 + b) MASK_6BIT = b.
Proof. intros; apply Z.eqb_eq. by_cases_below b 64. Qed.

Lemma lead2_test (a : Z) :
  0 <= a < 32 ->
  (Z.land (192 + a) MASK1 =? 0) = false /\ (Z.land (192 + a) MASK2 =? 0) = true
  /\ Z.land (192 + a) MASK_5BIT = a.
Proof.
  intros. repeat split; [apply negb_true_iff| |apply Z.eqb_eq]; by_cases_below a 32.
Qed.

Lemma lead3_test (a : Z) :
  0 <= a < 16 ->
  (Z.land (224 + a) MASK1 =? 0) = false /\ (Z.land (224 + a) MASK2 =? 0) = false
  /\ (Z.land (224 + a) MASK3 =? 0) = true /\ Z.land (224 + a) MASK_4BIT = a.
Proof.
  intros. repeat split; [apply negb_true_iff|apply negb_true_iff| |apply Z.eqb_eq]; by_cases_below a 16.
Qed.

Lemma lead4_test (a : Z) :
  0 <= a < 8 ->
  (Z.land (240 + a) MASK1 =? 0) = false /\ (Z.land (240 + a) MASK2 =? 0) = false
  /\ (Z.land (240 + a) MASK3 =? 0) = false /\ Z.land (240 + a) MASK_4BIT = a.
Proof.
  intros. repeat split; [apply negb_true_iff..|apply Z.eqb_eq]; by_cases_below a 8.
Qed.

Lemma land_1023 (x : Z) : Z.land x 1023 = x mod 1024.
Proof. exact (land_mask x 10 ltac:(lia)). Qed.

Lemma land_65535 (x : Z) : Z.land x 65535 = x mod 65536.
Proof. exact (land_mask x 16 ltac:(lia)). Qed.

Lemma land_63 (x : Z) : Z.land x MASK_6BIT = x mod 64.
Proof. exact (land_mask x 6 ltac:(lia)). Qed.

Lemma lor_hi (n h l : Z) : 0 <= n -> 0 <= l < 2 ^ n -> Z.lor (Z.shiftl h n) l = h * 2 ^ n + l.
Proof. intros. rewrite Z.lor_comm, lor_add by lia. lia. Qed.

Lemma join3 (a b c : Z) :
  0 <= b < 64 -> 0 <= c < 64 ->
  Z.lor (Z.lor (Z.shiftl a 12) (Z.shiftl b 6)) c = a * 4096 + b * 64 + c.
Proof.
  intros. replace 12 with (6 + 6) by done.
  rewrite <- Z.shiftl_shiftl, <- Z.shiftl_lor, lor_hi, lor_hi by lia. lia.
Qed.

Lemma join4 (a b c d : Z) :
  0 <= b < 64 -> 0 <= c < 64 -> 0 <= d < 64 ->
  Z.lor (Z.lor (Z.lor (Z.shiftl a 18) (Z.shiftl b 12)) (Z.shiftl c 6)) d
  = a * 262144 + b * 4096 + c * 64 + d.
Proof.
  intros. replace 18 with (12 + 6) by done. replace (Z.shiftl b 12) with (Z.shiftl (Z.shiftl b 6) 6)
    by (by rewrite Z.shiftl_shiftl by lia).
  rewrite <- Z.shiftl_shiftl, <- !Z.shiftl_lor, lor_hi, join3 by lia. lia.
Qed.

Context (rest : list Z).

Lemma decode1 (maxBytes : nat) (b : Z) :
  (1 <= maxBytes)%nat -> 0 <= b < 128 -> ConvertMUtf8ToUtf16Pair (b :: rest) maxBytes = Done (b, 1%nat).
Proof.
  intros Hn Hb. unfold ConvertMUtf8ToUtf16Pair. destruct maxBytes as [|n]; [lia|].
  simpl. unfold read; simpl. by rewrite lead1_test.
Qed.

Lemma decode2 (maxBytes : nat) (a b : Z) :
  (2 <= maxBytes)%nat -> 0 <= a < 32 -> 0 <= b < 64 ->
  ConvertMUtf8ToUtf16Pair ((192 + a) :: (128 + b) :: rest) maxBytes = Done (a * 64 + b, 2%nat).
Proof.
  intros Hn Ha Hb. unfold ConvertMUtf8ToUtf16Pair. do 2 (destruct maxBytes as [|maxBytes]; [lia|]).
  unfold read; simpl. destruct (lead2_test a Ha) as (-> & -> & ->).
  rewrite cont_payload, lor_hi by (unfold DATA_WIDTH; lia). done.
Qed.

Lemma decode3 (maxBytes : nat) (a b c : Z) :
  (3 <= maxBytes)%nat -> 0 <= a < 16 -> 0 <= b < 64 -> 0 <= c < 64 ->
  ConvertMUtf8ToUtf16Pair ((224 + a) :: (128 + b) :: (128 + c) :: rest) maxBytes
  = Done (a * 4096 + b * 64 + c, 3%nat).
Proof.
  intros Hn Ha Hb Hc. unfold ConvertMUtf8ToUtf16Pair. do 3 (destruct maxBytes as [|maxBytes]; [lia|]).
  unfold read; simpl. destruct (lead3_test a Ha) as (-> & -> & -> & ->).
  rewrite !cont_payload by lia. unfold DATA_WIDTH. rewrite join3 by lia. done.
Qed.

Lemma decode4 (maxBytes : nat) (a b c d : Z) :
  (4 <= maxBytes)%nat -> 0 <= a < 8 -> 0 <= b < 64 -> 0 <= c < 64 -> 0 <= d < 64 ->
  let cp := a * 262144 + b * 4096 + c * 64 + d in
  ConvertMUtf8ToUtf16Pair ((240 + a) :: (128 + b) :: (128 + c) :: (128 + d) :: rest) maxBytes
  = Done ((cp / 1024 + U16_LEAD) * 65536 + (cp mod 1024 + U16_TAIL), 4%nat).
Proof.
  intros Hn Ha Hb Hc Hd cp. unfold ConvertMUtf8ToUtf16Pair.
  do 4 (destruct maxBytes as [|maxBytes]; [lia|]).
  unfold read; simpl. destruct (lead4_test a Ha) as (-> & -> & -> & ->).
  rewrite !cont_payload by lia. unfold DATA_WIDTH. rewrite join4 by lia. fold cp.
  unfold PAIR_ELEMENT_WIDTH, MASK_10BIT, MASK_16BIT, U16_LEAD, U16_TAIL.
  rewrite land_1023, land_65535. rewrite Z.shiftr_div_pow2 by lia.
  change (2 ^ (16 - 6)) with 1024.
  assert (Hcp : 0 <= cp < 2097152) by (unfold cp; lia).
  pose proof (Z.mod_pos_bound cp 1024 ltac:(lia)).
  assert (0 <= cp / 1024 < 2048) by (split; [apply Z.div_pos|apply Z.div_lt_upper_bound]; lia).
  rewrite (Z.mod_small (_ + 55232)) by lia.
  rewrite (wrapu_id 32) by (unfold in_u; rewrite Z.shiftl_mul_pow2 by lia; lia).
  rewrite lor_hi by lia. done.
Qed.

End sequences.

(** ** What the encoder writes, in normal form *)
Definition is_lead (c : Z) : bool := (DECODE_LEAD_LOW <=? c) && (c <=? DECODE_LEAD_HIGH).
Definition is_trail (c : Z) : bool := (DECODE_TRAIL_LOW <=? c) && (c <=? DECODE_TRAIL_HIGH).

(** A code unit on its own. *)
Definition unit_bytes (d : Z) : list Z :=
  if d =? 0 then [192; 128]
  else if d <=? 127 then [d]
  else if d <=? 2047 then [192 + d / 64; 128 + d mod 64]
  else [224 + d / 4096; 128 + d / 64 mod 64; 128 + d mod 64].

(** A surrogate pair, through its code point. *)
Definition pair_bytes (d0 d1 : Z) : list Z :=
  let cp := (d0 - 0xd800) * 1024 + (d1 - 0xdc00) + 0x10000 in
  [240 + cp / 262144; 128 + cp / 4096 mod 64; 128 + cp / 64 mod 64; 128 + cp mod 64].

Lemma enc_lead3 (a : Z) : 0 <= a < 16 -> u8 (Z.lor UTF8_3B_FIRST a) = 224 + a.
Proof. intros; apply Z.eqb_eq. by_cases_below a 16. Qed.
Lemma enc_lead2 (a : Z) : 0 <= a < 32 -> u8 (Z.lor UTF8_2B_FIRST a) = 192 + a.
Proof. intros; apply Z.eqb_eq. by_cases_below a 32. Qed.
Lemma enc_lead4 (a : Z) : 0 <= a < 8 -> u8 (Z.lor a UTF8_4B_FIRST) = 240 + a.
Proof. intros; apply Z.eqb_eq. by_cases_below a 8. Qed.
Lemma enc_cont (a : Z) : 0 <= a < 64 -> u8 (Z.lor 128 a) = 128 + a.
Proof. intros; apply Z.eqb_eq. by_cases_below a 64. Qed.
Lemma enc_cont' (a : Z) : 0 <= a < 64 -> u8 (Z.lor a MASK1) = 128 + a.
Proof. intros; apply Z.eqb_eq. by_cases_below a 64. Qed.

Lemma enc_three (d : Z) :
  in_u 16 d ->
  [ u8 (Z.lor UTF8_3B_FIRST (u8 (Z.shiftr d 12)));
    u8 (Z.lor UTF8_3B_SECOND (Z.land (u8 (Z.shiftr d 6)) MASK_6BIT));
    u8 (Z.lor UTF8_3B_THIRD (Z.land d MASK_6BIT)) ]
  = [224 + d / 4096; 128 + d / 64 mod 64; 128 + d mod 64].
Proof.
  unfold in_u; intros Hd. rewrite !Z.shiftr_div_pow2 by lia.
  change (2 ^ 12) with 4096. change (2 ^ 6) with 64.
  assert (0 <= d / 4096 < 16) by (split; [apply Z.div_pos|apply Z.div_lt_upper_bound]; lia).
  rewrite (wrapu_id 8 (d / 4096)), enc_lead3 by (unfold in_u; lia).
  rewrite !land_63. replace (u8 (d / 64) mod 64) with (d / 64 mod 64)
    by (symmetry; apply (wrapu_mod_le 6 8); lia).
  unfold UTF8_3B_SECOND, UTF8_3B_THIRD.
  rewrite !enc_cont by (apply Z.mod_pos_bound; lia). done.
Qed.

Lemma encode_unit (d next : Z) :
  in_u 16 d -> (is_lead d = true -> next = 0) ->
  ConvertUtf16ToUtf8 d next true = Done (unit_bytes d).
Proof.
  intros Hd Hnext. unfold ConvertUtf16ToUtf8. rewrite (enc_three d) by done.
  unfold in_u in Hd. unfold unit_bytes.
  unfold is_lead, DECODE_LEAD_LOW, DECODE_LEAD_HIGH, DECODE_TRAIL_HIGH, DECODE_TRAIL_LOW in *.
  destruct ((next =? 0) && (0xd800 <=? d) && (d <=? 0xdfff)) eqn:E1.
  { rewrite !(proj2 (Z.eqb_neq d 0)), !(proj2 (Z.leb_gt d _)) by lia. done. }
  destruct (d =? 0) eqn:E2; [done|]. unfold UTF8_1B_MAX, UTF8_2B_MAX.
  destruct (d <=? 127) eqn:E3; [by rewrite (wrapu_id 8) by (unfold in_u; lia)|].
  destruct (d <=? 2047) eqn:E4.
  - rewrite Z.shiftr_div_pow2 by lia. change (2 ^ 6) with 64.
    assert (0 <= d / 64 < 32) by (split; [apply Z.div_pos|apply Z.div_lt_upper_bound]; lia).
    rewrite (wrapu_id 8 (d / 64)), enc_lead2, land_63 by (unfold in_u; lia).
    unfold UTF8_2B_SECOND. rewrite enc_cont by (apply Z.mod_pos_bound; lia). done.
  - destruct ((d <? 0xd800) || (0xdbff <? d)) eqn:E5; [done|].
    rewrite Hnext in E1 by lia. lia.
Qed.

Lemma CombineTwoU16_cp (d0 d1 : Z) :
  is_lead d0 = true -> is_trail d1 = true ->
  CombineTwoU16 d0 d1 = (d0 - 0xd800) * 1024 + (d1 - 0xdc00) + 0x10000.
Proof.
  unfold is_lead, is_trail, CombineTwoU16, DECODE_LEAD_LOW, DECODE_LEAD_HIGH, DECODE_TRAIL_LOW,
    DECODE_TRAIL_HIGH, DECODE_SECOND_FACTOR. intros H0 H1.
  rewrite !(wrapu_id 32 (_ - _)) by (unfold in_u; lia).
  rewrite (wrapu_id 32 (Z.shiftl _ _)) by (unfold in_u; rewrite Z.shiftl_mul_pow2 by (unfold PAIR_ELEMENT_WIDTH, DATA_WIDTH; lia); unfold PAIR_ELEMENT_WIDTH, DATA_WIDTH; change (2 ^ (16 - 6)) with 1024; lia).
  unfold PAIR_ELEMENT_WIDTH, DATA_WIDTH.
  rewrite lor_hi by (change (2 ^ (16 - 6)) with 1024; lia). change (2 ^ (16 - 6)) with 1024.
  apply wrapu_id. unfold in_u. lia.
Qed.

Lemma encode_pair (d0 d1 : Z) (modify : bool) :
  is_lead d0 = true -> is_trail d1 = true ->
  ConvertUtf16ToUtf8 d0 d1 modify = Done (pair_bytes d0 d1).
Proof.
  intros H0 H1. unfold ConvertUtf16ToUtf8, pair_bytes. rewrite CombineTwoU16_cp by done.
  unfold is_lead, is_trail, DECODE_LEAD_LOW, DECODE_LEAD_HIGH, DECODE_TRAIL_LOW,
    DECODE_TRAIL_HIGH, UTF8_1B_MAX, UTF8_2B_MAX in *.
  rewrite (proj2 (Z.eqb_neq d1 0)), (proj2 (Z.eqb_neq d0 0)) by lia. cbn [andb].
  rewrite !(proj2 (Z.leb_gt d0 _)) by lia.
  replace ((d0 <? 0xd800) || (0xdbff <? d0)) with false by lia.
  replace ((d1 <? 0xdc00) || (0xdfff <? d1)) with false by lia.
  set (cp := (d0 - 0xd800) * 1024 + (d1 - 0xdc00) + 0x10000).
  assert (Hcp : 0x10000 <= cp < 0x110000) by (unfold cp; lia).
  rewrite !Z.shiftr_div_pow2 by lia. change (2 ^ 18) with 262144.
  change (2 ^ 12) with 4096. change (2 ^ 6) with 64.
  assert (0 <= cp / 262144 < 8) by (split; [apply Z.div_pos|apply Z.div_lt_upper_bound]; lia).
  rewrite enc_lead4 by lia. rewrite !land_63, !enc_cont' by (apply Z.mod_pos_bound; lia). done.
Qed.

Lemma div_mod_64 (x : Z) : 0 <= x mod 64 < 64 /\ x = x / 64 * 64 + x mod 64.
Proof. pose proof (Z.mod_pos_bound x 64 ltac:(lia)). pose proof (Z.div_mod x 64 ltac:(lia)). lia. Qed.

Lemma div_4096 (x : Z) : x / 4096 = x / 64 / 64.
Proof. by rewrite Z.div_div by lia. Qed.

Lemma decode_unit (d : Z) (rest : list Z) (n : nat) :
  in_u 16 d -> (length (unit_bytes d) <= n)%nat ->
  ConvertMUtf8ToUtf16Pair (unit_bytes d ++ rest) n = Done (d, length (unit_bytes d)).
Proof.
  unfold in_u, unit_bytes. intros Hd Hn. pose proof (div_mod_64 d). pose proof (div_mod_64 (d / 64)).
  destruct (d =? 0) eqn:E0; [apply Z.eqb_eq in E0; subst; by apply (decode2 rest n 0 0)|].
  destruct (d <=? 127) eqn:E1; [apply decode1; simpl in *; lia|].
  destruct (d <=? 2047) eqn:E2; simpl in Hn; cbn [app length].
  - rewrite decode2 by lia. do 2 f_equal. lia.
  - rewrite div_4096. rewrite decode3 by lia. do 2 f_equal. lia.
Qed.

Lemma decode_pair (d0 d1 : Z) (rest : list Z) (n : nat) :
  is_lead d0 = true -> is_trail d1 = true -> (4 <= n)%nat ->
  ConvertMUtf8ToUtf16Pair (pair_bytes d0 d1 ++ rest) n = Done (d0 * 65536 + d1, 4%nat).
Proof.
  unfold is_lead, is_trail, DECODE_LEAD_LOW, DECODE_LEAD_HIGH, DECODE_TRAIL_LOW, DECODE_TRAIL_HIGH.
  intros H0 H1 Hn. unfold pair_bytes. cbn [app].
  set (cp := (d0 - 0xd800) * 1024 + (d1 - 0xdc00) + 0x10000).
  pose proof (div_mod_64 cp). pose proof (div_mod_64 (cp / 64)). pose proof (div_mod_64 (cp / 64 / 64)).
  assert (E18 : cp / 262144 = cp / 64 / 64 / 64) by (by rewrite !Z.div_div by lia).
  assert (Hcp : 0x10000 <= cp < 0x110000) by (unfold cp; lia).
  rewrite E18, div_4096. rewrite decode4 by lia.
  replace (cp / 64 / 64 / 64 * 262144 + cp / 64 / 64 mod 64 * 4096 + cp / 64 mod 64 * 64 + cp mod 64)
    with cp by lia.
  assert (Eq : cp / 1024 = d0 - 0xd800 + 64)
    by (symmetry; apply (Z.div_unique cp 1024 _ (d1 - 0xdc00)); unfold cp; lia).
  assert (Er : cp mod 1024 = d1 - 0xdc00)
    by (symmetry; apply (Z.mod_unique cp 1024 (d0 - 0xd800 + 64)); unfold cp; lia).
  rewrite Eq, Er. unfold U16_LEAD, U16_TAIL. do 2 f_equal. lia.
Qed.

(** ** Strings *)
Lemma pair_list_ind (P : list Z -> Prop) :
  P [] -> (forall d, P [d]) -> (forall d0 d1 t, P t -> P (d1 :: t) -> P (d0 :: d1 :: t)) ->
  forall s, P s.
Proof.
  intros Hnil Hone Hcons s. cut (P s /\ forall d, P (d :: s)); [by intros [? _]|].
  induction s as [|d1 s [IH1 IH2]]; [done|]. split; [done|]. intros d0. by apply Hcons.
Qed.

(** The modified UTF-8 text of a UTF-16 string. *)
Fixpoint mutf8_text (s : list Z) : list Z :=
  match s with
  | [] => []
  | d0 :: rest =>
      match rest with
      | [] => unit_bytes d0
      | d1 :: rest' =>
          if is_lead d0 && is_trail d1 then pair_bytes d0 d1 ++ mutf8_text rest'
          else unit_bytes d0 ++ mutf8_text rest
      end
  end.

(** No lead surrogate directly followed by another one. *)
Fixpoint no_double_lead (s : list Z) : bool :=
  match s with
  | d0 :: ((d1 :: _) as rest) => negb (is_lead d0 && is_lead d1) && no_double_lead rest
  | _ => true
  end.

Lemma no_double_lead_cons (d0 d1 : Z) (t : list Z) :
  no_double_lead (d0 :: d1 :: t) = true ->
  negb (is_lead d0 && is_lead d1) = true /\ no_double_lead (d1 :: t) = true.
Proof. exact (proj1 (andb_true_iff _ _)). Qed.

Lemma no_double_lead_tail (d : Z) (t : list Z) :
  no_double_lead (d :: t) = true -> no_double_lead t = true.
Proof. destruct t; [done|]. intros H. apply no_double_lead_cons in H. tauto. Qed.

Lemma unit_bytes_length (d : Z) :
  (1 <= length (unit_bytes d) <= 3)%nat.
Proof. unfold unit_bytes. repeat case_match; simpl; lia. Qed.

Lemma next_code (a b : Z) :
  in_u 16 b -> negb (is_lead a && is_lead b) = true -> (is_lead a && is_trail b) = false ->
  is_lead a = true -> (if IsAvailableNextUtf16Code b then b else 0) = 0.
Proof.
  unfold IsAvailableNextUtf16Code, is_lead, is_trail, in_u, DECODE_LEAD_LOW, DECODE_LEAD_HIGH,
    DECODE_TRAIL_LOW, DECODE_TRAIL_HIGH. intros. case_match; lia.
Qed.

Lemma trail_available (b : Z) : is_trail b = true -> IsAvailableNextUtf16Code b = true.
Proof.
  unfold IsAvailableNextUtf16Code, is_trail, DECODE_LEAD_LOW, DECODE_TRAIL_LOW, DECODE_TRAIL_HIGH. lia.
Qed.

Lemma read_mid {A} (pre : list A) (x : A) (t : list A) : read (pre ++ x :: t) (length pre) = Done x.
Proof. unfold read. by rewrite list_lookup_middle. Qed.

Lemma read_mid_next {A} (pre : list A) (x y : A) (t : list A) :
  read (pre ++ x :: y :: t) (length pre + 1) = Done y.
Proof.
  change (x :: y :: t) with ([x] ++ y :: t). rewrite app_assoc.
  replace (length pre + 1)%nat with (length (pre ++ [x])) by (rewrite length_app; simpl; lia).
  apply read_mid.
Qed.

Lemma ConvertRegion_encodes (t : list Z) :
  forall (pre out : list Z) (fuel cap : nat),
  Forall (in_u 16) t -> no_double_lead t = true -> (length t <= fuel)%nat ->
  (length out + length (mutf8_text t) <= cap)%nat ->
  ConvertRegionUtf16ToUtf8_loop fuel (pre ++ t) (length (pre ++ t)) (length pre) cap true out
  = Done (out ++ mutf8_text t).
Proof.
  induction t as [|d|d0 d1 t IH1 IH2] using pair_list_ind; intros pre out fuel cap Hu Hn Hf Hc.
  - rewrite app_nil_r. cbn [mutf8_text]. rewrite app_nil_r.
    destruct fuel; simpl; by rewrite Nat.ltb_irrefl.
  - inversion Hu; subst. rewrite length_app. destruct fuel as [|fuel]; [simpl in *; lia|].
    cbn [ConvertRegionUtf16ToUtf8_loop mutf8_text length] in *.
    rewrite (proj2 (Nat.ltb_lt _ _)), Nat.eqb_refl by lia. cbn [mbind outcome_bind negb].
    rewrite read_mid. cbn [mbind outcome_bind]. rewrite encode_unit by done. cbn [mbind outcome_bind].
    rewrite (proj2 (Nat.ltb_ge _ _)) by lia. pose proof (unit_bytes_length d).
    rewrite (proj2 (Nat.eqb_neq _ 4)) by lia.
    destruct fuel; cbn [ConvertRegionUtf16ToUtf8_loop]; by rewrite Nat.ltb_irrefl.
  - inversion Hu as [|?? Hd0 Hu']; subst. inversion Hu' as [|?? Hd1 Hu'']; subst.
    apply no_double_lead_cons in Hn as [Hll Hn].
    destruct fuel as [|fuel]; [simpl in *; lia|].
    cbn [ConvertRegionUtf16ToUtf8_loop].
    rewrite (proj2 (Nat.ltb_lt _ _)) by (rewrite length_app; simpl; lia).
    rewrite (proj2 (Nat.eqb_neq _ _)) by (rewrite length_app; simpl; lia). cbn [negb].
    rewrite read_mid_next. cbn [mbind outcome_bind]. rewrite read_mid. cbn [mbind outcome_bind].
    cbn [mutf8_text] in *. destruct (is_lead d0 && is_trail d1) eqn:Ep.
    + apply andb_true_iff in Ep as [El Et]. rewrite trail_available by done.
      rewrite encode_pair by done. cbn [mbind outcome_bind]. rewrite length_app in Hc.
      rewrite (proj2 (Nat.ltb_ge _ _)) by lia. change (length (pair_bytes d0 d1) =? 4)%nat with true.
      change (d0 :: d1 :: t) with ([d0; d1] ++ t). rewrite app_assoc.
      replace (length pre + 2)%nat with (length (pre ++ [d0; d1])) by (rewrite length_app; simpl; lia).
      cbv iota. apply no_double_lead_tail in Hn.
      rewrite IH1; [by rewrite <- app_assoc|done|done|simpl in *; lia|rewrite length_app; lia].
    + rewrite encode_unit; [|done|by eapply next_code]. cbn [mbind outcome_bind].
      rewrite length_app in Hc. rewrite (proj2 (Nat.ltb_ge _ _)) by lia.
      pose proof (unit_bytes_length d0). rewrite (proj2 (Nat.eqb_neq _ 4)) by lia.
      change (d0 :: d1 :: t) with ([d0] ++ d1 :: t). rewrite app_assoc.
      replace (length pre + 1)%nat with (length (pre ++ [d0])) by (rewrite length_app; simpl; lia).
      rewrite IH2; [by rewrite <- app_assoc|done|done|simpl in *; lia|rewrite length_app; lia].
Qed.

(** The announced size is the number of bytes written, plus the final zero. *)
Lemma unit_size (d res : Z) :
  in_u 16 d ->
  res + Z.of_nat (length (unit_bytes d))
  = if d =? 0 then res + 2 else if d <=? UTF8_1B_MAX then res + 1
    else if d <=? UTF8_2B_MAX then res + 2 else res + 3.
Proof. intros _. unfold unit_bytes, UTF8_1B_MAX, UTF8_2B_MAX. repeat case_match; simpl; lia. Qed.

Lemma Utf16ToUtf8Size_loop_text (t : list Z) :
  forall (pre : list Z) (fuel : nat) (res : Z),
  Forall (in_u 16) t -> (length t <= fuel)%nat ->
  Utf16ToUtf8Size_loop fuel (pre ++ t) (length (pre ++ t)) (length pre) true res
  = Done (res + Z.of_nat (length (mutf8_text t))).
Proof.
  induction t as [|d|d0 d1 t IH1 IH2] using pair_list_ind; intros pre fuel res Hu Hf.
  - rewrite app_nil_r. destruct fuel; simpl; rewrite Nat.ltb_irrefl; f_equal; lia.
  - inversion Hu as [|?? Hd]; subst. rewrite length_app. destruct fuel as [|fuel]; [simpl in *; lia|].
    cbn [mutf8_text]. rewrite unit_size by done.
    cbn [Utf16ToUtf8Size_loop length]. rewrite (proj2 (Nat.ltb_lt _ _)) by lia.
    rewrite read_mid. cbn [mbind outcome_bind].
    rewrite (proj2 (Nat.ltb_ge _ (length pre + 1 - 1))) by lia. cbn [mbind outcome_bind].
    repeat case_match; try done;
      destruct fuel; cbn [Utf16ToUtf8Size_loop]; rewrite Nat.ltb_irrefl; done.
  - inversion Hu as [|?? Hd0 Hu']; subst. inversion Hu' as [|?? Hd1 Hu'']; subst.
    destruct fuel as [|fuel]; [simpl in *; lia|]. cbn [Utf16ToUtf8Size_loop mutf8_text].
    rewrite (proj2 (Nat.ltb_lt _ _)) by (rewrite length_app; simpl; lia).
    rewrite read_mid. cbn [mbind outcome_bind].
    rewrite (proj2 (Nat.ltb_lt (length pre) (_ - 1))) by (rewrite length_app; simpl; lia).
    rewrite read_mid_next. cbn [mbind outcome_bind].
    change ((DECODE_TRAIL_LOW <=? d1) && (d1 <=? DECODE_TRAIL_HIGH)) with (is_trail d1).
    destruct (is_lead d0 && is_trail d1) eqn:Ep.
    + apply andb_true_iff in Ep as [El Et]. rewrite Et.
      unfold is_lead, DECODE_LEAD_LOW, DECODE_LEAD_HIGH, UTF8_1B_MAX, UTF8_2B_MAX in *.
      rewrite (proj2 (Z.eqb_neq d0 0)), !(proj2 (Z.leb_gt d0 _)) by lia.
      replace ((d0 <? 0xd800) || (0xdbff <? d0)) with false by lia.
      change (d0 :: d1 :: t) with ([d0; d1] ++ t). rewrite app_assoc.
      replace (length pre + 2)%nat with (length (pre ++ [d0; d1])) by (rewrite length_app; simpl; lia).
      rewrite IH1; [|done|simpl in *; lia]. rewrite (length_app (pair_bytes d0 d1)).
      change (length (pair_bytes d0 d1)) with 4%nat.
      f_equal. lia.
    + rewrite (length_app (unit_bytes d0)), Nat2Z.inj_add, Z.add_assoc, unit_size by done.
      change (d0 :: d1 :: t) with ([d0] ++ d1 :: t). rewrite app_assoc.
      replace (length pre + 1)%nat with (length (pre ++ [d0])) by (rewrite length_app; simpl; lia).
      assert (Hf' : (length (d1 :: t) <= fuel)%nat) by (simpl in *; lia).
      destruct (d0 =? 0); [by apply IH2|]. destruct (d0 <=? UTF8_1B_MAX); [by apply IH2|].
      destruct (d0 <=? UTF8_2B_MAX); [by apply IH2|].
      destruct ((d0 <? DECODE_LEAD_LOW) || (DECODE_LEAD_HIGH <? d0)) eqn:El; [by apply IH2|].
      assert (is_lead d0 = true) as Hl
        by (unfold is_lead, DECODE_LEAD_LOW, DECODE_LEAD_HIGH in *; lia).
      rewrite Hl in Ep. cbn [andb] in Ep. rewrite Ep. by apply IH2.
Qed.

Lemma Utf16ToMUtf8Size_text (s : list Z) :
  Forall (in_u 16) s ->
  Utf16ToMUtf8Size s (length s) = Done (1 + Z.of_nat (length (mutf8_text s))).
Proof.
  intros Hs. unfold Utf16ToMUtf8Size, Utf16ToUtf8Size.
  pose proof (Utf16ToUtf8Size_loop_text s [] (length s) 1 Hs ltac:(lia)) as E. cbn [app length] in E.
  destruct (length s =? 1)%nat eqn:El; [|exact E].
  destruct s as [|d [|]]; try done. unfold read. cbn [lookup list_lookup mbind outcome_bind].
  destruct ((DECODE_LEAD_LOW <=? d) && (d <=? DECODE_TRAIL_HIGH)) eqn:Ed; [|exact E].
  cbn [mutf8_text]. unfold DECODE_LEAD_LOW, DECODE_TRAIL_HIGH, unit_bytes in *.
  rewrite (proj2 (Z.eqb_neq d 0)), !(proj2 (Z.leb_gt d _)) by lia. done.
Qed.

(** The decoder gives back the string. *)
Lemma push_pair_unit (d : Z) (out : list Z) : in_u 16 d -> push_pair d out = out ++ [d].
Proof.
  unfold in_u, push_pair, SplitUtf16Pair. intros. rewrite Z.shiftr_div_pow2, Z.div_small by lia.
  change (u16 0 =? 0) with true. cbv iota. rewrite land_65535, Z.mod_small by lia.
  by rewrite wrapu_id by (unfold in_u; lia).
Qed.

Lemma push_pair_pair (d0 d1 : Z) (out : list Z) :
  in_u 16 d0 -> in_u 16 d1 -> d0 <> 0 -> push_pair (d0 * 65536 + d1) out = out ++ [d0; d1].
Proof.
  unfold in_u, push_pair, SplitUtf16Pair. intros. rewrite Z.shiftr_div_pow2 by lia.
  change (2 ^ 16) with 65536 in *. rewrite Z.div_add_l, (Z.div_small d1), Z.add_0_r by lia.
  rewrite land_65535, Z.add_comm, Z_mod_plus_full, Z.mod_small by lia.
  rewrite !(wrapu_id 16) by (unfold in_u; lia). rewrite (proj2 (Z.eqb_neq d0 0)) by done.
  by rewrite <- app_assoc.
Qed.

Lemma ConvertMUtf8_decodes (t : list Z) :
  forall (suf out : list Z) (fuel pos : nat),
  Forall (in_u 16) t -> (length (mutf8_text t) <= fuel)%nat ->
  ConvertMUtf8ToUtf16_loop fuel (mutf8_text t ++ suf) (pos + length (mutf8_text t)) pos out
  = Done (out ++ t).
Proof.
  induction t as [|d|d0 d1 t IH1 IH2] using pair_list_ind; intros suf out fuel pos Hu Hf.
  - rewrite app_nil_r. simpl (length _). rewrite Nat.add_0_r.
    destruct fuel; simpl; by rewrite Nat.ltb_irrefl.
  - inversion Hu as [|?? Hd]; subst. cbn [mutf8_text] in *. pose proof (unit_bytes_length d).
    destruct fuel as [|fuel]; [lia|]. cbn [ConvertMUtf8ToUtf16_loop].
    rewrite (proj2 (Nat.ltb_lt _ _)) by lia.
    rewrite decode_unit by (done || lia). cbn [mbind outcome_bind].
    rewrite push_pair_unit by done. destruct fuel; simpl; by rewrite Nat.ltb_irrefl.
  - inversion Hu as [|?? Hd0 Hu']; subst. inversion Hu' as [|?? Hd1 Hu'']; subst.
    cbn [mutf8_text] in *. destruct (is_lead d0 && is_trail d1) eqn:Ep.
    + apply andb_true_iff in Ep as [El Et]. rewrite length_app in *.
      change (length (pair_bytes d0 d1)) with 4%nat in *.
      destruct fuel as [|fuel]; [lia|]. cbn [ConvertMUtf8ToUtf16_loop].
      rewrite (proj2 (Nat.ltb_lt _ _)) by lia. rewrite <- app_assoc.
      rewrite decode_pair by (done || lia). cbn [mbind outcome_bind].
      rewrite drop_app_length' by done.
      rewrite push_pair_pair; [|done|done|unfold is_lead, DECODE_LEAD_LOW in El; lia].
      rewrite (Nat.add_assoc pos 4), IH1; [by rewrite <- app_assoc|done|lia].
    + rewrite length_app in *. pose proof (unit_bytes_length d0).
      destruct fuel as [|fuel]; [lia|]. cbn [ConvertMUtf8ToUtf16_loop].
      rewrite (proj2 (Nat.ltb_lt _ _)) by lia. rewrite <- app_assoc.
      rewrite decode_unit by (done || lia). cbn [mbind outcome_bind].
      rewrite drop_app_length' by done. rewrite push_pair_unit by done.
      rewrite (Nat.add_assoc pos), IH2; [by rewrite <- app_assoc|done|lia].
Qed.

(** C24: every UTF-16 string without two lead surrogates in a row goes through
    modified UTF-8 and back: the announced size is the number of bytes written
    (and the terminator), and decoding gives the string. *)
Theorem utf16_mutf8_roundtrip (s suf : list Z) :
  Forall (in_u 16) s -> no_double_lead s = true ->
  exists size bs,
    Utf16ToMUtf8Size s (length s) = Done size
    /\ ConvertRegionUtf16ToMUtf8 (Some s) false (length s) (Z.to_nat (size - 1)) 0 = Done bs
    /\ Z.of_nat (length bs) = size - 1
    /\ ConvertMUtf8ToUtf16 (bs ++ suf) (length bs) = Done s.
Proof.
  intros Hs Hn. exists (1 + Z.of_nat (length (mutf8_text s))), (mutf8_text s).
  split; [by apply Utf16ToMUtf8Size_text|]. split; [|split; [lia|]].
  - replace (Z.to_nat _) with (length (mutf8_text s)) by lia.
    unfold ConvertRegionUtf16ToMUtf8, ConvertRegionUtf16ToUtf8. cbn [orb].
    destruct (length (mutf8_text s) =? 0)%nat eqn:E0.
    + apply Nat.eqb_eq, nil_length_inv in E0. by rewrite E0.
    + exact (ConvertRegion_encodes s [] [] (length s) (length (mutf8_text s)) Hs Hn ltac:(lia) ltac:(simpl; lia)).
  - exact (ConvertMUtf8_decodes s suf [] (length (mutf8_text s)) 0 Hs ltac:(lia)).
Qed.

(** ** Decoding any bytes *)
Lemma bits_small (d : Z) : in_u 8 d ->
  0 <= Z.land d MASK_5BIT < 32 /\ 0 <= Z.land d MASK_4BIT < 16 /\ 0 <= Z.land d MASK_6BIT < 64.
Proof.
  intros _. rewrite land_63.
  rewrite (land_mask d 5 ltac:(lia) : Z.land d MASK_5BIT = _).
  rewrite (land_mask d 4 ltac:(lia) : Z.land d MASK_4BIT = _).
  repeat split; apply Z.mod_pos_bound; lia.
Qed.

(** What one decoded sequence is: within the bytes available, and a pair
    exactly when its high half is not zero. *)
Definition decoded_ok (n : nat) (r : Z * nat) : Prop :=
  0 <= fst r < 2 ^ 32 /\ (1 <= snd r <= n)%nat
  /\ (MAX_U16 <? fst r) = negb (fst (SplitUtf16Pair (fst r)) =? 0).

Lemma decoded_small (n k : nat) (v : Z) : 0 <= v < 65536 -> (1 <= k <= n)%nat -> decoded_ok n (v, k).
Proof.
  intros Hv Hk. unfold decoded_ok, SplitUtf16Pair, MAX_U16. cbn [fst snd].
  repeat split; try lia. rewrite Z.shiftr_div_pow2, Z.div_small by lia.
  change (u16 0 =? 0) with true. cbn. lia.
Qed.

Lemma decoded_pair (n : nat) (cp : Z) :
  0 <= cp < 4194304 -> (4 <= n)%nat ->
  decoded_ok n
    (Z.lor (u32 (Z.shiftl (Z.land (Z.shiftr cp (PAIR_ELEMENT_WIDTH - DATA_WIDTH) + U16_LEAD) MASK_16BIT)
                          PAIR_ELEMENT_WIDTH)) (Z.land cp MASK_10BIT + U16_TAIL), 4%nat).
Proof.
  intros Hcp Hn. unfold PAIR_ELEMENT_WIDTH, DATA_WIDTH, U16_LEAD, MASK_16BIT, MASK_10BIT, U16_TAIL.
  rewrite land_1023, land_65535, Z.shiftr_div_pow2 by lia. change (2 ^ (16 - 6)) with 1024.
  pose proof (Z.mod_pos_bound cp 1024 ltac:(lia)).
  assert (0 <= cp / 1024 < 4096) by (split; [apply Z.div_pos|apply Z.div_lt_upper_bound]; lia).
  rewrite (Z.mod_small (_ + _)) by lia.
  rewrite (wrapu_id 32) by (unfold in_u; rewrite Z.shiftl_mul_pow2 by lia; lia).
  rewrite lor_hi by lia. change (2 ^ 16) with 65536.
  unfold decoded_ok, SplitUtf16Pair, MAX_U16. cbn [fst snd]. repeat split; try lia.
  rewrite Z.shiftr_div_pow2 by lia. change (2 ^ 16) with 65536.
  rewrite Z.div_add_l, (Z.div_small (cp mod 1024 + _)), Z.add_0_r, wrapu_id by (unfold in_u; lia).
  lia.
Qed.

Lemma ConvertMUtf8ToUtf16Pair_total (data : list Z) (n : nat) :
  bytes_ok data -> (1 <= n <= length data)%nat ->
  exists r, ConvertMUtf8ToUtf16Pair data n = Done r /\ decoded_ok n r.
Proof.
  intros Hb Hn. unfold ConvertMUtf8ToUtf16Pair.
  assert (Hread : forall i, (i < n)%nat -> exists d, read (take n data) i = Done d /\ in_u 8 d).
  { intros i Hi. unfold read. rewrite lookup_take_lt by done.
    destruct (lookup_lt_is_Some_2 data i ltac:(lia)) as [d Hd]. rewrite Hd. exists d.
    split; [done|]. exact (Forall_lookup_1 _ _ _ _ Hb Hd). }
  destruct (Hread 0%nat ltac:(lia)) as (d0 & -> & H0). cbn [mbind outcome_bind].
  assert (Hd0 : forall k, (1 <= k <= n)%nat -> decoded_ok n (d0, k))
    by (intros; apply decoded_small; [unfold in_u in H0; lia|done]).
  destruct (Z.land d0 MASK1 =? 0); [eexists; split; [done|apply Hd0; lia]|].
  destruct (Nat.ltb_spec n 2) as [|L2]; [eexists; split; [done|apply Hd0; lia]|].
  destruct (Hread 1%nat ltac:(lia)) as (d1 & -> & H1). cbn [mbind outcome_bind].
  pose proof (bits_small d0 H0) as B0. pose proof (bits_small d1 H1) as B1.
  destruct (Z.land d0 MASK2 =? 0).
  { eexists; split; [done|]. unfold DATA_WIDTH. rewrite lor_hi by lia. apply decoded_small; lia. }
  destruct (Nat.ltb_spec n 3) as [|L3]; [eexists; split; [done|apply Hd0; lia]|].
  destruct (Hread 2%nat ltac:(lia)) as (d2 & -> & H2). cbn [mbind outcome_bind].
  pose proof (bits_small d2 H2) as B2. unfold DATA_WIDTH at 1 2.
  destruct (Z.land d0 MASK3 =? 0).
  { eexists; split; [done|]. change (6 * 2) with 12. rewrite join3 by lia. apply decoded_small; lia. }
  destruct (Nat.ltb_spec n 4) as [|L4]; [eexists; split; [done|apply Hd0; lia]|].
  destruct (Hread 3%nat ltac:(lia)) as (d3 & -> & H3). cbn [mbind outcome_bind].
  pose proof (bits_small d3 H3) as B3. eexists; split; [done|].
  apply decoded_pair; [|lia]. unfold DATA_WIDTH. change (6 * 3) with 18. change (6 * 2) with 12.
  rewrite join4 by lia. lia.
Qed.

Lemma push_pair_length (n : nat) (pr : Z) (k : nat) (out : list Z) :
  decoded_ok n (pr, k) ->
  Z.of_nat (length (push_pair pr out)) = Z.of_nat (length out) + (if MAX_U16 <? pr then 2 else 1)
  /\ (Forall (in_u 16) out -> Forall (in_u 16) (push_pair pr out)).
Proof.
  unfold decoded_ok, push_pair. cbn [fst snd]. intros (Hr & _ & ->).
  destruct (SplitUtf16Pair pr) as [hi lo] eqn:E. unfold SplitUtf16Pair in E. injection E as <- <-.
  cbn [fst]. pose proof (wrapu_range 16 (Z.shiftr pr 16) ltac:(lia)).
  pose proof (wrapu_range 16 (Z.land pr 65535) ltac:(lia)).
  destruct (_ =? 0); cbn [negb]; rewrite !length_app; simpl; split; try lia;
    intros Ho; repeat apply Forall_app_2; auto.
Qed.

Lemma decode_any (fuel : nat) :
  forall (data : list Z) (len pos : nat) (out : list Z) (res : Z),
  bytes_ok data -> (pos <= len)%nat -> (len - pos <= length data)%nat -> (len - pos <= fuel)%nat ->
  res = Z.of_nat (length out) -> Forall (in_u 16) out ->
  exists out', ConvertMUtf8ToUtf16_loop fuel data len pos out = Done out'
    /\ MUtf8ToUtf16Size_len_loop fuel data len pos res = Done (Z.of_nat (length out'))
    /\ Forall (in_u 16) out'.
Proof.
  induction fuel as [|fuel IH]; intros data len pos out res Hb Hpos Hlen Hf -> Ho.
  - exists out. cbn [ConvertMUtf8ToUtf16_loop MUtf8ToUtf16Size_len_loop].
    replace len with pos by lia. by rewrite Nat.ltb_irrefl, Nat.eqb_refl.
  - cbn [ConvertMUtf8ToUtf16_loop MUtf8ToUtf16Size_len_loop].
    destruct (Nat.ltb_spec pos len); [|exists out; replace len with pos by lia; by rewrite Nat.eqb_refl].
    rewrite (proj2 (Nat.eqb_neq pos len)) by lia.
    destruct (ConvertMUtf8ToUtf16Pair_total data (len - pos) Hb ltac:(lia)) as ([pr k] & -> & Hok).
    cbn [mbind outcome_bind]. destruct (push_pair_length _ pr k out Hok) as [Hl Hall].
    destruct Hok as (_ & Hk & _). cbn [snd] in Hk.
    rewrite (proj2 (Nat.eqb_neq k 0)) by lia. rewrite <- Hl.
    apply IH; try lia; try done; [by apply Forall_drop|rewrite length_drop; lia|by apply Hall].
Qed.

(** C37: decoding never crashes, whatever the bytes, and writes exactly as many code
    units as [MUtf8ToUtf16Size] announced. *)
Theorem mutf8_decode_total (data : list Z) (len : nat) :
  bytes_ok data -> (len <= length data)%nat ->
  exists out, ConvertMUtf8ToUtf16 data len = Done out
    /\ MUtf8ToUtf16Size_len data len = Done (Z.of_nat (length out)) /\ Forall (in_u 16) out.
Proof.
  intros Hb Hl. exact (decode_any len data len 0 [] 0 Hb ltac:(lia) ltac:(lia) ltac:(lia) eq_refl (Forall_nil_2 _)).
Qed.

(** ** The validity scan accepts what the encoder writes *)
Section valid_steps.
Context (fuel : nat) (r : list Z).

Lemma cont_byte (b : Z) : 0 <= b < 64 -> (Z.land (128 + b) 192 =? 128) = true.
Proof. intros. by_cases_below b 64. Qed.

Lemma valid1 (b : Z) : 1 <= b < 128 ->
  IsValidModifiedUTF8_loop (S fuel) (b :: r) = IsValidModifiedUTF8_loop fuel r.
Proof.
  intros Hb. cbn [IsValidModifiedUTF8_loop]. unfold read. cbn [lookup list_lookup mbind outcome_bind].
  rewrite (proj2 (Z.eqb_neq b 0)) by lia.
  assert (Hb' : 0 <= b < 128) by lia.
  assert (E : (Z.land b 240 <=? 112) = true) by (clear - Hb'; by_cases_below b 128). by rewrite E.
Qed.

Lemma valid2 (a b : Z) : 0 <= a < 32 -> 0 <= b < 64 ->
  IsValidModifiedUTF8_loop (S fuel) (192 + a :: 128 + b :: r) = IsValidModifiedUTF8_loop fuel r.
Proof.
  intros Ha Hb. cbn [IsValidModifiedUTF8_loop]. unfold is_continuation, read.
  cbn [lookup list_lookup mbind outcome_bind drop].
  rewrite (proj2 (Z.eqb_neq (192 + a) 0)) by lia.
  assert (E : (Z.land (192 + a) 240 <=? 112) = false /\ (Z.land (192 + a) 240 <=? 176) = false
    /\ (Z.land (192 + a) 240 =? 240) = false /\ (Z.land (192 + a) 240 =? 224) = false)
    by (repeat split; apply negb_true_iff; clear - Ha; by_cases_below a 32).
  destruct E as (-> & -> & -> & ->). by rewrite cont_byte.
Qed.

Lemma valid3 (a b c : Z) : 0 <= a < 16 -> 0 <= b < 64 -> 0 <= c < 64 ->
  IsValidModifiedUTF8_loop (S fuel) (224 + a :: 128 + b :: 128 + c :: r)
  = IsValidModifiedUTF8_loop fuel r.
Proof.
  intros Ha Hb Hc. cbn [IsValidModifiedUTF8_loop]. unfold is_continuation, read.
  cbn [lookup list_lookup mbind outcome_bind drop].
  rewrite (proj2 (Z.eqb_neq (224 + a) 0)) by lia.
  assert (E : (Z.land (224 + a) 240 <=? 112) = false /\ (Z.land (224 + a) 240 <=? 176) = false
    /\ (Z.land (224 + a) 240 =? 240) = false /\ (Z.land (224 + a) 240 =? 224) = true)
    by (repeat split; try apply negb_true_iff; clear - Ha; by_cases_below a 16).
  destruct E as (-> & -> & -> & ->). by rewrite !cont_byte.
Qed.

Lemma valid4 (a b c d : Z) : 0 <= a < 8 -> 0 <= b < 64 -> 0 <= c < 64 -> 0 <= d < 64 ->
  IsValidModifiedUTF8_loop (S fuel) (240 + a :: 128 + b :: 128 + c :: 128 + d :: r)
  = IsValidModifiedUTF8_loop fuel r.
Proof.
  intros Ha Hb Hc Hd. cbn [IsValidModifiedUTF8_loop]. unfold is_continuation, read.
  cbn [lookup list_lookup mbind outcome_bind drop].
  rewrite (proj2 (Z.eqb_neq (240 + a) 0)) by lia.
  assert (E : (Z.land (240 + a) 240 <=? 112) = false /\ (Z.land (240 + a) 240 <=? 176) = false
    /\ (Z.land (240 + a) 240 =? 240) = true /\ (Z.land (240 + a) 8 =? 0) = true)
    by (repeat split; try apply negb_true_iff; clear - Ha; by_cases_below a 8).
  destruct E as (-> & -> & -> & ->). by rewrite !cont_byte.
Qed.

Lemma valid_unit (d : Z) : in_u 16 d ->
  IsValidModifiedUTF8_loop (S fuel) (unit_bytes d ++ r) = IsValidModifiedUTF8_loop fuel r.
Proof.
  unfold in_u, unit_bytes. intros. pose proof (div_mod_64 d). pose proof (div_mod_64 (d / 64)).
  destruct (d =? 0) eqn:?; [by apply (valid2 0 0)|]. destruct (d <=? 127) eqn:?; [apply valid1; lia|].
  destruct (d <=? 2047) eqn:?; cbn [app]; [apply valid2; lia|rewrite div_4096; apply valid3; lia].
Qed.

Lemma valid_pair (d0 d1 : Z) : is_lead d0 = true -> is_trail d1 = true ->
  IsValidModifiedUTF8_loop (S fuel) (pair_bytes d0 d1 ++ r) = IsValidModifiedUTF8_loop fuel r.
Proof.
  unfold is_lead, is_trail, DECODE_LEAD_LOW, DECODE_LEAD_HIGH, DECODE_TRAIL_LOW, DECODE_TRAIL_HIGH.
  intros. unfold pair_bytes. cbn [app]. set (cp := (d0 - 0xd800) * 1024 + (d1 - 0xdc00) + 0x10000).
  assert (0x10000 <= cp < 0x110000) by (unfold cp; lia).
  apply valid4; try (apply Z.mod_pos_bound; lia).
  split; [apply Z.div_pos|apply Z.div_lt_upper_bound]; lia.
Qed.
End valid_steps.

(** [IsValidModifiedUTF8] accepts the encoding of every UTF-16 string. *)
Theorem IsValidModifiedUTF8_text (s r : list Z) :
  Forall (in_u 16) s -> IsValidModifiedUTF8 (mutf8_text s ++ 0 :: r) = Done true.
Proof.
  unfold IsValidModifiedUTF8. rewrite length_app. cbn [length].
  enough (H : forall fuel, Forall (in_u 16) s -> (length (mutf8_text s) < fuel)%nat ->
    IsValidModifiedUTF8_loop fuel (mutf8_text s ++ 0 :: r) = Done true) by (intros; apply H; [done|lia]).
  induction s as [|d|d0 d1 t IH1 IH2] using pair_list_ind; intros fuel Hu Hf.
  - destruct fuel; [simpl in Hf; lia|done].
  - inversion Hu; subst. destruct fuel as [|[|fuel]]; cbn [mutf8_text] in *;
      [lia|pose proof (unit_bytes_length d); lia|]. by rewrite valid_unit.
  - inversion Hu as [|?? Hd0 Hu']; subst. inversion Hu' as [|?? Hd1 Hu'']; subst.
    cbn [mutf8_text] in *. pose proof (unit_bytes_length d0). destruct fuel as [|fuel]; [lia|].
    destruct (is_lead d0 && is_trail d1) eqn:Ep; rewrite length_app in Hf; rewrite <- app_assoc.
    + apply andb_true_iff in Ep as [El Et]. change (length (pair_bytes d0 d1)) with 4%nat in Hf.
      rewrite valid_pair by done. apply IH1; [done|lia].
    + rewrite valid_unit by done. apply IH2; [done|lia].
Qed.

(** ** Comparison follows the order of code points *)

(** The code points of a string; a lone surrogate stands for itself. *)
Fixpoint code_points (s : list Z) : list Z :=
  match s with
  | [] => []
  | d0 :: rest =>
      match rest with
      | [] => [d0]
      | d1 :: rest' =>
          if is_lead d0 && is_trail d1
          then (d0 - 0xd800) * 1024 + (d1 - 0xdc00) + 0x10000 :: code_points rest'
          else d0 :: code_points rest
      end
  end.

(** Strict lexicographic order. *)
Fixpoint lex_ltb (l1 l2 : list Z) : bool :=
  match l1, l2 with
  | [], [] => false
  | [], _ :: _ => true
  | _ :: _, [] => false
  | a :: l1, b :: l2 => (a <? b) || ((a =? b) && lex_ltb l1 l2)
  end.

(** The value [ConvertMUtf8ToUtf16Pair] gives for a code point. *)
Definition code_of_cp (cp : Z) : Z :=
  if cp <? 0x10000 then cp
  else ((cp - 0x10000) / 1024 + 0xd800) * 65536 + ((cp - 0x10000) mod 1024 + 0xdc00).

Lemma code_of_cp_mono (a b : Z) : 0 <= a -> a < b -> code_of_cp a < code_of_cp b.
Proof.
  unfold code_of_cp. intros Ha Hab.
  pose proof (Z.mod_pos_bound (a - 0x10000) 1024 ltac:(lia)).
  pose proof (Z.mod_pos_bound (b - 0x10000) 1024 ltac:(lia)).
  pose proof (Z.div_mod (a - 0x10000) 1024 ltac:(lia)).
  pose proof (Z.div_mod (b - 0x10000) 1024 ltac:(lia)).
  destruct (Z.ltb_spec a 0x10000), (Z.ltb_spec b 0x10000); lia.
Qed.

Lemma compare_pairs_sign (a b : Z) :
  0 <= a < 2 ^ 32 -> 0 <= b < 2 ^ 32 -> a <> b ->
  compare_pairs a b <> 0 /\ (compare_pairs a b <? 0) = (a <? b).
Proof.
  intros Ha Hb Hab. unfold compare_pairs, SplitUtf16Pair.
  rewrite !Z.shiftr_div_pow2, !land_65535 by lia. change (2 ^ 16) with 65536.
  pose proof (Z.mod_pos_bound a 65536 ltac:(lia)). pose proof (Z.div_mod a 65536 ltac:(lia)).
  pose proof (Z.mod_pos_bound b 65536 ltac:(lia)). pose proof (Z.div_mod b 65536 ltac:(lia)).
  rewrite !wrapu_id by (unfold in_u; lia).
  destruct (Z.eqb_spec (a / 65536 - b / 65536) 0); cbn [negb]; lia.
Qed.

(** The code units of a code point. *)
Definition units_of_cp (cp : Z) : list Z :=
  if cp <? 0x10000 then [cp]
  else [(cp - 0x10000) / 1024 + 0xd800; (cp - 0x10000) mod 1024 + 0xdc00].

Lemma text_head (s : list Z) :
  Forall (in_u 16) s -> s <> [] ->
  exists cp b bytes s',
    code_points s = cp :: code_points s' /\ mutf8_text s = (b :: bytes) ++ mutf8_text s'
    /\ s = units_of_cp cp ++ s' /\ Forall (in_u 16) s' /\ 0 <= cp < 0x110000 /\ b <> 0
    /\ forall r, ConvertMUtf8ToUtf16Pair ((b :: bytes) ++ r) 4 = Done (code_of_cp cp, length (b :: bytes)).
Proof.
  intros Hs Hne.
  assert (Hunit : forall d, in_u 16 d -> exists b bytes, unit_bytes d = b :: bytes /\ b <> 0).
  { intros d Hd. unfold in_u in Hd. unfold unit_bytes. pose proof (Z.div_pos d 64).
    pose proof (Z.div_pos d 4096). repeat case_match; eexists _, _; (split; [done|lia]). }
  assert (Hcode : forall d, in_u 16 d -> code_of_cp d = d /\ units_of_cp d = [d])
    by (intros d [? ?]; unfold code_of_cp, units_of_cp; rewrite (proj2 (Z.ltb_lt d _)) by lia; done).
  assert (Hone : forall d r, in_u 16 d -> ConvertMUtf8ToUtf16Pair (unit_bytes d ++ r) 4
                                         = Done (code_of_cp d, length (unit_bytes d))).
  { intros d r Hd. pose proof (unit_bytes_length d). rewrite decode_unit by (done || lia).
    by rewrite (proj1 (Hcode d Hd)). }
  destruct s as [|d0 [|d1 t]]; [done| |].
  - inversion Hs as [|?? Hd]; subst. destruct (Hunit d0 Hd) as (b & bytes & Eb & Hb).
    exists d0, b, bytes, []. cbn [mutf8_text code_points]. rewrite app_nil_r, <- Eb.
    rewrite (proj2 (Hcode d0 Hd)). unfold in_u in Hd. repeat split; try lia; try done.
    intros r. by apply Hone.
  - inversion Hs as [|?? Hd0 Hs']; subst. inversion Hs' as [|?? Hd1 Hs'']; subst.
    cbn [mutf8_text code_points]. destruct (is_lead d0 && is_trail d1) eqn:Ep.
    + apply andb_true_iff in Ep as [El Et]. eexists _, _, _, t. split; [done|]. split; [done|].
      pose proof El as El'. pose proof Et as Et'.
      unfold is_lead, is_trail, DECODE_LEAD_LOW, DECODE_LEAD_HIGH, DECODE_TRAIL_LOW, DECODE_TRAIL_HIGH
        in El', Et'. set (cp := (d0 - 0xd800) * 1024 + (d1 - 0xdc00) + 0x10000) in *.
      assert (Eq : (cp - 0x10000) / 1024 = d0 - 0xd800)
        by (symmetry; apply (Z.div_unique _ 1024 _ (d1 - 0xdc00)); unfold cp; lia).
      assert (Er : (cp - 0x10000) mod 1024 = d1 - 0xdc00)
        by (symmetry; apply (Z.mod_unique _ 1024 (d0 - 0xd800)); unfold cp; lia).
      unfold units_of_cp, code_of_cp. rewrite (proj2 (Z.ltb_ge cp _)) by (unfold cp; lia).
      rewrite Eq, Er. pose proof (Z.div_pos cp 262144). repeat split; try done; try (unfold cp in *; lia).
      * cbn [app]. do 2 f_equal; [lia|]. f_equal. lia.
      * intros r. replace (d0 - 55296 + 55296) with d0 by lia.
        replace (d1 - 56320 + 56320) with d1 by lia.
        apply (decode_pair d0 d1 r 4); [done|done|lia].
    + destruct (Hunit d0 Hd0) as (b & bytes & Eb & Hb). exists d0, b, bytes, (d1 :: t).
      rewrite <- Eb, (proj2 (Hcode d0 Hd0)). unfold in_u in Hd0. repeat split; try lia; try done.
      intros r. by apply Hone.
Qed.

Lemma code_of_cp_range (cp : Z) : 0 <= cp < 0x110000 -> 0 <= code_of_cp cp < 2 ^ 32.
Proof.
  unfold code_of_cp. intros. pose proof (Z.mod_pos_bound (cp - 0x10000) 1024 ltac:(lia)).
  pose proof (Z.div_mod (cp - 0x10000) 1024 ltac:(lia)). destruct (Z.ltb_spec cp 0x10000); lia.
Qed.

Lemma code_points_nil (s : list Z) : code_points s = [] <-> s = [].
Proof. destruct s as [|d0 [|d1 t]]; cbn; [done|done|]. split; [by case_match|done]. Qed.

Lemma code_points_inj (s1 s2 : list Z) :
  Forall (in_u 16) s1 -> Forall (in_u 16) s2 -> code_points s1 = code_points s2 -> s1 = s2.
Proof.
  remember (length s1) as n eqn:En. assert (Hn : (length s1 <= n)%nat) by lia. clear En.
  revert s1 s2 Hn. induction n as [|n IH]; intros s1 s2 Hn H1 H2 E.
  - destruct s1; [|simpl in Hn; lia]. symmetry. apply code_points_nil. by rewrite <- E.
  - destruct (decide (s1 = [])) as [->|Hne]; [symmetry; apply code_points_nil; by rewrite <- E|].
    assert (Hne2 : s2 <> []) by (intros ->; apply Hne, code_points_nil; by rewrite E).
    destruct (text_head s1 H1 Hne) as (c1 & b1 & y1 & t1 & E1 & _ & U1 & F1 & _).
    destruct (text_head s2 H2 Hne2) as (c2 & b2 & y2 & t2 & E2 & _ & U2 & F2 & _).
    rewrite E1, E2 in E. injection E as -> E. rewrite U1, U2. f_equal.
    apply IH; [|done|done|done]. rewrite U1, length_app in Hn.
    assert (0 < length (units_of_cp c2))%nat by (unfold units_of_cp; case_match; simpl; lia). lia.
Qed.

(** [CompareMUtf8ToMUtf8] on two zero-terminated encodings returns zero
    exactly on equal strings and orders the others by their code points. *)
Theorem CompareMUtf8_order (s1 s2 r1 r2 : list Z) :
  Forall (in_u 16) s1 -> Forall (in_u 16) s2 ->
  exists res, CompareMUtf8ToMUtf8 (mutf8_text s1 ++ 0 :: r1) (mutf8_text s2 ++ 0 :: r2) = Done res
    /\ (res = 0 <-> s1 = s2) /\ (res <? 0) = lex_ltb (code_points s1) (code_points s2).
Proof.
  intros H1 H2. unfold CompareMUtf8ToMUtf8. rewrite length_app. cbn [length].
  assert (Hinj := code_points_inj s1 s2 H1 H2).
  enough (H : forall fuel, (length (mutf8_text s1) < fuel)%nat -> exists res,
    CompareMUtf8ToMUtf8_loop fuel (mutf8_text s1 ++ 0 :: r1) (mutf8_text s2 ++ 0 :: r2) = Done res
    /\ (res = 0 <-> code_points s1 = code_points s2)
    /\ (res <? 0) = lex_ltb (code_points s1) (code_points s2)).
  { destruct (H (S (length (mutf8_text s1) + S (length r1))) ltac:(lia)) as (res & E & Hz & Hlt).
    exists res. split; [done|]. split; [|done]. rewrite Hz. split; [done|by intros ->]. }
  clear Hinj. intros fuel. revert s1 s2 H1 H2. induction fuel as [|fuel IH]; intros s1 s2 H1 H2 Hf; [lia|].
  destruct (decide (s1 = [])) as [->|N1], (decide (s2 = [])) as [->|N2].
  - by exists 0.
  - destruct (text_head s2 H2 N2) as (c2 & b2 & y2 & t2 & E2 & T2 & _ & _ & _ & B2 & _).
    exists (-1). rewrite E2, T2. cbn. rewrite (proj2 (Z.eqb_neq b2 0)) by done. cbn.
    split; [done|]. split; [|done]. split; [lia|done].
  - destruct (text_head s1 H1 N1) as (c1 & b1 & y1 & t1 & E1 & T1 & _ & _ & _ & B1 & _).
    exists 1. rewrite E1, T1. cbn. rewrite (proj2 (Z.eqb_neq b1 0)) by done. cbn.
    split; [done|]. split; [|done]. split; [lia|done].
  - destruct (text_head s1 H1 N1) as (c1 & b1 & y1 & t1 & E1 & T1 & _ & F1 & R1 & B1 & D1).
    destruct (text_head s2 H2 N2) as (c2 & b2 & y2 & t2 & E2 & T2 & _ & F2 & R2 & B2 & D2).
    rewrite E1, E2, T1, T2, <- !app_assoc. rewrite T1, length_app in Hf.
    cbn [CompareMUtf8ToMUtf8_loop]. unfold read at 1 2.
    cbn [app lookup list_lookup mbind outcome_bind].
    rewrite (proj2 (Z.eqb_neq b1 0)), (proj2 (Z.eqb_neq b2 0)) by done. cbn [andb negb].
    change (b1 :: y1 ++ mutf8_text t1 ++ 0 :: r1) with ((b1 :: y1) ++ (mutf8_text t1 ++ 0 :: r1)).
    change (b2 :: y2 ++ mutf8_text t2 ++ 0 :: r2) with ((b2 :: y2) ++ (mutf8_text t2 ++ 0 :: r2)).
    rewrite D1, D2. cbn [mbind outcome_bind].
    pose proof (code_of_cp_range c1 R1) as Q1. pose proof (code_of_cp_range c2 R2) as Q2.
    destruct (Z.eqb_spec (code_of_cp c1) (code_of_cp c2)) as [Ec|Ec].
    + assert (c1 = c2) as ->.
      { destruct (Z.lt_trichotomy c1 c2) as [L|[->|L]]; [|done|];
          apply code_of_cp_mono in L; lia. }
      rewrite !drop_app_length' by done. cbn [length] in Hf.
      destruct (IH t1 t2 F1 F2 ltac:(lia)) as (res & Er & Hz & Hl).
      exists res. split; [done|]. cbn [lex_ltb]. rewrite Z.ltb_irrefl, Z.eqb_refl. cbn [orb andb].
      split; [|done]. rewrite Hz. split; [by intros ->|by intros [= ->]].
    + exists (compare_pairs (code_of_cp c1) (code_of_cp c2)). split; [done|].
      destruct (compare_pairs_sign _ _ Q1 Q2 Ec) as [Hne Hs]. rewrite Hs. cbn [lex_ltb].
      assert (Hc : c1 <> c2) by (by intros ->). rewrite (proj2 (Z.eqb_neq c1 c2)) by done.
      cbn [andb]. rewrite orb_false_r. split; [split; [lia|by intros [= -> _]]|].
      destruct (Z.ltb_spec c1 c2) as [L|L].
      * apply Z.ltb_lt, code_of_cp_mono; lia.
      * apply Z.ltb_ge. apply Z.lt_le_incl, code_of_cp_mono; lia.
Qed.

(** ** Decimal digits of a number, as ASCII code units *)
Fixpoint decimal (k : nat) (v : Z) : list Z :=
  match k with
  | O => []
  | S k' => decimal k' (v / 10) ++ [48 + v mod 10]
  end.

Lemma decimal_two (k : nat) (v : Z) :
  decimal (S (S k)) v = decimal k (v / 100) ++ [48 + v mod 100 / 10; 48 + v mod 100 mod 10].
Proof.
  cbn [decimal]. rewrite <- app_assoc, Z.div_div by lia. cbn [app].
  assert (E1 : v / 10 mod 10 = v mod 100 / 10).
  { apply (Z.div_unique (v mod 100) 10 (v / 10 mod 10) (v mod 10)).
    - pose proof (Z.mod_pos_bound v 10). lia.
    - change 100 with (10 * 10). rewrite Z.rem_mul_r by lia. lia. }
  assert (E2 : v mod 100 mod 10 = v mod 10)
    by (apply Z.mod_mod_divide; by exists 10).
  by rewrite E1, E2.
Qed.

Lemma bidigits_entry (v : Z) :
  0 <= v < 100 ->
  exists code, read BIDIGITS_CODE_TAB (Z.to_nat v) = Done code
    /\ Z.land code 0xffff = 48 + v / 10 /\ Z.shiftr code 16 = 48 + v mod 10.
Proof.
  intros Hv. exists (nth (Z.to_nat v) BIDIGITS_CODE_TAB 0).
  assert (E : (match read BIDIGITS_CODE_TAB (Z.to_nat v) with
               | Done c => (c =? nth (Z.to_nat v) BIDIGITS_CODE_TAB 0)
                           && (Z.land c 0xffff =? 48 + v / 10) && (Z.shiftr c 16 =? 48 + v mod 10)
               | _ => false end) = true) by (by_cases_below v 100).
  destruct (read BIDIGITS_CODE_TAB (Z.to_nat v)) as [c| |]; try done.
  apply andb_true_iff in E as [E E3]. apply andb_true_iff in E as [E1 E2].
  apply Z.eqb_eq in E1, E2, E3. by rewrite <- E1.
Qed.

Lemma write_app {A} (p : list A) (x a : A) (t : list A) :
  write (p ++ x :: t) (length p) a = Done (p ++ a :: t).
Proof.
  unfold write. rewrite length_app. cbn [length]. rewrite (proj2 (Nat.ltb_lt _ _)) by lia.
  rewrite insert_app_r_alt, Nat.sub_diag by lia. done.
Qed.

Lemma write_bidigits_app (p : list Z) (x y : Z) (t : list Z) (nDigits : nat) (i code : Z) :
  Z.of_nat nDigits + 2 * i = Z.of_nat (length p) ->
  write_bidigits (p ++ x :: y :: t) nDigits i code
  = Done (p ++ Z.land code 0xffff :: Z.shiftr code 16 :: t).
Proof.
  intros E. unfold write_bidigits. rewrite E. rewrite (proj2 (Z.ltb_ge _ 0)) by lia.
  rewrite Nat2Z.id, write_app. cbn [mbind outcome_bind].
  replace (Z.to_nat (Z.of_nat (length p) + 1)) with (length (p ++ [Z.land code 65535]))
    by (rewrite length_app; simpl; lia).
  change (Z.land code 65535 :: y :: t) with ([Z.land code 65535] ++ y :: t).
  rewrite app_assoc, write_app, <- app_assoc. done.
Qed.

(** A list of at least two cells ends in two cells. *)
Lemma last_two {A} (n : nat) (l : list A) :
  length l = S (S n) -> exists p x y, l = p ++ [x; y] /\ length p = n.
Proof.
  intros H. exists (take n l).
  assert (Hd : length (drop n l) = 2%nat) by (rewrite length_drop; lia).
  destruct (drop n l) as [|x [|y [|]]] eqn:E; try done. exists x, y.
  split; [by rewrite <- E, take_drop|rewrite length_take; lia].
Qed.

(** The text of [v] behind the [neg] cells kept for the sign. *)
Lemma UInt64_digits (fuel k : nat) (v : Z) (pre tail : list Z) (nDigits : nat) (i : Z) (neg : bool) :
  let sign := if neg then 1%nat else 0%nat in
  0 <= v -> (10 ^ (Z.of_nat k - 1) <= v \/ v = 0 /\ k = 1%nat) -> v < 10 ^ Z.of_nat k -> (1 <= k)%nat ->
  (k <= 2 * fuel + 2)%nat -> length pre = (sign + k)%nat ->
  Z.of_nat nDigits + 2 * i = Z.of_nat (length pre) ->
  exists w b j kk,
    UInt64ToUtf16Array_loop fuel v (pre ++ tail) nDigits i = Done (w, b, j)
    /\ (1 <= kk <= 2)%nat /\ 0 <= w < 100 /\ (kk = 2%nat <-> 10 <= w)
    /\ exists pre', length pre' = (sign + kk)%nat /\ Z.of_nat nDigits + 2 * j = Z.of_nat (length pre')
       /\ take sign pre' = take sign pre
       /\ exists rest, b = pre' ++ rest /\ decimal kk w ++ rest = decimal k v ++ tail.
Proof.
  cbv zeta. revert k v pre tail i. induction fuel as [|fuel IH]; intros k v pre tail i Hv Hlo Hhi Hk Hf Hpre Hn.
  - assert (Hk2 : k = 1%nat \/ k = 2%nat) by lia.
    assert (Hv100 : v < 100) by (destruct Hk2 as [-> | ->]; [change (10 ^ _) with 10 in Hhi|change (10 ^ _) with 100 in Hhi]; lia).
    cbn [UInt64ToUtf16Array_loop]. rewrite (proj2 (Z.leb_gt 100 v)) by lia.
    exists v, (pre ++ tail), i, k. split; [done|]. split; [lia|]. split; [lia|].
    split; [|exists pre; repeat split; try done; by exists tail].
    destruct Hk2 as [-> | ->]; [change (10 ^ _) with 10 in Hhi|change (10 ^ _) with 10 in Hlo]; lia.
  - destruct (Z.lt_ge_cases v 100) as [Hlt|Hge].
    + cbn [UInt64ToUtf16Array_loop]. rewrite (proj2 (Z.leb_gt 100 v)) by lia.
      assert (Hk2 : k = 1%nat \/ k = 2%nat).
      { destruct k as [|[|[|k]]]; try lia. destruct Hlo as [Hlo|[_ ?]]; [|lia].
        pose proof (Z.pow_le_mono_r 10 2 (Z.of_nat (S (S (S k))) - 1) ltac:(lia) ltac:(lia)). lia. }
      exists v, (pre ++ tail), i, k. split; [done|]. split; [lia|]. split; [lia|].
      split; [|exists pre; repeat split; try done; by exists tail].
      destruct Hk2 as [-> | ->]; [change (10 ^ _) with 10 in Hhi|change (10 ^ _) with 10 in Hlo]; lia.
    + destruct k as [|[|[|k]]]; [lia|change (10 ^ _) with 10 in Hhi; lia|change (10 ^ _) with 100 in Hhi; lia|].
      destruct Hlo as [Hlo|[? _]]; [|lia].
      destruct (last_two ((if neg then 1 else 0) + S k)%nat pre ltac:(lia)) as (p & x & y & -> & Hp).
      rewrite <- app_assoc. cbn [UInt64ToUtf16Array_loop app].
      rewrite (proj2 (Z.leb_le 100 v)) by lia. rewrite length_app in Hn. cbn [length] in Hn.
      destruct (bidigits_entry (v mod 100)) as (code & -> & Ed & Em); [apply Z.mod_pos_bound; lia|].
      cbn [mbind outcome_bind]. rewrite write_bidigits_app by lia. cbn [mbind outcome_bind].
      rewrite Ed, Em.
      assert (E10 : 10 ^ Z.of_nat (S (S (S k))) = 100 * 10 ^ Z.of_nat (S k)).
      { replace (Z.of_nat (S (S (S k)))) with (2 + Z.of_nat (S k)) by lia.
        rewrite Z.pow_add_r by lia. done. }
      assert (E10' : 10 ^ (Z.of_nat (S (S (S k))) - 1) = 100 * 10 ^ (Z.of_nat (S k) - 1)).
      { replace (Z.of_nat (S (S (S k))) - 1) with (2 + (Z.of_nat (S k) - 1)) by lia.
        rewrite Z.pow_add_r by lia. done. }
      destruct (IH (S k) (v / 100) p ([48 + v mod 100 / 10; 48 + v mod 100 mod 10] ++ tail) (i - 1))
        as (w & b & j & kk & El & Hkk & Hw & Hkw & pre' & Hl' & Hn' & Htk & rest & -> & Edec); try lia.
      * apply Z.div_pos; lia.
      * left. apply Z.div_le_lower_bound; lia.
      * apply Z.div_lt_upper_bound; lia.
      * exists w, (pre' ++ rest), j, kk. repeat (split; [done|]). exists pre'. split; [done|]. split; [done|].
        split; [rewrite Htk; symmetry; apply take_app_le; lia|].
        exists rest. split; [done|]. by rewrite Edec, decimal_two, <- app_assoc.
Qed.

(** a buffer of exactly the right size receives the sign and the decimal
    digits, the first digit not zero. *)
Theorem UInt64ToUtf16Array_decimal (v : Z) (k : nat) (buf : list Z) (negative : bool) :
  0 <= v < 2 ^ 64 -> (1 <= k)%nat -> v < 10 ^ Z.of_nat k ->
  (10 ^ (Z.of_nat k - 1) <= v \/ v = 0 /\ k = 1%nat) ->
  length buf = ((if negative then 1 else 0) + k)%nat ->
  UInt64ToUtf16Array v buf (length buf) negative
  = Done ((if negative then [45] else []) ++ decimal k v).
Proof.
  intros Hv Hk Hhi Hlo Hbuf. unfold UInt64ToUtf16Array.
  assert (Hk20 : (k <= 20)%nat).
  { destruct (Nat.le_gt_cases k 20) as [|Hgt]; [done|]. destruct Hlo as [Hlo|[_ ?]]; [|lia].
    pose proof (Z.pow_le_mono_r 10 20 (Z.of_nat k - 1) ltac:(lia) ltac:(lia)).
    change (10 ^ 20) with 100000000000000000000 in *. lia. }
  destruct (UInt64_digits 10 k v buf [] (length buf) 0 negative) as
    (w & b & j & kk & El & Hkk & Hw & Hkw & pre' & Hl' & Hn' & _ & rest & -> & Edec);
    try lia; try done.
  rewrite app_nil_r in El, Edec. rewrite El. cbn [mbind outcome_bind]. rewrite <- Edec. clear El Edec.
  destruct (Z.leb_spec 10 w).
  - assert (kk = 2%nat) as -> by lia.
    destruct (last_two (if negative then 1 else 0)%nat pre' ltac:(lia)) as (p & x & y & -> & Hp).
    destruct (bidigits_entry w) as (code & -> & Ed & Em); [lia|]. cbn [mbind outcome_bind].
    rewrite <- app_assoc. rewrite length_app in Hn'. cbn [app length] in *.
    rewrite write_bidigits_app by lia. cbn [mbind outcome_bind]. rewrite Ed, Em.
    rewrite decimal_two, (Z.mod_small w 100) by lia.
    destruct negative; (destruct p as [|s0 [|]]; [| |]; try (simpl in Hp; lia)); done.
  - assert (kk = 1%nat) as -> by lia. cbn [decimal]. rewrite Z.mod_small by lia. cbn [app].
    replace (w + 48) with (48 + w) by lia.
    destruct negative; simpl in Hl'.
    + destruct pre' as [|s0 [|s1 [|]]]; try done.
    + destruct pre' as [|s0 [|]]; try done.
Qed.

(** * Concrete strings *)
(** a, NUL, e with an acute accent, the euro sign and a surrogate pair *)
Definition ex_text : list Z := [0x61; 0; 0xe9; 0x20ac; 0xd83d; 0xde00].

Lemma utf16_mutf8_roundtrip_witness :
  exists size bs,
    Utf16ToMUtf8Size ex_text 6 = Done size
    /\ ConvertRegionUtf16ToMUtf8 (Some ex_text) false 6 (Z.to_nat (size - 1)) 0 = Done bs
    /\ Z.of_nat (length bs) = size - 1
    /\ ConvertMUtf8ToUtf16 (bs ++ [0]) (length bs) = Done ex_text.
Proof.
  apply (utf16_mutf8_roundtrip ex_text [0]); [repeat constructor; vm_compute; congruence|reflexivity].
Defined.

Lemma mutf8_decode_total_witness :
  exists out, ConvertMUtf8ToUtf16 [0xf0; 0x9f; 0x98; 0x80; 0xff; 0xc3] 6 = Done out
    /\ MUtf8ToUtf16Size_len [0xf0; 0x9f; 0x98; 0x80; 0xff; 0xc3] 6 = Done (Z.of_nat (length out))
    /\ Forall (in_u 16) out.
Proof.
  apply (mutf8_decode_total [0xf0; 0x9f; 0x98; 0x80; 0xff; 0xc3] 6);
    [repeat constructor; vm_compute; congruence|vm_compute; lia].
Defined.

Lemma IsValidModifiedUTF8_text_witness : IsValidModifiedUTF8 (mutf8_text ex_text ++ [0]) = Done true.
Proof. apply (IsValidModifiedUTF8_text ex_text []). repeat constructor; vm_compute; congruence. Defined.

Lemma CompareMUtf8_order_witness :
  exists res, CompareMUtf8ToMUtf8 (mutf8_text ex_text ++ [0]) (mutf8_text [0x61; 0x62] ++ [0]) = Done res
    /\ (res = 0 <-> ex_text = [0x61; 0x62])
    /\ (res <? 0) = lex_ltb (code_points ex_text) (code_points [0x61; 0x62]).
Proof.
  apply (CompareMUtf8_order ex_text [0x61; 0x62] [] []); repeat constructor; vm_compute; congruence.
Defined.

Lemma UInt64ToUtf16Array_decimal_witness :
  UInt64ToUtf16Array 120 [0; 0; 0; 0] 4 true = Done [45; 49; 50; 48].
Proof.
  apply (UInt64ToUtf16Array_decimal 120 3 [0; 0; 0; 0] true);
    [lia|lia|reflexivity|left; vm_compute; congruence|reflexivity].
Defined.
End Utf.
