(* ===== verification/Ir.v ===== *)
(** The intermediate representation of the optimising compiler, as far as
    the analyses and folders of this library look at it:
    compiler/optimizer/ir/{datatype.h, inst.h, inst.cpp, graph.h, graph.cpp,
    basicblock.h, analysis.cpp} and analysis/loop_analyzer.h.

    Pointers to instructions, blocks and loops are identifiers; the graph maps
    them to records ([gmap]).  A dereference of an unknown pointer stops the
    program ([Crash]), as does [UNREACHABLE()] and a failed [CHECK_*].
    [ASSERT]s are compiled out of release builds and have no counterpart;
    where a theorem needs one it is a hypothesis. *)
From S2P Require Import Prelude.
From stdpp Require Export gmap.
Local Open Scope Z_scope.
Local Open Scope ark_scope.

(** * Build configuration *)
(** Size in bytes of a reference stored in the heap: a constant of the build. *)
Class Config := { OBJECT_POINTER_SIZE : Z }.

(** * datatype.h *)
Inductive DataType :=
| NO_TYPE | REFERENCE | BOOL | UINT8 | INT8 | UINT16 | INT16 | UINT32 | INT32
| UINT64 | INT64 | FLOAT32 | FLOAT64 | ANY | VOID | POINTER.
#[export] Instance DataType_eq_dec : EqDecision DataType.
Proof. solve_decision. Defined.

(** libpandabase/utils/arch.h *)
Inductive Arch := ARCH_NONE | AARCH32 | AARCH64 | X86 | X86_64.
#[export] Instance Arch_eq_dec : EqDecision Arch.
Proof. solve_decision. Defined.

Definition Is64BitsArch (arch : Arch) : outcome bool :=
  match arch with
  | X86 => Done false
  | X86_64 => Done true
  | AARCH32 => Done false
  | AARCH64 => Done true
  | ARCH_NONE => Crash
  end.

Definition GetCommonType (type : DataType) : DataType :=
  match type with
  | BOOL | UINT8 | INT8 | UINT16 | INT16 | UINT32 | INT32 | UINT64 | INT64 => INT64
  | REFERENCE | POINTER => POINTER
  | _ => type
  end.

Definition IsInt32Bit (type : DataType) : bool :=
  match type with
  | BOOL | UINT8 | INT8 | UINT16 | INT16 | UINT32 | INT32 => true
  | _ => false
  end.

Definition IsFloatType (type : DataType) : bool :=
  match type with FLOAT32 | FLOAT64 => true | _ => false end.

Definition IsTypeSigned (type : DataType) : bool :=
  match type with
  | INT8 | INT16 | INT32 | INT64 | FLOAT32 | FLOAT64 => true
  | _ => false
  end.

Section types.
  Context {cfg : Config}.

Definition GetIntTypeForReference (arch : Arch) : outcome DataType :=
  if arch == AARCH32 then Done UINT32
  else if OBJECT_POINTER_SIZE =? 8 then Done UINT64
  else if OBJECT_POINTER_SIZE =? 4 then Done UINT32
  else Crash.

Definition ShiftByType (type : DataType) (arch : Arch) : outcome Z :=
  let shift t :=
    match t with
    | VOID | BOOL | UINT8 | INT8 => Done 0
    | UINT16 | INT16 => Done 1
    | UINT32 | INT32 | FLOAT32 => Done 2
    | UINT64 | INT64 | FLOAT64 | ANY => Done 3
    | POINTER => b ← Is64BitsArch arch; Done (if b : bool then 3 else 2)
    | _ => Crash
    end in
  match type with
  | REFERENCE => t ← GetIntTypeForReference arch; shift t
  | t => shift t
  end.

Definition GetTypeSize (type : DataType) (arch : Arch) : outcome Z :=
  s ← ShiftByType type arch; Done (u8 (Z.shiftl 8 s)).
End types.

(** The width of an integer type, and what a 64-bit pattern denotes as a
    value of the type: the reference semantics the theorems compare with. *)
Definition width (type : DataType) : Z :=
  match type with
  | BOOL => 1
  | UINT8 | INT8 => 8 | UINT16 | INT16 => 16 | UINT32 | INT32 => 32
  | _ => 64
  end.

Definition is_int (type : DataType) : bool := GetCommonType type == INT64.

Definition wrap_type (type : DataType) (v : Z) : Z :=
  match type with
  | BOOL => if v =? 0 then 0 else 1
  | INT8 | INT16 | INT32 | INT64 => wraps (width type) v
  | _ => wrapu (width type) v
  end.

Definition in_type (type : DataType) (v : Z) : Prop :=
  if IsTypeSigned type then in_s (width type) v else in_u (width type) v.

(** * Condition codes, inst.h *)
Inductive ConditionCode :=
| CC_EQ | CC_NE | CC_LT | CC_LE | CC_GT | CC_GE | CC_B | CC_BE | CC_A | CC_AE
| CC_TST_EQ | CC_TST_NE.
#[export] Instance ConditionCode_eq_dec : EqDecision ConditionCode.
Proof. solve_decision. Defined.

Definition GetInverseConditionCode (code : ConditionCode) : ConditionCode :=
  match code with
  | CC_EQ => CC_NE | CC_NE => CC_EQ
  | CC_LT => CC_GE | CC_LE => CC_GT | CC_GT => CC_LE | CC_GE => CC_LT
  | CC_B => CC_AE | CC_BE => CC_A | CC_A => CC_BE | CC_AE => CC_B
  | CC_TST_EQ => CC_TST_NE | CC_TST_NE => CC_TST_EQ
  end.

Definition InverseSignednessConditionCode (code : ConditionCode) : ConditionCode :=
  match code with
  | CC_EQ => CC_EQ | CC_NE => CC_NE
  | CC_LT => CC_B | CC_LE => CC_BE | CC_GT => CC_A | CC_GE => CC_AE
  | CC_B => CC_LT | CC_BE => CC_LE | CC_A => CC_GT | CC_AE => CC_GE
  | CC_TST_EQ => CC_TST_EQ | CC_TST_NE => CC_TST_NE
  end.

Definition IsSignedConditionCode (code : ConditionCode) : bool :=
  match code with CC_LT | CC_LE | CC_GT | CC_GE => true | _ => false end.

Definition SwapOperandsConditionCode (code : ConditionCode) : ConditionCode :=
  match code with
  | CC_EQ | CC_NE => code
  | CC_LT => CC_GT | CC_LE => CC_GE | CC_GT => CC_LT | CC_GE => CC_LE
  | CC_B => CC_A | CC_BE => CC_AE | CC_A => CC_B | CC_AE => CC_BE
  | CC_TST_EQ | CC_TST_NE => code
  end.

(** [Compare<T>] for a [w]-bit [T]. *)
Definition Compare (w : Z) (cc : ConditionCode) (lhs rhs : Z) : bool :=
  let lhsU := wrapu w lhs in let rhsU := wrapu w rhs in
  let lhsS := wraps w lhs in let rhsS := wraps w rhs in
  match cc with
  | CC_EQ => lhsU =? rhsU
  | CC_NE => negb (lhsU =? rhsU)
  | CC_LT => lhsS <? rhsS
  | CC_LE => lhsS <=? rhsS
  | CC_GT => lhsS >? rhsS
  | CC_GE => lhsS >=? rhsS
  | CC_B => lhsU <? rhsU
  | CC_BE => lhsU <=? rhsU
  | CC_A => lhsU >? rhsU
  | CC_AE => lhsU >=? rhsU
  | CC_TST_EQ => Z.land lhsU rhsU =? 0
  | CC_TST_NE => negb (Z.land lhsU rhsU =? 0)
  end.

Lemma Compare_inverse (w : Z) (cc : ConditionCode) (l r : Z) :
  Compare w (GetInverseConditionCode cc) l r = negb (Compare w cc l r).
Proof.
  destruct cc; cbn -[wrapu wraps]; rewrite ?negb_involutive; try done;
    rewrite ?Z.geb_leb, ?Z.gtb_ltb, ?Z.leb_antisym, ?negb_involutive; done.
Qed.

Lemma Compare_swap (w : Z) (cc : ConditionCode) (l r : Z) :
  Compare w (SwapOperandsConditionCode cc) r l = Compare w cc l r.
Proof.
  destruct cc; cbn -[wrapu wraps]; rewrite ?Z.geb_leb, ?Z.gtb_ltb; try done.
  all: by rewrite ?(Z.eqb_sym (wrapu w r)), ?(Z.land_comm (wrapu w r)).
Qed.

(** * Instructions, blocks, loops and graphs *)
(** Opcodes the modelled code tests; every other one is [OtherOpcode]. *)
Inductive Opcode :=
| OpConstant | OpParameter | OpNullPtr | OpLoadUndefined | OpLoadImmediate | OpPhi
| OpNeg | OpAbs | OpNot | OpAdd | OpSub | OpMul | OpDiv | OpMod | OpMin | OpMax
| OpShl | OpShr | OpAShr | OpAnd | OpOr | OpXor
| OpNegOverflowAndZeroCheck | OpAddOverflowCheck | OpSubOverflowCheck
| OpCmp | OpCompare | OpCast | OpSqrt | OpIf | OpIfImm | OpIsInstance
| OpLenArray | OpLoadObject | OpLoadStatic
| OpNullCheck | OpBoundsCheck | OpBoundsCheckI | OpZeroCheck | OpNegativeCheck
| OpNotPositiveCheck | OpAnyTypeCheck | OpObjByIndexCheck | OpHclassCheck
| OpRefTypeCheck
| OpSaveState | OpSafePoint | OpSaveStateOsr | OpSaveStateDeoptimize
| OtherOpcode (n : Z).
#[export] Instance Opcode_eq_dec : EqDecision Opcode.
Proof. solve_decision. Defined.

Definition InstId := positive.
Definition BlockId := positive.
Definition LoopId := positive.

(** The fields of [Inst] and of its subclasses that the modelled code reads:
    an input is the instruction it points to, a user is the instruction that
    has the input and the input's index, [bbNums] holds a phi's
    [GetPhiInputBbNum] per input. *)
Record Inst := mkInst {
  GetOpcode : Opcode;
  GetType : DataType;
  GetInputs : list InstId;
  GetUsers : list (InstId * nat);
  GetBasicBlock : BlockId;
  IsAllocation : bool;                 (* inst_flags::ALLOC *)
  GetOperandsType : DataType;
  GetCc : ConditionCode;
  GetImm : Z;
  value_ : Z;                          (* ConstantInst::value_, a uint64_t *)
  nextConst_ : option InstId;
  GetArgNumber : Z;
  bbNums : list nat;
  IsFcmpg : bool;
  GetObject : Z;                       (* LoadImmediateInst::GetObject *)
  GetObjField : Z;                     (* LoadStaticInst::GetObjField *)
  GetObjectTypeInfo : option Z }.

Record BasicBlock := mkBlock {
  GetPredsBlocks : list BlockId;
  GetSuccsBlocks : list BlockId;
  GetDominator : option BlockId;
  GetDominatedBlocks : list BlockId;
  GetLoop : LoopId;
  GetInsts : list InstId;              (* firstInst_ ... lastInst_ *)
  GetPhis : list InstId;               (* firstPhi_ ... *)
  IsOsrEntry : bool;
  IsCatchBegin : bool }.

Record Loop := mkLoop {
  GetHeader : option BlockId;
  GetPreHeader : option BlockId;
  GetBackEdges : list BlockId;
  GetBlocks : list BlockId;
  GetOuterLoop : option LoopId;
  IsIrreducible : bool;
  IsInfinite : bool;
  IsRoot : bool }.

Record Graph := mkGraph {
  insts : gmap InstId Inst;
  blocks : gmap BlockId BasicBlock;
  loops : gmap LoopId Loop;
  GetStartBlock : BlockId;
  GetBlocksRPO : list BlockId;
  firstConstInst_ : option InstId;
  IsBytecodeOptimizer : bool;
  IsDynamicMethod : bool;
  GetArch : Arch }.

Definition get_inst (g : Graph) (i : InstId) : outcome Inst :=
  match insts g !! i with Some x => Done x | None => Crash end.
Definition get_block (g : Graph) (b : BlockId) : outcome BasicBlock :=
  match blocks g !! b with Some x => Done x | None => Crash end.
Definition get_loop (g : Graph) (l : LoopId) : outcome Loop :=
  match loops g !! l with Some x => Done x | None => Crash end.
(** A pointer that must not be null. *)
Definition deref {A} (p : option A) : outcome A :=
  match p with Some a => Done a | None => Crash end.

Definition opcode_of (g : Graph) (i : InstId) : outcome Opcode :=
  x ← get_inst g i; Done (GetOpcode x).
Definition GetInput (g : Graph) (i : InstId) (index : nat) : outcome InstId :=
  x ← get_inst g i; read (GetInputs x) index.

Definition IsConst (x : Inst) : bool := GetOpcode x == OpConstant.
Definition IsPhi (x : Inst) : bool := GetOpcode x == OpPhi.
Definition IsParameter (x : Inst) : bool := GetOpcode x == OpParameter.
Definition IsNullCheck (x : Inst) : bool := GetOpcode x == OpNullCheck.
Definition IsAdd (x : Inst) : bool :=
  (GetOpcode x == OpAdd) || (GetOpcode x == OpAddOverflowCheck).
Definition IsSub (x : Inst) : bool :=
  (GetOpcode x == OpSub) || (GetOpcode x == OpSubOverflowCheck).
Definition IsAddSub (x : Inst) : bool := IsAdd x || IsSub x.
Definition IsSaveState (x : Inst) : bool :=
  (GetOpcode x == OpSaveState) || (GetOpcode x == OpSafePoint) ||
  (GetOpcode x == OpSaveStateOsr) || (GetOpcode x == OpSaveStateDeoptimize).

(** [ConstantInst]'s accessors: the stored 64-bit pattern, unsigned. *)
Definition GetRawValue (x : Inst) : Z := value_ x.
Definition GetInt32Value (x : Inst) : Z := u32 (value_ x).
Definition GetInt64Value (x : Inst) : Z := value_ x.
Definition GetIntValue (x : Inst) : Z := value_ x.

(** Block accessors. *)
Definition IsEmpty (b : BasicBlock) : bool := GetInsts b == [].
Definition GetLastInst (b : BasicBlock) : option InstId := last (GetInsts b).
Definition GetTrueSuccessor (b : BasicBlock) : outcome BlockId := read (GetSuccsBlocks b) 0%nat.
Definition GetFalseSuccessor (b : BasicBlock) : outcome BlockId := read (GetSuccsBlocks b) 1%nat.

(** ** Record updates *)
Definition set_inputs (f : list InstId -> list InstId) (x : Inst) : Inst :=
  mkInst (GetOpcode x) (GetType x) (f (GetInputs x)) (GetUsers x) (GetBasicBlock x)
    (IsAllocation x) (GetOperandsType x) (GetCc x) (GetImm x) (value_ x) (nextConst_ x)
    (GetArgNumber x) (bbNums x) (IsFcmpg x) (GetObject x) (GetObjField x)
    (GetObjectTypeInfo x).
Definition set_users (f : list (InstId * nat) -> list (InstId * nat)) (x : Inst) : Inst :=
  mkInst (GetOpcode x) (GetType x) (GetInputs x) (f (GetUsers x)) (GetBasicBlock x)
    (IsAllocation x) (GetOperandsType x) (GetCc x) (GetImm x) (value_ x) (nextConst_ x)
    (GetArgNumber x) (bbNums x) (IsFcmpg x) (GetObject x) (GetObjField x)
    (GetObjectTypeInfo x).
Definition set_nextConst (n : option InstId) (x : Inst) : Inst :=
  mkInst (GetOpcode x) (GetType x) (GetInputs x) (GetUsers x) (GetBasicBlock x)
    (IsAllocation x) (GetOperandsType x) (GetCc x) (GetImm x) (value_ x) n
    (GetArgNumber x) (bbNums x) (IsFcmpg x) (GetObject x) (GetObjField x)
    (GetObjectTypeInfo x).
Definition set_insts (f : gmap InstId Inst -> gmap InstId Inst) (g : Graph) : Graph :=
  mkGraph (f (insts g)) (blocks g) (loops g) (GetStartBlock g) (GetBlocksRPO g)
    (firstConstInst_ g) (IsBytecodeOptimizer g) (IsDynamicMethod g) (GetArch g).
Definition set_blocks (f : gmap BlockId BasicBlock -> gmap BlockId BasicBlock) (g : Graph) : Graph :=
  mkGraph (insts g) (f (blocks g)) (loops g) (GetStartBlock g) (GetBlocksRPO g)
    (firstConstInst_ g) (IsBytecodeOptimizer g) (IsDynamicMethod g) (GetArch g).
Definition set_firstConst (c : option InstId) (g : Graph) : Graph :=
  mkGraph (insts g) (blocks g) (loops g) (GetStartBlock g) (GetBlocksRPO g)
    c (IsBytecodeOptimizer g) (IsDynamicMethod g) (GetArch g).
Definition append_inst (i : InstId) (b : BasicBlock) : BasicBlock :=
  mkBlock (GetPredsBlocks b) (GetSuccsBlocks b) (GetDominator b) (GetDominatedBlocks b)
    (GetLoop b) (GetInsts b ++ [i]) (GetPhis b) (IsOsrEntry b) (IsCatchBegin b).

(** * Operations of Inst *)
(** [RemoveUser]/[AddUser]: the users are a linked list, new ones in front. *)
Definition RemoveUser (u : InstId * nat) (x : Inst) : Inst :=
  set_users (filter (fun v => v <> u)) x.
Definition AddUser (u : InstId * nat) (x : Inst) : Inst := set_users (cons u) x.

Definition SetInput (g : Graph) (this : InstId) (index : nat) (inst : InstId) : outcome Graph :=
  x ← get_inst g this;
  old ← read (GetInputs x) index;
  let user := (this, index) in
  let m1 := alter (RemoveUser user) old (insts g) in
  let m2 := alter (AddUser user) inst m1 in
  Done (set_insts (fun _ => alter (set_inputs (<[index := inst]>)) this m2) g).

(** [this->ReplaceUsers(inst)]: while there is a first user, redirect it. *)
Fixpoint ReplaceUsers_loop (fuel : nat) (g : Graph) (this inst : InstId) : outcome Graph :=
  match fuel with
  | O => NoFuel
  | S fuel =>
      x ← get_inst g this;
      match GetUsers x with
      | [] => Done g
      | (user, index) :: _ =>
          g' ← SetInput g user index inst;
          ReplaceUsers_loop fuel g' this inst
      end
  end.
Definition ReplaceUsers (g : Graph) (this inst : InstId) : outcome Graph :=
  x ← get_inst g this;
  ReplaceUsers_loop (S (length (GetUsers x))) g this inst.

(** [SkipInstructions<OPC, INPUT_IDX>]; the fuel is the number of instructions,
    which bounds a chain of inputs that does not come back to itself. *)
Fixpoint SkipInstructions_loop (fuel : nat) (OPC : Opcode) (INPUT_IDX : nat) (g : Graph)
    (inputInst : InstId) : outcome InstId :=
  match fuel with
  | O => NoFuel
  | S fuel =>
      opcode ← opcode_of g inputInst;
      if opcode == OPC then
        next ← GetInput g inputInst INPUT_IDX;
        SkipInstructions_loop fuel OPC INPUT_IDX g next
      else Done inputInst
  end.
Definition SkipInstructions (OPC : Opcode) (INPUT_IDX : nat) (g : Graph) (i : InstId) :
    outcome InstId :=
  SkipInstructions_loop (S (size (insts g))) OPC INPUT_IDX g i.

Definition GetDataFlowInput (g : Graph) (inputInst : InstId) : outcome InstId :=
  opcode ← opcode_of g inputInst;
  match opcode with
  | OpNullCheck => SkipInstructions OpNullCheck 0 g inputInst
  | OpBoundsCheck => SkipInstructions OpBoundsCheck 1 g inputInst
  | OpBoundsCheckI => SkipInstructions OpBoundsCheckI 0 g inputInst
  | OpZeroCheck => SkipInstructions OpZeroCheck 0 g inputInst
  | OpNegativeCheck => SkipInstructions OpNegativeCheck 0 g inputInst
  | OpNotPositiveCheck => SkipInstructions OpNotPositiveCheck 0 g inputInst
  | OpAnyTypeCheck => SkipInstructions OpAnyTypeCheck 0 g inputInst
  | OpObjByIndexCheck => SkipInstructions OpObjByIndexCheck 0 g inputInst
  | OpHclassCheck =>
      inputInst ← SkipInstructions OpHclassCheck 0 g inputInst;
      SkipInstructions OpLoadObject 0 g inputInst
  | OpRefTypeCheck =>
      inputInst ← SkipInstructions OpRefTypeCheck 1 g inputInst;
      opcode ← opcode_of g inputInst;
      if opcode == OpNullCheck then SkipInstructions OpNullCheck 0 g inputInst
      else Done inputInst
  | _ => Done inputInst
  end.

(** [PhiInst::GetPhiInputBb], [GetPredBlockIndex], [GetPhiInput]. *)
Definition GetPhiInputBb (g : Graph) (phi : Inst) (index : nat) : outcome BlockId :=
  bbNum ← read (bbNums phi) index;
  b ← get_block g (GetBasicBlock phi);
  read (GetPredsBlocks b) bbNum.
Fixpoint GetPredBlockIndex_loop (g : Graph) (phi : Inst) (block : BlockId)
    (i rest : nat) : outcome nat :=
  match rest with
  | O => Crash
  | S rest =>
      bb ← GetPhiInputBb g phi i;
      if bb == block then Done i else GetPredBlockIndex_loop g phi block (S i) rest
  end.
Definition GetPredBlockIndex (g : Graph) (phi : Inst) (block : BlockId) : outcome nat :=
  GetPredBlockIndex_loop g phi block 0 (length (GetInputs phi)).
Definition GetPhiInput (g : Graph) (phi : Inst) (bb : BlockId) : outcome InstId :=
  index ← GetPredBlockIndex g phi bb;
  read (GetInputs phi) index.

(** [GetInputType]: the default, and the overrides of Compare, Cmp and Cast. *)
Definition GetInputType (g : Graph) (x : Inst) (index : nat) : outcome DataType :=
  match GetOpcode x with
  | OpCompare | OpCmp => Done (GetOperandsType x)
  | OpCast =>
      if GetOperandsType x == NO_TYPE then
        i0 ← read (GetInputs x) 0%nat;
        y ← get_inst g i0;
        Done (GetType y)
      else Done (GetOperandsType x)
  | _ =>
      i ← read (GetInputs x) index;
      y ← get_inst g i;
      Done (if IsSaveState y then NO_TYPE else GetType x)
  end.

Definition IsZeroConstant (x : Inst) : bool :=
  IsConst x && (GetType x == INT64) && (GetIntValue x =? 0).
Definition IsZeroConstantOrNullPtr (x : Inst) : bool :=
  IsZeroConstant x || (GetOpcode x == OpNullPtr).

(** * The runtime interface, as the compiler sees it: not part of src/compiler,
    so every function of it is a parameter. *)
Class Runtime := {
  IsMethodStatic : bool;               (* of the graph's method *)
  GetMaxArrayLength : Z -> Z;
  DynamicCastDoubleToInt : Z -> Z -> Z;  (* bit pattern of the double, bits *)
  GetClassForField : Z -> Z;
  IsFieldReadonly : Z -> bool;
  IsClassInitialized : Z -> bool;
  GetStaticFieldValue : Z -> Z }.

(** analysis.cpp: [IsInstNotNull]. *)
Definition IsInstNotNull `{Runtime} (x : Inst) : bool :=
  if IsAllocation x || IsNullCheck x then true
  else if IsParameter x && (GetArgNumber x =? 0) then negb IsMethodStatic
  else false.

(** * Loops *)
Fixpoint IsInside_loop (fuel : nat) (g : Graph) (outer : option LoopId) (other : LoopId) :
    outcome bool :=
  match fuel with
  | O => NoFuel
  | S fuel =>
      match outer with
      | None => Done false
      | Some o =>
          if o == other then Done true
          else l ← get_loop g o; IsInside_loop fuel g (GetOuterLoop l) other
      end
  end.
Definition IsInside (g : Graph) (this other : LoopId) : outcome bool :=
  l ← get_loop g this;
  IsInside_loop (S (size (loops g))) g (GetOuterLoop l) other.

Definition IsOsrLoop (g : Graph) (l : Loop) : outcome bool :=
  if IsRoot l then Done false
  else h ← deref (GetHeader l); b ← get_block g h; Done (IsOsrEntry b).
Definition IsTryCatchLoop (g : Graph) (l : Loop) : outcome bool :=
  if IsRoot l then Done false
  else h ← deref (GetHeader l); b ← get_block g h; Done (IsCatchBegin b).

(** * Constants: [ConstantInst] and the graph's list of them *)
(** The argument of [FindOrCreateConstant<T>]: an integer of [size] bytes, or
    the bit pattern of a float, a double or a [DataType::Any]. *)
Inductive ConstVal :=
| IntVal (size : Z) (v : Z)
| FloatVal (bits : Z)
| DoubleVal (bits : Z)
| AnyVal (bits : Z).

Definition GetTypeFromCType (v : ConstVal) (supportInt32 : bool) : DataType :=
  match v with
  | IntVal size _ => if supportInt32 && (size =? 4) then INT32 else INT64
  | FloatVal _ => FLOAT32
  | DoubleVal _ => FLOAT64
  | AnyVal _ => ANY
  end.

(** What the constructor stores in [value_]. *)
Definition const_raw (v : ConstVal) (supportInt32 : bool) : Z :=
  match v with
  | IntVal size x =>
      if supportInt32 && (size =? 4) then u64 (i32 x) else u64 x
  | FloatVal b | DoubleVal b | AnyVal b => u64 b
  end.

Definition ConstantInst (v : ConstVal) (supportInt32 : bool) (block : BlockId) : Inst :=
  mkInst OpConstant (GetTypeFromCType v supportInt32) [] [] block false NO_TYPE CC_EQ 0
    (const_raw v supportInt32) None 0 [] false 0 0 None.

Definition IsEqualConst_raw (x : Inst) (type : DataType) (value : Z) : bool :=
  (GetType x == type) && (value_ x =? value).

Definition IsEqualConst (x : Inst) (v : ConstVal) (supportInt32 : bool) : bool :=
  match v with
  | DoubleVal b => IsEqualConst_raw x FLOAT64 (u64 b)
  | FloatVal b => IsEqualConst_raw x FLOAT32 (u64 b)
  | AnyVal b => IsEqualConst_raw x ANY (u64 b)
  | IntVal size value =>
      if supportInt32 && (size =? 4) then
        (GetType x == INT32) && (i32 (value_ x) =? i32 value)
      else (GetType x == INT64) && (value_ x =? u64 value)
  end.

(** The address of a new instruction: one that no instruction has. *)
Definition new_id (m : gmap InstId Inst) : InstId :=
  Pos.succ (map_fold (fun k _ a => Pos.max k a) 1%positive m).

(** [CreateInstConstant] and [AddConstInStartBlock]. *)
Definition CreateConstInStartBlock (g : Graph) (v : ConstVal) : Graph * InstId :=
  let c := new_id (insts g) in
  let g1 := set_insts (<[c := ConstantInst v (IsBytecodeOptimizer g) (GetStartBlock g)]>) g in
  (set_blocks (alter (append_inst c) (GetStartBlock g)) g1, c).

Fixpoint FindOrCreateConstant_loop (fuel : nat) (g : Graph) (currentConst : option InstId)
    (prevConst : InstId) (v : ConstVal) : outcome (Graph * InstId) :=
  match fuel with
  | O => NoFuel
  | S fuel =>
      match currentConst with
      | Some cur =>
          x ← get_inst g cur;
          if IsEqualConst x v (IsBytecodeOptimizer g) then Done (g, cur)
          else FindOrCreateConstant_loop fuel g (nextConst_ x) cur v
      | None =>
          let '(g', newConst) := CreateConstInStartBlock g v in
          Done (set_insts (alter (set_nextConst (Some newConst)) prevConst) g', newConst)
      end
  end.

Definition FindOrCreateConstant (g : Graph) (v : ConstVal) : outcome (Graph * InstId) :=
  match firstConstInst_ g with
  | None =>
      let '(g', c) := CreateConstInStartBlock g v in
      Done (set_firstConst (Some c) g', c)
  | Some first => FindOrCreateConstant_loop (S (S (size (insts g)))) g (Some first) first v
  end.

Fixpoint FindConstant_loop (fuel : nat) (g : Graph) (constant : option InstId)
    (type : DataType) (value : Z) : outcome (option InstId) :=
  match fuel with
  | O => NoFuel
  | S fuel =>
      match constant with
      | None => Done None
      | Some c =>
          x ← get_inst g c;
          if GetType x != type then FindConstant_loop fuel g (nextConst_ x) type value
          else if IsBytecodeOptimizer g && IsInt32Bit type && (GetInt32Value x =? u32 value)
          then Done (Some c)
          else if IsEqualConst_raw x type value then Done (Some c)
          else FindConstant_loop fuel g (nextConst_ x) type value
      end
  end.
Definition FindConstant (g : Graph) (type : DataType) (value : Z) : outcome (option InstId) :=
  FindConstant_loop (S (size (insts g))) g (firstConstInst_ g) type value.

(** [FindOrAddConstant(inst)], [inst] being an instruction not yet in a block. *)
Definition FindOrAddConstant (g : Graph) (inst : InstId) : outcome (Graph * InstId) :=
  x ← get_inst g inst;
  existing ← FindConstant g (GetType x) (GetRawValue x);
  match existing with
  | Some c => Done (g, c)
  | None =>
      let g1 := set_blocks (alter (append_inst inst) (GetStartBlock g)) g in
      let g2 := set_insts (alter (set_nextConst (firstConstInst_ g)) inst) g1 in
      Done (set_firstConst (Some inst) g2, inst)
  end.

(** ** The list of constants *)
(** [const_chain g p l]: following [nextConst_] from [p] visits the constants
    [l] and ends. *)
Inductive const_chain (g : Graph) : option InstId -> list InstId -> Prop :=
| chain_nil : const_chain g None []
| chain_cons c x l :
    insts g !! c = Some x -> IsConst x = true -> const_chain g (nextConst_ x) l ->
    const_chain g (Some c) (c :: l).

Lemma const_chain_links (g : Graph) p l :
  const_chain g p l -> links (fun c => nextConst_ <$> insts g !! c) p l.
Proof. induction 1 as [|c x l Hx Hc Hl IH]; econstructor; [by rewrite Hx|done]. Qed.

Lemma const_chain_NoDup (g : Graph) p l : const_chain g p l -> NoDup l.
Proof. intros H%const_chain_links. by eapply links_NoDup. Qed.

Lemma const_chain_insts (g : Graph) p l c :
  const_chain g p l -> c ∈ l -> exists x, insts g !! c = Some x /\ IsConst x = true.
Proof.
  induction 1 as [|d x l Hx Hc Hl IH]; intros Hin; [by apply elem_of_nil in Hin|].
  apply elem_of_cons in Hin as [->|?]; eauto.
Qed.

(** A list of links through a map is no longer than the map. *)
Lemma links_size {V} (m : gmap positive V) (next : V -> option positive) p l :
  links (fun c => next <$> m !! c) p l -> (length l <= size m)%nat.
Proof.
  intros H. rewrite <- size_dom, <- (size_list_to_set (C:=gset positive) l)
    by (by eapply links_NoDup).
  apply subseteq_size. intros c Hc%elem_of_list_to_set.
  destruct (links_next _ _ _ _ H Hc) as [n (x & ? & _)%fmap_Some]. apply elem_of_dom; eauto.
Qed.

Lemma const_chain_length (g : Graph) p l :
  const_chain g p l -> (length l <= size (insts g))%nat.
Proof. intros H%const_chain_links. by eapply links_size. Qed.

Lemma new_id_fresh (m : gmap InstId Inst) : m !! new_id m = None.
Proof.
  assert (H : forall k x, m !! k = Some x ->
    (k <= map_fold (fun k _ a => Pos.max k a) 1 m)%positive).
  { apply (map_fold_weak_ind (fun a m => forall k x, m !! k = Some x -> (k <= a)%positive)).
    - intros k x Hk. by rewrite lookup_empty in Hk.
    - intros i x m' r Hi IH k y Hk. destruct (decide (k = i)) as [->|Hne]; [lia|].
      rewrite lookup_insert_ne in Hk by done. apply IH in Hk. lia. }
  destruct (m !! new_id m) as [x|] eqn:E; [|done].
  apply H in E. unfold new_id in E. lia.
Qed.

Lemma IsEqualConst_new (v : ConstVal) (b : bool) (s : BlockId) :
  IsEqualConst (ConstantInst v b s) v b = true.
Proof.
  destruct v as [size v|v|v|v]; unfold IsEqualConst, IsEqualConst_raw, ConstantInst; cbn -[wrapu wraps].
  all: try (rewrite Z.eqb_refl; done).
  destruct (b && (size =? 4)); rewrite ?bool_decide_eq_true_2 by done; cbn -[wrapu wraps].
  - apply Z.eqb_eq. rewrite <- (wraps_id 32 (i32 v)) at 2 by (try lia; apply wraps_range; lia).
    apply wraps_congr. rewrite wrapu_mod_le by lia. done.
  - by rewrite Z.eqb_refl.
Qed.

Lemma const_chain_append (g g' : Graph) p l e c xc :
  const_chain g p l -> last l = Some e -> insts g !! c = None ->
  IsConst xc = true -> nextConst_ xc = None ->
  insts g' = alter (set_nextConst (Some c)) e (<[c := xc]> (insts g)) ->
  const_chain g' p (l ++ [c]).
Proof.
  intros H Hlast Hc Hxc Hnx Hg'. pose proof (const_chain_NoDup _ _ _ H) as ND.
  induction H as [|d x l Hx Hd Hl IH]; [done|].
  assert (c <> d) by congruence.
  assert (He : forall k, k <> e -> insts g' !! k = <[c:=xc]> (insts g) !! k)
    by (intros; rewrite Hg'; by apply lookup_alter_ne).
  inversion_clear ND. destruct l as [|k l]; simpl in *.
  - simplify_eq. econstructor; [rewrite Hg', lookup_alter, decide_True, lookup_insert_ne, Hx by done; done|done|].
    simpl. econstructor; [rewrite He, lookup_insert by done; by rewrite decide_True|done|].
    rewrite Hnx. inversion Hl; subst. constructor.
  - assert (d <> e). { intros ->. apply (H0). by eapply last_Some_elem_of. }
    econstructor; [rewrite He, lookup_insert_ne by done; exact Hx|done|]. by apply IH.
Qed.

(** What [FindOrCreateConstant] changes in the instructions: [c] is new, another
    one at most gets a link to it. *)
Definition only_links_changed (g g' : Graph) (c : InstId) (v : ConstVal) : Prop :=
  insts g !! c = None /\
  insts g' !! c = Some (ConstantInst v (IsBytecodeOptimizer g) (GetStartBlock g)) /\
  forall i, i <> c -> exists n, insts g' !! i = set_nextConst n <$> insts g !! i.
(** The flags of a graph. *)
Definition same_mode (g g' : Graph) : Prop :=
  IsBytecodeOptimizer g' = IsBytecodeOptimizer g /\ IsDynamicMethod g' = IsDynamicMethod g /\
  GetArch g' = GetArch g.

Lemma set_nextConst_same (x : Inst) : set_nextConst (nextConst_ x) x = x.
Proof. by destruct x. Qed.

Lemma same_link (m : option Inst) : exists n, m = set_nextConst n <$> m.
Proof. destruct m as [x|]; [exists (nextConst_ x); cbn; by rewrite set_nextConst_same|by exists None]. Qed.

(** The result of a search: the constant found, or a new one at the end. *)
Definition const_found (g : Graph) (l : list InstId) (v : ConstVal) (g' : Graph) (c : InstId)
    (l' : list InstId) : Prop :=
  const_chain g' (firstConstInst_ g') l' /\ c ∈ l' /\
  (exists x, insts g' !! c = Some x /\ IsConst x = true /\
     IsEqualConst x v (IsBytecodeOptimizer g) = true) /\ same_mode g g' /\
  ((g' = g /\ l' = l) \/
   (l' = l ++ [c] /\ only_links_changed g g' c v /\
    forall d x, d ∈ l -> insts g !! d = Some x -> IsEqualConst x v (IsBytecodeOptimizer g) = false)).

Lemma FindOrCreateConstant_loop_found (g : Graph) (v : ConstVal) l pre cur suf prev fuel :
  const_chain g (firstConstInst_ g) l -> l = pre ++ suf -> const_chain g cur suf ->
  (suf = [] -> last l = Some prev) -> (length suf < fuel)%nat ->
  (forall d x, d ∈ pre -> insts g !! d = Some x -> IsEqualConst x v (IsBytecodeOptimizer g) = false) ->
  exists g' c l', FindOrCreateConstant_loop fuel g cur prev v = Done (g', c) /\
    const_found g l v g' c l'.
Proof.
  intros Hl. revert pre cur prev suf; induction fuel as [|fuel IH];
    intros pre cur prev suf El Hs Hlast Hf Hpre; [lia|]. cbn [FindOrCreateConstant_loop].
  destruct Hs as [|c x suf Hx Hc Hs].
  - unfold CreateConstInStartBlock; cbv zeta beta iota.
    match goal with |- context [Done (?x, _)] => set (g' := x) end.
    exists g', (new_id (insts g)), (l ++ [new_id (insts g)]).
    split; [done|]. pose proof (new_id_fresh (insts g)) as Hnew.
    specialize (Hlast eq_refl).
    assert (Hne : prev <> new_id (insts g)).
    { destruct (const_chain_insts g _ l prev Hl) as (x & Hx & _); [by eapply last_Some_elem_of|congruence]. }
    assert (Hc : insts g' !! new_id (insts g) = Some (ConstantInst v (IsBytecodeOptimizer g) (GetStartBlock g))).
    { cbn [insts set_insts g' set_blocks]. by rewrite lookup_alter_ne, lookup_insert_eq by done. }
    split; [|split; [set_solver|split; [|split; [done|right; split; [done|split]]]]].
    + by apply (const_chain_append g g' _ l prev _ (ConstantInst v (IsBytecodeOptimizer g) (GetStartBlock g))).
    + eexists; split; [done|]. split; [done|apply IsEqualConst_new].
    + split; [done|]. split; [done|]. intros i Hi. cbn [insts set_insts g' set_blocks].
      destruct (decide (i = prev)) as [->|].
      { exists (Some (new_id (insts g))). by rewrite lookup_alter_eq, lookup_insert_ne by done. }
      rewrite lookup_alter_ne, lookup_insert_ne by done. apply same_link.
    + rewrite app_nil_r in El. subst l. exact Hpre.
  - unfold get_inst. rewrite Hx. cbn [mbind outcome_bind].
    destruct (IsEqualConst x v (IsBytecodeOptimizer g)) eqn:E.
    + exists g, c, l. split; [done|]. split; [done|]. split; [set_solver|]. split; [eauto|]. split; [done|]. auto.
    + apply (IH (pre ++ [c]) _ _ suf); [by rewrite <- app_assoc|done| |simpl in Hf; lia|].
      * intros ->. subst l. by rewrite last_snoc.
      * intros d y [Hd|Hd%list_elem_of_singleton]%elem_of_app Hy; [eauto|]. congruence.
Qed.

(** Looking a constant up and adding it: the result denotes the value, the list
    stays well formed, and an equal constant is never added twice. *)
Lemma FindOrCreateConstant_found (g : Graph) (v : ConstVal) l :
  const_chain g (firstConstInst_ g) l ->
  exists g' c l', FindOrCreateConstant g v = Done (g', c) /\ const_found g l v g' c l'.
Proof.
  intros Hl. unfold FindOrCreateConstant.
  destruct (firstConstInst_ g) as [first|] eqn:Ef.
  - apply (FindOrCreateConstant_loop_found g v l [] (Some first) l);
      [by rewrite Ef|done|done| |pose proof (const_chain_length _ _ _ Hl); lia|set_solver].
    intros ->. inversion Hl.
  - inversion Hl; subst. set (c := new_id (insts g)). unfold CreateConstInStartBlock; cbv zeta beta iota. fold c.
    match goal with |- context [Done (?x, _)] => set (g' := x) end. exists g', c, [c]. split; [done|].
    pose proof (new_id_fresh (insts g)) as Hnew. fold c in Hnew.
    assert (Hc : insts g' !! c = Some (ConstantInst v (IsBytecodeOptimizer g) (GetStartBlock g))).
    { cbn [insts g' set_firstConst set_blocks set_insts]. by rewrite lookup_insert, decide_True. }
    split; [|split; [set_solver|split; [|split; [done|]]]].
    + cbn [firstConstInst_ g' set_firstConst]. econstructor; [done|done|constructor].
    + eexists; split; [done|]. split; [done|apply IsEqualConst_new].
    + right. split; [done|]. split; [|set_solver]. split; [done|]. split; [done|].
      intros i Hi. cbn [insts g' set_firstConst set_blocks set_insts]. rewrite lookup_insert_ne by done.
      apply same_link.
Qed.

(** * Def-use chains *)
(** Inputs exist, and every user list is the inverse of the inputs, without
    repetition. *)
Record users_wf (g : Graph) : Prop := {
  wf_inputs u y idx i : insts g !! u = Some y -> GetInputs y !! idx = Some i -> is_Some (insts g !! i);
  wf_users i x : insts g !! i = Some x -> forall u idx,
    (u, idx) ∈ GetUsers x <-> exists y, insts g !! u = Some y /\ GetInputs y !! idx = Some i;
  wf_nodup i x : insts g !! i = Some x -> NoDup (GetUsers x) }.

(** The same, as a test. *)
Definition users_check (g : Graph) : bool :=
  bool_decide (map_Forall (fun i x =>
    Forall (fun p => (i, p.1) ∈ default [] (GetUsers <$> insts g !! p.2)) (imap pair (GetInputs x)) /\
    Forall (fun p => (y ← insts g !! p.1; GetInputs y !! p.2) = Some i) (GetUsers x) /\
    NoDup (GetUsers x)) (insts g)).

Lemma users_check_wf (g : Graph) : users_check g = true -> users_wf g.
Proof.
  intros H%bool_decide_eq_true. 
  assert (Hin : forall u y idx i, insts g !! u = Some y -> GetInputs y !! idx = Some i ->
    (u, idx) ∈ default [] (GetUsers <$> insts g !! i)).
  { intros u y idx i Hy Hi. destruct (H u y Hy) as (Hf & _). rewrite Forall_forall in Hf.
    apply (Hf (idx, i)). apply elem_of_lookup_imap. eauto. }
  split.
  - intros u y idx i Hy Hi. specialize (Hin u y idx i Hy Hi). destruct (insts g !! i); [done|].
    by apply elem_of_nil in Hin.
  - intros i x Hx u idx. split.
    + intros Hu. destruct (H i x Hx) as (_ & Hf & _). rewrite Forall_forall in Hf. specialize (Hf _ Hu). cbn in Hf.
      destruct (insts g !! u) as [y|] eqn:Hy; [|done]. eauto.
    + intros (y & Hy & Hi). specialize (Hin u y idx i Hy Hi). by rewrite Hx in Hin.
  - intros i x Hx. by destruct (H i x Hx) as (_ & _ & ?).
Qed.

(** Inputs that pointed to [this] may now point to [new]; nothing else changes. *)
Definition moved_input (this new a b : InstId) : Prop := b = a \/ (a = this /\ b = new).
Definition redirected (this new : InstId) (g g' : Graph) : Prop :=
  (exists m, g' = set_insts (fun _ => m) g) /\
  forall i, option_Forall2 (fun x x' => exists us ins,
    x' = set_users (fun _ => us) (set_inputs (fun _ => ins) x) /\
    Forall2 (moved_input this new) (GetInputs x) ins) (insts g !! i) (insts g' !! i).

Lemma redirected_refl this new g : redirected this new g g.
Proof.
  split; [exists (insts g); by destruct g|]. intros i. destruct (insts g !! i) as [x|]; constructor.
  exists (GetUsers x), (GetInputs x). split; [by destruct x|].
  apply Forall2_same_length_lookup_2; [done|]. intros; left; congruence.
Qed.

Lemma moved_input_trans this new a b c :
  moved_input this new a b -> moved_input this new b c -> moved_input this new a c.
Proof. unfold moved_input. intros [->|[-> ->]] [->|[? ->]]; auto. Qed.

Lemma redirected_trans this new g1 g2 g3 :
  redirected this new g1 g2 -> redirected this new g2 g3 -> redirected this new g1 g3.
Proof.
  intros [[m ->] H1] [[m' ->] H2]. split; [by exists m'|]. intros i.
  specialize (H1 i). specialize (H2 i). cbn [insts set_insts] in *. destruct H1 as [x y (us & ins & -> & F1)|].
  - inversion H2 as [? z (us' & ins' & -> & F2) E E2|]; subst. constructor.
    exists us', ins'. split; [done|]. cbn [GetInputs set_users set_inputs] in F2.
    clear -F1 F2. revert ins' F2. induction F1; intros ins' F2; inversion F2; constructor; eauto using moved_input_trans.
  - by inversion H2; constructor.
Qed.

(** What one [SetInput] does to the instruction with identifier [i]. *)
Definition redirect1 (u : InstId) (idx : nat) (old new i : InstId) (x : Inst) : Inst :=
  let x := if decide (i = old) then RemoveUser (u, idx) x else x in
  let x := if decide (i = new) then AddUser (u, idx) x else x in
  if decide (i = u) then set_inputs (<[idx := new]>) x else x.

Lemma SetInput_insts (g : Graph) u idx old new y :
  insts g !! u = Some y -> GetInputs y !! idx = Some old ->
  exists m, SetInput g u idx new = Done (set_insts (fun _ => m) g) /\
    forall i, m !! i = redirect1 u idx old new i <$> insts g !! i.
Proof.
  intros Hy Hi. unfold SetInput, get_inst, read. rewrite Hy. cbn [mbind outcome_bind]. rewrite Hi.
  eexists; split; [done|]. intros i. unfold redirect1.
  assert (A : forall f k (m : gmap InstId Inst),
    alter f k m !! i = if decide (i = k) then f <$> m !! i else m !! i).
  { intros f k m. case_decide; [subst; apply lookup_alter_eq|by apply lookup_alter_ne]. }
  rewrite !A. by repeat case_decide; destruct (insts g !! i).
Qed.

Lemma redirect1_inputs u idx old new i x :
  GetInputs (redirect1 u idx old new i x) =
  if decide (i = u) then <[idx := new]> (GetInputs x) else GetInputs x.
Proof. unfold redirect1. repeat case_decide; done. Qed.

Lemma redirect1_users u idx old new i x :
  old <> new ->
  GetUsers (redirect1 u idx old new i x) =
  if decide (i = old) then filter (fun v => v <> (u, idx)) (GetUsers x)
  else if decide (i = new) then (u, idx) :: GetUsers x else GetUsers x.
Proof. intros. unfold redirect1. repeat case_decide; simplify_eq; done. Qed.

Lemma redirect1_inputs_at u idx old new y0 j y k :
  (j = u -> y = y0) -> GetInputs y0 !! idx = Some old ->
  GetInputs (redirect1 u idx old new j y) !! k =
  if decide ((j, k) = (u, idx)) then Some new else GetInputs y !! k.
Proof.
  intros Hy Ho. rewrite redirect1_inputs. apply lookup_lt_Some in Ho.
  destruct (decide (j = u)) as [->|Hne].
  - rewrite Hy by done. destruct (decide (k = idx)) as [->|].
    + rewrite list_lookup_insert, !decide_True; done.
    + rewrite list_lookup_insert_ne, decide_False by congruence. done.
  - rewrite decide_False by congruence. done.
Qed.

Lemma SetInput_wf (g : Graph) u idx old new y xn :
  users_wf g -> insts g !! u = Some y -> GetInputs y !! idx = Some old ->
  old <> new -> insts g !! new = Some xn ->
  exists g', SetInput g u idx new = Done g' /\ users_wf g' /\ redirected old new g g' /\
    (forall i, insts g' !! i = redirect1 u idx old new i <$> insts g !! i).
Proof.
  intros W Hy Hi Hne Hn. destruct (SetInput_insts g u idx old new y Hy Hi) as (m & E & Hm).
  exists (set_insts (fun _ => m) g). split; [done|]. split; [|split]; [| |exact Hm].
  - assert (Hsome : forall k, is_Some (m !! k) <-> is_Some (insts g !! k)).
    { intros k. rewrite Hm. by rewrite fmap_is_Some. }
    split; intros i x'; [intros k j Hx' Hj; cbn [insts set_insts] in Hx' |- *|intros Hx'; cbn [insts set_insts] in Hx'..];
      rewrite Hm in Hx'; destruct (insts g !! i) as [x|] eqn:Hx; simplify_eq/=.
    + rewrite (redirect1_inputs_at u idx old new y) in Hj by (try done; congruence). apply Hsome.
      case_decide; simplify_eq; [eauto|]. by eapply (wf_inputs g W i x).
    + intros v k. rewrite redirect1_users by done. pose proof (wf_users g W i x Hx v k) as Hw.
      assert (Hr : (exists y', m !! v = Some y' /\ GetInputs y' !! k = Some i) <->
        if decide ((v, k) = (u, idx)) then new = i
        else exists z, insts g !! v = Some z /\ GetInputs z !! k = Some i).
      { split.
        - intros (y' & Hv & Hk). rewrite Hm in Hv. destruct (insts g !! v) as [z|] eqn:Hz; simplify_eq/=.
          rewrite (redirect1_inputs_at u idx old new y) in Hk by (try done; congruence).
          case_decide; [congruence|eauto].
        - intros Hk. case_decide as Hd; simplify_eq/=.
          + eexists. rewrite Hm, Hy. split; [done|].
            rewrite (redirect1_inputs_at u idx old i y) by done. by rewrite decide_True.
          + destruct Hk as (z & Hz & Hk). eexists. rewrite Hm, Hz. split; [done|].
            rewrite (redirect1_inputs_at u idx old new y) by (try done; congruence).
            by rewrite decide_False. }
      rewrite Hr. clear Hr. destruct (decide (i = old)) as [->|Ho]; [|destruct (decide (i = new)) as [->|Hnn]].
      * rewrite list_elem_of_filter, Hw. case_decide; naive_solver.
      * rewrite elem_of_cons, Hw. case_decide; naive_solver.
      * rewrite Hw. case_decide; [|done]. simplify_eq. split; [|congruence].
        intros (z & Hz & Hk). rewrite Hy in Hz. simplify_eq.
    + rewrite redirect1_users by done. pose proof (wf_nodup g W i x Hx).
      repeat case_decide; [by apply NoDup_filter| |done]. constructor; [|done]. subst.
      rewrite (wf_users g W new x Hx). intros (z & Hz & Hk). rewrite Hy in Hz. simplify_eq.
  - split; [by exists m|]. intros i. cbn [insts set_insts]. rewrite Hm.
    destruct (insts g !! i) as [x|] eqn:Hx; constructor.
    exists (GetUsers (redirect1 u idx old new i x)), (GetInputs (redirect1 u idx old new i x)).
    split; [unfold redirect1; repeat case_decide; by destruct x|].
    rewrite redirect1_inputs. apply Forall2_same_length_lookup_2; [by case_decide; rewrite ?length_insert|].
    intros k a b Ha Hb. case_decide; [subst|left; congruence].
    assert (x = y) as -> by congruence. destruct (decide (k = idx)) as [->|].
    + rewrite list_lookup_insert, decide_True in Hb; [right; split; congruence|].
      split; [done|by eapply lookup_lt_Some].
    + rewrite list_lookup_insert_ne in Hb by done. left; congruence.
Qed.

Lemma filter_head_NoDup (u : InstId * nat) l :
  NoDup (u :: l) -> filter (fun v => v <> u) (u :: l) = l.
Proof.
  intros ND. inversion_clear ND. rewrite filter_cons_False by naive_solver.
  induction l as [|v l IH]; [done|]. rewrite not_elem_of_cons in *. destruct_and!.
  rewrite filter_cons_True by congruence. f_equal. apply IH; [done|by inversion_clear H0].
Qed.

Lemma ReplaceUsers_loop_done (fuel : nat) (g : Graph) this new xt xn :
  users_wf g -> this <> new -> insts g !! this = Some xt -> insts g !! new = Some xn ->
  (length (GetUsers xt) < fuel)%nat ->
  exists g' xt', ReplaceUsers_loop fuel g this new = Done g' /\ users_wf g' /\
    redirected this new g g' /\ insts g' !! this = Some xt' /\ GetUsers xt' = [].
Proof.
  revert g xt xn; induction fuel as [|fuel IH]; intros g xt xn W Hne Ht Hn Hf; [lia|].
  cbn [ReplaceUsers_loop]. unfold get_inst. rewrite Ht. cbn [mbind outcome_bind].
  destruct (GetUsers xt) as [|[u idx] us] eqn:Eu.
  - exists g, xt. auto using redirected_refl.
  - destruct (proj1 (wf_users g W this xt Ht u idx)) as (y & Hy & Hi); [rewrite Eu; set_solver|].
    destruct (SetInput_wf g u idx this new y xn W Hy Hi Hne Hn) as (g1 & -> & W1 & R1 & Hg1).
    cbn [mbind outcome_bind].
    destruct (IH g1 (redirect1 u idx this new this xt) (redirect1 u idx this new new xn))
      as (g' & xt' & Hr & W' & R' & Ht'); [done|done|by rewrite Hg1, Ht|by rewrite Hg1, Hn| |].
    + rewrite redirect1_users, decide_True by done. rewrite Eu, filter_head_NoDup; [simpl in Hf; lia|].
      rewrite <- Eu. exact (wf_nodup g W this xt Ht).
    + exists g', xt'. split; [done|]. split; [done|]. split; [by eapply redirected_trans|done].
Qed.

(** Substituting one instruction for another in the inputs. *)
Definition subst_inst (this new k : InstId) : InstId := if decide (k = this) then new else k.

Lemma moved_all (this new : InstId) l l' :
  Forall2 (moved_input this new) l l' -> this ∉ l' -> l' = subst_inst this new <$> l.
Proof.
  unfold subst_inst. induction 1 as [|a b l l' [->|[-> ->]] F IH]; intros Hn; [done| |];
    rewrite not_elem_of_cons in Hn; destruct Hn; cbn; f_equal; auto;
    [by rewrite decide_False by congruence|by rewrite decide_True].
Qed.

(** [this->ReplaceUsers(new)] terminates; afterwards every input that was
    [this] is [new], no other input changes, the user lists still mirror the
    inputs, and [this] has no users. *)
Lemma ReplaceUsers_done (g : Graph) this new xt xn :
  users_wf g -> this <> new -> insts g !! this = Some xt -> insts g !! new = Some xn ->
  exists g', ReplaceUsers g this new = Done g' /\ users_wf g' /\
    (forall i x, insts g !! i = Some x -> exists us,
       insts g' !! i = Some (set_users (fun _ => us) (set_inputs (fmap (subst_inst this new)) x))) /\
    (exists m, g' = set_insts (fun _ => m) g).
Proof.
  intros W Hne Ht Hn. unfold ReplaceUsers, get_inst. rewrite Ht. cbn [mbind outcome_bind].
  destruct (ReplaceUsers_loop_done (S (length (GetUsers xt))) g this new xt xn)
    as (g' & xt' & -> & W' & [Hm R] & Ht' & Hu); auto.
  exists g'. split; [done|]. split; [done|]. split; [|done]. intros i x Hx.
  specialize (R i). rewrite Hx in R. inversion R as [? x' (us & ins & -> & F) E E2|]; subst.
  exists us. f_equal. assert (this ∉ ins) as Hni.
  { intros (k & Hk)%list_elem_of_lookup.
    apply (not_elem_of_nil (i, k)). rewrite <- Hu. apply (wf_users g' W' this xt' Ht').
    exists (set_users (fun _ => us) (set_inputs (fun _ => ins) x)). split; [symmetry; apply E2|done]. }
  rewrite (moved_all this new _ _ F Hni). by destruct x.
Qed.

(** Creating a constant keeps the def-use chains. *)
Lemma const_found_users (g g' : Graph) l v c l' :
  users_wf g -> const_found g l v g' c l' -> users_wf g'.
Proof.
  intros W (_ & _ & _ & _ & [[-> _]|(_ & (Hnew & Hxc & Hlinks) & _)]); [done|].
  assert (Hback : forall i x', insts g' !! i = Some x' -> i <> c -> exists x n,
    insts g !! i = Some x /\ x' = set_nextConst n x).
  { intros i x' Hi Hne. destruct (Hlinks i Hne) as [n Hn]. rewrite Hn in Hi.
    destruct (insts g !! i) as [x|]; [|done]. injection Hi as <-. eauto. }
  assert (Hfwd : forall i x, insts g !! i = Some x -> exists n, insts g' !! i = Some (set_nextConst n x)).
  { intros i x Hi. destruct (Hlinks i) as [n Hn]; [congruence|]. rewrite Hi in Hn. eauto. }
  assert (Hno : forall u idx y, insts g' !! u = Some y -> GetInputs y !! idx = Some c -> False).
  { intros u idx y Hu Hy. destruct (decide (u = c)) as [->|Hun]; [rewrite Hxc in Hu; injection Hu as <-; done|].
    destruct (Hback u y Hu Hun) as (x & n & Hx & ->). destruct (wf_inputs g W u x idx c Hx Hy). congruence. }
  split.
  - intros u y idx i Hu Hi. destruct (decide (u = c)) as [->|Hne]; [rewrite Hxc in Hu; by injection Hu as <-|].
    destruct (Hback u y Hu Hne) as (x & n & Hx & ->). destruct (wf_inputs g W u x idx i Hx Hi) as [z Hz].
    destruct (Hfwd i z Hz) as [n' ->]. eauto.
  - intros i x' Hi u idx. destruct (decide (i = c)) as [->|Hne].
    + rewrite Hxc in Hi. injection Hi as <-. cbn [GetUsers ConstantInst].
      split; [intros H; by apply elem_of_nil in H|]. intros (y & Hu & Hy). by destruct (Hno u idx y).
    + destruct (Hback i x' Hi Hne) as (x & n & Hx & ->). cbn [GetUsers set_nextConst].
      rewrite (wf_users g W i x Hx). split; intros (y & Hu & Hy).
      * destruct (Hfwd u y Hu) as [n' Hn']. eauto.
      * destruct (decide (u = c)) as [->|Hun]; [rewrite Hxc in Hu; by injection Hu as <-|].
        destruct (Hback u y Hu Hun) as (y' & n' & Hy' & ->). eauto.
  - intros i x' Hi. destruct (decide (i = c)) as [->|Hne]; [rewrite Hxc in Hi; injection Hi as <-; constructor|].
    destruct (Hback i x' Hi Hne) as (x & n & Hx & ->). by apply (wf_nodup g W i x).
Qed.

(** What a fold leaves behind: the users of [inst] read the constant [c], which
    has the given type and pattern up to [IsEqualConst]; no other instruction
    changes, and the invariants hold. *)
Record replaced_by (g : Graph) (inst : InstId) (v : ConstVal) (g' : Graph) : Prop := {
  rep_users : users_wf g';
  rep_consts : exists l, const_chain g' (firstConstInst_ g') l;
  rep_const : exists c x, insts g' !! c = Some x /\ IsConst x = true /\
    IsEqualConst x v (IsBytecodeOptimizer g) = true /\
    forall i y, insts g !! i = Some y -> i <> c -> exists us n,
      insts g' !! i = Some (set_users (fun _ => us)
        (set_inputs (fmap (subst_inst inst c)) (set_nextConst n y))) }.

(** [ReplaceUsers] keeps the list of constants. *)
Lemma const_chain_redirect (g g' : Graph) f p l :
  (forall i x, insts g !! i = Some x -> exists us,
     insts g' !! i = Some (set_users (fun _ => us) (set_inputs f x))) ->
  const_chain g p l -> const_chain g' p l.
Proof.
  intros Hg'. induction 1 as [|c x l Hx Hc Hl IH]; [constructor|].
  destruct (Hg' c x Hx) as [us Hc']. by econstructor.
Qed.

(** Finding or creating the constant of a value and redirecting the users of an
    instruction to it: the two steps every fold ends with. *)
Lemma fold_to_constant (g : Graph) (inst : InstId) (x : Inst) (v : ConstVal) l :
  users_wf g -> const_chain g (firstConstInst_ g) l ->
  insts g !! inst = Some x -> IsConst x = false ->
  exists g1 c g2, FindOrCreateConstant g v = Done (g1, c) /\ ReplaceUsers g1 inst c = Done g2 /\
    replaced_by g inst v g2.
Proof.
  intros W Hl Hx Hnc. destruct (FindOrCreateConstant_found g v l Hl) as (g1 & c & l1 & E & F).
  pose proof (const_found_users g g1 l v c l1 W F) as W1.
  destruct F as (Hl1 & Hin & (xc & Hxc & Hcc & Heq) & Hmode & Hcase).
  assert (Hfwd : forall i y, insts g !! i = Some y -> exists n, insts g1 !! i = Some (set_nextConst n y)).
  { intros i y Hi. destruct Hcase as [[-> _]|(_ & (Hnew & _ & Hlk) & _)].
    - exists (nextConst_ y). by rewrite set_nextConst_same.
    - destruct (Hlk i) as [n Hn]; [congruence|]. rewrite Hi in Hn. eauto. }
  destruct (Hfwd inst x Hx) as [n1 Hx1].
  assert (Hne : inst <> c).
  { intros ->. rewrite Hxc in Hx1. injection Hx1 as ->. cbn in Hcc. unfold IsConst in *. cbn in Hcc. congruence. }
  destruct (ReplaceUsers_done g1 inst c _ xc W1 Hne Hx1 Hxc) as (g2 & E2 & W2 & Hg2 & [m Hm]).
  exists g1, c, g2. split; [done|]. split; [done|]. split; [done| |].
  - exists l1. rewrite Hm. cbn [firstConstInst_ set_insts].
    apply (const_chain_redirect g1 _ (fmap (subst_inst inst c))); [|done]. by rewrite <- Hm.
  - destruct (Hg2 c xc Hxc) as [us Hc2]. exists c. eexists. split; [done|]. split; [done|].
    split; [by destruct v|]. intros i y Hi Hic. destruct (Hfwd i y Hi) as [n Hn].
    destruct (Hg2 i _ Hn) as [us' H']. eauto.
Qed.

(** * What the folding passes rely on *)
(** inverting a condition code negates the comparison and swapping the
    operands of a comparison is undone by the swapped code, for operands of
    every width; both are involutions. *)
Theorem condition_codes_agree (w : Z) (cc : ConditionCode) (l r : Z) :
  Compare w (GetInverseConditionCode cc) l r = negb (Compare w cc l r) /\
  Compare w (SwapOperandsConditionCode cc) r l = Compare w cc l r /\
  GetInverseConditionCode (GetInverseConditionCode cc) = cc /\
  SwapOperandsConditionCode (SwapOperandsConditionCode cc) = cc.
Proof. split; [apply Compare_inverse|]. split; [apply Compare_swap|]. by destruct cc. Qed.

Lemma IsEqualConst_set_nextConst (n : option InstId) (x : Inst) (v : ConstVal) (b : bool) :
  IsEqualConst (set_nextConst n x) v b = IsEqualConst x v b.
Proof. by destruct v. Qed.

(** Looking a constant up in a graph whose constants are linked always
    succeeds; the constant it gives has the value, the list stays well formed,
    and asking again gives the same constant and changes nothing: equal
    constants are shared. *)
Theorem FindOrCreateConstant_shares (g : Graph) (v : ConstVal) (l : list InstId) :
  const_chain g (firstConstInst_ g) l ->
  exists g' c x l', FindOrCreateConstant g v = Done (g', c) /\
    insts g' !! c = Some x /\ IsConst x = true /\ IsEqualConst x v (IsBytecodeOptimizer g) = true /\
    const_chain g' (firstConstInst_ g') l' /\ FindOrCreateConstant g' v = Done (g', c).
Proof.
  intros Hl. destruct (FindOrCreateConstant_found g v l Hl) as (g' & c & l' & E & Hc' & Hin & (x & Hx & Hk & Hq) & Hm & Hcase).
  exists g', c, x, l'. do 5 (split; [done|]).
  destruct Hcase as [[-> ->]|(-> & (Hnew & _ & Hlinks) & Hno)]; [done|].
  destruct (FindOrCreateConstant_found g' v _ Hc') as (g2 & c2 & l2 & E2 & _ & Hin2 & (x2 & Hx2 & _ & Hq2) & _ & Hcase2).
  destruct Hm as [Hb _]. rewrite Hb in *. rewrite E2.
  destruct Hcase2 as [[-> ->]|(_ & _ & Hno2)]; [|by rewrite (Hno2 c x Hin Hx) in Hq].
  apply elem_of_app in Hin2 as [Hin2|Hin2]; [|by apply list_elem_of_singleton in Hin2 as ->].
  destruct (const_chain_insts g _ l c2 Hl Hin2) as (y & Hy & _).
  destruct (Hlinks c2) as [n Hn]; [congruence|]. rewrite Hy, Hx2 in Hn. injection Hn as ->.
  rewrite IsEqualConst_set_nextConst, (Hno c2 y Hin2 Hy) in Hq2. done.
Qed.

(** C39: [this->ReplaceUsers(new)] terminates; afterwards every input that was
    [this] is [new], no other input changes, the user lists still mirror the
    inputs, and [this] has no users left. *)
Theorem ReplaceUsers_redirects (g : Graph) (this new : InstId) (xt xn : Inst) :
  users_wf g -> this <> new -> insts g !! this = Some xt -> insts g !! new = Some xn ->
  exists g', ReplaceUsers g this new = Done g' /\ users_wf g' /\
    (forall i x, insts g !! i = Some x -> exists x', insts g' !! i = Some x' /\
       GetInputs x' = subst_inst this new <$> GetInputs x) /\
    (exists xt', insts g' !! this = Some xt' /\ GetUsers xt' = []).
Proof.
  intros W Hne Ht Hn. destruct (ReplaceUsers_done g this new xt xn W Hne Ht Hn) as (g' & E & W' & Hi & _).
  exists g'. split; [done|]. split; [done|]. split; [intros i x Hx; destruct (Hi i x Hx) as [us ->]; eauto|].
  destruct (ReplaceUsers_loop_done (S (length (GetUsers xt))) g this new xt xn)
    as (g'' & xt' & E' & _ & _ & Ht' & Hu); auto.
  unfold ReplaceUsers, get_inst in E. rewrite Ht in E. cbn [mbind outcome_bind] in E.
  rewrite E' in E. injection E as <-. eauto.
Qed.

(** ** Concrete applications *)
(** A negation of a constant, with one user. *)
Definition ex_neg : Graph :=
  let inst op ins us v := mkInst op INT64 ins us 1%positive false NO_TYPE CC_EQ 0 v None 0 [] false 0 0 None in
  mkGraph (list_to_map [(1%positive, inst OpConstant [] [(2%positive, 0%nat)] 7);
                        (2%positive, inst OpNeg [1%positive] [(3%positive, 0%nat)] 0);
                        (3%positive, inst OpAbs [2%positive] [] 0)])
    {[1%positive := mkBlock [] [] None [] 1%positive [1%positive; 2%positive; 3%positive] [] false false]} ∅
    1%positive [1%positive] (Some 1%positive) false false X86_64.

Lemma FindOrCreateConstant_shares_witness :
  exists g' c x l', FindOrCreateConstant ex_neg (IntVal 8 9) = Done (g', c) /\
    insts g' !! c = Some x /\ IsConst x = true /\ IsEqualConst x (IntVal 8 9) false = true /\
    const_chain g' (firstConstInst_ g') l' /\ FindOrCreateConstant g' (IntVal 8 9) = Done (g', c).
Proof.
  apply (FindOrCreateConstant_shares ex_neg (IntVal 8 9) [1%positive]).
  eapply chain_cons; [reflexivity|reflexivity|constructor].
Defined.

Lemma ReplaceUsers_redirects_witness :
  exists g', ReplaceUsers ex_neg 2%positive 1%positive = Done g' /\ users_wf g' /\
    (forall i x, insts ex_neg !! i = Some x -> exists x', insts g' !! i = Some x' /\
       GetInputs x' = subst_inst 2%positive 1%positive <$> GetInputs x) /\
    (exists xt', insts g' !! 2%positive = Some xt' /\ GetUsers xt' = []).
Proof.
  eapply (ReplaceUsers_redirects ex_neg 2%positive 1%positive);
    [apply users_check_wf; vm_compute; reflexivity|discriminate|reflexivity|reflexivity].
Defined.
