(* ===== verification/BoundsRange.v ===== *)
(** Intervals of the value-range analysis: class [BoundsRange] of
    compiler/optimizer/analysis/bounds_analysis.{h,cpp}.

    A range is a pair of [int64_t] bounds and, optionally, an instruction
    whose value (an array length) the value is strictly below.  [wf] is the
    condition the constructor asserts; [contains] is the meaning of a range.
    The theorems show that every operation keeps ranges well formed (so no
    constructor assertion fires and no bound overflows) and contains the
    result of the operation it abstracts, at every integer type. *)
From S2P Require Import Prelude.
From S2P Require Import Ir.
Local Open Scope Z_scope.
Local Open Scope ark_scope.

Record BoundsRange := mkRange {
  left_ : Z;
  right_ : Z;
  lenArray_ : option InstId }.
#[export] Instance BoundsRange_eq_dec : EqDecision BoundsRange.
Proof. solve_decision. Defined.

Module Bounds.
Abbreviation MAX_RANGE_VALUE := INT64_MAX.
Abbreviation MIN_RANGE_VALUE := INT64_MIN.

(** * Constructors *)
Definition range (left right : Z) : BoundsRange := mkRange left right None.
(** [BoundsRange()] *)
Definition full : BoundsRange := range MIN_RANGE_VALUE MAX_RANGE_VALUE.
(** [BoundsRange(val)] *)
Definition const_range (val : Z) : BoundsRange := range val val.
Definition SetLenArray (r : BoundsRange) (inst : InstId) : BoundsRange :=
  mkRange (left_ r) (right_ r) (Some inst).

(** * Arithmetic with overflow checks *)
Definition AddWithOverflowCheck (left right : Z) : option Z :=
  if right =? 0 then Some left
  else if right >? 0 then
    if left <=? MAX_RANGE_VALUE - right then Some (left + right) else None
  else if left >=? MIN_RANGE_VALUE - right then Some (left + right)
  else None.

Definition AddWithOverflowCheckU (left right : Z) : option Z :=
  if right =? 0 then Some left
  else if left <=? UINT64_MAX - right then Some (left + right)
  else None.

(** The product is the machine's: it wraps where the check lets it through. *)
Definition MulWithOverflowCheck (left right : Z) : option Z :=
  if (left =? 0) || (right =? 0) then Some 0
  else
    let leftAbs := if left =? MIN_RANGE_VALUE then MAX_RANGE_VALUE else Z.abs left in
    let rightAbs := if right =? MIN_RANGE_VALUE then MAX_RANGE_VALUE else Z.abs right in
    if leftAbs <=? Z.quot MAX_RANGE_VALUE rightAbs then Some (i64 (left * right))
    else None.

Definition MulWithOverflowCheckU (left right : Z) : option Z :=
  if (left =? 0) || (right =? 0) then Some 0
  else if left <=? Z.quot UINT64_MAX right then Some (left * right)
  else None.

Definition DivWithOverflowCheck (left right : Z) : option Z :=
  if (left =? MIN_RANGE_VALUE) && (right =? -1) then None
  else Some (Z.quot left right).

(** * Operations *)
Definition Neg (r : BoundsRange) : BoundsRange :=
  let right := if left_ r =? MIN_RANGE_VALUE then MAX_RANGE_VALUE else - left_ r in
  let left := if right_ r =? MIN_RANGE_VALUE then MAX_RANGE_VALUE else - right_ r in
  range left right.

Definition Abs (r : BoundsRange) : BoundsRange :=
  let val1 := if left_ r =? MIN_RANGE_VALUE then MAX_RANGE_VALUE else Z.abs (left_ r) in
  let val2 := if right_ r =? MIN_RANGE_VALUE then MAX_RANGE_VALUE else Z.abs (right_ r) in
  let right := Z.max val1 val2 in
  let left := if Z.lxor (left_ r) (right_ r) >=? 0 then Z.min val1 val2 else 0 in
  range left right.

Definition Add (this r : BoundsRange) : BoundsRange :=
  let left := AddWithOverflowCheck (left_ this) (left_ r) in
  let right := AddWithOverflowCheck (right_ this) (right_ r) in
  match left, right with
  | Some l, Some r => range l r
  | _, _ => full
  end.

Definition Sub (this r : BoundsRange) : BoundsRange :=
  let negRight := if right_ r =? MIN_RANGE_VALUE then MAX_RANGE_VALUE else - right_ r in
  let left := AddWithOverflowCheck (left_ this) negRight in
  let negLeft := if left_ r =? MIN_RANGE_VALUE then MAX_RANGE_VALUE else - left_ r in
  let right := AddWithOverflowCheck (right_ this) negLeft in
  match left, right with
  | Some l, Some r => range l r
  | _, _ => full
  end.

Definition Mul (this r : BoundsRange) : BoundsRange :=
  let m1 := MulWithOverflowCheck (left_ this) (left_ r) in
  let m2 := MulWithOverflowCheck (left_ this) (right_ r) in
  let m3 := MulWithOverflowCheck (right_ this) (left_ r) in
  let m4 := MulWithOverflowCheck (right_ this) (right_ r) in
  match m1, m2, m3, m4 with
  | Some m1, Some m2, Some m3, Some m4 =>
      range (Z.min m1 (Z.min m2 (Z.min m3 m4))) (Z.max m1 (Z.max m2 (Z.max m3 m4)))
  | _, _, _, _ => full
  end.

Definition Div (this r : BoundsRange) : BoundsRange :=
  if negb (left_ r =? right_ r) || (left_ r =? 0) then full
  else
    let m1 := DivWithOverflowCheck (left_ this) (left_ r) in
    let m2 := DivWithOverflowCheck (right_ this) (left_ r) in
    match m1, m2 with
    | Some m1, Some m2 => range (Z.min m1 m2) (Z.max m1 m2)
    | _, _ => full
    end.

Definition Mod (this r : BoundsRange) : BoundsRange :=
  let maxMod := if right_ r >? 0 then right_ r - 1 else 0 in
  let maxMod :=
    if left_ r =? MIN_RANGE_VALUE then MAX_RANGE_VALUE
    else if left_ r <? 0 then Z.max maxMod (- left_ r - 1)
    else maxMod in
  if maxMod =? 0 then full
  else
    let left := if left_ this <? 0 then Z.max (left_ this) (- maxMod) else 0 in
    let right := if right_ this >? 0 then Z.min (right_ this) maxMod else 0 in
    range left right.

(** * Predicates *)
Definition IsConst (r : BoundsRange) : bool := left_ r =? right_ r.
Definition IsEqual (this r : BoundsRange) : bool :=
  (left_ this =? left_ r) && (right_ this =? right_ r).
Definition IsLess (this r : BoundsRange) : bool := right_ this <? left_ r.
Definition IsMore (this r : BoundsRange) : bool := left_ this >? right_ r.
Definition IsMoreOrEqual (this r : BoundsRange) : bool := left_ this >=? right_ r.
Definition IsWithin (this r : BoundsRange) : bool :=
  (left_ this >? left_ r) && (right_ this <? right_ r).
Definition IsNotNegative (r : BoundsRange) : bool := left_ r >=? 0.
Definition IsNegative (r : BoundsRange) : bool := right_ r <? 0.
Definition IsPositive (r : BoundsRange) : bool := left_ r >? 0.
Definition IsNotPositive (r : BoundsRange) : bool := right_ r <=? 0.

(** * Types *)
Definition GetMin (type : DataType) : outcome Z :=
  match type with
  | BOOL | UINT8 | UINT16 | UINT32 | UINT64 | REFERENCE => Done 0
  | INT8 => Done INT8_MIN
  | INT16 => Done INT16_MIN
  | INT32 => Done INT32_MIN
  | INT64 => Done INT64_MIN
  | _ => Crash
  end.

Definition GetMax (type : DataType) : outcome Z :=
  match type with
  | BOOL => Done 1
  | UINT8 => Done UINT8_MAX
  | UINT16 => Done UINT16_MAX
  | UINT32 => Done UINT32_MAX
  | INT8 => Done INT8_MAX
  | INT16 => Done INT16_MAX
  | INT32 => Done INT32_MAX
  | INT64 | UINT64 => Done INT64_MAX
  | REFERENCE => Done INT64_MAX
  | _ => Crash
  end.

Definition IsMaxRange (r : BoundsRange) (type : DataType) : outcome bool :=
  mn ← GetMin type; mx ← GetMax type;
  Done ((left_ r <=? mn) && (right_ r >=? mx)).
Definition CanOverflow (r : BoundsRange) (type : DataType) : outcome bool :=
  mn ← GetMin type; mx ← GetMax type;
  Done ((left_ r <=? mn) || (right_ r >=? mx)).
Definition CanOverflowNeg (r : BoundsRange) (type : DataType) : outcome bool :=
  mx ← GetMax type;
  Done ((right_ r >=? mx) || ((left_ r <=? 0) && (0 <=? right_ r))).

(** [BoundsRange(type)] *)
Definition type_range (type : DataType) : outcome BoundsRange :=
  mn ← GetMin type; mx ← GetMax type; Done (range mn mx).

Definition FitInType (r : BoundsRange) (type : DataType) : outcome BoundsRange :=
  typeMin ← GetMin type;
  typeMax ← GetMax type;
  Done (if (left_ r <? typeMin) || (left_ r >? typeMax) ||
           (right_ r <? typeMin) || (right_ r >? typeMax)
        then range typeMin typeMax else r).

(** * Shifts and masks *)
Section shifts.
  Context {cfg : Config}.

Definition Shr (this r : BoundsRange) (type : DataType) : outcome BoundsRange :=
  if negb (IsConst r) || IsNegative r then Done full
  else
    size ← GetTypeSize type ARCH_NONE;
    let sizeMask := size - 1 in
    let n := Z.land (u64 (left_ r)) sizeMask in
    narrowed ← FitInType this type;
    if (left_ narrowed <? 0) && (right_ narrowed >=? 0) && (n >? 0) then
      Done (range 0 (i64 (Z.shiftr UINT64_MAX n)))
    else
      Done (range (i64 (Z.shiftr (u64 (left_ narrowed)) n))
                  (i64 (Z.shiftr (u64 (right_ narrowed)) n))).

Definition AShr (this r : BoundsRange) (type : DataType) : outcome BoundsRange :=
  if negb (IsConst r) || IsNegative r then Done full
  else
    size ← GetTypeSize type ARCH_NONE;
    let sizeMask := size - 1 in
    let n := Z.land (u64 (left_ r)) sizeMask in
    Done (range (Z.shiftr (left_ this) n) (Z.shiftr (right_ this) n)).

Definition Shl (this r : BoundsRange) (type : DataType) : outcome BoundsRange :=
  if negb (IsConst r) || IsNegative r then Done full
  else
    size ← GetTypeSize type ARCH_NONE;
    let sizeMask := size - 1 in
    let n := Z.land (u64 (left_ r)) sizeMask in
    let maxBits := 64 - n - 1 in
    let maxValue := i64 (Z.shiftl 1 maxBits) in
    if (n >? 0) && ((left_ this <? - maxValue) || (right_ this >=? maxValue)) then Done full
    else
      Done (range (i64 (u64 (Z.shiftl (u64 (left_ this)) n)))
                  (i64 (u64 (Z.shiftl (u64 (right_ this)) n)))).
End shifts.

Definition And (this r : BoundsRange) : BoundsRange :=
  if negb (IsConst r) then full
  else
    let n := u64 (left_ r) in
    if Z.shiftr n 63 =? 1 then full else range 0 n.

(** * Joins *)
Definition Union (ranges : list BoundsRange) : BoundsRange :=
  let '(min, max) :=
    fold_left (fun '(min, max) r =>
      (if left_ r <? min then left_ r else min,
       if right_ r >? max then right_ r else max))
      ranges (MAX_RANGE_VALUE, MIN_RANGE_VALUE) in
  range min max.
(** * Narrowing by a comparison *)
Definition RangePair : Type := BoundsRange * BoundsRange.

Definition NarrowBoundsByNE (ranges : RangePair) : RangePair :=
  let '(left_range, right_range) := ranges in
  let ll := left_ left_range in let lr := right_ left_range in
  let rl := left_ right_range in let rr := right_ right_range in
  if IsConst left_range && negb (IsConst right_range) && (ll =? rl) then
    (left_range, range (rl + 1) rr)
  else if IsConst left_range && negb (IsConst right_range) && (ll =? rr) then
    (left_range, range rl (rr - 1))
  else if negb (IsConst left_range) && IsConst right_range && (rl =? ll) then
    (range (ll + 1) lr, right_range)
  else if negb (IsConst left_range) && IsConst right_range && (rl =? lr) then
    (range ll (lr - 1), right_range)
  else ranges.

Definition NarrowBoundsCase1 (cc : ConditionCode) (ranges : RangePair) : RangePair :=
  let '(left_range, right_range) := ranges in
  let lr := right_ left_range in
  let rl := left_ right_range in
  match cc with
  | CC_GT | CC_A =>
      if rl =? lr then (full, full) else (range (rl + 1) lr, range rl (lr - 1))
  | CC_GE | CC_AE | CC_EQ => (range rl lr, range rl lr)
  | _ => ranges
  end.

Definition NarrowBoundsCase2 (cc : ConditionCode) (ranges : RangePair) : RangePair :=
  match cc with
  | CC_GT | CC_GE | CC_EQ | CC_A | CC_AE => (full, full)
  | _ => ranges
  end.

Definition NarrowBoundsCase3 (cc : ConditionCode) (ranges : RangePair) : RangePair :=
  let '(left_range, right_range) := ranges in
  let ll := left_ left_range in let lr := right_ left_range in
  let rl := left_ right_range in let rr := right_ right_range in
  match cc with
  | CC_GT | CC_A => (range (rl + 1) lr, right_range)
  | CC_GE | CC_AE => (range rl lr, right_range)
  | CC_LT | CC_B => if ll =? rr then (full, full) else (range ll (rr - 1), right_range)
  | CC_LE | CC_BE => (range ll rr, right_range)
  | CC_EQ => (range rl rr, right_range)
  | _ => ranges
  end.

Definition NarrowBoundsCase4 (cc : ConditionCode) (ranges : RangePair) : RangePair :=
  let '(left_range, right_range) := ranges in
  let ll := left_ left_range in
  let rr := right_ right_range in
  match cc with
  | CC_LT | CC_B =>
      if ll =? rr then (full, full) else (range ll (rr - 1), range (ll + 1) rr)
  | CC_LE | CC_BE | CC_EQ => (range ll rr, range ll rr)
  | _ => ranges
  end.

Definition NarrowBoundsCase5 (cc : ConditionCode) (ranges : RangePair) : RangePair :=
  match cc with
  | CC_LT | CC_LE | CC_EQ | CC_B | CC_BE => (full, full)
  | _ => ranges
  end.

Definition NarrowBoundsCase6 (cc : ConditionCode) (ranges : RangePair) : RangePair :=
  let '(left_range, right_range) := ranges in
  let ll := left_ left_range in let lr := right_ left_range in
  let rl := left_ right_range in let rr := right_ right_range in
  match cc with
  | CC_GT | CC_A => (left_range, range rl (lr - 1))
  | CC_GE | CC_AE => (left_range, range rl lr)
  | CC_LT | CC_B => (left_range, range (ll + 1) rr)
  | CC_LE | CC_BE => (left_range, range ll rr)
  | CC_EQ => (left_range, range ll lr)
  | _ => ranges
  end.

Definition TryNarrowBoundsByCC (cc : ConditionCode) (ranges : RangePair) : RangePair :=
  if cc == CC_NE then NarrowBoundsByNE ranges
  else
    let '(left_range, right_range) := ranges in
    let ll := left_ left_range in let lr := right_ left_range in
    let rl := left_ right_range in let rr := right_ right_range in
    if (ll <=? rl) && (rl <=? lr) && (lr <=? rr) then NarrowBoundsCase1 cc ranges
    else if (ll <=? lr) && (lr <? rl) && (rl <=? rr) then NarrowBoundsCase2 cc ranges
    else if (ll <=? rl) && (rl <=? rr) && (rr <=? lr) then NarrowBoundsCase3 cc ranges
    else if (rl <=? ll) && (ll <=? rr) && (rr <=? lr) then NarrowBoundsCase4 cc ranges
    else if (rl <=? rr) && (rr <? ll) && (ll <=? lr) then NarrowBoundsCase5 cc ranges
    else if (rl <=? ll) && (ll <=? lr) && (lr <=? rr) then NarrowBoundsCase6 cc ranges
    else ranges.
(** * Meaning *)
Definition is_i64 (x : Z) : Prop := INT64_MIN <= x <= INT64_MAX.
(** What the constructor asserts. *)
Definition wf (r : BoundsRange) : Prop := INT64_MIN <= left_ r <= right_ r /\ right_ r <= INT64_MAX.
(** [v] lies between the bounds. *)
Definition within (r : BoundsRange) (v : Z) : Prop := left_ r <= v <= right_ r.

(** The machine's result [v] of an operation whose exact result is [x], at a
    type: the bounds [GetMin] and [GetMax] give for the types below are the
    type's own, except for [UINT64], whose upper half is not representable. *)
Definition bounded_type (type : DataType) : bool := is_int type && negb (type == UINT64).

Lemma in_s64 (x : Z) : in_s 64 x <-> is_i64 x.
Proof. unfold in_s, is_i64. change (2 ^ (64 - 1)) with 9223372036854775808. lia. Qed.

Lemma i64_id (x : Z) : is_i64 x -> i64 x = x.
Proof. intros. apply wraps_id; [lia|]. by apply in_s64. Qed.

Lemma u64_nonneg (x : Z) : 0 <= x <= INT64_MAX -> u64 x = x.
Proof. intros. apply wrapu_id. unfold in_u. change (2 ^ 64) with 18446744073709551616. lia. Qed.

Lemma i64_range (x : Z) : is_i64 (i64 x).
Proof. apply in_s64, wraps_range. lia. Qed.

(** The bounds of a type, and that reduction modulo the type stays inside. *)
Lemma type_bounds (t : DataType) :
  bounded_type t = true ->
  exists mn mx, GetMin t = Done mn /\ GetMax t = Done mx /\
    INT64_MIN <= mn <= 0 /\ 0 < mx <= INT64_MAX /\
    (forall x, mn <= wrap_type t x <= mx) /\
    (forall x, mn <= x <= mx -> wrap_type t x = x).
Proof.
  intros Ht. destruct t; try discriminate Ht; do 2 eexists; split; try done; split; try done;
    (split; [lia|]); (split; [lia|]); unfold wrap_type, width; split; intros x.
  all: try (pose proof (wrapu_range 8 x ltac:(lia)) as R; unfold in_u in R; lia).
  all: try (pose proof (wrapu_range 16 x ltac:(lia)) as R; unfold in_u in R; lia).
  all: try (pose proof (wrapu_range 32 x ltac:(lia)) as R; unfold in_u in R; lia).
  all: try (pose proof (wraps_range 8 x ltac:(lia)) as R; unfold in_s in R; simpl in R; lia).
  all: try (pose proof (wraps_range 16 x ltac:(lia)) as R; unfold in_s in R; simpl in R; lia).
  all: try (pose proof (wraps_range 32 x ltac:(lia)) as R; unfold in_s in R; simpl in R; lia).
  all: try (pose proof (i64_range x) as R; unfold is_i64 in R; lia).
  all: try (intros; apply wraps_id; unfold in_s; simpl; lia).
  all: try (intros; apply wrapu_id; unfold in_u; simpl; lia).
  - destruct (x =? 0); lia.
  - intros. destruct (Z.eqb_spec x 0); lia.
Qed.

(** [FitInType] covers the machine result of an operation whose exact result
    the range covers, and of any operation when the range is the full one. *)
Lemma FitInType_within (r : BoundsRange) (t : DataType) (x : Z) :
  bounded_type t = true -> within r x \/ r = full ->
  exists r', FitInType r t = Done r' /\ within r' (wrap_type t x) /\ wf r' .
Proof.
  intros Ht Hx. destruct (type_bounds t Ht) as (mn & mx & Emn & Emx & ? & ? & Hin & Hid).
  unfold FitInType. rewrite Emn, Emx. cbn [mbind outcome_bind]. eexists; split; [done|].
  destruct (Z.ltb_spec (left_ r) mn); [cbn; split; [apply Hin|unfold wf; simpl; lia]|].
  rewrite Z.gtb_ltb. destruct (Z.ltb_spec mx (left_ r)); [cbn; split; [apply Hin|unfold wf; simpl; lia]|].
  destruct (Z.ltb_spec (right_ r) mn); [cbn; split; [apply Hin|unfold wf; simpl; lia]|].
  rewrite Z.gtb_ltb. destruct (Z.ltb_spec mx (right_ r)); [cbn; split; [apply Hin|unfold wf; simpl; lia]|].
  cbn. destruct Hx as [Hx| ->].
  - unfold within in *. rewrite Hid by lia. split; [done|unfold wf; lia].
  - simpl in *. assert (mn = INT64_MIN) as -> by lia. assert (mx = INT64_MAX) as -> by lia.
    split; [apply Hin|unfold wf; simpl; lia].
Qed.
(** * The overflow checks are exact *)
Ltac zbool :=
  repeat match goal with
  | |- context [?a >? ?b] => rewrite (Z.gtb_ltb a b)
  | |- context [?a >=? ?b] => rewrite (Z.geb_leb a b)
  end;
  repeat match goal with
  | |- context [?a =? ?b] => destruct (Z.eqb_spec a b)
  | |- context [?a <? ?b] => destruct (Z.ltb_spec a b)
  | |- context [?a <=? ?b] => destruct (Z.leb_spec a b)
  end; cbn [andb orb negb].

#[local] Instance is_i64_dec (x : Z) : Decision (is_i64 x).
Proof. unfold is_i64. apply _. Defined.

Lemma AddWithOverflowCheck_exact (x y : Z) :
  is_i64 x -> is_i64 y ->
  AddWithOverflowCheck x y = if decide (is_i64 (x + y)) then Some (x + y) else None.
Proof.
  unfold is_i64, AddWithOverflowCheck. intros. zbool; case_decide; try done; try lia; f_equal; lia.
Qed.

Lemma AddWithOverflowCheckU_exact (x y : Z) :
  in_u 64 x -> in_u 64 y ->
  AddWithOverflowCheckU x y = if decide (in_u 64 (x + y)) then Some (x + y) else None.
Proof.
  unfold in_u, AddWithOverflowCheckU. change (2 ^ 64) with 18446744073709551616.
  intros. zbool; case_decide; try done; try lia; f_equal; lia.
Qed.

(** The two products the check lets through although they overflow. *)
Definition mul_escapes (x y : Z) : Prop :=
  (x = INT64_MIN /\ y = -1) \/ (x = -1 /\ y = INT64_MIN).

Lemma abs_le_quot (a b m : Z) : 0 < b -> 0 <= m -> (a <= Z.quot m b <-> a * b <= m).
Proof.
  intros. rewrite Z.quot_div_nonneg by lia. split; intros.
  - pose proof (Z.mul_div_le m b ltac:(lia)). nia.
  - apply Z.div_le_lower_bound; lia.
Qed.

Definition mul_abs (x : Z) : Z := if x =? INT64_MIN then INT64_MAX else Z.abs x.

(** Where the check passes the exact product is representable, the two
    escaping pairs apart. *)
Lemma MulWithOverflowCheck_Some (x y m : Z) :
  is_i64 x -> is_i64 y -> ~ mul_escapes x y ->
  MulWithOverflowCheck x y = Some m -> m = x * y /\ is_i64 m.
Proof.
  unfold is_i64, mul_escapes, MulWithOverflowCheck. intros Hx Hy Hesc.
  destruct (Z.eqb_spec x 0) as [->|Hx0]; [cbn; intros [= <-]; lia|].
  destruct (Z.eqb_spec y 0) as [->|Hy0]; [cbn; intros [= <-]; lia|]. cbn [orb]. cbv zeta.
  fold (mul_abs x) (mul_abs y). destruct (Z.leb_spec (mul_abs x) (Z.quot MAX_RANGE_VALUE (mul_abs y))) as [Hle|]; [|done].
  intros [= <-]. assert (0 < mul_abs y) by (unfold mul_abs; destruct (Z.eqb_spec y INT64_MIN); lia).
  apply abs_le_quot in Hle; [|lia..].
  assert (INT64_MIN <= x * y <= INT64_MAX) as R; [|rewrite i64_id; [done|exact R]].
  unfold mul_abs in Hle.
  destruct (Z.eqb_spec x INT64_MIN) as [->|]; destruct (Z.eqb_spec y INT64_MIN) as [->|]; lia.
Qed.

(** Every product that does not overflow and is not -2^63 is let through. *)
Lemma MulWithOverflowCheck_complete (x y : Z) :
  is_i64 x -> is_i64 y -> is_i64 (x * y) -> x * y <> INT64_MIN ->
  MulWithOverflowCheck x y = Some (x * y).
Proof.
  unfold is_i64, MulWithOverflowCheck. intros Hx Hy Hp Hm.
  destruct (Z.eqb_spec x 0) as [->|Hx0]; [done|].
  destruct (Z.eqb_spec y 0) as [->|Hy0]; [cbn; f_equal; lia|]. cbn [orb]. cbv zeta.
  fold (mul_abs x) (mul_abs y).
  destruct (Z.leb_spec (mul_abs x) (Z.quot MAX_RANGE_VALUE (mul_abs y))) as [Hle|Hgt].
  - f_equal. by apply i64_id.
  - exfalso. assert (0 < mul_abs y) by (unfold mul_abs; destruct (Z.eqb_spec y INT64_MIN); lia).
    assert (~ mul_abs x <= Z.quot MAX_RANGE_VALUE (mul_abs y)) as Hn by lia.
    rewrite abs_le_quot in Hn by lia. apply Hn. unfold mul_abs.
    destruct (Z.eqb_spec x INT64_MIN) as [->|]; destruct (Z.eqb_spec y INT64_MIN) as [->|]; try nia.
Qed.

Lemma MulWithOverflowCheckU_exact (x y : Z) :
  in_u 64 x -> in_u 64 y ->
  MulWithOverflowCheckU x y = if decide (in_u 64 (x * y)) then Some (x * y) else None.
Proof.
  unfold in_u, MulWithOverflowCheckU. change (2 ^ 64) with 18446744073709551616. intros.
  destruct (Z.eqb_spec x 0) as [->|]; [by rewrite decide_True by lia|].
  destruct (Z.eqb_spec y 0) as [->|]; [by rewrite decide_True by lia; f_equal; lia|]. cbn [orb].
  destruct (Z.leb_spec x (Z.quot UINT64_MAX y)) as [Hle|Hgt].
  - apply abs_le_quot in Hle; [|lia..]. by rewrite decide_True by nia.
  - rewrite decide_False; [done|]. intros Hp.
    assert (x <= Z.quot UINT64_MAX y); [apply abs_le_quot|]; lia.
Qed.
(** * Soundness of the operations on exact values *)
(** A result covers [x], or says nothing. *)
Definition covers (r : BoundsRange) (x : Z) : Prop := within r x \/ r = full.

Lemma covers_range (l r x : Z) : l <= x <= r -> covers (range l r) x.
Proof. by left. Qed.
Lemma covers_full (x : Z) : covers full x.
Proof. by right. Qed.
Lemma wf_full : wf full.
Proof. unfold wf; simpl; lia. Qed.
Lemma full_ok (x : Z) : covers full x /\ wf full.
Proof. split; [apply covers_full|apply wf_full]. Qed.

Lemma Neg_covers (r : BoundsRange) (x : Z) :
  wf r -> within r x -> x <> INT64_MIN -> covers (Neg r) (- x) /\ wf (Neg r).
Proof.
  unfold wf, within, Neg. intros. split; [left; unfold within|]; cbn [left_ right_ range]; zbool; lia.
Qed.

Lemma lxor_sign (a b : Z) : (Z.lxor a b >=? 0) = Bool.eqb (a <? 0) (b <? 0).
Proof.
  rewrite Z.geb_leb. apply eq_true_iff_eq. rewrite Z.leb_le, Z.lxor_nonneg, Bool.eqb_true_iff.
  zbool; intuition (done || lia).
Qed.

Lemma Abs_covers (r : BoundsRange) (x : Z) :
  wf r -> within r x -> x <> INT64_MIN -> covers (Abs r) (Z.abs x) /\ wf (Abs r).
Proof.
  unfold wf, within, Abs. intros. rewrite lxor_sign.
  split; [left; unfold within|]; cbn [left_ right_ range]; zbool; cbn [Bool.eqb]; lia.
Qed.

Lemma Add_covers (a b : BoundsRange) (x y : Z) :
  wf a -> wf b -> within a x -> within b y -> covers (Add a b) (x + y) /\ wf (Add a b).
Proof.
  unfold wf, within, Add. intros. rewrite !AddWithOverflowCheck_exact by (unfold is_i64; lia).
  case_decide as D1; [case_decide as D2|]; [|apply full_ok..].
  unfold is_i64 in *. split; [apply covers_range|cbn [left_ right_ range]]; lia.
Qed.

(** Subtraction is covered unless the subtrahend is the least [int64_t]: the
    negation of that bound is clamped. *)
Lemma Sub_covers (a b : BoundsRange) (x y : Z) :
  wf a -> wf b -> within a x -> within b y -> y <> INT64_MIN ->
  covers (Sub a b) (x - y) /\ wf (Sub a b).
Proof.
  unfold wf, within, Sub. intros.
  rewrite !AddWithOverflowCheck_exact by (unfold is_i64; zbool; lia).
  case_decide as D1; [case_decide as D2|]; [|apply full_ok..].
  revert D1 D2. unfold is_i64. zbool; split; [apply covers_range| |apply covers_range| |apply covers_range| |apply covers_range|];
    cbn [left_ right_ range]; lia.
Qed.

(** A product of two values lies between the extreme products of the bounds. *)
Lemma mul_between (l1 r1 l2 r2 x y : Z) :
  l1 <= x <= r1 -> l2 <= y <= r2 ->
  Z.min (l1 * l2) (Z.min (l1 * r2) (Z.min (r1 * l2) (r1 * r2))) <= x * y <=
  Z.max (l1 * l2) (Z.max (l1 * r2) (Z.max (r1 * l2) (r1 * r2))).
Proof.
  intros Hx Hy.
  assert (A : forall c, Z.min (l1 * c) (r1 * c) <= x * c <= Z.max (l1 * c) (r1 * c)).
  { intros c. destruct (Z.le_ge_cases 0 c); nia. }
  assert (B : Z.min (x * l2) (x * r2) <= x * y <= Z.max (x * l2) (x * r2)).
  { destruct (Z.le_ge_cases 0 x); nia. }
  pose proof (A l2). pose proof (A r2). lia.
Qed.

(** No bound product of the two ranges is one of the escaping pairs. *)
Definition mul_bounds_ok (a b : BoundsRange) : Prop :=
  ~ mul_escapes (left_ a) (left_ b) /\ ~ mul_escapes (left_ a) (right_ b) /\
  ~ mul_escapes (right_ a) (left_ b) /\ ~ mul_escapes (right_ a) (right_ b).

Lemma Mul_covers (a b : BoundsRange) (x y : Z) :
  wf a -> wf b -> within a x -> within b y -> mul_bounds_ok a b ->
  covers (Mul a b) (x * y) /\ wf (Mul a b).
Proof.
  unfold wf, within, Mul. intros Ha Hb Hx Hy (E1 & E2 & E3 & E4).
  destruct (MulWithOverflowCheck (left_ a) (left_ b)) as [m1|] eqn:M1; [|apply full_ok].
  destruct (MulWithOverflowCheck (left_ a) (right_ b)) as [m2|] eqn:M2; [|apply full_ok].
  destruct (MulWithOverflowCheck (right_ a) (left_ b)) as [m3|] eqn:M3; [|apply full_ok].
  destruct (MulWithOverflowCheck (right_ a) (right_ b)) as [m4|] eqn:M4; [|apply full_ok].
  apply MulWithOverflowCheck_Some in M1 as [-> R1], M2 as [-> R2], M3 as [-> R3], M4 as [-> R4];
    try (unfold is_i64; lia); try done.
  pose proof (mul_between _ _ _ _ _ _ Hx Hy). unfold is_i64 in *.
  split; [by apply covers_range|cbn [left_ right_ range]; lia].
Qed.

(** Truncating division is monotone in the dividend. *)
Lemma quot_between (l r x y : Z) :
  y <> 0 -> l <= x <= r ->
  Z.min (Z.quot l y) (Z.quot r y) <= Z.quot x y <= Z.max (Z.quot l y) (Z.quot r y).
Proof.
  intros Hy Hx. destruct (Z.lt_ge_cases 0 y) as [Hp|Hn].
  - pose proof (Z.quot_le_mono l x y Hp ltac:(lia)). pose proof (Z.quot_le_mono x r y Hp ltac:(lia)). lia.
  - pose proof (Z.quot_le_mono l x (- y) ltac:(lia) ltac:(lia)).
    pose proof (Z.quot_le_mono x r (- y) ltac:(lia) ltac:(lia)).
    rewrite !Z.quot_opp_r in * by lia. lia.
Qed.

Lemma quot_bound (l y : Z) :
  is_i64 l -> y <> 0 -> ~ (l = INT64_MIN /\ y = -1) -> is_i64 (Z.quot l y).
Proof.
  unfold is_i64. intros Hl Hy Hn.
  assert (Z.abs (Z.quot l y) <= Z.abs l).
  { rewrite <- Z.quot_abs by done. apply Z.quot_le_upper_bound; [lia|]. nia. }
  destruct (Z.eq_dec l INT64_MIN) as [->|]; [|lia].
  assert (-9223372036854775808 <= Z.quot INT64_MIN y) by lia.
  destruct (Z.lt_ge_cases 0 y) as [Hp|Hp].
  - pose proof (Z.quot_le_mono INT64_MIN 0 y Hp ltac:(lia)) as Q. rewrite Z.quot_0_l in Q by lia. lia.
  - assert (Hle : Z.abs (Z.quot INT64_MIN y) <= 4611686018427387904).
    { rewrite <- Z.quot_abs by done. apply Z.quot_le_upper_bound; lia. } lia.
Qed.

Lemma Div_covers (a b : BoundsRange) (x y : Z) :
  wf a -> wf b -> within a x -> within b y -> y <> 0 ->
  covers (Div a b) (Z.quot x y) /\ wf (Div a b).
Proof.
  unfold wf, within, Div. intros Ha Hb Hx Hy Hy0.
  destruct (Z.eqb_spec (left_ b) (right_ b)) as [Hc|]; [|apply full_ok].
  assert (left_ b = y) as -> by lia. destruct (Z.eqb_spec y 0) as [|_]; [done|]. cbn [negb orb].
  unfold DivWithOverflowCheck.
  destruct ((left_ a =? INT64_MIN) && (y =? -1)) eqn:E1; [apply full_ok|].
  destruct ((right_ a =? INT64_MIN) && (y =? -1)) eqn:E2; [apply full_ok|].
  apply andb_false_iff in E1, E2. rewrite !Z.eqb_neq in E1, E2.
  pose proof (quot_between _ _ _ _ Hy0 Hx).
  pose proof (quot_bound (left_ a) y ltac:(unfold is_i64; lia) Hy0 ltac:(lia)).
  pose proof (quot_bound (right_ a) y ltac:(unfold is_i64; lia) Hy0 ltac:(lia)).
  unfold is_i64 in *. split; [by apply covers_range|cbn [left_ right_ range]; lia].
Qed.

(** Division by a constant above one never gives up. *)
Lemma Div_const_within (a : BoundsRange) (x c : Z) :
  wf a -> within a x -> 2 <= c <= INT64_MAX ->
  within (Div a (const_range c)) (Z.quot x c) /\ wf (Div a (const_range c)).
Proof.
  intros Ha Hx Hc. assert (Hw : wf (const_range c)) by (unfold wf; simpl; lia).
  assert (Hy : within (const_range c) c) by (unfold within; simpl; lia).
  destruct (Div_covers a (const_range c) x c Ha Hw Hx Hy ltac:(lia)) as [_ Hd]. split; [|exact Hd].
  unfold Div. simpl. rewrite Z.eqb_refl. destruct (Z.eqb_spec c 0); [lia|]. cbn [negb orb].
  unfold DivWithOverflowCheck. destruct (Z.eqb_spec c (-1)); [lia|]. rewrite !andb_false_r.
  unfold within. simpl. apply quot_between; [lia|done].
Qed.

Lemma Mod_covers (a b : BoundsRange) (x y : Z) :
  wf a -> wf b -> within a x -> within b y -> y <> 0 ->
  covers (Mod a b) (Z.rem x y) /\ wf (Mod a b).
Proof.
  unfold wf, within, Mod. intros Ha Hb Hx Hy Hy0. cbv zeta.
  match goal with |- context [if ?c =? 0 then _ else _] => set (m := c) end.
  assert (Hm : Z.abs y - 1 <= m <= INT64_MAX) by (unfold m; zbool; lia). clearbody m.
  destruct (Z.eqb_spec m 0); [apply full_ok|].
  pose proof (Z.rem_bound_abs x y Hy0).
  assert (Hs : (0 <= x -> 0 <= Z.rem x y <= x) /\ (x <= 0 -> x <= Z.rem x y <= 0)).
  { split; intros.
    - pose proof (Z.rem_nonneg x (Z.abs y) ltac:(lia) ltac:(lia)).
      pose proof (Z.rem_le x (Z.abs y) ltac:(lia) ltac:(lia)).
      rewrite Z.rem_abs_r in * by lia. lia.
    - pose proof (Z.rem_nonneg (- x) (Z.abs y) ltac:(lia) ltac:(lia)).
      pose proof (Z.rem_le (- x) (Z.abs y) ltac:(lia) ltac:(lia)).
      rewrite Z.rem_opp_l, Z.rem_abs_r in * by lia. lia. }
  split; [apply covers_range|cbn [left_ right_ range]]; zbool; lia.
Qed.
(** * Shifts *)
(** The integer types a shift is generated for (the bounds of [UINT64] are not
    the type's own). *)
Definition shift_type (t : DataType) : bool := bounded_type t && negb (t == BOOL).

Lemma shift_type_bounded (t : DataType) : shift_type t = true -> bounded_type t = true.
Proof. unfold shift_type. by intros [? _]%andb_true_iff. Qed.

Lemma FitInType_out (r : BoundsRange) (t : DataType) (mx v : Z) :
  bounded_type t = true -> GetMax t = Done mx -> mx < right_ r ->
  exists r', FitInType r t = Done r' /\ within r' (wrap_type t v) /\ wf r'.
Proof.
  intros Ht Hmx Hr. destruct (type_bounds t Ht) as (mn & mx' & Emn & Emx & ? & ? & Hin & Hid).
  rewrite Emx in Hmx. simplify_eq. unfold FitInType. rewrite Emn, Emx. cbn [mbind outcome_bind].
  eexists; split; [done|]. rewrite (Z.gtb_ltb (right_ r)).
  destruct (Z.ltb_spec mx (right_ r)); [|lia]. rewrite orb_true_r.
  split; [apply Hin|unfold wf; simpl; lia].
Qed.

(** A shift amount of at least [0] is reduced modulo the width. *)
Lemma shift_amount {cfg : Config} (t : DataType) (y : Z) :
  shift_type t = true -> 0 <= y <= INT64_MAX ->
  GetTypeSize t ARCH_NONE = Done (width t) /\
  Z.land (u64 y) (width t - 1) = y mod width t /\ 0 <= y mod width t < width t /\
  (width t = 64 \/ width t <= 32).
Proof.
  intros Ht Hy. rewrite u64_nonneg by lia.
  assert (H : GetTypeSize t ARCH_NONE = Done (width t) /\ exists k, 0 <= k <= 6 /\ width t = 2 ^ k).
  { destruct t; try discriminate Ht; (split; [done|]); [exists 3|exists 3|exists 4|exists 4|exists 5|exists 5|exists 6]; done. }
  destruct H as (Hs & k & Hk & E). rewrite Hs, E. split; [done|]. split; [apply land_mask; lia|].
  split; [apply Z.mod_pos_bound, pow2_pos; lia|].
  destruct (Z.eq_dec k 6) as [->|]; [by left|right].
  change 32 with (2 ^ 5). apply Z.pow_le_mono_r; lia.
Qed.

Lemma shiftr_mono (a b n : Z) : 0 <= n -> a <= b -> Z.shiftr a n <= Z.shiftr b n.
Proof. intros. rewrite !Z.shiftr_div_pow2 by lia. apply Z.div_le_mono; [apply pow2_pos|]; lia. Qed.

Lemma shiftr_abs_le (a n : Z) : 0 <= n -> (0 <= a -> 0 <= Z.shiftr a n <= a) /\ (a < 0 -> a <= Z.shiftr a n <= -1).
Proof.
  intros. rewrite Z.shiftr_div_pow2 by lia. pose proof (pow2_pos n ltac:(lia)). split; intros.
  - split; [apply Z.div_pos; lia|apply Z.div_le_upper_bound; nia].
  - split; [apply Z.div_le_lower_bound; nia|]. assert (a / 2 ^ n < 0); [|lia].
    apply Z.div_lt_upper_bound; lia.
Qed.

(** The values the three shift instructions compute at type [t]. *)
Definition shl_value (t : DataType) (x y : Z) : Z :=
  wrap_type t (Z.shiftl x (y mod width t)).
Definition shr_value (t : DataType) (x y : Z) : Z :=
  wrap_type t (Z.shiftr (wrapu (width t) x) (y mod width t)).
Definition ashr_value (t : DataType) (x y : Z) : Z :=
  wrap_type t (Z.shiftr x (y mod width t)).

Lemma AShr_sound {cfg : Config} (a b : BoundsRange) (t : DataType) (x y : Z) :
  shift_type t = true -> wf a -> wf b -> within a x -> within b y ->
  exists r r', AShr a b t = Done r /\ wf r /\ FitInType r t = Done r' /\ wf r' /\
    within r' (ashr_value t x y).
Proof.
  intros Ht Ha Hb Hx Hy. unfold AShr, IsConst, IsNegative.
  destruct (negb (left_ b =? right_ b) || (right_ b <? 0)) eqn:E.
  - destruct (FitInType_within full t (Z.shiftr x (y mod width t))) as (r' & ? & ? & ?);
      [by apply shift_type_bounded|by right|]. exists full, r'. auto using wf_full.
  - apply orb_false_iff in E as [E1 E2]. rewrite negb_false_iff, Z.eqb_eq in E1. rewrite Z.ltb_ge in E2.
    unfold wf, within in *. assert (left_ b = y) as -> by lia.
    destruct (shift_amount t y Ht) as (-> & Hl & Hn & _); [lia|]. cbn [mbind outcome_bind]. cbv zeta.
    rewrite Hl.
    set (n := y mod width t) in *.
    pose proof (shiftr_mono (left_ a) x n). pose proof (shiftr_mono x (right_ a) n).
    pose proof (shiftr_abs_le (left_ a) n). pose proof (shiftr_abs_le (right_ a) n).
    destruct (FitInType_within (range (Z.shiftr (left_ a) n) (Z.shiftr (right_ a) n)) t (Z.shiftr x n))
      as (r' & ? & ? & ?); [by apply shift_type_bounded|left; unfold within; simpl; lia|].
    eexists _, r'. split; [done|]. split; [unfold wf; simpl; lia|]. split; [done|]. split; [done|]. done.
Qed.

Lemma Shl_sound {cfg : Config} (a b : BoundsRange) (t : DataType) (x y : Z) :
  shift_type t = true -> wf a -> wf b -> within a x -> within b y ->
  exists r r', Shl a b t = Done r /\ wf r /\ FitInType r t = Done r' /\ wf r' /\
    within r' (shl_value t x y).
Proof.
  intros Ht Ha Hb Hx Hy. unfold Shl, IsConst, IsNegative.
  assert (Hfull : exists r r', Done full = Done r /\ wf r /\ FitInType r t = Done r' /\ wf r' /\
    within r' (shl_value t x y)).
  { destruct (FitInType_within full t (Z.shiftl x (y mod width t))) as (r' & ? & ? & ?);
      [by apply shift_type_bounded|by right|]. exists full, r'. auto using wf_full. }
  destruct (negb (left_ b =? right_ b) || (right_ b <? 0)) eqn:E; [done|].
  apply orb_false_iff in E as [E1 E2]. rewrite negb_false_iff, Z.eqb_eq in E1. rewrite Z.ltb_ge in E2.
  unfold wf, within in Ha, Hb, Hx, Hy. assert (left_ b = y) as -> by lia.
  destruct (shift_amount t y Ht) as (-> & Hl & Hn & Hw); [lia|]. cbn [mbind outcome_bind]. cbv zeta.
  rewrite Hl.
  set (n := y mod width t) in *. fold n in Hfull.
  destruct ((n >? 0) && _) eqn:G; [done|].
  assert (Hb2 : is_i64 (left_ a * 2 ^ n) /\ is_i64 (right_ a * 2 ^ n)).
  { unfold is_i64. destruct (Z.eq_dec n 0) as [En|En]; [rewrite En; lia|].
    rewrite Z.gtb_ltb in G. destruct (Z.ltb_spec 0 n); [|lia]. cbn [andb] in G.
    apply orb_false_iff in G as [G1 G2]. rewrite Z.ltb_ge in G1. rewrite Z.geb_leb, Z.leb_gt in G2.
    rewrite Z.shiftl_1_l in G1, G2.
    assert (P : 2 ^ (64 - n - 1) * 2 ^ n = 9223372036854775808)
      by (rewrite <- Z.pow_add_r by lia; replace (64 - n - 1 + n) with 63 by lia; done).
    pose proof (pow2_pos n ltac:(lia)). pose proof (pow2_pos (64 - n - 1) ltac:(lia)).
    assert (2 ^ (64 - n - 1) <= 2 ^ 62) by (apply Z.pow_le_mono_r; lia).
    rewrite i64_id in G1, G2 by (unfold is_i64; lia). nia. }
  assert (Hs : forall z, is_i64 (z * 2 ^ n) -> i64 (u64 (Z.shiftl (u64 z) n)) = z * 2 ^ n).
  { intros z Hz. rewrite wraps_wrapu, Z.shiftl_mul_pow2 by lia. rewrite <- (i64_id (z * 2 ^ n)) by done.
    apply wraps_congr. rewrite Z.mul_mod, wrapu_mod, <- Z.mul_mod by (pose proof (pow2_pos 64); lia). done. }
  rewrite !Hs by apply Hb2. unfold is_i64 in Hb2. pose proof (pow2_pos n ltac:(lia)).
  destruct (FitInType_within (range (left_ a * 2 ^ n) (right_ a * 2 ^ n)) t (Z.shiftl x n))
    as (r' & ? & ? & ?); [by apply shift_type_bounded|left; unfold within; simpl; rewrite Z.shiftl_mul_pow2; nia|].
  eexists _, r'. split; [done|]. split; [unfold wf; simpl; nia|]. split; [done|]. split; [done|]. done.
Qed.
Lemma wrap_type_congr (t : DataType) (x y : Z) :
  shift_type t = true -> x mod 2 ^ width t = y mod 2 ^ width t -> wrap_type t x = wrap_type t y.
Proof. destruct t; try discriminate; intros _; apply wraps_congr || apply wrapu_congr. Qed.

(** Dropping [n > 0] bits of a negative 64-bit pattern. *)
Lemma shiftr_u64_neg (z n : Z) :
  INT64_MIN <= z < 0 -> 0 < n < 64 ->
  i64 (Z.shiftr (u64 z) n) = Z.shiftr (z + 2 ^ 64) n /\
  2 ^ (63 - n) <= Z.shiftr (z + 2 ^ 64) n < 2 ^ (64 - n).
Proof.
  intros Hz Hn.
  assert (Hu : u64 z = z + 2 ^ 64).
  { unfold wrapu. rewrite <- (Z_mod_plus_full z 1). apply Z.mod_small. lia. }
  rewrite Hu. pose proof (pow2_pos n ltac:(lia)).
  assert (P1 : 2 ^ (63 - n) * 2 ^ n = 2 ^ 63) by (rewrite <- Z.pow_add_r by lia; f_equal; lia).
  assert (P2 : 2 ^ (64 - n) * 2 ^ n = 2 ^ 64) by (rewrite <- Z.pow_add_r by lia; f_equal; lia).
  assert (R : 2 ^ (63 - n) <= Z.shiftr (z + 2 ^ 64) n < 2 ^ (64 - n)).
  { rewrite Z.shiftr_div_pow2 by lia. split; [apply Z.div_le_lower_bound|apply Z.div_lt_upper_bound]; lia. }
  split; [|done]. apply i64_id. unfold is_i64.
  assert (2 ^ (64 - n) <= 2 ^ 63) by (apply Z.pow_le_mono_r; lia).
  pose proof (pow2_pos (63 - n) ltac:(lia)). lia.
Qed.

Lemma shiftr_u64_nonneg (z n : Z) :
  0 <= z <= INT64_MAX -> 0 <= n -> i64 (Z.shiftr (u64 z) n) = Z.shiftr z n.
Proof.
  intros. rewrite u64_nonneg by lia. apply i64_id. pose proof (shiftr_abs_le z n). unfold is_i64. lia.
Qed.

(** The types narrower than 64 bits: what a pattern shifted as a 64-bit one
    leaves above the type's maximum. *)
Lemma narrow_max (t : DataType) (n : Z) :
  shift_type t = true -> width t <= 32 -> 0 < n < width t ->
  exists mx, GetMax t = Done mx /\ mx < 2 ^ (63 - n) /\ mx < 2 ^ (64 - n) - 1.
Proof.
  intros Ht Hw Hn.
  assert (2 ^ 32 <= 2 ^ (63 - n)) by (apply Z.pow_le_mono_r; lia).
  assert (2 ^ 33 <= 2 ^ (64 - n)) by (apply Z.pow_le_mono_r; lia).
  destruct t; try discriminate Ht; eexists; (split; [done|]); try lia; simpl in Hw; lia.
Qed.

(** Shifting a range of one sign right as 64-bit patterns, at type [t]. *)
Lemma Shr_neg_sound (t : DataType) (l r x n : Z) :
  shift_type t = true -> 0 < n < width t -> INT64_MIN <= l <= x -> x <= r < 0 ->
  (width t = 64 \/ width t <= 32) ->
  exists r', FitInType (range (i64 (Z.shiftr (u64 l) n)) (i64 (Z.shiftr (u64 r) n))) t = Done r' /\
    wf (range (i64 (Z.shiftr (u64 l) n)) (i64 (Z.shiftr (u64 r) n))) /\
    wf r' /\ within r' (wrap_type t (Z.shiftr (wrapu (width t) x) n)).
Proof.
  intros Ht Hn Hl Hr Hw. pose proof (shift_type_bounded t Ht) as Hb.
  assert (width t <= 64) by lia.
  destruct (shiftr_u64_neg l n) as [-> Bl]; [lia..|]. destruct (shiftr_u64_neg r n) as [-> Br]; [lia..|].
  pose proof (shiftr_mono (l + 2 ^ 64) (x + 2 ^ 64) n ltac:(lia) ltac:(lia)).
  pose proof (shiftr_mono (x + 2 ^ 64) (r + 2 ^ 64) n ltac:(lia) ltac:(lia)).
  assert (2 ^ (64 - n) <= 2 ^ 63) by (apply Z.pow_le_mono_r; lia).
  assert (0 < 2 ^ (63 - n)) by (apply pow2_pos; lia).
  assert (W : wf (range (Z.shiftr (l + 2 ^ 64) n) (Z.shiftr (r + 2 ^ 64) n))) by (unfold wf; simpl; lia).
  destruct Hw as [Hw|Hw].
  - assert (Hu : wrapu (width t) x = x + 2 ^ 64).
    { rewrite Hw. unfold wrapu. rewrite <- (Z_mod_plus_full x 1). apply Z.mod_small. lia. }
    rewrite Hu. destruct (FitInType_within (range (Z.shiftr (l + 2 ^ 64) n) (Z.shiftr (r + 2 ^ 64) n))
      t (Z.shiftr (x + 2 ^ 64) n)) as (r' & ? & ? & ?); [done|left; unfold within; simpl; lia|]. eauto.
  - destruct (narrow_max t n Ht Hw Hn) as (mx & Hmx & ? & ?).
    destruct (FitInType_out (range (Z.shiftr (l + 2 ^ 64) n) (Z.shiftr (r + 2 ^ 64) n)) t mx
      (Z.shiftr (wrapu (width t) x) n)) as (r' & ? & ? & ?); [done|done|simpl; lia|]. eauto.
Qed.

Lemma Shr_cross_sound (t : DataType) (x n : Z) :
  shift_type t = true -> 0 < n < width t -> (width t = 64 \/ width t <= 32) ->
  exists r', FitInType (range 0 (i64 (Z.shiftr UINT64_MAX n))) t = Done r' /\
    wf (range 0 (i64 (Z.shiftr UINT64_MAX n))) /\
    wf r' /\ within r' (wrap_type t (Z.shiftr (wrapu (width t) x) n)).
Proof.
  intros Ht Hn Hw. pose proof (shift_type_bounded t Ht) as Hb.
  destruct (shiftr_u64_neg (-1) n) as [E B]; [lia..|]. change (u64 (-1)) with UINT64_MAX in E.
  change (-1 + 2 ^ 64) with UINT64_MAX in *. rewrite E.
  assert (2 ^ (64 - n) <= 2 ^ 63) by (apply Z.pow_le_mono_r; lia).
  assert (0 < 2 ^ (63 - n)) by (apply pow2_pos; lia).
  assert (W : wf (range 0 (Z.shiftr UINT64_MAX n))) by (unfold wf; simpl; lia).
  destruct Hw as [Hw|Hw].
  - pose proof (wrapu_range 64 x ltac:(lia)) as R. unfold in_u in R. change (2 ^ 64) with (UINT64_MAX + 1) in R.
    pose proof (shiftr_mono (wrapu 64 x) UINT64_MAX n ltac:(lia) ltac:(lia)).
    pose proof (shiftr_abs_le (wrapu 64 x) n ltac:(lia)).
    destruct (FitInType_within (range 0 (Z.shiftr UINT64_MAX n)) t (Z.shiftr (wrapu (width t) x) n))
      as (r' & ? & ? & ?); [done|left; rewrite Hw; unfold within; simpl; lia|]. eauto.
  - destruct (narrow_max t n Ht Hw Hn) as (mx & Hmx & ? & ?).
    destruct (FitInType_out (range 0 (Z.shiftr UINT64_MAX n)) t mx
      (Z.shiftr (wrapu (width t) x) n)) as (r' & ? & ? & ?); [done|done|simpl; lia|]. eauto.
Qed.
Lemma Shr_sound {cfg : Config} (a b : BoundsRange) (t : DataType) (x y : Z) :
  shift_type t = true -> wf a -> wf b -> within a x -> within b y -> wrap_type t x = x ->
  exists r r', Shr a b t = Done r /\ wf r /\ FitInType r t = Done r' /\ wf r' /\
    within r' (shr_value t x y).
Proof.
  intros Ht Ha Hb Hx Hy Hxt. pose proof (shift_type_bounded t Ht) as Hbt.
  unfold Shr, IsConst, IsNegative, shr_value.
  destruct (negb (left_ b =? right_ b) || (right_ b <? 0)) eqn:E.
  - destruct (FitInType_within full t (Z.shiftr (wrapu (width t) x) (y mod width t))) as (r' & ? & ? & ?);
      [done|by right|]. exists full, r'. auto using wf_full.
  - apply orb_false_iff in E as [E1 E2]. rewrite negb_false_iff, Z.eqb_eq in E1. rewrite Z.ltb_ge in E2.
    unfold wf, within in Hb, Hy. assert (left_ b = y) as -> by lia.
    destruct (shift_amount t y Ht) as (-> & Hl & Hn & Hw); [lia|]. cbn [mbind outcome_bind]. cbv zeta.
    rewrite Hl. set (n := y mod width t) in *.
    destruct (FitInType_within a t x Hbt (or_introl Hx)) as (nr & -> & Hnx & Hnw).
    rewrite Hxt in Hnx. cbn [mbind outcome_bind]. unfold wf, within in Hnx, Hnw.
    rewrite Z.geb_leb, Z.gtb_ltb.
    destruct (Z.eq_dec n 0) as [En|En].
    + rewrite En, andb_false_r, !Z.shiftr_0_r.
      rewrite !wraps_wrapu, !i64_id by (unfold is_i64; lia).
      assert (Hv : wrap_type t (wrapu (width t) x) = wrap_type t x)
        by (apply wrap_type_congr; [done|apply wrapu_mod]).
      rewrite Hv. destruct (FitInType_within (range (left_ nr) (right_ nr)) t x Hbt)
        as (r' & ? & ? & ?); [by left|]. eexists _, r'. split; [done|]. split; [unfold wf; simpl; lia|]. auto.
    + destruct (Z.ltb_spec 0 n); [|lia]. rewrite andb_true_r.
      destruct (Z.ltb_spec (left_ nr) 0); [destruct (Z.leb_spec 0 (right_ nr))|]; cbn [andb].
      * destruct (Shr_cross_sound t x n) as (r' & ? & ? & ? & ?); [done|lia|lia|]. eauto 10.
      * destruct (Shr_neg_sound t (left_ nr) (right_ nr) x n) as (r' & ? & ? & ? & ?); [done|lia..|]. eauto 10.
      * assert (Hu : wrapu (width t) x = x).
        { apply wrapu_id. destruct (type_bounds t Hbt) as (mn & mx & Emn & Emx & _ & ? & Hin & _).
          specialize (Hin x). rewrite Hxt in Hin. unfold in_u.
          destruct t; try discriminate Ht; simplify_eq/=; lia. }
        rewrite Hu, !shiftr_u64_nonneg by lia.
        pose proof (shiftr_mono (left_ nr) x n). pose proof (shiftr_mono x (right_ nr) n).
        pose proof (shiftr_abs_le (left_ nr) n). pose proof (shiftr_abs_le (right_ nr) n).
        destruct (FitInType_within (range (Z.shiftr (left_ nr) n) (Z.shiftr (right_ nr) n)) t (Z.shiftr x n))
          as (r' & ? & ? & ?); [done|left; unfold within; simpl; lia|].
        eexists _, r'. split; [done|]. split; [unfold wf; simpl; lia|]. auto.
Qed.

(** * Masks and joins *)
Lemma And_covers (a b : BoundsRange) (x y : Z) :
  wf b -> within b y -> covers (And a b) (Z.land x y) /\ wf (And a b).
Proof.
  unfold wf, within, And, IsConst. intros Hb Hy.
  destruct (Z.eqb_spec (left_ b) (right_ b)) as [E|E]; [cbn [negb]|by apply full_ok].
  assert (left_ b = y) as -> by lia. destruct (Z.lt_ge_cases y 0) as [Hn|Hn].
  - assert (Z.shiftr (u64 y) 63 = 1) as ->; [|by apply full_ok].
    assert (Hu : u64 y = y + 2 ^ 64)
      by (unfold wrapu; rewrite <- (Z_mod_plus_full y 1); apply Z.mod_small; lia).
    rewrite Hu, Z.shiftr_div_pow2 by lia. symmetry. apply Z.div_unique with (y + 2 ^ 63); lia.
  - rewrite u64_nonneg by lia. destruct (Z.shiftr y 63 =? 1) eqn:E1.
    + apply full_ok.
    + assert (0 <= Z.land x y <= y).
      { apply Z.ldiff_le; [lia|]. apply Z.bits_inj'. intros i _.
        rewrite Z.ldiff_spec, Z.land_spec, Z.bits_0. destruct (Z.testbit y i); by rewrite ?andb_false_r. }
      split; [apply covers_range; lia|unfold wf; cbn [left_ right_ range]; lia].
Qed.

Lemma Union_fold (l : list BoundsRange) (mn mx : Z) :
  let '(a, b) := fold_left (fun '(min, max) r =>
      (if left_ r <? min then left_ r else min,
       if right_ r >? max then right_ r else max)) l (mn, mx) in
  a <= mn /\ mx <= b /\ (forall r, r ∈ l -> a <= left_ r /\ right_ r <= b) /\
  (INT64_MIN <= mn -> mx <= INT64_MAX -> Forall wf l -> INT64_MIN <= a /\ b <= INT64_MAX).
Proof.
  revert mn mx; induction l as [|r l IH]; intros mn mx; cbn [fold_left].
  - repeat split; try lia; set_solver.
  - specialize (IH (if left_ r <? mn then left_ r else mn) (if right_ r >? mx then right_ r else mx)).
    destruct (fold_left _ l _) as [a b]. destruct IH as (H1 & H2 & H3 & H4).
    rewrite Z.gtb_ltb in *.
    destruct (Z.ltb_spec (left_ r) mn), (Z.ltb_spec mx (right_ r));
      (split; [lia|]); (split; [lia|]); (split; [intros q [->|Hq]%elem_of_cons; [lia|auto]|]);
      intros ? ? Hf; inversion_clear Hf as [|? ? W]; unfold wf in W; apply H4; auto; lia.
Qed.

Lemma Union_within (l : list BoundsRange) (r : BoundsRange) (x : Z) :
  Forall wf l -> r ∈ l -> within r x -> within (Union l) x /\ wf (Union l).
Proof.
  intros Hw Hr Hx. unfold Union. pose proof (Union_fold l MAX_RANGE_VALUE MIN_RANGE_VALUE) as H.
  destruct (fold_left _ l _) as [a b]. destruct H as (_ & _ & H & Hb).
  specialize (H r Hr). specialize (Hb ltac:(lia) ltac:(lia) Hw).
  unfold within, wf in *. simpl. lia.
Qed.
(** * Narrowing *)
Definition IsUnsignedConditionCode (cc : ConditionCode) : bool :=
  match cc with CC_B | CC_BE | CC_A | CC_AE => true | _ => false end.

(** The order a condition code tests, on exact values. *)
Definition cc_holds (cc : ConditionCode) (x y : Z) : Prop :=
  match cc with
  | CC_EQ => x = y
  | CC_NE => x <> y
  | CC_LT | CC_B => x < y
  | CC_LE | CC_BE => x <= y
  | CC_GT | CC_A => x > y
  | CC_GE | CC_AE => x >= y
  | CC_TST_EQ | CC_TST_NE => True
  end.

Lemma Compare_cc_holds (cc : ConditionCode) (x y : Z) :
  is_i64 x -> is_i64 y -> (IsUnsignedConditionCode cc = true -> 0 <= x /\ 0 <= y) ->
  Compare 64 cc x y = true -> cc_holds cc x y.
Proof.
  intros Hx Hy Hu. unfold Compare. cbv zeta. rewrite !i64_id by done.
  assert (Heq : u64 x = u64 y <-> x = y).
  { split; [|congruence]. intros E. rewrite <- (i64_id x), <- (i64_id y) by done.
    by apply wraps_congr. }
  destruct cc; cbn in Hu |- *; try (specialize (Hu eq_refl); rewrite !u64_nonneg by (unfold is_i64 in *; lia)).
  all: rewrite ?negb_true_iff, ?Z.eqb_eq, ?Z.eqb_neq, ?Heq; try tauto; try lia.
Qed.

Lemma NarrowBoundsByNE_sound (a b : BoundsRange) (x y : Z) :
  wf a -> wf b -> within a x -> within b y -> x <> y ->
  let '(a', b') := NarrowBoundsByNE (a, b) in
  within a' x /\ within b' y /\ wf a' /\ wf b'.
Proof.
  unfold wf, within, NarrowBoundsByNE, IsConst. intros Ha Hb Hx Hy Hne.
  zbool; cbn [left_ right_ range]; lia.
Qed.

(** Knowing that the comparison holds, both operands stay inside the narrowed
    ranges; with an unsigned code, for operands that are not negative. *)
Lemma TryNarrow_within (cc : ConditionCode) (a b : BoundsRange) (x y : Z) :
  wf a -> wf b -> within a x -> within b y -> cc_holds cc x y ->
  let '(a', b') := TryNarrowBoundsByCC cc (a, b) in
  within a' x /\ within b' y /\ wf a' /\ wf b'.
Proof.
  intros Ha Hb Hx Hy Hcc. unfold TryNarrowBoundsByCC.
  destruct (decide (cc = CC_NE)) as [->|Hne].
  { rewrite bool_decide_eq_true_2 by done. by apply NarrowBoundsByNE_sound. }
  rewrite bool_decide_eq_false_2 by done. unfold wf, within in *.
  zbool; try lia;
    destruct cc; try done;
    cbn [NarrowBoundsCase1 NarrowBoundsCase2 NarrowBoundsCase3 NarrowBoundsCase4
         NarrowBoundsCase5 NarrowBoundsCase6 cc_holds] in *;
    zbool; cbn [left_ right_ range full]; lia.
Qed.
(** * Where the operations are wrong *)
(** The product check compares with the clamped magnitude of the least
    [int64_t], so its negation passes: an unknown value times -1 is put into
    the two lowest values. *)
Lemma Mul_by_minus_one_unsound :
  Mul full (const_range (-1)) = range INT64_MIN (INT64_MIN + 1) /\
  within full 7 /\ ~ within (Mul full (const_range (-1))) (wrap_type INT64 (7 * -1)).
Proof. unfold within. vm_compute. intuition congruence. Qed.

(** Negating and subtracting clamp the least [int64_t]. *)
Lemma Neg_min_unsound :
  within (const_range INT64_MIN) INT64_MIN /\
  ~ within (Neg (const_range INT64_MIN)) (wrap_type INT64 (- INT64_MIN)).
Proof. unfold within. vm_compute. intuition congruence. Qed.

Lemma Sub_min_unsound :
  within (const_range (-1)) (-1) /\ within (const_range INT64_MIN) INT64_MIN /\
  ~ within (Sub (const_range (-1)) (const_range INT64_MIN)) (wrap_type INT64 (-1 - INT64_MIN)).
Proof. unfold within. vm_compute. intuition congruence. Qed.

(** An unsigned code narrows as if it were signed. *)
Lemma narrow_unsigned_unsound :
  within (range (-10) 10) (-1) /\ within (const_range 5) 5 /\ Compare 64 CC_A (-1) 5 = true /\
  ~ within (fst (TryNarrowBoundsByCC CC_A (range (-10) 10, const_range 5))) (-1).
Proof. unfold within. vm_compute. intuition congruence. Qed.
End Bounds.
