(* ===== verification/CountableLoop.v ===== *)
(** Recognition of counted loops: [CountableLoopParser] of
    compiler/optimizer/analysis/countable_loop_parser.{h,cpp}.

    [Parse] fills a [CountableLoopInfo] from the loop's exit comparison and
    index phi; [GetLoopIterations] computes how often a loop with constant
    bounds runs.  The main theorem runs the loop, tested in its header or at its back edge: the
    number it returns is the number of times the body runs, and the index does not wrap. *)
From S2P Require Import Prelude.
From S2P Require Import Ir.
From S2P Require Import BoundsRange.
Local Open Scope Z_scope.
Local Open Scope ark_scope.

Record CountableLoopInfo := mkInfo {
  info_ifImm : InstId;
  info_init : InstId;
  info_test : InstId;
  info_update : InstId;
  info_index : InstId;
  info_constStep : Z;
  info_normalizedCc : ConditionCode;
  info_isInc : bool }.

Module CountableLoopParser.
(** [IsInstIncOrDec]: Add or Sub of a constant and a phi. *)
Definition IsInstIncOrDec (g : Graph) (inst : InstId) : outcome bool :=
  x ← get_inst g inst;
  if negb (IsAddSub x) then Done false
  else
    i0 ← read (GetInputs x) 0%nat; x0 ← get_inst g i0;
    i1 ← read (GetInputs x) 1%nat; x1 ← get_inst g i1;
    Done ((IsConst x0 && IsPhi x1) || (IsConst x1 && IsPhi x0)).

(** The first block of the loop with a successor in the outer loop. *)
Definition succ_in_loop (g : Graph) (outer : option LoopId) (bb : BlockId) : outcome bool :=
  b ← get_block g bb; Done (Some (GetLoop b) == outer).
Fixpoint any_succ (g : Graph) (outer : option LoopId) (succs : list BlockId) : outcome bool :=
  match succs with
  | [] => Done false
  | s :: rest =>
      hit ← succ_in_loop g outer s;
      if hit : bool then Done true else any_succ g outer rest
  end.
Fixpoint FindLoopExitBlock_loop (g : Graph) (outer : option LoopId) (bs : list BlockId) :
    outcome BlockId :=
  match bs with
  | [] => Crash
  | block :: rest =>
      b ← get_block g block;
      hit ← any_succ g outer (GetSuccsBlocks b);
      if hit : bool then Done block else FindLoopExitBlock_loop g outer rest
  end.
Definition FindLoopExitBlock (g : Graph) (loop : Loop) : outcome BlockId :=
  FindLoopExitBlock_loop g (GetOuterLoop loop) (GetBlocks loop).

(** [SetUpdateAndTestInputs]: the update and the test, or [None] when it fails. *)
Definition SetUpdateAndTestInputs (g : Graph) (loop : Loop) (isHeadLoopExit : bool)
    (ifImm : InstId) : outcome (option (InstId * InstId)) :=
  loopExitCmp ← GetInput g ifImm 0;
  update ← GetInput g loopExitCmp 0;
  test ← GetInput g loopExitCmp 1;
  if isHeadLoopExit then
    xu ← get_inst g update;
    let '(update, test) := if IsPhi xu then (update, test) else (test, update) in
    xu ← get_inst g update;
    header ← deref (GetHeader loop);
    if GetBasicBlock xu != header then Done None
    else
      backEdge ← read (GetBackEdges loop) 0%nat;
      update ← GetPhiInput g xu backEdge;
      Done (Some (update, test))
  else
    inc ← IsInstIncOrDec g update;
    Done (Some (if inc : bool then (update, test) else (test, update))).

(** [SetIndexAndConstStep]: index, constStep, isInc. *)
Definition SetIndexAndConstStep (g : Graph) (update : InstId) : outcome (InstId * Z * bool) :=
  u ← get_inst g update;
  i0 ← read (GetInputs u) 0%nat;
  i1 ← read (GetInputs u) 1%nat;
  x0 ← get_inst g i0;
  let '(index, constInst) := if IsConst x0 then (i1, i0) else (i0, i1) in
  c ← get_inst g constInst;
  let cnst := GetIntValue c in
  let mask := 2 ^ 63 in
  let isNeg := IsTypeSigned (GetType u) && negb (Z.land cnst mask =? 0) in
  let isInc := IsAdd u in
  if isNeg then Done (index, u64 (u64 (Z.lnot cnst) + 1), negb isInc)
  else Done (index, cnst, isInc).

(** [1 - idx], the other one of two inputs. *)
Definition other_index (idx : nat) : outcome nat :=
  match idx with 0%nat => Done 1%nat | 1%nat => Done 0%nat | _ => Crash end.

(** The condition of staying in the loop, between the update and the test. *)
Definition SetNormalizedConditionCode (g : Graph) (ifImm test : InstId) : outcome ConditionCode :=
  xi ← get_inst g ifImm;
  let loopExit := GetBasicBlock xi in
  be ← get_block g loopExit;
  loopExitCmp ← GetInput g ifImm 0;
  xc ← get_inst g loopExitCmp;
  cmp0 ← read (GetInputs xc) 0%nat;
  let cc := GetCc xc in
  let cc := if test == cmp0 then SwapOperandsConditionCode cc else cc in
  let cc := if GetCc xi == CC_EQ then GetInverseConditionCode cc else cc in
  let loop := GetLoop be in
  falseSucc ← GetFalseSuccessor be;
  bf ← get_block g falseSucc;
  lf ← get_loop g (GetLoop bf);
  Done (if (GetLoop bf == loop) || (GetOuterLoop lf == Some loop)
        then GetInverseConditionCode cc else cc).

Definition IsConditionCodeAcceptable (cc : ConditionCode) (isInc : bool) : bool :=
  if isInc && (cc != CC_LE) && (cc != CC_LT) then false
  else if negb isInc && (cc != CC_GE) && (cc != CC_GT) then false
  else true.

(** [TryProcessBackEdge]: the initial value and the condition code. *)
Definition TryProcessBackEdge (g : Graph) (loop : Loop) (ifImm test update index : InstId)
    (isInc : bool) : outcome (option (InstId * ConditionCode)) :=
  backEdge ← read (GetBackEdges loop) 0%nat;
  xi ← get_inst g index;
  backEdgeIdx ← GetPredBlockIndex g xi backEdge;
  fromBack ← read (GetInputs xi) backEdgeIdx;
  if fromBack != update then Done None
  else
    otherIdx ← other_index backEdgeIdx;
    init ← read (GetInputs xi) otherIdx;
    cc ← SetNormalizedConditionCode g ifImm test;
    Done (if IsConditionCodeAcceptable cc isInc then Some (init, cc) else None).

Definition Parse (g : Graph) (l : LoopId) : outcome (option CountableLoopInfo) :=
  loop ← get_loop g l;
  osr ← IsOsrLoop g loop;
  tc ← IsTryCatchLoop g loop;
  if IsIrreducible loop || osr || tc || negb (length (GetBackEdges loop) =? 1)%nat ||
     IsRoot loop || IsInfinite loop
  then Done None
  else
  loopExit ← FindLoopExitBlock g loop;
  be ← get_block g loopExit;
  header ← deref (GetHeader loop);
  backEdge ← read (GetBackEdges loop) 0%nat;
  if IsEmpty be then Done None
  else if (loopExit != header) && (loopExit != backEdge) then Done None
  else
  let isHeadLoopExit := (loopExit == header) && (loopExit != backEdge) in
  ifImm ← deref (GetLastInst be);
  xi ← get_inst g ifImm;
  if (GetOpcode xi != OpIfImm) && (GetOpcode xi != OpIf) then Done None
  else
  loopExitCmp ← read (GetInputs xi) 0%nat;
  xc ← get_inst g loopExitCmp;
  if GetOpcode xc != OpCompare then Done None
  else
  c0 ← read (GetInputs xc) 0%nat; x0 ← get_inst g c0;
  c1 ← read (GetInputs xc) 1%nat; x1 ← get_inst g c1;
  if isHeadLoopExit && negb (IsPhi x0) && negb (IsPhi x1) then Done None
  else if GetCommonType (GetOperandsType xc) != INT64 then Done None
  else
  ut ← SetUpdateAndTestInputs g loop isHeadLoopExit ifImm;
  match ut with
  | None => Done None
  | Some (update, test) =>
      inc ← IsInstIncOrDec g update;
      if negb inc then Done None
      else
      ics ← SetIndexAndConstStep g update;
      let '(index, constStep, isInc) := ics in
      xx ← get_inst g index;
      if GetBasicBlock xx != header then Done None
      else
      be ← TryProcessBackEdge g loop ifImm test update index isInc;
      match be with
      | None => Done None
      | Some (init, cc) => Done (Some (mkInfo ifImm init test update index constStep cc isInc))
      end
  end.

Definition HasPreHeaderCompare (g : Graph) (loop : Loop) (info : CountableLoopInfo) :
    outcome bool :=
  preHeader ← deref (GetPreHeader loop);
  backEdge ← read (GetBackEdges loop) 0%nat;
  bp ← get_block g preHeader;
  bb ← get_block g backEdge;
  xi ← get_inst g (info_ifImm info);
  if (GetBasicBlock xi != backEdge) || IsEmpty bp then Done false
  else
  preHeaderIfImm ← deref (GetLastInst bp);
  xp ← get_inst g preHeaderIfImm;
  if GetOpcode xp != OpIfImm then Done false
  else
  preHeaderCmp ← read (GetInputs xp) 0%nat;
  xpc ← get_inst g preHeaderCmp;
  if GetOpcode xpc != OpCompare then Done false
  else
  backEdgeCmp ← read (GetInputs xi) 0%nat;
  xbc ← get_inst g backEdgeCmp;
  if GetCc xpc != GetCc xbc then Done false
  else if (GetCc xi != GetCc xp) || negb (GetImm xi =? GetImm xp) then Done false
  else
  pt ← GetTrueSuccessor bp; bt ← GetTrueSuccessor bb;
  pf ← GetFalseSuccessor bp; bf ← GetFalseSuccessor bb;
  if (pt != bt) || (pf != bf) then Done false
  else
  b0 ← read (GetInputs xbc) 0%nat;
  let testInputIdx := if b0 == info_test info then 0%nat else 1%nat in
  t ← read (GetInputs xpc) testInputIdx;
  i ← read (GetInputs xpc) (1 - testInputIdx)%nat;
  Done ((t == info_test info) && (i == info_init info)).

Definition GetLoopIterations (g : Graph) (info : CountableLoopInfo) : outcome (option Z) :=
  xinit ← get_inst g (info_init info);
  xtest ← get_inst g (info_test info);
  let constStep := info_constStep info in
  if negb (IsConst xinit) || negb (IsConst xtest) || (constStep =? 0) then Done None
  else
  let initValue := GetInt64Value xinit in
  let testValue := GetInt64Value xtest in
  xindex ← get_inst g (info_index info);
  let type := GetType xindex in
  mx ← Bounds.GetMax type;
  mn ← Bounds.GetMin type;
  let maxTest := i64 (mx - i64 constStep) in
  let maxTest := if info_normalizedCc info == CC_LE then i64 (maxTest - 1) else maxTest in
  let minTest := i64 (mn + i64 constStep) in
  let minTest := if info_normalizedCc info == CC_GE then i64 (minTest + 1) else minTest in
  if info_isInc info && (i64 testValue >? maxTest) then Done None
  else if negb (info_isInc info) && (i64 testValue <? minTest) then Done None
  else
  let '(initValue, testValue) :=
    if info_isInc info then (initValue, testValue) else (testValue, initValue) in
  if i64 initValue >? i64 testValue then Done (Some 0)
  else
  let diff := u64 (testValue - initValue) in
  let count := u64 (diff + constStep) in
  if diff >? UINT64_MAX - constStep then Done None
  else
  let count :=
    if (info_normalizedCc info == CC_LT) || (info_normalizedCc info == CC_GT)
    then u64 (count - 1) else count in
  Done (Some (count / constStep)).
(** * The loop itself *)
(** The index after [k] updates, each reduced modulo the index's type. *)
Definition next_index (t : DataType) (isInc : bool) (step i : Z) : Z :=
  wrap_type t (if isInc then i + step else i - step).
Definition loop_index (t : DataType) (isInc : bool) (step init : Z) (k : nat) : Z :=
  Nat.iter k (next_index t isInc step) init.
(** Without reduction. *)
Definition ideal_index (isInc : bool) (step init : Z) (k : nat) : Z :=
  if isInc then init + Z.of_nat k * step else init - Z.of_nat k * step.

Lemma loop_index_ideal (t : DataType) (isInc : bool) (step init : Z) (n : nat) :
  (forall k, (k <= n)%nat -> wrap_type t (ideal_index isInc step init k) = ideal_index isInc step init k) ->
  forall k, (k <= n)%nat -> loop_index t isInc step init k = ideal_index isInc step init k.
Proof.
  intros Hfit k; induction k as [|k IH]; intros Hk.
  - unfold loop_index, ideal_index. simpl. destruct isInc; lia.
  - change (loop_index t isInc step init (S k)) with (next_index t isInc step (loop_index t isInc step init k)).
    rewrite IH by lia. unfold next_index.
    rewrite <- (Hfit (S k)) by lia. f_equal. unfold ideal_index. destruct isInc; lia.
Qed.

(** The count of a loop whose condition is [i + 1 - strict <= bound], and how
    far its last index goes: [d] is the distance, [q] the count. *)
Lemma iterations_arith (d s q e : Z) (k : Z) :
  0 < s -> 0 <= d -> (e = 0 \/ e = 1) -> q = (d + s - e) / s -> 0 <= k ->
  0 <= q /\ q * s <= d + s - e /\ (k < q -> k * s <= d - e) /\ (k = q -> d - e < k * s).
Proof.
  intros Hs Hd He -> Hk.
  pose proof (Z.mul_div_le (d + s - e) s ltac:(lia)) as L.
  pose proof (Z.mul_succ_div_gt (d + s - e) s ltac:(lia)) as G.
  assert (0 <= (d + s - e) / s) by (apply Z.div_pos; lia).
  repeat split; intros; nia.
Qed.

(** ** What the count says about the index *)
Section iterations.
  Context (t : DataType) (isInc : bool) (cc : ConditionCode) (step vi vt : Z).
  Context (Ht : Bounds.bounded_type t = true) (Hstep : 0 < step < INT64_MAX).
  Context (Hvi : wrap_type t vi = vi) (Hvt : wrap_type t vt = vt).

(** The condition code [IsConditionCodeAcceptable] leaves, and its strictness. *)
Definition strict (cc : ConditionCode) : Z :=
  if (cc == CC_LT) || (cc == CC_GT) then 1 else 0.
Definition counted_distance : Z := if isInc then vt - vi else vi - vt.

(** The guard against an index that wraps. *)
Definition no_wrap (mn mx : Z) : Prop :=
  if isInc then vt + step + (1 - strict cc) <= mx else mn <= vt - step - (1 - strict cc).

Lemma acceptable_Compare (i : Z) :
  IsConditionCodeAcceptable cc isInc = true -> Bounds.is_i64 i -> Bounds.is_i64 vt ->
  Compare 64 cc i vt = (if isInc then i <=? vt - strict cc else i >=? vt + strict cc).
Proof.
  intros Ha Hi Hv. unfold Compare. cbv zeta. rewrite !Bounds.i64_id by done.
  destruct isInc, cc; try discriminate Ha;
    change (strict CC_LT) with 1; change (strict CC_GT) with 1;
    change (strict CC_LE) with 0; change (strict CC_GE) with 0; Bounds.zbool; done || lia.
Qed.

Lemma counted_loop (mn mx q : Z) :
  IsConditionCodeAcceptable cc isInc = true ->
  Bounds.GetMin t = Done mn -> Bounds.GetMax t = Done mx -> no_wrap mn mx ->
  (0 <= counted_distance -> q = (counted_distance + step - strict cc) / step) ->
  (counted_distance < 0 -> q = 0) ->
  0 <= q /\
  (forall k, (k <= Z.to_nat q)%nat -> loop_index t isInc step vi k = ideal_index isInc step vi k) /\
  (forall k, (k < Z.to_nat q)%nat -> Compare 64 cc (loop_index t isInc step vi k) vt = true) /\
  Compare 64 cc (loop_index t isInc step vi (Z.to_nat q)) vt = false.
Proof.
  intros Ha Hmn Hmx Hnw Hq Hq0.
  destruct (Bounds.type_bounds t Ht) as (mn' & mx' & Emn & Emx & ? & ? & Hin & Hid).
  rewrite Hmn in Emn. rewrite Hmx in Emx. simplify_eq.
  pose proof (Hin vi) as Bi. pose proof (Hin vt) as Bt. rewrite Hvi in Bi. rewrite Hvt in Bt.
  assert (He : strict cc = 0 \/ strict cc = 1) by (unfold strict; destruct cc; cbn; auto).
  assert (A : forall k : Z, 0 <= k -> 0 <= q /\ (k <= q -> k = 0 \/ k * step <= counted_distance + step - strict cc) /\
     (k < q -> k * step <= counted_distance - strict cc) /\ (k = q -> counted_distance - strict cc < k * step)).
  { intros k Hk. destruct (Z.lt_ge_cases counted_distance 0) as [Hd|Hd].
    - rewrite Hq0 by done. repeat split; intros; nia.
    - destruct (iterations_arith counted_distance step q (strict cc) k) as (? & ? & ? & ?); auto; try lia.
      repeat split; auto. intros. right. nia. }
  assert (Hq' : 0 <= q) by apply (A 0 ltac:(lia)).
  assert (Hb : forall k, (k <= Z.to_nat q)%nat -> mn' <= ideal_index isInc step vi k <= mx').
  { intros k Hk. destruct (A (Z.of_nat k)) as (_ & Hle & _ & _); [lia|].
    unfold ideal_index, no_wrap, counted_distance in *.
    destruct Hle as [->|Hle]; [lia|destruct isInc; lia|destruct isInc; nia]. }
  assert (Hi : forall k, (k <= Z.to_nat q)%nat -> loop_index t isInc step vi k = ideal_index isInc step vi k).
  { apply loop_index_ideal. intros k Hk. by apply Hid, Hb. }
  split; [done|]. split; [done|].
  assert (Hc : forall k, (k <= Z.to_nat q)%nat -> Compare 64 cc (loop_index t isInc step vi k) vt =
    (if isInc then ideal_index isInc step vi k <=? vt - strict cc
     else ideal_index isInc step vi k >=? vt + strict cc)).
  { intros k Hk. rewrite Hi by done. apply acceptable_Compare; [done| |]; unfold Bounds.is_i64;
      [pose proof (Hb k Hk)|]; lia. }
  split.
  - intros k Hk. rewrite Hc by lia. destruct (A (Z.of_nat k)) as (_ & _ & Hlt & _); [lia|].
    unfold ideal_index, counted_distance in *. destruct isInc; lia.
  - rewrite Hc by lia. destruct (A q) as (_ & _ & _ & Heq); [lia|].
    unfold ideal_index, counted_distance in *. rewrite Z2Nat.id by lia. destruct isInc; lia.
Qed.
End iterations.
(** ** How often the body of the loop runs

    The condition of staying in the loop compares with [vt].  A loop that exits in its
    header compares the index before the body, a loop that exits at its back edge compares
    the update after the body. *)
Section runs.
  Context (t : DataType) (isInc : bool) (cc : ConditionCode) (step vt : Z).

Fixpoint head_exit_runs (fuel : nat) (i : Z) : option nat :=
  match fuel with
  | O => None
  | S fuel =>
      if Compare 64 cc i vt then S <$> head_exit_runs fuel (next_index t isInc step i) else Some 0%nat
  end.

Fixpoint back_edge_exit_runs (fuel : nat) (i : Z) : option nat :=
  match fuel with
  | O => None
  | S fuel =>
      let update := next_index t isInc step i in
      if Compare 64 cc update vt then S <$> back_edge_exit_runs fuel update else Some 1%nat
  end.

Lemma loop_index_S (i : Z) (k : nat) :
  loop_index t isInc step (next_index t isInc step i) k = loop_index t isInc step i (S k).
Proof. unfold loop_index. by rewrite Nat.iter_succ_r. Qed.

Lemma head_exit_runs_count (n fuel : nat) (i : Z) :
  (forall k, (k < n)%nat -> Compare 64 cc (loop_index t isInc step i k) vt = true) ->
  Compare 64 cc (loop_index t isInc step i n) vt = false -> (n < fuel)%nat ->
  head_exit_runs fuel i = Some n.
Proof.
  revert fuel i. induction n as [|n IH]; intros [|fuel] i Hk He Hf; try lia; simpl.
  - change (loop_index t isInc step i 0) with i in He. by rewrite He.
  - pose proof (Hk 0%nat ltac:(lia)) as H0. change (loop_index t isInc step i 0) with i in H0. rewrite H0.
    rewrite IH; [done| |by rewrite loop_index_S|lia]. intros k Hn. rewrite loop_index_S. apply Hk. lia.
Qed.

Lemma back_edge_exit_runs_count (n fuel : nat) (i : Z) :
  (forall k, (0 < k < n)%nat -> Compare 64 cc (loop_index t isInc step i k) vt = true) ->
  Compare 64 cc (loop_index t isInc step i n) vt = false -> (0 < n <= fuel)%nat ->
  back_edge_exit_runs fuel i = Some n.
Proof.
  revert fuel i. induction n as [|n IH]; intros [|fuel] i Hk He Hf; try lia; simpl.
  change (next_index t isInc step i) with (loop_index t isInc step i 1).
  destruct n as [|n]; [by rewrite He|]. rewrite Hk by lia.
  rewrite IH; [done| | |lia].
  - intros k Hn. change (loop_index t isInc step i 1) with (next_index t isInc step i).
    rewrite loop_index_S. apply Hk. lia.
  - change (loop_index t isInc step i 1) with (next_index t isInc step i). by rewrite loop_index_S.
Qed.
End runs.

(** What [GetLoopIterations] computes from the two constants. *)
Lemma GetLoopIterations_count (g : Graph) (info : CountableLoopInfo) xinit xtest xindex (vi vt n : Z) :
  insts g !! info_init info = Some xinit -> insts g !! info_test info = Some xtest ->
  insts g !! info_index info = Some xindex ->
  Bounds.bounded_type (GetType xindex) = true ->
  value_ xinit = u64 vi -> value_ xtest = u64 vt ->
  wrap_type (GetType xindex) vi = vi -> wrap_type (GetType xindex) vt = vt ->
  0 < info_constStep info < INT64_MAX ->
  IsConditionCodeAcceptable (info_normalizedCc info) (info_isInc info) = true ->
  GetLoopIterations g info = Done (Some n) ->
  exists mn mx, Bounds.GetMin (GetType xindex) = Done mn /\ Bounds.GetMax (GetType xindex) = Done mx /\
    no_wrap (info_isInc info) (info_normalizedCc info) (info_constStep info) vt mn mx /\
    let d := counted_distance (info_isInc info) vi vt in
    (0 <= d -> n = (d + info_constStep info - strict (info_normalizedCc info)) / info_constStep info) /\
    (d < 0 -> n = 0).
Proof.
  intros Hxi Hxt Hxx Ht Hvi Hvt Wvi Wvt Hs Ha. unfold GetLoopIterations, get_inst.
  rewrite Hxi, Hxt, Hxx. cbn [mbind outcome_bind].
  destruct (_ || _); [done|]. unfold GetInt64Value. rewrite Hvi, Hvt.
  destruct (Bounds.type_bounds _ Ht) as (mn & mx & Emn & Emx & Hmn & Hmx & Hin & _).
  rewrite Emn, Emx. cbn [mbind outcome_bind]. cbv zeta.
  pose proof (Hin vi) as Bi. pose proof (Hin vt) as Bt. rewrite Wvi in Bi. rewrite Wvt in Bt.
  set (s := info_constStep info) in *. set (cc := info_normalizedCc info) in *.
  rewrite (Bounds.i64_id s) by (unfold Bounds.is_i64; lia).
  rewrite (Bounds.i64_id (mx - s)), (Bounds.i64_id (mn + s)) by (unfold Bounds.is_i64; lia).
  rewrite (Bounds.i64_id (mx - s - 1)), (Bounds.i64_id (mn + s + 1)) by (unfold Bounds.is_i64; lia).
  rewrite wraps_wrapu, (Bounds.i64_id vt) by (unfold Bounds.is_i64; lia).
  intros Hr. exists mn, mx. split; [done|]. split; [done|].
  assert (Hd : forall a b, Bounds.is_i64 a -> Bounds.is_i64 b ->
    (if i64 (u64 a) >? i64 (u64 b) then Done (Some 0)
     else if u64 (u64 b - u64 a) >? UINT64_MAX - s then Done None
     else Done (Some ((if (cc == CC_LT) || (cc == CC_GT) then u64 (u64 (u64 (u64 b - u64 a) + s) - 1)
                       else u64 (u64 (u64 b - u64 a) + s)) / s))) = Done (Some n) ->
    (0 <= b - a -> n = (b - a + s - strict cc) / s) /\ (b - a < 0 -> n = 0)).
  { intros a b Hia Hib. unfold Bounds.is_i64 in *. rewrite !wraps_wrapu, !Bounds.i64_id by (unfold Bounds.is_i64; lia).
    rewrite !Z.gtb_ltb. destruct (Z.ltb_spec b a); [intros [= <-]; split; intros; lia|].
    assert (E : u64 (u64 b - u64 a) = b - a).
    { unfold wrapu. rewrite <- Zminus_mod, Z.mod_small; [done|]. lia. }
    rewrite E. destruct (Z.ltb_spec (UINT64_MAX - s) (b - a)); [done|].
    rewrite (wrapu_id 64 (b - a + s)) by (unfold in_u; lia).
    rewrite (wrapu_id 64 (b - a + s - 1)) by (unfold in_u; lia).
    unfold strict. intros [= <-]. split; [intros _|lia].
    destruct (_ || _); f_equal; lia. }
  unfold no_wrap, counted_distance. destruct (info_isInc info); cbn [andb negb] in Hr.
  - destruct (_ >? _) eqn:G in Hr; [done|]. rewrite Z.gtb_ltb, Z.ltb_ge in G.
    split; [|apply Hd in Hr; [done|unfold Bounds.is_i64; lia..]].
    unfold cc in *. destruct (info_normalizedCc info); try discriminate Ha;
      [change (strict CC_LT) with 1; change (CC_LT == CC_LE) with false in G
      |change (strict CC_LE) with 0; change (CC_LE == CC_LE) with true in G];
      clear - G; cbv iota in G; lia.
  - destruct (vt <? _) eqn:G in Hr; [done|]. rewrite Z.ltb_ge in G.
    split; [|apply Hd in Hr; [done|unfold Bounds.is_i64; lia..]].
    unfold cc in *. destruct (info_normalizedCc info); try discriminate Ha;
      [change (strict CC_GT) with 1; change (CC_GT == CC_GE) with false in G
      |change (strict CC_GE) with 0; change (CC_GE == CC_GE) with true in G];
      clear - G; cbv iota in G; lia.
Qed.

(** C18: the number of iterations is exact.  For a loop from the constant [vi] to the
    constant [vt], both values of the type of the index, which is an integer type other than
    UINT64, with a step between 0 and INT64_MAX (exclusive) and a condition code the parser
    accepts: when the count [n] is known, the body of a loop that exits in its header runs
    exactly [n] times, that of a loop that exits at its back edge exactly [n] times when
    [n] is positive (it runs at least once: [back_edge_exit_runs_once]), and none of the
    first [n] updates of the index wraps. *)
Theorem GetLoopIterations_exact (g : Graph) (info : CountableLoopInfo) xinit xtest xindex (vi vt n : Z) :
  insts g !! info_init info = Some xinit -> insts g !! info_test info = Some xtest ->
  insts g !! info_index info = Some xindex ->
  Bounds.bounded_type (GetType xindex) = true ->
  value_ xinit = u64 vi -> value_ xtest = u64 vt ->
  wrap_type (GetType xindex) vi = vi -> wrap_type (GetType xindex) vt = vt ->
  0 < info_constStep info < INT64_MAX ->
  IsConditionCodeAcceptable (info_normalizedCc info) (info_isInc info) = true ->
  GetLoopIterations g info = Done (Some n) ->
  let index := loop_index (GetType xindex) (info_isInc info) (info_constStep info) vi in
  0 <= n /\
  (forall k, (k <= Z.to_nat n)%nat ->
     index k = ideal_index (info_isInc info) (info_constStep info) vi k) /\
  (forall k, (k < Z.to_nat n)%nat -> Compare 64 (info_normalizedCc info) (index k) vt = true) /\
  Compare 64 (info_normalizedCc info) (index (Z.to_nat n)) vt = false /\
  (forall fuel, (Z.to_nat n < fuel)%nat ->
     head_exit_runs (GetType xindex) (info_isInc info) (info_normalizedCc info) (info_constStep info) vt
       fuel vi = Some (Z.to_nat n)) /\
  (forall fuel, 0 < n -> (Z.to_nat n <= fuel)%nat ->
     back_edge_exit_runs (GetType xindex) (info_isInc info) (info_normalizedCc info) (info_constStep info) vt
       fuel vi = Some (Z.to_nat n)).
Proof.
  intros Hxi Hxt Hxx Ht Hvi Hvt Wvi Wvt Hs Ha Hr.
  destruct (GetLoopIterations_count g info xinit xtest xindex vi vt n) as (mn & mx & Hmn & Hmx & Hnw & Hq & Hq0); try done.
  destruct (counted_loop (GetType xindex) (info_isInc info) (info_normalizedCc info) (info_constStep info)
    vi vt Ht Hs Wvi Wvt mn mx n) as (Hn & Hi & Hc & He); try done.
  intros index. repeat split; try done.
  - intros fuel Hf. by apply head_exit_runs_count.
  - intros fuel Hn0 Hf. apply back_edge_exit_runs_count; [|done|lia]. intros k Hk. apply Hc. lia.
Qed.

(** The body of a loop that exits at its back edge runs before the first test, whatever the count. *)
Lemma back_edge_exit_runs_once t isInc cc step vt fuel i k :
  back_edge_exit_runs t isInc cc step vt fuel i = Some k -> (0 < k)%nat.
Proof.
  destruct fuel as [|fuel]; [done|]. simpl. destruct (Compare _ _ _ _); [|intros [= <-]; lia].
  destruct (back_edge_exit_runs _ _ _ _ _ _ _); [|done]. intros [= <-]. lia.
Qed.
(** * for (i = 0; i < 10; i += 3) *)
Definition ex_inst (op : Opcode) (t : DataType) (ins : list InstId) (b : BlockId) (cc : ConditionCode)
    (v : Z) (nums : list nat) : Inst :=
  mkInst op t ins [] b false t cc 0 v None 1 nums false 0 0 None.
Definition ex_insts : gmap InstId Inst :=
  list_to_map [(1%positive, ex_inst OpConstant INT64 [] 1%positive CC_EQ 0 []);
               (2%positive, ex_inst OpConstant INT64 [] 1%positive CC_EQ 10 []);
               (3%positive, ex_inst OpConstant INT64 [] 1%positive CC_EQ 3 []);
               (4%positive, ex_inst OpPhi INT32 [1%positive; 7%positive] 2%positive CC_EQ 0 [0%nat; 1%nat]);
               (5%positive, ex_inst OpCompare INT32 [4%positive; 2%positive] 2%positive CC_LT 0 []);
               (6%positive, ex_inst OpIfImm BOOL [5%positive] 2%positive CC_NE 0 []);
               (7%positive, ex_inst OpAdd INT32 [4%positive; 3%positive] 3%positive CC_EQ 0 [])].
Definition ex_blocks : gmap BlockId BasicBlock :=
  list_to_map
    [(1%positive, mkBlock [] [2%positive] None [2%positive] 1%positive [] [] false false);
     (2%positive, mkBlock [1%positive; 3%positive] [3%positive; 4%positive] (Some 1%positive)
        [3%positive; 4%positive] 2%positive [5%positive; 6%positive] [4%positive] false false);
     (3%positive, mkBlock [2%positive] [2%positive] (Some 2%positive) [] 2%positive [7%positive] [] false false);
     (4%positive, mkBlock [2%positive] [] (Some 2%positive) [] 1%positive [] [] false false)].
Definition ex_graph : Graph :=
  mkGraph ex_insts ex_blocks
    {[1%positive := mkLoop None None [] [1%positive; 4%positive] None false false true;
      2%positive := mkLoop (Some 2%positive) (Some 1%positive) [3%positive] [2%positive; 3%positive]
                      (Some 1%positive) false false false]}
    1%positive [1%positive; 2%positive; 3%positive; 4%positive] None false false X86_64.
Definition ex_info : CountableLoopInfo :=
  mkInfo 6%positive 1%positive 2%positive 7%positive 4%positive 3 CC_LT true.

Example Parse_for_loop : Parse ex_graph 2%positive = Done (Some ex_info).
Proof. vm_compute. reflexivity. Qed.

Lemma GetLoopIterations_witness :
  let index := loop_index INT32 true 3 0 in
  0 <= 4 /\ (forall k, (k <= Z.to_nat 4)%nat -> index k = ideal_index true 3 0 k) /\
  (forall k, (k < Z.to_nat 4)%nat -> Compare 64 CC_LT (index k) 10 = true) /\
  Compare 64 CC_LT (index (Z.to_nat 4)) 10 = false /\
  (forall fuel, (Z.to_nat 4 < fuel)%nat -> head_exit_runs INT32 true CC_LT 3 10 fuel 0 = Some (Z.to_nat 4)) /\
  (forall fuel, 0 < 4 -> (Z.to_nat 4 <= fuel)%nat ->
     back_edge_exit_runs INT32 true CC_LT 3 10 fuel 0 = Some (Z.to_nat 4)).
Proof.
  exact (GetLoopIterations_exact ex_graph ex_info
    (ex_inst OpConstant INT64 [] 1%positive CC_EQ 0 []) (ex_inst OpConstant INT64 [] 1%positive CC_EQ 10 [])
    (ex_inst OpPhi INT32 [1%positive; 7%positive] 2%positive CC_EQ 0 [0%nat; 1%nat]) 0 10 4
    eq_refl eq_refl eq_refl eq_refl eq_refl eq_refl eq_refl eq_refl (conj eq_refl eq_refl) eq_refl eq_refl).
Defined.

(** * do { i += 3 } while (i < -10) from 0: the count is 0, the body runs once. *)
Definition ex_graph_below : Graph :=
  {| ex_graph with insts := <[2%positive := ex_inst OpConstant INT64 [] 1%positive CC_EQ (u64 (-10)) []]> ex_insts |}.

Example count_zero_runs_once :
  GetLoopIterations ex_graph_below ex_info = Done (Some 0) /\
  back_edge_exit_runs INT32 true CC_LT 3 (-10) 5 0 = Some 1%nat.
Proof. by vm_compute. Qed.
End CountableLoopParser.
