(* ===== verification/BoundsAnalysis.v ===== *)
(** The value-range analysis: classes [BoundsRangeInfo] and [BoundsAnalysis] of
    compiler/optimizer/analysis/bounds_analysis.{h,cpp}.

    The analysis visits the instructions of every block in reverse post order
    and records ranges per block and instruction; a lookup walks up the
    dominator tree.  A valuation [rho] gives the instructions their values in
    one execution; [info_sound] says that every range recorded on the path of
    dominators of a block contains the value.  Each visitor is shown to keep it. *)
From S2P Require Import Prelude.
From S2P Require Import Ir.
From S2P Require Import BoundsRange.
From S2P Require Import CountableLoop.
Local Open Scope Z_scope.
Local Open Scope ark_scope.

Abbreviation BoundsRangeInfo := (gmap BlockId (gmap InstId BoundsRange)).

Module BoundsAnalysis.
Import Bounds.

(** * Array lengths *)
Definition IsStringLength (g : Graph) (inst : InstId) : outcome bool :=
  x ← get_inst g inst;
  if GetOpcode x != OpShr then Done false
  else
    i0 ← read (GetInputs x) 0%nat;
    op0 ← opcode_of g i0;
    if op0 != OpLenArray then Done false
    else
      i1 ← read (GetInputs x) 1%nat;
      c ← get_inst g i1;
      Done (Ir.IsConst c && (GetInt64Value c =? 1)).

Definition IsLenArray (g : Graph) (inst : InstId) : outcome bool :=
  x ← get_inst g inst;
  if GetOpcode x == OpLenArray then Done true else IsStringLength g inst.

(** [BoundsRange::IsLess(inst)]: the range is below the array's length. *)
Definition IsLessLen (g : Graph) (r : BoundsRange) (inst : InstId) : outcome bool :=
  len ← IsLenArray g inst;
  Done (if len : bool then Some inst == lenArray_ r else false).

Section analysis.
  Context {cfg : Config} {runtime : Runtime}.

(** * BoundsRangeInfo *)
Definition stored (bri : BoundsRangeInfo) (block : BlockId) (inst : InstId) : option BoundsRange :=
  bri !! block ≫= fun m => m !! inst.

(** The walk up the dominators. *)
Fixpoint FindStored (fuel : nat) (g : Graph) (bri : BoundsRangeInfo) (block : option BlockId)
    (inst : InstId) : outcome (option BoundsRange) :=
  match fuel with
  | O => NoFuel
  | S fuel =>
      match block with
      | None => Done None
      | Some b =>
          match stored bri b inst with
          | Some r => Done (Some r)
          | None => bb ← get_block g b; FindStored fuel g bri (GetDominator bb) inst
          end
      end
  end.

Definition FindBoundsRange (g : Graph) (bri : BoundsRangeInfo) (block : BlockId) (inst : InstId) :
    outcome BoundsRange :=
  x ← get_inst g inst;
  if GetOpcode x == OpNullPtr then Done (const_range 0)
  else if IsInstNotNull x then mx ← GetMax REFERENCE; Done (range 1 mx)
  else
  found ← FindStored (S (S (size (blocks g)))) g bri (Some block) inst;
  match found with
  | Some r => Done r
  | None =>
      if Ir.IsConst x then Done (const_range (i64 (GetIntValue x)))
      else
      len ← IsLenArray g inst;
      if len : bool then
        if GetOpcode x == OpLenArray then
          i0 ← read (GetInputs x) 0%nat;
          arrayInst ← GetDataFlowInput g i0;
          a ← get_inst g arrayInst;
          Done (range 0 (match GetObjectTypeInfo a with
                         | Some klass => GetMaxArrayLength klass
                         | None => INT32_MAX
                         end))
        else Done (range 0 INT32_MAX)
      else type_range (GetType x)
  end.

Definition SetBoundsRange (g : Graph) (bri : BoundsRangeInfo) (block : BlockId) (inst : InstId)
    (r : BoundsRange) : outcome BoundsRangeInfo :=
  x ← get_inst g inst;
  if Ir.IsConst x && (lenArray_ r == None) then Done bri
  else
  let r :=
    if Ir.IsConst x then
      let val := i64 (GetIntValue x) in mkRange val val (lenArray_ r)
    else r in
  max ← IsMaxRange r INT64;
  if negb max || (lenArray_ r != None) then
    Done (<[block := <[inst := r]> (default ∅ (bri !! block))]> bri)
  else Done bri.

(** [IsInstNotNull(inst, block)] *)
Definition IsInstNotNullAt (g : Graph) (bri : BoundsRangeInfo) (inst : InstId) (block : BlockId) :
    outcome bool :=
  x ← get_inst g inst;
  if IsInstNotNull x then Done true
  else r ← FindBoundsRange g bri block inst; Done (IsMore r (const_range 0)).

(** * Transfer functions *)
Definition two_inputs (g : Graph) (x : Inst) : outcome (InstId * InstId) :=
  i0 ← read (GetInputs x) 0%nat;
  i1 ← read (GetInputs x) 1%nat;
  input0 ← GetDataFlowInput g i0;
  input1 ← GetDataFlowInput g i1;
  Done (input0, input1).

(** The inputs of [inst] with their ranges in its block. *)
Definition two_ranges (g : Graph) (bri : BoundsRangeInfo) (x : Inst) :
    outcome (InstId * InstId * BoundsRange * BoundsRange) :=
  ins ← two_inputs g x;
  let '(input0, input1) := ins in
  range0 ← FindBoundsRange g bri (GetBasicBlock x) input0;
  range1 ← FindBoundsRange g bri (GetBasicBlock x) input1;
  Done (input0, input1, range0, range1).

(** An [if ... SetLenArray(l) else if ...] chain: the first case whose guard
    holds and whose instruction is not null. *)
Fixpoint first_len (r : BoundsRange) (cases : list (bool * option InstId)) : BoundsRange :=
  match cases with
  | [] => r
  | (true, Some l) :: _ => SetLenArray r l
  | _ :: rest => first_len r rest
  end.

Definition CalcNewBoundsRangeAdd (g : Graph) (bri : BoundsRangeInfo) (x : Inst) : outcome BoundsRange :=
  rs ← two_ranges g bri x;
  let '(input0, input1, range0, range1) := rs in
  let r := Add range0 range1 in
  max ← IsMaxRange r (GetType x);
  len0 ← IsLenArray g input0;
  len1 ← IsLenArray g input1;
  Done (if max : bool then r
        else first_len r
          [(IsMoreOrEqual (const_range 0) range1, lenArray_ range0);
           (IsMoreOrEqual (const_range 0) range0, lenArray_ range1);
           (len0 && IsNegative range1, Some input0);
           (len1 && IsNegative range0, Some input1)]).

Definition CalcNewBoundsRangeSub (g : Graph) (bri : BoundsRangeInfo) (x : Inst) : outcome BoundsRange :=
  rs ← two_ranges g bri x;
  let '(input0, input1, range0, range1) := rs in
  let r := Sub range0 range1 in
  max ← IsMaxRange r (GetType x);
  len0 ← IsLenArray g input0;
  Done (if max : bool then r
        else first_len r
          [(IsNotNegative range1, lenArray_ range0);
           (len0 && IsMore range1 (const_range 0), Some input0)]).

Definition CalcNewBoundsRangeMod (g : Graph) (bri : BoundsRangeInfo) (x : Inst) : outcome BoundsRange :=
  rs ← two_ranges g bri x;
  let '(input0, input1, range0, range1) := rs in
  len1 ← IsLenArray g input1;
  Done (first_len (Mod range0 range1)
          [(IsNotNegative range1, lenArray_ range1);
           (true, lenArray_ range0);
           (len1, Some input1)]).

Definition CalcNewBoundsRangeMul (g : Graph) (bri : BoundsRangeInfo) (x : Inst) : outcome BoundsRange :=
  rs ← two_ranges g bri x;
  let '(input0, input1, range0, range1) := rs in
  max0 ← IsMaxRange range0 INT64;
  max1 ← IsMaxRange range1 INT64;
  Done (if negb max0 || negb max1 then Mul range0 range1 else full).

Definition CalcNewBoundsRangeDiv (g : Graph) (bri : BoundsRangeInfo) (x : Inst) : outcome BoundsRange :=
  rs ← two_ranges g bri x;
  let '(input0, input1, range0, range1) := rs in
  Done (first_len (Div range0 range1)
          [(IsNotNegative range0 && IsNotNegative range1, lenArray_ range0)]).

Definition CalcNewBoundsRangeShr (g : Graph) (bri : BoundsRangeInfo) (x : Inst) : outcome BoundsRange :=
  rs ← two_ranges g bri x;
  let '(input0, input1, range0, range1) := rs in
  r ← Shr range0 range1 (GetType x);
  Done (first_len r [(IsNotNegative range0, lenArray_ range0)]).

Definition CalcNewBoundsRangeAShr (g : Graph) (bri : BoundsRangeInfo) (x : Inst) : outcome BoundsRange :=
  rs ← two_ranges g bri x;
  let '(input0, input1, range0, range1) := rs in
  r ← AShr range0 range1 (GetType x);
  Done (first_len r [(true, lenArray_ range0)]).

Definition CalcNewBoundsRangeShl (g : Graph) (bri : BoundsRangeInfo) (x : Inst) : outcome BoundsRange :=
  rs ← two_ranges g bri x;
  let '(input0, input1, range0, range1) := rs in
  Shl range0 range1 (GetType x).

Definition CalcNewBoundsRangeAnd (g : Graph) (bri : BoundsRangeInfo) (x : Inst) : outcome BoundsRange :=
  rs ← two_ranges g bri x;
  let '(input0, input1, range0, range1) := rs in
  Done (And range0 range1).

(** A [UINT64] operand about which nothing is known blocks the calculation. *)
Definition CheckBoundsRange (g : Graph) (bri : BoundsRangeInfo) (x : Inst) : outcome bool :=
  rs ← two_ranges g bri x;
  let '(input0, input1, range0, range1) := rs in
  x0 ← get_inst g input0;
  x1 ← get_inst g input1;
  max0 ← IsMaxRange range0 UINT64;
  max1 ← IsMaxRange range1 UINT64;
  Done (((GetType x0 != UINT64) || negb max0 || (lenArray_ range0 != None)) &&
        ((GetType x1 != UINT64) || negb max1 || (lenArray_ range1 != None))).

Definition CalcNewBoundsRangeUnary (OPC : Opcode) (g : Graph) (bri : BoundsRangeInfo) (inst : InstId) :
    outcome BoundsRangeInfo :=
  x ← get_inst g inst;
  if IsFloatType (GetType x) || (GetType x == REFERENCE) then Done bri
  else
  input0 ← read (GetInputs x) 0%nat;
  range0 ← FindBoundsRange g bri (GetBasicBlock x) input0;
  r ← match OPC with
      | OpNeg => Done (Neg range0)
      | OpAbs => Done (Abs range0)
      | _ => Crash
      end;
  r ← FitInType r (GetType x);
  SetBoundsRange g bri (GetBasicBlock x) inst r.

Definition CalcNewBoundsRangeBinary (OPC : Opcode) (g : Graph) (bri : BoundsRangeInfo) (inst : InstId) :
    outcome BoundsRangeInfo :=
  x ← get_inst g inst;
  if IsFloatType (GetType x) || (GetType x == REFERENCE) then Done bri
  else
  ok ← CheckBoundsRange g bri x;
  r ← (if ok : bool then
         match OPC with
         | OpAdd => CalcNewBoundsRangeAdd g bri x
         | OpSub => CalcNewBoundsRangeSub g bri x
         | OpMod => CalcNewBoundsRangeMod g bri x
         | OpMul => CalcNewBoundsRangeMul g bri x
         | OpDiv => CalcNewBoundsRangeDiv g bri x
         | OpShr => CalcNewBoundsRangeShr g bri x
         | OpAShr => CalcNewBoundsRangeAShr g bri x
         | OpShl => CalcNewBoundsRangeShl g bri x
         | OpAnd => CalcNewBoundsRangeAnd g bri x
         | _ => Crash
         end
       else Done full);
  r ← FitInType r (GetType x);
  SetBoundsRange g bri (GetBasicBlock x) inst r.

(** * Visitors *)
Definition VisitNeg := CalcNewBoundsRangeUnary OpNeg.
Definition VisitNegOverflowAndZeroCheck := CalcNewBoundsRangeUnary OpNeg.
Definition VisitAbs := CalcNewBoundsRangeUnary OpAbs.
Definition VisitAdd := CalcNewBoundsRangeBinary OpAdd.
Definition VisitAddOverflowCheck := CalcNewBoundsRangeBinary OpAdd.
Definition VisitSub := CalcNewBoundsRangeBinary OpSub.
Definition VisitSubOverflowCheck := CalcNewBoundsRangeBinary OpSub.
Definition VisitMod := CalcNewBoundsRangeBinary OpMod.
Definition VisitDiv := CalcNewBoundsRangeBinary OpDiv.
Definition VisitMul := CalcNewBoundsRangeBinary OpMul.
Definition VisitAnd := CalcNewBoundsRangeBinary OpAnd.
Definition VisitShr := CalcNewBoundsRangeBinary OpShr.
Definition VisitShl := CalcNewBoundsRangeBinary OpShl.

(** The shape ashr(add(shr(ashr(x, size - 1), size - n), x), n), which is what
    a division by 2^n becomes: the dividend and n, or [None]. *)
Definition match_ashr_div (g : Graph) (x : Inst) (typeSize : Z) : outcome (option (InstId * Z)) :=
  add ← read (GetInputs x) 0%nat;
  cnst ← read (GetInputs x) 1%nat;
  xadd ← get_inst g add;
  xc ← get_inst g cnst;
  if negb (Ir.IsConst xc && (GetOpcode xadd == OpAdd)) then Done None
  else
  let n := GetInt64Value xc in
  shr ← read (GetInputs xadd) 0%nat;
  dividend ← read (GetInputs xadd) 1%nat;
  xshr ← get_inst g shr;
  if GetOpcode xshr != OpShr then Done None
  else
  ashr ← read (GetInputs xshr) 0%nat;
  cnst ← read (GetInputs xshr) 1%nat;
  xashr ← get_inst g ashr;
  xc ← get_inst g cnst;
  if negb ((GetOpcode xashr == OpAShr) && Ir.IsConst xc &&
           (GetInt64Value xc =? u64 (typeSize - n))) then Done None
  else
  ashr0 ← read (GetInputs xashr) 0%nat;
  cnst ← read (GetInputs xashr) 1%nat;
  xc ← get_inst g cnst;
  Done (if (ashr0 == dividend) && Ir.IsConst xc && (GetInt64Value xc =? typeSize - 1)
        then Some (dividend, n) else None).

(** [1U << n] is undefined from 32 on. *)
Definition VisitAShr (g : Graph) (bri : BoundsRangeInfo) (inst : InstId) : outcome BoundsRangeInfo :=
  x ← get_inst g inst;
  typeSize ← GetTypeSize (GetType x) (GetArch g);
  div ← match_ashr_div g x typeSize;
  match div with
  | Some (dividend, n) =>
      r ← FindBoundsRange g bri (GetBasicBlock x) dividend;
      if n <? 32 then
        let res := Div r (const_range (Z.shiftl 1 n)) in
        let res := first_len res [(IsNotNegative r, lenArray_ r)] in
        SetBoundsRange g bri (GetBasicBlock x) inst res
      else Crash
  | None => CalcNewBoundsRangeBinary OpAShr g bri inst
  end.

(** [CheckTriangleCase]: the target is entered only from [block], back edges apart. *)
Definition CheckTriangleCase (g : Graph) (block tgtBlock : BlockId) : outcome bool :=
  bt ← get_block g tgtBlock;
  loop ← get_loop g (GetLoop bt);
  match GetPredsBlocks bt with
  | [_] => Done true
  | [p0; p1] =>
      match GetBackEdges loop with
      | [e] =>
          Done (negb (IsRoot loop) &&
                (((p0 == block) && (p1 == e)) || ((p1 == block) && (p0 == e))))
      | _ => Done false
      end
  | _ => Done false
  end.

Fixpoint set_all (g : Graph) (bri : BoundsRangeInfo) (bs : list BlockId) (inst : InstId)
    (r : BoundsRange) : outcome BoundsRangeInfo :=
  match bs with
  | [] => Done bri
  | b :: rest => bri' ← SetBoundsRange g bri b inst r; set_all g bri' rest inst r
  end.
Definition ProcessNullCheck (g : Graph) (bri : BoundsRangeInfo) (checkInst refInput : InstId) :
    outcome BoundsRangeInfo :=
  x ← get_inst g checkInst;
  b ← get_block g (GetBasicBlock x);
  mx ← GetMax REFERENCE;
  set_all g bri (GetDominatedBlocks b) refInput (range 1 mx).
Definition VisitNullCheck (g : Graph) (bri : BoundsRangeInfo) (inst : InstId) : outcome BoundsRangeInfo :=
  i0 ← GetInput g inst 0;
  ref ← GetDataFlowInput g i0;
  ProcessNullCheck g bri inst ref.

(** [IfImmInst::GetEdgeIfInputTrue] *)
Definition GetEdgeIfInputTrue (g : Graph) (ifImm : Inst) : outcome BlockId :=
  b ← get_block g (GetBasicBlock ifImm);
  read (GetSuccsBlocks b) (if GetCc ifImm == CC_NE then 0 else 1)%nat.

Definition CalcNewBoundsRangeForIsInstanceInput (g : Graph) (bri : BoundsRangeInfo)
    (isInstance : Inst) (ifImm : Inst) : outcome BoundsRangeInfo :=
  trueBlock ← GetEdgeIfInputTrue g ifImm;
  ok ← CheckTriangleCase g (GetBasicBlock ifImm) trueBlock;
  if ok : bool then
    ref ← read (GetInputs isInstance) 0%nat;
    mx ← GetMax REFERENCE;
    SetBoundsRange g bri trueBlock ref (range 1 mx)
  else Done bri.

Definition CalcNewBoundsRangeForCompare (g : Graph) (bri : BoundsRangeInfo) (block : BlockId)
    (cc : ConditionCode) (left right : InstId) (tgtBlock : BlockId) : outcome BoundsRangeInfo :=
  leftRange ← FindBoundsRange g bri block left;
  rightRange ← FindBoundsRange g bri block right;
  ok ← CheckTriangleCase g block tgtBlock;
  if negb ok then Done bri
  else
  let '(r1, r2) := TryNarrowBoundsByCC cc (leftRange, rightRange) in
  lenR ← IsLenArray g right;
  lenL ← IsLenArray g left;
  let '(r1, r2) :=
    if (cc == CC_LT) && lenR then (SetLenArray r1 right, r2)
    else if (cc == CC_GT) && lenL then (r1, SetLenArray r2 left)
    else match lenArray_ leftRange, lenArray_ rightRange with
         | Some l, _ => (SetLenArray r1 l, r2)
         | None, Some l => (r1, SetLenArray r2 l)
         | None, None => (r1, r2)
         end in
  xl ← get_inst g left;
  xr ← get_inst g right;
  f1 ← FitInType r1 (GetType xl);
  bri ← SetBoundsRange g bri tgtBlock left f1;
  f2 ← FitInType r2 (GetType xr);
  SetBoundsRange g bri tgtBlock right f2.

Definition VisitIfImm (g : Graph) (bri : BoundsRangeInfo) (inst : InstId) : outcome BoundsRangeInfo :=
  x ← get_inst g inst;
  if GetOperandsType x != BOOL then Done bri
  else
  input ← read (GetInputs x) 0%nat;
  xin ← get_inst g input;
  if GetOpcode xin == OpIsInstance then CalcNewBoundsRangeForIsInstanceInput g bri xin x
  else if GetOpcode xin != OpCompare then Done bri
  else
  op0 ← read (GetInputs xin) 0%nat; x0 ← get_inst g op0;
  op1 ← read (GetInputs xin) 1%nat; x1 ← get_inst g op1;
  if ((GetCommonType (GetType x0) != INT64) && (GetType x0 != REFERENCE)) ||
     ((GetCommonType (GetType x1) != INT64) && (GetType x1 != REFERENCE))
  then Done bri
  else
  let cc := GetCc xin in
  let block := GetBasicBlock x in
  b ← get_block g block;
  succT ← GetTrueSuccessor b;
  succF ← GetFalseSuccessor b;
  tf ← match GetCc x with
       | CC_NE => Done (succT, succF)
       | CC_EQ => Done (succF, succT)
       | _ => Crash
       end;
  let '(trueBlock, falseBlock) := tf : BlockId * BlockId in
  bri ← CalcNewBoundsRangeForCompare g bri block cc op0 op1 trueBlock;
  CalcNewBoundsRangeForCompare g bri block (GetInverseConditionCode cc) op0 op1 falseBlock.

(** The index of a counted loop; [true] when its range was recorded. *)
Definition ProcessCountableLoop (g : Graph) (bri : BoundsRangeInfo) (phi : InstId) :
    outcome (bool * BoundsRangeInfo) :=
  xphi ← get_inst g phi;
  let phiBlock := GetBasicBlock xphi in
  let phiType := GetType xphi in
  bphi ← get_block g phiBlock;
  let loopId := GetLoop bphi in
  loop ← get_loop g loopId;
  loopInfo ← CountableLoopParser.Parse g loopId;
  match loopInfo with
  | None => Done (false, bri)
  | Some info =>
  if phi != info_index info then Done (false, bri)
  else
  let cc := info_normalizedCc info in
  let '(lower, upper) :=
    if info_isInc info then (info_init info, info_test info)
    else (info_test info, info_init info) in
  lowerRange ← FindBoundsRange g bri phiBlock lower;
  upperRange ← FindBoundsRange g bri phiBlock upper;
  lenUpper ← IsLenArray g upper;
  let lowerRange := if cc == CC_GT then Add lowerRange (const_range 1) else lowerRange in
  let upperRange :=
    if cc == CC_LT then
      let u := Sub upperRange (const_range 1) in
      if lenUpper : bool then SetLenArray u upper else u
    else upperRange in
  if left_ lowerRange >? right_ upperRange then Done (false, bri)
  else
  let left := left_ lowerRange in
  let right := right_ upperRange in
  let lenArray := lenArray_ upperRange in
  xif ← get_inst g (info_ifImm info);
  let isHeadLoopExit := Some (GetBasicBlock xif) == GetHeader loop in
  let ordered := IsMoreOrEqual upperRange lowerRange in
  if negb ordered && negb isHeadLoopExit then Done (false, bri)
  else
  hasCmp ← (if ordered then Done true
            else CountableLoopParser.HasPreHeaderCompare g loop info);
  if negb ordered && negb hasCmp then
    bri ← (if GetBasicBlock xif == phiBlock then
             succT ← GetTrueSuccessor bphi;
             bT ← get_block g succT;
             inside ← IsInside g (GetLoop bT) loopId;
             next ← (if (GetLoop bT != loopId) && negb inside
                     then GetFalseSuccessor bphi else Done succT);
             if next != phiBlock then
               r ← FitInType (mkRange left right lenArray) phiType;
               SetBoundsRange g bri next phi r
             else Done bri
           else Done bri);
    (* the index can be past the bound on the first iteration *)
    let r :=
      if (cc == CC_LE) || (cc == CC_LT)
      then mkRange left (Z.max right (right_ lowerRange)) None
      else mkRange (Z.min left (left_ upperRange)) right lenArray in
    r ← FitInType r phiType;
    bri ← SetBoundsRange g bri phiBlock phi r;
    Done (true, bri)
  else
    r ← FitInType (mkRange left right lenArray) phiType;
    bri ← SetBoundsRange g bri phiBlock phi r;
    Done (true, bri)
  end.

Fixpoint phi_ranges (g : Graph) (bri : BoundsRangeInfo) (phi : Inst) (preds : list BlockId) :
    outcome (list BoundsRange) :=
  match preds with
  | [] => Done []
  | b :: rest =>
      i ← GetPhiInput g phi b;
      r ← FindBoundsRange g bri b i;
      rs ← phi_ranges g bri phi rest;
      Done (r :: rs)
  end.

Definition VisitPhi (g : Graph) (bri : BoundsRangeInfo) (inst : InstId) : outcome BoundsRangeInfo :=
  x ← get_inst g inst;
  if IsFloatType (GetType x) || (GetType x == ANY) || (GetType x == POINTER) then Done bri
  else
  counted ← (if GetType x == REFERENCE then Done (false, bri) else ProcessCountableLoop g bri inst);
  let '(done, bri) := counted : bool * BoundsRangeInfo in
  if done then Done bri
  else
  b ← get_block g (GetBasicBlock x);
  ranges ← phi_ranges g bri x (GetPredsBlocks b);
  r ← FitInType (Union ranges) (GetType x);
  SetBoundsRange g bri (GetBasicBlock x) inst r.

(** * The pass *)
(** The visitor table: opcodes without a visitor are skipped. *)
Definition Visit (g : Graph) (bri : BoundsRangeInfo) (inst : InstId) : outcome BoundsRangeInfo :=
  x ← get_inst g inst;
  match GetOpcode x with
  | OpNeg => VisitNeg g bri inst
  | OpNegOverflowAndZeroCheck => VisitNegOverflowAndZeroCheck g bri inst
  | OpAbs => VisitAbs g bri inst
  | OpAdd => VisitAdd g bri inst
  | OpAddOverflowCheck => VisitAddOverflowCheck g bri inst
  | OpSub => VisitSub g bri inst
  | OpSubOverflowCheck => VisitSubOverflowCheck g bri inst
  | OpMod => VisitMod g bri inst
  | OpDiv => VisitDiv g bri inst
  | OpMul => VisitMul g bri inst
  | OpAnd => VisitAnd g bri inst
  | OpShr => VisitShr g bri inst
  | OpAShr => VisitAShr g bri inst
  | OpShl => VisitShl g bri inst
  | OpIfImm => VisitIfImm g bri inst
  | OpPhi => VisitPhi g bri inst
  | OpNullCheck => VisitNullCheck g bri inst
  | _ => Done bri
  end.

Fixpoint visit_insts (g : Graph) (bri : BoundsRangeInfo) (l : list InstId) : outcome BoundsRangeInfo :=
  match l with
  | [] => Done bri
  | i :: rest => bri' ← Visit g bri i; visit_insts g bri' rest
  end.
Fixpoint VisitGraph (g : Graph) (bri : BoundsRangeInfo) (bs : list BlockId) : outcome BoundsRangeInfo :=
  match bs with
  | [] => Done bri
  | b :: rest =>
      bb ← get_block g b;
      bri' ← visit_insts g bri (GetPhis bb ++ GetInsts bb);
      VisitGraph g bri' rest
  end.
(** [RunImpl], the dominator tree and the loops being already in the graph. *)
Definition RunImpl (g : Graph) : outcome BoundsRangeInfo := VisitGraph g ∅ (GetBlocksRPO g).
(** * Meaning of the recorded ranges *)
(** [v] is in the range: between the bounds and below the array length, which
    is not negative. *)
Definition contains (rho : InstId -> Z) (r : BoundsRange) (v : Z) : Prop :=
  within r v /\ forall a, lenArray_ r = Some a -> 0 <= rho a /\ v < rho a.

(** Types whose [GetMin]/[GetMax] bound their values. *)
Definition known_type (t : DataType) : bool := bounded_type t || (t == REFERENCE).

(** Values of one execution, as far as the analysis relies on them. *)
Record valuation (g : Graph) (rho : InstId -> Z) : Prop := {
  val_const i x : insts g !! i = Some x -> Ir.IsConst x = true -> rho i = i64 (value_ x);
  val_null i x : insts g !! i = Some x -> GetOpcode x = OpNullPtr -> rho i = 0;
  val_notnull i x : insts g !! i = Some x -> IsInstNotNull x = true -> 1 <= rho i <= INT64_MAX;
  val_type i x mn mx : insts g !! i = Some x -> known_type (GetType x) = true ->
    GetMin (GetType x) = Done mn -> GetMax (GetType x) = Done mx -> mn <= rho i <= mx;
  val_len i : IsLenArray g i = Done true -> 0 <= rho i <= INT32_MAX;
  val_max_len i x i0 a xa k : insts g !! i = Some x -> GetOpcode x = OpLenArray ->
    GetInputs x !! 0%nat = Some i0 -> GetDataFlowInput g i0 = Done a -> insts g !! a = Some xa ->
    GetObjectTypeInfo xa = Some k -> rho i <= GetMaxArrayLength k <= INT64_MAX }.

(** The shape of the graph the visitors rely on. *)
Definition dom_path (g : Graph) : option BlockId -> list BlockId -> Prop :=
  links (fun b => GetDominator <$> blocks g !! b).
Record ir_wf (g : Graph) : Prop := {
  wf_shr i x : insts g !! i = Some x -> GetOpcode x = OpShr -> exists i0 i1 x0 x1,
    GetInputs x !! 0%nat = Some i0 /\ GetInputs x !! 1%nat = Some i1 /\
    insts g !! i0 = Some x0 /\ insts g !! i1 = Some x1;
  wf_len i x : insts g !! i = Some x -> GetOpcode x = OpLenArray -> exists i0 a xa,
    GetInputs x !! 0%nat = Some i0 /\ GetDataFlowInput g i0 = Done a /\ insts g !! a = Some xa;
  wf_dom b : is_Some (blocks g !! b) -> exists l, dom_path g (Some b) l }.

(** Every range recorded in [block] or in one of its dominators holds. *)
Definition info_sound (g : Graph) (bri : BoundsRangeInfo) (rho : InstId -> Z) (block : BlockId) : Prop :=
  forall l b i r, dom_path g (Some block) l -> b ∈ l -> stored bri b i = Some r ->
    wf r /\ contains rho r (rho i).

Lemma IsLenArray_total (g : Graph) (i : InstId) (x : Inst) :
  ir_wf g -> insts g !! i = Some x -> exists b, IsLenArray g i = Done b.
Proof.
  intros W Hx. unfold IsLenArray, IsStringLength, opcode_of, get_inst, read. rewrite Hx. cbn [mbind outcome_bind].
  destruct (decide (GetOpcode x = OpLenArray)) as [E|E]; [rewrite bool_decide_eq_true_2 by done; eauto|].
  rewrite bool_decide_eq_false_2 by done. cbn [mbind outcome_bind].
  destruct (decide (GetOpcode x = OpShr)) as [Es|Es];
    [rewrite bool_decide_eq_true_2 by done|rewrite bool_decide_eq_false_2 by done; eauto].
  destruct (wf_shr g W i x Hx Es) as (i0 & i1 & x0 & x1 & -> & H1 & Hx0 & Hx1). cbn [negb mbind outcome_bind].
  rewrite Hx0. cbn [mbind outcome_bind]. destruct (_ : bool); [eauto|].
  rewrite H1. cbn [mbind outcome_bind]. rewrite Hx1. cbn. eauto.
Qed.

Lemma FindStored_path (g : Graph) bri p l i fuel :
  dom_path g p l -> (length l < fuel)%nat ->
  exists o, FindStored fuel g bri p i = Done o /\
    forall r, o = Some r -> exists b, b ∈ l /\ stored bri b i = Some r.
Proof.
  intros H; revert fuel; induction H as [|b n l Hn Hl IH]; intros [|fuel] Hf; try (simpl in Hf; lia);
    cbn [FindStored].
  - by exists None.
  - destruct (stored bri b i) as [r|] eqn:E; [exists (Some r); split; [done|]; intros ? [= <-]; exists b; split; [left|done]|].
    unfold get_block. apply fmap_Some in Hn as (bb & -> & ->). cbn [mbind outcome_bind].
    destruct (IH fuel) as (o & -> & Ho); [simpl in Hf; lia|]. exists o. split; [done|].
    intros r Hr. destruct (Ho r Hr) as (b' & ? & ?). exists b'. split; [by right|done].
Qed.

(** A lookup always succeeds: it returns a recorded range, or one that holds
    for every value the instruction can have. *)
Lemma FindBoundsRange_cases (g : Graph) bri rho block bb i x :
  ir_wf g -> valuation g rho -> blocks g !! block = Some bb ->
  insts g !! i = Some x -> known_type (GetType x) = true ->
  exists r, FindBoundsRange g bri block i = Done r /\
    ((exists l b, dom_path g (Some block) l /\ b ∈ l /\ stored bri b i = Some r) \/
     (wf r /\ contains rho r (rho i))).
Proof.
  intros W V Hb Hx Ht. unfold FindBoundsRange, get_inst. rewrite Hx. cbn [mbind outcome_bind].
  destruct (decide (GetOpcode x = OpNullPtr)) as [E|E].
  { rewrite bool_decide_eq_true_2 by done. eexists; split; [done|right].
    rewrite (val_null g rho V i x) by done. unfold wf, contains, within; simpl. split; [lia|split; [lia|done]]. }
  rewrite bool_decide_eq_false_2 by done. destruct (IsInstNotNull x) eqn:En.
  { cbn. eexists; split; [done|right]. pose proof (val_notnull g rho V i x Hx En).
    unfold wf, contains, within; simpl. split; [lia|split; [lia|done]]. }
  destruct (wf_dom g W block) as [l Hl]; [by exists bb|].
  destruct (FindStored_path g bri (Some block) l i (S (S (size (blocks g)))) Hl) as (o & -> & Ho).
  { assert (length l <= size (blocks g))%nat by exact (links_size _ _ _ _ Hl). lia. }
  cbn [mbind outcome_bind]. destruct o as [r|].
  { destruct (Ho r eq_refl) as (b & Hin & Hst). exists r. split; [done|]. left. eauto. }
  clear Ho. destruct (Ir.IsConst x) eqn:Ec.
  { eexists; split; [done|right]. rewrite (val_const g rho V i x) by done. pose proof (i64_range (value_ x)) as R.
    unfold wf, contains, within, is_i64, GetIntValue in *; simpl. split; [lia|split; [lia|done]]. }
  destruct (IsLenArray_total g i x W Hx) as [len El]. rewrite El. cbn [mbind outcome_bind].
  destruct len.
  - pose proof (val_len g rho V i El). destruct (decide (GetOpcode x = OpLenArray)) as [Eo|Eo].
    + rewrite bool_decide_eq_true_2 by done.
      destruct (wf_len g W i x Hx Eo) as (i0 & a & xa & Hi0 & Ha & Hxa). unfold read. rewrite Hi0.
      cbn [mbind outcome_bind]. rewrite Ha. cbn [mbind outcome_bind]. rewrite Hxa. cbn [mbind outcome_bind].
      eexists; split; [done|right]. destruct (GetObjectTypeInfo xa) as [k|] eqn:Ek.
      * pose proof (val_max_len g rho V i x i0 a xa k Hx Eo Hi0 Ha Hxa Ek).
        unfold wf, contains, within; simpl. split; [lia|split; [lia|done]].
      * unfold wf, contains, within; simpl. split; [lia|split; [lia|done]].
    + rewrite bool_decide_eq_false_2 by done. eexists; split; [done|right].
      unfold wf, contains, within; simpl. split; [lia|split; [lia|done]].
  - unfold type_range. destruct (GetMin (GetType x)) as [mn| |] eqn:Emn;
      [|destruct (GetType x); discriminate Ht || discriminate Emn..].
    destruct (GetMax (GetType x)) as [mx| |] eqn:Emx;
      [|destruct (GetType x); discriminate Ht || discriminate Emx..].
    cbn [mbind outcome_bind]. eexists; split; [done|right].
    pose proof (val_type g rho V i x mn mx Hx Ht Emn Emx).
    assert (INT64_MIN <= mn /\ mx <= INT64_MAX) by (destruct (GetType x); simplify_eq/=; lia).
    unfold wf, contains, within; simpl. split; [lia|split; [lia|done]].
Qed.

Lemma FindBoundsRange_sound (g : Graph) bri rho block bb i x :
  ir_wf g -> valuation g rho -> info_sound g bri rho block -> blocks g !! block = Some bb ->
  insts g !! i = Some x -> known_type (GetType x) = true ->
  exists r, FindBoundsRange g bri block i = Done r /\ wf r /\ contains rho r (rho i).
Proof.
  intros W V Hs Hb Hx Ht.
  destruct (FindBoundsRange_cases g bri rho block bb i x) as (r & Hr & [(l & b & ? & ? & ?)|?]); eauto.
Qed.

(** The recorded ranges are well formed. *)
Definition info_wf (bri : BoundsRangeInfo) : Prop :=
  forall b i r, stored bri b i = Some r -> wf r.

Lemma FindBoundsRange_wf (g : Graph) bri rho block bb i x :
  ir_wf g -> valuation g rho -> info_wf bri -> blocks g !! block = Some bb ->
  insts g !! i = Some x -> known_type (GetType x) = true ->
  exists r, FindBoundsRange g bri block i = Done r /\ wf r.
Proof.
  intros W V Hs Hb Hx Ht.
  destruct (FindBoundsRange_cases g bri rho block bb i x) as (r & Hr & [(l & b & ? & ? & ?)|[? ?]]); eauto.
Qed.

(** Recording a range that holds adds at most one entry, which holds. *)
Lemma SetBoundsRange_entry (g : Graph) bri rho block i x r :
  valuation g rho -> insts g !! i = Some x -> wf r -> contains rho r (rho i) ->
  exists bri', SetBoundsRange g bri block i r = Done bri' /\
    forall b j r', stored bri' b j = Some r' ->
      stored bri b j = Some r' \/ (b = block /\ j = i /\ wf r' /\ contains rho r' (rho i)).
Proof.
  intros V Hx Hw Hc. unfold SetBoundsRange, get_inst. rewrite Hx. cbn [mbind outcome_bind].
  destruct (Ir.IsConst x && _) eqn:E1; [eexists; split; [done|]; auto|].
  set (r1 := if Ir.IsConst x then _ else r). cbv zeta.
  assert (H1 : wf r1 /\ contains rho r1 (rho i)).
  { unfold r1. destruct (Ir.IsConst x) eqn:Ec; [|done]. destruct Hc as [_ Hlen].
    rewrite (val_const g rho V i x) in * by done. pose proof (i64_range (value_ x)) as R.
    unfold wf, contains, within, is_i64, GetIntValue in *; simpl. split; [lia|split; [lia|done]]. }
  clearbody r1. unfold IsMaxRange. cbn [GetMin GetMax mbind outcome_bind].
  destruct (_ || _); [|eexists; split; [done|]; auto].
  eexists; split; [done|]. intros b j r' Hst. unfold stored in Hst |- *.
  destruct (decide (b = block)) as [->|Hne]; [|rewrite lookup_insert_ne in Hst by done; auto].
  rewrite lookup_insert_eq in Hst.
  change (<[i:=r1]> (default ∅ (bri !! block)) !! j = Some r') in Hst.
  destruct (decide (j = i)) as [->|Hne]; [rewrite lookup_insert_eq in Hst; injection Hst as <-; right; tauto|].
  rewrite lookup_insert_ne in Hst by done. left. destruct (bri !! block); [done|].
  change ((∅ : gmap InstId BoundsRange) !! j = Some r') in Hst. by rewrite lookup_empty in Hst.
Qed.

Lemma SetBoundsRange_sound (g : Graph) bri rho block i x r :
  valuation g rho -> insts g !! i = Some x -> wf r -> contains rho r (rho i) ->
  exists bri', SetBoundsRange g bri block i r = Done bri' /\
    forall b, info_sound g bri rho b -> info_sound g bri' rho b.
Proof.
  intros V Hx Hw Hc. destruct (SetBoundsRange_entry g bri rho block i x r V Hx Hw Hc) as (bri' & -> & H).
  exists bri'. split; [done|]. intros b Hs l b' j r' Hl Hin Hst.
  apply H in Hst as [Hst|(-> & -> & ? & ?)]; [by eapply Hs|done].
Qed.

(** Fitting a range with an array length into a type. *)
Lemma FitInType_contains (rho : InstId -> Z) (t : DataType) (b : BoundsRange) (o : option InstId) (e : Z) :
  bounded_type t = true -> covers b e ->
  (forall a, o = Some a -> 0 <= rho a /\ (wrap_type t e < rho a \/ (within b e /\ e < rho a))) ->
  exists r', FitInType (mkRange (left_ b) (right_ b) o) t = Done r' /\ wf r' /\
    contains rho r' (wrap_type t e).
Proof.
  intros Ht Hc Ho. destruct (FitInType_within b t e Ht Hc) as (r & Hr & Hin & Hwf).
  destruct (type_bounds t Ht) as (mn & mx & Emn & Emx & _ & _ & _ & Hid).
  unfold FitInType in *. rewrite Emn, Emx in *. cbn [mbind outcome_bind left_ right_] in *.
  destruct (_ || _) eqn:G; simplify_eq/=; (eexists; split; [done|]); (split; [done|]); (split; [done|]); [done|].
  intros a [= ->]. destruct (Ho a eq_refl) as [? [?|[Hw ?]]]; [done|]. split; [done|].
  rewrite Hid; [done|]. unfold within in Hw. rewrite !orb_false_iff, !Z.gtb_ltb, !Z.ltb_ge in G. lia.
Qed.

Lemma first_len_cases (b : BoundsRange) (cases : list (bool * option InstId)) :
  lenArray_ b = None ->
  exists o, first_len b cases = mkRange (left_ b) (right_ b) o /\
    forall a, o = Some a -> (true, Some a) ∈ cases.
Proof.
  intros Hb. induction cases as [|[g o] cases IH].
  - exists None. split; [|done]. cbn. destruct b; simpl in *; by subst.
  - destruct IH as (o' & E & Ho). destruct g, o as [a|]; cbn [first_len];
      try (exists o'; split; [exact E|]; intros a' H'; right; by apply Ho).
    exists (Some a). split; [done|]. intros ? [= <-]. left.
Qed.

Lemma not_max_within (b : BoundsRange) (t : DataType) (e : Z) :
  bounded_type t = true -> covers b e -> IsMaxRange b t = Done false -> within b e.
Proof.
  intros Ht [Hw| ->] Hm; [done|]. destruct (type_bounds t Ht) as (mn & mx & Emn & Emx & ? & ? & _).
  unfold IsMaxRange in Hm. rewrite Emn, Emx in Hm. cbn [mbind outcome_bind left_ right_ full range] in Hm.
  injection Hm as Hm. rewrite Z.geb_leb in Hm. apply andb_false_iff in Hm. rewrite !Z.leb_gt in Hm. lia.
Qed.

(** The interval operations carry no array length. *)
Lemma ops_no_len (a b : BoundsRange) :
  lenArray_ (Add a b) = None /\ lenArray_ (Sub a b) = None /\ lenArray_ (Mod a b) = None /\
  lenArray_ (Div a b) = None /\ lenArray_ (Mul a b) = None /\ lenArray_ (And a b) = None.
Proof.
  unfold Add, Sub, Mod, Div, Mul, And.
  repeat split; repeat (case_match; try done).
Qed.

(** * The values of the binary instructions *)
Definition binary_value (OPC : Opcode) (t : DataType) (x y : Z) : Z :=
  match OPC with
  | OpAdd => wrap_type t (x + y)
  | OpSub => wrap_type t (x - y)
  | OpMul => wrap_type t (x * y)
  | OpDiv => wrap_type t (Z.quot x y)
  | OpMod => wrap_type t (Z.rem x y)
  | OpAnd => wrap_type t (Z.land x y)
  | OpShl => shl_value t x y
  | OpShr => shr_value t x y
  | _ => ashr_value t x y
  end.

(** When the transfer function of an opcode is right: division needs a
    divisor, subtraction loses the least [int64_t], multiplication the pairs
    whose overflow goes unnoticed, and the remainder keeps the dividend's array
    length, which is wrong for a negative dividend and an empty array. *)
Definition operands_ok (OPC : Opcode) (t : DataType) (x y : Z) (r0 r1 : BoundsRange) : Prop :=
  match OPC with
  | OpSub => y <> INT64_MIN
  | OpMul => mul_bounds_ok r0 r1
  | OpDiv => wrap_type t x = x /\ y <> 0
  | OpMod => wrap_type t x = x /\ y <> 0 /\ (0 <= x \/ lenArray_ r0 = None)
  | OpShr | OpAShr => wrap_type t x = x
  | _ => True
  end.

Definition binary_opcode (OPC : Opcode) (t : DataType) : bool :=
  match OPC with
  | OpAdd | OpSub | OpMul | OpDiv | OpMod | OpAnd => bounded_type t
  | OpShl | OpShr | OpAShr => shift_type t
  | _ => false
  end.
(** ** Transfer functions, one opcode at a time *)
Section transfer.
  Context (g : Graph) (bri : BoundsRangeInfo) (rho : InstId -> Z) (x : Inst).
  Context (i0 i1 : InstId) (x0 x1 : Inst) (r0 r1 : BoundsRange).
  Context (W : ir_wf g) (V : valuation g rho).
  Context (Hi0 : insts g !! i0 = Some x0) (Hi1 : insts g !! i1 = Some x1).
  Context (Hrs : two_ranges g bri x = Done (i0, i1, r0, r1)).
  Context (Hw0 : wf r0) (Hw1 : wf r1).
  Context (Hc0 : contains rho r0 (rho i0)) (Hc1 : contains rho r1 (rho i1)).

Definition transfer_sound (r : outcome BoundsRange) (v : Z) : Prop :=
  exists q r', r = Done q /\ FitInType q (GetType x) = Done r' /\ wf r' /\ contains rho r' v.

Lemma len_cases (b : BoundsRange) (cases : list (bool * option InstId)) (e : Z) :
  bounded_type (GetType x) = true -> lenArray_ b = None -> covers b e ->
  (forall a, (true, Some a) ∈ cases ->
     0 <= rho a /\ (wrap_type (GetType x) e < rho a \/ (within b e /\ e < rho a))) ->
  transfer_sound (Done (first_len b cases)) (wrap_type (GetType x) e).
Proof.
  intros Ht Hb Hc Ha. destruct (first_len_cases b cases Hb) as (o & E & Ho).
  destruct (FitInType_contains rho (GetType x) b o e Ht Hc) as (r' & Hr & Hwf & Hcr); [by auto|].
  exists (first_len b cases), r'. by rewrite E.
Qed.

Lemma plain_case (b : BoundsRange) (e : Z) :
  bounded_type (GetType x) = true -> lenArray_ b = None -> covers b e ->
  transfer_sound (Done b) (wrap_type (GetType x) e).
Proof. intros. apply (len_cases b [] e); [done..|]. intros a H'. by apply elem_of_nil in H'. Qed.

(** The values behind the guards of the length rules. *)
Lemma guard_le0 (r : BoundsRange) (v : Z) :
  contains rho r v -> IsMoreOrEqual (const_range 0) r = true -> v <= 0.
Proof. unfold contains, within, IsMoreOrEqual. simpl. lia. Qed.

Lemma type_is_in (t : DataType) (e : Z) mn mx :
  bounded_type t = true -> GetMin t = Done mn -> GetMax t = Done mx -> mn <= e <= mx -> wrap_type t e = e.
Proof.
  intros Ht Emn Emx He. destruct (type_bounds t Ht) as (? & ? & E1 & E2 & _ & _ & _ & Hid).
  rewrite E1 in Emn. rewrite E2 in Emx. simplify_eq. by apply Hid.
Qed.

Ltac start := unfold CalcNewBoundsRangeAdd, CalcNewBoundsRangeSub, CalcNewBoundsRangeMod,
    CalcNewBoundsRangeMul, CalcNewBoundsRangeDiv, CalcNewBoundsRangeAnd, CalcNewBoundsRangeShl,
    CalcNewBoundsRangeShr, CalcNewBoundsRangeAShr;
  rewrite Hrs; cbn [mbind outcome_bind]; cbv zeta.

Lemma len_bool0 : exists b, IsLenArray g i0 = Done b /\ (b = true -> 0 <= rho i0).
Proof.
  destruct (IsLenArray_total g i0 x0 W Hi0) as [b E]. exists b. split; [done|]. intros ->.
  pose proof (val_len g rho V i0 E). lia.
Qed.
Lemma len_bool1 : exists b, IsLenArray g i1 = Done b /\ (b = true -> 0 <= rho i1).
Proof.
  destruct (IsLenArray_total g i1 x1 W Hi1) as [b E]. exists b. split; [done|]. intros ->.
  pose proof (val_len g rho V i1 E). lia.
Qed.

Lemma IsMaxRange_total (r : BoundsRange) (t : DataType) :
  bounded_type t = true -> exists b, IsMaxRange r t = Done b.
Proof.
  intros Ht. destruct (type_bounds t Ht) as (mn & mx & E1 & E2 & _). unfold IsMaxRange.
  rewrite E1, E2. cbn. eauto.
Qed.

Lemma Add_transfer :
  bounded_type (GetType x) = true ->
  transfer_sound (CalcNewBoundsRangeAdd g bri x) (binary_value OpAdd (GetType x) (rho i0) (rho i1)).
Proof.
  intros Ht. start. destruct (IsMaxRange_total (Add r0 r1) (GetType x) Ht) as [m Em]. rewrite Em.
  destruct len_bool0 as (b0 & -> & N0). destruct len_bool1 as (b1 & -> & N1). cbn [mbind outcome_bind].
  destruct Hc0 as [H0 L0], Hc1 as [H1 L1].
  destruct (Add_covers r0 r1 (rho i0) (rho i1) Hw0 Hw1 H0 H1) as [Hc _].
  destruct m; [by apply plain_case; [|apply ops_no_len|]|].
  apply len_cases; [done|apply ops_no_len|done|]. intros a Ha.
  pose proof (not_max_within _ _ _ Ht Hc Em) as Hin. unfold within in H0, H1.
  rewrite !elem_of_cons in Ha.
  destruct Ha as [[= G E]|[[= G E]|[[= G ->]|[[= G ->]|Ha%elem_of_nil]]]]; [| | | |done].
  - destruct (L0 a ltac:(done)). unfold IsMoreOrEqual in G. simpl in G. split; [done|right; split; [done|lia]].
  - destruct (L1 a ltac:(done)). unfold IsMoreOrEqual in G. simpl in G. split; [done|right; split; [done|lia]].
  - unfold IsNegative in G. symmetry in G. apply andb_true_iff in G as [-> ?]. split; [auto|right; split; [done|lia]].
  - unfold IsNegative in G. symmetry in G. apply andb_true_iff in G as [-> ?]. split; [auto|right; split; [done|lia]].
Qed.

Lemma Sub_transfer :
  bounded_type (GetType x) = true -> rho i1 <> INT64_MIN ->
  transfer_sound (CalcNewBoundsRangeSub g bri x) (binary_value OpSub (GetType x) (rho i0) (rho i1)).
Proof.
  intros Ht Hmin. start. destruct (IsMaxRange_total (Sub r0 r1) (GetType x) Ht) as [m Em]. rewrite Em.
  destruct len_bool0 as (b0 & -> & N0). cbn [mbind outcome_bind].
  destruct Hc0 as [H0 L0], Hc1 as [H1 L1].
  destruct (Sub_covers r0 r1 (rho i0) (rho i1) Hw0 Hw1 H0 H1 Hmin) as [Hc _].
  destruct m; [by apply plain_case; [|apply ops_no_len|]|].
  apply len_cases; [done|apply ops_no_len|done|]. intros a Ha.
  pose proof (not_max_within _ _ _ Ht Hc Em) as Hin. unfold within in H0, H1.
  rewrite !elem_of_cons in Ha. destruct Ha as [[= G E]|[[= G ->]|Ha%elem_of_nil]]; [| |done].
  - destruct (L0 a ltac:(done)). unfold IsNotNegative in G. split; [done|right; split; [done|lia]].
  - unfold IsMore in G. simpl in G. symmetry in G. apply andb_true_iff in G as [-> ?].
    split; [auto|right; split; [done|lia]].
Qed.

Lemma Mul_transfer :
  bounded_type (GetType x) = true -> mul_bounds_ok r0 r1 ->
  transfer_sound (CalcNewBoundsRangeMul g bri x) (binary_value OpMul (GetType x) (rho i0) (rho i1)).
Proof.
  intros Ht Hm. start. unfold IsMaxRange. cbn [GetMin GetMax mbind outcome_bind].
  destruct Hc0 as [H0 L0], Hc1 as [H1 L1]. destruct (_ || _).
  - apply plain_case; [done|apply ops_no_len|]. by apply Mul_covers.
  - by apply plain_case; [|done|apply covers_full].
Qed.

Lemma And_transfer :
  bounded_type (GetType x) = true ->
  transfer_sound (CalcNewBoundsRangeAnd g bri x) (binary_value OpAnd (GetType x) (rho i0) (rho i1)).
Proof.
  intros Ht. start. destruct Hc1 as [H1 L1]. apply plain_case; [done|apply ops_no_len|].
  by apply And_covers.
Qed.

(** A value between a value of the type and zero is one of the type. *)
Lemma toward_zero (t : DataType) (v e : Z) :
  bounded_type t = true -> wrap_type t v = v -> (0 <= v -> 0 <= e <= v) -> (v <= 0 -> v <= e <= 0) ->
  wrap_type t e = e.
Proof.
  intros Ht Hv Hp Hn. destruct (type_bounds t Ht) as (mn & mx & _ & _ & ? & ? & Hin & Hid).
  specialize (Hin v). rewrite Hv in Hin. apply Hid. lia.
Qed.

Lemma rem_toward_zero (v y : Z) : y <> 0 ->
  (0 <= v -> 0 <= Z.rem v y <= v) /\ (v <= 0 -> v <= Z.rem v y <= 0).
Proof.
  intros Hy. split; intros.
  - pose proof (Z.rem_nonneg v (Z.abs y) ltac:(lia) ltac:(lia)).
    pose proof (Z.rem_le v (Z.abs y) ltac:(lia) ltac:(lia)). rewrite Z.rem_abs_r in * by lia. lia.
  - pose proof (Z.rem_nonneg (- v) (Z.abs y) ltac:(lia) ltac:(lia)).
    pose proof (Z.rem_le (- v) (Z.abs y) ltac:(lia) ltac:(lia)).
    rewrite Z.rem_opp_l, Z.rem_abs_r in * by lia. lia.
Qed.

Lemma Mod_transfer :
  bounded_type (GetType x) = true -> wrap_type (GetType x) (rho i0) = rho i0 ->
  rho i1 <> 0 -> 0 <= rho i0 \/ lenArray_ r0 = None ->
  transfer_sound (CalcNewBoundsRangeMod g bri x) (binary_value OpMod (GetType x) (rho i0) (rho i1)).
Proof.
  intros Ht Hin0 Hy Hlen. start. destruct len_bool1 as (b1 & -> & N1). cbn [mbind outcome_bind].
  destruct Hc0 as [H0 L0], Hc1 as [H1 L1].
  destruct (rem_toward_zero (rho i0) (rho i1) Hy) as [Rp Rn].
  pose proof (toward_zero _ _ _ Ht Hin0 Rp Rn) as Hid. unfold binary_value.
  pose proof (Z.rem_bound_abs (rho i0) (rho i1) Hy) as Hab.
  apply len_cases; [done|apply ops_no_len|by apply Mod_covers|]. rewrite Hid. intros a Ha.
  unfold within in H0, H1. rewrite !elem_of_cons in Ha.
  destruct Ha as [[= G E]|[[= E]|[[= G ->]|Ha%elem_of_nil]]]; [| | |done].
  - destruct (L1 a ltac:(done)). unfold IsNotNegative in G. split; [done|left; lia].
  - destruct (L0 a ltac:(done)). destruct Hlen as [Hlen|Hlen]; [|congruence]. split; [done|left; lia].
  - specialize (N1 ltac:(done)). split; [done|left; lia].
Qed.

Lemma Div_transfer :
  bounded_type (GetType x) = true -> wrap_type (GetType x) (rho i0) = rho i0 -> rho i1 <> 0 ->
  transfer_sound (CalcNewBoundsRangeDiv g bri x) (binary_value OpDiv (GetType x) (rho i0) (rho i1)).
Proof.
  intros Ht Hin0 Hy. start. destruct Hc0 as [H0 L0], Hc1 as [H1 L1]. unfold binary_value.
  apply len_cases; [done|apply ops_no_len|by apply Div_covers|]. intros a Ha.
  unfold within in H0, H1. rewrite !elem_of_cons in Ha. destruct Ha as [[= G E]|Ha%elem_of_nil]; [|done].
  destruct (L0 a ltac:(done)). symmetry in G. apply andb_true_iff in G as [G0 G1].
  unfold IsNotNegative in G0, G1. assert (0 <= rho i0) by lia. assert (0 < rho i1) by lia.
  assert (0 <= Z.quot (rho i0) (rho i1) <= rho i0).
  { split; [apply Z.quot_pos; lia|]. apply Z.quot_le_upper_bound; nia. }
  split; [done|left]. rewrite (toward_zero _ (rho i0)); [lia|done..|lia|lia].
Qed.
(** A length may be added to a range that already fits. *)
Lemma fit_len (b r' : BoundsRange) (cases : list (bool * option InstId)) (v : Z) :
  lenArray_ b = None -> FitInType b (GetType x) = Done r' -> wf r' -> within r' v ->
  (forall a, (true, Some a) ∈ cases -> 0 <= rho a /\ v < rho a) ->
  transfer_sound (Done (first_len b cases)) v.
Proof.
  intros Hb Hfit Hwf Hin Ha. destruct (first_len_cases b cases Hb) as (o & -> & Ho).
  unfold transfer_sound, FitInType in *. destruct (GetMin (GetType x)) as [mn| |]; try done.
  destruct (GetMax (GetType x)) as [mx| |]; try done. cbn [mbind outcome_bind left_ right_] in *.
  injection Hfit as <-. eexists _, _. split; [done|]. split; [done|].
  destruct (_ || _); (split; [done|]); (split; [done|]); [done|]. intros a E. by apply Ha, Ho.
Qed.

Lemma shift_no_len (a b q : BoundsRange) (t : DataType) :
  (Shr a b t = Done q -> lenArray_ q = None) /\ (AShr a b t = Done q -> lenArray_ q = None) /\
  (Shl a b t = Done q -> lenArray_ q = None).
Proof.
  unfold Shr, AShr, Shl. destruct (negb _ || _); [repeat split; intros [= <-]; done|].
  destruct (GetTypeSize t ARCH_NONE) as [size| |]; try done. cbn [mbind outcome_bind]. cbv zeta.
  split; [|split].
  - destruct (FitInType a t) as [n| |]; try done. cbn [mbind outcome_bind]. by case_match; intros [= <-].
  - by intros [= <-].
  - by case_match; intros [= <-].
Qed.

Lemma Shl_transfer :
  shift_type (GetType x) = true ->
  transfer_sound (CalcNewBoundsRangeShl g bri x) (binary_value OpShl (GetType x) (rho i0) (rho i1)).
Proof.
  intros Ht. start. destruct Hc0 as [H0 _], Hc1 as [H1 _].
  destruct (Shl_sound r0 r1 (GetType x) (rho i0) (rho i1) Ht Hw0 Hw1 H0 H1) as (q & r' & E & _ & Hf & Hwf & Hin).
  rewrite E. apply (fit_len q r' []); [exact (proj2 (proj2 (shift_no_len r0 r1 q (GetType x))) E)|done..|].
  intros a Ha. by apply elem_of_nil in Ha.
Qed.

Lemma Shr_transfer :
  shift_type (GetType x) = true -> wrap_type (GetType x) (rho i0) = rho i0 ->
  transfer_sound (CalcNewBoundsRangeShr g bri x) (binary_value OpShr (GetType x) (rho i0) (rho i1)).
Proof.
  intros Ht Hid. start. destruct Hc0 as [H0 L0], Hc1 as [H1 _].
  destruct (Shr_sound r0 r1 (GetType x) (rho i0) (rho i1) Ht Hw0 Hw1 H0 H1 Hid) as (q & r' & E & _ & Hf & Hwf & Hin).
  rewrite E. cbn [mbind outcome_bind]. apply (fit_len q r'); [exact (proj1 (shift_no_len r0 r1 q (GetType x)) E)|done..|].
  intros a Ha. apply elem_of_cons in Ha as [[= G Ea]|Ha%elem_of_nil]; [|done].
  destruct (L0 a ltac:(done)). split; [done|]. unfold IsNotNegative, within in *.
  assert (0 <= rho i0) by lia. unfold binary_value, shr_value.
  pose proof (shift_type_bounded _ Ht) as Hb.
  destruct (type_bounds _ Hb) as (mn & mx & Emn & Emx & _ & _ & Hin' & _). specialize (Hin' (rho i0)).
  rewrite Hid in Hin'.
  assert (wrapu (width (GetType x)) (rho i0) = rho i0) as ->.
  { apply wrapu_id. unfold in_u. destruct (GetType x); try discriminate Ht; simplify_eq/=; lia. }
  assert (0 <= rho i1 mod width (GetType x)).
  { apply Z.mod_pos_bound. destruct (GetType x); simpl; lia. }
  destruct (shiftr_abs_le (rho i0) (rho i1 mod width (GetType x))) as [Hle _]; [done|].
  rewrite (toward_zero _ (rho i0)); [lia|done..|lia].
Qed.

Lemma AShr_transfer :
  shift_type (GetType x) = true -> wrap_type (GetType x) (rho i0) = rho i0 ->
  transfer_sound (CalcNewBoundsRangeAShr g bri x) (binary_value OpAShr (GetType x) (rho i0) (rho i1)).
Proof.
  intros Ht Hid. start. destruct Hc0 as [H0 L0], Hc1 as [H1 _].
  destruct (AShr_sound r0 r1 (GetType x) (rho i0) (rho i1) Ht Hw0 Hw1 H0 H1) as (q & r' & E & _ & Hf & Hwf & Hin).
  rewrite E. cbn [mbind outcome_bind]. apply (fit_len q r'); [exact (proj1 (proj2 (shift_no_len r0 r1 q (GetType x))) E)|done..|].
  intros a Ha. apply elem_of_cons in Ha as [[= Ea]|Ha%elem_of_nil]; [|done].
  destruct (L0 a ltac:(done)). split; [done|]. unfold binary_value, ashr_value.
  pose proof (shift_type_bounded _ Ht) as Hb.
  assert (0 <= rho i1 mod width (GetType x)).
  { apply Z.mod_pos_bound. destruct (GetType x); simpl; lia. }
  destruct (shiftr_abs_le (rho i0) (rho i1 mod width (GetType x))) as [Hle Hlt]; [done|].
  rewrite (toward_zero _ (rho i0)); [lia|done|done|lia|]. intros. destruct (Z.eq_dec (rho i0) 0); lia.
Qed.

(** Every binary transfer function. *)
Lemma binary_transfer (OPC : Opcode) :
  binary_opcode OPC (GetType x) = true -> operands_ok OPC (GetType x) (rho i0) (rho i1) r0 r1 ->
  transfer_sound (match OPC with
         | OpAdd => CalcNewBoundsRangeAdd g bri x
         | OpSub => CalcNewBoundsRangeSub g bri x
         | OpMod => CalcNewBoundsRangeMod g bri x
         | OpMul => CalcNewBoundsRangeMul g bri x
         | OpDiv => CalcNewBoundsRangeDiv g bri x
         | OpShr => CalcNewBoundsRangeShr g bri x
         | OpAShr => CalcNewBoundsRangeAShr g bri x
         | OpShl => CalcNewBoundsRangeShl g bri x
         | OpAnd => CalcNewBoundsRangeAnd g bri x
         | _ => Crash
         end) (binary_value OPC (GetType x) (rho i0) (rho i1)).
Proof.
  destruct OPC; try discriminate; intros Ht Hok; cbn [binary_opcode operands_ok] in *; destruct_and?.
  - by apply Add_transfer.
  - by apply Sub_transfer.
  - by apply Mul_transfer.
  - by apply Div_transfer.
  - by apply Mod_transfer.
  - by apply Shl_transfer.
  - by apply Shr_transfer.
  - by apply AShr_transfer.
  - by apply And_transfer.
Qed.
End transfer.

Lemma binary_opcode_bounded (OPC : Opcode) (t : DataType) :
  binary_opcode OPC t = true -> bounded_type t = true.
Proof. destruct OPC; try discriminate; cbn [binary_opcode]; auto using shift_type_bounded. Qed.

Lemma bounded_known (t : DataType) : bounded_type t = true -> known_type t = true.
Proof. unfold known_type. by intros ->. Qed.

Lemma bounded_not_ref (t : DataType) :
  bounded_type t = true -> IsFloatType t || (t == REFERENCE) = false /\ t <> UINT64.
Proof. by destruct t. Qed.
(** * The visitors keep the recorded ranges sound *)
(** C2: visiting a binary instruction (addition, subtraction, multiplication,
    division, remainder, conjunction or shift) terminates and keeps the recorded
    ranges sound: if every instruction's value is in the range known for it,
    so is the value the instruction computes, wrap-around included.  The types of the
    operands and of the result are integer types other than UINT64, for shifts not BOOL
    either.  What [operands_ok] asks is needed, as the functions are not right otherwise: the
    subtrahend is not INT64_MIN, no pair of bounds of the factors is INT64_MIN and -1, the
    divisor is not 0, dividend and shifted value are values of the type, and the remainder has
    a dividend that is not negative or whose range has no array length. *)
Theorem CalcNewBoundsRangeBinary_sound (OPC : Opcode) (g : Graph) bri rho inst x bb i0 i1 x0 x1 :
  ir_wf g -> valuation g rho -> insts g !! inst = Some x -> blocks g !! GetBasicBlock x = Some bb ->
  info_sound g bri rho (GetBasicBlock x) ->
  two_inputs g x = Done (i0, i1) -> insts g !! i0 = Some x0 -> insts g !! i1 = Some x1 ->
  bounded_type (GetType x0) = true -> bounded_type (GetType x1) = true ->
  binary_opcode OPC (GetType x) = true ->
  (forall r0 r1, FindBoundsRange g bri (GetBasicBlock x) i0 = Done r0 ->
     FindBoundsRange g bri (GetBasicBlock x) i1 = Done r1 ->
     operands_ok OPC (GetType x) (rho i0) (rho i1) r0 r1) ->
  rho inst = binary_value OPC (GetType x) (rho i0) (rho i1) ->
  exists bri', CalcNewBoundsRangeBinary OPC g bri inst = Done bri' /\
    forall b, info_sound g bri rho b -> info_sound g bri' rho b.
Proof.
  intros W V Hx Hb Hs Hin H0 H1 T0 T1 Hop Hok Hv.
  destruct (FindBoundsRange_sound g bri rho _ bb i0 x0 W V Hs Hb H0 (bounded_known _ T0)) as (r0 & F0 & W0 & C0).
  destruct (FindBoundsRange_sound g bri rho _ bb i1 x1 W V Hs Hb H1 (bounded_known _ T1)) as (r1 & F1 & W1 & C1).
  assert (Hrs : two_ranges g bri x = Done (i0, i1, r0, r1)).
  { unfold two_ranges. rewrite Hin. cbn [mbind outcome_bind]. rewrite F0. cbn [mbind outcome_bind]. by rewrite F1. }
  unfold CalcNewBoundsRangeBinary, get_inst. rewrite Hx. cbn [mbind outcome_bind].
  destruct (bounded_not_ref _ (binary_opcode_bounded OPC _ Hop)) as [-> _].
  assert (CheckBoundsRange g bri x = Done true) as ->.
  { unfold CheckBoundsRange, get_inst. rewrite Hrs. cbn [mbind outcome_bind]. rewrite H0, H1.
    cbn [mbind outcome_bind IsMaxRange GetMin GetMax].
    rewrite (bool_decide_eq_false_2 (GetType x0 = UINT64)), (bool_decide_eq_false_2 (GetType x1 = UINT64));
      [done|by apply bounded_not_ref..]. }
  cbn [mbind outcome_bind].
  destruct (binary_transfer g bri rho x i0 i1 x0 x1 r0 r1 W V H0 H1 Hrs W0 W1 C0 C1 OPC Hop (Hok r0 r1 F0 F1))
    as (q & r' & -> & Hf & Hw & Hc).
  cbn [mbind outcome_bind]. rewrite Hf. cbn [mbind outcome_bind].
  apply (SetBoundsRange_sound g bri rho _ inst x r' V Hx Hw). by rewrite Hv.
Qed.

(** The values of the unary instructions. *)
Definition unary_value (OPC : Opcode) (t : DataType) (x : Z) : Z :=
  match OPC with OpNeg => wrap_type t (- x) | _ => wrap_type t (Z.abs x) end.

(** Visiting a negation or an absolute value terminates and keeps the
    recorded ranges sound, for an operand other than the least 64-bit value. *)
Theorem CalcNewBoundsRangeUnary_sound (OPC : Opcode) (g : Graph) bri rho inst x bb i0 x0 :
  ir_wf g -> valuation g rho -> insts g !! inst = Some x -> blocks g !! GetBasicBlock x = Some bb ->
  info_sound g bri rho (GetBasicBlock x) ->
  GetInputs x !! 0%nat = Some i0 -> insts g !! i0 = Some x0 -> bounded_type (GetType x0) = true ->
  bounded_type (GetType x) = true -> (OPC = OpNeg \/ OPC = OpAbs) -> rho i0 <> INT64_MIN ->
  rho inst = unary_value OPC (GetType x) (rho i0) ->
  exists bri', CalcNewBoundsRangeUnary OPC g bri inst = Done bri' /\
    forall b, info_sound g bri rho b -> info_sound g bri' rho b.
Proof.
  intros W V Hx Hb Hs Hin H0 T0 Ht Hop Hmin Hv.
  destruct (FindBoundsRange_sound g bri rho _ bb i0 x0 W V Hs Hb H0 (bounded_known _ T0)) as (r0 & F0 & W0 & C0 & _).
  unfold CalcNewBoundsRangeUnary, get_inst, read. rewrite Hx. cbn [mbind outcome_bind].
  destruct (bounded_not_ref _ Ht) as [-> _]. rewrite Hin. cbn [mbind outcome_bind]. rewrite F0. cbn [mbind outcome_bind].
  assert (Hfit : forall b e, lenArray_ b = None -> covers b e -> exists r', FitInType b (GetType x) = Done r' /\
    wf r' /\ contains rho r' (wrap_type (GetType x) e)).
  { intros b e Hl Hc. destruct (FitInType_contains rho (GetType x) b None e Ht Hc) as (r' & Hr & ?); [done|].
    exists r'. split; [|done]. rewrite <- Hr. f_equal. destruct b; simpl in *; by subst. }
  destruct Hop as [-> | ->]; cbn [mbind outcome_bind unary_value] in *.
  - destruct (Hfit (Neg r0) (- rho i0)) as (r' & -> & Hw & Hc); [done|by apply Neg_covers|].
    cbn [mbind outcome_bind]. apply (SetBoundsRange_sound g bri rho _ inst x r' V Hx Hw). by rewrite Hv.
  - destruct (Hfit (Abs r0) (Z.abs (rho i0))) as (r' & -> & Hw & Hc); [done|by apply Abs_covers|].
    cbn [mbind outcome_bind]. apply (SetBoundsRange_sound g bri rho _ inst x r' V Hx Hw). by rewrite Hv.
Qed.

(** A value of its own type stays in a range fitted into the type. *)
Lemma FitInType_own (rho : InstId -> Z) (r : BoundsRange) (t : DataType) (v mn mx : Z) :
  known_type t = true -> GetMin t = Done mn -> GetMax t = Done mx -> mn <= v <= mx ->
  wf r -> contains rho r v ->
  exists r', FitInType r t = Done r' /\ wf r' /\ contains rho r' v.
Proof.
  intros Ht Emn Emx Hv Hw Hc. unfold FitInType. rewrite Emn, Emx. cbn [mbind outcome_bind].
  eexists; split; [done|]. destruct (_ || _); [|done].
  assert (INT64_MIN <= mn /\ mx <= INT64_MAX) by (destruct t; simplify_eq/=; lia).
  unfold wf, contains, within; simpl. split; [lia|split; [lia|done]].
Qed.

Lemma known_bounds (t : DataType) : known_type t = true -> exists mn mx, GetMin t = Done mn /\ GetMax t = Done mx.
Proof. destruct t; try discriminate; cbn; eauto. Qed.

Lemma SetLenArray_contains (rho : InstId -> Z) (r : BoundsRange) (v : Z) (a : InstId) :
  within r v -> 0 <= rho a -> v < rho a -> contains rho (SetLenArray r a) v.
Proof. intros Hw ? ?. split; [exact Hw|]. by intros ? [= <-]. Qed.
Lemma len_nonneg (g : Graph) rho i : valuation g rho -> IsLenArray g i = Done true -> 0 <= rho i.
Proof. intros V E. pose proof (val_len g rho V i E). lia. Qed.

(** The length chosen after a comparison is above the value. *)
Lemma compare_lens (g : Graph) rho cc left right lr rr r1 r2 bl br :
  valuation g rho -> IsLenArray g left = Done bl -> IsLenArray g right = Done br ->
  contains rho lr (rho left) -> contains rho rr (rho right) ->
  wf r1 -> wf r2 -> within r1 (rho left) -> within r2 (rho right) -> cc_holds cc (rho left) (rho right) ->
  lenArray_ r1 = None \/ lenArray_ r1 = lenArray_ lr -> lenArray_ r2 = None \/ lenArray_ r2 = lenArray_ rr ->
  let '(q1, q2) :=
    if (cc == CC_LT) && br then (SetLenArray r1 right, r2)
    else if (cc == CC_GT) && bl then (r1, SetLenArray r2 left)
    else match lenArray_ lr, lenArray_ rr with
         | Some l, _ => (SetLenArray r1 l, r2)
         | None, Some l => (r1, SetLenArray r2 l)
         | None, None => (r1, r2)
         end in
  wf q1 /\ wf q2 /\ contains rho q1 (rho left) /\ contains rho q2 (rho right).
Proof.
  intros V El Er [Hl Ll] [Hr Lr] W1 W2 I1 I2 Hcc N1 N2.
  assert (C1 : contains rho r1 (rho left)) by (split; [done|]; intros a Ha; apply Ll; destruct N1; congruence).
  assert (C2 : contains rho r2 (rho right)) by (split; [done|]; intros a Ha; apply Lr; destruct N2; congruence).
  assert (Hset : forall r a, wf r -> wf (SetLenArray r a)) by done.
  destruct ((cc == CC_LT) && br) eqn:E1; [|destruct ((cc == CC_GT) && bl) eqn:E2].
  - apply andb_true_iff in E1 as [->%bool_decide_eq_true_1 ->]. cbn in Hcc.
    pose proof (len_nonneg g rho right V Er). auto using SetLenArray_contains.
  - apply andb_true_iff in E2 as [->%bool_decide_eq_true_1 ->]. cbn in Hcc.
    pose proof (len_nonneg g rho left V El). assert (rho right < rho left) by lia.
    auto using SetLenArray_contains.
  - destruct (lenArray_ lr) as [l|] eqn:Ell; [|destruct (lenArray_ rr) as [l|] eqn:Err; [|auto]].
    + destruct (Ll l eq_refl). auto using SetLenArray_contains.
    + destruct (Lr l eq_refl). auto using SetLenArray_contains.
Qed.

(** Narrowing keeps or drops an array length, it never invents one. *)
Lemma narrow_lens (cc : ConditionCode) (a b : BoundsRange) :
  let '(a', b') := TryNarrowBoundsByCC cc (a, b) in
  (lenArray_ a' = None \/ lenArray_ a' = lenArray_ a) /\ (lenArray_ b' = None \/ lenArray_ b' = lenArray_ b).
Proof.
  unfold TryNarrowBoundsByCC, NarrowBoundsByNE, NarrowBoundsCase1, NarrowBoundsCase2, NarrowBoundsCase3,
    NarrowBoundsCase4, NarrowBoundsCase5, NarrowBoundsCase6.
  destruct (cc == CC_NE); repeat case_match; simplify_eq/=; auto.
Qed.

(** C19: on the edge of a branch where [left cc right] holds, the ranges recorded
    for the target block hold.  The operands have integer types other than UINT64 or are
    references and are compared as 64-bit values; for the unsigned codes B, BE, A and AE both
    must not be negative, as the code narrows by them as if they were signed
    ([narrow_unsigned_unsound]). *)
Theorem CalcNewBoundsRangeForCompare_sound (g : Graph) bri rho block bb cc left right xl xr tgt bt lt :
  ir_wf g -> valuation g rho -> blocks g !! block = Some bb -> info_sound g bri rho block ->
  insts g !! left = Some xl -> insts g !! right = Some xr ->
  known_type (GetType xl) = true -> known_type (GetType xr) = true ->
  blocks g !! tgt = Some bt -> loops g !! GetLoop bt = Some lt ->
  Compare 64 cc (rho left) (rho right) = true ->
  (IsUnsignedConditionCode cc = true -> 0 <= rho left /\ 0 <= rho right) ->
  exists bri', CalcNewBoundsRangeForCompare g bri block cc left right tgt = Done bri' /\
    forall b, info_sound g bri rho b -> info_sound g bri' rho b.
Proof.
  intros W V Hb Hs Hl Hr Tl Tr Ht Hlt Hcmp Hu.
  destruct (FindBoundsRange_sound g bri rho block bb left xl W V Hs Hb Hl Tl) as (lr & F0 & W0 & C0).
  destruct (FindBoundsRange_sound g bri rho block bb right xr W V Hs Hb Hr Tr) as (rr & F1 & W1 & C1).
  unfold CalcNewBoundsRangeForCompare. rewrite F0, F1. cbn [mbind outcome_bind].
  assert (exists ok, CheckTriangleCase g block tgt = Done ok) as [ok ->].
  { unfold CheckTriangleCase, get_block, get_loop. rewrite Ht. cbn [mbind outcome_bind]. rewrite Hlt.
    cbn [mbind outcome_bind]. repeat case_match; eauto. }
  cbn [mbind outcome_bind]. destruct ok; cbn [negb]; [|eexists; split; [done|]; auto].
  assert (Hcc : cc_holds cc (rho left) (rho right)).
  { destruct C0 as [C0 _], C1 as [C1 _]. unfold wf, within in *.
    apply Compare_cc_holds; unfold is_i64; auto; lia. }
  pose proof (TryNarrow_within cc lr rr _ _ W0 W1 (proj1 C0) (proj1 C1) Hcc) as Hn.
  pose proof (narrow_lens cc lr rr) as Hlen.
  destruct (TryNarrowBoundsByCC cc (lr, rr)) as [r1 r2]. destruct Hn as (I1 & I2 & Wn1 & Wn2). destruct Hlen as [N1 N2].
  destruct (IsLenArray_total g right xr W Hr) as [br Er]. destruct (IsLenArray_total g left xl W Hl) as [bl El].
  rewrite Er, El. cbn [mbind outcome_bind].
  pose proof (compare_lens g rho cc left right lr rr r1 r2 bl br V El Er C0 C1 Wn1 Wn2 I1 I2 Hcc N1 N2) as Hq.
  destruct (if (cc == CC_LT) && br then _ else _) as [q1 q2]. destruct Hq as (Wq1 & Wq2 & Cq1 & Cq2).
  unfold get_inst. rewrite Hl, Hr. cbn [mbind outcome_bind].
  destruct (known_bounds _ Tl) as (mn & mx & Emn & Emx). destruct (known_bounds _ Tr) as (mn2 & mx2 & Emn2 & Emx2).
  destruct (FitInType_own rho q1 _ (rho left) mn mx Tl Emn Emx) as (f1 & -> & Wf1 & Cf1); auto.
  { by eapply val_type. }
  destruct (FitInType_own rho q2 _ (rho right) mn2 mx2 Tr Emn2 Emx2) as (f2 & -> & Wf2 & Cf2); auto.
  { by eapply val_type. }
  cbn [mbind outcome_bind].
  destruct (SetBoundsRange_sound g bri rho tgt left xl f1 V Hl Wf1 Cf1) as (bri1 & -> & S1).
  cbn [mbind outcome_bind].
  destruct (SetBoundsRange_sound g bri1 rho tgt right xr f2 V Hr Wf2 Cf2) as (bri2 & -> & S2).
  eexists; split; [done|]. auto.
Qed.
(** ** Division by a power of two, as shifts *)
(** The sequence ashr, shr, add, ashr is the truncating division. *)
Lemma shifts_are_division (w n v : Z) :
  0 < n < w -> in_s w v ->
  Z.shiftr (v + Z.shiftr (wrapu w (Z.shiftr v (w - 1))) (w - n)) n = Z.quot v (2 ^ n).
Proof.
  intros Hn Hv. unfold in_s in Hv. pose proof (pow2_pos n ltac:(lia)). pose proof (pow2_pos (w - 1) ltac:(lia)).
  assert (Pw : 2 ^ (w - n) * 2 ^ n = 2 ^ w) by (rewrite <- Z.pow_add_r by lia; f_equal; lia).
  rewrite !Z.shiftr_div_pow2 by lia. destruct (Z.lt_ge_cases v 0) as [Hneg|Hpos].
  - assert (v / 2 ^ (w - 1) = -1) as -> by (symmetry; apply Z.div_unique with (v + 2 ^ (w - 1)); lia).
    assert (wrapu w (-1) = 2 ^ w - 1) as ->.
    { unfold wrapu. symmetry. apply Z.mod_unique with (-1); [|lia]. pose proof (pow2_pos w ltac:(lia)). lia. }
    pose proof (pow2_pos (w - n) ltac:(lia)).
    assert ((2 ^ w - 1) / 2 ^ (w - n) = 2 ^ n - 1) as ->
      by (symmetry; apply Z.div_unique with (2 ^ (w - n) - 1); nia).
    rewrite <- (Z.opp_involutive v) at 2. rewrite Z.quot_opp_l, Z.quot_div_nonneg by lia.
    symmetry. apply Z.div_unique with ((2 ^ n - 1) - (- v) mod 2 ^ n).
    + pose proof (Z.mod_pos_bound (- v) (2 ^ n) ltac:(lia)). lia.
    + pose proof (Z.div_mod (- v) (2 ^ n) ltac:(lia)). lia.
  - rewrite (Z.div_small v) by lia. unfold wrapu. rewrite Z.mod_0_l, Z.div_0_l, Z.add_0_r by
      (try apply Z.pow_nonzero; lia). symmetry. apply Z.quot_div_nonneg; lia.
Qed.

(** the shift sequence that stands for a signed division by a power of two is
    recognised and given the range of the quotient, which the value of the
    sequence is in. *)
Theorem VisitAShr_division_sound (g : Graph) bri rho inst x bb d xd (w n : Z) :
  ir_wf g -> valuation g rho -> insts g !! inst = Some x -> blocks g !! GetBasicBlock x = Some bb ->
  info_sound g bri rho (GetBasicBlock x) ->
  GetTypeSize (GetType x) (GetArch g) = Done w -> match_ashr_div g x w = Done (Some (d, n)) ->
  insts g !! d = Some xd -> bounded_type (GetType xd) = true ->
  0 < n < w -> n < 32 -> in_s w (rho d) ->
  rho inst = Z.shiftr (rho d + Z.shiftr (wrapu w (Z.shiftr (rho d) (w - 1))) (w - n)) n ->
  exists bri', VisitAShr g bri inst = Done bri' /\
    forall b, info_sound g bri rho b -> info_sound g bri' rho b.
Proof.
  intros W V Hx Hb Hs Hsz Hm Hd Td Hn H32 Hin Hv. rewrite (shifts_are_division w n) in Hv by done.
  destruct (FindBoundsRange_sound g bri rho _ bb d xd W V Hs Hb Hd (bounded_known _ Td)) as (r & F & Wr & [C L]).
  unfold VisitAShr, get_inst. rewrite Hx. cbn [mbind outcome_bind]. rewrite Hsz. cbn [mbind outcome_bind].
  rewrite Hm. cbn [mbind outcome_bind]. rewrite F. cbn [mbind outcome_bind].
  destruct (Z.ltb_spec n 32); [|lia]. cbv zeta. rewrite Z.shiftl_1_l.
  pose proof (pow2_pos n ltac:(lia)). assert (2 ^ n <= 2 ^ 31) by (apply Z.pow_le_mono_r; lia).
  assert (2 ^ 1 <= 2 ^ n) by (apply Z.pow_le_mono_r; lia).
  destruct (Div_const_within r (rho d) (2 ^ n)) as [Hc Hw]; [done|done|lia|].
  destruct (first_len_cases (Div r (const_range (2 ^ n))) [(IsNotNegative r, lenArray_ r)]) as (o & -> & Ho);
    [apply ops_no_len|].
  apply (SetBoundsRange_sound g bri rho _ inst x _ V Hx); [exact Hw|]. rewrite Hv. split; [exact Hc|].
  cbn [lenArray_]. intros a Ha. apply Ho in Ha. apply elem_of_cons in Ha as [[= G E]|Ha%elem_of_nil]; [|done].
  destruct (L a ltac:(done)). split; [done|]. unfold IsNotNegative, within in *.
  assert (0 <= rho d) by lia. assert (Z.quot (rho d) (2 ^ n) <= rho d); [|lia].
  apply Z.quot_le_upper_bound; nia.
Qed.

(** ** Joins *)
Lemma phi_ranges_in (g : Graph) bri x preds rs b i r :
  phi_ranges g bri x preds = Done rs -> b ∈ preds -> GetPhiInput g x b = Done i ->
  FindBoundsRange g bri b i = Done r -> r ∈ rs.
Proof.
  revert rs; induction preds as [|p preds IH]; intros rs Hrs Hb Hi Hr; [by apply elem_of_nil in Hb|].
  cbn [phi_ranges] in Hrs. destruct (GetPhiInput g x p) as [j| |] eqn:Ej; try done. cbn [mbind outcome_bind] in Hrs.
  destruct (FindBoundsRange g bri p j) as [q| |] eqn:Eq; try done. cbn [mbind outcome_bind] in Hrs.
  destruct (phi_ranges g bri x preds) as [qs| |]; try done. cbn in Hrs. injection Hrs as <-.
  apply elem_of_cons in Hb as [->|Hb]; [assert (r = q) as -> by congruence; left|right; eauto].
Qed.

(** The predecessors of a phi's block and its inputs exist. *)
Definition phi_wf (g : Graph) (x : Inst) (preds : list BlockId) : Prop :=
  forall p, p ∈ preds -> exists bp i xi, blocks g !! p = Some bp /\ GetPhiInput g x p = Done i /\
    insts g !! i = Some xi /\ known_type (GetType xi) = true.

Lemma phi_ranges_total (g : Graph) bri rho x preds :
  ir_wf g -> valuation g rho -> info_wf bri -> phi_wf g x preds ->
  exists rs, phi_ranges g bri x preds = Done rs /\ Forall wf rs.
Proof.
  intros W V Hi. induction preds as [|p preds IH]; intros Hp; cbn [phi_ranges]; [eauto|].
  destruct (Hp p) as (bp & i & xi & Hb & -> & Hx & Ht); [left|]. cbn [mbind outcome_bind].
  destruct (FindBoundsRange_wf g bri rho p bp i xi) as (r & -> & Hw); auto. cbn [mbind outcome_bind].
  destruct IH as (rs & -> & Hws); [intros q Hq; apply Hp; by right|]. cbn. eauto.
Qed.

(** A phi that is not the index of a counted loop, entered from the
    predecessor [p]: its new value, the value of the input of [p] before the
    jump, is in the range recorded for it. *)
Theorem VisitPhi_join_sound (g : Graph) bri rho rho' inst x p i b0 :
  ir_wf g -> info_wf bri -> insts g !! inst = Some x -> known_type (GetType x) = true ->
  blocks g !! GetBasicBlock x = Some b0 -> phi_wf g x (GetPredsBlocks b0) ->
  (GetType x <> REFERENCE -> ProcessCountableLoop g bri inst = Done (false, bri)) ->
  p ∈ GetPredsBlocks b0 -> GetPhiInput g x p = Done i ->
  valuation g rho -> info_sound g bri rho p -> valuation g rho' -> rho' inst = rho i ->
  exists bri', VisitPhi g bri inst = Done bri' /\
    forall b, info_sound g bri rho' b -> info_sound g bri' rho' b.
Proof.
  intros W Hiw Hx Tx Hb0 Hpw Hcount Hp Hphi V Hs V' Hv.
  unfold VisitPhi, get_inst, get_block. rewrite Hx. cbn [mbind outcome_bind].
  assert (IsFloatType (GetType x) || (GetType x == ANY) || (GetType x == POINTER) = false) as ->
    by (destruct (GetType x); done).
  assert ((if GetType x == REFERENCE then Done (false, bri) else ProcessCountableLoop g bri inst) = Done (false, bri)) as ->.
  { destruct (decide (GetType x = REFERENCE)); [by rewrite bool_decide_eq_true_2|].
    rewrite bool_decide_eq_false_2 by done. auto. }
  cbn [mbind outcome_bind]. rewrite Hb0. cbn [mbind outcome_bind].
  destruct (phi_ranges_total g bri rho x (GetPredsBlocks b0) W V Hiw Hpw) as (rs & Hrs & Hws).
  rewrite Hrs. cbn [mbind outcome_bind].
  destruct (Hpw p Hp) as (bp & i' & xi & Hbp & Hphi' & Hxi & Txi). rewrite Hphi in Hphi'. injection Hphi' as <-.
  destruct (FindBoundsRange_sound g bri rho p bp i xi W V Hs Hbp Hxi Txi) as (r & F & Wr & C & _).
  assert (r ∈ rs) as Hin by (eapply phi_ranges_in; eauto).
  destruct (Union_within rs r (rho i) Hws Hin C) as [Hu Hw].
  destruct (known_bounds _ Tx) as (mn & mx & Emn & Emx).
  destruct (FitInType_own rho' (Union rs) _ (rho' inst) mn mx Tx Emn Emx) as (r' & -> & Hw' & Hc');
    [by eapply val_type|done|rewrite Hv; split; [done|]; unfold Union; case_match; done|].
  cbn [mbind outcome_bind]. by apply (SetBoundsRange_sound g bri rho' _ inst x r').
Qed.
End analysis.
(** * A small graph *)
(** [p + 5], [-p], [p % 5] and [p / 8] (as shifts) of a 32-bit parameter [p]
    in the first block, an array length to compare with, and a phi behind the
    branch. *)
Definition ex_cfg : Config := {| OBJECT_POINTER_SIZE := 4 |}.
Definition ex_runtime : Runtime :=
  {| IsMethodStatic := true; GetMaxArrayLength := fun _ => INT32_MAX;
     DynamicCastDoubleToInt := fun _ _ => 0; GetClassForField := fun _ => 0;
     IsFieldReadonly := fun _ => false; IsClassInitialized := fun _ => false;
     GetStaticFieldValue := fun _ => 0 |}.
Definition ex_inst (op : Opcode) (t : DataType) (ins : list InstId) (v : Z) : Inst :=
  mkInst op t ins [] 1%positive false t CC_LT 0 v None 1 [] false 0 0 None.
Definition ex_insts : gmap InstId Inst :=
  list_to_map [(1%positive, ex_inst OpParameter INT32 [] 0);
               (2%positive, ex_inst OpConstant INT64 [] 5);
               (3%positive, ex_inst OpAdd INT32 [1%positive; 2%positive] 0);
               (4%positive, ex_inst OpParameter REFERENCE [] 0);
               (5%positive, ex_inst OpLenArray INT32 [4%positive] 0);
               (6%positive, ex_inst OpNeg INT32 [1%positive] 0);
               (7%positive, ex_inst OpMod INT32 [1%positive; 2%positive] 0);
               (8%positive, ex_inst OpConstant INT64 [] 31);
               (9%positive, ex_inst OpAShr INT32 [1%positive; 8%positive] 0);
               (10%positive, ex_inst OpConstant INT64 [] 29);
               (11%positive, ex_inst OpShr INT32 [9%positive; 10%positive] 0);
               (12%positive, ex_inst OpAdd INT32 [11%positive; 1%positive] 0);
               (13%positive, ex_inst OpConstant INT64 [] 3);
               (14%positive, ex_inst OpAShr INT32 [12%positive; 13%positive] 0);
               (15%positive, mkInst OpPhi INT32 [1%positive; 2%positive] [] 3%positive false INT32
                  CC_EQ 0 0 None 1 [0%nat; 1%nat] false 0 0 None)].
Definition ex_block : BasicBlock := mkBlock [] [2%positive; 3%positive] None [] 1%positive [] [] false false.
Definition ex_block2 : BasicBlock := mkBlock [1%positive] [3%positive] (Some 1%positive) [] 1%positive [] [] false false.
Definition ex_block3 : BasicBlock :=
  mkBlock [1%positive; 2%positive] [] (Some 1%positive) [] 1%positive [] [15%positive] false false.
Definition ex_loop : Loop := mkLoop None None [] [1%positive] None false false true.
Definition ex_graph : Graph :=
  mkGraph ex_insts {[1%positive := ex_block; 2%positive := ex_block2; 3%positive := ex_block3]} {[1%positive := ex_loop]}
    1%positive [1%positive; 2%positive; 3%positive] None false false X86_64.
Definition ex_rho (i : InstId) : Z :=
  nth (Pos.to_nat i) [0; 3; 5; 8; 64; 4; -3; 3; 31; 0; 29; 0; 3; 3; 0; 3] 0.

(** Enumerating a map of literals. *)
Ltac lookups H :=
  repeat (apply lookup_insert_Some in H as [[<- <-]|[_ H]] || apply lookup_singleton_Some in H as [<- <-]);
  try (by rewrite lookup_empty in H).

Lemma ex_ir_wf : @ir_wf ex_graph.
Proof.
  split.
  - intros i x H Eo. cbn in H. lookups H; try discriminate Eo. eexists _, _, _, _. done.
  - intros i x H Eo. cbn in H. lookups H; try discriminate Eo.
    exists 4%positive, 4%positive. eexists. done.
  - intros b [x H]. cbn in H. lookups H.
    + exists [1%positive]. eapply links_cons; [done|]. constructor.
    + exists [2%positive; 1%positive]. eapply links_cons; [done|]. eapply links_cons; [done|]. constructor.
    + exists [3%positive; 1%positive]. eapply links_cons; [done|]. eapply links_cons; [done|]. constructor.
Qed.

Lemma ex_valuation : @valuation ex_runtime ex_graph ex_rho.
Proof.
  split.
  - intros i x H Eo. cbn in H. lookups H; try discriminate Eo; done.
  - intros i x H Eo. cbn in H. lookups H; discriminate Eo.
  - intros i x H Eo. cbn in H. lookups H; discriminate Eo.
  - intros i x mn mx H Ht. cbn in H. lookups H; cbn [GetType ex_inst GetMin GetMax]; intros [= <-] [= <-];
      vm_compute; split; congruence.
  - intros i H. destruct (insts ex_graph !! i) as [x|] eqn:E.
    + cbn in E. lookups E; vm_compute in H |- *; done || (split; congruence).
    + unfold IsLenArray, get_inst in H. rewrite E in H. done.
  - intros i x i0 a xa k H Eo. cbn in H. lookups H; try discriminate Eo.
    intros E1 E2 E3 E4. injection E1 as <-. vm_compute in E2. injection E2 as <-.
    vm_compute in E3. injection E3 as <-. discriminate E4.
Qed.

Lemma ex_info_sound (b : BlockId) : @info_sound ex_graph ∅ ex_rho b.
Proof. intros l b' i r _ _ Hst. unfold stored in Hst. rewrite lookup_empty in Hst. done. Qed.
(** The remainder is recorded as below the array's length because the dividend
    is; for a negative dividend and an empty array it is not. *)
Lemma Mod_length_unsound :
  let rho (i : InstId) : Z := if i == 1%positive then -2 else if i == 5%positive then 0 else 2 in
  let r0 := mkRange (-10) (-1) (Some 5%positive) in
  contains rho r0 (rho 1%positive) /\
  first_len (Mod r0 (const_range 2))
    [(IsNotNegative (const_range 2), lenArray_ (const_range 2)); (true, lenArray_ r0)] =
    mkRange (-1) 0 (Some 5%positive) /\
  ~ contains rho (mkRange (-1) 0 (Some 5%positive)) (Z.rem (rho 1%positive) 2).
Proof.
  cbv zeta. split; [|split].
  - unfold contains, within. simpl. split; [lia|]. intros a [= <-]. vm_compute. intuition congruence.
  - done.
  - unfold contains. intros [_ H]. destruct (H 5%positive eq_refl) as [_ Hlt]. vm_compute in Hlt. done.
Qed.

(** A division by 2^40 recognised behind the shifts evaluates [1U << 40]. *)
Definition ex_shift_graph : Graph :=
  set_insts (fun m => <[8%positive := ex_inst OpConstant INT64 [] 63]>
    (<[9%positive := ex_inst OpAShr INT64 [1%positive; 8%positive] 0]>
    (<[10%positive := ex_inst OpConstant INT64 [] 24]>
    (<[11%positive := ex_inst OpShr INT64 [9%positive; 10%positive] 0]>
    (<[12%positive := ex_inst OpAdd INT64 [11%positive; 1%positive] 0]>
    (<[13%positive := ex_inst OpConstant INT64 [] 40]>
    (<[14%positive := ex_inst OpAShr INT64 [12%positive; 13%positive] 0]> m))))))) ex_graph.
Lemma VisitAShr_undefined_shift :
  match_ashr_div ex_shift_graph (ex_inst OpAShr INT64 [12%positive; 13%positive] 0) 64 =
    Done (Some (1%positive, 40)) /\
  @VisitAShr ex_cfg ex_runtime ex_shift_graph ∅ 14%positive = Crash.
Proof. split; vm_compute; reflexivity. Qed.

(** ** The whole pass on for (i = 0; i < 10; i += 3) *)
Definition index_range (g : Graph) (block : BlockId) : outcome BoundsRange :=
  bri ← @RunImpl ex_cfg ex_runtime g; @FindBoundsRange ex_runtime g bri block 4%positive.

(** A 32-bit index: [0, 9] in the loop, unknown behind it. *)
Example RunImpl_for_loop :
  index_range CountableLoopParser.ex_graph 3%positive = Done (range 0 9) /\
  index_range CountableLoopParser.ex_graph 4%positive = Done (range INT32_MIN INT32_MAX).
Proof. split; vm_compute; reflexivity. Qed.

(** A 64-bit index: the full range computed for the exit is not recorded, so
    behind the loop the lookup finds the header's [0, 9]; the value there is 12. *)
Definition ex_loop64 : Graph :=
  set_insts (fun m =>
    <[4%positive := CountableLoopParser.ex_inst OpPhi INT64 [1%positive; 7%positive] 2%positive CC_EQ 0 [0%nat; 1%nat]]>
    (<[7%positive := CountableLoopParser.ex_inst OpAdd INT64 [4%positive; 3%positive] 3%positive CC_EQ 0 []]> m))
    CountableLoopParser.ex_graph.
Lemma counted_exit_unsound :
  index_range ex_loop64 4%positive = Done (range 0 9) /\
  CountableLoopParser.loop_index INT64 true 3 0 4 = 12 /\ Compare 64 CC_LT 12 10 = false.
Proof. split; [|split]; vm_compute; reflexivity. Qed.

Lemma binary_sound_witness :
  exists bri', @CalcNewBoundsRangeBinary ex_cfg ex_runtime OpMod ex_graph ∅ 7%positive = Done bri' /\
    forall b, info_sound ex_graph ∅ ex_rho b -> info_sound ex_graph bri' ex_rho b.
Proof.
  apply (@CalcNewBoundsRangeBinary_sound ex_cfg ex_runtime OpMod ex_graph ∅ ex_rho 7%positive
    (ex_inst OpMod INT32 [1%positive; 2%positive] 0) ex_block 1%positive 2%positive
    (ex_inst OpParameter INT32 [] 0) (ex_inst OpConstant INT64 [] 5));
    try reflexivity; try exact ex_ir_wf; try exact ex_valuation; try exact (ex_info_sound _).
  intros r0 r1 _ _. vm_compute. repeat split; try discriminate. left; discriminate.
Defined.

Lemma unary_sound_witness :
  exists bri', @CalcNewBoundsRangeUnary ex_runtime OpNeg ex_graph ∅ 6%positive = Done bri' /\
    forall b, info_sound ex_graph ∅ ex_rho b -> info_sound ex_graph bri' ex_rho b.
Proof.
  apply (@CalcNewBoundsRangeUnary_sound ex_runtime OpNeg ex_graph ∅ ex_rho 6%positive
    (ex_inst OpNeg INT32 [1%positive] 0) ex_block 1%positive (ex_inst OpParameter INT32 [] 0));
    try reflexivity; try exact ex_ir_wf; try exact ex_valuation; try exact (ex_info_sound _);
    [by left|by vm_compute].
Defined.

Lemma compare_sound_witness :
  exists bri', @CalcNewBoundsRangeForCompare ex_runtime ex_graph ∅ 1%positive CC_LT 1%positive 5%positive 2%positive
      = Done bri' /\
    forall b, info_sound ex_graph ∅ ex_rho b -> info_sound ex_graph bri' ex_rho b.
Proof.
  apply (@CalcNewBoundsRangeForCompare_sound ex_runtime ex_graph ∅ ex_rho 1%positive ex_block CC_LT 1%positive
    5%positive (ex_inst OpParameter INT32 [] 0) (ex_inst OpLenArray INT32 [4%positive] 0) 2%positive ex_block2 ex_loop);
    try reflexivity; try exact ex_ir_wf; try exact ex_valuation; try exact (ex_info_sound _).
  discriminate.
Defined.

Lemma division_sound_witness :
  exists bri', @VisitAShr ex_cfg ex_runtime ex_graph ∅ 14%positive = Done bri' /\
    forall b, info_sound ex_graph ∅ ex_rho b -> info_sound ex_graph bri' ex_rho b.
Proof.
  apply (@VisitAShr_division_sound ex_cfg ex_runtime ex_graph ∅ ex_rho 14%positive
    (ex_inst OpAShr INT32 [12%positive; 13%positive] 0) ex_block 1%positive (ex_inst OpParameter INT32 [] 0) 32 3);
    try reflexivity; try exact ex_ir_wf; try exact ex_valuation; try exact (ex_info_sound _);
    vm_compute; split; congruence.
Defined.

Lemma phi_join_witness :
  exists bri', @VisitPhi ex_runtime ex_graph ∅ 15%positive = Done bri' /\
    forall b, info_sound ex_graph ∅ ex_rho b -> info_sound ex_graph bri' ex_rho b.
Proof.
  apply (@VisitPhi_join_sound ex_runtime ex_graph ∅ ex_rho ex_rho 15%positive
    (mkInst OpPhi INT32 [1%positive; 2%positive] [] 3%positive false INT32 CC_EQ 0 0 None 1 [0%nat; 1%nat] false 0 0 None)
    1%positive 1%positive ex_block3);
    try reflexivity; try exact ex_ir_wf; try exact ex_valuation; try exact (ex_info_sound _).
  - intros b i r Hst. unfold stored in Hst. by rewrite lookup_empty in Hst.
  - intros p [->|[->|Hp%elem_of_nil]%elem_of_cons]%elem_of_cons; [| |done].
    + by exists ex_block, 1%positive, (ex_inst OpParameter INT32 [] 0).
    + by exists ex_block2, 2%positive, (ex_inst OpConstant INT64 [] 5).
  - left.
Defined.
End BoundsAnalysis.
