(* ===== verification/Float.v ===== *)
(** IEEE-754 numbers, as the constant folder and the runtime's conversions use
    them: bit patterns, comparison, conversion from and to integers.  The
    arithmetic itself (round to nearest even) is the Standard Library's
    [SpecFloat] at the formats of [float] and [double].

    A not-a-number has one representation here: its sign and payload, which
    the C++ standard leaves open, are not modelled. *)
From S2P Require Import Prelude.
From Stdlib Require Export SpecFloat.
Local Open Scope Z_scope.

Module Float.
(** A format: precision (with the hidden bit) and the exponent of infinity. *)
Record format := mkFormat { prec : Z; emax : Z }.
Definition binary32 : format := mkFormat 24 128.
Definition binary64 : format := mkFormat 53 1024.

(** The exponent of the least positive number, and the width of the stored
    mantissa. *)
Definition min_exp (f : format) : Z := 3 - emax f - prec f.
Definition mbits (f : format) : Z := prec f - 1.

Section format.
  Context (f : format).

(** [bit_cast<From integer>]: sign, exponent and mantissa fields. *)
Definition of_bits (b : Z) : spec_float :=
  let sign := negb (Z.shiftr b (mbits f) / (2 * emax f) mod 2 =? 0) in
  let e := Z.shiftr b (mbits f) mod (2 * emax f) in
  let m := b mod 2 ^ (mbits f) in
  if e =? 0 then
    match m with Zpos p => S754_finite sign p (min_exp f) | _ => S754_zero sign end
  else if e =? 2 * emax f - 1 then
    if m =? 0 then S754_infinity sign else S754_nan
  else S754_finite sign (Z.to_pos (m + 2 ^ (mbits f))) (e + min_exp f - 1).

Definition pack (sign : bool) (e m : Z) : Z :=
  ((if sign then 2 * emax f else 0) + e) * 2 ^ (mbits f) + m.
(** [bit_cast<To integer>]. *)
Definition to_bits (x : spec_float) : Z :=
  match x with
  | S754_zero s => pack s 0 0
  | S754_infinity s => pack s (2 * emax f - 1) 0
  | S754_nan => pack false (2 * emax f - 1) (2 ^ (mbits f - 1))
  | S754_finite s m e =>
      if Zpos m <? 2 ^ (mbits f) then pack s 0 (Zpos m)
      else pack s (e - min_exp f + 1) (Zpos m - 2 ^ (mbits f))
  end.

Definition is_nan (x : spec_float) : bool :=
  match x with S754_nan => true | _ => false end.
Definition signbit (x : spec_float) : bool :=
  match x with
  | S754_zero s | S754_infinity s | S754_finite s _ _ => s
  | S754_nan => false
  end.
Definition add := SFadd (prec f) (emax f).
Definition sub := SFsub (prec f) (emax f).
Definition mul := SFmul (prec f) (emax f).
Definition div := SFdiv (prec f) (emax f).
Definition sqrt := SFsqrt (prec f) (emax f).

(** [static_cast<From>(integer)]: rounded to nearest even. *)
Definition of_int (z : Z) : spec_float := binary_normalize (prec f) (emax f) z 0 false.

(** [static_cast<From>(floating point)]. *)
Definition of_float (x : spec_float) : spec_float :=
  match x with
  | S754_finite s m e => binary_round (prec f) (emax f) s m e
  | x => x
  end.

(** [fmod]: exact, with the sign of the dividend. *)
Definition fmod (x y : spec_float) : spec_float :=
  match x, y with
  | S754_nan, _ | _, S754_nan => S754_nan
  | S754_infinity _, _ => S754_nan
  | _, S754_zero _ => S754_nan
  | _, S754_infinity _ => x
  | S754_zero _, _ => x
  | S754_finite sx mx ex, S754_finite _ my ey =>
      let e := Z.min ex ey in
      let r := (Zpos mx * 2 ^ (ex - e)) mod (Zpos my * 2 ^ (ey - e)) in
      match r with
      | Zpos m => binary_round (prec f) (emax f) sx m e
      | _ => S754_zero sx
      end
  end.

(** A finite number as an integer multiple of the least positive one. *)
Definition sval (x : spec_float) : Z :=
  match x with
  | S754_finite s m e => (if s then -1 else 1) * Zpos m * 2 ^ (e - min_exp f)
  | _ => 0
  end.
(** [static_cast<integer>(value)]: the integer part, for a finite value. *)
Definition trunc (x : spec_float) : Z := Z.quot (sval x) (2 ^ (- min_exp f)).

Definition valid (x : spec_float) : bool := valid_binary (prec f) (emax f) x.
Definition finite (x : spec_float) : bool :=
  match x with S754_zero _ | S754_finite _ _ _ => true | _ => false end.
End format.

(** math_helpers.h: [Min] and [Max] of floating-point numbers. *)
Definition Min (a b : spec_float) : spec_float :=
  if is_nan a then a
  else if SFeqb a (S754_zero false) && SFeqb b (S754_zero false) && signbit b then b
  else if SFleb a b then a else b.
Definition Max (a b : spec_float) : spec_float :=
  if is_nan a then a
  else if SFeqb a (S754_zero false) && SFeqb b (S754_zero false) && signbit a then b
  else if SFleb b a then a else b.

(** * Lemmas *)
(** The two formats in use. *)
Definition good (f : format) : Prop := f = binary32 \/ f = binary64.

Lemma digits2_bound (m : positive) :
  2 ^ (Zpos (digits2_pos m) - 1) <= Zpos m < 2 ^ Zpos (digits2_pos m).
Proof.
  induction m as [m IH|m IH|]; cbn [digits2_pos]; [| |done].
  - rewrite Pos2Z.inj_succ. replace (Z.succ (Zpos (digits2_pos m)) - 1) with (Z.succ (Zpos (digits2_pos m) - 1)) by lia.
    rewrite !Z.pow_succ_r by lia. lia.
  - rewrite Pos2Z.inj_succ. replace (Z.succ (Zpos (digits2_pos m)) - 1) with (Z.succ (Zpos (digits2_pos m) - 1)) by lia.
    rewrite !Z.pow_succ_r by lia. lia.
Qed.

(** A canonical mantissa: normal, or at the least exponent. *)
Lemma valid_finite (f : format) s m e :
  good f -> valid f (S754_finite s m e) = true ->
  min_exp f <= e <= emax f - prec f /\ Zpos m < 2 ^ prec f /\ (2 ^ (prec f - 1) <= Zpos m \/ e = min_exp f).
Proof.
  intros Hf Hv. unfold min_exp. unfold valid, valid_binary, bounded, canonical_mantissa, fexp, emin in Hv.
  apply andb_true_iff in Hv as [E%Z.eqb_eq L%Z.leb_le].
  pose proof (digits2_bound m) as [Hlo Hhi].
  assert (Hp : 0 < prec f) by (destruct Hf as [-> | ->]; simpl; lia).
  assert (Hd : Zpos (digits2_pos m) <= prec f) by lia.
  split; [lia|]. split.
  - apply (Z.lt_le_trans _ _ _ Hhi). apply Z.pow_le_mono_r; lia.
  - destruct (Z.eq_dec (Zpos (digits2_pos m)) (prec f)) as [Eq|]; [left; by rewrite <- Eq|right; lia].
Qed.
(** ** Bit patterns *)
Lemma good_consts (f : format) : good f ->
  0 < mbits f /\ 0 < emax f /\ emax f - prec f - min_exp f + 2 = 2 * emax f - 1 /\ min_exp f <= 0.
Proof. intros [-> | ->]; unfold mbits, min_exp; simpl; lia. Qed.

Lemma of_bits_pack (f : format) (s : bool) (e m : Z) :
  good f -> 0 <= e < 2 * emax f -> 0 <= m < 2 ^ mbits f ->
  of_bits f (pack f s e m) =
    if e =? 0 then match m with Zpos p => S754_finite s p (min_exp f) | _ => S754_zero s end
    else if e =? 2 * emax f - 1 then if m =? 0 then S754_infinity s else S754_nan
    else S754_finite s (Z.to_pos (m + 2 ^ mbits f)) (e + min_exp f - 1).
Proof.
  intros Hf He Hm. destruct (good_consts f Hf) as (Hb & Hx & _). unfold of_bits, pack.
  set (h := (if s then 2 * emax f else 0) + e).
  assert (Hh : Z.shiftr (h * 2 ^ mbits f + m) (mbits f) = h).
  { rewrite Z.shiftr_div_pow2 by lia. symmetry. apply Z.div_unique with m; lia. }
  assert (Hl : (h * 2 ^ mbits f + m) mod 2 ^ mbits f = m).
  { symmetry. apply Z.mod_unique with h; lia. }
  rewrite Hh, Hl.
  assert (Hd : h / (2 * emax f) = if s then 1 else 0).
  { unfold h. destruct s; symmetry; apply Z.div_unique with e; lia. }
  assert (He' : h mod (2 * emax f) = e).
  { unfold h. destruct s; symmetry; [apply Z.mod_unique with 1|apply Z.mod_unique with 0]; lia. }
  rewrite Hd, He'. by destruct s.
Qed.

(** [bit_cast] to the integer and back is the identity. *)
Lemma of_bits_to_bits (f : format) (x : spec_float) :
  good f -> valid f x = true -> of_bits f (to_bits f x) = x.
Proof.
  intros Hf Hv. destruct (good_consts f Hf) as (Hb & Hx & Hc & _).
  pose proof (pow2_pos (mbits f) ltac:(lia)).
  destruct x as [s|s| |s m e]; cbn [to_bits].
  - by rewrite of_bits_pack by (done || lia).
  - rewrite of_bits_pack by (done || lia). rewrite (proj2 (Z.eqb_neq _ 0)) by lia. by rewrite Z.eqb_refl.
  - assert (0 < 2 ^ (mbits f - 1) < 2 ^ mbits f).
    { split; [apply pow2_pos; lia|]. apply Z.pow_lt_mono_r; lia. }
    rewrite of_bits_pack by (done || lia). rewrite (proj2 (Z.eqb_neq _ 0)) by lia. rewrite Z.eqb_refl.
    by rewrite (proj2 (Z.eqb_neq _ 0)) by lia.
  - destruct (valid_finite f s m e Hf Hv) as (He & Hm & Hn). unfold mbits in *.
    destruct (Z.ltb_spec (Zpos m) (2 ^ (prec f - 1))) as [Hlt|Hge].
    + rewrite of_bits_pack by (done || (unfold mbits; lia)). cbn. f_equal. lia.
    + assert (2 ^ prec f = 2 * 2 ^ (prec f - 1)).
      { rewrite <- Z.pow_succ_r by lia. f_equal; lia. }
      rewrite of_bits_pack by (done || (unfold mbits; lia)).
      rewrite (proj2 (Z.eqb_neq _ 0)), (proj2 (Z.eqb_neq _ (2 * emax f - 1))) by lia.
      f_equal; [unfold mbits; rewrite Z.sub_add; done|lia].
Qed.

(** ** Comparison *)
Lemma exp_order (f : format) m1 e1 m2 e2 :
  good f -> valid f (S754_finite false m1 e1) = true -> valid f (S754_finite false m2 e2) = true ->
  e1 < e2 -> Zpos m1 * 2 ^ (e1 - min_exp f) < Zpos m2 * 2 ^ (e2 - min_exp f).
Proof.
  intros Hf H1 H2 He. destruct (valid_finite f _ _ _ Hf H1) as (B1 & M1 & _).
  destruct (valid_finite f _ _ _ Hf H2) as (B2 & M2 & [N2|N2]); [|lia].
  assert (Hp : 0 < prec f) by (destruct Hf as [-> | ->]; simpl; lia).
  pose proof (pow2_pos (e1 - min_exp f) ltac:(lia)).
  assert (2 ^ prec f * 2 ^ (e1 - min_exp f) <= 2 ^ (prec f - 1) * 2 ^ (e2 - min_exp f)).
  { rewrite <- !Z.pow_add_r by lia. apply Z.pow_le_mono_r; lia. }
  pose proof (pow2_pos (e2 - min_exp f) ltac:(lia)). nia.
Qed.

Lemma finite_compare (f : format) m1 e1 m2 e2 :
  good f -> valid f (S754_finite false m1 e1) = true -> valid f (S754_finite false m2 e2) = true ->
  (match Z.compare e1 e2 with Lt => Lt | Gt => Gt | Eq => Pos.compare_cont Eq m1 m2 end) =
  Z.compare (Zpos m1 * 2 ^ (e1 - min_exp f)) (Zpos m2 * 2 ^ (e2 - min_exp f)).
Proof.
  intros Hf H1 H2. destruct (Z.compare_spec e1 e2) as [->|Hlt|Hgt].
  - destruct (valid_finite f _ _ _ Hf H2) as (B2 & _).
    pose proof (pow2_pos (e2 - min_exp f) ltac:(lia)). change (Pos.compare_cont Eq m1 m2) with (Z.compare (Zpos m1) (Zpos m2)).
    destruct (Z.compare_spec (Zpos m1) (Zpos m2)) as [->|Hm|Hm]; symmetry;
      [apply Z.compare_refl|apply Z.compare_lt_iff; nia|apply Z.compare_gt_iff; nia].
  - symmetry. apply Z.compare_lt_iff. by apply exp_order.
  - symmetry. apply Z.compare_gt_iff. by apply exp_order.
Qed.

(** Comparison of finite numbers is comparison of their values. *)
Lemma SFcompare_sval (f : format) (x y : spec_float) :
  good f -> valid f x = true -> valid f y = true -> finite x = true -> finite y = true ->
  SFcompare x y = Some (Z.compare (sval f x) (sval f y)).
Proof.
  intros Hf Hx Hy Fx Fy.
  assert (P : forall s m e, valid f (S754_finite s m e) = true -> 0 < Zpos m * 2 ^ (e - min_exp f)).
  { intros s m e Hv. destruct (valid_finite f _ _ _ Hf Hv) as (B & _).
    pose proof (pow2_pos (e - min_exp f) ltac:(lia)). lia. }
  destruct x as [sx| | |sx mx ex]; try discriminate Fx; destruct y as [sy| | |sy my ey]; try discriminate Fy;
    cbn [SFcompare sval]; f_equal.
  - specialize (P _ _ _ Hy). destruct sy; symmetry; [apply Z.compare_gt_iff|apply Z.compare_lt_iff]; lia.
  - specialize (P _ _ _ Hx). destruct sx; symmetry; [apply Z.compare_lt_iff|apply Z.compare_gt_iff]; lia.
  - pose proof (P _ _ _ Hx). pose proof (P _ _ _ Hy). destruct sx, sy.
    + rewrite <- !Z.mul_assoc. change (-1) with (- (1)). rewrite !Z.mul_opp_l, !Z.mul_1_l, Z.compare_opp.
      rewrite (Z.compare_antisym (Zpos mx * _)), <- (finite_compare f) by done. by destruct (Z.compare ex ey).
    + symmetry. apply Z.compare_lt_iff. lia.
    + symmetry. apply Z.compare_gt_iff. lia.
    + rewrite <- !Z.mul_assoc, !Z.mul_1_l. by apply finite_compare.
Qed.
End Float.
