(* ===== verification/ConstFolding.v ===== *)
(** Constant folding: compiler/optimizer/optimizations/const_folding.cpp.

    Every [ConstFolding*] function takes the graph and the instruction and
    returns the changed graph and whether it folded.  A constant is shared and
    keeps a 64-bit pattern; an instruction reads it at its own type.  The
    theorems show that the constant that replaces a folded instruction denotes,
    at the instruction's type, the value the instruction would have computed. *)
From S2P Require Import Prelude.
From S2P Require Import Ir.
From S2P Require Import BoundsRange.
From S2P Require Import Float.
Local Open Scope Z_scope.
Local Open Scope ark_scope.

Module ConstFolding.
Import Float.

(** * Conversions *)
(** [ConvertIntToInt<T>]: [value] is the value of the [T]. *)
Definition ConvertIntToInt (value : Z) (targetType : DataType) : outcome Z :=
  if is_int targetType then Done (u64 (wrap_type targetType value)) else Crash.

Definition ConvertIntToFloat (f : format) (value : Z) (sourceType : DataType) : outcome spec_float :=
  if is_int sourceType then Done (of_int f (wrap_type sourceType value)) else Crash.

(** [std::numeric_limits<To>] *)
Definition MIN_INT (t : DataType) : Z :=
  if IsTypeSigned t then - 2 ^ (width t - 1) else 0.
Definition MAX_INT (t : DataType) : Z :=
  if IsTypeSigned t then 2 ^ (width t - 1) - 1 else 2 ^ width t - 1.

(** [static_cast<To>(value)] of a value inside the type. *)
Definition cast_float (f : format) (t : DataType) (value : spec_float) : Z :=
  if t == BOOL then (if SFeqb value (S754_zero false) then 0 else 1) else trunc f value.

(** [ConvertFloatToInt<To, From>] *)
Definition ConvertFloatToInt_To (f : format) (t : DataType) (value : spec_float) : Z :=
  let floatMinInt := of_int f (MIN_INT t) in
  let floatMaxInt := of_int f (MAX_INT t) in
  if SFltb floatMinInt value then
    if SFltb value floatMaxInt then cast_float f t value else MAX_INT t
  else if is_nan value then 0
  else MIN_INT t.

(** [ConvertFloatToInt<From>(value, targetType)] *)
Definition ConvertFloatToInt (f : format) (value : spec_float) (targetType : DataType) : outcome Z :=
  if is_int targetType then Done (u64 (ConvertFloatToInt_To f targetType value)) else Crash.

Definition GetFloatValue (x : Inst) : spec_float := of_bits binary32 (u32 (value_ x)).
Definition GetDoubleValue (x : Inst) : spec_float := of_bits binary64 (value_ x).
Definition float_const (v : spec_float) : ConstVal := FloatVal (to_bits binary32 v).
Definition double_const (v : spec_float) : ConstVal := DoubleVal (to_bits binary64 v).
Definition u32_const (v : Z) : ConstVal := IntVal 4 (u32 v).
Definition u64_const (v : Z) : ConstVal := IntVal 8 (u64 v).

Section folding.
  Context {cfg : Config} {runtime : Runtime}.

Definition ConvertFloatToIntDyn (f : format) (value : spec_float) (bits : Z) : Z :=
  DynamicCastDoubleToInt (to_bits binary64 (of_float binary64 value)) bits.

(** * Creating constants *)
Definition ConstFoldingCreateIntConst (g : Graph) (x : Inst) (value : Z) (isLiteralData : bool) :
    outcome (Graph * InstId) :=
  if IsBytecodeOptimizer g && IsInt32Bit (GetType x) && negb isLiteralData
  then FindOrCreateConstant g (u32_const value)
  else FindOrCreateConstant g (u64_const value).

(** [inst->ReplaceUsers(newCnst); return true;] *)
Definition replace (inst : InstId) (gc : Graph * InstId) : outcome (Graph * bool) :=
  let '(g, c) := gc in
  g' ← ReplaceUsers g inst c; Done (g', true).

(** * Casts *)
(** [ConstFoldingCreateConst<T>], [T] being the C++ type of [src]. *)
Definition ConstFoldingCreateConst (g : Graph) (x cnst : Inst) (src : DataType) : outcome (Graph * InstId) :=
  v ← ConvertIntToInt (wrap_type src (GetIntValue cnst)) (GetType x);
  ConstFoldingCreateIntConst g x v false.

(** A null result is [None]. *)
Definition ConstFoldingCastInt2Int (g : Graph) (x cnst : Inst) : outcome (option (Graph * InstId)) :=
  it ← GetInputType g x 0;
  if is_int it then r ← ConstFoldingCreateConst g x cnst it; Done (Some r) else Done None.

Definition found (r : outcome (Graph * InstId)) : outcome (option (Graph * InstId)) :=
  r ← r; Done (Some r).

Definition ConstFoldingCastIntConst (g : Graph) (x cnst : Inst) (isLiteralData : bool) :
    outcome (option (Graph * InstId)) :=
  let instType := GetCommonType (GetType x) in
  if instType == INT64 then ConstFoldingCastInt2Int g x cnst
  else if instType == FLOAT32 then
    if IsBytecodeOptimizer g && negb isLiteralData then Done None
    else
      it ← GetInputType g x 0;
      v ← ConvertIntToFloat binary32 (GetIntValue cnst) it;
      found (FindOrCreateConstant g (float_const v))
  else if instType == FLOAT64 then
    it ← GetInputType g x 0;
    v ← ConvertIntToFloat binary64 (GetIntValue cnst) it;
    found (FindOrCreateConstant g (double_const v))
  else Done None.

Definition ConstFoldingCastConst (g : Graph) (x : Inst) (input : InstId) (isLiteralData : bool) :
    outcome (option (Graph * InstId)) :=
  cnst ← get_inst g input;
  let instType := GetCommonType (GetType x) in
  if (GetType cnst == INT32) || (GetType cnst == INT64) then
    ConstFoldingCastIntConst g x cnst false
  else if GetType cnst == FLOAT32 then
    if IsBytecodeOptimizer g && negb isLiteralData then Done None
    else if instType == INT64 then
      v ← ConvertFloatToInt binary32 (GetFloatValue cnst) (GetType x);
      found (FindOrCreateConstant g (u64_const v))
    else if instType == FLOAT32 then Done (Some (g, input))
    else if instType == FLOAT64 then
      found (FindOrCreateConstant g (double_const (of_float binary64 (GetFloatValue cnst))))
    else Done None
  else if GetType cnst == FLOAT64 then
    if instType == INT64 then
      v ← (if IsDynamicMethod g then
             size ← GetTypeSize (GetType x) (GetArch g);
             Done (ConvertFloatToIntDyn binary64 (GetDoubleValue cnst) size)
           else ConvertFloatToInt binary64 (GetDoubleValue cnst) (GetType x));
      found (ConstFoldingCreateIntConst g x v isLiteralData)
    else if instType == FLOAT32 then
      if IsBytecodeOptimizer g && negb isLiteralData then Done None
      else found (FindOrCreateConstant g (float_const (of_float binary32 (GetDoubleValue cnst))))
    else if instType == FLOAT64 then Done (Some (g, input))
    else Done None
  else Done None.

Definition ConstFoldingCast (g : Graph) (inst : InstId) : outcome (Graph * bool) :=
  x ← get_inst g inst;
  input ← read (GetInputs x) 0%nat;
  xin ← get_inst g input;
  if IsConst xin then
    nw ← ConstFoldingCastConst g x input false;
    match nw with Some gc => replace inst gc | None => Done (g, false) end
  else Done (g, false).

(** * Unary instructions *)
Definition ConstFoldingNeg (g : Graph) (inst : InstId) : outcome (Graph * bool) :=
  x ← get_inst g inst;
  input ← read (GetInputs x) 0%nat;
  cnst ← get_inst g input;
  if IsConst cnst then
    gc ← match GetCommonType (GetType x) with
         | INT64 =>
             v ← ConvertIntToInt (u64 (- GetIntValue cnst)) (GetType x);
             ConstFoldingCreateIntConst g x v false
         | FLOAT32 => FindOrCreateConstant g (float_const (SFopp (GetFloatValue cnst)))
         | FLOAT64 => FindOrCreateConstant g (double_const (SFopp (GetDoubleValue cnst)))
         | _ => Crash
         end;
    replace inst gc
  else Done (g, false).

Definition ConstFoldingAbs (g : Graph) (inst : InstId) : outcome (Graph * bool) :=
  x ← get_inst g inst;
  input ← read (GetInputs x) 0%nat;
  cnst ← get_inst g input;
  if IsConst cnst then
    gc ← match GetCommonType (GetType x) with
         | INT64 =>
             let value := i64 (GetIntValue cnst) in
             if value =? INT64_MIN then Done (g, input)
             else
               let uvalue := u64 (if value <? 0 then - value else value) in
               v ← ConvertIntToInt uvalue (GetType x);
               ConstFoldingCreateIntConst g x v false
         | FLOAT32 => FindOrCreateConstant g (float_const (SFabs (GetFloatValue cnst)))
         | FLOAT64 => FindOrCreateConstant g (double_const (SFabs (GetDoubleValue cnst)))
         | _ => Crash
         end;
    replace inst gc
  else Done (g, false).

Definition ConstFoldingNot (g : Graph) (inst : InstId) : outcome (Graph * bool) :=
  x ← get_inst g inst;
  input ← read (GetInputs x) 0%nat;
  cnst ← get_inst g input;
  if IsConst cnst then
    v ← ConvertIntToInt (u64 (Z.lnot (GetIntValue cnst))) (GetType x);
    gc ← ConstFoldingCreateIntConst g x v false;
    replace inst gc
  else Done (g, false).

Definition ConstFoldingSqrt (g : Graph) (inst : InstId) : outcome (Graph * bool) :=
  x ← get_inst g inst;
  input ← read (GetInputs x) 0%nat;
  cnst ← get_inst g input;
  if IsConst cnst then
    gc ← (if GetType cnst == FLOAT32
          then FindOrCreateConstant g (float_const (sqrt binary32 (GetFloatValue cnst)))
          else FindOrCreateConstant g (double_const (sqrt binary64 (GetDoubleValue cnst))));
    replace inst gc
  else Done (g, false).

(** * Addition, subtraction, multiplication *)
(** The two inputs with their instructions. *)
Definition two_insts (g : Graph) (x : Inst) : outcome (InstId * InstId * Inst * Inst) :=
  i0 ← read (GetInputs x) 0%nat;
  i1 ← read (GetInputs x) 1%nat;
  x0 ← get_inst g i0;
  x1 ← get_inst g i1;
  Done (i0, i1, x0, x1).

(** The constant of an arithmetic instruction on two constants: the switch of
    [ConstFoldingAdd], [ConstFoldingSub] and [ConstFoldingMul]. *)
Definition arith_const (iop : Z -> Z -> Z) (fop : format -> spec_float -> spec_float -> spec_float)
    (g : Graph) (x c0 c1 : Inst) : outcome (Graph * InstId) :=
  match GetCommonType (GetType x) with
  | INT64 =>
      v ← ConvertIntToInt (u64 (iop (GetIntValue c0) (GetIntValue c1))) (GetType x);
      ConstFoldingCreateIntConst g x v false
  | FLOAT32 => FindOrCreateConstant g (float_const (fop binary32 (GetFloatValue c0) (GetFloatValue c1)))
  | FLOAT64 => FindOrCreateConstant g (double_const (fop binary64 (GetDoubleValue c0) (GetDoubleValue c1)))
  | _ => Crash
  end.

Definition ConstFoldingAdd (g : Graph) (inst : InstId) : outcome (Graph * bool) :=
  x ← get_inst g inst;
  ins ← two_insts g x;
  let '(i0, i1, x0, x1) := ins in
  if IsConst x0 && IsConst x1 then gc ← arith_const Z.add add g x x0 x1; replace inst gc
  else Done (g, false).

Definition ConstFoldingSub (g : Graph) (inst : InstId) : outcome (Graph * bool) :=
  x ← get_inst g inst;
  ins ← two_insts g x;
  let '(i0, i1, x0, x1) := ins in
  if IsConst x0 && IsConst x1 then gc ← arith_const Z.sub sub g x x0 x1; replace inst gc
  else if (i0 == i1) && (GetCommonType (GetType x) == INT64) then
    gc ← ConstFoldingCreateIntConst g x 0 false; replace inst gc
  else Done (g, false).

Definition ConstFoldingMul (g : Graph) (inst : InstId) : outcome (Graph * bool) :=
  x ← get_inst g inst;
  ins ← two_insts g x;
  let '(i0, i1, x0, x1) := ins in
  if IsConst x0 && IsConst x1 then gc ← arith_const Z.mul mul g x x0 x1; replace inst gc
  else
    let zero c := IsEqualConst c (IntVal 4 0) (IsBytecodeOptimizer g) in
    if IsConst x0 then if zero x0 then replace inst (g, i0) else Done (g, false)
    else if IsConst x1 then if zero x1 then replace inst (g, i1) else Done (g, false)
    else Done (g, false).
(** * Division and remainder *)
(** [/] and [%] of C++: truncating, undefined on a zero divisor. *)
Definition c_div (a b : Z) : outcome Z := if b =? 0 then Crash else Done (Z.quot a b).
Definition c_rem (a b : Z) : outcome Z := if b =? 0 then Crash else Done (Z.rem a b).

Definition ConstFoldingDivInt2Int (g : Graph) (x c0 c1 : Inst) : outcome (option (Graph * InstId)) :=
  if GetIntValue c1 =? 0 then Done None
  else if IsTypeSigned (GetType x) then
    if IsBytecodeOptimizer g && IsInt32Bit (GetType x) then
      if (i32 (GetIntValue c0) =? INT32_MIN) && (i32 (GetIntValue c1) =? -1)
      then found (FindOrCreateConstant g (u32_const INT32_MIN))
      else
        q ← c_div (i32 (GetIntValue c0)) (i32 (GetIntValue c1));
        v ← ConvertIntToInt q (GetType x);
        found (FindOrCreateConstant g (u32_const v))
    else if (i64 (GetIntValue c0) =? INT64_MIN) && (i64 (GetIntValue c1) =? -1)
    then found (FindOrCreateConstant g (u64_const INT64_MIN))
    else
      q ← c_div (i64 (GetIntValue c0)) (i64 (GetIntValue c1));
      v ← ConvertIntToInt q (GetType x);
      found (FindOrCreateConstant g (u64_const v))
  else
    a ← ConvertIntToInt (GetIntValue c0) (GetType x);
    b ← ConvertIntToInt (GetIntValue c1) (GetType x);
    q ← c_div a b;
    found (ConstFoldingCreateIntConst g x q false).

(** [inst->GetDataFlowInput(i)] of both inputs. *)
Definition two_dataflow_insts (g : Graph) (x : Inst) : outcome (InstId * InstId * Inst * Inst) :=
  i0 ← read (GetInputs x) 0%nat;
  i1 ← read (GetInputs x) 1%nat;
  input0 ← GetDataFlowInput g i0;
  input1 ← GetDataFlowInput g i1;
  x0 ← get_inst g input0;
  x1 ← get_inst g input1;
  Done (input0, input1, x0, x1).

Definition ConstFoldingDiv (g : Graph) (inst : InstId) : outcome (Graph * bool) :=
  x ← get_inst g inst;
  ins ← two_dataflow_insts g x;
  let '(i0, i1, x0, x1) := ins in
  if negb (IsConst x0) || negb (IsConst x1) then Done (g, false)
  else
    r ← match GetCommonType (GetType x) with
        | INT64 => ConstFoldingDivInt2Int g x x0 x1
        | FLOAT32 => found (FindOrCreateConstant g (float_const (div binary32 (GetFloatValue x0) (GetFloatValue x1))))
        | FLOAT64 => found (FindOrCreateConstant g (double_const (div binary64 (GetDoubleValue x0) (GetDoubleValue x1))))
        | _ => Crash
        end;
    match r with Some gc => replace inst gc | None => Done (g, false) end.

Definition ConstFoldingModIntConst (g : Graph) (x c0 c1 : Inst) : outcome (Graph * InstId) :=
  if IsTypeSigned (GetType x) then
    if IsBytecodeOptimizer g && IsInt32Bit (GetType x) then
      if (i32 (GetIntValue c0) =? INT32_MIN) && (i32 (GetIntValue c1) =? -1)
      then FindOrCreateConstant g (u32_const 0)
      else
        q ← c_rem (i32 (GetIntValue c0)) (i32 (GetIntValue c1));
        v ← ConvertIntToInt q (GetType x);
        FindOrCreateConstant g (u32_const v)
    else if (i64 (GetIntValue c0) =? INT64_MIN) && (i64 (GetIntValue c1) =? -1)
    then FindOrCreateConstant g (u64_const 0)
    else
      q ← c_rem (i64 (GetIntValue c0)) (i64 (GetIntValue c1));
      v ← ConvertIntToInt q (GetType x);
      FindOrCreateConstant g (u64_const v)
  else
    a ← ConvertIntToInt (GetIntValue c0) (GetType x);
    b ← ConvertIntToInt (GetIntValue c1) (GetType x);
    q ← c_rem a b;
    ConstFoldingCreateIntConst g x q false.

Definition ConstFoldingMod (g : Graph) (inst : InstId) : outcome (Graph * bool) :=
  x ← get_inst g inst;
  ins ← two_dataflow_insts g x;
  let '(i0, i1, x0, x1) := ins in
  if IsConst x1 && negb (IsFloatType (GetType x)) && (GetIntValue x1 =? 1) then
    gc ← ConstFoldingCreateIntConst g x 0 false; replace inst gc
  else if negb (IsConst x0) || negb (IsConst x1) then Done (g, false)
  else if GetCommonType (GetType x) == INT64 then
    if GetIntValue x1 =? 0 then Done (g, false)
    else gc ← ConstFoldingModIntConst g x x0 x1; replace inst gc
  else if GetType x == FLOAT32 then
    if SFeqb (GetFloatValue x1) (S754_zero false) then Done (g, false)
    else
      gc ← FindOrCreateConstant g (float_const (fmod binary32 (GetFloatValue x0) (GetFloatValue x1)));
      replace inst gc
  else if GetType x == FLOAT64 then
    if SFeqb (GetDoubleValue x1) (S754_zero false) then Done (g, false)
    else
      gc ← FindOrCreateConstant g (double_const (fmod binary64 (GetDoubleValue x0) (GetDoubleValue x1)));
      replace inst gc
  else Crash.

(** * Minimum and maximum *)
Definition minmax_int (op : Z -> Z -> Z) (g : Graph) (x c0 c1 : Inst) : outcome (Graph * InstId) :=
  if IsTypeSigned (GetType x) then
    if IsBytecodeOptimizer g && IsInt32Bit (GetType x) then
      v ← ConvertIntToInt (op (i32 (GetIntValue c0)) (i32 (GetIntValue c1))) (GetType x);
      FindOrCreateConstant g (u32_const v)
    else
      v ← ConvertIntToInt (op (i64 (GetIntValue c0)) (i64 (GetIntValue c1))) (GetType x);
      FindOrCreateConstant g (u64_const v)
  else
    v ← ConvertIntToInt (op (GetIntValue c0) (GetIntValue c1)) (GetType x);
    ConstFoldingCreateIntConst g x v false.
Definition ConstFoldingMinInt := minmax_int Z.min.
Definition ConstFoldingMaxInt := minmax_int Z.max.

Definition minmax (iop : Graph -> Inst -> Inst -> Inst -> outcome (Graph * InstId))
    (fop : spec_float -> spec_float -> spec_float) (g : Graph) (inst : InstId) : outcome (Graph * bool) :=
  x ← get_inst g inst;
  ins ← two_insts g x;
  let '(i0, i1, x0, x1) := ins in
  if IsConst x0 && IsConst x1 then
    gc ← match GetCommonType (GetType x) with
         | INT64 => iop g x x0 x1
         | FLOAT32 => FindOrCreateConstant g (float_const (fop (GetFloatValue x0) (GetFloatValue x1)))
         | FLOAT64 => FindOrCreateConstant g (double_const (fop (GetDoubleValue x0) (GetDoubleValue x1)))
         | _ => Crash
         end;
    replace inst gc
  else Done (g, false).
Definition ConstFoldingMin := minmax ConstFoldingMinInt Min.
Definition ConstFoldingMax := minmax ConstFoldingMaxInt Max.

(** * Shifts *)
Definition ConstFoldingShl (g : Graph) (inst : InstId) : outcome (Graph * bool) :=
  x ← get_inst g inst;
  ins ← two_insts g x;
  let '(i0, i1, x0, x1) := ins in
  if IsConst x0 && IsConst x1 then
    let cnst0 := GetIntValue x0 in
    let cnst1 := GetIntValue x1 in
    size ← GetTypeSize (GetType x) (GetArch g);
    let sizeMask := size - 1 in
    gc ← (if IsBytecodeOptimizer g && IsInt32Bit (GetType x) then
            v ← ConvertIntToInt (u32 (Z.shiftl (u32 cnst0) (Z.land (u32 cnst1) sizeMask))) (GetType x);
            FindOrCreateConstant g (u32_const v)
          else
            v ← ConvertIntToInt (u64 (Z.shiftl cnst0 (Z.land cnst1 sizeMask))) (GetType x);
            FindOrCreateConstant g (u64_const v));
    replace inst gc
  else Done (g, false).

Definition ConstFoldingShr (g : Graph) (inst : InstId) : outcome (Graph * bool) :=
  x ← get_inst g inst;
  ins ← two_insts g x;
  let '(i0, i1, x0, x1) := ins in
  if IsConst x0 && IsConst x1 then
    let cnst0 := GetIntValue x0 in
    let cnst1 := GetIntValue x1 in
    size ← GetTypeSize (GetType x) (GetArch g);
    let sizeMask := size - 1 in
    let cnst0 :=
      if sizeMask <? 32 then Z.land cnst0 (Z.shiftl 1 (sizeMask + 1) - 1) else cnst0 in
    gc ← (if IsBytecodeOptimizer g && IsInt32Bit (GetType x) then
            v ← ConvertIntToInt (Z.shiftr (u32 cnst0) (Z.land (u32 cnst1) sizeMask)) (GetType x);
            FindOrCreateConstant g (u32_const v)
          else
            v ← ConvertIntToInt (Z.shiftr cnst0 (Z.land cnst1 sizeMask)) (GetType x);
            FindOrCreateConstant g (u64_const v));
    replace inst gc
  else Done (g, false).

Definition ConstFoldingAShr (g : Graph) (inst : InstId) : outcome (Graph * bool) :=
  x ← get_inst g inst;
  ins ← two_insts g x;
  let '(i0, i1, x0, x1) := ins in
  if IsConst x0 && IsConst x1 then
    let cnst0 := i64 (GetIntValue x0) in
    let cnst1 := GetIntValue x1 in
    size ← GetTypeSize (GetType x) (GetArch g);
    let sizeMask := size - 1 in
    gc ← (if IsBytecodeOptimizer g && IsInt32Bit (GetType x) then
            v ← ConvertIntToInt (Z.shiftr (i32 cnst0) (Z.land (u32 cnst1) sizeMask)) (GetType x);
            FindOrCreateConstant g (u32_const v)
          else
            v ← ConvertIntToInt (Z.shiftr cnst0 (Z.land cnst1 sizeMask)) (GetType x);
            FindOrCreateConstant g (u64_const v));
    replace inst gc
  else Done (g, false).

(** * Bitwise instructions *)
Definition bit_const (op : Z -> Z -> Z) (g : Graph) (x c0 c1 : Inst) : outcome (Graph * InstId) :=
  v ← ConvertIntToInt (op (GetIntValue c0) (GetIntValue c1)) (GetType x);
  ConstFoldingCreateIntConst g x v false.

(** One constant input that decides the result: 0 for And, -1 for Or. *)
Definition absorbing (g : Graph) (inst i0 i1 : InstId) (x0 x1 : Inst) (v : Z) : outcome (Graph * bool) :=
  if IsConst x0 then if GetIntValue x0 =? v then replace inst (g, i0) else Done (g, false)
  else if IsConst x1 then if GetIntValue x1 =? v then replace inst (g, i1) else Done (g, false)
  else Done (g, false).

Definition ConstFoldingAnd (g : Graph) (inst : InstId) : outcome (Graph * bool) :=
  x ← get_inst g inst;
  ins ← two_insts g x;
  let '(i0, i1, x0, x1) := ins in
  if IsConst x0 && IsConst x1 then gc ← bit_const Z.land g x x0 x1; replace inst gc
  else absorbing g inst i0 i1 x0 x1 0.

Definition ConstFoldingOr (g : Graph) (inst : InstId) : outcome (Graph * bool) :=
  x ← get_inst g inst;
  ins ← two_insts g x;
  let '(i0, i1, x0, x1) := ins in
  if IsConst x0 && IsConst x1 then gc ← bit_const Z.lor g x x0 x1; replace inst gc
  else absorbing g inst i0 i1 x0 x1 UINT64_MAX.

Definition ConstFoldingXor (g : Graph) (inst : InstId) : outcome (Graph * bool) :=
  x ← get_inst g inst;
  ins ← two_insts g x;
  let '(i0, i1, x0, x1) := ins in
  if IsConst x0 && IsConst x1 then gc ← bit_const Z.lxor g x x0 x1; replace inst gc
  else if i0 == i1 then gc ← ConstFoldingCreateIntConst g x 0 false; replace inst gc
  else Done (g, false).

(** * Three-way comparison *)
Definition GetResult (l r : Z) : Z := if l >? r then 1 else if l <? r then -1 else 0.
Definition GetFloatResult (l r : spec_float) (cmp : Inst) : Z :=
  if is_nan l || is_nan r then if IsFcmpg cmp then 1 else -1
  else if SFltb r l then 1 else if SFltb l r then -1 else 0.

Definition GetIntResult (g : Graph) (c0 c1 : Inst) (inputType : DataType) : outcome Z :=
  l ← ConvertIntToInt (GetIntValue c0) inputType;
  r ← ConvertIntToInt (GetIntValue c1) inputType;
  if IsTypeSigned inputType then
    if IsBytecodeOptimizer g && IsInt32Bit inputType then Done (GetResult (i32 l) (i32 r))
    else Done (GetResult (i64 l) (i64 r))
  else if IsBytecodeOptimizer g && IsInt32Bit inputType then Done (GetResult (u32 l) (u32 r))
  else Done (GetResult l r).

Definition ConstFoldingCmp (g : Graph) (inst : InstId) : outcome (Graph * bool) :=
  x ← get_inst g inst;
  ins ← two_insts g x;
  let '(i0, i1, x0, x1) := ins in
  inputType ← GetInputType g x 0;
  if IsConst x0 && IsConst x1 then
    result ← match GetCommonType inputType with
             | INT64 => GetIntResult g x0 x1 inputType
             | FLOAT32 => Done (GetFloatResult (GetFloatValue x0) (GetFloatValue x1) x)
             | FLOAT64 => Done (GetFloatResult (GetDoubleValue x0) (GetDoubleValue x1) x)
             | _ => Done 0
             end;
    gc ← FindOrCreateConstant g (IntVal 8 result);
    replace inst gc
  else if (i0 == i1) && (GetCommonType inputType == INT64) then
    gc ← ConstFoldingCreateIntConst g x 0 false; replace inst gc
  else Done (g, false).

(** * Compare *)
Definition ConstFoldingCompareCreateConst (g : Graph) (x : Inst) (value : bool) : outcome (Graph * InstId) :=
  let v := if value then 1 else 0 in
  if IsBytecodeOptimizer g && IsInt32Bit (GetType x) then FindOrCreateConstant g (u32_const v)
  else FindOrCreateConstant g (u64_const v).

Definition ConstFoldingCompareCreateNewConst (g : Graph) (x : Inst) (cnstVal0 cnstVal1 : Z) :
    outcome (Graph * InstId) :=
  ConstFoldingCompareCreateConst g x
    match GetCc x with
    | CC_EQ => cnstVal0 =? cnstVal1
    | CC_NE => negb (cnstVal0 =? cnstVal1)
    | CC_LT => i64 cnstVal0 <? i64 cnstVal1
    | CC_B => cnstVal0 <? cnstVal1
    | CC_LE => i64 cnstVal0 <=? i64 cnstVal1
    | CC_BE => cnstVal0 <=? cnstVal1
    | CC_GT => i64 cnstVal0 >? i64 cnstVal1
    | CC_A => cnstVal0 >? cnstVal1
    | CC_GE => i64 cnstVal0 >=? i64 cnstVal1
    | CC_AE => cnstVal0 >=? cnstVal1
    | CC_TST_EQ => Z.land cnstVal0 cnstVal1 =? 0
    | CC_TST_NE => negb (Z.land cnstVal0 cnstVal1 =? 0)
    end.

(** [None] when the inputs differ or nothing follows from their being equal. *)
Definition ConstFoldingCompareEqualInputs (g : Graph) (inst : InstId) (x : Inst) (i0 i1 : InstId)
    (x0 : Inst) : outcome (option (Graph * bool)) :=
  let fold v := gc ← ConstFoldingCreateIntConst g x v false; r ← replace inst gc; Done (Some r) in
  if i0 != i1 then Done None
  else
    let commonType := GetCommonType (GetType x0) in
    let discrete := (commonType == INT64) || (commonType == POINTER) in
    match GetCc x with
    | CC_EQ | CC_LE | CC_GE | CC_BE | CC_AE => if discrete then fold 1 else Done None
    | CC_NE => if discrete then fold 0 else Done None
    | CC_LT | CC_GT | CC_B | CC_A => fold 0
    | _ => Done None
    end.

Definition IsUniqueRef (x : Inst) : bool :=
  IsAllocation x || (GetOpcode x == OpNullPtr) || (GetOpcode x == OpLoadUndefined).

Definition ConstFoldingCompare (g : Graph) (inst : InstId) : outcome (Graph * bool) :=
  x ← get_inst g inst;
  ins ← two_insts g x;
  let '(i0, i1, x0, x1) := ins in
  type ← GetInputType g x 0;
  if IsConst x0 && IsConst x1 && negb (IsFloatType (GetType x0)) then
    if GetCommonType type == INT64 then
      cnstVal0 ← ConvertIntToInt (GetIntValue x0) type;
      cnstVal1 ← ConvertIntToInt (GetIntValue x1) type;
      gc ← ConstFoldingCompareCreateNewConst g x cnstVal0 cnstVal1;
      replace inst gc
    else Done (g, false)
  else if (GetOpcode x0 == OpLoadImmediate) && (GetOpcode x1 == OpLoadImmediate) then
    let res := Bool.eqb (GetObject x0 =? GetObject x1) (GetCc x == CC_EQ) in
    gc ← ConstFoldingCompareCreateConst g x res; replace inst gc
  else if IsZeroConstantOrNullPtr x0 && IsZeroConstantOrNullPtr x1 then
    gc ← ConstFoldingCompareCreateConst g x (GetCc x == CC_EQ); replace inst gc
  else
    eq ← ConstFoldingCompareEqualInputs g inst x i0 i1 x0;
    match eq with
    | Some r => Done r
    | None =>
        if (type == REFERENCE) && IsUniqueRef x0 && IsUniqueRef x1 then
          gc ← ConstFoldingCompareCreateConst g x (GetCc x == CC_NE); replace inst gc
        else Done (g, false)
    end.

(** * Static fields *)
Definition ConstFoldingLoadStatic (g : Graph) (inst : InstId) : outcome (Graph * bool) :=
  x ← get_inst g inst;
  let field := GetObjField x in
  if GetCommonType (GetType x) != INT64 then Done (g, false)
  else
    let klass := GetClassForField field in
    if IsFieldReadonly field && IsClassInitialized klass then
      v ← ConvertIntToInt (GetStaticFieldValue field) (GetType x);
      gc ← FindOrCreateConstant g (u64_const v);
      replace inst gc
    else Done (g, false).
(** * What a fold must achieve *)
(** The fold succeeds; the users of [inst] read a constant that denotes [v] at
    type [t]; nothing else changes and the graph stays well formed. *)
Definition folded (g : Graph) (inst : InstId) (t : DataType) (v : Z) (r : outcome (Graph * bool)) : Prop :=
  exists g' c x, r = Done (g', true) /\ insts g' !! c = Some x /\ IsConst x = true /\
    wrap_type t (value_ x) = v /\ users_wf g' /\
    (exists l, const_chain g' (firstConstInst_ g') l) /\
    forall i y, insts g !! i = Some y -> i <> c -> exists us n,
      insts g' !! i = Some (set_users (fun _ => us)
        (set_inputs (fmap (subst_inst inst c)) (set_nextConst n y))).

(** ** Reading patterns at a type *)
Definition arith_type (t : DataType) : bool := is_int t && negb (t == BOOL).

Lemma arith_int (t : DataType) : arith_type t = true -> is_int t = true.
Proof. unfold arith_type. by intros [? _]%andb_true_iff. Qed.

Lemma arith_width (t : DataType) : arith_type t = true -> 0 < width t <= 64 /\
  (width t = 64 -> IsInt32Bit t = false) /\ (IsInt32Bit t = true -> width t <= 32).
Proof. destruct t; try discriminate; cbn; lia. Qed.

(** The reading depends on the low bits only. *)
Lemma wrap_congr (t : DataType) (a b : Z) :
  arith_type t = true -> a mod 2 ^ width t = b mod 2 ^ width t -> wrap_type t a = wrap_type t b.
Proof. destruct t; try discriminate; intros _; apply wraps_congr || apply wrapu_congr. Qed.

Lemma wrap_mod (t : DataType) (a : Z) :
  arith_type t = true -> wrap_type t a mod 2 ^ width t = a mod 2 ^ width t.
Proof. destruct t; try discriminate; intros _; (apply wraps_mod; simpl; lia) || apply wrapu_mod. Qed.

Lemma wrap_idemp (t : DataType) (a : Z) : is_int t = true -> wrap_type t (wrap_type t a) = wrap_type t a.
Proof.
  intros Ht. destruct (decide (t = BOOL)) as [->|Hb]; [cbn; by destruct (a =? 0)|].
  assert (arith_type t = true) by (unfold arith_type; rewrite Ht, bool_decide_eq_false_2 by done; done).
  by apply wrap_congr, wrap_mod.
Qed.

Lemma wrap_u64 (t : DataType) (a : Z) : arith_type t = true -> wrap_type t (u64 a) = wrap_type t a.
Proof.
  intros Ht. apply wrap_congr; [done|]. apply wrapu_mod_le. pose proof (arith_width t Ht). lia.
Qed.

Lemma wrap_u64_wrap (t : DataType) (a : Z) : is_int t = true -> wrap_type t (u64 (wrap_type t a)) = wrap_type t a.
Proof.
  intros Ht. destruct (decide (t = BOOL)) as [->|Hb]; [cbn; by destruct (a =? 0)|].
  assert (arith_type t = true) by (unfold arith_type; rewrite Ht, bool_decide_eq_false_2 by done; done).
  rewrite wrap_u64 by done. by apply wrap_idemp.
Qed.

Lemma wrap_u32 (t : DataType) (a : Z) :
  arith_type t = true -> IsInt32Bit t = true -> wrap_type t (u32 a) = wrap_type t a.
Proof.
  intros Ht H32. apply wrap_congr; [done|]. apply wrapu_mod_le. pose proof (arith_width t Ht). intuition lia.
Qed.

Lemma wrap_i32_eq (t : DataType) (a b : Z) :
  arith_type t = true -> IsInt32Bit t = true -> i32 a = i32 b -> wrap_type t a = wrap_type t b.
Proof.
  intros Ht H32 E. apply wrap_congr; [done|]. destruct (arith_width t Ht) as (? & _ & Hw). specialize (Hw H32).
  rewrite <- (wraps_mod_le (width t) 32 a), <- (wraps_mod_le (width t) 32 b) by lia. by rewrite E.
Qed.

(** ** From the constant to the fold *)
Section with_graph.
  Context (g : Graph) (inst : InstId) (x : Inst) (l : list InstId).
  Context (W : users_wf g) (Hl : const_chain g (firstConstInst_ g) l).
  Context (Hx : insts g !! inst = Some x) (Hnc : IsConst x = false).

Lemma folded_const (cv : ConstVal) (t : DataType) (v : Z) :
  (forall c, IsEqualConst c cv (IsBytecodeOptimizer g) = true -> wrap_type t (value_ c) = v) ->
  folded g inst t v (gc ← FindOrCreateConstant g cv; replace inst gc).
Proof.
  intros Hv. destruct (fold_to_constant g inst x cv l W Hl Hx Hnc) as (g1 & c & g2 & -> & E & [Wu Hc (c' & xc & Hxc & Hcc & Heq & Hrest)]).
  cbn [mbind outcome_bind replace]. rewrite E. cbn [mbind outcome_bind].
  exists g2, c', xc. split; [done|]. split; [done|]. split; [done|]. split; [by apply Hv|]. auto.
Qed.

Lemma folded_u64 (t : DataType) (w v : Z) :
  wrap_type t (u64 w) = v -> folded g inst t v (gc ← FindOrCreateConstant g (u64_const w); replace inst gc).
Proof.
  intros Hv. apply folded_const. intros c. unfold u64_const, IsEqualConst.
  rewrite andb_false_r. intros [_ E%Z.eqb_eq]%andb_true_iff. rewrite E.
  unfold wrapu in *. rewrite Z.mod_mod by (pose proof (pow2_pos 64); lia). done.
Qed.

Lemma folded_u32 (t : DataType) (w v : Z) :
  IsBytecodeOptimizer g = true -> arith_type t = true -> IsInt32Bit t = true ->
  wrap_type t w = v -> folded g inst t v (gc ← FindOrCreateConstant g (u32_const w); replace inst gc).
Proof.
  intros Hb Ht H32 Hv. apply folded_const. intros c. unfold u32_const, IsEqualConst. rewrite Hb. cbn [andb Z.eqb Pos.eqb].
  intros [_ E%Z.eqb_eq]%andb_true_iff. rewrite <- Hv, <- (wrap_u32 t w) by done. by apply wrap_i32_eq.
Qed.

(** [ConstFoldingCreateIntConst] *)
Lemma folded_create (t : DataType) (w v : Z) :
  GetType x = t -> arith_type t = true -> wrap_type t w = v ->
  folded g inst t v (gc ← ConstFoldingCreateIntConst g x w false; replace inst gc).
Proof.
  intros Hxt Ht Hv. unfold ConstFoldingCreateIntConst. rewrite Hxt.
  destruct (IsBytecodeOptimizer g) eqn:Hb; cbn [andb]; [|apply folded_u64; by rewrite wrap_u64].
  destruct (IsInt32Bit t) eqn:H32; cbn [andb negb]; [|apply folded_u64; by rewrite wrap_u64].
  by apply folded_u32.
Qed.
End with_graph.

(** * Integer instructions on two constants *)
(** The value of the instruction, from the patterns of its operands: both are
    read at its type. *)
Definition int_value (OPC : Opcode) (t : DataType) (a b : Z) : Z :=
  let x := wrap_type t a in
  let y := wrap_type t b in
  match OPC with
  | OpAdd => wrap_type t (x + y)
  | OpSub => wrap_type t (x - y)
  | OpMul => wrap_type t (x * y)
  | OpAnd => wrap_type t (Z.land x y)
  | OpOr => wrap_type t (Z.lor x y)
  | OpXor => wrap_type t (Z.lxor x y)
  | OpShl => Bounds.shl_value t x b
  | OpShr => Bounds.shr_value t x b
  | OpAShr => Bounds.ashr_value t x b
  | OpDiv => wrap_type t (Z.quot x y)
  | OpMod => wrap_type t (Z.rem x y)
  | OpMin => Z.min x y
  | _ => Z.max x y
  end.

(** Operations on the low bits only. *)
Lemma wrap_ring (t : DataType) (a b : Z) : arith_type t = true ->
  wrap_type t (wrap_type t a + wrap_type t b) = wrap_type t (a + b) /\
  wrap_type t (wrap_type t a - wrap_type t b) = wrap_type t (a - b) /\
  wrap_type t (wrap_type t a * wrap_type t b) = wrap_type t (a * b).
Proof.
  intros Ht. pose proof (pow2_pos (width t) ltac:(pose proof (arith_width t Ht); lia)).
  split; [|split]; apply wrap_congr; try done.
  - by rewrite Z.add_mod, !wrap_mod, <- Z.add_mod by (done || lia).
  - by rewrite Zminus_mod, !wrap_mod, <- Zminus_mod by done.
  - by rewrite Z.mul_mod, !wrap_mod, <- Z.mul_mod by (done || lia).
Qed.

Lemma wrap_bits (t : DataType) (a b : Z) : arith_type t = true ->
  wrap_type t (Z.land (wrap_type t a) (wrap_type t b)) = wrap_type t (Z.land a b) /\
  wrap_type t (Z.lor (wrap_type t a) (wrap_type t b)) = wrap_type t (Z.lor a b) /\
  wrap_type t (Z.lxor (wrap_type t a) (wrap_type t b)) = wrap_type t (Z.lxor a b).
Proof.
  intros Ht. pose proof (arith_width t Ht).
  split; [|split]; apply wrap_congr; try done.
  - by rewrite !(bitop_mod Z.land andb), !wrap_mod by (done || lia || apply Z.land_spec).
  - by rewrite !(bitop_mod Z.lor orb), !wrap_mod by (done || lia || apply Z.lor_spec).
  - by rewrite !(bitop_mod Z.lxor xorb), !wrap_mod by (done || lia || apply Z.lxor_spec).
Qed.

Lemma GetTypeSize_width (t : DataType) (arch : Arch) :
  arith_type t = true -> GetTypeSize t arch = Done (width t).
Proof. by destruct t. Qed.

(** The masked shift amount, on the 64-bit and on the 32-bit pattern. *)
Lemma shift_mask (t : DataType) (b : Z) : arith_type t = true ->
  Z.land b (width t - 1) = b mod width t /\ 0 <= b mod width t /\
  (IsInt32Bit t = true -> Z.land (u32 b) (width t - 1) = b mod width t).
Proof.
  intros Ht. assert (Hk : exists k, 0 <= k <= 6 /\ width t = 2 ^ k).
  { destruct t; try discriminate Ht; [exists 3|exists 3|exists 4|exists 4|exists 5|exists 5|exists 6|exists 6]; cbn; lia. }
  destruct Hk as (k & Hk & E). rewrite E, !land_mask by lia. split; [done|]. split; [|intros _; by rewrite wrapu_mod_le by lia].
  apply Z.mod_pos_bound, pow2_pos. lia.
Qed.

Section with_constants.
  Context (g : Graph) (inst : InstId) (x : Inst) (l : list InstId).
  Context (W : users_wf g) (Hl : const_chain g (firstConstInst_ g) l).
  Context (Hx : insts g !! inst = Some x) (Hnc : IsConst x = false).
  Context (i0 i1 : InstId) (x0 x1 : Inst) (t : DataType).
  Context (Hc0 : IsConst x0 = true) (Hc1 : IsConst x1 = true).
  Context (Hxt : GetType x = t) (Ht : arith_type t = true).

Lemma common_int : GetCommonType t = INT64 /\ is_int t = true.
Proof. split; [|by apply arith_int]. apply arith_int in Ht. unfold is_int in Ht. by apply bool_decide_eq_true_1 in Ht. Qed.

Lemma arith_folded iop fop (v : Z) :
  wrap_type t (iop (value_ x0) (value_ x1)) = v ->
  folded g inst t v (gc ← arith_const iop fop g x x0 x1; replace inst gc).
Proof.
  intros Hv. destruct common_int as [Hci Hi]. unfold arith_const, ConvertIntToInt. rewrite Hxt, Hci, Hi.
  cbn [mbind outcome_bind]. unfold GetIntValue.
  apply (folded_create g inst x l W Hl Hx Hnc t); auto. by rewrite wrap_u64_wrap, wrap_u64.
Qed.

Lemma bit_folded op (v : Z) :
  wrap_type t (op (value_ x0) (value_ x1)) = v ->
  folded g inst t v (gc ← bit_const op g x x0 x1; replace inst gc).
Proof.
  intros Hv. destruct common_int as [Hci Hi]. unfold bit_const, ConvertIntToInt. rewrite Hxt, Hi.
  cbn [mbind outcome_bind]. unfold GetIntValue.
  apply (folded_create g inst x l W Hl Hx Hnc t); auto. by rewrite wrap_u64_wrap.
Qed.

(** The constant of a shift, in the 32-bit and in the 64-bit branch. *)
Lemma shift_folded (v32 v64 v : Z) :
  wrap_type t v64 = v -> (IsInt32Bit t = true -> wrap_type t v32 = v) ->
  folded g inst t v
    (gc ← (if IsBytecodeOptimizer g && IsInt32Bit t then
             v ← ConvertIntToInt v32 t; FindOrCreateConstant g (u32_const v)
           else v ← ConvertIntToInt v64 t; FindOrCreateConstant g (u64_const v));
     replace inst gc).
Proof.
  intros H64 H32. destruct common_int as [Hci Hi]. unfold ConvertIntToInt. rewrite Hi. cbn [mbind outcome_bind].
  destruct (IsBytecodeOptimizer g) eqn:Hb; [destruct (IsInt32Bit t) eqn:E32|]; cbn [andb].
  - apply (folded_u32 g inst x l W Hl Hx Hnc t); auto. rewrite wrap_u64_wrap by done. auto.
  - apply (folded_u64 g inst x l W Hl Hx Hnc t). rewrite !wrap_u64 by done. by rewrite wrap_idemp.
  - apply (folded_u64 g inst x l W Hl Hx Hnc t). rewrite !wrap_u64 by done. by rewrite wrap_idemp.
Qed.
Section inputs.
  Context (Hins : two_insts g x = Done (i0, i1, x0, x1)).
  Context (Hr0 : in_u 64 (value_ x0)).

Ltac enter := unfold get_inst; rewrite Hx; cbn [mbind outcome_bind]; rewrite Hins; cbn [mbind outcome_bind];
  rewrite Hc0, Hc1; cbn [andb].

Lemma Shl_folded : folded g inst t (int_value OpShl t (value_ x0) (value_ x1)) (ConstFoldingShl g inst).
Proof.
  unfold ConstFoldingShl. enter. rewrite Hxt, GetTypeSize_width by done. cbn [mbind outcome_bind]. cbv zeta.
  unfold GetIntValue, int_value, Bounds.shl_value. destruct (shift_mask t (value_ x1) Ht) as (E & Hn & E32).
  set (n := value_ x1 mod width t) in *.
  assert (Hcg : forall a, a mod 2 ^ width t = value_ x0 mod 2 ^ width t ->
    wrap_type t (Z.shiftl a n) = wrap_type t (Z.shiftl (wrap_type t (value_ x0)) n)).
  { intros a Ha. pose proof (pow2_pos (width t) ltac:(pose proof (arith_width t Ht); lia)).
    apply wrap_congr; [done|]. rewrite !Z.shiftl_mul_pow2 by lia.
    by rewrite Z.mul_mod, Ha, <- (wrap_mod t (value_ x0)), <- Z.mul_mod by (done || lia). }
  apply shift_folded.
  - rewrite E, wrap_u64 by done. by apply Hcg.
  - intros H32. rewrite (E32 H32), wrap_u32 by done. apply Hcg. apply wrapu_mod_le.
    destruct (arith_width t Ht) as (? & _ & Hw). specialize (Hw H32). lia.
Qed.

Lemma Shr_folded : folded g inst t (int_value OpShr t (value_ x0) (value_ x1)) (ConstFoldingShr g inst).
Proof.
  unfold ConstFoldingShr. enter. rewrite Hxt, GetTypeSize_width by done. cbn [mbind outcome_bind]. cbv zeta.
  unfold GetIntValue, int_value, Bounds.shr_value. destruct (shift_mask t (value_ x1) Ht) as (E & Hn & E32).
  destruct (arith_width t Ht) as (Hw0 & Hw64 & Hw32).
  set (n := value_ x1 mod width t) in *.
  assert (Hu : wrapu (width t) (wrap_type t (value_ x0)) = wrapu (width t) (value_ x0)).
  { apply wrapu_congr. by apply wrap_mod. }
  rewrite Hu.
  assert (Hm : (if width t - 1 <? 32 then Z.land (value_ x0) (Z.shiftl 1 (width t - 1 + 1) - 1) else value_ x0)
    = wrapu (width t) (value_ x0)).
  { replace (width t - 1 + 1) with (width t) by lia. rewrite Z.shiftl_1_l, land_mask by lia.
    destruct (Z.ltb_spec (width t - 1) 32); [done|].
    assert (width t = 64) as -> by (destruct t; try discriminate Ht; cbn in *; lia). symmetry. by apply wrapu_id. }
  rewrite Hm. apply shift_folded.
  - by rewrite E.
  - intros H32. specialize (Hw32 H32). rewrite (E32 H32). f_equal. f_equal.
    apply wrapu_id. pose proof (wrapu_range (width t) (value_ x0) ltac:(lia)) as R. unfold in_u in *.
    split; [lia|]. assert (2 ^ width t <= 2 ^ 32) by (apply Z.pow_le_mono_r; lia). lia.
Qed.

(** The operations that look at the low bits of their operands only. *)
Lemma low_bits_folded (OPC : Opcode) (fold : Graph -> InstId -> outcome (Graph * bool)) :
  (OPC, fold) ∈ [(OpAdd, ConstFoldingAdd); (OpSub, ConstFoldingSub); (OpMul, ConstFoldingMul);
                 (OpAnd, ConstFoldingAnd); (OpOr, ConstFoldingOr); (OpXor, ConstFoldingXor);
                 (OpShl, ConstFoldingShl); (OpShr, ConstFoldingShr)] ->
  folded g inst t (int_value OPC t (value_ x0) (value_ x1)) (fold g inst).
Proof.
  destruct (wrap_ring t (value_ x0) (value_ x1) Ht) as (Ra & Rs & Rm).
  destruct (wrap_bits t (value_ x0) (value_ x1) Ht) as (Ba & Bo & Bx).
  rewrite !elem_of_cons, elem_of_nil.
  intros [[= -> ->]|[[= -> ->]|[[= -> ->]|[[= -> ->]|[[= -> ->]|[[= -> ->]|[[= -> ->]|[[= -> ->]|[]]]]]]]]].
  - unfold ConstFoldingAdd. enter. by apply arith_folded.
  - unfold ConstFoldingSub. enter. by apply arith_folded.
  - unfold ConstFoldingMul. enter. by apply arith_folded.
  - unfold ConstFoldingAnd. enter. by apply bit_folded.
  - unfold ConstFoldingOr. enter. by apply bit_folded.
  - unfold ConstFoldingXor. enter. by apply bit_folded.
  - apply Shl_folded.
  - apply Shr_folded.
Qed.
End inputs.

(** ** Operations that need the whole value *)
(** A pattern that is the sign- or zero-extension of its value at the type. *)
Definition normalized (t : DataType) (a : Z) : Prop := a = u64 (wrap_type t a).

Lemma wrap_bounds (t' : DataType) (a : Z) : arith_type t' = true ->
  if IsTypeSigned t' then in_s (width t') (wrap_type t' a) else in_u (width t') (wrap_type t' a).
Proof. destruct t'; try discriminate; intros _; apply wraps_range || apply wrapu_range; cbn; lia. Qed.

Lemma normalized_signed (a : Z) : IsTypeSigned t = true -> normalized t a ->
  i64 a = wrap_type t a /\ (IsInt32Bit t = true -> i32 a = wrap_type t a).
Proof.
  intros Hs Hn. pose proof (wrap_bounds t a Ht) as B. rewrite Hs in B. destruct (arith_width t Ht) as (Hw & _ & Hw32).
  assert (in_s 64 (wrap_type t a)).
  { unfold in_s in *. assert (2 ^ (width t - 1) <= 2 ^ (64 - 1)) by (apply Z.pow_le_mono_r; lia). lia. }
  split; [rewrite Hn at 1; rewrite wraps_wrapu; apply wraps_id; [lia|done]|].
  intros H32. specialize (Hw32 H32).
  transitivity (i32 (wrap_type t a)).
  - rewrite Hn at 1. apply wraps_congr. by apply wrapu_mod_le.
  - apply wraps_id; [lia|]. unfold in_s in *. assert (2 ^ (width t - 1) <= 2 ^ (32 - 1)) by (apply Z.pow_le_mono_r; lia). lia.
Qed.

Lemma unsigned_range (a : Z) : IsTypeSigned t = false -> in_u 64 (wrap_type t a).
Proof.
  intros Hs. pose proof (wrap_bounds t a Ht) as B. rewrite Hs in B. destruct (arith_width t Ht) as (Hw & _).
  unfold in_u in *. assert (2 ^ width t <= 2 ^ 64) by (apply Z.pow_le_mono_r; lia). lia.
Qed.

(** The result of a 32-bit or 64-bit signed computation, as a constant. *)
Lemma signed_folded (q : Z) (b32 : bool) :
  (b32 = true -> IsBytecodeOptimizer g = true /\ IsInt32Bit t = true) ->
  folded g inst t (wrap_type t q)
    (gc ← (v ← ConvertIntToInt q t; FindOrCreateConstant g (if b32 then u32_const v else u64_const v)); replace inst gc).
Proof.
  intros Hb. destruct common_int as [_ Hi]. unfold ConvertIntToInt. rewrite Hi. cbn [mbind outcome_bind].
  destruct b32.
  - destruct Hb as [Hb H32]; [done|]. apply (folded_u32 g inst x l W Hl Hx Hnc t); auto. by rewrite wrap_u64_wrap.
  - apply (folded_u64 g inst x l W Hl Hx Hnc t). rewrite !wrap_u64 by done. by rewrite wrap_idemp.
Qed.

Section normalized_inputs.
  Context (Hn0 : normalized t (value_ x0)) (Hn1 : normalized t (value_ x1)).

Lemma minmax_folded (op : Z -> Z -> Z) :
  (forall a b, op a b = a \/ op a b = b) ->
  folded g inst t (op (wrap_type t (value_ x0)) (wrap_type t (value_ x1)))
    (gc ← minmax_int op g x x0 x1; replace inst gc).
Proof.
  intros Hop. set (a := wrap_type t (value_ x0)). set (b := wrap_type t (value_ x1)).
  assert (Hid : wrap_type t (op a b) = op a b).
  { destruct (Hop a b) as [-> | ->]; by apply wrap_idemp, common_int. }
  rewrite <- Hid. unfold minmax_int, GetIntValue. rewrite Hxt. destruct (IsTypeSigned t) eqn:Hs.
  - destruct (normalized_signed _ Hs Hn0) as [A64 A32]. destruct (normalized_signed _ Hs Hn1) as [B64 B32].
    destruct (IsBytecodeOptimizer g && IsInt32Bit t) eqn:Hb.
    + apply andb_true_iff in Hb as [Hb H32]. rewrite (A32 H32), (B32 H32). by apply (signed_folded _ true).
    + rewrite A64, B64. by apply (signed_folded _ false).
  - assert (value_ x0 = a) as -> by (rewrite Hn0; apply wrapu_id, unsigned_range; done).
    assert (value_ x1 = b) as -> by (rewrite Hn1; apply wrapu_id, unsigned_range; done).
    unfold ConvertIntToInt. destruct common_int as [_ Hi]. rewrite Hi. cbn [mbind outcome_bind].
    apply (folded_create g inst x l W Hl Hx Hnc t); auto. by rewrite wrap_u64_wrap.
Qed.
(** The quotient or remainder of the signed branches; [op] is [quot] or [rem],
    [m32] and [m64] what the code stores for the least value and -1. *)
Definition signed_op (cop : Z -> Z -> outcome Z) (m32 m64 : Z) : outcome (Graph * InstId) :=
  if IsBytecodeOptimizer g && IsInt32Bit t then
    if (i32 (GetIntValue x0) =? INT32_MIN) && (i32 (GetIntValue x1) =? -1)
    then FindOrCreateConstant g (u32_const m32)
    else q ← cop (i32 (GetIntValue x0)) (i32 (GetIntValue x1)); v ← ConvertIntToInt q t;
         FindOrCreateConstant g (u32_const v)
  else if (i64 (GetIntValue x0) =? INT64_MIN) && (i64 (GetIntValue x1) =? -1)
  then FindOrCreateConstant g (u64_const m64)
  else q ← cop (i64 (GetIntValue x0)) (i64 (GetIntValue x1)); v ← ConvertIntToInt q t;
       FindOrCreateConstant g (u64_const v).

Lemma signed_op_folded (cop : Z -> Z -> outcome Z) (op : Z -> Z -> Z) (m32 m64 : Z) :
  IsTypeSigned t = true -> wrap_type t (value_ x1) <> 0 ->
  (forall a b, b <> 0 -> cop a b = Done (op a b)) ->
  (IsInt32Bit t = true -> wrap_type t (op INT32_MIN (-1)) = wrap_type t m32) ->
  wrap_type t (op INT64_MIN (-1)) = wrap_type t m64 ->
  folded g inst t (wrap_type t (op (wrap_type t (value_ x0)) (wrap_type t (value_ x1))))
    (gc ← signed_op cop m32 m64; replace inst gc).
Proof.
  intros Hs Hz Hcop H32 H64. unfold signed_op, GetIntValue.
  destruct (normalized_signed _ Hs Hn0) as [A64 A32]. destruct (normalized_signed _ Hs Hn1) as [B64 B32].
  destruct (IsBytecodeOptimizer g && IsInt32Bit t) eqn:Hb.
  - apply andb_true_iff in Hb as [Hb Hi32]. rewrite (A32 Hi32), (B32 Hi32).
    destruct ((wrap_type t (value_ x0) =? INT32_MIN) && _) eqn:E.
    + apply andb_true_iff in E as [E0%Z.eqb_eq E1%Z.eqb_eq]. rewrite E0, E1, (H32 Hi32).
      by apply (folded_u32 g inst x l W Hl Hx Hnc t).
    + rewrite Hcop by done. cbn [mbind outcome_bind]. by apply (signed_folded _ true).
  - rewrite A64, B64. destruct ((wrap_type t (value_ x0) =? INT64_MIN) && _) eqn:E.
    + apply andb_true_iff in E as [E0%Z.eqb_eq E1%Z.eqb_eq]. rewrite E0, E1, H64.
      apply (folded_u64 g inst x l W Hl Hx Hnc t). by apply wrap_u64.
    + rewrite Hcop by done. cbn [mbind outcome_bind]. by apply (signed_folded _ false).
Qed.
End normalized_inputs.

(** The unsigned branches convert both operands first. *)
Definition unsigned_op (cop : Z -> Z -> outcome Z) : outcome (Graph * InstId) :=
  a ← ConvertIntToInt (GetIntValue x0) t;
  b ← ConvertIntToInt (GetIntValue x1) t;
  q ← cop a b;
  ConstFoldingCreateIntConst g x q false.

Lemma unsigned_op_folded (cop : Z -> Z -> outcome Z) (op : Z -> Z -> Z) :
  IsTypeSigned t = false -> wrap_type t (value_ x1) <> 0 ->
  (forall a b, b <> 0 -> cop a b = Done (op a b)) ->
  folded g inst t (wrap_type t (op (wrap_type t (value_ x0)) (wrap_type t (value_ x1))))
    (gc ← unsigned_op cop; replace inst gc).
Proof.
  intros Hs Hz Hcop. unfold unsigned_op, ConvertIntToInt, GetIntValue. destruct common_int as [_ Hi]. rewrite Hi.
  cbn [mbind outcome_bind]. rewrite !(wrapu_id 64) by by apply unsigned_range. rewrite Hcop by done.
  cbn [mbind outcome_bind]. by apply (folded_create g inst x l W Hl Hx Hnc t).
Qed.

Section dataflow_inputs.
  Context (Hdf : two_dataflow_insts g x = Done (i0, i1, x0, x1)).
  Context (Hz : wrap_type t (value_ x1) <> 0).
  Context (Hn : IsTypeSigned t = true -> normalized t (value_ x0) /\ normalized t (value_ x1)).

Lemma divisor_nonzero : value_ x1 <> 0.
Proof. intros E. apply Hz. rewrite E. by destruct t. Qed.

Lemma Div_folded : folded g inst t (int_value OpDiv t (value_ x0) (value_ x1)) (ConstFoldingDiv g inst).
Proof.
  unfold ConstFoldingDiv, get_inst. rewrite Hx. cbn [mbind outcome_bind]. rewrite Hdf. cbn [mbind outcome_bind].
  rewrite Hc0, Hc1. cbn [negb orb]. destruct common_int as [Hci Hi]. rewrite Hxt, Hci.
  unfold ConstFoldingDivInt2Int, GetIntValue. rewrite (proj2 (Z.eqb_neq _ _) divisor_nonzero), Hxt.
  assert (Hq : forall a b, b <> 0 -> c_div a b = Done (Z.quot a b)).
  { intros a b Hb. unfold c_div. by rewrite (proj2 (Z.eqb_neq b 0) Hb). }
  unfold int_value. cbv zeta. destruct (IsTypeSigned t) eqn:Hs.
  - destruct (Hn eq_refl) as [N0 N1].
    pose proof (signed_op_folded N0 N1 c_div Z.quot INT32_MIN INT64_MIN Hs Hz Hq) as F.
    unfold signed_op, GetIntValue, found in *.
    specialize (F ltac:(by destruct t) ltac:(by destruct t)). revert F.
    destruct (IsBytecodeOptimizer g && IsInt32Bit t); destruct (_ && _); cbn [mbind outcome_bind];
      repeat (match goal with |- context [c_div ?a ?b] => destruct (c_div a b) | |- context [ConvertIntToInt ?a ?b] => destruct (ConvertIntToInt a b) end; cbn [mbind outcome_bind]);
      try (match goal with |- context [FindOrCreateConstant ?a ?b] => destruct (FindOrCreateConstant a b) end; cbn [mbind outcome_bind]); done.
  - pose proof (unsigned_op_folded c_div Z.quot Hs Hz Hq) as F. revert F. unfold unsigned_op, GetIntValue, found.
    repeat (match goal with |- context [c_div ?a ?b] => destruct (c_div a b) | |- context [ConvertIntToInt ?a ?b] => destruct (ConvertIntToInt a b) end; cbn [mbind outcome_bind]); try done.
    destruct (ConstFoldingCreateIntConst _ _ _ _); done.
Qed.

Lemma Mod_folded : folded g inst t (int_value OpMod t (value_ x0) (value_ x1)) (ConstFoldingMod g inst).
Proof.
  unfold ConstFoldingMod, get_inst. rewrite Hx. cbn [mbind outcome_bind]. rewrite Hdf. cbn [mbind outcome_bind].
  rewrite Hc0, Hc1, Hxt. destruct common_int as [Hci Hi].
  assert (IsFloatType t = false) as -> by (by destruct t). cbn [negb andb orb].
  unfold int_value, GetIntValue. cbv zeta.
  assert (Hq : forall a b, b <> 0 -> c_rem a b = Done (Z.rem a b)).
  { intros a b Hb. unfold c_rem. by rewrite (proj2 (Z.eqb_neq b 0) Hb). }
  destruct (Z.eqb_spec (value_ x1) 1) as [E1|_].
  - assert (wrap_type t (value_ x1) = 1) as ->.
    { rewrite E1. clear -Ht. by destruct t. }
    rewrite Z.rem_1_r. by apply (folded_create g inst x l W Hl Hx Hnc t).
  - rewrite bool_decide_eq_true_2 by done. rewrite (proj2 (Z.eqb_neq _ _) divisor_nonzero).
    unfold ConstFoldingModIntConst. rewrite Hxt. destruct (IsTypeSigned t) eqn:Hs.
    + destruct (Hn eq_refl) as [N0 N1].
      apply (signed_op_folded N0 N1 c_rem Z.rem 0 0 Hs Hz Hq); by destruct t.
    + by apply (unsigned_op_folded c_rem Z.rem).
Qed.
End dataflow_inputs.
(** ** Operations that need the whole value, together *)
Section whole_value.
  Context (Hins : two_insts g x = Done (i0, i1, x0, x1)).
  Context (Hn0 : normalized t (value_ x0)) (Hn1 : normalized t (value_ x1)).

Ltac enter := unfold get_inst; rewrite Hx; cbn [mbind outcome_bind]; rewrite Hins; cbn [mbind outcome_bind];
  rewrite Hc0, Hc1; cbn [andb].

Lemma AShr_folded : IsTypeSigned t = true ->
  folded g inst t (int_value OpAShr t (value_ x0) (value_ x1)) (ConstFoldingAShr g inst).
Proof.
  intros Hs. unfold ConstFoldingAShr. enter. rewrite Hxt, GetTypeSize_width by done. cbn [mbind outcome_bind]. cbv zeta.
  unfold GetIntValue, int_value, Bounds.ashr_value. destruct (shift_mask t (value_ x1) Ht) as (E & Hn & E32).
  destruct (normalized_signed _ Hs Hn0) as [A64 A32]. rewrite A64. apply shift_folded.
  - by rewrite E.
  - intros H32. rewrite (E32 H32). do 2 f_equal. rewrite <- (A32 H32) at 2. rewrite <- A64.
    apply wraps_congr. rewrite (wraps_mod_le 32 64) by lia. done.
Qed.

Lemma whole_value_folded (OPC : Opcode) (fold : Graph -> InstId -> outcome (Graph * bool)) :
  (OPC, fold) ∈ [(OpMin, ConstFoldingMin); (OpMax, ConstFoldingMax); (OpAShr, ConstFoldingAShr)] ->
  (OPC = OpAShr -> IsTypeSigned t = true) ->
  folded g inst t (int_value OPC t (value_ x0) (value_ x1)) (fold g inst).
Proof.
  destruct common_int as [Hci _]. rewrite !elem_of_cons, elem_of_nil.
  intros [[= -> ->]|[[= -> ->]|[[= -> ->]|[]]]] Hs; [| |by apply AShr_folded, Hs].
  - unfold ConstFoldingMin, minmax. enter. rewrite Hxt, Hci.
    apply (minmax_folded Hn0 Hn1). intros a b. lia.
  - unfold ConstFoldingMax, minmax. enter. rewrite Hxt, Hci.
    apply (minmax_folded Hn0 Hn1). intros a b. lia.
Qed.
End whole_value.
End with_constants.

(** ** Comparisons *)
Lemma land_sign (w a b : Z) : 0 < w -> in_s w a -> in_s w b -> in_s w (Z.land a b).
Proof.
  intros Hw Ha Hb. pose proof (pow2_pos (w - 1) ltac:(lia)).
  assert (Hq : Z.land a b / 2 ^ (w - 1) = 0 \/ Z.land a b / 2 ^ (w - 1) = -1).
  { rewrite <- Z.shiftr_div_pow2, Z.shiftr_land, !Z.shiftr_div_pow2 by lia.
    assert (S : forall v, in_s w v -> v / 2 ^ (w - 1) = 0 \/ v / 2 ^ (w - 1) = -1).
    { intros v [? ?]. destruct (Z.lt_ge_cases v 0); [right|left; by apply Z.div_small].
      symmetry. apply Z.div_unique with (v + 2 ^ (w - 1)); lia. }
    destruct (S a Ha) as [-> | ->], (S b Hb) as [-> | ->]; auto. }
  pose proof (Z.div_mod (Z.land a b) (2 ^ (w - 1)) ltac:(lia)).
  pose proof (Z.mod_pos_bound (Z.land a b) (2 ^ (w - 1)) ltac:(lia)). unfold in_s.
  destruct Hq as [E|E]; rewrite E in *; lia.
Qed.
(** The 64-bit pattern of a converted operand against its [width t]-bit one. *)
Lemma converted_reading (t : DataType) (v : Z) : arith_type t = true ->
  exists s, wrap_type t v = s /\ (if IsTypeSigned t then in_s (width t) s else in_u (width t) s) /\
    u64 s = (if s <? 0 then s + 2 ^ 64 else s) /\
    wrapu (width t) v = (if s <? 0 then s + 2 ^ width t else s) /\ wraps (width t) s = wraps (width t) v.
Proof.
  intros Ht. exists (wrap_type t v). pose proof (wrap_bounds t v Ht) as B. split; [done|]. split; [done|].
  destruct (arith_width t Ht) as (Hw & _). pose proof (pow2_half (width t) ltac:(lia)).
  assert (2 ^ width t <= 2 ^ 64) by (apply Z.pow_le_mono_r; lia).
  assert (Hm : wrapu (width t) (wrap_type t v) = wrapu (width t) v) by (by apply wrapu_congr, wrap_mod).
  assert (R : - 2 ^ width t <= wrap_type t v < 2 ^ width t).
  { destruct (IsTypeSigned t); unfold in_s, in_u in B; lia. }
  assert (U : forall n, 2 ^ width t <= 2 ^ n -> wrapu n (wrap_type t v) =
    if wrap_type t v <? 0 then wrap_type t v + 2 ^ n else wrap_type t v).
  { intros n Hn. unfold wrapu. destruct (Z.ltb_spec (wrap_type t v) 0); symmetry;
      [apply Z.mod_unique with (-1)|apply Z.mod_unique with 0]; lia. }
  split; [by apply U|]. split; [rewrite <- Hm; by apply U|]. by apply wraps_congr, wrap_mod.
Qed.

Lemma ltb_iff (a b c d : Z) : (a < b <-> c < d) -> (a <? b) = (c <? d).
Proof. intros H. destruct (Z.ltb_spec a b), (Z.ltb_spec c d); lia. Qed.

Lemma unsigned_order (t : DataType) (a b : Z) : arith_type t = true ->
  (u64 (wrap_type t a) <? u64 (wrap_type t b)) = (wrapu (width t) a <? wrapu (width t) b).
Proof.
  intros Ht. destruct (arith_width t Ht) as (Hw & _). pose proof (pow2_half (width t) ltac:(lia)).
  assert (2 ^ width t <= 2 ^ 64) by (apply Z.pow_le_mono_r; lia).
  destruct (converted_reading t a Ht) as (sa & -> & Ba & -> & -> & _).
  destruct (converted_reading t b Ht) as (sb & -> & Bb & -> & -> & _). apply ltb_iff. unfold in_s, in_u in *.
  destruct (IsTypeSigned t), (Z.ltb_spec sa 0), (Z.ltb_spec sb 0); lia.
Qed.

Lemma unsigned_eq (t : DataType) (a b : Z) : arith_type t = true ->
  (u64 (wrap_type t a) =? u64 (wrap_type t b)) = (wrapu (width t) a =? wrapu (width t) b).
Proof.
  intros Ht. pose proof (unsigned_order t a b Ht) as E1. pose proof (unsigned_order t b a Ht) as E2.
  destruct (Z.eqb_spec (u64 (wrap_type t a)) (u64 (wrap_type t b))), (Z.eqb_spec (wrapu (width t) a) (wrapu (width t) b));
    lia.
Qed.

Lemma tst_zero (t : DataType) (a b : Z) : arith_type t = true ->
  (Z.land (u64 (wrap_type t a)) (u64 (wrap_type t b)) =? 0) =
  (Z.land (wrapu (width t) a) (wrapu (width t) b) =? 0).
Proof.
  intros Ht. destruct (arith_width t Ht) as (Hw & _).
  set (c := Z.land (wrap_type t a) (wrap_type t b)).
  assert (E64 : Z.land (u64 (wrap_type t a)) (u64 (wrap_type t b)) = c mod 2 ^ 64).
  { unfold c. symmetry. apply (bitop_mod Z.land andb); [apply Z.land_spec|done|lia]. }
  assert (Ew : Z.land (wrapu (width t) a) (wrapu (width t) b) = c mod 2 ^ width t).
  { unfold c. rewrite (bitop_mod Z.land andb) by (apply Z.land_spec || done || lia). by rewrite !wrap_mod. }
  assert (B : if IsTypeSigned t then in_s (width t) c else in_u (width t) c).
  { pose proof (wrap_bounds t a Ht) as A. pose proof (wrap_bounds t b Ht) as B. destruct (IsTypeSigned t).
    - apply land_sign; (done || lia).
    - unfold c. rewrite <- (wrapu_id (width t) (wrap_type t a)), <- (wrapu_id (width t) (wrap_type t b)) by done.
      unfold wrapu. rewrite <- (bitop_mod Z.land andb) by (apply Z.land_spec || done || lia). apply wrapu_range. lia. }
  rewrite E64, Ew. pose proof (pow2_half (width t) ltac:(lia)).
  assert (2 ^ width t <= 2 ^ 64) by (apply Z.pow_le_mono_r; lia).
  assert (M : forall n, 2 ^ width t <= n -> c mod n = if c <? 0 then c + n else c).
  { intros n Hn. destruct (Z.ltb_spec c 0); symmetry; [apply Z.mod_unique with (-1)|apply Z.mod_unique with 0];
      destruct (IsTypeSigned t); unfold in_s, in_u in B; lia. }
  rewrite !M by lia. destruct (Z.ltb_spec c 0); [|done].
  destruct (IsTypeSigned t); unfold in_s, in_u in B; destruct (Z.eqb_spec (c + 2 ^ 64) 0), (Z.eqb_spec (c + 2 ^ width t) 0); lia.
Qed.

(** The condition the code evaluates is [Compare] at the width of the type. *)
Lemma compare_value (t : DataType) (cc : ConditionCode) (a b : Z) : arith_type t = true ->
  (IsSignedConditionCode cc = true -> IsTypeSigned t = true) ->
  (let c0 := u64 (wrap_type t a) in let c1 := u64 (wrap_type t b) in
   match cc with
    | CC_EQ => c0 =? c1
    | CC_NE => negb (c0 =? c1)
    | CC_LT => i64 c0 <? i64 c1
    | CC_B => c0 <? c1
    | CC_LE => i64 c0 <=? i64 c1
    | CC_BE => c0 <=? c1
    | CC_GT => i64 c0 >? i64 c1
    | CC_A => c0 >? c1
    | CC_GE => i64 c0 >=? i64 c1
    | CC_AE => c0 >=? c1
    | CC_TST_EQ => Z.land c0 c1 =? 0
    | CC_TST_NE => negb (Z.land c0 c1 =? 0)
    end) = Compare (width t) cc a b.
Proof.
  intros Ht Hs. cbv zeta. destruct (arith_width t Ht) as (Hw & _).
  assert (S : IsTypeSigned t = true -> forall v, i64 (u64 (wrap_type t v)) = wraps (width t) v).
  { intros E v. destruct (converted_reading t v Ht) as (s & -> & B & _ & _ & <-). rewrite E in B.
    assert (in_s 64 s).
    { unfold in_s in *. assert (2 ^ (width t - 1) <= 2 ^ (64 - 1)) by (apply Z.pow_le_mono_r; lia). lia. }
    by rewrite wraps_wrapu, !wraps_id by (done || lia). }
  destruct cc; cbn [Compare]; cbv zeta; rewrite ?tst_zero, ?unsigned_eq by done; try done;
    rewrite ?Z.geb_leb, ?Z.gtb_ltb, ?Z.leb_antisym, ?unsigned_order by done; try done;
    by rewrite !(S (Hs eq_refl)).
Qed.
(** * The theorems *)
(** What every fold of an instruction on two integer constants assumes: a
    well-formed graph, in which [inst] is the instruction [x]. *)
Record fold_site (g : Graph) (inst : InstId) (x : Inst) : Prop := {
  site_users : users_wf g;
  site_chain : exists l, const_chain g (firstConstInst_ g) l;
  site_inst : insts g !! inst = Some x;
  site_not_const : IsConst x = false;
}.

(** The inputs are the constants [x0] and [x1]. *)
Definition const_inputs (g : Graph) (x x0 x1 : Inst) : Prop :=
  IsConst x0 = true /\ IsConst x1 = true /\ in_u 64 (value_ x0) /\ in_u 64 (value_ x1) /\
  exists i0 i1, GetInputs x !! 0%nat = Some i0 /\ GetInputs x !! 1%nat = Some i1 /\
    insts g !! i0 = Some x0 /\ insts g !! i1 = Some x1.

Lemma const_inputs_insts (g : Graph) (x x0 x1 : Inst) : const_inputs g x x0 x1 ->
  exists i0 i1, two_insts g x = Done (i0, i1, x0, x1).
Proof.
  intros (_ & _ & _ & _ & i0 & i1 & H0 & H1 & E0 & E1). exists i0, i1.
  unfold two_insts, read, get_inst. rewrite H0, H1. cbn. by rewrite E0, E1.
Qed.
(** C1: folding the arithmetic, bitwise and left or logical-right shift
    instructions on two constants always succeeds: the users of the instruction
    read a constant that denotes, at the instruction's type, the value the
    instruction computes (modulo the width of the type), and the rest of the
    graph is as before. *)
Theorem fold_low_bits (OPC : Opcode) (fold : Graph -> InstId -> outcome (Graph * bool))
    (g : Graph) (inst : InstId) (x x0 x1 : Inst) :
  fold_site g inst x -> const_inputs g x x0 x1 -> arith_type (GetType x) = true ->
  (OPC, fold) ∈ [(OpAdd, ConstFoldingAdd); (OpSub, ConstFoldingSub); (OpMul, ConstFoldingMul);
                 (OpAnd, ConstFoldingAnd); (OpOr, ConstFoldingOr); (OpXor, ConstFoldingXor);
                 (OpShl, ConstFoldingShl); (OpShr, ConstFoldingShr)] ->
  folded g inst (GetType x) (int_value OPC (GetType x) (value_ x0) (value_ x1)) (fold g inst).
Proof.
  intros [W [l Hl] Hx Hnc] Hi Ht Hin. destruct (const_inputs_insts _ _ _ _ Hi) as (i0 & i1 & H2).
  destruct Hi as (H0 & H1 & R0 & _).
  eapply (low_bits_folded g inst x l W Hl Hx Hnc i0 i1 x0 x1); eauto.
Qed.

(** folding minimum, maximum and arithmetic right shift, whose result
    depends on all 64 bits the constants hold: it succeeds with the value of
    the instruction when the constants are extensions of their values. *)
Theorem fold_whole_value (OPC : Opcode) (fold : Graph -> InstId -> outcome (Graph * bool))
    (g : Graph) (inst : InstId) (x x0 x1 : Inst) :
  fold_site g inst x -> const_inputs g x x0 x1 -> arith_type (GetType x) = true ->
  normalized (GetType x) (value_ x0) -> normalized (GetType x) (value_ x1) ->
  (OPC, fold) ∈ [(OpMin, ConstFoldingMin); (OpMax, ConstFoldingMax); (OpAShr, ConstFoldingAShr)] ->
  (OPC = OpAShr -> IsTypeSigned (GetType x) = true) ->
  folded g inst (GetType x) (int_value OPC (GetType x) (value_ x0) (value_ x1)) (fold g inst).
Proof.
  intros [W [l Hl] Hx Hnc] Hi Ht N0 N1 Hin Hs. destruct (const_inputs_insts _ _ _ _ Hi) as (i0 & i1 & H2).
  destruct Hi as (H0 & H1 & _).
  eapply (whole_value_folded g inst x l W Hl Hx Hnc i0 i1 x0 x1); eauto.
Qed.

(** C26: division and remainder by a constant that is not 0 at the type of the instruction, with the
    checks on the operands skipped: the fold truncates towards zero like the instruction,
    the least value divided by -1 included.  The type is an integer type other than BOOL; at a
    signed type the two constants must be held as the extension of their value at the type to 64 bits
    (an INT32 constant held as 0xFFFFFFFF is divided as 4294967295). *)
Theorem fold_division (OPC : Opcode) (fold : Graph -> InstId -> outcome (Graph * bool))
    (g : Graph) (inst : InstId) (x : Inst) (i0 i1 : InstId) (x0 x1 : Inst) :
  fold_site g inst x -> two_dataflow_insts g x = Done (i0, i1, x0, x1) ->
  IsConst x0 = true -> IsConst x1 = true -> arith_type (GetType x) = true ->
  wrap_type (GetType x) (value_ x1) <> 0 ->
  (IsTypeSigned (GetType x) = true -> normalized (GetType x) (value_ x0) /\ normalized (GetType x) (value_ x1)) ->
  (OPC, fold) ∈ [(OpDiv, ConstFoldingDiv); (OpMod, ConstFoldingMod)] ->
  folded g inst (GetType x) (int_value OPC (GetType x) (value_ x0) (value_ x1)) (fold g inst).
Proof.
  intros [W [l Hl] Hx Hnc] H2 H0 H1 Ht Hz Hn. rewrite !elem_of_cons, elem_of_nil.
  intros [[= -> ->]|[[= -> ->]|[]]].
  - eapply (Div_folded g inst x l W Hl Hx Hnc i0 i1 x0 x1); eauto.
  - eapply (Mod_folded g inst x l W Hl Hx Hnc i0 i1 x0 x1); eauto.
Qed.

(** Folds to a constant of 0 or 1. *)
Lemma folded_flag (g : Graph) (inst : InstId) (x : Inst) (b : bool) :
  fold_site g inst x ->
  folded g inst INT32 (if b then 1 else 0) (gc ← ConstFoldingCompareCreateConst g x b; replace inst gc).
Proof.
  intros [W [l Hl] Hx Hnc]. unfold ConstFoldingCompareCreateConst.
  destruct (IsBytecodeOptimizer g) eqn:Hb; [destruct (IsInt32Bit (GetType x))|]; cbn [andb].
  - apply (folded_u32 g inst x l); auto. by destruct b.
  - apply (folded_u64 g inst x l); auto. by destruct b.
  - apply (folded_u64 g inst x l); auto. by destruct b.
Qed.

(** Folding a comparison of two integer constants gives 1 when the condition
    holds of the operands at the operand type's width, and 0 when it does not. *)
Theorem fold_compare (g : Graph) (inst : InstId) (x x0 x1 : Inst) :
  fold_site g inst x -> const_inputs g x x0 x1 -> GetOpcode x = OpCompare ->
  IsFloatType (GetType x0) = false -> arith_type (GetOperandsType x) = true ->
  (IsSignedConditionCode (GetCc x) = true -> IsTypeSigned (GetOperandsType x) = true) ->
  folded g inst INT32
    (if Compare (width (GetOperandsType x)) (GetCc x) (value_ x0) (value_ x1) then 1 else 0)
    (ConstFoldingCompare g inst).
Proof.
  intros Hsite Hi Ho Hf Ht Hs. destruct (const_inputs_insts _ _ _ _ Hi) as (i0 & i1 & H2).
  destruct Hi as (H0 & H1 & _). unfold ConstFoldingCompare, get_inst. rewrite (site_inst _ _ _ Hsite).
  cbn [mbind outcome_bind]. rewrite H2. unfold GetInputType. rewrite Ho. cbn [mbind outcome_bind].
  rewrite H0, H1, Hf. cbn [andb negb]. rewrite bool_decide_eq_true_2 by by apply common_int.
  unfold ConvertIntToInt. rewrite (arith_int _ Ht). cbn [mbind outcome_bind].
  rewrite <- compare_value by done. by apply folded_flag.
Qed.

Lemma GetResult_sgn (a b : Z) : GetResult a b = Z.sgn (a - b).
Proof. unfold GetResult. rewrite Z.gtb_ltb. destruct (Z.ltb_spec b a), (Z.ltb_spec a b); lia. Qed.

(** folding the three-way comparison of two integer constants gives the sign
    of the difference of the operands, read at the operand type. *)
Theorem fold_cmp (g : Graph) (inst : InstId) (x x0 x1 : Inst) :
  fold_site g inst x -> const_inputs g x x0 x1 -> GetOpcode x = OpCmp ->
  arith_type (GetOperandsType x) = true ->
  folded g inst INT32
    (Z.sgn (wrap_type (GetOperandsType x) (value_ x0) - wrap_type (GetOperandsType x) (value_ x1)))
    (ConstFoldingCmp g inst).
Proof.
  intros [W [l Hl] Hx Hnc] Hi Ho Ht. destruct (const_inputs_insts _ _ _ _ Hi) as (i0 & i1 & H2).
  destruct Hi as (H0 & H1 & _). unfold ConstFoldingCmp, get_inst. rewrite Hx. cbn [mbind outcome_bind].
  rewrite H2. unfold GetInputType. rewrite Ho. cbn [mbind outcome_bind]. rewrite H0, H1. cbn [andb].
  set (t := GetOperandsType x) in *. destruct (common_int t Ht) as [-> Hi].
  assert (E : GetIntResult g x0 x1 t = Done (Z.sgn (wrap_type t (value_ x0) - wrap_type t (value_ x1)))).
  { rewrite <- GetResult_sgn. unfold GetIntResult, ConvertIntToInt, GetIntValue. rewrite Hi. cbn [mbind outcome_bind].
    destruct (converted_reading t (value_ x0) Ht) as (s0 & -> & B0 & _).
    destruct (converted_reading t (value_ x1) Ht) as (s1 & -> & B1 & _).
    destruct (arith_width t Ht) as (Hw & _ & Hw32).
    destruct (IsTypeSigned t); destruct (IsBytecodeOptimizer g && IsInt32Bit t) eqn:Hb.
    - apply andb_true_iff in Hb as [_ Hb]. specialize (Hw32 Hb).
      assert (2 ^ (width t - 1) <= 2 ^ (32 - 1)) by (apply Z.pow_le_mono_r; lia).
      assert (R : forall s, in_s (width t) s -> i32 (u64 s) = s).
      { intros s Hs. rewrite <- (wraps_id 32 s) at 2 by (lia || (unfold in_s in *; lia)).
        apply wraps_congr. by apply wrapu_mod_le. }
      by rewrite !R.
    - assert (2 ^ (width t - 1) <= 2 ^ (64 - 1)) by (apply Z.pow_le_mono_r; lia).
      rewrite !wraps_wrapu, !wraps_id by (lia || (unfold in_s in *; lia)). done.
    - apply andb_true_iff in Hb as [_ Hb]. specialize (Hw32 Hb).
      assert (2 ^ width t <= 2 ^ 32) by (apply Z.pow_le_mono_r; lia).
      rewrite !(wrapu_id 64), !(wrapu_id 32) by (unfold in_u in *; lia). done.
    - assert (2 ^ width t <= 2 ^ 64) by (apply Z.pow_le_mono_r; lia).
      rewrite !(wrapu_id 64) by (unfold in_u in *; lia). done. }
  rewrite E. cbn [mbind outcome_bind]. apply (folded_const g inst x l); auto.
  intros c. unfold IsEqualConst. rewrite andb_false_r. intros [_ Ec%Z.eqb_eq]%andb_true_iff.
  rewrite Ec, wrap_u64 by done. apply wraps_id; [done|]. unfold in_s. change (width INT32) with 32. lia.
Qed.
(** * Casts *)
(** Folding a cast between integer types gives the source value, read at
    the type the cast names, converted to the target type. *)
Theorem fold_cast (g : Graph) (inst : InstId) (x x0 : Inst) (i0 : InstId) (src : DataType) :
  fold_site g inst x -> GetInputs x !! 0%nat = Some i0 -> insts g !! i0 = Some x0 -> IsConst x0 = true ->
  GetType x0 ∈ [INT32; INT64] -> GetInputType g x 0 = Done src -> is_int src = true ->
  arith_type (GetType x) = true ->
  folded g inst (GetType x) (wrap_type (GetType x) (wrap_type src (value_ x0))) (ConstFoldingCast g inst).
Proof.
  intros [W [l Hl] Hx Hnc] H0 Hx0 Hc0 Ht0 Hsrc Hi Ht.
  unfold ConstFoldingCast, get_inst, read. rewrite Hx. cbn [mbind outcome_bind]. rewrite H0.
  cbn [mbind outcome_bind]. rewrite Hx0. cbn [mbind outcome_bind]. rewrite Hc0.
  unfold ConstFoldingCastConst, get_inst. rewrite Hx0. cbn [mbind outcome_bind].
  assert ((GetType x0 == INT32) || (GetType x0 == INT64) = true) as ->.
  { rewrite !elem_of_cons, elem_of_nil in Ht0. destruct Ht0 as [->|[->|[]]]; done. }
  unfold ConstFoldingCastIntConst. destruct (common_int _ Ht) as [-> Hit]. rewrite bool_decide_eq_true_2 by done.
  unfold ConstFoldingCastInt2Int, ConstFoldingCreateConst, ConvertIntToInt, GetIntValue. rewrite Hsrc.
  cbn [mbind outcome_bind]. rewrite Hi, Hit. cbn [mbind outcome_bind].
  pose proof (folded_create g inst x l W Hl Hx Hnc (GetType x) (u64 (wrap_type (GetType x) (wrap_type src (value_ x0))))
    _ eq_refl Ht eq_refl) as F.
  rewrite wrap_u64_wrap in F by done. destruct (ConstFoldingCreateIntConst _ _ _ _); cbn [mbind outcome_bind] in *; done.
Qed.
End folding.

(** ** Floating point to integer *)
(** The limits of an integer type as floating-point numbers: the least one is
    exact, the greatest exact or the next integer. *)
Definition limits_ok (f : format) (t : DataType) : bool :=
  let lo := of_int f (MIN_INT t) in
  let hi := of_int f (MAX_INT t) in
  let k := 2 ^ (- min_exp f) in
  finite lo && valid f lo && (sval f lo =? MIN_INT t * k) && finite hi && valid f hi &&
  ((sval f hi =? MAX_INT t * k) || (sval f hi =? (MAX_INT t + 1) * k)).

Lemma limits_near (f : format) (t : DataType) : good f -> arith_type t = true -> limits_ok f t = true.
Proof. intros [-> | ->] Ht; destruct t; try discriminate Ht; vm_compute; reflexivity. Qed.

(** What the conversion must give: not-a-number is 0, the rest is truncated and
    clamped to the type. *)
Definition saturated (f : format) (t : DataType) (v : spec_float) : Z :=
  match v with
  | S754_nan => 0
  | S754_infinity s => if s then MIN_INT t else MAX_INT t
  | _ => Z.max (MIN_INT t) (Z.min (MAX_INT t) (trunc f v))
  end.

Lemma quot_bounds (a k n : Z) : 0 < k ->
  (n * k <= a -> n <= Z.quot a k) /\ (a <= n * k -> Z.quot a k <= n) /\ (0 < n -> a < n * k -> Z.quot a k < n).
Proof.
  intros Hk. pose proof (Z.quot_rem' a k) as E.
  assert (R : a < 0 /\ - k < Z.rem a k <= 0 \/ 0 <= a /\ 0 <= Z.rem a k < k).
  { destruct (Z.lt_ge_cases a 0); [left|right].
    - pose proof (Z.rem_bound_pos_neg a k ltac:(lia) ltac:(lia)). lia.
    - pose proof (Z.rem_bound_pos a k ltac:(lia) ltac:(lia)). lia. }
  set (q := Z.quot a k) in *. set (r := Z.rem a k) in *. clearbody q r.
  repeat split; intros; apply Z.nlt_ge || (apply Z.nle_gt); intros C.
  - assert (k * q <= k * (n - 1)) by (apply Z.mul_le_mono_nonneg_l; lia). lia.
  - assert (k * (n + 1) <= k * q) by (apply Z.mul_le_mono_nonneg_l; lia). lia.
  - assert (k * n <= k * q) by (apply Z.mul_le_mono_nonneg_l; lia).
    assert (k * 1 <= k * n) by (apply Z.mul_le_mono_nonneg_l; lia). lia.
Qed.

(** C36: the conversion of a [float] or [double] constant to an integer type never
    leaves the type: not-a-number becomes 0, infinities and values out of range
    the nearest limit, and any other value its integer part. *)
Theorem ConvertFloatToInt_saturates (f : format) (t : DataType) (v : spec_float) :
  good f -> valid f v = true -> arith_type t = true ->
  ConvertFloatToInt f v t = Done (u64 (saturated f t v)) /\ in_type t (saturated f t v).
Proof.
  intros Hf Hv Ht. pose proof (limits_near f t Hf Ht) as L. unfold limits_ok in L. cbv zeta in L.
  set (k := 2 ^ (- min_exp f)) in *.
  assert (Hk : 0 < k) by (apply pow2_pos; pose proof (good_consts f Hf); lia).
  repeat (apply andb_true_iff in L as [L ?]). destruct (arith_width t Ht) as (Hw & _).
  assert (Hr : MIN_INT t < MAX_INT t /\ 0 < MAX_INT t /\ MIN_INT t <= 0 /\
    forall z, MIN_INT t <= z <= MAX_INT t -> in_type t z).
  { unfold MIN_INT, MAX_INT, in_type, in_s, in_u. clear -Ht. destruct t; try discriminate Ht; cbn; (repeat split; lia). }
  destruct Hr as (Hlt & Hpos & Hneg & Hin). split.
  - unfold ConvertFloatToInt. rewrite (arith_int _ Ht). do 2 f_equal. unfold ConvertFloatToInt_To, saturated.
    assert (Hb : (t == BOOL) = false) by (by destruct t). unfold cast_float. rewrite Hb.
    destruct (finite v) eqn:Fv.
    + unfold SFltb. rewrite !(SFcompare_sval f) by done. unfold trunc. fold k.
      assert (is_nan v = false) as -> by by destruct v.
      pose proof (quot_bounds (sval f v) k) as Q.
      assert (E : (match v with S754_nan => 0 | S754_infinity s => if s then MIN_INT t else MAX_INT t
        | _ => Z.max (MIN_INT t) (Z.min (MAX_INT t) (Z.quot (sval f v) k)) end) =
        Z.max (MIN_INT t) (Z.min (MAX_INT t) (Z.quot (sval f v) k))) by by destruct v.
      rewrite E. destruct (Q (MIN_INT t) Hk) as (Q1 & Q2 & _). destruct (Q (MAX_INT t) Hk) as (Q3 & Q4 & _).
      destruct (Q (MAX_INT t + 1) Hk) as (Q5 & _ & Q6).
      destruct (Z.compare_spec (sval f (of_int f (MIN_INT t))) (sval f v));
        destruct (Z.compare_spec (sval f v) (sval f (of_int f (MAX_INT t)))); lia.
    + destruct v as [| [] | |]; try discriminate Fv; destruct (of_int f (MIN_INT t)) eqn:E1; try done;
        destruct (of_int f (MAX_INT t)) eqn:E2; done.
  - unfold saturated. destruct v as [|[] | |]; apply Hin; lia.
Qed.

(** A constant that initialises an array must be castable; the flag is not
    passed on for integers, so the bytecode optimizer gives up on a cast to
    [FLOAT32]. *)
Lemma literal_flag_dropped {cfg : Config} {runtime : Runtime} (g : Graph) (x x0 : Inst) (i0 : InstId) :
  insts g !! i0 = Some x0 -> GetType x0 ∈ [INT32; INT64] -> IsBytecodeOptimizer g = true ->
  GetType x = FLOAT32 -> ConstFoldingCastConst g x i0 true = Done None.
Proof.
  intros Hx0 Ht Hb Hx. unfold ConstFoldingCastConst, get_inst. rewrite Hx0. cbn [mbind outcome_bind].
  assert ((GetType x0 == INT32) || (GetType x0 == INT64) = true) as ->.
  { rewrite !elem_of_cons, elem_of_nil in Ht. destruct Ht as [->|[->|[]]]; done. }
  unfold ConstFoldingCastIntConst. by rewrite Hx, Hb.
Qed.

(** * Concrete folds *)
#[local] Instance ex_cfg : Config := {| OBJECT_POINTER_SIZE := 4 |}.
#[local] Instance ex_runtime : Runtime :=
  {| IsMethodStatic := false; GetMaxArrayLength := fun _ => INT32_MAX; DynamicCastDoubleToInt := fun _ _ => 0;
     GetClassForField := fun _ => 0; IsFieldReadonly := fun _ => false; IsClassInitialized := fun _ => false;
     GetStaticFieldValue := fun _ => 0 |}.

(** Two constants [a] and [b], the instruction 3 on them, and its user 4. *)
Definition ex_inst (OPC : Opcode) (t : DataType) (ins : list InstId) (us : list (InstId * nat))
    (op_type : DataType) (cc : ConditionCode) (v : Z) (next : option InstId) : Inst :=
  mkInst OPC t ins us 1%positive false op_type cc 0 v next 0 [] false 0 0 None.
Definition ex_const (t : DataType) (us : list (InstId * nat)) (v : Z) (next : option InstId) : Inst :=
  ex_inst OpConstant t [] us NO_TYPE CC_EQ v next.
Definition ex_site (x : Inst) (a b : Inst) (bytecode : bool) : Graph :=
  mkGraph (<[1%positive := a]> (<[2%positive := b]> (<[3%positive := x]>
      {[4%positive := ex_inst OpNeg (GetType x) [3%positive] [] NO_TYPE CC_EQ 0 None]})))
    {[1%positive := mkBlock [] [] None [] 1%positive [1%positive; 2%positive; 3%positive; 4%positive] [] false false]} ∅
    1%positive [1%positive] (Some 1%positive) bytecode false X86_64.
Definition ex_a (t : DataType) (v : Z) : Inst := ex_const t [(3%positive, 0%nat)] v (Some 2%positive).
Definition ex_b (t : DataType) (v : Z) : Inst := ex_const t [(3%positive, 1%nat)] v None.
Definition ex_op (OPC : Opcode) (t op_type : DataType) (cc : ConditionCode) : Inst :=
  ex_inst OPC t [1%positive; 2%positive] [(4%positive, 0%nat)] op_type cc 0 None.

Lemma ex_site_ok (x a b : Inst) (bytecode : bool) :
  users_check (ex_site x a b bytecode) = true -> IsConst x = false ->
  IsConst a = true -> IsConst b = true -> nextConst_ a = Some 2%positive -> nextConst_ b = None ->
  fold_site (ex_site x a b bytecode) 3%positive x.
Proof.
  intros Hu Hx Ha Hb Na Nb. split; [by apply users_check_wf| |done|done].
  exists [1%positive; 2%positive]. apply (chain_cons _ _ a); [done|done|]. rewrite Na.
  apply (chain_cons _ _ b); [done|done|]. rewrite Nb. constructor.
Qed.

Ltac site := apply ex_site_ok; [vm_compute|..]; reflexivity.
Ltac inputs := repeat split; try (vm_compute; congruence); exists 1%positive, 2%positive; repeat split.

(** 200 + 100 at [UINT8] is 44. *)
Lemma fold_low_bits_witness :
  let x := ex_op OpAdd UINT8 NO_TYPE CC_EQ in let g := ex_site x (ex_a INT64 200) (ex_b INT64 100) false in
  folded g 3%positive UINT8 44 (ConstFoldingAdd g 3%positive).
Proof.
  intros x g. apply (fold_low_bits OpAdd ConstFoldingAdd g 3%positive x (ex_a INT64 200) (ex_b INT64 100)).
  - site.
  - inputs.
  - reflexivity.
  - apply list_elem_of_here.
Defined.

(** -7 >> 1 at [INT32], in the bytecode optimizer, is -4. *)
Lemma fold_whole_value_witness :
  let a := ex_a INT32 18446744073709551609 in let b := ex_b INT32 1 in
  let x := ex_op OpAShr INT32 NO_TYPE CC_EQ in let g := ex_site x a b true in
  folded g 3%positive INT32 (-4) (ConstFoldingAShr g 3%positive).
Proof.
  intros a b x g. apply (fold_whole_value OpAShr ConstFoldingAShr g 3%positive x a b).
  - site.
  - inputs.
  - reflexivity.
  - reflexivity.
  - reflexivity.
  - apply list_elem_of_further, list_elem_of_further, list_elem_of_here.
  - reflexivity.
Defined.

(** The least [INT32] divided by -1 is itself, in the bytecode optimizer. *)
Lemma fold_division_witness :
  let a := ex_a INT32 18446744071562067968 in let b := ex_b INT32 18446744073709551615 in
  let x := ex_op OpDiv INT32 NO_TYPE CC_EQ in let g := ex_site x a b true in
  folded g 3%positive INT32 INT32_MIN (ConstFoldingDiv g 3%positive).
Proof.
  intros a b x g. apply (fold_division OpDiv ConstFoldingDiv g 3%positive x 1%positive 2%positive a b).
  - site.
  - reflexivity.
  - reflexivity.
  - reflexivity.
  - reflexivity.
  - discriminate.
  - split; reflexivity.
  - apply list_elem_of_here.
Defined.

(** -1 is above 1 as an unsigned [INT32]. *)
Lemma fold_compare_witness :
  let a := ex_a INT64 18446744073709551615 in let b := ex_b INT64 1 in
  let x := ex_op OpCompare BOOL INT32 CC_A in let g := ex_site x a b false in
  folded g 3%positive INT32 1 (ConstFoldingCompare g 3%positive).
Proof.
  intros a b x g. apply (fold_compare g 3%positive x a b); [site|inputs|reflexivity..|discriminate].
Defined.

(** -1 is less than 1 as an [INT16]. *)
Lemma fold_cmp_witness :
  let a := ex_a INT64 65535 in let b := ex_b INT64 1 in
  let x := ex_op OpCmp INT32 INT16 CC_EQ in let g := ex_site x a b false in
  folded g 3%positive INT32 (-1) (ConstFoldingCmp g 3%positive).
Proof.
  intros a b x g. apply (fold_cmp g 3%positive x a b); [site|inputs|reflexivity..].
Defined.

(** 200, read as an [INT8] and cast to [INT32], is -56. *)
Lemma fold_cast_witness :
  let a := ex_a INT64 200 in let b := ex_b INT64 1 in
  let x := ex_op OpCast INT32 INT8 CC_EQ in let g := ex_site x a b false in
  folded g 3%positive INT32 (-56) (ConstFoldingCast g 3%positive).
Proof.
  intros a b x g.
  apply (fold_cast g 3%positive x a 1%positive INT8); [site|reflexivity..| |reflexivity|reflexivity|reflexivity].
  apply list_elem_of_further, list_elem_of_here.
Defined.

(** 300.0 converted to [UINT8] is 255. *)
Lemma ConvertFloatToInt_witness :
  ConvertFloatToInt binary64 (S754_finite false 5277655813324800 (-44)) UINT8 = Done 255 /\ in_type UINT8 255.
Proof.
  apply (ConvertFloatToInt_saturates binary64 UINT8 (S754_finite false 5277655813324800 (-44)));
    [right|vm_compute|]; reflexivity.
Defined.

End ConstFolding.
