(* ===== verification/DynChunk.v ===== *)
(** The growing byte buffer of the regular expression compiler:
    runtime/regexp/ecmascript/mem/dyn_chunk.h and dyn_chunk.cpp.

    The buffer [buf_] is the memory the chunk owns, [size_] of whose bytes are
    in use.  The allocator and the checked memory functions of the securec
    library are outside the repository: whether they succeed is a parameter.
    Integers are stored with the lowest byte first. *)
From S2P Require Import Prelude.
Local Open Scope Z_scope.
Local Open Scope ark_scope.

(** [New<uint8_t[]>(n)] gives memory; [memcpy_s], [memmove_s] and [memset_s]
    return [EOK] for the given destination size and count (on regions that do
    not overlap, for [memcpy_s]). *)
Class Memory := {
  alloc_ok : nat -> bool;
  mem_ok : nat -> nat -> bool }.

Record DynChunk := mkChunk {
  buf_ : option (list Z);
  isInternalBuffer_ : bool;
  size_ : nat;
  allocatedSize_ : nat;
  error_ : bool }.

Module Chunk.
Definition ALLOCATE_MIN_SIZE : nat := 64.
Definition ALLOCATE_MULTIPLIER : nat := 2.
Definition FAILURE : Z := -1.
Definition SUCCESS : Z := 0.

Definition new_chunk : DynChunk := mkChunk None false 0 0 false.
(** [DynChunk(buf)]: around memory that somebody else owns. *)
Definition of_buffer (buf : list Z) : DynChunk := mkChunk (Some buf) true 0 0 false.

Definition memory (c : DynChunk) : list Z := match buf_ c with Some m => m | None => [] end.
Definition with_buf (buf : list Z) (c : DynChunk) : DynChunk :=
  mkChunk (Some buf) (isInternalBuffer_ c) (size_ c) (allocatedSize_ c) (error_ c).
Definition with_size (n : nat) (c : DynChunk) : DynChunk :=
  mkChunk (buf_ c) (isInternalBuffer_ c) n (allocatedSize_ c) (error_ c).
Definition SetError (c : DynChunk) : DynChunk :=
  mkChunk (buf_ c) (isInternalBuffer_ c) (size_ c) (allocatedSize_ c) true.

(** The bytes of a region, and the memory with a region overwritten; outside
    the buffer both are undefined. *)
Definition load (m : list Z) (offset length : nat) : outcome (list Z) :=
  if (offset + length <=? List.length m)%nat then Done (take length (drop offset m)) else Crash.
Definition store (m : list Z) (offset : nat) (data : list Z) : outcome (list Z) :=
  if (offset + length data <=? List.length m)%nat
  then Done (take offset m ++ data ++ drop (offset + length data) m) else Crash.

(** Integers as bytes. *)
Fixpoint bytes_of (n : nat) (x : Z) : list Z :=
  match n with
  | O => []
  | S n' => x mod 256 :: bytes_of n' (x / 256)
  end.
Fixpoint of_bytes (l : list Z) : Z :=
  match l with
  | [] => 0
  | b :: l' => b + 256 * of_bytes l'
  end.

Section operations.
  Context {memory_ : Memory}.

Definition Expand (c : DynChunk) (newSize : nat) : outcome (DynChunk * Z) :=
  if (allocatedSize_ c <? newSize)%nat then
    if error_ c then Done (c, FAILURE)
    else
    let size := (allocatedSize_ c * ALLOCATE_MULTIPLIER)%nat in
    let newSize := Nat.max (Nat.max size newSize) ALLOCATE_MIN_SIZE in
    if negb (alloc_ok newSize) then Done (SetError c, FAILURE)
    else if negb (mem_ok newSize newSize) then Done (SetError c, FAILURE)
    else
    let newBuf := replicate newSize 0 in
    match buf_ c with
    | None => Done (mkChunk (Some newBuf) (isInternalBuffer_ c) (size_ c) newSize (error_ c), SUCCESS)
    | Some buf =>
        if negb (mem_ok (size_ c) (size_ c)) then Done (SetError c, FAILURE)
        else
          data ← load buf 0 (size_ c);
          newBuf ← store newBuf 0 data;
          Done (mkChunk (Some newBuf) (isInternalBuffer_ c) (size_ c) newSize (error_ c), SUCCESS)
    end
  else Done (c, SUCCESS).

Definition Insert (c : DynChunk) (position len : nat) : outcome (DynChunk * Z) :=
  if (size_ c <? position)%nat then Done (c, FAILURE)
  else
  r ← Expand c (size_ c + len);
  let '(c, res) := r in
  if negb (res =? 0) then Done (c, FAILURE)
  else
  let moveSize := (size_ c - position)%nat in
  if negb (mem_ok moveSize moveSize) then Done (c, FAILURE)
  else
    data ← load (memory c) position moveSize;
    buf ← store (memory c) (position + len) data;
    Done (with_size (size_ c + len) (with_buf buf c), SUCCESS).

(** Makes room for [length] more bytes. *)
Definition reserve (c : DynChunk) (length : nat) : outcome (DynChunk * Z) :=
  if (allocatedSize_ c <? size_ c + length)%nat then Expand c (size_ c + length) else Done (c, SUCCESS).

Definition Emit (c : DynChunk) (data : list Z) : outcome (DynChunk * Z) :=
  r ← reserve c (length data);
  let '(c, res) := r in
  if negb (res =? 0) then Done (c, FAILURE)
  else if negb (mem_ok (length data) (length data)) then Done (c, FAILURE)
  else
    buf ← store (memory c) (size_ c) data;
    Done (with_size (size_ c + length data) (with_buf buf c), SUCCESS).

(** The source is inside the chunk; [memcpy_s] refuses regions that overlap and
    clears the destination. *)
Definition EmitSelf (c : DynChunk) (offset len : nat) : outcome (DynChunk * Z) :=
  r ← reserve c len;
  let '(c, res) := r in
  if negb (res =? 0) then Done (c, FAILURE)
  else if negb (mem_ok len len) then Done (c, FAILURE)
  else
    data ← load (memory c) offset len;
    if (offset <? size_ c + len)%nat && (size_ c <? offset + len)%nat then
      buf ← store (memory c) (size_ c) (replicate len 0);
      Done (with_buf buf c, FAILURE)
    else
      buf ← store (memory c) (size_ c) data;
      Done (with_size (size_ c + len) (with_buf buf c), SUCCESS).

Definition EmitChar (c : DynChunk) (b : Z) : outcome (DynChunk * Z) := Emit c [u8 b].
Definition EmitU16 (c : DynChunk) (data : Z) : outcome (DynChunk * Z) := Emit c (bytes_of 2 (u16 data)).
Definition EmitU32 (c : DynChunk) (data : Z) : outcome (DynChunk * Z) := Emit c (bytes_of 4 (u32 data)).
Definition EmitU64 (c : DynChunk) (data : Z) : outcome (DynChunk * Z) := Emit c (bytes_of 8 (u64 data)).
(** [str] without its terminating zero. *)
Definition EmitStr (c : DynChunk) (str : list Z) : outcome (DynChunk * Z) := Emit c (str ++ [0]).
End operations.

Definition GetSize (c : DynChunk) : nat := size_ c.
Definition GetAllocatedSize (c : DynChunk) : nat := allocatedSize_ c.
Definition GetError (c : DynChunk) : bool := error_ c.

Definition get_int (n : nat) (c : DynChunk) (offset : nat) : outcome Z :=
  data ← load (memory c) offset n; Done (of_bytes data).
Definition GetU32 (c : DynChunk) (offset : nat) : outcome Z := get_int 4 c offset.
Definition GetU16 (c : DynChunk) (offset : nat) : outcome Z := get_int 2 c offset.
Definition GetU8 (c : DynChunk) (offset : nat) : outcome Z := get_int 1 c offset.

Definition put_int (n : nat) (c : DynChunk) (offset : nat) (data : Z) : outcome DynChunk :=
  buf ← store (memory c) offset (bytes_of n data); Done (with_buf buf c).
Definition PutU32 (c : DynChunk) (offset : nat) (data : Z) : outcome DynChunk := put_int 4 c offset (u32 data).
Definition PutU16 (c : DynChunk) (offset : nat) (data : Z) : outcome DynChunk := put_int 2 c offset (u16 data).
Definition PutU8 (c : DynChunk) (offset : nat) (data : Z) : outcome DynChunk := put_int 1 c offset (u8 data).

(** * Bytes of integers *)
Lemma bytes_of_length (n : nat) (x : Z) : length (bytes_of n x) = n.
Proof. revert x; induction n; intros x; cbn; auto. Qed.

Lemma of_bytes_bytes_of (n : nat) (x : Z) : 0 <= x < 256 ^ Z.of_nat n -> of_bytes (bytes_of n x) = x.
Proof.
  revert x; induction n as [|n IH]; intros x Hx; [change (256 ^ Z.of_nat 0) with 1 in Hx; cbn; lia|].
  cbn [bytes_of of_bytes]. rewrite Nat2Z.inj_succ, Z.pow_succ_r in Hx by lia.
  rewrite IH; [pose proof (Z.div_mod x 256); lia|].
  split; [apply Z.div_pos; lia|apply Z.div_lt_upper_bound; lia].
Qed.

Lemma bytes_of_ok (n : nat) (x : Z) : bytes_ok (bytes_of n x).
Proof.
  revert x; induction n as [|n IH]; intros x; cbn; constructor; [|apply IH].
  unfold in_u. change (2 ^ 8) with 256. apply Z.mod_pos_bound. lia.
Qed.

(** * Memory *)
Lemma load_app (a b c : list Z) : load (a ++ b ++ c) (length a) (length b) = Done b.
Proof.
  unfold load. rewrite !length_app, (proj2 (Nat.leb_le _ _)) by lia.
  by rewrite drop_app_length, take_app_length.
Qed.

Lemma store_app (a b b' c : list Z) : length b = length b' ->
  store (a ++ b ++ c) (length a) b' = Done (a ++ b' ++ c).
Proof.
  intros Hl. unfold store. rewrite !length_app, (proj2 (Nat.leb_le _ _)) by lia.
  rewrite take_app_length. do 3 f_equal. rewrite <- Hl, drop_app_ge by lia.
  rewrite Nat.add_comm, Nat.add_sub, drop_app_length. done.
Qed.

Lemma store_length (m data m' : list Z) (offset : nat) :
  store m offset data = Done m' -> length m' = length m.
Proof.
  unfold store. destruct (Nat.leb_spec (offset + length data) (length m)); [|done].
  intros [= <-]. rewrite !length_app, length_take, length_drop. lia.
Qed.

(** * The chunk as a list of bytes *)
(** The bytes in use. *)
Definition contents (c : DynChunk) : list Z := take (size_ c) (memory c).

(** A chunk of the parser: it owns its memory, which is as large as recorded, has
    seen no error, and is empty only before the first byte. *)
Record wf (c : DynChunk) : Prop := {
  wf_owned : isInternalBuffer_ c = false;
  wf_alloc : length (memory c) = allocatedSize_ c;
  wf_size : (size_ c <= allocatedSize_ c)%nat;
  wf_used : buf_ c <> None -> (0 < size_ c)%nat;
  wf_error : error_ c = false }.

Lemma wf_new : wf new_chunk.
Proof. split; cbn; auto. done. Qed.

Lemma contents_length (c : DynChunk) : wf c -> length (contents c) = size_ c.
Proof. intros [_ Ha Hs _ _]. unfold contents. rewrite length_take. lia. Qed.

Lemma memory_split (c : DynChunk) : memory c = contents c ++ drop (size_ c) (memory c).
Proof. unfold contents. by rewrite take_drop. Qed.

Section growth.
  Context {memory_ : Memory}.
  (** The documented behaviour: memory is available, and the checked functions
      accept a destination as large as the count, unless it is empty. *)
  Context (Halloc : forall n, alloc_ok n = true).
  Context (Hmem : forall n, (0 < n)%nat -> mem_ok n n = true).

(** Room for [n] bytes without losing any. *)
Definition has_room (c : DynChunk) (n : nat) (c1 : DynChunk) : Prop :=
  size_ c1 = size_ c /\ (n <= allocatedSize_ c1)%nat /\ length (memory c1) = allocatedSize_ c1 /\
  contents c1 = contents c /\ isInternalBuffer_ c1 = false /\ error_ c1 = false.

Lemma Expand_room (c : DynChunk) (n : nat) : wf c -> (size_ c <= n)%nat ->
  exists c1, Expand c n = Done (c1, SUCCESS) /\ has_room c n c1.
Proof.
  intros [Ho Ha Hs Hu He] Hsn. unfold Expand, has_room.
  destruct (Nat.ltb_spec (allocatedSize_ c) n) as [Hn|Hn]; [|exists c; auto 8].
  rewrite He, Halloc. cbn [negb]. set (k := Nat.max _ _).
  assert (Hk : (n <= k /\ allocatedSize_ c <= k /\ 0 < k)%nat) by (unfold k, ALLOCATE_MIN_SIZE, ALLOCATE_MULTIPLIER; lia).
  rewrite Hmem by lia. cbn [negb]. unfold memory, contents, memory in *. destruct (buf_ c) as [buf|] eqn:Eb.
  - specialize (Hu ltac:(done)). rewrite Hmem by lia. cbn [negb]. unfold load.
    rewrite (proj2 (Nat.leb_le _ _)) by lia. cbn [mbind outcome_bind].
    rewrite drop_0. unfold store. rewrite length_replicate, length_take, (proj2 (Nat.leb_le _ _)) by lia.
    cbn [mbind outcome_bind take app]. eexists. split; [done|].
    cbn [buf_ size_ allocatedSize_ isInternalBuffer_ error_]. rewrite take_0. cbn [app]. split; [done|]. split; [lia|].
    split; [rewrite length_app, length_drop, length_replicate, length_take; lia|]. split; [|done].
    rewrite take_app_le by (rewrite length_take; lia). rewrite take_take. f_equal. lia.
  - eexists. split; [done|]. cbn in *. rewrite length_replicate. assert (size_ c = 0)%nat as -> by lia. auto 8 with lia.
Qed.

(** The chunk an operation leaves behind. *)
Lemma wf_rewritten (c : DynChunk) (n : nat) (buf : list Z) :
  isInternalBuffer_ c = false -> error_ c = false -> length buf = allocatedSize_ c ->
  (0 < n <= allocatedSize_ c)%nat ->
  wf (with_size n (with_buf buf c)) /\ contents (with_size n (with_buf buf c)) = take n buf.
Proof. intros Ho He Hl Hn. split; [split; cbn; auto; lia|done]. Qed.

(** Appending bytes to a chunk succeeds and adds exactly them behind the
    bytes in use, whether or not the memory has to grow. *)
Lemma Emit_appends (c : DynChunk) (data : list Z) : wf c -> data <> [] ->
  exists c', Emit c data = Done (c', SUCCESS) /\ wf c' /\ contents c' = contents c ++ data.
Proof.
  intros Hw Hd. assert (0 < length data)%nat by (destruct data; [done|cbn; lia]).
  assert (Hr : exists c1, reserve c (length data) = Done (c1, SUCCESS) /\ has_room c (size_ c + length data) c1).
  { unfold reserve. destruct (Nat.ltb_spec (allocatedSize_ c) (size_ c + length data)) as [Hn|Hn];
      [apply Expand_room; [done|lia]|]. exists c. unfold has_room. destruct Hw; auto 8. }
  destruct Hr as (c1 & E & Es & Hsz & Hlm & Ec & Ho & He). unfold Emit. rewrite E. cbn [mbind outcome_bind].
  change (SUCCESS =? 0) with true. rewrite Hmem by lia. cbn [negb].
  unfold store. rewrite Hlm, Es, (proj2 (Nat.leb_le _ _)) by lia. cbn [mbind outcome_bind].
  eexists. split; [done|].
  assert (Hlen : length (take (size_ c) (memory c1)) = size_ c) by (rewrite length_take; lia).
  match goal with |- wf (with_size ?n (with_buf ?b ?d)) /\ _ => destruct (wf_rewritten d n b) as [Hwf ->] end;
    [done|done|rewrite !length_app, Hlen, length_drop; lia|lia|]. split; [done|].
  unfold contents in *. rewrite Es in Ec. rewrite app_assoc, take_app_le by (rewrite length_app; lia).
  rewrite <- Ec. apply take_ge. rewrite length_app. lia.
Qed.

(** Inserting room inside a chunk keeps the bytes before the position and
    moves the others behind the room. *)
Lemma Insert_opens (c : DynChunk) (position len : nat) :
  wf c -> (position < size_ c)%nat ->
  exists c' gap, Insert c position len = Done (c', SUCCESS) /\ wf c' /\ length gap = len /\
    contents c' = take position (contents c) ++ gap ++ drop position (contents c).
Proof.
  intros Hw Hp. unfold Insert. rewrite (proj2 (Nat.ltb_ge _ _)) by lia.
  destruct (Expand_room c (size_ c + len) Hw ltac:(lia)) as (c1 & -> & Es & Hsz & Hlm & Ec & Ho & He). cbn [mbind outcome_bind].
  change (SUCCESS =? 0) with true. cbn [negb]. rewrite Es, Hmem by lia. cbn [negb].
  unfold load. rewrite Hlm, (proj2 (Nat.leb_le _ _)) by lia. cbn [mbind outcome_bind].
  assert (Hd : take (size_ c - position) (drop position (memory c1)) = drop position (contents c)).
  { rewrite <- Ec. unfold contents. rewrite Es. by rewrite skipn_firstn_comm. }
  rewrite Hd. assert (Hdl : length (drop position (contents c)) = (size_ c - position)%nat)
    by (rewrite length_drop, (contents_length c Hw); lia).
  unfold store. rewrite Hdl, Hlm, (proj2 (Nat.leb_le _ _)) by lia. cbn [mbind outcome_bind].
  set (gap := take len (drop position (memory c1))).
  assert (Hg : length gap = len) by (unfold gap; rewrite length_take, length_drop; lia).
  assert (Htk : take (position + len) (memory c1) = take position (contents c) ++ gap).
  { rewrite <- Ec. unfold contents. rewrite Es, take_take, Nat.min_l by lia. unfold gap. by rewrite take_take_drop. }
  eexists _, gap. split; [done|].
  match goal with |- wf (with_size ?n (with_buf ?b ?d)) /\ _ => destruct (wf_rewritten d n b) as [Hwf ->] end;
    [done|done|rewrite !length_app, Hdl, length_drop, length_take; lia|lia|]. split; [done|]. split; [done|].
  rewrite Htk. rewrite !app_assoc. rewrite take_app_le.
  - rewrite <- !app_assoc. apply take_ge. rewrite !length_app, Hg, Hdl, length_take, (contents_length c Hw). lia.
  - rewrite !length_app, Hg, Hdl, length_take, (contents_length c Hw). lia.
Qed.
End growth.
(** ** Integers inside the chunk *)
Lemma put_contents (n : nat) (c : DynChunk) (data : Z) (a b d : list Z) :
  wf c -> contents c = a ++ b ++ d -> length b = n -> (0 < n)%nat ->
  exists c', put_int n c (length a) data = Done c' /\ wf c' /\ contents c' = a ++ bytes_of n data ++ d /\
    size_ c' = size_ c.
Proof.
  intros Hw Hc Hb Hn. pose proof (memory_split c) as Hm. pose proof (contents_length c Hw) as Hl. rewrite Hc in Hm, Hl.
  rewrite <- !app_assoc in Hm. set (rest := drop (size_ c) (memory c)) in Hm. clearbody rest.
  unfold put_int. rewrite Hm, (store_app a b) by by rewrite bytes_of_length.
  cbn [mbind outcome_bind]. eexists. split; [done|]. destruct Hw as [Ho Ha Hs Hu He].
  rewrite !length_app in Hl. split; [|split; [|done]].
  - split; cbn; auto; [|lia]. rewrite <- Ha, Hm, !length_app, bytes_of_length. lia.
  - unfold contents. cbn. rewrite !app_assoc, take_app_le by (rewrite !length_app, bytes_of_length; lia).
    apply take_ge. rewrite !length_app, bytes_of_length. lia.
Qed.

(** Reading back what lies at the end of a prefix. *)
Lemma get_memory (n : nat) (c : DynChunk) (x : Z) (a d : list Z) :
  memory c = a ++ bytes_of n x ++ d -> 0 <= x < 256 ^ Z.of_nat n -> get_int n c (length a) = Done x.
Proof.
  intros Hm Hx. unfold get_int. rewrite Hm. rewrite <- (bytes_of_length n x) at 2.
  rewrite load_app. cbn [mbind outcome_bind]. by rewrite of_bytes_bytes_of.
Qed.
End Chunk.
