(* ===== verification/RegExpOpCode.v ===== *)
(** The byte code of the regular expression engine:
    runtime/regexp/ecmascript/regexp_opcode.h and regexp_opcode.cpp.

    Each opcode class emits its instruction behind the code (or inserts it
    inside the code) and prints it.  An instruction is also described as data
    ([Instr]) with its encoding; the theorems relate the two. *)
From S2P Require Import Prelude.
From S2P Require Import DynChunk.
From Stdlib Require Import String.
Local Open Scope Z_scope.
Local Open Scope ark_scope.
#[local] Abbreviation length := List.length.

Module RegExpOpCode.
Import Chunk.

(** * Opcodes and sizes *)
Definition OP_SAVE_START : Z := 0.
Definition OP_SAVE_END : Z := 1.
Definition OP_CHAR : Z := 2.
Definition OP_GOTO : Z := 3.
Definition OP_SPLIT_FIRST : Z := 4.
Definition OP_SPLIT_NEXT : Z := 5.
Definition OP_MATCH_AHEAD : Z := 6.
Definition OP_NEGATIVE_MATCH_AHEAD : Z := 7.
Definition OP_MATCH : Z := 8.
Definition OP_LOOP : Z := 9.
Definition OP_LOOP_GREEDY : Z := 10.
Definition OP_PUSH_CHAR : Z := 11.
Definition OP_CHECK_CHAR : Z := 12.
Definition OP_PUSH : Z := 13.
Definition OP_POP : Z := 14.
Definition OP_SAVE_RESET : Z := 15.
Definition OP_LINE_START : Z := 16.
Definition OP_LINE_END : Z := 17.
Definition OP_WORD_BOUNDARY : Z := 18.
Definition OP_NOT_WORD_BOUNDARY : Z := 19.
Definition OP_ALL : Z := 20.
Definition OP_DOTS : Z := 21.
Definition OP_MATCH_END : Z := 22.
Definition OP_PREV : Z := 23.
Definition OP_RANGE : Z := 24.
Definition OP_BACKREFERENCE : Z := 25.
Definition OP_BACKWARD_BACKREFERENCE : Z := 26.
Definition OP_CHAR32 : Z := 27.
Definition OP_RANGE32 : Z := 28.

(** [g_gIntrinsicSet]: the [size_] of the opcode at each index. *)
Definition g_gIntrinsicSet : list nat :=
  [2; 2; 3; 5; 5; 5; 5; 5; 1; 13; 13; 1; 5; 1; 1; 3; 1; 1; 1; 1; 1; 1; 1; 1; 1; 2; 2; 5; 1]%nat.
(** [GetRegExpOpCode(opCode)->GetSize()]; [at] throws outside the table. *)
Definition GetSizeOf (opCode : Z) : outcome nat := read g_gIntrinsicSet (Z.to_nat opCode).

(** The size of a known opcode. *)
Definition size_of (opCode : Z) : nat := nth (Z.to_nat opCode) g_gIntrinsicSet 0%nat.

(** A range set, as the range opcodes see it. *)
Abbreviation Ranges := (list (Z * Z)).

Section emission.
  Context {memory_ : Memory}.

(** The result of an emission is not looked at. *)
Definition ignore (r : outcome (DynChunk * Z)) : outcome DynChunk := r ← r; Done (fst r).
(** [return GetDynChunkfSize] *)
Definition sized (r : outcome DynChunk) : outcome (DynChunk * nat) := c ← r; Done (c, size_ c).

(** [EmitChar(GetOpCode())] and at most one operand *)
Definition emit_op (opCode : Z) (c : DynChunk) : outcome (DynChunk * nat) :=
  sized (ignore (EmitChar c opCode)).
Definition emit_op_u8 (opCode para : Z) (c : DynChunk) : outcome (DynChunk * nat) :=
  sized (c ← ignore (EmitChar c opCode); ignore (EmitChar c (Z.land para 255))).
Definition emit_op_u16 (opCode para : Z) (c : DynChunk) : outcome (DynChunk * nat) :=
  sized (c ← ignore (EmitChar c opCode); ignore (EmitU16 c (Z.land para 65535))).
Definition emit_op_u32 (opCode para : Z) (c : DynChunk) : outcome (DynChunk * nat) :=
  sized (c ← ignore (EmitChar c opCode); ignore (EmitU32 c para)).
Definition emit_loop (opCode start min max : Z) (c : DynChunk) : outcome (DynChunk * nat) :=
  sized (c ← ignore (EmitChar c opCode); c ← ignore (EmitU32 c start); c ← ignore (EmitU32 c min);
         ignore (EmitU32 c max)).
(** [Insert(offset, GetSize())], the opcode, and at most one operand *)
Definition insert_op (opCode : Z) (c : DynChunk) (offset : nat) : outcome (DynChunk * nat) :=
  sized (c ← ignore (Insert c offset (size_of opCode)); PutU8 c offset opCode).
Definition insert_op_u32 (opCode : Z) (c : DynChunk) (offset : nat) (para : Z) : outcome (DynChunk * nat) :=
  sized (c ← ignore (Insert c offset (size_of opCode)); c ← PutU8 c offset opCode; PutU32 c (offset + 1) para).

(** ** The classes *)
Definition SaveStartOpCode_EmitOpCode (c : DynChunk) (para : Z) := emit_op_u8 OP_SAVE_START para c.
Definition SaveEndOpCode_EmitOpCode (c : DynChunk) (para : Z) := emit_op_u8 OP_SAVE_END para c.
Definition CharOpCode_EmitOpCode (c : DynChunk) (para : Z) := emit_op_u16 OP_CHAR para c.
Definition Char32OpCode_EmitOpCode (c : DynChunk) (para : Z) := emit_op_u32 OP_CHAR32 para c.
Definition GotoOpCode_EmitOpCode (c : DynChunk) (para : Z) := emit_op_u32 OP_GOTO para c.
Definition GotoOpCode_UpdateOpPara (c : DynChunk) (offset : nat) (para : Z) : outcome DynChunk :=
  PutU32 c (offset + 1) para.
Definition SplitNextOpCode_InsertOpCode := insert_op_u32 OP_SPLIT_NEXT.
Definition SplitFirstOpCode_InsertOpCode := insert_op_u32 OP_SPLIT_FIRST.
Definition LoopOpCode_EmitOpCode (c : DynChunk) (start min max : Z) := emit_loop OP_LOOP start min max c.
Definition LoopGreedyOpCode_EmitOpCode (c : DynChunk) (start min max : Z) := emit_loop OP_LOOP_GREEDY start min max c.
Definition PushCharOpCode_InsertOpCode := insert_op OP_PUSH_CHAR.
Definition PushOpCode_InsertOpCode := insert_op OP_PUSH.
Definition PopOpCode_EmitOpCode (c : DynChunk) := emit_op OP_POP c.
Definition CheckCharOpCode_EmitOpCode (c : DynChunk) (offset : Z) := emit_op_u32 OP_CHECK_CHAR offset c.
Definition SaveResetOpCode_InsertOpCode (c : DynChunk) (offset : nat) (start end_ : Z) :
    outcome (DynChunk * nat) :=
  let captureStart := u8 (Z.land start 255) in
  let captureEnd := u8 (Z.land end_ 255) in
  sized (c ← ignore (Insert c offset (size_of OP_SAVE_RESET)); c ← PutU8 c offset OP_SAVE_RESET;
         c ← PutU8 c (offset + 1) captureStart; PutU8 c (offset + 2) captureEnd).
Definition MatchOpCode_EmitOpCode (c : DynChunk) (para : Z) := emit_op OP_MATCH c.
Definition MatchEndOpCode_EmitOpCode (c : DynChunk) (para : Z) := emit_op OP_MATCH_END c.
Definition LineStartOpCode_EmitOpCode (c : DynChunk) (para : Z) := emit_op OP_LINE_START c.
Definition LineEndOpCode_EmitOpCode (c : DynChunk) (para : Z) := emit_op OP_LINE_END c.
Definition WordBoundaryOpCode_EmitOpCode (c : DynChunk) (para : Z) := emit_op OP_WORD_BOUNDARY c.
Definition NotWordBoundaryOpCode_EmitOpCode (c : DynChunk) (para : Z) := emit_op OP_NOT_WORD_BOUNDARY c.
Definition AllOpCode_EmitOpCode (c : DynChunk) (para : Z) := emit_op OP_ALL c.
Definition DotsOpCode_EmitOpCode (c : DynChunk) (para : Z) := emit_op OP_DOTS c.
Definition PrevOpCode_EmitOpCode (c : DynChunk) (para : Z) := emit_op OP_PREV c.
Definition BackReferenceOpCode_EmitOpCode (c : DynChunk) (para : Z) := emit_op_u8 OP_BACKREFERENCE para c.
Definition BackwardBackReferenceOpCode_EmitOpCode (c : DynChunk) (para : Z) :=
  emit_op_u8 OP_BACKWARD_BACKREFERENCE para c.
Definition MatchAheadOpCode_InsertOpCode := insert_op_u32 OP_MATCH_AHEAD.
Definition NegativeMatchAheadOpCode_InsertOpCode := insert_op_u32 OP_NEGATIVE_MATCH_AHEAD.

(** The two loops over the ranges of a set. *)
Fixpoint emit_pairs (emit : DynChunk -> Z -> outcome (DynChunk * Z)) (c : DynChunk) (l : Ranges) : outcome DynChunk :=
  match l with
  | [] => Done c
  | (first, second) :: l' =>
      c ← ignore (emit c first); c ← ignore (emit c second); emit_pairs emit c l'
  end.
Definition RangeOpCode_InsertOpCode (c : DynChunk) (rangeSet : Ranges) : outcome (DynChunk * nat) :=
  sized (c ← ignore (EmitChar c OP_RANGE); c ← ignore (EmitU16 c (Z.of_nat (length rangeSet)));
         emit_pairs EmitU16 c rangeSet).
Definition Range32OpCode_InsertOpCode (c : DynChunk) (rangeSet : Ranges) : outcome (DynChunk * nat) :=
  sized (c ← ignore (EmitChar c OP_RANGE32); c ← ignore (EmitU16 c (Z.of_nat (length rangeSet)));
         emit_pairs EmitU32 c rangeSet).
End emission.

(** * Printing *)
(** What [operator<<] receives. *)
Inductive token := TNum (n : Z) | TChar (b : Z) | TStr (s : string) | TEndl.
Definition tab : string := String (Ascii.ascii_of_nat 9) EmptyString.
Definition at_ (offset : Z) : list token := [TNum offset; TStr ":"; TStr tab].

Definition dump_op (name : string) (size : nat) (c : DynChunk) (offset : nat) : outcome (list token * nat) :=
  Done (at_ (Z.of_nat offset) ++ [TStr name; TEndl], (offset + size)%nat).
Definition dump_u8 (name : string) (size : nat) (c : DynChunk) (offset : nat) : outcome (list token * nat) :=
  para ← GetU8 c (offset + 1);
  Done (at_ (Z.of_nat offset) ++ [TStr name; TStr tab; TNum para; TEndl], (offset + size)%nat).
(** A jump: the operand counts from the next instruction, in [uint32_t]. *)
Definition dump_target (name : string) (size : nat) (c : DynChunk) (offset : nat) : outcome (list token * nat) :=
  para ← GetU32 c (offset + 1);
  Done (at_ (Z.of_nat offset) ++ [TStr name; TStr tab; TNum (u32 (para + Z.of_nat offset + Z.of_nat size)); TEndl],
        (offset + size)%nat).
Definition dump_loop (name : string) (size : nat) (c : DynChunk) (offset : nat) : outcome (list token * nat) :=
  start ← GetU32 c (offset + 1);
  min ← GetU32 c (offset + 5);
  max ← GetU32 c (offset + 9);
  Done (at_ (Z.of_nat offset) ++ [TStr name; TStr tab; TNum (u32 (start + Z.of_nat offset + Z.of_nat size));
          TStr tab; TNum min; TStr tab; TNum max; TEndl], (offset + size)%nat).
Fixpoint dump_pairs (get : DynChunk -> nat -> outcome Z) (width : nat) (c : DynChunk) (offset k : nat) :
    outcome (list token) :=
  match k with
  | O => Done []
  | S k' =>
      a ← get c offset;
      b ← get c (offset + width)%nat;
      rest ← dump_pairs get width c (offset + 2 * width) k';
      Done ([TNum a; TStr tab; TNum b; TStr tab] ++ rest)
  end.
Definition dump_range (name : string) (get : DynChunk -> nat -> outcome Z) (width : nat) (c : DynChunk) (offset : nat) :
    outcome (list token * nat) :=
  size ← GetU16 c (offset + 1);
  ps ← dump_pairs get width c (offset + 3) (Z.to_nat size);
  Done (at_ (Z.of_nat offset) ++ [TStr name; TStr tab] ++ ps ++ [TEndl],
        (offset + Z.to_nat size * (2 * width) + 3)%nat).

Definition CharOpCode_DumpOpCode (c : DynChunk) (offset : nat) : outcome (list token * nat) :=
  para ← GetU16 c (offset + 1);
  Done (at_ (Z.of_nat offset) ++ [TStr "char"; TStr tab; TChar (u8 para); TEndl], (offset + size_of OP_CHAR)%nat).
Definition Char32OpCode_DumpOpCode (c : DynChunk) (offset : nat) : outcome (list token * nat) :=
  para ← GetU32 c (offset + 1);
  Done (at_ (Z.of_nat offset) ++ [TStr "char32"; TStr tab; TChar (u8 para); TEndl], (offset + size_of OP_CHAR32)%nat).
Definition SaveResetOpCode_DumpOpCode (c : DynChunk) (offset : nat) : outcome (list token * nat) :=
  a ← GetU8 c (offset + 1);
  b ← GetU8 c (offset + 2);
  Done (at_ (Z.of_nat offset) ++ [TStr "save_reset"; TStr tab; TNum a; TStr tab; TNum b; TEndl],
        (offset + size_of OP_SAVE_RESET)%nat).

Definition SaveStartOpCode_DumpOpCode := dump_u8 "save_start" (size_of OP_SAVE_START).
Definition SaveEndOpCode_DumpOpCode := dump_u8 "save_end" (size_of OP_SAVE_END).
Definition GotoOpCode_DumpOpCode := dump_target "goto" (size_of OP_GOTO).
Definition SplitNextOpCode_DumpOpCode := dump_target "split_next" (size_of OP_SPLIT_NEXT).
Definition SplitFirstOpCode_DumpOpCode := dump_target "split_first" (size_of OP_SPLIT_FIRST).
Definition LoopOpCode_DumpOpCode := dump_loop "loop" (size_of OP_LOOP).
Definition LoopGreedyOpCode_DumpOpCode := dump_loop "greedy_loop" (size_of OP_LOOP_GREEDY).
Definition PushCharOpCode_DumpOpCode := dump_op "push_char" (size_of OP_PUSH_CHAR).
Definition PushOpCode_DumpOpCode := dump_op "push" (size_of OP_PUSH).
Definition PopOpCode_DumpOpCode := dump_op "pop" (size_of OP_POP).
Definition CheckCharOpCode_DumpOpCode := dump_target "check_char" (size_of OP_CHECK_CHAR).
Definition MatchOpCode_DumpOpCode := dump_op "match" (size_of OP_MATCH).
Definition MatchEndOpCode_DumpOpCode := dump_op "match_end" (size_of OP_MATCH_END).
Definition LineStartOpCode_DumpOpCode := dump_op "line_start" (size_of OP_LINE_START).
Definition LineEndOpCode_DumpOpCode := dump_op "line_end" (size_of OP_LINE_END).
Definition WordBoundaryOpCode_DumpOpCode := dump_op "word_boundary" (size_of OP_WORD_BOUNDARY).
Definition NotWordBoundaryOpCode_DumpOpCode := dump_op "not_word_boundary" (size_of OP_NOT_WORD_BOUNDARY).
Definition AllOpCode_DumpOpCode := dump_op "all" (size_of OP_ALL).
Definition DotsOpCode_DumpOpCode := dump_op "dots" (size_of OP_DOTS).
Definition MatchAheadOpCode_DumpOpCode := dump_target "match_ahead" (size_of OP_MATCH_AHEAD).
Definition NegativeMatchAheadOpCode_DumpOpCode := dump_target "negative_match_ahead" (size_of OP_NEGATIVE_MATCH_AHEAD).
Definition RangeOpCode_DumpOpCode := dump_range "range" GetU16 2.
Definition Range32OpCode_DumpOpCode := dump_range "range32" GetU32 4.
Definition PrevOpCode_DumpOpCode := dump_op "prev" (size_of OP_PREV).
Definition BackReferenceOpCode_DumpOpCode := dump_u8 "backreference" (size_of OP_BACKREFERENCE).
Definition BackwardBackReferenceOpCode_DumpOpCode :=
  dump_u8 "backward_backreference" (size_of OP_BACKWARD_BACKREFERENCE).

(** The virtual call, in the order of [g_gIntrinsicSet]. *)
Definition dump_table : list (DynChunk -> nat -> outcome (list token * nat)) :=
  [SaveStartOpCode_DumpOpCode; SaveEndOpCode_DumpOpCode; CharOpCode_DumpOpCode; GotoOpCode_DumpOpCode;
   SplitFirstOpCode_DumpOpCode; SplitNextOpCode_DumpOpCode; MatchAheadOpCode_DumpOpCode;
   NegativeMatchAheadOpCode_DumpOpCode; MatchOpCode_DumpOpCode; LoopOpCode_DumpOpCode;
   LoopGreedyOpCode_DumpOpCode; PushCharOpCode_DumpOpCode; CheckCharOpCode_DumpOpCode; PushOpCode_DumpOpCode;
   PopOpCode_DumpOpCode; SaveResetOpCode_DumpOpCode; LineStartOpCode_DumpOpCode; LineEndOpCode_DumpOpCode;
   WordBoundaryOpCode_DumpOpCode; NotWordBoundaryOpCode_DumpOpCode; AllOpCode_DumpOpCode; DotsOpCode_DumpOpCode;
   MatchEndOpCode_DumpOpCode; PrevOpCode_DumpOpCode; RangeOpCode_DumpOpCode; BackReferenceOpCode_DumpOpCode;
   BackwardBackReferenceOpCode_DumpOpCode; Char32OpCode_DumpOpCode; Range32OpCode_DumpOpCode].

Definition OP_START_OFFSET : nat := 16.

Fixpoint DumpRegExpOpCode_loop (fuel : nat) (c : DynChunk) (pc : nat) : outcome (list token) :=
  match fuel with
  | O => NoFuel
  | S fuel =>
      opCode ← GetU8 c pc;
      dump ← read dump_table (Z.to_nat opCode);
      r ← dump c pc;
      let '(out, pc) := r in
      rest ← (if (pc <? size_ c)%nat then DumpRegExpOpCode_loop fuel c pc else Done []);
      Done (out ++ rest)
  end.
Definition DumpRegExpOpCode (c : DynChunk) : outcome (list token) :=
  rest ← DumpRegExpOpCode_loop (S (size_ c)) c OP_START_OFFSET;
  Done (TStr "OpCode:" :: TStr tab :: TEndl :: rest).

(** * Instructions as data *)
Inductive Instr :=
| SaveStart (n : Z) | SaveEnd (n : Z) | Char (ch : Z) | Goto (offset : Z) | SplitFirst (offset : Z)
| SplitNext (offset : Z) | MatchAhead (offset : Z) | NegativeMatchAhead (offset : Z) | Match
| Loop (start min max : Z) | LoopGreedy (start min max : Z) | PushChar | CheckChar (offset : Z) | Push | Pop
| SaveReset (first last : Z) | LineStart | LineEnd | WordBoundary | NotWordBoundary | All | Dots | MatchEnd
| Prev | Range (l : Ranges) | BackReference (n : Z) | BackwardBackReference (n : Z) | Char32 (ch : Z)
| Range32 (l : Ranges).

Definition opcode (i : Instr) : Z :=
  match i with
  | SaveStart _ => OP_SAVE_START | SaveEnd _ => OP_SAVE_END | Char _ => OP_CHAR | Goto _ => OP_GOTO
  | SplitFirst _ => OP_SPLIT_FIRST | SplitNext _ => OP_SPLIT_NEXT | MatchAhead _ => OP_MATCH_AHEAD
  | NegativeMatchAhead _ => OP_NEGATIVE_MATCH_AHEAD | Match => OP_MATCH | Loop _ _ _ => OP_LOOP
  | LoopGreedy _ _ _ => OP_LOOP_GREEDY | PushChar => OP_PUSH_CHAR | CheckChar _ => OP_CHECK_CHAR
  | Push => OP_PUSH | Pop => OP_POP | SaveReset _ _ => OP_SAVE_RESET | LineStart => OP_LINE_START
  | LineEnd => OP_LINE_END | WordBoundary => OP_WORD_BOUNDARY | NotWordBoundary => OP_NOT_WORD_BOUNDARY
  | All => OP_ALL | Dots => OP_DOTS | MatchEnd => OP_MATCH_END | Prev => OP_PREV | Range _ => OP_RANGE
  | BackReference _ => OP_BACKREFERENCE | BackwardBackReference _ => OP_BACKWARD_BACKREFERENCE
  | Char32 _ => OP_CHAR32 | Range32 _ => OP_RANGE32
  end.

(** The operands, each with its width in bytes. *)
Definition pair_operands (n : nat) (l : Ranges) : list (nat * Z) :=
  l ≫= fun p => [(n, fst p); (n, snd p)].
Definition operands (i : Instr) : list (nat * Z) :=
  match i with
  | SaveStart n | SaveEnd n | BackReference n | BackwardBackReference n => [(1%nat, n)]
  | Char ch => [(2%nat, ch)]
  | Char32 n | Goto n | SplitFirst n | SplitNext n | MatchAhead n | NegativeMatchAhead n | CheckChar n => [(4%nat, n)]
  | Loop start min max | LoopGreedy start min max => [(4%nat, start); (4%nat, min); (4%nat, max)]
  | SaveReset a b => [(1%nat, a); (1%nat, b)]
  | Range l => (2%nat, Z.of_nat (length l)) :: pair_operands 2 l
  | Range32 l => (2%nat, Z.of_nat (length l)) :: pair_operands 4 l
  | _ => []
  end.

Definition fits (p : nat * Z) : Prop := 0 <= snd p < 256 ^ Z.of_nat (fst p).
Definition operand_bytes (p : nat * Z) : list Z := bytes_of (fst p) (snd p).
Definition encode (i : Instr) : list Z := opcode i :: (operands i ≫= operand_bytes).
(** Operands inside their widths. *)
Definition instr_ok (i : Instr) : Prop := Forall fits (operands i).

(** The call of the parser that puts an instruction behind the code. *)
Definition emit_instr `{Memory} (i : Instr) (c : DynChunk) : outcome (DynChunk * nat) :=
  match i with
  | SaveStart n => SaveStartOpCode_EmitOpCode c n
  | SaveEnd n => SaveEndOpCode_EmitOpCode c n
  | Char ch => CharOpCode_EmitOpCode c ch
  | Char32 ch => Char32OpCode_EmitOpCode c ch
  | Goto n => GotoOpCode_EmitOpCode c n
  | Loop start min max => LoopOpCode_EmitOpCode c start min max
  | LoopGreedy start min max => LoopGreedyOpCode_EmitOpCode c start min max
  | Pop => PopOpCode_EmitOpCode c
  | CheckChar n => CheckCharOpCode_EmitOpCode c n
  | Match => MatchOpCode_EmitOpCode c 0
  | MatchEnd => MatchEndOpCode_EmitOpCode c 0
  | LineStart => LineStartOpCode_EmitOpCode c 0
  | LineEnd => LineEndOpCode_EmitOpCode c 0
  | WordBoundary => WordBoundaryOpCode_EmitOpCode c 0
  | NotWordBoundary => NotWordBoundaryOpCode_EmitOpCode c 0
  | All => AllOpCode_EmitOpCode c 0
  | Dots => DotsOpCode_EmitOpCode c 0
  | Prev => PrevOpCode_EmitOpCode c 0
  | BackReference n => BackReferenceOpCode_EmitOpCode c n
  | BackwardBackReference n => BackwardBackReferenceOpCode_EmitOpCode c n
  | Range l => RangeOpCode_InsertOpCode c l
  | Range32 l => Range32OpCode_InsertOpCode c l
  | SplitFirst _ | SplitNext _ | MatchAhead _ | NegativeMatchAhead _ | PushChar | Push | SaveReset _ _ => Crash
  end.
(** The instructions that are inserted in front of code instead. *)
Definition is_inserted (i : Instr) : bool :=
  match i with
  | SplitFirst _ | SplitNext _ | MatchAhead _ | NegativeMatchAhead _ | PushChar | Push | SaveReset _ _ => true
  | _ => false
  end.
Definition insert_instr `{Memory} (i : Instr) (c : DynChunk) (offset : nat) : outcome (DynChunk * nat) :=
  match i with
  | SplitFirst n => SplitFirstOpCode_InsertOpCode c offset n
  | SplitNext n => SplitNextOpCode_InsertOpCode c offset n
  | MatchAhead n => MatchAheadOpCode_InsertOpCode c offset n
  | NegativeMatchAhead n => NegativeMatchAheadOpCode_InsertOpCode c offset n
  | PushChar => PushCharOpCode_InsertOpCode c offset
  | Push => PushOpCode_InsertOpCode c offset
  | SaveReset a b => SaveResetOpCode_InsertOpCode c offset a b
  | _ => Crash
  end.

Lemma byte_bytes (n : Z) : 0 <= n < 256 -> bytes_of 1 n = [n].
Proof. intros H. cbn. by rewrite Z.mod_small by lia. Qed.

Section theorems.
  Context {memory_ : Memory}.
  Context (Halloc : forall n, alloc_ok n = true).
  Context (Hmem : forall n, (0 < n)%nat -> mem_ok n n = true).

(** Emitting one operand. *)
Lemma emit_operand (c : DynChunk) (n : nat) (x : Z) : wf c -> (0 < n)%nat ->
  exists c', ignore (Emit c (bytes_of n x)) = Done c' /\ wf c' /\ contents c' = contents c ++ bytes_of n x.
Proof.
  intros Hw Hn. destruct (Emit_appends Halloc Hmem c (bytes_of n x)) as (c' & E & Hw' & Hc); [done|destruct n; [lia|done]|].
  exists c'. unfold ignore. rewrite E. cbn. auto.
Qed.

Lemma emit_char (c : DynChunk) (x : Z) : wf c -> 0 <= x < 256 ->
  exists c', ignore (EmitChar c x) = Done c' /\ wf c' /\ contents c' = contents c ++ [x].
Proof.
  intros Hw Hx. unfold EmitChar. rewrite wrapu_id by done. rewrite <- (byte_bytes x) by done.
  apply emit_operand; [done|lia].
Qed.

Lemma emit_u16 (c : DynChunk) (x : Z) : wf c -> fits (2%nat, x) ->
  exists c', ignore (EmitU16 c x) = Done c' /\ wf c' /\ contents c' = contents c ++ bytes_of 2 x.
Proof. intros Hw Hx. unfold EmitU16. rewrite wrapu_id by done. apply emit_operand; [done|lia]. Qed.

Lemma emit_u32 (c : DynChunk) (x : Z) : wf c -> fits (4%nat, x) ->
  exists c', ignore (EmitU32 c x) = Done c' /\ wf c' /\ contents c' = contents c ++ bytes_of 4 x.
Proof. intros Hw Hx. unfold EmitU32. rewrite wrapu_id by done. apply emit_operand; [done|lia]. Qed.

Lemma emit_pairs_appends (n : nat) (emit : DynChunk -> Z -> outcome (DynChunk * Z)) (l : Ranges) :
  (forall c x, wf c -> fits (n, x) -> exists c', ignore (emit c x) = Done c' /\ wf c' /\
     contents c' = contents c ++ bytes_of n x) ->
  forall c, wf c -> Forall fits (pair_operands n l) ->
  exists c', emit_pairs emit c l = Done c' /\ wf c' /\
    contents c' = contents c ++ (pair_operands n l ≫= operand_bytes).
Proof.
  intros Hemit. induction l as [|[a b] l IH]; intros c Hw Hf; cbn.
  - exists c. by rewrite app_nil_r.
  - cbn in Hf. inversion Hf as [|?? Ha Hf1]; subst. inversion Hf1 as [|?? Hb Hf2]; subst.
    destruct (Hemit c a Hw Ha) as (c1 & -> & W1 & C1). cbn [mbind outcome_bind].
    destruct (Hemit c1 b W1 Hb) as (c2 & -> & W2 & C2). cbn [mbind outcome_bind].
    destruct (IH c2 W2 Hf2) as (c3 & -> & W3 & C3). exists c3. split; [done|]. split; [done|].
    rewrite C3, C2, C1, <- !app_assoc. done.
Qed.
(** What an emission achieves: [data] behind the code, and the new size. *)
Definition appended (c : DynChunk) (data : list Z) (r : outcome (DynChunk * nat)) : Prop :=
  exists c', r = Done (c', size_ c') /\ wf c' /\ contents c' = contents c ++ data.

Lemma emit_op_ok (op : Z) (c : DynChunk) : wf c -> 0 <= op < 256 -> appended c [op] (emit_op op c).
Proof.
  intros Hw Hop. destruct (emit_char c op Hw Hop) as (c1 & E1 & W1 & C1). exists c1.
  unfold emit_op, sized. by rewrite E1.
Qed.

Lemma land_low (n k : Z) : 0 <= k -> 0 <= n < 2 ^ k -> Z.land n (2 ^ k - 1) = n.
Proof. intros Hk Hn. rewrite land_mask by done. by apply Z.mod_small. Qed.

Lemma emit_op_u8_ok (op x : Z) (c : DynChunk) : wf c -> 0 <= op < 256 -> fits (1%nat, x) ->
  appended c (op :: bytes_of 1 x) (emit_op_u8 op x c).
Proof.
  intros Hw Hop Hx. destruct (emit_char c op Hw Hop) as (c1 & E1 & W1 & C1).
  unfold emit_op_u8, sized. rewrite E1. cbn [mbind outcome_bind].
  change 255 with (2 ^ 8 - 1). rewrite (land_low x 8) by (done || lia). destruct (emit_char c1 x W1 Hx) as (c2 & -> & W2 & C2).
  exists c2. rewrite byte_bytes by done. by rewrite C2, C1, <- app_assoc.
Qed.

Lemma emit_op_u16_ok (op x : Z) (c : DynChunk) : wf c -> 0 <= op < 256 -> fits (2%nat, x) ->
  appended c (op :: bytes_of 2 x) (emit_op_u16 op x c).
Proof.
  intros Hw Hop Hx. destruct (emit_char c op Hw Hop) as (c1 & E1 & W1 & C1).
  unfold emit_op_u16, sized. rewrite E1. cbn [mbind outcome_bind].
  change 65535 with (2 ^ 16 - 1). rewrite (land_low x 16) by (done || lia). destruct (emit_u16 c1 x W1 Hx) as (c2 & -> & W2 & C2).
  exists c2. by rewrite C2, C1, <- app_assoc.
Qed.

Lemma emit_op_u32_ok (op x : Z) (c : DynChunk) : wf c -> 0 <= op < 256 -> fits (4%nat, x) ->
  appended c (op :: bytes_of 4 x) (emit_op_u32 op x c).
Proof.
  intros Hw Hop Hx. destruct (emit_char c op Hw Hop) as (c1 & E1 & W1 & C1).
  unfold emit_op_u32, sized. rewrite E1. cbn [mbind outcome_bind].
  destruct (emit_u32 c1 x W1 Hx) as (c2 & -> & W2 & C2). exists c2. by rewrite C2, C1, <- app_assoc.
Qed.

Lemma emit_loop_ok (op a b d : Z) (c : DynChunk) : wf c -> 0 <= op < 256 -> Forall fits [(4%nat, a); (4%nat, b); (4%nat, d)] ->
  appended c (op :: bytes_of 4 a ++ bytes_of 4 b ++ bytes_of 4 d) (emit_loop op a b d c).
Proof.
  intros Hw Hop Hf. inversion Hf as [|?? Ha Hf1]; subst. inversion Hf1 as [|?? Hb Hf2]; subst.
  inversion Hf2 as [|?? Hd _]; subst. destruct (emit_char c op Hw Hop) as (c1 & E1 & W1 & C1).
  unfold emit_loop, sized. rewrite E1. cbn [mbind outcome_bind].
  destruct (emit_u32 c1 a W1 Ha) as (c2 & -> & W2 & C2). cbn [mbind outcome_bind].
  destruct (emit_u32 c2 b W2 Hb) as (c3 & -> & W3 & C3). cbn [mbind outcome_bind].
  destruct (emit_u32 c3 d W3 Hd) as (c4 & -> & W4 & C4). exists c4.
  by rewrite C4, C3, C2, C1, <- !app_assoc.
Qed.

Lemma emit_range_ok (op : Z) (n : nat) (emit : DynChunk -> Z -> outcome (DynChunk * Z)) (l : Ranges) (c : DynChunk) :
  (forall c x, wf c -> fits (n, x) -> exists c', ignore (emit c x) = Done c' /\ wf c' /\
     contents c' = contents c ++ bytes_of n x) ->
  wf c -> 0 <= op < 256 -> Forall fits ((2%nat, Z.of_nat (length l)) :: pair_operands n l) ->
  appended c (op :: bytes_of 2 (Z.of_nat (length l)) ++ (pair_operands n l ≫= operand_bytes))
    (sized (c ← ignore (EmitChar c op); c ← ignore (EmitU16 c (Z.of_nat (length l))); emit_pairs emit c l)).
Proof.
  intros Hemit Hw Hop Hf. inversion Hf as [|?? Hn Hl]; subst.
  destruct (emit_char c op Hw Hop) as (c1 & E1 & W1 & C1). unfold sized. rewrite E1. cbn [mbind outcome_bind].
  destruct (emit_u16 c1 _ W1 Hn) as (c2 & -> & W2 & C2). cbn [mbind outcome_bind].
  destruct (emit_pairs_appends n emit l Hemit c2 W2 Hl) as (c3 & -> & W3 & C3). exists c3.
  by rewrite C3, C2, C1, <- !app_assoc.
Qed.

Lemma emit_instr_appended (i : Instr) (c : DynChunk) : wf c -> instr_ok i -> is_inserted i = false ->
  appended c (encode i) (emit_instr i c).
Proof.
  intros Hw Hok Hi. unfold instr_ok in Hok.
  destruct i; try discriminate Hi; cbn [emit_instr];
    try (apply emit_op_ok; [done|vm_compute; split; congruence]);
    match goal with
    | |- appended _ (encode (Range _)) _ =>
        apply (emit_range_ok OP_RANGE 2 EmitU16); [apply emit_u16|done|vm_compute; split; congruence|done]
    | |- appended _ (encode (Range32 _)) _ =>
        apply (emit_range_ok OP_RANGE32 4 EmitU32); [apply emit_u32|done|vm_compute; split; congruence|done]
    | _ => unfold encode; cbn [operands opcode mbind list_bind]; rewrite ?app_nil_r;
        first [apply emit_loop_ok | apply emit_op_u8_ok | apply emit_op_u16_ok | apply emit_op_u32_ok];
        [done|vm_compute; split; congruence|by first [exact Hok|inversion Hok]]
    end.
Qed.

(** putting an instruction behind the code appends exactly its encoding:
    the opcode and its operands, lowest byte first; the size returned is the
    new size of the code. *)
Theorem emit_encodes (i : Instr) (c : DynChunk) :
  wf c -> instr_ok i -> is_inserted i = false ->
  exists c', emit_instr i c = Done (c', size_ c') /\ wf c' /\ contents c' = contents c ++ encode i.
Proof. apply emit_instr_appended. Qed.
(** ** Insertion *)
Definition inserted (c : DynChunk) (offset : nat) (data : list Z) (r : outcome (DynChunk * nat)) : Prop :=
  exists c', r = Done (c', size_ c') /\ wf c' /\
    contents c' = take offset (contents c) ++ data ++ drop offset (contents c).

(** Room inside the code, and one operand written into what is left of it. *)
Lemma open_room (c : DynChunk) (offset n : nat) : wf c -> (offset < size_ c)%nat ->
  exists c1 gap, ignore (Insert c offset n) = Done c1 /\ wf c1 /\ length gap = n /\
    length (take offset (contents c)) = offset /\
    contents c1 = take offset (contents c) ++ gap ++ drop offset (contents c).
Proof.
  intros Hw Ho. destruct (Insert_opens Halloc Hmem c offset n Hw Ho) as (c1 & gap & E & W1 & Hg & C1).
  exists c1, gap. unfold ignore. rewrite E. split; [done|]. split; [done|]. split; [done|]. split; [|done].
  rewrite length_take, (contents_length c Hw). lia.
Qed.

Lemma write_operand (n : nat) (c : DynChunk) (offset : nat) (x : Z) (a gap d : list Z) :
  wf c -> contents c = a ++ gap ++ d -> offset = length a -> (0 < n <= length gap)%nat ->
  exists c', put_int n c offset x = Done c' /\ wf c' /\
    contents c' = (a ++ bytes_of n x) ++ drop n gap ++ d.
Proof.
  intros Hw Hc -> Hn.
  destruct (put_contents n c x a (take n gap) (drop n gap ++ d)) as (c' & E & W & C & _);
    [done|rewrite Hc; by rewrite (app_assoc (take n gap)), take_drop|rewrite length_take; lia|lia|].
  exists c'. rewrite C, <- app_assoc. auto.
Qed.

Lemma insert_op_ok (op : Z) (c : DynChunk) (offset : nat) : wf c -> (offset < size_ c)%nat ->
  0 <= op < 256 -> size_of op = 1%nat -> inserted c offset [op] (insert_op op c offset).
Proof.
  intros Hw Ho Hop Hs. unfold insert_op, sized. rewrite Hs.
  destruct (open_room c offset 1 Hw Ho) as (c1 & gap & -> & W1 & Hg & Ha & C1). cbn [mbind outcome_bind].
  unfold PutU8. rewrite wrapu_id by done.
  destruct (write_operand 1 c1 offset op _ gap _ W1 C1) as (c2 & -> & W2 & C2); [done|lia|]. cbn [mbind outcome_bind].
  exists c2. rewrite C2, byte_bytes, drop_ge, <- app_assoc by (done || lia). done.
Qed.

Lemma insert_op_u32_ok (op x : Z) (c : DynChunk) (offset : nat) : wf c -> (offset < size_ c)%nat ->
  0 <= op < 256 -> fits (4%nat, x) -> size_of op = 5%nat ->
  inserted c offset (op :: bytes_of 4 x) (insert_op_u32 op c offset x).
Proof.
  intros Hw Ho Hop Hx Hs. unfold insert_op_u32, sized. rewrite Hs.
  destruct (open_room c offset 5 Hw Ho) as (c1 & gap & -> & W1 & Hg & Ha & C1). cbn [mbind outcome_bind].
  unfold PutU8, PutU32. rewrite !wrapu_id by done.
  destruct (write_operand 1 c1 offset op _ gap _ W1 C1) as (c2 & -> & W2 & C2); [done|lia|]. cbn [mbind outcome_bind].
  destruct (write_operand 4 c2 (offset + 1) x _ (drop 1 gap) _ W2 C2) as (c3 & -> & W3 & C3);
    [rewrite length_app, bytes_of_length; lia|rewrite length_drop; lia|]. cbn [mbind outcome_bind].
  exists c3. rewrite C3, byte_bytes, drop_drop, drop_ge, <- !app_assoc by (done || (cbn; lia)). done.
Qed.

Lemma insert_reset_ok (a b : Z) (c : DynChunk) (offset : nat) : wf c -> (offset < size_ c)%nat ->
  fits (1%nat, a) -> fits (1%nat, b) ->
  inserted c offset (OP_SAVE_RESET :: bytes_of 1 a ++ bytes_of 1 b) (SaveResetOpCode_InsertOpCode c offset a b).
Proof.
  intros Hw Ho Hfa Hfb. unfold SaveResetOpCode_InsertOpCode, sized. change 255 with (2 ^ 8 - 1).
  rewrite !(land_low _ 8), !wrapu_id by (done || lia).
  destruct (open_room c offset 3 Hw Ho) as (c1 & gap & E1 & W1 & Hg & Ha & C1).
  change (size_of OP_SAVE_RESET) with 3%nat. rewrite E1. cbn [mbind outcome_bind].
  unfold PutU8. rewrite !wrapu_id by done.
  destruct (write_operand 1 c1 offset OP_SAVE_RESET _ gap _ W1 C1) as (c2 & -> & W2 & C2); [done|lia|]. cbn [mbind outcome_bind].
  destruct (write_operand 1 c2 (offset + 1) a _ (drop 1 gap) _ W2 C2) as (c3 & -> & W3 & C3);
    [rewrite length_app, bytes_of_length; lia|rewrite length_drop; lia|]. cbn [mbind outcome_bind].
  destruct (write_operand 1 c3 (offset + 2) b _ (drop 1 (drop 1 gap)) _ W3 C3) as (c4 & -> & W4 & C4);
    [rewrite !length_app, !bytes_of_length; lia|rewrite !length_drop; lia|]. cbn [mbind outcome_bind].
  exists c4. rewrite C4, !drop_drop, drop_ge, <- !app_assoc by (cbn; lia). done.
Qed.

Lemma insert_instr_inserted (i : Instr) (c : DynChunk) (offset : nat) :
  wf c -> (offset < size_ c)%nat -> instr_ok i -> is_inserted i = true ->
  inserted c offset (encode i) (insert_instr i c offset).
Proof.
  intros Hw Ho Hok Hi. unfold instr_ok in Hok.
  destruct i; try discriminate Hi; unfold encode; cbn [insert_instr operands opcode mbind list_bind] in *;
    rewrite ?app_nil_r;
    first [apply insert_op_u32_ok | apply insert_op_ok | apply insert_reset_ok]; try done;
    (by inversion Hok as [|?? ? Hok2]; try inversion Hok2) || (vm_compute; split; congruence).
Qed.

(** inserting an instruction in front of code that was already emitted puts
    exactly its encoding at the offset and moves the rest behind it. *)
Theorem insert_encodes (i : Instr) (c : DynChunk) (offset : nat) :
  wf c -> (offset < size_ c)%nat -> instr_ok i -> is_inserted i = true ->
  exists c', insert_instr i c offset = Done (c', size_ c') /\ wf c' /\
    contents c' = take offset (contents c) ++ encode i ++ drop offset (contents c).
Proof. apply insert_instr_inserted. Qed.
End theorems.
(** * The listing *)
(** The line that is printed for an instruction at an offset. *)
Definition target (offset n : Z) (size : nat) : token := TNum (u32 (n + offset + Z.of_nat size)).
Definition pair_tokens (l : Ranges) : list token := l ≫= fun p => [TNum (fst p); TStr tab; TNum (snd p); TStr tab].
Definition line (name : string) (args : list token) : list token := TStr name :: args ++ [TEndl].
Definition text (i : Instr) (offset : nat) : list token :=
  let o := Z.of_nat offset in
  at_ o ++
  match i with
  | SaveStart n => line "save_start" [TStr tab; TNum n]
  | SaveEnd n => line "save_end" [TStr tab; TNum n]
  | Char ch => line "char" [TStr tab; TChar (u8 ch)]
  | Goto n => line "goto" [TStr tab; target o n 5]
  | SplitFirst n => line "split_first" [TStr tab; target o n 5]
  | SplitNext n => line "split_next" [TStr tab; target o n 5]
  | MatchAhead n => line "match_ahead" [TStr tab; target o n 5]
  | NegativeMatchAhead n => line "negative_match_ahead" [TStr tab; target o n 5]
  | Match => line "match" []
  | Loop start min max => line "loop" [TStr tab; target o start 13; TStr tab; TNum min; TStr tab; TNum max]
  | LoopGreedy start min max =>
      line "greedy_loop" [TStr tab; target o start 13; TStr tab; TNum min; TStr tab; TNum max]
  | PushChar => line "push_char" []
  | CheckChar n => line "check_char" [TStr tab; target o n 5]
  | Push => line "push" []
  | Pop => line "pop" []
  | SaveReset a b => line "save_reset" [TStr tab; TNum a; TStr tab; TNum b]
  | LineStart => line "line_start" []
  | LineEnd => line "line_end" []
  | WordBoundary => line "word_boundary" []
  | NotWordBoundary => line "not_word_boundary" []
  | All => line "all" []
  | Dots => line "dots" []
  | MatchEnd => line "match_end" []
  | Prev => line "prev" []
  | Range l => line "range" (TStr tab :: pair_tokens l)
  | BackReference n => line "backreference" [TStr tab; TNum n]
  | BackwardBackReference n => line "backward_backreference" [TStr tab; TNum n]
  | Char32 ch => line "char32" [TStr tab; TChar (u8 ch)]
  | Range32 l => line "range32" (TStr tab :: pair_tokens l)
  end.
Fixpoint listing (code : list Instr) (offset : nat) : list token :=
  match code with
  | [] => []
  | i :: code => text i offset ++ listing code (offset + length (encode i))
  end.

(** Reading an operand of an instruction in the code. *)
Lemma get_at (n : nat) (c : DynChunk) (offset : nat) (x : Z) (a d : list Z) :
  memory c = a ++ bytes_of n x ++ d -> offset = length a -> fits (n, x) -> get_int n c offset = Done x.
Proof. intros Hm -> Hx. by eapply get_memory. Qed.

(** The code around one instruction. *)
Definition code_at (c : DynChunk) (offset : nat) (l : list Z) : Prop :=
  exists a d, memory c = a ++ l ++ d /\ length a = offset.

Lemma code_at_app (c : DynChunk) (offset : nat) (l1 l2 : list Z) :
  code_at c offset (l1 ++ l2) -> code_at c offset l1 /\ code_at c (offset + length l1) l2.
Proof.
  intros (a & d & Hm & <-). rewrite <- app_assoc in Hm. split; [by exists a, (l2 ++ d)|].
  exists (a ++ l1), d. by rewrite <- app_assoc, length_app.
Qed.

Lemma get_code (n : nat) (c : DynChunk) (offset : nat) (x : Z) (l : list Z) :
  code_at c offset (bytes_of n x ++ l) -> fits (n, x) -> get_int n c offset = Done x.
Proof. intros (a & d & Hm & <-) Hx. rewrite <- app_assoc in Hm. by eapply get_memory. Qed.

Lemma get_opcode (c : DynChunk) (offset : nat) (i : Instr) :
  code_at c offset (encode i) ->
  GetU8 c offset = Done (opcode i) /\ code_at c (offset + 1) (operands i ≫= operand_bytes).
Proof.
  intros H. assert (Hop : 0 <= opcode i < 256) by (destruct i; vm_compute; split; congruence).
  unfold encode in H. split.
  - apply (get_code 1 c offset (opcode i) (operands i ≫= operand_bytes)); [by rewrite byte_bytes|done].
  - apply (code_at_app c offset [opcode i] (operands i ≫= operand_bytes)) in H. by destruct H.
Qed.

(** The operands, one after the other. *)
Lemma get_operand (c : DynChunk) (offset n : nat) (x : Z) (ps : list (nat * Z)) :
  code_at c offset (((n, x) :: ps) ≫= operand_bytes) -> Forall fits ((n, x) :: ps) ->
  get_int n c offset = Done x /\ code_at c (offset + n) (ps ≫= operand_bytes) /\ Forall fits ps.
Proof.
  intros H Hf. inversion Hf as [|?? Hx Hf']; subst. cbn in H.
  split; [by eapply get_code|]. split; [|done]. apply code_at_app in H as [_ H].
  by rewrite bytes_of_length in H.
Qed.

Lemma dump_pairs_code (n : nat) (l : Ranges) (c : DynChunk) (offset : nat) :
  code_at c offset (pair_operands n l ≫= operand_bytes) -> Forall fits (pair_operands n l) ->
  dump_pairs (get_int n) n c offset (length l) = Done (pair_tokens l).
Proof.
  revert offset. induction l as [|[a b] l IH]; intros offset H Hf; [done|].
  cbn [length dump_pairs]. destruct (get_operand c offset n a _ H Hf) as (-> & H1 & Hf1). cbn [mbind outcome_bind].
  destruct (get_operand c _ n b _ H1 Hf1) as (-> & H2 & Hf2). cbn [mbind outcome_bind].
  rewrite (IH (offset + 2 * n)%nat); [done| |done].
  by replace (offset + 2 * n)%nat with (offset + n + n)%nat by lia.
Qed.

Lemma pair_operands_length (n : nat) (l : Ranges) :
  length (pair_operands n l ≫= operand_bytes) = (length l * (2 * n))%nat.
Proof.
  induction l as [|[a b] l IH]; [done|].
  change (pair_operands n ((a, b) :: l) ≫= operand_bytes) with
    (bytes_of n a ++ bytes_of n b ++ (pair_operands n l ≫= operand_bytes)).
  rewrite !length_app, !bytes_of_length, IH. cbn [length]. lia.
Qed.

(** The printer of an instruction. *)
Definition dump_of (i : Instr) : DynChunk -> nat -> outcome (list token * nat) :=
  match i with
  | SaveStart _ => dump_u8 "save_start" 2 | SaveEnd _ => dump_u8 "save_end" 2
  | Char _ => CharOpCode_DumpOpCode | Goto _ => dump_target "goto" 5
  | SplitFirst _ => dump_target "split_first" 5 | SplitNext _ => dump_target "split_next" 5
  | MatchAhead _ => dump_target "match_ahead" 5
  | NegativeMatchAhead _ => dump_target "negative_match_ahead" 5 | Match => dump_op "match" 1
  | Loop _ _ _ => dump_loop "loop" 13 | LoopGreedy _ _ _ => dump_loop "greedy_loop" 13
  | PushChar => dump_op "push_char" 1 | CheckChar _ => dump_target "check_char" 5
  | Push => dump_op "push" 1 | Pop => dump_op "pop" 1 | SaveReset _ _ => SaveResetOpCode_DumpOpCode
  | LineStart => dump_op "line_start" 1 | LineEnd => dump_op "line_end" 1
  | WordBoundary => dump_op "word_boundary" 1 | NotWordBoundary => dump_op "not_word_boundary" 1
  | All => dump_op "all" 1 | Dots => dump_op "dots" 1 | MatchEnd => dump_op "match_end" 1
  | Prev => dump_op "prev" 1 | Range _ => dump_range "range" GetU16 2
  | BackReference _ => dump_u8 "backreference" 2
  | BackwardBackReference _ => dump_u8 "backward_backreference" 2
  | Char32 _ => Char32OpCode_DumpOpCode | Range32 _ => dump_range "range32" GetU32 4
  end.

Lemma dump_table_of (i : Instr) : read dump_table (Z.to_nat (opcode i)) = Done (dump_of i).
Proof. by destruct i. Qed.

Lemma dump_range_code (name : string) (n : nat) (l : Ranges) (c : DynChunk) (offset : nat) :
  code_at c (offset + 1) (((2%nat, Z.of_nat (length l)) :: pair_operands n l) ≫= operand_bytes) ->
  Forall fits ((2%nat, Z.of_nat (length l)) :: pair_operands n l) ->
  dump_range name (get_int n) n c offset =
  Done (at_ (Z.of_nat offset) ++ line name (TStr tab :: pair_tokens l),
        (offset + S (length (((2%nat, Z.of_nat (length l)) :: pair_operands n l) ≫= operand_bytes)))%nat).
Proof.
  intros H Hf. destruct (get_operand c (offset + 1) 2 _ _ H Hf) as (E & H1 & Hf1).
  unfold dump_range, GetU16. rewrite E. cbn [mbind outcome_bind]. rewrite Nat2Z.id.
  rewrite <- Nat.add_assoc in H1. cbn [Nat.add] in H1. rewrite (dump_pairs_code n l c _ H1 Hf1). cbn [mbind outcome_bind].
  f_equal. f_equal. change ((2%nat, Z.of_nat (length l)) :: pair_operands n l) with
    ([(2%nat, Z.of_nat (length l))] ++ pair_operands n l).
  rewrite bind_app, length_app, pair_operands_length.
  assert (length ([(2%nat, Z.of_nat (length l))] ≫= operand_bytes) = 2%nat) as -> by done. lia.
Qed.

(** Printing the instruction at an offset, and where the next one starts. *)
Lemma dump_instr (i : Instr) (c : DynChunk) (offset : nat) :
  code_at c offset (encode i) -> instr_ok i ->
  dump_of i c offset = Done (text i offset, (offset + length (encode i))%nat).
Proof.
  intros H Hok. destruct (get_opcode c offset i H) as [_ Hc]. unfold instr_ok in Hok.
  change (length (encode i)) with (S (length (operands i ≫= operand_bytes))).
  destruct i; cbn [opcode operands dump_of] in *; try done; try by apply dump_range_code.
  all: unfold dump_u8, dump_target, dump_loop, CharOpCode_DumpOpCode, Char32OpCode_DumpOpCode, SaveResetOpCode_DumpOpCode,
      GetU8, GetU16, GetU32;
    repeat match goal with
    | Hc : code_at _ _ _, Hok : Forall _ (_ :: _) |- _ =>
        apply get_operand in Hc as (? & Hc & ?); [|exact Hok]; clear Hok
    end; rewrite <- ?Nat.add_assoc in *; cbn [Nat.add] in *;
    repeat match goal with E : get_int _ _ _ = Done _ |- _ => rewrite E; clear E; cbn [mbind outcome_bind] end; done.
Qed.

Lemma DumpRegExpOpCode_loop_listing (code : list Instr) (fuel : nat) (c : DynChunk) (offset : nat) :
  code <> [] -> (length code <= fuel)%nat -> Forall instr_ok code ->
  code_at c offset (code ≫= encode) -> (offset + length (code ≫= encode) = size_ c)%nat ->
  DumpRegExpOpCode_loop fuel c offset = Done (listing code offset).
Proof.
  revert fuel offset. induction code as [|i code IH]; intros fuel offset Hne Hf Hok Hc Hs; [done|].
  destruct fuel as [|fuel]; [cbn in Hf; lia|]. inversion Hok as [|?? Hi Hok']; subst.
  change ((i :: code) ≫= encode) with (encode i ++ (code ≫= encode)) in *.
  apply code_at_app in Hc as [Hci Hcr]. cbn [DumpRegExpOpCode_loop listing].
  destruct (get_opcode c offset i Hci) as [-> _]. cbn [mbind outcome_bind]. rewrite dump_table_of.
  cbn [mbind outcome_bind]. rewrite dump_instr by done. cbn [mbind outcome_bind].
  rewrite length_app in Hs. destruct code as [|j code].
  - change (length (([] : list Instr) ≫= encode)) with 0%nat in Hs. rewrite (proj2 (Nat.ltb_ge _ _)) by lia. done.
  - assert (0 < length ((j :: code) ≫= encode))%nat.
    { change ((j :: code) ≫= encode) with (encode j ++ (code ≫= encode)). rewrite length_app.
      change (length (encode j)) with (S (length (operands j ≫= operand_bytes))). lia. }
    rewrite (proj2 (Nat.ltb_lt _ _)) by lia. rewrite IH; [done|done|cbn in *; lia|done|done|lia].
Qed.

Lemma code_length (code : list Instr) : (length code <= length (code ≫= encode))%nat.
Proof.
  induction code as [|i code IH]; [done|]. change ((i :: code) ≫= encode) with (encode i ++ (code ≫= encode)).
  rewrite length_app. change (length (encode i)) with (S (length (operands i ≫= operand_bytes))). cbn [length]. lia.
Qed.

(** printing a program that consists of a header and the encodings of
    instructions terminates and prints one line per instruction, in order, with
    its offset, operands and absolute jump targets. *)
Theorem DumpRegExpOpCode_listing (c : DynChunk) (header : list Z) (code : list Instr) :
  wf c -> contents c = header ++ (code ≫= encode) -> length header = OP_START_OFFSET ->
  code <> [] -> Forall instr_ok code ->
  DumpRegExpOpCode c = Done (TStr "OpCode:" :: TStr tab :: TEndl :: listing code OP_START_OFFSET).
Proof.
  intros Hw Hc Hh Hne Hok. unfold DumpRegExpOpCode. pose proof (contents_length c Hw) as Hl.
  rewrite Hc, length_app in Hl. pose proof (code_length code).
  rewrite (DumpRegExpOpCode_loop_listing code); [done|done|lia|done| |lia].
  exists header, (drop (size_ c) (memory c)). split; [|done]. rewrite (memory_split c) at 1. by rewrite Hc, <- app_assoc.
Qed.
(** * A concrete program *)
#[local] Instance ex_memory : Memory :=
  {| alloc_ok := fun _ => true; mem_ok := fun dest count => (0 <? dest)%nat && (count <=? dest)%nat |}.
Lemma ex_mem_ok (n : nat) : (0 < n)%nat -> mem_ok n n = true.
Proof. intros Hn. apply andb_true_iff. split; [by apply Nat.ltb_lt|by apply Nat.leb_le]. Qed.

(** The code of /a*/ without its header: greedy star as split and goto. *)
Definition ex_code : list Instr := [SaveStart 0; SplitNext 8; Char 97; Goto 4294967283; SaveEnd 0; MatchEnd].
Definition ex_chunk (data : list Z) : DynChunk :=
  mkChunk (Some (data ++ replicate (64 - length data) 0)) false (length data) 64 false.
Definition ex_header : list Z := replicate 16 0.
Definition ex_program : DynChunk := ex_chunk (ex_header ++ (ex_code ≫= encode)).
Lemma ex_chunk_wf (data : list Z) : (0 < length data <= 64)%nat -> wf (ex_chunk data).
Proof.
  intros H. split; cbn; auto; try lia. rewrite length_app, length_replicate. lia.
Qed.

Lemma emit_encodes_witness :
  exists c', emit_instr (Loop 4294967283 1 3) new_chunk = Done (c', size_ c') /\ wf c' /\
    contents c' = contents new_chunk ++ encode (Loop 4294967283 1 3).
Proof.
  apply (@emit_encodes ex_memory (fun _ => eq_refl) ex_mem_ok (Loop 4294967283 1 3) new_chunk);
    [apply wf_new|repeat constructor; vm_compute; congruence|reflexivity].
Defined.

Lemma insert_encodes_witness :
  exists c', insert_instr (SplitNext 3) (ex_chunk [2; 97; 0]) 0 = Done (c', size_ c') /\ wf c' /\
    contents c' = take 0 (contents (ex_chunk [2; 97; 0])) ++ encode (SplitNext 3) ++
      drop 0 (contents (ex_chunk [2; 97; 0])).
Proof.
  apply (@insert_encodes ex_memory (fun _ => eq_refl) ex_mem_ok (SplitNext 3) (ex_chunk [2; 97; 0]) 0);
    [apply ex_chunk_wf; cbn; lia|cbn; lia|repeat constructor; vm_compute; congruence|reflexivity].
Defined.

Lemma DumpRegExpOpCode_listing_witness :
  DumpRegExpOpCode ex_program = Done (TStr "OpCode:" :: TStr tab :: TEndl :: listing ex_code 16).
Proof.
  apply (DumpRegExpOpCode_listing ex_program ex_header ex_code);
    [apply ex_chunk_wf; vm_compute; lia|vm_compute; reflexivity|reflexivity|discriminate|].
  repeat constructor; vm_compute; congruence.
Defined.
End RegExpOpCode.
