(* ===== verification/RangeSet.v ===== *)
(** Sets of characters as lists of ranges: [RangeSet] of
    runtime/regexp/ecmascript/regexp_opcode.h and regexp_opcode.cpp.

    A set denotes the values [IsContain] accepts.  The theorems show what
    inserting, inverting and compressing do to the denotation, and when the
    list stays in the normal form that the range opcodes rely on. *)
From S2P Require Import Prelude.
From stdpp Require Import list.
Local Open Scope Z_scope.
Local Open Scope ark_scope.

Module RangeSet.
Definition t : Type := list (Z * Z).

Definition IsIntersect (start end_ start1 end1 : Z) : bool :=
  ((start1 >? start) && (start1 <? end_)) || ((start >? start1) && (start <? end1)).
Definition IsAdjacent (start end_ start1 end1 : Z) : bool :=
  ((end_ =? start1) || (end_ + 1 =? start1)) || ((end1 =? start) || (end1 + 1 =? start)).

Fixpoint IsContain (l : t) (value : Z) : bool :=
  match l with
  | [] => false
  | (first, second) :: l' =>
      if (value >=? first) && (value <=? second) then true else IsContain l' value
  end.

Definition HighestValue (l : t) : Z :=
  match last l with Some p => snd p | None => 0 end.

(** The test of [Insert] and [Compress]. *)
Definition mergeable (start end_ start1 end1 : Z) : bool :=
  IsIntersect start end_ start1 end1 || IsAdjacent start end_ start1 end1.

Fixpoint Insert_loop (start end_ : Z) (l : t) : t :=
  match l with
  | [] => [(start, end_)]
  | (first, second) :: l' =>
      if mergeable start end_ first second then (Z.min first start, Z.max second end_) :: l'
      else if first >? end_ then (start, end_) :: l
      else (first, second) :: Insert_loop start end_ l'
  end.
Definition Insert (start end_ : Z) (l : t) : t :=
  if start >? end_ then l else Insert_loop start end_ l.

Fixpoint Compress_loop (cur : Z * Z) (l : t) : t :=
  match l with
  | [] => [cur]
  | next :: l' =>
      if mergeable (fst cur) (snd cur) (fst next) (snd next)
      then Compress_loop (Z.min (fst cur) (fst next), Z.max (snd cur) (snd next)) l'
      else cur :: Compress_loop next l'
  end.
(** The second iterator starts behind the first element: there must be one. *)
Definition Compress (l : t) : outcome t :=
  match l with
  | [] => Crash
  | cur :: l' => Done (Compress_loop cur l')
  end.

(** [Insert(const RangeSet &)] *)
Definition InsertSet (s1 l : t) : outcome t :=
  match s1, l with
  | [], _ => Done l
  | _, [] => Done s1
  | _, _ => Compress (fold_left (fun l '(first, second) => Insert first second l) s1 l)
  end.

(** [RangeSet(value)] and [RangeSet(start, end)] *)
Definition singleton (value : Z) : t := Insert value value [].
Definition of_range (start end_ : Z) : t := Insert start end_ [].

(** The loop of [Invert]: each range becomes the gap behind it; a range that
    reaches the end is erased and ends the loop. *)
Fixpoint Invert_loop (maxValue : Z) (l : t) : t :=
  match l with
  | [] => []
  | (first, second) :: l' =>
      if second =? maxValue then l'
      else (u32 (second + 1), match l' with (first2, _) :: _ => u32 (first2 - 1) | [] => maxValue end)
           :: Invert_loop maxValue l'
  end.
Definition Invert (isUtf16 : bool) (l : t) : outcome t :=
  let maxValue := if isUtf16 then UINT32_MAX else UINT16_MAX in
  match l with
  | [] => Done [(0, maxValue)]
  | (first, second) :: _ =>
      if (first =? 0) && (second =? maxValue) then Done []
      else
        let l := Invert_loop maxValue l in
        Compress (if first >? 0 then (0, u32 (first - 1)) :: l else l)
  end.

(** * Forms of a list *)
(** Every range is one. *)
Definition valid (l : t) : Prop := Forall (fun p => 0 <= fst p <= snd p /\ snd p <= UINT32_MAX) l.
(** Starts increase, from above [lo]. *)
Fixpoint ascending (lo : Z) (l : t) : Prop :=
  match l with
  | [] => True
  | (first, second) :: l' => lo < first <= second /\ ascending first l'
  end.
(** Ranges are apart from each other and start above [lo]. *)
Fixpoint normal (lo : Z) (l : t) : Prop :=
  match l with
  | [] => True
  | (first, second) :: l' => lo < first <= second /\ normal (second + 1) l'
  end.
Definition below (hi : Z) (l : t) : Prop := Forall (fun p => snd p <= hi) l.
Definition between (start end_ value : Z) : bool := (value >=? start) && (value <=? end_).

Lemma IsContain_cons (p : Z * Z) (l : t) (v : Z) : IsContain (p :: l) v = between (fst p) (snd p) v || IsContain l v.
Proof. destruct p as [a b]. cbn. unfold between. by destruct ((v >=? a) && (v <=? b)). Qed.

(** ** Merging two ranges that touch is their union *)
Lemma mergeable_spec (s e s1 e1 : Z) : s <= e -> s1 <= e1 -> mergeable s e s1 e1 = true -> s1 <= e + 1 /\ s <= e1 + 1.
Proof. unfold mergeable, IsIntersect, IsAdjacent. intros. lia. Qed.

Lemma merge_union (s e s1 e1 v : Z) : s <= e -> s1 <= e1 -> s1 <= e + 1 -> s <= e1 + 1 ->
  between (Z.min s s1) (Z.max e e1) v = between s e v || between s1 e1 v.
Proof. unfold between. intros. lia. Qed.

(** Two ranges that touch are merged, unless they start together. *)
Lemma mergeable_complete (s e s1 e1 : Z) : s <= e -> s1 <= e1 -> s <> s1 -> s1 <= e + 1 -> s <= e1 + 1 ->
  mergeable s e s1 e1 = true.
Proof. unfold mergeable, IsIntersect, IsAdjacent. intros. lia. Qed.

Lemma Insert_loop_union (s e : Z) (l : t) : 0 <= s <= e -> e <= UINT32_MAX -> valid l ->
  valid (Insert_loop s e l) /\ forall v, IsContain (Insert_loop s e l) v = IsContain l v || between s e v.
Proof.
  intros Hs He. induction l as [|[a b] l IH]; intros Hv.
  - split; [apply Forall_singleton; cbn; lia|]. intros v. cbn. unfold between. by destruct (_ && _).
  - inversion Hv as [|?? Ha Hl]; subst. cbn [fst snd] in Ha. cbn [Insert_loop].
    destruct (mergeable s e a b) eqn:Hm.
    + apply mergeable_spec in Hm; [|lia..]. split.
      * constructor; [cbn; lia|done].
      * intros v. rewrite !IsContain_cons. cbn [fst snd]. rewrite merge_union by lia.
        by destruct (between a b v), (between s e v), (IsContain l v).
    + destruct (a >? e) eqn:Hgt.
      * split; [by constructor|]. intros v. rewrite (IsContain_cons (s, e)). cbn [fst snd]. apply orb_comm.
      * destruct (IH Hl) as [IHv IHc]. split; [by constructor|]. intros v. rewrite !IsContain_cons, IHc.
        by rewrite orb_assoc.
Qed.

Lemma Insert_union_valid (s e : Z) (l : t) : 0 <= s -> e <= UINT32_MAX -> valid l ->
  valid (Insert s e l) /\ forall v, IsContain (Insert s e l) v = IsContain l v || between s e v.
Proof.
  intros Hs He Hv. unfold Insert. destruct (s >? e) eqn:Hgt.
  - split; [done|]. intros v. unfold between. destruct (IsContain l v); lia.
  - apply Insert_loop_union; [lia|done|done].
Qed.

Lemma Compress_loop_same (cur : Z * Z) (l : t) : valid (cur :: l) ->
  valid (Compress_loop cur l) /\ forall v, IsContain (Compress_loop cur l) v = IsContain (cur :: l) v.
Proof.
  revert cur; induction l as [|[a b] l IH]; intros [c d] Hv; [done|].
  inversion Hv as [|?? Hc Hv']; subst. inversion Hv' as [|?? Ha Hl]; subst. cbn [fst snd] in *. cbn [Compress_loop fst snd].
  destruct (mergeable c d a b) eqn:Hm.
  - apply mergeable_spec in Hm; [|lia..]. destruct (IH (Z.min c a, Z.max d b)) as [IHv IHc].
    + constructor; [cbn; lia|done].
    + split; [done|]. intros v. rewrite IHc, !IsContain_cons. cbn [fst snd]. rewrite merge_union by lia.
      by rewrite orb_assoc.
  - destruct (IH (a, b)) as [IHv IHc]; [done|]. split; [by constructor|]. intros v.
    by rewrite IsContain_cons, IHc, <- IsContain_cons.
Qed.
Lemma fold_Insert_union (s1 l : t) : valid s1 -> valid l ->
  let r := fold_left (fun l '(first, second) => Insert first second l) s1 l in
  valid r /\ forall v, IsContain r v = IsContain l v || IsContain s1 v.
Proof.
  revert l; induction s1 as [|[a b] s1 IH]; intros l Hs Hl; cbn [fold_left]; cbv zeta.
  - split; [done|]. intros v. by rewrite orb_false_r.
  - inversion Hs as [|?? Ha Hs']; subst. cbn [fst snd] in Ha.
    destruct (Insert_union_valid a b l) as [Hv Hc]; [lia|lia|done|]. destruct (IH (Insert a b l) Hs' Hv) as [IHv IHc].
    split; [done|]. intros v. by rewrite IHc, Hc, IsContain_cons, orb_assoc.
Qed.

Lemma Insert_nonempty (s e : Z) (l : t) : l <> [] -> Insert s e l <> [].
Proof. destruct l as [|[a b] l]; [done|]. intros _. unfold Insert. cbn. by repeat case_match. Qed.

Lemma fold_Insert_nonempty (s1 l : t) : l <> [] ->
  fold_left (fun l '(first, second) => Insert first second l) s1 l <> [].
Proof.
  revert l; induction s1 as [|[a b] s1 IH]; intros l Hl; [done|]. cbn. apply IH, Insert_nonempty, Hl.
Qed.

(** inserting a range, or all ranges of another set, always succeeds and
    gives the union of the two sets, whatever the order of the ranges. *)
Theorem Insert_is_union (start end_ : Z) (s1 l : t) :
  0 <= start -> end_ <= UINT32_MAX -> valid s1 -> valid l ->
  (valid (Insert start end_ l) /\
   forall v, IsContain (Insert start end_ l) v = IsContain l v || between start end_ v) /\
  exists r, InsertSet s1 l = Done r /\ valid r /\ forall v, IsContain r v = IsContain l v || IsContain s1 v.
Proof.
  intros Hs He H1 Hl. split; [by apply Insert_union_valid|].
  destruct s1 as [|p s1]; [exists l; split; [done|]; split; [done|]; intros; by rewrite orb_false_r|].
  destruct l as [|q l]; [exists (p :: s1); by split|].
  destruct (fold_Insert_union (p :: s1) (q :: l) H1 Hl) as [Hv Hc].
  pose proof (fold_Insert_nonempty (p :: s1) (q :: l) ltac:(done)) as Hne. unfold InsertSet, Compress.
  revert Hv Hc Hne. generalize (fold_left (fun l '(first, second) => Insert first second l) (p :: s1) (q :: l)).
  intros [|cur r] Hv Hc Hne; [done|].
  destruct (Compress_loop_same cur r Hv) as [Hv' Hc']. eexists. split; [done|]. split; [done|].
  intros v. by rewrite Hc', Hc.
Qed.

(** ** Normal form *)
Lemma normal_weaken (lo lo' : Z) (l : t) : lo' <= lo -> normal lo l -> normal lo' l.
Proof. destruct l as [|[a b] l]; [done|]. cbn. intros. intuition lia. Qed.

Lemma Compress_loop_normal (cur : Z * Z) (l : t) (lo : Z) :
  ascending lo (cur :: l) -> normal lo (Compress_loop cur l).
Proof.
  revert lo cur; induction l as [|[a b] l IH]; intros lo [c d]; cbn [Compress_loop ascending normal fst snd].
  - tauto.
  - intros (Hc & Ha & Hl). destruct (mergeable c d a b) eqn:Hm.
    + apply IH. cbn. rewrite Z.min_l by lia. split; [lia|]. destruct l as [|[x y] l]; [done|]. cbn in *. intuition lia.
    + split; [done|]. apply IH. cbn. split; [|done].
      destruct (Z.le_gt_cases a (d + 1)); [|lia]. rewrite mergeable_complete in Hm by lia. done.
Qed.

(** The other starts differ from the new one. *)
Definition fresh (start : Z) (l : t) : Prop := Forall (fun p => fst p <> start) l.

Lemma normal_ascending (lo : Z) (l : t) : normal lo l -> ascending lo l.
Proof.
  revert lo; induction l as [|[a b] l IH]; intros lo; [done|]. cbn. intros [H Hl]. split; [done|].
  apply IH. by apply (normal_weaken (b + 1)); [lia|].
Qed.

Lemma Insert_loop_ascending (lo s e : Z) (l : t) :
  lo < s <= e -> normal lo l -> fresh s l -> ascending lo (Insert_loop s e l).
Proof.
  revert lo; induction l as [|[a b] l IH]; intros lo Hs Hn Hf; cbn [Insert_loop].
  - cbn. intuition lia.
  - destruct Hn as [Ha Hn]. inversion Hf as [|?? Hne Hf']; subst. cbn [fst] in Hne.
    destruct (mergeable s e a b) eqn:Hm.
    + cbn. split; [lia|]. apply normal_ascending. apply (normal_weaken (b + 1)); [|done].
      apply mergeable_spec in Hm; lia.
    + destruct (Z.gtb_spec a e).
      * cbn. split; [lia|]. split; [lia|]. by apply normal_ascending, (normal_weaken (b + 1)); [lia|].
      * cbn. split; [done|]. assert (b + 1 < s).
        { destruct (Z.le_gt_cases s (b + 1)); [|lia]. rewrite mergeable_complete in Hm by lia. done. }
        assert (A : ascending (b + 1) (Insert_loop s e l)) by (apply IH; [lia|done|done]).
        destruct (Insert_loop s e l) as [|[x y] r]; [done|]. cbn in *. intuition lia.
Qed.

(** inserting a range and compressing keeps the normal form (ranges
    increasing and apart from each other), provided no range of the set starts
    where the new one does. *)
Theorem Insert_Compress_normal (start end_ : Z) (l : t) :
  0 <= start <= end_ -> normal (-1) l -> fresh start l ->
  exists r, Compress (Insert start end_ l) = Done r /\ normal (-1) r.
Proof.
  intros Hs Hn Hf. pose proof (Insert_loop_ascending (-1) start end_ l ltac:(lia) Hn Hf) as A.
  unfold Insert. destruct (Z.gtb_spec start end_); [lia|]. destruct (Insert_loop start end_ l) as [|cur r] eqn:E.
  - destruct l as [|[a b] l]; cbn in E; [done|]. by repeat case_match.
  - exists (Compress_loop cur r). split; [done|]. by apply Compress_loop_normal.
Qed.
(** ** Complement *)
Lemma normal_above (lo : Z) (l : t) (v : Z) : normal lo l -> v <= lo -> IsContain l v = false.
Proof.
  revert lo; induction l as [|[a b] l IH]; intros lo; [done|]. intros [Ha Hl] Hv. rewrite IsContain_cons.
  cbn [fst snd]. rewrite (IH (b + 1)) by (done || lia). unfold between. lia.
Qed.

Lemma normal_valid (lo hi : Z) (l : t) : -1 <= lo -> hi <= UINT32_MAX -> normal lo l -> below hi l -> valid l.
Proof.
  revert lo; induction l as [|[a b] l IH]; intros lo Hlo Hhi; [constructor|]. intros [Ha Hl] Hb.
  inversion Hb as [|?? Hb1 Hb2]; subst. cbn [snd] in Hb1. constructor; [cbn; lia|].
  by apply (IH (b + 1)); [lia|..].
Qed.

Lemma Invert_loop_gaps (M a b lo : Z) (l : t) : 0 <= a -> M <= UINT32_MAX ->
  normal lo ((a, b) :: l) -> below M ((a, b) :: l) ->
  normal b (Invert_loop M ((a, b) :: l)) /\ below M (Invert_loop M ((a, b) :: l)) /\
  forall v, v <= M -> IsContain (Invert_loop M ((a, b) :: l)) v = (a <=? v) && negb (IsContain ((a, b) :: l) v).
Proof.
  revert a b lo; induction l as [|[f s] l IH]; intros a b lo Ha HM [Hab Hn] Hb;
    inversion Hb as [|?? Hb1 Hb2]; subst; cbn [snd] in Hb1; cbn [Invert_loop]; destruct (Z.eqb_spec b M) as [->|Hne].
  - split; [done|]. split; [constructor|]. intros v Hv. rewrite IsContain_cons. cbn. unfold between. lia.
  - rewrite wrapu_id by (unfold in_u; lia). split; [cbn; lia|]. split; [apply Forall_singleton; cbn; lia|].
    intros v Hv. rewrite !IsContain_cons. cbn. unfold between. lia.
  - inversion Hb2 as [|?? Hb3 _]; subst. cbn in Hn, Hb3. lia.
  - inversion Hb2 as [|?? Hb3 _]; subst. cbn [snd] in Hb3. pose proof Hn as [Hf _].
    destruct (IH f s (b + 1)) as (IHn & IHb & IHc); [lia|done|done|done|].
    rewrite !wrapu_id by (unfold in_u; lia). split; [|split].
    + split; [lia|]. apply (normal_weaken s); [lia|done].
    + constructor; [cbn; lia|done].
    + intros v Hv. rewrite IsContain_cons, (IsContain_cons (a, b)), IHc by done. cbn [fst snd].
      destruct (Z.le_gt_cases f v).
      * unfold between. destruct (IsContain ((f, s) :: l) v); lia.
      * rewrite (normal_above (f - 1) ((f, s) :: l)); [unfold between; lia| |lia].
        destruct Hn as [_ Hn]. split; [lia|done].
Qed.

(** The gaps with the one in front of the first range. *)
Lemma gaps_complement (M a b : Z) (l : t) : 0 <= M <= UINT32_MAX ->
  normal (-1) ((a, b) :: l) -> below M ((a, b) :: l) -> (a =? 0) && (b =? M) = false ->
  let g := Invert_loop M ((a, b) :: l) in
  let r := if a >? 0 then (0, u32 (a - 1)) :: g else g in
  normal (-1) r /\ below M r /\ r <> [] /\
  forall v, 0 <= v <= M -> IsContain r v = negb (IsContain ((a, b) :: l) v).
Proof.
  intros HM Hn Hb Hfull g r. pose proof Hn as [Ha _].
  destruct (Invert_loop_gaps M a b (-1) l) as (Gn & Gb & Gc); [lia|lia|done|done|]. fold g in Gn, Gb, Gc.
  inversion Hb as [|?? Hb1 _]; subst. cbn [snd] in Hb1. unfold r. destruct (Z.gtb_spec a 0).
  - rewrite wrapu_id by (unfold in_u; lia). split; [|split; [|split; [done|]]].
    + split; [lia|]. apply (normal_weaken b); [lia|done].
    + constructor; [cbn; lia|done].
    + intros v Hv. rewrite IsContain_cons, Gc by lia. cbn [fst snd].
      destruct (Z.le_gt_cases a v); [unfold between; destruct (IsContain ((a, b) :: l) v); lia|].
      rewrite (normal_above (a - 1) ((a, b) :: l)); [unfold between; lia| |lia].
      destruct Hn as [_ Hn]. split; [lia|done].
  - split; [apply (normal_weaken b); [lia|done]|]. split; [done|]. split.
    + unfold g. cbn [Invert_loop]. destruct (Z.eqb_spec b M); [lia|done].
    + intros v Hv. rewrite Gc by lia. destruct (IsContain ((a, b) :: l) v); lia.
Qed.

Lemma Compress_loop_below (hi : Z) (cur : Z * Z) (l : t) : below hi (cur :: l) -> below hi (Compress_loop cur l).
Proof.
  revert cur; induction l as [|[a b] l IH]; intros [c d] Hb; [done|].
  inversion Hb as [|?? Hb1 Hb2]; subst. inversion Hb2 as [|?? Hb3 Hb4]; subst. cbn [snd] in *.
  cbn [Compress_loop fst snd]. destruct (mergeable c d a b).
  - apply IH. constructor; [cbn; lia|done].
  - constructor; [done|]. by apply IH.
Qed.

Lemma Compress_same (hi : Z) (l : t) : hi <= UINT32_MAX -> normal (-1) l -> below hi l -> l <> [] ->
  exists r, Compress l = Done r /\ normal (-1) r /\ below hi r /\ forall v, IsContain r v = IsContain l v.
Proof.
  intros Hhi Hn Hb Hne. destruct l as [|cur l]; [done|]. exists (Compress_loop cur l). split; [done|].
  split; [by apply Compress_loop_normal, normal_ascending|]. split; [by apply Compress_loop_below|].
  apply (Compress_loop_same cur l). by apply (normal_valid (-1) hi).
Qed.

(** Inverting a set in normal form succeeds and gives its complement among the
    characters (16 bits, or 32 bits with the unicode flag), again in normal
    form. *)
Theorem Invert_complement (isUtf16 : bool) (l : t) :
  let maxValue := if isUtf16 then UINT32_MAX else UINT16_MAX in
  normal (-1) l -> below maxValue l ->
  exists r, Invert isUtf16 l = Done r /\ normal (-1) r /\ below maxValue r /\
    forall v, 0 <= v <= maxValue -> IsContain r v = negb (IsContain l v).
Proof.
  intros maxValue Hn Hb. unfold Invert. fold maxValue.
  assert (HM : 0 <= maxValue <= UINT32_MAX) by (unfold maxValue; destruct isUtf16; lia).
  clearbody maxValue. destruct l as [|[a b] l].
  - eexists. split; [done|]. split; [cbn; lia|]. split; [apply Forall_singleton; cbn; lia|].
    intros v Hv. rewrite IsContain_cons. cbn. unfold between. lia.
  - destruct ((a =? 0) && (b =? maxValue)) eqn:Hfull.
    + exists []. split; [done|]. split; [done|]. split; [constructor|]. intros v Hv. rewrite IsContain_cons.
      unfold between. cbn [fst snd IsContain]. destruct (IsContain l v); lia.
    + destruct (gaps_complement maxValue a b l HM Hn Hb Hfull) as (Rn & Rb & Rne & Rc).
      cbv zeta in *. destruct (Compress_same maxValue _ ltac:(lia) Rn Rb Rne) as (r & E & Cn & Cb & Cc).
      exists r. split; [exact E|]. split; [done|]. split; [done|]. intros v Hv. by rewrite Cc, Rc.
Qed.

(** * Concrete sets *)
(** Two ranges with the same start are kept apart, also by [Compress]. *)
Lemma same_start_not_merged :
  Insert 97 99 (Insert 97 122 []) = [(97, 122); (97, 99)] /\
  Compress [(97, 122); (97, 99)] = Done [(97, 122); (97, 99)].
Proof. done. Qed.

(** The letters and digits, and the underscore. *)
Definition ex_word : t := [(48, 57); (65, 90); (97, 122)].

Lemma Insert_is_union_witness :
  (valid (Insert 60 70 ex_word) /\
   forall v, IsContain (Insert 60 70 ex_word) v = IsContain ex_word v || between 60 70 v) /\
  exists r, InsertSet [(95, 95)] ex_word = Done r /\ valid r /\
    forall v, IsContain r v = IsContain ex_word v || IsContain [(95, 95)] v.
Proof. apply (Insert_is_union 60 70 [(95, 95)] ex_word); try lia; repeat constructor; cbn; lia. Defined.

Lemma Insert_Compress_normal_witness :
  exists r, Compress (Insert 95 95 ex_word) = Done r /\ normal (-1) r.
Proof. apply (Insert_Compress_normal 95 95 ex_word); [lia|cbn; lia|repeat constructor; cbn; lia]. Defined.

Lemma Invert_complement_witness :
  exists r, Invert false ex_word = Done r /\ normal (-1) r /\ below UINT16_MAX r /\
    forall v, 0 <= v <= UINT16_MAX -> IsContain r v = negb (IsContain ex_word v).
Proof. apply (Invert_complement false ex_word); [cbn; lia|repeat constructor; cbn; lia]. Defined.
End RangeSet.
