(* ===== verification/RegExpExecutor.v ===== *)
(** The backtracking matcher of regular expressions:
    runtime/regexp/ecmascript/regexp_executor.h and regexp_executor.cpp.

    Pointers into the input are byte offsets from its start; the stack of
    saved states is a list, its top first.  The macros and functions of the ICU
    library on characters are parameters. *)
From S2P Require Import Prelude.
From S2P Require Import DynChunk.
From S2P Require Import RegExpOpCode.
From S2P Require Import RangeSet.
From stdpp Require Import list.
Local Open Scope Z_scope.
Local Open Scope ark_scope.

Class ICU := {
  U16_IS_LEAD : Z -> bool;
  U16_IS_TRAIL : Z -> bool;
  U16_GET_SUPPLEMENTARY : Z -> Z -> Z;
  u_toupper : Z -> Z }.

Module RegExpExecutor.
Import Chunk RegExpOpCode.

(** [RegExpParser]'s flags and the header of a program *)
Definition FLAG_IGNORECASE : Z := 2.
Definition FLAG_MULTILINE : Z := 4.
Definition FLAG_UTF16 : Z := 16.
Definition FLAG_STICKY : Z := 32.
Definition NUM_CAPTURE_OFFSET : nat := 4.
Definition NUM_STACK_OFFSET : nat := 8.
Definition FLAGS_OFFSET : nat := 12.
Definition TMP_BUF_SIZE : Z := 128.

Inductive StateType := STATE_SPLIT | STATE_MATCH_AHEAD | STATE_NEGATIVE_MATCH_AHEAD.
#[export] Instance StateType_eq_dec : EqDecision StateType.
Proof. solve_decision. Defined.

(** [CaptureState]: the two pointers, null or an offset *)
Abbreviation CaptureState := (option Z * option Z)%type.

Record RegExpState := mkState {
  st_type : StateType;
  st_currentPc : Z;
  st_currentStack : nat;
  st_currentPtr : Z;
  st_captures : list CaptureState;
  st_stack : option (list Z) }.

Record Executor := mkExecutor {
  input_ : list Z;
  base_ : Z;                     (* the address of the input *)
  inputEnd_ : Z;
  isWideChar_ : bool;
  currentPc_ : Z;
  currentPtr_ : Z;
  captureResultList_ : list CaptureState;
  stack_ : option (list Z);
  currentStack_ : nat;
  nCapture_ : nat;
  nStack_ : nat;
  flags_ : Z;
  stateStack_ : list RegExpState;
  stateStackSize_ : Z;
  stateSize_ : Z;                (* the bytes of one saved state *)
  stateStackBytes_ : option Z }. (* the bytes allocated for the stack of states *)

Definition new_executor : Executor :=
  mkExecutor [] 0 0 false 0 0 [] None 0 0 0 0 [] 0 0 None.

(** ** Setters *)
Definition SetCurrentPC (pc : Z) (e : Executor) : Executor :=
  mkExecutor (input_ e) (base_ e) (inputEnd_ e) (isWideChar_ e) pc (currentPtr_ e) (captureResultList_ e)
    (stack_ e) (currentStack_ e) (nCapture_ e) (nStack_ e) (flags_ e) (stateStack_ e) (stateStackSize_ e) (stateSize_ e) (stateStackBytes_ e).
Definition SetCurrentPtr (p : Z) (e : Executor) : Executor :=
  mkExecutor (input_ e) (base_ e) (inputEnd_ e) (isWideChar_ e) (currentPc_ e) p (captureResultList_ e)
    (stack_ e) (currentStack_ e) (nCapture_ e) (nStack_ e) (flags_ e) (stateStack_ e) (stateStackSize_ e) (stateSize_ e) (stateStackBytes_ e).
Definition set_captures (l : list CaptureState) (e : Executor) : Executor :=
  mkExecutor (input_ e) (base_ e) (inputEnd_ e) (isWideChar_ e) (currentPc_ e) (currentPtr_ e) l
    (stack_ e) (currentStack_ e) (nCapture_ e) (nStack_ e) (flags_ e) (stateStack_ e) (stateStackSize_ e) (stateSize_ e) (stateStackBytes_ e).
Definition set_stack (s : option (list Z)) (n : nat) (e : Executor) : Executor :=
  mkExecutor (input_ e) (base_ e) (inputEnd_ e) (isWideChar_ e) (currentPc_ e) (currentPtr_ e)
    (captureResultList_ e) s n (nCapture_ e) (nStack_ e) (flags_ e) (stateStack_ e) (stateStackSize_ e) (stateSize_ e) (stateStackBytes_ e).
Definition set_states (l : list RegExpState) (e : Executor) : Executor :=
  mkExecutor (input_ e) (base_ e) (inputEnd_ e) (isWideChar_ e) (currentPc_ e) (currentPtr_ e)
    (captureResultList_ e) (stack_ e) (currentStack_ e) (nCapture_ e) (nStack_ e) (flags_ e)
    l (stateStackSize_ e) (stateSize_ e) (stateStackBytes_ e).
Definition set_capacity (n bytes : Z) (e : Executor) : Executor :=
  mkExecutor (input_ e) (base_ e) (inputEnd_ e) (isWideChar_ e) (currentPc_ e) (currentPtr_ e)
    (captureResultList_ e) (stack_ e) (currentStack_ e) (nCapture_ e) (nStack_ e) (flags_ e)
    (stateStack_ e) n (stateSize_ e) (Some bytes).

Definition CHAR_SIZE : Z := 1.
Definition WIDE_CHAR_SIZE : Z := 2.
Definition MIN_STACK_SIZE : Z := 8.

Definition has_flag (e : Executor) (flag : Z) : bool := negb (Z.land (flags_ e) flag =? 0).
Definition IsIgnoreCase (e : Executor) : bool := has_flag e FLAG_IGNORECASE.
Definition IsUtf16 (e : Executor) : bool := has_flag e FLAG_UTF16.
Definition IsEOF (e : Executor) : bool := currentPtr_ e >=? inputEnd_ e.

Definition IsWordChar (value : Z) : bool :=
  let value := u8 value in
  ((value >=? 48) && (value <=? 57)) || ((value >=? 97) && (value <=? 122)) ||
  ((value >=? 65) && (value <=? 90)) || (value =? 95).
Definition IsTerminator (value : Z) : bool :=
  (value =? 10) || (value =? 13) || (value =? 0x2028) || (value =? 0x2029).

(** ** The program counter and the stack *)
Definition Advance (opCode offset : Z) (e : Executor) : outcome Executor :=
  size ← GetSizeOf opCode;
  Done (SetCurrentPC (u32 (currentPc_ e + u32 (offset + Z.of_nat size))) e).
Definition AdvanceOffset (offset : Z) (e : Executor) : Executor :=
  SetCurrentPC (u32 (currentPc_ e + u32 offset)) e.

Definition PushStack (val : Z) (e : Executor) : outcome Executor :=
  match stack_ e with
  | Some s => s ← write s (currentStack_ e) val; Done (set_stack (Some s) (S (currentStack_ e)) e)
  | None => Crash
  end.
Definition SetStackValue (val : Z) (e : Executor) : outcome Executor :=
  match stack_ e, currentStack_ e with
  | Some s, S n => s ← write s n val; Done (set_stack (Some s) (S n) e)
  | _, _ => Crash
  end.
Definition PopStack (e : Executor) : outcome (Executor * Z) :=
  match stack_ e, currentStack_ e with
  | Some s, S n => v ← read s n; Done (set_stack (Some s) n e, v)
  | _, _ => Crash
  end.
Definition PeekStack (e : Executor) : outcome Z :=
  match stack_ e, currentStack_ e with
  | Some s, S n => read s n
  | _, _ => Crash
  end.

(** ** Characters *)
Definition byte_at (e : Executor) (p : Z) : outcome Z :=
  if p <? 0 then Crash else read (input_ e) (Z.to_nat p).
Definition wide_at (e : Executor) (p : Z) : outcome Z :=
  lo ← byte_at e p; hi ← byte_at e (p + 1); Done (lo + 256 * hi).

Section engine.
  Context {memory_ : Memory} {icu : ICU}.

Definition Canonicalize (c : Z) (isUnicode : bool) : Z :=
  let c := i32 c in
  if c <? TMP_BUF_SIZE then if (c >=? 97) && (c <=? 122) then c - 97 + 65 else c
  else if isUnicode then u_toupper c else c.
(** Under the ignore-case flag, as an unsigned character. *)
Definition canonical (e : Executor) (c : Z) : Z :=
  if IsIgnoreCase e then u32 (Canonicalize c (IsUtf16 e)) else c.

Definition GetChar (e : Executor) (p end_ : Z) : outcome (Z * Z) :=
  if negb (isWideChar_ e) then c ← byte_at e p; Done (c, p + 1)
  else
    c ← wide_at e p;
    let p := p + WIDE_CHAR_SIZE in
    if U16_IS_LEAD c && IsUtf16 e && (p <? end_) then
      c1 ← wide_at e p;
      if U16_IS_TRAIL c1 then Done (u32 (U16_GET_SUPPLEMENTARY c c1), p + WIDE_CHAR_SIZE) else Done (c, p)
    else Done (c, p).

Definition PeekChar (e : Executor) (p end_ : Z) : outcome Z :=
  if negb (isWideChar_ e) then byte_at e p
  else
    c ← wide_at e p;
    let p := p + WIDE_CHAR_SIZE in
    if U16_IS_LEAD c && IsUtf16 e && (p <? end_) then
      c1 ← wide_at e p;
      if U16_IS_TRAIL c1 then Done (u32 (U16_GET_SUPPLEMENTARY c c1)) else Done c
    else Done c.

Definition AdvancePtr (e : Executor) (p end_ : Z) : outcome Z :=
  if negb (isWideChar_ e) then Done (p + 1)
  else
    c1 ← wide_at e p;
    let p := p + WIDE_CHAR_SIZE in
    if U16_IS_LEAD c1 && IsUtf16 e && (p <? end_) then
      c1 ← wide_at e p;
      if U16_IS_TRAIL c1 then Done (p + WIDE_CHAR_SIZE) else Done p
    else Done p.

Definition PeekPrevChar (e : Executor) (p start : Z) : outcome Z :=
  if negb (isWideChar_ e) then byte_at e (p - 1)
  else
    let p := p - WIDE_CHAR_SIZE in
    c ← wide_at e p;
    if U16_IS_TRAIL c && IsUtf16 e && (p >? start) then
      c1 ← wide_at e (p - 2);
      if U16_IS_LEAD c1 then Done (u32 (U16_GET_SUPPLEMENTARY c1 c)) else Done c
    else Done c.

Definition GetPrevChar (e : Executor) (p start : Z) : outcome (Z * Z) :=
  if negb (isWideChar_ e) then c ← byte_at e (p - 1); Done (c, p - 1)
  else
    let p := p - WIDE_CHAR_SIZE in
    c ← wide_at e p;
    if U16_IS_TRAIL c && IsUtf16 e && (p >? start) then
      c1 ← wide_at e (p - 2);
      if U16_IS_LEAD c1 then Done (u32 (U16_GET_SUPPLEMENTARY c1 c), p - WIDE_CHAR_SIZE) else Done (c, p)
    else Done (c, p).

Definition PrevPtr (e : Executor) (p start : Z) : outcome Z :=
  if negb (isWideChar_ e) then Done (p - 1)
  else
    let p := p - WIDE_CHAR_SIZE in
    c1 ← wide_at e p;
    if U16_IS_TRAIL c1 && IsUtf16 e && (p >? start) then
      c1 ← wide_at e (p - 2);
      if U16_IS_LEAD c1 then Done (p - WIDE_CHAR_SIZE) else Done p
    else Done p.

Definition GetCurrentChar (e : Executor) : outcome (Executor * Z) :=
  r ← GetChar e (currentPtr_ e) (inputEnd_ e);
  let '(c, p) := r in Done (SetCurrentPtr p e, c).
Definition AdvanceCurrentPtr (e : Executor) : outcome Executor :=
  p ← AdvancePtr e (currentPtr_ e) (inputEnd_ e); Done (SetCurrentPtr p e).

(** ** Saved states *)
(** [sizeof(CaptureState) * nCapture_] and [sizeof(uintptr_t) * nStack_]; the
    fields of a state before its captures take [STATE_SIZE] bytes. *)
Definition listSize (e : Executor) : Z := 16 * Z.of_nat (nCapture_ e).
Definition stackSize (e : Executor) : Z := 8 * Z.of_nat (nStack_ e).
Definition STATE_SIZE : Z := 24.
(** A checked copy of [n] bytes to as many. *)
Definition copied (n : Z) : bool := mem_ok (Z.to_nat n) (Z.to_nat n).

(** More room for saved states; a copy outside the memory is undefined, a copy
    that is refused leaves the stack as it was. *)
Definition ReAllocStack (stackLen : Z) (e : Executor) : outcome Executor :=
  if stackLen >? stateStackSize_ e then
    let newStackSize := Z.max (u32 (stateStackSize_ e * 2)) MIN_STACK_SIZE in
    let stackByteSize := u32 (newStackSize * stateSize_ e) in
    if negb (copied stackByteSize) then Crash
    else
      match stateStackBytes_ e with
      | None => Done (set_capacity newStackSize stackByteSize e)
      | Some bytes =>
          let stackSize := u32 (stateStackSize_ e * stateSize_ e) in
          if negb (copied stackSize) then Done e
          else if (stackSize >? bytes) || (stackSize >? stackByteSize) then Crash
          else Done (set_capacity newStackSize stackByteSize e)
      end
  else Done e.

(** The state on top lies inside the memory of the stack. *)
Definition state_fits (stackLen : Z) (e : Executor) : bool :=
  match stateStackBytes_ e with
  | Some bytes => u32 (stackLen * stateSize_ e) + stateSize_ e <=? bytes
  | None => false
  end.
Definition PushRegExpState (type : StateType) (pc : Z) (e : Executor) : outcome Executor :=
  let stateStackLen := Z.of_nat (length (stateStack_ e)) in
  e ← ReAllocStack (u32 (stateStackLen + 1)) e;
  if negb (state_fits stateStackLen e) then Crash
  else if negb (copied (listSize e)) then Crash
  else if negb (stack_ e == None) && negb (copied (stackSize e)) then Crash
  else Done (set_states (mkState type pc (currentStack_ e) (currentPtr_ e) (captureResultList_ e) (stack_ e)
                           :: stateStack_ e) e).

Definition PopRegExpState (copyCapture : bool) (e : Executor) : outcome Executor :=
  match stateStack_ e with
  | [] => Done e
  | st :: rest =>
      if copyCapture && negb (copied (listSize e)) then Crash
      else if negb (stack_ e == None) && negb (copied (stackSize e)) then Crash
      else
        let e := if copyCapture then set_captures (st_captures st) e else e in
        let e := SetCurrentPC (st_currentPc st) (SetCurrentPtr (st_currentPtr st) e) in
        let e := set_stack (if stack_ e == None then None else st_stack st) (st_currentStack st) e in
        Done (set_states rest e)
  end.
Definition DropRegExpState (e : Executor) : Executor :=
  set_states (tail (stateStack_ e)) e.

(** The result says that no state is left. *)
Fixpoint MatchFailed_loop (states : list RegExpState) (isMatched : bool) (e : Executor) : outcome (Executor * bool) :=
  match states with
  | [] => Done (e, true)
  | st :: rest =>
      if st_type st == STATE_SPLIT then
        if negb isMatched then e ← PopRegExpState true e; Done (e, false)
        else MatchFailed_loop rest isMatched (DropRegExpState e)
      else
        let isMatched := ((st_type st == STATE_MATCH_AHEAD) && isMatched) ||
                         ((st_type st == STATE_NEGATIVE_MATCH_AHEAD) && negb isMatched) in
        if isMatched then
          if st_type st == STATE_MATCH_AHEAD then e ← PopRegExpState false e; Done (e, false)
          else e ← PopRegExpState true e; Done (e, false)
        else MatchFailed_loop rest isMatched (DropRegExpState e)
  end.
Definition MatchFailed (isMatched : bool) (e : Executor) : outcome (Executor * bool) :=
  MatchFailed_loop (stateStack_ e) isMatched e.

(** [if (MatchFailed()) return false; ... return true;] *)
Definition fail (e : Executor) : outcome (Executor * bool) :=
  r ← MatchFailed false e; let '(e, none) := r in Done (e, negb none).
(** [Advance(opCode); return true;] *)
Definition succeed (opCode : Z) (e : Executor) : outcome (Executor * bool) :=
  e ← Advance opCode 0 e; Done (e, true).

(** * The handlers *)
Definition HandleFirstSplit (e : Executor) : outcome (Executor * bool) :=
  if (currentPc_ e =? Z.of_nat OP_START_OFFSET) && (length (stateStack_ e) =? 0)%nat && negb (has_flag e FLAG_STICKY) then
    if IsEOF e then fail e
    else
      e ← AdvanceCurrentPtr e;
      e ← PushRegExpState STATE_SPLIT (Z.of_nat OP_START_OFFSET) e;
      Done (e, true)
  else Done (e, true).

Definition HandleOpAll (opCode : Z) (e : Executor) : outcome (Executor * bool) :=
  if IsEOF e then fail e
  else
    r ← GetCurrentChar e;
    let '(e, currentChar) := r in
    if (opCode =? OP_DOTS) && IsTerminator currentChar then fail e
    else succeed opCode e.

(** The program counter as an index. *)
Definition pc_at (e : Executor) (offset : Z) : nat := Z.to_nat (currentPc_ e + offset).

Definition HandleOpChar (code : DynChunk) (opCode : Z) (e : Executor) : outcome (Executor * bool) :=
  expectedChar ← (if opCode =? OP_CHAR32 then GetU32 code (pc_at e 1) else GetU16 code (pc_at e 1));
  if IsEOF e then fail e
  else
    r ← GetCurrentChar e;
    let '(e, currentChar) := r in
    if canonical e currentChar =? expectedChar then succeed opCode e else fail e.

Definition HandleOpWordBoundary (opCode : Z) (e : Executor) : outcome (Executor * bool) :=
  if IsEOF e then if opCode =? OP_WORD_BOUNDARY then succeed opCode e else fail e
  else
    preIsWord ← (if currentPtr_ e =? 0 then Done false
                 else c ← PeekPrevChar e (currentPtr_ e) 0; Done (IsWordChar c));
    c ← PeekChar e (currentPtr_ e) (inputEnd_ e);
    let currentIsWord := IsWordChar c in
    if ((opCode =? OP_WORD_BOUNDARY) &&
        ((negb preIsWord && currentIsWord) || (preIsWord && negb currentIsWord))) ||
       ((opCode =? OP_NOT_WORD_BOUNDARY) &&
        ((preIsWord && currentIsWord) || (negb preIsWord && negb currentIsWord)))
    then succeed opCode e else fail e.

Definition HandleOpLineStart (opCode : Z) (e : Executor) : outcome (Executor * bool) :=
  if IsEOF e then fail e
  else
    atStart ← (if currentPtr_ e =? 0 then Done true
               else if has_flag e FLAG_MULTILINE then c ← PeekPrevChar e (currentPtr_ e) 0; Done (c =? 10)
               else Done false);
    if atStart : bool then succeed opCode e else fail e.

Definition HandleOpLineEnd (opCode : Z) (e : Executor) : outcome (Executor * bool) :=
  atEnd ← (if IsEOF e then Done true
           else if has_flag e FLAG_MULTILINE then c ← PeekChar e (currentPtr_ e) (inputEnd_ e); Done (c =? 10)
           else Done false);
  if atEnd : bool then succeed opCode e else fail e.

Definition HandleOpSaveStart (code : DynChunk) (opCode : Z) (e : Executor) : outcome Executor :=
  captureIndex ← GetU8 code (pc_at e 1);
  c ← read (captureResultList_ e) (Z.to_nat captureIndex);
  l ← write (captureResultList_ e) (Z.to_nat captureIndex) (Some (currentPtr_ e), snd c);
  Advance opCode 0 (set_captures l e).
Definition HandleOpSaveEnd (code : DynChunk) (opCode : Z) (e : Executor) : outcome Executor :=
  captureIndex ← GetU8 code (pc_at e 1);
  c ← read (captureResultList_ e) (Z.to_nat captureIndex);
  l ← write (captureResultList_ e) (Z.to_nat captureIndex) (fst c, Some (currentPtr_ e));
  Advance opCode 0 (set_captures l e).

(** Captures [first .. first + k - 1] are reset. *)
Fixpoint reset_captures (l : list CaptureState) (first k : nat) : outcome (list CaptureState) :=
  match k with
  | O => Done l
  | S k' => l ← write l first (None, None); reset_captures l (S first) k'
  end.
Definition HandleOpSaveReset (code : DynChunk) (opCode : Z) (e : Executor) : outcome Executor :=
  captureStartIndex ← GetU8 code (pc_at e 1);
  captureEndIndex ← GetU8 code (pc_at e 2);
  l ← reset_captures (captureResultList_ e) (Z.to_nat captureStartIndex)
        (Z.to_nat (captureEndIndex - captureStartIndex + 1));
  Advance opCode 0 (set_captures l e).

Definition HandleOpMatch (code : DynChunk) (opCode : Z) (e : Executor) : outcome Executor :=
  type ← (if opCode =? OP_SPLIT_NEXT then Done STATE_SPLIT
          else if opCode =? OP_MATCH_AHEAD then Done STATE_MATCH_AHEAD
          else if opCode =? OP_NEGATIVE_MATCH_AHEAD then Done STATE_NEGATIVE_MATCH_AHEAD else Crash);
  offset ← GetU32 code (pc_at e 1);
  e ← Advance opCode 0 e;
  PushRegExpState type (u32 (currentPc_ e + offset)) e.

Definition HandleOpSplitFirst (code : DynChunk) (opCode : Z) (e : Executor) : outcome Executor :=
  offset ← GetU32 code (pc_at e 1);
  e ← Advance opCode 0 e;
  e ← PushRegExpState STATE_SPLIT (currentPc_ e) e;
  Done (AdvanceOffset offset e).

Definition HandleOpPrev (opCode : Z) (e : Executor) : outcome (Executor * bool) :=
  if currentPtr_ e =? 0 then fail e
  else
    p ← PrevPtr e (currentPtr_ e) 0;
    succeed opCode (SetCurrentPtr p e).

Definition HandleOpLoop (code : DynChunk) (opCode : Z) (e : Executor) : outcome Executor :=
  quantifyMin ← GetU32 code (pc_at e 5);
  quantifyMax ← GetU32 code (pc_at e 9);
  pcOffset ← GetU32 code (pc_at e 1);
  e ← Advance opCode 0 e;
  let loopPcEnd := currentPc_ e in
  let loopPcStart := u32 (currentPc_ e + pcOffset) in
  let isGreedy := opCode =? OP_LOOP_GREEDY in
  let loopMax := if isGreedy then quantifyMax else quantifyMin in
  count ← PeekStack e;
  let loopCount := u32 (u32 count + 1) in
  e ← SetStackValue loopCount e;
  if loopCount <? loopMax then
    e ← (if loopCount >=? quantifyMin then PushRegExpState STATE_SPLIT loopPcEnd e else Done e);
    Done (SetCurrentPC loopPcStart e)
  else if negb isGreedy && (loopCount <? quantifyMax) then PushRegExpState STATE_SPLIT loopPcStart e
  else Done e.

(** The binary search of the range opcodes, on entries of two [w]-byte values. *)
Definition entry (code : DynChunk) (w : nat) (e : Executor) (idx : Z) (half : nat) : outcome Z :=
  get_int w code (pc_at e (3 + idx * (2 * Z.of_nat w) + Z.of_nat (half * w))).
Fixpoint search (fuel : nat) (code : DynChunk) (w : nat) (e : Executor) (c idxMin idxMax : Z) : outcome bool :=
  match fuel with
  | O => NoFuel
  | S fuel =>
      if idxMin <=? idxMax then
        let idx := (idxMin + idxMax) / 2 in
        low ← entry code w e idx 0;
        high ← entry code w e idx 1;
        if c <? low then search fuel code w e c idxMin (idx - 1)
        else if c >? high then search fuel code w e c (idx + 1) idxMax
        else Done true
      else Done false
  end.
Definition handle_range (w : nat) (code : DynChunk) (e : Executor) : outcome (Executor * bool) :=
  if IsEOF e then fail e
  else
    r ← GetCurrentChar e;
    let '(e, currentChar) := r in
    let currentChar := canonical e currentChar in
    rangeCount ← GetU16 code (pc_at e 1);
    high ← entry code w e (rangeCount - 1) 1;
    isFound ← (if currentChar <=? high
               then search (S (Z.to_nat rangeCount)) code w e currentChar 0 (rangeCount - 1) else Done false);
    if isFound : bool then Done (AdvanceOffset (rangeCount * (2 * Z.of_nat w) + 3) e, true) else fail e.
Definition HandleOpRange32 := handle_range 4.
Definition HandleOpRange := handle_range 2.

(** ** Back references *)
Fixpoint HandleOpBackReferenceMatch_loop (fuel : nat) (refCptr captureEnd : Z) (e : Executor) :
    outcome (Executor * bool) :=
  match fuel with
  | O => NoFuel
  | S fuel =>
      if refCptr <? captureEnd then
        if IsEOF e then Done (e, false)
        else
          r1 ← GetChar e refCptr captureEnd;
          let '(c1, refCptr) := r1 in
          r2 ← GetCurrentChar e;
          let '(e, c2) := r2 in
          if canonical e c1 =? canonical e c2
          then HandleOpBackReferenceMatch_loop fuel refCptr captureEnd e
          else Done (e, false)
      else Done (e, true)
  end.
Definition HandleOpBackReferenceMatch (captureStart captureEnd opCode : Z) (e : Executor) : outcome (Executor * bool) :=
  r ← HandleOpBackReferenceMatch_loop (S (length (input_ e))) captureStart captureEnd e;
  let '(e, isMatched) := r in
  if isMatched : bool then succeed opCode e else fail e.

Fixpoint HandleOpBackwardBackReferenceMatch_loop (fuel : nat) (refCptr captureStart : Z) (e : Executor) :
    outcome (Executor * bool) :=
  match fuel with
  | O => NoFuel
  | S fuel =>
      if refCptr >? captureStart then
        if currentPtr_ e =? 0 then Done (e, false)
        else
          r1 ← GetPrevChar e refCptr captureStart;
          let '(c1, refCptr) := r1 in
          r2 ← GetPrevChar e (currentPtr_ e) 0;
          let '(c2, p) := r2 in
          let e := SetCurrentPtr p e in
          if canonical e c1 =? canonical e c2
          then HandleOpBackwardBackReferenceMatch_loop fuel refCptr captureStart e
          else Done (e, false)
      else Done (e, true)
  end.
Definition HandleOpBackwardBackReferenceMatch (captureStart captureEnd opCode : Z) (e : Executor) :
    outcome (Executor * bool) :=
  r ← HandleOpBackwardBackReferenceMatch_loop (S (length (input_ e))) captureEnd captureStart e;
  let '(e, isMatched) := r in
  if isMatched : bool then succeed opCode e else fail e.

Definition HandleOpBackReference (code : DynChunk) (opCode : Z) (e : Executor) : outcome (Executor * bool) :=
  captureIndex ← GetU8 code (pc_at e 1);
  if captureIndex >=? Z.of_nat (nCapture_ e) then fail e
  else
    c ← read (captureResultList_ e) (Z.to_nat captureIndex);
    match c with
    | (Some captureStart, Some captureEnd) =>
        if opCode =? OP_BACKREFERENCE then HandleOpBackReferenceMatch captureStart captureEnd opCode e
        else HandleOpBackwardBackReferenceMatch captureStart captureEnd opCode e
    | _ => succeed opCode e
    end.

(** * The machine *)
(** One instruction: go on, or return. *)
Inductive verdict := Continue (e : Executor) | Return (e : Executor) (result : bool).
Definition checked (r : outcome (Executor * bool)) : outcome verdict :=
  r ← r; let '(e, ok) := r in Done (if ok : bool then Continue e else Return e false).
Definition always (r : outcome Executor) : outcome verdict := e ← r; Done (Continue e).

Definition step (code : DynChunk) (e : Executor) : outcome verdict :=
  opCode ← GetU8 code (pc_at e 0);
  if (opCode =? OP_DOTS) || (opCode =? OP_ALL) then checked (HandleOpAll opCode e)
  else if (opCode =? OP_CHAR32) || (opCode =? OP_CHAR) then checked (HandleOpChar code opCode e)
  else if (opCode =? OP_NOT_WORD_BOUNDARY) || (opCode =? OP_WORD_BOUNDARY)
  then checked (HandleOpWordBoundary opCode e)
  else if opCode =? OP_LINE_START then checked (HandleOpLineStart opCode e)
  else if opCode =? OP_LINE_END then checked (HandleOpLineEnd opCode e)
  else if opCode =? OP_SAVE_START then always (HandleOpSaveStart code opCode e)
  else if opCode =? OP_SAVE_END then always (HandleOpSaveEnd code opCode e)
  else if opCode =? OP_GOTO then offset ← GetU32 code (pc_at e 1); always (Advance opCode offset e)
  else if opCode =? OP_MATCH then
    r ← MatchFailed true e; let '(e, none) := r in Done (if none : bool then Return e false else Continue e)
  else if opCode =? OP_MATCH_END then Done (Return e true)
  else if opCode =? OP_SAVE_RESET then always (HandleOpSaveReset code opCode e)
  else if (opCode =? OP_SPLIT_NEXT) || (opCode =? OP_MATCH_AHEAD) || (opCode =? OP_NEGATIVE_MATCH_AHEAD)
  then always (HandleOpMatch code opCode e)
  else if opCode =? OP_SPLIT_FIRST then always (HandleOpSplitFirst code opCode e)
  else if opCode =? OP_PREV then checked (HandleOpPrev opCode e)
  else if (opCode =? OP_LOOP_GREEDY) || (opCode =? OP_LOOP) then always (HandleOpLoop code opCode e)
  else if opCode =? OP_PUSH_CHAR then
    always (e ← PushStack (base_ e + currentPtr_ e) e; Advance opCode 0 e)
  else if opCode =? OP_CHECK_CHAR then
    r ← PopStack e;
    let '(e, v) := r in
    if negb (v =? base_ e + currentPtr_ e) then always (Advance opCode 0 e)
    else offset ← GetU32 code (pc_at e 1); always (Advance opCode offset e)
  else if opCode =? OP_PUSH then always (e ← PushStack 0 e; Advance opCode 0 e)
  else if opCode =? OP_POP then always (r ← PopStack e; Advance opCode 0 (fst r))
  else if opCode =? OP_RANGE32 then checked (HandleOpRange32 code e)
  else if opCode =? OP_RANGE then checked (HandleOpRange code e)
  else if (opCode =? OP_BACKREFERENCE) || (opCode =? OP_BACKWARD_BACKREFERENCE)
  then checked (HandleOpBackReference code opCode e)
  else Crash.

Fixpoint ExecuteInternal (fuel : nat) (code : DynChunk) (pcEnd : Z) (e : Executor) : outcome (Executor * bool) :=
  match fuel with
  | O => NoFuel
  | S fuel =>
      if currentPc_ e <? pcEnd then
        r ← HandleFirstSplit e;
        let '(e, ok) := r in
        if negb ok then Done (e, false)
        else
          v ← step code e;
          match v with
          | Return e result => Done (e, result)
          | Continue e => ExecuteInternal fuel code pcEnd e
          end
      else Done (e, true)
  end.

(** [Execute] on the executor [e]; [input] starts at the address [base]. *)
Definition Execute (fuel : nat) (base : Z) (input : list Z) (lastIndex len : Z) (buf : list Z) (isWideChar : bool)
    (e : Executor) : outcome (Executor * bool) :=
  let code := of_buffer buf in
  let width := if isWideChar then WIDE_CHAR_SIZE else CHAR_SIZE in
  size ← GetU32 code 0;
  nCapture ← GetU32 code NUM_CAPTURE_OFFSET;
  nStack ← GetU32 code NUM_STACK_OFFSET;
  flags ← GetU32 code FLAGS_OFFSET;
  let captureResultSize := u32 (16 * nCapture) in
  let stackSize := u32 (8 * nStack) in
  let stateSize := u32 (STATE_SIZE + captureResultSize + stackSize) in
  if (negb (captureResultSize =? 0) && negb (copied captureResultSize)) ||
     (negb (stackSize =? 0) && negb (copied stackSize)) then Crash
  else
  let captures := if captureResultSize =? 0 then captureResultList_ e else replicate (Z.to_nat nCapture) (None, None) in
  let stack := if stackSize =? 0 then stack_ e else Some (replicate (Z.to_nat nStack) 0) in
  let e := mkExecutor input base (len * width) isWideChar (Z.of_nat OP_START_OFFSET) (lastIndex * width) captures
             stack (currentStack_ e) (Z.to_nat nCapture) (Z.to_nat nStack) flags [] (stateStackSize_ e) stateSize
             (stateStackBytes_ e) in
  e ← (if negb (has_flag e FLAG_STICKY) then PushRegExpState STATE_SPLIT (Z.of_nat OP_START_OFFSET) e else Done e);
  ExecuteInternal fuel code size e.
End engine.
End RegExpExecutor.
