(* ===== verification/RegExpMatch.v ===== *)
(** What the matcher of RegExpExecutor computes: a recursive backtracking
    semantics of regular expression programs, and the refinement of it by the
    machine with its stack of saved states. *)
From S2P Require Import Prelude.
From S2P Require Import DynChunk.
From S2P Require Import RegExpOpCode.
From S2P Require Import RangeSet.
From S2P Require Import RegExpExecutor.
From stdpp Require Import list.
Local Open Scope Z_scope.
Local Open Scope ark_scope.

Module RegExpMatch.
Import Chunk RegExpOpCode RegExpExecutor.

(** * Range opcodes *)
Section ranges.
  Context {memory_ : Memory} {icu : ICU}.

Lemma normal_lookup (lo : Z) (l : Ranges) (i : nat) (a b : Z) :
  RangeSet.normal lo l -> l !! i = Some (a, b) -> lo < a <= b.
Proof.
  revert lo i. induction l as [|[a0 b0] l IH]; intros lo [|i] Hn Hi; simplify_eq/=; [tauto|].
  destruct Hn as [Hab Hn]. specialize (IH _ _ Hn Hi). lia.
Qed.

Lemma normal_sorted (lo : Z) (l : Ranges) (i j : nat) (a b a' b' : Z) :
  RangeSet.normal lo l -> (i < j)%nat -> l !! i = Some (a, b) -> l !! j = Some (a', b') -> b < a'.
Proof.
  revert lo i j. induction l as [|[a0 b0] l IH]; intros lo [|i] [|j] Hn Hij Hi Hj; simplify_eq/=; try lia.
  - destruct Hn as [_ Hn]. pose proof (normal_lookup _ _ _ _ _ Hn Hj). lia.
  - destruct Hn as [_ Hn]. apply (IH _ i j Hn); [lia|done|done].
Qed.

Lemma IsContain_spec (l : Ranges) (c : Z) :
  RangeSet.IsContain l c = true <-> exists i a b, l !! i = Some (a, b) /\ a <= c <= b.
Proof.
  induction l as [|[a0 b0] l IH]; [split; [done|intros (i & ? & ? & ? & _); by destruct i]|].
  rewrite RangeSet.IsContain_cons, orb_true_iff, IH. unfold RangeSet.between. cbn [fst snd]. split.
  - intros [H|(i & a & b & Hi & Hc)]; [exists 0%nat, a0, b0; split; [done|lia]|by exists (S i), a, b].
  - intros ([|i] & a & b & Hi & Hc); simplify_eq/=; [left; lia|right; by exists i, a, b].
Qed.

(** The entries of a range instruction. *)
Definition range_instr (w : nat) (l : Ranges) : Instr := if (w =? 2)%nat then Range l else Range32 l.
Definition width_ok (w : nat) : Prop := w = 2%nat \/ w = 4%nat.

Lemma pair_at (code : DynChunk) (w : nat) (l : Ranges) (offset i : nat) (a b : Z) :
  code_at code offset (pair_operands w l ≫= operand_bytes) -> Forall fits (pair_operands w l) ->
  l !! i = Some (a, b) ->
  get_int w code (offset + i * (2 * w)) = Done a /\ get_int w code (offset + i * (2 * w) + w) = Done b.
Proof.
  revert offset i. induction l as [|[a0 b0] l IH]; intros offset i Hc Hf Hi; [done|].
  destruct (get_operand code offset w a0 ((w, b0) :: pair_operands w l) Hc Hf) as (E1 & Hc1 & Hf1).
  destruct (get_operand code _ w b0 (pair_operands w l) Hc1 Hf1) as (E2 & Hc2 & Hf2). destruct i as [|i].
  - injection Hi as -> ->. by rewrite Nat.add_0_r.
  -
    destruct (IH (offset + w + w)%nat i Hc2 Hf2 Hi) as [<- <-]. split; f_equal; lia.
Qed.

Lemma range_operands (w : nat) (l : Ranges) : width_ok w ->
  operands (range_instr w l) = (2%nat, Z.of_nat (length l)) :: pair_operands w l.
Proof. by intros [->| ->]. Qed.

Lemma range_read (code : DynChunk) (w : nat) (l : Ranges) (e : Executor) : width_ok w -> 0 <= currentPc_ e ->
  code_at code (pc_at e 0) (encode (range_instr w l)) -> instr_ok (range_instr w l) ->
  GetU16 code (pc_at e 1) = Done (Z.of_nat (length l)) /\
  forall i a b, l !! i = Some (a, b) -> entry code w e (Z.of_nat i) 0 = Done a /\ entry code w e (Z.of_nat i) 1 = Done b.
Proof.
  intros Hw Hpc Hc Hok. apply get_opcode in Hc as [_ Hc]. unfold instr_ok in Hok. rewrite range_operands in * by done.
  destruct (get_operand code _ 2 _ _ Hc Hok) as (E & Hc1 & Hf1). split.
  - rewrite <- E. unfold GetU16, pc_at. f_equal. lia.
  - intros i a b Hi. destruct (pair_at code w l _ i a b Hc1 Hf1 Hi) as [<- <-].
    unfold entry, pc_at. split; f_equal; destruct Hw as [->| ->]; lia.
Qed.

(** The binary search decides membership in a list in normal form. *)
Lemma search_contains (code : DynChunk) (w : nat) (l : Ranges) (e : Executor) (c lo : Z) (fuel : nat) (m n : Z) :
  (forall i a b, l !! i = Some (a, b) -> entry code w e (Z.of_nat i) 0 = Done a /\ entry code w e (Z.of_nat i) 1 = Done b) ->
  RangeSet.normal lo l -> 0 <= m <= n + 1 -> n < Z.of_nat (length l) ->
  (forall i a b, l !! i = Some (a, b) -> Z.of_nat i < m -> b < c) ->
  (forall i a b, l !! i = Some (a, b) -> n < Z.of_nat i -> c < a) ->
  n - m + 1 < Z.of_nat fuel -> search fuel code w e c m n = Done (RangeSet.IsContain l c).
Proof.
  intros He Hn. revert m n. induction fuel as [|fuel IH]; intros m n Hm Hlen Hlow Hhigh Hf.
  all: assert (Hno : n < m -> RangeSet.IsContain l c = false).
  1, 3: intros Hmn; apply not_true_iff_false; rewrite IsContain_spec; intros (i & a & b & Hi & Hc);
    destruct (Z.lt_ge_cases (Z.of_nat i) m) as [Hl|Hl]; [specialize (Hlow _ _ _ Hi Hl)|specialize (Hhigh _ _ _ Hi ltac:(lia))]; lia.
  - lia.
  - cbn [search]. destruct (Z.leb_spec m n) as [Hmn|Hmn]; [|by rewrite Hno].
    set (idx := (m + n) / 2). assert (Hidx : m <= idx <= n) by (unfold idx; pose proof (Z.div_mod (m + n) 2); pose proof (Z.mod_pos_bound (m + n) 2); lia).
    destruct (lookup_lt_is_Some_2 l (Z.to_nat idx) ltac:(lia)) as [[a b] Hi].
    destruct (He _ _ _ Hi) as [E1 E2]. rewrite Z2Nat.id in E1, E2 by lia. rewrite E1, E2. cbn [mbind outcome_bind].
    destruct (Z.ltb_spec c a) as [Hca|Hca]; [|destruct (Z.gtb_spec c b) as [Hcb|Hcb]].
    + apply IH; [lia|lia|done| |lia]. intros j a' b' Hj Hjn.
      destruct (decide (j = Z.to_nat idx)) as [->|Hne]; [rewrite Hi in Hj; injection Hj as <- <-; lia|].
      assert (Hlt : (Z.to_nat idx < j)%nat) by lia.
      pose proof (normal_sorted _ _ _ _ _ _ _ _ Hn Hlt Hi Hj). pose proof (normal_lookup _ _ _ _ _ Hn Hi). lia.
    + apply IH; [lia|lia| |done|lia]. intros j a' b' Hj Hjm.
      destruct (decide (j = Z.to_nat idx)) as [->|Hne]; [rewrite Hi in Hj; injection Hj as <- <-; lia|].
      assert (Hlt : (j < Z.to_nat idx)%nat) by lia. pose proof (normal_sorted _ _ _ _ _ _ _ _ Hn Hlt Hj Hi).
      pose proof (normal_lookup _ _ _ _ _ Hn Hi). lia.
    + f_equal. symmetry. apply IsContain_spec. by exists (Z.to_nat idx), a, b.
Qed.
Lemma range_size (w : nat) (l : Ranges) : width_ok w ->
  Z.of_nat (length (encode (range_instr w l))) = Z.of_nat (length l) * (2 * Z.of_nat w) + 3.
Proof.
  intros Hw. unfold encode. rewrite range_operands by done.
  change (((2%nat, Z.of_nat (length l)) :: pair_operands w l) ≫= operand_bytes) with
    (bytes_of 2 (Z.of_nat (length l)) ++ (pair_operands w l ≫= operand_bytes)).
  cbn [length]. rewrite length_app, bytes_of_length, pair_operands_length. lia.
Qed.


(** A range opcode at a character that is there. *)
Lemma handle_range_found (code : DynChunk) (w : nat) (l : Ranges) (e e' : Executor) (c : Z) : width_ok w ->
  0 <= currentPc_ e -> code_at code (pc_at e 0) (encode (range_instr w l)) -> instr_ok (range_instr w l) ->
  RangeSet.normal (-1) l -> l <> [] -> IsEOF e = false -> GetCurrentChar e = Done (e', c) ->
  handle_range w code e =
  if RangeSet.IsContain l (canonical e c) then Done (AdvanceOffset (Z.of_nat (length l) * (2 * Z.of_nat w) + 3) e', true)
  else fail e'.
Proof.
  intros Hw Hpc Hc Hok Hn Hne Heof Hg. unfold handle_range. rewrite Heof, Hg. cbn [mbind outcome_bind].
  unfold GetCurrentChar in Hg. destruct (GetChar e _ _) as [[c0 p]| |]; [|done|done]. injection Hg as <- <-.
  set (e' := SetCurrentPtr p e). change (canonical e' c0) with (canonical e c0). set (ch := canonical e c0).
  destruct (range_read code w l e' Hw Hpc Hc Hok) as [E1 E2].
  rewrite E1. cbn [mbind outcome_bind]. assert (Hlen : (0 < length l)%nat) by (destruct l; [done|cbn; lia]).
  destruct (lookup_lt_is_Some_2 l (length l - 1) ltac:(lia)) as [[a b] Hlast].
  pose proof (E2 _ _ _ Hlast) as [_ E3]. replace (Z.of_nat (length l) - 1) with (Z.of_nat (length l - 1)) by lia.
  rewrite E3. cbn [mbind outcome_bind].
  assert (Hfound : (if ch <=? b then search (S (Z.to_nat (Z.of_nat (length l)))) code w e' ch 0 (Z.of_nat (length l - 1)) else Done false)
    = Done (RangeSet.IsContain l ch)).
  { destruct (Z.leb_spec ch b) as [Hle|Hgt].
    - apply (search_contains code w l e' _ (-1)); [done|done|lia|lia| | |lia]; intros i a' b' Hi Hlt; [lia|].
      apply lookup_lt_Some in Hi. lia.
    - f_equal. symmetry. apply not_true_iff_false. rewrite IsContain_spec. intros (i & a' & b' & Hi & Hcc).
      pose proof (lookup_lt_Some _ _ _ Hi). destruct (decide (i = (length l - 1)%nat)) as [->|Hd].
      + rewrite Hlast in Hi. injection Hi as -> ->. lia.
      + assert (Hlt : (i < length l - 1)%nat) by lia. pose proof (normal_sorted _ _ _ _ _ _ _ _ Hn Hlt Hi Hlast).
        pose proof (normal_lookup _ _ _ _ _ Hn Hlast). lia. }
  rewrite Hfound. cbn [mbind outcome_bind]. by destruct (RangeSet.IsContain l ch).
Qed.

(** On a set of ranges in normal form, the binary search of the range opcodes
    decides membership: the opcode steps over the character exactly if it (under
    the ignore-case flag, its canonical form) is in the set, and otherwise the
    attempt fails. *)
Theorem range_opcode_decides (code : DynChunk) (w : nat) (l : Ranges) (e e' : Executor) (c : Z) : width_ok w ->
  0 <= currentPc_ e -> code_at code (pc_at e 0) (encode (range_instr w l)) -> instr_ok (range_instr w l) ->
  RangeSet.normal (-1) l -> l <> [] -> IsEOF e = false -> GetCurrentChar e = Done (e', c) ->
  handle_range w code e =
  if RangeSet.IsContain l (canonical e c)
  then Done (AdvanceOffset (Z.of_nat (length (encode (range_instr w l)))) e', true) else fail e'.
Proof. intros Hw. rewrite range_size by done. by apply handle_range_found. Qed.
End ranges.

(** * A backtracking semantics *)
(** What one attempt to match carries: where it is in the program and in the
    input, its captures, and the counters of its loops. *)
Record Thread := mkThread {
  t_pc : Z;
  t_ptr : Z;
  t_caps : list CaptureState;
  t_stack : list Z;
  t_sp : nat }.
Definition set_pc (pc : Z) (th : Thread) : Thread := mkThread pc (t_ptr th) (t_caps th) (t_stack th) (t_sp th).
Definition set_ptr (p : Z) (th : Thread) : Thread := mkThread (t_pc th) p (t_caps th) (t_stack th) (t_sp th).
Definition set_caps (l : list CaptureState) (th : Thread) : Thread :=
  mkThread (t_pc th) (t_ptr th) l (t_stack th) (t_sp th).
Definition set_counters (s : list Z) (n : nat) (th : Thread) : Thread :=
  mkThread (t_pc th) (t_ptr th) (t_caps th) s n.

(** What an instruction does to an attempt: it fails, goes on, leaves a second
    attempt for later (which one is meant by the type), accepts, or ends the
    body of a lookahead. *)
Inductive effect :=
| Fails | Goes (th : Thread) | Forks (type : StateType) (first second : Thread) | Accepts | AheadEnds.

Inductive result := Matched (th : Thread) | Ahead (th : Thread) | Failed.

(** The instruction at an offset of the program. *)
Fixpoint fetch (prog : list Instr) (offset pc : nat) : option Instr :=
  match prog with
  | [] => None
  | i :: rest => if (pc =? offset)%nat then Some i else fetch rest (offset + length (encode i)) pc
  end.

Section semantics.
  Context {memory_ : Memory} {icu : ICU}.
  (** The input, the flags and the sizes of the program. *)
  Context (e0 : Executor).

Definition size (i : Instr) : Z := Z.of_nat (length (encode i)).
Definition next (i : Instr) (th : Thread) : Thread := set_pc (u32 (t_pc th + size i)) th.
Definition jump (i : Instr) (n : Z) (th : Thread) : Thread := set_pc (u32 (t_pc th + size i + n)) th.
Definition at_end (th : Thread) : bool := t_ptr th >=? inputEnd_ e0.

Definition consume (i : Instr) (th : Thread) (test : Z -> bool) : outcome effect :=
  if at_end th then Done Fails
  else
    r ← GetChar e0 (t_ptr th) (inputEnd_ e0);
    Done (if test (fst r) then Goes (next i (set_ptr (snd r) th)) else Fails).
Definition assert (i : Instr) (th : Thread) (b : bool) : effect := if b then Goes (next i th) else Fails.

(** The characters on both sides; nothing is the character before the start. *)
Definition before (th : Thread) (test : Z -> bool) : outcome bool :=
  if t_ptr th =? 0 then Done false else c ← PeekPrevChar e0 (t_ptr th) 0; Done (test c).
Definition after (th : Thread) (test : Z -> bool) : outcome bool :=
  c ← PeekChar e0 (t_ptr th) (inputEnd_ e0); Done (test c).
Definition boundary (th : Thread) : outcome bool :=
  if at_end th then Done true else p ← before th IsWordChar; c ← after th IsWordChar; Done (xorb p c).
Definition line_start (th : Thread) : outcome bool :=
  if at_end th then Done false
  else if t_ptr th =? 0 then Done true
  else if has_flag e0 FLAG_MULTILINE then before th (fun c => c =? 10) else Done false.
Definition line_end (th : Thread) : outcome bool :=
  if at_end th then Done true else if has_flag e0 FLAG_MULTILINE then after th (fun c => c =? 10) else Done false.

(** The counters. *)
Definition push (v : Z) (th : Thread) : outcome Thread :=
  match stack_ e0 with
  | Some _ => s ← write (t_stack th) (t_sp th) v; Done (set_counters s (S (t_sp th)) th)
  | None => Crash
  end.
Definition top (th : Thread) : outcome Z :=
  match stack_ e0, t_sp th with
  | Some _, S n => read (t_stack th) n
  | _, _ => Crash
  end.
Definition set_top (v : Z) (th : Thread) : outcome Thread :=
  match t_sp th with
  | S n => s ← write (t_stack th) n v; Done (set_counters s (S n) th)
  | O => Crash
  end.
Definition drop_top (th : Thread) : Thread := set_counters (t_stack th) (pred (t_sp th)) th.

(** A captured text, read again at a position: the position behind it. *)
Fixpoint repeated (fuel : nat) (ref end_ p : Z) : outcome (option Z) :=
  match fuel with
  | O => NoFuel
  | S fuel =>
      if ref <? end_ then
        if p >=? inputEnd_ e0 then Done None
        else
          r1 ← GetChar e0 ref end_;
          r2 ← GetChar e0 p (inputEnd_ e0);
          if canonical e0 (fst r1) =? canonical e0 (fst r2) then repeated fuel (snd r1) end_ (snd r2) else Done None
      else Done (Some p)
  end.
Fixpoint repeated_backward (fuel : nat) (ref start p : Z) : outcome (option Z) :=
  match fuel with
  | O => NoFuel
  | S fuel =>
      if ref >? start then
        if p =? 0 then Done None
        else
          r1 ← GetPrevChar e0 ref start;
          r2 ← GetPrevChar e0 p 0;
          if canonical e0 (fst r1) =? canonical e0 (fst r2) then repeated_backward fuel (snd r1) start (snd r2)
          else Done None
      else Done (Some p)
  end.
Definition back_reference (i : Instr) (n : Z) (th : Thread) (text : Z -> Z -> outcome (option Z)) : outcome effect :=
  if n >=? Z.of_nat (nCapture_ e0) then Done Fails
  else
    c ← read (t_caps th) (Z.to_nat n);
    match c with
    | (Some first, Some last) =>
        r ← text first last;
        Done (match r with Some p => Goes (next i (set_ptr p th)) | None => Fails end)
    | _ => Done (Goes (next i th))
    end.

(** Another round of a loop, if it needs one or may have one. *)
Definition loop (i : Instr) (greedy : bool) (start min max : Z) (th : Thread) : outcome effect :=
  c ← top th;
  let count := u32 (c + 1) in
  th ← set_top count th;
  let again := jump i start th in
  let leave := next i th in
  Done (if greedy then
          if count <? max then if count >=? min then Forks STATE_SPLIT again leave else Goes again else Goes leave
        else
          if count <? min then Goes again else if count <? max then Forks STATE_SPLIT leave again else Goes leave).

Definition save (th : Thread) (n : Z) (f : CaptureState -> CaptureState) : outcome Thread :=
  c ← read (t_caps th) (Z.to_nat n);
  l ← write (t_caps th) (Z.to_nat n) (f c);
  Done (set_caps l th).

Definition eval (i : Instr) (th : Thread) : outcome effect :=
  match i with
  | All => consume i th (fun _ => true)
  | Dots => consume i th (fun c => negb (IsTerminator c))
  | Char ch | Char32 ch => consume i th (fun c => canonical e0 c =? ch)
  | Range l | Range32 l => consume i th (fun c => RangeSet.IsContain l (canonical e0 c))
  | WordBoundary => b ← boundary th; Done (assert i th b)
  | NotWordBoundary => b ← boundary th; Done (assert i th (negb b))
  | LineStart => b ← line_start th; Done (assert i th b)
  | LineEnd => b ← line_end th; Done (assert i th b)
  | SaveStart n => th ← save th n (fun c => (Some (t_ptr th), snd c)); Done (Goes (next i th))
  | SaveEnd n => th ← save th n (fun c => (fst c, Some (t_ptr th))); Done (Goes (next i th))
  | SaveReset a b =>
      l ← reset_captures (t_caps th) (Z.to_nat a) (Z.to_nat (b - a + 1)); Done (Goes (next i (set_caps l th)))
  | Goto n => Done (Goes (jump i n th))
  | SplitNext n => Done (Forks STATE_SPLIT (next i th) (jump i n th))
  | SplitFirst n => Done (Forks STATE_SPLIT (jump i n th) (next i th))
  | MatchAhead n => Done (Forks STATE_MATCH_AHEAD (next i th) (jump i n th))
  | NegativeMatchAhead n => Done (Forks STATE_NEGATIVE_MATCH_AHEAD (next i th) (jump i n th))
  | Match => Done AheadEnds
  | MatchEnd => Done Accepts
  | Prev => if t_ptr th =? 0 then Done Fails else p ← PrevPtr e0 (t_ptr th) 0; Done (Goes (next i (set_ptr p th)))
  | Loop start min max => loop i false start min max th
  | LoopGreedy start min max => loop i true start min max th
  | PushChar => th ← push (base_ e0 + t_ptr th) th; Done (Goes (next i th))
  | Push => th ← push 0 th; Done (Goes (next i th))
  | Pop => _ ← top th; Done (Goes (next i (drop_top th)))
  | CheckChar n =>
      v ← top th;
      Done (Goes (if v =? base_ e0 + t_ptr th then jump i n (drop_top th) else next i (drop_top th)))
  | BackReference n =>
      back_reference i n th (fun first last => repeated (S (length (input_ e0))) first last (t_ptr th))
  | BackwardBackReference n =>
      back_reference i n th (fun first last => repeated_backward (S (length (input_ e0))) last first (t_ptr th))
  end.

(** The program, the end of its code, and how many attempts may wait at once. *)
  Context (prog : list Instr) (pcEnd : Z) (limit : nat).

(** The first successful attempt, depth first, under [d] waiting ones.  A
    lookahead is tried once; its captures stay, and what it left waiting is
    given up. *)
Fixpoint attempt (fuel d : nat) (th : Thread) : outcome result :=
  match fuel with
  | O => NoFuel
  | S fuel =>
      if t_pc th <? pcEnd then
        match fetch prog OP_START_OFFSET (Z.to_nat (t_pc th)) with
        | None => Crash
        | Some i =>
            e ← eval i th;
            match e with
            | Fails => Done Failed
            | Goes th => attempt fuel d th
            | Accepts => Done (Matched th)
            | AheadEnds => Done (Ahead th)
            | Forks type first second =>
                if (limit <=? d)%nat then Crash
                else
                  r ← attempt fuel (S d) first;
                  match type, r with
                  | _, Matched th => Done (Matched th)
                  | STATE_SPLIT, Ahead th => Done (Ahead th)
                  | STATE_SPLIT, Failed | STATE_NEGATIVE_MATCH_AHEAD, Failed => attempt fuel d second
                  | STATE_MATCH_AHEAD, Ahead th => attempt fuel d (set_caps (t_caps th) second)
                  | STATE_MATCH_AHEAD, Failed | STATE_NEGATIVE_MATCH_AHEAD, Ahead _ => Done Failed
                  end
            end
        end
      else Done (Matched th)
  end.

(** Attempts at every position from [p] on, or (sticky) there only. *)
Definition start_at (p : Z) : Thread :=
  mkThread (Z.of_nat OP_START_OFFSET) p (replicate (nCapture_ e0) (None, None)) (replicate (nStack_ e0) 0) 0.
Fixpoint find (fuel n : nat) (p : Z) : outcome (option Thread) :=
  match n with
  | O => NoFuel
  | S n =>
      r ← attempt fuel 1 (start_at p);
      match r with
      | Matched th => Done (Some th)
      | Ahead _ => Done None
      | Failed => if p >=? inputEnd_ e0 then Done None else p ← AdvancePtr e0 p (inputEnd_ e0); find fuel n p
      end
  end.
Definition exec (fuel : nat) (p : Z) : outcome (option Thread) :=
  if has_flag e0 FLAG_STICKY then
    r ← attempt fuel 0 (start_at p); Done (match r with Matched th => Some th | _ => None end)
  else find fuel (S (Z.to_nat (inputEnd_ e0 - p))) p.
End semantics.

(** * The machine carries out the semantics *)
Section refinement.
  Context {memory_ : Memory} {icu : ICU}.
  Context (e0 : Executor) (code : DynChunk).

(** The machine at an attempt, with the waiting ones on its stack, and room for
    [cap] of them. *)
Definition stack_of (s : list Z) : option (list Z) := match stack_ e0 with Some _ => Some s | None => None end.
Definition saved (p : StateType * Thread) : RegExpState :=
  mkState (fst p) (t_pc (snd p)) (t_sp (snd p)) (t_ptr (snd p)) (t_caps (snd p)) (stack_of (t_stack (snd p))).
Definition bytes_for (cap : Z) : option Z := if cap =? 0 then None else Some (cap * stateSize_ e0).
Definition conf (th : Thread) (sv : list (StateType * Thread)) (cap : Z) : Executor :=
  mkExecutor (input_ e0) (base_ e0) (inputEnd_ e0) (isWideChar_ e0) (t_pc th) (t_ptr th) (t_caps th)
    (stack_of (t_stack th)) (t_sp th) (nCapture_ e0) (nStack_ e0) (flags_ e0) (map saved sv) cap
    (stateSize_ e0) (bytes_for cap).

Lemma u32_add_r (a b : Z) : u32 (a + u32 b) = u32 (a + b).
Proof. apply wrapu_congr. unfold wrapu. by rewrite Zplus_mod_idemp_r. Qed.
Lemma u32_add_l (a b : Z) : u32 (u32 a + b) = u32 (a + b).
Proof. apply wrapu_congr. unfold wrapu. by rewrite Zplus_mod_idemp_l. Qed.

(** Instructions of a fixed size. *)
Definition fixed_size (i : Instr) : bool := match i with Range _ | Range32 _ => false | _ => true end.
Lemma GetSizeOf_fixed (i : Instr) : fixed_size i = true -> GetSizeOf (opcode i) = Done (length (encode i)).
Proof. by destruct i. Qed.

Lemma Advance_conf (i : Instr) (n : Z) (th : Thread) sv cap : fixed_size i = true ->
  Advance (opcode i) n (conf th sv cap) = Done (conf (jump i n th) sv cap).
Proof.
  intros Hi. unfold Advance. rewrite GetSizeOf_fixed by done. cbn [mbind outcome_bind].
  change (currentPc_ (conf th sv cap)) with (t_pc th). rewrite u32_add_r. unfold jump, size.
  by replace (t_pc th + (n + Z.of_nat (length (encode i)))) with (t_pc th + Z.of_nat (length (encode i)) + n) by lia.
Qed.
Lemma jump_0 (i : Instr) (th : Thread) : jump i 0 th = next i th.
Proof. unfold jump, next. by rewrite Z.add_0_r. Qed.
Lemma Advance_next (i : Instr) (th : Thread) sv cap : fixed_size i = true ->
  Advance (opcode i) 0 (conf th sv cap) = Done (conf (next i th) sv cap).
Proof. intros Hi. by rewrite Advance_conf, jump_0. Qed.
Lemma succeed_conf (i : Instr) (th : Thread) sv cap : fixed_size i = true ->
  succeed (opcode i) (conf th sv cap) = Done (conf (next i th) sv cap, true).
Proof. intros Hi. unfold succeed. by rewrite Advance_next. Qed.

(** ** Saved states *)
(** The attempt that goes on after a failure, or after the end of a lookahead. *)
Fixpoint unwind (isMatched : bool) (caps : list CaptureState) (sv : list (StateType * Thread)) :
    option (Thread * list (StateType * Thread)) :=
  match sv with
  | [] => None
  | (STATE_SPLIT, th) :: rest => if isMatched then unwind isMatched caps rest else Some (th, rest)
  | (STATE_MATCH_AHEAD, th) :: rest => if isMatched then Some (set_caps caps th, rest) else unwind false caps rest
  | (STATE_NEGATIVE_MATCH_AHEAD, th) :: rest => if isMatched then unwind false caps rest else Some (th, rest)
  end.

(** Copies of the captures and of the counters are accepted. *)
Definition copies_ok : Prop :=
  copied (listSize e0) = true /\ (stack_ e0 <> None -> copied (stackSize e0) = true).
  Context (Hcopies : copies_ok).

Lemma stack_copied (s : list Z) : negb (stack_of s == None) && negb (copied (stackSize e0)) = false.
Proof.
  destruct Hcopies as [_ H]. unfold stack_of. destruct (stack_ e0); [|done]. rewrite H by done. by rewrite andb_false_r.
Qed.

Lemma PopRegExpState_conf (b : bool) (th : Thread) (ty : StateType) (th' : Thread) sv cap :
  PopRegExpState b (conf th ((ty, th') :: sv) cap) =
  Done (conf (if b then th' else set_caps (t_caps th) th') sv cap).
Proof.
  unfold PopRegExpState. cbn [stateStack_ conf map]. destruct Hcopies as [Hl _].
  change (listSize (conf _ _ _)) with (listSize e0). rewrite Hl, andb_false_r.
  change (stack_ (conf th ((ty, th') :: sv) cap)) with (stack_of (t_stack th)).
  change (stackSize (conf _ _ _)) with (stackSize e0). rewrite stack_copied. f_equal.
  unfold conf, saved, stack_of. by destruct b, (stack_ e0).
Qed.

Lemma MatchFailed_loop_conf (m : bool) (th : Thread) sv cap :
  MatchFailed_loop (map saved sv) m (conf th sv cap) =
  match unwind m (t_caps th) sv with
  | Some (th', rest) => Done (conf th' rest cap, false)
  | None => Done (conf th [] cap, true)
  end.
Proof.
  revert m. induction sv as [|[ty th'] sv IH]; intros m; [done|].
  change (map saved ((ty, th') :: sv)) with (saved (ty, th') :: map saved sv). cbn [MatchFailed_loop].
  change (st_type (saved (ty, th'))) with ty.
  assert (Hdrop : DropRegExpState (conf th ((ty, th') :: sv) cap) = conf th sv cap) by done.
  rewrite Hdrop. destruct ty, m; cbn [unwind]; cbn [negb andb orb]; rewrite ?bool_decide_true by done;
    rewrite ?(bool_decide_false (STATE_MATCH_AHEAD = _)), ?(bool_decide_false (STATE_NEGATIVE_MATCH_AHEAD = _)) by done;
    cbn [andb orb negb]; rewrite ?PopRegExpState_conf; cbn [mbind outcome_bind]; try done; apply IH.
Qed.

Lemma MatchFailed_conf (m : bool) (th : Thread) sv cap :
  MatchFailed m (conf th sv cap) =
  match unwind m (t_caps th) sv with
  | Some (th', rest) => Done (conf th' rest cap, false)
  | None => Done (conf th [] cap, true)
  end.
Proof. apply MatchFailed_loop_conf. Qed.

(** ** Room for saved states *)
  Context (limit : nat).
(** The stack of states can grow for [limit] of them without an overflow. *)
Definition room_ok : Prop :=
  0 < stateSize_ e0 /\ Z.max (2 * Z.of_nat limit) MIN_STACK_SIZE * stateSize_ e0 < 2 ^ 32 /\
  (forall k, 0 < k <= Z.max (2 * Z.of_nat limit) MIN_STACK_SIZE -> copied (k * stateSize_ e0) = true).
  Context (Hroom : room_ok).
(** The room for [n] states in use. *)
Definition cap_ok (n : nat) (cap : Z) : Prop :=
  Z.of_nat n <= cap <= Z.max (2 * Z.of_nat limit) MIN_STACK_SIZE.

Lemma ReAllocStack_conf (th : Thread) sv cap : cap_ok (length sv) cap -> (length sv < limit)%nat ->
  exists cap', ReAllocStack (u32 (Z.of_nat (length sv) + 1)) (conf th sv cap) = Done (conf th sv cap') /\
    cap_ok (S (length sv)) cap'.
Proof.
  intros [Hc1 Hc2] Hl. destruct Hroom as (Hs & Hm & Hk). unfold MIN_STACK_SIZE in *.
  assert (Hw : forall x, 0 <= x < 2 ^ 32 -> u32 x = x) by (intros x Hx; by apply wrapu_id).
  unfold ReAllocStack. cbn [stateStackSize_ conf stateSize_ stateStackBytes_].
  assert (Hbig : Z.max (2 * Z.of_nat limit) 8 < 2 ^ 32) by nia.
  rewrite Hw by lia. destruct (Z.gtb_spec (Z.of_nat (length sv) + 1) cap) as [Hgt|Hle].
  - assert (cap = Z.of_nat (length sv)) as -> by lia. unfold MIN_STACK_SIZE. rewrite (Hw (_ * 2)) by lia.
    set (new := Z.max (Z.of_nat (length sv) * 2) 8). assert (Hnew : 0 < new <= Z.max (2 * Z.of_nat limit) 8) by lia.
    rewrite (Hw (new * _)) by nia. rewrite Hk by lia. cbn [negb].
    assert (Hset : set_capacity new (new * stateSize_ e0) (conf th sv (Z.of_nat (length sv))) = conf th sv new).
    { unfold set_capacity, conf, bytes_for. cbn. by rewrite (proj2 (Z.eqb_neq new 0)) by lia. }
    exists new. split; [|unfold cap_ok, MIN_STACK_SIZE; lia].
    unfold bytes_for. destruct (Z.eqb_spec (Z.of_nat (length sv)) 0); [by rewrite Hset|].
    rewrite Hw by nia. rewrite Hk by lia. cbn [negb].
    rewrite !Z.gtb_ltb, (proj2 (Z.ltb_ge _ (_ * _))) by lia.
    rewrite (proj2 (Z.ltb_ge _ (_ * _))) by nia. by rewrite Hset.
  - exists cap. split; [done|]. unfold cap_ok, MIN_STACK_SIZE. lia.
Qed.

Lemma PushRegExpState_conf (ty : StateType) (pc : Z) (th : Thread) sv cap :
  cap_ok (length sv) cap -> (length sv < limit)%nat ->
  exists cap', PushRegExpState ty pc (conf th sv cap) = Done (conf th ((ty, set_pc pc th) :: sv) cap') /\
    cap_ok (S (length sv)) cap'.
Proof.
  intros Hc Hl. destruct (ReAllocStack_conf th sv cap Hc Hl) as (cap' & E & Hc').
  exists cap'. split; [|done]. unfold PushRegExpState. cbn [stateStack_ conf]. rewrite length_map.
  fold (conf th sv cap). rewrite E. cbn [mbind outcome_bind].
  assert (Hf : state_fits (Z.of_nat (length sv)) (conf th sv cap') = true).
  { destruct Hroom as (Hs & Hm & _), Hc' as [H1 H2]. unfold MIN_STACK_SIZE in *. unfold state_fits. cbn [stateStackBytes_ conf stateSize_].
    unfold bytes_for. rewrite (proj2 (Z.eqb_neq cap' 0)) by lia. rewrite wrapu_id by (unfold in_u; nia).
    apply Z.leb_le. nia. }
  rewrite Hf. cbn [negb]. change (listSize (conf _ _ _)) with (listSize e0). destruct Hcopies as [Hlist _].
  rewrite Hlist. cbn [negb]. change (stack_ (conf th sv cap')) with (stack_of (t_stack th)).
  change (stackSize (conf _ _ _)) with (stackSize e0). by rewrite stack_copied.
Qed.
(** ** One instruction *)
(** The handler an instruction is dispatched to. *)
Definition handler_of (i : Instr) (e : Executor) : outcome verdict :=
  let op := opcode i in
  match i with
  | Dots | All => checked (HandleOpAll op e)
  | Char _ | Char32 _ => checked (HandleOpChar code op e)
  | WordBoundary | NotWordBoundary => checked (HandleOpWordBoundary op e)
  | LineStart => checked (HandleOpLineStart op e)
  | LineEnd => checked (HandleOpLineEnd op e)
  | SaveStart _ => always (HandleOpSaveStart code op e)
  | SaveEnd _ => always (HandleOpSaveEnd code op e)
  | Goto _ => offset ← GetU32 code (pc_at e 1); always (Advance op offset e)
  | Match => r ← MatchFailed true e; let '(e, none) := r in Done (if none : bool then Return e false else Continue e)
  | MatchEnd => Done (Return e true)
  | SaveReset _ _ => always (HandleOpSaveReset code op e)
  | SplitNext _ | MatchAhead _ | NegativeMatchAhead _ => always (HandleOpMatch code op e)
  | SplitFirst _ => always (HandleOpSplitFirst code op e)
  | Prev => checked (HandleOpPrev op e)
  | Loop _ _ _ | LoopGreedy _ _ _ => always (HandleOpLoop code op e)
  | PushChar => always (e ← PushStack (base_ e + currentPtr_ e) e; Advance op 0 e)
  | CheckChar _ =>
      r ← PopStack e;
      let '(e, v) := r in
      if negb (v =? base_ e + currentPtr_ e) then always (Advance op 0 e)
      else offset ← GetU32 code (pc_at e 1); always (Advance op offset e)
  | Push => always (e ← PushStack 0 e; Advance op 0 e)
  | Pop => always (r ← PopStack e; Advance op 0 (fst r))
  | Range32 _ => checked (HandleOpRange32 code e)
  | Range _ => checked (HandleOpRange code e)
  | BackReference _ | BackwardBackReference _ => checked (HandleOpBackReference code op e)
  end.
Lemma step_handler (i : Instr) (e : Executor) :
  code_at code (pc_at e 0) (encode i) -> step code e = handler_of i e.
Proof. intros Hc. unfold step. apply get_opcode in Hc as [-> _]. by destruct i. Qed.

(** What the machine makes of an effect. *)
Definition performs (th : Thread) sv cap (eff : effect) (r : outcome verdict) : Prop :=
  match eff with
  | Fails => exists th', r = checked (fail (conf th' sv cap))
  | Goes th' => r = Done (Continue (conf th' sv cap))
  | Forks ty a b => (length sv < limit)%nat ->
      exists cap', r = Done (Continue (conf a ((ty, b) :: sv) cap')) /\ cap_ok (S (length sv)) cap'
  | Accepts => r = Done (Return (conf th sv cap) true)
  | AheadEnds => r = (r ← MatchFailed true (conf th sv cap);
                      let '(e, none) := r in Done (if none : bool then Return e false else Continue e))
  end.
Definition range_ok (i : Instr) : Prop :=
  match i with Range l | Range32 l => RangeSet.normal (-1) l /\ l <> [] | _ => True end.

(** The instruction under the machine. *)
Definition instr_at (i : Instr) (th : Thread) : Prop :=
  code_at code (Z.to_nat (t_pc th)) (encode i) /\ 0 <= t_pc th /\ instr_ok i.

Lemma operand_at (i : Instr) (n : nat) (x : Z) (th : Thread) sv cap ps : instr_at i th -> operands i = (n, x) :: ps ->
  get_int n code (pc_at (conf th sv cap) 1) = Done x.
Proof.
  intros (Hc & Hpc & Hok) Hi. apply get_opcode in Hc as [_ Hc]. unfold instr_ok in Hok. rewrite Hi in *.
  destruct (get_operand code _ n x ps Hc Hok) as [<- _]. unfold pc_at. cbn [currentPc_ conf]. f_equal. lia.
Qed.
Lemma operand2_at (i : Instr) (n m : nat) (x y k : Z) (th : Thread) sv cap ps :
  instr_at i th -> operands i = (n, x) :: (m, y) :: ps -> k = 1 + Z.of_nat n ->
  get_int m code (pc_at (conf th sv cap) k) = Done y.
Proof.
  intros (Hc & Hpc & Hok) Hi ->. apply get_opcode in Hc as [_ Hc]. unfold instr_ok in Hok. rewrite Hi in *.
  destruct (get_operand code _ n x ((m, y) :: ps) Hc Hok) as (_ & Hc1 & Hok1).
  destruct (get_operand code _ m y ps Hc1 Hok1) as [<- _]. unfold pc_at. cbn [currentPc_ conf]. f_equal. lia.
Qed.
Lemma operand3_at (i : Instr) (n m o : nat) (x y z k : Z) (th : Thread) sv cap ps :
  instr_at i th -> operands i = (n, x) :: (m, y) :: (o, z) :: ps -> k = 1 + Z.of_nat n + Z.of_nat m ->
  get_int o code (pc_at (conf th sv cap) k) = Done z.
Proof.
  intros (Hc & Hpc & Hok) Hi ->. apply get_opcode in Hc as [_ Hc]. unfold instr_ok in Hok. rewrite Hi in *.
  destruct (get_operand code _ n x ((m, y) :: (o, z) :: ps) Hc Hok) as (_ & Hc1 & Hok1).
  destruct (get_operand code _ m y ((o, z) :: ps) Hc1 Hok1) as (_ & Hc2 & Hok2).
  destruct (get_operand code _ o z ps Hc2 Hok2) as [<- _]. unfold pc_at. cbn [currentPc_ conf]. f_equal. lia.
Qed.

(** Characters do not depend on where the machine is. *)
Lemma GetCurrentChar_conf (th : Thread) sv cap :
  GetCurrentChar (conf th sv cap) =
  r ← GetChar e0 (t_ptr th) (inputEnd_ e0); Done (conf (set_ptr (snd r) th) sv cap, fst r).
Proof.
  unfold GetCurrentChar. change (GetChar (conf th sv cap)) with (GetChar e0). cbn [currentPtr_ inputEnd_ conf].
  by destruct (GetChar e0 (t_ptr th) (inputEnd_ e0)) as [[c p]| |].
Qed.
Lemma canonical_conf (th : Thread) sv cap c : canonical (conf th sv cap) c = canonical e0 c.
Proof. done. Qed.
Lemma IsEOF_conf (th : Thread) sv cap : IsEOF (conf th sv cap) = at_end e0 th.
Proof. done. Qed.

Lemma performs_assert (i : Instr) (th : Thread) sv cap (b : bool) : fixed_size i = true ->
  performs th sv cap (assert i th b)
    (checked (if b then succeed (opcode i) (conf th sv cap) else fail (conf th sv cap))).
Proof. intros Hi. destruct b; cbn [assert performs]; [by rewrite succeed_conf|by exists th]. Qed.

Lemma HandleOpAll_ok (i : Instr) (th : Thread) sv cap eff : i = All \/ i = Dots ->
  eval e0 i th = Done eff -> performs th sv cap eff (checked (HandleOpAll (opcode i) (conf th sv cap))).
Proof.
  intros Hi He. assert (Hf : fixed_size i = true) by (by destruct Hi as [->| ->]).
  unfold HandleOpAll. rewrite IsEOF_conf, GetCurrentChar_conf.
  assert (E : eval e0 i th = consume e0 i th (fun c => negb ((opcode i =? OP_DOTS) && IsTerminator c)))
    by (by destruct Hi as [->| ->]).
  rewrite E in He. unfold consume in He. destruct (at_end e0 th); [injection He as <-; by exists th|].
  destruct (GetChar e0 (t_ptr th) (inputEnd_ e0)) as [[c p]| |]; [|done|done]. injection He as <-.
  cbn [mbind outcome_bind fst snd]. destruct ((opcode i =? OP_DOTS) && IsTerminator c); cbn [negb].
  - by eexists.
  - by rewrite succeed_conf.
Qed.

Lemma HandleOpChar_ok (i : Instr) (ch : Z) (th : Thread) sv cap eff : i = Char ch \/ i = Char32 ch -> instr_at i th ->
  eval e0 i th = Done eff -> performs th sv cap eff (checked (HandleOpChar code (opcode i) (conf th sv cap))).
Proof.
  intros Hi Hat He. unfold HandleOpChar.
  assert (E : (if opcode i =? OP_CHAR32 then GetU32 code (pc_at (conf th sv cap) 1) else GetU16 code (pc_at (conf th sv cap) 1))
              = Done ch) by (destruct Hi as [->| ->]; by eapply operand_at).
  rewrite E. cbn [mbind outcome_bind]. rewrite IsEOF_conf, GetCurrentChar_conf.
  assert (E' : eval e0 i th = consume e0 i th (fun c => canonical e0 c =? ch)) by (by destruct Hi as [->| ->]).
  assert (Hf : fixed_size i = true) by (by destruct Hi as [->| ->]).
  rewrite E' in He. unfold consume in He. destruct (at_end e0 th); [injection He as <-; by exists th|].
  destruct (GetChar e0 (t_ptr th) (inputEnd_ e0)) as [[c p]| |]; [|done|done]. injection He as <-.
  cbn [mbind outcome_bind fst snd]. rewrite canonical_conf. destruct (canonical e0 c =? ch).
  - by rewrite succeed_conf.
  - by eexists.
Qed.

Lemma handle_range_ok (w : nat) (l : Ranges) (th : Thread) sv cap eff : width_ok w -> instr_at (range_instr w l) th ->
  RangeSet.normal (-1) l -> l <> [] ->
  consume e0 (range_instr w l) th (fun c => RangeSet.IsContain l (canonical e0 c)) = Done eff ->
  performs th sv cap eff (checked (handle_range w code (conf th sv cap))).
Proof.
  intros Hw (Hc & Hpc & Hok) Hn Hne He. unfold consume in He. destruct (at_end e0 th) eqn:Hend.
  { unfold handle_range. rewrite IsEOF_conf, Hend. injection He as <-. by exists th. }
  pose proof (GetCurrentChar_conf th sv cap) as Hg.
  destruct (GetChar e0 (t_ptr th) (inputEnd_ e0)) as [[c p]| |]; [|done|done]. injection He as <-.
  rewrite (handle_range_found code w l _ _ c Hw) by (done || by unfold pc_at; cbn [currentPc_ conf]; rewrite Z.add_0_r).
  rewrite canonical_conf. cbn [fst snd]. destruct (RangeSet.IsContain l (canonical e0 c)); [|by eexists].
  cbn [performs checked mbind outcome_bind]. unfold next, AdvanceOffset, size. by rewrite range_size, u32_add_r.
Qed.
Lemma HandleOpWordBoundary_ok (i : Instr) (th : Thread) sv cap eff : i = WordBoundary \/ i = NotWordBoundary ->
  eval e0 i th = Done eff -> performs th sv cap eff (checked (HandleOpWordBoundary (opcode i) (conf th sv cap))).
Proof.
  intros Hi He. unfold HandleOpWordBoundary. rewrite IsEOF_conf.
  assert (E : eval e0 i th = b ← boundary e0 th; Done (assert i th (if opcode i =? OP_WORD_BOUNDARY then b else negb b)))
    by (by destruct Hi as [->| ->]).
  assert (Hf : fixed_size i = true) by (by destruct Hi as [->| ->]).
  rewrite E in He. unfold boundary, before, after in He. destruct (at_end e0 th).
  { injection He as <-. destruct (opcode i =? OP_WORD_BOUNDARY); apply (performs_assert i th sv cap true Hf) ||
      apply (performs_assert i th sv cap false Hf). }
  change (PeekPrevChar (conf th sv cap)) with (PeekPrevChar e0). change (PeekChar (conf th sv cap)) with (PeekChar e0).
  cbn [currentPtr_ inputEnd_ conf].
  destruct (if t_ptr th =? 0 then Done false else _) as [pre| |]; [|done|done]. cbn [mbind outcome_bind] in *.
  destruct (PeekChar e0 (t_ptr th) (inputEnd_ e0)) as [c| |]; [|done|done]. injection He as <-. cbn [mbind outcome_bind].
  match goal with |- context [if ?b then succeed _ _ else _] =>
    assert (b = (if opcode i =? OP_WORD_BOUNDARY then xorb pre (IsWordChar c) else negb (xorb pre (IsWordChar c)))) as ->
      by (destruct Hi as [->| ->], pre, (IsWordChar c); reflexivity) end.
  by apply performs_assert.
Qed.

Lemma HandleOpLineStart_ok (th : Thread) sv cap eff : eval e0 LineStart th = Done eff ->
  performs th sv cap eff (checked (HandleOpLineStart OP_LINE_START (conf th sv cap))).
Proof.
  intros He. unfold HandleOpLineStart. rewrite IsEOF_conf. cbn [eval] in He. unfold line_start, before in He.
  destruct (at_end e0 th); [injection He as <-; by apply (performs_assert LineStart th sv cap false)|].
  change (PeekPrevChar (conf th sv cap)) with (PeekPrevChar e0). change (has_flag (conf th sv cap)) with (has_flag e0).
  cbn [currentPtr_ conf]. destruct (t_ptr th =? 0).
  - injection He as <-. by apply (performs_assert LineStart th sv cap true).
  - destruct (if has_flag e0 FLAG_MULTILINE then _ else _) as [b| |]; [|done|done]. injection He as <-.
    by apply (performs_assert LineStart th sv cap b).
Qed.

Lemma HandleOpLineEnd_ok (th : Thread) sv cap eff : eval e0 LineEnd th = Done eff ->
  performs th sv cap eff (checked (HandleOpLineEnd OP_LINE_END (conf th sv cap))).
Proof.
  intros He. unfold HandleOpLineEnd. rewrite IsEOF_conf. cbn [eval] in He. unfold line_end, after in He.
  change (PeekChar (conf th sv cap)) with (PeekChar e0). change (has_flag (conf th sv cap)) with (has_flag e0).
  cbn [currentPtr_ inputEnd_ conf]. destruct (if at_end e0 th then _ else _) as [b| |]; [|done|done]. injection He as <-.
  by apply (performs_assert LineEnd th sv cap b).
Qed.

(** Captures. *)
Lemma HandleOpSave_ok (i : Instr) (n : Z) (th : Thread) sv cap eff : i = SaveStart n \/ i = SaveEnd n -> instr_at i th ->
  eval e0 i th = Done eff ->
  performs th sv cap eff
    (always (if opcode i =? OP_SAVE_START then HandleOpSaveStart code (opcode i) (conf th sv cap)
             else HandleOpSaveEnd code (opcode i) (conf th sv cap))).
Proof.
  intros Hi Hat He. unfold HandleOpSaveStart, HandleOpSaveEnd.
  assert (E : GetU8 code (pc_at (conf th sv cap) 1) = Done n) by (destruct Hi as [->| ->]; by eapply operand_at).
  rewrite E. cbn [mbind outcome_bind currentPtr_ captureResultList_ conf].
  destruct Hi as [->| ->]; cbn [eval opcode] in *; unfold save in He;
    change (OP_SAVE_START =? OP_SAVE_START) with true; change (OP_SAVE_END =? OP_SAVE_START) with false; cbv iota;
    (destruct (read (t_caps th) (Z.to_nat n)) as [c| |]; [|done|done]); cbn [mbind outcome_bind] in *;
    (destruct (write (t_caps th) (Z.to_nat n) _) as [l| |] eqn:Hw; [|done|done]); injection He as <-;
    cbn [mbind outcome_bind performs];
    change (set_captures l (conf th sv cap)) with (conf (set_caps l th) sv cap).
  - by rewrite (Advance_next (SaveStart n)).
  - by rewrite (Advance_next (SaveEnd n)).
Qed.

Lemma HandleOpSaveReset_ok (a b : Z) (th : Thread) sv cap eff : instr_at (SaveReset a b) th ->
  eval e0 (SaveReset a b) th = Done eff ->
  performs th sv cap eff (always (HandleOpSaveReset code OP_SAVE_RESET (conf th sv cap))).
Proof.
  intros Hat He. unfold HandleOpSaveReset.
  rewrite (operand_at _ 1 a th sv cap [(1%nat, b)] Hat eq_refl : GetU8 code (pc_at (conf th sv cap) 1) = Done a).
  rewrite (operand2_at _ 1 1 a b 2 th sv cap [] Hat eq_refl eq_refl : GetU8 code (pc_at (conf th sv cap) 2) = Done b).
  cbn [mbind outcome_bind captureResultList_ conf]. cbn [eval] in He.
  destruct (reset_captures _ _ _) as [l| |]; [|done|done]. injection He as <-. cbn [mbind outcome_bind performs].
  change (set_captures l (conf th sv cap)) with (conf (set_caps l th) sv cap).
  by rewrite (Advance_next (SaveReset a b)).
Qed.

(** Jumps and forks. *)
Lemma jump_next (i : Instr) (n : Z) (th : Thread) : set_pc (u32 (t_pc (next i th) + n)) (next i th) = jump i n th.
Proof. unfold next, jump. cbn. by rewrite u32_add_l. Qed.

Lemma HandleOpMatch_ok (i : Instr) (n : Z) (th : Thread) sv cap eff :
  i = SplitNext n \/ i = MatchAhead n \/ i = NegativeMatchAhead n -> instr_at i th -> cap_ok (length sv) cap ->
  eval e0 i th = Done eff -> performs th sv cap eff (always (HandleOpMatch code (opcode i) (conf th sv cap))).
Proof.
  intros Hi Hat Hcap He. unfold HandleOpMatch.
  assert (E : GetU32 code (pc_at (conf th sv cap) 1) = Done n)
    by (destruct Hi as [->|[->| ->]]; by eapply operand_at).
  assert (Hf : fixed_size i = true) by (by destruct Hi as [->|[->| ->]]).
  assert (Hty : exists ty, eff = Forks ty (next i th) (jump i n th) /\
    (if opcode i =? OP_SPLIT_NEXT then Done STATE_SPLIT
     else if opcode i =? OP_MATCH_AHEAD then Done STATE_MATCH_AHEAD
     else if opcode i =? OP_NEGATIVE_MATCH_AHEAD then Done STATE_NEGATIVE_MATCH_AHEAD else Crash) = Done ty).
  { destruct Hi as [->|[->| ->]]; injection He as <-; by eexists. }
  destruct Hty as (ty & -> & ->). cbn [mbind outcome_bind performs]. intros Hl. rewrite E. cbn [mbind outcome_bind].
  rewrite Advance_next by done. cbn [mbind outcome_bind].
  destruct (PushRegExpState_conf ty (u32 (t_pc (next i th) + n)) (next i th) sv cap Hcap Hl) as (cap' & E' & Hc').
  exists cap'. split; [|done]. cbn [currentPc_ conf]. fold (conf (next i th) sv cap). rewrite E'. cbn [always mbind outcome_bind].
  by rewrite jump_next.
Qed.

Lemma HandleOpSplitFirst_ok (n : Z) (th : Thread) sv cap eff : instr_at (SplitFirst n) th -> cap_ok (length sv) cap ->
  eval e0 (SplitFirst n) th = Done eff ->
  performs th sv cap eff (always (HandleOpSplitFirst code OP_SPLIT_FIRST (conf th sv cap))).
Proof.
  intros Hat Hcap He. unfold HandleOpSplitFirst. injection He as <-. cbn [performs]. intros Hl.
  rewrite (operand_at _ 4 n th sv cap [] Hat eq_refl : GetU32 code (pc_at (conf th sv cap) 1) = Done n).
  cbn [mbind outcome_bind]. rewrite (Advance_next (SplitFirst n)) by done. cbn [mbind outcome_bind].
  set (th1 := next (SplitFirst n) th).
  destruct (PushRegExpState_conf STATE_SPLIT (t_pc th1) th1 sv cap Hcap Hl) as (cap' & E' & Hc').
  exists cap'. split; [|done]. change (currentPc_ (conf th1 sv cap)) with (t_pc th1). rewrite E'. cbn [always mbind outcome_bind].
  unfold AdvanceOffset. rewrite u32_add_r. rewrite <- jump_next. done.
Qed.
(** The counters. *)
Lemma PushStack_conf (v : Z) (th th' : Thread) sv cap : push e0 v th = Done th' ->
  PushStack v (conf th sv cap) = Done (conf th' sv cap).
Proof.
  unfold push, PushStack. cbn [stack_ currentStack_ conf]. unfold conf, saved, stack_of.
  destruct (stack_ e0); [|done]. destruct (write _ _ _) as [s| |]; [|done|done].
  cbn [mbind outcome_bind]. by intros [= <-].
Qed.
Lemma PeekStack_conf (th : Thread) sv cap : PeekStack (conf th sv cap) = top e0 th.
Proof. unfold PeekStack, top. cbn [stack_ currentStack_ conf]. unfold stack_of. by destruct (stack_ e0). Qed.
Lemma PopStack_conf (th : Thread) (v : Z) sv cap : top e0 th = Done v ->
  PopStack (conf th sv cap) = Done (conf (drop_top th) sv cap, v).
Proof.
  unfold top, PopStack. cbn [stack_ currentStack_ conf]. unfold conf, saved, stack_of, drop_top.
  destruct (stack_ e0); [|done]. destruct (t_sp th); [done|]. by intros ->.
Qed.
Lemma SetStackValue_conf (v c : Z) (th th' : Thread) sv cap : top e0 th = Done c -> set_top v th = Done th' ->
  SetStackValue v (conf th sv cap) = Done (conf th' sv cap).
Proof.
  unfold top, set_top, SetStackValue. cbn [stack_ currentStack_ conf]. unfold conf, saved, stack_of.
  destruct (stack_ e0); [|done]. destruct (t_sp th); [done|]. intros _.
  destruct (write _ _ _) as [s| |]; [|done|done]. cbn [mbind outcome_bind]. by intros [= <-].
Qed.

Lemma handle_push_ok (i : Instr) (v : Z) (th : Thread) sv cap eff : fixed_size i = true ->
  (th ← push e0 v th; Done (Goes (next i th))) = Done eff ->
  performs th sv cap eff (always (e ← PushStack v (conf th sv cap); Advance (opcode i) 0 e)).
Proof.
  intros Hf He. destruct (push e0 v th) as [th'| |] eqn:Hp; [|done|done]. injection He as <-.
  rewrite (PushStack_conf v th th' sv cap Hp). cbn [mbind outcome_bind performs]. by rewrite Advance_next.
Qed.

Lemma handle_check_ok (n : Z) (th : Thread) sv cap eff : instr_at (CheckChar n) th ->
  eval e0 (CheckChar n) th = Done eff -> performs th sv cap eff (handler_of (CheckChar n) (conf th sv cap)).
Proof.
  intros Hat He. cbn [handler_of eval] in *. destruct (top e0 th) as [v| |] eqn:Ht; [|done|done].
  injection He as <-. rewrite (PopStack_conf th v sv cap Ht). cbn [mbind outcome_bind performs].
  change (base_ (conf (drop_top th) sv cap) + currentPtr_ (conf (drop_top th) sv cap)) with (base_ e0 + t_ptr th).
  destruct (v =? base_ e0 + t_ptr th); cbn [negb].
  - rewrite (operand_at _ 4 n (drop_top th) sv cap [] Hat eq_refl : GetU32 code (pc_at (conf (drop_top th) sv cap) 1) = Done n).
    cbn [mbind outcome_bind]. by rewrite (Advance_conf (CheckChar n)).
  - by rewrite (Advance_next (CheckChar n)).
Qed.

(** Loops. *)
Lemma set_top_next (i : Instr) (v : Z) (th th' : Thread) : set_top v th = Done th' ->
  set_top v (next i th) = Done (next i th').
Proof.
  unfold set_top. cbn [t_sp t_stack next set_pc]. destruct (t_sp th); [done|].
  destruct (write _ _ _) as [s| |]; [|done|done]. by intros [= <-].
Qed.
Lemma set_pc_next (i : Instr) (th : Thread) : set_pc (t_pc (next i th)) (next i th) = next i th.
Proof. done. Qed.

Lemma HandleOpLoop_ok (i : Instr) (greedy : bool) (start min max : Z) (th : Thread) sv cap eff :
  i = (if greedy then LoopGreedy start min max else Loop start min max) -> instr_at i th -> cap_ok (length sv) cap ->
  eval e0 i th = Done eff -> performs th sv cap eff (always (HandleOpLoop code (opcode i) (conf th sv cap))).
Proof.
  intros Hi Hat Hcap He. unfold HandleOpLoop.
  assert (Hops : operands i = [(4%nat, start); (4%nat, min); (4%nat, max)]) by (by destruct greedy; subst i).
  assert (Hf : fixed_size i = true) by (by destruct greedy; subst i).
  assert (Hg : (opcode i =? OP_LOOP_GREEDY) = greedy) by (by destruct greedy; subst i).
  assert (He' : loop e0 i greedy start min max th = Done eff) by (by destruct greedy; subst i). clear Hi He.
  rewrite (operand2_at i 4 4 start min 5 th sv cap _ Hat Hops eq_refl : GetU32 code (pc_at (conf th sv cap) 5) = Done min).
  rewrite (operand3_at i 4 4 4 start min max 9 th sv cap _ Hat Hops eq_refl : GetU32 code (pc_at (conf th sv cap) 9) = Done max).
  rewrite (operand_at i 4 start th sv cap _ Hat Hops : GetU32 code (pc_at (conf th sv cap) 1) = Done start).
  cbn [mbind outcome_bind]. rewrite Advance_next by done. cbn [mbind outcome_bind]. rewrite Hg, PeekStack_conf.
  change (top e0 (next i th)) with (top e0 th). unfold loop in He'.
  destruct (top e0 th) as [c| |] eqn:Ht; [|done|done]. cbn [mbind outcome_bind] in *. rewrite u32_add_l.
  destruct (set_top (u32 (c + 1)) th) as [th1| |] eqn:Hst; [|done|done]. cbn [mbind outcome_bind] in *.
  rewrite (SetStackValue_conf _ c (next i th) (next i th1) sv cap Ht (set_top_next i _ _ _ Hst)).
  cbn [mbind outcome_bind]. assert (Hpc : t_pc th1 = t_pc th).
  { revert Hst. unfold set_top. destruct (t_sp th); [done|]. destruct (write _ _ _); [|done|done]. by intros [= <-]. }
  change (currentPc_ (conf (next i th) sv cap)) with (u32 (t_pc th + size i)). rewrite <- Hpc.
  change (u32 (t_pc th1 + size i)) with (t_pc (next i th1)).
  assert (Hagain : SetCurrentPC (u32 (t_pc (next i th1) + start)) (conf (next i th1) sv cap) = conf (jump i start th1) sv cap)
    by (by rewrite <- (jump_next i start th1)).
  assert (Hpush : forall pc, (length sv < limit)%nat -> exists cap',
    PushRegExpState STATE_SPLIT pc (conf (next i th1) sv cap) =
      Done (conf (next i th1) ((STATE_SPLIT, set_pc pc (next i th1)) :: sv) cap') /\ cap_ok (S (length sv)) cap')
    by (intros pc Hl; by apply PushRegExpState_conf).
  injection He' as <-. destruct greedy; cbn [negb andb].
  - destruct (u32 (c + 1) <? max); [|done]. destruct (u32 (c + 1) >=? min); cbn [performs].
    + intros Hl. destruct (Hpush (t_pc (next i th1)) Hl) as (cap' & E & Hc'). exists cap'. split; [|done].
      rewrite E. cbn [mbind outcome_bind always]. by rewrite <- (jump_next i start th1).
    + cbn [mbind outcome_bind always]. by rewrite Hagain.
  - destruct (Z.ltb_spec (u32 (c + 1)) min).
    + rewrite Z.geb_leb, (proj2 (Z.leb_gt min _)) by lia. cbn [mbind outcome_bind always performs]. by rewrite Hagain.
    + destruct (u32 (c + 1) <? max); [|done]. cbn [performs]. intros Hl.
      destruct (Hpush (u32 (t_pc (next i th1) + start)) Hl) as (cap' & E & Hc'). exists cap'. split; [|done].
      rewrite E. cbn [mbind outcome_bind always]. by rewrite jump_next.
Qed.

Lemma HandleOpPrev_ok (th : Thread) sv cap eff : eval e0 Prev th = Done eff ->
  performs th sv cap eff (checked (HandleOpPrev OP_PREV (conf th sv cap))).
Proof.
  intros He. unfold HandleOpPrev. change (PrevPtr (conf th sv cap)) with (PrevPtr e0). cbn [currentPtr_ conf eval] in *.
  destruct (t_ptr th =? 0); [injection He as <-; by exists th|].
  destruct (PrevPtr e0 (t_ptr th) 0) as [p| |]; [|done|done]. injection He as <-. cbn [mbind outcome_bind performs].
  change (SetCurrentPtr p (conf th sv cap)) with (conf (set_ptr p th) sv cap). by rewrite (succeed_conf Prev).
Qed.

(** Back references. *)
Lemma BackReference_loop_conf (fuel : nat) (ref end_ : Z) (th : Thread) sv cap r :
  repeated e0 fuel ref end_ (t_ptr th) = Done r ->
  exists th', HandleOpBackReferenceMatch_loop fuel ref end_ (conf th sv cap) =
      Done (conf th' sv cap, match r with Some _ => true | None => false end) /\
    match r with Some p => th' = set_ptr p th | None => True end.
Proof.
  revert ref th. induction fuel as [|fuel IH]; intros ref th H; [done|].
  cbn [repeated HandleOpBackReferenceMatch_loop] in *. destruct (ref <? end_); [|].
  - rewrite IsEOF_conf. unfold at_end. destruct (t_ptr th >=? inputEnd_ e0); [injection H as <-; by exists th|].
    rewrite GetCurrentChar_conf. change (GetChar (conf th sv cap)) with (GetChar e0).
    destruct (GetChar e0 ref end_) as [[c1 ref']| |]; [|done|done]. cbn [mbind outcome_bind fst snd] in *.
    destruct (GetChar e0 (t_ptr th) (inputEnd_ e0)) as [[c2 p]| |]; [|done|done]. cbn [mbind outcome_bind fst snd] in *.
    rewrite !canonical_conf. destruct (canonical e0 c1 =? canonical e0 c2); [|injection H as <-; by eexists].
    destruct (IH ref' (set_ptr p th) H) as (th' & -> & Hr). exists th'. split; [done|]. by destruct r.
  - injection H as <-. exists th. split; [done|]. by destruct th.
Qed.
Lemma BackwardBackReference_loop_conf (fuel : nat) (ref start : Z) (th : Thread) sv cap r :
  repeated_backward e0 fuel ref start (t_ptr th) = Done r ->
  exists th', HandleOpBackwardBackReferenceMatch_loop fuel ref start (conf th sv cap) =
      Done (conf th' sv cap, match r with Some _ => true | None => false end) /\
    match r with Some p => th' = set_ptr p th | None => True end.
Proof.
  revert ref th. induction fuel as [|fuel IH]; intros ref th H; [done|].
  cbn [repeated_backward HandleOpBackwardBackReferenceMatch_loop] in *. destruct (ref >? start); [|].
  - cbn [currentPtr_ conf]. destruct (t_ptr th =? 0); [injection H as <-; by exists th|].
    fold (conf th sv cap). change (GetPrevChar (conf th sv cap)) with (GetPrevChar e0).
    destruct (GetPrevChar e0 ref start) as [[c1 ref']| |]; [|done|done]. cbn [mbind outcome_bind fst snd] in *.
    destruct (GetPrevChar e0 (t_ptr th) 0) as [[c2 p]| |]; [|done|done]. cbn [mbind outcome_bind fst snd] in *.
    change (SetCurrentPtr p (conf th sv cap)) with (conf (set_ptr p th) sv cap).
    rewrite !canonical_conf. destruct (canonical e0 c1 =? canonical e0 c2); [|injection H as <-; by eexists].
    destruct (IH ref' (set_ptr p th) H) as (th' & -> & Hr). exists th'. split; [done|]. by destruct r.
  - injection H as <-. exists th. split; [done|]. by destruct th.
Qed.

Lemma HandleOpBackReference_ok (i : Instr) (n : Z) (th : Thread) sv cap eff :
  i = BackReference n \/ i = BackwardBackReference n -> instr_at i th ->
  eval e0 i th = Done eff -> performs th sv cap eff (checked (HandleOpBackReference code (opcode i) (conf th sv cap))).
Proof.
  intros Hi Hat He. unfold HandleOpBackReference.
  assert (E : GetU8 code (pc_at (conf th sv cap) 1) = Done n) by (destruct Hi as [->| ->]; by eapply operand_at).
  assert (Hf : fixed_size i = true) by (by destruct Hi as [->| ->]).
  rewrite E. cbn [mbind outcome_bind nCapture_ captureResultList_ conf]. fold (conf th sv cap).
  set (text := fun first last => if opcode i =? OP_BACKREFERENCE
    then repeated e0 (S (length (input_ e0))) first last (t_ptr th)
    else repeated_backward e0 (S (length (input_ e0))) last first (t_ptr th)).
  assert (He' : back_reference e0 i n th text = Done eff) by (by destruct Hi as [->| ->]).
  unfold back_reference in He'. destruct (n >=? Z.of_nat (nCapture_ e0)); [injection He' as <-; by exists th|].
  destruct (read (t_caps th) (Z.to_nat n)) as [[[first|] [last|]]| |]; try done; cbn [mbind outcome_bind] in *;
    try (injection He' as <-; by rewrite succeed_conf).
  destruct (text first last) as [r| |] eqn:Ht; [|done|done]. injection He' as <-. unfold text in Ht.
  unfold HandleOpBackReferenceMatch, HandleOpBackwardBackReferenceMatch. cbn [input_ conf]. fold (conf th sv cap).
  destruct (opcode i =? OP_BACKREFERENCE);
    [destruct (BackReference_loop_conf _ _ _ th sv cap r Ht) as (th' & -> & Hr)
    |destruct (BackwardBackReference_loop_conf _ _ _ th sv cap r Ht) as (th' & -> & Hr)];
    cbn [mbind outcome_bind]; (destruct r as [p|]; [subst th'; by rewrite succeed_conf|by exists th']).
Qed.

(** Every instruction of the machine has the effect the semantics says. *)
Lemma step_performs (i : Instr) (th : Thread) sv cap eff : instr_at i th -> range_ok i -> cap_ok (length sv) cap ->
  eval e0 i th = Done eff -> performs th sv cap eff (step code (conf th sv cap)).
Proof.
  intros Hat Hr Hcap He. rewrite (step_handler i).
  2: { destruct Hat as (Hc & _). unfold pc_at. cbn [currentPc_ conf]. by rewrite Z.add_0_r. }
  destruct i; cbn [handler_of];
    [ apply (HandleOpSave_ok _ n th sv cap eff (or_introl eq_refl) Hat He)
    | apply (HandleOpSave_ok _ n th sv cap eff (or_intror eq_refl) Hat He)
    | apply (HandleOpChar_ok _ ch th sv cap eff (or_introl eq_refl) Hat He)
    | | by apply HandleOpSplitFirst_ok with offset
    | eapply (HandleOpMatch_ok (SplitNext offset)); eauto
    | eapply (HandleOpMatch_ok (MatchAhead offset)); eauto
    | eapply (HandleOpMatch_ok (NegativeMatchAhead offset)); eauto
    | by injection He as <-
    | eapply (HandleOpLoop_ok (Loop start min max) false); eauto
    | eapply (HandleOpLoop_ok (LoopGreedy start min max) true); eauto
    | by apply (handle_push_ok PushChar)
    | by apply handle_check_ok
    | by apply (handle_push_ok Push)
    |
    | by eapply HandleOpSaveReset_ok
    | by apply HandleOpLineStart_ok
    | by apply HandleOpLineEnd_ok
    | by apply (HandleOpWordBoundary_ok WordBoundary); auto
    | by apply (HandleOpWordBoundary_ok NotWordBoundary); auto
    | by apply (HandleOpAll_ok All); auto
    | by apply (HandleOpAll_ok Dots); auto
    | by injection He as <-
    | by apply HandleOpPrev_ok
    | destruct Hr; eapply (handle_range_ok 2 l); eauto; by left
    | eapply (HandleOpBackReference_ok (BackReference n)); eauto
    | eapply (HandleOpBackReference_ok (BackwardBackReference n)); eauto
    | apply (HandleOpChar_ok _ ch th sv cap eff (or_intror eq_refl) Hat He)
    | destruct Hr; eapply (handle_range_ok 4 l); eauto; by right ].
  - injection He as <-.
    rewrite (operand_at _ 4 offset th sv cap [] Hat eq_refl : GetU32 code (pc_at (conf th sv cap) 1) = Done offset).
    cbn [mbind outcome_bind performs]. by rewrite (Advance_conf (Goto offset)).
  - cbn [eval] in He. destruct (top e0 th) as [v| |] eqn:Ht; [|done|done]. injection He as <-.
    rewrite (PopStack_conf th v sv cap Ht). cbn [mbind outcome_bind performs fst]. by rewrite (Advance_next Pop).
Qed.
(** ** Runs *)
  Context (prog : list Instr) (pcEnd : Z).
(** The code of a program, behind the header. *)
Definition code_ok : Prop :=
  code_at code OP_START_OFFSET (prog ≫= encode) /\ Forall instr_ok prog /\ Forall range_ok prog.
  Context (Hcode : code_ok).

Lemma fetch_code (l : list Instr) (offset pc : nat) (i : Instr) :
  fetch l offset pc = Some i -> code_at code offset (l ≫= encode) ->
  code_at code pc (encode i) /\ i ∈ l /\ (offset <= pc)%nat.
Proof.
  revert offset. induction l as [|j l IH]; intros offset Hf Hc; [done|]. cbn [fetch] in Hf.
  change ((j :: l) ≫= encode) with (encode j ++ (l ≫= encode)) in Hc. apply code_at_app in Hc as [Hc1 Hc2].
  destruct (Nat.eqb_spec pc offset) as [->|Hne]; [injection Hf as ->; split; [done|]; split; [constructor|done]|].
  destruct (IH _ Hf Hc2) as (H1 & H2 & H3). split; [done|]. split; [by constructor|lia].
Qed.
Lemma fetch_instr_at (th : Thread) (i : Instr) :
  fetch prog OP_START_OFFSET (Z.to_nat (t_pc th)) = Some i -> instr_at i th /\ range_ok i.
Proof.
  destruct Hcode as (Hc & Hok & Hr). intros Hf. destruct (fetch_code _ _ _ _ Hf Hc) as (H1 & H2 & H3).
  rewrite Forall_forall in Hok, Hr. unfold OP_START_OFFSET in H3. unfold instr_at. auto with lia.
Qed.

Definition run (fuel : nat) (e : Executor) : outcome (Executor * bool) := ExecuteInternal fuel code pcEnd e.
Definition reaches (e e' : Executor) : Prop := exists k, forall fuel, run (k + fuel) e = run fuel e'.
Definition returns (e : Executor) (b : bool) (th : Thread) : Prop :=
  exists k sv cap, forall fuel, run (k + fuel) e = Done (conf th sv cap, b).
(** The machine after a failed attempt, or the end of a lookahead. *)
Definition resumes (m : bool) (caps : list CaptureState) sv (e : Executor) : Prop :=
  match unwind m caps sv with
  | Some (th, rest) => exists cap, cap_ok (length rest) cap /\ reaches e (conf th rest cap)
  | None => exists th, returns e false th
  end.

Lemma reaches_trans e1 e2 e3 : reaches e1 e2 -> reaches e2 e3 -> reaches e1 e3.
Proof. intros [k1 H1] [k2 H2]. exists (k1 + k2)%nat. intros fuel. by rewrite <- Nat.add_assoc, H1, H2. Qed.
Lemma reaches_returns e e' b th : reaches e e' -> returns e' b th -> returns e b th.
Proof.
  intros [k1 H1] (k2 & sv & cap & H2). exists (k1 + k2)%nat, sv, cap. intros fuel. by rewrite <- Nat.add_assoc, H1, H2.
Qed.
Lemma reaches_resumes e e' m caps sv : reaches e e' -> resumes m caps sv e' -> resumes m caps sv e.
Proof.
  intros Hr. unfold resumes. destruct (unwind m caps sv) as [[th rest]|].
  - intros (cap & Hc & H). exists cap. split; [done|]. by eapply reaches_trans.
  - intros [th H]. exists th. by eapply reaches_returns.
Qed.

Lemma unwind_length m caps sv th rest : unwind m caps sv = Some (th, rest) -> (length rest < length sv)%nat.
Proof.
  revert m. induction sv as [|[ty th'] sv IH]; intros m H; [done|]. cbn [length].
  destruct ty, m; cbn [unwind] in H; first [specialize (IH _ H); lia|injection H as _ <-; lia].
Qed.
Lemma unwind_false caps caps' sv : unwind false caps sv = unwind false caps' sv.
Proof. induction sv as [|[[] th] sv IH]; [done|done|apply IH|done]. Qed.

(** In the middle of a match: the restart at the next position is not due. *)
Definition under_way (sv : list (StateType * Thread)) : Prop := sv <> [] \/ has_flag e0 FLAG_STICKY = true.
Lemma HandleFirstSplit_under_way (th : Thread) sv cap : under_way sv ->
  HandleFirstSplit (conf th sv cap) = Done (conf th sv cap, true).
Proof.
  intros Hu. unfold HandleFirstSplit. cbn [stateStack_ conf]. fold (conf th sv cap). rewrite length_map.
  change (has_flag (conf th sv cap)) with (has_flag e0).
  destruct Hu as [H| ->]; [|by rewrite andb_false_r].
  destruct sv; [done|]. cbn [length Nat.eqb]. by rewrite andb_false_r.
Qed.
Lemma run_step (th : Thread) sv cap (fuel : nat) : under_way sv -> t_pc th < pcEnd ->
  run (S fuel) (conf th sv cap) =
  v ← step code (conf th sv cap);
  match v with Return e result => Done (e, result) | Continue e => run fuel e end.
Proof.
  intros Hu Hpc. unfold run. cbn [ExecuteInternal]. change (currentPc_ (conf th sv cap)) with (t_pc th).
  rewrite (proj2 (Z.ltb_lt _ _) Hpc), HandleFirstSplit_under_way by done. done.
Qed.

Lemma step_resumes (m : bool) (th th' : Thread) sv cap : under_way sv -> t_pc th < pcEnd -> cap_ok (length sv) cap ->
  step code (conf th sv cap) =
    (r ← MatchFailed m (conf th' sv cap); let '(e, none) := r in Done (if none : bool then Return e false else Continue e)) ->
  resumes m (t_caps th') sv (conf th sv cap).
Proof.
  intros Hu Hpc Hcap Hs. unfold resumes. rewrite MatchFailed_conf in Hs.
  destruct (unwind m (t_caps th') sv) as [[th1 rest]|] eqn:Hun.
  - exists cap. apply unwind_length in Hun. split; [destruct Hcap; split; lia|]. exists 1%nat. intros fuel.
    cbn [Nat.add]. by rewrite run_step, Hs.
  - exists th', 1%nat, [], cap. intros fuel. cbn [Nat.add]. by rewrite run_step, Hs.
Qed.
Lemma fail_resumes (th th' : Thread) sv cap : under_way sv -> t_pc th < pcEnd -> cap_ok (length sv) cap ->
  step code (conf th sv cap) = checked (fail (conf th' sv cap)) -> resumes false [] sv (conf th sv cap).
Proof.
  intros Hu Hpc Hcap Hs. pose proof (step_resumes false th th' sv cap Hu Hpc Hcap) as H. unfold resumes in *.
  rewrite (unwind_false _ []) in H. apply H. rewrite Hs. unfold checked, fail.
  destruct (MatchFailed false (conf th' sv cap)) as [[e []]| |]; done.
Qed.

(** What the machine does with the result of an attempt. *)
Definition realises (r : result) (th : Thread) sv cap : Prop :=
  match r with
  | Matched th' => returns (conf th sv cap) true th'
  | Ahead th' => resumes true (t_caps th') sv (conf th sv cap)
  | Failed => resumes false [] sv (conf th sv cap)
  end.
Lemma reaches_realises r th sv cap th' cap' :
  reaches (conf th sv cap) (conf th' sv cap') -> realises r th' sv cap' -> realises r th sv cap.
Proof.
  intros Hr. destruct r; cbn [realises]; [by apply reaches_returns|by apply reaches_resumes|by apply reaches_resumes].
Qed.

Lemma attempt_realised (fuel : nat) (th : Thread) sv cap r :
  attempt e0 prog pcEnd limit fuel (length sv) th = Done r -> cap_ok (length sv) cap -> under_way sv ->
  realises r th sv cap.
Proof.
  revert th sv cap r. induction fuel as [|fuel IH]; intros th sv cap r H Hcap Hu; [done|]. cbn [attempt] in H.
  destruct (Z.ltb_spec (t_pc th) pcEnd) as [Hpc|Hpc].
  2: { injection H as <-. exists 1%nat, sv, cap. intros n. unfold run. cbn [Nat.add ExecuteInternal].
       change (currentPc_ (conf th sv cap)) with (t_pc th). by rewrite (proj2 (Z.ltb_ge _ _)). }
  destruct (fetch prog OP_START_OFFSET (Z.to_nat (t_pc th))) as [i|] eqn:Hf; [|done].
  destruct (fetch_instr_at th i Hf) as [Hat Hr]. destruct (eval e0 i th) as [eff| |] eqn:He; [|done|done].
  pose proof (step_performs i th sv cap eff Hat Hr Hcap He) as Hstep. cbn [mbind outcome_bind] in H.
  destruct eff as [|th'|ty a b| |]; cbn [performs] in Hstep.
  - injection H as <-. destruct Hstep as [th' Hs]. by eapply fail_resumes.
  - apply (reaches_realises r th sv cap th' cap); [|by apply IH]. exists 1%nat. intros n. cbn [Nat.add]. by rewrite run_step, Hstep.
  - destruct (Nat.leb_spec limit (length sv)) as [|Hlim]; [done|].
    destruct (Hstep Hlim) as (cap' & Hs & Hcap'). set (sv' := (ty, b) :: sv) in *.
    assert (Hto : reaches (conf th sv cap) (conf a sv' cap')).
    { exists 1%nat. intros n. cbn [Nat.add]. by rewrite run_step, Hs. }
    destruct (attempt e0 prog pcEnd limit fuel (S (length sv)) a) as [r1| |] eqn:Ha; [|by destruct ty|by destruct ty].
    assert (Hr1 : realises r1 a sv' cap') by (apply IH; [done|done|by left]). cbn [mbind outcome_bind] in H.
    (** back at the waiting attempt, or at one below it *)
    assert (Hsecond : forall m caps b', unwind m caps sv' = Some (b', sv) -> resumes m caps sv' (conf a sv' cap') ->
      attempt e0 prog pcEnd limit fuel (length sv) b' = Done r -> realises r th sv cap).
    { intros m caps b' Hun Hres Hb. unfold resumes in Hres. rewrite Hun in Hres. destruct Hres as (cap2 & Hc2 & Hre).
      apply (reaches_realises r th sv cap b' cap2); [by eapply reaches_trans|by apply IH]. }
    assert (Hbelow : forall m m' caps, unwind m caps sv' = unwind m' caps sv -> resumes m caps sv' (conf a sv' cap') ->
      resumes m' caps sv (conf th sv cap)).
    { intros m m' caps Hun Hres. apply (reaches_resumes _ _ _ _ _ Hto). unfold resumes in *. by rewrite Hun in Hres. }
    destruct r1 as [th1|th1|]; cbn [realises] in Hr1.
    + assert (r = Matched th1) as -> by (destruct ty; congruence). by eapply reaches_returns.
    + destruct ty; [injection H as <-; by apply (Hbelow true)|by apply (Hsecond true (t_caps th1) (set_caps (t_caps th1) b))|].
      injection H as <-. apply (Hbelow true false []); [done|]. unfold resumes in *. unfold sv' in Hr1. cbn [unwind] in *.
      by rewrite (unwind_false _ []) in Hr1.
    + destruct ty; [by apply (Hsecond false [] b)| |by apply (Hsecond false [] b)].
      injection H as <-. by apply (Hbelow false).
  - injection H as <-. exists 1%nat, sv, cap. intros n. cbn [Nat.add]. by rewrite run_step, Hstep.
  - injection H as <-. by apply (step_resumes true th th).
Qed.
(** Attempts from every position on. *)
Lemma start_advanced (p q : Z) : set_ptr q (start_at e0 p) = start_at e0 q.
Proof. done. Qed.
Lemma run_restart (p q cap : Z) : (0 < limit)%nat -> cap_ok 0 cap -> has_flag e0 FLAG_STICKY = false ->
  Z.of_nat OP_START_OFFSET < pcEnd -> (p >=? inputEnd_ e0) = false -> AdvancePtr e0 p (inputEnd_ e0) = Done q ->
  exists cap', cap_ok 1 cap' /\ forall fuel, run (S fuel) (conf (start_at e0 p) [] cap) =
    run (S fuel) (conf (start_at e0 q) [(STATE_SPLIT, start_at e0 q)] cap').
Proof.
  intros Hl Hcap Hst Hpc Heof Hadv.
  destruct (PushRegExpState_conf STATE_SPLIT (Z.of_nat OP_START_OFFSET) (start_at e0 q) [] cap Hcap Hl) as (cap' & E & Hc').
  exists cap'. split; [done|]. intros fuel.
  rewrite (run_step (start_at e0 q)); [|by left|done]. unfold run. cbn [ExecuteInternal].
  change (currentPc_ (conf (start_at e0 p) [] cap)) with (Z.of_nat OP_START_OFFSET). rewrite (proj2 (Z.ltb_lt _ _) Hpc).
  assert (Hfirst : HandleFirstSplit (conf (start_at e0 p) [] cap) = Done (conf (start_at e0 q) [(STATE_SPLIT, start_at e0 q)] cap', true)).
  { unfold HandleFirstSplit. change (has_flag (conf (start_at e0 p) [] cap)) with (has_flag e0). rewrite Hst.
    change (currentPc_ (conf (start_at e0 p) [] cap)) with (Z.of_nat OP_START_OFFSET). rewrite Z.eqb_refl.
    cbn [stateStack_ conf map length Nat.eqb andb negb]. fold (conf (start_at e0 p) [] cap). rewrite IsEOF_conf.
    unfold at_end. change (t_ptr (start_at e0 p)) with p. rewrite Heof. unfold AdvanceCurrentPtr.
    change (AdvancePtr (conf (start_at e0 p) [] cap)) with (AdvancePtr e0).
    change (currentPtr_ (conf (start_at e0 p) [] cap)) with p. cbn [inputEnd_ conf]. rewrite Hadv. cbn [mbind outcome_bind].
    change (SetCurrentPtr q (conf (start_at e0 p) [] cap)) with (conf (start_at e0 q) [] cap). rewrite E. done. }
  by rewrite Hfirst.
Qed.
Lemma run_exhausted (p cap : Z) : has_flag e0 FLAG_STICKY = false ->
  Z.of_nat OP_START_OFFSET < pcEnd -> (p >=? inputEnd_ e0) = true -> returns (conf (start_at e0 p) [] cap) false (start_at e0 p).
Proof.
  intros Hst Hpc Heof. exists 1%nat, [], cap. intros fuel. cbn [Nat.add]. unfold run. cbn [ExecuteInternal].
  change (currentPc_ (conf (start_at e0 p) [] cap)) with (Z.of_nat OP_START_OFFSET). rewrite (proj2 (Z.ltb_lt _ _) Hpc).
  unfold HandleFirstSplit. change (has_flag (conf (start_at e0 p) [] cap)) with (has_flag e0). rewrite Hst.
  change (currentPc_ (conf (start_at e0 p) [] cap)) with (Z.of_nat OP_START_OFFSET). rewrite Z.eqb_refl.
  cbn [stateStack_ conf map length Nat.eqb andb negb]. fold (conf (start_at e0 p) [] cap). rewrite IsEOF_conf.
  unfold at_end. change (t_ptr (start_at e0 p)) with p. by rewrite Heof.
Qed.

(** The answer of the machine, with the position and the captures of a match. *)
Definition answers (e : Executor) (r : option Thread) : Prop :=
  match r with Some th => returns e true th | None => exists th, returns e false th end.

Lemma find_realised (fuel n : nat) (p cap : Z) r : (0 < limit)%nat -> has_flag e0 FLAG_STICKY = false -> cap_ok 1 cap ->
  find e0 prog pcEnd limit fuel n p = Done r ->
  answers (conf (start_at e0 p) [(STATE_SPLIT, start_at e0 p)] cap) r.
Proof.
  intros Hl Hst. revert p cap. induction n as [|n IH]; intros p cap Hcap H; [done|]. cbn [find] in H.
  destruct (attempt e0 prog pcEnd limit fuel 1 (start_at e0 p)) as [a| |] eqn:Ha; [|done|done]. cbn [mbind outcome_bind] in H.
  assert (Hu : under_way [(STATE_SPLIT, start_at e0 p)]) by (by left).
  pose proof (attempt_realised fuel (start_at e0 p) [(STATE_SPLIT, start_at e0 p)] cap a Ha Hcap Hu) as Hr.
  destruct a as [th|th|]; cbn [realises] in Hr.
  - by injection H as <-.
  - injection H as <-. exact Hr.
  - destruct Hr as (cap2 & Hc2 & Hre).
    assert (Hpc : Z.of_nat OP_START_OFFSET < pcEnd).
    { destruct fuel; [done|]. cbn [attempt] in Ha. change (t_pc (start_at e0 p)) with (Z.of_nat OP_START_OFFSET) in Ha.
      destruct (Z.ltb_spec (Z.of_nat OP_START_OFFSET) pcEnd); [done|congruence]. }
    destruct (p >=? inputEnd_ e0) eqn:Heof.
    + injection H as <-. exists (start_at e0 p). by apply (reaches_returns _ _ _ _ Hre), run_exhausted.
    + destruct (AdvancePtr e0 p (inputEnd_ e0)) as [q| |] eqn:Hadv; [|done|done]. cbn [mbind outcome_bind] in H.
      destruct (run_restart p q cap2 Hl Hc2 Hst Hpc Heof Hadv) as (cap3 & Hc3 & Hrs).
      assert (Hto : forall b th, returns (conf (start_at e0 q) [(STATE_SPLIT, start_at e0 q)] cap3) b th ->
        returns (conf (start_at e0 p) [] cap2) b th).
      { intros b th (k & sv & cap4 & Hk). exists (S k), sv, cap4. intros m.
        cbn [Nat.add]. rewrite Hrs. rewrite <- (Hk (S m)). f_equal. lia. }
      specialize (IH q cap3 Hc3 H). destruct r as [th|]; cbn [answers] in *.
      * apply (reaches_returns _ _ _ _ Hre). by apply Hto.
      * destruct IH as [th IH]. exists th. apply (reaches_returns _ _ _ _ Hre). by apply Hto.
Qed.
End refinement.

(** * [Execute] *)
Section execution.
  Context {memory_ : Memory} {icu : ICU}.
(** A regular expression program as the compiler leaves it: a header of four
    words, then the instructions. *)
Record Program := mkProgram { p_captures : nat; p_counters : nat; p_flags : Z; p_code : list Instr }.
Definition code_end (P : Program) : Z := Z.of_nat (OP_START_OFFSET + length (p_code P ≫= encode)).
Definition header (P : Program) : list Z :=
  bytes_of 4 (code_end P) ++ bytes_of 4 (Z.of_nat (p_captures P)) ++ bytes_of 4 (Z.of_nat (p_counters P)) ++
  bytes_of 4 (p_flags P).
Definition buffer (P : Program) : list Z := header P ++ (p_code P ≫= encode).
Definition state_size (P : Program) : Z := STATE_SIZE + 16 * Z.of_nat (p_captures P) + 8 * Z.of_nat (p_counters P).

Record program_ok (P : Program) : Prop := {
  ok_captures : (0 < p_captures P)%nat;
  ok_flags : 0 <= p_flags P < 2 ^ 32;
  ok_end : code_end P < 2 ^ 32;
  ok_instrs : Forall instr_ok (p_code P);
  ok_ranges : Forall range_ok (p_code P) }.

(** The input of a match: its bytes at an address, of which [in_length]
    characters are looked at from character [in_first] on. *)
Record Input := mkInput { in_bytes : list Z; in_base : Z; in_first : Z; in_length : Z; in_wide : bool }.
Definition char_width (s : Input) : Z := if in_wide s then WIDE_CHAR_SIZE else CHAR_SIZE.
Definition start_ptr (s : Input) : Z := in_first s * char_width s.
Definition environment (P : Program) (s : Input) : Executor :=
  mkExecutor (in_bytes s) (in_base s) (in_length s * char_width s) (in_wide s) (Z.of_nat OP_START_OFFSET) (start_ptr s)
    (replicate (p_captures P) (None, None))
    (if (p_counters P =? 0)%nat then None else Some (replicate (p_counters P) 0)) 0
    (p_captures P) (p_counters P) (p_flags P) [] 0 (state_size P) None.

(** [match_from limit P s]: the answer of the semantics, with at most [limit]
    attempts waiting. *)
Definition match_from (limit fuel : nat) (P : Program) (s : Input) : outcome (option Thread) :=
  exec (environment P s) (p_code P) (code_end P) limit fuel (start_ptr s).

(** The memory a match needs is available. *)
Definition memory_for (limit : nat) (P : Program) : Prop :=
  Z.max (2 * Z.of_nat limit) MIN_STACK_SIZE * state_size P < 2 ^ 32 /\
  forall n : nat, 0 < Z.of_nat n <= Z.max (2 * Z.of_nat limit) MIN_STACK_SIZE * state_size P -> mem_ok n n = true.

Lemma memory_copied (limit : nat) (P : Program) (n : Z) : memory_for limit P ->
  0 < n <= Z.max (2 * Z.of_nat limit) MIN_STACK_SIZE * state_size P -> copied n = true.
Proof. intros [_ H] Hn. apply H. lia. Qed.

Lemma environment_copies (limit : nat) (P : Program) (s : Input) : program_ok P -> memory_for limit P ->
  copies_ok (environment P s).
Proof.
  intros [Hc _ _ _ _] Hm. assert (Hmul : state_size P <= Z.max (2 * Z.of_nat limit) MIN_STACK_SIZE * state_size P)
    by (unfold MIN_STACK_SIZE, state_size, STATE_SIZE; nia).
  unfold state_size, STATE_SIZE in Hmul. split.
  - apply (memory_copied limit P); [done|]. unfold listSize. cbn [nCapture_ environment]. unfold state_size, STATE_SIZE. lia.
  - cbn [stack_ environment]. destruct (Nat.eqb_spec (p_counters P) 0); [done|]. intros _.
    apply (memory_copied limit P); [done|]. unfold stackSize. cbn [nStack_ environment]. unfold state_size, STATE_SIZE. lia.
Qed.
Lemma environment_room (limit : nat) (P : Program) (s : Input) : memory_for limit P -> room_ok (environment P s) limit.
Proof.
  intros Hm. pose proof Hm as [Hb _]. split; [cbn; unfold state_size, STATE_SIZE; lia|]. split; [done|]. intros k Hk.
  apply (memory_copied limit P); [done|]. cbn [stateSize_ environment].
  assert (0 < state_size P) by (unfold state_size, STATE_SIZE; lia). nia.
Qed.

Lemma buffer_code (P : Program) : program_ok P -> code_ok (of_buffer (buffer P)) (p_code P).
Proof.
  intros [_ _ _ Hi Hr]. split; [|done]. exists (header P), []. split; [by rewrite app_nil_r|].
  unfold header. by rewrite !length_app, !bytes_of_length.
Qed.

Lemma buffer_header (P : Program) : program_ok P -> state_size P < 2 ^ 32 ->
  GetU32 (of_buffer (buffer P)) 0 = Done (code_end P) /\
  GetU32 (of_buffer (buffer P)) NUM_CAPTURE_OFFSET = Done (Z.of_nat (p_captures P)) /\
  GetU32 (of_buffer (buffer P)) NUM_STACK_OFFSET = Done (Z.of_nat (p_counters P)) /\
  GetU32 (of_buffer (buffer P)) FLAGS_OFFSET = Done (p_flags P).
Proof.
  intros [Hc Hf He _ _] Hs. unfold state_size, STATE_SIZE in Hs.
  set (ps := [(4%nat, code_end P); (4%nat, Z.of_nat (p_captures P)); (4%nat, Z.of_nat (p_counters P)); (4%nat, p_flags P)]).
  assert (H0 : code_at (of_buffer (buffer P)) 0 (ps ≫= operand_bytes)).
  { exists [], (p_code P ≫= encode). split; [|done]. unfold buffer, header, ps. cbn -[bytes_of]. by rewrite app_nil_r. }
  assert (Hfit : Forall fits ps).
  { unfold ps, fits. change (256 ^ Z.of_nat 4) with (2 ^ 32). unfold code_end in *. repeat constructor; cbn [fst snd]; lia. }
  destruct (get_operand _ _ _ _ _ H0 Hfit) as (E0 & H1 & Hf1). destruct (get_operand _ _ _ _ _ H1 Hf1) as (E1 & H2 & Hf2).
  destruct (get_operand _ _ _ _ _ H2 Hf2) as (E2 & H3 & Hf3). destruct (get_operand _ _ _ _ _ H3 Hf3) as (E3 & _).
  done.
Qed.
(** A fresh executor gets to the first attempt. *)
Lemma Execute_enters (limit : nat) (P : Program) (s : Input) : program_ok P -> memory_for limit P -> (0 < limit)%nat ->
  let e0 := environment P s in
  exists sv cap, cap_ok limit (length sv) cap /\
    sv = (if has_flag e0 FLAG_STICKY then [] else [(STATE_SPLIT, start_at e0 (start_ptr s))]) /\
    forall fuel, Execute fuel (in_base s) (in_bytes s) (in_first s) (in_length s) (buffer P) (in_wide s) new_executor =
      run (of_buffer (buffer P)) (code_end P) fuel (conf e0 (start_at e0 (start_ptr s)) sv cap).
Proof.
  intros Hok Hm Hl e0. pose proof (environment_copies limit P s Hok Hm) as Hcp. pose proof (environment_room limit P s Hm) as Hrm.
  pose proof Hok as [Hc Hf He _ _].
  assert (Hsz : state_size P < 2 ^ 32) by (destruct Hm as [H _]; unfold MIN_STACK_SIZE, state_size, STATE_SIZE in *; nia).
  destruct (buffer_header P Hok Hsz) as (E0 & E1 & E2 & E3). unfold state_size, STATE_SIZE in Hsz.
  assert (Hw : forall x, 0 <= x < 2 ^ 32 -> u32 x = x) by (intros x Hx; by apply wrapu_id).
  set (e1 := conf e0 (start_at e0 (start_ptr s)) [] 0).
  assert (Henter : forall fuel, Execute fuel (in_base s) (in_bytes s) (in_first s) (in_length s) (buffer P) (in_wide s) new_executor =
    e ← (if negb (has_flag e1 FLAG_STICKY) then PushRegExpState STATE_SPLIT (Z.of_nat OP_START_OFFSET) e1 else Done e1);
    ExecuteInternal fuel (of_buffer (buffer P)) (code_end P) e).
  { intros fuel. unfold Execute. rewrite E0, E1, E2, E3. cbn [mbind outcome_bind].
    rewrite !(Hw (_ * _)), (Hw (_ + _)) by (unfold STATE_SIZE; lia).
    rewrite (proj2 (Z.eqb_neq (16 * _) 0)) by lia. destruct Hcp as [Hlist Hst].
    unfold listSize in Hlist. cbn [nCapture_ environment e0] in Hlist. rewrite Hlist. cbn [negb andb orb].
    unfold e1, conf, bytes_for, start_at, stack_of, e0. cbn [environment nCapture_ nStack_ stack_ input_ base_ inputEnd_ isWideChar_ flags_ stateSize_ map Z.eqb].
    unfold stackSize in Hst. cbn [stack_ nStack_ environment e0] in Hst.
    destruct (Nat.eqb_spec (p_counters P) 0) as [Hz|Hz].
    - rewrite (proj2 (Z.eqb_eq (8 * _) 0)) by lia. cbn [negb andb]. rewrite !Nat2Z.id. done.
    - rewrite (proj2 (Z.eqb_neq (8 * _) 0)) by lia. rewrite Hst by done. cbn [negb andb]. by rewrite !Nat2Z.id. }
  change (has_flag e1 FLAG_STICKY) with (has_flag e0 FLAG_STICKY) in Henter.
  assert (Hcap : cap_ok limit 0 0) by (unfold cap_ok, MIN_STACK_SIZE; lia).
  destruct (has_flag e0 FLAG_STICKY); cbn [negb] in Henter.
  - exists [], 0. done.
  - destruct (PushRegExpState_conf e0 Hcp limit Hrm STATE_SPLIT (Z.of_nat OP_START_OFFSET) (start_at e0 (start_ptr s)) [] 0 Hcap Hl)
      as (cap & E & Hc'). exists [(STATE_SPLIT, start_at e0 (start_ptr s))], cap. split; [done|]. split; [done|].
    intros fuel. rewrite Henter. unfold e1. by rewrite E.
Qed.

(** [Execute] gives the answer [r]. *)
Definition Execute_answers (P : Program) (s : Input) (r : option Thread) : Prop :=
  exists k e', (forall n, Execute (k + n) (in_base s) (in_bytes s) (in_first s) (in_length s) (buffer P) (in_wide s)
                            new_executor = Done (e', match r with Some _ => true | None => false end)) /\
    match r with Some th => currentPtr_ e' = t_ptr th /\ captureResultList_ e' = t_caps th | None => True end.

Lemma Execute_realises (limit fuel : nat) (P : Program) (s : Input) (r : option Thread) :
  program_ok P -> memory_for limit P -> (0 < limit)%nat ->
  match_from limit fuel P s = Done r -> Execute_answers P s r.
Proof.
  intros Hok Hm Hl H. destruct (Execute_enters limit P s Hok Hm Hl) as (sv & cap & Hcap & Hsv & Henter).
  set (e0 := environment P s) in *. set (code := of_buffer (buffer P)) in *.
  assert (Ha : answers e0 code (code_end P) (conf e0 (start_at e0 (start_ptr s)) sv cap) r).
  { unfold match_from, exec in H. fold e0 in H. pose proof (environment_copies limit P s Hok Hm) as Hcp.
    pose proof (environment_room limit P s Hm) as Hrm. destruct (has_flag e0 FLAG_STICKY) eqn:Hst; subst sv.
    - destruct (attempt _ _ _ _ _ _ _) as [a| |] eqn:Hat; [|done|done]. injection H as <-.
      pose proof (attempt_realised e0 code Hcp limit Hrm (p_code P) (code_end P) (buffer_code P Hok) fuel _ [] cap a Hat Hcap
        (or_intror Hst)) as Hr. destruct a; exact Hr.
    - by eapply (find_realised e0 code Hcp limit Hrm (p_code P) (code_end P) (buffer_code P Hok)). }
  unfold answers, returns in Ha. destruct r as [th|].
  - destruct Ha as (k & sv' & cap' & Hk). exists k, (conf e0 th sv' cap'). split; [|done]. intros n. by rewrite Henter.
  - destruct Ha as (th & k & sv' & cap' & Hk). exists k, (conf e0 th sv' cap'). split; [|done]. intros n. by rewrite Henter.
Qed.

(** C20: the matcher returns what the backtracking semantics says, for a program with at least one
    capture, operands that fit their fields, code of less than 2^32 bytes and range lists that are not empty
    and in normal form (sorted and apart; [overlapping_class_missed] shows another one), given memory for
    [limit] waiting attempts: where the semantics with that limit has an
    answer, [Execute] on a fresh executor returns it (with any fuel from some
    number on), with the same end position and the same captures.  Lookaheads,
    back references, loops and the search over start positions included. *)
Theorem Execute_refines_semantics (limit fuel : nat) (P : Program) (s : Input) (r : option Thread) :
  program_ok P -> memory_for limit P -> (0 < limit)%nat ->
  match_from limit fuel P s = Done r -> Execute_answers P s r.
Proof. apply Execute_realises. Qed.
End execution.

(** * Programs without loops always get an answer *)
Section totality.
  Context {memory_ : Memory} {icu : ICU}.
  Context (e0 : Executor) (prog : list Instr) (pcEnd : Z).

(** The input is there, and positions stand between characters. *)
Definition width : Z := if isWideChar_ e0 then 2 else 1.
Definition position (p : Z) : Prop := 0 <= p <= inputEnd_ e0 /\ p mod width = 0.
Definition input_ok : Prop := inputEnd_ e0 <= Z.of_nat (length (input_ e0)) /\ inputEnd_ e0 mod width = 0.
  Context (Hinput : input_ok).

Lemma byte_there (p : Z) : 0 <= p < inputEnd_ e0 -> exists c, byte_at e0 p = Done c.
Proof.
  intros Hp. destruct Hinput as [Hl _]. unfold byte_at, read. rewrite (proj2 (Z.ltb_ge p 0)) by lia.
  destruct (lookup_lt_is_Some_2 (input_ e0) (Z.to_nat p) ltac:(lia)) as [c ->]. by exists c.
Qed.
Lemma wide_there (p : Z) : 0 <= p -> p + 1 < inputEnd_ e0 -> exists c, wide_at e0 p = Done c.
Proof.
  intros Hp Hp1. destruct (byte_there p) as [lo Hlo]; [lia|]. destruct (byte_there (p + 1)) as [hi Hhi]; [lia|].
  unfold wide_at. rewrite Hlo, Hhi. cbn. by eexists.
Qed.
(** Arithmetic with parities. *)
Ltac even_lia := Z.to_euclidean_division_equations; lia.

(** Reading forward from a position before another one. *)
Lemma GetChar_total (p end_ : Z) : position p -> position end_ -> p < end_ ->
  exists c q, GetChar e0 p end_ = Done (c, q) /\ position q /\ p < q <= end_.
Proof.
  unfold position, width, GetChar. destruct (isWideChar_ e0) eqn:Hw; cbn [negb]; intros [Hp Hpm] [He Hem] Hlt.
  - unfold WIDE_CHAR_SIZE. destruct (wide_there p) as [c Hc]; [lia|even_lia|]. rewrite Hc. cbn [mbind outcome_bind].
    destruct (U16_IS_LEAD c && IsUtf16 e0); cbn [andb]; [|eexists _, _; split; [done|]; split; [split|]; even_lia].
    destruct (Z.ltb_spec (p + 2) end_); [|eexists _, _; split; [done|]; split; [split|]; even_lia].
    destruct (wide_there (p + 2)) as [c1 Hc1]; [lia|even_lia|]. rewrite Hc1. cbn [mbind outcome_bind].
    destruct (U16_IS_TRAIL c1); eexists _, _; (split; [done|]; split; [split|]; even_lia).
  - destruct (byte_there p) as [c Hc]; [lia|]. rewrite Hc. cbn [mbind outcome_bind]. eexists _, _.
    split; [done|]. split; [split; [lia|apply Z.mod_1_r]|lia].
Qed.
Lemma AdvancePtr_GetChar (p end_ : Z) c q : GetChar e0 p end_ = Done (c, q) -> AdvancePtr e0 p end_ = Done q.
Proof.
  unfold GetChar, AdvancePtr. destruct (negb (isWideChar_ e0)).
  - destruct (byte_at e0 p); [|done|done]. by intros [= _ <-].
  - destruct (wide_at e0 p) as [c1| |]; [|done|done]. cbn [mbind outcome_bind].
    destruct (U16_IS_LEAD c1 && IsUtf16 e0 && _); [|by intros [= _ <-]].
    destruct (wide_at e0 _) as [c2| |]; [|done|done]. cbn [mbind outcome_bind]. destruct (U16_IS_TRAIL c2); by intros [= _ <-].
Qed.
Lemma PeekChar_GetChar (p end_ : Z) c q : GetChar e0 p end_ = Done (c, q) -> PeekChar e0 p end_ = Done c.
Proof.
  unfold GetChar, PeekChar. destruct (negb (isWideChar_ e0)).
  - destruct (byte_at e0 p); [|done|done]. by intros [= <- _].
  - destruct (wide_at e0 p) as [c1| |]; [|done|done]. cbn [mbind outcome_bind].
    destruct (U16_IS_LEAD c1 && IsUtf16 e0 && _); [|by intros [= <- _]].
    destruct (wide_at e0 _) as [c2| |]; [|done|done]. cbn [mbind outcome_bind]. destruct (U16_IS_TRAIL c2); by intros [= <- _].
Qed.

(** And backward. *)
Lemma GetPrevChar_total (p start : Z) : position p -> position start -> start < p ->
  exists c q, GetPrevChar e0 p start = Done (c, q) /\ position q /\ start <= q < p.
Proof.
  unfold position, width, GetPrevChar. destruct (isWideChar_ e0) eqn:Hw; cbn [negb]; intros [Hp Hpm] [He Hem] Hlt.
  - unfold WIDE_CHAR_SIZE. destruct (wide_there (p - 2)) as [c Hc]; [even_lia|even_lia|]. rewrite Hc. cbn [mbind outcome_bind].
    destruct (U16_IS_TRAIL c && IsUtf16 e0); cbn [andb]; [|eexists _, _; split; [done|]; split; [split|]; even_lia].
    destruct (Z.gtb_spec (p - 2) start); [|eexists _, _; split; [done|]; split; [split|]; even_lia].
    destruct (wide_there (p - 2 - 2)) as [c1 Hc1]; [even_lia|even_lia|]. rewrite Hc1. cbn [mbind outcome_bind].
    destruct (U16_IS_LEAD c1); eexists _, _; (split; [done|]; split; [split|]; even_lia).
  - destruct (byte_there (p - 1)) as [c Hc]; [lia|]. rewrite Hc. cbn [mbind outcome_bind]. eexists _, _.
    split; [done|]. split; [split; [lia|apply Z.mod_1_r]|lia].
Qed.
Lemma PrevPtr_GetPrevChar (p start : Z) c q : GetPrevChar e0 p start = Done (c, q) ->
  PrevPtr e0 p start = Done q /\ PeekPrevChar e0 p start = Done c.
Proof.
  unfold GetPrevChar, PrevPtr, PeekPrevChar. destruct (negb (isWideChar_ e0)).
  - destruct (byte_at e0 _); [|done|done]. by intros [= <- <-].
  - destruct (wide_at e0 (p - _)) as [c1| |]; [|done|done]. cbn [mbind outcome_bind].
    destruct (U16_IS_TRAIL c1 && IsUtf16 e0 && _); [|by intros [= <- <-]].
    destruct (wide_at e0 (_ - 2)) as [c2| |]; [|done|done]. cbn [mbind outcome_bind].
    destruct (U16_IS_LEAD c2); by intros [= <- <-].
Qed.
(** The position stands between the two halves of a surrogate pair. *)
Definition inside_pair (start p : Z) : Prop :=
  isWideChar_ e0 = true /\ IsUtf16 e0 = true /\ start < p /\
  exists lead trail, wide_at e0 (p - 2) = Done lead /\ wide_at e0 p = Done trail /\
    U16_IS_LEAD lead = true /\ U16_IS_TRAIL trail = true.

(** stepping back undoes stepping forward: from a position that is not inside a
    surrogate pair, the character before the position behind the next character
    is that character, and one gets back. *)
Theorem GetPrevChar_undoes_GetChar (p end_ start c q : Z) :
  (forall u, U16_IS_LEAD u = true -> U16_IS_TRAIL u = false) ->
  position p -> position start -> start <= p -> ~ inside_pair start p ->
  GetChar e0 p end_ = Done (c, q) -> GetPrevChar e0 q start = Done (c, p).
Proof.
  intros Hdis [Hp Hpm] [Hs Hsm] Hle Hin H. unfold GetChar, GetPrevChar, inside_pair, width, WIDE_CHAR_SIZE in *.
  destruct (isWideChar_ e0); cbn [negb] in *.
  - destruct (wide_at e0 p) as [u| |] eqn:Hu; [|done|done]. cbn [mbind outcome_bind] in H.
    assert (Hone : (if U16_IS_TRAIL u && IsUtf16 e0 && (p >? start) then
        c1 ← wide_at e0 (p - 2); if U16_IS_LEAD c1 then Done (u32 (U16_GET_SUPPLEMENTARY c1 u), p - 2) else Done (u, p)
      else Done (u, p)) = Done (u, p)).
    { destruct (U16_IS_TRAIL u) eqn:Ht, (IsUtf16 e0) eqn:H16; cbn [andb]; try done.
      destruct (Z.gtb_spec p start); [|done]. destruct (wide_there (p - 2)) as [l Hl]; [even_lia|lia|].
      rewrite Hl. cbn [mbind outcome_bind]. destruct (U16_IS_LEAD l) eqn:Hlead; [|done].
      destruct Hin. split; [done|]. split; [done|]. split; [lia|]. by exists l, u. }
    destruct (U16_IS_LEAD u && IsUtf16 e0 && (p + 2 <? end_)) eqn:Hb.
    + apply andb_true_iff in Hb as [Hb _]. apply andb_true_iff in Hb as [Hlead H16].
      destruct (wide_at e0 (p + 2)) as [t| |] eqn:Ht; [|done|done]. cbn [mbind outcome_bind] in H.
      destruct (U16_IS_TRAIL t) eqn:Htr; injection H as <- <-.
      * replace (p + 2 + 2 - 2) with (p + 2) by lia. rewrite Ht. cbn [mbind outcome_bind]. rewrite Htr, H16. cbn [andb].
        rewrite Z.gtb_ltb, (proj2 (Z.ltb_lt _ _)) by lia. replace (p + 2 - 2) with p by lia. rewrite Hu.
        cbn [mbind outcome_bind]. by rewrite Hlead.
      * replace (p + 2 - 2) with p by lia. rewrite Hu. exact Hone.
    + injection H as <- <-. replace (p + 2 - 2) with p by lia. rewrite Hu. exact Hone.
  - destruct (byte_at e0 p) as [u| |] eqn:Hu; [|done|done]. injection H as <- <-.
    replace (p + 1 - 1) with p by lia. by rewrite Hu.
Qed.

Lemma position_0 : 0 <= inputEnd_ e0 -> position 0.
Proof. intros H. split; [lia|]. by rewrite Zmod_0_l. Qed.
Lemma position_end : 0 <= inputEnd_ e0 -> position (inputEnd_ e0).
Proof. intros H. destruct Hinput as [_ Hm]. split; [lia|done]. Qed.
(** An attempt whose position and captures are inside the input. *)
Definition capture_ok (c : CaptureState) : Prop :=
  match fst c with Some p => position p | None => True end /\ match snd c with Some p => position p | None => True end.
Definition thread_ok (th : Thread) : Prop :=
  position (t_ptr th) /\ length (t_caps th) = nCapture_ e0 /\ Forall capture_ok (t_caps th).

(** The offsets an instruction may jump by, besides falling through. *)
Definition offsets (i : Instr) : list Z :=
  match i with
  | Goto n | SplitFirst n | SplitNext n | MatchAhead n | NegativeMatchAhead n | CheckChar n => [n]
  | Loop n _ _ | LoopGreedy n _ _ => [n]
  | _ => []
  end.
(** Captures inside the list of the program, and no counters. *)
Definition simple (i : Instr) : bool :=
  match i with
  | SaveStart n | SaveEnd n => n <? Z.of_nat (nCapture_ e0)
  | SaveReset _ b => b <? Z.of_nat (nCapture_ e0)
  | Loop _ _ _ | LoopGreedy _ _ _ | PushChar | CheckChar _ | Push | Pop => false
  | _ => true
  end.
Definition targets (i : Instr) (pc : Z) : list Z := map (fun n => u32 (pc + size i + n)) (0 :: offsets i).
(** The attempts an effect leads to. *)
Definition leads (i : Instr) (th : Thread) (eff : effect) : Prop :=
  let ok th' := thread_ok th' /\ t_pc th' ∈ targets i (t_pc th) in
  match eff with
  | Fails | Accepts | AheadEnds => True
  | Goes th' => ok th'
  | Forks _ a b => ok a /\ ok b
  end.

Lemma leads_next (i : Instr) (th th' : Thread) : thread_ok th' -> t_pc th' = t_pc th ->
  thread_ok (next i th') /\ t_pc (next i th') ∈ targets i (t_pc th).
Proof.
  intros Hok Hpc. split; [done|]. unfold targets, next. cbn. rewrite Hpc, Z.add_0_r. constructor.
Qed.
Lemma leads_jump (i : Instr) (n : Z) (th : Thread) : thread_ok th -> n ∈ offsets i ->
  thread_ok (jump i n th) /\ t_pc (jump i n th) ∈ targets i (t_pc th).
Proof.
  intros Hok Hn. split; [done|]. unfold targets, jump. cbn -[offsets].
  apply list_elem_of_further, list_elem_of_fmap. by exists n.
Qed.
Lemma thread_moved (p : Z) (th : Thread) : thread_ok th -> position p -> thread_ok (set_ptr p th).
Proof. intros (_ & H1 & H2) Hp. done. Qed.

Lemma consume_total (i : Instr) (th : Thread) test : thread_ok th ->
  exists eff, consume e0 i th test = Done eff /\ leads i th eff.
Proof.
  intros Hok. pose proof Hok as (Hp & _). unfold consume, at_end. rewrite Z.geb_leb.
  destruct (Z.leb_spec (inputEnd_ e0) (t_ptr th)); [by eexists|].
  destruct (GetChar_total (t_ptr th) (inputEnd_ e0)) as (c & q & -> & Hq & _);
    [done|apply position_end; destruct Hp; lia|lia|]. cbn [mbind outcome_bind fst snd].
  destruct (test c); eexists; (split; [done|]); [|done]. apply leads_next; [by apply thread_moved|done].
Qed.
Lemma assert_leads (i : Instr) (th : Thread) b : thread_ok th -> leads i th (assert i th b).
Proof. intros Hok. destruct b; [by apply leads_next|done]. Qed.

Lemma before_total (th : Thread) test : position (t_ptr th) -> exists b, before e0 th test = Done b.
Proof.
  intros Hp. unfold before. destruct (Z.eqb_spec (t_ptr th) 0); [by eexists|].
  destruct (GetPrevChar_total (t_ptr th) 0) as (c & q & E & _); [done|apply position_0; destruct Hp; lia|destruct Hp; lia|].
  destruct (PrevPtr_GetPrevChar _ _ _ _ E) as [_ ->]. by eexists.
Qed.
Lemma after_total (th : Thread) test : position (t_ptr th) -> at_end e0 th = false -> exists b, after e0 th test = Done b.
Proof.
  intros Hp Hend. unfold at_end in Hend. rewrite Z.geb_leb in Hend. apply Z.leb_gt in Hend. unfold after.
  destruct (GetChar_total (t_ptr th) (inputEnd_ e0)) as (c & q & E & _); [done|apply position_end; destruct Hp; lia|lia|].
  rewrite (PeekChar_GetChar _ _ _ _ E). by eexists.
Qed.

Lemma boundary_total (th : Thread) : position (t_ptr th) -> exists b, boundary e0 th = Done b.
Proof.
  intros Hp. unfold boundary. destruct (at_end e0 th) eqn:He; [by eexists|].
  destruct (before_total th IsWordChar Hp) as [b ->]. destruct (after_total th IsWordChar Hp He) as [c ->]. by eexists.
Qed.
Lemma line_start_total (th : Thread) : position (t_ptr th) -> exists b, line_start e0 th = Done b.
Proof.
  intros Hp. unfold line_start. destruct (at_end e0 th), (t_ptr th =? 0), (has_flag e0 FLAG_MULTILINE);
    try (by eexists). by apply before_total.
Qed.
Lemma line_end_total (th : Thread) : position (t_ptr th) -> exists b, line_end e0 th = Done b.
Proof.
  intros Hp. unfold line_end. destruct (at_end e0 th) eqn:He; [by eexists|].
  destruct (has_flag e0 FLAG_MULTILINE); [by apply after_total|by eexists].
Qed.

(** Captures. *)
Lemma save_total (th : Thread) (n : Z) f : thread_ok th -> 0 <= n < Z.of_nat (nCapture_ e0) ->
  (forall c, capture_ok c -> capture_ok (f c)) ->
  exists th', save th n f = Done th' /\ thread_ok th' /\ t_pc th' = t_pc th.
Proof.
  intros (Hp & Hl & Hc) Hn Hf. unfold save, read, write.
  destruct (lookup_lt_is_Some_2 (t_caps th) (Z.to_nat n) ltac:(lia)) as [c Hlk]. rewrite Hlk. cbn [mbind outcome_bind].
  rewrite (proj2 (Nat.ltb_lt _ _)) by lia. cbn [mbind outcome_bind]. eexists. split; [done|]. split; [|done].
  split; [done|]. cbn. split; [by rewrite length_insert|]. apply Forall_insert; [done|]. apply Hf.
  by eapply (Forall_lookup_1 _ _ _ _ Hc).
Qed.
Lemma reset_total (k first : nat) (l : list CaptureState) : (first + k <= length l)%nat \/ k = 0%nat -> Forall capture_ok l ->
  exists l', reset_captures l first k = Done l' /\ length l' = length l /\ Forall capture_ok l'.
Proof.
  revert first l. induction k as [|k IH]; intros first l Hk Hl; [by exists l|]. cbn [reset_captures].
  unfold write. rewrite (proj2 (Nat.ltb_lt _ _)) by lia. cbn [mbind outcome_bind].
  destruct (IH (S first) (<[first := (None, None)]> l)) as (l' & E & Hlen & Hok).
  - rewrite length_insert. lia.
  - by apply Forall_insert.
  - exists l'. by rewrite E, Hlen, length_insert.
Qed.

(** Back references. *)
Lemma repeated_total (fuel : nat) (ref end_ p : Z) : position ref -> position end_ -> position p ->
  end_ - ref < Z.of_nat fuel -> ref <= end_ \/ (0 < fuel)%nat ->
  exists r, repeated e0 fuel ref end_ p = Done r /\ match r with Some q => position q | None => True end.
Proof.
  revert ref p. induction fuel as [|fuel IH]; intros ref p Hr He Hp Hf Hor; [lia|]. cbn [repeated].
  destruct (Z.ltb_spec ref end_); [|by eexists]. rewrite Z.geb_leb. destruct (Z.leb_spec (inputEnd_ e0) p); [by eexists|].
  destruct (GetChar_total ref end_) as (c1 & ref' & -> & Hr' & Hlt); [done|done|lia|]. cbn [mbind outcome_bind].
  destruct (GetChar_total p (inputEnd_ e0)) as (c2 & p' & -> & Hp' & _); [done|apply position_end; destruct Hp; lia|lia|].
  cbn [mbind outcome_bind fst snd]. destruct (canonical e0 c1 =? canonical e0 c2); [|by eexists]. apply IH; auto; lia.
Qed.
Lemma repeated_backward_total (fuel : nat) (ref start p : Z) : position ref -> position start -> position p ->
  ref - start < Z.of_nat fuel -> start <= ref \/ (0 < fuel)%nat ->
  exists r, repeated_backward e0 fuel ref start p = Done r /\ match r with Some q => position q | None => True end.
Proof.
  revert ref p. induction fuel as [|fuel IH]; intros ref p Hr He Hp Hf Hor; [lia|]. cbn [repeated_backward].
  destruct (Z.gtb_spec ref start); [|by eexists]. destruct (Z.eqb_spec p 0); [by eexists|].
  destruct (GetPrevChar_total ref start) as (c1 & ref' & -> & Hr' & Hlt); [done|done|lia|]. cbn [mbind outcome_bind].
  destruct (GetPrevChar_total p 0) as (c2 & p' & -> & Hp' & _); [done|apply position_0; destruct Hp; lia|destruct Hp; lia|].
  cbn [mbind outcome_bind fst snd]. destruct (canonical e0 c1 =? canonical e0 c2); [|by eexists]. apply IH; auto; lia.
Qed.
Lemma back_reference_total (i : Instr) (n : Z) (th : Thread) text : thread_ok th -> 0 <= n ->
  (forall a b, position a -> position b -> exists r, text a b = Done r /\ match r with Some q => position q | None => True end) ->
  exists eff, back_reference e0 i n th text = Done eff /\ leads i th eff.
Proof.
  intros Hok Hn Ht. unfold back_reference. rewrite Z.geb_leb.
  destruct (Z.leb_spec (Z.of_nat (nCapture_ e0)) n); [by eexists|]. pose proof Hok as (_ & Hl & Hc). unfold read.
  destruct (lookup_lt_is_Some_2 (t_caps th) (Z.to_nat n) ltac:(lia)) as [c Hlk]. rewrite Hlk. cbn [mbind outcome_bind].
  assert (Hfall : exists eff, (Done (Goes (next i th)) : outcome effect) = Done eff /\ leads i th eff)
    by (eexists; split; [done|by apply leads_next]).
  destruct c as [[a|] [b|]]; [|done|done|done].
  destruct (Forall_lookup_1 _ _ _ _ Hc Hlk) as [Ha Hb]. destruct (Ht a b Ha Hb) as (r & -> & Hr). cbn [mbind outcome_bind].
  eexists. split; [done|]. destruct r; [|done]. apply leads_next; [by apply thread_moved|done].
Qed.

Lemma eval_total (i : Instr) (th : Thread) : thread_ok th -> simple i = true -> instr_ok i ->
  exists eff, eval e0 i th = Done eff /\ leads i th eff.
Proof.
  intros Hok Hs Hi. pose proof Hok as (Hp & Hl & Hc). unfold instr_ok in Hi.
  assert (Hfork : forall ty n, n ∈ offsets i -> leads i th (Forks ty (next i th) (jump i n th)))
    by (intros ty n Hn; split; [by apply leads_next|by apply leads_jump]).
  assert (Hlen : inputEnd_ e0 <= Z.of_nat (length (input_ e0))) by apply Hinput.
  destruct i; try done; cbn [eval simple operands] in *;
    try (by apply consume_total); try (by eexists); try (eexists; split; [done|]; by apply Hfork; constructor).
  - inversion Hi as [|?? [Hn _] _]; subst. cbn [fst snd] in Hn.
    destruct (save_total th n (fun c => (Some (t_ptr th), snd c))) as (th' & -> & Hok' & Hpc);
      [done|lia|by intros c [_ ?]|]. cbn [mbind outcome_bind]. eexists. split; [done|]. by apply leads_next.
  - inversion Hi as [|?? [Hn _] _]; subst. cbn [fst snd] in Hn.
    destruct (save_total th n (fun c => (fst c, Some (t_ptr th)))) as (th' & -> & Hok' & Hpc);
      [done|lia|by intros c [? _]|]. cbn [mbind outcome_bind]. eexists. split; [done|]. by apply leads_next.
  - eexists. split; [done|]. split; [apply leads_jump; [done|constructor]|by apply leads_next].
  - edestruct reset_total as (l' & -> & Hl' & Hc'); [|exact Hc|].
    { inversion Hi as [|?? [Hn _] ?]; subst. cbn [fst snd] in Hn. lia. }
    cbn [mbind outcome_bind]. eexists. split; [done|]. apply leads_next; [|done]. split; [done|]. split; [cbn; lia|done].
  - destruct (line_start_total th Hp) as [b ->]. eexists. split; [done|]. by apply assert_leads.
  - destruct (line_end_total th Hp) as [b ->]. eexists. split; [done|]. by apply assert_leads.
  - destruct (boundary_total th Hp) as [b ->]. eexists. split; [done|]. by apply assert_leads.
  - destruct (boundary_total th Hp) as [b ->]. eexists. split; [done|]. by apply assert_leads.
  - destruct (Z.eqb_spec (t_ptr th) 0); [by eexists|].
    destruct (GetPrevChar_total (t_ptr th) 0) as (c & q & E & Hq & _); [done|apply position_0; destruct Hp; lia|destruct Hp; lia|].
    destruct (PrevPtr_GetPrevChar _ _ _ _ E) as [-> _]. eexists. split; [done|]. apply leads_next; [by apply thread_moved|done].
  - inversion Hi as [|?? [Hn _] _]; subst. apply back_reference_total; [done|done|].
    intros a b Ha Hb. apply repeated_total; try done; destruct Ha, Hb; lia.
  - inversion Hi as [|?? [Hn _] _]; subst. apply back_reference_total; [done|done|].
    intros a b Ha Hb. apply repeated_backward_total; try done; destruct Ha, Hb; lia.
Qed.
(** Jumps go forward, to an instruction or behind the code. *)
Definition lands (pc : Z) : bool :=
  (pcEnd <=? pc) || ((0 <=? pc) && match fetch prog OP_START_OFFSET (Z.to_nat pc) with Some _ => true | None => false end).
Fixpoint jumps_forward (l : list Instr) (offset : nat) : bool :=
  match l with
  | [] => true
  | i :: rest => forallb (fun t => (Z.of_nat offset <? t) && lands t) (targets i (Z.of_nat offset)) &&
                 jumps_forward rest (offset + length (encode i))
  end.
Lemma jumps_forward_fetch (l : list Instr) (offset pc : nat) (i : Instr) (t : Z) :
  jumps_forward l offset = true -> fetch l offset pc = Some i -> t ∈ targets i (Z.of_nat pc) ->
  Z.of_nat pc < t /\ lands t = true.
Proof.
  revert offset. induction l as [|j l IH]; intros offset Hj Hf Ht; [done|]. cbn [jumps_forward fetch] in *.
  apply andb_true_iff in Hj as [Hj1 Hj2]. destruct (Nat.eqb_spec pc offset) as [->|Hne]; [|by eapply IH].
  injection Hf as ->. rewrite forallb_forall in Hj1. specialize (Hj1 t). rewrite <- list_elem_of_In in Hj1.
  apply Hj1 in Ht. apply andb_true_iff in Ht as [H1 H2]. split; [by apply Z.ltb_lt|done].
Qed.

  Context (Hjumps : jumps_forward prog OP_START_OFFSET = true).
  Context (Hsimple : Forall (fun i => simple i = true) prog) (Hinstrs : Forall instr_ok prog).

Lemma fetch_elem (l : list Instr) (offset pc : nat) (i : Instr) : fetch l offset pc = Some i -> i ∈ l.
Proof.
  revert offset. induction l as [|j l IH]; intros offset H; [done|]. cbn [fetch] in H.
  destruct (pc =? offset)%nat; [injection H as ->; constructor|constructor; by eapply IH].
Qed.

Definition result_ok (r : result) : Prop := match r with Matched th | Ahead th => thread_ok th | Failed => True end.

Lemma attempt_total (limit fuel d : nat) (th : Thread) : thread_ok th -> lands (t_pc th) = true ->
  (0 < fuel)%nat -> pcEnd - t_pc th < Z.of_nat fuel -> Z.of_nat d + Z.max 0 (pcEnd - t_pc th) <= Z.of_nat limit ->
  exists r, attempt e0 prog pcEnd limit fuel d th = Done r /\ result_ok r.
Proof.
  revert d th. induction fuel as [|fuel IH]; intros d th Hok Hla Hf0 Hf Hl; [lia|]. cbn [attempt].
  destruct (Z.ltb_spec (t_pc th) pcEnd) as [Hpc|]; [|by eexists].
  unfold lands in Hla. rewrite (proj2 (Z.leb_gt pcEnd _)) in Hla by lia. cbn [orb] in Hla.
  apply andb_true_iff in Hla as [Hpos Hfet]. apply Z.leb_le in Hpos.
  destruct (fetch prog OP_START_OFFSET (Z.to_nat (t_pc th))) as [i|] eqn:Hi; [|done].
  pose proof (fetch_elem _ _ _ _ Hi) as Hin. rewrite Forall_forall in Hsimple, Hinstrs.
  destruct (eval_total i th Hok (Hsimple i Hin) (Hinstrs i Hin)) as (eff & -> & Hle). cbn [mbind outcome_bind].
  assert (Hgo : forall d' th', thread_ok th' /\ t_pc th' ∈ targets i (t_pc th) -> (d' <= S d)%nat ->
    exists r, attempt e0 prog pcEnd limit fuel d' th' = Done r /\ result_ok r).
  { intros d' th' [Hok' Ht] Hd. rewrite <- (Z2Nat.id (t_pc th)) in Ht by lia.
    destruct (jumps_forward_fetch _ _ _ _ _ Hjumps Hi Ht) as [Hlt Hla]. apply IH; [done|done|lia|lia|lia]. }
  destruct eff as [|th'|ty a b| |]; [by eexists|by apply Hgo; [|lia]| |by eexists|by eexists].
  destruct Hle as [Ha Hb]. rewrite (proj2 (Nat.leb_gt _ _)) by lia.
  destruct (Hgo (S d) a Ha ltac:(lia)) as (r & -> & Hr). cbn [mbind outcome_bind].
  assert (Hbt : exists r, attempt e0 prog pcEnd limit fuel d b = Done r /\ result_ok r) by (apply Hgo; [done|lia]).
  destruct r as [th1|th1|]; destruct ty; try (by eexists); try done.
  apply Hgo; [|lia]. destruct Hb as [(Hbp & _) Ht]. split; [|done]. destruct Hr as (_ & H1 & H2). done.
Qed.

Lemma start_ok (p : Z) : position p -> thread_ok (start_at e0 p).
Proof.
  intros Hp. split; [done|]. cbn. rewrite length_replicate. split; [done|].
  apply Forall_replicate. done.
Qed.

Lemma find_total (limit fuel n : nat) (p : Z) : lands (Z.of_nat OP_START_OFFSET) = true ->
  (0 < fuel)%nat -> pcEnd - Z.of_nat OP_START_OFFSET < Z.of_nat fuel ->
  1 + Z.max 0 (pcEnd - Z.of_nat OP_START_OFFSET) <= Z.of_nat limit ->
  position p -> inputEnd_ e0 - p < Z.of_nat n ->
  exists r, find e0 prog pcEnd limit fuel n p = Done r.
Proof.
  intros Hla Hf0 Hf Hl. revert p. induction n as [|n IH]; intros p Hp Hn; [destruct Hp; lia|]. cbn [find].
  destruct (attempt_total limit fuel 1 (start_at e0 p)) as (r & -> & _); [by apply start_ok|done|done|done|done|].
  cbn [mbind outcome_bind]. destruct r as [th|th|]; [by eexists|by eexists|]. rewrite Z.geb_leb.
  destruct (Z.leb_spec (inputEnd_ e0) p); [by eexists|].
  destruct (GetChar_total p (inputEnd_ e0)) as (c & q & E & Hq & Hlt); [done|apply position_end; destruct Hp; lia|lia|].
  rewrite (AdvancePtr_GetChar _ _ _ _ E). cbn [mbind outcome_bind]. apply IH; [done|lia].
Qed.
End totality.
(** * A program without loops gets its answer *)
Section answers.
  Context {memory_ : Memory} {icu : ICU}.
(** Programs that jump forward only, on captures inside their list. *)
Definition forward_ok (P : Program) (s : Input) : Prop :=
  lands (p_code P) (code_end P) (Z.of_nat OP_START_OFFSET) = true /\
  jumps_forward (p_code P) (code_end P) (p_code P) OP_START_OFFSET = true /\
  Forall (fun i => simple (environment P s) i = true) (p_code P).
(** The characters to look at are there. *)
Definition text_ok (s : Input) : Prop :=
  0 <= in_first s <= in_length s /\ in_length s * char_width s <= Z.of_nat (length (in_bytes s)).

Lemma text_position (P : Program) (s : Input) : text_ok s ->
  input_ok (environment P s) /\ position (environment P s) (start_ptr s).
Proof.
  intros [Hf Hl]. unfold input_ok, position, width. cbn [inputEnd_ environment input_ isWideChar_].
  unfold start_ptr, char_width, WIDE_CHAR_SIZE, CHAR_SIZE in *. destruct (in_wide s); rewrite ?Z.mod_1_r, ?Z_mod_mult; lia.
Qed.

(** C40: on a program as above whose jumps all go forward, to instructions, which only
    saves captures it has and has no instruction with a counter or the stack of counters (Loop,
    LoopGreedy, Push, Pop, PushChar, CheckChar), on an input whose characters are there and given the
    memory for the attempts, [Execute] always returns: it neither stops nor
    reads outside the input, the code or its stacks, and its answer is the one
    of the semantics.  As many waiting attempts as there are bytes of code are
    enough. *)
Theorem Execute_total (P : Program) (s : Input) :
  let n := S (Z.to_nat (code_end P)) in
  program_ok P -> forward_ok P s -> text_ok s -> memory_for n P ->
  exists r, match_from n n P s = Done r /\ Execute_answers P s r.
Proof.
  intros n Hok (Hla & Hj & Hs) Ht Hm. destruct (text_position P s Ht) as [Hin Hpos]. pose proof Hok as [_ _ _ Hi _].
  assert (Hend : 0 <= code_end P) by (unfold code_end; lia).
  assert (He : exists r, match_from n n P s = Done r).
  { unfold match_from, exec. destruct (has_flag _ _).
    - destruct (attempt_total (environment P s) (p_code P) (code_end P) Hin Hj Hs Hi n n 0 (start_at (environment P s) (start_ptr s)))
        as (r & -> & _); [by apply start_ok|done|lia|cbn; lia|cbn; lia|]. by eexists.
    - apply (find_total (environment P s) (p_code P) (code_end P) Hin Hj Hs Hi); [done|lia|cbn; lia|cbn; lia|done|lia]. }
  destruct He as [r Hr]. exists r. split; [done|]. apply (Execute_realises n n); [done|done|lia|done].
Qed.
End answers.

(** * Concrete programs *)
#[local] Existing Instance ex_memory.
(** The macros as ICU documents them; only ASCII has another case. *)
#[local] Instance ex_icu : ICU := {|
  U16_IS_LEAD := fun c => Z.land c 0xfffffc00 =? 0xd800;
  U16_IS_TRAIL := fun c => Z.land c 0xfffffc00 =? 0xdc00;
  U16_GET_SUPPLEMENTARY := fun lead trail => (lead - 0xd800) * 1024 + (trail - 0xdc00) + 0x10000;
  u_toupper := fun c => c |}.

(** /(a|b)c(?!d)/ *)
Definition ex_alt : Program := mkProgram 2 0 0
  [SaveStart 0; SaveStart 1; SplitNext 8; Char 97; Goto 3; Char 98; SaveEnd 1; Char 99;
   NegativeMatchAhead 4; Char 100; Match; SaveEnd 0; MatchEnd].
(** /a*b/ *)
Definition ex_star : Program := mkProgram 1 0 0
  [SaveStart 0; SplitNext 8; Char 97; Goto 4294967283; Char 98; SaveEnd 0; MatchEnd].
Definition ex_text (l : list Z) : Input := mkInput l 4096 0 (Z.of_nat (length l)) false.

Lemma ex_program_ok (P : Program) :
  P = ex_alt \/ P = ex_star -> program_ok P.
Proof.
  intros [->| ->]; split; try (vm_compute; (lia || congruence)); try (repeat constructor; vm_compute; congruence);
    vm_compute; split; congruence.
Qed.
Lemma ex_memory_for (limit : nat) (P : Program) :
  Z.max (2 * Z.of_nat limit) MIN_STACK_SIZE * state_size P < 2 ^ 32 -> memory_for limit P.
Proof. intros H. split; [done|]. intros n Hn. apply ex_mem_ok. lia. Qed.

Lemma Execute_refines_semantics_witness :
  exists th, match_from 8 40 ex_star (ex_text [120; 97; 97; 98]) = Done (Some th) /\
    t_caps th = [(Some 1, Some 4)] /\ Execute_answers ex_star (ex_text [120; 97; 97; 98]) (Some th).
Proof.
  eexists. split; [vm_compute; reflexivity|]. split; [reflexivity|].
  apply (Execute_refines_semantics 8 40 ex_star (ex_text [120; 97; 97; 98]));
    [apply ex_program_ok; auto|apply ex_memory_for; vm_compute; reflexivity|lia|vm_compute; reflexivity].
Defined.

Lemma Execute_total_witness :
  exists r, match_from (S (Z.to_nat (code_end ex_alt))) (S (Z.to_nat (code_end ex_alt))) ex_alt (ex_text [98; 99; 100; 97; 99]) = Done r /\
    Execute_answers ex_alt (ex_text [98; 99; 100; 97; 99]) r.
Proof.
  apply (Execute_total ex_alt (ex_text [98; 99; 100; 97; 99])).
  - apply ex_program_ok; auto.
  - split; [vm_compute; reflexivity|]. split; [vm_compute; reflexivity|]. repeat constructor.
  - split; vm_compute; [split|]; congruence.
  - apply ex_memory_for. vm_compute. reflexivity.
Defined.

(** A set of letters, at the letter 'x'. *)
Definition ex_class : list Instr := [SaveStart 0; Range [(65, 90); (97, 122)]; SaveEnd 0; MatchEnd].
Definition ex_class_program : Program := mkProgram 1 0 0 ex_class.
Definition ex_class_machine : Executor := SetCurrentPC 18 (environment ex_class_program (ex_text [120])).
Lemma range_opcode_decides_witness :
  handle_range 2 (of_buffer (buffer ex_class_program)) ex_class_machine =
  Done (AdvanceOffset 11 (SetCurrentPtr 1 ex_class_machine), true).
Proof.
  apply (range_opcode_decides (of_buffer (buffer ex_class_program)) 2 [(65, 90); (97, 122)] ex_class_machine
    (SetCurrentPtr 1 ex_class_machine) 120).
  - by left.
  - vm_compute. congruence.
  - exists (header ex_class_program ++ encode (SaveStart 0)), ([SaveEnd 0; MatchEnd] ≫= encode). split; vm_compute; reflexivity.
  - repeat constructor; vm_compute; congruence.
  - cbn. lia.
  - discriminate.
  - reflexivity.
  - reflexivity.
Defined.

(** A surrogate pair between two letters, with the unicode flag. *)
Definition ex_wide : Executor :=
  environment (mkProgram 1 0 16 []) (mkInput [97; 0; 0x3d; 0xd8; 0x00; 0xde; 98; 0] 4096 0 4 true).
Lemma GetPrevChar_undoes_GetChar_witness :
  GetChar ex_wide 2 8 = Done (0x1f600, 6) /\ GetPrevChar ex_wide 6 0 = Done (0x1f600, 2).
Proof.
  split; [vm_compute; reflexivity|].
  apply (GetPrevChar_undoes_GetChar ex_wide) with (end_ := 8).
  - split; vm_compute; [congruence|reflexivity].
  - intros u Hl. cbn [U16_IS_LEAD U16_IS_TRAIL ex_icu] in *. apply Z.eqb_eq in Hl. by rewrite Hl.
  - split; [vm_compute; split; congruence|reflexivity].
  - split; [vm_compute; split; congruence|reflexivity].
  - lia.
  - intros (_ & _ & _ & lead & trail & Hl & _ & Hlead & _). vm_compute in Hl. injection Hl as <-. done.
  - vm_compute. reflexivity.
Defined.

(** The answer, computed by the machine: the second attempt, with its captures. *)
Lemma ex_alt_runs :
  exists e, Execute 200 4096 [98; 99; 100; 97; 99] 0 5 (buffer ex_alt) false new_executor = Done (e, true) /\
    captureResultList_ e = [(Some 3, Some 5); (Some 3, Some 4)].
Proof. eexists. split; vm_compute; reflexivity. Qed.

(** A class given as /[a-za-c]/ keeps two ranges with one start, and the search
    of the matcher then misses a character of the first. *)
Lemma overlapping_class_missed :
  let P := mkProgram 1 0 0 [SaveStart 0; Range (RangeSet.Insert 97 99 (RangeSet.Insert 97 122 [])); SaveEnd 0; MatchEnd] in
  RangeSet.IsContain (RangeSet.Insert 97 99 (RangeSet.Insert 97 122 [])) 120 = true /\
  exists e, Execute 50 4096 [120] 0 1 (buffer P) false new_executor = Done (e, false).
Proof. split; [reflexivity|]. eexists. vm_compute. reflexivity. Qed.

(** /^/ does not match an empty input. *)
Lemma line_start_fails_at_end :
  let P := mkProgram 1 0 0 [SaveStart 0; LineStart; SaveEnd 0; MatchEnd] in
  exists e, Execute 50 4096 [] 0 0 (buffer P) false new_executor = Done (e, false).
Proof. eexists. vm_compute. reflexivity. Qed.

(** /\b/ matches an empty input. *)
Lemma boundary_holds_at_end :
  let P := mkProgram 1 0 0 [SaveStart 0; WordBoundary; SaveEnd 0; MatchEnd] in
  exists e, Execute 50 4096 [] 0 0 (buffer P) false new_executor = Done (e, true).
Proof. eexists. vm_compute. reflexivity. Qed.
End RegExpMatch.
