(* ===== verification/RegExpParser.v ===== *)
(** The compiler of regular expressions:
    runtime/regexp/ecmascript/regexp_parser.h and regexp_parser.cpp.

    The parser reads the pattern one byte ahead ([c0_]) and emits opcodes as it
    goes; quantifiers, alternatives and lookaheads insert opcodes into the code
    emitted before.  Pointers into the pattern are offsets from [base_]; the
    bytes that can be read there are [source], of which the pattern is a prefix
    (a C string has a zero behind it).  The functions of ICU are parameters.
    [PrintF] is compiled out. *)
From S2P Require Import Prelude.
From S2P Require Import DynChunk.
From S2P Require Import RegExpOpCode.
From S2P Require Import RangeSet.
From S2P Require Import RegExpExecutor.
From S2P Require Import Utf.
From stdpp Require Import list.
From Stdlib Require Import String.
Local Open Scope Z_scope.
Local Open Scope ark_scope.
#[local] Abbreviation length := List.length.

(** ICU on identifiers, UTF-8 and case: [U8_NEXT] gets the bytes at the pointer,
    the index and the length and gives the new index and the character (negative
    on malformed bytes); [closeOver] the characters of the case closure of one. *)
Class ICUText := {
  u_isIDStart : Z -> bool;
  u_isIDPart : Z -> bool;
  U8_NEXT : list Z -> Z -> Z -> Z * Z;
  closeOver : Z -> list Z }.

Module RegExpParser.
Import Chunk RegExpOpCode.

Definition FLAG_DOTALL : Z := 8.
Definition KEY_EOF : Z := UINT32_MAX.
Definition CLASS_RANGE_BASE : Z := 0x40000000.
Definition OCTAL_VALUE : Z := 8.
Definition OCTAL_VALUE_RANGE : Z := 32.
Definition HEX_VALUE : Z := 16.
Definition DECIMAL_DIGITS_ADVANCE : Z := 10.
Definition UNICODE_HEX_VALUE : nat := 4.
Definition UNICODE_HEX_ADVANCE : nat := 2.
Definition CAPTURE_CONUT_ADVANCE : Z := 3.
Definition UTF8_CHAR_LEN_MAX : Z := 6.
Definition CACHE_SIZE : Z := 128.
Definition CHAR_MAXS : Z := 128.
Definition ID_START_TABLE_ASCII : list Z := [0x00000000; 0x00000010; 0x87FFFFFE; 0x07FFFFFE].

Definition g_gRangeD : RangeSet.t := RangeSet.of_range 0x30 0x39.
Definition g_gRangeS : RangeSet.t :=
  [(0x0009, 0x000D); (0x0020, 0x0020); (0x00A0, 0x00A0); (0x1680, 0x1680); (0x2000, 0x200A); (0x2028, 0x2029);
   (0x202F, 0x202F); (0x205F, 0x205F); (0x3000, 0x3000); (0xFEFF, 0xFEFF)].
Definition g_gRangeW : RangeSet.t := [(0x0030, 0x0039); (0x0041, 0x005A); (0x005F, 0x005F); (0x0061, 0x007A)].

Record Parser := mkParser {
  source : list Z;
  pc_ : Z;
  end_ : Z;
  flags_ : Z;
  c0_ : Z;
  captureCount_ : Z;
  stackCount_ : Z;
  isError_ : bool;
  errorMsg_ : string;
  hasNamedCaptures_ : Z;
  totalCaptureCount_ : Z;
  buffer_ : DynChunk;
  groupNames_ : DynChunk;
  newGroupNames_ : list (list Z) }.

(** [Init] of a new parser on the bytes at [source], [length] of them the
    pattern. *)
Definition Init (source : list Z) (length flags : Z) : Parser :=
  mkParser source 0 (length - 1) flags KEY_EOF 0 0 false EmptyString (-1) (-1) new_chunk new_chunk [].

(** ** Setters *)
Definition set_input (pc c0 : Z) (s : Parser) : Parser :=
  mkParser (source s) pc (end_ s) (flags_ s) c0 (captureCount_ s) (stackCount_ s) (isError_ s) (errorMsg_ s)
    (hasNamedCaptures_ s) (totalCaptureCount_ s) (buffer_ s) (groupNames_ s) (newGroupNames_ s).
Definition set_counts (captures stack : Z) (s : Parser) : Parser :=
  mkParser (source s) (pc_ s) (end_ s) (flags_ s) (c0_ s) captures stack (isError_ s) (errorMsg_ s)
    (hasNamedCaptures_ s) (totalCaptureCount_ s) (buffer_ s) (groupNames_ s) (newGroupNames_ s).
Definition set_error (msg : string) (s : Parser) : Parser :=
  mkParser (source s) (pc_ s) (end_ s) (flags_ s) (c0_ s) (captureCount_ s) (stackCount_ s) true msg
    (hasNamedCaptures_ s) (totalCaptureCount_ s) (buffer_ s) (groupNames_ s) (newGroupNames_ s).
Definition set_counted (named total : Z) (s : Parser) : Parser :=
  mkParser (source s) (pc_ s) (end_ s) (flags_ s) (c0_ s) (captureCount_ s) (stackCount_ s) (isError_ s) (errorMsg_ s)
    named total (buffer_ s) (groupNames_ s) (newGroupNames_ s).
Definition set_buffer (c : DynChunk) (s : Parser) : Parser :=
  mkParser (source s) (pc_ s) (end_ s) (flags_ s) (c0_ s) (captureCount_ s) (stackCount_ s) (isError_ s) (errorMsg_ s)
    (hasNamedCaptures_ s) (totalCaptureCount_ s) c (groupNames_ s) (newGroupNames_ s).
Definition set_names (c : DynChunk) (l : list (list Z)) (s : Parser) : Parser :=
  mkParser (source s) (pc_ s) (end_ s) (flags_ s) (c0_ s) (captureCount_ s) (stackCount_ s) (isError_ s) (errorMsg_ s)
    (hasNamedCaptures_ s) (totalCaptureCount_ s) (buffer_ s) c l.

(** * Computations on a parser *)
Definition M (A : Type) : Type := Parser -> outcome (Parser * A).
#[export] Instance M_ret : MRet M := fun A a s => Done (s, a).
#[export] Instance M_bind : MBind M := fun A B k m s =>
  match m s with Done (s', a) => k a s' | Crash => Crash | NoFuel => NoFuel end.
Definition gets {A} (f : Parser -> A) : M A := fun s => Done (s, f s).
Definition modify (f : Parser -> Parser) : M unit := fun s => Done (f s, tt).
Definition lift {A} (r : outcome A) : M A := fun s => match r with Done a => Done (s, a) | Crash => Crash | NoFuel => NoFuel end.
Definition when (b : bool) (m : M unit) : M unit := if b then m else mret tt.
(** A loop that runs out of rounds. *)
Definition out_of_fuel {A} : M A := fun _ => NoFuel.

(** [*(base_ + p)] *)
Definition byte_at (p : Z) : M Z := fun s =>
  if p <? 0 then Crash else match read (source s) (Z.to_nat p) with Done b => Done (s, b) | _ => Crash end.
(** The bytes from [base_ + p] on. *)
Definition bytes_from (p : Z) : M (list Z) := fun s => if p <? 0 then Crash else Done (s, drop (Z.to_nat p) (source s)).

Definition Advance : M unit :=
  pc ← gets pc_; end_ ← gets end_;
  if pc <=? end_ then c ← byte_at pc; modify (set_input (pc + 1) c)
  else modify (set_input pc KEY_EOF).
Definition AdvanceBy (offset : Z) : M unit :=
  pc ← gets pc_; c0 ← gets c0_;
  modify (set_input (pc + (offset - 1)) c0);; Advance.
Definition Prev : M unit :=
  pc ← gets pc_;
  if pc >=? 0 then c ← byte_at pc; modify (set_input (pc - 1) c)
  else modify (set_input pc KEY_EOF).
(** [pc_ = start; Advance();] *)
Definition back_to (start : Z) : M unit := c0 ← gets c0_; modify (set_input start c0);; Advance.

Definition has_flag (flag : Z) : M bool := flags ← gets flags_; mret (negb (Z.land flags flag =? 0)).
Definition IsIgnoreCase : M bool := has_flag RegExpExecutor.FLAG_IGNORECASE.
Definition IsDotAll : M bool := has_flag FLAG_DOTALL.
Definition IsUtf16 : M bool := has_flag RegExpExecutor.FLAG_UTF16.

(** [HexValue] of utils.h *)
Definition HexValue (c : Z) : Z :=
  let c := u32 (c - 48) in
  if c <? 10 then c
  else let c := u32 (Z.lor c 32 - (97 - 48)) in if c <? 6 then c + 10 else UINT32_MAX.

(** Enough rounds for a loop that consumes a byte of the pattern in each. *)
Definition rounds (s : Parser) : nat := S (S (length (source s))).

Section parser.
  Context {memory_ : Memory} {icu : ICU} {icu_text : ICUText}.

(** ** Emission *)
Definition emit (f : DynChunk -> outcome (DynChunk * nat)) : M nat := fun s =>
  match f (buffer_ s) with Done (c, n) => Done (set_buffer c s, n) | Crash => Crash | NoFuel => NoFuel end.
Definition emit_ (f : DynChunk -> outcome (DynChunk * nat)) : M unit := _ ← emit f; mret tt.
Definition code_size : M nat := c ← gets buffer_; mret (size_ c).
Definition put_code (f : DynChunk -> outcome DynChunk) : M unit := fun s =>
  match f (buffer_ s) with Done c => Done (set_buffer c s, tt) | Crash => Crash | NoFuel => NoFuel end.
Definition emit_prev : M unit := emit_ (fun c => PrevOpCode_EmitOpCode c 0).

Definition ParseError (msg : string) : M unit :=
  modify (set_error msg);;
  if mem_ok (String.length msg + 1) (String.length msg + 1) then mret tt else lift Crash.

(** * Numbers and escapes *)
Fixpoint ParseDecimalDigits_loop (fuel : nat) (result : Z) (overflow : bool) : M Z :=
  match fuel with
  | O => out_of_fuel
  | S fuel =>
      c0 ← gets c0_;
      if (c0 <? 48) || (c0 >? 57) then mret (if overflow then INT32_MAX else result)
      else
        let big := result >? (INT32_MAX - c0 + 48) / DECIMAL_DIGITS_ADVANCE in
        Advance;;
        if overflow then ParseDecimalDigits_loop fuel result true
        else if big then ParseDecimalDigits_loop fuel result true
        else ParseDecimalDigits_loop fuel (u32 (result * DECIMAL_DIGITS_ADVANCE + c0 - 48)) false
  end.
Definition ParseDecimalDigits : M Z := n ← gets rounds; ParseDecimalDigits_loop n 0 false.

Definition ParseOctalLiteral : M Z :=
  c0 ← gets c0_;
  let value := u32 (c0 - 48) in
  Advance;;
  c0 ← gets c0_;
  if (c0 >=? 48) && (c0 <=? 55) then
    let value := u32 (value * OCTAL_VALUE + c0 - 48) in
    Advance;;
    c0 ← gets c0_;
    if (value <? OCTAL_VALUE_RANGE) && (c0 >=? 48) && (c0 <=? 55) then
      let value := u32 (value * OCTAL_VALUE + c0 - 48) in
      Advance;; mret value
    else mret value
  else mret value.

Fixpoint ParseUnlimitedLengthHexNumber_loop (fuel : nat) (maxValue x d : Z) : M (option Z) :=
  match fuel with
  | O => out_of_fuel
  | S fuel =>
      if d >=? 0 then
        if x >? (UINT32_MAX - u32 d) / HEX_VALUE then lift Crash
        else
          let x := u32 (x * HEX_VALUE + u32 d) in
          if x >? maxValue then mret None
          else
            Advance;;
            c0 ← gets c0_;
            ParseUnlimitedLengthHexNumber_loop fuel maxValue x (i32 (HexValue c0))
      else mret (Some x)
  end.
Definition ParseUnlimitedLengthHexNumber (maxValue : Z) : M (option Z) :=
  c0 ← gets c0_;
  let d := i32 (HexValue c0) in
  if d <? 0 then mret None
  else n ← gets rounds; ParseUnlimitedLengthHexNumber_loop n maxValue 0 d.

Fixpoint ParseHexEscape_loop (length : nat) (start val : Z) : M (option Z) :=
  match length with
  | O => mret (Some val)
  | S length =>
      c0 ← gets c0_;
      let d := i32 (HexValue c0) in
      if d <? 0 then back_to start;; mret None
      else Advance;; ParseHexEscape_loop length start (u32 (val * HEX_VALUE + u32 d))
  end.
Definition ParseHexEscape (length : nat) : M (option Z) :=
  pc ← gets pc_; ParseHexEscape_loop length (pc - 1) 0.

(** The value written, if any; the boolean result is separate, as the trail of a
    pair may be missing. *)
Definition ParseUnicodeEscape : M (option Z) :=
  c0 ← gets c0_;
  utf16 ← IsUtf16;
  if (c0 =? 123) && utf16 then
    pc ← gets pc_;
    let start := pc - 1 in
    Advance;;
    r ← ParseUnlimitedLengthHexNumber 0x10FFFF;
    c0 ← gets c0_;
    match r with
    | Some value => if c0 =? 125 then Advance;; mret (Some value) else back_to start;; mret None
    | None => back_to start;; mret None
    end
  else
    r ← ParseHexEscape UNICODE_HEX_VALUE;
    match r with
    | None => mret None
    | Some value =>
        c0 ← gets c0_;
        if utf16 && U16_IS_LEAD value && (c0 =? 92) then
          pc ← gets pc_;
          let start := pc - 1 in
          b ← byte_at pc;
          if b =? 117 then
            AdvanceBy (Z.of_nat UNICODE_HEX_ADVANCE);;
            t ← ParseHexEscape UNICODE_HEX_VALUE;
            match t with
            | Some trail =>
                if U16_IS_TRAIL trail then mret (Some (u32 (RegExpExecutor.U16_GET_SUPPLEMENTARY value trail)))
                else back_to start;; mret (Some value)
            | None => back_to start;; mret (Some value)
            end
          else back_to start;; mret (Some value)
        else mret (Some value)
    end.

Definition Canonicalize (c : Z) : M Z := u ← IsUtf16; mret (RegExpExecutor.Canonicalize c u).
(** Under the ignore-case flag. *)
Definition canonical (c : Z) : M Z :=
  ic ← IsIgnoreCase; if ic : bool then c ← Canonicalize c; mret c else mret c.

(** The result of [ParseCharacterEscape] as an [int]. *)
Definition ParseCharacterEscape : M Z :=
  c0 ← gets c0_;
  utf16 ← IsUtf16;
  let control (v : Z) : M Z := Advance;; mret v in
  if c0 =? 102 (* f *) then control 12
  else if c0 =? 110 (* n *) then control 10
  else if c0 =? 114 (* r *) then control 13
  else if c0 =? 116 (* t *) then control 9
  else if c0 =? 118 (* v *) then control 11
  else if c0 =? 99 (* c *) then
    Advance;;
    c0 ← gets c0_;
    if ((c0 >=? 65) && (c0 <=? 90)) || ((c0 >=? 97) && (c0 <=? 122)) then
      Advance;; mret (Z.land c0 31)
    else if negb utf16 then
      pc ← gets pc_; modify (set_input (pc - 1) c0);; mret 92
    else ParseError "Invalid control letter";; mret (-1)
  else if (c0 >=? 48) && (c0 <=? 55) then
    nul ← (if (c0 =? 48) && utf16 then
             pc ← gets pc_; b ← byte_at pc; mret (negb ((b >=? 48) && (b <=? 57)))
           else mret false);
    if nul : bool then Advance;; mret 0
    else if utf16 then ParseError "Invalid class escape";; mret 0
    else v ← ParseOctalLiteral; mret (i32 v)
  else if c0 =? 120 (* x *) then
    Advance;;
    r ← ParseHexEscape UNICODE_HEX_ADVANCE;
    match r with
    | Some v => mret (i32 v)
    | None => if utf16 then ParseError "Invalid class escape";; mret (-1) else mret 120
    end
  else if c0 =? 117 (* u *) then
    Advance;;
    r ← ParseUnicodeEscape;
    match r with
    | Some v => mret (i32 v)
    | None => if utf16 then ParseError "Invalid unicode escape";; mret 0 else mret 117
    end
  else if bool_decide (c0 ∈ [36; 40; 41; 42; 43; 46; 47; 63; 91; 92; 93; 94; 123; 124; 125]) (* $()*+./?[\]^{|} *)
  then Advance;; mret c0
  else if utf16 then ParseError "Invalid unicode escape";; mret 0
  else (if c0 <? CHAR_MAXS then Advance else mret tt);; mret (i32 c0).

(** * Character classes *)
Fixpoint ParseUnicodePropertyValueCharacters (fuel : nat) (isValue : bool) : M bool :=
  match fuel with
  | O => out_of_fuel
  | S fuel =>
      c0 ← gets c0_;
      if ((c0 >=? 65) && (c0 <=? 90)) || ((c0 >=? 97) && (c0 <=? 122)) || (c0 =? 95) then
        Advance;; ParseUnicodePropertyValueCharacters fuel isValue
      else if (c0 >=? 48) && (c0 <=? 57) then Advance;; ParseUnicodePropertyValueCharacters fuel true
      else mret isValue
  end.

Definition invert_if (b : bool) (l : RangeSet.t) : M RangeSet.t :=
  if b then u ← IsUtf16; lift (RangeSet.Invert u l) else mret l.

(** The set built in [atom] and the [int] result. *)
Definition ParseClassEscape (atom : RangeSet.t) : M (RangeSet.t * Z) :=
  c0 ← gets c0_;
  let class (g : RangeSet.t) (invert : bool) : M (RangeSet.t * Z) :=
    atom ← lift (RangeSet.InsertSet g atom);
    atom ← invert_if invert atom;
    Advance;; mret (atom, CLASS_RANGE_BASE) in
  if c0 =? 98 (* b *) then Advance;; atom ← lift (RangeSet.InsertSet (RangeSet.singleton 8) atom); mret (atom, 8)
  else if c0 =? 45 (* - *) then Advance;; atom ← lift (RangeSet.InsertSet (RangeSet.singleton 45) atom); mret (atom, 45)
  else if (c0 =? 100) || (c0 =? 68) (* d D *) then class g_gRangeD (c0 =? 68)
  else if (c0 =? 115) || (c0 =? 83) (* s S *) then class g_gRangeS (c0 =? 83)
  else if (c0 =? 119) || (c0 =? 87) (* w W *) then class g_gRangeW (c0 =? 87)
  else if (c0 =? 80) || (c0 =? 112) (* P p *) then
    Advance;;
    c0 ← gets c0_;
    if c0 =? 123 then
      Advance;;
      c0 ← gets c0_;
      if c0 =? 125 then mret (atom, -1)
      else
        n ← gets rounds;
        isValue ← ParseUnicodePropertyValueCharacters n false;
        c0 ← gets c0_;
        missing ← (if negb isValue && (c0 =? 61) then
                     Advance;;
                     c0 ← gets c0_;
                     if c0 =? 125 then mret true
                     else _ ← ParseUnicodePropertyValueCharacters n isValue; mret false
                   else mret false);
        if missing : bool then mret (atom, -1)
        else
          c0 ← gets c0_;
          if negb (c0 =? 125) then mret (atom, -1)
          else Advance;; mret (atom, CLASS_RANGE_BASE)
    else mret (atom, -1)
  else
    result ← ParseCharacterEscape;
    value ← canonical result;
    atom ← lift (RangeSet.InsertSet (RangeSet.singleton (u32 value)) atom);
    mret (atom, result).

Definition ParseClassAtom (atom : RangeSet.t) : M (RangeSet.t * Z) :=
  c0 ← gets c0_; pc ← gets pc_; e ← gets end_;
  if c0 =? 92 then Advance;; r ← ParseClassEscape atom; mret (fst r, u32 (snd r))
  else if c0 =? KEY_EOF then mret (atom, UINT32_MAX)
  else if (c0 =? 0) && (pc >=? e) then mret (atom, UINT32_MAX)
  else
    value ← (if c0 >? INT8_MAX then
               modify (set_input (pc - 1) c0);;
               bytes ← bytes_from (pc - 1);
               r ← lift (Utf.ConvertUtf8ToUtf16Pair bytes true);
               AdvanceBy (Z.of_nat (snd r) + 1);; mret (fst r)
             else Advance;; mret c0);
    value ← canonical value;
    let value := u32 value in
    atom ← lift (RangeSet.InsertSet (RangeSet.singleton value) atom);
    mret (atom, value).

(** [None] is the result false. *)
Fixpoint ParseClassRanges_loop (fuel : nat) (result : RangeSet.t) : M (option RangeSet.t) :=
  match fuel with
  | O => out_of_fuel
  | S fuel =>
      let invalid : M (option RangeSet.t) := ParseError "invalid class range";; mret None in
      let insert (s : RangeSet.t) : M (option RangeSet.t) :=
        result ← lift (RangeSet.InsertSet s result); ParseClassRanges_loop fuel result in
      c0 ← gets c0_;
      if c0 =? 93 then Advance;; mret (Some result)
      else
        r1 ← ParseClassAtom [];
        let '(s1, c1) := r1 in
        if c1 =? UINT32_MAX then invalid
        else
          pc ← gets pc_;
          nextC0 ← byte_at pc;
          c0 ← gets c0_;
          utf16 ← IsUtf16;
          if (c0 =? 45) && negb (nextC0 =? 93) then
            if c1 =? CLASS_RANGE_BASE then if utf16 : bool then invalid else insert s1
            else
              Advance;;
              r2 ← ParseClassAtom [];
              let '(s2, c2) := r2 in
              if c2 =? UINT32_MAX then invalid
              else if c2 =? CLASS_RANGE_BASE then if utf16 : bool then invalid else insert s2
              else if (c1 <? INT8_MAX) && (c1 >? c2) then invalid
              else
                c1 ← canonical c1;
                c2 ← canonical c2;
                ParseClassRanges_loop fuel (RangeSet.Insert (u32 c1) (u32 c2) result)
          else insert s1
  end.
Definition ParseClassRanges : M (option RangeSet.t) := n ← gets rounds; ParseClassRanges_loop n [].
(** * Group names *)
Definition INVALID_UNICODE_FROM_UTF8 : Z := -1.
Definition UICODE_FROM_UTF8 : list Z := [0x80; 0xc0; 0xdf; 0xe0; 0xef; 0xf0; 0xf7; 0xf8; 0xfb; 0xfc; 0xfd].
Definition UTF8_2B_THIRD : Z := 0x3f.
Definition UTF8_MIN_CODE : list Z := [0x80; 0x800; 0x10000; 0x00200000; 0x04000000].
Definition UTF8_FIRST_CODE : list Z := [0x1f; 0xf; 0x7; 0x3; 0x1].

Fixpoint FromUtf8_loop (l : nat) (c p : Z) : M (option (Z * Z)) :=
  match l with
  | O => mret (Some (c, p))
  | S l =>
      b ← byte_at p;
      if (b <? Utf.UTF8_2B_SECOND) || (b >=? Utf.UTF8_2B_FIRST) then mret None
      else FromUtf8_loop l (i32 (Z.lor (i32 (Z.shiftl c 6)) (Z.land b UTF8_2B_THIRD))) (p + 1)
  end.
(** The character and the pointer behind it, which stays on an error. *)
Definition FromUtf8 (c : Z) (l : nat) (p pp : Z) : M (Z * Z) :=
  first ← lift (read UTF8_FIRST_CODE (l - 1));
  r ← FromUtf8_loop l (Z.land c first) p;
  match r with
  | None => mret (INVALID_UNICODE_FROM_UTF8, pp)
  | Some (c, p) =>
      min ← lift (read UTF8_MIN_CODE (l - 1));
      if c <? min then mret (INVALID_UNICODE_FROM_UTF8, pp) else mret (c, p)
  end.
Definition UnicodeFromUtf8 (p maxLen : Z) : M (Z * Z) :=
  c ← byte_at p;
  let u i := nth i UICODE_FROM_UTF8 0 in
  if c <? u 0%nat then mret (c, p + 1)
  else
    let l := if (c >=? u 1%nat) && (c <=? u 2%nat) then 1
             else if (c >=? u 3%nat) && (c <=? u 4%nat) then 2
             else if (c >=? u 5%nat) && (c <=? u 6%nat) then 3
             else if (c >=? u 7%nat) && (c <=? u 8%nat) then 4
             else if (c =? u 9%nat) || (c =? u 10%nat) then 5
             else 0 in
    if l =? 0 then mret (INVALID_UNICODE_FROM_UTF8, p)
    else if l >? maxLen - 1 then mret (INVALID_UNICODE_FROM_UTF8, p)
    else FromUtf8 c (Z.to_nat l) (p + 1) p.

Definition IsIdentFirst (c : Z) : M Z :=
  if c <? CACHE_SIZE then
    w ← lift (read ID_START_TABLE_ASCII (Z.to_nat (Z.shiftr c 5)));
    mret (Z.land (Z.shiftr w (Z.land c 31)) 1)
  else mret (Z.b2z (u_isIDStart c)).

(** The C string at the start of a memory. *)
Fixpoint cstring (m : list Z) : outcome (list Z) :=
  match m with
  | [] => Crash
  | b :: m => if b =? 0 then Done [] else s ← cstring m; Done (b :: s)
  end.

(** The name in a buffer of [CACHE_SIZE] bytes, and the pointer behind it. *)
Fixpoint ParseGroupSpecifier_loop (fuel : nat) (p : Z) (q : list Z) : M (option (Z * list Z)) :=
  match fuel with
  | O => out_of_fuel
  | S fuel =>
      e ← gets end_;
      c ← (if p <=? e then byte_at p else mret KEY_EOF);
      if c =? 62 (* > *) then mret (Some (p, q))
      else
        step ← (if c =? 92 then
                  b ← byte_at (p + 1);
                  if negb (b =? 117) then mret None
                  else r ← ParseUnicodeEscape; mret (match r with Some v => Some (v, p + 1) | None => None end)
                else if (c >? CACHE_SIZE) && negb (c =? KEY_EOF) then
                  r ← UnicodeFromUtf8 p UTF8_CHAR_LEN_MAX; mret (Some (u32 (fst r), snd r))
                else if negb (c =? KEY_EOF) then mret (Some (c, p + 1))
                else mret None);
        match step with
        | None => mret None
        | Some (c, p) =>
            bad ← (if (length q =? 0)%nat then f ← IsIdentFirst c; mret (negb (f =? 0))
                   else mret (negb (u_isIDPart c)));
            if bad : bool then mret None
            else if Z.of_nat (length q) >=? CACHE_SIZE then lift Crash
            else ParseGroupSpecifier_loop fuel p (q ++ [u8 c])
        end
  end.
Definition ParseGroupSpecifier (p : Z) : M (option (Z * list Z)) :=
  r ← ParseGroupSpecifier_loop 130 p [];
  match r with
  | None => mret None
  | Some (p, q) =>
      name ← lift (cstring (q ++ replicate (Z.to_nat CACHE_SIZE - length q) 0));
      mret (Some (p + 1, name))
  end.

(** The index of a name among those recorded, or -1. *)
Fixpoint FindGroupName_loop (fuel : nat) (m : list Z) (p size : nat) (name : list Z) (captureIndex : Z) : outcome Z :=
  match fuel with
  | O => NoFuel
  | S fuel =>
      if (p <? size)%nat then
        s ← cstring (drop p m);
        if s == name then Done captureIndex
        else FindGroupName_loop fuel m (p + length s + 1) size name (captureIndex + 1)
      else Done (-1)
  end.
Definition FindGroupName (name : list Z) : M Z :=
  c ← gets groupNames_;
  lift (FindGroupName_loop (S (size_ c)) (memory c) 0 (size_ c) name 1).

(** [while (p < end_ && *p != ']')] *)
Fixpoint skip_class (fuel : nat) (p : Z) : M Z :=
  match fuel with
  | O => out_of_fuel
  | S fuel =>
      e ← gets end_;
      if p <? e then
        c ← byte_at p;
        if c =? 93 then mret p else skip_class fuel (if c =? 92 then p + 2 else p + 1)
      else mret p
  end.
Fixpoint ParseCaptureCount_loop (fuel : nat) (groupName : option (list Z)) (p captureIndex : Z) : M Z :=
  match fuel with
  | O => out_of_fuel
  | S fuel =>
      e ← gets end_;
      if p <? e then
        c ← byte_at p;
        if c =? 40 (* ( *) then
          c1 ← byte_at (p + 1);
          if c1 =? 63 (* ? *) then
            c2 ← byte_at (p + (CAPTURE_CONUT_ADVANCE - 1));
            named ← (if c2 =? 60 (* < *) then
                       c3 ← byte_at (p + CAPTURE_CONUT_ADVANCE); mret (negb (c3 =? 33) && negb (c3 =? 61))
                     else mret false);
            if named : bool then
              total ← gets totalCaptureCount_;
              modify (set_counted 1 total);;
              let p := p + CAPTURE_CONUT_ADVANCE in
              match groupName with
              | None => ParseCaptureCount_loop fuel groupName (p + 1) (captureIndex + 1)
              | Some g =>
                  r ← ParseGroupSpecifier p;
                  match r with
                  | None => ParseCaptureCount_loop fuel groupName (p + 1) (captureIndex + 1)
                  | Some (p, name) =>
                      g' ← lift (cstring g);
                      if name == g' then mret captureIndex
                      else ParseCaptureCount_loop fuel groupName (p + 1) (captureIndex + 1)
                  end
              end
            else ParseCaptureCount_loop fuel groupName (p + 1) captureIndex
          else ParseCaptureCount_loop fuel groupName (p + 1) (captureIndex + 1)
        else if c =? 92 then ParseCaptureCount_loop fuel groupName (p + 2) captureIndex
        else if c =? 91 then
          n ← gets rounds;
          p ← skip_class n p;
          ParseCaptureCount_loop fuel groupName (p + 1) captureIndex
        else ParseCaptureCount_loop fuel groupName (p + 1) captureIndex
      else mret captureIndex
  end.
Definition ParseCaptureCount (groupName : option (list Z)) : M Z :=
  total ← gets totalCaptureCount_;
  modify (set_counted 0 total);;
  n ← gets rounds;
  ParseCaptureCount_loop n groupName 0 1.

Definition RecountCaptures : M Z :=
  total ← gets totalCaptureCount_;
  if total <? 0 then
    names ← gets groupNames_;
    total ← ParseCaptureCount (buf_ names);
    named ← gets hasNamedCaptures_;
    modify (set_counted named total);; mret total
  else mret total.
Definition HasNamedCaptures : M bool :=
  named ← gets hasNamedCaptures_;
  (if named <? 0 then _ ← RecountCaptures; mret tt else mret tt);; mret false.

(** * Atoms *)
(** [\d] and the like: the set with the instructions that step back around it. *)
Definition emit_class (isBackward : bool) (f : DynChunk -> outcome (DynChunk * nat)) : M unit :=
  when isBackward emit_prev;; emit_ f;; when isBackward emit_prev;; Advance.
Definition emit_inverse (isBackward : bool) (g : RangeSet.t) : M unit :=
  atomRange ← invert_if true g; emit_class isBackward (fun c => Range32OpCode_InsertOpCode c atomRange).
Definition emit_reference (isBackward : bool) (n : Z) : M unit :=
  emit_ (fun c => if isBackward then BackwardBackReferenceOpCode_EmitOpCode c (u32 n)
                  else BackReferenceOpCode_EmitOpCode c (u32 n)).

Definition ParseNamedReference (isBackward : bool) : M unit :=
  Advance;;
  c0 ← gets c0_;
  bad ← (if negb (c0 =? 60) then utf16 ← IsUtf16; if negb utf16 then mret true else HasNamedCaptures else mret false);
  if bad : bool then ParseError "expecting group name."
  else
    Advance;; Prev;;
    pc ← gets pc_;
    r ← ParseGroupSpecifier pc;
    match r with
    | None => ParseError "GroupName Syntax error."
    | Some (p, name) =>
        c0 ← gets c0_;
        modify (set_input p c0);;
        position ← FindGroupName name;
        position ← (if position <? 0 then ParseCaptureCount (Some (name ++ [0])) else mret position);
        undefined ← (if position <? 0 then utf16 ← IsUtf16; if negb utf16 then mret true else HasNamedCaptures
                     else mret false);
        if undefined : bool then ParseError "group name not defined"
        else emit_reference isBackward position;; Advance
    end.

Definition ParseAtomEscape (isBackward : bool) : M Z :=
  c0 ← gets c0_;
  let done (m : M unit) : M Z := m;; mret (-1) in
  if c0 =? KEY_EOF then done (ParseError "unexpected end")
  else if (c0 >=? 49) && (c0 <=? 57) then
    capture ← ParseDecimalDigits;
    count ← gets captureCount_;
    invalid ← (if capture >? count - 1 then n ← ParseCaptureCount None; mret (capture >? n - 1) else mret false);
    if invalid : bool then done (ParseError "invalid backreference count")
    else done (emit_reference isBackward capture)
  else if c0 =? 100 (* d *) then done (emit_class isBackward (fun c => RangeOpCode_InsertOpCode c g_gRangeD))
  else if c0 =? 68 (* D *) then done (emit_inverse isBackward g_gRangeD)
  else if c0 =? 115 (* s *) then done (emit_class isBackward (fun c => RangeOpCode_InsertOpCode c g_gRangeS))
  else if c0 =? 83 (* S *) then done (emit_inverse isBackward g_gRangeS)
  else if c0 =? 119 (* w *) then done (emit_class isBackward (fun c => RangeOpCode_InsertOpCode c g_gRangeW))
  else if c0 =? 87 (* W *) then done (emit_inverse isBackward g_gRangeW)
  else if (c0 =? 80) || (c0 =? 112) || (c0 =? 107) (* P p k *) then done (ParseNamedReference isBackward)
  else ParseCharacterEscape.

(** The case closure of a character. *)
Fixpoint insert_all (l : list Z) (s : RangeSet.t) : outcome RangeSet.t :=
  match l with
  | [] => Done s
  | uc :: l => s ← RangeSet.InsertSet (RangeSet.singleton (u32 uc)) s; insert_all l s
  end.
Definition emit_char (value : Z) : M unit :=
  emit_ (fun c => if value <=? UINT16_MAX then CharOpCode_EmitOpCode c (u32 value) else Char32OpCode_EmitOpCode c (u32 value)).
(** [case '\\'] of [ParseAlternative], behind the assertions. *)
Definition ParseEscapedAtom (isBackward : bool) : M unit :=
  atomValue ← ParseAtomEscape isBackward;
  if atomValue =? -1 then mret tt
  else
    ic ← IsIgnoreCase;
    utf16 ← IsUtf16;
    if ic && utf16 then
      rangeResult ← lift (insert_all (closeOver atomValue) []);
      emit_ (fun c => RangeOpCode_InsertOpCode c rangeResult)
    else emit_char (if ic : bool then RegExpExecutor.Canonicalize atomValue false else atomValue).

(** [case '['] *)
Definition ParseClass (isBackward : bool) : M unit :=
  Advance;;
  when isBackward emit_prev;;
  c0 ← gets c0_;
  isInvert ← (if c0 =? 94 then Advance;; mret true else mret false);
  r ← ParseClassRanges;
  match r with
  | None => mret tt
  | Some rangeResult =>
      rangeResult ← invert_if isInvert rangeResult;
      emit_ (fun c => if RangeSet.HighestValue rangeResult <=? UINT16_MAX then RangeOpCode_InsertOpCode c rangeResult
                      else Range32OpCode_InsertOpCode c rangeResult);;
      when isBackward emit_prev
  end.

(** [default]: a character of the pattern *)
Definition ParsePatternCharacter (isBackward : bool) : M unit :=
  when isBackward emit_prev;;
  c0 ← gets c0_;
  matchedChar ← (if c0 >? INT8_MAX + 1 then
                   Prev;;
                   pc ← gets pc_; e ← gets end_; c0 ← gets c0_;
                   bytes ← bytes_from pc;
                   let '(i, c) := U8_NEXT bytes 0 (i32 (e - pc + 1)) in
                   modify (set_input (pc + i) c0);; mret (u32 c)
                 else mret c0);
  matchedChar ← canonical (i32 matchedChar);
  let matchedChar := u32 matchedChar in
  emit_ (fun c => if matchedChar >? UINT16_MAX then Char32OpCode_EmitOpCode c matchedChar
                  else CharOpCode_EmitOpCode c matchedChar);;
  when isBackward emit_prev;;
  Advance.

(** * Quantifiers *)
(** The result with the bounds read so far. *)
Definition ParserIntervalQuantifier : M (bool * Z * Z) :=
  Advance;;
  min ← ParseDecimalDigits;
  c0 ← gets c0_;
  if c0 =? 44 (* , *) then
    Advance;;
    c0 ← gets c0_;
    if c0 =? 125 then Advance;; mret (true, min, INT32_MAX)
    else
      max ← ParseDecimalDigits;
      c0 ← gets c0_;
      if c0 =? 125 then Advance;; mret (true, min, max) else mret (false, min, max)
  else if c0 =? 125 (* } *) then Advance;; mret (true, min, min)
  else Advance;; mret (false, min, min).

(** The bounds of a quantifier, if there is one; the outer [None] stops. *)
Definition ParseQuantifierPrefix : M (option (option (Z * Z))) :=
  c0 ← gets c0_;
  if c0 =? 42 (* * *) then Advance;; mret (Some (Some (0, INT32_MAX)))
  else if c0 =? 43 (* + *) then Advance;; mret (Some (Some (1, INT32_MAX)))
  else if c0 =? 63 (* ? *) then Advance;; mret (Some (Some (0, 1)))
  else if c0 =? 123 (* { *) then
    pc ← gets pc_;
    r ← ParserIntervalQuantifier;
    let '(ok, min, max) := r in
    if negb ok then back_to (pc - 1);; mret None
    else if min >? max then ParseError "Invalid repetition count";; mret None
    else mret (Some (Some (min, max)))
  else mret (Some None).

(** The instructions around an atom that is repeated. *)
Definition emit_quantifier (atomBcStart : nat) (captureStart captureEnd min max : Z) (isGreedy : bool) : M unit :=
  captures ← gets captureCount_; stack ← gets stackCount_;
  modify (set_counts captures (stack + 1));;
  emit_ (fun c => PushOpCode_InsertOpCode c atomBcStart);;
  let atomBcStart := (atomBcStart + size_of OP_PUSH)%nat in
  when (negb (captureStart =? 0))
    (emit_ (fun c => SaveResetOpCode_InsertOpCode c atomBcStart (u32 captureStart) (u32 captureEnd)));;
  when (max =? INT32_MAX)
    (stack ← gets stackCount_;
     modify (set_counts captures (stack + 1));;
     emit_ (fun c => PushCharOpCode_InsertOpCode c atomBcStart);;
     emit_ (fun c => CheckCharOpCode_EmitOpCode c (Z.of_nat (size_of OP_LOOP))));;
  size ← code_size;
  let start := u32 (Z.of_nat atomBcStart - Z.of_nat size - Z.of_nat (size_of OP_LOOP)) in
  emit_ (fun c => if isGreedy then LoopGreedyOpCode_EmitOpCode c start (u32 min) (u32 max)
                  else LoopOpCode_EmitOpCode c start (u32 min) (u32 max));;
  size ← code_size;
  let len := u32 (Z.of_nat size - Z.of_nat atomBcStart) in
  when (min =? 0)
    (emit_ (fun c => if isGreedy then SplitNextOpCode_InsertOpCode c atomBcStart len
                     else SplitFirstOpCode_InsertOpCode c atomBcStart len));;
  emit_ PopOpCode_EmitOpCode.

Definition ParseQuantifier (atomBcStart : nat) (captureStart captureEnd : Z) : M unit :=
  r ← ParseQuantifierPrefix;
  match r with
  | None => mret tt
  | Some bounds =>
      c0 ← gets c0_;
      let repeat (isGreedy : bool) : M unit :=
        match bounds with
        | Some (min, max) =>
            if negb (min =? -1) && negb (max =? -1)
            then emit_quantifier atomBcStart captureStart captureEnd min max isGreedy else mret tt
        | None => mret tt
        end in
      if c0 =? 63 then Advance;; repeat false
      else if (c0 =? 43) || (c0 =? 42) || (c0 =? 123) then ParseError "nothing to repeat"
      else repeat true
  end.
(** * Terms, alternatives, disjunctions *)
(** The term emitted last, moved in front of those emitted since [start]. *)
Definition move_term (start atomBcStart : nat) : M unit := fun s =>
  let finish (c : DynChunk) : outcome (Parser * unit) := Done (set_buffer c s, tt) in
  let end_ := size_ (buffer_ s) in
  let termSize := (end_ - atomBcStart)%nat in
  let moveSize := (end_ - start)%nat in
  match Expand (buffer_ s) (end_ + termSize) with
  | Done (c, _) =>
      if negb (mem_ok moveSize moveSize) then Crash
      else
        match
          (data ← load (memory c) start moveSize;
           buf ← store (memory c) (start + termSize) data;
           if negb (mem_ok termSize termSize) then Crash
           else data ← load buf end_ termSize; store buf start data)
        with
        | Done buf => finish (with_buf buf c)
        | Crash => Crash
        | NoFuel => NoFuel
        end
  | Crash => Crash
  | NoFuel => NoFuel
  end.

(** What a term is: an atom that can be repeated with its first capture, an
    assertion, or an error on which [ParseAlternative] returns. *)
Inductive term := Atom (captureIndex : Z) | Assertion | Stop.

(** The terms that are not groups, by their first character. *)
Definition ParseSimpleTerm (isBackward : bool) : M term :=
  c0 ← gets c0_;
  let atom (m : M unit) : M term := m;; mret (Atom 0) in
  let character : M term := atom (ParsePatternCharacter isBackward) in
  let bracket : M term :=
    utf16 ← IsUtf16; if utf16 : bool then ParseError "syntax error";; mret Stop else character in
  if c0 =? 94 (* ^ *) then emit_ (fun c => LineStartOpCode_EmitOpCode c 0);; Advance;; mret Assertion
  else if c0 =? 36 (* $ *) then emit_ (fun c => LineEndOpCode_EmitOpCode c 0);; Advance;; mret Assertion
  else if c0 =? 92 (* \ *) then
    Advance;;
    c0 ← gets c0_;
    if c0 =? 98 (* b *) then emit_ (fun c => WordBoundaryOpCode_EmitOpCode c 0);; Advance;; mret Assertion
    else if c0 =? 66 (* B *) then emit_ (fun c => NotWordBoundaryOpCode_EmitOpCode c 0);; Advance;; mret Assertion
    else atom (ParseEscapedAtom isBackward)
  else if c0 =? 46 (* . *) then
    dotAll ← IsDotAll;
    atom (when isBackward emit_prev;;
          emit_ (fun c => if dotAll : bool then AllOpCode_EmitOpCode c 0 else DotsOpCode_EmitOpCode c 0);;
          when isBackward emit_prev;; Advance)
  else if c0 =? 91 (* [ *) then atom (ParseClass isBackward)
  else if (c0 =? 42) || (c0 =? 43) || (c0 =? 63) (* * + ? *) then ParseError "nothing to repeat";; mret Stop
  else if c0 =? 123 (* { *) then
    pc ← gets pc_;
    r ← ParserIntervalQuantifier;
    if (fst (fst r)) : bool then ParseError "nothing to repeat";; mret Stop
    else back_to (pc - 1);; bracket
  else if (c0 =? 125) || (c0 =? 93) (* } ] *) then bracket
  else character.

(** [SplitNextOpCode] in front of an alternative and a jump behind it; the
    position of the jump. *)
Definition begin_alternative (start : nat) : M nat :=
  size ← code_size;
  let len := u32 (Z.of_nat size - Z.of_nat start) in
  emit_ (fun c => SplitNextOpCode_InsertOpCode c start (u32 (len + Z.of_nat (size_of OP_GOTO))));;
  n ← emit (fun c => GotoOpCode_EmitOpCode c 0);
  mret (n - size_of OP_GOTO)%nat.
Definition end_alternative (pos : nat) : M unit :=
  size ← code_size;
  put_code (fun c => GotoOpCode_UpdateOpPara c pos
    (u32 (Z.of_nat size - Z.of_nat pos - Z.of_nat (size_of OP_GOTO)))).
(** The instruction of a lookaround, in front of its body. *)
Definition end_lookaround (start : nat) (negative : bool) : M unit :=
  emit_ (fun c => MatchOpCode_EmitOpCode c 0);;
  size ← code_size;
  let len := u32 (Z.of_nat size - Z.of_nat start) in
  emit_ (fun c => if negative then NegativeMatchAheadOpCode_InsertOpCode c start len
                  else MatchAheadOpCode_InsertOpCode c start len).

Definition new_capture : M Z :=
  captures ← gets captureCount_; stack ← gets stackCount_;
  modify (set_counts (captures + 1) stack);; mret captures.
Definition emit_save (start : bool) (index : Z) : M unit :=
  emit_ (fun c => if start then SaveStartOpCode_EmitOpCode c (u32 index) else SaveEndOpCode_EmitOpCode c (u32 index)).
Definition add_name (bytes : list Z) (names : list (list Z)) : M unit := fun s =>
  match Emit (groupNames_ s) bytes with
  | Done (c, _) => Done (set_names c (newGroupNames_ s ++ names) s, tt)
  | Crash => Crash
  | NoFuel => NoFuel
  end.
(** [(?<name>]: false after an error *)
Definition ParseGroupName : M bool :=
  Prev;;
  pc ← gets pc_;
  r ← ParseGroupSpecifier pc;
  match r with
  | None => ParseError "GroupName Syntax error.";; mret false
  | Some (p, name) =>
      c0 ← gets c0_;
      modify (set_input p c0);;
      i ← FindGroupName name;
      if i >? 0 then ParseError "Duplicate GroupName error.";; mret false
      else add_name (name ++ [0]) [name];; Advance;; mret true
  end.

(** One round of the loop of [ParseDisjunction], [do ... while (c0_ != KEY_EOF && c0_ != ')')]; [alternative] parses an
    alternative, [again] is the next round. *)
Definition ParseDisjunction_round (alternative : bool -> nat -> M unit) (again : M unit) (isBackward : bool) (start : nat) : M unit :=
  c0 ← gets c0_;
  (if c0 =? 124 then
     pos ← begin_alternative start;
     Advance;;
     here ← code_size;
     alternative isBackward here;;
     end_alternative pos
   else mret tt);;
  c0 ← gets c0_;
  if negb (c0 =? KEY_EOF) && negb (c0 =? 41) then again else mret tt.

(** One round of the loop of [ParseAlternative], a term of an alternative whose code starts at [start]; [group] parses a
    group, [again] is the next round. *)
Definition ParseAlternative_round (group : M (Z * bool)) (again : M unit) (isBackward : bool) (start : nat) : M unit :=
  c0 ← gets c0_;
  if negb (c0 =? 124) && negb (c0 =? KEY_EOF) && negb (c0 =? 41) then
    err ← gets isError_;
    if err : bool then mret tt
    else
      atomBcStart ← code_size;
      t ← (if c0 =? 40 (* ( *) then
             Advance;;
             r ← group;
             Advance;; mret (if snd r : bool then Atom (fst r) else Assertion)
           else ParseSimpleTerm isBackward);
      match t with
      | Stop => mret tt
      | _ =>
          err ← gets isError_;
          captures ← gets captureCount_;
          match t with
          | Atom captureIndex =>
              if err : bool then mret tt else ParseQuantifier atomBcStart captureIndex (captures - 1)
          | _ => mret tt
          end;;
          when isBackward (move_term start atomBcStart);;
          again
      end
  else mret tt.

(** One round of the loop of [ParseAssertionCapture]: the first capture of the group and whether it is an atom;
    [disjunction] parses what is inside, [next] is the next round. *)
Definition ParseAssertionCapture_round (disjunction : bool -> M unit) (next : Z -> bool -> M (Z * bool)) (isBackward : bool)
    (captureIndex : Z) (isAtom : bool) : M (Z * bool) :=
  (** [while (c0_ != ')' && c0_ != KEY_EOF)] and what follows it *)
  let again (captureIndex : Z) (isAtom : bool) : M (Z * bool) :=
    c0 ← gets c0_;
    if negb (c0 =? 41) && negb (c0 =? KEY_EOF) then next captureIndex isAtom
    else if negb (c0 =? 41) then ParseError "capture syntax error";; mret (captureIndex, false)
    else mret (captureIndex, isAtom) in
  let capture : M (Z * bool) :=
    index ← new_capture;
    emit_save (negb isBackward) index;;
    disjunction isBackward;;
    emit_save isBackward index;;
    again index true in
  let lookaround (start : nat) (backward negative : bool) : M (Z * bool) :=
    disjunction backward;;
    end_lookaround start negative;;
    again captureIndex isAtom in
  c0 ← gets c0_;
  if c0 =? 63 (* ? *) then
    Advance;;
    c0 ← gets c0_;
    start ← code_size;
    if c0 =? 61 (* = *) then Advance;; lookaround start isBackward false
    else if c0 =? 33 (* ! *) then Advance;; lookaround start isBackward true
    else if c0 =? 60 (* < *) then
      Advance;;
      c0 ← gets c0_;
      if c0 =? 61 then Advance;; lookaround start true false
      else if c0 =? 33 then Advance;; lookaround start true true
      else ok ← ParseGroupName; if ok : bool then capture else mret (captureIndex, false)
    else if c0 =? 58 (* : *) then
      Advance;; disjunction isBackward;; again captureIndex true
    else Advance;; ParseError "? Syntax error.";; mret (captureIndex, false)
  else add_name [0] [];; capture.

(** The four functions call each other; [start] is where the code of the alternative starts. *)
Fixpoint ParseDisjunction (fuel : nat) (isBackward : bool) {struct fuel} : M unit :=
  match fuel with
  | O => out_of_fuel
  | S fuel =>
      start ← code_size;
      ParseAlternative fuel isBackward start;;
      err ← gets isError_;
      if err : bool then mret tt else ParseDisjunction_loop fuel isBackward start
  end
with ParseDisjunction_loop (fuel : nat) (isBackward : bool) (start : nat) {struct fuel} : M unit :=
  match fuel with
  | O => out_of_fuel
  | S fuel => ParseDisjunction_round (ParseAlternative fuel) (ParseDisjunction_loop fuel isBackward start) isBackward start
  end
with ParseAlternative (fuel : nat) (isBackward : bool) (start : nat) {struct fuel} : M unit :=
  match fuel with
  | O => out_of_fuel
  | S fuel =>
      ParseAlternative_round (ParseAssertionCapture fuel isBackward 0 false) (ParseAlternative fuel isBackward start)
        isBackward start
  end
with ParseAssertionCapture (fuel : nat) (isBackward : bool) (captureIndex : Z) (isAtom : bool) {struct fuel} : M (Z * bool) :=
  match fuel with
  | O => out_of_fuel
  | S fuel =>
      ParseAssertionCapture_round (ParseDisjunction fuel) (ParseAssertionCapture fuel isBackward) isBackward captureIndex isAtom
  end.

Definition Parse (fuel : nat) : M unit :=
  let word (n : Z) : M unit := emit_ (fun c => r ← EmitU32 c n; Done (fst r, size_ (fst r))) in
  word 0;; word 0;; word 0;; word 0;;
  Advance;;
  captureIndex ← new_capture;
  emit_save true captureIndex;;
  ParseDisjunction fuel false;;
  c0 ← gets c0_;
  if negb (c0 =? KEY_EOF) then ParseError "extraneous characters at the end"
  else
    emit_save false captureIndex;;
    emit_ (fun c => MatchEndOpCode_EmitOpCode c 0);;
    size ← code_size; captures ← gets captureCount_; stack ← gets stackCount_; flags ← gets flags_;
    put_code (fun c => PutU32 c 0 (Z.of_nat size));;
    put_code (fun c => PutU32 c RegExpExecutor.NUM_CAPTURE_OFFSET (u32 captures));;
    put_code (fun c => PutU32 c RegExpExecutor.NUM_STACK_OFFSET (u32 stack));;
    put_code (fun c => PutU32 c RegExpExecutor.FLAGS_OFFSET flags).
End parser.
End RegExpParser.
