(* ===== verification/RegExpCompile.v ===== *)
(** What the parser of regular expressions emits.

    A pattern is a syntax tree with a printer; [compile_disj] translates the
    tree into instructions.  The theorem of this file says that the parser of
    RegExpParser.v, run on the printed pattern, builds exactly the code buffer
    of that program, with the header the matcher reads.  Together with the
    theorem on the matcher (RegExpMatch.v) it determines the result of a match
    from the pattern. *)
From S2P Require Import Prelude.
From S2P Require Import DynChunk.
From S2P Require Import RegExpOpCode.
From S2P Require Import RangeSet.
From S2P Require Import RegExpExecutor.
From S2P Require Import RegExpMatch.
From S2P Require Import RegExpParser.
From stdpp Require Import list sets.
From Stdlib Require Import String.
Local Open Scope Z_scope.
Local Open Scope ark_scope.
#[local] Abbreviation length := List.length.

Module Compile.
Import Chunk RegExpOpCode RegExpParser.

(** * Patterns *)
Inductive assertion := AtLineStart | AtLineEnd | AtBoundary | NotAtBoundary.
Inductive charclass := Digit | Space | Word.
(** An escaped character: [\n] and the like, [\cX], a syntax character, [\xHH],
    [\uHHHH]. *)
Inductive escape :=
| Control (c : Z) | ControlLetter (c : Z) | Syntax (c : Z) | Hex (h l : Z) | Unicode (a b c d : Z).
Inductive simple :=
| Literal (c : Z) | Dot | InClass (k : charclass) (negated : bool) | Escaped (e : escape) | Reference (digits : list Z).
(** Bounds are written with digits, as many as one likes. *)
Inductive quantifier :=
| Star | Plus | Optional | Exactly (n : list Z) | AtLeast (n : list Z) | Between (n m : list Z).

Inductive disj := Disj (a : alt) (r : alts)
with alts := NoAlts | Alts (a : alt) (r : alts)
with alt := Empty | Seq (t : term) (a : alt)
with term :=
| Assert (k : assertion)
| Repeat (a : atom) (q : option (quantifier * bool))
| Look (behind negative : bool) (d : disj)
with atom := Simple (x : simple) | Capture (d : disj) | Group (d : disj).

(** ** Printing *)
Definition print_escape (e : escape) : list Z :=
  match e with
  | Control c | Syntax c => [c]
  | ControlLetter c => [99; c]
  | Hex h l => [120; h; l]
  | Unicode a b c d => [117; a; b; c; d]
  end.
Definition class_letter (k : charclass) (negated : bool) : Z :=
  match k with Digit => 100 | Space => 115 | Word => 119 end - if negated then 32 else 0.
Definition print_simple (x : simple) : list Z :=
  match x with
  | Literal c => [c]
  | Dot => [46]
  | InClass k n => [92; class_letter k n]
  | Escaped e => 92 :: print_escape e
  | Reference ds => 92 :: ds
  end.
Definition print_assertion (k : assertion) : list Z :=
  match k with AtLineStart => [94] | AtLineEnd => [36] | AtBoundary => [92; 98] | NotAtBoundary => [92; 66] end.
Definition print_quantifier (q : quantifier) : list Z :=
  match q with
  | Star => [42]
  | Plus => [43]
  | Optional => [63]
  | Exactly n => 123 :: n ++ [125]
  | AtLeast n => 123 :: n ++ [44; 125]
  | Between n m => 123 :: n ++ 44 :: m ++ [125]
  end.
Definition print_suffix (q : option (quantifier * bool)) : list Z :=
  match q with Some (q, greedy) => print_quantifier q ++ (if greedy : bool then [] else [63]) | None => [] end.
Definition print_look (behind negative : bool) : list Z :=
  [40; 63] ++ (if behind then [60] else []) ++ [if negative then 33 else 61].

Fixpoint print_disj (d : disj) : list Z :=
  match d with Disj a r => print_alt a ++ print_alts r end
with print_alts (r : alts) : list Z :=
  match r with NoAlts => [] | Alts a r => 124 :: print_alt a ++ print_alts r end
with print_alt (a : alt) : list Z :=
  match a with Empty => [] | Seq t a => print_term t ++ print_alt a end
with print_term (t : term) : list Z :=
  match t with
  | Assert k => print_assertion k
  | Repeat a q => print_atom a ++ print_suffix q
  | Look behind negative d => print_look behind negative ++ print_disj d ++ [41]
  end
with print_atom (a : atom) : list Z :=
  match a with
  | Simple x => print_simple x
  | Capture d => 40 :: print_disj d ++ [41]
  | Group d => [40; 63; 58] ++ print_disj d ++ [41]
  end.

(** ** Translation *)
(** Decimal numbers, which stop at the largest [int]. *)
Definition decimal (acc : Z) (digits : list Z) : Z := foldl (fun n d => n * 10 + (d - 48)) acc digits.
Definition number (digits : list Z) : Z := Z.min INT32_MAX (decimal 0 digits).
Definition bounds (q : quantifier) : Z * Z :=
  match q with
  | Star => (0, INT32_MAX)
  | Plus => (1, INT32_MAX)
  | Optional => (0, 1)
  | Exactly n => (number n, number n)
  | AtLeast n => (number n, INT32_MAX)
  | Between n m => (number n, number m)
  end.

Fixpoint captures_disj (d : disj) : Z :=
  match d with Disj a r => captures_alt a + captures_alts r end
with captures_alts (r : alts) : Z :=
  match r with NoAlts => 0 | Alts a r => captures_alt a + captures_alts r end
with captures_alt (a : alt) : Z :=
  match a with Empty => 0 | Seq t a => captures_term t + captures_alt a end
with captures_term (t : term) : Z :=
  match t with Assert _ => 0 | Repeat a _ => captures_atom a | Look _ _ d => captures_disj d end
with captures_atom (a : atom) : Z :=
  match a with Simple _ => 0 | Capture d => 1 + captures_disj d | Group d => captures_disj d end.

(** The counters a repetition keeps on the stack: its rounds and, when it is
    unbounded, the position of the last one. *)
Definition counters_of (q : option (quantifier * bool)) : Z :=
  match q with Some (q, _) => 1 + Z.b2z (snd (bounds q) =? INT32_MAX) | None => 0 end.
Fixpoint counters_disj (d : disj) : Z :=
  match d with Disj a r => counters_alt a + counters_alts r end
with counters_alts (r : alts) : Z :=
  match r with NoAlts => 0 | Alts a r => counters_alt a + counters_alts r end
with counters_alt (a : alt) : Z :=
  match a with Empty => 0 | Seq t a => counters_term t + counters_alt a end
with counters_term (t : term) : Z :=
  match t with Assert _ => 0 | Repeat a q => counters_atom a + counters_of q | Look _ _ d => counters_disj d end
with counters_atom (a : atom) : Z :=
  match a with Simple _ => 0 | Capture d | Group d => counters_disj d end.

Definition bytes (code : list Instr) : list Z := code ≫= encode.
Definition len (code : list Instr) : Z := Z.of_nat (length (bytes code)).

Definition assertion_instr (k : assertion) : Instr :=
  match k with
  | AtLineStart => LineStart | AtLineEnd => LineEnd | AtBoundary => WordBoundary | NotAtBoundary => NotWordBoundary
  end.
(** First the code [x], and [y] when it does not lead to a match. *)
Definition either (x y : list Instr) : list Instr := SplitNext (len x + 5) :: x ++ Goto (len y) :: y.
Definition look (negative : bool) (x : list Instr) : list Instr :=
  let x := x ++ [Match] in (if negative then NegativeMatchAhead else MatchAhead) (len x) :: x.
(** Rounds of [x], which resets the captures [first .. last]. *)
Definition repeated (first last : Z) (bounds : Z * Z) (greedy : bool) (x : list Instr) : list Instr :=
  let '(min, max) := bounds in
  let unbounded := max =? INT32_MAX in
  let body := (if unbounded then [PushChar] else []) ++ (if first =? 0 then [] else [SaveReset first last]) ++ x ++
              (if unbounded then [CheckChar 13] else []) in
  Push :: (if min =? 0 then [(if greedy then SplitNext else SplitFirst) (len body + 13)] else []) ++ body ++
  [(if greedy then LoopGreedy else Loop) (u32 (- len body - 13)) min max; Pop].
(** In a lookbehind a character is read by stepping back, reading and stepping
    back again. *)
Definition stepping (back : bool) (i : Instr) : list Instr := if back then [RegExpOpCode.Prev; i; RegExpOpCode.Prev] else [i].

Definition digit (c : Z) : bool := (48 <=? c) && (c <=? 57).

Section translation.
  Context {icu : ICU}.
  Context (flags : Z).
Definition flag (f : Z) : bool := negb (Z.land flags f =? 0).
Definition ignore_case : bool := flag RegExpExecutor.FLAG_IGNORECASE.
Definition utf16 : bool := flag RegExpExecutor.FLAG_UTF16.

Definition hex_value (hs : list Z) : Z := foldl (fun v h => v * 16 + HexValue h) 0 hs.
Definition escape_value (e : escape) : Z :=
  match e with
  | Control c => if c =? 102 then 12 else if c =? 110 then 10 else if c =? 114 then 13 else if c =? 116 then 9 else 11
  | ControlLetter c => Z.land c 31
  | Syntax c => c
  | Hex h l => hex_value [h; l]
  | Unicode a b c d => hex_value [a; b; c; d]
  end.
Definition hex_digit (c : Z) : bool := (0 <=? HexValue c) && (HexValue c <? 16).
Definition escape_ok (e : escape) : bool :=
  match e with
  | Control c => bool_decide (c ∈ [102; 110; 114; 116; 118])
  | ControlLetter c => ((c >=? 65) && (c <=? 90)) || ((c >=? 97) && (c <=? 122))
  | Syntax c => bool_decide (c ∈ [36; 40; 41; 42; 43; 46; 47; 63; 91; 92; 93; 94; 123; 124; 125])
  | Hex h l => hex_digit h && hex_digit l
  | Unicode a b c d => hex_digit a && hex_digit b && hex_digit c && hex_digit d && negb utf16
  end.
Definition quantifier_ok (q : quantifier) : bool :=
  match q with
  | Star | Plus | Optional => true
  | Exactly n | AtLeast n => forallb digit n
  | Between n m => forallb digit n && forallb digit m && negb (bool_decide (m = [])) && (number n <=? number m)
  end.
(** A character that stands for itself. *)
Definition plain (c : Z) : bool :=
  (0 <=? c) && (c <? 128) && negb (bool_decide (c ∈ [36; 40; 41; 42; 43; 46; 63; 91; 92; 93; 94; 123; 124; 125])).
Definition simple_ok (n : Z) (x : simple) : bool :=
  match x with
  | Literal c => plain c
  | Dot | InClass _ _ => true
  | Escaped e => escape_ok e && negb (ignore_case && utf16)
  | Reference ds =>
      match ds with d :: _ => d >=? 49 | [] => false end && forallb digit ds && (number ds <? n)
  end.
Definition char_instr (c : Z) : Instr := if c >? UINT16_MAX then Char32 c else Char c.
Definition class_set (k : charclass) : RangeSet.t :=
  match k with Digit => g_gRangeD | Space => g_gRangeS | Word => g_gRangeW end.
Definition class_instr (k : charclass) (negated : bool) : Instr :=
  if negated then Range32 (match RangeSet.Invert utf16 (class_set k) with Done l => l | _ => [] end)
  else Range (class_set k).
Definition compile_simple (back : bool) (x : simple) : list Instr :=
  match x with
  | Literal c => stepping back (char_instr (u32 (if ignore_case then RegExpExecutor.Canonicalize c utf16 else c)))
  | Dot => stepping back (if flag FLAG_DOTALL then All else Dots)
  | InClass k n => stepping back (class_instr k n)
  | Escaped e =>
      let v := escape_value e in
      let v := if ignore_case then RegExpExecutor.Canonicalize v false else v in
      [if v <=? UINT16_MAX then Char (u32 v) else Char32 (u32 v)]
  | Reference ds => [(if back then BackwardBackReference else BackReference) (number ds)]
  end.

End translation.

(** [n] is the number of the next capture. *)
Fixpoint compile_disj {icu : ICU} (flags : Z) (back : bool) (n : Z) (d : disj) : list Instr :=
  match d with Disj a r => compile_alts flags back (n + captures_alt a) (compile_alt flags back n a) r end
with compile_alts {icu : ICU} (flags : Z) (back : bool) (n : Z) (x : list Instr) (r : alts) : list Instr :=
  match r with
  | NoAlts => x
  | Alts a r => compile_alts flags back (n + captures_alt a) (either x (compile_alt flags back n a)) r
  end
with compile_alt {icu : ICU} (flags : Z) (back : bool) (n : Z) (a : alt) : list Instr :=
  match a with
  | Empty => []
  | Seq t a =>
      let x := compile_term flags back n t in
      let y := compile_alt flags back (n + captures_term t) a in
      if back then y ++ x else x ++ y
  end
with compile_term {icu : ICU} (flags : Z) (back : bool) (n : Z) (t : term) : list Instr :=
  match t with
  | Assert k => [assertion_instr k]
  | Repeat a None => compile_atom flags back n a
  | Repeat a (Some (q, greedy)) =>
      repeated (match a with Capture _ => n | _ => 0 end) (n + captures_atom a - 1) (bounds q) greedy
        (compile_atom flags back n a)
  | Look behind negative d => look negative (compile_disj flags (behind || back) n d)
  end
with compile_atom {icu : ICU} (flags : Z) (back : bool) (n : Z) (a : atom) : list Instr :=
  match a with
  | Simple x => compile_simple flags back x
  | Capture d =>
      (if back then SaveEnd else SaveStart) n :: compile_disj flags back (n + 1) d ++ [(if back then SaveStart else SaveEnd) n]
  | Group d => compile_disj flags back n d
  end.

(** A pattern the translation is right for: characters, digits and references
    are what they should be, and there is code to put a jump in front of. *)
Definition emits (code : list Instr) : bool := match code with [] => false | _ => true end.
(** A reference is followed by something else than a digit. *)
Definition apart (x : simple) (text : list Z) : bool :=
  match x, text with Reference _, c :: _ => negb (digit c) | _, _ => true end.
Definition suffix_ok (q : option (quantifier * bool)) : bool :=
  match q with Some (q, _) => quantifier_ok q | None => true end.
Fixpoint ok_disj {icu : ICU} (flags : Z) (back : bool) (n : Z) (d : disj) : bool :=
  match d with
  | Disj a r =>
      ok_alt flags back n a && ok_alts flags back (n + captures_alt a) r &&
      match r with NoAlts => true | Alts _ _ => emits (compile_alt flags back n a) end
  end
with ok_alts {icu : ICU} (flags : Z) (back : bool) (n : Z) (r : alts) : bool :=
  match r with NoAlts => true | Alts a r => ok_alt flags back n a && ok_alts flags back (n + captures_alt a) r end
with ok_alt {icu : ICU} (flags : Z) (back : bool) (n : Z) (a : alt) : bool :=
  match a with
  | Empty => true
  | Seq t a =>
      ok_term flags back n t && ok_alt flags back (n + captures_term t) a && (emits (compile_term flags back n t) || negb back) &&
      match t with Repeat (Simple x) None => apart x (print_alt a) | _ => true end
  end
with ok_term {icu : ICU} (flags : Z) (back : bool) (n : Z) (t : term) : bool :=
  match t with
  | Assert _ => true
  | Repeat a q => ok_atom flags back n a && suffix_ok q && match q with Some _ => emits (compile_atom flags back n a) | None => true end
  | Look behind _ d => ok_disj flags (behind || back) n d
  end
with ok_atom {icu : ICU} (flags : Z) (back : bool) (n : Z) (a : atom) : bool :=
  match a with
  | Simple x => simple_ok flags n x
  | Capture d => ok_disj flags back (n + 1) d
  | Group d => ok_disj flags back n d
  end.

(** The program of a pattern: the whole match is capture 0. *)
Definition compile {icu : ICU} (flags : Z) (d : disj) : RegExpMatch.Program :=
  RegExpMatch.mkProgram (Z.to_nat (1 + captures_disj d)) (Z.to_nat (counters_disj d)) flags
    (SaveStart 0 :: compile_disj flags false 1 d ++ [SaveEnd 0; MatchEnd]).

Lemma alts_include `{ICU} flags (P : Instr -> Prop) (r : alts) (back : bool) n x :
  Forall P (compile_alts flags back n x r) -> Forall P x.
Proof.
  revert n x. induction r as [|a r IH]; intros n x Hx; cbn [compile_alts] in Hx; [done|].
  apply IH in Hx. unfold either in Hx. apply Forall_cons in Hx as [_ Hx]. by apply Forall_app in Hx as [Hx _].
Qed.

(** One case for each member of a list. *)
Ltac members H :=
  apply bool_decide_eq_true in H; set_unfold in H;
  repeat match type of H with _ \/ _ => destruct H as [H|H] end; try done.

(** * Running the parser *)
(** What the parser has in front of it, the numbers of captures and counters so
    far, and the bytes emitted. *)
Record conf := mkConf { c_text : list Z; c_captures : Z; c_counters : Z; c_code : list Z }.
Definition peek (text : list Z) : Z := match text with c :: _ => c | [] => KEY_EOF end.
Definition at_text (text : list Z) (k : conf) : conf := mkConf text (c_captures k) (c_counters k) (c_code k).
Definition at_code (code : list Z) (k : conf) : conf := mkConf (c_text k) (c_captures k) (c_counters k) code.
Definition at_counts (captures counters : Z) (k : conf) : conf := mkConf (c_text k) captures counters (c_code k).

Section running.
  Context {memory_ : Memory} {icu : ICU} {icu_text : ICUText}.
  Context (Halloc : forall n, alloc_ok n = true).
  Context (Hmem : forall n, (0 < n)%nat -> mem_ok n n = true).
  (** The pattern, the bytes behind it, the flags. *)
  Context (pattern tail : list Z) (flags : Z).

Definition pc_of (text : list Z) : Z :=
  Z.of_nat (length pattern) - Z.of_nat (length text) + match text with _ :: _ => 1 | [] => 0 end.

(** The parser is at [k]. *)
Record at_conf (k : conf) (s : Parser) : Prop := {
  at_source : source s = pattern ++ tail;
  at_end : end_ s = Z.of_nat (length pattern) - 1;
  at_rest : c_text k `suffix_of` pattern;
  at_pc : pc_ s = pc_of (c_text k);
  at_c0 : c0_ s = peek (c_text k);
  at_flags : flags_ s = flags;
  at_captures : captureCount_ s = c_captures k;
  at_counters : stackCount_ s = c_counters k;
  at_error : isError_ s = false;
  at_buffer : wf (buffer_ s);
  at_contents : contents (buffer_ s) = c_code k;
  at_names : wf (groupNames_ s) }.

(** From [k], the computation gives [a] and leads to [k']. *)
Definition runs {A} (m : M A) (k : conf) (a : A) (k' : conf) : Prop :=
  forall s, at_conf k s -> exists s', m s = Done (s', a) /\ at_conf k' s'.

Lemma runs_ret {A} (a : A) k : runs (mret a) k a k.
Proof. intros s H. by exists s. Qed.
Lemma runs_bind {A B} (m : M A) (f : A -> M B) k a k' b k'' :
  runs m k a k' -> runs (f a) k' b k'' -> runs (m ≫= f) k b k''.
Proof.
  intros Hm Hf s H. destruct (Hm s H) as (s' & E & H'). destruct (Hf s' H') as (s'' & E' & H'').
  exists s''. unfold mbind, M_bind. by rewrite E.
Qed.
Lemma runs_to {A} (m : M A) k a k1 k2 : runs m k a k1 -> k1 = k2 -> runs m k a k2.
Proof. by intros H <-. Qed.
Lemma runs_gets {A} (f : Parser -> A) k a : (forall s, at_conf k s -> f s = a) -> runs (gets f) k a k.
Proof. intros Hf s H. exists s. unfold gets. by rewrite (Hf s H). Qed.
Lemma runs_lift {A} (r : outcome A) k a : r = Done a -> runs (lift r) k a k.
Proof. intros -> s H. by exists s. Qed.
(** Reading a part of the state, then going on. *)
Lemma runs_get {A B} (f : Parser -> A) (g : A -> M B) k a b k' :
  (forall s, at_conf k s -> f s = a) -> runs (g a) k b k' -> runs (gets f ≫= g) k b k'.
Proof. intros Hf Hg. eapply runs_bind; [by apply runs_gets|done]. Qed.
Lemma runs_ret_bind {A B} (x : A) (g : A -> M B) k b k' : runs (g x) k b k' -> runs (mret x ≫= g) k b k'.
Proof. intros H. eapply runs_bind; [apply runs_ret|done]. Qed.

Lemma runs_c0 {B} (g : Z -> M B) k b k' : runs (g (peek (c_text k))) k b k' -> runs (gets c0_ ≫= g) k b k'.
Proof. apply runs_get. intros s []. done. Qed.
Lemma runs_pc {B} (g : Z -> M B) k b k' : runs (g (pc_of (c_text k))) k b k' -> runs (gets pc_ ≫= g) k b k'.
Proof. apply runs_get. intros s []. done. Qed.
Lemma runs_captures {B} (g : Z -> M B) k b k' : runs (g (c_captures k)) k b k' -> runs (gets captureCount_ ≫= g) k b k'.
Proof. apply runs_get. intros s []. done. Qed.
Lemma runs_counters {B} (g : Z -> M B) k b k' : runs (g (c_counters k)) k b k' -> runs (gets stackCount_ ≫= g) k b k'.
Proof. apply runs_get. intros s []. done. Qed.
Lemma runs_error {B} (g : bool -> M B) k b k' : runs (g false) k b k' -> runs (gets isError_ ≫= g) k b k'.
Proof. apply runs_get. intros s []. done. Qed.
Lemma runs_rounds {B} (g : nat -> M B) k b k' :
  runs (g (S (S (length pattern + length tail)))) k b k' -> runs (gets rounds ≫= g) k b k'.
Proof. apply runs_get. intros s []. unfold rounds. by rewrite at_source0, length_app. Qed.
Lemma runs_code_size {B} (g : nat -> M B) k b k' :
  runs (g (length (c_code k))) k b k' -> runs (code_size ≫= g) k b k'.
Proof.
  intros H. eapply runs_bind; [|done]. unfold code_size. intros s Hs. exists s. split; [|done].
  destruct Hs. unfold gets, mbind, M_bind, mret, M_ret. by rewrite <- at_contents0, contents_length.
Qed.
Lemma runs_flag {B} (f : Z) (g : bool -> M B) k b k' :
  runs (g (flag flags f)) k b k' -> runs (has_flag f ≫= g) k b k'.
Proof. intros H. eapply runs_bind; [|done]. intros s Hs. exists s. destruct Hs. unfold has_flag, gets, mbind, M_bind. by rewrite at_flags0. Qed.

Lemma runs_counts {B} (x y : Z) (g : unit -> M B) k b k' :
  runs (g tt) (at_counts x y k) b k' -> runs (modify (set_counts x y) ≫= g) k b k'.
Proof. intros H. eapply runs_bind; [|done]. intros s []. eexists. split; [done|]. by split. Qed.

(** ** Reading *)
Lemma read_pattern (pre : list Z) (c : Z) (rest l : list Z) : read ((pre ++ c :: rest) ++ l) (length pre) = Done c.
Proof. unfold read. rewrite <- app_assoc, lookup_app_r, Nat.sub_diag by lia. done. Qed.

Lemma Advance_runs c text k : c_text k = c :: text -> runs Advance k tt (at_text text k).
Proof.
  intros Hk s H. pose proof H as [Hsrc He [pre Hr] Hp]. rewrite Hk in *. unfold pc_of in Hp.
  assert (Hlen : length pattern = (length pre + S (length text))%nat) by (rewrite Hr, length_app; done).
  rewrite Hlen in *. cbn [length] in *.
  assert (Hsuf : text `suffix_of` pattern) by (exists (pre ++ [c]); rewrite Hr, <- app_assoc; done).
  unfold Advance, gets, mbind, M_bind. rewrite Hp, He. destruct text as [|c' text].
  - rewrite (proj2 (Z.leb_gt _ _)) by (cbn; lia). eexists. split; [done|].
    split; cbn; try apply H; auto. unfold pc_of. rewrite Hlen. cbn. lia.
  - rewrite (proj2 (Z.leb_le _ _)) by (cbn; lia). unfold byte_at. rewrite (proj2 (Z.ltb_ge _ _)) by (cbn; lia).
    replace (Z.to_nat _) with (length (pre ++ [c])) by (rewrite length_app; cbn; lia).
    rewrite Hsrc, Hr. change (c :: c' :: text) with ([c] ++ c' :: text). rewrite (app_assoc pre), read_pattern. cbn.
    eexists. split; [done|]. split; cbn; try apply H; auto. unfold pc_of. rewrite Hlen. cbn. lia.
Qed.
Lemma runs_Advance {B} (g : unit -> M B) c text k b k' : c_text k = c :: text ->
  runs (g tt) (at_text text k) b k' -> runs (Advance ≫= g) k b k'.
Proof. intros Hk H. eapply runs_bind; [by eapply Advance_runs|done]. Qed.

(** ** Emission *)
Lemma with_code k s c code : at_conf k s -> wf c -> contents c = code -> at_conf (at_code code k) (set_buffer c s).
Proof. intros [] Hw Hc. by split. Qed.

Lemma emit_runs (i : Instr) f k : instr_ok i -> is_inserted i = false -> (forall c, f c = emit_instr i c) ->
  runs (emit f) k (length (c_code k ++ encode i)) (at_code (c_code k ++ encode i) k).
Proof.
  intros Hi Hn Hf s H. destruct (emit_instr_appended Halloc Hmem i (buffer_ s)) as (c & E & Hw & Hc); [apply H|done|done|].
  unfold emit. rewrite Hf, E. rewrite (at_contents _ _ H) in Hc. rewrite <- Hc, (contents_length c Hw).
  eexists. split; [done|]. by apply with_code.
Qed.
Lemma runs_emit {B} (i : Instr) f (g : unit -> M B) k b k' : instr_ok i -> is_inserted i = false ->
  (forall c, f c = emit_instr i c) -> runs (g tt) (at_code (c_code k ++ encode i) k) b k' ->
  runs (emit_ f ≫= g) k b k'.
Proof.
  intros Hi Hn Hf H. eapply runs_bind; [|exact H]. unfold emit_. eapply runs_bind; [by apply emit_runs|apply runs_ret].
Qed.

Lemma runs_insert {B} (i : Instr) f (g : unit -> M B) k b k' (pre body : list Z) : instr_ok i -> is_inserted i = true ->
  c_code k = pre ++ body -> body <> [] -> (forall c, f c = insert_instr i c (length pre)) ->
  runs (g tt) (at_code (pre ++ encode i ++ body) k) b k' -> runs (emit_ f ≫= g) k b k'.
Proof.
  intros Hi Hn Hk Hb Hf Hg. eapply runs_bind; [|exact Hg]. intros s H.
  pose proof (at_contents _ _ H) as Hc. rewrite Hk in Hc. pose proof (contents_length _ (at_buffer _ _ H)) as Hl.
  rewrite Hc, length_app in Hl.
  destruct (insert_instr_inserted Halloc Hmem i (buffer_ s) (length pre)) as (c & E & Hw & Hc');
    [apply H|destruct body; [done|cbn in Hl; lia]|done|done|].
  unfold emit_, emit, mbind, M_bind. rewrite Hf, E. eexists. split; [done|]. apply with_code; [done|done|].
  by rewrite Hc', Hc, take_app_length, drop_app_length.
Qed.

(** * Numbers and escapes *)
Lemma runs_suffix {A} (m : M A) k a k' : (c_text k `suffix_of` pattern -> runs m k a k') -> runs m k a k'.
Proof. intros H s Hs. apply H; [apply Hs|done]. Qed.

Lemma decimal_mono (ds : list Z) (acc : Z) : forallb digit ds = true -> 0 <= acc -> acc <= decimal acc ds.
Proof.
  revert acc. induction ds as [|d ds IH]; intros acc Hd Ha; cbn in *; [lia|]. apply andb_prop in Hd as [Hd Hds].
  unfold digit in Hd. specialize (IH (acc * 10 + (d - 48)) Hds). unfold decimal in *. lia.
Qed.

Lemma ParseDecimalDigits_loop_runs (fuel : nat) (ds : list Z) (acc : Z) (over : bool) text n m code :
  forallb digit ds = true -> digit (peek text) = false -> 0 <= acc <= INT32_MAX -> (length ds < fuel)%nat ->
  runs (ParseDecimalDigits_loop fuel acc over) (mkConf (ds ++ text) n m code)
    (if over then INT32_MAX else Z.min INT32_MAX (decimal acc ds)) (mkConf text n m code).
Proof.
  revert fuel acc over. induction ds as [|d ds IH]; intros [|fuel] acc over Hds Ht Ha Hf; cbn [length] in Hf; try lia;
    cbn [ParseDecimalDigits_loop app].
  - apply runs_c0. cbn [c_text]. unfold digit in Ht.
    replace ((peek text <? 48) || (peek text >? 57)) with true by lia.
    cbn. rewrite Z.min_r by lia. apply runs_ret.
  - cbn in Hds. apply andb_prop in Hds as [Hd Hds]. pose proof Hd as Hd'. unfold digit in Hd'.
    apply runs_c0. cbn [c_text peek]. replace ((d <? 48) || (d >? 57)) with false by lia.
    eapply runs_Advance; [done|]. cbn [at_text c_captures c_counters c_code].
    destruct over; [by apply (IH fuel acc true); auto with lia|]. unfold DECIMAL_DIGITS_ADVANCE.
    pose proof (decimal_mono ds (acc * 10 + (d - 48)) Hds ltac:(lia)). cbn [decimal foldl]. fold (decimal (acc * 10 + (d - 48)) ds).
    pose proof (Z.div_mod (INT32_MAX - d + 48) 10 ltac:(done)). pose proof (Z.mod_pos_bound (INT32_MAX - d + 48) 10 ltac:(done)).
    destruct (Z.gtb_spec acc ((INT32_MAX - d + 48) / 10)) as [Hbig|Hsmall].
    + rewrite Z.min_l by (lia). apply (IH fuel acc true); auto with lia.
    + assert (acc * 10 + (d - 48) <= INT32_MAX) by (lia).
      rewrite wrapu_id by (unfold in_u; lia).
      replace (acc * 10 + d - 48) with (acc * 10 + (d - 48)) by lia. apply (IH fuel _ false); auto; lia.
Qed.

Lemma ParseDecimalDigits_runs (ds : list Z) text n m code : forallb digit ds = true -> digit (peek text) = false ->
  runs ParseDecimalDigits (mkConf (ds ++ text) n m code) (number ds) (mkConf text n m code).
Proof.
  intros Hds Ht. apply runs_suffix. cbn [c_text]. intros Hs%suffix_length. rewrite length_app in Hs.
  apply runs_rounds. apply (ParseDecimalDigits_loop_runs _ ds 0 false); [done|done|done|lia].
Qed.

Lemma ParseHexEscape_loop_runs (hs : list Z) (start val : Z) text n m code : forallb hex_digit hs = true ->
  runs (ParseHexEscape_loop (length hs) start val) (mkConf (hs ++ text) n m code)
    (Some (foldl (fun v h => u32 (v * 16 + HexValue h)) val hs)) (mkConf text n m code).
Proof.
  revert val. induction hs as [|h hs IH]; intros val Hh; cbn [length ParseHexEscape_loop app]; [apply runs_ret|].
  cbn in Hh. apply andb_prop in Hh as [Hh Hhs]. unfold hex_digit in Hh. apply runs_c0. cbn [c_text peek].
  rewrite wraps_id by (unfold in_s; lia). replace (HexValue h <? 0) with false by lia.
  eapply runs_Advance; [done|]. cbn [foldl]. rewrite (wrapu_id 32 (HexValue h)) by (unfold in_u; lia). apply (IH _ Hhs).
Qed.
Lemma hex_fold (hs : list Z) (k : nat) (v : Z) : forallb hex_digit hs = true -> 0 <= v < 16 ^ Z.of_nat k ->
  (k + length hs <= 7)%nat ->
  let r := foldl (fun v h => v * 16 + HexValue h) v hs in
  foldl (fun v h => u32 (v * 16 + HexValue h)) v hs = r /\ 0 <= r < 16 ^ Z.of_nat (k + length hs).
Proof.
  revert k v. induction hs as [|h hs IH]; intros k v Hh Hv Hk; cbn [length foldl] in *; [by rewrite Nat.add_0_r|].
  cbn in Hh. apply andb_prop in Hh as [Hh Hhs]. unfold hex_digit in Hh.
  assert (Hn : 0 <= v * 16 + HexValue h < 16 ^ Z.of_nat (S k)) by (rewrite Nat2Z.inj_succ, Z.pow_succ_r; lia).
  assert (16 ^ Z.of_nat (S k) <= 16 ^ 7) by (apply Z.pow_le_mono_r; lia).
  rewrite wrapu_id by (unfold in_u; lia). replace (k + S (length hs))%nat with (S k + length hs)%nat by lia.
  apply IH; auto. lia.
Qed.
Lemma ParseHexEscape_runs (hs : list Z) text n m code : forallb hex_digit hs = true -> (length hs <= 4)%nat ->
  runs (ParseHexEscape (length hs)) (mkConf (hs ++ text) n m code) (Some (hex_value hs)) (mkConf text n m code).
Proof.
  intros Hh Hl. unfold hex_value. destruct (hex_fold hs 0 0 Hh) as [<- _]; [done|lia|].
  apply runs_pc. by apply ParseHexEscape_loop_runs.
Qed.

Lemma escape_value_bound (e : escape) : escape_ok flags e = true -> 0 <= escape_value e < 65536.
Proof.
  destruct e as [c|c|c|h l|a b c d]; cbn [escape_ok escape_value]; intros H; [repeat case_match; lia| | | |].
  - change 31 with (Z.ones 5). rewrite Z.land_ones by lia.
    pose proof (Z.mod_pos_bound c (2 ^ 5)). lia.
  - members H; lia.
  - destruct (hex_fold [h; l] 0 0) as [_ Hb]; [cbn; by rewrite andb_true_r|done|cbn; lia|]. unfold hex_value. cbn in *. lia.
  - destruct (hex_fold [a; b; c; d] 0 0) as [_ Hb]; [cbn [forallb]; rewrite !andb_true_iff in *; tauto|done|cbn; lia|]. exact Hb.
Qed.

Lemma ParseCharacterEscape_runs (e : escape) text n m code : escape_ok flags e = true ->
  runs ParseCharacterEscape (mkConf (print_escape e ++ text) n m code) (escape_value e) (mkConf text n m code).
Proof.
  intros He. pose proof (escape_value_bound e He) as Hv. unfold ParseCharacterEscape. apply runs_c0. apply runs_flag.
  destruct e as [c|c|c|h l|a b c d]; cbn [escape_ok escape_value print_escape app c_text peek] in *.
  - members He; subst c; cbn; (eapply runs_Advance; [done|apply runs_ret]).
  - cbn. eapply runs_Advance; [done|]. apply runs_c0. cbn [c_text at_text peek]. rewrite He.
    eapply runs_Advance; [done|apply runs_ret].
  - assert (Hc : runs (Advance;; mret c) (mkConf (c :: text) n m code) c (mkConf text n m code))
      by (eapply runs_Advance; [done|apply runs_ret]).
    rewrite He. members He; subst c; exact Hc.
  - cbn [Z.eqb]. eapply runs_Advance; [done|].
    eapply runs_bind; [apply (ParseHexEscape_runs [h; l]); cbn; [by rewrite andb_true_r|lia]|]. cbv beta iota.
    rewrite wraps_id by (unfold in_s; lia). apply runs_ret.
  - assert (Hu : utf16 flags = false) by (apply andb_prop in He as [_ He]; by destruct (utf16 flags)). fold (utf16 flags). rewrite Hu.
    eapply runs_Advance; [done|]. eapply runs_bind.
    { unfold ParseUnicodeEscape. apply runs_c0. apply runs_flag. fold (utf16 flags). rewrite Hu, andb_false_r.
      eapply runs_bind; [apply (ParseHexEscape_runs [a; b; c; d]); [cbn [forallb]; rewrite !andb_true_iff in *; tauto|cbn; lia]|].
      apply runs_c0. apply runs_ret. }
    cbv beta iota. rewrite wraps_id by (unfold in_s; lia). apply runs_ret.
Qed.

(** * Atoms that are not groups *)
Lemma bytes_app (x y : list Instr) : bytes (x ++ y) = bytes x ++ bytes y.
Proof. apply bind_app. Qed.
Lemma bytes_cons (i : Instr) (x : list Instr) : bytes (i :: x) = encode i ++ bytes x.
Proof. done. Qed.
Lemma bytes_one (i : Instr) : bytes [i] = encode i.
Proof. apply app_nil_r. Qed.

Lemma runs_prev {B} (back : bool) (g : unit -> M B) k b k' :
  runs (g tt) (at_code (c_code k ++ bytes (if back then [RegExpOpCode.Prev] else [])) k) b k' ->
  runs (when back emit_prev ≫= g) k b k'.
Proof.
  intros H. destruct back; cbn [when].
  - by eapply (runs_emit RegExpOpCode.Prev); [constructor| | |exact H].
  - rewrite app_nil_r in H. destruct k. by apply runs_ret_bind.
Qed.

Lemma stepping_ok (back : bool) (i : Instr) : Forall instr_ok (stepping back i) -> instr_ok i.
Proof. destruct back; cbn; intros H; by repeat (apply Forall_cons in H as [? H]). Qed.
Lemma bytes_stepping (back : bool) (i : Instr) (code : list Z) :
  ((code ++ bytes (if back then [RegExpOpCode.Prev] else [])) ++ encode i) ++ bytes (if back then [RegExpOpCode.Prev] else []) =
  code ++ bytes (stepping back i).
Proof.
  rewrite <- !app_assoc, <- (bytes_one i), <- !bytes_app. by destruct back.
Qed.

Lemma runs_canonical {B} (c : Z) (g : Z -> M B) k b k' :
  runs (g (if ignore_case flags then RegExpExecutor.Canonicalize c (utf16 flags) else c)) k b k' ->
  runs (canonical c ≫= g) k b k'.
Proof.
  intros H. eapply runs_bind; [|exact H]. unfold canonical. apply runs_flag. fold (ignore_case flags).
  destruct (ignore_case flags); [|apply runs_ret].
  eapply runs_bind; [apply runs_flag; apply runs_ret|]. cbv beta. apply runs_ret.
Qed.

Lemma ParsePatternCharacter_runs (back : bool) (c : Z) text n m code : plain c = true ->
  Forall instr_ok (compile_simple flags back (Literal c)) ->
  runs (ParsePatternCharacter back) (mkConf (c :: text) n m code) tt
    (mkConf text n m (code ++ bytes (compile_simple flags back (Literal c)))).
Proof.
  intros Hp Hi. unfold plain in Hp. apply stepping_ok in Hi. unfold ParsePatternCharacter. apply runs_prev. apply runs_c0.
  cbn [c_text at_code peek]. replace (c >? INT8_MAX + 1) with false by lia. apply runs_ret_bind.
  apply runs_canonical. rewrite wraps_id by (unfold in_s; lia). cbv zeta.
  eapply runs_emit; [exact Hi|unfold char_instr; by destruct (_ >? _)|intros ch; unfold char_instr; by destruct (_ >? _)|].
  apply runs_prev. cbn [at_code c_code c_text c_captures c_counters]. rewrite bytes_stepping.
  eapply Advance_runs. done.
Qed.

Lemma emit_class_runs (back : bool) (i : Instr) f c text n m code : Forall instr_ok (stepping back i) -> is_inserted i = false ->
  (forall ch, f ch = emit_instr i ch) ->
  runs (emit_class back f) (mkConf (c :: text) n m code) tt (mkConf text n m (code ++ bytes (stepping back i))).
Proof.
  intros Hi%stepping_ok Hn Hf. unfold emit_class. apply runs_prev. eapply runs_emit; [exact Hi|done|done|]. apply runs_prev.
  cbn [at_code c_code c_text c_captures c_counters]. rewrite bytes_stepping. eapply Advance_runs. done.
Qed.

Lemma Invert_class (u : bool) (k : charclass) : exists l, RangeSet.Invert u (class_set k) = Done l.
Proof. destruct u, k; eexists; vm_compute; reflexivity. Qed.

Lemma runs_invert {B} (k : charclass) (g : RangeSet.t -> M B) c b c' :
  runs (g (match RangeSet.Invert (utf16 flags) (class_set k) with Done l => l | _ => [] end)) c b c' ->
  runs (invert_if true (class_set k) ≫= g) c b c'.
Proof.
  intros H. eapply runs_bind; [|exact H]. unfold invert_if. apply runs_flag. fold (utf16 flags). apply runs_lift.
  by destruct (Invert_class (utf16 flags) k) as [l ->].
Qed.

Lemma ParseAtomEscape_class_runs (back negated : bool) (k : charclass) text n m code :
  Forall instr_ok (stepping back (class_instr flags k negated)) ->
  runs (ParseAtomEscape back) (mkConf (class_letter k negated :: text) n m code) (-1)
    (mkConf text n m (code ++ bytes (stepping back (class_instr flags k negated)))).
Proof.
  intros Hi. apply runs_c0. destruct k, negated; cbn [class_letter c_text peek]; eapply runs_bind;
    try apply runs_ret; cbn -[emit_class emit_inverse].
  all: try (apply emit_class_runs; [exact Hi|done|done]).
  - apply (runs_invert Digit). by apply emit_class_runs.
  - apply (runs_invert Space). by apply emit_class_runs.
  - apply (runs_invert Word). by apply emit_class_runs.
Qed.

Lemma ParseEscapedAtom_runs (back : bool) (e : escape) text n m code :
  escape_ok flags e && negb (ignore_case flags && utf16 flags) = true ->
  Forall instr_ok (compile_simple flags back (Escaped e)) ->
  runs (ParseEscapedAtom back) (mkConf (print_escape e ++ text) n m code) tt
    (mkConf text n m (code ++ bytes (compile_simple flags back (Escaped e)))).
Proof.
  intros [He Hf]%andb_prop Hi. pose proof (escape_value_bound e He) as Hv. cbn [compile_simple] in *.
  apply Forall_cons in Hi as [Hi _]. unfold ParseEscapedAtom. eapply runs_bind.
  { unfold ParseAtomEscape. apply runs_c0.
    assert (Hr := ParseCharacterEscape_runs e text n m code He).
    destruct e as [c|c|c|h l|a b c d]; cbn [escape_ok] in He; cbn [print_escape app c_text peek] in *;
      [members He; subst c; exact Hr|exact Hr|members He; subst c; exact Hr|exact Hr|exact Hr]. }
  cbv beta. replace (escape_value e =? -1) with false by lia. apply runs_flag. apply runs_flag.
  fold (ignore_case flags) (utf16 flags). rewrite (negb_true_iff _) in Hf. rewrite Hf.
  unfold emit_char. rewrite bytes_one. set (v := if ignore_case flags then _ else _) in *.
  eapply runs_bind; [apply emit_runs; [exact Hi| |]|apply runs_ret]; [|intros ch]; by destruct (v <=? UINT16_MAX).
Qed.

Lemma ParseAtomEscape_reference_runs (back : bool) (ds : list Z) text n m code :
  simple_ok flags n (Reference ds) = true -> digit (peek text) = false ->
  Forall instr_ok (compile_simple flags back (Reference ds)) ->
  runs (ParseAtomEscape back) (mkConf (ds ++ text) n m code) (-1)
    (mkConf text n m (code ++ bytes (compile_simple flags back (Reference ds)))).
Proof.
  cbn [simple_ok compile_simple]. intros Hok Ht Hi. apply Forall_cons in Hi as [Hi _].
  apply andb_prop in Hok as [[Hd Hds]%andb_prop Hn]. unfold ParseAtomEscape. apply runs_c0. cbn [c_text].
  destruct ds as [|d ds]; [done|]. assert (Hd' : digit d = true) by (cbn in Hds; by apply andb_prop in Hds as [? _]).
  unfold digit in Hd'. cbn [app peek]. replace (d =? KEY_EOF) with false by (unfold KEY_EOF; lia).
  replace ((d >=? 49) && (d <=? 57)) with true by lia.
  eapply runs_bind; [by apply (ParseDecimalDigits_runs (d :: ds))|]. cbv beta.
  apply runs_captures. cbn [c_captures]. replace (number (d :: ds) >? n - 1) with false by lia. apply runs_ret_bind.
  eapply runs_bind; [|apply runs_ret]. unfold emit_reference. rewrite bytes_one.
  assert (u32 (number (d :: ds)) = number (d :: ds)) as ->.
  { apply wrapu_id. unfold in_u. pose proof (decimal_mono (d :: ds) 0 Hds). unfold number. lia. }
  eapply runs_bind; [apply emit_runs; [exact Hi| |]|apply runs_ret]; by destruct back.
Qed.

Lemma runs_ParseSimpleTerm_escape (back : bool) c text n m code a k' : c <> 98 -> c <> 66 ->
  runs (ParseEscapedAtom back) (mkConf (c :: text) n m code) a k' ->
  runs (ParseSimpleTerm back) (mkConf (92 :: c :: text) n m code) (Atom 0) k'.
Proof.
  intros H1 H2 H. unfold ParseSimpleTerm. apply runs_c0. cbn -[ParseEscapedAtom].
  eapply runs_Advance; [done|]. apply runs_c0. cbn [c_text at_text peek].
  replace (c =? 98) with false by lia. replace (c =? 66) with false by lia.
  eapply runs_bind; [exact H|apply runs_ret].
Qed.

Lemma runs_escaped {k : conf} (back : bool) k' : runs (ParseAtomEscape back) k (-1) k' -> runs (ParseEscapedAtom back) k tt k'.
Proof. intros H. unfold ParseEscapedAtom. eapply runs_bind; [exact H|apply runs_ret]. Qed.

Lemma plain_cases (c : Z) : plain c = true -> 0 <= c < 128 /\
  Forall (fun d => (c =? d) = false) [36; 40; 41; 42; 43; 46; 63; 91; 92; 93; 94; 123; 124; 125].
Proof.
  intros H. unfold plain in H. apply andb_prop in H as [H Hn]. apply negb_true_iff, bool_decide_eq_false in Hn.
  split; [lia|]. apply Forall_forall. intros d Hd. apply Z.eqb_neq. by intros ->.
Qed.

Lemma simple_runs (back : bool) (x : simple) text n m code :
  simple_ok flags n x = true -> apart x text = true -> Forall instr_ok (compile_simple flags back x) ->
  runs (ParseSimpleTerm back) (mkConf (print_simple x ++ text) n m code) (Atom 0)
    (mkConf text n m (code ++ bytes (compile_simple flags back x))).
Proof.
  intros Hok Ha Hi. destruct x as [c| |k negated|e|ds]; cbn [print_simple app].
  - unfold ParseSimpleTerm. apply runs_c0. cbn [c_text peek]. pose proof (plain_cases c Hok) as [Hc Hs].
    repeat (apply Forall_cons in Hs as [E Hs]; rewrite ?E; clear E). cbn [orb].
    eapply runs_bind; [by apply ParsePatternCharacter_runs|apply runs_ret].
  - unfold ParseSimpleTerm. apply runs_c0. cbn -[ParsePatternCharacter compile_simple]. apply runs_flag.
    eapply runs_bind; [|apply runs_ret].
    apply (emit_class_runs back (if flag flags FLAG_DOTALL then All else Dots)); [done|by case_match|by case_match].
  - apply runs_ParseSimpleTerm_escape with tt; [by destruct k, negated|by destruct k, negated|].
    by apply runs_escaped, ParseAtomEscape_class_runs.
  - pose proof (ParseEscapedAtom_runs back e text n m code Hok Hi) as Hr.
    pose proof Hok as Hok'. cbn [simple_ok] in Hok'. destruct e as [c|c|c|h l|a b c d];
      (apply runs_ParseSimpleTerm_escape with tt; [..|exact Hr]); try done;
      apply andb_prop in Hok' as [He _]; cbn [escape_ok] in He; members He; subst c; done.
  - cbn [apart] in Ha. destruct ds as [|d ds]; [done|].
    apply runs_ParseSimpleTerm_escape with tt; cbn [simple_ok forallb] in Hok; unfold digit in Hok; [lia|lia|].
    apply runs_escaped. apply (ParseAtomEscape_reference_runs back (d :: ds)); [done|by destruct text; [|apply negb_true_iff]|done].
Qed.

Lemma assertion_runs (back : bool) (k : assertion) text n m code :
  runs (ParseSimpleTerm back) (mkConf (print_assertion k ++ text) n m code) Assertion
    (mkConf text n m (code ++ encode (assertion_instr k))).
Proof.
  unfold ParseSimpleTerm. apply runs_c0. destruct k; cbn.
  - eapply (runs_emit LineStart); [constructor|done|done|]. eapply runs_Advance; [done|apply runs_ret].
  - eapply (runs_emit LineEnd); [constructor|done|done|]. eapply runs_Advance; [done|apply runs_ret].
  - eapply runs_Advance; [done|]. apply runs_c0. cbn.
    eapply (runs_emit WordBoundary); [constructor|done|done|]. eapply runs_Advance; [done|apply runs_ret].
  - eapply runs_Advance; [done|]. apply runs_c0. cbn.
    eapply (runs_emit NotWordBoundary); [constructor|done|done|]. eapply runs_Advance; [done|apply runs_ret].
Qed.

(** * Quantifiers *)
Lemma number_bound (ds : list Z) : forallb digit ds = true -> 0 <= number ds <= INT32_MAX.
Proof. intros H. pose proof (decimal_mono ds 0 H). unfold number. lia. Qed.

Lemma ParserIntervalQuantifier_runs (q : quantifier) text n m code : quantifier_ok q = true ->
  match q with Star | Plus | Optional => False | _ => True end ->
  runs ParserIntervalQuantifier (mkConf (print_quantifier q ++ text) n m code)
    (true, fst (bounds q), snd (bounds q)) (mkConf text n m code).
Proof.
  intros Hq Hi. unfold ParserIntervalQuantifier.
  destruct q as [| | |lo|lo|lo hi]; try done; cbn [quantifier_ok print_quantifier bounds fst snd] in *; cbn [app];
    (eapply runs_Advance; [done|]); cbn [at_text c_captures c_counters c_code]; rewrite <- ?app_assoc; cbn [app].
  - eapply runs_bind; [by apply ParseDecimalDigits_runs|]. cbv beta. apply runs_c0. cbn [c_text peek Z.eqb].
    eapply runs_Advance; [done|]. apply runs_ret.
  - eapply runs_bind; [by apply ParseDecimalDigits_runs|]. cbv beta. apply runs_c0. cbn.
    eapply runs_Advance; [done|]. apply runs_c0. cbn. eapply runs_Advance; [done|]. apply runs_ret.
  - apply andb_prop in Hq as [[[Hlo Hhi]%andb_prop Hne]%andb_prop Hle].
    eapply runs_bind; [by apply ParseDecimalDigits_runs|]. cbv beta. apply runs_c0. cbn [c_text peek Z.eqb].
    eapply runs_Advance; [done|]. apply runs_c0. destruct hi as [|h hi]; [done|].
    cbn [at_text c_text app peek c_captures c_counters c_code].
    replace (h =? 125) with false by (cbn in Hhi; unfold digit in Hhi; lia).
    rewrite <- app_assoc. cbn [app].
    eapply runs_bind; [by apply (ParseDecimalDigits_runs (h :: hi))|]. cbv beta. apply runs_c0. cbn [c_text peek Z.eqb].
    eapply runs_Advance; [done|]. apply runs_ret.
Qed.

Lemma bounds_ok (q : quantifier) : quantifier_ok q = true -> 0 <= fst (bounds q) <= snd (bounds q) /\ snd (bounds q) <= INT32_MAX.
Proof.
  destruct q as [| | |lo|lo|lo hi]; cbn [quantifier_ok bounds fst snd]; intros Hq; try lia;
    [pose proof (number_bound lo Hq); lia|pose proof (number_bound lo Hq); lia|].
  apply andb_prop in Hq as [[[Hlo Hhi]%andb_prop Hne]%andb_prop Hle].
  pose proof (number_bound lo Hlo). pose proof (number_bound hi Hhi). lia.
Qed.

Lemma ParseQuantifierPrefix_runs (q : quantifier) text n m code : quantifier_ok q = true ->
  runs ParseQuantifierPrefix (mkConf (print_quantifier q ++ text) n m code) (Some (Some (bounds q))) (mkConf text n m code).
Proof.
  intros Hq. unfold ParseQuantifierPrefix. apply runs_c0.
  assert (Hinterval : match q with Star | Plus | Optional => False | _ => True end ->
    runs (pc ← gets pc_; r ← ParserIntervalQuantifier; let '(ok, min, max) := r in
          if negb ok then back_to (pc - 1);; mret None
          else if min >? max then ParseError "Invalid repetition count";; mret None else mret (Some (Some (min, max))))
      (mkConf (print_quantifier q ++ text) n m code) (Some (Some (bounds q))) (mkConf text n m code)).
  { intros Hi. apply runs_pc. eapply runs_bind; [by apply ParserIntervalQuantifier_runs|]. cbn [negb].
    pose proof (bounds_ok q Hq). replace (fst (bounds q) >? snd (bounds q)) with false by lia.
    rewrite <- surjective_pairing. apply runs_ret. }
  destruct q; try (by apply Hinterval); cbn; (eapply runs_Advance; [done|]); apply runs_ret.
Qed.

Lemma runs_when {B} (b : bool) (m : M unit) (g : unit -> M B) k k1 a k' :
  (b = true -> runs m k tt k1) -> (b = false -> k1 = k) -> runs (g tt) k1 a k' -> runs (when b m ≫= g) k a k'.
Proof. intros Ht Hf H. destruct b; cbn [when]; [eapply runs_bind; [by apply Ht|done]|]. apply runs_ret_bind. by rewrite <- Hf. Qed.
Lemma runs_emit_last (i : Instr) f k : instr_ok i -> is_inserted i = false -> (forall c, f c = emit_instr i c) ->
  runs (emit_ f) k tt (at_code (c_code k ++ encode i) k).
Proof. intros Hi Hn Hf. eapply runs_bind; [by apply emit_runs|apply runs_ret]. Qed.
Lemma runs_insert_last (i : Instr) f k (pre body : list Z) : instr_ok i -> is_inserted i = true ->
  c_code k = pre ++ body -> body <> [] -> (forall c, f c = insert_instr i c (length pre)) ->
  runs (emit_ f) k tt (at_code (pre ++ encode i ++ body) k).
Proof.
  intros Hi Hn Hk Hb Hf s Hs.
  destruct (runs_insert i f (fun _ => mret tt) k tt _ pre body Hi Hn Hk Hb Hf (runs_ret tt _) s Hs) as (s' & E & H').
  exists s'. split; [|done]. unfold mbind, M_bind in E. destruct (emit_ f s) as [[s'' []]| |]; [exact E|done|done].
Qed.
Lemma bytes_nonempty (x : list Instr) : x <> [] -> bytes x <> [].
Proof. by destruct x. Qed.

Lemma instr_ok_loop (i : Instr) (a b c : Z) : 0 <= a < 2 ^ 32 -> 0 <= b < 2 ^ 32 -> 0 <= c < 2 ^ 32 ->
  i = Loop a b c \/ i = LoopGreedy a b c -> instr_ok i.
Proof. intros Ha Hb Hc [-> | ->]; repeat constructor; cbn; lia. Qed.

(** The body of a repetition: the captures it resets, the position it saves. *)
Definition resetting (first last : Z) : list Instr := if first =? 0 then [] else [SaveReset first last].
Lemma runs_reset {B} first last (pre : list Z) (x : list Instr) (g : unit -> M B) text n m b k' :
  x <> [] -> Forall instr_ok (resetting first last) ->
  runs (g tt) (mkConf text n m (pre ++ bytes (resetting first last ++ x))) b k' ->
  runs (when (negb (first =? 0))
          (emit_ (fun c => SaveResetOpCode_InsertOpCode c (length pre) (u32 first) (u32 last))) ≫= g)
    (mkConf text n m (pre ++ bytes x)) b k'.
Proof.
  intros Hx Hok. unfold resetting in *. apply runs_when; destruct (first =? 0); try done. intros _.
  apply Forall_cons in Hok as [Hr _]. cbn [app]. rewrite bytes_cons.
  eapply (runs_insert_last (SaveReset first last)); [done|done|done|by apply bytes_nonempty|]. intros c. cbn [insert_instr].
  assert (Hab : fits (1%nat, first) /\ fits (1%nat, last)) by (by inversion Hr as [|?? ? Hr2]; inversion Hr2).
  rewrite !wrapu_id; [done|unfold in_u, fits in *; cbn in Hab; lia..].
Qed.

Definition tracking (unbounded : bool) (x : list Instr) : list Instr :=
  (if unbounded then [PushChar] else []) ++ x ++ (if unbounded then [CheckChar 13] else []).
Lemma runs_track {B} (unbounded : bool) captures (pre : list Z) (x : list Instr) (g : unit -> M B) text m b k' :
  x <> [] ->
  runs (g tt) (mkConf text captures (m + Z.b2z unbounded) (pre ++ bytes (tracking unbounded x))) b k' ->
  runs (when unbounded
          (stack ← gets stackCount_;
           modify (set_counts captures (stack + 1));;
           emit_ (fun c => PushCharOpCode_InsertOpCode c (length pre));;
           emit_ (fun c => CheckCharOpCode_EmitOpCode c (Z.of_nat (size_of OP_LOOP)))) ≫= g)
    (mkConf text captures m (pre ++ bytes x)) b k'.
Proof.
  intros Hx. unfold tracking. apply runs_when; destruct unbounded; try done; intros _.
  - apply runs_counters. apply runs_counts.
    eapply (runs_insert PushChar _ _ _ _ _ pre (bytes x)); [constructor|done|done|by apply bytes_nonempty|done|].
    cbn [Z.b2z app]. rewrite bytes_cons, bytes_app, bytes_one, !app_assoc.
    apply (runs_emit_last (CheckChar 13)); [repeat constructor; cbn; lia|done|done].
  - cbn [Z.b2z app]. by rewrite app_nil_r, Z.add_0_r.
Qed.

Lemma emit_quantifier_runs first last min max (greedy : bool) (x : list Instr) pre text n m :
  x <> [] -> 0 <= min <= max -> max <= INT32_MAX -> Forall instr_ok (repeated first last (min, max) greedy x) ->
  runs (emit_quantifier (length pre) first last min max greedy) (mkConf text n m (pre ++ bytes x)) tt
    (mkConf text n (m + (1 + Z.b2z (max =? INT32_MAX))) (pre ++ bytes (repeated first last (min, max) greedy x))).
Proof.
  intros Hx Hmin Hmax Hok. unfold emit_quantifier. cbn [repeated] in *. fold (resetting first last) in *.
  rewrite (app_assoc (resetting first last)) in *. fold (tracking (max =? INT32_MAX) (resetting first last ++ x)) in *.
  set (body := tracking _ _) in *. apply Forall_cons in Hok as [Hpush Hok]. apply Forall_app in Hok as [Hsplit Hok].
  apply Forall_app in Hok as [Hbody Hend]. apply Forall_cons in Hend as [Hloop [Hpop _]%Forall_cons].
  assert (Hrx : resetting first last ++ x <> []) by (by intros [_ E]%app_nil).
  assert (Hne : body <> []) by (by intros [_ [E _]%app_nil]%app_nil).
  apply runs_captures. apply runs_counters. apply runs_counts. cbn [c_captures c_counters at_counts c_text c_code].
  eapply (runs_insert Push _ _ _ _ _ pre (bytes x)); [done|done|done|by apply bytes_nonempty|done|].
  cbn [at_code c_text c_captures c_counters]. replace (length pre + size_of OP_PUSH)%nat with (length (pre ++ encode Push))
    by (rewrite length_app; done). rewrite app_assoc. cbv zeta. apply runs_reset; [done| |].
  { unfold body, tracking in Hbody. rewrite !Forall_app in Hbody. tauto. }
  apply runs_track; [done|]. fold body. apply runs_code_size. cbn [c_code].
  change (Z.of_nat (size_of OP_LOOP)) with 13.
  replace (Z.of_nat (length (pre ++ encode Push)) - Z.of_nat (length ((pre ++ encode Push) ++ bytes body)) - 13)
    with (- len body - 13) by (unfold len; rewrite (length_app (_ ++ _)); lia). rewrite !(wrapu_id 32 min), !(wrapu_id 32 max) by (unfold in_u; lia).
  eapply runs_emit; [exact Hloop|by destruct greedy|by destruct greedy|]. apply runs_code_size.
  cbn [at_code c_text c_captures c_counters c_code].
  set (loop := (if greedy then LoopGreedy else Loop) _ _ _) in *.
  assert (Hl : length (encode loop) = 13%nat) by (unfold loop; by destruct greedy).
  replace (Z.of_nat _ - Z.of_nat _) with (len body + 13) by (unfold len; rewrite !length_app, Hl; lia).
  rewrite <- (app_assoc (pre ++ encode Push)), <- (bytes_one loop), <- bytes_app.
  eapply (runs_when _ _ _ _ (mkConf text n _ ((pre ++ encode Push) ++
    bytes ((if min =? 0 then [(if greedy then SplitNext else SplitFirst) (len body + 13)] else []) ++ body ++ [loop])))).
  - intros E. rewrite E in *. apply Forall_cons in Hsplit as [Hsplit _]. cbn [app]. rewrite bytes_cons.
    eapply runs_insert_last; [exact Hsplit|by destruct greedy|done|apply bytes_nonempty; by destruct body|].
    assert (u32 (len body + 13) = len body + 13) as -> by (apply wrapu_id; destruct greedy; by inversion Hsplit).
    by destruct greedy.
  - by intros ->.
  - replace (m + (1 + Z.b2z (max =? INT32_MAX))) with (m + 1 + Z.b2z (max =? INT32_MAX)) by lia.
    change [loop; Pop] with ([loop] ++ [Pop]).
    eapply runs_to; [apply (runs_emit_last Pop); done|]. cbn [at_code c_text c_captures c_counters c_code at_counts].
    f_equal. by rewrite bytes_cons, !bytes_app, !bytes_one, !app_assoc.
Qed.

(** Nothing that could be taken for a quantifier. *)
Definition no_quantifier (text : list Z) : Prop :=
  Forall (fun d => (peek text =? d) = false) [42; 43; 63; 123].
Definition quantified (first last : Z) (q : option (quantifier * bool)) (x : list Instr) : list Instr :=
  match q with Some (q, greedy) => repeated first last (bounds q) greedy x | None => x end.

Lemma ParseQuantifier_runs first last q (x : list Instr) pre text n m :
  suffix_ok q = true -> no_quantifier text -> (q <> None -> x <> []) ->
  Forall instr_ok (quantified first last q x) ->
  runs (ParseQuantifier (length pre) first last) (mkConf (print_suffix q ++ text) n m (pre ++ bytes x)) tt
    (mkConf text n (m + counters_of q) (pre ++ bytes (quantified first last q x))).
Proof.
  unfold no_quantifier. rewrite !Forall_cons. intros Hq (E42 & E43 & E63 & E123 & _) Hx Hi. unfold ParseQuantifier.
  destruct q as [[q greedy]|]; cbn [print_suffix suffix_ok quantified counters_of] in *.
  - rewrite <- app_assoc. eapply runs_bind; [by apply ParseQuantifierPrefix_runs|]. apply runs_c0. cbv zeta.
    pose proof (bounds_ok q Hq) as [Hb1 Hb2]. destruct (bounds q) as [min max] eqn:Eb. cbn [fst snd c_text] in *.
    replace (negb (min =? -1) && negb (max =? -1)) with true by lia.
    assert (He := fun text => emit_quantifier_runs first last min max greedy x pre text n m (Hx ltac:(done)) Hb1 Hb2 Hi).
    destruct greedy; cbn [app].
    + rewrite E42, E43, E63, E123. apply He.
    + cbn [peek]. eapply runs_Advance; [done|]. apply He.
  - eapply runs_bind; [|].
    { unfold ParseQuantifierPrefix. apply runs_c0. cbn [app c_text]. rewrite E42, E43, E63, E123. apply runs_ret. }
    apply runs_c0. cbn [app c_text]. rewrite E42, E43, E63, E123, Z.add_0_r. apply runs_ret.
Qed.

(** * Lookbehinds *)
Lemma move_bytes (pre done x rest : list Z) : (length x <= length rest)%nat ->
  (data ← load (pre ++ (done ++ x) ++ rest) (length pre) (length (done ++ x));
   buf ← store (pre ++ (done ++ x) ++ rest) (length pre + length x) data;
   data ← load buf (length pre + length (done ++ x)) (length x); store buf (length pre) data) =
  Done (pre ++ x ++ done ++ x ++ drop (length x) rest).
Proof.
  intros Hr. rewrite load_app. cbn [mbind outcome_bind].
  set (l := (done ++ x) ++ take (length x) rest).
  assert (Hl : length l = (length x + length (done ++ x))%nat)
    by (unfold l; rewrite length_app, length_take; lia).
  assert (pre ++ (done ++ x) ++ rest = (pre ++ take (length x) l) ++ drop (length x) l ++ drop (length x) rest) as ->.
  { rewrite <- (app_assoc pre (take _ l)), (app_assoc (take _ l)), take_drop. unfold l.
    by rewrite <- (app_assoc (done ++ x)), take_drop. }
  replace (length pre + length x)%nat with (length (pre ++ take (length x) l)) by (rewrite length_app, length_take; lia).
  rewrite store_app by (rewrite length_drop; lia). cbn [mbind outcome_bind].
  replace (length pre + length (done ++ x))%nat with (length ((pre ++ take (length x) l) ++ done))
    by (rewrite !length_app, length_take; rewrite length_app in Hl; lia).
  rewrite <- (app_assoc done), (app_assoc _ done), load_app. cbn [mbind outcome_bind].
  rewrite <- !app_assoc. rewrite store_app by (rewrite length_take; lia). done.
Qed.

Lemma move_term_runs (pre done x : list Z) text n m : x <> [] ->
  runs (move_term (length pre) (length (pre ++ done))) (mkConf text n m (pre ++ done ++ x)) tt
    (mkConf text n m (pre ++ x ++ done)).
Proof.
  intros Hx s Hs. pose proof (at_contents _ _ Hs) as Hc. cbn [c_code] in Hc. unfold move_term.
  pose proof (contents_length _ (at_buffer _ _ Hs)) as Hl. rewrite Hc, length_app in Hl.
  assert (Hxl : (0 < length x)%nat) by (destruct x; [done|cbn; lia]).
  rewrite <- Hl. rewrite (length_app pre done).
  replace (length pre + length (done ++ x) - (length pre + length done))%nat with (length x) by (rewrite length_app; lia).
  replace (length pre + length (done ++ x) - length pre)%nat with (length (done ++ x)) by lia.
  destruct (Expand_room Halloc Hmem (buffer_ s) (length pre + length (done ++ x) + length x))
    as (c & -> & Es & Hsz & Hlm & Ec & Ho & He); [apply Hs|lia|].
  rewrite !Hmem by (rewrite ?length_app; lia). cbn [negb].
  pose proof (memory_split c) as Hm. rewrite Ec, Hc in Hm. set (rest := drop _ _) in Hm.
  assert (Hr : (length x <= length rest)%nat) by (unfold rest; rewrite length_drop, Es; lia). clearbody rest.
  rewrite Hm, <- (app_assoc pre), move_bytes by done. eexists. split; [done|].
  destruct (wf_rewritten c (size_ c) (pre ++ x ++ done ++ x ++ drop (length x) rest)) as [Hw Hc']; [done|done| |rewrite length_app in *; lia|].
  { apply (f_equal length) in Hm. rewrite !length_app, ?length_drop in *. lia. }
  refine (with_code _ s (with_buf _ c) (pre ++ x ++ done) Hs Hw _).
  refine (eq_trans Hc' _). rewrite 2!app_assoc, take_app_le by (rewrite !length_app in *; lia).
  rewrite <- app_assoc. apply take_ge. rewrite !length_app in *. lia.
Qed.

(** * Alternatives and groups *)
Lemma begin_alternative_runs (pre : list Z) (x : list Instr) text n m : x <> [] -> instr_ok (SplitNext (len x + 5)) ->
  let split := SplitNext (len x + 5) in
  runs (begin_alternative (length pre)) (mkConf text n m (pre ++ bytes x)) (length (pre ++ bytes (split :: x)))
    (mkConf text n m ((pre ++ bytes (split :: x)) ++ encode (Goto 0))).
Proof.
  intros Hx Hi split. unfold begin_alternative. apply runs_code_size. cbn [c_code].
  replace (Z.of_nat _ - Z.of_nat _) with (len x) by (unfold len; rewrite length_app; lia).
  assert (Hf : 0 <= len x + 5 < 2 ^ 32) by by inversion Hi. assert (0 <= len x) by (unfold len; lia).
  change (Z.of_nat (size_of OP_GOTO)) with 5. cbv zeta. rewrite (wrapu_id 32 (len x)), wrapu_id by (unfold in_u; lia).
  eapply (runs_insert split _ _ _ _ _ pre (bytes x)); [done|done|done|by apply bytes_nonempty|done|].
  eapply runs_bind; [apply (emit_runs (Goto 0)); [repeat constructor; cbn; lia|done|done]|].
  cbn [at_code c_text c_captures c_counters c_code]. rewrite <- bytes_cons, (length_app _ (encode (Goto 0))).
  change (size_of OP_GOTO) with (length (encode (Goto 0))). rewrite Nat.add_sub. apply runs_ret.
Qed.

Lemma end_alternative_runs (pre : list Z) (y : list Instr) text n m : instr_ok (Goto (len y)) ->
  runs (end_alternative (length pre)) (mkConf text n m ((pre ++ encode (Goto 0)) ++ bytes y)) tt
    (mkConf text n m (pre ++ bytes (Goto (len y) :: y))).
Proof.
  intros Hi. assert (Hf : 0 <= len y < 2 ^ 32) by by inversion Hi. unfold end_alternative. apply runs_code_size. cbn [c_code].
  change (Z.of_nat (size_of OP_GOTO)) with 5.
  replace (Z.of_nat _ - Z.of_nat _ - 5) with (len y)
    by (unfold len; rewrite !length_app; change (length (encode (Goto 0))) with 5%nat; lia).
  rewrite wrapu_id by done. intros s Hs. unfold put_code, GotoOpCode_UpdateOpPara, PutU32. rewrite wrapu_id by done.
  pose proof (at_contents _ _ Hs) as Hc. cbn [c_code] in Hc. change (encode (Goto 0)) with ([OP_GOTO] ++ bytes_of 4 0) in Hc.
  rewrite (app_assoc pre), <- (app_assoc (pre ++ [OP_GOTO])) in Hc.
  destruct (put_contents 4 (buffer_ s) (len y) (pre ++ [OP_GOTO]) (bytes_of 4 0) (bytes y)) as (c & E & Hw & Hc' & _);
    [apply Hs|done|done|lia|]. rewrite length_app in E. cbn [length] in E. rewrite E. eexists. split; [done|].
  eapply (with_code _ s c) in Hs; [exact Hs|done|]. rewrite Hc', <- app_assoc. cbn [app]. by rewrite bytes_cons.
Qed.

Lemma end_lookaround_runs (pre : list Z) (negative : bool) (x : list Instr) text n m : Forall instr_ok (look negative x) ->
  runs (end_lookaround (length pre) negative) (mkConf text n m (pre ++ bytes x)) tt
    (mkConf text n m (pre ++ bytes (look negative x))).
Proof.
  intros [Hi _]%Forall_cons. unfold end_lookaround. eapply (runs_emit Match); [constructor|done|done|].
  apply runs_code_size. cbn [at_code c_text c_captures c_counters c_code]. unfold look in *. cbv zeta in *.
  rewrite <- bytes_one, <- app_assoc, <- bytes_app.
  replace (Z.of_nat _ - Z.of_nat _) with (len (x ++ [Match])) by (unfold len; rewrite length_app; lia).
  rewrite bytes_cons, wrapu_id by (destruct negative; by inversion Hi).
  eapply runs_insert_last; [exact Hi|by destruct negative|done|apply bytes_nonempty; by destruct x|by destruct negative].
Qed.

Lemma emit_save_runs (start : bool) index text n m code :
  instr_ok ((if start then SaveStart else SaveEnd) index) ->
  runs (emit_save start index) (mkConf text n m code) tt (mkConf text n m (code ++ encode ((if start then SaveStart else SaveEnd) index))).
Proof.
  intros Hi. unfold emit_save. apply runs_emit_last; [done|by destruct start|]. intros c.
  assert (Hf : fits (1%nat, index)) by (destruct start; by inversion Hi). unfold fits in Hf. cbn in Hf.
  rewrite wrapu_id by (unfold in_u; lia). by destruct start.
Qed.

Lemma runs_add_name {B} names (g : unit -> M B) k b k' : runs (g tt) k b k' -> runs (add_name [0] names ≫= g) k b k'.
Proof.
  intros H. eapply runs_bind; [|exact H]. intros s Hs. unfold add_name.
  destruct (Emit_appends Halloc Hmem (groupNames_ s) [0] (at_names _ _ Hs)) as (c & -> & Hw & _); [done|].
  eexists. split; [done|]. destruct Hs. by split.
Qed.

Lemma runs_new_capture {B} (g : Z -> M B) text n m code b k' :
  runs (g n) (mkConf text (n + 1) m code) b k' -> runs (new_capture ≫= g) (mkConf text n m code) b k'.
Proof.
  intros H. eapply runs_bind; [|exact H]. unfold new_capture. apply runs_captures. apply runs_counters. apply runs_counts.
  apply runs_ret.
Qed.

(** ** What may follow *)
Definition ends_disj (text : list Z) : Prop := peek text = KEY_EOF \/ peek text = 41.
Definition ends_alt (text : list Z) : Prop := ends_disj text \/ peek text = 124.

(** The first character of a term. *)
Definition starts (c : Z) : Prop := Forall (fun d => (c =? d) = false) [41; 42; 43; 63; 123; 124; KEY_EOF].
Lemma term_starts (back : bool) n (t : term) : ok_term flags back n t = true ->
  exists c rest, print_term t = c :: rest /\ starts c /\
    (c =? 40) = match t with Assert _ | Repeat (Simple _) _ => false | _ => true end.
Proof.
  intros Hok. assert (Hs : forall c, 0 <= c < 128 -> c <> 41 -> c <> 42 -> c <> 43 -> c <> 63 -> c <> 123 -> c <> 124 -> starts c)
    by (intros c ?; intros; repeat constructor; apply Z.eqb_neq; unfold KEY_EOF; lia).
  destruct t as [k|[x|d|d] q|behind negative d]; cbn [print_term print_atom print_assertion print_look app];
    try (do 2 eexists; split; [reflexivity|]; split; [apply Hs; lia|done]).
  - destruct k; (do 2 eexists; split; [reflexivity|]; split; [apply Hs; lia|done]).
  - destruct x as [c| |k negated|e|ds]; cbn [print_simple app];
      try (do 2 eexists; split; [reflexivity|]; split; [apply Hs; lia|done]).
    cbn [ok_term ok_atom simple_ok] in Hok. apply andb_prop in Hok as [[Hp _]%andb_prop _].
    apply plain_cases in Hp as [Hc Hp]. rewrite !Forall_cons in Hp. do 2 eexists. split; [reflexivity|].
    split; [apply Hs; try apply Z.eqb_neq; try lia; tauto|tauto].
Qed.

Lemma no_quantifier_start (c : Z) rest : starts c -> no_quantifier (c :: rest).
Proof. intros H. unfold starts, no_quantifier in *. rewrite !Forall_cons in *. cbn [peek]. tauto. Qed.
Lemma no_quantifier_end text : ends_alt text -> no_quantifier text.
Proof. intros [[E|E]|E]; repeat constructor; by rewrite E. Qed.
Lemma alt_no_quantifier (back : bool) n (a : alt) text : ok_alt flags back n a = true -> ends_alt text ->
  no_quantifier (print_alt a ++ text).
Proof.
  intros Hok Ht. destruct a as [|t a]; [by apply no_quantifier_end|]. cbn [ok_alt] in Hok. rewrite !andb_true_iff in Hok.
  destruct (term_starts back n t) as (c & rest & E & Hc & _); [tauto|]. cbn [print_alt]. rewrite E. by apply no_quantifier_start.
Qed.
Lemma apart_end x (a : alt) text : apart x (print_alt a) = true -> ends_alt text ->
  apart x (print_alt a ++ text) = true.
Proof.
  intros Ha Ht. destruct x; try done. cbn [apart] in *. destruct (print_alt a) as [|c l]; [|done]. cbn [app].
  destruct text as [|c text]; [done|]. destruct Ht as [[E|E]|E]; cbn in E; by subst c.
Qed.

(** ** The statements, for a given fuel *)
Definition disj_runs (fuel : nat) : Prop := forall d back n m text pre,
  ok_disj flags back n d = true -> ends_disj text -> Forall instr_ok (compile_disj flags back n d) ->
  (4 * length (print_disj d) + 3 <= fuel)%nat ->
  runs (ParseDisjunction fuel back) (mkConf (print_disj d ++ text) n m pre) tt
    (mkConf text (n + captures_disj d) (m + counters_disj d) (pre ++ bytes (compile_disj flags back n d))).
Definition alts_runs (fuel : nat) : Prop := forall r back n m text pre x,
  ok_alts flags back n r = true -> ends_disj text -> (r <> NoAlts -> x <> []) ->
  Forall instr_ok (compile_alts flags back n x r) -> (4 * length (print_alts r) + 1 <= fuel)%nat ->
  runs (ParseDisjunction_loop fuel back (length pre)) (mkConf (print_alts r ++ text) n m (pre ++ bytes x)) tt
    (mkConf text (n + captures_alts r) (m + counters_alts r) (pre ++ bytes (compile_alts flags back n x r))).
Definition join (back : bool) (x y : list Z) : list Z := if back then y ++ x else x ++ y.
Definition alt_runs (fuel : nat) : Prop := forall a back n m text pre before,
  ok_alt flags back n a = true -> ends_alt text -> Forall instr_ok (compile_alt flags back n a) ->
  (4 * length (print_alt a) + 1 <= fuel)%nat ->
  runs (ParseAlternative fuel back (length pre)) (mkConf (print_alt a ++ text) n m (pre ++ before)) tt
    (mkConf text (n + captures_alt a) (m + counters_alt a) (pre ++ join back before (bytes (compile_alt flags back n a)))).
Definition group_runs (fuel : nat) : Prop := forall d back n m text pre, (4 * length (print_disj d) + 4 <= fuel)%nat ->
  (ok_disj flags back (n + 1) d = true -> Forall instr_ok (compile_atom flags back n (Capture d)) ->
   runs (ParseAssertionCapture fuel back 0 false) (mkConf (print_disj d ++ 41 :: text) n m pre) (n, true)
     (mkConf (41 :: text) (n + (1 + captures_disj d)) (m + counters_disj d)
        (pre ++ bytes (compile_atom flags back n (Capture d))))) /\
  (ok_disj flags back n d = true -> Forall instr_ok (compile_disj flags back n d) ->
   runs (ParseAssertionCapture fuel back 0 false) (mkConf ([63; 58] ++ print_disj d ++ 41 :: text) n m pre) (0, true)
     (mkConf (41 :: text) (n + captures_disj d) (m + counters_disj d) (pre ++ bytes (compile_disj flags back n d)))) /\
  (forall behind negative, ok_disj flags (behind || back) n d = true ->
   Forall instr_ok (look negative (compile_disj flags (behind || back) n d)) ->
   runs (ParseAssertionCapture fuel back 0 false)
     (mkConf (tl (print_look behind negative) ++ print_disj d ++ 41 :: text) n m pre) (0, false)
     (mkConf (41 :: text) (n + captures_disj d) (m + counters_disj d)
        (pre ++ bytes (look negative (compile_disj flags (behind || back) n d))))).

Lemma disj_step (fuel : nat) : alt_runs fuel -> alts_runs fuel -> disj_runs (S fuel).
Proof.
  intros Halt Halts [a r] back n m text pre Hok Ht Hi Hf. cbn [ok_disj compile_disj print_disj captures_disj counters_disj] in *.
  rewrite !andb_true_iff in Hok. destruct Hok as [[Ha Hr] He]. rewrite length_app in Hf. cbn [ParseDisjunction].
  apply runs_code_size. cbn [c_code]. rewrite <- app_assoc.
  assert (Hx : r <> NoAlts -> compile_alt flags back n a <> []).
  { intros Hn E. rewrite E in He. by destruct r. }
  eapply runs_bind.
  - rewrite <- (app_nil_r pre) at 2. apply Halt; [done| |by eapply alts_include|lia].
    destruct r; [by left|by right].
  - apply runs_error. cbn [join]. rewrite !Z.add_assoc.
    replace (join back [] (bytes (compile_alt flags back n a))) with (bytes (compile_alt flags back n a))
      by (destruct back; cbn; by rewrite ?app_nil_r).
    apply Halts; [done|done|done|done|lia].
Qed.

Lemma alts_step (fuel : nat) : alt_runs fuel -> alts_runs fuel -> alts_runs (S fuel).
Proof.
  intros Halt Halts [|a r] back n m text pre x Hok Ht Hx Hi Hf;
    cbn [ok_alts compile_alts print_alts captures_alts counters_alts] in *; cbn [ParseDisjunction_loop]; unfold ParseDisjunction_round;
    apply runs_c0; cbn [app c_text peek].
  - assert (Hstop : negb (peek text =? KEY_EOF) && negb (peek text =? 41) = false) by (destruct Ht as [-> | ->]; done).
    replace (peek text =? 124) with false by (destruct Ht as [-> | ->]; done). apply runs_ret_bind.
    apply runs_c0. cbn [c_text]. rewrite Hstop, !Z.add_0_r. apply runs_ret.
  - apply andb_prop in Hok as [Ha Hr]. cbn [length] in Hf. rewrite length_app in Hf. cbn [Z.eqb].
    pose proof (alts_include flags _ _ _ _ _ Hi) as He. unfold either in He. apply Forall_cons in He as [Hsplit He].
    apply Forall_app in He as [_ [Hgoto Hy]%Forall_cons]. rewrite <- app_assoc.
    set (y := compile_alt flags back n a) in *.
    eapply (runs_bind _ _ _ tt (mkConf (print_alts r ++ text) (n + captures_alt a) (m + counters_alt a) (pre ++ bytes (either x y)))).
    + eapply runs_bind; [by apply begin_alternative_runs, Hsplit; apply Hx|]. eapply runs_Advance; [done|].
      apply runs_code_size. cbn [at_text c_text c_captures c_counters c_code]. eapply runs_bind.
      * rewrite <- (app_nil_r ((pre ++ _) ++ _)) at 2. apply Halt; [done| |done|lia]. destruct r; [by left|by right].
      * cbv beta. replace (join back [] _) with (bytes y) by (destruct back; cbn; by rewrite ?app_nil_r).
        eapply runs_to; [by apply end_alternative_runs|]. f_equal. unfold either.
        by rewrite <- app_assoc, <- bytes_app.
    + apply runs_c0. cbn [c_text]. destruct r as [|a' r].
      * replace (negb _ && negb _) with false by (destruct Ht as [E|E]; cbn [print_alts app]; rewrite E; done).
        cbn [print_alts app captures_alts counters_alts compile_alts]. rewrite !Z.add_0_r. apply runs_ret.
      * cbn [print_alts app peek]. change (negb _ && negb _) with true. rewrite !Z.add_assoc.
        apply (Halts (Alts a' r)); [done|done|done|done|lia].
Qed.

Lemma group_step (fuel : nat) : disj_runs fuel -> group_runs (S fuel).
Proof.
  intros Hd d back n m text pre Hf.
  assert (Hend : ends_disj (41 :: text)) by by right.
  split; [|split].
  - intros Hok Hi. cbn [compile_atom] in Hi. apply Forall_cons in Hi as [Hs Hi]. apply Forall_app in Hi as [Hi [He _]%Forall_cons].
    assert (Hq : (peek (print_disj d ++ 41 :: text) =? 63) = false).
    { destruct d as [a r]. cbn [ok_disj print_disj] in *. rewrite !andb_true_iff in Hok. rewrite <- app_assoc.
      assert (Hn : no_quantifier (print_alt a ++ print_alts r ++ 41 :: text)).
      { eapply alt_no_quantifier; [apply Hok|]. destruct r; [by left; right|by right]. }
      unfold no_quantifier in Hn. rewrite !Forall_cons in Hn. tauto. }
    cbn [ParseAssertionCapture]; unfold ParseAssertionCapture_round. apply runs_c0. cbn [c_text]. rewrite Hq. apply runs_add_name. apply runs_new_capture.
    eapply runs_bind; [apply (emit_save_runs (negb back)); by destruct back|].
    eapply runs_bind; [apply Hd; [done|done|done|lia]|].
    eapply runs_bind; [by apply (emit_save_runs back)|]. apply runs_c0. cbn [c_text peek].
    change (negb (41 =? 41) && negb (41 =? KEY_EOF)) with false. cbn [Z.eqb negb].
    eapply runs_to; [apply runs_ret|]. cbn [compile_atom]. rewrite bytes_cons, bytes_app, bytes_one, !app_assoc.
    f_equal; [lia|]. by destruct back.
  - intros Hok Hi. cbn [ParseAssertionCapture]; unfold ParseAssertionCapture_round. apply runs_c0. cbn [c_text app peek Z.eqb].
    eapply runs_Advance; [done|]. apply runs_c0. apply runs_code_size. cbn [at_text c_text peek].
    eapply runs_Advance; [done|]. eapply runs_bind; [apply Hd; [done|done|done|lia]|]. apply runs_c0. cbn [c_text peek].
    change (negb (41 =? 41) && negb (41 =? KEY_EOF)) with false. cbn [Z.eqb negb]. apply runs_ret.
  - intros behind negative Hok Hi. cbn [ParseAssertionCapture]; unfold ParseAssertionCapture_round. apply runs_c0.
    assert (Hdi : Forall instr_ok (compile_disj flags (behind || back) n d))
      by (unfold look in Hi; apply Forall_cons in Hi as [_ Hi]; by apply Forall_app in Hi as [Hi _]).
    destruct behind, negative; cbn [print_look tl c_text app peek Z.eqb];
      (eapply runs_Advance; [done|]); apply runs_c0; apply runs_code_size; cbn [at_text c_text c_code peek Z.eqb Pos.eqb];
      (eapply runs_Advance; [done|]); try (apply runs_c0; cbn [at_text c_text peek Z.eqb Pos.eqb]; eapply runs_Advance; [done|]);
      (eapply runs_bind; [apply Hd; [done|done|done|lia]|]); (eapply runs_bind; [by apply end_lookaround_runs|]);
      apply runs_c0; cbn [c_text peek]; change (negb (41 =? 41) && negb (41 =? KEY_EOF)) with false; cbn [Z.eqb Pos.eqb negb];
      apply runs_ret.
Qed.

(** What the parser makes of a term. *)
Definition term_value (n : Z) (t : term) : RegExpParser.term :=
  match t with
  | Assert _ | Look _ _ _ => Assertion
  | Repeat (Capture _) _ => Atom n
  | Repeat _ _ => Atom 0
  end.
(** The part of a term in front of its quantifier. *)
Definition bare (t : term) : term := match t with Repeat a _ => Repeat a None | t => t end.
Definition suffix_of_term (t : term) : option (quantifier * bool) := match t with Repeat _ q => q | _ => None end.

Lemma term_runs (fuel : nat) (t : term) (back : bool) n m text pre : group_runs fuel ->
  ok_term flags back n t = true -> Forall instr_ok (compile_term flags back n (bare t)) ->
  match t with Repeat (Simple x) _ => apart x text = true | _ => True end -> (4 * length (print_term t) <= fuel)%nat ->
  runs (if peek (print_term t) =? 40 then
          Advance;; r ← ParseAssertionCapture fuel back 0 false; Advance;; mret (if snd r : bool then Atom (fst r) else Assertion)
        else ParseSimpleTerm back)
    (mkConf (print_term (bare t) ++ text) n m pre) (term_value n t)
    (mkConf text (n + captures_term t) (m + counters_term (bare t)) (pre ++ bytes (compile_term flags back n (bare t)))).
Proof.
  intros Hg Hok Hi Ha Hf. destruct (term_starts back n t Hok) as (c & rest & E & _ & H40). rewrite E. cbn [peek]. rewrite H40.
  clear E H40. destruct t as [k|[x|d|d] q|behind negative d];
    cbn [bare ok_term ok_atom compile_term compile_atom print_term print_atom term_value captures_term captures_atom
         counters_term counters_atom counters_of] in *; rewrite ?Z.add_0_r, ?app_nil_r in *.
  - rewrite bytes_one. apply assertion_runs.
  - rewrite !andb_true_iff in Hok. apply simple_runs; tauto.
  - rewrite !andb_true_iff in Hok. cbn [app length] in *. rewrite !length_app in Hf. cbn [length] in Hf.
    eapply runs_Advance; [done|]. cbn [at_text c_captures c_counters c_code print_suffix app]. rewrite ?app_nil_r, <- app_assoc. cbn [app].
    eapply runs_bind; [apply (Hg d); [lia|tauto|done]|]. eapply runs_Advance; [done|]. apply runs_ret.
  - rewrite !andb_true_iff in Hok. cbn [app length] in *. rewrite !length_app in Hf. cbn [length] in Hf.
    eapply runs_Advance; [done|]. cbn [at_text c_captures c_counters c_code print_suffix app]. rewrite ?app_nil_r, <- app_assoc. cbn [app].
    eapply runs_bind; [apply (Hg d); [lia|tauto|done]|]. eapply runs_Advance; [done|]. apply runs_ret.
  - rewrite !length_app in Hf. cbn [length] in Hf.
    change (print_look behind negative) with (40 :: tl (print_look behind negative)). cbn [app].
    eapply runs_Advance; [done|]. cbn [at_text c_captures c_counters c_code]. rewrite <- !app_assoc. cbn [app].
    eapply runs_bind; [apply (Hg d); [|done|done]|].
    { destruct behind; cbn in Hf; lia. }
    eapply runs_Advance; [done|]. apply runs_ret.
Qed.

Lemma print_bare (t : term) : print_term t = print_term (bare t) ++ print_suffix (suffix_of_term t).
Proof. destruct t; cbn; by rewrite ?app_nil_r. Qed.
Lemma compile_bare (back : bool) n (t : term) :
  compile_term flags back n t =
  quantified (match t with Repeat (Capture _) _ => n | _ => 0 end) (n + captures_term t - 1) (suffix_of_term t)
    (compile_term flags back n (bare t)).
Proof. destruct t as [k|a [[q greedy]|]|behind negative d]; try done. Qed.
Lemma counters_bare (t : term) : counters_term t = counters_term (bare t) + counters_of (suffix_of_term t).
Proof. destruct t; cbn; lia. Qed.
Lemma quantified_include (P : Instr -> Prop) first last q x : Forall P (quantified first last q x) -> Forall P x.
Proof.
  destruct q as [[q greedy]|]; [|done]. cbn. unfold repeated. destruct (bounds q). intros [_ H]%Forall_cons.
  rewrite !Forall_app in H. tauto.
Qed.

(** The quantifier behind a term, if it takes one. *)
Lemma quantifier_runs (t : term) (back : bool) n m text pre :
  ok_term flags back n t = true -> no_quantifier text -> Forall instr_ok (compile_term flags back n t) ->
  runs (match term_value n t with
        | Atom captureIndex => ParseQuantifier (length pre) captureIndex (n + captures_term t - 1)
        | _ => mret tt
        end)
    (mkConf (print_suffix (suffix_of_term t) ++ text) (n + captures_term t) (m + counters_term (bare t))
       (pre ++ bytes (compile_term flags back n (bare t)))) tt
    (mkConf text (n + captures_term t) (m + counters_term t) (pre ++ bytes (compile_term flags back n t))).
Proof.
  intros Hok Ht Hi. rewrite (counters_bare t), Z.add_assoc. rewrite (compile_bare back n t) in *.
  destruct t as [k|a q|behind negative d]; cbn [term_value suffix_of_term print_suffix app quantified counters_of] in *;
    rewrite ?Z.add_0_r; try apply runs_ret.
  cbn [ok_term] in Hok. rewrite !andb_true_iff in Hok. destruct Hok as [[Hok Hq] He].
  assert (Hx : q <> None -> compile_term flags back n (bare (Repeat a q)) <> []).
  { intros Hn. destruct q; [|done]. change (compile_atom flags back n a <> []). intros E. by rewrite E in He. }
  destruct a; by apply ParseQuantifier_runs.
Qed.


Lemma ok_alt_seq (back : bool) n (t : term) (a : alt) : ok_alt flags back n (Seq t a) = true ->
  ok_term flags back n t = true /\ ok_alt flags back (n + captures_term t) a = true /\
  (back = true -> compile_term flags back n t <> []) /\
  match t with Repeat (Simple x) None => apart x (print_alt a) = true | _ => True end.
Proof.
  change (ok_alt flags back n (Seq t a)) with
    (ok_term flags back n t && ok_alt flags back (n + captures_term t) a && (emits (compile_term flags back n t) || negb back) &&
     match t with Repeat (Simple x) None => apart x (print_alt a) | _ => true end).
  rewrite !andb_true_iff. intros [[[? ?] He] Hap]. split; [done|]. split; [done|]. split.
  - intros -> E. by rewrite E in He.
  - destruct t as [|[] []|]; done.
Qed.
Lemma compile_alt_seq (back : bool) n (t : term) (a : alt) :
  bytes (compile_alt flags back n (Seq t a)) =
    join back (bytes (compile_term flags back n t)) (bytes (compile_alt flags back (n + captures_term t) a)) /\
  (Forall instr_ok (compile_alt flags back n (Seq t a)) ->
   Forall instr_ok (compile_term flags back n t) /\ Forall instr_ok (compile_alt flags back (n + captures_term t) a)).
Proof.
  change (compile_alt flags back n (Seq t a)) with
    (let x := compile_term flags back n t in let y := compile_alt flags back (n + captures_term t) a in
     if back then y ++ x else x ++ y).
  destruct back; cbv zeta; rewrite bytes_app; (split; [done|]); intros [? ?]%Forall_app; done.
Qed.
Lemma join_assoc (back : bool) (x y z : list Z) : join back (join back x y) z = join back x (join back y z).
Proof. destruct back; cbn; by rewrite app_assoc. Qed.
Lemma apart_suffix x q (a : alt) text :
  match q with None => apart x (print_alt a) = true | _ => True end -> ends_alt text ->
  apart x (print_suffix q ++ print_alt a ++ text) = true.
Proof.
  intros Ha Ht. destruct q as [[q greedy]|]; [by destruct x, q|]. by apply apart_end.
Qed.

Lemma alt_step (fuel : nat) : alt_runs fuel -> group_runs fuel -> alt_runs (S fuel).
Proof.
  intros Halt Hg [|t a] back n m text pre before Hok Ht Hi Hf; cbn [ParseAlternative]; unfold ParseAlternative_round; apply runs_c0; cbn [c_text].
  - cbn [print_alt app captures_alt counters_alt compile_alt]. rewrite !Z.add_0_r.
    replace (negb _ && negb _ && negb _) with false by (destruct Ht as [[-> | ->]| ->]; done).
    replace (join back before _) with before by (destruct back; cbn; by rewrite ?app_nil_r). apply runs_ret.
  - destruct (ok_alt_seq back n t a Hok) as (Hot & Hoa & He & Hap). destruct (compile_alt_seq back n t a) as [Eb Hxy].
    destruct (Hxy Hi) as [Hx Hy]. cbn [print_alt captures_alt counters_alt] in *. rewrite length_app in Hf.
    destruct (term_starts back n t Hot) as (c & rest & E & Hc & _).
    assert (Hlen : (0 < length (print_term t))%nat) by (rewrite E; cbn; lia).
    assert (Hp : peek ((print_term t ++ print_alt a) ++ text) = peek (print_term t)) by by rewrite E. rewrite Hp.
    replace (negb _ && negb _ && negb _) with true.
    2: { rewrite E. cbn [peek]. unfold starts in Hc. rewrite !Forall_cons in Hc.
         destruct Hc as (-> & _ & _ & _ & _ & -> & -> & _). done. }
    apply runs_error. apply runs_code_size. cbn [c_code]. set (first := peek (print_term t)).
    rewrite (print_bare t), <- !app_assoc. subst first.
    eapply runs_bind; [eapply (term_runs fuel t); [done|done| | |lia]|].
    { rewrite (compile_bare back n t) in Hx. by eapply quantified_include. }
    { destruct t as [|[x| |] q|]; try done. apply apart_suffix; [by destruct q|done]. }
    assert (Hq := quantifier_runs t back n m (print_alt a ++ text) (pre ++ before) Hot
      (alt_no_quantifier back _ a text Hoa Ht) Hx).
    assert (Hrest : runs (when back (move_term (length pre) (length (pre ++ before)));; ParseAlternative fuel back (length pre))
      (mkConf (print_alt a ++ text) (n + captures_term t) (m + counters_term t) ((pre ++ before) ++ bytes (compile_term flags back n t))) tt
      (mkConf text (n + (captures_term t + captures_alt a)) (m + (counters_term t + counters_alt a))
         (pre ++ join back before (bytes (compile_alt flags back n (Seq t a)))))).
    { rewrite Eb, <- join_assoc, !Z.add_assoc, <- app_assoc. eapply runs_when; [| |apply Halt; [done|done|done|lia]].
      - intros ->. cbn [join]. apply move_term_runs. apply bytes_nonempty. by apply He.
      - by intros ->. }
    destruct (term_value n t) eqn:Et; [| |by destruct t as [|[] ?|]];
      apply runs_error; apply runs_captures; (eapply runs_bind; [exact Hq|exact Hrest]).
Qed.

Lemma parser_runs (fuel : nat) : disj_runs fuel /\ alts_runs fuel /\ alt_runs fuel /\ group_runs fuel.
Proof.
  induction fuel as [|fuel (Hd & Hr & Ha & Hg)].
  - repeat split; red; intros; lia.
  - auto using disj_step, alts_step, alt_step, group_step.
Qed.
End running.

(** * Operands fit *)
Scheme disj_rec' := Induction for disj Sort Prop
  with alts_rec' := Induction for alts Sort Prop
  with alt_rec' := Induction for alt Sort Prop
  with term_rec' := Induction for term Sort Prop
  with atom_rec' := Induction for atom Sort Prop.
Combined Scheme pattern_ind from disj_rec', alts_rec', alt_rec', term_rec', atom_rec'.

Lemma captures_nonneg :
  (forall d, 0 <= captures_disj d) /\ (forall r, 0 <= captures_alts r) /\ (forall a, 0 <= captures_alt a) /\
  (forall t, 0 <= captures_term t) /\ (forall a, 0 <= captures_atom a).
Proof. apply pattern_ind; cbn; lia. Qed.
Lemma counters_nonneg :
  (forall d, 0 <= counters_disj d) /\ (forall r, 0 <= counters_alts r) /\ (forall a, 0 <= counters_alt a) /\
  (forall t, 0 <= counters_term t) /\ (forall a, 0 <= counters_atom a).
Proof.
  assert (Hc : forall q, 0 <= counters_of q) by (intros [[q g]|]; cbn; [destruct (_ =? _); cbn|]; lia).
  apply pattern_ind; cbn [counters_disj counters_alts counters_alt counters_term counters_atom]; intros;
    try match goal with q : option _ |- _ => pose proof (Hc q) end; lia.
Qed.

Section operands.
  Context {icu : ICU} (flags : Z).
Definition good (i : Instr) : Prop := instr_ok i /\ RegExpMatch.range_ok i.
(** Enough code for the counters, and operands inside their widths. *)
Definition sound (counters : Z) (code : list Instr) : Prop :=
  counters <= len code /\ (len code < 2 ^ 32 -> Forall good code).

Lemma len_app x y : len (x ++ y) = len x + len y.
Proof. unfold len. rewrite bytes_app, length_app. lia. Qed.
Lemma len_cons i x : len (i :: x) = Z.of_nat (length (encode i)) + len x.
Proof. unfold len. rewrite bytes_cons, length_app. lia. Qed.
Lemma len_ge_0 x : 0 <= len x.
Proof. unfold len. lia. Qed.

Lemma good_u32 i n : operands i = [(4%nat, n)] -> 0 <= n < 2 ^ 32 -> RegExpMatch.range_ok i -> good i.
Proof. intros E Hn Hr. split; [|done]. unfold instr_ok. rewrite E. constructor; [exact Hn|constructor]. Qed.
Lemma good_u16 i n : operands i = [(2%nat, n)] -> 0 <= n < 65536 -> RegExpMatch.range_ok i -> good i.
Proof. intros E Hn Hr. split; [|done]. unfold instr_ok. rewrite E. constructor; [exact Hn|constructor]. Qed.
Lemma good_u8 i n : operands i = [(1%nat, n)] -> 0 <= n < 256 -> RegExpMatch.range_ok i -> good i.
Proof. intros E Hn Hr. split; [|done]. unfold instr_ok. rewrite E. constructor; [exact Hn|constructor]. Qed.
Lemma good_none i : operands i = [] -> RegExpMatch.range_ok i -> good i.
Proof. intros E Hr. split; [|done]. unfold instr_ok. by rewrite E. Qed.

Lemma class_good k negated : good (class_instr flags k negated).
Proof.
  unfold class_instr. destruct (utf16 flags), k, negated; (split; [|vm_compute; repeat split; congruence]);
    unfold instr_ok; match goal with |- Forall fits ?l => let l' := eval vm_compute in l in change (Forall fits l') end;
    repeat (constructor; [vm_compute; split; congruence|]); constructor.
Qed.

Lemma simple_sound (back : bool) n x : 0 <= n <= 256 -> simple_ok flags n x = true -> Forall good (compile_simple flags back x).
Proof.
  intros Hn Hok. assert (Hp : good RegExpOpCode.Prev) by by apply good_none.
  assert (Hs : forall i, good i -> Forall good (stepping back i)) by (intros i Hi; destruct back; by repeat apply Forall_cons_2).
  destruct x as [c| |k negated|e|ds]; cbn [compile_simple simple_ok] in *.
  - apply Hs. unfold char_instr. set (v := u32 _). assert (0 <= v < 2 ^ 32) by (apply Z.mod_pos_bound; lia).
    destruct (Z.gtb_spec v UINT16_MAX); [by apply (good_u32 _ v)|]. apply (good_u16 _ v); [done|lia|done].
  - apply Hs. by destruct (flag _ _); apply good_none.
  - apply Hs, class_good.
  - constructor; [|constructor]. apply andb_prop in Hok as [He _]. apply escape_value_bound in He.
    set (v := if ignore_case flags then _ else _).
    assert (Hv : 0 <= v < 65536).
    { unfold v. destruct (ignore_case flags); [|done]. unfold RegExpExecutor.Canonicalize.
      rewrite wraps_id by (unfold in_s; lia). repeat case_match; lia. }
    replace (v <=? UINT16_MAX) with true by lia. rewrite wrapu_id by (unfold in_u; lia).
    by apply (good_u16 _ v).
  - constructor; [|constructor]. rewrite !andb_true_iff in Hok. pose proof (number_bound ds ltac:(tauto)).
    destruct back; apply (good_u8 _ (number ds)); try done; lia.
Qed.

Lemma sound_app c1 x c2 y : sound c1 x -> sound c2 y -> sound (c1 + c2) (x ++ y).
Proof.
  intros [Hc1 Hx] [Hc2 Hy]. unfold sound. rewrite len_app. split; [lia|]. intros Hl. pose proof (len_ge_0 x).
  pose proof (len_ge_0 y). apply Forall_app_2; [apply Hx|apply Hy]; lia.
Qed.
Lemma sound_good c x : c <= 0 -> Forall good x -> sound c x.
Proof. intros Hc Hx. split; [pose proof (len_ge_0 x); lia|done]. Qed.

Lemma sound_either c1 x c2 y : sound c1 x -> sound c2 y -> sound (c1 + c2) (either x y).
Proof.
  intros [Hc1 Hx] [Hc2 Hy]. unfold sound, either. rewrite len_cons, len_app, len_cons. change (length (encode _)) with 5%nat.
  pose proof (len_ge_0 x). pose proof (len_ge_0 y). split; [lia|]. intros Hl.
  apply Forall_cons_2; [by apply (good_u32 _ (len x + 5)); [done|lia|done]|]. apply Forall_app_2; [apply Hx; lia|].
  apply Forall_cons_2; [by apply (good_u32 _ (len y)); [done|lia|done]|]. apply Hy. lia.
Qed.

Lemma sound_look c negative x : sound c x -> sound c (look negative x).
Proof.
  intros [Hc Hx]. unfold sound, look. cbv zeta. rewrite len_cons, len_app.
  replace (length (encode _)) with 5%nat by by destruct negative. change (len [Match]) with 1. pose proof (len_ge_0 x).
  split; [lia|]. intros Hl. apply Forall_cons_2; [destruct negative; by apply (good_u32 _ (len x + 1)); [done|lia|done]|].
  apply Forall_app_2; [apply Hx; lia|]. apply Forall_cons_2; [by apply good_none|constructor].
Qed.

Lemma sound_repeated c first last q (greedy : bool) x : quantifier_ok q = true ->
  first = 0 \/ (0 <= first < 256 /\ 0 <= last < 256) -> sound c x ->
  sound (c + counters_of (Some (q, greedy))) (repeated first last (bounds q) greedy x).
Proof.
  intros Hq Hr [Hc Hx]. pose proof (bounds_ok q Hq) as [Hb1 Hb2]. cbn [counters_of]. unfold repeated.
  destruct (bounds q) as [min max]. cbn [fst snd] in *.
  fold (resetting first last). rewrite (app_assoc (resetting first last)).
  fold (tracking (max =? INT32_MAX) (resetting first last ++ x)). set (body := tracking _ _).
  assert (Hlb : len x <= len body).
  { unfold body, tracking. rewrite !len_app. pose proof (len_ge_0 (resetting first last)).
    pose proof (len_ge_0 [PushChar]). pose proof (len_ge_0 [CheckChar 13]). pose proof (len_ge_0 []).
    destruct (max =? INT32_MAX); lia. }
  set (split := if min =? 0 then _ else _). set (loop := (if greedy then LoopGreedy else Loop) _ _ _).
  assert (Hloop : length (encode loop) = 13%nat) by (unfold loop; by destruct greedy).
  pose proof (len_ge_0 split). unfold sound. rewrite len_cons, !len_app, !len_cons, Hloop. change (length (encode Push)) with 1%nat.
  change (length (encode Pop)) with 1%nat. change (len []) with 0.
  split; [destruct (max =? INT32_MAX); cbn [Z.b2z]; lia|]. intros Hl.
  apply Forall_cons_2; [by apply good_none|]. apply Forall_app_2; [|apply Forall_app_2].
  - unfold split. destruct (min =? 0); [|constructor]. apply Forall_cons_2; [|constructor].
    pose proof (len_ge_0 body). destruct greedy; (apply (good_u32 _ (len body + 13)); [done|lia|done]).
  - unfold body, tracking. apply Forall_app_2; [|apply Forall_app_2; [apply Forall_app_2|]].
    + destruct (max =? INT32_MAX); [|constructor]. apply Forall_cons_2; [by apply good_none|constructor].
    + unfold resetting. destruct (Z.eqb_spec first 0); [constructor|]. apply Forall_cons_2; [|constructor].
      split; [|done]. destruct Hr as [|[? ?]]; [done|]. by repeat apply Forall_cons_2.
    + apply Hx. lia.
    + destruct (max =? INT32_MAX); [|constructor]. apply Forall_cons_2; [by apply (good_u32 _ 13)|constructor].
  - apply Forall_cons_2; [|apply Forall_cons_2; [by apply good_none|constructor]].
    split; [|by destruct greedy]. apply (instr_ok_loop loop (u32 (- len body - 13)) min max);
      [apply Z.mod_pos_bound; lia|lia|lia|unfold loop; destruct greedy; auto].
Qed.

Lemma code_sound :
  (forall d back n, ok_disj flags back n d = true -> 0 <= n -> n + captures_disj d <= 256 ->
     sound (counters_disj d) (compile_disj flags back n d)) /\
  (forall r back n c x, ok_alts flags back n r = true -> 0 <= n -> n + captures_alts r <= 256 -> sound c x ->
     sound (c + counters_alts r) (compile_alts flags back n x r)) /\
  (forall a back n, ok_alt flags back n a = true -> 0 <= n -> n + captures_alt a <= 256 ->
     sound (counters_alt a) (compile_alt flags back n a)) /\
  (forall t back n, ok_term flags back n t = true -> 0 <= n -> n + captures_term t <= 256 ->
     sound (counters_term t) (compile_term flags back n t)) /\
  (forall a back n, ok_atom flags back n a = true -> 0 <= n -> n + captures_atom a <= 256 ->
     sound (counters_atom a) (compile_atom flags back n a)).
Proof.
  destruct captures_nonneg as (Nd & Nr & Na & Nt & Nm).
  apply pattern_ind; cbn [ok_disj ok_alts ok_alt ok_term ok_atom compile_disj compile_alts compile_alt compile_term compile_atom
    captures_disj captures_alts captures_alt captures_term captures_atom counters_disj counters_alts counters_alt counters_term counters_atom].
  - intros a Ha r Hr back n Hok Hn Hc. rewrite !andb_true_iff in Hok. pose proof (Na a). pose proof (Nr r).
    apply Hr; [tauto|lia|lia|]. apply Ha; [tauto|lia|lia].
  - intros back n c x _ _ _ Hx. by rewrite Z.add_0_r.
  - intros a Ha r Hr back n c x Hok Hn Hc Hx. apply andb_prop in Hok as [Hoa Hor]. pose proof (Na a). pose proof (Nr r).
    rewrite Z.add_assoc. apply Hr; [done|lia|lia|]. apply sound_either; [done|]. apply Ha; [done|lia|lia].
  - intros back n _ _ _. by apply sound_good.
  - intros t Ht a Ha back n Hok Hn Hc. rewrite !andb_true_iff in Hok. pose proof (Nt t). pose proof (Na a).
    assert (Hx : sound (counters_term t) (compile_term flags back n t)) by (apply Ht; [tauto|lia|lia]).
    assert (Hy : sound (counters_alt a) (compile_alt flags back (n + captures_term t) a)) by (apply Ha; [tauto|lia|lia]).
    destruct back; [rewrite Z.add_comm|]; by apply sound_app.
  - intros k back n _ _ _. apply sound_good; [lia|]. apply Forall_cons_2; [by destruct k; apply good_none|constructor].
  - intros a Ha q back n Hok Hn Hc. rewrite !andb_true_iff in Hok.
    assert (Hx : sound (counters_atom a) (compile_atom flags back n a)) by (apply Ha; [tauto|lia|lia]).
    destruct q as [[q greedy]|]; [|by rewrite Z.add_0_r]. apply sound_repeated; [apply Hok| |done].
    destruct a as [x|d|d]; [by left| |by left]. right. cbn [captures_atom] in *. pose proof (Nd d). lia.
  - intros behind negative d Hd back n Hok Hn Hc. apply sound_look. by apply Hd.
  - intros x back n Hok Hn Hc. apply sound_good; [done|]. apply (simple_sound back n); [lia|done].
  - intros d Hd back n Hok Hn Hc. pose proof (Nd d). destruct (Hd back (n + 1) Hok) as [Hl Hg]; [lia|lia|].
    unfold sound. rewrite len_cons, len_app. set (first := (if back then SaveEnd else SaveStart) n).
    set (last := (if back then SaveStart else SaveEnd) n).
    assert (Hs : good first /\ good last) by (unfold first, last; destruct back; split; (apply (good_u8 _ n); [done|lia|done])).
    pose proof (len_ge_0 [last]). split; [lia|]. intros Hl'. apply Forall_cons_2; [tauto|]. apply Forall_app_2; [apply Hg; lia|].
    apply Forall_cons_2; [tauto|constructor].
  - intros d Hd back n Hok Hn Hc. by apply Hd.
Qed.
End operands.

(** * The whole pattern *)
Section pattern.
  Context {memory_ : Memory} {icu : ICU} {icu_text : ICUText}.
  Context (Halloc : forall n, alloc_ok n = true).
  Context (Hmem : forall n, (0 < n)%nat -> mem_ok n n = true).
  Context (pattern tail : list Z) (flags : Z).
#[local] Abbreviation runs := (runs pattern tail flags).
#[local] Abbreviation at_conf := (at_conf pattern tail flags).

(** A parser that has read nothing yet. *)
Definition fresh (code : list Z) (s : Parser) : Prop :=
  exists c, s = set_buffer c (Init (pattern ++ tail) (Z.of_nat (length pattern)) flags) /\ wf c /\ contents c = code.

Lemma header_word (code : list Z) s : fresh code s ->
  exists s', emit_ (fun c => r ← EmitU32 c 0; Done (fst r, size_ (fst r))) s = Done (s', tt) /\ fresh (code ++ bytes_of 4 0) s'.
Proof.
  intros (c & -> & Hw & Hc). destruct (Emit_appends Halloc Hmem c (bytes_of 4 0) Hw) as (c' & E & Hw' & Hc'); [done|].
  unfold emit_, emit, mbind, M_bind. cbn [buffer_ set_buffer].
  assert (outcome_bind _ _ (fun r => Done (fst r, size_ (fst r))) (EmitU32 c 0) = Done (c', size_ c')) as ->
    by (unfold EmitU32; change (u32 0) with 0; by rewrite E).
  eexists. split; [done|]. exists c'. split; [done|]. split; [done|]. by rewrite Hc', Hc.
Qed.

Lemma first_Advance (code : list Z) s : fresh code s -> exists s', Advance s = Done (s', tt) /\ at_conf (mkConf pattern 0 0 code) s'.
Proof.
  intros (c & -> & Hw & Hc). unfold Advance, gets, mbind, M_bind. cbn [pc_ end_ set_buffer Init].
  destruct pattern as [|b p].
  - eexists. split; [done|]. by split.
  - rewrite (proj2 (Z.leb_le _ _)) by (cbn; lia). eexists. split; [done|]. split; try done.
    unfold pc_of. cbn. lia.
Qed.

Lemma runs_put (offset : nat) v (a b d : list Z) k : c_code k = a ++ b ++ d -> length b = 4%nat -> offset = length a -> in_u 32 v ->
  runs (put_code (fun c => PutU32 c offset v)) k tt (at_code (a ++ bytes_of 4 v ++ d) k).
Proof.
  intros Hk Hb -> Hv s Hs. unfold put_code, PutU32. rewrite wrapu_id by done.
  destruct (put_contents 4 (buffer_ s) v a b d) as (c & -> & Hw & Hc & _); [apply Hs|by rewrite (at_contents _ _ _ _ _ Hs)|done|lia|].
  eexists. split; [done|]. by apply with_code.
Qed.

Lemma bind_done {A B} (m : M A) (g : A -> M B) s s' a : m s = Done (s', a) -> (m ≫= g) s = g a s'.
Proof. unfold mbind, M_bind. by intros ->. Qed.

(** The header of zeros that is filled in at the end. *)
Definition blank : list Z := bytes_of 4 0 ++ bytes_of 4 0 ++ bytes_of 4 0 ++ bytes_of 4 0.
(** [Parse] behind the first [Advance]. *)
Definition Parse_rest (fuel : nat) : M unit :=
  captureIndex ← new_capture;
  emit_save true captureIndex;;
  ParseDisjunction fuel false;;
  c0 ← gets c0_;
  if negb (c0 =? KEY_EOF) then ParseError "extraneous characters at the end"
  else
    emit_save false captureIndex;;
    emit_ (fun c => MatchEndOpCode_EmitOpCode c 0);;
    size ← code_size; captures ← gets captureCount_; stack ← gets stackCount_; flags ← gets flags_;
    put_code (fun c => PutU32 c 0 (Z.of_nat size));;
    put_code (fun c => PutU32 c RegExpExecutor.NUM_CAPTURE_OFFSET (u32 captures));;
    put_code (fun c => PutU32 c RegExpExecutor.NUM_STACK_OFFSET (u32 stack));;
    put_code (fun c => PutU32 c RegExpExecutor.FLAGS_OFFSET flags).

Lemma Parse_starts (fuel : nat) :
  exists s, Parse fuel (Init (pattern ++ tail) (Z.of_nat (length pattern)) flags) = Parse_rest fuel s /\
    at_conf (mkConf pattern 0 0 blank) s.
Proof.
  assert (H0 : fresh [] (Init (pattern ++ tail) (Z.of_nat (length pattern)) flags)) by (exists new_chunk; auto using wf_new).
  destruct (header_word _ _ H0) as (s1 & E1 & H1). destruct (header_word _ _ H1) as (s2 & E2 & H2).
  destruct (header_word _ _ H2) as (s3 & E3 & H3). destruct (header_word _ _ H3) as (s4 & E4 & H4).
  destruct (first_Advance _ _ H4) as (s5 & E5 & H5). exists s5. split; [|exact H5].
  unfold Parse. cbv zeta. rewrite (bind_done _ _ _ _ _ E1), (bind_done _ _ _ _ _ E2), (bind_done _ _ _ _ _ E3),
    (bind_done _ _ _ _ _ E4), (bind_done _ _ _ _ _ E5). done.
Qed.
End pattern.

Section compilation.
  Context {memory_ : Memory} {icu : ICU} {icu_text : ICUText}.
  Context (Halloc : forall n, alloc_ok n = true).
  Context (Hmem : forall n, (0 < n)%nat -> mem_ok n n = true).

(** A pattern [Parse] compiles.  By [ok_disj]: literals are ASCII characters other than the syntax characters;
    a reference names a group opened before it and is followed by something else than a digit; the bounds of a
    quantifier are ordered; [\u] needs the u flag to be off and an escape i and u not to be both on; the first of several
    alternatives, a quantified atom and a term in a lookbehind emit code.  There are no bracketed classes, named
    groups or other characters in the syntax [disj].  The pattern has at most 255 groups and its code fits a 32-bit size. *)
Definition pattern_ok (flags : Z) (d : disj) : Prop :=
  ok_disj flags false 1 d = true /\ captures_disj d <= 255 /\ 0 <= flags < 2 ^ 32 /\
  RegExpMatch.code_end (compile flags d) < 2 ^ 32.

Lemma compiled_ok (flags : Z) (d : disj) : pattern_ok flags d -> RegExpMatch.program_ok (compile flags d).
Proof.
  intros (Hok & Hc & Hf & He). destruct captures_nonneg as (Nd & _). pose proof (Nd d).
  unfold RegExpMatch.code_end in He. cbn [compile RegExpMatch.p_code] in He. fold (bytes (SaveStart 0 :: compile_disj flags false 1 d ++ [SaveEnd 0; MatchEnd])) in He.
  assert (Hl : len (SaveStart 0 :: compile_disj flags false 1 d ++ [SaveEnd 0; MatchEnd]) < 2 ^ 32) by (unfold len; lia).
  rewrite len_cons, len_app in Hl. pose proof (len_ge_0 [SaveEnd 0; MatchEnd]).
  destruct (code_sound flags) as (Hs & _). destruct (Hs d false 1 Hok) as [_ Hg]; [lia|lia|].
  assert (Hgood : Forall good (SaveStart 0 :: compile_disj flags false 1 d ++ [SaveEnd 0; MatchEnd])).
  { apply Forall_cons_2; [by apply (good_u8 _ 0)|]. apply Forall_app_2; [apply Hg; lia|].
    apply Forall_cons_2; [by apply (good_u8 _ 0)|]. apply Forall_cons_2; [by apply good_none|constructor]. }
  split; cbn [compile RegExpMatch.p_captures RegExpMatch.p_flags RegExpMatch.p_code]; [lia|done|done| |];
    (eapply Forall_impl; [exact Hgood|]); by intros i [? ?].
Qed.

Lemma Parse_rest_runs (flags : Z) (d : disj) (tail : list Z) (fuel : nat) : pattern_ok flags d ->
  (4 * length (print_disj d) + 3 <= fuel)%nat ->
  runs (print_disj d) tail flags (Parse_rest fuel) (mkConf (print_disj d) 0 0 blank) tt
    (mkConf [] (1 + captures_disj d) (counters_disj d) (RegExpMatch.buffer (compile flags d))).
Proof.
  intros Hok Hf. pose proof (compiled_ok flags d Hok) as [_ _ _ Hi _]. destruct Hok as (Hok & Hc & Hfl & He).
  destruct captures_nonneg as (Nd & _). pose proof (Nd d). destruct counters_nonneg as (Md & _). pose proof (Md d).
  destruct (code_sound flags) as (Hs & _). destruct (Hs d false 1 Hok) as [Hcnt _]; [lia|lia|].
  unfold RegExpMatch.buffer, RegExpMatch.header. cbn [compile RegExpMatch.p_code RegExpMatch.p_captures RegExpMatch.p_counters RegExpMatch.p_flags].
  unfold RegExpMatch.code_end in *. cbn [compile RegExpMatch.p_code] in *. rewrite !Z2Nat.id by lia.
  set (B := compile_disj flags false 1 d) in *. fold (bytes (SaveStart 0 :: B ++ [SaveEnd 0; MatchEnd])) in *.
  apply Forall_cons in Hi as [Hi1 Hi]. apply Forall_app in Hi as [HiB [Hi2 [Hi3 _]%Forall_cons]%Forall_cons].
  unfold Parse_rest. apply runs_new_capture. change (0 + 1) with 1. eapply runs_bind; [by apply (emit_save_runs Halloc Hmem _ _ _ true)|].
  eapply runs_bind.
  { rewrite <- (app_nil_r (print_disj d)) at 2. eapply parser_runs; [done|done|exact Hok|by left|done|exact Hf]. }
  apply runs_c0. change (negb _) with false. cbv iota. eapply runs_bind; [by apply (emit_save_runs Halloc Hmem _ _ _ false)|].
  eapply (runs_emit Halloc Hmem _ _ _ MatchEnd); [constructor|done|done|].
  cbn [at_code c_text c_captures c_counters c_code]. cbv iota.
  assert (Hcode : (((blank ++ encode (SaveStart 0)) ++ bytes B) ++ encode (SaveEnd 0)) ++ encode MatchEnd =
    blank ++ bytes (SaveStart 0 :: B ++ [SaveEnd 0; MatchEnd]))
    by (by rewrite bytes_cons, bytes_app, <- !app_assoc).
  fold B. rewrite Hcode. set (prog := bytes (SaveStart 0 :: B ++ [SaveEnd 0; MatchEnd])) in *.
  assert (Hlen : len B <= Z.of_nat (length prog)) by (unfold prog, len; rewrite bytes_cons, bytes_app, !length_app; lia).
  apply runs_code_size. apply runs_captures. apply runs_counters. eapply runs_get; [intros s []; done|].
  cbn [at_code c_code c_text c_captures c_counters]. rewrite length_app. change (length blank) with OP_START_OFFSET.
  rewrite (wrapu_id 32 (1 + captures_disj d)), (wrapu_id 32 (0 + counters_disj d)) by (unfold in_u; lia).
  unfold blank. rewrite <- !app_assoc.
  eapply runs_bind; [apply (runs_put _ _ _ 0 _ [] (bytes_of 4 0)); [done|done|done|unfold in_u; lia]|].
  eapply runs_bind; [eapply (runs_put _ _ _ 4 _ (bytes_of 4 _) (bytes_of 4 0)); [done|done|done|unfold in_u; lia]|].
  eapply runs_bind; [eapply (runs_put _ _ _ 8 _ (bytes_of 4 _ ++ bytes_of 4 _) (bytes_of 4 0)); [by rewrite <- app_assoc|done|done|unfold in_u; lia]|].
  eapply runs_to; [eapply (runs_put _ _ _ 12 _ (bytes_of 4 _ ++ bytes_of 4 _ ++ bytes_of 4 _) (bytes_of 4 0));
    [by rewrite <- !app_assoc|done|done|done]|].
  done.
Qed.

(** C21: [Parse] compiles: on the text of a pattern that meets [pattern_ok], with memory for its buffers,
    whatever lies behind it in
    memory, it ends without an error and the buffer holds exactly the program
    of the pattern: its instructions in order, with the jumps over alternatives,
    lookarounds and repetitions, and the header with the size of the code and
    the numbers of captures and counters.  Fuel linear in the pattern is enough. *)
Theorem Parse_compiles (flags : Z) (d : disj) (tail : list Z) (fuel : nat) :
  pattern_ok flags d -> (4 * length (print_disj d) + 3 <= fuel)%nat ->
  exists s, Parse fuel (Init (print_disj d ++ tail) (Z.of_nat (length (print_disj d))) flags) = Done (s, tt) /\
    isError_ s = false /\ contents (buffer_ s) = RegExpMatch.buffer (compile flags d).
Proof.
  intros Hok Hf. destruct (Parse_starts Halloc Hmem (print_disj d) tail flags fuel) as (s & -> & Hs).
  destruct (Parse_rest_runs flags d tail fuel Hok Hf s Hs) as (s' & -> & []). by exists s'.
Qed.

(** C27: a pattern that meets [pattern_ok] and an input determine the result: with memory for the parser's
    buffers and for [limit] waiting attempts, where the backtracking
    semantics of the program of the pattern has an answer on an input, [Execute],
    given the bytes that [Parse] leaves in its buffer, returns that answer, with
    its end position and its captures. *)
Theorem Parse_then_Execute (flags : Z) (d : disj) (tail : list Z) (limit fuel : nat) (i : RegExpMatch.Input) r :
  pattern_ok flags d -> RegExpMatch.memory_for limit (compile flags d) -> (0 < limit)%nat ->
  RegExpMatch.match_from limit fuel (compile flags d) i = Done r ->
  exists s k e,
    Parse (4 * length (print_disj d) + 3) (Init (print_disj d ++ tail) (Z.of_nat (length (print_disj d))) flags) = Done (s, tt) /\
    (forall n, RegExpExecutor.Execute (k + n) (RegExpMatch.in_base i) (RegExpMatch.in_bytes i) (RegExpMatch.in_first i)
                 (RegExpMatch.in_length i) (contents (buffer_ s)) (RegExpMatch.in_wide i) RegExpExecutor.new_executor =
               Done (e, match r with Some _ => true | None => false end)) /\
    match r with
    | Some th => RegExpExecutor.currentPtr_ e = RegExpMatch.t_ptr th /\ RegExpExecutor.captureResultList_ e = RegExpMatch.t_caps th
    | None => True
    end.
Proof.
  intros Hok Hm Hl Hr. destruct (Parse_starts Halloc Hmem (print_disj d) tail flags (4 * length (print_disj d) + 3)) as (s & E & Hs).
  destruct (Parse_rest_runs flags d tail _ Hok (Nat.le_refl _) s Hs) as (s' & E' & []).
  destruct (RegExpMatch.Execute_realises limit fuel (compile flags d) i r (compiled_ok _ _ Hok) Hm Hl Hr) as (k & e & He & Hr').
  exists s', k, e. rewrite E, at_contents0. done.
Qed.

Lemma ParseError_done (msg : string) s : ParseError msg s = Done (set_error msg s, tt).
Proof. unfold ParseError, modify, mbind, M_bind. by rewrite Hmem by lia. Qed.

(** C28: a closing parenthesis that no group opens is an error: behind any
    pattern that meets [pattern_ok], whatever follows it, [Parse] ends with the error set. *)
Theorem Parse_rejects_unopened (flags : Z) (d : disj) (rest tail : list Z) (fuel : nat) :
  pattern_ok flags d -> (4 * length (print_disj d) + 3 <= fuel)%nat ->
  let text := print_disj d ++ 41 :: rest in
  exists s, Parse fuel (Init (text ++ tail) (Z.of_nat (length text)) flags) = Done (s, tt) /\
    isError_ s = true /\ errorMsg_ s = "extraneous characters at the end"%string.
Proof.
  intros Hok Hf text. destruct (Parse_starts Halloc Hmem text tail flags fuel) as (s & -> & Hs).
  pose proof (compiled_ok flags d Hok) as [_ _ _ Hi _]. cbn [compile RegExpMatch.p_code] in Hi.
  apply Forall_cons in Hi as [Hi1 Hi]. apply Forall_app in Hi as [Hi _]. destruct Hok as (Hok & _).
  assert (H1 : runs text tail flags new_capture (mkConf text 0 0 blank) 0 (mkConf text 1 0 blank))
    by (apply runs_captures, runs_counters, runs_counts, runs_ret).
  destruct (H1 s Hs) as (s1 & E1 & Hs1).
  destruct (emit_save_runs Halloc Hmem text tail flags true 0 _ _ _ _ Hi1 s1 Hs1) as (s2 & E2 & Hs2).
  destruct (parser_runs Halloc Hmem text tail flags fuel) as (Hd & _).
  destruct (Hd d false 1 0 (41 :: rest) _ Hok ltac:(by right) Hi Hf s2 Hs2) as (s3 & E3 & Hs3).
  exists (set_error "extraneous characters at the end" s3). split; [|done].
  unfold Parse_rest. rewrite (bind_done _ _ _ _ _ E1), (bind_done _ _ _ _ _ E2), (bind_done _ _ _ _ _ E3).
  unfold gets, mbind, M_bind. rewrite (at_c0 _ _ _ _ _ Hs3). apply ParseError_done.
Qed.
End compilation.

(** * Concrete patterns *)
#[local] Existing Instance ex_memory.
#[local] Existing Instance RegExpMatch.ex_icu.
(** Identifiers of ASCII letters, no malformed text, no case closure. *)
#[local] Instance ex_icu_text : ICUText := {|
  u_isIDStart := fun c => (97 <=? c) && (c <=? 122);
  u_isIDPart := fun c => (97 <=? c) && (c <=? 122);
  U8_NEXT := fun bytes i _ => (i + 1, nth (Z.to_nat i) bytes (-1));
  closeOver := fun c => [c] |}.

Definition lit (c : Z) : term := Repeat (Simple (Literal c)) None.
(** [(?<=x)(a|b)+?\d{2,3}$] *)
Definition ex_pattern : disj :=
  Disj
    (Seq (Look true false (Disj (Seq (lit 120) Empty) NoAlts))
    (Seq (Repeat (Capture (Disj (Seq (lit 97) Empty) (Alts (Seq (lit 98) Empty) NoAlts))) (Some (Plus, false)))
    (Seq (Repeat (Simple (InClass Digit false)) (Some (Between [50] [51], true)))
    (Seq (Assert AtLineEnd) Empty)))) NoAlts.

Lemma ex_pattern_ok : pattern_ok 0 ex_pattern.
Proof. repeat split; vm_compute; congruence. Qed.

Lemma Parse_compiles_witness :
  exists s, Parse 200 (Init (print_disj ex_pattern ++ [0]) (Z.of_nat (length (print_disj ex_pattern))) 0) = Done (s, tt) /\
    isError_ s = false /\ contents (buffer_ s) = RegExpMatch.buffer (compile 0 ex_pattern).
Proof.
  apply (@Parse_compiles ex_memory RegExpMatch.ex_icu ex_icu_text (fun _ => eq_refl) ex_mem_ok 0 ex_pattern [0] 200 ex_pattern_ok).
  apply Nat.leb_le. vm_compute. reflexivity.
Defined.

(** The pattern on "xab12". *)
Definition ex_input : RegExpMatch.Input := RegExpMatch.ex_text [120; 97; 98; 49; 50].
Lemma Parse_then_Execute_witness :
  exists th, RegExpMatch.t_caps th = [(Some 1, Some 5); (Some 2, Some 3)] /\
  exists s k e,
    Parse (4 * length (print_disj ex_pattern) + 3)
      (Init (print_disj ex_pattern ++ [0]) (Z.of_nat (length (print_disj ex_pattern))) 0) = Done (s, tt) /\
    (forall n, RegExpExecutor.Execute (k + n) 4096 [120; 97; 98; 49; 50] 0 5 (contents (buffer_ s)) false
                 RegExpExecutor.new_executor = Done (e, true)) /\
    RegExpExecutor.currentPtr_ e = RegExpMatch.t_ptr th /\ RegExpExecutor.captureResultList_ e = RegExpMatch.t_caps th.
Proof.
  eexists. split; cycle 1.
  - apply (@Parse_then_Execute ex_memory RegExpMatch.ex_icu ex_icu_text (fun _ => eq_refl) ex_mem_ok 0 ex_pattern [0] 20 200 ex_input
      (Some _) ex_pattern_ok).
    + apply RegExpMatch.ex_memory_for. vm_compute. reflexivity.
    + lia.
    + vm_compute. reflexivity.
  - reflexivity.
Defined.

Lemma Parse_rejects_unopened_witness :
  exists s, Parse 200 (Init ((print_disj ex_pattern ++ [41; 42]) ++ [0]) (Z.of_nat (length (print_disj ex_pattern ++ [41; 42]))) 0) =
      Done (s, tt) /\ isError_ s = true /\ errorMsg_ s = "extraneous characters at the end"%string.
Proof.
  apply (@Parse_rejects_unopened ex_memory RegExpMatch.ex_icu ex_icu_text (fun _ => eq_refl) ex_mem_ok 0 ex_pattern [42] [0] 200
    ex_pattern_ok).
  apply Nat.leb_le. vm_compute. reflexivity.
Defined.
End Compile.
