(* ===== verification/RegExpPatterns.v ===== *)
(** Concrete patterns, through the parser and the matcher.

    Patterns on which the engine differs from ECMAScript, or does not end: each
    is parsed by RegExpParser.v and, where it compiles, run by RegExpExecutor.v. *)
From S2P Require Import Prelude.
From S2P Require Import DynChunk.
From S2P Require Import RegExpOpCode.
From S2P Require Import RegExpExecutor.
From S2P Require Import RegExpMatch.
From S2P Require Import RegExpParser.
From S2P Require Import RegExpCompile.
From stdpp Require Import list.
From Stdlib Require Import String Ascii.
Local Open Scope Z_scope.
Local Open Scope ark_scope.
#[local] Abbreviation length := List.length.

Module Patterns.
Import Chunk RegExpOpCode RegExpParser.
#[local] Existing Instance ex_memory.
#[local] Existing Instance RegExpMatch.ex_icu.
#[local] Existing Instance Compile.ex_icu_text.

Fixpoint characters (s : string) : list Z :=
  match s with EmptyString => [] | String c s => Z.of_nat (nat_of_ascii c) :: characters s end.
(** The parser on a pattern, without flags. *)
Definition parsed (fuel : nat) (pattern : string) : outcome (Parser * unit) :=
  Parse fuel (Init (characters pattern ++ [0]) (Z.of_nat (String.length pattern)) 0).
(** The error, if any. *)
Definition error_of (pattern : string) : outcome bool := r ← parsed 60 pattern; Done (isError_ (fst r)).
(** The captures of a match. *)
Definition matched (pattern text : string) : outcome (option (list (option Z * option Z))) :=
  r ← parsed 60 pattern;
  m ← RegExpExecutor.Execute 200 4096 (characters text) 0 (Z.of_nat (String.length text)) (contents (buffer_ (fst r))) false
        RegExpExecutor.new_executor;
  Done (if snd m : bool then Some (RegExpExecutor.captureResultList_ (fst m)) else None).

(** ** Patterns that are parsed for ever *)
(** The loop over alternatives does not look at the error: at a character that
    neither starts nor ends an alternative it never leaves. *)
Lemma ParseDisjunction_loop_stuck (fuel : nat) (back : bool) (start : nat) (s : Parser) :
  c0_ s <> 124 -> c0_ s <> KEY_EOF -> c0_ s <> 41 -> ParseDisjunction_loop fuel back start s = NoFuel.
Proof.
  intros H1 H2 H3. induction fuel as [|fuel IH]; [done|]. cbn [ParseDisjunction_loop]; unfold ParseDisjunction_round.
  unfold gets, mbind, M_bind. rewrite (proj2 (Z.eqb_neq _ _) H1). cbn. unfold mret, M_ret.
  rewrite (proj2 (Z.eqb_neq _ _) H2), (proj2 (Z.eqb_neq _ _) H3). cbn. apply IH.
Qed.
Lemma second_alternative_diverges : parsed 60 "a|*" = NoFuel.
Proof. vm_compute. reflexivity. Qed.
Lemma group_error_diverges : parsed 40 "(*)" = NoFuel.
Proof. vm_compute. reflexivity. Qed.

(** ** Patterns with another meaning *)
(** The first character of a group name must not start an identifier. *)
Lemma named_group_rejected : error_of "(?<n>a)" = Done true.
Proof. vm_compute. reflexivity. Qed.
(** A name of 129 characters is written behind its array. *)
Lemma group_name_overflows :
  Parse 20 (Init (characters "(?<1" ++ replicate 128 97 ++ characters ">b)" ++ [0]) 135 0) = Crash.
Proof. vm_compute. reflexivity. Qed.
(** No repetition is one. *)
Lemma zero_repetitions_match_one : matched "a{0}" "a" = Done (Some [(Some 0, Some 1)]).
Proof. vm_compute. reflexivity. Qed.
(** An empty first alternative loses the others. *)
Lemma empty_alternative_lost : matched "(|a)b" "ab" = Done (Some [(Some 1, Some 2); (Some 1, Some 1)]).
Proof. vm_compute. reflexivity. Qed.
(** A repetition of nothing counts on an empty stack. *)
Lemma empty_repetition_crashes : error_of "(?:)*" = Done false /\ matched "(?:)*" "" = Crash.
Proof. vm_compute. done. Qed.
(** In a lookbehind an escaped character is read forwards. *)
Lemma lookbehind_escape_fails : matched "(?<=\.)a" ".a" = Done None /\ matched "(?<=[.])a" ".a" = Done (Some [(Some 1, Some 2)]).
Proof. vm_compute. done. Qed.
(** In a lookbehind a lookahead looks back. *)
Lemma lookahead_in_lookbehind_fails : matched "(?<=b(?=ac))a" "bac" = Done None.
Proof. vm_compute. reflexivity. Qed.
(** A group that does not capture keeps the captures of the last round. *)
Lemma inner_capture_kept : matched "(?:(a)|b)*" "ab" = Done (Some [(Some 0, Some 2); (Some 0, Some 1)]).
Proof. vm_compute. reflexivity. Qed.
End Patterns.
