(* ===== verification/MarkWord.v ===== *)
(** Mark words: runtime/mark_word.h, runtime/mark_word.cpp and the memory-model
    configurations of runtime/object_header_config.h.

    The mark word is the first machine word of every object header.  Its two low
    bits select what the rest of the word holds: nothing or a light lock (thread
    id and recursion count), a monitor id, a hash code or a forwarding address.
    Two more bits belong to the garbage collector.  The masks and shifts are
    definitions over a configuration, as the enumerators of the code are; a word
    is a [Z] in the range of the configuration's unsigned type.

    [view] is the abstract reading of a word and [flags] the two collector bits;
    the lemmas of the second half give, for every operation of the class, the
    view and the flags of its result. *)
From Stdlib Require Import ZArith Lia Bool.
From stdpp Require Import base decidable.
From S2P Require Import Prelude.
Local Open Scope Z_scope.
Local Open Scope ark_scope.

(** A configuration: the template parameters of [HighEndConfig] and
    [LowEndConfig]. *)
Class MemoryModelConfig := {
  BITS : Z;
  LOCK_THREADID_SIZE : Z;
  IS_HASH_IN_OBJ_HEADER : bool;
}.

Definition HighEndConfig32 : MemoryModelConfig :=
  {| BITS := 32; LOCK_THREADID_SIZE := 13; IS_HASH_IN_OBJ_HEADER := true |}.

Definition HighEndConfig64 : MemoryModelConfig :=
  {| BITS := 64; LOCK_THREADID_SIZE := 29; IS_HASH_IN_OBJ_HEADER := true |}.

Definition LowEndConfig32 : MemoryModelConfig :=
  {| BITS := 16; LOCK_THREADID_SIZE := 7; IS_HASH_IN_OBJ_HEADER := true |}.

(** What the layouts of the three configurations have in common. *)
Class ConfigLayout `{MemoryModelConfig} : Prop := {
  layout_hash : IS_HASH_IN_OBJ_HEADER = true;
  layout_tid : 0 < LOCK_THREADID_SIZE <= 32;
  layout_count : 1 < BITS - 4 - LOCK_THREADID_SIZE <= 32;
}.

Lemma HighEndConfig32_layout : @ConfigLayout HighEndConfig32.
Proof. split; simpl; (reflexivity || lia). Qed.
Lemma HighEndConfig64_layout : @ConfigLayout HighEndConfig64.
Proof. split; simpl; (reflexivity || lia). Qed.
Lemma LowEndConfig32_layout : @ConfigLayout LowEndConfig32.
Proof. split; simpl; (reflexivity || lia). Qed.

(** [MarkWord::ObjectState]. *)
Inductive ObjectState :=
| STATE_UNLOCKED
| STATE_LIGHT_LOCKED
| STATE_HEAVY_LOCKED
| STATE_HASHED
| STATE_GC.

#[export] Instance ObjectState_eq_dec : EqDecision ObjectState.
Proof. solve_decision. Defined.

Module MarkWord.
Section Operations.
Context `{MemoryModelConfig}.

(** ** The enumeration of masks and shifts *)
Definition CONFIG_HASH_STATUS_SIZE : Z := if IS_HASH_IN_OBJ_HEADER then 0 else 1.
Definition STATUS_SIZE : Z := 2.
Definition GC_STATUS_SIZE : Z := 1.
Definition RB_STATUS_SIZE : Z := 1.
Definition HASH_STATUS_SIZE : Z := CONFIG_HASH_STATUS_SIZE.
Definition MONITOR_POINTER_SIZE : Z :=
  BITS - STATUS_SIZE - GC_STATUS_SIZE - RB_STATUS_SIZE - HASH_STATUS_SIZE.
Definition HASH_SIZE : Z :=
  if CONFIG_HASH_STATUS_SIZE != 0 then 0
  else BITS - STATUS_SIZE - GC_STATUS_SIZE - RB_STATUS_SIZE.
Definition FORWARDING_ADDRESS_SIZE : Z := BITS - STATUS_SIZE - HASH_STATUS_SIZE.

Definition UNLOCKED_STATE_SHIFT : Z := BITS - MONITOR_POINTER_SIZE.
Definition UNLOCKED_STATE_MASK : Z := Z.shiftl 1 MONITOR_POINTER_SIZE - 1.
Definition UNLOCKED_STATE_MASK_IN_PLACE : Z :=
  Z.shiftl UNLOCKED_STATE_MASK UNLOCKED_STATE_SHIFT.

Definition LIGHT_LOCK_THREADID_SIZE : Z := LOCK_THREADID_SIZE.
Definition LIGHT_LOCK_LOCK_COUNT_SIZE : Z := MONITOR_POINTER_SIZE - LIGHT_LOCK_THREADID_SIZE.
Definition LIGHT_LOCK_LOCK_COUNT_SHIFT : Z := BITS - MONITOR_POINTER_SIZE.
Definition LIGHT_LOCK_LOCK_COUNT_MASK : Z := Z.shiftl 1 LIGHT_LOCK_LOCK_COUNT_SIZE - 1.
Definition LIGHT_LOCK_LOCK_COUNT_MASK_IN_PLACE : Z :=
  Z.shiftl LIGHT_LOCK_LOCK_COUNT_MASK LIGHT_LOCK_LOCK_COUNT_SHIFT.
Definition LIGHT_LOCK_LOCK_MAX_COUNT : Z := LIGHT_LOCK_LOCK_COUNT_MASK.
Definition LIGHT_LOCK_THREADID_SHIFT : Z :=
  BITS - MONITOR_POINTER_SIZE + LIGHT_LOCK_LOCK_COUNT_SIZE.
Definition LIGHT_LOCK_THREADID_MASK : Z := Z.shiftl 1 LIGHT_LOCK_THREADID_SIZE - 1.
Definition LIGHT_LOCK_THREADID_MASK_IN_PLACE : Z :=
  Z.shiftl LIGHT_LOCK_THREADID_MASK LIGHT_LOCK_THREADID_SHIFT.
Definition LIGHT_LOCK_THREADID_MAX_COUNT : Z := LIGHT_LOCK_THREADID_MASK.

Definition MONITOR_POINTER_SHIFT : Z := BITS - MONITOR_POINTER_SIZE.
Definition MONITOR_POINTER_MASK : Z := Z.shiftl 1 MONITOR_POINTER_SIZE - 1.
Definition MONITOR_POINTER_MASK_IN_PLACE : Z :=
  Z.shiftl MONITOR_POINTER_MASK MONITOR_POINTER_SHIFT.
Definition MONITOR_POINTER_MAX_COUNT : Z := MONITOR_POINTER_MASK.

Definition HASH_SHIFT : Z := BITS - HASH_SIZE.
Definition HASH_MASK : Z := Z.shiftl 1 HASH_SIZE - 1.
Definition HASH_MASK_IN_PLACE : Z := Z.shiftl HASH_MASK HASH_SHIFT.

Definition FORWARDING_ADDRESS_SHIFT : Z := BITS - FORWARDING_ADDRESS_SIZE.
Definition FORWARDING_ADDRESS_MASK : Z := Z.shiftl 1 FORWARDING_ADDRESS_SIZE - 1.
Definition FORWARDING_ADDRESS_MASK_IN_PLACE : Z :=
  Z.shiftl FORWARDING_ADDRESS_MASK FORWARDING_ADDRESS_SHIFT.

Definition STATUS_SHIFT : Z := 0.
Definition STATUS_MASK : Z := Z.shiftl 1 STATUS_SIZE - 1.
Definition STATUS_MASK_IN_PLACE : Z := Z.shiftl STATUS_MASK STATUS_SHIFT.

Definition STATUS_UNLOCKED : Z := 0.
Definition STATUS_LIGHTWEIGHT_LOCK : Z := 0.
Definition STATUS_HEAVYWEIGHT_LOCK : Z := 1.
Definition STATUS_HASHED : Z := 2.
Definition STATUS_GC : Z := 3.

Definition GC_STATUS_SHIFT : Z := STATUS_SIZE.
Definition GC_STATUS_MASK : Z := Z.shiftl 1 GC_STATUS_SIZE - 1.
Definition GC_STATUS_MASK_IN_PLACE : Z := Z.shiftl GC_STATUS_MASK GC_STATUS_SHIFT.

Definition RB_STATUS_SHIFT : Z := STATUS_SIZE + GC_STATUS_SIZE.
Definition RB_STATUS_MASK : Z := Z.shiftl 1 RB_STATUS_SIZE - 1.
Definition RB_STATUS_MASK_IN_PLACE : Z := Z.shiftl RB_STATUS_MASK RB_STATUS_SHIFT.

Definition HASH_STATUS_SHIFT : Z := STATUS_SIZE + GC_STATUS_SIZE + RB_STATUS_SIZE.
Definition HASH_STATUS_MASK : Z := Z.shiftl 1 HASH_STATUS_SIZE - 1.
Definition HASH_STATUS_MASK_IN_PLACE : Z := Z.shiftl HASH_STATUS_MASK HASH_STATUS_SHIFT.

(** A conversion to [MarkWordSize]. *)
Definition size (x : Z) : Z := wrapu BITS x.

(** ** The operations of the class: the first argument is [Value()] *)
Definition DecodeFromMonitor (v monitor : Z) : Z :=
  let temp := Z.land v (Z.lnot (Z.lor MONITOR_POINTER_MASK_IN_PLACE STATUS_MASK_IN_PLACE)) in
  let monitorInPlace :=
    size (Z.shiftl (Z.land (size monitor) MONITOR_POINTER_MASK) MONITOR_POINTER_SHIFT) in
  Z.lor (Z.lor temp monitorInPlace) (Z.shiftl STATUS_HEAVYWEIGHT_LOCK STATUS_SHIFT).

Definition DecodeFromForwardingAddressField (v forwardingAddress : Z) : Z :=
  let forwardingAddressInPlace :=
    size (Z.shiftl (Z.land forwardingAddress FORWARDING_ADDRESS_MASK)
            FORWARDING_ADDRESS_SHIFT) in
  Z.lor forwardingAddressInPlace (Z.shiftl STATUS_GC STATUS_SHIFT).

Definition DecodeFromForwardingAddress (v forwardingAddress : Z) : Z :=
  DecodeFromForwardingAddressField v
    (Z.shiftr forwardingAddress FORWARDING_ADDRESS_SHIFT).

Definition DecodeFromLightLock (v threadId count : Z) : Z :=
  let temp :=
    Z.land v (Z.lnot (Z.lor (Z.lor LIGHT_LOCK_THREADID_MASK_IN_PLACE
                               LIGHT_LOCK_LOCK_COUNT_MASK_IN_PLACE)
                        STATUS_MASK_IN_PLACE)) in
  let lightlockThreadInPlace :=
    size (Z.shiftl (Z.land (size threadId) LIGHT_LOCK_THREADID_MASK)
            LIGHT_LOCK_THREADID_SHIFT) in
  let lightlockLockCountInPlace :=
    size (Z.shiftl (Z.land (size count) LIGHT_LOCK_LOCK_COUNT_MASK)
            LIGHT_LOCK_LOCK_COUNT_SHIFT) in
  Z.lor (Z.lor (Z.lor temp lightlockThreadInPlace) lightlockLockCountInPlace)
    (Z.shiftl STATUS_LIGHTWEIGHT_LOCK STATUS_SHIFT).

Definition DecodeFromUnlocked (v : Z) : Z :=
  let unlocked :=
    Z.land v (Z.lnot (Z.lor UNLOCKED_STATE_MASK_IN_PLACE STATUS_MASK_IN_PLACE)) in
  Z.lor unlocked (Z.shiftl STATUS_UNLOCKED STATUS_SHIFT).

Definition IsMarkedForGC (v : Z) : bool := Z.land v GC_STATUS_MASK_IN_PLACE != 0.
Definition IsReadBarrierSet (v : Z) : bool := Z.land v RB_STATUS_MASK_IN_PLACE != 0.

Definition SetMarkedForGC (v : Z) : Z :=
  Z.lor (Z.land v (Z.lnot GC_STATUS_MASK_IN_PLACE)) GC_STATUS_MASK_IN_PLACE.
Definition SetUnMarkedForGC (v : Z) : Z := Z.land v (Z.lnot GC_STATUS_MASK_IN_PLACE).
Definition SetReadBarrier (v : Z) : Z :=
  Z.lor (Z.land v (Z.lnot RB_STATUS_MASK_IN_PLACE)) RB_STATUS_MASK_IN_PLACE.
Definition ClearReadBarrier (v : Z) : Z := Z.land v (Z.lnot RB_STATUS_MASK_IN_PLACE).

Definition GetState (v : Z) : ObjectState :=
  let status := Z.land (Z.shiftr v STATUS_SHIFT) STATUS_MASK in
  if status == STATUS_HEAVYWEIGHT_LOCK then STATE_HEAVY_LOCKED
  else if status == STATUS_HASHED then STATE_HASHED
  else if status == STATUS_GC then STATE_GC
  else if status == STATUS_UNLOCKED then
    if Z.land v UNLOCKED_STATE_MASK_IN_PLACE == 0 then STATE_UNLOCKED else STATE_LIGHT_LOCKED
  else STATE_GC.

Definition GetThreadId (v : Z) : Z :=
  wrapu 32 (Z.land (Z.shiftr v LIGHT_LOCK_THREADID_SHIFT) LIGHT_LOCK_THREADID_MASK).
Definition GetLockCount (v : Z) : Z :=
  wrapu 32 (Z.land (Z.shiftr v LIGHT_LOCK_LOCK_COUNT_SHIFT) LIGHT_LOCK_LOCK_COUNT_MASK).
Definition GetForwardingAddressField (v : Z) : Z :=
  Z.land (Z.shiftr v FORWARDING_ADDRESS_SHIFT) FORWARDING_ADDRESS_MASK.
Definition GetForwardingAddress (v : Z) : Z :=
  size (Z.shiftl (GetForwardingAddressField v) FORWARDING_ADDRESS_SHIFT).
Definition GetMonitorId (v : Z) : Z :=
  Z.land (Z.shiftr v MONITOR_POINTER_SHIFT) MONITOR_POINTER_MASK.

(** The four functions of mark_word.cpp whose body depends on where the
    configuration keeps hash codes. *)
Definition GetHashConfigured (policy : bool) (v : Z) : Z :=
  if policy then wrapu 32 (Z.land (Z.shiftr v HASH_SHIFT) HASH_MASK) else 0.
Definition GetHash (v : Z) : Z := GetHashConfigured IS_HASH_IN_OBJ_HEADER v.

Definition DecodeFromHashConfigured (policy : bool) (v hash : Z) : Z :=
  if policy then
    let temp := Z.land v (Z.lnot (Z.lor HASH_MASK_IN_PLACE STATUS_MASK_IN_PLACE)) in
    let hashInPlace := size (Z.shiftl (Z.land (size hash) HASH_MASK) HASH_SHIFT) in
    Z.lor (Z.lor temp hashInPlace) (Z.shiftl STATUS_HASHED STATUS_SHIFT)
  else 0.
Definition DecodeFromHash (v hash : Z) : Z :=
  DecodeFromHashConfigured IS_HASH_IN_OBJ_HEADER v hash.

Definition SetHashedConfigured (policy : bool) (v : Z) : Z :=
  if policy then 0
  else Z.lor (Z.land v (Z.lnot HASH_STATUS_MASK_IN_PLACE)) HASH_STATUS_MASK_IN_PLACE.
Definition SetHashed (v : Z) : Z := SetHashedConfigured IS_HASH_IN_OBJ_HEADER v.

Definition IsHashedConfigured (policy : bool) (v : Z) : bool :=
  if policy then false else Z.land v HASH_STATUS_MASK_IN_PLACE != 0.
Definition IsHashed (v : Z) : bool := IsHashedConfigured IS_HASH_IN_OBJ_HEADER v.

End Operations.
End MarkWord.

Example HighEndConfig32_light :
  let _ := HighEndConfig32 in
  MarkWord.DecodeFromLightLock 0x0C 5 3 = 0x28_003C.
Proof. reflexivity. Qed.

(** ** The abstract reading of a word *)

(** What a word says of its object. *)
Inductive view :=
| VUnlocked
| VLight (threadId count : Z)
| VHeavy (monitor : Z)
| VHashed (hash : Z)
| VForward (address : Z).

#[export] Instance view_eq_dec : EqDecision view.
Proof. solve_decision. Defined.

Section Views.
Context `{MemoryModelConfig}.

Definition view_of (v : Z) : view :=
  match MarkWord.GetState v with
  | STATE_UNLOCKED => VUnlocked
  | STATE_LIGHT_LOCKED => VLight (MarkWord.GetThreadId v) (MarkWord.GetLockCount v)
  | STATE_HEAVY_LOCKED => VHeavy (MarkWord.GetMonitorId v)
  | STATE_HASHED => VHashed (MarkWord.GetHash v)
  | STATE_GC => VForward (MarkWord.GetForwardingAddress v)
  end.

(** The two bits of the collector: marked, and read barrier. *)
Definition flags_of (v : Z) : bool * bool :=
  (MarkWord.IsMarkedForGC v, MarkWord.IsReadBarrierSet v).

(** A word of the configuration's unsigned type. *)
Definition is_word (v : Z) : Prop := in_u BITS v.

(** The width of the recursion count. *)
Definition count_size : Z := BITS - 4 - LOCK_THREADID_SIZE.

Context `{!ConfigLayout}.

Lemma BITS_pos : 4 < BITS.
Proof. pose proof layout_tid. pose proof layout_count. lia. Qed.

Lemma count_size_pos : 1 < count_size <= 32.
Proof. apply layout_count. Qed.

(** The layout of the configurations: every payload starts at bit 4. *)
Lemma layout_constants :
  MarkWord.MONITOR_POINTER_SIZE = BITS - 4 /\ MarkWord.HASH_SIZE = BITS - 4 /\
  MarkWord.FORWARDING_ADDRESS_SIZE = BITS - 2 /\
  MarkWord.LIGHT_LOCK_LOCK_COUNT_SIZE = count_size /\
  MarkWord.LIGHT_LOCK_THREADID_SHIFT = 4 + count_size.
Proof.
  unfold MarkWord.LIGHT_LOCK_THREADID_SHIFT, MarkWord.LIGHT_LOCK_LOCK_COUNT_SIZE,
    MarkWord.LIGHT_LOCK_THREADID_SIZE, MarkWord.MONITOR_POINTER_SIZE, MarkWord.HASH_SIZE,
    MarkWord.FORWARDING_ADDRESS_SIZE, MarkWord.HASH_STATUS_SIZE,
    MarkWord.CONFIG_HASH_STATUS_SIZE, MarkWord.STATUS_SIZE, MarkWord.GC_STATUS_SIZE,
    MarkWord.RB_STATUS_SIZE, count_size.
  rewrite layout_hash. repeat split; try lia; simpl; lia.
Qed.

End Views.

Lemma sub_sub_id (a b : Z) : a - (a - b) = b.
Proof. lia. Qed.

(** Unfolds the masks of the goal down to powers of two. *)
Ltac layout :=
  destruct layout_constants as (?Lm & ?Lh & ?Lf & ?Lc & ?Lt);
  pose proof BITS_pos; pose proof count_size_pos; pose proof layout_tid;
  unfold MarkWord.MONITOR_POINTER_MASK_IN_PLACE, MarkWord.UNLOCKED_STATE_MASK_IN_PLACE,
    MarkWord.HASH_MASK_IN_PLACE, MarkWord.LIGHT_LOCK_THREADID_MASK_IN_PLACE,
    MarkWord.LIGHT_LOCK_LOCK_COUNT_MASK_IN_PLACE, MarkWord.STATUS_MASK_IN_PLACE,
    MarkWord.GC_STATUS_MASK_IN_PLACE, MarkWord.RB_STATUS_MASK_IN_PLACE,
    MarkWord.LIGHT_LOCK_LOCK_MAX_COUNT, MarkWord.MONITOR_POINTER_MAX_COUNT,
    MarkWord.LIGHT_LOCK_THREADID_MAX_COUNT,
    MarkWord.MONITOR_POINTER_MASK, MarkWord.UNLOCKED_STATE_MASK, MarkWord.HASH_MASK,
    MarkWord.LIGHT_LOCK_LOCK_COUNT_MASK, MarkWord.LIGHT_LOCK_THREADID_MASK,
    MarkWord.FORWARDING_ADDRESS_MASK, MarkWord.MONITOR_POINTER_SHIFT,
    MarkWord.UNLOCKED_STATE_SHIFT, MarkWord.HASH_SHIFT,
    MarkWord.LIGHT_LOCK_LOCK_COUNT_SHIFT, MarkWord.FORWARDING_ADDRESS_SHIFT,
    MarkWord.LIGHT_LOCK_THREADID_SIZE, MarkWord.STATUS_HEAVYWEIGHT_LOCK,
    MarkWord.STATUS_HASHED, MarkWord.STATUS_LIGHTWEIGHT_LOCK, MarkWord.STATUS_UNLOCKED,
    MarkWord.STATUS_GC, MarkWord.size;
  rewrite ?Lm, ?Lh, ?Lf, ?Lc, ?Lt, ?sub_sub_id.

#[local] Ltac Zify.zify_post_hook ::= Z.to_euclidean_division_equations.

Section Words.
Context `{MemoryModelConfig} `{!ConfigLayout}.

Lemma shl_one (n : Z) : 0 <= n -> Z.shiftl 1 n - 1 = Z.ones n.
Proof. intros. rewrite Z.ones_equiv, Z.shiftl_1_l. lia. Qed.

(** The bits a transition of the lock word keeps. *)
Definition kept (v : Z) : Z := 4 * ((v / 4) mod 4).

Lemma kept_bits (v i : Z) :
  0 <= i -> Z.testbit (kept v) i = Z.testbit v i && (2 <=? i) && (i <? 4).
Proof.
  intros Hi. unfold kept.
  replace (4 * (v / 4 mod 4)) with (Z.shiftl (Z.land (Z.shiftr v 2) (Z.ones 2)) 2).
  2: { rewrite Z.shiftl_mul_pow2, Z.land_ones, Z.shiftr_div_pow2 by lia.
       change (2 ^ 2) with 4. lia. }
  rewrite Z.shiftl_spec by lia.
  destruct (Z.leb_spec 2 i); simpl.
  - rewrite Z.land_spec, Z.shiftr_spec, Z.testbit_ones by lia.
    replace (i - 2 + 2) with i by lia.
    destruct (Z.testbit v i); simpl; [|done].
    destruct (Z.ltb_spec i 4), (Z.leb_spec 0 (i - 2)), (Z.ltb_spec (i - 2) 2); simpl; lia || done.
  - rewrite Z.testbit_neg_r by lia. by rewrite andb_false_r.
Qed.

Lemma word_high (v i : Z) : is_word v -> BITS <= i -> Z.testbit v i = false.
Proof.
  unfold is_word, in_u. intros Hv Hi.
  rewrite <- (Z.mod_small v (2 ^ BITS)) by lia. pose proof BITS_pos.
  apply Z.mod_pow2_bits_high. lia.
Qed.

(** Clearing a mask that covers the payload and the status keeps the flags. *)
Lemma clear_payload (v m : Z) :
  is_word v ->
  (forall i, 0 <= i < BITS -> Z.testbit m i = (i <? 2) || (4 <=? i)) ->
  Z.land v (Z.lnot m) = kept v.
Proof.
  intros Hv Hm. apply Z.bits_inj'. intros i Hi.
  rewrite kept_bits, Z.land_spec, Z.lnot_spec by lia.
  destruct (Z.lt_ge_cases i BITS).
  - rewrite Hm by lia. rewrite <- andb_assoc. f_equal.
    destruct (Z.ltb_spec i 2), (Z.leb_spec 4 i), (Z.leb_spec 2 i), (Z.ltb_spec i 4);
      simpl; lia || done.
  - rewrite word_high by (done || lia). done.
Qed.

Lemma mask_bits (n s i : Z) :
  0 <= n -> 0 <= s -> 0 <= i ->
  Z.testbit (Z.shiftl (Z.shiftl 1 n - 1) s) i = (s <=? i) && (i <? s + n).
Proof.
  intros. rewrite shl_one, Z.shiftl_spec by lia.
  destruct (Z.leb_spec s i); simpl.
  - rewrite Z.testbit_ones by lia.
    destruct (Z.ltb_spec i (s + n)), (Z.leb_spec 0 (i - s)), (Z.ltb_spec (i - s) n);
      simpl; lia || done.
  - apply Z.testbit_neg_r. lia.
Qed.

Lemma status_bits (i : Z) :
  0 <= i -> Z.testbit (Z.shiftl MarkWord.STATUS_MASK MarkWord.STATUS_SHIFT) i = (i <? 2).
Proof.
  intros. unfold MarkWord.STATUS_MASK, MarkWord.STATUS_SHIFT, MarkWord.STATUS_SIZE.
  rewrite mask_bits by lia. destruct (Z.leb_spec 0 i), (Z.ltb_spec i (0 + 2)), (Z.ltb_spec i 2);
    simpl; lia || done.
Qed.

Ltac mask_cases :=
  repeat match goal with
  | |- context [?a <=? ?b] => destruct (Z.leb_spec a b)
  | |- context [?a <? ?b] => destruct (Z.ltb_spec a b)
  end; simpl; lia || done.

Lemma clear_monitor (v : Z) :
  is_word v ->
  Z.land v (Z.lnot (Z.lor MarkWord.MONITOR_POINTER_MASK_IN_PLACE
                      MarkWord.STATUS_MASK_IN_PLACE)) = kept v.
Proof.
  intros. apply clear_payload; [done|]. intros i Hi. layout.
  rewrite Z.lor_spec, mask_bits, status_bits by lia. mask_cases.
Qed.

Lemma clear_hash (v : Z) :
  is_word v ->
  Z.land v (Z.lnot (Z.lor MarkWord.HASH_MASK_IN_PLACE MarkWord.STATUS_MASK_IN_PLACE)) = kept v.
Proof.
  intros. apply clear_payload; [done|]. intros i Hi. layout.
  rewrite Z.lor_spec, mask_bits, status_bits by lia. mask_cases.
Qed.

Lemma clear_light (v : Z) :
  is_word v ->
  Z.land v (Z.lnot (Z.lor (Z.lor MarkWord.LIGHT_LOCK_THREADID_MASK_IN_PLACE
                             MarkWord.LIGHT_LOCK_LOCK_COUNT_MASK_IN_PLACE)
                      MarkWord.STATUS_MASK_IN_PLACE)) = kept v.
Proof.
  intros. apply clear_payload; [done|]. intros i Hi. layout.
  rewrite !Z.lor_spec, !mask_bits, status_bits by lia. unfold count_size in *. mask_cases.
Qed.

Lemma clear_unlocked (v : Z) :
  is_word v ->
  Z.land v (Z.lnot (Z.lor MarkWord.UNLOCKED_STATE_MASK_IN_PLACE
                      MarkWord.STATUS_MASK_IN_PLACE)) = kept v.
Proof. apply clear_monitor. Qed.

(** A word by its three fields. *)
Definition compose (f p s : Z) : Z := 16 * p + 4 * f + s.

Definition flag_bits (v : Z) : Z := (v / 4) mod 4.

Lemma flag_bits_range (v : Z) : 0 <= flag_bits v < 4.
Proof. apply Z.mod_pos_bound. lia. Qed.

Lemma pow_split : 2 ^ BITS = 16 * 2 ^ (BITS - 4).
Proof.
  pose proof BITS_pos. change 16 with (2 ^ 4). rewrite <- Z.pow_add_r by lia. f_equal. lia.
Qed.

Lemma pow_count : 2 ^ (BITS - 4) = 2 ^ LOCK_THREADID_SIZE * 2 ^ count_size.
Proof.
  pose proof count_size_pos. pose proof layout_tid. rewrite <- Z.pow_add_r by lia. f_equal.
  unfold count_size. lia.
Qed.

Lemma compose_word (f p s : Z) :
  0 <= f < 4 -> 0 <= p < 2 ^ (BITS - 4) -> 0 <= s < 4 -> is_word (compose f p s).
Proof. intros. unfold is_word, in_u, compose. rewrite pow_split. lia. Qed.

Lemma word_compose (v : Z) :
  is_word v ->
  v = compose (flag_bits v) (v / 16) (v mod 4) /\ 0 <= v / 16 < 2 ^ (BITS - 4) /\
  0 <= v mod 4 < 4.
Proof. unfold is_word, in_u, compose, flag_bits. rewrite pow_split. intros. lia. Qed.

Lemma compose_fields (f p s : Z) :
  0 <= f < 4 -> 0 <= s < 4 ->
  compose f p s / 16 = p /\ compose f p s mod 4 = s /\ flag_bits (compose f p s) = f.
Proof. unfold compose, flag_bits. intros. lia. Qed.

Lemma lor_compose (v p s : Z) :
  0 <= s < 4 -> Z.lor (Z.lor (kept v) (Z.shiftl p 4)) s = compose (flag_bits v) p s.
Proof.
  intros. unfold compose, kept. fold (flag_bits v). pose proof (flag_bits_range v).
  rewrite lor_add by lia. rewrite Z.lor_comm.
  replace (4 * flag_bits v + p * 2 ^ 4) with ((flag_bits v + p * 4) * 2 ^ 2) by lia.
  rewrite lor_mul by lia. lia.
Qed.

(** A payload field put in its place. *)
Lemma in_place (x n k : Z) :
  0 <= n -> 0 <= k -> n + k <= BITS -> 0 <= x < 2 ^ n ->
  wrapu BITS (Z.shiftl (Z.land (wrapu BITS x) (Z.shiftl 1 n - 1)) k) = Z.shiftl x k.
Proof.
  intros Hn Hk Hle Hx.
  assert (2 ^ n <= 2 ^ BITS) by (apply Z.pow_le_mono_r; lia).
  rewrite (wrapu_id BITS x) by (unfold in_u; lia).
  rewrite Z.shiftl_1_l, land_mask, Z.mod_small by lia.
  apply wrapu_id. unfold in_u. rewrite Z.shiftl_mul_pow2 by lia.
  assert (2 ^ (n + k) <= 2 ^ BITS) by (apply Z.pow_le_mono_r; lia).
  rewrite Z.pow_add_r in * by lia. nia.
Qed.

Lemma DecodeFromMonitor_compose (v id : Z) :
  is_word v -> 0 <= id < 2 ^ (BITS - 4) ->
  MarkWord.DecodeFromMonitor v id = compose (flag_bits v) id 1.
Proof.
  intros. unfold MarkWord.DecodeFromMonitor. rewrite clear_monitor by done. layout.
  rewrite in_place by lia. change (Z.shiftl 1 MarkWord.STATUS_SHIFT) with 1.
  apply lor_compose. lia.
Qed.

Lemma DecodeFromHash_compose (v h : Z) :
  is_word v -> 0 <= h < 2 ^ (BITS - 4) ->
  MarkWord.DecodeFromHash v h = compose (flag_bits v) h 2.
Proof.
  intros. unfold MarkWord.DecodeFromHash, MarkWord.DecodeFromHashConfigured.
  rewrite layout_hash, clear_hash by done. layout.
  rewrite in_place by lia. change (Z.shiftl 2 MarkWord.STATUS_SHIFT) with 2.
  apply lor_compose. lia.
Qed.

Lemma DecodeFromUnlocked_compose (v : Z) :
  is_word v -> MarkWord.DecodeFromUnlocked v = compose (flag_bits v) 0 0.
Proof.
  intros. unfold MarkWord.DecodeFromUnlocked. rewrite clear_unlocked by done.
  change (Z.shiftl MarkWord.STATUS_UNLOCKED MarkWord.STATUS_SHIFT) with 0.
  rewrite <- lor_compose by lia. by rewrite Z.shiftl_0_l, !Z.lor_0_r.
Qed.

Lemma DecodeFromLightLock_compose (v t c : Z) :
  is_word v -> 0 <= t < 2 ^ LOCK_THREADID_SIZE -> 0 <= c < 2 ^ count_size ->
  MarkWord.DecodeFromLightLock v t c = compose (flag_bits v) (t * 2 ^ count_size + c) 0.
Proof.
  intros. unfold MarkWord.DecodeFromLightLock. rewrite clear_light by done. layout.
  rewrite !in_place by (unfold count_size in *; lia).
  change (Z.shiftl 0 MarkWord.STATUS_SHIFT) with 0.
  rewrite <- lor_compose by lia. f_equal.
  rewrite <- Z.lor_assoc. f_equal. rewrite Z.lor_comm.
  rewrite (Z.add_comm 4), <- Z.shiftl_shiftl, <- Z.shiftl_lor by lia. f_equal.
  rewrite lor_add by lia. lia.
Qed.

(** *** The getters on a composed word *)
Lemma status_mod (v : Z) : Z.land (Z.shiftr v MarkWord.STATUS_SHIFT) MarkWord.STATUS_MASK = v mod 4.
Proof.
  unfold MarkWord.STATUS_SHIFT, MarkWord.STATUS_MASK, MarkWord.STATUS_SIZE.
  rewrite Z.shiftr_0_r, Z.shiftl_1_l, land_mask by lia. done.
Qed.

Lemma payload_mask (v : Z) :
  is_word v -> Z.land v MarkWord.UNLOCKED_STATE_MASK_IN_PLACE = 16 * (v / 16).
Proof.
  intros Hv. destruct (word_compose v Hv) as (_ & Hp & _). layout.
  replace (16 * (v / 16)) with (Z.shiftl (Z.shiftr v 4) 4)
    by (rewrite Z.shiftl_mul_pow2, Z.shiftr_div_pow2 by lia; lia).
  apply Z.bits_inj'. intros i Hi. rewrite Z.land_spec, mask_bits by lia.
  destruct (Z.leb_spec 4 i); simpl.
  - rewrite Z.shiftl_spec, Z.shiftr_spec by lia. replace (i - 4 + 4) with i by lia.
    destruct (Z.ltb_spec i (4 + (BITS - 4))); [apply andb_true_r|].
    rewrite word_high by (done || lia). done.
  - rewrite andb_false_r, Z.shiftl_spec_low by lia. done.
Qed.

Lemma GetState_compose (f p s : Z) :
  0 <= f < 4 -> 0 <= p < 2 ^ (BITS - 4) -> 0 <= s < 4 ->
  MarkWord.GetState (compose f p s) =
    if s == 1 then STATE_HEAVY_LOCKED else if s == 2 then STATE_HASHED
    else if s == 3 then STATE_GC
    else if p == 0 then STATE_UNLOCKED else STATE_LIGHT_LOCKED.
Proof.
  intros. destruct (compose_fields f p s) as (Ep & Es & _); [lia..|].
  unfold MarkWord.GetState. rewrite status_mod, Es, payload_mask, Ep by (by apply compose_word).
  unfold MarkWord.STATUS_HEAVYWEIGHT_LOCK, MarkWord.STATUS_HASHED, MarkWord.STATUS_GC,
    MarkWord.STATUS_UNLOCKED.
  repeat case_bool_decide; lia || done.
Qed.

Lemma GetMonitorId_compose (f p s : Z) :
  0 <= f < 4 -> 0 <= p < 2 ^ (BITS - 4) -> 0 <= s < 4 ->
  MarkWord.GetMonitorId (compose f p s) = p.
Proof.
  intros. unfold MarkWord.GetMonitorId. layout.
  rewrite Z.shiftl_1_l, land_mask, Z.shiftr_div_pow2 by lia.
  change (2 ^ 4) with 16. destruct (compose_fields f p s) as (-> & _); [lia..|].
  apply Z.mod_small. lia.
Qed.

Lemma GetHash_compose (f p s : Z) :
  0 <= f < 4 -> 0 <= p < 2 ^ (BITS - 4) -> 0 <= s < 4 ->
  MarkWord.GetHash (compose f p s) = wrapu 32 p.
Proof.
  intros. unfold MarkWord.GetHash, MarkWord.GetHashConfigured. rewrite layout_hash. layout.
  rewrite Z.shiftl_1_l, land_mask, Z.shiftr_div_pow2 by lia.
  change (2 ^ 4) with 16. destruct (compose_fields f p s) as (-> & _); [lia..|].
  by rewrite Z.mod_small by lia.
Qed.

Lemma light_compose (f t c : Z) :
  0 <= f < 4 -> 0 <= t < 2 ^ LOCK_THREADID_SIZE -> 0 <= c < 2 ^ count_size ->
  MarkWord.GetThreadId (compose f (t * 2 ^ count_size + c) 0) = t /\
  MarkWord.GetLockCount (compose f (t * 2 ^ count_size + c) 0) = c.
Proof.
  intros. unfold MarkWord.GetThreadId, MarkWord.GetLockCount. layout.
  destruct (compose_fields f (t * 2 ^ count_size + c) 0) as (Ep & _); [lia..|].
  assert (2 ^ LOCK_THREADID_SIZE <= 2 ^ 32) by (apply Z.pow_le_mono_r; lia).
  assert (2 ^ count_size <= 2 ^ 32) by (apply Z.pow_le_mono_r; lia).
  rewrite !Z.shiftl_1_l, !land_mask, Z.add_comm, <- Z.shiftr_shiftr by lia.
  rewrite (Z.add_comm c). rewrite !(Z.shiftr_div_pow2 _ 4) by lia. change (2 ^ 4) with 16.
  rewrite Ep, Z.shiftr_div_pow2 by lia. split.
  - rewrite Z.div_add_l, Z.div_small, Z.add_0_r, Z.mod_small by lia. apply wrapu_id.
    unfold in_u. lia.
  - rewrite Z.add_comm, Z_mod_plus_full, Z.mod_small by lia. apply wrapu_id. unfold in_u. lia.
Qed.

(** *** Views *)
Lemma view_heavy (f p : Z) :
  0 <= f < 4 -> 0 <= p < 2 ^ (BITS - 4) -> view_of (compose f p 1) = VHeavy p.
Proof.
  intros. unfold view_of. rewrite GetState_compose by lia. simpl.
  by rewrite GetMonitorId_compose by lia.
Qed.

Lemma view_hashed (f p : Z) :
  0 <= f < 4 -> 0 <= p < 2 ^ (BITS - 4) -> view_of (compose f p 2) = VHashed (wrapu 32 p).
Proof.
  intros. unfold view_of. rewrite GetState_compose by lia. simpl.
  by rewrite GetHash_compose by lia.
Qed.

Lemma view_unlocked (f : Z) : 0 <= f < 4 -> view_of (compose f 0 0) = VUnlocked.
Proof.
  intros. pose proof BITS_pos. pose proof (pow2_pos (BITS - 4)).
  unfold view_of. by rewrite GetState_compose by lia.
Qed.

Lemma light_payload (t c : Z) :
  0 <= t < 2 ^ LOCK_THREADID_SIZE -> 0 <= c < 2 ^ count_size ->
  0 <= t * 2 ^ count_size + c < 2 ^ (BITS - 4).
Proof. intros. rewrite pow_count. nia. Qed.

Lemma view_light (f t c : Z) :
  0 <= f < 4 -> 0 < t < 2 ^ LOCK_THREADID_SIZE -> 0 <= c < 2 ^ count_size ->
  view_of (compose f (t * 2 ^ count_size + c) 0) = VLight t c.
Proof.
  intros. pose proof (light_payload t c). unfold view_of. rewrite GetState_compose by lia. simpl.
  destruct (light_compose f t c) as [-> ->]; [lia..|].
  pose proof count_size_pos. pose proof (pow2_pos count_size).
  rewrite bool_decide_eq_false_2 by nia. done.
Qed.

(** The flags are a function of the flag bits. *)
Lemma flags_of_bits (v : Z) :
  flags_of v = (Z.testbit (flag_bits v) 0, Z.testbit (flag_bits v) 1).
Proof.
  unfold flags_of, MarkWord.IsMarkedForGC, MarkWord.IsReadBarrierSet.
  change MarkWord.GC_STATUS_MASK_IN_PLACE with (2 ^ 2).
  change MarkWord.RB_STATUS_MASK_IN_PLACE with (2 ^ 3). rewrite !land_bit by lia.
  unfold flag_bits. change 4 with (2 ^ 2).
  by rewrite <- Z.land_ones, <- Z.shiftr_div_pow2, !Z.land_spec, !Z.shiftr_spec, !Z.testbit_ones,
    !andb_true_r by lia.
Qed.

Lemma flags_compose (f p s : Z) :
  0 <= f < 4 -> 0 <= s < 4 -> flags_of (compose f p s) = (Z.testbit f 0, Z.testbit f 1).
Proof.
  intros. rewrite flags_of_bits. by destruct (compose_fields f p s) as (_ & _ & ->); [lia..|].
Qed.

(** Operations on the collector's bits keep the other fields. *)
Lemma same_fields_view (v w : Z) :
  is_word v -> is_word w -> v / 16 = w / 16 -> v mod 4 = w mod 4 -> v mod 4 <> 3 ->
  view_of v = view_of w.
Proof.
  intros Hv Hw Ep Es Hs.
  destruct (word_compose v Hv) as (Ev & Hp & Hm), (word_compose w Hw) as (Ew & _ & _).
  rewrite Ev, Ew, <- Ep, <- Es. pose proof (flag_bits_range v). pose proof (flag_bits_range w).
  unfold view_of. rewrite !GetState_compose by lia.
  unfold MarkWord.GetThreadId, MarkWord.GetLockCount. layout.
  rewrite !GetMonitorId_compose, !GetHash_compose by lia.
  rewrite <- !(Z.shiftr_shiftr _ 4) by lia.
  rewrite !(Z.shiftr_div_pow2 _ 4) by lia. change (2 ^ 4) with 16.
  destruct (compose_fields (flag_bits v) (v / 16) (v mod 4)) as (-> & _); [lia..|].
  destruct (compose_fields (flag_bits w) (v / 16) (v mod 4)) as (-> & _); [lia..|].
  repeat case_bool_decide; lia || done.
Qed.

(** Writing one bit: [b] is the bit, [n] its position. *)
Definition put_bit (v n : Z) (b : bool) : Z :=
  if b then Z.lor (Z.land v (Z.lnot (2 ^ n))) (2 ^ n) else Z.land v (Z.lnot (2 ^ n)).

Lemma put_bit_spec (v n i : Z) (b : bool) :
  0 <= n -> 0 <= i ->
  Z.testbit (put_bit v n b) i = if i =? n then b else Z.testbit v i.
Proof.
  intros. unfold put_bit.
  assert (E : Z.testbit (Z.land v (Z.lnot (2 ^ n))) i = if i =? n then false else Z.testbit v i).
  { rewrite Z.land_spec, Z.lnot_spec, Z.pow2_bits_eqb by lia.
    rewrite (Z.eqb_sym n i). destruct (i =? n); [apply andb_false_r|apply andb_true_r]. }
  destruct b; [rewrite Z.lor_spec|]; rewrite E; [rewrite Z.pow2_bits_eqb, (Z.eqb_sym n i) by lia|].
  - destruct (i =? n); [done|apply orb_false_r].
  - done.
Qed.

Lemma testbit_word (v : Z) :
  (forall i, BITS <= i -> Z.testbit v i = false) -> is_word v.
Proof.
  intros Hv. pose proof BITS_pos.
  replace v with (Z.land v (Z.ones BITS)).
  - rewrite Z.land_ones by lia. apply Z.mod_pos_bound. apply pow2_pos. lia.
  - apply Z.bits_inj'. intros i Hi. rewrite Z.land_spec, Z.testbit_ones by lia.
    destruct (Z.ltb_spec i BITS); [|by rewrite Hv].
    replace (0 <=? i) with true by lia. apply andb_true_r.
Qed.

Lemma put_bit_word (v n : Z) (b : bool) :
  is_word v -> 0 <= n < BITS -> is_word (put_bit v n b).
Proof.
  intros. apply testbit_word. intros i Hi. pose proof BITS_pos. rewrite put_bit_spec by lia.
  destruct (Z.eqb_spec i n); [lia|by apply word_high].
Qed.

Lemma put_bit_fields (v n : Z) (b : bool) :
  2 <= n < 4 -> put_bit v n b / 16 = v / 16 /\ put_bit v n b mod 4 = v mod 4.
Proof.
  intros. split.
  - change 16 with (2 ^ 4). rewrite <- !Z.shiftr_div_pow2 by lia. apply Z.bits_inj'. intros i Hi.
    rewrite !Z.shiftr_spec, put_bit_spec by lia. destruct (Z.eqb_spec (i + 4) n); [lia|done].
  - change 4 with (2 ^ 2). rewrite <- !Z.land_ones by lia. apply Z.bits_inj'. intros i Hi.
    rewrite !Z.land_spec, put_bit_spec, Z.testbit_ones by lia.
    destruct (Z.eqb_spec i n); [|done].
    replace (i <? 2) with false by lia. by rewrite !andb_false_r.
Qed.

Lemma put_bit_view (v n : Z) (b : bool) :
  is_word v -> 2 <= n < 4 -> MarkWord.GetState v <> STATE_GC ->
  view_of (put_bit v n b) = view_of v.
Proof.
  intros Hv Hn Hs. pose proof BITS_pos. destruct (put_bit_fields v n b Hn) as [H2 H3].
  apply same_fields_view; [apply put_bit_word; (done || lia)|done..|].
  destruct (word_compose v Hv) as (E & Hp & Hm). pose proof (flag_bits_range v).
  rewrite H3. intros E3. apply Hs. rewrite E, E3, GetState_compose by lia. done.
Qed.

Lemma flags_testbit (v : Z) : flags_of v = (Z.testbit v 2, Z.testbit v 3).
Proof.
  unfold flags_of, MarkWord.IsMarkedForGC, MarkWord.IsReadBarrierSet.
  change MarkWord.GC_STATUS_MASK_IN_PLACE with (2 ^ 2).
  change MarkWord.RB_STATUS_MASK_IN_PLACE with (2 ^ 3). by rewrite !land_bit by lia.
Qed.

(** *** Forwarding addresses *)
Lemma view_forward (v a : Z) :
  is_word a -> a mod 4 = 0 ->
  view_of (MarkWord.DecodeFromForwardingAddress v a) = VForward a /\
  is_word (MarkWord.DecodeFromForwardingAddress v a).
Proof.
  intros Ha H4. pose proof BITS_pos.
  assert (Hq : 0 <= a / 4 < 2 ^ (BITS - 2)).
  { unfold is_word, in_u in Ha. replace (2 ^ BITS) with (4 * 2 ^ (BITS - 2)) in Ha; [lia|].
    change 4 with (2 ^ 2). rewrite <- Z.pow_add_r by lia. f_equal. lia. }
  assert (E : MarkWord.DecodeFromForwardingAddress v a = a + 3).
  { unfold MarkWord.DecodeFromForwardingAddress, MarkWord.DecodeFromForwardingAddressField.
    layout. rewrite Z.shiftr_div_pow2 by lia. change (2 ^ 2) with 4.
    rewrite Z.shiftl_1_l, land_mask, Z.mod_small by lia.
    rewrite Z.shiftl_mul_pow2, wrapu_id by (unfold is_word, in_u in *; lia).
    change (Z.shiftl 3 MarkWord.STATUS_SHIFT) with 3.
    rewrite Z.lor_comm, lor_mul by lia. lia. }
  assert (Hw : is_word (a + 3)).
  { pose proof pow_split as HB. unfold is_word, in_u in *. rewrite HB in *. clear E Hq. lia. }
  rewrite E. split; [|done]. unfold view_of.
  destruct (word_compose (a + 3) Hw) as (Ec & Hp & Hm). pose proof (flag_bits_range (a + 3)).
  rewrite Ec at 1. rewrite GetState_compose by lia.
  replace ((a + 3) mod 4) with 3 by lia. simpl. f_equal.
  unfold MarkWord.GetForwardingAddress, MarkWord.GetForwardingAddressField. layout.
  rewrite Z.shiftl_1_l, land_mask, Z.shiftr_div_pow2 by lia. change (2 ^ 2) with 4.
  replace ((a + 3) / 4) with (a / 4) by lia.
  rewrite Z.mod_small, Z.shiftl_mul_pow2, wrapu_id by (unfold is_word, in_u in *; lia). lia.
Qed.

(** *** What each operation makes of a word *)
Lemma DecodeFromMonitor_view (v id : Z) :
  is_word v -> 0 <= id <= MarkWord.MONITOR_POINTER_MAX_COUNT ->
  view_of (MarkWord.DecodeFromMonitor v id) = VHeavy id /\
  flags_of (MarkWord.DecodeFromMonitor v id) = flags_of v /\
  is_word (MarkWord.DecodeFromMonitor v id).
Proof.
  intros Hv. layout. rewrite Z.shiftl_1_l. intros. pose proof (flag_bits_range v).
  rewrite DecodeFromMonitor_compose by (done || lia).
  rewrite view_heavy, flags_compose, flags_of_bits by lia.
  split_and!; [done..|apply compose_word; lia].
Qed.

Lemma DecodeFromHash_view (v h : Z) :
  is_word v -> 0 <= h <= MarkWord.HASH_MASK -> in_u 32 h ->
  view_of (MarkWord.DecodeFromHash v h) = VHashed h /\
  flags_of (MarkWord.DecodeFromHash v h) = flags_of v /\
  is_word (MarkWord.DecodeFromHash v h).
Proof.
  intros Hv. layout. rewrite Z.shiftl_1_l. intros. pose proof (flag_bits_range v).
  rewrite DecodeFromHash_compose by (done || lia).
  rewrite view_hashed, flags_compose, flags_of_bits, wrapu_id by (done || lia).
  split_and!; [done..|apply compose_word; lia].
Qed.

Lemma DecodeFromUnlocked_view (v : Z) :
  is_word v ->
  view_of (MarkWord.DecodeFromUnlocked v) = VUnlocked /\
  flags_of (MarkWord.DecodeFromUnlocked v) = flags_of v /\
  is_word (MarkWord.DecodeFromUnlocked v).
Proof.
  intros Hv. pose proof (flag_bits_range v). pose proof BITS_pos. pose proof (pow2_pos (BITS - 4)).
  rewrite DecodeFromUnlocked_compose by done.
  rewrite view_unlocked, flags_compose, flags_of_bits by lia.
  split_and!; [done..|apply compose_word; lia].
Qed.

Lemma DecodeFromLightLock_view (v t c : Z) :
  is_word v -> 0 < t <= MarkWord.LIGHT_LOCK_THREADID_MAX_COUNT ->
  0 <= c <= MarkWord.LIGHT_LOCK_LOCK_MAX_COUNT ->
  view_of (MarkWord.DecodeFromLightLock v t c) = VLight t c /\
  flags_of (MarkWord.DecodeFromLightLock v t c) = flags_of v /\
  is_word (MarkWord.DecodeFromLightLock v t c).
Proof.
  intros Hv. layout. rewrite !Z.shiftl_1_l. intros. pose proof (flag_bits_range v).
  rewrite DecodeFromLightLock_compose by (done || lia).
  rewrite view_light, flags_compose, flags_of_bits by lia.
  split_and!; [done..|]. apply compose_word; try lia. apply light_payload; lia.
Qed.

(** The reading of a light lock is in the range of its fields. *)
Lemma view_light_range (v t c : Z) :
  view_of v = VLight t c ->
  0 <= t <= MarkWord.LIGHT_LOCK_THREADID_MAX_COUNT /\ 0 <= c <= MarkWord.LIGHT_LOCK_LOCK_MAX_COUNT.
Proof.
  unfold view_of. destruct (MarkWord.GetState v); intros [= <- <-].
  unfold MarkWord.GetThreadId, MarkWord.GetLockCount. layout.
  assert (2 ^ LOCK_THREADID_SIZE <= 2 ^ 32) by (apply Z.pow_le_mono_r; lia).
  assert (2 ^ count_size <= 2 ^ 32) by (apply Z.pow_le_mono_r; lia).
  rewrite !Z.shiftl_1_l, !land_mask by lia.
  pose proof (Z.mod_pos_bound (Z.shiftr v (4 + count_size)) (2 ^ LOCK_THREADID_SIZE)).
  pose proof (Z.mod_pos_bound (Z.shiftr v 4) (2 ^ count_size)).
  pose proof (pow2_pos LOCK_THREADID_SIZE). pose proof (pow2_pos count_size).
  rewrite !wrapu_id by (unfold in_u; lia). lia.
Qed.

Lemma collector_bits (v : Z) :
  MarkWord.SetMarkedForGC v = put_bit v 2 true /\
  MarkWord.SetUnMarkedForGC v = put_bit v 2 false /\
  MarkWord.SetReadBarrier v = put_bit v 3 true /\
  MarkWord.ClearReadBarrier v = put_bit v 3 false.
Proof. done. Qed.

Lemma put_bit_flags (v : Z) (b : bool) :
  flags_of (put_bit v 2 b) = (b, snd (flags_of v)) /\
  flags_of (put_bit v 3 b) = (fst (flags_of v), b).
Proof. by rewrite !flags_testbit, !put_bit_spec by lia. Qed.

(** C29: Round trip of the lock word.  In every configuration of the memory model the word
    built for a light lock, a monitor, a hash code or an unlocked object is read back with
    exactly the thread, count, monitor id or hash that was put in, and the two bits of the collector
    are those of the old word; a forwarding address is read back as well. *)
Theorem mark_word_roundtrip (v : Z) :
  is_word v ->
  (forall t c, 0 < t <= MarkWord.LIGHT_LOCK_THREADID_MAX_COUNT ->
     0 <= c <= MarkWord.LIGHT_LOCK_LOCK_MAX_COUNT ->
     let w := MarkWord.DecodeFromLightLock v t c in view_of w = VLight t c /\ flags_of w = flags_of v) /\
  (forall id, 0 <= id <= MarkWord.MONITOR_POINTER_MAX_COUNT ->
     let w := MarkWord.DecodeFromMonitor v id in view_of w = VHeavy id /\ flags_of w = flags_of v) /\
  (forall h, 0 <= h <= MarkWord.HASH_MASK -> in_u 32 h ->
     let w := MarkWord.DecodeFromHash v h in view_of w = VHashed h /\ flags_of w = flags_of v) /\
  (let w := MarkWord.DecodeFromUnlocked v in view_of w = VUnlocked /\ flags_of w = flags_of v) /\
  (forall a, is_word a -> a mod 4 = 0 ->
     view_of (MarkWord.DecodeFromForwardingAddress v a) = VForward a).
Proof.
  intros Hv. split_and!.
  - intros t c Ht Hc w. by destruct (DecodeFromLightLock_view v t c Hv Ht Hc) as (? & ? & _).
  - intros id Hid w. by destruct (DecodeFromMonitor_view v id Hv Hid) as (? & ? & _).
  - intros h Hh H32 w. by destruct (DecodeFromHash_view v h Hv Hh H32) as (? & ? & _).
  - intros w. by destruct (DecodeFromUnlocked_view v Hv) as (? & ? & _).
  - intros a Ha H4. by apply view_forward.
Qed.

(** C30: Well-formedness of the lock word.  Every operation gives a word of the
    configured width, and the operations of the collector change its two bits and nothing of the lock,
    the hash code or the monitor. *)
Theorem mark_word_typed (v : Z) :
  is_word v ->
  (forall t c, 0 < t <= MarkWord.LIGHT_LOCK_THREADID_MAX_COUNT ->
     0 <= c <= MarkWord.LIGHT_LOCK_LOCK_MAX_COUNT -> is_word (MarkWord.DecodeFromLightLock v t c)) /\
  (forall id, 0 <= id <= MarkWord.MONITOR_POINTER_MAX_COUNT -> is_word (MarkWord.DecodeFromMonitor v id)) /\
  (forall h, 0 <= h <= MarkWord.HASH_MASK -> in_u 32 h -> is_word (MarkWord.DecodeFromHash v h)) /\
  is_word (MarkWord.DecodeFromUnlocked v) /\
  (MarkWord.GetState v <> STATE_GC ->
   let same w := is_word w /\ view_of w = view_of v in
   same (MarkWord.SetMarkedForGC v) /\ flags_of (MarkWord.SetMarkedForGC v) = (true, snd (flags_of v)) /\
   same (MarkWord.SetUnMarkedForGC v) /\ flags_of (MarkWord.SetUnMarkedForGC v) = (false, snd (flags_of v)) /\
   same (MarkWord.SetReadBarrier v) /\ flags_of (MarkWord.SetReadBarrier v) = (fst (flags_of v), true) /\
   same (MarkWord.ClearReadBarrier v) /\ flags_of (MarkWord.ClearReadBarrier v) = (fst (flags_of v), false)).
Proof.
  intros Hv. split; [|split; [|split; [|split]]].
  - intros t c Ht Hc. by apply DecodeFromLightLock_view.
  - intros id Hid. by apply DecodeFromMonitor_view.
  - intros h Hh H32. by apply DecodeFromHash_view.
  - by apply DecodeFromUnlocked_view.
  - intros Hs same. destruct (collector_bits v) as (-> & -> & -> & ->). pose proof BITS_pos.
    assert (Hsame : forall n b, 2 <= n < 4 -> same (put_bit v n b)).
    { intros n b Hn. split; [apply put_bit_word; [done|lia]|by apply put_bit_view]. }
    pose proof (put_bit_flags v true) as [F1 F2]. pose proof (put_bit_flags v false) as [F3 F4].
    rewrite F1, F2, F3, F4. split_and!; try done; apply Hsame; lia.
Qed.

End Words.

Lemma mark_word_roundtrip_witness :
  let f := @MarkWord.DecodeFromLightLock HighEndConfig32 5 3 2 in @view_of HighEndConfig32 f = VLight 3 2.
Proof.
  destruct (@mark_word_roundtrip HighEndConfig32 HighEndConfig32_layout 5) as (H & _).
  - by vm_compute.
  - apply H; by vm_compute.
Defined.

Lemma mark_word_typed_witness :
  @is_word LowEndConfig32 (@MarkWord.DecodeFromMonitor LowEndConfig32 9 100).
Proof.
  destruct (@mark_word_typed LowEndConfig32 LowEndConfig32_layout 9) as (_ & H & _).
  - by vm_compute.
  - apply H; by vm_compute.
Defined.
