(* ===== verification/Threads.v ===== *)
(** Programs that run in several threads.

    The code of the monitors is modelled as programs over a shared store whose
    elementary steps are atomic; threads interleave between any two of them.
    This file has the programs ([prog], with sequencing and unbounded loops), their
    small steps ([step]), configurations of several threads ([cstep]), and the
    program logic the invariants are proved in: a rely-guarantee logic with
    auxiliary state ([Safe]), whose rules are proved sound once, by induction
    on the number of steps ([system_safe]). *)
From stdpp Require Import base list functions relations.
From S2P Require Import Prelude.
Local Open Scope Z_scope.

(** ** Results of a step *)
Inductive result (store fault A : Type) : Type :=
| Next (a : A) (s : store)      (** the step is taken *)
| Blocked                       (** it has to wait for another thread *)
| Fault (f : fault).            (** the process is stopped *)
Arguments Next {store fault A}.
Arguments Blocked {store fault A}.
Arguments Fault {store fault A}.

Section Programs.
Context {tid store fault : Type}.

(** An atomic step of thread [t]; the integer resolves what the thread cannot
    decide (a weak compare-and-swap that fails, a time-out). *)
Definition action (A : Type) : Type := tid -> Z -> store -> result store fault A.

Inductive prog (A : Type) : Type :=
| Ret (a : A)
| Act (e : action A)
| Bind {B : Type} (p : prog B) (k : B -> prog A)
| Loop {S : Type} (body : S -> prog (S + A)) (s : S).

End Programs.
Arguments prog tid store fault A : clear implicits.
Arguments Ret {tid store fault A}.
Arguments Act {tid store fault A}.
Arguments Bind {tid store fault A B}.
Arguments Loop {tid store fault A S}.

Declare Scope prog_scope.
Delimit Scope prog_scope with prog.
Notation "x ← y ; z" := (Bind y (fun x => z))
  (at level 20, y at level 100, z at level 200, only parsing) : prog_scope.
Notation "' x ← y ; z" := (Bind y (fun x => z))
  (at level 20, x pattern, y at level 100, z at level 200, only parsing) : prog_scope.
Notation "x ;; z" := (Bind x (fun _ => z))
  (at level 100, z at level 200, only parsing, right associativity) : prog_scope.

Section Steps.
Context {tid store fault : Type}.
Local Abbreviation prog := (prog tid store fault).

(** One step.  A loop runs its body again as long as that answers [inl]. *)
Fixpoint step {A} (t : tid) (c : Z) (p : prog A) (s : store) : result store fault (prog A) :=
  match p with
  | Ret _ => Blocked
  | Act e => match e t c s with
             | Next v s' => Next (Ret v) s'
             | Blocked => Blocked
             | Fault f => Fault f
             end
  | Bind p k =>
      match p with
      | Ret a => Next (k a) s
      | _ => match step t c p s with
             | Next p' s' => Next (Bind p' k) s'
             | Blocked => Blocked
             | Fault f => Fault f
             end
      end
  | Loop body x =>
      Next (Bind (body x) (fun r => match r with inl x' => Loop body x' | inr a => Ret a end)) s
  end.

Definition is_ret {A} (p : prog A) : option A :=
  match p with Ret a => Some a | _ => None end.

Lemma is_ret_Some {A} (p : prog A) a : is_ret p = Some a -> p = Ret a.
Proof. destruct p; naive_solver. Qed.

Lemma step_bind {A B} t c (p : prog B) (k : B -> prog A) s :
  is_ret p = None ->
  step t c (Bind p k) s = match step t c p s with
                          | Next p' s' => Next (Bind p' k) s'
                          | Blocked => Blocked
                          | Fault f => Fault f
                          end.
Proof. by destruct p. Qed.

(** The whole program run by one thread alone, with the choices given. *)
Fixpoint solo {A} (fuel : nat) (t : tid) (cs : list Z) (p : prog A) (s : store) :
    result store fault (option A) :=
  match fuel with
  | O => Next None s
  | S fuel =>
      match p with
      | Ret a => Next (Some a) s
      | _ => match step t (hd 0 cs) p s with
             | Next p' s' => solo fuel t (tl cs) p' s'
             | Blocked => Blocked
             | Fault f => Fault f
             end
      end
  end.

End Steps.

(** ** Blocking

    A program all of whose steps wait only where [P] allows it. *)
Section Blocking.
Context {tid store fault : Type} (P : tid -> store -> Prop).
Local Abbreviation prog := (prog tid store fault).

Fixpoint responsive {A} (p : prog A) : Prop :=
  match p with
  | Ret _ => True
  | Act e => forall t c s, e t c s = Blocked -> P t s
  | Bind p k => responsive p /\ forall b, responsive (k b)
  | Loop body _ => forall x, responsive (body x)
  end.

Lemma responsive_step {A} t c (p p' : prog A) s s' :
  responsive p -> step t c p s = Next p' s' -> responsive p'.
Proof.
  revert p'. induction p as [A a|A e|A B p IH k _|A S body _ x]; intros p' Hp Hs; simpl in Hp.
  - done.
  - simpl in Hs. by destruct (e t c s); simplify_eq.
  - destruct Hp as [Hp Hk]. destruct (is_ret p) as [b|] eqn:E.
    + apply is_ret_Some in E as ->. injection Hs as <- <-. apply Hk.
    + rewrite step_bind in Hs by done. destruct (step t c p s) as [q s1| |] eqn:Es; simplify_eq.
      split; [by eapply IH|done].
  - injection Hs as <- <-. split; [apply Hp|]. intros [y|a]; [exact Hp|done].
Qed.

Lemma responsive_blocked {A} t c (p : prog A) s :
  responsive p -> is_ret p = None -> step t c p s = Blocked -> P t s.
Proof.
  induction p as [A a|A e|A B p IH k _|A S body _ x]; intros Hp Hr Hs; simpl in Hp; try done.
  - simpl in Hs. destruct (e t c s) eqn:E; [done| |done]. eauto.
  - destruct Hp as [Hp _]. destruct (is_ret p) as [b|] eqn:E; [by apply is_ret_Some in E as ->|].
    rewrite step_bind in Hs by done. destruct (step t c p s) eqn:Es; [done| |done]. eauto.
Qed.
End Blocking.

(** ** A thread that runs alone

    It comes to an end after some number of steps, whatever is chosen. *)
Section Alone.
Context {tid store fault : Type}.
Local Abbreviation prog := (prog tid store fault).

Definition runs {A} (t : tid) (p : prog A) (s : store) (a : A) (s' : store) : Prop :=
  exists n, forall cs, solo n t cs p s = Next (Some a) s'.

Lemma solo_S {A} n t cs (p : prog A) s :
  is_ret p = None ->
  solo (S n) t cs p s = match step t (hd 0 cs) p s with
                        | Next p' s' => solo n t (tl cs) p' s'
                        | Blocked => Blocked
                        | Fault f => Fault f
                        end.
Proof. by destruct p. Qed.

Lemma solo_more {A} n m t cs (p : prog A) s a s' :
  solo n t cs p s = Next (Some a) s' -> solo (n + m) t cs p s = Next (Some a) s'.
Proof.
  revert cs p s. induction n as [|n IH]; intros cs p s Hs; [done|].
  destruct (is_ret p) as [b|] eqn:Ep; [by apply is_ret_Some in Ep as ->|].
  rewrite Nat.add_succ_l, solo_S by done. rewrite solo_S in Hs by done.
  destruct (step t (hd 0 cs) p s); [auto|done..].
Qed.

Lemma solo_bind {A B} n m t cs (p : prog B) (k : B -> prog A) s b s1 a s' :
  solo n t cs p s = Next (Some b) s1 -> (forall cs, solo m t cs (k b) s1 = Next (Some a) s') ->
  solo (n + m) t cs (Bind p k) s = Next (Some a) s'.
Proof.
  revert cs p s. induction n as [|n IH]; intros cs p s Hp Hk; [done|].
  destruct (is_ret p) as [b'|] eqn:Ep.
  - apply is_ret_Some in Ep as ->. injection Hp as -> ->. simpl.
    rewrite Nat.add_comm. by apply solo_more.
  - rewrite solo_S in Hp by done. rewrite Nat.add_succ_l, solo_S, step_bind by done.
    destruct (step t (hd 0 cs) p s); [auto|done..].
Qed.

Lemma solo_ret_runs {A} t (a : A) s : runs t (Ret a) s a s.
Proof. by exists 1%nat. Qed.

Lemma runs_act {A} t (e : action A) s a s' :
  (forall c, e t c s = Next a s') -> runs t (Act e) s a s'.
Proof. intros He. exists 2%nat. intros cs. simpl. by rewrite He. Qed.

Lemma solo_bind_runs {A B} t (p : prog B) (k : B -> prog A) s b s1 a s' :
  runs t p s b s1 -> runs t (k b) s1 a s' -> runs t (Bind p k) s a s'.
Proof. intros [n Hp] [m Hk]. exists (n + m)%nat. intros cs. by eapply solo_bind. Qed.

Lemma runs_loop {A S} t (body : S -> prog (S + A)) x s r s1 a s' :
  runs t (body x) s r s1 ->
  runs t (match r with inl x' => Loop body x' | inr a => Ret a end) s1 a s' ->
  runs t (Loop body x) s a s'.
Proof.
  intros Hb Hr. destruct (solo_bind_runs t _ (fun r => match r with inl x' => Loop body x' | inr a => Ret a end)
    _ _ _ _ _ Hb Hr) as [n Hn]. exists (Datatypes.S n). intros cs. rewrite solo_S by done. apply Hn.
Qed.

End Alone.

(** ** The logic *)
Section Logic.
Context {tid store fault ghost : Type} `{EqDecision tid}.
Local Abbreviation prog := (prog tid store fault).
Local Abbreviation world := (store * ghost)%type.

(** [inv] holds between any two steps; [rely t] is what a thread [t] counts on
    from the others; [tolerated] are the faults that are not excluded. *)
Context (inv : world -> Prop) (rely : tid -> world -> world -> Prop) (tolerated : fault -> Prop).

Definition guar (t : tid) (w w' : world) : Prop := forall t', t' <> t -> rely t' w w'.

Fixpoint safe (n : nat) {A} (t : tid) (p : prog A) (Q : A -> world -> Prop) (w : world) : Prop :=
  match n with
  | O => True
  | S n =>
      forall w1, rely t w w1 -> inv w1 ->
        (forall a, p = Ret a -> Q a w1) /\
        forall c, match step t c p (fst w1) with
                  | Next p' s' => exists g', inv (s', g') /\ guar t w1 (s', g') /\
                                             safe n t p' Q (s', g')
                  | Blocked => True
                  | Fault f => tolerated f
                  end
  end.

Lemma safe_S n {A} (t : tid) (p : prog A) Q w :
  safe (S n) t p Q w =
  forall w1, rely t w w1 -> inv w1 ->
    (forall a, p = Ret a -> Q a w1) /\
    forall c, match step t c p (fst w1) with
              | Next p' s' => exists g', inv (s', g') /\ guar t w1 (s', g') /\
                                         safe n t p' Q (s', g')
              | Blocked => True
              | Fault f => tolerated f
              end.
Proof. done. Qed.

Definition Safe {A} (t : tid) (p : prog A) (Q : A -> world -> Prop) (w : world) : Prop :=
  forall n, safe n t p Q w.

Context (rely_refl : forall t w, rely t w w).
Context (rely_trans : forall t w1 w2 w3, rely t w1 w2 -> rely t w2 w3 -> rely t w1 w3).

Lemma guar_refl t w : guar t w w.
Proof. intros t' _. apply rely_refl. Qed.

Lemma safe_rely {A} n t (p : prog A) Q w w1 : rely t w w1 -> safe n t p Q w -> safe n t p Q w1.
Proof. destruct n; [done|]. intros R S w2 R2. apply S. by eapply rely_trans. Qed.

Lemma safe_mono {A} n t (p : prog A) (Q Q' : A -> world -> Prop) w :
  (forall a w', inv w' -> Q a w' -> Q' a w') -> safe n t p Q w -> safe n t p Q' w.
Proof.
  intros HQ. revert p w. induction n as [|n IH]; intros p w Hs; [done|].
  rewrite safe_S in Hs |- *. intros w1 R I. destruct (Hs w1 R I) as [Hr Hn]. split; [eauto|]. intros c. specialize (Hn c).
  destruct (step t c p w1.1); [|done..]. destruct Hn as (g' & ? & ? & Hn). eauto.
Qed.

Lemma safe_le {A} n m t (p : prog A) Q w : (m <= n)%nat -> safe n t p Q w -> safe m t p Q w.
Proof.
  revert m p w. induction n as [|n IH]; intros m p w Hm Hs; [by replace m with O by lia|].
  destruct m as [|m]; [done|]. rewrite safe_S in Hs |- *. intros w1 R I.
  destruct (Hs w1 R I) as [Hr Hn]. split; [done|]. intros c. specialize (Hn c).
  destruct (step t c p w1.1); [|done..]. destruct Hn as (g' & ? & ? & Hn).
  exists g'. split_and!; [done..|]. apply IH; [lia|done].
Qed.

(** *** Rules *)
Lemma Safe_rely {A} t (p : prog A) Q w w1 : rely t w w1 -> Safe t p Q w -> Safe t p Q w1.
Proof. intros R Hs n. by eapply safe_rely. Qed.

Lemma Safe_mono {A} t (p : prog A) (Q Q' : A -> world -> Prop) w :
  (forall a w', inv w' -> Q a w' -> Q' a w') -> Safe t p Q w -> Safe t p Q' w.
Proof. intros HQ Hs n. by eapply safe_mono. Qed.

Lemma Safe_ret {A} t (a : A) (Q : A -> world -> Prop) w :
  (forall w1, rely t w w1 -> inv w1 -> Q a w1) -> Safe t (Ret a) Q w.
Proof. intros HQ [|n]; [done|]. intros w1 R I. split; [intros ? [= <-]; auto|done]. Qed.

(** The invariant may be used, and the state as another thread left it. *)
Lemma Safe_inv {A} t (p : prog A) Q w :
  (forall w1, rely t w w1 -> inv w1 -> Safe t p Q w1) -> Safe t p Q w.
Proof.
  intros HS [|n]; [done|]. intros w1 R I. by apply (HS w1 R I (S n) w1 (rely_refl _ _) I).
Qed.

Lemma safe_bind {A B} n t (p : prog B) (k : B -> prog A) Q w :
  safe n t p (fun b w' => forall m, (m < n)%nat -> safe m t (k b) Q w') w ->
  safe n t (Bind p k) Q w.
Proof.
  revert p w. induction n as [|n IH]; intros p w Hs; [done|].
  rewrite safe_S in Hs |- *. intros w1 R I. destruct (Hs w1 R I) as [Hr Hn].
  split; [done|]. intros c. specialize (Hn c).
  destruct (is_ret p) as [b|] eqn:Ep.
  - apply is_ret_Some in Ep as ->. exists w1.2. rewrite <- surjective_pairing.
    split_and!; [done|apply guar_refl|]. apply (Hr b eq_refl). lia.
  - rewrite step_bind by done. destruct (step t c p w1.1) as [p' s'| |f]; [|done..].
    destruct Hn as (g' & ? & ? & Hn). exists g'. split_and!; [done..|].
    apply IH. eapply safe_mono; [|exact Hn]. simpl. eauto with lia.
Qed.

Lemma Safe_bind {A B} t (p : prog B) (k : B -> prog A) Q w :
  Safe t p (fun b w' => Safe t (k b) Q w') w -> Safe t (Bind p k) Q w.
Proof.
  intros Hs n. apply safe_bind. eapply safe_mono; [|apply Hs]. intros b w' _ H' m _. apply H'.
Qed.

(** An atomic step: from any state the others can lead to, it keeps the
    invariant and the promise to the others, for some new auxiliary state. *)
Definition act_ok {A} (t : tid) (e : action (store := store) (fault := fault) A)
    (Q : A -> world -> Prop) (w1 : world) : Prop :=
  forall c, match e t c (fst w1) with
            | Next v s' => exists g', inv (s', g') /\ guar t w1 (s', g') /\ Q v (s', g')
            | Blocked => True
            | Fault f => tolerated f
            end.

Lemma Safe_act {A} t (e : action A) (Q : A -> world -> Prop) w :
  (forall w1, rely t w w1 -> inv w1 ->
     act_ok t e (fun v w' => forall w2, rely t w' w2 -> inv w2 -> Q v w2) w1) ->
  Safe t (Act e) Q w.
Proof.
  intros He [|n]; [done|]. intros w1 R I. split; [done|]. intros c. cbn.
  specialize (He w1 R I c). destruct (e t c w1.1); [|done..].
  destruct He as (g' & ? & ? & HQ). exists g'. split_and!; [done..|]. by apply Safe_ret.
Qed.

Lemma Safe_bind_act {A B} t (e : action B) (k : B -> prog A) Q w :
  (forall w1, rely t w w1 -> inv w1 -> act_ok t e (fun v w' => Safe t (k v) Q w') w1) ->
  Safe t (Bind (Act e) k) Q w.
Proof.
  intros He. apply Safe_bind, Safe_act. intros w1 R I c. specialize (He w1 R I c).
  destruct (e t c w1.1); [|done..]. destruct He as (g' & ? & ? & HQ).
  exists g'. split_and!; [done..|]. intros w2 R2 _. by eapply Safe_rely.
Qed.

Lemma safe_loop {A S} t (body : S -> prog (S + A)) (J : S -> world -> Prop) Q :
  (forall x w, J x w ->
     Safe t (body x) (fun r w' => match r with inl x' => J x' w' | inr a => Q a w' end) w) ->
  (forall x w w1, J x w -> rely t w w1 -> inv w1 -> J x w1) ->
  (forall a w w1, Q a w -> rely t w w1 -> inv w1 -> Q a w1) ->
  forall n x w, J x w -> safe n t (Loop body x) Q w.
Proof.
  intros Hb HJ HQ n. induction n as [n IH] using lt_wf_ind. intros x w Hx.
  destruct n as [|n]; [done|]. intros w1 R I. split; [done|]. intros c. cbn.
  exists w1.2. rewrite <- surjective_pairing. split_and!; [done|apply guar_refl|].
  apply safe_bind. eapply safe_mono; [|apply Hb; eauto].
  intros [x'|a] w' _ Hr m Hm; simpl in Hr.
  - apply IH; [lia|done].
  - apply Safe_ret. eauto.
Qed.

(** A loop with an invariant of its own; [J] and [Q] have to be stable. *)
Lemma Safe_loop {A S} t (body : S -> prog (S + A)) (J : S -> world -> Prop) Q x w :
  (forall x w, J x w ->
     Safe t (body x) (fun r w' => match r with inl x' => J x' w' | inr a => Q a w' end) w) ->
  (forall x w w1, J x w -> rely t w w1 -> inv w1 -> J x w1) ->
  (forall a w w1, Q a w -> rely t w w1 -> inv w1 -> Q a w1) ->
  J x w -> Safe t (Loop body x) Q w.
Proof. intros Hb HJ HQ Hx n. by eapply safe_loop. Qed.

(** What no step falsifies is kept by every program. *)
Lemma Safe_frame {A} t (p : prog A) (P : world -> Prop) Q w :
  (forall w1 w2, rely t w1 w2 -> inv w2 -> P w1 -> P w2) ->
  (forall w1 w2, guar t w1 w2 -> inv w2 -> P w1 -> P w2) ->
  P w -> Safe t p Q w -> Safe t p (fun a w' => Q a w' /\ P w') w.
Proof.
  clear rely_refl rely_trans. intros HR HG HP Hs n. specialize (Hs n). revert p w HP Hs.
  induction n as [|n IH]; intros p w HP Hs; [done|].
  rewrite safe_S in Hs |- *. intros w1 R I. destruct (Hs w1 R I) as [Hr Hn].
  pose proof (HR w w1 R I HP) as HP1. split; [eauto|]. intros c. specialize (Hn c).
  destruct (step t c p w1.1); [|done..]. destruct Hn as (g' & I' & G & Hn). eauto 10.
Qed.

(** Sequencing is associative. *)
Lemma Safe_assoc {A B C} t (p : prog B) (k : B -> prog C) (k' : C -> prog A) Q w :
  Safe t (Bind p (fun b => Bind (k b) k')) Q w -> Safe t (Bind (Bind p k) k') Q w.
Proof.
  intros Hs n. specialize (Hs n). revert p w Hs. induction n as [|n IH]; intros p w Hs; [done|].
  rewrite safe_S in Hs |- *. intros w1 R I. destruct (Hs w1 R I) as [_ Hn]. split; [done|].
  intros c. specialize (Hn c). destruct (is_ret p) as [b|] eqn:Ep.
  - by apply is_ret_Some in Ep as ->.
  - rewrite step_bind in Hn by done. rewrite (step_bind t c (Bind p k)), (step_bind t c p k) by done.
    destruct (step t c p w1.1) as [p' s'| |f]; [|done..].
    destruct Hn as (g' & ? & ? & Hn). exists g'. split_and!; [done..|]. by apply IH.
Qed.

Lemma Safe_bind_loop {A B S} t (body : S -> prog (S + B)) (J : S -> world -> Prop)
    (k : B -> prog A) Q x w :
  (forall x w, J x w ->
     Safe t (body x) (fun r w' => match r with inl x' => J x' w' | inr b => Safe t (k b) Q w' end) w) ->
  (forall x w w1, J x w -> rely t w w1 -> inv w1 -> J x w1) ->
  J x w -> Safe t (Bind (Loop body x) k) Q w.
Proof.
  intros Hb HJ Hx. apply Safe_bind. eapply Safe_loop; [apply Hb|done| |done].
  intros b w0 w1 Hs R _. by eapply Safe_rely.
Qed.

(** *** What a thread knows

    [me t w x] is knowledge [x] of thread [t] that the others cannot falsify; a step changes it. *)
Section Knowledge.
Context {X : Type} (me : tid -> world -> X -> Prop).
Context (me_rely : forall t w w1 x, me t w x -> rely t w w1 -> me t w1 x).

(** A step of [t] to the store [s'] after which it knows [x']. *)
Definition step_ok (t : tid) (w : world) (s' : store) (x' : X) : Prop :=
  exists g', inv (s', g') /\ guar t w (s', g') /\ me t (s', g') x'.

Lemma Safe_me_rely {A B} t (e : action B) (k : B -> prog A) Q w x :
  me t w x ->
  (forall w1, rely t w w1 -> inv w1 -> me t w1 x -> forall c,
     match e t c (fst w1) with
     | Next v s' => exists x', step_ok t w1 s' x' /\
                      (forall g', inv (s', g') -> me t (s', g') x' -> Safe t (k v) Q (s', g'))
     | Blocked => True
     | Fault f => tolerated f
     end) ->
  Safe t (Bind (Act e) k) Q w.
Proof.
  intros Hx He. apply Safe_bind_act. intros w1 R I c.
  specialize (He w1 R I (me_rely _ _ _ _ Hx R) c). destruct (e t c w1.1) as [v s'| |f]; [|done..].
  destruct He as (x' & (g' & I' & G & Hx') & Hk). exists g'. split_and!; [done..|]. by apply Hk.
Qed.

Lemma Safe_me {A B} t (e : action B) (k : B -> prog A) Q w x :
  me t w x ->
  (forall w1, inv w1 -> me t w1 x -> forall c,
     match e t c (fst w1) with
     | Next v s' => exists x', step_ok t w1 s' x' /\
                      (forall w2, inv w2 -> me t w2 x' -> Safe t (k v) Q w2)
     | Blocked => True
     | Fault f => tolerated f
     end) ->
  Safe t (Bind (Act e) k) Q w.
Proof.
  intros Hx He. eapply Safe_me_rely; [done|]. intros w1 _ I1 Hx1 c. specialize (He w1 I1 Hx1 c).
  destruct (e t c w1.1); [|done..]. destruct He as (x' & ? & ?). eauto.
Qed.

(** A step that changes nothing. *)
Lemma same_step t w x : inv w -> me t w x -> step_ok t w (fst w) x.
Proof.
  intros I Hx. exists w.2. rewrite <- surjective_pairing. split_and!; [done|apply guar_refl|done].
Qed.

Lemma Safe_look {A B} t (f : store -> B) (k : B -> prog A) Q w x :
  me t w x ->
  (forall w1 w2, inv w1 -> me t w1 x -> inv w2 -> me t w2 x -> Safe t (k (f (fst w1))) Q w2) ->
  Safe t (Bind (Act (fun _ _ s => Next (f s) s)) k) Q w.
Proof.
  intros Hx Hk. eapply Safe_me; [done|]. intros w1 I1 Hx1 c. exists x. split; [by apply same_step|].
  intros w2 I2 Hx2. by eapply Hk.
Qed.

Lemma Safe_back {A} t (a : A) (Q : A -> world -> Prop) w x :
  me t w x -> (forall w1, inv w1 -> me t w1 x -> Q a w1) -> Safe t (Ret a) Q w.
Proof. intros Hx HQ. apply Safe_ret. intros w1 R I. apply HQ; [done|]. by eapply me_rely. Qed.

Lemma Safe_bind_back {A B} t (a : B) (k : B -> prog A) Q w x :
  me t w x -> (forall w1, inv w1 -> me t w1 x -> Safe t (k a) Q w1) -> Safe t (Bind (Ret a) k) Q w.
Proof. intros Hx Hk. apply Safe_bind. eapply Safe_back; [done|]. auto. Qed.
End Knowledge.

End Logic.

Ltac seq := apply Safe_assoc.

(** ** Configurations

    Every thread is a client that calls operations one after the other; [loc] is
    what the client remembers of them. *)
Section Configurations.
Context {tid store fault op answer loc : Type} `{EqDecision tid}.
Local Abbreviation prog := (prog tid store fault).

Inductive tstate : Type :=
| Idle
| Running (o : op) (p : prog answer).

Record config := Config {
  shared : store;
  local : tid -> loc;
  state_of : tid -> tstate;
}.

(** [code] is the body of an operation, [may_call] the discipline of the
    clients, [after] what a client notes when the operation returns. *)
Context (code : tid -> op -> prog answer) (may_call : tid -> loc -> op -> Prop)
        (after : tid -> op -> answer -> loc -> loc).

Inductive cstep : config -> config -> Prop :=
| cstep_call t o c :
    state_of c t = Idle -> may_call t (local c t) o ->
    cstep c (Config (shared c) (local c) (<[t := Running o (code t o)]> (state_of c)))
| cstep_act t o p p' s' x c :
    state_of c t = Running o p -> step t x p (shared c) = Next p' s' ->
    cstep c (Config s' (local c) (<[t := Running o p']> (state_of c)))
| cstep_return t o a c :
    state_of c t = Running o (Ret a) ->
    cstep c (Config (shared c) (<[t := after t o a (local c t)]> (local c))
               (<[t := Idle]> (state_of c))).

(** A thread of the configuration is about to stop the process. *)
Definition faulty (c : config) (f : fault) : Prop :=
  exists t o p x, state_of c t = Running o p /\ step t x p (shared c) = Fault f.

(** What is left of a call waits only where its code does. *)
Lemma reachable_responsive (P : tid -> store -> Prop) c c' :
  (forall t o, responsive P (code t o)) -> rtc cstep c c' ->
  (forall t o p, state_of c t = Running o p -> responsive P p) ->
  forall t o p, state_of c' t = Running o p -> responsive P p.
Proof.
  intros Hcode Hr. induction Hr as [|c1 c2 c3 Hs _ IH]; [done|]. intros Hok. apply IH. clear IH.
  intros t' o' p'. destruct Hs as [t o c Ht Hm|t o p q s' x c Ht Hst|t o a c Ht]; simpl;
    (destruct (decide (t' = t)) as [->|Hne]; [rewrite fn_lookup_insert|rewrite fn_lookup_insert_ne by done; by eauto]).
  - intros [= <- <-]. apply Hcode.
  - intros [= <- <-]. eapply responsive_step; [by eapply Hok|done].
  - done.
Qed.

Context {ghost : Type}.
Local Abbreviation world := (store * ghost)%type.
Context (inv : world -> Prop) (rely : tid -> world -> world -> Prop) (tolerated : fault -> Prop).
Context (rely_refl : forall t w, rely t w w).
Context (rely_trans : forall t w1 w2 w3, rely t w1 w2 -> rely t w2 w3 -> rely t w1 w3).

(** What holds of a thread between two operations. *)
Context (idle_ok : tid -> loc -> world -> Prop).
Context (idle_rely : forall t l w w1, idle_ok t l w -> rely t w w1 -> inv w1 -> idle_ok t l w1).
Context (code_safe : forall t l o w, idle_ok t l w -> may_call t l o -> inv w ->
  Safe inv rely tolerated t (code t o) (fun a => idle_ok t (after t o a l)) w).

Definition thread_ok (n : nat) (w : world) (t : tid) (l : loc) (st : tstate) : Prop :=
  match st with
  | Idle => idle_ok t l w
  | Running o p => safe inv rely tolerated n t p (fun a => idle_ok t (after t o a l)) w
  end.

Definition config_ok (n : nat) (c : config) : Prop :=
  exists g, inv (shared c, g) /\
    forall t, thread_ok n (shared c, g) t (local c t) (state_of c t).

Lemma thread_ok_rely n w w1 t l st :
  rely t w w1 -> inv w1 -> thread_ok (S n) w t l st -> thread_ok n w1 t l st.
Proof.
  destruct st; unfold thread_ok; intros R I Hok; [eauto|].
  eapply safe_rely; [done..|]. eapply safe_le; [|done]. lia.
Qed.

Lemma cstep_ok n c c' : cstep c c' -> config_ok (S n) c -> config_ok n c'.
Proof.
  intros Hs (g & HI & HT).
  destruct Hs as [t o c Ht Hm|t o p p' s' x c Ht Hst|t o a c Ht];
    pose proof (HT t) as Hok; rewrite Ht in Hok; unfold config_ok; simpl shared in *;
    unfold thread_ok in Hok.
  - exists g. split; [done|]. intros t'. destruct (decide (t' = t)) as [->|Hne]; simpl.
    + rewrite fn_lookup_insert. by apply code_safe.
    + rewrite fn_lookup_insert_ne by done. by eapply thread_ok_rely.
  - rewrite safe_S in Hok. destruct (Hok _ (rely_refl _ _) HI) as [_ Hn].
    specialize (Hn x). simpl in Hn. rewrite Hst in Hn. destruct Hn as (g' & HI' & HG & Hn).
    exists g'. split; [done|]. intros t'. destruct (decide (t' = t)) as [->|Hne]; simpl.
    + by rewrite fn_lookup_insert.
    + rewrite fn_lookup_insert_ne by done. eapply thread_ok_rely; [by apply HG|done|]. apply HT.
  - rewrite safe_S in Hok. destruct (Hok _ (rely_refl _ _) HI) as [Hr _].
    exists g. split; [done|]. intros t'. destruct (decide (t' = t)) as [->|Hne]; simpl.
    + rewrite !fn_lookup_insert. by apply Hr.
    + rewrite !fn_lookup_insert_ne by done. by eapply thread_ok_rely.
Qed.

Lemma reachable_ok c c' : rtc cstep c c' -> (forall n, config_ok n c) -> forall n, config_ok n c'.
Proof. induction 1 as [|c1 c2 c3 Hs _ IH]; [done|]. intros Hok. apply IH. eauto using cstep_ok. Qed.

(** Every configuration reached from one where all threads are between two
    operations has the invariant, the promise to the clients that are idle in
    it, and no fault but a tolerated one. *)
Lemma system_safe c c' g :
  (forall t, state_of c t = Idle) -> inv (shared c, g) ->
  (forall t, idle_ok t (local c t) (shared c, g)) -> rtc cstep c c' ->
  (exists g', inv (shared c', g') /\
     forall t, state_of c' t = Idle -> idle_ok t (local c' t) (shared c', g')) /\
  forall f, faulty c' f -> tolerated f.
Proof.
  intros Hidle HI Hok Hr.
  assert (H1 : forall n, config_ok n c').
  { eapply reachable_ok; [done|]. intros n. exists g. split; [done|]. intros t.
    rewrite Hidle. apply Hok. }
  split.
  - destruct (H1 1%nat) as (g' & HI' & HT). exists g'. split; [done|]. intros t Ht.
    specialize (HT t). by rewrite Ht in HT.
  - intros f (t & o & p & x & Ht & Hst). destruct (H1 1%nat) as (g' & HI' & HT).
    specialize (HT t). rewrite Ht in HT. unfold thread_ok in HT. rewrite safe_S in HT.
    destruct (HT _ (rely_refl _ _) HI') as [_ Hn]. specialize (Hn x). simpl in Hn.
    by rewrite Hst in Hn.
Qed.

End Configurations.

(** ** Schedules

    Configurations can be computed: an event that does not apply changes nothing. *)
Section Schedules.
Context {tid store fault op answer loc : Type} `{EqDecision tid}.
Context (code : tid -> op -> prog tid store fault answer) (may_call : tid -> loc -> op -> Prop)
        (after : tid -> op -> answer -> loc -> loc).
Context `{!forall t l o, Decision (may_call t l o)}.
Local Abbreviation config := (@config tid store fault op answer loc).
Local Abbreviation cstep := (cstep code may_call after).

Inductive event :=
| Call (t : tid) (o : op)
| Run (t : tid) (choice : Z)
| Return (t : tid).

Definition exec1 (e : event) (c : config) : config :=
  match e with
  | Call t o =>
      match state_of c t with
      | Idle => if decide (may_call t (local c t) o)
                then Config (shared c) (local c) (<[t := Running o (code t o)]> (state_of c)) else c
      | _ => c
      end
  | Run t x =>
      match state_of c t with
      | Running o p =>
          match step t x p (shared c) with
          | Next p' s' => Config s' (local c) (<[t := Running o p']> (state_of c))
          | _ => c
          end
      | _ => c
      end
  | Return t =>
      match state_of c t with
      | Running o (Ret a) =>
          Config (shared c) (<[t := after t o a (local c t)]> (local c)) (<[t := Idle]> (state_of c))
      | _ => c
      end
  end.

Definition exec (es : list event) (c : config) : config := foldl (fun c e => exec1 e c) c es.

Lemma exec1_steps e c : rtc cstep c (exec1 e c).
Proof.
  destruct e as [t o|t x|t]; simpl.
  - destruct (state_of c t) eqn:E; [|done]. case_decide; [|done]. by apply rtc_once, cstep_call.
  - destruct (state_of c t) eqn:E; [done|]. destruct (step t x p (shared c)) eqn:Es; [|done..].
    by eapply rtc_once, cstep_act.
  - destruct (state_of c t) as [|o p] eqn:E; [done|]. destruct p; try done. by apply rtc_once, cstep_return.
Qed.

Lemma exec_steps es c : rtc cstep c (exec es c).
Proof.
  revert c. induction es as [|e es IH]; intros c; simpl; [done|].
  etrans; [apply exec1_steps|apply IH].
Qed.

End Schedules.
Arguments event : clear implicits.
Arguments Call {tid op}.
Arguments Run {tid op}.
Arguments Return {tid op}.
