(* ===== verification/Monitor.v ===== *)
(** Monitors: runtime/monitor.{h,cpp}, runtime/monitor_pool.{h,cpp}, the lock
    word operations of runtime/include/object_header.h and
    runtime/object_header.cpp, and the operations of a thread
    (runtime/include/mtmanaged_thread.h, thread-inl.h, thread.cpp) they use.

    The operations are programs (Threads) over one shared store: the mark words
    of the objects, the monitors, the pool and the threads.  Every access to the
    store is an atomic step; the memory order is sequential.  The bodies that run
    under [poolLock_] and touch only what it guards are one step each, as are a
    mutex operation and a read or write of a field.

    Objects are named by what their handles refer to, so that moving an object
    is not visible here; a thread is named by its internal id, and [osId] gives
    its id in the operating system.  A monitor is named by its address; an address is
    never given out twice, and an access to a monitor that has been deleted
    is the fault [DANGLING].  The assertions of monitor.cpp, of [GetHashCode] and of the
    setters of a thread are checked, as in the
    debug build (that objects and threads are not null is not in question here), and so are those of [SuspendAndWaitThreadByInternalThreadId]
    (runtime/mt_thread_manager.cpp), by which a thread that inflates the light lock
    of another one stops it first. *)
From stdpp Require Import base list gmap functions.
From S2P Require Import Prelude MarkWord Threads.
Local Open Scope Z_scope.
Local Open Scope ark_scope.
Local Open Scope prog_scope.

(** ** Data *)

(** [Monitor::State]. *)
Inductive State := OK | INTERRUPTED | ILLEGAL.

Inductive ThreadStatus :=
| CREATED | RUNNING | IS_BLOCKED | IS_WAITING | IS_TIMED_WAITING | IS_SUSPENDED
| IS_COMPILER_WAITING | IS_WAITING_INFLATION | IS_SLEEPING | IS_TERMINATED_LOOP
| NATIVE | TERMINATING | FINISHED.

#[export] Instance State_eq_dec : EqDecision State.
Proof. solve_decision. Defined.
#[export] Instance ThreadStatus_eq_dec : EqDecision ThreadStatus.
Proof. solve_decision. Defined.

(** The fields of [Monitor]; a null pointer is [None] and [lock_] is the thread
    that holds the mutex. *)
Record Monitor := mkMonitor {
  id_ : Z;
  obj_ : Z;
  owner_ : option Z;
  waiters_ : option Z;
  toWakeup_ : option Z;
  recursiveCounter_ : Z;
  lock_ : option Z;
  hashCode_ : Z;
  waitersCounter_ : Z;
}.

(** The fields of a thread that monitors use; [condSignal] is the state of
    [condVar_]: a signal that has arrived since the last wait began. *)
Record MTManagedThread := mkThread {
  next_ : option Z;
  localObjectsLocked_ : list Z;
  monitorCount_ : Z;
  enterMonitorObject_ : option Z;
  monitorOldStatus_ : ThreadStatus;
  waitingMonitor_ : option Z;
  enteringMonitor_ : option Z;
  isInterrupted_ : bool;
  condLock_ : option Z;
  condSignal : bool;
  status_ : ThreadStatus;
  suspendCount_ : Z;
}.

(** The store: [marks] are the mark words, [heap] the monitors by address,
    [lastId_] and [monitors_] the fields of the pool, [mutatorWriter] the thread
    that holds the mutator lock for writing (a thread holds it for reading while
    its status is [RUNNING]). *)
Record Store := mkStore {
  marks : Z -> Z;
  heap : gmap Z Monitor;
  nextAddress : Z;
  lastId_ : Z;
  monitors_ : gmap Z Z;
  g_hashSeed : Z;
  threads : Z -> MTManagedThread;
  mutatorWriter : option Z;
}.

(** Ways the process stops. *)
Inductive Stop :=
| FATAL                 (** [LOG(FATAL)] on a state that must not arise *)
| OUT_OF_MEMORY         (** no memory for a monitor *)
| OUT_OF_INDEXES        (** no free monitor id *)
| DANGLING              (** access through a null pointer or to a deleted monitor *)
| BAD_UNLOCK            (** a mutex is unlocked by a thread that does not hold it *)
| SELF_SUSPENSION       (** [ASSERT(current != suspended)]: a thread is about to suspend itself *)
| ASSERT_FAILED.

(** The build: whether mutexes are futexes, the managed threads, and the id each
    has in the operating system ([ManagedThread::GetId]). *)
Class Build := {
  PANDA_USE_FUTEX : bool;
  registered : list Z;
  osId : Z -> Z;
}.

Abbreviation prog := (prog Z Store Stop).

(** ** Elementary steps *)
Definition stop {A} (f : Stop) : prog A := Act (fun _ _ _ => Fault f).

Definition ASSERT (b : bool) : prog () := if b then Ret () else stop ASSERT_FAILED.

(** A step on one monitor; [f] gets the thread and the choice. *)
Definition monitor_act {A} (p : Z) (f : Z -> Z -> Monitor -> result Monitor Stop A) : prog A :=
  Act (fun t c s =>
    match heap s !! p with
    | None => Fault DANGLING
    | Some M => match f t c M with
                | Next a M' => Next a {| s with heap := <[p := M']> (heap s) |}
                | Blocked => Blocked
                | Fault x => Fault x
                end
    end).

(** A step on one thread record. *)
Definition thread_act {A} (u : Z) (f : Z -> Z -> MTManagedThread -> result MTManagedThread Stop A) :
    prog A :=
  Act (fun t c s =>
    match f t c (threads s u) with
    | Next a T => Next a {| s with threads := <[u := T]> (threads s) |}
    | Blocked => Blocked
    | Fault x => Fault x
    end).

Definition monitor_get {A} (p : Z) (f : Monitor -> A) : prog A :=
  monitor_act p (fun _ _ M => Next (f M) M).
Definition monitor_set (p : Z) (f : Monitor -> Monitor) : prog () :=
  monitor_act p (fun _ _ M => Next () (f M)).
Definition thread_get {A} (u : Z) (f : MTManagedThread -> A) : prog A :=
  thread_act u (fun _ _ T => Next (f T) T).
Definition thread_set (u : Z) (f : MTManagedThread -> MTManagedThread) : prog () :=
  thread_act u (fun _ _ T => Next () (f T)).

(** *** Mark words *)
Definition AtomicGetMark (obj : Z) : prog Z := Act (fun _ _ s => Next (marks s obj) s).

(** Compare-and-swap; the second result is the value the first argument, which
    is taken by reference, has afterwards.  The weak form may fail. *)
Definition AtomicSetMark (strong : bool) (obj oldMark newMark : Z) : prog (bool * Z) :=
  Act (fun _ c s =>
    if (marks s obj == oldMark) && (strong || (0 <=? c))
    then Next (true, oldMark) {| s with marks := <[obj := newMark]> (marks s) |}
    else Next (false, marks s obj) s).

(** *** Fields of a monitor *)
Definition GetId (p : Z) : prog Z := monitor_get p id_.
Definition GetOwner (p : Z) : prog (option Z) := monitor_get p owner_.
Definition GetObject (p : Z) : prog Z := monitor_get p obj_.
Definition SetOwner (p : Z) (expected thread : option Z) : prog bool :=
  monitor_act p (fun _ _ M =>
    if owner_ M == expected then Next true {| M with owner_ := thread |} else Next false M).
Definition GetCounter (p : Z) : prog Z := monitor_get p recursiveCounter_.
Definition SetCounter (p c : Z) : prog () :=
  monitor_set p (fun M => {| M with recursiveCounter_ := c |}).
Definition IncCounter (p : Z) : prog () := c ← GetCounter p; SetCounter p (u64 (c + 1)).
Definition DecCounter (p : Z) : prog () := c ← GetCounter p; SetCounter p (u64 (c - 1)).
Definition waiters_fetch_add (p d : Z) : prog () :=
  monitor_set p (fun M => {| M with waitersCounter_ := u32 (waitersCounter_ M + d) |}).

(** The mutex [lock_]. *)
Definition TryLock (p : Z) : prog bool :=
  monitor_act p (fun t _ M =>
    match lock_ M with
    | None => Next true {| M with lock_ := Some t |}
    | Some _ => Next false M
    end).
Definition Lock (p : Z) : prog () :=
  monitor_act p (fun t _ M =>
    match lock_ M with
    | None => Next () {| M with lock_ := Some t |}
    | Some _ => Blocked
    end).
Definition Unlock (p : Z) : prog () :=
  monitor_act p (fun t _ M =>
    if lock_ M == Some t then Next () {| M with lock_ := None |} else Fault BAD_UNLOCK).
Definition LockForOther (p u : Z) : prog () :=
  monitor_act p (fun _ _ M =>
    match lock_ M with
    | None => Next () {| M with lock_ := Some u |}
    | Some _ => Fault ASSERT_FAILED
    end).
Definition UnlockForOther (p u : Z) : prog () :=
  monitor_act p (fun _ _ M =>
    if lock_ M == Some u then Next () {| M with lock_ := None |} else Fault BAD_UNLOCK).

(** *** Fields of a thread *)
Definition GetNextWait (u : Z) : prog (option Z) := thread_get u next_.
Definition SetWaitNext (u : Z) (n : option Z) : prog () :=
  thread_set u (fun T => {| T with next_ := n |}).
Definition PushLocalObjectLocked (u obj : Z) : prog () :=
  thread_set u (fun T => {| T with localObjectsLocked_ := localObjectsLocked_ T ++ [obj] |}).
(** Pops the last entry whatever object it is; nothing when there is none. *)
Definition PopLocalObjectLocked (u obj : Z) : prog () :=
  thread_set u (fun T =>
    {| T with localObjectsLocked_ := take (length (localObjectsLocked_ T) - 1) (localObjectsLocked_ T) |}).
Definition AddMonitor (u : Z) : prog () :=
  thread_set u (fun T => {| T with monitorCount_ := i32 (monitorCount_ T + 1) |}).
Definition RemoveMonitor (u : Z) : prog () :=
  thread_set u (fun T => {| T with monitorCount_ := i32 (monitorCount_ T - 1) |}).
Definition GetMonitorCount (u : Z) : prog Z := thread_get u monitorCount_.
Definition SetEnterMonitorObject (u : Z) (o : option Z) : prog () :=
  thread_set u (fun T => {| T with enterMonitorObject_ := o |}).
Definition SetWaitingMonitorOldStatus (u : Z) (st : ThreadStatus) : prog () :=
  thread_set u (fun T => {| T with monitorOldStatus_ := st |}).
Definition GetWaitingMonitor (u : Z) : prog (option Z) := thread_get u waitingMonitor_.
(** The two setters assert that a monitor does not replace another one. *)
Definition SetWaitingMonitor (u : Z) (m : option Z) : prog () :=
  thread_act u (fun _ _ T =>
    if (waitingMonitor_ T == None) || (m == None) then Next () {| T with waitingMonitor_ := m |}
    else Fault ASSERT_FAILED).
Definition SetEnteringMonitor (u : Z) (m : option Z) : prog () :=
  thread_act u (fun _ _ T =>
    if (enteringMonitor_ T == None) || (m == None) then Next () {| T with enteringMonitor_ := m |}
    else Fault ASSERT_FAILED).
Definition GetStatus (u : Z) : prog ThreadStatus := thread_get u status_.

(** [condLock_] and [condVar_]. *)
Definition WaitingMutex_Lock (u : Z) : prog () :=
  thread_act u (fun t _ T =>
    match condLock_ T with
    | None => Next () {| T with condLock_ := Some t |}
    | Some _ => Blocked
    end).
Definition WaitingMutex_Unlock (u : Z) : prog () :=
  thread_act u (fun t _ T =>
    if condLock_ T == Some t then Next () {| T with condLock_ := None |} else Fault BAD_UNLOCK).
Definition SignalWithLockHeld (u : Z) : prog () :=
  thread_set u (fun T => {| T with condSignal := true |}).
Definition Signal (u : Z) : prog () :=
  WaitingMutex_Lock u;; SignalWithLockHeld u;; WaitingMutex_Unlock u.
Definition IsInterruptedWithLockHeld (u : Z) : prog bool := thread_get u isInterrupted_.
Definition IsInterrupted (u : Z) : prog bool :=
  WaitingMutex_Lock u;; b ← IsInterruptedWithLockHeld u; WaitingMutex_Unlock u;; Ret b.
Definition ClearInterrupted (u : Z) : prog () :=
  WaitingMutex_Lock u;; thread_set u (fun T => {| T with isInterrupted_ := false |});;
  WaitingMutex_Unlock u.
Definition Interrupt (u : Z) : prog () :=
  WaitingMutex_Lock u;; thread_set u (fun T => {| T with isInterrupted_ := true |});;
  SignalWithLockHeld u;; WaitingMutex_Unlock u.

(** [condVar_.Wait(&condLock_)] and its timed form: the mutex is released as the
    wait begins; the wait ends by a signal, a time-out or spuriously, with the mutex
    held again.  The answer is whether it was a time-out. *)
Definition CondWait_begin (u : Z) : prog () :=
  thread_act u (fun t _ T =>
    if condLock_ T == Some t then Next () {| T with condLock_ := None; condSignal := false |}
    else Fault BAD_UNLOCK).
Definition CondWait_end (u : Z) (timed : bool) : prog bool :=
  thread_act u (fun t c T =>
    match condLock_ T with
    | Some _ => Blocked
    | None => let T' := {| T with condLock_ := Some t |} in
              if condSignal T then Next false T'
              else if timed && (0 <=? c) then Next true T'
              else if c <? 0 then Next false T'
              else Blocked
    end).

(** *** The status of the current thread, its suspension and the mutator lock *)

(** The flag [SUSPEND_REQUEST] is set while the count is positive; [SuspendImpl]
    and [ResumeImpl] change both under [suspendLock_] (internal suspension). *)
Definition IsSuspended (T : MTManagedThread) : bool := 0 <? suspendCount_ T.
Definition SuspendImpl (T : MTManagedThread) : MTManagedThread :=
  {| T with suspendCount_ := u32 (suspendCount_ T + 1) |}.
Definition ResumeImpl (T : MTManagedThread) : MTManagedThread :=
  if 0 <? suspendCount_ T then {| T with suspendCount_ := suspendCount_ T - 1 |} else T.

(** A thread comes to run again only when no suspension is asked for and the
    mutator lock is free ([StoreStatus<CHECK_SAFEPOINT, READLOCK>]).  That the runtime
    is terminated is not modelled. *)
Definition UpdateStatus (u : Z) (st : ThreadStatus) : prog () :=
  Act (fun _ _ s =>
    let T := threads s u in
    let s' := {| s with threads := <[u := {| T with status_ := st |}]> (threads s) |} in
    if (status_ T != RUNNING) && (st == RUNNING) then
      if IsSuspended T then Blocked else
      match mutatorWriter s with None => Next () s' | Some _ => Blocked end
    else Next () s').

(** [ScopedChangeThreadStatus] around a body. *)
Definition ScopedChangeThreadStatus {A} (u : Z) (st : ThreadStatus) (body : prog A) : prog A :=
  old ← GetStatus u; UpdateStatus u st;; a ← body; UpdateStatus u old;; Ret a.

Definition choose : prog bool := Act (fun _ c s => Next (0 <=? c) s).

(** The thread waits until nobody asks for its suspension. *)
Definition WaitSuspension (u : Z) : prog () :=
  ScopedChangeThreadStatus u IS_SUSPENDED
    (thread_act u (fun _ _ T => if IsSuspended T then Blocked else Next () T)).

(** A safepoint.  Requests other than those of [SuspendAndWaitThreadByInternalThreadId]
    (of the collector) are a choice. *)
Definition Safepoint (u : Z) : prog () :=
  other ← choose;
  b ← thread_get u IsSuspended;
  if other || b then WaitSuspension u else Ret ().

Section Operations.
Context `{MemoryModelConfig} `{Build}.

(** The collector's side: it waits until no thread runs managed code. *)
Definition MutatorLock_WriteLock : prog () :=
  Act (fun t _ s =>
    if (mutatorWriter s == None) &&
       forallb (fun u => status_ (threads s u) != RUNNING) registered
    then Next () {| s with mutatorWriter := Some t |} else Blocked).
Definition MutatorLock_Unlock : prog () :=
  Act (fun t _ s =>
    if mutatorWriter s == Some t then Next () {| s with mutatorWriter := None |}
    else Fault BAD_UNLOCK).

(** ** The pool *)
Definition MAX_MONITOR_ID : Z := MarkWord.MONITOR_POINTER_MAX_COUNT.

(** [n] rounds of [f] that end early when [f] answers. *)
Fixpoint rounds {S R} (n : positive) (f : S -> S + R) (x : S) : S + R :=
  match n with
  | xH => f x
  | xO n => match rounds n f x with inl y => rounds n f y | r => r end
  | xI n => match f x with
            | inl y => match rounds n f y with inl z => rounds n f z | r => r end
            | r => r
            end
  end.

(** The loop of [CreateMonitor]: the state is [lastId_]. *)
Definition next_free (used : gmap Z Z) (lastId : Z) : Z + Z :=
  rounds (Z.to_pos MAX_MONITOR_ID)
    (fun last => let last := (last + 1) mod MAX_MONITOR_ID in
                 match used !! last with None => inr last | Some _ => inl last end) lastId.

Definition newMonitor (id obj : Z) : Monitor :=
  {| id_ := id; obj_ := obj; owner_ := None; waiters_ := None; toWakeup_ := None;
     recursiveCounter_ := 0; lock_ := None; hashCode_ := 0; waitersCounter_ := 0 |}.

Definition CreateMonitor (obj : Z) : prog (option Z) :=
  Act (fun _ c s =>
    match next_free (monitors_ s) (lastId_ s) with
    | inl _ => Fault OUT_OF_INDEXES
    | inr id =>
        if 0 <=? c then
          let p := nextAddress s in
          Next (Some p) {| s with
            heap := <[p := newMonitor id obj]> (heap s);
            nextAddress := p + 1;
            lastId_ := id;
            monitors_ := <[id := p]> (monitors_ s) |}
        else Next None {| s with lastId_ := id |}
    end).

Definition LookupMonitor (id : Z) : prog (option Z) :=
  Act (fun _ _ s => Next (monitors_ s !! id) s).

Definition FreeMonitor (id : Z) : prog () :=
  Act (fun _ _ s =>
    match monitors_ s !! id with
    | Some p => Next () {| s with heap := delete p (heap s); monitors_ := delete id (monitors_ s) |}
    | None => Next () s
    end).

Definition pool_entries : prog (list (Z * Z)) :=
  Act (fun _ _ s => Next (map_to_list (monitors_ s)) s).
(** ** Lists of threads ([ThreadList])

    The two lists of a monitor are linked through [next_] of the threads. *)
Inductive which := WAITERS | TO_WAKEUP.

Definition head_of (l : which) (M : Monitor) : option Z :=
  match l with WAITERS => waiters_ M | TO_WAKEUP => toWakeup_ M end.
Definition with_head (l : which) (h : option Z) (M : Monitor) : Monitor :=
  match l with
  | WAITERS => {| M with waiters_ := h |}
  | TO_WAKEUP => {| M with toWakeup_ := h |}
  end.

Definition GetHead (p : Z) (l : which) : prog (option Z) := monitor_get p (head_of l).
Definition SetHead (p : Z) (l : which) (h : option Z) : prog () := monitor_set p (with_head l h).

Definition Empty (p : Z) (l : which) : prog bool := h ← GetHead p l; Ret (h == None).

Definition Front (p : Z) (l : which) : prog Z :=
  h ← GetHead p l; match h with Some u => Ret u | None => stop DANGLING end.

Definition PopFront (p : Z) (l : which) : prog () :=
  h ← GetHead p l;
  match h with
  | Some u => n ← GetNextWait u; SetHead p l n
  | None => stop DANGLING
  end.

Definition PushFront (p : Z) (l : which) (u : Z) : prog () :=
  h ← GetHead p l; SetWaitNext u h;; SetHead p l (Some u).

Definition EraseAfter (p : Z) (l : which) (prev current : Z) : prog () :=
  h ← GetHead p l;
  if h == Some current then n ← GetNextWait current; SetHead p l n
  else n ← GetNextWait current; SetWaitNext prev n.

Definition Swap (p : Z) (l other : which) : prog () :=
  a ← GetHead p l; b ← GetHead p other; SetHead p l b;; SetHead p other a.

Definition Clear (p : Z) (l : which) : prog () := SetHead p l None.

Definition Splice (p : Z) (l other : which) : prog () :=
  e ← Empty p l;
  (if (e : bool) then h ← GetHead p other; SetHead p l h
   else
     h ← Front p l;
     last ← Loop (fun last => n ← GetNextWait last;
                              Ret match n with Some n => inl n | None => inr last end) h;
     o ← GetHead p other; SetWaitNext last o);;
  Clear p other.

(** The state of the loop is [found], [prev] and [current]. *)
Definition RemoveIf (p : Z) (l : which) (pred : Z -> bool) : prog bool :=
  head ← GetHead p l;
  match head with
  | None => Ret false
  | Some h =>
      Loop (fun '(found, prev, current) =>
        match current with
        | None => Ret (inr found)
        | Some cur =>
            if pred cur then
              EraseAfter p l prev cur;; n ← GetNextWait prev; Ret (inl (true, prev, n))
            else n ← GetNextWait cur; Ret (inl (found, cur, n))
        end) (false, h, Some h)
  end.

(** ** Hash codes *)
Definition LINEAR_X : Z := 1103515245.
Definition LINEAR_Y : Z := 12345.

Definition GenerateHashCode : prog Z :=
  Loop (fun _ : () =>
    exVal ← Act (fun _ _ s => Next (g_hashSeed s) s);
    let nVal := u32 (exVal * LINEAR_X + LINEAR_Y) in
    ok ← Act (fun _ c s =>
           if (g_hashSeed s == exVal) && (0 <=? c) then Next true {| s with g_hashSeed := nVal |}
           else Next false s);
    Ret (if negb ok || (Z.land exVal MarkWord.HASH_MASK == 0) then inl ()
         else inr (Z.land exVal MarkWord.HASH_MASK))) ().

Definition HasHashCode (p : Z) : prog bool := monitor_get p (fun M => hashCode_ M != 0).

Definition SetHashCode (t p hash : Z) : prog () :=
  o ← GetOwner p; ASSERT (o == Some t);;
  b ← HasHashCode p;
  if negb b then monitor_set p (fun M => {| M with hashCode_ := hash |}) else stop FATAL.

(** [Monitor::GetHashCode]. *)
Definition Monitor_GetHashCode (p : Z) : prog Z :=
  Loop (fun _ : () =>
    b ← HasHashCode p;
    if (b : bool) then b' ← HasHashCode p; ASSERT b';; h ← monitor_get p hashCode_; Ret (inr h)
    else
      newHash ← GenerateHashCode;
      ok ← monitor_act p (fun _ c M =>
             if (hashCode_ M == 0) && (0 <=? c) then Next true {| M with hashCode_ := newHash |}
             else Next false M);
      Ret (if (ok : bool) then inr newHash else inl ())) ().

(** ** Monitors

    [t] is the current thread. *)

(** [ASSERT(thread == MTManagedThread::GetCurrent() || thread->GetStatus() != RUNNING)]. *)
Definition assert_stopped (t thread : Z) : prog () :=
  st ← GetStatus thread; ASSERT ((thread == t) || (st != RUNNING)).

Definition InitWithOwner (t p thread : Z) : prog () :=
  o ← GetOwner p; ASSERT (o == None);;
  (if PANDA_USE_FUTEX then assert_stopped t thread;; LockForOther p thread
   else ASSERT (thread == t);; r ← TryLock p; ASSERT r);;
  ok ← SetOwner p None (Some thread);
  if negb ok then stop FATAL else IncCounter p.

Definition ReleaseOnFailedInflate (t p thread : Z) : prog () :=
  o ← GetOwner p;
  if o != Some thread then stop FATAL else
  DecCounter p;;
  c ← GetCounter p; ASSERT (c == 0);;
  success ← SetOwner p (Some thread) None; ASSERT success;;
  if PANDA_USE_FUTEX then assert_stopped t thread;; UnlockForOther p thread
  else ASSERT (thread == t);; Unlock p.

Definition Inflate (forOther : bool) (t obj thread : Z) : prog bool :=
  oldMark ← AtomicGetMark obj;
  let state := MarkWord.GetState oldMark in
  if state == STATE_HEAVY_LOCKED then Ret false else
  if forOther && ((state != STATE_LIGHT_LOCKED) || (MarkWord.GetThreadId oldMark != thread))
  then Ret false else
  monitor ← CreateMonitor obj;
  match monitor with
  | None => stop OUT_OF_MEMORY
  | Some p =>
      InitWithOwner t p thread;;
      go ← match state with
           | STATE_LIGHT_LOCKED =>
               if MarkWord.GetThreadId oldMark != thread then
                 ReleaseOnFailedInflate t p thread;; id ← GetId p; FreeMonitor id;; Ret false
               else SetCounter p (MarkWord.GetLockCount oldMark);; Ret true
           | STATE_HASHED =>
               SetHashCode t p (MarkWord.GetHash oldMark);;
               if forOther then stop FATAL else Ret true
           | STATE_UNLOCKED => if forOther then stop FATAL else Ret true
           | STATE_HEAVY_LOCKED | STATE_GC => stop FATAL
           end;
      if negb go then Ret false else
      id ← GetId p;
      ret ← AtomicSetMark true obj oldMark (MarkWord.DecodeFromMonitor oldMark id);
      if fst ret then AddMonitor thread;; Ret true
      else
        SetCounter p 1;; ReleaseOnFailedInflate t p thread;;
        id ← GetId p; FreeMonitor id;; Ret false
  end.

(** What [SuspendAndWaitThreadByInternalThreadId] does under [threadLock_]: the
    thread with this id, unless it has finished (a choice), is asked to stop; when the
    current thread has been asked to stop itself, it tries again. *)
Definition suspend_target (id : Z) : prog (() + option Z) :=
  Act (fun t c s =>
    if (0 <=? c) && bool_decide (id ∈ registered) then
      if id == t then Fault SELF_SUSPENSION
      else if IsSuspended (threads s t) then Next (inl ()) s
      else Next (inr (Some id))
             {| s with threads := <[id := SuspendImpl (threads s id)]> (threads s) |}
    else Next (inr None) s).

Definition SuspendAndWaitThreadByInternalThreadId (current id : Z) : prog (option Z) :=
  st ← GetStatus current; ASSERT (st != RUNNING);;
  suspended ← Loop (fun _ : () => Safepoint current;; r ← suspend_target id; Ret r) ();
  match suspended with
  | None => Ret None
  | Some u =>
      Loop (fun _ : () => st ← GetStatus u; Ret (if st != RUNNING then inr (Some u) else inl ())) ()
  end.

Definition InflateThinLock (thread obj : Z) : prog () :=
  if PANDA_USE_FUTEX then
    mark ← AtomicGetMark obj;
    owner ← ScopedChangeThreadStatus thread IS_WAITING_INFLATION
              (SuspendAndWaitThreadByInternalThreadId thread (MarkWord.GetThreadId mark));
    SetEnterMonitorObject thread None;;
    SetWaitingMonitorOldStatus thread FINISHED;;
    match owner with
    | Some owner => Inflate true thread obj owner;; thread_set owner ResumeImpl
    | None => Ret ()
    end
  else
    (* TimedWait *)
    (old ← GetStatus thread;
     WaitingMutex_Lock thread;; UpdateStatus thread IS_WAITING_INFLATION;;
     CondWait_begin thread;; CondWait_end thread true;; WaitingMutex_Unlock thread;;
     UpdateStatus thread old);;
    SetEnterMonitorObject thread None;;
    SetWaitingMonitorOldStatus thread FINISHED.

Definition Acquire (thread p obj : Z) (trylock : bool) : prog bool :=
  owner ← GetOwner p;
  if owner == Some thread then IncCounter p;; Ret true else
  locked ← TryLock p;
  if (locked : bool) then
    ok ← SetOwner p None (Some thread);
    if negb ok then stop FATAL else
    AddMonitor thread;; IncCounter p;; Ret true
  else if trylock then Ret false
  else
    waiters_fetch_add p 1;;
    SetEnterMonitorObject thread (Some obj);;
    SetWaitingMonitorOldStatus thread IS_BLOCKED;;
    ScopedChangeThreadStatus thread IS_BLOCKED
      (SetEnteringMonitor thread (Some p);;
       Lock p;;
       SetEnteringMonitor thread None;;
       ok ← SetOwner p None (Some thread);
       if negb ok then stop FATAL else
       AddMonitor thread;; IncCounter p);;
    SetEnterMonitorObject thread None;;
    SetWaitingMonitorOldStatus thread FINISHED;;
    waiters_fetch_add p (-1);;
    Ret true.

Definition Release (thread p : Z) : prog bool :=
  owner ← GetOwner p;
  if owner != Some thread then stop FATAL else
  DecCounter p;;
  c ← GetCounter p;
  if c == 0 then
    ok ← SetOwner p (Some thread) None;
    if negb ok then stop FATAL else
    e ← Empty p TO_WAKEUP;
    w ← (if negb e then
           waiter ← Front p TO_WAKEUP; waitingMon ← GetWaitingMonitor waiter;
           PopFront p TO_WAKEUP;; Ret (Some (waiter, waitingMon))
         else Ret None);
    RemoveMonitor thread;;
    match w with
    | Some (waiter, waitingMon) => if waitingMon == Some p then Signal waiter else Ret ()
    | None => Ret ()
    end;;
    Unlock p;; Ret true
  else Ret true.

Definition MAX_TRYLOCK_RETRY : Z := 100.

(** The state of the loop is [shouldInflate] and [lightlockRetryCount]; that a
    thread yields after a number of tries is not visible here. *)
Definition MonitorEnter (thread obj : Z) (trylock : bool) : prog State :=
  Loop (fun '(shouldInflate, lightlockRetryCount) =>
    let inflate_or_retry :=
      r ← Inflate false thread obj thread;
      if (r : bool) then PushLocalObjectLocked thread obj;; Ret (inr OK)
      else Ret (if trylock then inr ILLEGAL else inl (shouldInflate, lightlockRetryCount)) in
    mark ← AtomicGetMark obj;
    match MarkWord.GetState mark with
    | STATE_HEAVY_LOCKED =>
        monitor ← LookupMonitor (MarkWord.GetMonitorId mark);
        match monitor with
        | None => Ret (inr ILLEGAL)
        | Some p =>
            ret ← Acquire thread p obj trylock;
            if (ret : bool) then PushLocalObjectLocked thread obj;; Ret (inr OK)
            else Ret (inr ILLEGAL)
        end
    | STATE_LIGHT_LOCKED =>
        if MarkWord.GetThreadId mark == thread then
          let newCount := u32 (MarkWord.GetLockCount mark + 1) in
          if newCount <? MarkWord.LIGHT_LOCK_LOCK_MAX_COUNT then
            ret ← AtomicSetMark true obj mark (MarkWord.DecodeFromLightLock mark thread newCount);
            if fst ret then PushLocalObjectLocked thread obj;; Ret (inr OK)
            else Ret (if trylock then inr ILLEGAL else inl (shouldInflate, lightlockRetryCount))
          else
            Inflate false thread obj thread;;
            Ret (if trylock then inr ILLEGAL else inl (shouldInflate, lightlockRetryCount))
        else if trylock then Ret (inr ILLEGAL)
        else
          let retry := lightlockRetryCount + 1 in
          if retry <? MAX_TRYLOCK_RETRY then Ret (inl (shouldInflate, retry))
          else
            SetEnterMonitorObject thread (Some obj);;
            SetWaitingMonitorOldStatus thread IS_WAITING_INFLATION;;
            InflateThinLock thread obj;;
            Ret (inl (if PANDA_USE_FUTEX then (shouldInflate, 0) else (true, retry)))
    | STATE_HASHED => inflate_or_retry
    | STATE_UNLOCKED =>
        if (shouldInflate : bool) then inflate_or_retry
        else
          ASSERT (thread <=? MarkWord.LIGHT_LOCK_THREADID_MAX_COUNT);;
          ret ← AtomicSetMark true obj mark (MarkWord.DecodeFromLightLock mark thread 1);
          if fst ret then PushLocalObjectLocked thread obj;; Ret (inr OK)
          else Ret (if trylock then inr ILLEGAL else inl (shouldInflate, lightlockRetryCount))
    | STATE_GC => stop FATAL
    end) (false, 0).

Definition MonitorExit (thread obj : Z) : prog State :=
  Loop (fun _ : () =>
    mark ← AtomicGetMark obj;
    match MarkWord.GetState mark with
    | STATE_HEAVY_LOCKED =>
        monitor ← LookupMonitor (MarkWord.GetMonitorId mark);
        match monitor with
        | None => stop DANGLING
        | Some p =>
            ret ← Release thread p;
            if (ret : bool) then PopLocalObjectLocked thread obj;; Ret (inr OK)
            else Ret (inr ILLEGAL)
        end
    | STATE_LIGHT_LOCKED =>
        if MarkWord.GetThreadId mark != thread then Ret (inr ILLEGAL)
        else
          let newCount := u32 (MarkWord.GetLockCount mark - 1) in
          let newMark := if newCount != 0 then MarkWord.DecodeFromLightLock mark thread newCount
                         else MarkWord.DecodeFromUnlocked mark in
          ret ← AtomicSetMark true obj mark newMark;
          if fst ret then PopLocalObjectLocked thread obj;; Ret (inr OK) else Ret (inl ())
    | STATE_HASHED | STATE_UNLOCKED => Ret (inr ILLEGAL)
    | STATE_GC => stop FATAL
    end) ().

Definition DoWaitInternal (thread : Z) (status : ThreadStatus) (timeout nanos : Z) : prog bool :=
  let timed := negb ((timeout == 0) && (nanos == 0)) in
  (* WaitWithLockHeld and TimedWaitWithLockHeld *)
  ASSERT (if timed then bool_decide (status ∈ [IS_TIMED_WAITING; IS_SLEEPING; IS_BLOCKED;
                          IS_SUSPENDED; IS_COMPILER_WAITING; IS_WAITING_INFLATION])
          else status == IS_WAITING);;
  oldStatus ← GetStatus thread;
  UpdateStatus thread status;;
  CondWait_begin thread;;
  res ← CondWait_end thread timed;
  WaitingMutex_Unlock thread;;
  UpdateStatus thread oldStatus;;
  WaitingMutex_Lock thread;;
  Ret (timed && res).

Definition Wait (thread obj : Z) (status : ThreadStatus) (timeout nanos : Z)
    (ignoreInterruption : bool) : prog State :=
  Loop (fun _ : () =>
    mark ← AtomicGetMark obj;
    match MarkWord.GetState mark with
    | STATE_HEAVY_LOCKED =>
        monitor ← LookupMonitor (MarkWord.GetMonitorId mark);
        match monitor with
        | None => stop DANGLING
        | Some p =>
            owner ← GetOwner p;
            if owner != Some thread then Ret (inr ILLEGAL) else
            WaitingMutex_Lock thread;;
            counter ← GetCounter p;
            PushFront p WAITERS thread;;
            SetWaitingMonitor thread (Some p);;
            SetWaitingMonitorOldStatus thread status;;
            SetCounter p 1;;
            waiters_fetch_add p 1;;
            Release thread p;;
            interrupted ← IsInterruptedWithLockHeld thread;
            resultState ←
              (if (interrupted : bool) && negb ignoreInterruption then
                 WaitingMutex_Unlock thread;; Safepoint thread;; Ret INTERRUPTED
               else
                 DoWaitInternal thread status timeout nanos;;
                 WaitingMutex_Unlock thread;; Ret OK);
            ret ← Acquire thread p obj false;
            ASSERT ret;;
            waiters_fetch_add p (-1);;
            SetCounter p counter;;
            i ← IsInterrupted thread;
            found ← RemoveIf p WAITERS (fun u => thread == u);
            (if negb found then RemoveIf p TO_WAKEUP (fun u => thread == u);; Ret ()
             else Ret ());;
            SetWaitingMonitor thread None;;
            SetWaitingMonitorOldStatus thread FINISHED;;
            Ret (inr (if (i : bool) then INTERRUPTED else resultState))
        end
    | STATE_LIGHT_LOCKED =>
        if MarkWord.GetThreadId mark != thread then stop FATAL
        else Inflate false thread obj thread;; Ret (inl ())
    | STATE_UNLOCKED | STATE_HASHED | STATE_GC => Ret (inr ILLEGAL)
    end) ().

(** The part [Notify] and [NotifyAll] share: [body] runs on the monitor when
    the lock is heavy and held by the thread. *)
Definition notifying (thread obj : Z) (body : Z -> prog ()) : prog State :=
  mark ← AtomicGetMark obj;
  match MarkWord.GetState mark with
  | STATE_HEAVY_LOCKED =>
      monitor ← LookupMonitor (MarkWord.GetMonitorId mark);
      match monitor with
      | None => stop DANGLING
      | Some p =>
          owner ← GetOwner p;
          if owner != Some thread then Ret ILLEGAL else body p;; Ret OK
      end
  | STATE_LIGHT_LOCKED => Ret (if MarkWord.GetThreadId mark != thread then ILLEGAL else OK)
  | STATE_UNLOCKED | STATE_HASHED | STATE_GC => Ret ILLEGAL
  end.

Definition Notify (thread obj : Z) : prog State :=
  notifying thread obj (fun p =>
    e ← Empty p WAITERS;
    if negb e then
      waiter ← Front p WAITERS; PopFront p WAITERS;; PushFront p TO_WAKEUP waiter
    else Ret ()).

Definition NotifyAll (thread obj : Z) : prog State :=
  notifying thread obj (fun p =>
    e ← Empty p TO_WAKEUP;
    if (e : bool) then Swap p TO_WAKEUP WAITERS
    else
      e' ← Empty p WAITERS;
      if negb e' then Splice p TO_WAKEUP WAITERS;; Clear p WAITERS else Ret ()).

(** [ObjectHeader::GetHashCodeMTMulti]. *)
Definition GetHashCode (thread obj : Z) : prog Z :=
  Loop (fun _ : () =>
    mark ← AtomicGetMark obj;
    match MarkWord.GetState mark with
    | STATE_UNLOCKED =>
        h ← GenerateHashCode;
        ASSERT (MarkWord.GetState (MarkWord.DecodeFromHash mark h) == STATE_HASHED);;
        AtomicSetMark true obj mark (MarkWord.DecodeFromHash mark h);; Ret (inl ())
    | STATE_LIGHT_LOCKED =>
        (if MarkWord.GetThreadId mark == thread then Inflate false thread obj thread;; Ret ()
         else InflateThinLock thread obj);;
        Ret (inl ())
    | STATE_HEAVY_LOCKED =>
        monitor ← LookupMonitor (MarkWord.GetMonitorId mark);
        match monitor with
        | Some p => h ← Monitor_GetHashCode p; Ret (inr h)
        | None => stop FATAL
        end
    | STATE_HASHED => Ret (inr (MarkWord.GetHash mark))
    | STATE_GC => stop FATAL
    end) ().

(** ** Queries *)
Definition HoldsLock (thread obj : Z) : prog Z :=
  mark ← AtomicGetMark obj;
  match MarkWord.GetState mark with
  | STATE_HEAVY_LOCKED =>
      monitor ← LookupMonitor (MarkWord.GetMonitorId mark);
      match monitor with
      | None => stop DANGLING
      | Some p => owner ← GetOwner p; Ret (if owner == Some thread then 1 else 0)
      end
  | STATE_LIGHT_LOCKED => Ret (if MarkWord.GetThreadId mark == thread then 1 else 0)
  | STATE_UNLOCKED | STATE_HASHED | STATE_GC => Ret 0
  end.

(** [NON_INITIALIZED_THREAD_ID] is 0.  The answer is the id in the operating system
    for a heavy lock and the internal id for a light one. *)
Definition GetLockOwnerOsThreadID (obj : option Z) : prog Z :=
  match obj with
  | None => Ret 0
  | Some obj =>
      mark ← AtomicGetMark obj;
      match MarkWord.GetState mark with
      | STATE_HEAVY_LOCKED =>
          monitor ← LookupMonitor (MarkWord.GetMonitorId mark);
          match monitor with
          | None => stop DANGLING
          | Some p => owner ← GetOwner p;
                      Ret match owner with Some u => osId u | None => 0 end
          end
      | STATE_LIGHT_LOCKED => Ret (MarkWord.GetThreadId mark)
      | STATE_UNLOCKED | STATE_HASHED | STATE_GC => Ret 0
      end
  end.

Definition GetMonitorFromObject (obj : option Z) : prog (option Z) :=
  match obj with
  | Some obj =>
      mark ← AtomicGetMark obj;
      match MarkWord.GetState mark with
      | STATE_HEAVY_LOCKED => LookupMonitor (MarkWord.GetMonitorId mark)
      | _ => Ret None
      end
  | None => Ret None
  end.

(** ** Deflation *)

(** The word a monitor leaves behind. *)
Definition deflated_mark (p oldMark : Z) : prog Z :=
  b ← HasHashCode p;
  if (b : bool) then h ← Monitor_GetHashCode p; Ret (MarkWord.DecodeFromHash oldMark h)
  else Ret (MarkWord.DecodeFromUnlocked oldMark).

Definition DeflateInternal (p : Z) : prog bool :=
  owner ← GetOwner p;
  if owner != None then Ret false else
  w ← monitor_get p waitersCounter_;
  if 0 <? w then Ret false else
  locked ← TryLock p;
  if negb locked then Ret false else
  c ← GetCounter p; ASSERT (c == 0);;
  e ← Empty p WAITERS; ASSERT e;;
  e ← Empty p TO_WAKEUP; ASSERT e;;
  owner ← GetOwner p; ASSERT (owner == None);;
  obj ← GetObject p;
  oldMark ← AtomicGetMark obj;
  newMark ← deflated_mark p oldMark;
  Loop (fun '(oldMark, newMark) =>
    r ← AtomicSetMark false obj oldMark newMark;
    if fst r then Ret (inr ())
    else newMark ← deflated_mark p (snd r); Ret (inl (snd r, newMark))) (oldMark, newMark);;
  Unlock p;;
  Ret true.

Definition Deflate (obj : Z) : prog bool :=
  oldMark ← AtomicGetMark obj;
  if MarkWord.GetState oldMark != STATE_HEAVY_LOCKED then Ret false else
  monitor ← LookupMonitor (MarkWord.GetMonitorId oldMark);
  match monitor with
  | None => Ret false
  | Some p =>
      ret ← DeflateInternal p;
      if (ret : bool) then id ← GetId p; FreeMonitor id;; Ret true else Ret false
  end.

(** The loops over the pool; erasing an entry and deleting its monitor is what
    [FreeMonitor] does.  [cb] is the filter of [DeflateMonitorsWithCallBack]. *)
Fixpoint deflate_all (cb : Z -> prog bool) (entries : list (Z * Z)) : prog () :=
  match entries with
  | [] => Ret ()
  | (id, p) :: rest =>
      chosen ← cb p;
      (if (chosen : bool) then
         r ← DeflateInternal p;
         if (r : bool) then FreeMonitor id else Ret ()
       else Ret ());;
      deflate_all cb rest
  end.

Definition DeflateMonitorsWithCallBack (cb : Z -> prog bool) : prog () :=
  entries ← pool_entries; deflate_all cb entries.

Definition DeflateMonitors : prog () := DeflateMonitorsWithCallBack (fun _ => Ret true).

(** ** Release of everything a thread holds *)
Fixpoint release_all (thread : Z) (entries : list (Z * Z)) : prog () :=
  match entries with
  | [] => Ret ()
  | (_, p) :: rest =>
      Loop (fun _ : () =>
        owner ← GetOwner p;
        if owner == Some thread then Release thread p;; Ret (inl ()) else Ret (inr ())) ();;
      release_all thread rest
  end.

Definition MonitorPool_ReleaseMonitors (thread : Z) : prog () :=
  entries ← pool_entries; release_all thread entries.

Definition ReleaseMonitors (thread : Z) : prog () :=
  n ← GetMonitorCount thread;
  (if 0 <? n then MonitorPool_ReleaseMonitors thread else Ret ());;
  n ← GetMonitorCount thread; ASSERT (n == 0).

Fixpoint entered_ids (thread : Z) (entries : list (Z * Z)) : prog (gset Z) :=
  match entries with
  | [] => Ret ∅
  | (_, p) :: rest =>
      owner ← GetOwner p;
      if owner == Some thread then
        id ← GetId p; ids ← entered_ids thread rest; Ret ({[id]} ∪ ids)
      else entered_ids thread rest
  end.

Definition GetEnteredMonitorsIds (thread : Z) : prog (gset Z) :=
  entries ← pool_entries; entered_ids thread entries.

(** ** The collector *)

(** [ObjectHeader::SetMarkedForGC] and [SetUnMarkedForGC] (atomic form). *)
Definition update_mark (obj : Z) (f : Z -> Z) : prog () :=
  word ← AtomicGetMark obj;
  Loop (fun word =>
    r ← AtomicSetMark false obj word (f word);
    Ret (if fst r then inr () else inl (snd r))) word.
Definition ObjectHeader_SetMarkedForGC (obj : Z) : prog () :=
  update_mark obj MarkWord.SetMarkedForGC.
Definition ObjectHeader_SetUnMarkedForGC (obj : Z) : prog () :=
  update_mark obj MarkWord.SetUnMarkedForGC.

(** The beginning of a collection: deflation while the threads are stopped. *)
Definition PreRunPhases : prog () :=
  MutatorLock_WriteLock;; DeflateMonitors;; MutatorLock_Unlock.

End Operations.
