(* ===== verification/MonitorInv.v ===== *)
(** The protocol of the monitors: what holds of the shared store between any two
    steps of any threads, and what a thread may count on while others run.

    [depth] is the abstract state of a lock, whatever its representation: how
    often a thread holds an object.  [hash_of] is the identity hash of an object,
    wherever it is kept.  The auxiliary state [Ghost] records, for the proof only,
    which thread an unpublished monitor belongs to, how a monitor's
    [waitersCounter_] and a thread's [suspendCount_] are made up, and the contents of
    the linked lists.

    The first part defines the invariant [inv] and the interference [rely]; the
    rest shows, for each kind of step the operations take, that it keeps the
    invariant and what the other threads count on. *)
From stdpp Require Import base list gmap functions sets.
From S2P Require Import Prelude MarkWord Threads Monitor.
Local Open Scope Z_scope.
Local Open Scope ark_scope.

Record Ghost := mkGhost {
  cnt : Z -> Z -> Z;              (** of a thread, in the counter of a monitor *)
  priv : Z -> option Z;           (** the thread that has not published it yet *)
  chain : which -> Z -> list Z;   (** the two lists of a monitor *)
  limbo : Z -> list Z;            (** taken from one list, not yet in the other *)
  busy : Z -> option Z;           (** the monitor whose lists a thread is changing *)
  suspenders : Z -> list Z;       (** the threads that have suspended a thread *)
}.

Section Protocol.
Context `{MemoryModelConfig} `{!ConfigLayout} `{Build}.
Abbreviation world := (Store * Ghost)%type.

(** ** Abstract state *)

(** The monitor an object's word refers to. *)
Definition monitor_of (s : Store) (o : Z) : option Monitor :=
  match view_of (marks s o) with
  | VHeavy id => p ← monitors_ s !! id; heap s !! p
  | _ => None
  end.

(** How often thread [t] holds [o]. *)
Definition depth (s : Store) (o t : Z) : Z :=
  match view_of (marks s o) with
  | VLight u c => if decide (u = t) then c else 0
  | VHeavy _ =>
      match monitor_of s o with
      | Some M => if decide (owner_ M = Some t) then recursiveCounter_ M else 0
      | None => 0
      end
  | _ => 0
  end.

(** The identity hash of [o], once there is one. *)
Definition hash_of (s : Store) (o : Z) : option Z :=
  match view_of (marks s o) with
  | VHashed h => Some h
  | VHeavy _ =>
      match monitor_of s o with
      | Some M => if decide (hashCode_ M = 0) then None else Some (hashCode_ M)
      | None => None
      end
  | _ => None
  end.

(** ** The invariant *)
Definition next_in (s : Store) (u : Z) : option (option Z) := Some (next_ (threads s u)).

(** The threads a monitor's lists refer to. *)
Definition member (g : Ghost) (u p : Z) : Prop := (exists l, u ∈ chain g l p) \/ u ∈ limbo g p.

Definition total (g : Ghost) (p : Z) : Z := foldr Z.add 0 ((fun t => cnt g t p) <$> registered).

(** A word. *)
Record mark_inv (v : Z) : Prop := {
  mi_word : is_word v;
  mi_light : forall t c, view_of v = VLight t c ->
    t ∈ registered /\ 0 < c < MarkWord.LIGHT_LOCK_LOCK_MAX_COUNT;
  mi_hashed : forall h, view_of v = VHashed h -> 0 < h <= MarkWord.HASH_MASK /\ in_u 32 h;
  mi_forward : forall a, view_of v <> VForward a;
}.

(** The lock part of a monitor. *)
Record lock_inv (M : Monitor) : Prop := {
  li_owner : forall t, owner_ M = Some t -> lock_ M = Some t;
  li_free : owner_ M = None -> recursiveCounter_ M = 0;
  li_counter : in_u 64 (recursiveCounter_ M);
  li_registered : forall t, owner_ M = Some t -> t ∈ registered;
}.

(** The lists of a monitor: [next] are the links. *)
Record lists_inv (next : Z -> option (option Z)) (g : Ghost) (p : Z) (M : Monitor) : Prop := {
  ls_links : forall l, links next (head_of l M) (chain g l p);
  ls_member : forall u, member g u p -> 0 < cnt g u p \/ lock_ M = Some u;
  ls_clean : (forall u, lock_ M = Some u -> busy g u <> Some p) ->
    limbo g p = [] /\ forall u, u ∈ chain g WAITERS p -> u ∉ chain g TO_WAKEUP p;
}.

(** The fields of a thread that only itself writes and whose setters assert something. *)
Definition own_fields (T : MTManagedThread) : option Z * option Z :=
  (waitingMonitor_ T, enteringMonitor_ T).

(** A thread and those that have suspended it. *)
Record suspend_inv (l : list Z) (n : Z) : Prop := {
  si_nodup : NoDup l;
  si_registered : forall v, v ∈ l -> v ∈ registered;
  si_count : n = Z.of_nat (length l);
}.

(** Who may have a monitor that is not published: a running thread, or the thread
    all others are stopped for. *)
Definition may_build (s : Store) (u : Z) : Prop :=
  (u ∈ registered /\ status_ (threads s u) = RUNNING) \/ mutatorWriter s = Some u.

Record inv (w : world) : Prop := {
  inv_marks : forall o, mark_inv (marks w.1 o);
  inv_heavy : forall o id, view_of (marks w.1 o) = VHeavy id ->
    exists p M, monitors_ w.1 !! id = Some p /\ heap w.1 !! p = Some M /\ priv w.2 p = None /\
                obj_ M = o;
  inv_published : forall p M, heap w.1 !! p = Some M -> priv w.2 p = None ->
    view_of (marks w.1 (obj_ M)) = VHeavy (id_ M);
  inv_pool : forall p M, heap w.1 !! p = Some M -> monitors_ w.1 !! id_ M = Some p;
  inv_ids : forall id p, monitors_ w.1 !! id = Some p ->
    0 <= id < MAX_MONITOR_ID /\ exists M, heap w.1 !! p = Some M /\ id_ M = id;
  inv_fresh : forall p, heap w.1 !! p <> None -> p < nextAddress w.1;
  inv_dead : forall p, heap w.1 !! p = None ->
    priv w.2 p = None /\ (forall t, cnt w.2 t p = 0) /\ (forall u, ~ member w.2 u p);
  inv_private : forall p t, priv w.2 p = Some t ->
    (forall u, cnt w.2 u p = 0) /\ (forall u, ~ member w.2 u p);
  inv_lock : forall p M, heap w.1 !! p = Some M -> lock_inv M;
  inv_cnt : forall t p, 0 <= cnt w.2 t p <= 2 /\ (t ∉ registered -> cnt w.2 t p = 0);
  inv_counter : forall p M, heap w.1 !! p = Some M -> waitersCounter_ M = total w.2 p;
  inv_hash : forall p M, heap w.1 !! p = Some M ->
    0 <= hashCode_ M <= MarkWord.HASH_MASK /\ in_u 32 (hashCode_ M);
  inv_seed : in_u 32 (g_hashSeed w.1);
  inv_lists : forall p M, heap w.1 !! p = Some M -> lists_inv (next_in w.1) w.2 p M;
  inv_member : forall u p q, member w.2 u p -> member w.2 u q -> p = q;
  inv_busy : forall u p, busy w.2 u = Some p ->
    priv w.2 p = None /\ exists M, heap w.1 !! p = Some M /\ lock_ M = Some u;
  inv_writer : forall u t, mutatorWriter w.1 = Some u -> t ∈ registered ->
    status_ (threads w.1 t) <> RUNNING;
  inv_owned : forall p M u, heap w.1 !! p = Some M -> priv w.2 p = None -> owner_ M = Some u ->
    recursiveCounter_ M = 0 -> busy w.2 u = Some p;
  inv_builder : forall p u, priv w.2 p = Some u -> may_build w.1 u;
  inv_suspend : forall u, suspend_inv (suspenders w.2 u) (suspendCount_ (threads w.1 u));
}.

(** ** Interference *)

(** What keeps a published monitor alive for [t]. *)
Definition pinned (w : world) (t p : Z) (M : Monitor) : Prop :=
  (t ∈ registered /\ status_ (threads w.1 t) = RUNNING) \/ 0 < cnt w.2 t p \/ lock_ M = Some t \/
  mutatorWriter w.1 = Some t.

(** The fields and lists that belong to the holder of the mutex. *)
Record held_same (w w' : world) (p : Z) (M M' : Monitor) : Prop := {
  hs_owner : owner_ M' = owner_ M;
  hs_lock : lock_ M' = lock_ M;
  hs_counter : recursiveCounter_ M' = recursiveCounter_ M;
  hs_head : forall l, head_of l M' = head_of l M;
  hs_chain : forall l, chain w'.2 l p = chain w.2 l p;
  hs_limbo : limbo w'.2 p = limbo w.2 p;
  hs_next : forall u, member w.2 u p -> next_ (threads w'.1 u) = next_ (threads w.1 u);
}.

(** What becomes of a published monitor pinned by [t]. *)
Record kept_monitor (w w' : world) (t p : Z) (M M' : Monitor) : Prop := {
  km_heap : heap w'.1 !! p = Some M';
  km_priv : priv w'.2 p = None;
  km_id : id_ M' = id_ M;
  km_obj : obj_ M' = obj_ M;
  km_hash : hashCode_ M <> 0 -> hashCode_ M' = hashCode_ M;
  km_held : lock_ M = Some t -> held_same w w' p M M';
  km_writer : mutatorWriter w.1 = Some t -> hashCode_ M' = hashCode_ M;
}.

Record rely (t : Z) (w w' : world) : Prop := {
  r_depth : forall o, depth w'.1 o t = depth w.1 o t;
  r_hash : forall o h, hash_of w.1 o = Some h -> hash_of w'.1 o = Some h;
  r_status : status_ (threads w'.1 t) = status_ (threads w.1 t);
  r_writer : mutatorWriter w.1 = Some t ->
    mutatorWriter w'.1 = Some t /\ forall u p, cnt w'.2 u p = cnt w.2 u p;
  r_monitor : forall p M, heap w.1 !! p = Some M -> priv w.2 p = None -> pinned w t p M ->
    exists M', kept_monitor w w' t p M M';
  r_private : forall p, priv w.2 p = Some t ->
    priv w'.2 p = Some t /\ heap w'.1 !! p = heap w.1 !! p;
  r_cnt : forall p, cnt w'.2 t p = cnt w.2 t p;
  r_busy : busy w'.2 t = busy w.2 t;
  r_member : forall p, member w'.2 t p -> member w.2 t p;
  r_next : (forall p, ~ member w.2 t p) -> next_ (threads w'.1 t) = next_ (threads w.1 t);
  r_cond : forall u, condLock_ (threads w.1 u) = Some t -> condLock_ (threads w'.1 u) = Some t;
  r_priv : forall p, priv w'.2 p = Some t -> priv w.2 p = Some t;
  r_suspend : forall u, t ∈ suspenders w'.2 u <-> t ∈ suspenders w.2 u;
  r_stays : forall u, t ∈ suspenders w.2 u -> status_ (threads w.1 u) <> RUNNING ->
    status_ (threads w'.1 u) <> RUNNING;
  r_own : own_fields (threads w'.1 t) = own_fields (threads w.1 t);
}.

Lemma rely_refl t w : rely t w w.
Proof. split; try done. intros p M Hp Hv _. exists M. by repeat split. Qed.

Lemma rely_trans t w1 w2 w3 : rely t w1 w2 -> rely t w2 w3 -> rely t w1 w3.
Proof.
  intros R1 R2. split.
  - intros o. rewrite (r_depth _ _ _ R2). apply (r_depth _ _ _ R1).
  - intros o h E. by apply (r_hash _ _ _ R2), (r_hash _ _ _ R1).
  - rewrite (r_status _ _ _ R2). apply (r_status _ _ _ R1).
  - intros E. destruct (r_writer _ _ _ R1 E) as [E2 C1].
    destruct (r_writer _ _ _ R2 E2) as [E3 C2]. split; [done|]. intros. by rewrite C2.
  - intros p M Hp Hv Hpin. destruct (r_monitor _ _ _ R1 p M Hp Hv Hpin) as [M2 K1].
    assert (Hpin2 : pinned w2 t p M2).
    { destruct Hpin as [E|[E|[E|E]]].
      - left. by rewrite (r_status _ _ _ R1).
      - right; left. by rewrite (r_cnt _ _ _ R1).
      - right; right; left. by rewrite (hs_lock _ _ _ _ _ (km_held _ _ _ _ _ _ K1 E)).
      - right; right; right. by apply (r_writer _ _ _ R1). }
    destruct (r_monitor _ _ _ R2 p M2 (km_heap _ _ _ _ _ _ K1) (km_priv _ _ _ _ _ _ K1) Hpin2)
      as [M3 K2].
    exists M3. destruct K1 as [E1 E2 E3 E4 E5 E6 E7], K2 as [F1 F2 F3 F4 F5 F6 F7].
    split; try congruence.
    + intros Hh. rewrite F5; [auto|]. by rewrite E5.
    + intros Hl. specialize (E6 Hl) as [G1 G2 G3 G4 G5 G6 G7].
      destruct F6 as [I1 I2 I3 I4 I5 I6 I7]; [congruence|].
      split; [congruence..| | | |].
      * intros l. by rewrite I4, G4.
      * intros l. by rewrite I5, G5.
      * congruence.
      * intros u Hu. rewrite I7; [auto|]. unfold member in *. setoid_rewrite G5. by rewrite G6.
    + intros Hw. rewrite F7; [auto|]. by apply (r_writer _ _ _ R1).
  - intros p E. destruct (r_private _ _ _ R1 p E) as [E1 X1].
    destruct (r_private _ _ _ R2 p E1) as [E2 X2]. split; [done|]. congruence.
  - intros p. rewrite (r_cnt _ _ _ R2). apply (r_cnt _ _ _ R1).
  - rewrite (r_busy _ _ _ R2). apply (r_busy _ _ _ R1).
  - intros p E. by apply (r_member _ _ _ R1), (r_member _ _ _ R2).
  - intros E. rewrite (r_next _ _ _ R2), (r_next _ _ _ R1); [done|done|].
    intros p Hm. by apply (E p), (r_member _ _ _ R1).
  - intros u E. by apply (r_cond _ _ _ R2), (r_cond _ _ _ R1).
  - intros p E. by apply (r_priv _ _ _ R1), (r_priv _ _ _ R2).
  - intros u. by rewrite (r_suspend _ _ _ R2), (r_suspend _ _ _ R1).
  - intros u Hu Hs. apply (r_stays _ _ _ R2); [by apply (r_suspend _ _ _ R1)|].
    by apply (r_stays _ _ _ R1).
  - by rewrite (r_own _ _ _ R2), (r_own _ _ _ R1).
Qed.

(** ** Consequences of the invariant *)

(** How often [t] holds a monitor. *)
Definition held_by (M : Monitor) (t : Z) : Z :=
  if decide (owner_ M = Some t) then recursiveCounter_ M else 0.

Lemma monitor_of_published w p M :
  inv w -> heap w.1 !! p = Some M -> priv w.2 p = None -> monitor_of w.1 (obj_ M) = Some M.
Proof.
  intros I Hp Hv. unfold monitor_of. rewrite (inv_published _ I p M Hp Hv).
  by rewrite (inv_pool _ I p M Hp).
Qed.

Lemma depth_published w p M t :
  inv w -> heap w.1 !! p = Some M -> priv w.2 p = None -> depth w.1 (obj_ M) t = held_by M t.
Proof.
  intros I Hp Hv. unfold depth. rewrite (monitor_of_published w p M I Hp Hv).
  by rewrite (inv_published _ I p M Hp Hv).
Qed.

Lemma hash_published w p M :
  inv w -> heap w.1 !! p = Some M -> priv w.2 p = None ->
  hash_of w.1 (obj_ M) = if decide (hashCode_ M = 0) then None else Some (hashCode_ M).
Proof.
  intros I Hp Hv. unfold hash_of. rewrite (monitor_of_published w p M I Hp Hv).
  by rewrite (inv_published _ I p M Hp Hv).
Qed.

(** The monitor of a heavy word. *)
Lemma heavy_monitor w o id :
  inv w -> view_of (marks w.1 o) = VHeavy id ->
  exists p M, monitors_ w.1 !! id = Some p /\ heap w.1 !! p = Some M /\ priv w.2 p = None /\
              obj_ M = o /\ id_ M = id.
Proof.
  intros I E. destruct (inv_heavy _ I o id E) as (p & M & Hid & Hp & Hv & <-).
  exists p, M. split_and!; [done..|]. pose proof (inv_published _ I p M Hp Hv). congruence.
Qed.

Lemma published_same_object w p q M N :
  inv w -> heap w.1 !! p = Some M -> heap w.1 !! q = Some N -> priv w.2 p = None ->
  priv w.2 q = None -> obj_ M = obj_ N -> p = q.
Proof.
  intros I Hp Hq Vp Vq E. pose proof (inv_published _ I p M Hp Vp) as E1.
  pose proof (inv_published _ I q N Hq Vq) as E2. rewrite E, E2 in E1.
  pose proof (inv_pool _ I p M Hp). pose proof (inv_pool _ I q N Hq). congruence.
Qed.

Lemma links_ext {K} (f f' : K -> option (option K)) h l :
  (forall u, u ∈ l -> f' u = f u) -> links f h l -> links f' h l.
Proof.
  intros E L. induction L as [|c n l Hn L IH]; [apply links_nil|]. apply (links_cons _ c n).
  - rewrite E by left. done.
  - apply IH. intros u Hu. apply E. by right.
Qed.

(** ** A step on one monitor and its lists

    [t] changes the monitor at [p], from [M] to [M'], and possibly a link of one
    of its members or of [t] itself. *)
Record local_step (t : Z) (s : Store) (g : Ghost) (p : Z) (M : Monitor)
    (s' : Store) (g' : Ghost) (M' : Monitor) : Prop := {
  lo_marks : marks s' = marks s;
  lo_pool : monitors_ s' = monitors_ s;
  lo_next : nextAddress s' = nextAddress s;
  lo_seed : g_hashSeed s' = g_hashSeed s;
  lo_writer : mutatorWriter s' = mutatorWriter s;
  lo_heap : heap s' = <[p := M']> (heap s);
  lo_status : forall u, status_ (threads s' u) = status_ (threads s u);
  lo_link : forall u, next_ (threads s' u) = next_ (threads s u) \/
    (u = t /\ forall q, ~ member g t q) \/ member g u p;
  lo_id : id_ M' = id_ M;
  lo_obj : obj_ M' = obj_ M;
  lo_lock : lock_inv M';
  lo_hash : 0 <= hashCode_ M' <= MarkWord.HASH_MASK /\ in_u 32 (hashCode_ M');
  lo_hash_same : hashCode_ M <> 0 -> hashCode_ M' = hashCode_ M;
  lo_counter : waitersCounter_ M' = total g' p;
  lo_priv : forall q, priv g' q = priv g q;
  lo_cnt : forall u q, u <> t \/ q <> p -> cnt g' u q = cnt g u q;
  lo_cnt_range : 0 <= cnt g' t p <= 2 /\ (t ∉ registered -> cnt g' t p = 0);
  lo_busy : forall u, u <> t -> busy g' u = busy g u;
  lo_busy_other : forall q, q <> p -> busy g' t = Some q <-> busy g t = Some q;
  lo_busy_lock : forall u, busy g' u = Some p -> priv g p = None /\ lock_ M' = Some u;
  lo_chain : forall l q, q <> p -> chain g' l q = chain g l q;
  lo_limbo : forall q, q <> p -> limbo g' q = limbo g q;
  lo_member : forall u, member g' u p -> member g u p \/ (u = t /\ forall q, member g t q -> q = p);
  lo_lists : lists_inv (next_in s') g' p M';
  lo_perm : forall u, priv g p = Some u -> u = t;
  lo_private : priv g p <> None -> cnt g' t p = 0 /\ forall u, ~ member g' u p;
  lo_held : priv g p = None -> forall u, u <> t -> lock_ M = Some u ->
    held_same (s, g) (s', g') p M M';
  lo_depth : priv g p = None -> forall u, u <> t -> held_by M' u = held_by M u;
  lo_stopped : forall u, u <> t -> mutatorWriter s = Some u ->
    cnt g' t p = cnt g t p /\ hashCode_ M' = hashCode_ M;
  lo_owned : priv g p = None -> forall u, owner_ M' = Some u -> recursiveCounter_ M' = 0 ->
    busy g' u = Some p;
  lo_cond : forall u, condLock_ (threads s' u) = condLock_ (threads s u);
  lo_suspend : forall u, suspendCount_ (threads s' u) = suspendCount_ (threads s u);
  lo_suspenders : forall u, suspenders g' u = suspenders g u;
  lo_own : forall u, own_fields (threads s' u) = own_fields (threads s u);
}.

Section Local.
Context (t : Z) (s : Store) (g : Ghost) (p : Z) (M : Monitor) (s' : Store) (g' : Ghost) (M' : Monitor).
Context (I : inv (s, g)) (Hp : heap s !! p = Some M) (L : local_step t s g p M s' g' M').

Lemma local_other q : q <> p -> heap s' !! q = heap s !! q.
Proof. intros. by rewrite (lo_heap _ _ _ _ _ _ _ _ L), lookup_insert_ne. Qed.

Lemma local_at : heap s' !! p = Some M'.
Proof. by rewrite (lo_heap _ _ _ _ _ _ _ _ L), lookup_insert_eq. Qed.

Lemma local_member_other u q : q <> p -> member g' u q <-> member g u q.
Proof.
  intros Hq. unfold member. setoid_rewrite (lo_chain _ _ _ _ _ _ _ _ L _ q Hq).
  by rewrite (lo_limbo _ _ _ _ _ _ _ _ L q Hq).
Qed.

(** A published monitor has a published counterpart for the same object. *)
Lemma local_heap q N :
  heap s !! q = Some N ->
  exists N', heap s' !! q = Some N' /\ id_ N' = id_ N /\ obj_ N' = obj_ N /\
             (q <> p -> N' = N) /\ (q = p -> N = M /\ N' = M').
Proof.
  intros Hq. destruct (decide (q = p)) as [->|Hne].
  - exists M'. assert (N = M) as -> by congruence. rewrite local_at.
    by rewrite (lo_id _ _ _ _ _ _ _ _ L), (lo_obj _ _ _ _ _ _ _ _ L).
  - exists N. by rewrite local_other.
Qed.

Lemma local_heap_inv q N' :
  heap s' !! q = Some N' ->
  exists N, heap s !! q = Some N /\ id_ N' = id_ N /\ obj_ N' = obj_ N /\
            (q <> p -> N' = N) /\ (q = p -> N = M /\ N' = M').
Proof.
  intros Hq. destruct (decide (q = p)) as [->|Hne].
  - exists M. rewrite local_at in Hq. assert (N' = M') as -> by congruence.
    by rewrite (lo_id _ _ _ _ _ _ _ _ L), (lo_obj _ _ _ _ _ _ _ _ L).
  - rewrite local_other in Hq by done. by exists N'.
Qed.

Lemma local_lists q N' : heap s' !! q = Some N' -> lists_inv (next_in s') g' q N'.
Proof.
  intros Hq. destruct (local_heap_inv q N' Hq) as (N & Hq0 & _ & _ & Ho & Ha).
  destruct (decide (q = p)) as [->|Hne].
  - destruct (Ha eq_refl) as [-> ->]. apply (lo_lists _ _ _ _ _ _ _ _ L).
  - rewrite (Ho Hne) in *. destruct (inv_lists _ I q N Hq0) as [L1 L2 L3]. simpl in *. split.
    + intros l. rewrite (lo_chain _ _ _ _ _ _ _ _ L l q Hne).
      eapply links_ext; [|apply L1]. intros u Hu. unfold next_in. f_equal.
      assert (member g u q) by (left; by exists l).
      destruct (lo_link _ _ _ _ _ _ _ _ L u) as [E|[[-> E]|E]]; [done|by destruct (E q)|].
      destruct Hne. symmetry. by eapply (inv_member _ I).
    + intros u Hu%local_member_other; [|done].
      rewrite (lo_cnt _ _ _ _ _ _ _ _ L) by auto. auto.
    + intros Hc. rewrite (lo_limbo _ _ _ _ _ _ _ _ L q Hne), !(lo_chain _ _ _ _ _ _ _ _ L _ q Hne).
      apply L3. intros u Hu. specialize (Hc u Hu). destruct (decide (u = t)) as [->|Hn].
      * by rewrite <- (lo_busy_other _ _ _ _ _ _ _ _ L q Hne).
      * by rewrite <- (lo_busy _ _ _ _ _ _ _ _ L u Hn).
Qed.

Lemma local_inv : inv (s', g').
Proof.
  split; simpl.
  - intros o. rewrite (lo_marks _ _ _ _ _ _ _ _ L). apply (inv_marks _ I).
  - intros o id. rewrite (lo_marks _ _ _ _ _ _ _ _ L), (lo_pool _ _ _ _ _ _ _ _ L). intros E.
    destruct (inv_heavy _ I o id E) as (q & N & Hid & Hq & Hv & Ho).
    destruct (local_heap q N Hq) as (N' & Hq' & _ & Eo & _). exists q, N'.
    rewrite (lo_priv _ _ _ _ _ _ _ _ L). split_and!; [done..|congruence].
  - intros q N' Hq'. destruct (local_heap_inv q N' Hq') as (N & Hq & -> & -> & _).
    rewrite (lo_priv _ _ _ _ _ _ _ _ L), (lo_marks _ _ _ _ _ _ _ _ L). by apply (inv_published _ I).
  - intros q N' Hq'. destruct (local_heap_inv q N' Hq') as (N & Hq & -> & _ & _).
    rewrite (lo_pool _ _ _ _ _ _ _ _ L). by apply (inv_pool _ I).
  - intros id q. rewrite (lo_pool _ _ _ _ _ _ _ _ L). intros E.
    destruct (inv_ids _ I id q E) as [? (N & Hq & En)].
    destruct (local_heap q N Hq) as (N' & Hq' & Ei & _). split; [done|]. exists N'.
    split; [done|congruence].
  - intros q Hq. rewrite (lo_next _ _ _ _ _ _ _ _ L). apply (inv_fresh _ I). simpl.
    destruct (decide (q = p)) as [->|Hne]; [congruence|]. by rewrite <- local_other.
  - intros q Hq. assert (Hne : q <> p) by (intros ->; rewrite local_at in Hq; done).
    rewrite local_other in Hq by done. destruct (inv_dead _ I q Hq) as (D1 & D2 & D3).
    rewrite (lo_priv _ _ _ _ _ _ _ _ L). split_and!; [done| |].
    + intros u. rewrite (lo_cnt _ _ _ _ _ _ _ _ L) by auto. apply D2.
    + intros u. rewrite local_member_other by done. apply D3.
  - intros q u. rewrite (lo_priv _ _ _ _ _ _ _ _ L). intros Hv.
    destruct (inv_private _ I q u Hv) as [D1 D2]. simpl in *.
    destruct (decide (q = p)) as [->|Hne].
    + destruct (lo_private _ _ _ _ _ _ _ _ L) as [E1 E2]; [congruence|]. split; [|done].
      intros v. destruct (decide (v = t)) as [->|]; [done|].
      rewrite (lo_cnt _ _ _ _ _ _ _ _ L) by auto. apply D1.
    + split; intros v; [rewrite (lo_cnt _ _ _ _ _ _ _ _ L) by auto; apply D1|].
      rewrite local_member_other by done. apply D2.
  - intros q N' Hq'. destruct (local_heap_inv q N' Hq') as (N & Hq & _ & _ & Ho & Ha).
    destruct (decide (q = p)) as [->|Hne].
    + destruct (Ha eq_refl) as [_ ->]. apply (lo_lock _ _ _ _ _ _ _ _ L).
    + rewrite (Ho Hne). by apply (inv_lock _ I q).
  - intros u q. destruct (decide (u = t /\ q = p)) as [[-> ->]|Hn].
    + apply (lo_cnt_range _ _ _ _ _ _ _ _ L).
    + rewrite (lo_cnt _ _ _ _ _ _ _ _ L); [apply (inv_cnt _ I)|].
      destruct (decide (u = t)); [right; naive_solver|by left].
  - intros q N' Hq'. destruct (local_heap_inv q N' Hq') as (N & Hq & _ & _ & Ho & Ha).
    destruct (decide (q = p)) as [->|Hne].
    + destruct (Ha eq_refl) as [_ ->]. apply (lo_counter _ _ _ _ _ _ _ _ L).
    + rewrite (Ho Hne), (inv_counter _ I q N Hq). unfold total. f_equal.
      apply list_fmap_ext. intros i u _. by rewrite (lo_cnt _ _ _ _ _ _ _ _ L) by auto.
  - intros q N' Hq'. destruct (local_heap_inv q N' Hq') as (N & Hq & _ & _ & Ho & Ha).
    destruct (decide (q = p)) as [->|Hne].
    + destruct (Ha eq_refl) as [_ ->]. apply (lo_hash _ _ _ _ _ _ _ _ L).
    + rewrite (Ho Hne). by apply (inv_hash _ I q).
  - rewrite (lo_seed _ _ _ _ _ _ _ _ L). apply (inv_seed _ I).
  - apply local_lists.
  - assert (Hcase : forall u q, member g' u q -> member g u q \/
              (q = p /\ u = t /\ forall q, member g t q -> q = p)).
    { intros u q Hm. destruct (decide (q = p)) as [->|Hne].
      - destruct (lo_member _ _ _ _ _ _ _ _ L u Hm) as [?|[-> ?]]; [by left|by right].
      - left. by rewrite local_member_other in Hm. }
    intros u q1 q2 M1%Hcase M2%Hcase.
    destruct M1 as [M1|(-> & -> & M1)], M2 as [M2|(-> & E2 & M2)].
    + by eapply (inv_member _ I).
    + rewrite E2 in M1. auto.
    + symmetry. auto.
    + done.
  - intros u q Hb. rewrite (lo_priv _ _ _ _ _ _ _ _ L). destruct (decide (q = p)) as [->|Hne].
    + destruct (lo_busy_lock _ _ _ _ _ _ _ _ L u Hb) as [? ?]. split; [done|].
      exists M'. by rewrite local_at.
    + assert (Hb' : busy g u = Some q).
      { destruct (decide (u = t)) as [->|]; [by apply (lo_busy_other _ _ _ _ _ _ _ _ L)|].
        by rewrite <- (lo_busy _ _ _ _ _ _ _ _ L). }
      destruct (inv_busy _ I u q Hb') as [? (N & Hq & Hl)]. split; [done|]. exists N.
      by rewrite local_other.
  - intros u v. rewrite (lo_writer _ _ _ _ _ _ _ _ L), (lo_status _ _ _ _ _ _ _ _ L).
    apply (inv_writer _ I).
  - intros q N' u Hq'. rewrite (lo_priv _ _ _ _ _ _ _ _ L).
    destruct (local_heap_inv q N' Hq') as (N & Hq & _ & _ & Hoth & Hat) . intros Hv Ho Hc.
    destruct (decide (q = p)) as [->|Hne].
    + destruct (Hat eq_refl) as [_ ->]. by apply (lo_owned _ _ _ _ _ _ _ _ L).
    + rewrite (Hoth Hne) in *. pose proof (inv_owned _ I q N u Hq Hv Ho Hc) as Hb. simpl in Hb.
      destruct (decide (u = t)) as [->|]; [by apply (lo_busy_other _ _ _ _ _ _ _ _ L)|].
      by rewrite (lo_busy _ _ _ _ _ _ _ _ L).
  - intros q u. rewrite (lo_priv _ _ _ _ _ _ _ _ L). intros Hv.
    pose proof (inv_builder _ I q u Hv) as Hw. unfold may_build in *. simpl in *.
    by rewrite (lo_status _ _ _ _ _ _ _ _ L), (lo_writer _ _ _ _ _ _ _ _ L).
  - intros u. rewrite (lo_suspenders _ _ _ _ _ _ _ _ L), (lo_suspend _ _ _ _ _ _ _ _ L).
    apply (inv_suspend _ I).
Qed.

Lemma local_monitor_of o N :
  monitor_of s o = Some N ->
  exists q N', heap s !! q = Some N /\ priv g q = None /\ monitor_of s' o = Some N' /\
    obj_ N = o /\ (q <> p -> N' = N) /\ (q = p -> N = M /\ N' = M').
Proof.
  unfold monitor_of. rewrite (lo_marks _ _ _ _ _ _ _ _ L), (lo_pool _ _ _ _ _ _ _ _ L).
  destruct (view_of (marks s o)) as [| |id| |] eqn:E; try done.
  destruct (heavy_monitor _ o id I E) as (q & N0 & Hid & Hq & Hv & Ho & _). simpl in *.
  rewrite Hid. simpl. rewrite Hq. intros [= ->].
  destruct (local_heap q N Hq) as (N' & Hq' & _ & _ & H1' & H2'). exists q, N'. by rewrite Hq'.
Qed.

Lemma monitor_of_none_same o : monitor_of s o = None -> monitor_of s' o = None.
Proof.
  unfold monitor_of. rewrite (lo_marks _ _ _ _ _ _ _ _ L), (lo_pool _ _ _ _ _ _ _ _ L).
  destruct (view_of (marks s o)) as [| |id| |] eqn:E; try done.
  destruct (heavy_monitor _ o id I E) as (q & N0 & Hid & Hq & _). simpl in *.
  rewrite Hid. simpl. by rewrite Hq.
Qed.

Lemma local_depth u o : u <> t -> depth s' o u = depth s o u.
Proof.
  intros Hu. unfold depth. rewrite (lo_marks _ _ _ _ _ _ _ _ L).
  destruct (view_of (marks s o)); try done.
  destruct (monitor_of s o) as [N|] eqn:E.
  - destruct (local_monitor_of o N E) as (q & N' & Hq & Hv & -> & _ & Ho & Ha).
    destruct (decide (q = p)) as [->|Hne]; [|by rewrite (Ho Hne)].
    destruct (Ha eq_refl) as [-> ->]. by apply (lo_depth _ _ _ _ _ _ _ _ L Hv).
  - by rewrite (monitor_of_none_same o E).
Qed.

Lemma local_hash o h : hash_of s o = Some h -> hash_of s' o = Some h.
Proof.
  unfold hash_of. rewrite (lo_marks _ _ _ _ _ _ _ _ L).
  destruct (view_of (marks s o)); try done.
  destruct (monitor_of s o) as [N|] eqn:E; [|done].
  destruct (local_monitor_of o N E) as (q & N' & Hq & Hv & -> & _ & Ho & Ha).
  destruct (decide (q = p)) as [->|Hne]; [|by rewrite (Ho Hne)].
  destruct (Ha eq_refl) as [-> ->]. case_decide; [done|]. intros [= <-].
  rewrite (lo_hash_same _ _ _ _ _ _ _ _ L) by done. by case_decide.
Qed.

Lemma local_rely u : u <> t -> rely u (s, g) (s', g').
Proof.
  intros Hu. split; simpl.
  - intros o. by apply local_depth.
  - apply local_hash.
  - apply (lo_status _ _ _ _ _ _ _ _ L).
  - rewrite (lo_writer _ _ _ _ _ _ _ _ L). intros E. split; [done|]. intros v q.
    destruct (decide (v = t /\ q = p)) as [[-> ->]|Hn].
    + by apply (lo_stopped _ _ _ _ _ _ _ _ L u Hu E).
    + apply (lo_cnt _ _ _ _ _ _ _ _ L). destruct (decide (v = t)); [right; naive_solver|by left].
  - intros q N Hq Hv Hpin. destruct (local_heap q N Hq) as (N' & Hq' & Ei & Eo & Ho & Ha).
    exists N'. destruct (decide (q = p)) as [->|Hne].
    + destruct (Ha eq_refl) as [-> ->]. split; simpl; try done.
      * by rewrite (lo_priv _ _ _ _ _ _ _ _ L).
      * apply (lo_hash_same _ _ _ _ _ _ _ _ L).
      * intros. by eapply (lo_held _ _ _ _ _ _ _ _ L Hv u).
      * intros E. by apply (lo_stopped _ _ _ _ _ _ _ _ L u Hu E).
    + specialize (Ho Hne) as ->. split; simpl; try done.
      * by rewrite (lo_priv _ _ _ _ _ _ _ _ L).
      * intros El. split; simpl; try done.
        -- intros l. by apply (lo_chain _ _ _ _ _ _ _ _ L).
        -- by apply (lo_limbo _ _ _ _ _ _ _ _ L).
        -- intros v Hm. destruct (lo_link _ _ _ _ _ _ _ _ L v) as [E|[[-> E]|E]];
             [done|by destruct (E q)|]. destruct Hne. by eapply (inv_member _ I).
  - intros q Hv. rewrite (lo_priv _ _ _ _ _ _ _ _ L). split; [done|]. apply local_other.
    intros ->. by apply Hu, (lo_perm _ _ _ _ _ _ _ _ L).
  - intros q. apply (lo_cnt _ _ _ _ _ _ _ _ L). by left.
  - by apply (lo_busy _ _ _ _ _ _ _ _ L).
  - intros q Hm. destruct (decide (q = p)) as [->|Hne].
    + by destruct (lo_member _ _ _ _ _ _ _ _ L u Hm) as [?|[-> _]].
    + by rewrite local_member_other in Hm.
  - intros Hm. destruct (lo_link _ _ _ _ _ _ _ _ L u) as [E|[[-> E]|E]];
      [done|done|by destruct (Hm p)].
  - intros v. by rewrite (lo_cond _ _ _ _ _ _ _ _ L).
  - intros q. by rewrite (lo_priv _ _ _ _ _ _ _ _ L).
  - intros v. by rewrite (lo_suspenders _ _ _ _ _ _ _ _ L).
  - intros v _. by rewrite (lo_status _ _ _ _ _ _ _ _ L).
  - apply (lo_own _ _ _ _ _ _ _ _ L).
Qed.

(** The acting thread's own holds. *)
Lemma local_own_depth o u :
  depth s' o u = if decide (priv g p = None /\ o = obj_ M) then held_by M' u else depth s o u.
Proof.
  case_decide as E.
  - destruct E as [Ev ->]. rewrite <- (lo_obj _ _ _ _ _ _ _ _ L).
    apply (depth_published (s', g') p M' u local_inv local_at). simpl.
    by rewrite (lo_priv _ _ _ _ _ _ _ _ L).
  - unfold depth. rewrite (lo_marks _ _ _ _ _ _ _ _ L).
    destruct (view_of (marks s o)); try done.
    destruct (monitor_of s o) as [N|] eqn:Em.
    + destruct (local_monitor_of o N Em) as (q & N' & Hq & Hv & -> & Eo & Ho & Ha).
      destruct (decide (q = p)) as [->|Hne]; [|by rewrite (Ho Hne)].
      destruct (Ha eq_refl) as [-> ->]. by destruct E.
    + by rewrite (monitor_of_none_same o Em).
Qed.

Lemma local_ok : inv (s', g') /\ guar rely t (s, g) (s', g').
Proof. split; [apply local_inv|]. intros u. apply local_rely. Qed.

End Local.

(** ** Steps that change neither words nor monitors *)
Lemma monitor_of_ext s s' o :
  marks s' o = marks s o -> heap s' = heap s -> monitors_ s' = monitors_ s ->
  monitor_of s' o = monitor_of s o.
Proof. unfold monitor_of. by intros -> -> ->. Qed.

Record quiet_step (t : Z) (s s' : Store) (g : Ghost) : Prop := {
  q_marks : marks s' = marks s;
  q_heap : heap s' = heap s;
  q_pool : monitors_ s' = monitors_ s;
  q_next : nextAddress s' = nextAddress s;
  q_seed : in_u 32 (g_hashSeed s');
  q_link : forall u, next_ (threads s' u) = next_ (threads s u);
  q_status : forall u, u <> t -> status_ (threads s' u) = status_ (threads s u);
  q_writer : forall u, u <> t -> mutatorWriter s = Some u -> mutatorWriter s' = Some u;
  q_stopped : forall u v, mutatorWriter s' = Some u -> v ∈ registered ->
    status_ (threads s' v) <> RUNNING;
  q_cond : forall u v, v <> t -> condLock_ (threads s u) = Some v -> condLock_ (threads s' u) = Some v;
  q_builder : forall p u, priv g p = Some u -> may_build s' u;
  q_suspend : forall u, suspendCount_ (threads s' u) = suspendCount_ (threads s u);
  q_stays : suspenders g t <> [] -> status_ (threads s t) <> RUNNING ->
    status_ (threads s' t) <> RUNNING;
  q_own : forall u, u <> t -> own_fields (threads s' u) = own_fields (threads s u);
}.

Lemma quiet_ok t s s' g :
  inv (s, g) -> quiet_step t s s' g -> inv (s', g) /\ guar rely t (s, g) (s', g).
Proof.
  intros I [E1 E2 E3 E4 E5 E6 E7 E8 E9 E10 E11 E12 E13 E14]. split.
  - destruct I as [I1 I2 I3 I4 I5 I6 I7 I8 I9 I10 I11 I12 I13 I14 I15 I16 I17 I18 I19 I20].
    split; simpl in *; rewrite ?E1, ?E2, ?E3, ?E4; try done.
    + intros p M Hp. destruct (I14 p M Hp) as [L1 L2 L3]. split; [|done..].
      intros l. eapply links_ext; [|apply L1]. intros u _. unfold next_in. by rewrite E6.
    + intros u. by rewrite E12.
  - intros u Hu. split; simpl; try done.
    + intros o. unfold depth. rewrite (monitor_of_ext s s') by congruence. by rewrite E1.
    + intros o h. unfold hash_of. rewrite (monitor_of_ext s s') by congruence. by rewrite E1.
    + by apply E7.
    + intros E. split; [|done]. by apply (E8 u).
    + intros p M Hp Hv _. exists M. split; simpl; [by rewrite E2|done|done|done|done| |done].
      intros _. split; simpl; done.
    + intros p Hv. by rewrite E2.
    + intros v. by apply E10.
    + intros v Hv. destruct (decide (v = t)) as [->|]; [|by rewrite E7]. apply E13.
      intros E. by rewrite E in Hv; apply elem_of_nil in Hv.
    + by apply E14.
Qed.

(** ** Steps that change a word and keep it in its class *)
Definition light_depth (v : view) (t : Z) : Z :=
  match v with VLight u c => if decide (u = t) then c else 0 | _ => 0 end.
Definition word_hash (v : view) : option Z := match v with VHashed h => Some h | _ => None end.
Definition is_heavy (v : view) : Prop := exists id, v = VHeavy id.

Lemma depth_light s o t : ~ is_heavy (view_of (marks s o)) -> depth s o t = light_depth (view_of (marks s o)) t.
Proof. intros Hn. unfold depth, light_depth. destruct (view_of _) eqn:E; try done. by destruct Hn; eexists. Qed.

Lemma hash_light s o : ~ is_heavy (view_of (marks s o)) -> hash_of s o = word_hash (view_of (marks s o)).
Proof. intros Hn. unfold hash_of, word_hash. destruct (view_of _) eqn:E; try done. by destruct Hn; eexists. Qed.

Lemma is_heavy_dec v : {is_heavy v} + {~ is_heavy v}.
Proof. destruct v; [right|right|left|right|right]; try (intros [? [=]]). by eexists. Qed.

Record word_step (t : Z) (s : Store) (o v : Z) (s' : Store) : Prop := {
  w_store : s' = {| s with marks := <[o := v]> (marks s) |};
  w_mark : mark_inv v;
  w_class : forall id, view_of v = VHeavy id <-> view_of (marks s o) = VHeavy id;
  w_depth : forall u, u <> t -> light_depth (view_of v) u = light_depth (view_of (marks s o)) u;
  w_hash : forall h, word_hash (view_of (marks s o)) = Some h -> word_hash (view_of v) = Some h;
}.

Lemma word_ok t s g o v s' :
  inv (s, g) -> word_step t s o v s' -> inv (s', g) /\ guar rely t (s, g) (s', g).
Proof.
  intros I [-> Hm Hc Hd Hh].
  assert (Hcl : forall x id, view_of (<[o:=v]> (marks s) x) = VHeavy id <->
                             view_of (marks s x) = VHeavy id).
  { intros x id. destruct (decide (x = o)) as [->|Hne].
    - by rewrite fn_lookup_insert.
    - by rewrite fn_lookup_insert_ne. }
  set (s' := {| s with marks := <[o := v]> (marks s) |}).
  assert (Hmo : forall x, monitor_of s' x = monitor_of s x).
  { intros x. unfold monitor_of. simpl. specialize (Hcl x).
    destruct (view_of (<[o:=v]> (marks s) x)) as [| |id| |] eqn:E1;
    destruct (view_of (marks s x)) as [| |id'| |] eqn:E2; try done;
    try (by specialize (proj2 (Hcl _) eq_refl)); try (by specialize (proj1 (Hcl _) eq_refl)).
    specialize (proj1 (Hcl _) eq_refl). by intros [= ->]. }
  assert (Hnh : forall x, is_heavy (view_of (marks s' x)) <-> is_heavy (view_of (marks s x))).
  { intros x. split; intros [id E]; exists id; by apply Hcl. }
  split.
  - destruct I as [I1 I2 I3 I4 I5 I6 I7 I8 I9 I10 I11 I12 I13 I14 I15 I16 I17 I18 I19 I20].
    split; simpl in *; try done.
    + intros x. destruct (decide (x = o)) as [->|]; [by rewrite fn_lookup_insert|].
      by rewrite fn_lookup_insert_ne.
    + intros x id E%Hcl. eauto.
    + intros p M Hp Hv. apply Hcl. eauto.
  - intros u Hu. split; simpl; try done.
    + intros x. destruct (is_heavy_dec (view_of (marks s x))) as [[id E]|Hn].
      * unfold depth. rewrite Hmo, E. simpl. by rewrite (proj2 (Hcl x id) E).
      * rewrite !depth_light by (by rewrite ?Hnh). simpl.
        destruct (decide (x = o)) as [->|]; [rewrite fn_lookup_insert; auto|].
        by rewrite fn_lookup_insert_ne.
    + intros x h. destruct (is_heavy_dec (view_of (marks s x))) as [[id E]|Hn].
      * unfold hash_of. rewrite Hmo, E. simpl. by rewrite (proj2 (Hcl x id) E).
      * rewrite !hash_light by (by rewrite ?Hnh). simpl.
        destruct (decide (x = o)) as [->|]; [rewrite fn_lookup_insert; auto|].
        by rewrite fn_lookup_insert_ne.
    + intros p M Hp Hv _. exists M. by repeat split.
Qed.

(** ** The life of a monitor: created, published, deflated, freed *)
Definition with_priv (p : Z) (x : option Z) (g : Ghost) : Ghost :=
  {| g with priv := <[p := x]> (priv g) |}.

Lemma monitor_of_frame s s' o :
  marks s' o = marks s o ->
  (forall id p, view_of (marks s o) = VHeavy id -> monitors_ s !! id = Some p ->
     monitors_ s' !! id = Some p /\ heap s' !! p = heap s !! p) ->
  (forall id, view_of (marks s o) = VHeavy id -> monitors_ s !! id <> None) ->
  monitor_of s' o = monitor_of s o.
Proof.
  intros E Hk Hn. unfold monitor_of. rewrite E.
  destruct (view_of (marks s o)) as [| |id| |] eqn:Ev; try done.
  destruct (monitors_ s !! id) as [p|] eqn:Ep; [|by destruct (Hn id eq_refl)].
  destruct (Hk id p eq_refl Ep) as [-> E2]. simpl. by rewrite E2.
Qed.

(** *** The sum of the counts *)
Lemma total_zero g p : (forall t, cnt g t p = 0) -> total g p = 0.
Proof.
  intros E. unfold total. induction registered as [|u l IH]; [done|]. rewrite fmap_cons. simpl.
  by rewrite E, IH.
Qed.

Lemma total_pos g p t :
  (forall u, 0 <= cnt g u p) -> t ∈ registered -> cnt g t p <= total g p.
Proof.
  intros E. unfold total. induction registered as [|u l IH]; [by intros ?%elem_of_nil|].
  rewrite fmap_cons. simpl. intros [->|Hl]%elem_of_cons.
  - assert (0 <= foldr Z.add 0 ((fun t => cnt g t p) <$> l)); [|lia].
    clear IH. induction l as [|v l IH]; [done|]. rewrite fmap_cons. simpl. specialize (E v). lia.
  - specialize (IH Hl). specialize (E u). lia.
Qed.

Lemma total_bound g p :
  (forall u, cnt g u p <= 2) -> total g p <= 2 * Z.of_nat (length registered).
Proof.
  intros E. unfold total. induction registered as [|u l IH]; [done|]. rewrite fmap_cons.
  simpl length. simpl foldr. specialize (E u). lia.
Qed.

Definition with_cnt (t p d : Z) (g : Ghost) : Ghost :=
  {| g with cnt := <[t := <[p := cnt g t p + d]> (cnt g t)]> (cnt g) |}.

Lemma with_cnt_same t p d g : cnt (with_cnt t p d g) t p = cnt g t p + d.
Proof. unfold with_cnt. simpl. by rewrite !fn_lookup_insert. Qed.

Lemma with_cnt_other t p d g u q : u <> t \/ q <> p -> cnt (with_cnt t p d g) u q = cnt g u q.
Proof.
  intros Hn. unfold with_cnt. simpl. destruct (decide (u = t)) as [->|].
  - destruct Hn; [done|]. by rewrite fn_lookup_insert, fn_lookup_insert_ne.
  - by rewrite fn_lookup_insert_ne.
Qed.

Lemma total_with_cnt t p d g :
  NoDup registered -> t ∈ registered -> total (with_cnt t p d g) p = total g p + d.
Proof.
  unfold total. induction registered as [|u l IH]; [by intros _ ?%elem_of_nil|].
  intros Hnd. pose proof (NoDup_cons_1_1 _ _ Hnd) as Hu. apply NoDup_cons_1_2 in Hnd as Hn.
  clear Hnd. rewrite !fmap_cons. cbn [foldr]. intros [->|Hl]%elem_of_cons.
  - rewrite with_cnt_same. enough (foldr Z.add 0 ((fun t0 => cnt (with_cnt u p d g) t0 p) <$> l) =
      foldr Z.add 0 ((fun t0 => cnt g t0 p) <$> l)) as -> by lia.
    clear IH Hn. induction l as [|v l IH]; [done|]. rewrite !fmap_cons. cbn [foldr].
    apply not_elem_of_cons in Hu as [? ?]. rewrite with_cnt_other by auto. by rewrite IH.
  - rewrite with_cnt_other by (left; naive_solver). rewrite (IH Hn Hl). lia.
Qed.

Lemma create_ok t s g id o :
  inv (s, g) -> monitors_ s !! id = None -> 0 <= id < MAX_MONITOR_ID -> may_build s t ->
  let p := nextAddress s in
  let s' := {| s with heap := <[p := newMonitor id o]> (heap s); nextAddress := p + 1;
                      lastId_ := id; monitors_ := <[id := p]> (monitors_ s) |} in
  let g' := with_priv p (Some t) g in
  inv (s', g') /\ guar rely t (s, g) (s', g') /\ (forall x u, depth s' x u = depth s x u).
Proof.
  intros I Hid Hr Hbuild p s' g'.
  assert (Hp : heap s !! p = None).
  { destruct (heap s !! p) as [M|] eqn:E; [|done].
    assert (p < nextAddress s) by (apply (inv_fresh _ I p); simpl; congruence). unfold p in *. lia. }
  assert (Hne : forall q N, heap s !! q = Some N -> q <> p) by congruence.
  assert (Hheap : forall q N, heap s !! q = Some N -> heap s' !! q = Some N).
  { intros q N Hq. simpl. rewrite lookup_insert_ne; [done|]. apply not_eq_sym. eauto. }
  assert (Hpool : forall i q, monitors_ s !! i = Some q -> monitors_ s' !! i = Some q).
  { intros i q Hi. simpl. rewrite lookup_insert_ne; [done|]. congruence. }
  assert (Hpriv : forall q, q <> p -> priv g' q = priv g q).
  { intros q Hq. simpl. by rewrite fn_lookup_insert_ne. }
  destruct (inv_dead _ I p Hp) as (D1 & D2 & D3). simpl in D1, D2, D3.
  assert (Hmo : forall x, monitor_of s' x = monitor_of s x).
  { intros x. apply monitor_of_frame; [done| |].
    - intros i q _ Hi. split; [by apply Hpool|]. destruct (inv_ids _ I i q Hi) as [_ (N & Hq & _)].
      simpl in Hq. rewrite Hq. by apply Hheap.
    - intros i Hi. destruct (inv_heavy _ I x i Hi) as (q & N & E & _). simpl in E. congruence. }
  split_and!; [| |intros x u; unfold depth; by rewrite Hmo].
  - split.
    + apply (inv_marks _ I).
    + intros x i E. destruct (inv_heavy _ I x i E) as (q & N & Hi & Hq & Hv & Ho).
      exists q, N. simpl in Hq, Hv. split_and!; [by apply Hpool|by apply Hheap| |done].
      change (priv g' q = None). by rewrite Hpriv by eauto.
    + intros q N Hq Hv. simpl in Hq. destruct (decide (q = p)) as [->|Hn].
      * simpl in Hv. by rewrite fn_lookup_insert in Hv.
      * rewrite lookup_insert_ne in Hq by done. apply (inv_published _ I q N Hq).
        simpl. by rewrite <- Hpriv.
    + intros q N Hq. simpl in Hq. destruct (decide (q = p)) as [->|Hn].
      * rewrite lookup_insert_eq in Hq. injection Hq as <-. simpl. by rewrite lookup_insert_eq.
      * rewrite lookup_insert_ne in Hq by done. apply Hpool. by apply (inv_pool _ I).
    + intros i q Hi. simpl in Hi. destruct (decide (i = id)) as [->|Hn].
      * rewrite lookup_insert_eq in Hi. injection Hi as <-. split; [done|].
        exists (newMonitor id o). simpl. by rewrite lookup_insert_eq.
      * rewrite lookup_insert_ne in Hi by done.
        destruct (inv_ids _ I i q Hi) as [? (N & Hq & E)]. split; [done|]. exists N. split; [|done].
        by apply Hheap.
    + intros q Hq. simpl in *. destruct (decide (q = p)) as [->|Hn]; [unfold p; lia|].
      rewrite lookup_insert_ne in Hq by done. pose proof (inv_fresh _ I q Hq). simpl in *. lia.
    + intros q Hq. simpl in *. destruct (decide (q = p)) as [->|Hn].
      * by rewrite lookup_insert_eq in Hq.
      * rewrite lookup_insert_ne in Hq by done. rewrite fn_lookup_insert_ne by done.
        apply (inv_dead _ I q Hq).
    + intros q u Hv. simpl in *. destruct (decide (q = p)) as [->|Hn]; [done|].
      rewrite fn_lookup_insert_ne in Hv by done. apply (inv_private _ I q u Hv).
    + intros q N Hq. simpl in Hq. destruct (decide (q = p)) as [->|Hn].
      * rewrite lookup_insert_eq in Hq. injection Hq as <-. by split.
      * rewrite lookup_insert_ne in Hq by done. by apply (inv_lock _ I q).
    + apply (inv_cnt _ I).
    + intros q N Hq. simpl in Hq. destruct (decide (q = p)) as [->|Hn].
      * rewrite lookup_insert_eq in Hq. injection Hq as <-. simpl.
        symmetry. by apply total_zero.
      * rewrite lookup_insert_ne in Hq by done. by apply (inv_counter _ I q).
    + intros q N Hq. simpl in Hq. destruct (decide (q = p)) as [->|Hn].
      * rewrite lookup_insert_eq in Hq. injection Hq as <-. simpl.
        layout. rewrite Z.shiftl_1_l. pose proof (pow2_pos (BITS - 4)). unfold in_u. lia.
      * rewrite lookup_insert_ne in Hq by done. by apply (inv_hash _ I q).
    + apply (inv_seed _ I).
    + intros q N Hq. simpl in Hq. destruct (decide (q = p)) as [->|Hn].
      * rewrite lookup_insert_eq in Hq. injection Hq as <-.
        assert (Hch : forall l, chain g l p = []).
        { intros l. destruct (chain g l p) as [|u k] eqn:E; [done|]. destruct (D3 u).
          left. exists l. rewrite E. by left. }
        split; simpl.
        -- intros l. rewrite Hch. destruct l; apply links_nil.
        -- intros u Hu. by destruct (D3 u).
        -- intros _. rewrite !Hch. split; [|by intros u ?%elem_of_nil].
           destruct (limbo g p) as [|u k] eqn:E; [done|]. destruct (D3 u). right. rewrite E. by left.
      * rewrite lookup_insert_ne in Hq by done. destruct (inv_lists _ I q N Hq) as [L1 L2 L3].
        by split.
    + apply (inv_member _ I).
    + intros u q Hb. destruct (inv_busy _ I u q Hb) as [Hv (N & Hq & Hl)]. simpl in Hv, Hq.
      split; [|exists N; split; [by apply Hheap|done]].
      change (priv g' q = None). by rewrite Hpriv by eauto.
    + apply (inv_writer _ I).
    + intros q N u Hq Hv Ho Hc. destruct (decide (q = p)) as [->|Hq'].
      * simpl in Hv. by rewrite fn_lookup_insert in Hv.
      * cbn [snd] in Hv. rewrite Hpriv in Hv by done. simpl in Hq.
        rewrite lookup_insert_ne in Hq by done. by apply (inv_owned _ I q N).
    + intros q u Hv. destruct (decide (q = p)) as [->|Hq].
      * simpl in Hv. rewrite fn_lookup_insert in Hv. by injection Hv as <-.
      * cbn [snd] in Hv. rewrite Hpriv in Hv by done. by apply (inv_builder _ I q).
    + apply (inv_suspend _ I).
  - intros u Hu. split; try done.
    + intros x. unfold depth. by rewrite Hmo.
    + intros x h. unfold hash_of. by rewrite Hmo.
    + intros q N Hq Hv _. exists N. split; try done; [by apply Hheap|].
      change (priv g' q = None). by rewrite Hpriv by eauto.
    + intros q Hv. simpl in Hv. assert (q <> p) by congruence. rewrite Hpriv by done.
      simpl. by rewrite lookup_insert_ne.
    + intros q Hq. destruct (decide (q = p)) as [->|].
      * simpl in Hq. rewrite fn_lookup_insert in Hq. congruence.
      * cbn [snd] in Hq. by rewrite Hpriv in Hq.
Qed.

Lemma free_ok t s g p M :
  inv (s, g) -> heap s !! p = Some M -> priv g p = Some t ->
  let s' := {| s with heap := delete p (heap s); monitors_ := delete (id_ M) (monitors_ s) |} in
  let g' := with_priv p None g in
  inv (s', g') /\ guar rely t (s, g) (s', g') /\ (forall x u, depth s' x u = depth s x u).
Proof.
  intros I Hp Hv s' g'.
  pose proof (inv_pool _ I p M Hp) as Hid. simpl in Hid.
  assert (Hheap : forall q, q <> p -> heap s' !! q = heap s !! q).
  { intros q Hq. simpl. by rewrite lookup_delete_ne. }
  assert (Hdel : heap s' !! p = None) by (simpl; by rewrite lookup_delete_eq).
  assert (Hpriv : forall q, q <> p -> priv g' q = priv g q).
  { intros q Hq. simpl. by rewrite fn_lookup_insert_ne. }
  assert (Hpool : forall i q, monitors_ s !! i = Some q -> q <> p -> monitors_ s' !! i = Some q).
  { intros i q Hi Hq. simpl. rewrite lookup_delete_ne; [done|]. congruence. }
  assert (Hinv : forall q N, heap s' !! q = Some N -> q <> p /\ heap s !! q = Some N).
  { intros q N Hq. assert (q <> p) by congruence. by rewrite <- Hheap. }
  destruct (inv_private _ I p t Hv) as [D1 D2]. simpl in D1, D2.
  assert (Hmo : forall x, monitor_of s' x = monitor_of s x).
  { intros x. apply monitor_of_frame; [done| |].
    - intros i q E Hi. destruct (inv_heavy _ I x i E) as (q' & N & Hi' & Hq & Hv' & _).
      simpl in *. assert (q = q') as -> by congruence. assert (q' <> p) by congruence.
      split; [by apply Hpool|by apply Hheap].
    - intros i Hi. destruct (inv_heavy _ I x i Hi) as (q & N & E & _). simpl in E. congruence. }
  split_and!; [| |intros x u; unfold depth; by rewrite Hmo].
  - split.
    + apply (inv_marks _ I).
    + intros x i E. destruct (inv_heavy _ I x i E) as (q & N & Hi & Hq & Hv' & Ho). simpl in *.
      assert (q <> p) by congruence. exists q, N.
      rewrite fn_lookup_insert_ne by done. split_and!; [by apply Hpool|by rewrite Hheap|done..].
    + intros q N Hq. destruct (Hinv q N Hq) as [Hn Hq']. simpl. rewrite fn_lookup_insert_ne by done.
      by apply (inv_published _ I q N).
    + intros q N Hq. destruct (Hinv q N Hq) as [Hn Hq']. apply Hpool; [|done].
      by apply (inv_pool _ I).
    + intros i q Hi. simpl in Hi. apply lookup_delete_Some in Hi as [Hi Hi'].
      destruct (inv_ids _ I i q Hi') as [? (N & Hq & E)]. split; [done|]. exists N.
      split; [|done]. simpl in *. rewrite Hheap; [done|]. intros ->. congruence.
    + intros q Hq. apply (inv_fresh _ I). simpl in *. intros E. apply Hq.
      rewrite lookup_delete_None. auto.
    + intros q Hq. simpl. destruct (decide (q = p)) as [->|Hn].
      * by rewrite fn_lookup_insert.
      * rewrite fn_lookup_insert_ne by done. apply (inv_dead _ I). simpl. by rewrite <- Hheap.
    + intros q u. simpl. destruct (decide (q = p)) as [->|Hn]; [by rewrite fn_lookup_insert|].
      rewrite fn_lookup_insert_ne by done. apply (inv_private _ I).
    + intros q N Hq. destruct (Hinv q N Hq) as [Hn Hq']. by apply (inv_lock _ I q).
    + apply (inv_cnt _ I).
    + intros q N Hq. destruct (Hinv q N Hq) as [Hn Hq']. by apply (inv_counter _ I q).
    + intros q N Hq. destruct (Hinv q N Hq) as [Hn Hq']. by apply (inv_hash _ I q).
    + apply (inv_seed _ I).
    + intros q N Hq. destruct (Hinv q N Hq) as [Hn Hq'].
      destruct (inv_lists _ I q N Hq') as [L1 L2 L3]. by split.
    + apply (inv_member _ I).
    + intros u q Hb. destruct (inv_busy _ I u q Hb) as [Hv' (N & Hq & Hl)]. simpl in Hv', Hq.
      assert (q <> p) by congruence. split; [by simpl; rewrite fn_lookup_insert_ne|].
      exists N. by rewrite Hheap.
    + apply (inv_writer _ I).
    + intros q N u Hq Hvq Ho Hc. apply Hinv in Hq as [Hq' Hq]. cbn [snd] in Hvq.
      rewrite Hpriv in Hvq by done. by apply (inv_owned _ I q N).
    + intros q u Hvq. destruct (decide (q = p)) as [->|Hq].
      * simpl in Hvq. by rewrite fn_lookup_insert in Hvq.
      * cbn [snd] in Hvq. rewrite Hpriv in Hvq by done. by apply (inv_builder _ I q).
    + apply (inv_suspend _ I).
  - intros u Hu. split; try done.
    + intros x. unfold depth. by rewrite Hmo.
    + intros x h. unfold hash_of. by rewrite Hmo.
    + intros q N Hq Hv' _. simpl in Hq, Hv'. assert (q <> p) by congruence. exists N.
      split; try done; [by rewrite Hheap|by rewrite Hpriv].
    + intros q Hv'. simpl in Hv'. assert (q <> p) by congruence. by rewrite Hpriv, Hheap.
    + intros q Hq. destruct (decide (q = p)) as [->|].
      * simpl in Hq. by rewrite fn_lookup_insert in Hq.
      * cbn [snd] in Hq. by rewrite Hpriv in Hq.
Qed.

(** The word of [o] comes to refer to a private monitor that says the same of
    the other threads and of the hash. *)
Lemma publish_ok t s g p M o v :
  inv (s, g) -> heap s !! p = Some M -> priv g p = Some t -> obj_ M = o ->
  ~ is_heavy (view_of (marks s o)) -> is_word v -> view_of v = VHeavy (id_ M) ->
  (forall u, u <> t -> light_depth (view_of (marks s o)) u = held_by M u) ->
  (forall h, word_hash (view_of (marks s o)) = Some h -> hashCode_ M = h /\ h <> 0) ->
  (owner_ M <> None -> recursiveCounter_ M <> 0) ->
  let s' := {| s with marks := <[o := v]> (marks s) |} in
  let g' := with_priv p None g in
  inv (s', g') /\ guar rely t (s, g) (s', g') /\ (forall u, depth s' o u = held_by M u) /\
  (forall x u, x <> o -> depth s' x u = depth s x u).
Proof.
  intros I Hp Hv Ho Hn Hw Hview Hd Hh Hnz s' g'.
  assert (Hpriv : forall q, q <> p -> priv g' q = priv g q).
  { intros q Hq. simpl. by rewrite fn_lookup_insert_ne. }
  assert (Hmark : forall x, x <> o -> marks s' x = marks s x).
  { intros x Hx. simpl. by rewrite fn_lookup_insert_ne. }
  assert (Hmark_o : marks s' o = v) by (simpl; by rewrite fn_lookup_insert).
  assert (Hother : forall q N, heap s !! q = Some N -> priv g q = None -> obj_ N <> o).
  { intros q N Hq Hvq E. apply Hn. rewrite <- E. eexists. by apply (inv_published _ I q N). }
  pose proof (inv_pool _ I p M Hp) as Hid. simpl in Hid.
  assert (Hmo : forall x, x <> o -> monitor_of s' x = monitor_of s x).
  { intros x Hx. by apply monitor_of_ext; [apply Hmark|..]. }
  assert (Hmo_o : monitor_of s' o = Some M).
  { unfold monitor_of. rewrite Hmark_o, Hview. simpl. by rewrite Hid. }
  split_and!; [| |intros u; unfold depth; by rewrite Hmo_o, Hmark_o, Hview|
    intros x u Hx; unfold depth; by rewrite Hmo, Hmark].
  - split; cbn [fst snd].
    + intros x. destruct (decide (x = o)) as [->|Hx]; [|rewrite Hmark by done; apply (inv_marks _ I)].
      simpl. rewrite fn_lookup_insert. by split; rewrite ?Hview.
    + intros x id E. destruct (decide (x = o)) as [->|Hx].
      * rewrite Hmark_o, Hview in E. injection E as <-. exists p, M. simpl.
        by rewrite fn_lookup_insert.
      * rewrite Hmark in E by done. destruct (inv_heavy _ I x id E) as (q & N & Hi & Hq & Hvq & Hx').
        exists q, N. split_and!; [done|done| |done]. simpl in Hvq. assert (q <> p) by congruence.
        change (priv g' q = None). by rewrite Hpriv.
    + intros q N Hq Hvq. simpl in Hq. destruct (decide (q = p)) as [->|Hne].
      * assert (N = M) as -> by congruence. rewrite Ho, Hmark_o. done.
      * assert (Hvq' : priv g q = None) by (rewrite <- Hpriv; done).
        rewrite Hmark by eauto. by apply (inv_published _ I q N).
    + apply (inv_pool _ I).
    + apply (inv_ids _ I).
    + apply (inv_fresh _ I).
    + intros q Hq. destruct (inv_dead _ I q Hq) as (D1 & D2 & D3). split_and!; [|done..].
      cbn in Hq. assert (q <> p) by congruence. change (priv g' q = None). by rewrite Hpriv.
    + intros q u Hvq. destruct (decide (q = p)) as [->|Hne]; simpl in Hvq.
      * by rewrite fn_lookup_insert in Hvq.
      * rewrite fn_lookup_insert_ne in Hvq by done. apply (inv_private _ I q u Hvq).
    + apply (inv_lock _ I).
    + apply (inv_cnt _ I).
    + apply (inv_counter _ I).
    + apply (inv_hash _ I).
    + apply (inv_seed _ I).
    + intros q N Hq. destruct (inv_lists _ I q N Hq) as [L1 L2 L3]. by split.
    + apply (inv_member _ I).
    + intros u q Hb. destruct (inv_busy _ I u q Hb) as [Hvq HN]. split; [|done]. cbn in Hvq.
      assert (q <> p) by congruence. by rewrite Hpriv.
    + apply (inv_writer _ I).
    + intros q N u Hq Hvq Hou Hc. destruct (decide (q = p)) as [->|Hq'].
      * simpl in Hq. assert (N = M) as -> by congruence. destruct Hnz; [congruence|done].
      * rewrite Hpriv in Hvq by done. by apply (inv_owned _ I q N).
    + intros q u Hvq. destruct (decide (q = p)) as [->|Hq].
      * simpl in Hvq. by rewrite fn_lookup_insert in Hvq.
      * rewrite Hpriv in Hvq by done. by apply (inv_builder _ I q).
    + apply (inv_suspend _ I).
  - intros u Hu. split; cbn [fst snd]; try done.
    + intros x. destruct (decide (x = o)) as [->|Hx].
      * simpl fst. rewrite (depth_light s o u Hn), Hd by done. unfold depth.
        by rewrite Hmo_o, Hmark_o, Hview.
      * simpl fst. unfold depth. by rewrite Hmo, Hmark.
    + intros x h. destruct (decide (x = o)) as [->|Hx].
      * simpl fst. rewrite (hash_light s o Hn). intros [E E0]%Hh. unfold hash_of.
        rewrite Hmo_o, Hmark_o, Hview. case_decide; congruence.
      * simpl fst. unfold hash_of. by rewrite Hmo, Hmark.
    + intros q N Hq Hvq _. simpl in Hvq. exists N. split; try done.
      assert (q <> p) by congruence. change (priv g' q = None). by rewrite Hpriv.
    + intros q Hvq. simpl in Hvq. assert (q <> p) by congruence. by rewrite Hpriv.
    + intros q Hq. destruct (decide (q = p)) as [->|].
      * simpl in Hq. by rewrite fn_lookup_insert in Hq.
      * by rewrite Hpriv in Hq.
Qed.

(** The collector takes back a monitor nobody uses. *)
Lemma unpublish_ok t s g p M v :
  inv (s, g) -> heap s !! p = Some M -> priv g p = None -> lock_ M = Some t -> owner_ M = None ->
  mutatorWriter s = Some t -> (forall u, cnt g u p = 0) -> (forall u, ~ member g u p) -> busy g t <> Some p ->
  mark_inv v -> ~ is_heavy (view_of v) ->
  (forall u, u <> t -> light_depth (view_of v) u = 0) ->
  (hashCode_ M <> 0 -> word_hash (view_of v) = Some (hashCode_ M)) ->
  let s' := {| s with marks := <[obj_ M := v]> (marks s) |} in
  let g' := with_priv p (Some t) g in
  inv (s', g') /\ guar rely t (s, g) (s', g').
Proof.
  intros I Hp Hv Hl Hown Hwr Hcnt Hmem Hbusy Hm Hn Hd Hh s' g'.
  set (o := obj_ M) in *.
  pose proof (inv_published _ I p M Hp Hv) as Hview. simpl in Hview. fold o in Hview.
  assert (Hpriv : forall q, q <> p -> priv g' q = priv g q).
  { intros q Hq. simpl. by rewrite fn_lookup_insert_ne. }
  assert (Hpriv_p : priv g' p = Some t) by (simpl; by rewrite fn_lookup_insert).
  assert (Hmark : forall x, x <> o -> marks s' x = marks s x).
  { intros x Hx. simpl. by rewrite fn_lookup_insert_ne. }
  assert (Hmark_o : marks s' o = v) by (simpl; by rewrite fn_lookup_insert).
  assert (Hother : forall q N, heap s !! q = Some N -> priv g q = None -> q <> p -> obj_ N <> o).
  { intros q N Hq Hvq Hne E. apply Hne. by eapply (published_same_object (s, g)). }
  assert (Hmo : forall x, x <> o -> monitor_of s' x = monitor_of s x).
  { intros x Hx. by apply monitor_of_ext; [apply Hmark|..]. }
  split.
  - split; cbn [fst snd].
    + intros x. destruct (decide (x = o)) as [->|Hx]; [by simpl; rewrite fn_lookup_insert|].
      rewrite Hmark by done. apply (inv_marks _ I).
    + intros x id E. destruct (decide (x = o)) as [->|Hx].
      * rewrite Hmark_o in E. destruct Hn. by eexists.
      * rewrite Hmark in E by done. destruct (inv_heavy _ I x id E) as (q & N & Hi & Hq & Hvq & Hx').
        simpl in Hq. exists q, N. split_and!; [done|done| |done].
        assert (q <> p). { intros ->. assert (N = M) as -> by congruence. done. }
        change (priv g' q = None). by rewrite Hpriv.
    + intros q N Hq Hvq. destruct (decide (q = p)) as [->|Hne].
      * change (priv g' p = None) in Hvq. congruence.
      * assert (Hvq' : priv g q = None) by (rewrite <- Hpriv; done).
        rewrite Hmark by eauto. by apply (inv_published _ I q N).
    + apply (inv_pool _ I).
    + apply (inv_ids _ I).
    + apply (inv_fresh _ I).
    + intros q Hq. destruct (inv_dead _ I q Hq) as (D1 & D2 & D3). split_and!; [|done..].
      simpl in Hq. assert (q <> p) by congruence. change (priv g' q = None). by rewrite Hpriv.
    + intros q u Hvq. destruct (decide (q = p)) as [->|Hne]; [done|]. simpl in Hvq.
      rewrite fn_lookup_insert_ne in Hvq by done. apply (inv_private _ I q u Hvq).
    + apply (inv_lock _ I).
    + apply (inv_cnt _ I).
    + apply (inv_counter _ I).
    + apply (inv_hash _ I).
    + apply (inv_seed _ I).
    + intros q N Hq. destruct (inv_lists _ I q N Hq) as [L1 L2 L3]. by split.
    + apply (inv_member _ I).
    + intros u q Hb. destruct (inv_busy _ I u q Hb) as [Hvq (N & Hq & HN)]. split; [|by exists N].
      cbn in Hvq, Hb, Hq. assert (q <> p); [|by rewrite Hpriv]. intros ->. congruence.
    + apply (inv_writer _ I).
    + intros q N u Hq Hvq Hou Hc. assert (Hq' : q <> p) by congruence.
      rewrite Hpriv in Hvq by done. by apply (inv_owned _ I q N).
    + intros q u Hvq. destruct (decide (q = p)) as [->|Hq].
      * rewrite Hpriv_p in Hvq. injection Hvq as <-. by right.
      * rewrite Hpriv in Hvq by done. by apply (inv_builder _ I q).
    + apply (inv_suspend _ I).
  - intros u Hu. split; cbn [fst snd]; try done.
    + intros x. destruct (decide (x = o)) as [->|Hx].
      * pose proof (depth_published (s, g) p M u I Hp Hv) as Ed. cbn [fst] in Ed. fold o in Ed.
        rewrite Ed. unfold held_by. rewrite Hown. rewrite depth_light by (by rewrite Hmark_o). rewrite Hmark_o, Hd by done.
        by case_decide.
      * simpl fst. unfold depth. by rewrite Hmo, Hmark.
    + intros x h. destruct (decide (x = o)) as [->|Hx].
      * pose proof (hash_published (s, g) p M I Hp Hv) as Eh. cbn [fst] in Eh. fold o in Eh.
        rewrite Eh. case_decide; [done|].
        intros [= <-]. rewrite hash_light by (by rewrite Hmark_o). rewrite Hmark_o. auto.
      * simpl fst. unfold hash_of. by rewrite Hmo, Hmark.
    + intros q N Hq Hvq Hpin. exists N. destruct (decide (q = p)) as [->|Hne].
      * exfalso. simpl in Hq. assert (N = M) as -> by congruence.
        destruct Hpin as [[E1 E2]|[E|[E|E]]]; simpl in *.
        -- by destruct (inv_writer _ I t u Hwr E1).
        -- rewrite Hcnt in E. lia.
        -- congruence.
        -- congruence.
      * split; try done. change (priv g' q = None). by rewrite Hpriv.
    + intros q Hvq. simpl in Hvq. assert (q <> p) by congruence. by rewrite Hpriv.
    + intros q Hq. destruct (decide (q = p)) as [->|].
      * rewrite Hpriv_p in Hq. congruence.
      * by rewrite Hpriv in Hq.
Qed.

(** ** Changes of one monitor that leave the lists alone *)
Definition upd (s : Store) (p : Z) (M : Monitor) : Store := {| s with heap := <[p := M]> (heap s) |}.

Record field_step (t : Z) (s : Store) (g : Ghost) (p : Z) (M M' : Monitor) : Prop := {
  f_id : id_ M' = id_ M;
  f_obj : obj_ M' = obj_ M;
  f_head : forall l, head_of l M' = head_of l M;
  f_counter : waitersCounter_ M' = waitersCounter_ M;
  f_lock : lock_inv M';
  f_hash : 0 <= hashCode_ M' <= MarkWord.HASH_MASK /\ in_u 32 (hashCode_ M');
  f_hash_same : hashCode_ M <> 0 -> hashCode_ M' = hashCode_ M;
  f_stopped : forall u, u <> t -> mutatorWriter s = Some u -> hashCode_ M' = hashCode_ M;
  f_perm : priv g p = Some t \/
    priv g p = None /\
    (lock_ M = Some t \/ lock_ M = None \/
     (owner_ M' = owner_ M /\ lock_ M' = lock_ M /\ recursiveCounter_ M' = recursiveCounter_ M));
  f_depth : priv g p = None -> forall u, u <> t -> held_by M' u = held_by M u;
  f_member : forall u, member g u p -> 0 < cnt g u p \/ lock_ M' = Some u;
  f_busy : forall u, busy g u = Some p -> lock_ M' = Some u;
  f_owned : priv g p = None -> forall u, owner_ M' = Some u -> recursiveCounter_ M' = 0 ->
    busy g u = Some p;
}.

Lemma field_local t s g p M M' :
  inv (s, g) -> heap s !! p = Some M -> field_step t s g p M M' ->
  local_step t s g p M (upd s p M') g M'.
Proof.
  intros I Hp [F1 F2 F3 F4 F5 F6 F7 F8 F9 F10 F11 F12 F13].
  assert (Hperm : forall u, priv g p = Some u -> u = t).
  { intros u E. destruct F9 as [?|[? _]]; congruence. }
  split; try done; simpl.
  - intros u. by left.
  - rewrite F4. by apply (inv_counter _ I p M).
  - split; [apply (inv_cnt _ I)|]. apply (inv_cnt _ I).
  - intros u Hb. split; [by apply (inv_busy _ I u p)|auto].
  - intros u Hu. by left.
  - destruct (inv_lists _ I p M Hp) as [L1 L2 L3]. split; simpl; [|done|].
    + intros l. rewrite F3. apply L1.
    + intros Hc. apply L3. intros u Hl Hb. by apply (Hc u); [apply F12|].
  - intros Hv. destruct (priv g p) as [u|] eqn:E; [|done].
    destruct (inv_private _ I p u E) as [D1 D2]. split; [apply D1|apply D2].
  - intros Hv u Hu Hl. destruct F9 as [?|[_ [E|[E|(E1 & E2 & E3)]]]]; [congruence..|].
    by split.
  - intros u Hu E. split; [done|]. by apply (F8 u).
Qed.

Lemma field_ok t s g p M M' :
  inv (s, g) -> heap s !! p = Some M -> field_step t s g p M M' ->
  inv (upd s p M', g) /\ guar rely t (s, g) (upd s p M', g).
Proof. intros. eapply local_ok; eauto using field_local. Qed.

(** Steps of [t] that nobody can see, not even [t]. *)
Record inert (s s' : Store) : Prop := {
  i_marks : marks s' = marks s;
  i_heap : heap s' = heap s;
  i_pool : monitors_ s' = monitors_ s;
  i_next : nextAddress s' = nextAddress s;
  i_seed : in_u 32 (g_hashSeed s) -> in_u 32 (g_hashSeed s');
  i_link : forall u, next_ (threads s' u) = next_ (threads s u);
  i_status : forall u, status_ (threads s' u) = status_ (threads s u);
  i_writer : mutatorWriter s' = mutatorWriter s;
  i_cond : forall u, condLock_ (threads s' u) = condLock_ (threads s u);
  i_suspend : forall u, suspendCount_ (threads s' u) = suspendCount_ (threads s u);
  i_own : forall u, own_fields (threads s' u) = own_fields (threads s u);
}.

Lemma inert_quiet (t : Z) s s' g : inv (s, g) -> inert s s' -> quiet_step t s s' g.
Proof.
  intros I [E1 E2 E3 E4 E5 E6 E7 E8 E9 E10 E11]. split; try done.
  - apply E5, (inv_seed _ I).
  - intros u _ E. by rewrite E8.
  - intros u v. rewrite E8, E7. apply (inv_writer _ I).
  - intros u v _. by rewrite E9.
  - intros p u Hv. pose proof (inv_builder _ I p u Hv) as Hw. unfold may_build in *. simpl in *.
    by rewrite E7, E8.
  - by rewrite E7.
Qed.

Lemma inert_ok s s' g :
  inv (s, g) -> inert s s' -> inv (s', g) /\ forall u, rely u (s, g) (s', g).
Proof.
  intros I Hi. split; [by apply (quiet_ok 0 s s' g I), (inert_quiet 0 s s' g)|].
  intros u. apply (quiet_ok (u + 1) s s' g I); [by apply (inert_quiet _ _ _ g)|]. lia.
Qed.

(** ** Suspension *)

(** [t] begins or ends to suspend [u]: nothing but the count of [u] changes. *)
Definition with_suspenders (u : Z) (l : list Z) (g : Ghost) : Ghost :=
  {| g with suspenders := <[u := l]> (suspenders g) |}.

Lemma suspend_ok t u s g l (T : MTManagedThread) :
  inv (s, g) -> next_ T = next_ (threads s u) -> status_ T = status_ (threads s u) ->
  condLock_ T = condLock_ (threads s u) -> suspend_inv l (suspendCount_ T) ->
  own_fields T = own_fields (threads s u) ->
  (forall v, v <> t -> v ∈ l <-> v ∈ suspenders g u) ->
  let s' := {| s with threads := <[u := T]> (threads s) |} in
  let g' := with_suspenders u l g in
  inv (s', g') /\ guar rely t (s, g) (s', g').
Proof.
  intros I E1 E2 E3 Hl E4 Hv s' g'.
  assert (Hnext : forall v, next_ (threads s' v) = next_ (threads s v)).
  { intros v. simpl. destruct (decide (v = u)) as [->|]; [by rewrite fn_lookup_insert|].
    by rewrite fn_lookup_insert_ne. }
  assert (Hst : forall v, status_ (threads s' v) = status_ (threads s v)).
  { intros v. simpl. destruct (decide (v = u)) as [->|]; [by rewrite fn_lookup_insert|].
    by rewrite fn_lookup_insert_ne. }
  assert (Hcd : forall v, condLock_ (threads s' v) = condLock_ (threads s v)).
  { intros v. simpl. destruct (decide (v = u)) as [->|]; [by rewrite fn_lookup_insert|].
    by rewrite fn_lookup_insert_ne. }
  split.
  - destruct I as [I1 I2 I3 I4 I5 I6 I7 I8 I9 I10 I11 I12 I13 I14 I15 I16 I17 I18 I19 I20].
    split; cbn [fst snd] in *; try done.
    + intros p M Hp. destruct (I14 p M Hp) as [L1 L2 L3]. split; [|done..].
      intros k. eapply links_ext; [|apply L1]. intros v _. unfold next_in. by rewrite Hnext.
    + intros v w Ew Hw. rewrite Hst. by apply (I17 v).
    + intros p v Hp. pose proof (I19 p v Hp) as Hb. unfold may_build in *. by rewrite Hst.
    + intros v. simpl. destruct (decide (v = u)) as [->|].
      * by rewrite !fn_lookup_insert.
      * by rewrite !fn_lookup_insert_ne.
  - intros v Hne. split; cbn [fst snd]; try done.
    + intros p M Hp Hp' _. exists M. by split.
    + intros x. by rewrite Hcd.
    + intros x. simpl. destruct (decide (x = u)) as [->|].
      * rewrite fn_lookup_insert. auto.
      * by rewrite fn_lookup_insert_ne.
    + intros x _. by rewrite Hst.
    + simpl. destruct (decide (v = u)) as [->|]; [by rewrite fn_lookup_insert|].
      by rewrite fn_lookup_insert_ne.
Qed.

End Protocol.
