(* ===== verification/MonitorRules.v ===== *)
(** Rules of the program logic for the elementary steps of the monitors.

    A proof about an operation of thread [t] carries assertions that other threads
    cannot falsify: [me] (the thread's status, its part of the counters, how often
    it holds each object), [pub] (a published monitor the thread keeps alive),
    [locked] (a monitor whose mutex it holds, with its fields and lists) and
    [mine] (a monitor it has not published).  [me] also says which thread it has
    suspended and whether that one has stopped.  Each rule says what a step needs
    of them and what it leaves. *)
From stdpp Require Import base list gmap functions sets.
From S2P Require Import Prelude MarkWord Threads Monitor MonitorInv.
Local Open Scope Z_scope.
Local Open Scope ark_scope.
Local Open Scope prog_scope.

(** The managed threads: distinct, with ids a light lock can hold, and few
    enough for a 32-bit counter that each enters at most twice. *)
Class BuildOk `{MemoryModelConfig} `{Build} : Prop := {
  registered_nodup : NoDup registered;
  registered_ids : forall t, t ∈ registered -> 0 < t <= MarkWord.LIGHT_LOCK_THREADID_MAX_COUNT;
  registered_few : 2 * Z.of_nat (length registered) < 2 ^ 32;
}.

(** What a thread knows of itself. *)
Record Me := mkMe {
  m_status : ThreadStatus;
  m_cnt : Z -> Z;
  m_busy : option Z;
  m_at : option Z;          (** the only monitor whose lists it may be in *)
  m_depth : Z -> Z;
  m_cond : list Z;          (** the threads whose [condLock_] it holds *)
  m_priv : option Z;        (** the only monitor it may not have published *)
  m_susp : option (Z * bool);  (** the thread it has suspended; whether that has stopped *)
  m_own : option Z * option Z;  (** its [waitingMonitor_] and [enteringMonitor_] *)
}.

Section Rules.
Context `{MemoryModelConfig} `{!ConfigLayout} `{Build} `{!BuildOk}.
Context (strict : bool).
Abbreviation world := (Store * Ghost)%type.

(** The process may run out of memory or of ids for monitors, and a thread may find
    its own id in a word that is no light lock any more; when clients are not
    [strict], the process may stop on their misuse. *)
Definition tolerated (f : Stop) : Prop :=
  f = OUT_OF_MEMORY \/ f = OUT_OF_INDEXES \/ f = SELF_SUSPENSION \/ (f = FATAL /\ strict = false).

Abbreviation Safe := (Safe inv rely tolerated).

(** ** Assertions *)
Record me (t : Z) (w : world) (x : Me) : Prop := {
  me_reg : t ∈ registered;
  me_status : status_ (threads w.1 t) = m_status x;
  me_cnt : forall p, cnt w.2 t p = m_cnt x p;
  me_busy : busy w.2 t = m_busy x;
  me_at : forall p, member w.2 t p -> m_at x = Some p;
  me_depth : forall o, depth w.1 o t = m_depth x o;
  me_cond : forall u, u ∈ m_cond x -> condLock_ (threads w.1 u) = Some t;
  me_priv : forall p, priv w.2 p = Some t -> m_priv x = Some p;
  me_susp : forall u, t ∈ suspenders w.2 u <-> fst <$> m_susp x = Some u;
  me_halted : forall u, m_susp x = Some (u, true) -> status_ (threads w.1 u) <> RUNNING;
  me_own : own_fields (threads w.1 t) = m_own x;
}.

Definition pub (t : Z) (w : world) (p o : Z) : Prop :=
  exists M, heap w.1 !! p = Some M /\ priv w.2 p = None /\ obj_ M = o /\ pinned w t p M.

Record locked (t : Z) (w : world) (p o : Z) (ow : option Z) (c : Z) (W T B : list Z)
    (M : Monitor) : Prop := {
  lk_heap : heap w.1 !! p = Some M;
  lk_priv : priv w.2 p = None;
  lk_obj : obj_ M = o;
  lk_lock : lock_ M = Some t;
  lk_owner : owner_ M = ow;
  lk_count : recursiveCounter_ M = c;
  lk_waiters : chain w.2 WAITERS p = W;
  lk_toWakeup : chain w.2 TO_WAKEUP p = T;
  lk_limbo : limbo w.2 p = B;
}.

Definition mine (t : Z) (w : world) (p : Z) (M : Monitor) : Prop :=
  heap w.1 !! p = Some M /\ priv w.2 p = Some t.

Lemma me_rely t w w' x : me t w x -> rely t w w' -> me t w' x.
Proof.
  intros [E1 E2 E3 E4 E5 E6 E7 E8 E9 E10 E11] R. split; [done|..].
  - by rewrite (r_status _ _ _ R).
  - intros p. by rewrite (r_cnt _ _ _ R).
  - by rewrite (r_busy _ _ _ R).
  - intros p Hm. by apply E5, (r_member _ _ _ R).
  - intros o. by rewrite (r_depth _ _ _ R).
  - intros u Hu. by apply (r_cond _ _ _ R), E7.
  - intros p Hp. by apply E8, (r_priv _ _ _ R).
  - intros u. by rewrite (r_suspend _ _ _ R), E9.
  - intros u Hu. apply (r_stays _ _ _ R); [|by apply E10]. apply E9. by rewrite Hu.
  - by rewrite (r_own _ _ _ R).
Qed.

Lemma pinned_rely t w w' p M M' :
  rely t w w' -> kept_monitor w w' t p M M' -> pinned w t p M -> pinned w' t p M'.
Proof.
  intros R K [[E E']|[E|[E|E]]].
  - left. split; [done|]. by rewrite (r_status _ _ _ R).
  - right; left. by rewrite (r_cnt _ _ _ R).
  - right; right; left. by rewrite (hs_lock _ _ _ _ _ (km_held _ _ _ _ _ _ K E)).
  - right; right; right. by apply (r_writer _ _ _ R).
Qed.

Lemma pub_rely t w w' p o : pub t w p o -> rely t w w' -> pub t w' p o.
Proof.
  intros (M & Hp & Hv & Ho & Hpin) R. destruct (r_monitor _ _ _ R p M Hp Hv Hpin) as [M' K].
  exists M'. split_and!; [apply K|apply K| |by eapply pinned_rely].
  by rewrite (km_obj _ _ _ _ _ _ K).
Qed.

Lemma locked_rely t w w' p o ow c W T B M :
  locked t w p o ow c W T B M -> rely t w w' -> exists M', locked t w' p o ow c W T B M'.
Proof.
  intros [E1 E2 E3 E4 E5 E6 E7 E8 E9] R.
  destruct (r_monitor _ _ _ R p M E1 E2) as [M' K]; [by right; right; left|].
  destruct (km_held _ _ _ _ _ _ K E4) as [K1 K2 K3 K4 K5 K6 K7].
  exists M'. split; rewrite ?K5, ?K6; try congruence; try apply K.
  by rewrite (km_obj _ _ _ _ _ _ K).
Qed.

Lemma mine_rely t w w' p M : mine t w p M -> rely t w w' -> mine t w' p M.
Proof. intros [E1 E2] R. destruct (r_private _ _ _ R p E2) as [E3 E4]. split; congruence. Qed.

Lemma locked_pub t w p o ow c W T B M : locked t w p o ow c W T B M -> pub t w p o.
Proof. intros [E1 E2 E3 E4 _ _ _ _ _]. exists M. split_and!; [done..|]. by right; right; left. Qed.

(** Changes of what a thread knows of itself. *)
Definition with_depth (x : Me) (o d : Z) : Me := {| x with m_depth := <[o := d]> (m_depth x) |}.
Definition with_count (x : Me) (p d : Z) : Me := {| x with m_cnt := <[p := m_cnt x p + d]> (m_cnt x) |}.

Lemma me_same_depth t w x o d : me t w (with_depth x o d) -> m_depth x o = d -> me t w x.
Proof.
  intros [E1 E2 E3 E4 E5 E6 E7 E8 E9 E10 E11] <-. split; try done. intros o'. rewrite E6. simpl.
  destruct (decide (o' = o)) as [->|]; [by rewrite fn_lookup_insert|by rewrite fn_lookup_insert_ne].
Qed.

(** A thread that is running keeps the collector away. *)
Lemma running_no_writer t w x :
  inv w -> me t w x -> m_status x = RUNNING -> mutatorWriter w.1 = None.
Proof.
  intros I Hme E. destruct (mutatorWriter w.1) as [u|] eqn:Ew; [|done].
  destruct (inv_writer _ I u t Ew (me_reg _ _ _ Hme)). by rewrite (me_status _ _ _ Hme).
Qed.

Lemma running_pub t w x p M :
  me t w x -> m_status x = RUNNING -> heap w.1 !! p = Some M -> priv w.2 p = None ->
  pub t w p (obj_ M).
Proof.
  intros Hme E Hp Hv. exists M. split_and!; [done..|]. left. split; [apply Hme|].
  by rewrite (me_status _ _ _ Hme).
Qed.

(** ** Steps nobody sees *)
Lemma Safe_inert {A B} t (e : action B) (k : B -> prog A) (P : B -> Store -> Prop) Q w :
  (forall s c, in_u 32 (g_hashSeed s) ->
     match e t c s with
     | Next v s' => inert s s' /\ P v s'
     | Blocked => True
     | Fault f => tolerated f
     end) ->
  (forall v w', rely t w w' -> inv w' -> P v w'.1 -> Safe t (k v) Q w') ->
  Safe t (Bind (Act e) k) Q w.
Proof.
  intros He Hk. apply Safe_bind_act; [apply rely_refl|apply rely_trans|].
  intros [s g] R I c. simpl. specialize (He s c (inv_seed _ I)).
  destruct (e t c s) as [v s'| |]; [|done..]. destruct He as [Hi HP].
  destruct (inert_ok s s' g I Hi) as [I' R']. exists g. split_and!; [done| |].
  - intros u _. apply R'.
  - apply Hk; [|done..]. eapply rely_trans; [done|apply R'].
Qed.

Lemma inert_refl s : inert s s.
Proof. by split. Qed.

Lemma inert_thread s u (T : MTManagedThread) :
  next_ T = next_ (threads s u) -> status_ T = status_ (threads s u) ->
  condLock_ T = condLock_ (threads s u) -> suspendCount_ T = suspendCount_ (threads s u) ->
  own_fields T = own_fields (threads s u) ->
  inert s {| s with threads := <[u := T]> (threads s) |}.
Proof.
  intros E1 E2 E3 E4 E5. split; simpl; try done; intros v;
    (destruct (decide (v = u)) as [->|]; [by rewrite fn_lookup_insert|by rewrite fn_lookup_insert_ne]).
Qed.

(** A step on a thread record that touches neither its link nor its status, its mutex or its count. *)
Lemma Safe_thread_act {A B} t u f (k : B -> prog A) Q w :
  (forall c T, match f t c T with
               | Next v T' => next_ T' = next_ T /\ status_ T' = status_ T /\ condLock_ T' = condLock_ T /\
                              suspendCount_ T' = suspendCount_ T /\ own_fields T' = own_fields T
               | Blocked => True
               | Fault x => tolerated x
               end) ->
  (forall v w', rely t w w' -> inv w' -> Safe t (k v) Q w') ->
  Safe t (Bind (thread_act u f) k) Q w.
Proof.
  intros Hf Hk. apply (Safe_inert t _ k (fun _ _ => True)); [|eauto].
  intros s c _. specialize (Hf c (threads s u)). destruct (f t c (threads s u)); [|done..].
  destruct Hf as (? & ? & ? & ? & ?). split; [|done]. by apply inert_thread.
Qed.

Lemma Safe_thread_set {A} t u f (k : () -> prog A) Q w :
  (forall T, next_ (f T) = next_ T /\ status_ (f T) = status_ T /\ condLock_ (f T) = condLock_ T /\
     suspendCount_ (f T) = suspendCount_ T /\ own_fields (f T) = own_fields T) ->
  (forall w', rely t w w' -> inv w' -> Safe t (k ()) Q w') ->
  Safe t (Bind (thread_set u f) k) Q w.
Proof. intros Hf Hk. apply Safe_thread_act; [intros c T; apply Hf|]. intros []. eauto. Qed.

Lemma Safe_thread_get {A B} t u (f : MTManagedThread -> B) (k : B -> prog A) Q w :
  (forall w', rely t w w' -> inv w' -> Safe t (k (f (threads w'.1 u))) Q w') ->
  Safe t (Bind (thread_get u f) k) Q w.
Proof.
  intros Hk. apply (Safe_inert t _ k (fun v s => v = f (threads s u))).
  - intros s c _. split; [by apply inert_thread|]. simpl. by rewrite fn_lookup_insert.
  - intros v w' R I ->. auto.
Qed.

(** Reads. *)
Lemma Safe_read {A B} t (f : Store -> B) (k : B -> prog A) Q w :
  (forall w', rely t w w' -> inv w' -> Safe t (k (f w'.1)) Q w') ->
  Safe t (Bind (Act (fun _ _ s => Next (f s) s)) k) Q w.
Proof.
  intros Hk. apply (Safe_inert t _ k (fun v s => v = f s)).
  - intros s c _. split; [apply inert_refl|done].
  - intros v w' R I ->. auto.
Qed.

Lemma Safe_GetMark {A} t o (k : Z -> prog A) Q w :
  (forall w', rely t w w' -> inv w' -> Safe t (k (marks w'.1 o)) Q w') ->
  Safe t (Bind (AtomicGetMark o) k) Q w.
Proof. apply (Safe_read t (fun s => marks s o)). Qed.

Lemma Safe_choose {A} t (k : bool -> prog A) Q w :
  (forall b w', rely t w w' -> inv w' -> Safe t (k b) Q w') -> Safe t (Bind choose k) Q w.
Proof.
  intros Hk. apply (Safe_inert t _ k (fun _ _ => True)); [|eauto].
  intros s c _. split; [apply inert_refl|done].
Qed.

Lemma Safe_stop {A B} t f (k : B -> prog A) Q w : tolerated f -> Safe t (Bind (stop f) k) Q w.
Proof. intros Hf. by apply (Safe_inert t _ k (fun _ _ => False)). Qed.

Lemma Safe_stop_end {A} t f (Q : A -> world -> Prop) w : tolerated f -> Safe t (stop f) Q w.
Proof. intros Hf. apply Safe_act. by intros w1 _ _ c. Qed.

Lemma Safe_bind_ret {A B} t (b : B) (k : B -> prog A) Q w :
  Safe t (k b) Q w -> Safe t (Bind (Ret b) k) Q w.
Proof.
  intros Hk. apply Safe_bind; [apply rely_refl|]. apply Safe_ret. intros w1 R _.
  eapply Safe_rely; [apply rely_trans|done..].
Qed.

Lemma Safe_assert {A} t b (k : () -> prog A) Q w :
  b = true -> Safe t (k ()) Q w -> Safe t (Bind (ASSERT b) k) Q w.
Proof. intros -> Hk. by apply Safe_bind_ret. Qed.

(** ** Steps on a monitor *)
Lemma upd_id s p M : heap s !! p = Some M -> upd s p M = s.
Proof. intros E. unfold upd. rewrite insert_id by done. by destruct s. Qed.

Lemma Safe_monitor_get {A B} t p (f : Monitor -> B) (k : B -> prog A) Q w :
  (forall w', rely t w w' -> inv w' ->
     exists M, heap w'.1 !! p = Some M /\ Safe t (k (f M)) Q w') ->
  Safe t (Bind (monitor_get p f) k) Q w.
Proof.
  intros Hk. apply Safe_bind_act; [apply rely_refl|apply rely_trans|].
  intros [s g] R I c. destruct (Hk _ R I) as (M & Hp & HM). simpl in *. rewrite Hp.
  fold (upd s p M). rewrite upd_id by done. exists g. split_and!; [done|apply guar_refl, rely_refl|done].
Qed.

Lemma Safe_monitor_act {A B} t p f (k : B -> prog A) Q w :
  (forall s g, rely t w (s, g) -> inv (s, g) ->
     exists M, heap s !! p = Some M /\
       forall c, match f t c M with
                 | Next v M' => exists g', inv (upd s p M', g') /\
                     guar rely t (s, g) (upd s p M', g') /\ Safe t (k v) Q (upd s p M', g')
                 | Blocked => True
                 | Fault x => tolerated x
                 end) ->
  Safe t (Bind (monitor_act p f) k) Q w.
Proof.
  intros Hk. apply Safe_bind_act; [apply rely_refl|apply rely_trans|].
  intros [s g] R I c. destruct (Hk s g R I) as (M & Hp & HM). simpl. rewrite Hp.
  specialize (HM c). by destruct (f t c M).
Qed.

Lemma me_local t s g p M s' g' M' x x' :
  inv (s, g) -> heap s !! p = Some M -> local_step t s g p M s' g' M' -> me t (s, g) x ->
  m_status x' = m_status x -> m_cond x' = m_cond x -> m_priv x' = m_priv x ->
  m_susp x' = m_susp x -> m_own x' = m_own x ->
  (forall q, cnt g' t q = m_cnt x' q) -> busy g' t = m_busy x' ->
  (forall q, member g' t q -> m_at x' = Some q) ->
  (forall o, m_depth x' o =
     if decide (priv g p = None /\ o = obj_ M) then held_by M' t else m_depth x o) ->
  me t (s', g') x'.
Proof.
  intros I Hp L [E1 E2 E3 E4 E5 E6 E7 E8 E9 E10 E11] Hs Hcd Hpr Hsu Hon Hc Hb Hm Hd. split; simpl in *; try done.
  - by rewrite (lo_status _ _ _ _ _ _ _ _ L), Hs.
  - intros o. rewrite (local_own_depth t s g p M s' g' M' I Hp L o t), Hd.
    by case_decide.
  - intros u. rewrite Hcd, (lo_cond _ _ _ _ _ _ _ _ L). apply E7.
  - intros q. rewrite Hpr, (lo_priv _ _ _ _ _ _ _ _ L). apply E8.
  - intros u. by rewrite Hsu, (lo_suspenders _ _ _ _ _ _ _ _ L), E9.
  - intros u. rewrite Hsu, (lo_status _ _ _ _ _ _ _ _ L). apply E10.
  - by rewrite Hon, (lo_own _ _ _ _ _ _ _ _ L).
Qed.

(** A field of a monitor whose mutex the thread holds. *)
Lemma me_field t s g p M M' x :
  inv (s, g) -> heap s !! p = Some M -> priv g p = None -> field_step t s g p M M' -> me t (s, g) x ->
  me t (upd s p M', g) (with_depth x (obj_ M) (held_by M' t)).
Proof.
  intros I Hp Hv F Hme. eapply me_local; eauto using field_local; try apply Hme.
  intros o. simpl. case_decide as E.
  - destruct E as [_ ->]. by rewrite fn_lookup_insert.
  - rewrite fn_lookup_insert_ne; [done|]. intros Eo. by apply E.
Qed.

Lemma me_private t s g p M M' x :
  inv (s, g) -> heap s !! p = Some M -> priv g p = Some t -> field_step t s g p M M' ->
  me t (s, g) x -> me t (upd s p M', g) x.
Proof.
  intros I Hp Hv F Hme. eapply me_local; eauto using field_local; try apply Hme.
  intros o. rewrite decide_False; [done|]. rewrite Hv. by intros [? _].
Qed.

Lemma held_by_not_owner M t : owner_ M <> Some t -> held_by M t = 0.
Proof. intros. unfold held_by. by rewrite decide_False. Qed.

(** The holder of the mutex changes owner or counter; [busy] tells the moments
    when it is the owner and holds the monitor zero times. *)
Definition disjoint_lists (W T : list Z) : Prop := forall u, u ∈ W -> u ∉ T.

Definition with_busy (t : Z) (b : option Z) (g : Ghost) : Ghost :=
  {| g with busy := <[t := b]> (busy g) |}.

Lemma locked_local t s g p o ow c W T B M M' x b :
  inv (s, g) -> locked t (s, g) p o ow c W T B M -> me t (s, g) x ->
  m_busy x = None \/ m_busy x = Some p -> b = None \/ b = Some p ->
  (b = None -> B = [] /\ disjoint_lists W T) ->
  id_ M' = id_ M -> obj_ M' = obj_ M -> (forall l, head_of l M' = head_of l M) ->
  waitersCounter_ M' = waitersCounter_ M -> hashCode_ M' = hashCode_ M -> lock_ M' = lock_ M ->
  lock_inv M' -> (owner_ M' = Some t -> recursiveCounter_ M' = 0 -> b = Some p) ->
  local_step t s g p M (upd s p M') (with_busy t b g) M'.
Proof.
  intros I [E1 E2 E3 E4 E5 E6 E7 E8 E9] Hme Hb Hb' Hcl F1 F2 F3 F4 F5 F6 F7 F8. simpl in *.
  pose proof (me_busy _ _ _ Hme) as Hmb. simpl in Hmb.
  assert (Hbusy : forall u, <[t := b]> (busy g) u = Some p -> u = t).
  { intros u Hu. destruct (decide (u = t)) as [->|]; [done|]. rewrite fn_lookup_insert_ne in Hu by done.
    destruct (inv_busy _ I u p Hu) as [_ (N & Hp & Hl)]. simpl in *. congruence. }
  split; try done; simpl; rewrite ?F5.
  - intros u. by left.
  - apply (inv_hash _ I p M E1).
  - rewrite F4. by apply (inv_counter _ I p M).
  - apply (inv_cnt _ I).
  - intros u Hu. by rewrite fn_lookup_insert_ne.
  - intros q Hq. rewrite fn_lookup_insert, Hmb.
    destruct Hb as [Eb|Eb], Hb' as [Eb'|Eb']; rewrite Eb, Eb'; split; congruence.
  - intros u Hu. rewrite (Hbusy u Hu), F6. done.
  - intros u Hu. by left.
  - destruct (inv_lists _ I p M E1) as [L1 L2 L3]. split; simpl.
    + intros l. rewrite F3. apply L1.
    + rewrite F6. apply L2.
    + intros Hc. rewrite E7, E8, E9. apply Hcl. destruct Hb' as [Eb|Eb]; [done|].
      destruct (Hc t); [congruence|]. by rewrite fn_lookup_insert.
  - intros u Hu. congruence.
  - intros _ u Hu Hl. congruence.
  - intros _ u Hu. rewrite !held_by_not_owner; [done|..].
    + intros Ho. apply (li_owner _ (inv_lock _ I p M E1)) in Ho. congruence.
    + intros Ho. apply (li_owner _ F7) in Ho. congruence.
  - intros _ u Ho Hz. assert (u = t) as ->.
    { apply (li_owner _ F7) in Ho. congruence. }
    rewrite fn_lookup_insert. auto.
Qed.

(** An owner outside those moments holds the monitor. *)
Lemma locked_owned t w p o c W T B M x :
  inv w -> locked t w p o (Some t) c W T B M -> me t w x -> m_busy x <> Some p -> 0 < c.
Proof.
  intros I [E1 E2 E3 E4 E5 E6 E7 E8 E9] Hme Hb.
  destruct (inv_lock _ I p M E1) as [_ _ [Hc _]]. destruct (decide (c = 0)) as [Ez|]; [|lia].
  destruct Hb. rewrite <- (me_busy _ _ _ Hme). apply (inv_owned _ I p M); congruence.
Qed.

Lemma locked_owner t w p o ow c W T B M :
  inv w -> locked t w p o ow c W T B M -> ow = None \/ ow = Some t.
Proof.
  intros I [E1 E2 E3 E4 E5 _ _ _ _]. destruct ow as [u|]; [|by left]. right.
  apply (li_owner _ (inv_lock _ I p M E1)) in E5. congruence.
Qed.

Lemma Safe_locked_act {A R} t p f b (k : R -> prog A) Q w o ow c W T B M0 x :
  locked t w p o ow c W T B M0 -> me t w x ->
  m_busy x = None \/ m_busy x = Some p -> b = None \/ b = Some p ->
  (b = None -> B = [] /\ disjoint_lists W T) ->
  (forall M ch, obj_ M = o -> lock_ M = Some t -> owner_ M = ow -> recursiveCounter_ M = c ->
     lock_inv M ->
     match f t ch M with
     | Next a M' =>
         (id_ M' = id_ M /\ obj_ M' = obj_ M /\ (forall l, head_of l M' = head_of l M) /\
          waitersCounter_ M' = waitersCounter_ M /\ hashCode_ M' = hashCode_ M /\
          lock_ M' = lock_ M /\ lock_inv M' /\
          (owner_ M' = Some t -> recursiveCounter_ M' = 0 -> b = Some p)) /\
         forall w' N, inv w' -> me t w' {| (with_depth x o (held_by M' t)) with m_busy := b |} ->
           locked t w' p o (owner_ M') (recursiveCounter_ M') W T B N -> Safe t (k a) Q w'
     | Blocked => True
     | Fault e => tolerated e
     end) ->
  Safe t (Bind (monitor_act p f) k) Q w.
Proof.
  intros Hl Hme Hb Hb' Hcl Hf. apply Safe_monitor_act. intros s g R' I.
  destruct (locked_rely _ _ _ _ _ _ _ _ _ _ _ Hl R') as [M Hl'].
  pose proof (me_rely _ _ _ _ Hme R') as Hme'.
  exists M. split; [apply Hl'|]. intros ch.
  specialize (Hf M ch (lk_obj _ _ _ _ _ _ _ _ _ _ Hl') (lk_lock _ _ _ _ _ _ _ _ _ _ Hl')
    (lk_owner _ _ _ _ _ _ _ _ _ _ Hl') (lk_count _ _ _ _ _ _ _ _ _ _ Hl')
    (inv_lock _ I p M (lk_heap _ _ _ _ _ _ _ _ _ _ Hl'))).
  destruct (f t ch M) as [a M'| |]; [|done..].
  destruct Hf as [(F1 & F2 & F3 & F4 & F5 & F6 & F7 & F8) Hk]. exists (with_busy t b g).
  pose proof (locked_local _ _ _ _ _ _ _ _ _ _ _ _ _ b I Hl' Hme' Hb Hb' Hcl F1 F2 F3 F4 F5 F6 F7 F8)
    as L.
  destruct Hl' as [E1 E2 E3 E4 E5 E6 E7 E8 E9]. simpl in *.
  destruct (local_ok _ _ _ _ _ _ _ _ I E1 L) as [I' G]. split_and!; [done..|].
  apply (Hk _ M'); [done| |].
  - eapply (me_local t s g p M); [exact I|exact E1|exact L|exact Hme'|done|done|done|done|done|..]; simpl.
    + apply (me_cnt _ _ _ Hme').
    + by rewrite fn_lookup_insert.
    + apply (me_at _ _ _ Hme').
    + intros o'. case_decide as E.
      * destruct E as [_ ->]. rewrite E3. by rewrite fn_lookup_insert.
      * rewrite fn_lookup_insert_ne; [done|]. intros ->. by apply E.
  - split; simpl; try done; try congruence. by rewrite lookup_insert_eq.
Qed.

(** A field of a monitor not yet published. *)
Lemma private_field t s g p M M' :
  inv (s, g) -> mine t (s, g) p M ->
  id_ M' = id_ M -> obj_ M' = obj_ M -> (forall l, head_of l M' = head_of l M) ->
  waitersCounter_ M' = waitersCounter_ M -> lock_inv M' ->
  0 <= hashCode_ M' <= MarkWord.HASH_MASK /\ in_u 32 (hashCode_ M') ->
  (hashCode_ M <> 0 -> hashCode_ M' = hashCode_ M) ->
  (forall u, u <> t -> mutatorWriter s = Some u -> hashCode_ M' = hashCode_ M) ->
  field_step t s g p M M'.
Proof.
  intros I [E1 E2] F1 F2 F3 F4 F5 F6 F7 F8. simpl in *.
  destruct (inv_private _ I p t E2) as [D1 D2]. simpl in *.
  split; try done; [by left|congruence| | |congruence].
  - intros u Hu. by destruct (D2 u).
  - intros u Hb. destruct (inv_busy _ I u p Hb) as [Hn _]. simpl in *. congruence.
Qed.

Lemma Safe_mine_act {A R} t p f (k : R -> prog A) Q w M x :
  mine t w p M -> me t w x -> m_status x = RUNNING ->
  (forall ch, lock_inv M -> 0 <= hashCode_ M <= MarkWord.HASH_MASK /\ in_u 32 (hashCode_ M) ->
     match f t ch M with
     | Next a M' =>
         (id_ M' = id_ M /\ obj_ M' = obj_ M /\ (forall l, head_of l M' = head_of l M) /\
          waitersCounter_ M' = waitersCounter_ M /\ lock_inv M' /\
          (0 <= hashCode_ M' <= MarkWord.HASH_MASK /\ in_u 32 (hashCode_ M')) /\
          (hashCode_ M <> 0 -> hashCode_ M' = hashCode_ M)) /\
         forall w', inv w' -> me t w' x -> mine t w' p M' -> Safe t (k a) Q w'
     | Blocked => True
     | Fault e => tolerated e
     end) ->
  Safe t (Bind (monitor_act p f) k) Q w.
Proof.
  intros Hm Hme Hrun Hf. apply Safe_monitor_act. intros s g R' I.
  pose proof (mine_rely _ _ _ _ _ Hm R') as Hm'. pose proof (me_rely _ _ _ _ Hme R') as Hme'.
  pose proof (running_no_writer _ _ _ I Hme' Hrun) as Hw. simpl in Hw.
  destruct Hm' as [Hp Hv]. simpl in Hp, Hv. exists M. split; [done|]. intros ch.
  specialize (Hf ch (inv_lock _ I p M Hp) (inv_hash _ I p M Hp)).
  destruct (f t ch M) as [a M'| |]; [|done..].
  destruct Hf as [(F1 & F2 & F3 & F4 & F5 & F6 & F7) Hk]. exists g.
  assert (F : field_step t s g p M M').
  { apply private_field; try done. intros u _. by rewrite Hw. }
  destruct (field_ok t s g p M M' I Hp F) as [I' G]. split_and!; [done..|]. apply Hk; [done| |].
  - by eapply me_private.
  - split; simpl; [by rewrite lookup_insert_eq|done].
Qed.

(** The mutex is taken. *)
Lemma take_lock t s g p M x :
  inv (s, g) -> heap s !! p = Some M -> priv g p = None -> lock_ M = None -> me t (s, g) x ->
  let M' := {| M with lock_ := Some t |} in
  inv (upd s p M', g) /\ guar rely t (s, g) (upd s p M', g) /\ me t (upd s p M', g) x /\
  m_depth x (obj_ M) = 0 /\ disjoint_lists (chain g WAITERS p) (chain g TO_WAKEUP p) /\
  locked t (upd s p M', g) p (obj_ M) None 0 (chain g WAITERS p) (chain g TO_WAKEUP p) [] M'.
Proof.
  intros I Hp Hv Hl Hme M'. pose proof (inv_lock _ I p M Hp) as [L1 L2 L3].
  assert (Hown : owner_ M = None).
  { destruct (owner_ M) as [u|] eqn:E; [|done]. specialize (L1 u eq_refl). congruence. }
  assert (F : field_step t s g p M M').
  { split; simpl; try done.
    - split; simpl; try done. rewrite Hown. done.
    - apply (inv_hash _ I p M Hp).
    - right. auto.
    - intros u Hu. destruct (ls_member _ _ _ _ (inv_lists _ I p M Hp) u Hu) as [?|E]; [by left|].
      congruence.
    - intros u Hb. destruct (inv_busy _ I u p Hb) as [_ (N & Hp' & Hl')]. simpl in *. congruence.
    - intros _ u Hu. congruence. }
  destruct (field_ok t s g p M M' I Hp F) as [I' G].
  assert (Hd : m_depth x (obj_ M) = 0).
  { rewrite <- (me_depth _ _ _ Hme). rewrite (depth_published (s, g) p M t I Hp Hv).
    apply held_by_not_owner. by rewrite Hown. }
  destruct (ls_clean _ _ _ _ (inv_lists _ I p M Hp)) as [C1 C2]; [by intros u; rewrite Hl|].
  split_and!; try done.
  - eapply (me_same_depth _ _ _ (obj_ M) (held_by M' t)); [by apply me_field|].
    rewrite Hd. symmetry. apply held_by_not_owner. simpl. by rewrite Hown.
  - split; simpl; try done; [by rewrite lookup_insert_eq|by apply L2].
Qed.

Lemma Safe_TryLock {A} t p (k : bool -> prog A) Q w o x :
  pub t w p o -> me t w x ->
  (forall w' W T M, inv w' -> me t w' x -> m_depth x o = 0 -> disjoint_lists W T ->
     locked t w' p o None 0 W T [] M -> Safe t (k true) Q w') ->
  (forall w', rely t w w' -> inv w' -> Safe t (k false) Q w') ->
  Safe t (Bind (TryLock p) k) Q w.
Proof.
  intros Hpub Hme Ht Hf. apply Safe_monitor_act. intros s g R' I.
  destruct (pub_rely _ _ _ _ _ Hpub R') as (M & Hp & Hv & Ho & Hpin). simpl in *.
  exists M. split; [done|]. intros ch. destruct (lock_ M) as [u|] eqn:Hl.
  - exists g. rewrite upd_id by done. split_and!; [done|apply guar_refl, rely_refl|auto].
  - destruct (take_lock t s g p M x I Hp Hv Hl (me_rely _ _ _ _ Hme R'))
      as (I' & G & Hme' & Hd & Hdis & Hlk). exists g. split_and!; [done..|].
    rewrite Ho in *. eauto.
Qed.

Lemma Safe_Lock {A} t p (k : () -> prog A) Q w o x :
  pub t w p o -> me t w x ->
  (forall w' W T M, inv w' -> me t w' x -> m_depth x o = 0 -> disjoint_lists W T ->
     locked t w' p o None 0 W T [] M -> Safe t (k ()) Q w') ->
  Safe t (Bind (Lock p) k) Q w.
Proof.
  intros Hpub Hme Ht. apply Safe_monitor_act. intros s g R' I.
  destruct (pub_rely _ _ _ _ _ Hpub R') as (M & Hp & Hv & Ho & Hpin). simpl in *.
  exists M. split; [done|]. intros ch. destruct (lock_ M) as [u|] eqn:Hl; [done|].
  destruct (take_lock t s g p M x I Hp Hv Hl (me_rely _ _ _ _ Hme R'))
    as (I' & G & Hme' & Hd & Hdis & Hlk). exists g. split_and!; [done..|].
  rewrite Ho in *. eauto.
Qed.

(** The mutex is given back. *)
Lemma Safe_Unlock {A} t p (k : () -> prog A) Q w o c W T B M0 x :
  locked t w p o None c W T B M0 -> me t w x -> m_busy x <> Some p ->
  (m_at x = Some p -> 0 < m_cnt x p) ->
  (forall w' M, inv w' -> me t w' x -> heap w'.1 !! p = Some M -> priv w'.2 p = None ->
     obj_ M = o -> owner_ M = None -> Safe t (k ()) Q w') ->
  Safe t (Bind (Unlock p) k) Q w.
Proof.
  intros Hl Hme Hb Hat Hk. apply Safe_monitor_act. intros s g R' I.
  destruct (locked_rely _ _ _ _ _ _ _ _ _ _ _ Hl R') as [M [E1 E2 E3 E4 E5 E6 E7 E8 E9]].
  pose proof (me_rely _ _ _ _ Hme R') as Hme'. simpl in *.
  exists M. split; [done|]. intros ch. rewrite bool_decide_eq_true_2 by done. exists g.
  assert (F : field_step t s g p M {| M with lock_ := None |}).
  { pose proof (inv_lock _ I p M E1) as [L1 L2 L3]. split; simpl; try done.
    - split; simpl; try done. by rewrite E5.
    - apply (inv_hash _ I p M E1).
    - right. auto.
    - intros u Hu. left.
      destruct (ls_member _ _ _ _ (inv_lists _ I p M E1) u Hu) as [?|E]; [done|].
      assert (u = t) as -> by congruence. pose proof (me_cnt _ _ _ Hme' p) as Ec. simpl in Ec.
      rewrite Ec. apply Hat. by apply (me_at _ _ _ Hme').
    - intros u Hb'. destruct (inv_busy _ I u p Hb') as [_ (N & Hp' & Hl')]. simpl in *.
      assert (u = t) as -> by congruence. destruct Hb. by rewrite <- (me_busy _ _ _ Hme').
    - intros _ u Hu. congruence. }
  destruct (field_ok t s g p M _ I E1 F) as [I' G]. split_and!; [done..|].
  apply (Hk _ {| M with lock_ := None |}); try done; [|by simpl; rewrite lookup_insert_eq].
  eapply (me_same_depth _ _ _ (obj_ M)); [by apply me_field|].
  pose proof (me_depth _ _ _ Hme' (obj_ M)) as Ed. rewrite <- Ed.
  rewrite (depth_published (s, g) p M t I E1 E2). by rewrite !held_by_not_owner by (simpl; by rewrite E5).
Qed.

(** The thread's part of the counter of a monitor changes. *)
Lemma count_step t s g p M x d :
  inv (s, g) -> heap s !! p = Some M -> priv g p = None -> me t (s, g) x ->
  m_status x = RUNNING -> 0 <= m_cnt x p + d <= 2 ->
  (0 < m_cnt x p + d \/ m_at x <> Some p \/ lock_ M = Some t) ->
  let M' := {| M with waitersCounter_ := u32 (waitersCounter_ M + d) |} in
  local_step t s g p M (upd s p M') (with_cnt t p d g) M'.
Proof.
  intros I Hp Hv Hme Hrun Hd Hm M'.
  pose proof (running_no_writer _ _ _ I Hme Hrun) as Hw. simpl in Hw.
  pose proof (me_cnt _ _ _ Hme p) as Hc. simpl in Hc.
  pose proof (me_reg _ _ _ Hme) as Hreg.
  assert (Hrange : forall u, 0 <= cnt (with_cnt t p d g) u p <= 2).
  { intros u. destruct (decide (u = t)) as [->|].
    - rewrite with_cnt_same, Hc. lia.
    - rewrite with_cnt_other by auto. apply (inv_cnt _ I). }
  assert (Htot : total (with_cnt t p d g) p = total g p + d).
  { apply total_with_cnt; [apply registered_nodup|done]. }
  assert (Hwc : u32 (waitersCounter_ M + d) = total (with_cnt t p d g) p).
  { rewrite (inv_counter _ I p M Hp). simpl. rewrite <- Htot. apply wrapu_id. split.
    - pose proof (total_pos (with_cnt t p d g) p t (fun u => proj1 (Hrange u)) Hreg).
      specialize (Hrange t). lia.
    - pose proof (total_bound (with_cnt t p d g) p (fun u => proj2 (Hrange u))).
      pose proof registered_few. lia. }
  assert (Hmem : forall u q, member (with_cnt t p d g) u q <-> member g u q) by done.
  split; try done; simpl.
  - intros u. by left.
  - pose proof (inv_lock _ I p M Hp) as [L1 L2 L3]. by split.
  - apply (inv_hash _ I p M Hp).
  - intros u q Hn. by apply with_cnt_other.
  - intros u Hb. split; [done|]. destruct (inv_busy _ I u p Hb) as [_ (N & Hp' & Hl)].
    simpl in *. congruence.
  - intros u Hu. by left.
  - destruct (inv_lists _ I p M Hp) as [L1 L2 L3]. split; simpl; try done.
    intros u Hu. destruct (decide (u = t)) as [->|Hn].
    + destruct Hm as [Hm|[Hm|Hm]]; [left|exfalso|by right].
      * change (0 < cnt (with_cnt t p d g) t p). rewrite with_cnt_same, Hc. done.
      * by apply Hm, (me_at _ _ _ Hme).
    + change (0 < cnt (with_cnt t p d g) u p \/ lock_ M = Some u). rewrite with_cnt_other by auto.
      by apply L2.
  - intros u E. congruence.
  - congruence.
  - intros _ u Ho Hz. by apply (inv_owned _ I p M).
Qed.

Lemma Safe_fetch_add {A} t p d (k : () -> prog A) Q w o x :
  pub t w p o -> me t w x -> m_status x = RUNNING -> 0 <= m_cnt x p + d <= 2 ->
  (0 < m_cnt x p + d \/ m_at x <> Some p \/
   exists ow c W T B M, locked t w p o ow c W T B M) ->
  (forall w', inv w' -> me t w' (with_count x p d) -> pub t w' p o ->
     (forall ow c W T B M, locked t w p o ow c W T B M ->
        exists M', locked t w' p o ow c W T B M') -> Safe t (k ()) Q w') ->
  Safe t (Bind (waiters_fetch_add p d) k) Q w.
Proof.
  intros Hpub Hme Hrun Hd Hm Hk. apply Safe_monitor_act. intros s g R' I.
  destruct (pub_rely _ _ _ _ _ Hpub R') as (M & Hp & Hv & Ho & Hpin). simpl in *.
  pose proof (me_rely _ _ _ _ Hme R') as Hme'.
  exists M. split; [done|]. intros ch. exists (with_cnt t p d g).
  assert (Hm' : 0 < m_cnt x p + d \/ m_at x <> Some p \/ lock_ M = Some t).
  { destruct Hm as [?|[?|(ow & c & W & T & B & N & Hl)]]; [by left|by right; left|].
    destruct (locked_rely _ _ _ _ _ _ _ _ _ _ _ Hl R') as [N' [E1 _ _ E4 _ _ _ _ _]].
    simpl in E1. right; right. congruence. }
  pose proof (count_step t s g p M x d I Hp Hv Hme' Hrun Hd Hm') as L.
  destruct (local_ok _ _ _ _ _ _ _ _ I Hp L) as [I' G]. split_and!; [done..|].
  assert (Hd' : held_by {| M with waitersCounter_ := u32 (waitersCounter_ M + d) |} t = held_by M t)
    by done.
  apply Hk; [done| | |].
  - eapply (me_local t s g p M); [exact I|exact Hp|exact L|exact Hme'|done|done|done|done|done|..]; simpl.
    + intros q. pose proof (me_cnt _ _ _ Hme') as Hc. simpl in Hc.
      destruct (decide (q = p)) as [->|].
      * rewrite !fn_lookup_insert. by rewrite Hc.
      * rewrite fn_lookup_insert, !fn_lookup_insert_ne by done. apply Hc.
    + apply (me_busy _ _ _ Hme').
    + apply (me_at _ _ _ Hme').
    + intros o'. case_decide as E; [|done]. destruct E as [_ ->].
      rewrite <- (me_depth _ _ _ Hme'). by rewrite (depth_published (s, g) p M t I Hp Hv).
  - exists {| M with waitersCounter_ := u32 (waitersCounter_ M + d) |}. simpl.
    rewrite lookup_insert_eq. split_and!; [done..|]. left. split; [apply Hme|].
    rewrite <- Hrun, <- (me_status _ _ _ Hme'). done.
  - intros ow c W T B N Hl.
    destruct (locked_rely _ _ _ _ _ _ _ _ _ _ _ Hl R') as [N' [E1 E2 E3 E4 E5 E6 E7 E8 E9]].
    simpl in *. assert (N' = M) as -> by congruence.
    exists {| M with waitersCounter_ := u32 (waitersCounter_ M + d) |}. split; simpl; try done.
    by rewrite lookup_insert_eq.
Qed.

(** The hash of a published monitor is set once. *)
Lemma Safe_hash_cas {A} t p h (k : bool -> prog A) Q w o x :
  pub t w p o -> me t w x -> m_status x = RUNNING -> 0 < h <= MarkWord.HASH_MASK -> in_u 32 h ->
  (forall b w', inv w' -> me t w' x -> pub t w' p o ->
     (b = true -> hash_of w'.1 o = Some h) -> Safe t (k b) Q w') ->
  Safe t (Bind (monitor_act p (fun _ c M =>
             if (hashCode_ M == 0) && (0 <=? c) then Next true {| M with hashCode_ := h |}
             else Next false M)) k) Q w.
Proof.
  intros Hpub Hme Hrun Hh Hh32 Hk. apply Safe_monitor_act. intros s g R' I.
  pose proof (pub_rely _ _ _ _ _ Hpub R') as Hpub'.
  destruct Hpub' as (M & Hp & Hv & Ho & Hpin). simpl in *.
  pose proof (me_rely _ _ _ _ Hme R') as Hme'.
  pose proof (running_no_writer _ _ _ I Hme' Hrun) as Hw. simpl in Hw.
  exists M. split; [done|]. intros ch. case_bool_decide as Ez; simpl; [destruct (0 <=? ch)|].
  2,3: exists g; rewrite upd_id by done; split_and!; [done|apply guar_refl, rely_refl|];
    apply Hk; [done|done|by exists M|done].
  exists g.
  assert (F : field_step t s g p M {| M with hashCode_ := h |}).
  { pose proof (inv_lock _ I p M Hp) as [L1 L2 L3]. split; simpl; try done.
    - split; [lia|done].
    - intros u _ E. congruence.
    - right. split; [done|]. by right; right.
    - apply (inv_lists _ I p M Hp).
    - intros u Hb. destruct (inv_busy _ I u p Hb) as [_ (N & Hp' & Hl)]. simpl in *. congruence.
    - intros _ u Hou Hz. by apply (inv_owned _ I p M). }
  destruct (field_ok t s g p M _ I Hp F) as [I' G]. split_and!; [done..|].
  apply Hk; [done| | |].
  - eapply (me_same_depth _ _ _ (obj_ M)); [by apply me_field|].
    rewrite <- (me_depth _ _ _ Hme'). by rewrite (depth_published (s, g) p M t I Hp Hv).
  - eexists. simpl. rewrite lookup_insert_eq. split_and!; [done..|]. left.
    split; [apply Hme|]. by rewrite <- Hrun, <- (me_status _ _ _ Hme').
  - intros _. rewrite <- Ho.
    pose proof (hash_published _ p {| M with hashCode_ := h |} I') as Eh. simpl in Eh |- *.
    rewrite lookup_insert_eq in Eh. rewrite Eh by done. by rewrite decide_False by lia.
Qed.

(** ** The status of the thread *)
Lemma Safe_UpdateStatus {A} t st (k : () -> prog A) Q w x :
  me t w x -> m_priv x = None ->
  (forall w', inv w' -> me t w' {| x with m_status := st |} ->
     (forall p o, pub t w p o -> 0 < m_cnt x p -> pub t w' p o) ->
     (forall p o ow c W T B M, locked t w p o ow c W T B M ->
        exists M', locked t w' p o ow c W T B M') -> Safe t (k ()) Q w') ->
  Safe t (Bind (UpdateStatus t st) k) Q w.
Proof.
  intros Hme Hpr Hk. apply Safe_bind_act; [apply rely_refl|apply rely_trans|].
  intros [s g] R' I c. simpl. pose proof (me_rely _ _ _ _ Hme R') as Hme'.
  set (s' := {| s with threads := <[t:={| (threads s t) with status_ := st |}]> (threads s) |}).
  assert (Hstep : (forall u, mutatorWriter s = Some u -> st <> RUNNING) ->
    (suspenders g t <> [] -> status_ (threads s t) <> RUNNING -> st <> RUNNING) ->
    exists g', inv (s', g') /\ guar rely t (s, g) (s', g') /\ Safe t (k ()) Q (s', g')).
  { intros Hw Hsu.
    assert (Hq : quiet_step t s s' g).
    { split; try done; simpl.
      - apply (inv_seed _ I).
      - intros u. destruct (decide (u = t)) as [->|]; [by rewrite fn_lookup_insert|].
        by rewrite fn_lookup_insert_ne.
      - intros u Hu. by rewrite fn_lookup_insert_ne.
      - intros u v Hu Hv. destruct (decide (v = t)) as [->|]; [rewrite fn_lookup_insert; eauto|].
        rewrite fn_lookup_insert_ne by done. by apply (inv_writer _ I u).
      - intros u v _ <-. destruct (decide (u = t)) as [->|]; [by rewrite fn_lookup_insert|].
        by rewrite fn_lookup_insert_ne.
      - intros p u Hv. pose proof (inv_builder _ I p u Hv) as Hw'. unfold may_build in *. simpl in *.
        destruct (decide (u = t)) as [->|]; [|by rewrite fn_lookup_insert_ne].
        apply (me_priv _ _ _ Hme') in Hv. congruence.
      - intros u. destruct (decide (u = t)) as [->|]; [by rewrite fn_lookup_insert|].
        by rewrite fn_lookup_insert_ne.
      - by rewrite fn_lookup_insert.
      - intros u Hu. by rewrite fn_lookup_insert_ne. }
    destruct (quiet_ok t s s' g I Hq) as [I' G]. exists g. split_and!; [done..|].
    apply Hk; [done| | |].
    - destruct Hme' as [E1 E2 E3 E4 E5 E6 E7 E8 E9 E10 E11]. split; try done; simpl; [by rewrite fn_lookup_insert|..].
      + intros u Hu. specialize (E7 u Hu). simpl in E7. rewrite <- E7.
        destruct (decide (u = t)) as [->|]; [by rewrite fn_lookup_insert|by rewrite fn_lookup_insert_ne].
      + intros u Hu. specialize (E10 u Hu). destruct (decide (u = t)) as [->|]; [|by rewrite fn_lookup_insert_ne].
        rewrite fn_lookup_insert. apply Hsu; [|done]. intros En.
        assert (Ht : t ∈ suspenders g t) by (apply E9; by rewrite Hu).
        rewrite En in Ht. by apply elem_of_nil in Ht.
      + by rewrite fn_lookup_insert.
    - intros p o Hpub Hc. destruct (pub_rely _ _ _ _ _ Hpub R') as (M & Hp & Hv & Ho & _).
      exists M. split_and!; [done..|]. right; left. pose proof (me_cnt _ _ _ Hme' p) as E.
      simpl in *. by rewrite E.
    - intros p o ow c' W T B M Hl. destruct (locked_rely _ _ _ _ _ _ _ _ _ _ _ Hl R') as [M' [? ?]].
      by exists M'. }
  fold s'. destruct ((status_ (threads s t) != RUNNING) && (st == RUNNING)) eqn:Eb.
  - destruct (IsSuspended (threads s t)) eqn:Es; [done|].
    destruct (mutatorWriter s) eqn:Ew; [done|]. apply Hstep; [done|]. intros Hn.
    pose proof (si_count _ _ (inv_suspend _ I t)) as Ec. unfold IsSuspended in Es. simpl in Ec.
    destruct (suspenders g t); [done|]. simpl in Ec. apply Z.ltb_ge in Es. lia.
  - assert (Hr : st = RUNNING -> status_ (threads s t) = RUNNING).
    { intros ->. apply andb_false_iff in Eb as [Eb|Eb].
      - by apply negb_false_iff, bool_decide_eq_true in Eb.
      - by apply bool_decide_eq_false in Eb. }
    apply Hstep; [|naive_solver]. intros u Eu Er. apply Hr in Er.
    by destruct (inv_writer _ I u t Eu (me_reg _ _ _ Hme)).
Qed.

(** ** The mutex of a thread *)
Lemma quiet_thread t s g u T :
  inv (s, g) -> next_ T = next_ (threads s u) -> status_ T = status_ (threads s u) ->
  (forall v, v <> t -> condLock_ (threads s u) = Some v -> condLock_ T = Some v) ->
  suspendCount_ T = suspendCount_ (threads s u) -> (u <> t -> own_fields T = own_fields (threads s u)) ->
  quiet_step t s {| s with threads := <[u := T]> (threads s) |} g.
Proof.
  intros I E1 E2 E3 E4 E5.
  assert (Ev : forall v, v <> u -> (<[u:=T]> (threads s)) v = threads s v).
  { intros v Hv. by rewrite fn_lookup_insert_ne. }
  split; try done; simpl.
  - apply (inv_seed _ I).
  - intros v. destruct (decide (v = u)) as [->|]; [by rewrite fn_lookup_insert|by rewrite Ev].
  - intros v _. destruct (decide (v = u)) as [->|]; [by rewrite fn_lookup_insert|by rewrite Ev].
  - intros v v' Hw Hv'. pose proof (inv_writer _ I v v' Hw Hv') as Hs. simpl in Hs.
    destruct (decide (v' = u)) as [->|]; [by rewrite fn_lookup_insert, E2|by rewrite Ev].
  - intros v v' Hv'. destruct (decide (v = u)) as [->|]; [rewrite fn_lookup_insert; auto|by rewrite Ev].
  - intros p v Hv. pose proof (inv_builder _ I p v Hv) as Hw. unfold may_build in *. simpl in *.
    destruct (decide (v = u)) as [->|]; [by rewrite fn_lookup_insert, E2|by rewrite Ev].
  - intros v. destruct (decide (v = u)) as [->|]; [by rewrite fn_lookup_insert|by rewrite Ev].
  - intros _. destruct (decide (t = u)) as [->|]; [by rewrite fn_lookup_insert, E2|by rewrite Ev].
  - intros v Hv. destruct (decide (v = u)) as [->|]; [rewrite fn_lookup_insert; auto|by rewrite Ev].
Qed.

Lemma Safe_cond_take {A R} t u f (k : R -> prog A) Q w x :
  me t w x ->
  (forall c T, match f t c T with
               | Next v T' => next_ T' = next_ T /\ status_ T' = status_ T /\
                              condLock_ T = None /\ condLock_ T' = Some t /\
                              suspendCount_ T' = suspendCount_ T /\ own_fields T' = own_fields T
               | Blocked => True
               | Fault e => tolerated e
               end) ->
  (forall v w', rely t w w' -> inv w' -> me t w' {| x with m_cond := u :: m_cond x |} ->
     u ∉ m_cond x -> Safe t (k v) Q w') ->
  Safe t (Bind (thread_act u f) k) Q w.
Proof.
  intros Hme Hf Hk. apply Safe_bind_act; [apply rely_refl|apply rely_trans|].
  intros [s g] R' I c. simpl. pose proof (me_rely _ _ _ _ Hme R') as Hme'.
  specialize (Hf c (threads s u)). destruct (f t c (threads s u)) as [v T'| |]; [|done..].
  destruct Hf as (F1 & F2 & F3 & F4 & F5 & F6). exists g.
  assert (Hq : forall t, quiet_step t s {| s with threads := <[u:=T']> (threads s) |} g).
  { intros t'. apply (quiet_thread t' s g); try done. intros v'. by rewrite F3. }
  destruct (quiet_ok t s _ g I (Hq t)) as [I' G]. split_and!; [done..|].
  assert (R2 : rely t (s, g) ({| s with threads := <[u:=T']> (threads s) |}, g)).
  { apply (quiet_ok (t + 1) s _ g I (Hq _)). lia. }
  assert (Hu : u ∉ m_cond x).
  { intros Hu%(me_cond _ _ _ Hme'). simpl in Hu. congruence. }
  apply Hk; [by eapply rely_trans|done| |done].
  pose proof (me_rely _ _ _ _ Hme' R2) as [E1 E2 E3 E4 E5 E6 E7 E8 E9 E10 E11]. split; try done.
  simpl. intros v' [->|Hv']%elem_of_cons; [by rewrite fn_lookup_insert|by apply E7].
Qed.

Lemma Safe_cond_give {A R} t u f l (k : R -> prog A) Q w x :
  me t w x -> m_cond x = u :: l -> u ∉ l ->
  (forall c T, condLock_ T = Some t ->
     match f t c T with
     | Next v T' => next_ T' = next_ T /\ status_ T' = status_ T /\ suspendCount_ T' = suspendCount_ T /\
                    own_fields T' = own_fields T
     | Blocked => True
     | Fault e => tolerated e
     end) ->
  (forall v w', inv w' -> me t w' {| x with m_cond := l |} ->
     (forall p o, pub t w p o -> pub t w' p o) ->
     (forall p o ow c W T B M, locked t w p o ow c W T B M ->
        exists M', locked t w' p o ow c W T B M') -> Safe t (k v) Q w') ->
  Safe t (Bind (thread_act u f) k) Q w.
Proof.
  intros Hme Ex Hnl Hf Hk. apply Safe_bind_act; [apply rely_refl|apply rely_trans|].
  intros [s g] R' I c. simpl. pose proof (me_rely _ _ _ _ Hme R') as Hme'.
  assert (Hc : condLock_ (threads s u) = Some t).
  { apply (me_cond _ _ _ Hme'). rewrite Ex. by left. }
  specialize (Hf c (threads s u) Hc). destruct (f t c (threads s u)) as [v T'| |]; [|done..].
  destruct Hf as (F1 & F2 & F3 & F4). exists g.
  assert (Hq : quiet_step t s {| s with threads := <[u:=T']> (threads s) |} g).
  { apply (quiet_thread t s g); try done. intros v' Hv'. rewrite Hc. congruence. }
  destruct (quiet_ok t s _ g I Hq) as [I' G]. split_and!; [done..|].
  assert (Es : forall v', status_ (<[u:=T']> (threads s) v') = status_ (threads s v')).
  { intros v'. destruct (decide (v' = u)) as [->|]; [by rewrite fn_lookup_insert|].
    by rewrite fn_lookup_insert_ne. }
  apply Hk; [done| | |].
  - destruct Hme' as [E1 E2 E3 E4 E5 E6 E7 E8 E9 E10 E11]. split; try done; simpl in *; [by rewrite Es|..].
    + intros v' Hv'. rewrite fn_lookup_insert_ne by (intros ->; done). apply E7.
      rewrite Ex. by right.
    + intros v' Hv'. rewrite Es. by apply E10.
    + destruct (decide (t = u)) as [->|]; [rewrite fn_lookup_insert|by rewrite fn_lookup_insert_ne].
      by rewrite F4.
  - intros p o Hp. destruct (pub_rely _ _ _ _ _ Hp R') as (M & Hh & Hv & Ho & Hpin).
    exists M. split_and!; [done..|]. unfold pinned in *. simpl in *. by rewrite Es.
  - intros p o ow c' W T B M Hl. destruct (locked_rely _ _ _ _ _ _ _ _ _ _ _ Hl R') as [M' [? ?]].
    by exists M'.
Qed.

Lemma Safe_WaitingMutex_Lock {A} t u (k : () -> prog A) Q w x :
  me t w x ->
  (forall w', rely t w w' -> inv w' -> me t w' {| x with m_cond := u :: m_cond x |} ->
     u ∉ m_cond x -> Safe t (k ()) Q w') ->
  Safe t (Bind (WaitingMutex_Lock u) k) Q w.
Proof.
  intros Hme Hk. eapply Safe_cond_take; [done| |intros []; eauto].
  intros c T. by destruct (condLock_ T).
Qed.

Lemma Safe_CondWait_end {A} t u timed (k : bool -> prog A) Q w x :
  me t w x ->
  (forall v w', rely t w w' -> inv w' -> me t w' {| x with m_cond := u :: m_cond x |} ->
     u ∉ m_cond x -> Safe t (k v) Q w') ->
  Safe t (Bind (CondWait_end u timed) k) Q w.
Proof.
  intros Hme Hk. eapply Safe_cond_take; [done| |done].
  intros c T. destruct (condLock_ T); [done|]. destruct (condSignal T); [done|].
  destruct (timed && (0 <=? c)); [done|]. by destruct (c <? 0).
Qed.

Lemma Safe_WaitingMutex_Unlock {A} t u l (k : () -> prog A) Q w x :
  me t w x -> m_cond x = u :: l -> u ∉ l ->
  (forall w', inv w' -> me t w' {| x with m_cond := l |} ->
     (forall p o, pub t w p o -> pub t w' p o) ->
     (forall p o ow c W T B M, locked t w p o ow c W T B M ->
        exists M', locked t w' p o ow c W T B M') -> Safe t (k ()) Q w') ->
  Safe t (Bind (WaitingMutex_Unlock u) k) Q w.
Proof.
  intros Hme El Hl Hk. eapply Safe_cond_give; [done..| |intros []; eauto].
  intros c T E. by rewrite bool_decide_eq_true_2.
Qed.

Lemma Safe_CondWait_begin {A} t u l (k : () -> prog A) Q w x :
  me t w x -> m_cond x = u :: l -> u ∉ l ->
  (forall w', inv w' -> me t w' {| x with m_cond := l |} ->
     (forall p o, pub t w p o -> pub t w' p o) ->
     (forall p o ow c W T B M, locked t w p o ow c W T B M ->
        exists M', locked t w' p o ow c W T B M') -> Safe t (k ()) Q w') ->
  Safe t (Bind (CondWait_begin u) k) Q w.
Proof.
  intros Hme El Hl Hk. eapply Safe_cond_give; [done..| |intros []; eauto].
  intros c T E. by rewrite bool_decide_eq_true_2.
Qed.

(** ** The fields only the thread itself writes *)
Lemma Safe_own_field {A} t f v (k : () -> prog A) Q w x :
  me t w x ->
  (forall c T, own_fields T = m_own x ->
     match f t c T with
     | Next _ T' => next_ T' = next_ T /\ status_ T' = status_ T /\ suspendCount_ T' = suspendCount_ T /\
                    condLock_ T' = condLock_ T /\ own_fields T' = v
     | Blocked => True
     | Fault e => tolerated e
     end) ->
  (forall w', inv w' -> me t w' {| x with m_own := v |} ->
     (forall p o, pub t w p o -> pub t w' p o) ->
     (forall p o ow c W T B M, locked t w p o ow c W T B M ->
        exists M', locked t w' p o ow c W T B M') -> Safe t (k ()) Q w') ->
  Safe t (Bind (thread_act t f) k) Q w.
Proof.
  intros Hme Hf Hk. apply Safe_bind_act; [apply rely_refl|apply rely_trans|].
  intros [s g] R' I c. simpl. pose proof (me_rely _ _ _ _ Hme R') as Hme'.
  specialize (Hf c (threads s t) (me_own _ _ _ Hme')).
  destruct (f t c (threads s t)) as [[] T'| |]; [|done..]. destruct Hf as (F1 & F2 & F3 & F4 & F5). exists g.
  assert (Hq : quiet_step t s {| s with threads := <[t:=T']> (threads s) |} g).
  { apply (quiet_thread t s g); try done. intros v' Hv'. by rewrite F4. }
  destruct (quiet_ok t s _ g I Hq) as [I' G]. split_and!; [done..|].
  apply Hk; [done| | |].
  - destruct Hme' as [E1 E2 E3 E4 E5 E6 E7 E8 E9 E10 E11]. split; try done; simpl in *.
    + by rewrite fn_lookup_insert, F2.
    + intros u Hu. rewrite <- (E7 u Hu). destruct (decide (u = t)) as [->|]; [by rewrite fn_lookup_insert|].
      by rewrite fn_lookup_insert_ne.
    + intros u Hu. specialize (E10 u Hu). destruct (decide (u = t)) as [->|].
      * by rewrite fn_lookup_insert, F2.
      * by rewrite fn_lookup_insert_ne.
    + by rewrite fn_lookup_insert.
  - intros p o Hp. destruct (pub_rely _ _ _ _ _ Hp R') as (M & Hh & Hv & Ho & Hpin).
    exists M. split_and!; [done..|]. unfold pinned in *. simpl in *. by rewrite fn_lookup_insert, F2.
  - intros p o ow c' W T B M Hl. destruct (locked_rely _ _ _ _ _ _ _ _ _ _ _ Hl R') as [M' [? ?]].
    by exists M'.
Qed.

(** ** Words *)
Lemma me_word t s g o v x :
  inv (s, g) -> me t (s, g) x -> ~ is_heavy (view_of (marks s o)) -> ~ is_heavy (view_of v) ->
  me t ({| s with marks := <[o := v]> (marks s) |}, g) (with_depth x o (light_depth (view_of v) t)).
Proof.
  intros I [E1 E2 E3 E4 E5 E6 E7 E8 E9 E10 E11] Hn Hn'. split; try done. intros o'. simpl.
  destruct (decide (o' = o)) as [->|Hne].
  - rewrite fn_lookup_insert, depth_light; simpl; by rewrite fn_lookup_insert.
  - rewrite fn_lookup_insert_ne by done. rewrite <- E6. simpl. unfold depth, monitor_of. simpl.
    by rewrite fn_lookup_insert_ne.
Qed.

(** A word that does not refer to a monitor is replaced by another. *)
Lemma Safe_word_cas {A} t o old new (k : bool * Z -> prog A) Q w x :
  me t w x -> ~ is_heavy (view_of old) -> ~ is_heavy (view_of new) ->
  (mark_inv old -> mark_inv new) ->
  (forall u, u <> t -> light_depth (view_of new) u = light_depth (view_of old) u) ->
  (forall h, word_hash (view_of old) = Some h -> word_hash (view_of new) = Some h) ->
  (forall w', inv w' -> m_depth x o = light_depth (view_of old) t ->
     me t w' (with_depth x o (light_depth (view_of new) t)) ->
     hash_of w'.1 o = word_hash (view_of new) -> Safe t (k (true, old)) Q w') ->
  (forall w', rely t w w' -> inv w' -> Safe t (k (false, marks w'.1 o)) Q w') ->
  Safe t (Bind (AtomicSetMark true o old new) k) Q w.
Proof.
  intros Hme Hn Hn' Hi Hd Hh Ht Hf. apply Safe_bind_act; [apply rely_refl|apply rely_trans|].
  intros [s g] R' I c. simpl. rewrite andb_true_r. pose proof (me_rely _ _ _ _ Hme R') as Hme'.
  case_bool_decide as E.
  - assert (Hw : word_step t s o new {| s with marks := <[o := new]> (marks s) |}).
    { split; [done|..]; rewrite ?E; auto.
      - apply Hi. rewrite <- E. apply (inv_marks _ I).
      - intros id. split; intros Ev; exfalso; [apply Hn'|apply Hn]; by eexists. }
    destruct (word_ok t s g o new _ I Hw) as [I' G]. exists g. split_and!; [done..|].
    rewrite <- E in Hn. apply Ht; [done| |by apply me_word|].
    + pose proof (me_depth _ _ _ Hme' o) as Ed. simpl in Ed. rewrite <- Ed, <- E.
      by apply depth_light.
    + rewrite hash_light; simpl; by rewrite fn_lookup_insert.
  - exists g. split_and!; [done|apply guar_refl, rely_refl|]. by apply (Hf (s, g)).
Qed.

(** A word is replaced by one that says the same. *)
Lemma Safe_word_same {A} t strong o old new (k : bool * Z -> prog A) Q w :
  (is_word old -> MarkWord.GetState old <> STATE_GC ->
     view_of new = view_of old /\ is_word new) ->
  (forall b v w', rely t w w' -> inv w' -> Safe t (k (b, v)) Q w') ->
  Safe t (Bind (AtomicSetMark strong o old new) k) Q w.
Proof.
  intros Hsame Hk. apply Safe_bind_act; [apply rely_refl|apply rely_trans|].
  intros [s g] R' I c. simpl. destruct (_ && _) eqn:Eb.
  2: { exists g. split_and!; [done|apply guar_refl, rely_refl|]. by apply Hk. }
  apply andb_true_iff in Eb as [E%bool_decide_eq_true _].
  pose proof (inv_marks _ I o) as Hm. simpl in Hm. rewrite E in Hm.
  destruct Hsame as [Ev Hw'].
  { apply Hm. }
  { intros Es. pose proof (mi_forward _ Hm) as Hf. unfold view_of in Hf. rewrite Es in Hf.
    by apply (Hf (MarkWord.GetForwardingAddress old)). }
  assert (Hw : forall u, word_step u s o new {| s with marks := <[o := new]> (marks s) |}).
  { intros u. split; [done|..]; rewrite ?E, ?Ev; try done.
    destruct Hm as [? ? ? ?]. split; [done|..]; rewrite Ev; done. }
  exists g. split_and!.
  - by apply (word_ok t s g o new _ I).
  - by apply (word_ok t s g o new _ I).
  - apply Hk; [|by apply (word_ok t s g o new _ I)]. eapply rely_trans; [done|].
    apply (word_ok (t + 1) s g o new _ I); [done|lia].
Qed.

(** ** The life of a monitor *)
Lemma rounds_inr {S R} (n : positive) (f : S -> S + R) x y :
  rounds n f x = inr y -> exists x', f x' = inr y.
Proof.
  revert x. induction n as [n IH|n IH|]; intros x; simpl.
  - destruct (f x) as [z|z] eqn:Ef; [|intros [= ->]; eauto].
    destruct (rounds n f z) as [z'|z'] eqn:Ez; intros E; [eauto|].
    injection E as ->. eauto.
  - destruct (rounds n f x) as [z|z] eqn:Ez; intros E; [eauto|]. injection E as ->. eauto.
  - eauto.
Qed.

Lemma MAX_MONITOR_ID_pos : 0 < MAX_MONITOR_ID.
Proof.
  unfold MAX_MONITOR_ID. layout. rewrite Z.shiftl_1_l.
  assert (2 ^ 1 <= 2 ^ (BITS - 4)); [|lia]. apply Z.pow_le_mono_r; [lia|].
  pose proof layout_count. lia.
Qed.

Lemma next_free_inr used last id :
  next_free used last = inr id -> used !! id = None /\ 0 <= id < MAX_MONITOR_ID.
Proof.
  intros (last' & E)%rounds_inr. simpl in E.
  destruct (used !! ((last' + 1) mod MAX_MONITOR_ID)) eqn:Eu; [done|]. injection E as <-.
  split; [done|]. apply Z.mod_pos_bound, MAX_MONITOR_ID_pos.
Qed.

Lemma Safe_CreateMonitor {A} t o (k : option Z -> prog A) Q w x :
  me t w x -> m_status x = RUNNING -> m_priv x = None ->
  (forall w' p id, inv w' -> me t w' {| x with m_priv := Some p |} -> mine t w' p (newMonitor id o) ->
     Safe t (k (Some p)) Q w') ->
  (forall w', rely t w w' -> inv w' -> Safe t (k None) Q w') ->
  Safe t (Bind (CreateMonitor o) k) Q w.
Proof.
  intros Hme Hrun Hpr Hs Hn. apply Safe_bind_act; [apply rely_refl|apply rely_trans|].
  intros [s g] R' I c. simpl. destruct (next_free (monitors_ s) (lastId_ s)) as [?|id] eqn:En.
  { by right; left. }
  apply next_free_inr in En as [Hid Hr]. destruct (0 <=? c).
  - pose proof (me_rely _ _ _ _ Hme R') as Hme'.
    assert (Hbuild : may_build s t).
    { left. split; [apply Hme|]. by rewrite <- Hrun, <- (me_status _ _ _ Hme'). }
    destruct (create_ok t s g id o I Hid Hr Hbuild) as (I' & G & Ed).
    eexists. split_and!; [exact I'|exact G|]. apply (Hs _ _ id); [exact I'| |].
    + destruct Hme' as [E1 E2 E3 E4 E5 E6 E7 E8 E9 E10 E11]. split; try done.
      * intros o'. cbn [fst]. by rewrite Ed.
      * simpl. intros q Hq. destruct (decide (q = nextAddress s)) as [->|]; [done|].
        rewrite fn_lookup_insert_ne in Hq by done. apply E8 in Hq. congruence.
    + split; simpl; [by rewrite lookup_insert_eq|by rewrite fn_lookup_insert].
  - assert (Hi : inert s {| s with lastId_ := id |}) by by split.
    destruct (inert_ok _ _ g I Hi) as [I' R2]. exists g. split_and!; [done| |].
    + intros u _. apply R2.
    + apply Hn; [|done]. eapply rely_trans; [done|apply R2].
Qed.

(** The only private monitor of the thread ceases to be one. *)
Lemma no_more_private (g : Ghost) t p x :
  m_priv x = Some p -> (forall q, priv g q = Some t -> m_priv x = Some q) ->
  forall q, priv (with_priv p None g) q = Some t -> None = Some q.
Proof.
  intros Hpr E q Hq. simpl in Hq. destruct (decide (q = p)) as [->|].
  - by rewrite fn_lookup_insert in Hq.
  - rewrite fn_lookup_insert_ne in Hq by done. apply E in Hq. congruence.
Qed.

Lemma Safe_FreeMonitor {A} t p M (k : () -> prog A) Q w x :
  me t w x -> mine t w p M -> m_priv x = Some p ->
  (forall w', inv w' -> me t w' {| x with m_priv := None |} -> Safe t (k ()) Q w') ->
  Safe t (Bind (FreeMonitor (id_ M)) k) Q w.
Proof.
  intros Hme Hm Hpr Hk. apply Safe_bind_act; [apply rely_refl|apply rely_trans|].
  intros [s g] R' I c. destruct (mine_rely _ _ _ _ _ Hm R') as [Hp Hv]. simpl in *.
  pose proof (inv_pool _ I p M Hp) as Hid. simpl in Hid. rewrite Hid.
  destruct (free_ok t s g p M I Hp Hv) as (I' & G & Ed).
  eexists. split_and!; [exact I'|exact G|]. apply Hk; [exact I'|].
  destruct (me_rely _ _ _ _ Hme R') as [E1 E2 E3 E4 E5 E6 E7 E8 E9 E10 E11]. split; try done.
  - intros o'. cbn [fst]. by rewrite Ed.
  - by apply (no_more_private g t p x).
Qed.

Lemma Safe_publish {A} t o old p M (k : bool * Z -> prog A) Q w x :
  me t w x -> mine t w p M -> m_priv x = Some p -> obj_ M = o -> ~ is_heavy (view_of old) ->
  (forall u, u <> t -> light_depth (view_of old) u = held_by M u) ->
  (forall h, word_hash (view_of old) = Some h -> hashCode_ M = h /\ h <> 0) ->
  (owner_ M <> None -> recursiveCounter_ M <> 0) ->
  (forall w', inv w' -> m_depth x o = light_depth (view_of old) t ->
     me t w' {| (with_depth x o (held_by M t)) with m_priv := None |} ->
     heap w'.1 !! p = Some M -> priv w'.2 p = None ->
     Safe t (k (true, old)) Q w') ->
  (forall w', rely t w w' -> inv w' -> Safe t (k (false, marks w'.1 o)) Q w') ->
  Safe t (Bind (AtomicSetMark true o old (MarkWord.DecodeFromMonitor old (id_ M))) k) Q w.
Proof.
  intros Hme Hm Hpr Ho Hn Hd Hh Hnz Ht Hf. apply Safe_bind_act; [apply rely_refl|apply rely_trans|].
  intros [s g] R' I c. destruct (mine_rely _ _ _ _ _ Hm R') as [Hp Hv].
  pose proof (me_rely _ _ _ _ Hme R') as Hme'. simpl in *. rewrite andb_true_r.
  case_bool_decide as E.
  2: { exists g. split_and!; [done|apply guar_refl, rely_refl|]. by apply (Hf (s, g)). }
  rewrite <- E in Hn, Hd, Hh.
  pose proof (inv_ids _ I _ _ (inv_pool _ I p M Hp)) as [Hid _]. unfold MAX_MONITOR_ID in Hid.
  destruct (DecodeFromMonitor_view old (id_ M)) as (Ev & _ & Hw).
  { rewrite <- E. apply (inv_marks _ I). }
  { lia. }
  destruct (publish_ok t s g p M o _ I Hp Hv Ho Hn Hw Ev Hd Hh Hnz) as (I' & G & Ed1 & Ed2).
  eexists. split_and!; [exact I'|exact G|]. apply Ht; [exact I'| | | |].
  - pose proof (me_depth _ _ _ Hme' o) as Ed. simpl in Ed. rewrite <- Ed, <- E.
    by apply depth_light.
  - destruct Hme' as [E1 E2 E3 E4 E5 E6 E7 E8 E9 E10 E11]. split; try done; [|by apply (no_more_private g t p x)].
    intros o'. cbn [fst]. simpl. destruct (decide (o' = o)) as [->|Hne].
    + by rewrite fn_lookup_insert, Ed1.
    + by rewrite fn_lookup_insert_ne, Ed2.
  - done.
  - simpl. by rewrite fn_lookup_insert.
Qed.

(** ** Suspension of another thread *)
Lemma suspend_more l n t :
  suspend_inv l n -> t ∈ registered -> t ∉ l -> suspend_inv (t :: l) (u32 (n + 1)).
Proof.
  intros [S1 S2 ->] Ht Hn. assert (Hd : NoDup (t :: l)) by (by apply NoDup_cons_2).
  assert (Hs : t :: l ⊆+ registered).
  { apply NoDup_submseteq; [done|]. by intros v [->|Hv]%elem_of_cons; auto. }
  split; [done|by intros v [->|Hv]%elem_of_cons; auto|].
  apply submseteq_length in Hs. simpl in Hs. pose proof registered_few. simpl length.
  rewrite Nat2Z.inj_succ. apply wrapu_id. split; lia.
Qed.

(** The count goes down when one of the suspenders leaves. *)
Lemma suspend_less l (T : MTManagedThread) t :
  suspend_inv l (suspendCount_ T) -> t ∈ l ->
  exists l', suspend_inv l' (suspendCount_ (ResumeImpl T)) /\ (t ∉ l') /\
             forall v, v <> t -> (v ∈ l' <-> v ∈ l).
Proof.
  intros [S1 S2 S3] [l' E]%elem_of_Permutation. rewrite E in S1, S3. pose proof (NoDup_cons_1_1 _ _ S1) as Hn. apply NoDup_cons_1_2 in S1 as Hd.
  exists l'. split_and!; [|done|].
  - unfold ResumeImpl. simpl in S3. rewrite (proj2 (Z.ltb_lt _ _)) by lia. split; [done| |simpl; lia].
    intros v Hv. apply S2. rewrite E. by right.
  - intros v Hv. rewrite E, elem_of_cons. naive_solver.
Qed.

Lemma me_suspend t u s g x l (T : MTManagedThread) m :
  me t (s, g) x -> status_ T = status_ (threads s u) -> condLock_ T = condLock_ (threads s u) ->
  own_fields T = own_fields (threads s u) -> (forall v, t ∈ <[u := l]> (suspenders g) v <-> fst <$> m = Some v) ->
  (forall v, m <> Some (v, true)) ->
  me t ({| s with threads := <[u := T]> (threads s) |}, with_suspenders u l g) {| x with m_susp := m |}.
Proof.
  intros [E1 E2 E3 E4 E5 E6 E7 E8 E9 E10 E11] F1 F2 F5 F3 F4. split; try done; simpl in *.
  - rewrite <- E2. destruct (decide (t = u)) as [->|]; [by rewrite fn_lookup_insert|].
    by rewrite fn_lookup_insert_ne.
  - intros v Hv. rewrite <- (E7 v Hv). destruct (decide (v = u)) as [->|]; [by rewrite fn_lookup_insert|].
    by rewrite fn_lookup_insert_ne.
  - intros v Hv. by destruct (F4 v).
  - rewrite <- E11. destruct (decide (t = u)) as [->|]; [by rewrite fn_lookup_insert|].
    by rewrite fn_lookup_insert_ne.
Qed.

Lemma Safe_suspend_target {A} t id (k : () + option Z -> prog A) Q w x :
  me t w x -> m_susp x = None ->
  (forall w', inv w' -> me t w' x -> Safe t (k (inl ())) Q w') ->
  (forall w', inv w' -> me t w' x -> Safe t (k (inr None)) Q w') ->
  (forall w', id ∈ registered -> inv w' -> me t w' {| x with m_susp := Some (id, false) |} ->
     Safe t (k (inr (Some id))) Q w') ->
  Safe t (Bind (suspend_target id) k) Q w.
Proof.
  intros Hme Hx Hretry Hnone Hsome. apply Safe_bind_act; [apply rely_refl|apply rely_trans|].
  intros [s g] R I c. simpl. pose proof (me_rely _ _ _ _ Hme R) as Hme'.
  assert (Hsame : forall v : () + option Z, (forall w', inv w' -> me t w' x -> Safe t (k v) Q w') ->
    exists g', inv (s, g') /\ guar rely t (s, g) (s, g') /\ Safe t (k v) Q (s, g')).
  { intros v Hv. exists g. split_and!; [done|apply guar_refl, rely_refl|by apply Hv]. }
  destruct (0 <=? c); simpl; [|by apply Hsame]. destruct (decide (id ∈ registered)) as [Hid|Hid].
  2: { rewrite bool_decide_eq_false_2 by done. by apply Hsame. }
  rewrite bool_decide_eq_true_2 by done. case_bool_decide as Et; [by right; right; left|].
  destruct (IsSuspended (threads s t)); [by apply Hsame|].
  assert (Hn : forall v, t ∉ suspenders g v).
  { intros v Hv. apply (me_susp _ _ _ Hme') in Hv. by rewrite Hx in Hv. }
  destruct (suspend_ok t id s g (t :: suspenders g id) (SuspendImpl (threads s id)) I) as [I' G]; try done.
  { apply suspend_more; [apply (inv_suspend _ I)|apply Hme|apply Hn]. }
  { intros v Hv. rewrite elem_of_cons. naive_solver. }
  eexists. split_and!; [exact I'|exact G|]. apply Hsome; [done|exact I'|].
  apply me_suspend; [done..| |done]. intros v. simpl. destruct (decide (v = id)) as [->|Hv].
  - rewrite fn_lookup_insert. split; [done|]. intros _. by left.
  - rewrite fn_lookup_insert_ne by done. split; [intros E; by destruct (Hn v)|congruence].
Qed.

Lemma Safe_resume {A} t u b (k : () -> prog A) Q w x :
  me t w x -> m_susp x = Some (u, b) ->
  (forall w', inv w' -> me t w' {| x with m_susp := None |} -> Safe t (k ()) Q w') ->
  Safe t (Bind (thread_set u ResumeImpl) k) Q w.
Proof.
  intros Hme Hx Hk. apply Safe_bind_act; [apply rely_refl|apply rely_trans|].
  intros [s g] R I c. simpl. pose proof (me_rely _ _ _ _ Hme R) as Hme'.
  assert (Ht : t ∈ suspenders g u) by (apply (me_susp _ _ _ Hme'); by rewrite Hx).
  destruct (suspend_less (suspenders g u) (threads s u) t (inv_suspend _ I u) Ht) as (l & Hl & Hn & Hv).
  assert (Es : next_ (ResumeImpl (threads s u)) = next_ (threads s u) /\
    status_ (ResumeImpl (threads s u)) = status_ (threads s u) /\
    condLock_ (ResumeImpl (threads s u)) = condLock_ (threads s u) /\
    own_fields (ResumeImpl (threads s u)) = own_fields (threads s u)).
  { unfold ResumeImpl. by destruct (0 <? _). }
  destruct Es as (Es1 & Es2 & Es3 & Es4).
  destruct (suspend_ok t u s g l (ResumeImpl (threads s u)) I Es1 Es2 Es3 Hl Es4 Hv) as [I' G].
  eexists. split_and!; [exact I'|exact G|]. apply Hk; [exact I'|].
  apply me_suspend; [done..| |done]. intros v. simpl. destruct (decide (v = u)) as [->|Hne].
  - rewrite fn_lookup_insert. by split.
  - rewrite fn_lookup_insert_ne by done. split; [|done]. intros E.
    apply (me_susp _ _ _ Hme') in E. rewrite Hx in E. simpl in E. congruence.
Qed.

(** The suspended thread is seen to have stopped. *)
Lemma me_stopped t w x u b :
  me t w x -> m_susp x = Some (u, b) -> status_ (threads w.1 u) <> RUNNING ->
  me t w {| x with m_susp := Some (u, true) |}.
Proof.
  intros [E1 E2 E3 E4 E5 E6 E7 E8 E9 E10 E11] Hx Hs. split; try done; simpl.
  - intros v. by rewrite E9, Hx.
  - intros v [= ->]. done.
Qed.

End Rules.
