(* ===== verification/MonitorLists.v ===== *)
(** Rules for the two thread lists of a monitor whose mutex is held.

    The lists are linked through a field of the threads, so that each step of a
    list operation changes one head or one link.  The auxiliary lists of
    [locked] follow them: between the two steps of a move the element is in
    limbo, or in both lists, and the thread is marked busy. *)
From stdpp Require Import base list gmap functions sets.
From S2P Require Import Prelude MarkWord Threads Monitor MonitorInv MonitorRules.
Local Open Scope Z_scope.
Local Open Scope ark_scope.
Local Open Scope prog_scope.

Lemma links_head {K} (nx : K -> option (option K)) h l : links nx h l -> h = head l.
Proof. by destruct 1. Qed.

Lemma links_tail {K} (nx : K -> option (option K)) h u l :
  links nx h (u :: l) -> exists n, nx u = Some n /\ links nx n l.
Proof. inversion 1; simplify_eq. eauto. Qed.

Lemma NoDup_middle_out {K} (l l' : list K) u : NoDup (l ++ u :: l') -> (u ∉ l) /\ (u ∉ l').
Proof.
  induction l as [|v l IH]; simpl; intros Hnd.
  - split; [by intros ?%elem_of_nil|by apply NoDup_cons_1_1].
  - pose proof (NoDup_cons_1_1 _ _ Hnd) as Hv. apply NoDup_cons_1_2 in Hnd.
    destruct (IH Hnd) as [H1 H2]. split; [|done]. intros [->|?]%elem_of_cons; [|done].
    apply Hv, elem_of_app. right. by left.
Qed.

Section Lists.
Context `{MemoryModelConfig} `{!ConfigLayout} `{Build} `{!BuildOk}.
Context (strict : bool).
Abbreviation Safe := (Safe inv rely (tolerated strict)).

(** One of the two lists. *)
Definition sel (l : which) (W T : list Z) : list Z := match l with WAITERS => W | TO_WAKEUP => T end.

(** The auxiliary state with new lists at [p]. *)
Definition relist (t p : Z) (W T B : list Z) (b : option Z) (g : Ghost) : Ghost :=
  {| g with chain := fun l q => if decide (q = p) then sel l W T else chain g l q;
            limbo := <[p := B]> (limbo g);
            busy := <[t := b]> (busy g) |}.

Definition in_lists (u : Z) (W T B : list Z) : Prop := u ∈ W \/ u ∈ T \/ u ∈ B.

Lemma chain_relist t p W T B b g l : chain (relist t p W T B b g) l p = sel l W T.
Proof. simpl. by rewrite decide_True. Qed.

Lemma chain_relist_other t p W T B b g l q :
  q <> p -> chain (relist t p W T B b g) l q = chain g l q.
Proof. intros. simpl. by rewrite decide_False. Qed.

Lemma member_relist t p W T B b g u : member (relist t p W T B b g) u p <-> in_lists u W T B.
Proof.
  unfold member, in_lists. setoid_rewrite chain_relist. simpl. rewrite fn_lookup_insert. split.
  - intros [[[] Hu]|Hu]; auto.
  - intros [Hu|[Hu|Hu]]; [left; by exists WAITERS|left; by exists TO_WAKEUP|by right].
Qed.

Lemma member_relist_other t p W T B b g u q :
  q <> p -> member (relist t p W T B b g) u q <-> member g u q.
Proof.
  intros Hq. unfold member. setoid_rewrite (chain_relist_other _ _ _ _ _ _ _ _ q Hq). simpl.
  by rewrite fn_lookup_insert_ne.
Qed.

Lemma locked_member t w p o ow c W T B M u :
  locked t w p o ow c W T B M -> member w.2 u p <-> in_lists u W T B.
Proof.
  intros [_ _ _ _ _ _ E7 E8 E9]. unfold member, in_lists. rewrite E9. split.
  - intros [[[] Hu]|Hu]; rewrite ?E7, ?E8 in *; auto.
  - intros [Hu|[Hu|Hu]]; [left; exists WAITERS; by rewrite E7|left; exists TO_WAKEUP; by rewrite E8|].
    by right.
Qed.

Lemma locked_links t w p o ow c W T B M l :
  inv w -> locked t w p o ow c W T B M -> links (next_in w.1) (head_of l M) (sel l W T).
Proof.
  intros I [E1 _ _ _ _ _ E7 E8 _]. pose proof (ls_links _ _ _ _ (inv_lists _ I p M E1) l) as L.
  destruct l; simpl in *; [by rewrite <- E7|by rewrite <- E8].
Qed.

(** What a step on the lists changes. *)
Record list_step (t : Z) (s s' : Store) (g : Ghost) (p : Z) (M M' : Monitor) : Prop := {
  st_marks : marks s' = marks s;
  st_pool : monitors_ s' = monitors_ s;
  st_next : nextAddress s' = nextAddress s;
  st_seed : g_hashSeed s' = g_hashSeed s;
  st_writer : mutatorWriter s' = mutatorWriter s;
  st_heap : heap s' = <[p := M']> (heap s);
  st_status : forall u, status_ (threads s' u) = status_ (threads s u);
  st_link : forall u, next_ (threads s' u) = next_ (threads s u) \/
    (u = t /\ forall q, ~ member g t q) \/ member g u p;
  st_cond : forall u, condLock_ (threads s' u) = condLock_ (threads s u);
  st_suspend : forall u, suspendCount_ (threads s' u) = suspendCount_ (threads s u);
  st_own : forall u, own_fields (threads s' u) = own_fields (threads s u);
  st_monitor : exists h1 h2, M' = {| M with waiters_ := h1; toWakeup_ := h2 |};
}.

Lemma relist_ok t s s' g p o ow c W T B M M' W' T' B' b x at' :
  inv (s, g) -> locked t (s, g) p o ow c W T B M -> me t (s, g) x -> list_step t s s' g p M M' ->
  m_busy x = None \/ m_busy x = Some p -> b = None \/ b = Some p ->
  m_at x = None \/ m_at x = Some p ->
  links (next_in s') (waiters_ M') W' -> links (next_in s') (toWakeup_ M') T' ->
  (forall u, in_lists u W' T' B' -> in_lists u W T B \/ (u = t /\ m_at x = None)) ->
  (b = None -> B' = [] /\ disjoint_lists W' T') ->
  (in_lists t W' T' B' -> at' = Some p) ->
  (b = None -> m_busy x = None \/ (ow = Some t -> c <> 0)) ->
  let g' := relist t p W' T' B' b g in
  inv (s', g') /\ guar rely t (s, g) (s', g') /\
  me t (s', g') {| x with m_busy := b; m_at := at' |} /\
  locked t (s', g') p o ow c W' T' B' M'.
Proof.
  intros I Hl Hme [S1 S2 S3 S4 S5 S6 S7 S8 S9 S10 S11 [h1 [h2 ->]]] Hb Hb' Hat L1 L2 Hin Hclean Hat' Hz g'.
  set (M' := {| M with waiters_ := h1; toWakeup_ := h2 |}) in *.
  assert (Hmem : forall u, member g u p <-> in_lists u W T B).
  { intros u. exact (locked_member _ _ _ _ _ _ _ _ _ _ u Hl). }
  pose proof (me_at _ _ _ Hme) as Hmat. pose proof (me_busy _ _ _ Hme) as Hmb. simpl in Hmat, Hmb.
  destruct Hl as [E1 E2 E3 E4 E5 E6 E7 E8 E9]. simpl in *.
  pose proof (inv_lock _ I p M E1) as [K1 K2 K3].
  assert (Hbusy : forall u, busy g' u = Some p -> u = t).
  { intros u Hu. destruct (decide (u = t)) as [->|Hn]; [done|]. simpl in Hu.
    rewrite fn_lookup_insert_ne in Hu by done.
    destruct (inv_busy _ I u p Hu) as [_ (N & Hp & Hlu)]. simpl in *. congruence. }
  assert (L : local_step t s g p M s' g' M').
  { split; try done.
    - apply (inv_hash _ I p M E1).
    - simpl. by apply (inv_counter _ I p M).
    - apply (inv_cnt _ I).
    - intros u Hu. simpl. by rewrite fn_lookup_insert_ne.
    - intros q Hq. simpl. rewrite fn_lookup_insert, Hmb.
      destruct Hb as [Eb|Eb], Hb' as [Eb'|Eb']; rewrite Eb, Eb'; split; congruence.
    - intros u Hu. rewrite (Hbusy u Hu). done.
    - intros l q Hq. by apply chain_relist_other.
    - intros q Hq. simpl. by rewrite fn_lookup_insert_ne.
    - intros u Hu%member_relist. destruct (Hin u Hu) as [Hu'|[-> Hn]]; [left; by apply Hmem|].
      right. split; [done|]. intros q Hq%Hmat. congruence.
    - split.
      + intros l. unfold g'. rewrite chain_relist. by destruct l.
      + intros u Hu%member_relist. simpl. destruct (Hin u Hu) as [Hu'|[-> Hn]]; [|by right].
        apply (ls_member _ _ _ _ (inv_lists _ I p M E1)). by apply Hmem.
      + intros Hc. unfold g'. rewrite !chain_relist. simpl. rewrite fn_lookup_insert.
        apply Hclean. destruct Hb' as [->| ->]; [done|]. destruct (Hc t E4). simpl.
        by rewrite fn_lookup_insert.
    - intros u. congruence.
    - intros _ u Hu Hlu. simpl in Hlu. congruence.
    - intros _ u Ho Hc0. simpl in Ho, Hc0. pose proof (K1 u Ho) as Hlu.
      assert (u = t) as -> by congruence. simpl. rewrite fn_lookup_insert.
      destruct Hb' as [Eb|Eb]; [exfalso|done]. destruct (Hz Eb) as [Hn|Hn]; [|by apply Hn; congruence].
      pose proof (inv_owned _ I p M t E1 E2 Ho Hc0) as Hb2. simpl in Hb2. congruence. }
  destruct (local_ok _ _ _ _ _ _ _ _ I E1 L) as [I' G]. split_and!; [done..| |].
  - eapply (me_local t s g p M); [exact I|exact E1|exact L|exact Hme|done|done|done|done|done|..]; simpl.
    + apply (me_cnt _ _ _ Hme).
    + by rewrite fn_lookup_insert.
    + intros q. destruct (decide (q = p)) as [->|Hq].
      * intros Hu%member_relist. auto.
      * intros Hu%member_relist_other; [|done]. apply Hmat in Hu.
        destruct Hat; congruence.
    + intros o'. case_decide as E; [|done]. destruct E as [_ ->].
      rewrite <- (me_depth _ _ _ Hme). by rewrite (depth_published (s, g) p M t I E1 E2).
  - split; try done; simpl; rewrite ?decide_True by done; try done.
    + by rewrite S6, lookup_insert_eq.
    + by rewrite fn_lookup_insert.
Qed.


(** ** The elementary steps *)
Definition putW (l : which) (C W : list Z) : list Z := match l with WAITERS => C | TO_WAKEUP => W end.
Definition putT (l : which) (C T : list Z) : list Z := match l with WAITERS => T | TO_WAKEUP => C end.

Lemma Safe_GetHead {A} t p l (k : option Z -> prog A) Q w o ow c W T B M0 :
  locked t w p o ow c W T B M0 ->
  (forall w' M, rely t w w' -> inv w' -> locked t w' p o ow c W T B M ->
     Safe t (k (head (sel l W T))) Q w') ->
  Safe t (Bind (GetHead p l) k) Q w.
Proof.
  intros Hl Hk. apply Safe_monitor_get. intros w' R' I.
  destruct (locked_rely _ _ _ _ _ _ _ _ _ _ _ Hl R') as [M Hl']. exists M. split; [apply Hl'|].
  rewrite (links_head _ _ _ (locked_links _ _ _ _ _ _ _ _ _ _ l I Hl')). eauto.
Qed.

Lemma Safe_SetHead {A} t p l h (k : () -> prog A) Q w o ow c W T B M0 x C B' b at' :
  locked t w p o ow c W T B M0 -> me t w x ->
  m_busy x = None \/ m_busy x = Some p -> b = None \/ b = Some p ->
  m_at x = None \/ m_at x = Some p ->
  (forall s g M, rely t w (s, g) -> inv (s, g) -> locked t (s, g) p o ow c W T B M ->
     links (next_in s) h C) ->
  (forall u, in_lists u (putW l C W) (putT l C T) B' ->
     in_lists u W T B \/ (u = t /\ m_at x = None)) ->
  (b = None -> B' = [] /\ disjoint_lists (putW l C W) (putT l C T)) ->
  (in_lists t (putW l C W) (putT l C T) B' -> at' = Some p) ->
  (b = None -> m_busy x = None \/ (ow = Some t -> c <> 0)) ->
  (forall w' M', inv w' -> me t w' {| x with m_busy := b; m_at := at' |} ->
     locked t w' p o ow c (putW l C W) (putT l C T) B' M' ->
     (exists s g M, inv (s, g) /\ locked t (s, g) p o ow c W T B M /\
        forall u, next_ (threads w'.1 u) = next_ (threads s u)) -> Safe t (k ()) Q w') ->
  Safe t (Bind (SetHead p l h) k) Q w.
Proof.
  intros Hl Hme Hb Hb' Hat HC Hin Hcl Hat' Hz Hk. apply Safe_monitor_act. intros s g R' I.
  destruct (locked_rely _ _ _ _ _ _ _ _ _ _ _ Hl R') as [M Hl'].
  pose proof (me_rely _ _ _ _ Hme R') as Hme'.
  exists M. split; [apply Hl'|]. intros ch.
  assert (St : list_step t s (upd s p (with_head l h M)) g p M (with_head l h M)).
  { split; try done; [by left|]. destruct l; [exists h, (toWakeup_ M)|exists (waiters_ M), h]; done. }
  pose proof (locked_links _ _ _ _ _ _ _ _ _ _ WAITERS I Hl') as LW.
  pose proof (locked_links _ _ _ _ _ _ _ _ _ _ TO_WAKEUP I Hl') as LT. simpl in LW, LT.
  specialize (HC s g M R' I Hl').
  destruct (relist_ok t s _ g p o ow c W T B M _ (putW l C W) (putT l C T) B' b x at' I Hl' Hme' St
    Hb Hb' Hat) as (I' & G & Hme2 & Hl2); try done.
  - by destruct l.
  - by destruct l.
  - eexists. split_and!; [exact I'|exact G|]. eapply Hk; [done..|]. by exists s, g, M.
Qed.

(** A link is set: of the thread itself while it is in no list, or of an
    element of the monitor's lists. *)
Lemma Safe_SetWaitNext {A} t p u n (k : () -> prog A) Q w o ow c W T B M0 x W' T' b :
  locked t w p o ow c W T B M0 -> me t w x ->
  m_busy x = None \/ m_busy x = Some p -> b = None \/ b = Some p ->
  m_at x = None \/ m_at x = Some p ->
  (u = t /\ m_at x = None) \/ in_lists u W T B ->
  (forall s h1 h2, links (next_in s) h1 W -> links (next_in s) h2 T ->
     let nx v := if decide (v = u) then Some n else next_in s v in
     links nx h1 W' /\ links nx h2 T') ->
  (forall v, in_lists v W' T' B -> in_lists v W T B) ->
  (b = None -> B = [] /\ disjoint_lists W' T') ->
  (b = None -> m_busy x = None \/ (ow = Some t -> c <> 0)) ->
  (forall w' M', inv w' -> me t w' {| x with m_busy := b |} -> next_ (threads w'.1 u) = n ->
     locked t w' p o ow c W' T' B M' -> Safe t (k ()) Q w') ->
  Safe t (Bind (SetWaitNext u n) k) Q w.
Proof.
  intros Hl Hme Hb Hb' Hat Hu HC Hin Hcl Hz Hk. apply Safe_bind_act; [apply rely_refl|apply rely_trans|].
  intros [s g] R' I ch. simpl.
  destruct (locked_rely _ _ _ _ _ _ _ _ _ _ _ Hl R') as [M Hl'].
  pose proof (me_rely _ _ _ _ Hme R') as Hme'.
  set (s' := {| s with threads := <[u:={| (threads s u) with next_ := n |}]> (threads s) |}).
  assert (Hnx : forall v, next_in s' v = if decide (v = u) then Some n else next_in s v).
  { intros v. unfold next_in. simpl. case_decide as E; [subst; by rewrite fn_lookup_insert|].
    by rewrite fn_lookup_insert_ne. }
  assert (St : list_step t s s' g p M M).
  { split; try done.
    - simpl. rewrite insert_id; [done|apply Hl'].
    - intros v. simpl. destruct (decide (v = u)) as [->|]; [by rewrite fn_lookup_insert|].
      by rewrite fn_lookup_insert_ne.
    - intros v. destruct (decide (v = u)) as [->|].
      + right. destruct Hu as [[-> Hu]|Hu].
        * left. split; [done|]. intros q Hq%(me_at _ _ _ Hme'). congruence.
        * right. by apply (locked_member _ _ _ _ _ _ _ _ _ _ u Hl').
      + left. simpl. by rewrite fn_lookup_insert_ne.
    - intros v. simpl. destruct (decide (v = u)) as [->|]; [by rewrite fn_lookup_insert|].
      by rewrite fn_lookup_insert_ne.
    - intros v. simpl. destruct (decide (v = u)) as [->|]; [by rewrite fn_lookup_insert|].
      by rewrite fn_lookup_insert_ne.
    - intros v. simpl. destruct (decide (v = u)) as [->|]; [by rewrite fn_lookup_insert|].
      by rewrite fn_lookup_insert_ne.
    - exists (waiters_ M), (toWakeup_ M). by destruct M. }
  pose proof (locked_links _ _ _ _ _ _ _ _ _ _ WAITERS I Hl') as LW.
  pose proof (locked_links _ _ _ _ _ _ _ _ _ _ TO_WAKEUP I Hl') as LT. simpl in LW, LT.
  destruct (HC s _ _ LW LT) as [LW' LT'].
  destruct (relist_ok t s s' g p o ow c W T B M M W' T' B b x (m_at x) I Hl' Hme' St
    Hb Hb' Hat) as (I' & G & Hme2 & Hl2).
  - eapply links_ext; [|exact LW']. intros v _. apply Hnx.
  - eapply links_ext; [|exact LT']. intros v _. apply Hnx.
  - intros v Hv. left. auto.
  - done.
  - intros Ht%Hin%(locked_member _ _ _ _ _ _ _ _ _ _ t Hl'). by apply (me_at _ _ _ Hme').
  - done.
  - eexists. split_and!; [exact I'|exact G|]. eapply Hk; [exact I'| | |exact Hl2].
    + destruct x. exact Hme2.
    + simpl. by rewrite fn_lookup_insert.
Qed.

(** A link of an element is read. *)
Lemma Safe_GetNextWait {A} t p l u C1 C2 (k : option Z -> prog A) Q w o ow c W T B M0 :
  locked t w p o ow c W T B M0 -> sel l W T = C1 ++ u :: C2 ->
  (forall w' M, rely t w w' -> inv w' -> locked t w' p o ow c W T B M ->
     Safe t (k (head C2)) Q w') ->
  Safe t (Bind (GetNextWait u) k) Q w.
Proof.
  intros Hl E Hk. apply Safe_thread_get. intros w' R' I.
  destruct (locked_rely _ _ _ _ _ _ _ _ _ _ _ Hl R') as [M Hl'].
  pose proof (locked_links _ _ _ _ _ _ _ _ _ _ l I Hl') as L.
  destruct (links_tail _ _ _ _ (links_suffix _ _ _ _ _ _ L E)) as (n & En & Ln).
  unfold next_in in En. injection En as ->. rewrite (links_head _ _ _ Ln). eauto.
Qed.

(** A link known to a thread that holds the mutex stays. *)
Lemma next_stays t w w' p o ow c W T B M u n x :
  locked t w p o ow c W T B M -> me t w x -> rely t w w' ->
  (u = t /\ m_at x = None) \/ in_lists u W T B ->
  next_ (threads w.1 u) = n -> next_ (threads w'.1 u) = n.
Proof.
  intros Hl Hme R' [[-> Hu]|Hu] <-.
  - apply (r_next _ _ _ R'). intros q Hq%(me_at _ _ _ Hme). congruence.
  - destruct (r_monitor _ _ _ R' p M) as [M' K]; try apply Hl.
    { right; right; left. apply Hl. }
    apply (km_held _ _ _ _ _ _ K (lk_lock _ _ _ _ _ _ _ _ _ _ Hl)).
    by apply (locked_member _ _ _ _ _ _ _ _ _ _ u Hl).
Qed.

(** ** The operations *)
Lemma Safe_Empty {A} t p l (k : bool -> prog A) Q w o ow c W T B M0 :
  locked t w p o ow c W T B M0 ->
  (forall w' M, rely t w w' -> inv w' -> locked t w' p o ow c W T B M ->
     Safe t (k (head (sel l W T) == None)) Q w') ->
  Safe t (Bind (Empty p l) k) Q w.
Proof.
  intros Hl Hk. seq. eapply Safe_GetHead; [done|]. intros w' M R' I Hl'.
  apply Safe_bind_ret. eauto.
Qed.

Lemma Safe_Front {A} t p l u C (k : Z -> prog A) Q w o ow c W T B M0 :
  locked t w p o ow c W T B M0 -> sel l W T = u :: C ->
  (forall w' M, rely t w w' -> inv w' -> locked t w' p o ow c W T B M -> Safe t (k u) Q w') ->
  Safe t (Bind (Front p l) k) Q w.
Proof.
  intros Hl E Hk. seq. eapply Safe_GetHead; [done|]. intros w' M R' I Hl'. rewrite E. simpl.
  apply Safe_bind_ret. eauto.
Qed.

Lemma locked_at t w p o ow c W T B M x :
  locked t w p o ow c W T B M -> me t w x -> in_lists t W T B -> m_at x = Some p.
Proof.
  intros Hl Hme Ht. apply (me_at _ _ _ Hme). by apply (locked_member _ _ _ _ _ _ _ _ _ _ t Hl).
Qed.

(** The first element is taken off; it is dropped, or kept in limbo. *)
Lemma Safe_PopFront {A} t p l u C (keep : bool) (k : () -> prog A) Q w o ow c W T M0 x :
  locked t w p o ow c W T [] M0 -> me t w x -> sel l W T = u :: C ->
  m_busy x = None -> m_at x = None \/ m_at x = Some p -> disjoint_lists W T ->
  (forall w' M, inv w' -> me t w' {| x with m_busy := if keep then Some p else None |} ->
     locked t w' p o ow c (putW l C W) (putT l C T) (if keep then [u] else []) M ->
     Safe t (k ()) Q w') ->
  Safe t (Bind (PopFront p l) k) Q w.
Proof.
  intros Hl Hme E Hb Hat Hdis Hk. seq. eapply Safe_GetHead; [done|]. intros w1 M1 R1 I1 Hl1.
  pose proof (me_rely _ _ _ _ Hme R1) as Hme1. rewrite E. simpl. seq.
  eapply (Safe_GetNextWait t p l u [] C); [exact Hl1|done|]. intros w2 M2 R2 I2 Hl2.
  pose proof (me_rely _ _ _ _ Hme1 R2) as Hme2.
  assert (Hsub : forall v, v ∈ C -> v ∈ sel l W T) by (intros v Hv; rewrite E; by right).
  assert (Hin : forall v, in_lists v (putW l C W) (putT l C T) (if keep then [u] else []) ->
                          in_lists v W T []).
  { intros v Hv. assert (v ∈ sel l W T \/ v ∈ W \/ v ∈ T) as Hc.
    { destruct Hv as [Hv|[Hv|Hv]]; [destruct l; simpl in *; auto..|].
      destruct keep; [|by apply elem_of_nil in Hv]. apply list_elem_of_singleton in Hv as ->.
      left. rewrite E. by left. }
    unfold in_lists. destruct l; simpl in *; tauto. }
  eapply Safe_SetHead with (x := x) (C := C) (B' := if keep then [u] else [])
    (b := if keep then Some p else None) (at' := m_at x); try done.
  - by left.
  - destruct keep; auto.
  - intros s g M R' I Hl'. pose proof (locked_links _ _ _ _ _ _ _ _ _ _ l I Hl') as L.
    rewrite E in L. destruct (links_tail _ _ _ _ L) as (n & En & Ln). simpl in *.
    by rewrite <- (links_head _ _ _ Ln).
  - intros v Hv. left. auto.
  - destruct keep; [done|]. intros _. split; [done|]. intros v HW HT. apply (Hdis v).
    + destruct l; simpl in *; auto.
    + destruct l; simpl in *; auto.
  - intros Ht. eapply locked_at; [exact Hl2|exact Hme2|]. auto.
  - by left.
  - intros w' M' I' Hme' Hl' _. eapply Hk; [done| |exact Hl']. by destruct x.
Qed.

(** The thread itself is put in front. *)
Lemma Safe_PushFront_self {A} t p l (k : () -> prog A) Q w o ow c W T M0 x :
  locked t w p o ow c W T [] M0 -> me t w x -> m_busy x = None -> m_at x = None ->
  disjoint_lists W T ->
  (forall w' M, inv w' -> me t w' {| x with m_at := Some p |} ->
     locked t w' p o ow c (putW l (t :: W) W) (putT l (t :: T) T) [] M ->
     disjoint_lists (putW l (t :: W) W) (putT l (t :: T) T) -> Safe t (k ()) Q w') ->
  Safe t (Bind (PushFront p l t) k) Q w.
Proof.
  intros Hl Hme Hb Hat Hdis Hk. seq. eapply Safe_GetHead; [done|]. intros w1 M1 R1 I1 Hl1.
  pose proof (me_rely _ _ _ _ Hme R1) as Hme1. seq.
  assert (Hnot : forall w M, locked t w p o ow c W T [] M -> me t w x -> ~ in_lists t W T []).
  { intros w0 M Hl0 Hme0 Ht. pose proof (locked_at _ _ _ _ _ _ _ _ _ _ _ Hl0 Hme0 Ht). congruence. }
  assert (Hout := Hnot _ _ Hl1 Hme1).
  eapply Safe_SetWaitNext with (x := x) (W' := W) (T' := T) (b := None); try done; try (by auto).
  - intros s h1 h2 L1 L2. split; (eapply links_ext; [|done]); intros v Hv; simpl;
      rewrite decide_False; try done; intros ->; apply Hout; unfold in_lists; auto.
  - intros w2 M2 I2 Hme2 Hn2 Hl2.
    assert (Hx : {| x with m_busy := None |} = x) by (destruct x; simpl in *; by subst).
    rewrite Hx in Hme2.
    assert (Hdis' : disjoint_lists (putW l (t :: W) W) (putT l (t :: T) T)).
    { intros v Hv1 Hv2. unfold in_lists in Hout. destruct l; simpl in *.
      - apply elem_of_cons in Hv1 as [->|Hv1]; [tauto|by eapply Hdis].
      - apply elem_of_cons in Hv2 as [->|Hv2]; [tauto|by eapply Hdis]. }
    eapply Safe_SetHead with (x := x) (C := t :: sel l W T) (B' := []) (b := None) (at' := Some p);
      try done; try (by auto).
    + intros s g M R' I Hl'. pose proof (locked_links _ _ _ _ _ _ _ _ _ _ l I Hl') as L.
      rewrite (links_head _ _ _ L) in L. apply (links_cons _ _ (head (sel l W T))); [|done].
      unfold next_in. f_equal.
      apply (next_stays _ _ _ _ _ _ _ _ _ _ _ t _ x Hl2 Hme2 R'); auto.
    + intros v Hv. unfold in_lists in *. destruct l; simpl in *; rewrite elem_of_cons in Hv; tauto.
    + intros _. split; [done|]. by destruct l.
    + intros w' M' I' Hme' Hl' _. eapply Hk; [done| | |done].
      * destruct x. simpl in *. by subst.
      * by destruct l.
Qed.

(** The element in limbo is put in front. *)
Lemma Safe_PushFront_limbo {A} t p l u (k : () -> prog A) Q w o ow c W T M0 x :
  locked t w p o ow c W T [u] M0 -> me t w x -> m_busy x = Some p ->
  m_at x = None \/ m_at x = Some p -> u ∉ W -> u ∉ T -> disjoint_lists W T ->
  (ow = Some t -> c <> 0) ->
  (forall w' M, inv w' -> me t w' {| x with m_busy := None |} ->
     locked t w' p o ow c (putW l (u :: W) W) (putT l (u :: T) T) [] M -> Safe t (k ()) Q w') ->
  Safe t (Bind (PushFront p l u) k) Q w.
Proof.
  intros Hl Hme Hb Hat HuW HuT Hdis Hz Hk. seq. eapply Safe_GetHead; [done|]. intros w1 M1 R1 I1 Hl1.
  pose proof (me_rely _ _ _ _ Hme R1) as Hme1. seq.
  assert (Hu : in_lists u W T [u]) by (right; right; by left).
  eapply Safe_SetWaitNext with (x := x) (W' := W) (T' := T) (b := Some p); try done; try (by auto).
  - intros s h1 h2 L1 L2. split; (eapply links_ext; [|done]); intros v Hv; simpl;
      rewrite decide_False; try done; intros ->; auto.
  - intros w2 M2 I2 Hme2 Hn2 Hl2.
    assert (Hx : {| x with m_busy := Some p |} = x) by (destruct x; simpl in *; by subst).
    rewrite Hx in Hme2.
    eapply Safe_SetHead with (x := x) (C := u :: sel l W T) (B' := []) (b := None) (at' := m_at x);
      try done; try (by auto).
    + intros s g M R' I Hl'. pose proof (locked_links _ _ _ _ _ _ _ _ _ _ l I Hl') as L.
      rewrite (links_head _ _ _ L) in L. apply (links_cons _ _ (head (sel l W T))); [|done].
      unfold next_in. f_equal.
      apply (next_stays _ _ _ _ _ _ _ _ _ _ _ u _ x Hl2 Hme2 R'); auto.
    + intros v Hv. left. unfold in_lists in *. rewrite list_elem_of_singleton.
      destruct l; simpl in *; rewrite elem_of_cons in Hv; rewrite elem_of_nil in Hv; tauto.
    + intros _. split; [done|]. intros v Hv1 Hv2. destruct l; simpl in *.
      * apply elem_of_cons in Hv1 as [->|Hv1]; [done|by eapply Hdis].
      * apply elem_of_cons in Hv2 as [->|Hv2]; [done|by eapply Hdis].
    + intros Ht. eapply locked_at; [exact Hl2|exact Hme2|]. unfold in_lists in *.
      rewrite list_elem_of_singleton.
      destruct l; simpl in *; rewrite elem_of_cons in Ht; rewrite elem_of_nil in Ht; tauto.
    + intros w' M' I' Hme' Hl' _. eapply Hk; [done| |].
      * by destruct x.
      * by destruct l.
Qed.

(** All waiters move to the empty second list. *)
Lemma locked_nonzero t w p o ow c W T B M x :
  inv w -> locked t w p o ow c W T B M -> me t w x -> m_busy x = None -> ow = Some t -> c <> 0.
Proof.
  intros I Hl Hme Hb ->. assert (0 < c); [|lia]. eapply locked_owned; [done..|]. by rewrite Hb.
Qed.

Lemma Safe_Swap {A} t p (k : () -> prog A) Q w o ow c W M0 x :
  locked t w p o ow c W [] [] M0 -> me t w x -> m_busy x = None ->
  m_at x = None \/ m_at x = Some p ->
  (forall w' M, inv w' -> me t w' x -> locked t w' p o ow c [] W [] M -> Safe t (k ()) Q w') ->
  Safe t (Bind (Swap p TO_WAKEUP WAITERS) k) Q w.
Proof.
  intros Hl Hme Hb Hat Hk. seq. eapply Safe_GetHead; [done|]. intros w1 M1 R1 I1 Hl1.
  pose proof (me_rely _ _ _ _ Hme R1) as Hme1. seq.
  eapply Safe_GetHead; [done|]. intros w2 M2 R2 I2 Hl2.
  pose proof (me_rely _ _ _ _ Hme1 R2) as Hme2. seq. simpl.
  pose proof (locked_nonzero _ _ _ _ _ _ _ _ _ _ _ I2 Hl2 Hme2 Hb) as Hz.
  eapply Safe_SetHead with (x := x) (C := W) (B' := []) (b := Some p) (at' := m_at x);
    try done; try (by auto).
  - intros s g M R' I Hl'. pose proof (locked_links _ _ _ _ _ _ _ _ _ _ WAITERS I Hl') as L.
    by rewrite (links_head _ _ _ L) in L.
  - intros v Hv. left. unfold in_lists in *. simpl in Hv. tauto.
  - intros Ht. eapply locked_at; [exact Hl2|exact Hme2|]. unfold in_lists in *. simpl in Ht. tauto.
  - simpl. intros w3 M3 I3 Hme3 Hl3 _.
    eapply Safe_SetHead with (C := []) (B' := []) (b := None) (at' := m_at x);
      [exact Hl3|exact Hme3|by right|by left|done|..]; simpl.
    + intros. apply links_nil.
    + intros v Hv. left. unfold in_lists in *. rewrite elem_of_nil in Hv. tauto.
    + intros _. split; [done|]. by intros v ?%elem_of_nil.
    + intros Ht. eapply (locked_at _ _ _ _ _ _ _ _ _ _ _ Hl3 Hme3). unfold in_lists in *.
      rewrite elem_of_nil in Ht. tauto.
    + by right.
    + intros w4 M4 I4 Hme4 Hl4 _. eapply Hk; [done| |exact Hl4]. destruct x. simpl in *. by subst.
Qed.

Lemma links_snoc_link {K} (nx nx' : K -> option (option K)) h l u n l' :
  (forall v, v <> u -> nx' v = nx v) -> nx' u = Some n -> u ∉ l ->
  links nx h (l ++ [u]) -> links nx' n l' -> links nx' h (l ++ u :: l').
Proof.
  intros Ho Hu. revert h. induction l as [|v l IH]; intros h Hn L L'; simpl in *.
  - inversion L; simplify_eq. by apply (links_cons _ _ n).
  - apply not_elem_of_cons in Hn as [Hv Hn]. inversion L as [|? n' ? En Ln]; simplify_eq.
    apply (links_cons _ _ n'); [by rewrite Ho|]. by apply IH.
Qed.

(** The waiters are appended to the second list, which has a last element. *)
Lemma Safe_Splice {A} t p (k : () -> prog A) Q w o ow c W T u M0 x :
  locked t w p o ow c W (T ++ [u]) [] M0 -> me t w x -> m_busy x = None ->
  m_at x = None \/ m_at x = Some p -> disjoint_lists W (T ++ [u]) ->
  (forall w' M, inv w' -> me t w' x -> locked t w' p o ow c [] ((T ++ [u]) ++ W) [] M ->
     Safe t (k ()) Q w') ->
  Safe t (Bind (Splice p TO_WAKEUP WAITERS) k) Q w.
Proof.
  intros Hl Hme Hb Hat Hdis Hk. seq. eapply Safe_Empty; [done|]. intros w1 M1 R1 I1 Hl1.
  pose proof (me_rely _ _ _ _ Hme R1) as Hme1. simpl.
  destruct (T ++ [u]) as [|h T1] eqn:ET; [by destruct T|]. rewrite <- ET in *.
  rewrite bool_decide_eq_false_2 by (by rewrite ET). seq. seq.
  eapply (Safe_Front t p TO_WAKEUP h T1); [exact Hl1|done|]. intros w2 M2 R2 I2 Hl2.
  pose proof (me_rely _ _ _ _ Hme1 R2) as Hme2. seq.
  (* the loop stops at the last element *)
  apply Safe_bind_loop with (J := fun last w => me t w x /\
    (exists M, locked t w p o ow c W (T ++ [u]) [] M) /\
    exists C1 C2, T ++ [u] = C1 ++ last :: C2).
  { apply rely_refl. } { apply rely_trans. }
  2: { intros last w' w3 (Hm & (M & HM) & HC) R I. split_and!; [by eapply me_rely| |done].
       by eapply locked_rely. }
  2: { split_and!; [done|by eexists|]. exists [], T1. by rewrite ET. }
  intros last w' (Hm & (M & HM) & C1 & C2 & HC).
  eapply (Safe_GetNextWait t p TO_WAKEUP last C1 C2); [exact HM|done|]. intros w3 M3 R3 I3 Hl3.
  pose proof (me_rely _ _ _ _ Hm R3) as Hm3.
  apply Safe_ret. intros w4 R4 I4. destruct C2 as [|n C2]; simpl.
  2: { destruct (locked_rely _ _ _ _ _ _ _ _ _ _ _ Hl3 R4) as [M4 Hl4].
       split_and!; [by eapply me_rely|by eexists|]. exists (C1 ++ [last]), C2.
       by rewrite HC, <- app_assoc. }
  apply app_inj_2 in HC as [<- [= ->]]; [|done].
  destruct (locked_rely _ _ _ _ _ _ _ _ _ _ _ Hl3 R4) as [M4 Hl4].
  pose proof (me_rely _ _ _ _ Hm3 R4) as Hm4.
  seq. eapply Safe_GetHead; [exact Hl4|]. intros w5 M5 R5 I5 Hl5.
  pose proof (me_rely _ _ _ _ Hm4 R5) as Hm5. simpl.
  pose proof (locked_nonzero _ _ _ _ _ _ _ _ _ _ _ I5 Hl5 Hm5 Hb) as Hz.
  assert (Hnd : NoDup (T ++ [last])).
  { eapply links_NoDup. exact (locked_links _ _ _ _ _ _ _ _ _ _ TO_WAKEUP I5 Hl5). }
  assert (HuT : last ∉ T).
  { by apply NoDup_middle_out in Hnd as [? _]. }
  assert (HuW : last ∉ W).
  { intros Hi. apply (Hdis _ Hi). apply elem_of_app. right. by left. }
  eapply Safe_SetWaitNext with (x := x) (W' := W) (T' := (T ++ [last]) ++ W) (b := Some p);
    try done; try (by auto).
  - right. right. left. apply elem_of_app. right. by left.
  - intros s h1 h2 L1 L2 nx.
    assert (LW : forall h, links (next_in s) h W -> links nx h W).
    { intros h' L. eapply links_ext; [|exact L]. intros v Hv. unfold nx.
      rewrite decide_False; [done|]. by intros ->. }
    split; [auto|]. rewrite <- app_assoc. simpl.
    apply (links_snoc_link (next_in s) nx h2 T last (head W)); try done.
    + intros v Hv. unfold nx. by rewrite decide_False.
    + unfold nx. by rewrite decide_True.
    + apply LW. by rewrite <- (links_head _ _ _ L1).
  - intros v Hv. unfold in_lists in *. rewrite (elem_of_app _ W) in Hv. tauto.
  - intros w6 M6 I6 Hme6 _ Hl6.
    eapply Safe_SetHead with (C := []) (B' := []) (b := None) (at' := m_at x);
      [exact Hl6|exact Hme6|by right|by left|done|..]; simpl.
    + intros. apply links_nil.
    + intros v Hv. left. unfold in_lists in *. rewrite !elem_of_nil in *. tauto.
    + intros _. split; [done|]. by intros v ?%elem_of_nil.
    + intros Ht. eapply (locked_at _ _ _ _ _ _ _ _ _ _ _ Hl6 Hme6). unfold in_lists in *.
      rewrite !elem_of_nil in *. tauto.
    + by right.
    + intros w7 M7 I7 Hme7 Hl7 _. eapply Hk; [done| |exact Hl7]. destruct x. simpl in *. by subst.
Qed.

(** ** [RemoveIf] with the thread itself as the element *)
Definition without (t : Z) (l : list Z) : list Z := filter (fun u => u <> t) l.

Lemma without_notin t l : t ∉ l -> without t l = l.
Proof.
  unfold without. induction l as [|u l IH]; [done|]. intros [Hu Hn]%not_elem_of_cons.
  rewrite filter_cons_True by congruence. f_equal. auto.
Qed.

Lemma without_middle t l1 l2 : t ∉ l1 -> t ∉ l2 -> without t (l1 ++ t :: l2) = l1 ++ l2.
Proof.
  intros N1 N2. unfold without. rewrite list.filter_app, filter_cons_False by naive_solver.
  fold (without t l1) (without t l2). by rewrite !without_notin.
Qed.

Lemma without_elem t l u : u ∈ without t l <-> u <> t /\ u ∈ l.
Proof. apply (list_elem_of_filter (fun u => u <> t)). Qed.

(** The state of the loop: nothing found yet, [current] is at the rest of the
    list and [prev] before it; or the element is out already. *)
Definition removing (t : Z) (C : list Z) (found : bool) (prev : Z) (current : option Z)
    (D : list Z) : Prop :=
  if found then t ∈ C /\ D = without t C /\ exists pre rest, D = pre ++ rest /\ current = head rest
  else D = C /\ exists pre rest, C = pre ++ rest /\ current = head rest /\ (t ∉ pre) /\
         (pre = [] -> head C = Some prev) /\ (pre <> [] -> list.last pre = Some prev).

Lemma links_bypass {K} (nx nx' : K -> option (option K)) h l v u l' n :
  (forall y, y <> v -> nx' y = nx y) -> nx' v = Some n -> nx u = Some n ->
  v ∉ l -> v ∉ l' -> links nx h (l ++ v :: u :: l') -> links nx' h (l ++ v :: l').
Proof.
  intros Ho Hv Hu. revert h. induction l as [|y l IH]; intros h Hn Hn' L; simpl in *.
  - inversion L as [|? n1 ? E1 L1]; simplify_eq. inversion L1 as [|? n2 ? E2 L2]; simplify_eq.
    apply (links_cons _ _ n); [done|]. eapply links_ext; [|exact L2].
    intros y Hy. apply Ho. by intros ->.
  - apply not_elem_of_cons in Hn as [Hy Hn]. inversion L as [|? n' ? En Ln]; simplify_eq.
    apply (links_cons _ _ n'); [by rewrite Ho|]. by apply IH.
Qed.

Lemma in_lists_put l C C' W T u :
  sel l W T = C -> (forall v, v ∈ C' -> v ∈ C) ->
  in_lists u (putW l C' W) (putT l C' T) [] -> in_lists u W T [].
Proof.
  intros E Hs. unfold in_lists. rewrite !elem_of_nil. destruct l; simpl in *; subst; intros [?|[?|[]]]; auto.
Qed.

Lemma disjoint_put l C C' W T :
  sel l W T = C -> (forall v, v ∈ C' -> v ∈ C) -> disjoint_lists W T ->
  disjoint_lists (putW l C' W) (putT l C' T).
Proof. intros E Hs Hd v. destruct l; simpl in *; subst; intros Hv Hv'; apply (Hd v); auto. Qed.

Lemma put_put l C C' W T :
  putW l C (putW l C' W) = putW l C W /\ putT l C (putT l C' T) = putT l C T.
Proof. by destruct l. Qed.

Lemma sel_put l C W T : sel l (putW l C W) (putT l C T) = C.
Proof. by destruct l. Qed.

Lemma put_sel l W T : putW l (sel l W T) W = W /\ putT l (sel l W T) T = T.
Proof. by destruct l. Qed.

Lemma me_at_weaken t w x p : me t w {| x with m_at := None |} -> me t w {| x with m_at := Some p |}.
Proof. intros [E1 E2 E3 E4 E5 E6 E7 E8 E9 E10 E11]. split; try done. simpl in *. intros q Hq. by specialize (E5 q Hq). Qed.

(** The thread is taken out of the list. *)
Lemma Safe_erase {A} t p l pre rest prev (k : option Z -> prog A) Q w o ow c W T M0 x :
  locked t w p o ow c W T [] M0 -> me t w x -> m_busy x = None -> m_at x = Some p ->
  disjoint_lists W T -> sel l W T = pre ++ t :: rest ->
  (pre = [] -> prev = t) -> (pre <> [] -> list.last pre = Some prev) ->
  (forall w' M, inv w' -> me t w' x ->
     locked t w' p o ow c (putW l (pre ++ rest) W) (putT l (pre ++ rest) T) [] M ->
     Safe t (k (head rest)) Q w') ->
  Safe t (Bind (EraseAfter p l prev t) (fun _ => Bind (GetNextWait prev) k)) Q w.
Proof.
  intros Hl Hme Hb Hat Hdis E Hp1 Hp2 Hk. seq.
  eapply Safe_GetHead; [done|]. intros w1 M1 R1 I1 Hl1.
  pose proof (me_rely _ _ _ _ Hme R1) as Hme1.
  assert (Hnd : NoDup (pre ++ t :: rest)).
  { rewrite <- E. eapply links_NoDup. exact (locked_links _ _ _ _ _ _ _ _ _ _ l I1 Hl1). }
  destruct (NoDup_middle_out _ _ _ Hnd) as [Ht1 Ht2].
  assert (Hsub : forall v, v ∈ pre ++ rest -> v ∈ pre ++ t :: rest).
  { intros v. rewrite !elem_of_app, elem_of_cons. tauto. }
  assert (Hx : {| x with m_busy := None; m_at := Some p |} = x) by (destruct x; simpl in *; by subst).
  rewrite E. destruct pre as [|u0 pre]; simpl head.
  - specialize (Hp1 eq_refl) as ->. rewrite bool_decide_eq_true_2 by done. seq.
    eapply (Safe_GetNextWait t p l t [] rest); [exact Hl1|done|]. intros w2 M2 R2 I2 Hl2.
    pose proof (me_rely _ _ _ _ Hme1 R2) as Hme2. simpl in Hsub.
    eapply Safe_SetHead with (x := x) (C := rest) (B' := []) (b := None) (at' := None);
      try done; try (by auto).
    + intros s g M R' I Hl'. pose proof (locked_links _ _ _ _ _ _ _ _ _ _ l I Hl') as L.
      rewrite E in L. destruct (links_tail _ _ _ _ L) as (n & En & Ln). simpl in *.
      by rewrite <- (links_head _ _ _ Ln).
    + intros v Hv. left. by eapply in_lists_put.
    + intros _. split; [done|]. by eapply disjoint_put.
    + intros Ht. exfalso. unfold in_lists in Ht. rewrite elem_of_nil in Ht.
      assert (Hin : t ∈ sel l W T) by (rewrite E; by left).
      destruct l; simpl in *; destruct Ht as [Ht|[Ht|[]]]; try done; by eapply Hdis.
    + intros w3 M3 I3 Hme3 Hl3 (s & g & M & Is & Hs & Hnext).
      assert (Hn3 : next_ (threads w3.1 t) = head rest).
      { rewrite Hnext. pose proof (locked_links _ _ _ _ _ _ _ _ _ _ l Is Hs) as L. rewrite E in L.
        destruct (links_tail _ _ _ _ L) as (n & En & Ln). unfold next_in in En. simpl in *.
        injection En as ->. by apply links_head in Ln. }
      apply Safe_thread_get. intros w4 R4 I4.
      rewrite (next_stays _ _ _ _ _ _ _ _ _ _ _ t (head rest) _ Hl3 Hme3 R4) by auto.
      destruct (locked_rely _ _ _ _ _ _ _ _ _ _ _ Hl3 R4) as [M4 Hl4].
      eapply Hk; [done| |exact Hl4]. rewrite <- Hx.
      apply (me_at_weaken t w4 {| x with m_busy := None |} p). by eapply me_rely.
  - rewrite bool_decide_eq_false_2 by (intros [= ->]; apply Ht1; by left). seq.
    destruct (exists_last (l := u0 :: pre)) as (pre0 & prev' & Epre); [done|]. rewrite Epre in *.
    assert (prev' = prev) as ->.
    { specialize (Hp2 ltac:(by destruct pre0)). rewrite last_snoc in Hp2. congruence. }
    eapply (Safe_GetNextWait t p l t (pre0 ++ [prev]) rest); [exact Hl1|done|]. intros w2 M2 R2 I2 Hl2.
    pose proof (me_rely _ _ _ _ Hme1 R2) as Hme2.
    assert (Hnd' := Hnd). rewrite <- app_assoc in Hnd'. simpl in Hnd'.
    apply NoDup_middle_out in Hnd' as [Hv1 Hv2]. apply not_elem_of_cons in Hv2 as [Hv2 Hv3].
    eapply Safe_SetWaitNext with (x := x) (W' := putW l ((pre0 ++ [prev]) ++ rest) W)
      (T' := putT l ((pre0 ++ [prev]) ++ rest) T) (b := None); try done; try (by auto).
    + right. assert (prev ∈ sel l W T).
      { rewrite E, !elem_of_app. left. right. by left. }
      unfold in_lists. destruct l; simpl in *; auto.
    + intros s h1 h2 L1 L2 nx.
      assert (Ho : forall y, y <> prev -> nx y = next_in s y) by (intros y Hy; unfold nx; by rewrite decide_False).
      assert (Hother : forall h C, prev ∉ C -> links (next_in s) h C -> links nx h C).
      { intros h C Hn L. eapply links_ext; [|exact L]. intros y Hy. apply Ho. by intros ->. }
      assert (Hthis : forall h, links (next_in s) h (sel l W T) ->
                links nx h ((pre0 ++ [prev]) ++ rest)).
      { intros h L. rewrite E in L. rewrite <- !app_assoc in *. simpl in *.
        apply (links_bypass (next_in s) nx h pre0 prev t rest (head rest)); try done.
        - unfold nx. by rewrite decide_True.
        - change (prev :: t :: rest) with ([prev] ++ t :: rest) in L. rewrite app_assoc in L.
          destruct (links_tail _ _ _ _ (links_suffix _ _ _ _ _ _ L eq_refl)) as (n & En & Ln).
          by rewrite En, (links_head _ _ _ Ln). }
      assert (Hpv : prev ∈ sel l W T) by (rewrite E, !elem_of_app; left; right; by left).
      destruct l; simpl in *; (split; [|]); try (by auto);
        (apply Hother; [|done]; intros Hi; by eapply Hdis).
    + intros v Hv. by eapply in_lists_put.
    + intros _. split; [done|]. by eapply disjoint_put.
    + intros w3 M3 I3 Hme3 _ Hl3.
      eapply (Safe_GetNextWait t p l prev pre0 rest); [exact Hl3|by rewrite sel_put, <- app_assoc|].
      intros w4 M4 R4 I4 Hl4. eapply Hk; [done| |exact Hl4].
      pose proof (me_rely _ _ _ _ Hme3 R4) as Hme4. by destruct x; simpl in *; subst.
Qed.

Lemma removing_start t C h : head C = Some h -> removing t C false h (Some h) C.
Proof.
  intros E. split; [done|]. exists [], C. rewrite E. split_and!; [done..|by intros ?%elem_of_nil|done|done].
Qed.

(** One step over an element that stays. *)
Lemma removing_next t C found prev u D :
  removing t C found prev (Some u) D -> u <> t ->
  exists D1 D2, D = D1 ++ u :: D2 /\ removing t C found u (head D2) D.
Proof.
  destruct found; intros Hr Hu.
  - destruct Hr as (Ht & ED & pre & rest & E & Ec). destruct rest as [|u' rest]; [done|].
    injection Ec as ->. exists pre, rest. split; [done|]. split_and!; [done..|].
    exists (pre ++ [u']), rest. by rewrite <- app_assoc.
  - destruct Hr as (-> & pre & rest & E & Ec & Hn & _ & _). destruct rest as [|u' rest]; [done|].
    injection Ec as ->. exists pre, rest. split; [done|]. split; [done|].
    exists (pre ++ [u']), rest. rewrite <- app_assoc. split_and!; try done.
    + rewrite elem_of_app, list_elem_of_singleton. naive_solver.
    + by destruct pre.
    + intros _. by rewrite last_snoc.
Qed.

Lemma Safe_RemoveIf {A} t p l (k : bool -> prog A) Q w o ow c W T M0 x :
  locked t w p o ow c W T [] M0 -> me t w x -> m_busy x = None -> m_at x = Some p ->
  disjoint_lists W T ->
  let C := sel l W T in
  (forall w' M, inv w' -> me t w' x ->
     locked t w' p o ow c (putW l (without t C) W) (putT l (without t C) T) [] M ->
     Safe t (k (bool_decide (t ∈ C))) Q w') ->
  Safe t (Bind (RemoveIf p l (fun u => t == u)) k) Q w.
Proof.
  intros Hl Hme Hb Hat Hdis C Hk. seq. eapply Safe_GetHead; [done|]. intros w1 M1 R1 I1 Hl1.
  pose proof (me_rely _ _ _ _ Hme R1) as Hme1. fold C. destruct (head C) as [h|] eqn:Eh.
  2: { assert (EC : C = []) by (by destruct C). assert (Hn : t ∉ C) by (by rewrite EC; intros ?%elem_of_nil).
       apply Safe_bind_ret. rewrite bool_decide_eq_false_2, without_notin in Hk by done.
       unfold C in Hk. rewrite (proj1 (put_sel l W T)), (proj2 (put_sel l W T)) in Hk. eauto. }
  apply Safe_bind_loop with (J := fun '(found, prev, current) w => me t w x /\
    exists D M, locked t w p o ow c (putW l D W) (putT l D T) [] M /\
                removing t C found prev current D).
  { apply rely_refl. } { apply rely_trans. }
  2: { intros [[found prev] current] w' w2 (Hm & D & M & HM & HD) R I. split; [by eapply me_rely|].
       destruct (locked_rely _ _ _ _ _ _ _ _ _ _ _ HM R) as [M' HM']. by exists D, M'. }
  2: { split; [done|]. exists C, M1. split; [|by apply removing_start]. unfold C.
       by rewrite (proj1 (put_sel l W T)), (proj2 (put_sel l W T)). }
  intros [[found prev] current] w' (Hm & D & M & HM & HD). destruct current as [u|].
  - destruct (bool_decide_reflect (t = u)) as [Eu|Eu].
    + subst u. destruct found.
      { exfalso. destruct HD as (_ & ED & pre & rest & E & Ec). destruct rest as [|u' rest]; [done|].
        injection Ec as ->. assert (Hin : u' ∈ without u' C) by
          (rewrite <- ED, E; apply elem_of_app; right; by left).
        by apply without_elem in Hin as [? _]. }
      destruct HD as (-> & pre & rest & E & Ec & Hn & Hp1 & Hp2). destruct rest as [|u' rest]; [done|].
      injection Ec as ->.
      assert (Hlk : locked u' w' p o ow c W T [] M).
      { unfold C in HM. by rewrite (proj1 (put_sel l W T)), (proj2 (put_sel l W T)) in HM. }
      eapply (Safe_erase u' p l pre rest prev); try done.
      { intros ->. specialize (Hp1 eq_refl). rewrite E in Hp1. by injection Hp1. }
      intros w2 M2 I2 Hme2 Hl2. apply Safe_ret. intros w3 R3 I3. split; [by eapply me_rely|].
      destruct (locked_rely _ _ _ _ _ _ _ _ _ _ _ Hl2 R3) as [M3 Hl3].
      exists (pre ++ rest), M3. split; [done|]. rewrite E. split; [apply elem_of_app; right; by left|].
      assert (Hnd : NoDup (pre ++ u' :: rest)).
      { rewrite <- E. eapply links_NoDup. exact (locked_links _ _ _ _ _ _ _ _ _ _ l I1 Hl1). }
      destruct (NoDup_middle_out _ _ _ Hnd) as [Ht1 Ht2].
      split; [by rewrite without_middle|]. by exists pre, rest.
    + destruct (removing_next _ _ _ _ _ _ HD (not_eq_sym Eu)) as (D1 & D2 & ED & HD').
      eapply (Safe_GetNextWait t p l u D1 D2); [exact HM|by rewrite sel_put|].
      intros w2 M2 R2 I2 Hl2. apply Safe_ret. intros w3 R3 I3.
      split; [by eapply me_rely; [eapply me_rely|]|].
      destruct (locked_rely _ _ _ _ _ _ _ _ _ _ _ Hl2 R3) as [M3 Hl3]. by exists D, M3.
  - apply Safe_ret. intros w2 R2 I2.
    pose proof (me_rely _ _ _ _ Hm R2) as Hm2.
    destruct (locked_rely _ _ _ _ _ _ _ _ _ _ _ HM R2) as [M2 HM2].
    destruct found.
    + destruct HD as (Ht & -> & _). rewrite bool_decide_eq_true_2 in Hk by done. by eapply Hk.
    + destruct HD as (-> & pre & rest & E & Ec & Hn & _ & _). destruct rest as [|]; [|done].
      rewrite app_nil_r in E. rewrite E in *. rewrite bool_decide_eq_false_2 in Hk by done.
      rewrite without_notin in Hk by done. by eapply Hk.
Qed.

(** A thread that is in no list any more. *)
Lemma me_outside t w p o ow c W T M x :
  locked t w p o ow c W T [] M -> me t w x -> m_at x = Some p -> t ∉ W -> t ∉ T ->
  me t w {| x with m_at := None |}.
Proof.
  intros Hl Hme Hat HW HT. destruct Hme as [E1 E2 E3 E4 E5 E6 E7 E8 E9 E10 E11]. split; try done. simpl.
  intros q Hq. exfalso. pose proof (E5 q Hq) as E. rewrite Hat in E. injection E as <-.
  apply (locked_member _ _ _ _ _ _ _ _ _ _ t Hl) in Hq as [?|[?|Hq]]; [done..|].
  by apply elem_of_nil in Hq.
Qed.

End Lists.
