(* ===== verification/MonitorSafe.v ===== *)
(** The operations of the monitors keep the protocol.

    For each operation of runtime/monitor.cpp a rule says what a thread needs in
    order to call it and what it has afterwards, whatever the other threads do in
    between: entering an object adds one to the number of times the thread holds it,
    leaving takes one away, [Wait] gives the monitor up and comes back with the same
    count, an object keeps the hash code it was given, and the collector deflates
    only monitors nobody uses. *)
From stdpp Require Import base list gmap functions sets.
From S2P Require Import Prelude MarkWord Threads Monitor MonitorInv MonitorRules MonitorLists.
Local Open Scope Z_scope.
Local Open Scope ark_scope.
Local Open Scope prog_scope.

(** What a thread knows, carried over the steps of the others. *)
Ltac carry1 :=
  match goal with
  | R : rely ?t ?w ?w', H : me ?t ?w ?x |- _ => apply (fun h => me_rely t w w' x h R) in H
  | R : rely ?t ?w ?w', H : pub ?t ?w ?p ?o |- _ => apply (fun h => pub_rely t w w' p o h R) in H
  | R : rely ?t ?w ?w', H : mine ?t ?w ?p ?M |- _ => apply (fun h => mine_rely t w w' p M h R) in H
  | R : rely ?t ?w ?w', H : locked ?t ?w ?p ?o ?ow ?c ?W ?T ?B ?M |- _ =>
      let M' := fresh "Mq" in
      let X := fresh in
      pose proof (locked_rely t w w' p o ow c W T B M H R) as X; clear H; destruct X as [M' H]
  end.
Ltac carry := repeat carry1.
(** A step on the thread's own record that nobody looks at. *)
Ltac quietly :=
  apply Safe_thread_set; [intros ?; repeat split|];
  let w := fresh "wq" in let R := fresh "Rq" in let I := fresh "Iq" in
  intros w R I; carry.

(** The values of a function changed at some points. *)
Ltac fn_cases :=
  repeat match goal with
  | |- context [<[?a := _]> _ ?b] =>
      destruct (decide (b = a)); [subst; rewrite !fn_lookup_insert|rewrite !fn_lookup_insert_ne by done]
  end.

Section Operations.
Context `{MemoryModelConfig} `{!ConfigLayout} `{Build} `{!BuildOk}.
Context (strict : bool).
Abbreviation world := (Store * Ghost)%type.
Abbreviation Safe := (Safe inv rely (tolerated strict)).

(** ** Equal descriptions *)
Lemma me_ext t w x x' :
  me t w x -> m_status x' = m_status x -> (forall p, m_cnt x' p = m_cnt x p) ->
  m_busy x' = m_busy x -> m_at x' = m_at x -> (forall o, m_depth x' o = m_depth x o) ->
  m_cond x' = m_cond x -> m_priv x' = m_priv x -> m_susp x' = m_susp x ->
  m_own x' = m_own x -> me t w x'.
Proof.
  intros [E1 E2 E3 E4 E5 E6 E7 E8 E9 E10 E11] F1 F2 F3 F4 F5 F6 F7 F8 F9. split; try congruence.
  - intros p Hp. rewrite F4. auto.
  - rewrite F6. done.
  - rewrite F7. done.
  - rewrite F8. done.
  - rewrite F8. done.
Qed.

(** ** Monitors before they are published *)
Definition owned (id o u c h : Z) : Monitor :=
  {| (newMonitor id o) with
     owner_ := Some u; recursiveCounter_ := c; lock_ := Some u; hashCode_ := h |}.

(** A step on a private monitor that keeps its hash. *)
Lemma Safe_private {A V} t p f (k : V -> prog A) Q w M x M' a :
  mine t w p M -> me t w x -> m_status x = RUNNING ->
  (forall ch, f t ch M = Next a M') ->
  id_ M' = id_ M -> obj_ M' = obj_ M -> (forall l, head_of l M' = head_of l M) ->
  waitersCounter_ M' = waitersCounter_ M -> (lock_inv M -> lock_inv M') ->
  hashCode_ M' = hashCode_ M ->
  (forall w', inv w' -> me t w' x -> mine t w' p M' -> Safe t (k a) Q w') ->
  Safe t (Bind (monitor_act p f) k) Q w.
Proof.
  intros Hm Hme Hrun Ef F1 F2 F3 F4 F5 F6 Hk. eapply Safe_mine_act; [done..|].
  intros ch Hl Hh. rewrite Ef. split; [|done].
  split; [done|]. split; [done|]. split; [done|]. split; [done|]. split; [auto|]. by rewrite F6.
Qed.

Lemma Safe_private_get {A V} t p (f : Monitor -> V) (k : V -> prog A) Q w M x :
  mine t w p M -> me t w x ->
  (forall w', inv w' -> me t w' x -> mine t w' p M -> Safe t (k (f M)) Q w') ->
  Safe t (Bind (monitor_get p f) k) Q w.
Proof.
  intros Hm Hme Hk. apply Safe_monitor_get. intros w' R I. carry. exists M. split; [apply Hm|auto].
Qed.

(** The thread [u] for which [t] works is [t] itself or has been stopped by it. *)
Definition stopped_for (x : Me) (t u : Z) : Prop := u = t \/ m_susp x = Some (u, true).

Lemma Safe_assert_stopped {A} t u p M (k : () -> prog A) Q w x :
  me t w x -> mine t w p M -> stopped_for x t u ->
  (forall w', inv w' -> me t w' x -> mine t w' p M -> Safe t (k ()) Q w') ->
  Safe t (Bind (assert_stopped t u) k) Q w.
Proof.
  intros Hme Hm Hs Hk. unfold assert_stopped. seq. apply Safe_thread_get. intros w1 R1 I1. carry.
  apply Safe_assert; [|by apply Hk]. destruct Hs as [->|Hs].
  - by rewrite bool_decide_eq_true_2.
  - apply orb_true_iff. right. apply negb_true_iff, bool_decide_eq_false_2.
    by apply (me_halted _ _ _ Hme).
Qed.

Lemma Safe_InitWithOwner {A} t p u id o (k : () -> prog A) Q w x :
  me t w x -> m_status x = RUNNING -> mine t w p (newMonitor id o) ->
  (PANDA_USE_FUTEX = false -> u = t) -> stopped_for x t u -> u ∈ registered ->
  (forall w', inv w' -> me t w' x -> mine t w' p (owned id o u 1 0) -> Safe t (k ()) Q w') ->
  Safe t (Bind (InitWithOwner t p u) k) Q w.
Proof.
  intros Hme Hrun Hm Hu Hst Hreg Hk. unfold InitWithOwner. seq.
  eapply Safe_private_get; [done..|]. clear w Hme Hm. intros w _ Hme Hm. seq.
  apply Safe_assert; [done|]. seq.
  assert (Hlock : forall w, me t w x -> mine t w p {| (newMonitor id o) with lock_ := Some u |} ->
    Safe t (Bind (SetOwner p None (Some u))
      (fun ok => Bind (if negb ok then stop FATAL else IncCounter p) k)) Q w).
  { clear w Hme Hm. intros w Hme Hm.
    eapply Safe_private with (M' := owned id o u 0 0); [done..| |done|].
    { intros _. split; simpl; [done|done|done|]. by intros v [= <-]. }
    clear w Hme Hm.
    intros w _ Hme Hm. simpl. unfold IncCounter. seq.
    eapply Safe_private_get; [done..|]. clear w Hme Hm. intros w _ Hme Hm.
    eapply Safe_private with (M' := owned id o u 1 0); [done..| |done|done].
    intros [L1 L2 L3 L4]. by split. }
  destruct PANDA_USE_FUTEX.
  - seq. eapply Safe_assert_stopped; [done..|]. clear w Hme Hm. intros w _ Hme Hm.
    eapply Safe_private with (M' := {| (newMonitor id o) with lock_ := Some u |}); [done..|].
    intros. seq. auto.
  - specialize (Hu eq_refl) as ->. seq. apply Safe_assert; [by apply bool_decide_eq_true|]. seq.
    eapply Safe_private with (M' := {| (newMonitor id o) with lock_ := Some t |}); [done..|].
    intros w' _ Hme' Hm'. apply Safe_assert; [done|]. seq. auto.
Qed.

(** The monitor of an inflation that failed is deleted. *)
Lemma Safe_discard {A} t p u id o h (k : bool -> prog A) Q w x :
  me t w x -> m_status x = RUNNING -> mine t w p (owned id o u 1 h) -> m_priv x = Some p ->
  (PANDA_USE_FUTEX = false -> u = t) -> stopped_for x t u ->
  (forall w', inv w' -> me t w' {| x with m_priv := None |} -> Safe t (k false) Q w') ->
  Safe t (Bind (ReleaseOnFailedInflate t p u;; id ← GetId p; FreeMonitor id;; Ret false) k) Q w.
Proof.
  intros Hme Hrun Hm Hpr Hu Hst Hk. seq. unfold ReleaseOnFailedInflate. seq.
  eapply Safe_private_get; [done..|]. clear w Hme Hm. intros w _ Hme Hm. simpl.
  rewrite bool_decide_eq_true_2 by done. simpl. seq. unfold DecCounter. seq.
  eapply Safe_private_get; [done..|]. clear w Hme Hm. intros w _ Hme Hm.
  eapply Safe_private with (M' := owned id o u 0 h); [done..| | |].
  { intros [L1 L2 L3]. by split. }
  { done. }
  clear w Hme Hm. intros w _ Hme Hm. seq.
  eapply Safe_private_get; [done..|]. clear w Hme Hm. intros w _ Hme Hm. seq.
  apply Safe_assert; [done|]. seq.
  set (M1 := {| (owned id o u 0 h) with owner_ := None |}).
  eapply Safe_private with (M' := M1).
  1-3: done.
  { intros ch. simpl. by rewrite bool_decide_eq_true_2. }
  1-4: done.
  { intros [L1 L2 L3]. by split. }
  { done. }
  clear w Hme Hm. intros w _ Hme Hm. seq. apply Safe_assert; [done|].
  assert (Hend : forall w, me t w x -> mine t w p {| M1 with lock_ := None |} ->
    Safe t (Bind (GetId p) (fun i => Bind (Bind (FreeMonitor i) (fun _ => Ret false)) k)) Q w).
  { clear w Hme Hm. intros w Hme Hm.
    eapply Safe_private_get; [done..|]. clear w Hme Hm. intros w _ Hme Hm. seq.
    eapply Safe_FreeMonitor; [done..|]. intros w' I' Hme'. apply Safe_bind_ret. auto. }
  assert (Hunlock : forall f w, (forall ch, f t ch M1 = Next () {| M1 with lock_ := None |}) ->
    me t w x -> mine t w p M1 ->
    Safe t (Bind (monitor_act p f)
      (fun _ => Bind (Bind (GetId p) (fun i => Bind (FreeMonitor i) (fun _ => Ret false))) k)) Q w).
  { clear w Hme Hm. intros f w Hf Hme Hm.
    eapply Safe_private with (M' := {| M1 with lock_ := None |}); try done.
    clear w Hme Hm. intros w _ Hme Hm. seq. auto. }
  destruct PANDA_USE_FUTEX.
  - seq. eapply Safe_assert_stopped; [done..|]. clear w Hme Hm. intros w _ Hme Hm.
    apply Hunlock; [|done..]. intros ch. simpl. by rewrite bool_decide_eq_true_2.
  - specialize (Hu eq_refl) as ->. seq. apply Safe_assert; [by apply bool_decide_eq_true|].
    apply Hunlock; [|done..]. intros ch. simpl. by rewrite bool_decide_eq_true_2.
Qed.

Lemma held_by_owned id o u c h v : held_by (owned id o u c h) v = if decide (u = v) then c else 0.
Proof. unfold held_by. simpl. repeat case_decide; congruence. Qed.

(** The last part of [Inflate]. *)
Lemma Safe_inflate_publish {A} t p u id o c h old (k : bool -> prog A) Q w x :
  me t w x -> m_status x = RUNNING -> mine t w p (owned id o u c h) -> m_priv x = Some p ->
  (PANDA_USE_FUTEX = false -> u = t) -> stopped_for x t u -> ~ is_heavy (view_of old) ->
  (forall v, v <> t -> light_depth (view_of old) v = held_by (owned id o u c h) v) ->
  (forall h', word_hash (view_of old) = Some h' -> h = h' /\ h' <> 0) -> c <> 0 ->
  (forall w', inv w' -> m_depth x o = light_depth (view_of old) t ->
     me t w' {| (with_depth x o (held_by (owned id o u c h) t)) with m_priv := None |} ->
     Safe t (k true) Q w') ->
  (forall w', inv w' -> me t w' {| x with m_priv := None |} -> Safe t (k false) Q w') ->
  Safe t (Bind (id ← GetId p;
                ret ← AtomicSetMark true o old (MarkWord.DecodeFromMonitor old id);
                if fst ret then AddMonitor u;; Ret true
                else SetCounter p 1;; ReleaseOnFailedInflate t p u;;
                     id ← GetId p; FreeMonitor id;; Ret false) k) Q w.
Proof.
  intros Hme Hrun Hm Hpr Hu Hst Hn Hd Hh Hnz Ht Hf. seq.
  eapply Safe_private_get; [done..|]. clear w Hme Hm. intros w _ Hme Hm. seq.
  eapply Safe_publish; [done..| |].
  - clear w Hme Hm. intros w I Ed Hme _ _. simpl. seq. quietly. apply Safe_bind_ret. auto.
  - intros w1 R I. carry. simpl. seq.
    eapply Safe_private with (M' := owned id o u 1 h); [done..| | |].
    { intros [L1 L2 L3]. by split. }
    { done. }
    clear w Hme Hm R I. intros w _ Hme Hm. by eapply Safe_discard.
Qed.

Lemma light_count_u32 : MarkWord.LIGHT_LOCK_LOCK_MAX_COUNT < 2 ^ 32.
Proof.
  layout. rewrite Z.shiftl_1_l.
  assert (2 ^ count_size <= 2 ^ 32) by (apply Z.pow_le_mono_r; lia). lia.
Qed.

Lemma light_count_min : 1 < MarkWord.LIGHT_LOCK_LOCK_MAX_COUNT.
Proof.
  layout. rewrite Z.shiftl_1_l.
  assert (2 ^ 2 <= 2 ^ count_size) by (apply Z.pow_le_mono_r; lia). lia.
Qed.

(** What [Inflate] makes of the number of times the thread holds the object. *)
Definition inflated_depth (forOther : bool) (d : Z) : Z := if forOther then d else Z.max 1 d.

Lemma Safe_Inflate {A} (forOther : bool) t o u (k : bool -> prog A) Q w x :
  me t w x -> m_status x = RUNNING -> m_priv x = None ->
  (if forOther then PANDA_USE_FUTEX = true /\ m_susp x = Some (u, true) /\ u ∈ registered else u = t) ->
  (forall w', inv w' -> me t w' (with_depth x o (inflated_depth forOther (m_depth x o))) ->
     Safe t (k true) Q w') ->
  (forall w', inv w' -> me t w' x -> Safe t (k false) Q w') ->
  Safe t (Bind (Inflate forOther t o u) k) Q w.
Proof.
  intros Hme Hrun Hpr Hu Ht Hf. unfold Inflate. seq.
  apply Safe_GetMark. intros w1 R I. carry.
  pose proof (inv_marks _ I o) as Hmk. set (old := marks w1.1 o) in *. clearbody old.
  destruct Hmk as [_ Hlight Hhashed Hforward]. unfold view_of in Hlight, Hhashed, Hforward.
  assert (Hfx : PANDA_USE_FUTEX = false -> u = t) by (destruct forOther; [naive_solver congruence|done]).
  assert (Hst : stopped_for x t u) by (destruct forOther; [by right; apply Hu|by left]).
  assert (Hreg : u ∈ registered) by (destruct forOther; [apply Hu|subst; apply Hme]).
  case_bool_decide as Eh; [apply Safe_bind_ret; auto|].
  destruct (forOther && _) eqn:Eo; [apply Safe_bind_ret; auto|].
  seq. eapply Safe_CreateMonitor; [done..| |].
  2: { intros w2 _ _. apply Safe_stop. by left. }
  clear w R I Hme. intros w p id _ Hme Hm. seq.
  set (y := {| x with m_priv := Some p |}) in *. change (stopped_for y t u) in Hst.
  assert (Hf' : forall w', inv w' -> me t w' {| y with m_priv := None |} -> Safe t (k false) Q w').
  { intros w' I Hme'. apply Hf; [done|]. by eapply me_ext. }
  eapply Safe_InitWithOwner; [done..|]. clear w Hme Hm. intros w _ Hme Hm. seq.
  destruct (MarkWord.GetState old) eqn:Es; try done.
  - (* unlocked *)
    destruct forOther; [done|]. subst u. apply Safe_bind_ret. simpl.
    assert (Ev : view_of old = VUnlocked) by (unfold view_of; by rewrite Es).
    eapply Safe_inflate_publish; rewrite ?Ev; try done.
    + by intros [? ?].
    + intros v Hv. simpl. rewrite held_by_owned. by rewrite decide_False.
    + intros w' I Ed Hme'. rewrite held_by_owned, decide_True in Hme' by done. simpl in Ed.
      apply Ht; [done|]. rewrite Ed. by eapply me_ext.
  - (* light *)
    assert (Ev : view_of old = VLight (MarkWord.GetThreadId old) (MarkWord.GetLockCount old))
      by (unfold view_of; by rewrite Es).
    destruct (Hlight _ _ eq_refl) as [Hid Hc]. clear Eo.
    destruct (bool_decide_reflect (MarkWord.GetThreadId old = u)) as [Et|Et].
    2: { simpl. eapply Safe_discard; [done..|]. intros w' I Hme'. simpl. apply Safe_bind_ret. auto. }
    simpl. seq. subst u.
    set (c := MarkWord.GetLockCount old) in *. set (u := MarkWord.GetThreadId old) in *.
    eapply Safe_private with (M' := owned id o u c 0); [done..| | |].
    { intros [L1 L2 L3]. split; simpl; try done.
      pose proof light_count_u32. unfold in_u. lia. }
    { done. }
    clear w Hme Hm. intros w _ Hme Hm. apply Safe_bind_ret. simpl.
    eapply Safe_inflate_publish; rewrite ?Ev; try done.
    + by intros [? ?].
    + intros v Hv. simpl. by rewrite held_by_owned.
    + lia.
    + intros w' I Ed Hme'. apply Ht; [done|]. rewrite held_by_owned in Hme'. simpl in Ed.
      enough (inflated_depth forOther (m_depth x o) = if decide (u = t) then c else 0) as ->
        by by eapply me_ext.
      rewrite Ed. destruct forOther; [done|]. simpl. rewrite decide_True by done. lia.
  - (* hashed *)
    destruct forOther; [done|]. subst u. unfold SetHashCode. seq. seq.
    assert (Ev : view_of old = VHashed (MarkWord.GetHash old)) by (unfold view_of; by rewrite Es).
    destruct (Hhashed _ eq_refl) as [Hh Hh32]. set (h := MarkWord.GetHash old) in *.
    eapply Safe_private_get; [done..|]. clear w Hme Hm. intros w _ Hme Hm. seq.
    apply Safe_assert; [by apply bool_decide_eq_true|]. seq.
    eapply Safe_private_get; [done..|]. clear w Hme Hm. intros w _ Hme Hm. simpl.
    eapply Safe_mine_act; [done..|]. intros ch Hl _. split; [|].
    { assert (lock_inv {| (owned id o t 1 0) with hashCode_ := h |}) by (by destruct Hl; split).
      split_and!; try done; simpl; try lia; apply Hh32. }
    clear w Hme Hm. intros w _ Hme Hm. apply Safe_bind_ret. simpl.
    eapply Safe_inflate_publish with (id := id) (c := 1) (h := h); rewrite ?Ev; try done.
    + by intros [? ?].
    + intros v Hv. simpl. rewrite held_by_owned. by rewrite decide_False.
    + intros h' [= <-]. lia.
    + intros w' I Ed Hme'. rewrite held_by_owned, decide_True in Hme' by done. simpl in Ed.
      apply Ht; [done|]. rewrite Ed. by eapply me_ext.
  - by destruct (Hforward _ eq_refl).
Qed.

(** A safepoint keeps the monitors the thread is counted in. *)
Lemma Safe_Safepoint {A} t (k : () -> prog A) Q w x :
  me t w x -> m_priv x = None ->
  (forall w', inv w' -> me t w' x -> (forall p o, pub t w p o -> 0 < m_cnt x p -> pub t w' p o) ->
     Safe t (k ()) Q w') ->
  Safe t (Bind (Safepoint t) k) Q w.
Proof.
  intros Hme Hpr Hk. unfold Safepoint. seq. apply Safe_choose. intros b w1 R1 I1. carry. seq.
  apply Safe_thread_get. intros w2 R2 I2. carry.
  assert (R : rely t w w2) by by eapply rely_trans. clear R1 R2.
  destruct (b || _). 2: { apply Safe_bind_ret. apply Hk; [done..|]. intros p o Hp _. by carry. }
  unfold WaitSuspension, ScopedChangeThreadStatus. seq.
  apply Safe_thread_get. intros w3 R3 I3. carry. rewrite (me_status _ _ _ Hme). seq.
  eapply Safe_UpdateStatus; [done|done|]. intros w4 _ Hme4 Hpub4 _. seq.
  apply Safe_thread_act; [intros c T; by destruct (IsSuspended T)|]. intros [] w5 R5 I5. carry. seq.
  eapply Safe_UpdateStatus; [done|done|]. intros w6 I6 Hme6 Hpub6 _.
  apply Safe_bind_ret. apply Hk; [done|by eapply me_ext|].
  intros p o Hp Hc. apply Hpub6; [|done]. eapply pub_rely; [|done]. apply Hpub4; [|done]. by carry.
Qed.

(** The thread that is found is suspended and stopped when the call returns. *)
Lemma Safe_SuspendAndWait {A} t id (k : option Z -> prog A) Q w x :
  me t w x -> m_status x <> RUNNING -> m_priv x = None -> m_susp x = None ->
  (forall w', inv w' -> me t w' x -> Safe t (k None) Q w') ->
  (forall w', id ∈ registered -> inv w' -> me t w' {| x with m_susp := Some (id, true) |} ->
     Safe t (k (Some id)) Q w') ->
  Safe t (Bind (SuspendAndWaitThreadByInternalThreadId t id) k) Q w.
Proof.
  intros Hme Hst Hpr Hsu Hn Hs. unfold SuspendAndWaitThreadByInternalThreadId. seq.
  apply Safe_thread_get. intros w1 R1 I1. carry. rewrite (me_status _ _ _ Hme). seq.
  apply Safe_assert; [by apply negb_true_iff, bool_decide_eq_false_2|]. seq.
  eapply (Safe_bind_loop _ _ _ rely_refl rely_trans t _ (fun _ w => me t w x));
    [|by intros; eapply me_rely|done].
  clear w w1 R1 I1 Hme. intros _ w Hme. eapply Safe_Safepoint; [done..|]. intros w1 _ Hme1 _.
  eapply Safe_suspend_target; [done|done|..]; clear w Hme w1 Hme1.
  - intros w I Hme. apply Safe_ret. intros w1 R1 I1. by carry.
  - intros w I Hme. apply Safe_ret. intros w1 R1 I1. carry. apply Safe_bind_ret. auto.
  - intros w Hreg I Hme. apply Safe_ret. intros w1 R1 I1. carry.
    eapply (Safe_bind_loop _ _ _ rely_refl rely_trans t _ (fun _ w => me t w _));
      [|by intros; eapply me_rely|done].
    clear w w1 R1 I I1 Hme. intros _ w Hme. apply Safe_thread_get. intros w1 R1 I1. carry.
    apply Safe_ret. intros w2 R2 I2. case_bool_decide as E; simpl; [by carry|].
    apply Hs; [done|done|]. eapply me_rely; [|done]. eapply me_ext; [by eapply me_stopped|done..].
Qed.

Lemma Safe_InflateThinLock {A} t o (k : () -> prog A) Q w x :
  me t w x -> m_status x = RUNNING -> m_priv x = None -> m_susp x = None ->
  (forall w', inv w' -> me t w' x -> Safe t (k ()) Q w') ->
  Safe t (Bind (InflateThinLock t o) k) Q w.
Proof.
  intros Hme Hrun Hpr Hsu Hk. unfold InflateThinLock.
  assert (Hx : forall st, {| {| x with m_status := st |} with m_status := m_status x |} = x)
    by (by destruct x).
  destruct PANDA_USE_FUTEX eqn:Efx.
  - seq. apply Safe_GetMark. intros w1 R1 I1. carry. seq. unfold ScopedChangeThreadStatus. seq.
    apply Safe_thread_get. intros w2 R2 I2. carry. rewrite (me_status _ _ _ Hme). seq.
    eapply Safe_UpdateStatus; [done|done|]. intros w3 _ Hme3 _ _. clear Hme. seq.
    eapply Safe_SuspendAndWait; [done..| |].
    + intros w4 _ Hme4. clear Hme3. seq. eapply Safe_UpdateStatus; [done|done|]. intros w5 _ Hme _ _. rewrite Hx in Hme. clear Hme4.
      apply Safe_bind_ret. seq. quietly. seq. quietly. apply Safe_bind_ret. auto.
    + intros w4 Hreg _ Hme4. clear Hme3. seq.
      eapply Safe_UpdateStatus; [done|done|]. intros w5 _ Hme _ _. clear Hme4.
      apply Safe_bind_ret. seq. quietly. seq. quietly. seq.
      set (y := {| {| _ with m_susp := _ |} with m_status := _ |}) in Hme.
      assert (Hend : forall w', me t w' y -> Safe t (Bind (thread_set (MarkWord.GetThreadId (marks w1.1 o)) ResumeImpl) k) Q w').
      { intros w' Hme'. eapply Safe_resume; [done|done|]. intros w8 I8 Hme8. apply Hk; [done|].
        by eapply me_ext. }
      eapply Safe_Inflate with (x := y); [done|done|done|done|..]; intros w8 I8 Hme8; apply Hend; [|done].
      eapply me_same_depth; [exact Hme8|done].
  - seq. seq. apply Safe_thread_get. intros w1 R1 I1. carry. rewrite (me_status _ _ _ Hme). seq.
    eapply Safe_WaitingMutex_Lock; [done|]. intros w2 R2 I2 Hme2 Hnl. seq.
    eapply Safe_UpdateStatus; [done|done|]. intros w3 _ Hme3 _ _. seq.
    eapply Safe_CondWait_begin; [exact Hme3|done|done|].
    intros w4 _ Hme4 _ _. seq.
    eapply Safe_CondWait_end; [done|]. intros v w5 R5 I5 Hme5 _. seq.
    eapply Safe_WaitingMutex_Unlock; [exact Hme5|done|done|].
    intros w6 _ Hme6 _ _. eapply Safe_UpdateStatus; [done|done|]. intros w7 _ Hme7 _ _.
    assert (Hme8 : me t w7 x) by by destruct x. seq. quietly. quietly. auto.
Qed.

(** ** The monitor's owner and counter *)
Lemma Safe_GetOwner {A} t p o (k : option Z -> prog A) Q w x :
  pub t w p o -> me t w x -> m_busy x <> Some p ->
  (forall w' W T M, rely t w w' -> inv w' -> me t w' x -> disjoint_lists W T -> 0 < m_depth x o ->
     locked t w' p o (Some t) (m_depth x o) W T [] M -> Safe t (k (Some t)) Q w') ->
  (forall v w', rely t w w' -> inv w' -> v <> Some t -> m_depth x o = 0 ->
     (forall u, v = Some u -> u ∈ registered) -> Safe t (k v) Q w') ->
  Safe t (Bind (GetOwner p) k) Q w.
Proof.
  intros Hpub Hme Hb Ht Hf. apply Safe_monitor_get. intros w' R I. carry.
  destruct Hpub as (M & Hp & Hv & Ho & _). exists M. split; [done|].
  pose proof (me_depth _ _ _ Hme o) as Hd.
  rewrite <- Ho in Hd. rewrite (depth_published w' p M t I Hp Hv) in Hd. unfold held_by in Hd.
  rewrite Ho in Hd. case_decide as Eo.
  2: { eapply Hf; [done..|by symmetry|]. apply (li_registered _ (inv_lock _ I p M Hp)). }
  rewrite Eo. pose proof (li_owner _ (inv_lock _ I p M Hp) t Eo) as Hl.
  destruct (ls_clean _ _ _ _ (inv_lists _ I p M Hp)) as [C1 C2].
  { intros u Hu. assert (u = t) as -> by congruence. by rewrite (me_busy _ _ _ Hme). }
  assert (Hlk : locked t w' p o (Some t) (m_depth x o) (chain w'.2 WAITERS p)
                  (chain w'.2 TO_WAKEUP p) [] M) by done.
  eapply Ht; try done. by eapply locked_owned.
Qed.

(** The owner sets the counter; at zero it is in transit. *)
Definition transit (p c : Z) : option Z := if decide (c = 0) then Some p else None.

Lemma transit_cases p c : transit p c = None \/ transit p c = Some p.
Proof. unfold transit. case_decide; auto. Qed.

Lemma Safe_SetCounter {A} t p c' (k : () -> prog A) Q w o c W T M0 x :
  locked t w p o (Some t) c W T [] M0 -> me t w x -> disjoint_lists W T ->
  m_busy x = None \/ m_busy x = Some p -> in_u 64 c' ->
  (forall w' M, inv w' -> me t w' {| (with_depth x o c') with m_busy := transit p c' |} ->
     locked t w' p o (Some t) c' W T [] M -> Safe t (k ()) Q w') ->
  Safe t (Bind (SetCounter p c') k) Q w.
Proof.
  intros Hl Hme Hdis Hb Hc Hk.
  eapply Safe_locked_act with (b := transit p c'); [done..|apply transit_cases|done|].
  intros M ch _ El Eo _ [L1 L2 L3]. split.
  - split_and!; try done; simpl.
    + split; simpl; try done. congruence.
    + intros _ Ez. unfold transit. by rewrite decide_True.
  - intros w' N I Hme' Hl'. unfold held_by in Hme'. simpl in Hme', Hl'.
    rewrite decide_True in Hme' by done. rewrite Eo in Hl'. eauto.
Qed.

Lemma Safe_GetCounter {A} t p (k : Z -> prog A) Q w o ow c W T B M0 :
  locked t w p o ow c W T B M0 ->
  (forall w' M, rely t w w' -> inv w' -> locked t w' p o ow c W T B M -> in_u 64 c ->
     Safe t (k c) Q w') ->
  Safe t (Bind (GetCounter p) k) Q w.
Proof.
  intros Hl Hk. apply Safe_monitor_get. intros w' R I. carry. exists Mq. split; [apply Hl|].
  rewrite (lk_count _ _ _ _ _ _ _ _ _ _ Hl). eapply Hk; [done..|].
  rewrite <- (lk_count _ _ _ _ _ _ _ _ _ _ Hl). apply (inv_lock _ I p Mq), Hl.
Qed.

Lemma Safe_IncCounter {A} t p (k : () -> prog A) Q w o c W T M0 x :
  locked t w p o (Some t) c W T [] M0 -> me t w x -> disjoint_lists W T ->
  m_busy x = None \/ m_busy x = Some p -> c + 1 < 2 ^ 64 ->
  (forall w' M, inv w' -> me t w' {| (with_depth x o (c + 1)) with m_busy := None |} ->
     locked t w' p o (Some t) (c + 1) W T [] M -> Safe t (k ()) Q w') ->
  Safe t (Bind (IncCounter p) k) Q w.
Proof.
  intros Hl Hme Hdis Hb Hc Hk. unfold IncCounter. seq. eapply Safe_GetCounter; [done|].
  intros w1 M1 R1 I1 Hl1 [Hc1 Hc2]. carry.
  assert (in_u 64 (c + 1)) by (split; lia).
  rewrite (wrapu_id 64) by done. eapply Safe_SetCounter; [done..|]. intros w2 M2 I2.
  unfold transit. rewrite decide_False by lia. eauto.
Qed.

Lemma Safe_DecCounter {A} t p (k : () -> prog A) Q w o c W T M0 x :
  locked t w p o (Some t) c W T [] M0 -> me t w x -> disjoint_lists W T -> m_busy x = None -> 0 < c ->
  (forall w' M, inv w' -> me t w' {| (with_depth x o (c - 1)) with m_busy := transit p (c - 1) |} ->
     locked t w' p o (Some t) (c - 1) W T [] M -> Safe t (k ()) Q w') ->
  Safe t (Bind (DecCounter p) k) Q w.
Proof.
  intros Hl Hme Hdis Hb Hc Hk. unfold DecCounter. seq. eapply Safe_GetCounter; [done|].
  intros w1 M1 R1 I1 Hl1 [Hc1 Hc2]. carry.
  assert (in_u 64 (c - 1)) by (split; lia).
  rewrite (wrapu_id 64) by done. eapply Safe_SetCounter; eauto.
Qed.

Lemma Safe_take_ownership {A} t p (k : bool -> prog A) Q w o W T M0 x :
  locked t w p o None 0 W T [] M0 -> me t w x -> m_busy x = None ->
  (forall w' M, inv w' -> me t w' {| (with_depth x o 0) with m_busy := Some p |} ->
     locked t w' p o (Some t) 0 W T [] M -> Safe t (k true) Q w') ->
  Safe t (Bind (SetOwner p None (Some t)) k) Q w.
Proof.
  intros Hl Hme Hb Hk. eapply Safe_locked_act with (b := Some p); [done|done|by left|by right|done|].
  intros M ch _ El Eo Ec [L1 L2 L3].
  rewrite bool_decide_eq_true_2 by done. split.
  - split_and!; try done. split; simpl; try done; [congruence|].
    intros u [= <-]. apply Hme.
  - intros w' N I Hme' Hl'. unfold held_by in Hme'. simpl in Hme', Hl'.
    rewrite decide_True in Hme' by done. rewrite Ec in Hme', Hl'. eauto.
Qed.

Lemma Safe_drop_ownership {A} t p (k : bool -> prog A) Q w o W T M0 x :
  locked t w p o (Some t) 0 W T [] M0 -> me t w x -> disjoint_lists W T -> m_busy x = Some p ->
  (forall w' M, inv w' -> me t w' {| (with_depth x o 0) with m_busy := None |} ->
     locked t w' p o None 0 W T [] M -> Safe t (k true) Q w') ->
  Safe t (Bind (SetOwner p (Some t) None) k) Q w.
Proof.
  intros Hl Hme Hdis Hb Hk.
  eapply Safe_locked_act with (b := None); [done|done|by right|by left|done|].
  intros M ch _ El Eo Ec [L1 L2 L3].
  rewrite bool_decide_eq_true_2 by done. split.
  - by split_and!.
  - intros w' N I Hme' Hl'. unfold held_by in Hme'. simpl in Hme', Hl'.
    rewrite Ec in Hl'. eauto.
Qed.

(** ** Acquire *)

(** The mutex is held; the thread becomes the owner. *)
Lemma Safe_own {A} t p (k : () -> prog A) Q w o W T M0 x :
  locked t w p o None 0 W T [] M0 -> me t w x -> disjoint_lists W T -> m_busy x = None ->
  (forall w' M, inv w' -> me t w' (with_depth x o 1) ->
     locked t w' p o (Some t) 1 W T [] M -> Safe t (k ()) Q w') ->
  Safe t (ok ← SetOwner p None (Some t);
          Bind (if negb ok then stop FATAL else AddMonitor t;; IncCounter p) k) Q w.
Proof.
  intros Hl Hme Hdis Hb Hk. eapply Safe_take_ownership; [done..|].
  intros w1 M1 _ Hme1 Hl1. simpl. seq. quietly.
  eapply Safe_IncCounter; [done|done|done|by right|done|].
  intros w2 M2 I2 Hme2 Hl2. eapply Hk; [done| |exact Hl2].
  eapply me_ext; [exact Hme2|..]; try done. intros o'. simpl. by fn_cases.
Qed.

(** The two fields of the thread whose setters assert something. *)
Lemma Safe_SetWaitingMonitor {A} t m (k : () -> prog A) Q w x :
  me t w x -> fst (m_own x) = None \/ m = None ->
  (forall w', inv w' -> me t w' {| x with m_own := (m, snd (m_own x)) |} ->
     (forall p o, pub t w p o -> pub t w' p o) ->
     (forall p o ow c W T B M, locked t w p o ow c W T B M ->
        exists M', locked t w' p o ow c W T B M') -> Safe t (k ()) Q w') ->
  Safe t (Bind (SetWaitingMonitor t m) k) Q w.
Proof.
  intros Hme Hm Hk. eapply Safe_own_field; [done| |exact Hk]. intros c T E. rewrite <- E in Hm |- *.
  replace ((waitingMonitor_ T == None) || (m == None)) with true; [done|].
  symmetry. apply orb_true_iff. rewrite !bool_decide_eq_true. exact Hm.
Qed.

Lemma Safe_SetEnteringMonitor {A} t m (k : () -> prog A) Q w x :
  me t w x -> snd (m_own x) = None \/ m = None ->
  (forall w', inv w' -> me t w' {| x with m_own := (fst (m_own x), m) |} ->
     (forall p o, pub t w p o -> pub t w' p o) ->
     (forall p o ow c W T B M, locked t w p o ow c W T B M ->
        exists M', locked t w' p o ow c W T B M') -> Safe t (k ()) Q w') ->
  Safe t (Bind (SetEnteringMonitor t m) k) Q w.
Proof.
  intros Hme Hm Hk. eapply Safe_own_field; [done| |exact Hk]. intros c T E. rewrite <- E in Hm |- *.
  replace ((enteringMonitor_ T == None) || (m == None)) with true; [done|].
  symmetry. apply orb_true_iff. rewrite !bool_decide_eq_true. exact Hm.
Qed.

Lemma Safe_Acquire {A} t p o (trylock : bool) (k : bool -> prog A) Q w x :
  pub t w p o -> me t w x -> m_status x = RUNNING -> m_busy x = None -> m_priv x = None -> snd (m_own x) = None ->
  0 <= m_cnt x p <= 1 -> m_depth x o + 1 < 2 ^ 64 ->
  (forall w' W T M, inv w' -> me t w' (with_depth x o (m_depth x o + 1)) -> disjoint_lists W T ->
     locked t w' p o (Some t) (m_depth x o + 1) W T [] M -> Safe t (k true) Q w') ->
  (forall w', trylock = true -> inv w' -> me t w' x -> Safe t (k false) Q w') ->
  Safe t (Bind (Acquire t p o trylock) k) Q w.
Proof.
  intros Hpub Hme Hrun Hb Hpr Hon Hc Hd Ht Hf. unfold Acquire. seq.
  eapply Safe_GetOwner; [done|done|by rewrite Hb| |].
  { intros w1 W T M R I Hme1 Hdis _ Hl. rewrite bool_decide_eq_true_2 by done. seq.
    eapply Safe_IncCounter; [done|done|done|by left|done|]. intros w2 M2 I2 Hme2 Hl2.
    apply Safe_bind_ret. eapply Ht; [done| |done|exact Hl2]. by eapply me_ext. }
  intros v w1 R1 I1 Hv Hd0 _. carry. rewrite bool_decide_eq_false_2 by done. seq.
  rewrite Hd0 in *. eapply Safe_TryLock; [done..| |].
  { intros w2 W T M I2 Hme2 _ Hdis Hl. seq. eapply Safe_take_ownership; [done..|].
    intros w3 M3 _ Hme3 Hl3. simpl. seq. quietly. seq.
    eapply Safe_IncCounter; [done|done|done|by right|done|]. intros w5 M5 I5 Hme5 Hl5. apply Safe_bind_ret.
    eapply Ht; try done. eapply me_ext; [exact Hme5|..]; try done. intros o'. simpl. by fn_cases. }
  intros w2 R2 I2. carry. destruct trylock; [apply Safe_bind_ret; by apply Hf|]. seq.
  eapply Safe_fetch_add; [done..|lia|left; lia|]. intros w3 I3 Hme3 Hpub3 _. seq.
  quietly. seq. quietly. seq. unfold ScopedChangeThreadStatus. seq.
  apply Safe_thread_get. intros w6 R6 I6. carry. rewrite (me_status _ _ _ Hme3). seq.
  eapply Safe_UpdateStatus; [done|done|]. intros w7 _ Hme7 Hpub7 _.
  specialize (Hpub7 p o Hpub3). simpl in Hpub7. rewrite fn_lookup_insert in Hpub7.
  specialize (Hpub7 ltac:(lia)). clear Hme3 Hpub3 Hpub. seq. seq.
  eapply Safe_SetEnteringMonitor; [done|by left|]. intros w8 _ Hme8 Hpub8 _. apply Hpub8 in Hpub7.
  clear Hme7. seq.
  eapply Safe_Lock; [done..|]. intros w9 W T M0 I9 Hme9 _ Hdis Hl0. seq.
  eapply Safe_SetEnteringMonitor; [done|by right|]. intros w9' _ Hme9' _ Hl9.
  destruct (Hl9 _ _ _ _ _ _ _ _ Hl0) as [M Hl]. clear Hme9. seq.
  eapply Safe_own; [done..|]. intros w10 M10 _ Hme10 Hl10. seq.
  eapply Safe_UpdateStatus; [done|done|]. intros w11 _ Hme11 _ Hk11.
  destruct (Hk11 _ _ _ _ _ _ _ _ Hl10) as [M11 Hl11]. apply Safe_bind_ret. seq.
  quietly. seq. quietly. seq.
  eapply Safe_fetch_add; [by eapply locked_pub|done|done| |by right; right; eauto 10|].
  { simpl. rewrite fn_lookup_insert. lia. }
  intros w12 I12 Hme12 _ Hk12. destruct (Hk12 _ _ _ _ _ _ Hl11) as [M12 Hl12].
  apply Safe_bind_ret. eapply Ht; [done| |done|exact Hl12].
  eapply me_ext; [exact Hme12|..]; try done; simpl.
  - intros q. fn_cases; lia.
  - rewrite <- Hon. by destruct (m_own x).
Qed.

(** ** Release *)
Lemma Safe_Signal {A} t u (k : () -> prog A) Q w x p o ow c W T B M :
  me t w x -> locked t w p o ow c W T B M ->
  (forall w' M', inv w' -> me t w' x -> locked t w' p o ow c W T B M' -> Safe t (k ()) Q w') ->
  Safe t (Bind (Signal u) k) Q w.
Proof.
  intros Hme Hl Hk. unfold Signal. seq.
  eapply Safe_WaitingMutex_Lock; [done|]. intros w1 R1 I1 Hme1 Hnl. carry. seq. quietly.
  eapply Safe_WaitingMutex_Unlock; [done..|]. intros w2 I2 Hme2 _ Hl2.
  destruct (Hl2 _ _ _ _ _ _ _ _ Hl) as [M3 Hl3]. eapply Hk; [done| |exact Hl3]. by destruct x.
Qed.

Lemma Safe_Release {A} t p o (k : bool -> prog A) Q w x :
  pub t w p o -> me t w x -> m_busy x = None -> (strict = true -> 0 < m_depth x o) ->
  m_at x = None \/ (m_at x = Some p /\ 0 < m_cnt x p) ->
  (forall w', inv w' -> 0 < m_depth x o -> me t w' (with_depth x o (m_depth x o - 1)) ->
     (m_status x = RUNNING \/ 0 < m_cnt x p -> pub t w' p o) -> Safe t (k true) Q w') ->
  Safe t (Bind (Release t p) k) Q w.
Proof.
  intros Hpub Hme Hb Hst Hat Hk. unfold Release. seq.
  eapply Safe_GetOwner; [done..|by rewrite Hb| |].
  2: { intros v w1 R1 I1 Hv Hd _. rewrite bool_decide_eq_false_2 by done. apply Safe_stop.
       right; right; right. split; [done|]. destruct strict; [|done]. specialize (Hst eq_refl). lia. }
  intros w1 W T M1 R1 I1 Hme1 Hdis Hd Hl. clear Hme Hpub.
  rewrite bool_decide_eq_true_2 by done. simpl. seq.
  eapply Safe_DecCounter; [done..|]. intros w2 M2 I2 Hme2 Hl2. seq.
  eapply Safe_GetCounter; [done|]. intros w3 M3 R3 I3 Hl3 _. carry.
  assert (Hpubs : forall w' M, me t w' (with_depth x o (m_depth x o - 1)) ->
    heap w'.1 !! p = Some M -> priv w'.2 p = None -> obj_ M = o ->
    m_status x = RUNNING \/ 0 < m_cnt x p -> pub t w' p o).
  { intros w' M Hme Hp Hv Ho Hpin. exists M. split_and!; [done..|].
    destruct Hpin as [Hpin|Hpin]; [left|right; left].
    - split; [apply Hme|]. by rewrite (me_status _ _ _ Hme).
    - by rewrite (me_cnt _ _ _ Hme). }
  case_bool_decide as Ez.
  2: { apply Safe_bind_ret.
       assert (Hme3 : me t w3 (with_depth x o (m_depth x o - 1))).
       { eapply me_ext; [exact Hme2|..]; try done. simpl. unfold transit. by rewrite decide_False. }
       apply Hk; [done..|]. intros Hpin. eapply Hpubs; try done; apply Hl3. }
  rewrite Ez in *. seq. eapply Safe_drop_ownership; [done..|].
  intros w4 M4 _ Hme4 Hl4. simpl.
  assert (Hme5 : me t w4 (with_depth x o 0)).
  { eapply me_ext; [exact Hme4|..]; try done. intros o'. simpl. by fn_cases. }
  clear Hme2 Hme4 Hme1. seq. eapply Safe_Empty; [done|]. intros w5 M5 R5 I5 Hl5. carry. seq.
  (* the rest, with or without a waiter *)
  assert (Hrest : forall w W' T' M (v : option (Z * option Z)),
    locked t w p o None 0 W' T' [] M -> me t w (with_depth x o 0) ->
    Safe t (Bind (RemoveMonitor t) (fun _ => Bind (Bind
       match v with
       | Some (waiter, waitingMon) => if waitingMon == Some p then Signal waiter else Ret ()
       | None => Ret ()
       end (fun _ => Bind (Unlock p) (fun _ => Ret true))) k)) Q w).
  { clear w w1 w2 w3 w4 w5 R1 I1 I2 R3 I3 R5 I5 Hl Hl2 Hl3 Hl4 Hl5 Hme5.
    intros w W' T' M v Hl Hme. quietly. seq.
    assert (Hend : forall w M, locked t w p o None 0 W' T' [] M -> me t w (with_depth x o 0) ->
      Safe t (Bind (Bind (Unlock p) (fun _ => Ret true)) k) Q w).
    { clear Hl Hme. intros v0 N1 Hl Hme. seq.
      eapply Safe_Unlock; [done..|by simpl; rewrite Hb| |].
      { simpl. intros Hat'. destruct Hat as [?|[_ ?]]; congruence. }
      intros w1 N2 I1 Hme1 Hp Hv Ho _. apply Safe_bind_ret. apply Hk; [done..|]. eauto. }
    destruct v as [[u m]|]; [|apply Safe_bind_ret; eauto].
    destruct (bool_decide _); [|apply Safe_bind_ret; eauto].
    eapply Safe_Signal; [done..|]. eauto. }
  destruct T as [|u T]; simpl.
  - apply Safe_bind_ret. seq. by eapply (Hrest _ _ _ _ None).
  - seq. eapply Safe_Front; [done..|]. intros w6 M6 R6 I6 Hl6. carry. seq.
    apply Safe_thread_get. intros w7 R7 I7. carry. seq.
    eapply Safe_PopFront with (l := TO_WAKEUP) (keep := false); [done|done|done|done| |done|].
    { simpl. destruct Hat as [?|[? _]]; auto. }
    simpl. intros w8 M8 I8 Hme8 Hl8. apply Safe_bind_ret. seq.
    eapply (Hrest _ _ _ _ (Some (u, waitingMonitor_ (threads w7.1 u)))).
    + exact Hl8.
    + destruct x; simpl in *; by subst.
Qed.

(** ** Entering and leaving *)

(** A heavy word leads a running thread to the monitor of the object. *)
Lemma Safe_lookup {A} t o id (k : option Z -> prog A) Q w x :
  me t w x -> m_status x = RUNNING -> inv w -> view_of (marks w.1 o) = VHeavy id ->
  (forall p w', rely t w w' -> inv w' -> pub t w' p o -> Safe t (k (Some p)) Q w') ->
  Safe t (Bind (LookupMonitor id) k) Q w.
Proof.
  intros Hme Hrun I Ev Hk.
  destruct (heavy_monitor w o id I Ev) as (p & M & Hid & Hp & Hv & Ho & Hi).
  pose proof (running_pub t w x p M Hme Hrun Hp Hv) as Hpub.
  apply Safe_read. intros w' R I'.
  destruct (r_monitor _ _ _ R p M Hp Hv) as [M' K].
  { left. split; [apply Hme|]. by rewrite (me_status _ _ _ Hme). }
  pose proof (inv_pool _ I' p M' (km_heap _ _ _ _ _ _ K)) as Hid'.
  rewrite (km_id _ _ _ _ _ _ K), Hi in Hid'. rewrite Hid'. apply Hk; [done..|].
  rewrite Ho in Hpub. by eapply pub_rely.
Qed.

(** The state of a word and what it says of the thread. *)
Lemma view_state v :
  match MarkWord.GetState v with
  | STATE_UNLOCKED => view_of v = VUnlocked
  | STATE_LIGHT_LOCKED => view_of v = VLight (MarkWord.GetThreadId v) (MarkWord.GetLockCount v)
  | STATE_HEAVY_LOCKED => view_of v = VHeavy (MarkWord.GetMonitorId v)
  | STATE_HASHED => view_of v = VHashed (MarkWord.GetHash v)
  | STATE_GC => view_of v = VForward (MarkWord.GetForwardingAddress v)
  end.
Proof. unfold view_of. by destruct (MarkWord.GetState v). Qed.

(** A thread between two operations, or at the head of an operation's loop. *)
Record calm (x : Me) : Prop := {
  calm_status : m_status x = RUNNING;
  calm_cnt : forall p, m_cnt x p = 0;
  calm_busy : m_busy x = None;
  calm_at : m_at x = None;
  calm_cond : m_cond x = [];
  calm_priv : m_priv x = None;
  calm_susp : m_susp x = None;
  calm_own : m_own x = (None, None);
}.

Lemma calm_depth x o d : calm x -> calm (with_depth x o d).
Proof. by intros []. Qed.

(** A light lock is set to a new count of the thread, or an unlocked word. *)
Lemma Safe_light_cas {A} t o old new d (k : bool * Z -> prog A) Q w x :
  me t w x -> mark_inv old ->
  view_of old = VUnlocked \/ (exists c, view_of old = VLight t c) ->
  view_of new = (if decide (d = 0) then VUnlocked else VLight t d) -> is_word new ->
  0 <= d < MarkWord.LIGHT_LOCK_LOCK_MAX_COUNT ->
  (forall w', inv w' -> m_depth x o = light_depth (view_of old) t ->
     me t w' (with_depth x o d) -> Safe t (k (true, old)) Q w') ->
  (forall v w', inv w' -> me t w' x -> Safe t (k (false, v)) Q w') ->
  Safe t (Bind (AtomicSetMark true o old new) k) Q w.
Proof.
  intros Hme Hi Eold Enew Hw Hd Ht Hf.
  pose proof (me_reg _ _ _ Hme) as Hreg.
  eapply Safe_word_cas; [done| | | | | | |].
  - destruct Eold as [-> |[c ->]]; by intros [? ?].
  - rewrite Enew. case_decide; by intros [? ?].
  - intros _. split; [done|..]; rewrite Enew; case_decide; try done.
    intros t' c' [= <- <-]. split; [done|lia].
  - intros u Hu. rewrite Enew.
    destruct Eold as [-> |[c ->]]; case_decide; simpl; rewrite ?decide_False; done.
  - intros h. by destruct Eold as [-> |[c ->]].
  - intros w' I' Ed Hme' _. apply Ht; [done..|]. rewrite Enew in Hme'.
    case_decide as Ez; [by rewrite Ez|]. simpl in Hme'. by rewrite decide_True in Hme'.
  - intros w' R I'. carry. auto.
Qed.

Lemma Safe_MonitorEnter {A} t o trylock (k : State -> prog A) Q w x :
  me t w x -> calm x -> m_depth x o + 1 < 2 ^ 64 ->
  (forall w', inv w' -> me t w' (with_depth x o (m_depth x o + 1)) -> Safe t (k OK) Q w') ->
  (forall w', inv w' -> trylock = true -> me t w' x -> Safe t (k ILLEGAL) Q w') ->
  Safe t (Bind (MonitorEnter t o trylock) k) Q w.
Proof.
  intros Hme Hx Hd Hok Hil. pose proof (calm_status _ Hx) as Hrun. pose proof (calm_priv _ Hx) as Hpr. pose proof (calm_susp _ Hx) as Hsu. unfold MonitorEnter.
  eapply (Safe_bind_loop _ _ _ rely_refl rely_trans t _ (fun _ w => me t w x)); [|by intros; eapply me_rely|done].
  clear w Hme. intros [shouldInflate retry] w Hme.
  set (Q' := fun (r : (bool * Z) + State) (w' : world) => _).
  assert (Hpush : forall w1, me t w1 (with_depth x o (m_depth x o + 1)) ->
    Safe t (PushLocalObjectLocked t o;; Ret (inr OK)) Q' w1).
  { intros w1 Hme1. quietly. apply Safe_ret. intros w2 R2 I2. carry. by apply Hok. }
  assert (Hretry : forall w1 y, me t w1 x ->
    Safe t (Ret (if trylock then inr ILLEGAL else inl y)) Q' w1).
  { intros w1 y Hme1. apply Safe_ret. intros w2 R2 I2. carry. destruct trylock; [by apply Hil|done]. }
  assert (Hinfl : forall w1, me t w1 x -> m_depth x o = 0 ->
    Safe t (r ← Inflate false t o t;
            if (r : bool) then PushLocalObjectLocked t o;; Ret (inr OK)
            else Ret (if trylock then inr ILLEGAL else inl (shouldInflate, retry))) Q' w1).
  { intros w1 Hme1 Hd0. eapply Safe_Inflate; [done..| |]; [|auto].
    intros w2 _ Hme2. rewrite Hd0 in *. by apply Hpush. }
  apply Safe_GetMark. intros w1 R1 I1. carry.
  pose proof (inv_marks _ I1 o) as Hmk. pose proof (view_state (marks w1.1 o)) as Ev.
  pose proof (me_depth _ _ _ Hme o) as Hdo.
  destruct (MarkWord.GetState (marks w1.1 o)).
  - (* unlocked *)
    assert (Hd0 : m_depth x o = 0) by (rewrite <- Hdo; unfold depth; by rewrite Ev).
    destruct shouldInflate; [by apply Hinfl|].
    pose proof (registered_ids t (me_reg _ _ _ Hme)) as Hreg.
    apply Safe_assert; [apply Z.leb_le; lia|].
    pose proof light_count_min as Hmin.
    destruct (DecodeFromLightLock_view (marks w1.1 o) t 1) as (Ev1 & _ & Hw1); [apply Hmk|lia|lia|].
    eapply Safe_light_cas with (d := 1); [done|done|by left|done|done|lia| |
      intros; by apply Hretry].
    intros w2 I2 _ Hme2. rewrite Hd0 in *. by apply Hpush.
  - (* light *)
    destruct (mi_light _ Hmk _ _ Ev) as [Hid Hc].
    destruct (bool_decide_reflect (MarkWord.GetThreadId (marks w1.1 o) = t)) as [Et|Et].
    2: { destruct trylock eqn:Etry.
         { apply Safe_ret. intros w2 R2 I2. carry. by apply Hil. }
         destruct (_ <? MAX_TRYLOCK_RETRY); [by apply Hretry|].
         quietly. quietly. eapply Safe_InflateThinLock; [done..|]. intros w2 I2 Hme2.
         by apply Hretry. }
    assert (Hdc : m_depth x o = MarkWord.GetLockCount (marks w1.1 o)).
    { rewrite <- Hdo. unfold depth. by rewrite Ev, decide_True. }
    set (c := MarkWord.GetLockCount (marks w1.1 o)) in *. cbv zeta.
    rewrite (wrapu_id 32) by (pose proof light_count_u32; unfold in_u; lia).
    destruct (Z.ltb_spec (c + 1) MarkWord.LIGHT_LOCK_LOCK_MAX_COUNT) as [Hlt|Hge].
    + pose proof (registered_ids t (me_reg _ _ _ Hme)) as Hreg.
      destruct (DecodeFromLightLock_view (marks w1.1 o) t (c + 1)) as (Ev1 & _ & Hw1);
        [apply Hmk|lia|lia|].
      eapply Safe_light_cas with (d := c + 1); [done|done| | |done|lia| |
        intros; by apply Hretry].
      * right. exists c. by rewrite Ev, Et.
      * by rewrite decide_False by lia.
      * intros w2 I2 _ Hme2. rewrite <- Hdc in Hme2. by apply Hpush.
    + eapply Safe_Inflate; [done..| |intros; by apply Hretry]. intros w2 I2 Hme2. apply Hretry.
      eapply me_same_depth; [done|]. simpl. lia.
  - (* heavy *)
    eapply Safe_lookup; [done..|]. intros p w2 R2 I2 Hpub. carry.
    eapply Safe_Acquire; [done|done|done|by apply calm_busy|done|by rewrite (calm_own _ Hx)| |done| |].
    + rewrite (calm_cnt _ Hx). lia.
    + intros w3 W T M _ Hme3 _ _. by apply Hpush.
    + intros w3 Etry I3 Hme3. apply Safe_ret. intros w4 R4 I4. carry. by apply Hil.
  - (* hashed *)
    apply Hinfl; [done|]. rewrite <- Hdo. unfold depth. by rewrite Ev.
  - by destruct (mi_forward _ Hmk _ Ev).
Qed.

Lemma Safe_MonitorExit {A} t o (k : State -> prog A) Q w x :
  me t w x -> calm x -> (strict = true -> 0 < m_depth x o) ->
  (forall w', inv w' -> 0 < m_depth x o -> me t w' (with_depth x o (m_depth x o - 1)) ->
     Safe t (k OK) Q w') ->
  (forall w', inv w' -> m_depth x o = 0 -> me t w' x -> Safe t (k ILLEGAL) Q w') ->
  Safe t (Bind (MonitorExit t o) k) Q w.
Proof.
  intros Hme Hx Hd Hok Hil. pose proof (calm_status _ Hx) as Hrun. unfold MonitorExit.
  eapply (Safe_bind_loop _ _ _ rely_refl rely_trans t _ (fun _ w => me t w x));
    [|by intros; eapply me_rely|done].
  clear w Hme. intros _ w Hme.
  set (Q' := fun (r : () + State) (w' : world) => _).
  assert (Hpop : forall w1, 0 < m_depth x o -> me t w1 (with_depth x o (m_depth x o - 1)) ->
    Safe t (PopLocalObjectLocked t o;; Ret (inr OK)) Q' w1).
  { intros w1 Hd1 Hme1. quietly. apply Safe_ret. intros w2 R2 I2. carry. by apply Hok. }
  assert (Hno : forall w1, m_depth x o = 0 -> me t w1 x -> Safe t (Ret (inr ILLEGAL)) Q' w1).
  { intros w1 Hd1 Hme1. apply Safe_ret. intros w2 R2 I2. carry. by apply Hil. }
  apply Safe_GetMark. intros w1 R1 I1. carry.
  pose proof (inv_marks _ I1 o) as Hmk. pose proof (view_state (marks w1.1 o)) as Ev.
  pose proof (me_depth _ _ _ Hme o) as Hdo.
  destruct (MarkWord.GetState (marks w1.1 o)).
  - unfold depth in Hdo. rewrite Ev in Hdo. by apply Hno.
  - (* light *)
    destruct (mi_light _ Hmk _ _ Ev) as [Hid Hc]. unfold depth in Hdo. rewrite Ev in Hdo.
    set (c := MarkWord.GetLockCount (marks w1.1 o)) in *. case_decide as Et.
    2: { rewrite bool_decide_eq_false_2 by done. by apply Hno. }
    rewrite bool_decide_eq_true_2 by done. simpl.
    rewrite (wrapu_id 32) by (pose proof light_count_u32; unfold in_u; lia).
    pose proof (registered_ids t (me_reg _ _ _ Hme)) as Hreg.
    set (new := if negb (bool_decide (c - 1 = 0)) then _ else _).
    assert (Hnew : view_of new = (if decide (c - 1 = 0) then VUnlocked else VLight t (c - 1)) /\
                   is_word new).
    { subst new. destruct (decide (c - 1 = 0)) as [Ez|Ez].
      - rewrite bool_decide_eq_true_2 by done. simpl.
        destruct (DecodeFromUnlocked_view (marks w1.1 o)) as (E1 & _ & E2); [apply Hmk|done].
      - rewrite bool_decide_eq_false_2 by done. simpl.
        destruct (DecodeFromLightLock_view (marks w1.1 o) t (c - 1)) as (E1 & _ & E2);
          [apply Hmk|lia|lia|done]. }
    destruct Hnew as [En Hw].
    eapply Safe_light_cas with (d := c - 1); [done|done| |done|done|lia| |].
    + right. exists c. by rewrite Ev, Et.
    + intros w2 I2 _ Hme2. rewrite Hdo in Hme2. apply Hpop; [lia|done].
    + intros v w2 _ Hme2. apply Safe_ret. intros w3 R3 I3. by carry.
  - (* heavy *)
    eapply Safe_lookup; [done..|]. intros p w2 R2 I2 Hpub. carry.
    eapply Safe_Release; [done|done|by apply calm_busy|done|left; by apply calm_at|].
    intros w3 _ Hd3 Hme3 _. by apply Hpop.
  - unfold depth in Hdo. rewrite Ev in Hdo. by apply Hno.
  - by destruct (mi_forward _ Hmk _ Ev).
Qed.

(** ** Waiting *)

(** The statuses the two forms of waiting accept. *)
Definition wait_status_ok (status : ThreadStatus) (timeout nanos : Z) : bool :=
  if negb ((timeout == 0) && (nanos == 0))
  then bool_decide (status ∈ [IS_TIMED_WAITING; IS_SLEEPING; IS_BLOCKED;
                          IS_SUSPENDED; IS_COMPILER_WAITING; IS_WAITING_INFLATION])
  else status == IS_WAITING.

Lemma Safe_DoWaitInternal {A} t p o st timeout nanos (k : bool -> prog A) Q w x :
  pub t w p o -> me t w x -> 0 < m_cnt x p -> m_priv x = None -> m_cond x = [t] -> wait_status_ok st timeout nanos = true ->
  (forall b w', inv w' -> me t w' x -> pub t w' p o -> Safe t (k b) Q w') ->
  Safe t (Bind (DoWaitInternal t st timeout nanos) k) Q w.
Proof.
  intros Hpub Hme Hc Hpr Hcd Hst Hk. unfold DoWaitInternal. cbv zeta. seq.
  apply Safe_assert; [done|]. seq. apply Safe_thread_get. intros w1 R1 I1. carry.
  rewrite (me_status _ _ _ Hme). seq.
  eapply Safe_UpdateStatus; [done|done|]. intros w2 _ Hme2 Hpub2 _. specialize (Hpub2 _ _ Hpub Hc).
  clear Hpub. seq.
  eapply Safe_CondWait_begin; [done|done|by apply not_elem_of_nil|].
  intros w3 _ Hme3 Hpub3 _. apply Hpub3 in Hpub2. seq.
  eapply Safe_CondWait_end; [done|]. intros v w4 R4 I4 Hme4 _. carry. seq.
  eapply Safe_WaitingMutex_Unlock; [done|done|by apply not_elem_of_nil|].
  intros w5 _ Hme5 Hpub5 _. apply Hpub5 in Hpub2. seq.
  eapply Safe_UpdateStatus; [done|done|]. intros w6 _ Hme6 Hpub6 _. specialize (Hpub6 _ _ Hpub2 Hc). seq.
  eapply Safe_WaitingMutex_Lock; [done|]. intros w7 R7 I7 Hme7 _. carry.
  apply Safe_bind_ret. apply Hk; [done| |done]. eapply me_ext; [exact Hme7|..]; done.
Qed.

Lemma Safe_IsInterrupted {A} t (k : bool -> prog A) Q w x p o ow c W T B M :
  me t w x -> locked t w p o ow c W T B M ->
  (forall b w' M', inv w' -> me t w' x -> locked t w' p o ow c W T B M' -> Safe t (k b) Q w') ->
  Safe t (Bind (IsInterrupted t) k) Q w.
Proof.
  intros Hme Hl Hk. unfold IsInterrupted. seq.
  eapply Safe_WaitingMutex_Lock; [done|]. intros w1 R1 I1 Hme1 Hnl. carry. seq.
  apply Safe_thread_get. intros w2 R2 I2. carry. seq.
  eapply Safe_WaitingMutex_Unlock; [done..|]. intros w3 I3 Hme3 _ Hl3.
  destruct (Hl3 _ _ _ _ _ _ _ _ Hl) as [M3 Hl4]. apply Safe_bind_ret.
  eapply Hk; [done| |exact Hl4]. by destruct x.
Qed.

(** The thread takes itself out of the lists of the monitor. *)
Lemma Safe_unlink {A} t p (k : () -> prog A) Q w o ow c W T M0 x :
  locked t w p o ow c W T [] M0 -> me t w x -> m_busy x = None -> m_at x = Some p ->
  disjoint_lists W T ->
  (forall w', inv w' -> me t w' {| x with m_at := None |} -> Safe t (k ()) Q w') ->
  Safe t (found ← RemoveIf p WAITERS (fun u => t == u);
          Bind (if negb found then RemoveIf p TO_WAKEUP (fun u => t == u);; Ret ()
                else Ret ()) k) Q w.
Proof.
  intros Hl Hme Hb Hat Hdis Hk.
  eapply Safe_RemoveIf; [done..|]. simpl. intros w1 M1 I1 Hme1 Hl1.
  destruct (bool_decide_reflect (t ∈ W)) as [Hin|Hout]; simpl.
  - apply Safe_bind_ret. apply Hk; [done|]. eapply me_outside; [done..| |by apply Hdis].
    rewrite without_elem. naive_solver.
  - rewrite without_notin in Hl1 by done. seq. eapply Safe_RemoveIf; [done..|].
    simpl. intros w2 M2 I2 Hme2 Hl2. apply Safe_bind_ret. apply Hk; [done|].
    eapply me_outside; [done..|]. rewrite without_elem. naive_solver.
Qed.

(** The end of [Wait]. *)
Definition waking (t p o counter : Z) (resultState : State) : prog (() + State) :=
  ret ← Acquire t p o false;
  ASSERT ret;;
  waiters_fetch_add p (-1);;
  SetCounter p counter;;
  i ← IsInterrupted t;
  found ← RemoveIf p WAITERS (fun u => t == u);
  (if negb found then RemoveIf p TO_WAKEUP (fun u => t == u);; Ret ()
   else Ret ());;
  SetWaitingMonitor t None;;
  SetWaitingMonitorOldStatus t FINISHED;;
  Ret (inr (if (i : bool) then INTERRUPTED else resultState)).

Lemma Safe_waking t p o r (J : world -> Prop) (R : State -> world -> Prop) w x :
  r <> ILLEGAL -> m_status x = RUNNING -> (forall q, m_cnt x q = 0) -> m_busy x = None ->
  m_at x = None -> m_cond x = [] -> m_priv x = None -> m_susp x = None ->
  m_own x = (None, None) -> in_u 64 (m_depth x o) ->
  0 < m_depth x o -> pub t w p o ->
  me t w {| m_status := RUNNING; m_cnt := <[p := 1]> (m_cnt x); m_busy := None; m_at := Some p;
            m_depth := <[o := 0]> (m_depth x); m_cond := []; m_priv := None;
            m_susp := None; m_own := (Some p, None) |} ->
  (forall r w', inv w' -> r <> ILLEGAL -> me t w' x -> R r w') ->
  Safe t (waking t p o (m_depth x o) r)
    (fun v w' => match v with inl _ => J w' | inr r => R r w' end) w.
Proof.
  intros Hr Hrun Hc Hb Hat Hcd Hpr Hsu Hon Hcr Hd Hpub Hme Hk. unfold waking.
  eapply Safe_Acquire; [done|done|done|done|done|done| | | |done].
  { simpl. rewrite fn_lookup_insert. lia. }
  { simpl. rewrite fn_lookup_insert. lia. }
  simpl. rewrite fn_lookup_insert. intros w1 W T M1 I1 Hme1 Hdis Hl1.
  apply Safe_bind_ret.
  eapply Safe_fetch_add; [by eapply locked_pub|done|done| |by right; right; eauto 10|].
  { simpl. rewrite fn_lookup_insert. lia. }
  intros w2 I2 Hme2 _ Hl2. destruct (Hl2 _ _ _ _ _ _ Hl1) as [M2 Hl3].
  eapply Safe_SetCounter; [done|done|done|by left|done|].
  unfold transit. rewrite decide_False by lia. intros w3 M3 I3 Hme3 Hl4.
  eapply Safe_IsInterrupted; [done..|]. intros i w4 M4 I4 Hme4 Hl5.
  eapply Safe_unlink; [done..|]. intros w5 I5 Hme5.
  eapply Safe_SetWaitingMonitor; [done|by right|]. clear Hme5. intros w6 _ Hme6 _ _. quietly.
  apply Safe_ret. intros w7 R7 I7. carry. apply Hk; [done|by destruct i|].
  eapply me_ext; [exact Hme6|..]; simpl; try done; intros q; fn_cases; rewrite ?Hc; done.
Qed.

Lemma Safe_Wait {A} t o st timeout nanos ignoreInterruption (k : State -> prog A) Q w x :
  me t w x -> calm x -> (strict = true -> 0 < m_depth x o) -> wait_status_ok st timeout nanos = true ->
  (forall r w', inv w' -> (r <> ILLEGAL <-> 0 < m_depth x o) -> me t w' x -> Safe t (k r) Q w') ->
  Safe t (Bind (Wait t o st timeout nanos ignoreInterruption) k) Q w.
Proof.
  intros Hme Hx Hd0 Hst Hk. destruct Hx as [Hrun Hc Hb Hat Hcd Hpr Hsu Hon]. unfold Wait.
  eapply (Safe_bind_loop _ _ _ rely_refl rely_trans t _ (fun _ w => me t w x));
    [|by intros; eapply me_rely|done].
  clear w Hme. intros _ w Hme. set (Q' := fun (r : () + State) (w' : world) => _).
  assert (Hno : forall w1, m_depth x o = 0 -> me t w1 x -> Safe t (Ret (inr ILLEGAL)) Q' w1).
  { intros w1 Hd1 Hme1. apply Safe_ret. intros w2 R2 I2. carry. apply Hk; [done| |done].
    split; [done|lia]. }
  apply Safe_GetMark. intros w1 R1 I1. carry.
  pose proof (inv_marks _ I1 o) as Hmk. pose proof (view_state (marks w1.1 o)) as Ev.
  pose proof (me_depth _ _ _ Hme o) as Hdo. unfold depth in Hdo.
  destruct (MarkWord.GetState (marks w1.1 o)); rewrite Ev in Hdo;
    try (by apply Hno).
  - (* light *)
    case_decide as Et.
    2: { rewrite bool_decide_eq_false_2 by done. apply Safe_stop_end. right; right; right.
         split; [done|]. destruct strict; [|done]. specialize (Hd0 eq_refl). lia. }
    destruct (mi_light _ Hmk _ _ Ev) as [_ Hc0].
    rewrite bool_decide_eq_true_2 by done. simpl.
    eapply Safe_Inflate; [done..| |]; intros w2 I2 Hme2; apply Safe_ret; intros w3 R3 I3; carry;
      [|done]. eapply me_same_depth; [done|]. simpl. lia.
  - (* heavy *)
    clear Hdo. eapply Safe_lookup; [done..|]. intros p w2 R2 I2 Hpub. carry.
    eapply Safe_GetOwner; [done..|by rewrite Hb| |].
    2: { intros v w3 R3 I3 Hv Hd _. carry. rewrite bool_decide_eq_false_2 by done. by apply Hno. }
    clear Hme Hpub. intros w3 W T M R3 I3 Hme Hdis Hd Hl. rewrite bool_decide_eq_true_2 by done. simpl.
    eapply Safe_WaitingMutex_Lock; [done|]. intros w4 R4 I4 Hme4 _. carry. rewrite Hcd in Hme4.
    eapply Safe_GetCounter; [done|]. intros w5 M5 R5 I5 Hl5 Hcr. carry.
    eapply Safe_PushFront_self; [done..|]. simpl. intros w6 M6 I6 Hme6 Hl6 Hdis6.
    eapply Safe_SetWaitingMonitor; [done|left; simpl; by rewrite Hon|]. intros w6' _ Hme6' _ Hl6'.
    destruct (Hl6' _ _ _ _ _ _ _ _ Hl6) as [M6' Hl6'']. clear Hme6 Hl6 Hl6'. quietly.
    eapply Safe_SetCounter; [done|done|done|by left|done|]. intros w7 M7 I7 Hme7 Hl7.
    eapply Safe_fetch_add; [by eapply locked_pub|done|done| | |].
    { simpl. rewrite Hc. lia. }
    { left. simpl. rewrite Hc. lia. }
    intros w8 I8 Hme8 Hpub8 _.
    eapply Safe_Release; [done|done|done| | |].
    { simpl. rewrite fn_lookup_insert. lia. }
    { right. simpl. rewrite fn_lookup_insert, Hc. split; [done|lia]. }
    simpl. rewrite fn_lookup_insert. intros w9 I9 _ Hme9 Hpub9.
    specialize (Hpub9 (or_introl Hrun)). clear Hpub8.
    (* what the thread knows while it waits *)
    set (y := {| m_status := RUNNING; m_cnt := <[p := 1]> (m_cnt x); m_busy := None; m_at := Some p;
                 m_depth := <[o := 0]> (m_depth x); m_cond := [t];
                 m_priv := None; m_susp := None; m_own := (Some p, None) |}).
    assert (Hy : me t w9 y).
    { eapply me_ext; [exact Hme9|..]; simpl; try done; [..|by rewrite Hon]; intros q; fn_cases; try done.
      all: rewrite ?Hc; done. }
    assert (Hend : forall r w', r <> ILLEGAL -> pub t w' p o ->
      me t w' {| y with m_cond := [] |} -> Safe t (waking t p o (m_depth x o) r) Q' w').
    { clear Hme Hme4 Hme9 Hy. intros r w' Hr Hpub Hme. eapply Safe_waking with (x := x); try done.
      intros r' w13 I13 Hr'. apply Hk; [done|]. by split. }
    apply Safe_thread_get. intros w10 R10 I10. carry. clear Hme Hme4 Hme9.
    destruct (_ && _).
    + seq. eapply Safe_WaitingMutex_Unlock; [exact Hy|done|by apply not_elem_of_nil|].
      intros w11 _ Hme11 Hpub11 _. specialize (Hpub11 _ _ Hpub9). seq.
      eapply Safe_Safepoint; [done|done|]. intros w12 _ Hme12 Hpub12.
      specialize (Hpub12 p o Hpub11). simpl in Hpub12. rewrite fn_lookup_insert in Hpub12. apply Safe_bind_ret. apply (Hend INTERRUPTED); [done| |done]. apply Hpub12. lia.
    + seq. eapply Safe_DoWaitInternal; [done|done| |done|done|done|].
      { simpl. rewrite fn_lookup_insert. lia. }
      intros b w11 _ Hme11 Hpub11. seq.
      eapply Safe_WaitingMutex_Unlock; [done|done|by apply not_elem_of_nil|].
      intros w12 _ Hme12 Hpub12 _. specialize (Hpub12 _ _ Hpub11). apply Safe_bind_ret.
      by apply (Hend OK).
Qed.
End Operations.
