(* ===== verification/MonitorCalls.v ===== *)
(** The remaining calls of the monitors keep the protocol: notification, identity
    hash codes, queries and interruption. *)
From stdpp Require Import base list gmap functions sets.
From S2P Require Import Prelude MarkWord Threads Monitor MonitorInv MonitorRules MonitorLists MonitorSafe.
Local Open Scope Z_scope.
Local Open Scope ark_scope.
Local Open Scope prog_scope.

Section Calls.
Context `{MemoryModelConfig} `{!ConfigLayout} `{Build} `{!BuildOk}.
Context (strict : bool).
Abbreviation world := (Store * Ghost)%type.
Abbreviation Safe := (Safe inv rely (tolerated strict)).

(** ** Notification *)
Definition if_held {A} (x : Me) (o : Z) (yes no : A) : A := if decide (0 < m_depth x o) then yes else no.

Lemma Safe_notifying {A} t o body (k : State -> prog A) Q w x :
  me t w x -> calm x ->
  (forall p w1 c W T M (k1 : () -> prog A),
     me t w1 x -> disjoint_lists W T -> locked t w1 p o (Some t) c W T [] M -> 0 < c ->
     (forall w2, inv w2 -> me t w2 x -> Safe t (k1 ()) Q w2) ->
     Safe t (Bind (body p) k1) Q w1) ->
  (forall w', inv w' -> me t w' x -> Safe t (k (if_held x o OK ILLEGAL)) Q w') ->
  Safe t (Bind (notifying t o body) k) Q w.
Proof.
  intros Hme Hx Hbody Hk. pose proof (calm_status _ Hx) as Hrun. unfold if_held in Hk.
  unfold notifying. seq. apply Safe_GetMark. intros w1 R1 I1. carry.
  pose proof (inv_marks _ I1 o) as Hmk. pose proof (view_state (marks w1.1 o)) as Ev.
  pose proof (me_depth _ _ _ Hme o) as Hdo. unfold depth in Hdo.
  destruct (MarkWord.GetState (marks w1.1 o)); rewrite Ev in Hdo.
  - apply Safe_bind_ret. rewrite decide_False in Hk by lia. auto.
  - apply Safe_bind_ret. destruct (mi_light _ Hmk _ _ Ev) as [_ Hc]. case_decide as Et.
    + rewrite bool_decide_eq_true_2 by done. rewrite decide_True in Hk by lia. auto.
    + rewrite bool_decide_eq_false_2 by done. rewrite decide_False in Hk by lia. auto.
  - clear Hdo. seq. eapply Safe_lookup; [done..|]. intros p w2 R2 I2 Hpub. carry. seq.
    eapply Safe_GetOwner; [done..|by rewrite (calm_busy _ Hx)| |].
    + intros w3 W T M R3 I3 Hme3 Hdis Hd Hl. rewrite bool_decide_eq_true_2 by done. simpl. seq.
      eapply Hbody; [done..|]. intros w4 I4 Hme4. apply Safe_bind_ret.
      rewrite decide_True in Hk by lia. auto.
    + intros v w3 R3 I3 Hv Hd _. carry. rewrite bool_decide_eq_false_2 by done. apply Safe_bind_ret.
      rewrite decide_False in Hk by lia. auto.
  - apply Safe_bind_ret. rewrite decide_False in Hk by lia. auto.
  - apply Safe_bind_ret. rewrite decide_False in Hk by lia. auto.
Qed.

Lemma Safe_Notify {A} t o (k : State -> prog A) Q w x :
  me t w x -> calm x ->
  (forall w', inv w' -> me t w' x -> Safe t (k (if_held x o OK ILLEGAL)) Q w') ->
  Safe t (Bind (Notify t o) k) Q w.
Proof.
  intros Hme Hx Hk. eapply Safe_notifying; [done..| |done].
  clear w Hme Hk. intros p w c W T M k1 Hme Hdis Hl Hc Hk. seq.
  eapply Safe_Empty; [done|]. intros w1 M1 R1 I1 Hl1. carry. simpl.
  destruct W as [|u W]; simpl; [apply Safe_bind_ret; auto|]. seq.
  eapply Safe_Front; [done..|]. intros w2 M2 R2 I2 Hl2. carry. seq.
  assert (HuW : u ∉ W).
  { eapply (NoDup_middle_out []). eapply links_NoDup.
    exact (locked_links _ _ _ _ _ _ _ _ _ _ WAITERS I2 Hl2). }
  eapply Safe_PopFront with (l := WAITERS) (keep := true);
    [done|done|done|by apply calm_busy|left; by apply calm_at|done|]. simpl.
  intros w3 M3 I3 Hme3 Hl3.
  eapply Safe_PushFront_limbo; [done|done|done|left; exact (calm_at _ Hx)|done| | | |].
  - apply Hdis. by left.
  - intros v Hv. apply Hdis. by right.
  - lia.
  - simpl. intros w4 M4 I4 Hme4 _. apply Hk; [done|]. eapply me_ext; [done|..]; try done.
    by apply calm_busy.
Qed.

Lemma Safe_NotifyAll {A} t o (k : State -> prog A) Q w x :
  me t w x -> calm x ->
  (forall w', inv w' -> me t w' x -> Safe t (k (if_held x o OK ILLEGAL)) Q w') ->
  Safe t (Bind (NotifyAll t o) k) Q w.
Proof.
  intros Hme Hx Hk. eapply Safe_notifying; [done..| |done].
  clear w Hme Hk. intros p w c W T M k1 Hme Hdis Hl Hc Hk. seq.
  pose proof (calm_busy _ Hx) as Hb. pose proof (calm_at _ Hx) as Hat.
  eapply Safe_Empty; [done|]. intros w1 M1 R1 I1 Hl1. carry. simpl.
  destruct T as [|u T _] using rev_ind; simpl.
  { eapply Safe_Swap; [done|done|done|by left|]. auto. }
  rewrite bool_decide_eq_false_2 by (by destruct T). seq.
  eapply Safe_Empty; [done|]. intros w2 M2 R2 I2 Hl2. carry. simpl.
  destruct W as [|v W]; simpl; [apply Safe_bind_ret; auto|]. seq.
  eapply Safe_Splice; [done|done|done|by left|done|]. intros w3 M3 I3 Hme3 Hl3.
  eapply Safe_SetHead with (x := x) (C := []) (B' := []) (b := None) (at' := None);
    [done|done|by left|by left|by left|..]; simpl.
  - intros. apply links_nil.
  - intros y Hy. by left.
  - intros _. split; [done|]. by intros y ?%elem_of_nil.
  - intros Ht. eapply locked_at in Ht; [|done..]. congruence.
  - by left.
  - intros w4 M4 I4 Hme4 _ _. apply Hk; [done|]. by eapply me_ext.
Qed.

(** ** Hash codes *)
Lemma hash_mask_range v :
  in_u 32 v -> 0 <= Z.land v MarkWord.HASH_MASK <= MarkWord.HASH_MASK /\
               in_u 32 (Z.land v MarkWord.HASH_MASK).
Proof.
  intros [H1' H2']. layout. rewrite shl_one, Z.land_ones by lia.
  rewrite Z.ones_equiv. assert (0 < 2 ^ (BITS - 4)) by (apply Z.pow_pos_nonneg; lia).
  pose proof (Z.mod_pos_bound v (2 ^ (BITS - 4))). pose proof (Z.mod_le v (2 ^ (BITS - 4))).
  unfold in_u. lia.
Qed.

Lemma Safe_GenerateHashCode {A} t (k : Z -> prog A) Q w :
  (forall h w', rely t w w' -> inv w' -> 0 < h <= MarkWord.HASH_MASK -> in_u 32 h ->
     Safe t (k h) Q w') ->
  Safe t (Bind GenerateHashCode k) Q w.
Proof.
  intros Hk. unfold GenerateHashCode.
  eapply (Safe_bind_loop _ _ _ rely_refl rely_trans t _ (fun _ w1 => rely t w w1));
    [|intros; by eapply rely_trans|apply rely_refl].
  intros _ w1 R1. apply Safe_read. intros w2 R2 I2. cbv zeta.
  pose proof (inv_seed _ I2) as Hs. set (v := g_hashSeed w2.1) in *. clearbody v.
  eapply (Safe_inert strict t _ _ (fun _ _ => True)).
  - intros s c _. destruct (_ && _); (split; [split|done]); try done.
    intros _. apply wrapu_range. lia.
  - intros ok w3 R3 I3 _. apply Safe_ret. intros w4 R4 I4.
    assert (R : rely t w w4) by (eapply rely_trans; [|done]; by eauto using rely_trans).
    destruct (negb ok); [done|]. simpl.
    destruct (bool_decide_reflect (Z.land v MarkWord.HASH_MASK = 0)) as [Ez|Ez]; [done|].
    assert (Hh : 0 <= Z.land v MarkWord.HASH_MASK <= MarkWord.HASH_MASK /\
                 in_u 32 (Z.land v MarkWord.HASH_MASK)).
    { apply hash_mask_range, Hs. }
    apply Hk; [done..|lia|apply Hh].
Qed.

(** The hash of a published monitor. *)
Lemma pub_hash t w p o M :
  inv w -> pub t w p o -> heap w.1 !! p = Some M ->
  hash_of w.1 o = if decide (hashCode_ M = 0) then None else Some (hashCode_ M).
Proof.
  intros I (N & Hp & Hv & <- & _) Hp'. assert (N = M) as -> by congruence. by apply (hash_published w p).
Qed.

(** The hash of a published monitor stays once it is set. *)
Lemma Safe_read_hash {A B} t p o h (f : Monitor -> B) (k : B -> prog A) Q w x :
  me t w x -> pub t w p o -> hash_of w.1 o = Some h ->
  (forall M w', inv w' -> me t w' x -> pub t w' p o -> hash_of w'.1 o = Some h -> hashCode_ M = h ->
     h <> 0 -> Safe t (k (f M)) Q w') ->
  Safe t (Bind (monitor_get p f) k) Q w.
Proof.
  intros Hme Hpub Hh Hk. apply Safe_monitor_get. intros w1 R1 I1. carry. apply (r_hash _ _ _ R1) in Hh.
  pose proof Hpub as (M & Hp & _). exists M. split; [done|].
  pose proof (pub_hash t w1 p o M I1 Hpub Hp) as E. rewrite Hh in E.
  destruct (decide (hashCode_ M = 0)); [done|]. injection E as Eh. by apply Hk; try congruence.
Qed.

Lemma Safe_Monitor_GetHashCode {A} t p o (k : Z -> prog A) Q w x :
  me t w x -> m_status x = RUNNING -> pub t w p o ->
  (forall h w', inv w' -> me t w' x -> hash_of w'.1 o = Some h -> Safe t (k h) Q w') ->
  Safe t (Bind (Monitor_GetHashCode p) k) Q w.
Proof.
  intros Hme Hrun Hpub Hk. unfold Monitor_GetHashCode.
  eapply (Safe_bind_loop _ _ _ rely_refl rely_trans t _ (fun _ w1 => me t w1 x /\ pub t w1 p o));
    [|intros _ w1 w2 [??] R I; split; [by eapply me_rely|by eapply pub_rely]|done].
  clear w Hme Hpub. intros _ w [Hme Hpub].
  apply Safe_monitor_get. intros w1 R1 I1. carry.
  destruct Hpub as (M & Hp & Hpub'). exists M. split; [done|].
  assert (Hpub : pub t w1 p o) by by exists M. clear Hpub'.
  pose proof (pub_hash t w1 p o M I1 Hpub Hp) as Hh.
  destruct (bool_decide_reflect (hashCode_ M = 0)) as [Ez|Ez]; simpl.
  - eapply Safe_GenerateHashCode. intros h w2 R2 I2 Hr H32. carry.
    eapply Safe_hash_cas; [done..|]. intros b w3 I3 Hme3 Hpub3 Hb. apply Safe_ret.
    intros w4 R4 I4. carry. destruct b; [|done].
    apply Hk; [done..|]. by apply (r_hash _ _ _ R4), Hb.
  - rewrite decide_False in Hh by done.
    eapply Safe_read_hash; [done..|]. intros M2 w2 I2 Hme2 Hpub2 Hh2 E2 Hn2.
    apply Safe_assert; [rewrite E2; by apply negb_true_iff, bool_decide_eq_false_2|].
    eapply Safe_read_hash; [done..|]. intros M3 w3 I3 Hme3 Hpub3 Hh3 E3 _. apply Safe_ret.
    intros w4 R4 I4. apply Hk; [done|by eapply me_rely|]. apply (r_hash _ _ _ R4). by rewrite E3.
Qed.

Lemma Safe_GetHashCode {A} t o (k : Z -> prog A) Q w x :
  me t w x -> calm x ->
  (forall h w', inv w' -> me t w' x -> hash_of w'.1 o = Some h -> Safe t (k h) Q w') ->
  Safe t (Bind (GetHashCode t o) k) Q w.
Proof.
  intros Hme Hx Hk. pose proof (calm_status _ Hx) as Hrun. pose proof (calm_priv _ Hx) as Hpr. pose proof (calm_susp _ Hx) as Hsu.
  unfold GetHashCode.
  eapply (Safe_bind_loop _ _ _ rely_refl rely_trans t _ (fun _ w => me t w x));
    [|by intros; eapply me_rely|done].
  clear w Hme. intros _ w Hme. set (Q' := fun (r : () + Z) (w' : world) => _).
  assert (Hloop : forall w1, me t w1 x -> Safe t (Ret (inl ())) Q' w1).
  { intros w1 Hme1. apply Safe_ret. intros w2 R2 I2. by carry. }
  apply Safe_GetMark. intros w1 R1 I1. carry.
  pose proof (inv_marks _ I1 o) as Hmk. pose proof (view_state (marks w1.1 o)) as Ev.
  pose proof (me_depth _ _ _ Hme o) as Hdo. unfold depth in Hdo.
  destruct (MarkWord.GetState (marks w1.1 o)); rewrite Ev in Hdo.
  - (* unlocked *)
    set (old := marks w1.1 o) in *. clearbody old.
    apply Safe_GenerateHashCode. intros h w2 R2 I2 Hr H32. carry.
    destruct (DecodeFromHash_view old h) as (Ev1 & _ & Hw1); [apply Hmk|lia|done|].
    apply Safe_assert.
    { pose proof (view_state (MarkWord.DecodeFromHash old h)) as Es. rewrite Ev1 in Es.
      apply bool_decide_eq_true_2. by destruct (MarkWord.GetState (MarkWord.DecodeFromHash old h)). }
    eapply Safe_word_cas; [done|..].
    + rewrite Ev. by intros [? ?].
    + rewrite Ev1. by intros [? ?].
    + intros _. split; [done|..]; rewrite Ev1; try done. by intros h' [= <-].
    + intros u Hu. by rewrite Ev, Ev1.
    + by rewrite Ev.
    + intros w3 I3 Ed Hme3 _. apply Hloop. eapply me_same_depth; [done|].
      by rewrite Ed, Ev, Ev1.
    + intros w3 R3 I3. carry. by apply Hloop.
  - (* light *)
    destruct (bool_decide_reflect (MarkWord.GetThreadId (marks w1.1 o) = t)) as [Et|Et].
    + rewrite decide_True in Hdo by done. destruct (mi_light _ Hmk _ _ Ev) as [_ Hc]. seq.
      eapply Safe_Inflate; [done..| |]; intros w2 I2 Hme2; apply Safe_bind_ret; apply Hloop; [|done].
      eapply me_same_depth; [done|]. simpl. lia.
    + eapply Safe_InflateThinLock; [done..|]. intros w2 I2 Hme2. by apply Hloop.
  - (* heavy *)
    eapply Safe_lookup; [done..|]. intros p w2 R2 I2 Hpub. carry.
    eapply Safe_Monitor_GetHashCode; [done..|]. intros h w3 I3 Hme3 Hh. apply Safe_ret.
    intros w4 R4 I4. carry. apply Hk; [done..|]. by apply (r_hash _ _ _ R4).
  - (* hashed *)
    apply Safe_ret. intros w2 R2 I2. carry. apply Hk; [done..|]. apply (r_hash _ _ _ R2).
    unfold hash_of. by rewrite Ev.
  - by destruct (mi_forward _ Hmk _ Ev).
Qed.

(** ** Queries *)
Lemma if_held_yes {A} x o (yes no : A) : 0 < m_depth x o -> if_held x o yes no = yes.
Proof. intros. unfold if_held. by rewrite decide_True. Qed.
Lemma if_held_no {A} x o (yes no : A) : m_depth x o = 0 -> if_held x o yes no = no.
Proof. intros E. unfold if_held. by rewrite decide_False by lia. Qed.

Lemma Safe_HoldsLock {A} t o (k : Z -> prog A) Q w x :
  me t w x -> calm x ->
  (forall w', inv w' -> me t w' x -> Safe t (k (if_held x o 1 0)) Q w') ->
  Safe t (Bind (HoldsLock t o) k) Q w.
Proof.
  intros Hme Hx Hk. pose proof (calm_status _ Hx) as Hrun.
  unfold HoldsLock. seq. apply Safe_GetMark. intros w1 R1 I1. carry.
  pose proof (inv_marks _ I1 o) as Hmk. pose proof (view_state (marks w1.1 o)) as Ev.
  pose proof (me_depth _ _ _ Hme o) as Hdo. unfold depth in Hdo.
  destruct (MarkWord.GetState (marks w1.1 o)); rewrite Ev in Hdo.
  - apply Safe_bind_ret. rewrite if_held_no in Hk by done. auto.
  - apply Safe_bind_ret. destruct (mi_light _ Hmk _ _ Ev) as [_ Hc]. case_decide as Et.
    + rewrite bool_decide_eq_true_2 by done. rewrite if_held_yes in Hk by lia. auto.
    + rewrite bool_decide_eq_false_2 by done. rewrite if_held_no in Hk by done. auto.
  - clear Hdo. seq. eapply Safe_lookup; [done..|]. intros p w2 R2 I2 Hpub. carry. seq.
    eapply Safe_GetOwner; [done..|by rewrite (calm_busy _ Hx)| |].
    + intros w3 W T M R3 I3 Hme3 Hdis Hd Hl. rewrite bool_decide_eq_true_2 by done.
      apply Safe_bind_ret. rewrite if_held_yes in Hk by lia. auto.
    + intros v w3 R3 I3 Hv Hd _. carry. rewrite bool_decide_eq_false_2 by done. apply Safe_bind_ret.
      rewrite if_held_no in Hk by done. auto.
  - apply Safe_bind_ret. rewrite if_held_no in Hk by done. auto.
  - apply Safe_bind_ret. rewrite if_held_no in Hk by done. auto.
Qed.

(** What the owner query may answer a thread [t]: [h] tells whether it holds the object.  A
    light lock gives the internal id of the holder, a heavy one its id in the
    operating system. *)
Definition owner_answer (t : Z) (h : bool) (v : Z) : Prop :=
  if h then v = t \/ v = osId t
  else v = 0 \/ Exists (fun u => u <> t /\ (v = u \/ v = osId u)) registered.

Lemma owner_answer_other t u v : u ∈ registered -> u <> t -> v = u \/ v = osId u -> owner_answer t false v.
Proof. intros Hu Hne Hv. right. apply Exists_exists. exists u. split; [by apply list_elem_of_In|done]. Qed.

Lemma Safe_GetLockOwnerOsThreadID {A} t o (k : Z -> prog A) Q w x :
  me t w x -> calm x ->
  (forall r w', inv w' -> me t w' x -> owner_answer t (bool_decide (0 < m_depth x o)) r ->
     Safe t (k r) Q w') ->
  Safe t (Bind (GetLockOwnerOsThreadID (Some o)) k) Q w.
Proof.
  intros Hme Hx Hk. pose proof (calm_status _ Hx) as Hrun.
  unfold GetLockOwnerOsThreadID. seq. apply Safe_GetMark. intros w1 R1 I1. carry.
  pose proof (inv_marks _ I1 o) as Hmk. pose proof (view_state (marks w1.1 o)) as Ev.
  pose proof (me_depth _ _ _ Hme o) as Hdo. unfold depth in Hdo.
  destruct (MarkWord.GetState (marks w1.1 o)); rewrite Ev in Hdo;
    try (apply Safe_bind_ret; apply Hk; [done..|]; rewrite bool_decide_eq_false_2 by lia; by left).
  - apply Safe_bind_ret. destruct (mi_light _ Hmk _ _ Ev) as [Hu Hc].
    apply Hk; [done..|]. case_decide.
    + rewrite bool_decide_eq_true_2 by lia. by left.
    + rewrite bool_decide_eq_false_2 by lia. eapply owner_answer_other; [exact Hu|done|by left].
  - clear Hdo. seq. eapply Safe_lookup; [done..|]. intros p w2 R2 I2 Hpub. carry. seq.
    eapply Safe_GetOwner; [done..|by rewrite (calm_busy _ Hx)| |].
    + intros w3 W T M R3 I3 Hme3 Hdis Hd Hl. apply Safe_bind_ret. apply Hk; [done..|].
      rewrite bool_decide_eq_true_2 by done. by right.
    + intros v w3 R3 I3 Hv Hd Hr. carry. apply Safe_bind_ret. apply Hk; [done..|].
      rewrite bool_decide_eq_false_2 by lia. destruct v as [v|]; simpl; [|by left].
      eapply owner_answer_other; [by apply Hr|congruence|by right].
Qed.

Lemma Safe_GetMonitorFromObject {A} t o (k : option Z -> prog A) Q w x :
  me t w x ->
  (forall r w', inv w' -> me t w' x -> Safe t (k r) Q w') ->
  Safe t (Bind (GetMonitorFromObject (Some o)) k) Q w.
Proof.
  intros Hme Hk. unfold GetMonitorFromObject. seq. apply Safe_GetMark. intros w1 R1 I1. carry.
  destruct (MarkWord.GetState _); try (apply Safe_bind_ret; auto).
  apply Safe_read. intros w2 R2 I2. carry. auto.
Qed.

(** ** Interruption *)
Lemma Safe_Interrupt {A} t u (k : () -> prog A) Q w x :
  me t w x -> (forall w', inv w' -> me t w' x -> Safe t (k ()) Q w') ->
  Safe t (Bind (Interrupt u) k) Q w.
Proof.
  intros Hme Hk. unfold Interrupt. seq.
  eapply Safe_WaitingMutex_Lock; [done|]. intros w1 R1 I1 Hme1 Hnl. clear Hme. seq. quietly. seq.
  quietly. eapply Safe_WaitingMutex_Unlock; [done..|]. intros w2 I2 Hme2 _ _.
  apply Hk; [done|]. by eapply me_ext.
Qed.

Lemma Safe_ClearInterrupted {A} t u (k : () -> prog A) Q w x :
  me t w x -> (forall w', inv w' -> me t w' x -> Safe t (k ()) Q w') ->
  Safe t (Bind (ClearInterrupted u) k) Q w.
Proof.
  intros Hme Hk. unfold ClearInterrupted. seq.
  eapply Safe_WaitingMutex_Lock; [done|]. intros w1 R1 I1 Hme1 Hnl. clear Hme. seq.
  quietly. eapply Safe_WaitingMutex_Unlock; [done..|]. intros w2 I2 Hme2 _ _.
  apply Hk; [done|]. by eapply me_ext.
Qed.

End Calls.
