(* ===== verification/MonitorCollector.v ===== *)
(** The collector and the monitors.

    The collector is a thread that is not one of the managed threads.  It sets and
    clears its bit of an object's word while the others run; it deflates the
    monitors while it holds the mutator lock, when no managed thread runs managed
    code, though threads may be blocked on a monitor or wait in one.  Only monitors
    without owner and without such threads are deflated, and what a word says
    of the lock and of the hash is what the monitor said. *)
From stdpp Require Import base list gmap functions sets fin_maps.
From S2P Require Import Prelude MarkWord Threads Monitor MonitorInv MonitorRules MonitorLists MonitorSafe.
Local Open Scope Z_scope.
Local Open Scope ark_scope.
Local Open Scope prog_scope.

Section Collector.
Context `{MemoryModelConfig} `{!ConfigLayout} `{Build} `{!BuildOk}.
Context (strict : bool).
Abbreviation world := (Store * Ghost)%type.
Abbreviation Safe := (Safe inv rely (tolerated strict)).

(** ** The bits of the collector *)
Lemma Safe_update_mark {A} t o f (k : () -> prog A) Q w :
  (forall v, is_word v -> MarkWord.GetState v <> STATE_GC -> view_of (f v) = view_of v /\ is_word (f v)) ->
  (forall w', rely t w w' -> inv w' -> Safe t (k ()) Q w') ->
  Safe t (Bind (update_mark o f) k) Q w.
Proof.
  intros Hf Hk. unfold update_mark. seq. apply Safe_GetMark. intros w1 R1 I1.
  eapply (Safe_bind_loop _ _ _ rely_refl rely_trans t _ (fun _ w1 => rely t w w1));
    [|intros; by eapply rely_trans|done].
  intros v w2 R2. eapply Safe_word_same; [apply Hf|]. intros b v' w3 R3 I3. apply Safe_ret.
  intros w4 R4 I4. assert (R : rely t w w4) by (eapply rely_trans; [|done]; by eapply rely_trans).
  destruct b; simpl; [by apply Hk|done].
Qed.

Lemma mark_bit_same v b :
  is_word v -> MarkWord.GetState v <> STATE_GC ->
  view_of (put_bit v 2 b) = view_of v /\ is_word (put_bit v 2 b).
Proof.
  intros Hw Hs. split; [by apply put_bit_view|]. apply put_bit_word; [done|].
  pose proof BITS_pos. lia.
Qed.

Lemma Safe_SetMarkedForGC {A} t o (k : () -> prog A) Q w :
  (forall w', rely t w w' -> inv w' -> Safe t (k ()) Q w') ->
  Safe t (Bind (ObjectHeader_SetMarkedForGC o) k) Q w.
Proof. apply Safe_update_mark. exact (fun v => mark_bit_same v true). Qed.

Lemma Safe_SetUnMarkedForGC {A} t o (k : () -> prog A) Q w :
  (forall w', rely t w w' -> inv w' -> Safe t (k ()) Q w') ->
  Safe t (Bind (ObjectHeader_SetUnMarkedForGC o) k) Q w.
Proof. apply Safe_update_mark. exact (fun v => mark_bit_same v false). Qed.

(** ** Deflation *)

(** The entries of the pool still to be visited. *)
Definition entries_ok (w : world) (E : list (Z * Z)) : Prop :=
  forall id p, (id, p) ∈ E -> exists M, heap w.1 !! p = Some M /\ priv w.2 p = None /\ id_ M = id.

(** The collector between two steps: the threads are stopped; [q] is a monitor it
    has taken back and not yet deleted. *)
Record collecting (t : Z) (w : world) (q : option Z) (E : list (Z * Z)) : Prop := {
  co_writer : mutatorWriter w.1 = Some t;
  co_busy : busy w.2 t = None;
  co_priv : forall p, priv w.2 p = Some t -> q = Some p;
  co_entries : entries_ok w E;
}.

Lemma collecting_rely t w w' q E : collecting t w q E -> rely t w w' -> collecting t w' q E.
Proof.
  intros [C1 C2 C3 C4] R. split.
  - by apply (r_writer _ _ _ R).
  - by rewrite (r_busy _ _ _ R).
  - intros p Hp. by apply C3, (r_priv _ _ _ R).
  - intros id p Hin. destruct (C4 id p Hin) as (M & Hp & Hv & Hid).
    destruct (r_monitor _ _ _ R p M Hp Hv) as [M' K]; [by right; right; right|].
    exists M'. split_and!; [apply K|apply K|]. by rewrite (km_id _ _ _ _ _ _ K).
Qed.

(** A monitor whose mutex the collector holds and that nobody uses; [h] is its hash. *)
Record idle_monitor (t : Z) (w : world) (p id o h : Z) (M : Monitor) : Prop := {
  im_heap : heap w.1 !! p = Some M;
  im_priv : priv w.2 p = None;
  im_id : id_ M = id;
  im_obj : obj_ M = o;
  im_lock : lock_ M = Some t;
  im_owner : owner_ M = None;
  im_count : recursiveCounter_ M = 0;
  im_hash : hashCode_ M = h;
  im_cnt : forall u, cnt w.2 u p = 0;
  im_member : forall u, ~ member w.2 u p;
}.

Lemma idle_monitor_rely t w w' p id o h M :
  mutatorWriter w.1 = Some t -> idle_monitor t w p id o h M -> rely t w w' ->
  exists M', idle_monitor t w' p id o h M'.
Proof.
  intros Hw [E1 E2 E3 E4 E5 E6 E7 E8 E9 E10] R.
  destruct (r_monitor _ _ _ R p M E1 E2) as [M' K]; [by right; right; right|].
  destruct (r_writer _ _ _ R Hw) as [_ Hc].
  destruct (km_held _ _ _ _ _ _ K E5) as [K1 K2 K3 K4 K5 K6 K7].
  exists M'. split; try congruence; try apply K.
  - by rewrite (km_id _ _ _ _ _ _ K).
  - by rewrite (km_obj _ _ _ _ _ _ K).
  - by rewrite (km_writer _ _ _ _ _ _ K).
  - intros u Hm. apply (E10 u). unfold member in *. setoid_rewrite <- K5. by rewrite <- K6.
Qed.

Lemma no_member_chain (g : Ghost) p l : (forall u, ~ member g u p) -> chain g l p = [].
Proof.
  intros Hn. destruct (chain g l p) as [|u C] eqn:E; [done|]. destruct (Hn u). left. exists l.
  rewrite E. by left.
Qed.

Lemma idle_monitor_head t w p id o h M l :
  inv w -> idle_monitor t w p id o h M -> head_of l M = None.
Proof.
  intros I Hm. pose proof (ls_links _ _ _ _ (inv_lists _ I p M (im_heap _ _ _ _ _ _ _ Hm)) l) as L.
  rewrite (no_member_chain _ _ _ (im_member _ _ _ _ _ _ _ Hm)) in L.
  by rewrite (links_head _ _ _ L).
Qed.

(** A read of a field of such a monitor. *)
Lemma Safe_idle_get {A V} t p (f : Monitor -> V) (k : V -> prog A) Q w q E id o h M0 :
  collecting t w q E -> idle_monitor t w p id o h M0 ->
  (forall w' M, rely t w w' -> inv w' -> collecting t w' q E -> idle_monitor t w' p id o h M ->
     Safe t (k (f M)) Q w') ->
  Safe t (Bind (monitor_get p f) k) Q w.
Proof.
  intros Hc Hm Hk. apply Safe_monitor_get. intros w' R I.
  destruct (idle_monitor_rely _ _ _ _ _ _ _ _ (co_writer _ _ _ _ Hc) Hm R) as [M Hm'].
  exists M. split; [apply Hm'|]. eapply Hk; [done..|by eapply collecting_rely|done].
Qed.

(** Steps of the collector on one monitor leave the other entries alone. *)
Lemma collecting_upd t s g q E p M' :
  collecting t (s, g) q E -> (forall id, (id, p) ∉ E) -> collecting t (upd s p M', g) q E.
Proof.
  intros [C1 C2 C3 C4] Hp. split; try done. intros id p' Hin.
  destruct (C4 id p' Hin) as (M & Hh & Hv & Hid). exists M. split_and!; try done. simpl in *.
  rewrite lookup_insert_ne; [done|]. intros ->. by apply (Hp id).
Qed.

Lemma Safe_idle_TryLock {A} t p (k : bool -> prog A) Q w E id :
  collecting t w None ((id, p) :: E) -> (forall i, (i, p) ∉ E) ->
  (forall u, cnt w.2 u p = 0) ->
  (forall w' o h M, inv w' -> collecting t w' None E -> idle_monitor t w' p id o h M ->
     Safe t (k true) Q w') ->
  (forall w', inv w' -> collecting t w' None ((id, p) :: E) -> Safe t (k false) Q w') ->
  Safe t (Bind (TryLock p) k) Q w.
Proof.
  intros Hc Hp Hcnt Ht Hf. apply Safe_monitor_act. intros s g R I.
  destruct (r_writer _ _ _ R (co_writer _ _ _ _ Hc)) as [Hw Hcs]. simpl in *.
  pose proof (collecting_rely _ _ _ _ _ Hc R) as Hc'.
  destruct (co_entries _ _ _ _ Hc' id p) as (M & Hh & Hv & Hid); [by left|]. simpl in *.
  exists M. split; [done|]. intros ch. destruct (lock_ M) as [u|] eqn:El; exists g.
  { rewrite upd_id by done. split_and!; [done|apply guar_refl, rely_refl|by apply Hf]. }
  assert (Hmem : forall u, ~ member g u p).
  { intros u Hm. destruct (ls_member _ _ _ _ (inv_lists _ I p M Hh) u Hm) as [Hz|Hz].
    - rewrite Hcs, Hcnt in Hz. lia.
    - congruence. }
  assert (Hown : owner_ M = None).
  { destruct (owner_ M) as [u|] eqn:Eo; [|done]. pose proof (li_owner _ (inv_lock _ I p M Hh) u Eo).
    congruence. }
  pose proof (inv_lock _ I p M Hh) as [L1 L2 L3].
  assert (F : field_step t s g p M {| M with lock_ := Some t |}).
  { split; simpl; try done.
    - split; simpl; try done. by rewrite Hown.
    - apply (inv_hash _ I p M Hh).
    - right. auto.
    - intros u Hu. by destruct (Hmem u).
    - intros u Hb. destruct (inv_busy _ I u p Hb) as [_ (N & Hp' & Hl')]. simpl in *. congruence.
    - intros _ u Hu. congruence. }
  destruct (field_ok t s g p M _ I Hh F) as [I' G]. split_and!; [done..|].
  eapply (Ht _ (obj_ M) (hashCode_ M) {| M with lock_ := Some t |}); [done| |].
  - apply collecting_upd; [|done]. destruct Hc' as [C1 C2 C3 C4]. split; try done.
    intros i q Hin. apply C4. by right.
  - split; simpl; try done; [by rewrite lookup_insert_eq|by apply L2|].
    intros u. by rewrite Hcs.
Qed.

(** The word that replaces the monitor. *)
Definition plain_word (old h : Z) : Z :=
  if decide (h = 0) then MarkWord.DecodeFromUnlocked old else MarkWord.DecodeFromHash old h.

Lemma plain_word_ok old h :
  mark_inv old -> 0 <= h <= MarkWord.HASH_MASK -> in_u 32 h ->
  mark_inv (plain_word old h) /\
  view_of (plain_word old h) = (if decide (h = 0) then VUnlocked else VHashed h).
Proof.
  intros [Hw _ _ _] Hr H32. unfold plain_word. case_decide.
  - destruct (DecodeFromUnlocked_view old Hw) as (Ev & _ & Hw'). split; [|done].
    split; rewrite ?Ev; done.
  - destruct (DecodeFromHash_view old h Hw Hr H32) as (Ev & _ & Hw'). split; [|done].
    split; rewrite ?Ev; try done. intros h' [= <-]. split; [lia|done].
Qed.

Lemma Safe_deflated_mark {A} t p old (k : Z -> prog A) Q w q E id o h M0 :
  collecting t w q E -> idle_monitor t w p id o h M0 ->
  (forall w' M, inv w' -> collecting t w' q E -> idle_monitor t w' p id o h M ->
     Safe t (k (plain_word old h)) Q w') ->
  Safe t (Bind (deflated_mark p old) k) Q w.
Proof.
  intros Hc Hm Hk. unfold deflated_mark. seq.
  eapply Safe_idle_get; [done..|]. intros w1 M1 R1 I1 Hc1 Hm1.
  rewrite (im_hash _ _ _ _ _ _ _ Hm1). unfold plain_word in Hk.
  destruct (bool_decide_reflect (h = 0)) as [Ez|Ez]; simpl.
  { apply Safe_bind_ret. rewrite decide_True in Hk by done. eauto. }
  rewrite decide_False in Hk by done. seq. unfold Monitor_GetHashCode.
  eapply (Safe_bind_loop _ _ _ rely_refl rely_trans t _
    (fun _ w => collecting t w q E /\ exists M, idle_monitor t w p id o h M)); [| |by eauto].
  - clear w w1 R1 I1 Hc Hm M1 M0 Hc1 Hm1. intros _ w [Hc [M Hm]].
    eapply Safe_idle_get; [done..|]. intros w1 M1 R1 I1 Hc1 Hm1.
    rewrite (im_hash _ _ _ _ _ _ _ Hm1). rewrite bool_decide_eq_false_2 by done. simpl.
    eapply Safe_idle_get; [done..|]. intros w2' M2' R2' I2' Hc2' Hm2'.
    apply Safe_assert.
    { rewrite (im_hash _ _ _ _ _ _ _ Hm2'). by apply negb_true_iff, bool_decide_eq_false_2. }
    eapply Safe_idle_get; [done..|]. intros w2 M2 R2 I2 Hc2 Hm2.
    rewrite (im_hash _ _ _ _ _ _ _ Hm2). apply Safe_ret. intros w3 R3 I3.
    destruct (idle_monitor_rely _ _ _ _ _ _ _ _ (co_writer _ _ _ _ Hc2) Hm2 R3) as [M3 Hm3].
    apply Safe_bind_ret. eapply Hk; [done|by eapply collecting_rely|done].
  - intros _ w2 w3 [Hc2 [M2 Hm2]] R I. split; [by eapply collecting_rely|].
    by eapply idle_monitor_rely; [apply Hc2|..].
Qed.

(** The word is exchanged: the monitor is the collector's own. *)
Lemma Safe_unpublish {A} t p old (k : bool * Z -> prog A) Q w E id o h M0 :
  collecting t w None E -> (forall i, (i, p) ∉ E) -> idle_monitor t w p id o h M0 ->
  (forall w' M, inv w' -> collecting t w' (Some p) E -> mine t w' p M -> id_ M = id ->
     lock_ M = Some t -> owner_ M = None -> Safe t (k (true, old)) Q w') ->
  (forall v w' M, inv w' -> collecting t w' None E -> idle_monitor t w' p id o h M ->
     Safe t (k (false, v)) Q w') ->
  Safe t (Bind (AtomicSetMark false o old (plain_word old h)) k) Q w.
Proof.
  intros Hc Hp Hm Ht Hf. apply Safe_bind_act; [apply rely_refl|apply rely_trans|].
  intros [s g] R I c.
  destruct (idle_monitor_rely _ _ _ _ _ _ _ _ (co_writer _ _ _ _ Hc) Hm R) as [M Hm'].
  pose proof (collecting_rely _ _ _ _ _ Hc R) as Hc'. simpl.
  destruct (_ && _) eqn:Eb.
  2: { exists g. split_and!; [done|apply guar_refl, rely_refl|by eapply Hf]. }
  apply andb_true_iff in Eb as [Eo%bool_decide_eq_true _].
  pose proof (inv_marks _ I o) as Hmk. simpl in Hmk. rewrite Eo in Hmk.
  destruct Hm' as [E1 E2 E3 E4 E5 E6 E7 E8 E9 E10]. simpl in *.
  destruct (inv_hash _ I p M E1) as [Hh H32]. rewrite E8 in Hh, H32.
  destruct (plain_word_ok old h Hmk Hh H32) as [Hnew Hview].
  destruct (unpublish_ok t s g p M (plain_word old h) I E1 E2 E5 E6) as [I' G]; try done.
  - apply Hc'.
  - pose proof (co_busy _ _ _ _ Hc') as Hb. simpl in Hb. by rewrite Hb.
  - rewrite Hview. case_decide; by intros [? ?].
  - intros u _. rewrite Hview. by case_decide.
  - rewrite Hview, E8. intros. by rewrite decide_False.
  - rewrite E4 in I', G. exists (with_priv p (Some t) g). split_and!; [done..|].
    eapply (Ht _ M); try done.
    + destruct Hc' as [C1 C2 C3 C4]. split; try done.
      * simpl. intros p' Hp'. destruct (decide (p' = p)) as [->|]; [done|].
        rewrite fn_lookup_insert_ne in Hp' by done. by apply C3 in Hp'.
      * intros i p' Hin. destruct (C4 i p' Hin) as (M' & Hh' & Hv' & Hid').
        exists M'. split_and!; [done| |done]. simpl.
        rewrite fn_lookup_insert_ne; [done|]. intros ->. by apply (Hp i).
    + split; [done|]. simpl. by rewrite fn_lookup_insert.
Qed.

Lemma Safe_idle_Unlock {A} t p (k : () -> prog A) Q w E M :
  collecting t w (Some p) E -> (forall i, (i, p) ∉ E) -> mine t w p M ->
  lock_ M = Some t -> owner_ M = None ->
  (forall w', inv w' -> collecting t w' (Some p) E -> mine t w' p {| M with lock_ := None |} ->
     Safe t (k ()) Q w') ->
  Safe t (Bind (Unlock p) k) Q w.
Proof.
  intros Hc Hp Hm El Eo Hk. apply Safe_monitor_act. intros s g R I.
  pose proof (collecting_rely _ _ _ _ _ Hc R) as Hc'. pose proof (mine_rely _ _ _ _ _ Hm R) as Hm'.
  exists M. split; [apply Hm'|]. intros ch. rewrite bool_decide_eq_true_2 by done. exists g.
  assert (F : field_step t s g p M {| M with lock_ := None |}).
  { destruct Hm' as [Hh Hv]. simpl in Hh, Hv. pose proof (inv_lock _ I p M Hh) as [L1 L2 L3].
    apply private_field; try done; simpl.
    - split; simpl; try done. congruence.
    - apply (inv_hash _ I p M Hh). }
  destruct (field_ok t s g p M _ I (proj1 Hm') F) as [I' G]. split_and!; [done..|].
  apply Hk; [done|by apply collecting_upd|].
  split; simpl; [by rewrite lookup_insert_eq|apply Hm'].
Qed.

Lemma Safe_idle_Free {A} t p (k : () -> prog A) Q w E M :
  collecting t w (Some p) E -> (forall i, (i, p) ∉ E) -> mine t w p M ->
  (forall w', inv w' -> collecting t w' None E -> Safe t (k ()) Q w') ->
  Safe t (Bind (FreeMonitor (id_ M)) k) Q w.
Proof.
  intros Hc Hp Hm Hk. apply Safe_bind_act; [apply rely_refl|apply rely_trans|].
  intros [s g] R I c. destruct (mine_rely _ _ _ _ _ Hm R) as [Hh Hv].
  pose proof (collecting_rely _ _ _ _ _ Hc R) as Hc'. simpl in *.
  pose proof (inv_pool _ I p M Hh) as Hid. simpl in Hid. rewrite Hid.
  destruct (free_ok t s g p M I Hh Hv) as (I' & G & _).
  eexists. split_and!; [exact I'|exact G|]. apply Hk; [exact I'|].
  destruct Hc' as [C1 C2 C3 C4]. split; try done.
  - simpl. intros p' Hp'. destruct (decide (p' = p)) as [->|].
    + by rewrite fn_lookup_insert in Hp'.
    + rewrite fn_lookup_insert_ne in Hp' by done. apply C3 in Hp'. congruence.
  - intros i p' Hin. destruct (C4 i p' Hin) as (M' & Hh' & Hv' & Hid').
    assert (p' <> p) by (intros ->; by apply (Hp i)).
    exists M'. split_and!; [| |done]; simpl.
    + by rewrite lookup_delete_ne.
    + by rewrite fn_lookup_insert_ne.
Qed.

Lemma entry_get {A V} t p (f : Monitor -> V) (k : V -> prog A) Q w q E id :
  collecting t w q ((id, p) :: E) ->
  (forall w' M, rely t w w' -> inv w' -> collecting t w' q ((id, p) :: E) ->
     heap w'.1 !! p = Some M -> Safe t (k (f M)) Q w') ->
  Safe t (Bind (monitor_get p f) k) Q w.
Proof.
  intros Hc Hk. apply Safe_monitor_get. intros w' R I.
  pose proof (collecting_rely _ _ _ _ _ Hc R) as Hc'.
  destruct (co_entries _ _ _ _ Hc' id p) as (M & Hh & _); [by left|]. eauto.
Qed.

Lemma total_none (g : Ghost) p :
  (forall u, 0 <= cnt g u p <= 2 /\ (u ∉ registered -> cnt g u p = 0)) -> total g p <= 0 ->
  forall u, cnt g u p = 0.
Proof.
  intros Hc Ht u. destruct (Hc u) as [Hr Hn]. destruct (decide (u ∈ registered)) as [Hu|]; [|auto].
  pose proof (total_pos g p u (fun v => proj1 (proj1 (Hc v))) Hu). lia.
Qed.

Lemma Safe_DeflateInternal {A} t p (k : bool -> prog A) Q w E id :
  collecting t w None ((id, p) :: E) -> (forall i, (i, p) ∉ E) ->
  (forall w', inv w' -> collecting t w' None ((id, p) :: E) -> Safe t (k false) Q w') ->
  (forall w' M, inv w' -> collecting t w' (Some p) E -> mine t w' p M -> id_ M = id ->
     Safe t (k true) Q w') ->
  Safe t (Bind (DeflateInternal p) k) Q w.
Proof.
  intros Hc Hp Hf Ht. unfold DeflateInternal. seq.
  eapply entry_get; [done|]. intros w1 M1 R1 I1 Hc1 Hp1.
  destruct (bool_decide_reflect (owner_ M1 = None)) as [Eo|Eo]; [|apply Safe_bind_ret; auto]. simpl.
  seq. eapply entry_get; [done|]. intros w2 M2 R2 I2 Hc2 Hp2.
  destruct (Z.ltb_spec 0 (waitersCounter_ M2)) as [Hlt|Hge]; [apply Safe_bind_ret; auto|].
  rewrite (inv_counter _ I2 p M2 Hp2) in Hge.
  pose proof (total_none w2.2 p (fun u => inv_cnt _ I2 u p) Hge) as Hcnt. seq.
  eapply Safe_idle_TryLock; [done..| |].
  2: { intros w3 I3 Hc3. simpl. apply Safe_bind_ret. auto. }
  clear w w1 w2 M1 M2 R1 I1 R2 I2 Hc Hc1 Hc2 Hp1 Hp2 Hge Eo Hcnt Hf.
  intros w o h M I Hc Hm. simpl. seq.
  eapply Safe_idle_get; [done..|]. intros w' M' _ I' Hc' Hm'; clear w M I Hc Hm.
  rename w' into w, M' into M, I' into I, Hc' into Hc, Hm' into Hm.
  rewrite (im_count _ _ _ _ _ _ _ Hm). seq. apply Safe_assert; [done|].
  assert (Hempty : forall l w M (k1 : bool -> prog A), collecting t w None E ->
    idle_monitor t w p id o h M ->
    (forall w' M', inv w' -> collecting t w' None E -> idle_monitor t w' p id o h M' ->
       Safe t (k1 true) Q w') -> Safe t (Bind (Empty p l) k1) Q w).
  { clear w M I Hc Hm. intros l w M k1 Hc Hm Hk1. unfold Empty. seq.
    eapply Safe_idle_get; [done..|]. intros w1 M1 _ I1 Hc1 Hm1.
    rewrite (idle_monitor_head _ _ _ _ _ _ _ l I1 Hm1). apply Safe_bind_ret. eauto. }
  seq. eapply Hempty; [done..|]. clear w M I Hc Hm. intros w M I Hc Hm. seq.
  apply Safe_assert; [done|]. seq. eapply Hempty; [done..|]. clear w M I Hc Hm. intros w M I Hc Hm.
  seq. apply Safe_assert; [done|]. seq.
  eapply Safe_idle_get; [done..|]. intros w' M' _ I' Hc' Hm'; clear w M I Hc Hm.
  rename w' into w, M' into M, I' into I, Hc' into Hc, Hm' into Hm. seq.
  apply Safe_assert; [apply bool_decide_eq_true, Hm|]. seq.
  eapply Safe_idle_get; [done..|]. intros w' M' _ I' Hc' Hm'; clear w M I Hc Hm.
  rename w' into w, M' into M, I' into I, Hc' into Hc, Hm' into Hm.
  rewrite (im_obj _ _ _ _ _ _ _ Hm). seq.
  apply Safe_GetMark. intros w1 R1 I1.
  destruct (idle_monitor_rely _ _ _ _ _ _ _ _ (co_writer _ _ _ _ Hc) Hm R1) as [M1 Hm1].
  pose proof (collecting_rely _ _ _ _ _ Hc R1) as Hc1.
  generalize (marks w1.1 o). intros old. clear w M I Hc Hm R1 I1. seq.
  eapply Safe_deflated_mark; [done..|]. clear w1 M1 Hc1 Hm1. intros w M I Hc Hm. seq.
  eapply (Safe_bind_loop _ _ _ rely_refl rely_trans t _ (fun '(old, new) w =>
    new = plain_word old h /\ collecting t w None E /\ exists M, idle_monitor t w p id o h M));
    [| |by eauto].
  - clear w M I Hc Hm old. intros [old new] w (-> & Hc & M & Hm).
    eapply Safe_unpublish; [done..| |].
    + intros w1 M1 I1 Hc1 Hm1 Hid El Eo. simpl. apply Safe_ret. intros w2 R2 I2.
      pose proof (collecting_rely _ _ _ _ _ Hc1 R2) as Hc2. pose proof (mine_rely _ _ _ _ _ Hm1 R2) as Hm2.
      seq. eapply Safe_idle_Unlock; [done..|]. intros w3 I3 Hc3 Hm3. apply Safe_bind_ret. by eapply Ht.
    + intros v w1 M1 I1 Hc1 Hm1. simpl.
      eapply Safe_deflated_mark; [done..|]. intros w2 M2 I2 Hc2 Hm2. apply Safe_ret. intros w3 R3 I3.
      split_and!; [done|by eapply collecting_rely|].
      by eapply idle_monitor_rely; [apply Hc2|..].
  - intros [old1 new1] w1 w2 (-> & Hc1 & M1 & Hm1) R I1. split_and!; [done|by eapply collecting_rely|].
    by eapply idle_monitor_rely; [apply Hc1|..].
Qed.

Lemma Safe_deflate_all {A} t E (k : () -> prog A) Q w :
  collecting t w None E -> NoDup E.*1 ->
  (forall w', inv w' -> collecting t w' None [] -> Safe t (k ()) Q w') ->
  Safe t (Bind (deflate_all (fun _ => Ret true) E) k) Q w.
Proof.
  intros Hc Hnd Hk. revert w Hc Hnd. induction E as [|[id p] E IH]; intros w Hc Hnd.
  { apply Safe_inv; [apply rely_refl|]. intros w1 R1 I1. apply Safe_bind_ret.
    apply Hk; [done|by eapply collecting_rely]. }
  apply NoDup_cons_1_1 in Hnd as Hid. apply NoDup_cons_1_2 in Hnd. simpl in Hid.
  assert (Hp : forall i, (i, p) ∉ E).
  { intros i Hin. apply Hid. destruct (co_entries _ _ _ _ Hc id p) as (M & Hh & _ & Ei); [by left|].
    destruct (co_entries _ _ _ _ Hc i p) as (M' & Hh' & _ & Ei'); [by right|].
    assert (M' = M) as -> by congruence. rewrite <- Ei, Ei'. by apply (list_elem_of_fmap_2 fst _ (i, p)). }
  assert (Htail : forall w' q, collecting t w' q ((id, p) :: E) -> collecting t w' q E).
  { intros w' q [C1 C2 C3 C4]. split; try done. intros i p' Hin. apply C4. by right. }
  cbn [deflate_all]. seq. apply Safe_bind_ret. seq. seq.
  eapply Safe_DeflateInternal; [done..| |].
  - intros w1 I1 Hc1. apply Safe_bind_ret. eauto.
  - intros w1 M1 I1 Hc1 Hm1 <-. eapply Safe_idle_Free; [done..|]. eauto.
Qed.

(** ** The stop of the threads *)
Definition idle_collector (t : Z) (w : world) : Prop :=
  (forall p, priv w.2 p <> Some t) /\ busy w.2 t = None.

Lemma idle_collector_rely t w w' : idle_collector t w -> rely t w w' -> idle_collector t w'.
Proof.
  intros [E1 E2] R. split; [|by rewrite (r_busy _ _ _ R)].
  intros p Hp. by apply (E1 p), (r_priv _ _ _ R).
Qed.

Lemma Safe_PreRunPhases {A} t (k : () -> prog A) Q w :
  idle_collector t w ->
  (forall w', inv w' -> idle_collector t w' -> Safe t (k ()) Q w') ->
  Safe t (Bind PreRunPhases k) Q w.
Proof.
  intros Hidle Hk. unfold PreRunPhases. seq.
  apply Safe_bind_act; [apply rely_refl|apply rely_trans|]. intros [s g] R I c. simpl.
  pose proof (idle_collector_rely _ _ _ Hidle R) as [E1 E2]. simpl in *.
  destruct (_ && _) eqn:Eb; [|done]. apply andb_true_iff in Eb as [Ew%bool_decide_eq_true Es].
  assert (Hs : forall u, u ∈ registered -> status_ (threads s u) <> RUNNING).
  { intros u Hu Er. rewrite forallb_forall in Es. apply list_elem_of_In in Hu.
    specialize (Es u Hu). rewrite Er in Es. by rewrite bool_decide_eq_true_2 in Es. }
  assert (Hq : quiet_step t s {| s with mutatorWriter := Some t |} g).
  { split; try done; simpl; [apply (inv_seed _ I)|congruence|by eauto|].
    intros p u Hp. pose proof (inv_builder _ I p u Hp) as [Hb|Hb]; [by left|]. simpl in Hb. congruence. }
  destruct (quiet_ok t s _ g I Hq) as [I' G]. exists g. split_and!; [done..|].
  assert (Hc : collecting t ({| s with mutatorWriter := Some t |}, g) None []).
  { split; try done; [|by intros ? ? ?%elem_of_nil]. intros p Hp. by destruct (E1 p). }
  clear w R I Hidle Es Hs Hq G E1 E2 Ew. revert I' Hc.
  generalize ({| s with mutatorWriter := Some t |}, g). clear s g. intros w I Hc. seq.
  unfold DeflateMonitors, DeflateMonitorsWithCallBack. seq.
  apply Safe_read. intros w1 R1 I1. pose proof (collecting_rely _ _ _ _ _ Hc R1) as Hc1.
  eapply Safe_deflate_all with (E := map_to_list (monitors_ w1.1)).
  - destruct Hc1 as [C1 C2 C3 _]. split; try done. intros id p Hin%elem_of_map_to_list.
    destruct (inv_ids _ I1 id p Hin) as [_ (M & Hh & Hid)]. exists M. split_and!; try done.
    destruct (priv w1.2 p) as [u|] eqn:Ep; [|done]. exfalso.
    destruct (inv_builder _ I1 p u Ep) as [[Hu Hr]|Hw].
    + by apply (inv_writer _ I1 t u C1 Hu).
    + assert (u = t) as -> by congruence. by apply C3 in Ep.
  - apply NoDup_fst_map_to_list.
  - clear w w1 I Hc R1 I1 Hc1. intros w _ Hc.
    apply Safe_bind_act; [apply rely_refl|apply rely_trans|]. intros [s g] R I c0. simpl.
    pose proof (collecting_rely _ _ _ _ _ Hc R) as [C1 C2 C3 _]. simpl in *.
    rewrite bool_decide_eq_true_2 by done. exists g.
    assert (Hq : quiet_step t s {| s with mutatorWriter := None |} g).
    { split; try done; simpl; [apply (inv_seed _ I)|congruence|].
      intros p u Hp. pose proof (inv_builder _ I p u Hp) as [Hb|Hb]; [by left|]. simpl in Hb.
      assert (u = t) as -> by congruence. by apply C3 in Hp. }
    destruct (quiet_ok t s _ g I Hq) as [I' G]. split_and!; [done..|]. apply Hk; [done|].
    split; [|done]. intros p Hp. by apply C3 in Hp.
Qed.
End Collector.
