(* ===== verification/MonitorSystem.v ===== *)
(** Threads that synchronise on objects.

    Managed threads call the operations of the monitors one after the other, in any
    interleaving of their steps, while collectors mark objects and deflate
    monitors.  [code] are the calls; a client keeps a [Ledger] of what the answers
    told it: how often it holds each object and the hash codes it has seen.
    [spec] is the abstract specification of the component: the answers a thread may
    get, given its ledger; an answer it forbids leaves the client without one.

    The theorems hold for every reachable configuration: the store agrees with
    the ledgers, no answer is one the specification forbids, two threads never hold the same
    object, an object has one hash code, and the process does not stop but for
    lack of memory or of monitor ids, by the assertion that a thread does not suspend
    itself (or, when clients leave objects they do not hold, by [LOG(FATAL)]). *)
From stdpp Require Import base list gmap functions relations.
From S2P Require Import Prelude MarkWord Threads Monitor MonitorInv MonitorRules MonitorLists MonitorSafe MonitorCalls MonitorCollector.
Local Open Scope Z_scope.
Local Open Scope ark_scope.
Local Open Scope prog_scope.

Inductive op :=
| OpEnter (o : Z) (trylock : bool)
| OpExit (o : Z)
| OpWait (o : Z) (status : ThreadStatus) (timeout nanos : Z) (ignoreInterruption : bool)
| OpNotify (o : Z)
| OpNotifyAll (o : Z)
| OpHash (o : Z)
| OpHoldsLock (o : Z)
| OpOwner (o : Z)
| OpMonitor (o : Z)
| OpInterrupt (u : Z)
| OpClearInterrupted (u : Z)
| OpSafepoint
| OpMark (o : Z)
| OpUnmark (o : Z)
| OpCollect.

Inductive answer :=
| AState (r : State)
| AValue (v : Z)
| ANone.

(** What a client knows. *)
Record Ledger := mkLedger {
  held : Z -> Z;
  known : Z -> option Z;
}.

#[export] Instance owner_answer_dec `{Build} t h v : Decision (owner_answer t h v).
Proof. unfold owner_answer. destruct h; apply _. Defined.

(** ** The specification *)
Definition spec `{Build} (t : Z) (p : op) (a : answer) (l : Ledger) : option Ledger :=
  match p, a with
  | OpEnter o _, AState OK => Some {| l with held := <[o := held l o + 1]> (held l) |}
  | OpEnter o true, AState ILLEGAL => Some l
  | OpExit o, AState OK =>
      if decide (0 < held l o) then Some {| l with held := <[o := held l o - 1]> (held l) |} else None
  | OpExit o, AState ILLEGAL => if decide (held l o = 0) then Some l else None
  | OpWait o _ _ _ _, AState r =>
      if decide (r <> ILLEGAL <-> 0 < held l o) then Some l else None
  | OpNotify o, AState r | OpNotifyAll o, AState r =>
      if decide (r = if decide (0 < held l o) then OK else ILLEGAL) then Some l else None
  | OpHash o, AValue h =>
      if decide (known l o = None \/ known l o = Some h)
      then Some {| l with known := <[o := Some h]> (known l) |} else None
  | OpHoldsLock o, AValue v =>
      if decide (v = if decide (0 < held l o) then 1 else 0) then Some l else None
  | OpOwner o, AValue v =>
      if decide (owner_answer t (bool_decide (0 < held l o)) v) then Some l else None
  | (OpMonitor _ | OpInterrupt _ | OpClearInterrupted _ | OpSafepoint | OpMark _ | OpUnmark _ | OpCollect), ANone =>
      Some l
  | _, _ => None
  end.

Abbreviation sconfig := (@Threads.config Z Store Stop op answer (option Ledger)).

Section System.
Context `{MemoryModelConfig} `{!ConfigLayout} `{Build} `{!BuildOk}.

(** ** The calls *)
Definition code (t : Z) (p : op) : prog answer :=
  match p with
  | OpEnter o trylock => r ← MonitorEnter t o trylock; Ret (AState r)
  | OpExit o => r ← MonitorExit t o; Ret (AState r)
  | OpWait o status timeout nanos ignoreInterruption =>
      r ← Wait t o status timeout nanos ignoreInterruption; Ret (AState r)
  | OpNotify o => r ← Notify t o; Ret (AState r)
  | OpNotifyAll o => r ← NotifyAll t o; Ret (AState r)
  | OpHash o => h ← GetHashCode t o; Ret (AValue h)
  | OpHoldsLock o => v ← HoldsLock t o; Ret (AValue v)
  | OpOwner o => v ← GetLockOwnerOsThreadID (Some o); Ret (AValue v)
  | OpMonitor o => m ← GetMonitorFromObject (Some o); Ret ANone
  | OpInterrupt u => Interrupt u;; Ret ANone
  | OpClearInterrupted u => ClearInterrupted u;; Ret ANone
  | OpSafepoint => Safepoint t;; Ret ANone
  | OpMark o => ObjectHeader_SetMarkedForGC o;; Ret ANone
  | OpUnmark o => ObjectHeader_SetUnMarkedForGC o;; Ret ANone
  | OpCollect => PreRunPhases;; Ret ANone
  end.

(** The discipline of the clients.  Managed threads do not collect; a thread does not
    enter an object 2^64 - 1 times; a wait is called with a status that belongs to
    it.  [strict] clients leave, and wait on, only objects they hold. *)
Definition collector_op (p : op) : bool :=
  match p with OpMark _ | OpUnmark _ | OpCollect => true | _ => false end.

Definition allowed (strict : bool) (p : op) (l : Ledger) : Prop :=
  match p with
  | OpEnter o _ => held l o + 1 < 2 ^ 64
  | OpExit o => strict = true -> 0 < held l o
  | OpWait o status timeout nanos _ =>
      wait_status_ok status timeout nanos = true /\ (strict = true -> 0 < held l o)
  | _ => True
  end.

Definition may_call (strict : bool) (t : Z) (l : option Ledger) (p : op) : Prop :=
  exists l', l = Some l' /\ allowed strict p l' /\
    (if collector_op p then t ∉ registered else t ∈ registered).

Definition after (t : Z) (p : op) (a : answer) (l : option Ledger) : option Ledger :=
  match l with Some l => spec t p a l | None => None end.

(** What holds of a thread between two calls. *)
Definition ledger_ok (t : Z) (l : Ledger) (w : Store * Ghost) : Prop :=
  (forall o h, known l o = Some h -> hash_of w.1 o = Some h) /\
  if decide (t ∈ registered)
  then exists x, me t w x /\ calm x /\ forall o, m_depth x o = held l o
  else idle_collector t w.

Definition idle_ok (t : Z) (l : option Ledger) (w : Store * Ghost) : Prop :=
  exists l', l = Some l' /\ ledger_ok t l' w.

Lemma idle_ok_rely t l w w' : idle_ok t l w -> rely t w w' -> inv w' -> idle_ok t l w'.
Proof.
  intros (l' & -> & Hk & Hl) R _. exists l'. split; [done|]. split.
  - intros o h E. by apply (r_hash _ _ _ R), Hk.
  - case_decide; [|by eapply idle_collector_rely]. destruct Hl as (x & Hme & Hx & Hd).
    exists x. split_and!; [by eapply me_rely|done..].
Qed.

Section Calls.
Context (strict : bool).
Abbreviation Safe := (Safe inv rely (tolerated strict)).
Abbreviation answered t p l := (fun a => idle_ok t (after t p a (Some l))).

(** The hash codes a client has seen stay. *)
Definition seen (l : Ledger) (w : Store * Ghost) : Prop :=
  forall o h, known l o = Some h -> hash_of w.1 o = Some h.

Lemma Safe_seen {A} t (p : prog A) Q l w :
  seen l w -> Safe t p Q w -> Safe t p (fun a w' => Q a w' /\ seen l w') w.
Proof.
  intros Hs HS. apply (Safe_frame _ _ _ t p (seen l)); [| |done|done].
  - clear w Hs HS. intros w1 w2 R _ Hs o h E. by apply (r_hash _ _ _ R), Hs.
  - clear w Hs HS. intros w1 w2 G _ Hs o h E. assert (Hne : t + 1 <> t) by lia.
    by apply (r_hash _ _ _ (G _ Hne)), Hs.
Qed.

(** The answer of a managed thread's call and the ledger after it. *)
Definition good_answer (t : Z) (p : op) (l : Ledger) (a : answer) (w : Store * Ghost) : Prop :=
  seen l w -> exists l', spec t p a l = Some l' /\
    (exists x, me t w x /\ calm x /\ forall o, m_depth x o = held l' o) /\
    forall o h, known l' o = Some h -> known l o = Some h \/ hash_of w.1 o = Some h.

Lemma answer_ok t p l l' a x w :
  spec t p a l = Some l' -> me t w x -> calm x -> (forall o, m_depth x o = held l' o) ->
  (forall o h, known l' o = Some h -> known l o = Some h \/ hash_of w.1 o = Some h) ->
  Safe t (Ret a) (good_answer t p l) w.
Proof.
  intros E Hme Hx Hd Hn. apply Safe_ret. intros w2 R I _. exists l'. split_and!; [done| |].
  - exists x. split_and!; [by eapply me_rely|done..].
  - intros o h Ho. destruct (Hn o h Ho) as [?|?]; [by left|]. right. by apply (r_hash _ _ _ R).
Qed.

(** When the ledger does not change. *)
Lemma same_ledger t p l a x w :
  spec t p a l = Some l -> me t w x -> calm x -> (forall o, m_depth x o = held l o) ->
  Safe t (Ret a) (good_answer t p l) w.
Proof. intros. eapply answer_ok; eauto. Qed.

Lemma managed_call t p l w x :
  me t w x -> calm x -> (forall o, m_depth x o = held l o) -> collector_op p = false ->
  allowed strict p l -> Safe t (code t p) (good_answer t p l) w.
Proof.
  intros Hme Hx Hd Hp Ha. destruct p; simpl in *; try done.
  - eapply Safe_MonitorEnter; [done|done|by rewrite Hd|..].
    + intros w' I' Hme'. eapply answer_ok; [by destruct trylock|exact Hme'|by apply calm_depth| |auto].
      intros o'. simpl. fn_cases; [by rewrite Hd|auto].
    + intros w' I' -> Hme'. by eapply same_ledger.
  - eapply Safe_MonitorExit; [done|done|by rewrite Hd|..].
    + intros w' I' Hpos Hme'. rewrite Hd in Hpos.
      eapply answer_ok; [simpl; by rewrite decide_True|done|by apply calm_depth| |auto].
      intros o'. simpl. fn_cases; [by rewrite Hd|auto].
    + intros w' I' Hz Hme'. rewrite Hd in Hz.
      eapply same_ledger; [simpl; by rewrite decide_True|done..].
  - destruct Ha as [Hst Ha]. eapply Safe_Wait; [done|done|by rewrite Hd|done|].
    intros r w' I' Hr Hme'. rewrite Hd in Hr. eapply same_ledger; [simpl; by rewrite decide_True|done..].
  - eapply Safe_Notify; [done..|]. intros w' I' Hme'.
    eapply same_ledger; [simpl; unfold if_held; rewrite Hd; by rewrite decide_True|done..].
  - eapply Safe_NotifyAll; [done..|]. intros w' I' Hme'.
    eapply same_ledger; [simpl; unfold if_held; rewrite Hd; by rewrite decide_True|done..].
  - eapply Safe_GetHashCode; [done..|]. intros h w' I' Hme' Hh. apply Safe_ret. intros w2 R I2 Hs.
    apply (r_hash _ _ _ R) in Hh. exists {| l with known := <[o := Some h]> (known l) |}. split_and!.
    + simpl. rewrite decide_True; [done|]. destruct (known l o) as [h'|] eqn:E; [right|by left].
      apply Hs in E. congruence.
    + exists x. split_and!; [by eapply me_rely|done..].
    + simpl. intros o' h'. fn_cases; [|by left]. intros [= <-]. by right.
  - eapply Safe_HoldsLock; [done..|]. intros w' I' Hme'.
    eapply same_ledger; [simpl; unfold if_held; rewrite Hd; by rewrite decide_True|done..].
  - eapply Safe_GetLockOwnerOsThreadID; [done..|]. intros r w' I' Hme' Hr. rewrite Hd in Hr.
    eapply same_ledger; [simpl; by rewrite decide_True|done..].
  - eapply Safe_GetMonitorFromObject; [done|]. intros r w' I' Hme'. by eapply same_ledger.
  - eapply Safe_Interrupt; [done|]. intros w' I' Hme'. by eapply same_ledger.
  - eapply Safe_ClearInterrupted; [done|]. intros w' I' Hme'. by eapply same_ledger.
  - eapply Safe_Safepoint; [done|by apply calm_priv|]. intros w' I' Hme' _. by eapply same_ledger.
Qed.

Lemma code_safe t l p w :
  idle_ok t l w -> may_call strict t l p -> inv w ->
  Safe t (code t p) (fun a => idle_ok t (after t p a l)) w.
Proof.
  intros (l' & -> & Hs & Hl) (l0 & [= <-] & Ha & Hp) I.
  destruct (collector_op p) eqn:Ep.
  - rewrite decide_False in Hl by done.
    assert (Hret : forall w', seen l' w' -> idle_collector t w' ->
      spec t p ANone l' = Some l' -> idle_ok t (after t p ANone (Some l')) w').
    { intros w' Hs' Hi E. exists l'. split; [done|]. split; [done|]. by rewrite decide_False. }
    eapply Safe_mono; [|apply Safe_seen with (l := l'); [exact Hs|]].
    { simpl. intros a w' _ [Hq Hs']. apply (Hq Hs'). }
    destruct p; try done; simpl.
    + apply Safe_SetMarkedForGC. intros w1 R1 I1. apply Safe_ret. intros w2 R2 I2 Hs2.
      apply Hret; [done| |done]. by eapply idle_collector_rely; [eapply idle_collector_rely|].
    + apply Safe_SetUnMarkedForGC. intros w1 R1 I1. apply Safe_ret. intros w2 R2 I2 Hs2.
      apply Hret; [done| |done]. by eapply idle_collector_rely; [eapply idle_collector_rely|].
    + apply Safe_PreRunPhases; [done|]. intros w1 I1 Hc1. apply Safe_ret. intros w2 R2 I2 Hs2.
      apply Hret; [done| |done]. by eapply idle_collector_rely.
  - rewrite decide_True in Hl by done. destruct Hl as (x & Hme & Hx & Hd).
    eapply Safe_mono; [|apply Safe_seen with (l := l'); [exact Hs|by eapply managed_call]].
    simpl. intros a w' _ [Hq Hs']. destruct (Hq Hs') as (l2 & E & Hl2 & Hk2).
    exists l2. split; [done|]. split.
    + intros o h Ho. destruct (Hk2 o h Ho); auto.
    + by rewrite decide_True.
Qed.
End Calls.

(** ** Configurations *)
Abbreviation config := sconfig.

Definition system_step (strict : bool) : config -> config -> Prop := cstep code (may_call strict) after.

(** The store of a process that has started: no object has a lock or a hash code yet. *)
Record initial_store (s : Store) : Prop := {
  in_marks : forall o, is_word (marks s o) /\ view_of (marks s o) = VUnlocked;
  in_heap : heap s = ∅;
  in_pool : monitors_ s = ∅;
  in_seed : in_u 32 (g_hashSeed s);
  in_writer : mutatorWriter s = None;
  in_status : forall t, t ∈ registered -> status_ (threads s t) = RUNNING;
  in_suspend : forall t, suspendCount_ (threads s t) = 0;
  in_own : forall t, waitingMonitor_ (threads s t) = None /\ enteringMonitor_ (threads s t) = None;
}.

Definition empty_ledger : Ledger := {| held := fun _ => 0; known := fun _ => None |}.

Definition start (s : Store) : config :=
  {| shared := s; local := fun _ => Some empty_ledger; state_of := fun _ => Idle |}.

Definition ghost0 : Ghost :=
  {| cnt := fun _ _ => 0; priv := fun _ => None; chain := fun _ _ => []; limbo := fun _ => [];
     busy := fun _ => None; suspenders := fun _ => [] |}.

Lemma ghost0_member u p : ~ member ghost0 u p.
Proof. intros [[l Hm]|Hm]; by apply elem_of_nil in Hm. Qed.

Lemma initial_inv s : initial_store s -> inv (s, ghost0).
Proof.
  intros [E1 E2 E3 E4 E5 E6 E7 E8]. pose proof ghost0_member as Hm.
  split; simpl; rewrite ?E2, ?E3; try done; try (intros; exfalso; by eapply Hm).
  - intros o. destruct (E1 o) as [Hw Hv]. split; [done|..]; rewrite Hv; done.
  - intros o id. destruct (E1 o) as [_ ->]. done.
  - intros u t. by rewrite E5.
  - intros u. split; [apply NoDup_nil_2|by intros v ?%elem_of_nil|by rewrite E7].
Qed.

Lemma initial_ok s t : initial_store s -> idle_ok t (Some empty_ledger) (s, ghost0).
Proof.
  intros [E1 E2 E3 E4 E5 E6 E7 E8]. exists empty_ledger. split; [done|]. split; [done|].
  case_decide; [|done].
  exists {| m_status := RUNNING; m_cnt := fun _ => 0; m_busy := None; m_at := None;
            m_depth := fun _ => 0; m_cond := []; m_priv := None;
            m_susp := None; m_own := (None, None) |}.
  split_and!; [|done..]. split; simpl; try done; [auto|..].
  - intros p Hp. by apply ghost0_member in Hp.
  - intros o. unfold depth. destruct (E1 o) as [_ ->]. done.
  - intros u Hu. by apply elem_of_nil in Hu.
  - intros u. split; [by intros Hu%elem_of_nil|done].
  - unfold own_fields. by destruct (E8 t) as [-> ->].
Qed.

Section Reachable.
Context (strict : bool) (s : Store) (c : config).
Context (Hinit : initial_store s) (Hreach : rtc (system_step strict) (start s) c).

Lemma reachable_facts :
  (exists g, inv (shared c, g) /\
     forall t, state_of c t = Idle -> idle_ok t (local c t) (shared c, g)) /\
  forall f, faulty c f -> tolerated strict f.
Proof.
  eapply (system_safe code (may_call strict) after inv rely (tolerated strict) rely_refl rely_trans
    idle_ok (fun t l w w1 => idle_ok_rely t l w w1) (code_safe strict) (start s) c ghost0).
  - done.
  - by apply initial_inv.
  - intros t. by apply initial_ok.
  - done.
Qed.

(** An idle client's ledger is the state of the store. *)
Lemma idle_ledger t :
  state_of c t = Idle -> exists l, local c t = Some l /\
    (forall o h, known l o = Some h -> hash_of (shared c) o = Some h) /\
    (t ∈ registered -> forall o, depth (shared c) o t = held l o).
Proof.
  intros Ht. destruct reachable_facts as [(g & _ & Hok) _].
  destruct (Hok t Ht) as (l & El & Hk & Hl). exists l. split_and!; [done..|].
  intros Hr o. rewrite decide_True in Hl by done. destruct Hl as (x & Hme & _ & Hd).
  rewrite <- Hd. apply (me_depth _ _ _ Hme).
Qed.
End Reachable.

Lemma depth_one_owner s o t u : 0 < depth s o t -> 0 < depth s o u -> t = u.
Proof.
  unfold depth. destruct (view_of (marks s o)); try lia.
  - repeat case_decide; lia.
  - destruct (monitor_of s o); [|lia]. repeat case_decide; try lia. congruence.
Qed.

(** ** Theorems *)

(** C3: Mutual exclusion.  In every reachable configuration, whatever the threads
    and collectors did, two managed threads that are between two calls do
    not both hold an object. *)
Theorem mutual_exclusion strict s c t u o lt lu :
  initial_store s -> rtc (system_step strict) (start s) c ->
  t ∈ registered -> u ∈ registered -> t <> u ->
  state_of c t = Idle -> state_of c u = Idle -> local c t = Some lt -> local c u = Some lu ->
  ~ (0 < held lt o /\ 0 < held lu o).
Proof.
  intros Hi Hr Ht Hu Hne It Iu Et Eu [Ho Ho'].
  destruct (idle_ledger strict s c Hi Hr t It) as (l1 & E1 & _ & D1).
  destruct (idle_ledger strict s c Hi Hr u Iu) as (l2 & E2 & _ & D2).
  apply Hne. apply (depth_one_owner (shared c) o).
  - rewrite D1 by done. congruence.
  - rewrite D2 by done. congruence.
Qed.

(** C4: The calls refine their specification.  The client of a managed thread has
    a ledger in every reachable configuration, so that no answer it got is one [spec] forbids
    (of the owner query: a thread that holds the object is told its internal id or its
    id in the operating system, one that does not is told 0 or one of the two ids of
    another managed thread; which of the two ids depends on the
    representation of the lock); between two calls the lock state of every object, as seen by the
    thread, is what the ledger says, and the hash codes it was given are still the objects'. *)
Theorem calls_refine_spec strict s c t :
  initial_store s -> rtc (system_step strict) (start s) c ->
  t ∈ registered -> state_of c t = Idle ->
  exists l, local c t = Some l /\
    (forall o, depth (shared c) o t = held l o) /\
    (forall o h, known l o = Some h -> hash_of (shared c) o = Some h).
Proof.
  intros Hi Hr Ht It. destruct (idle_ledger strict s c Hi Hr t It) as (l & E & Hk & Hd). eauto.
Qed.

(** C5: The process does not stop.  No reachable configuration is about to
    use a monitor that was deleted, to unlock a mutex its thread does not hold or to violate an
    assertion of monitor.cpp, those on the status of the owner that another thread inflates for
    and on the status of the suspending thread included; and when clients leave and wait on only
    what they hold, none is about to reach [LOG(FATAL)].  Left out are the lack of memory
    and of monitor ids and the assertion that a thread does not suspend itself
    ([suspends_itself] shows that it can fail). *)
Theorem no_fault strict s c :
  initial_store s -> rtc (system_step strict) (start s) c ->
  ~ faulty c DANGLING /\ ~ faulty c BAD_UNLOCK /\ ~ faulty c ASSERT_FAILED /\
  (strict = true -> ~ faulty c FATAL).
Proof.
  intros Hi Hr. pose proof (proj2 (reachable_facts strict s c Hi Hr)) as Hf.
  split_and!; [..|intros ->]; intros [?|[?|[?|[? ?]]]]%Hf; done.
Qed.

(** C6: An object has one hash code.  Two clients that were told hash codes of the same
    object were told the same, however often its lock was inflated and deflated meanwhile. *)
Theorem one_hash_code strict s c t u o h h' lt lu :
  initial_store s -> rtc (system_step strict) (start s) c ->
  state_of c t = Idle -> state_of c u = Idle -> local c t = Some lt -> local c u = Some lu ->
  known lt o = Some h -> known lu o = Some h' -> h = h'.
Proof.
  intros Hi Hr It Iu Et Eu Kh Kh'.
  destruct (idle_ledger strict s c Hi Hr t It) as (l1 & E1 & K1 & _).
  destruct (idle_ledger strict s c Hi Hr u Iu) as (l2 & E2 & K2 & _).
  assert (l1 = lt) as -> by congruence. assert (l2 = lu) as -> by congruence.
  specialize (K1 _ _ Kh). specialize (K2 _ _ Kh'). congruence.
Qed.

#[export] Instance may_call_dec strict t l p : Decision (may_call strict t l p).
Proof.
  destruct l as [l|]; [|right; by intros (? & ? & _)].
  assert (Ha : Decision (allowed strict p l)) by (destruct p; simpl; apply _).
  assert (Hr : Decision (if collector_op p then t ∉ registered else t ∈ registered))
    by (destruct (collector_op p); apply _).
  destruct Ha as [Ha|Ha]; [|right; by intros (? & [= <-] & ? & _)].
  destruct Hr as [Hr|Hr]; [|right; by intros (? & [= <-] & _ & ?)].
  left. by exists l.
Defined.

Definition exec := exec code (may_call true) after.
End System.

(** ** A run

    Two threads and a collector: thread 1 enters object 7, thread 2 fails to,
    both ask for its hash code, which inflates the lock; thread 1 leaves and the
    collector deflates the monitor. *)
Module Scenario.
#[local] Instance config : MemoryModelConfig := HighEndConfig32.
#[local] Instance layout : ConfigLayout := HighEndConfig32_layout.
#[local] Instance build : Build := {| PANDA_USE_FUTEX := true; registered := [1; 2]; osId := fun u => 4000 + u |}.

Lemma build_ok : BuildOk.
Proof.
  split.
  - apply (bool_decide_unpack _). by vm_compute.
  - intros t Ht. apply elem_of_cons in Ht as [->|Ht]; [by vm_compute|].
    apply elem_of_cons in Ht as [->|Ht]; [by vm_compute|]. by apply elem_of_nil in Ht.
  - by vm_compute.
Qed.

Definition thread0 : MTManagedThread :=
  {| next_ := None; localObjectsLocked_ := []; monitorCount_ := 0; enterMonitorObject_ := None;
     monitorOldStatus_ := FINISHED; waitingMonitor_ := None; enteringMonitor_ := None;
     isInterrupted_ := false; condLock_ := None; condSignal := false; status_ := RUNNING;
     suspendCount_ := 0 |}.

Definition store0 : Store :=
  {| marks := fun _ => 0; heap := ∅; nextAddress := 1; lastId_ := 0; monitors_ := ∅;
     g_hashSeed := 12345; threads := fun _ => thread0; mutatorWriter := None |}.

Lemma store0_initial : initial_store store0.
Proof. by split. Qed.

Definition whole (t : Z) (p : op) (n : nat) : list (event Z op) :=
  Call t p :: repeat (Run t 0) n ++ [Return t].

Definition run_alone (t : Z) (p : op) (n : nat) : list (event Z op) := Call t p :: repeat (Run t 0) n.

(** Thread 1 holds the object and both have its hash code. *)
Definition middle :=
  exec (whole 1 (OpEnter 7 false) 20 ++ whole 2 (OpEnter 7 true) 20 ++
        whole 1 (OpHash 7) 60 ++ whole 2 (OpHash 7) 60) (start store0).

(** The monitor is gone again; both threads are suspended while the collector runs. *)
Definition final :=
  exec (whole 1 (OpExit 7) 60 ++ run_alone 1 OpSafepoint 8 ++ run_alone 2 OpSafepoint 8 ++
        whole 9 OpCollect 80 ++ repeat (Run 1 0) 10 ++ [Return 1] ++ repeat (Run 2 0) 10 ++ [Return 2])
    middle.

Lemma middle_reachable : rtc (system_step true) (start store0) middle.
Proof. apply exec_steps. Qed.

Lemma final_reachable : rtc (system_step true) (start store0) final.
Proof. etrans; [apply middle_reachable|apply exec_steps]. Qed.

Example middle_word : view_of (marks (shared middle) 7) = VHeavy 1.
Proof. by vm_compute. Qed.
Example final_word : view_of (marks (shared final) 7) = VHashed 12345 /\ monitors_ (shared final) = ∅.
Proof. by vm_compute. Qed.

(** Thread 2 asks for the hash code of an object that thread 1 holds by a light lock: it
    suspends thread 1, which stops at a safepoint, inflates the lock for it and
    lets it go on. *)
Definition inflating :=
  exec (whole 1 (OpEnter 7 false) 20 ++ run_alone 2 (OpHash 7) 40 ++ run_alone 1 OpSafepoint 20)
    (start store0).
Definition inflated := exec (repeat (Run 2 0) 150 ++ [Return 2] ++ repeat (Run 1 0) 20 ++ [Return 1]) inflating.

Example inflating_stopped :
  view_of (marks (shared inflating) 7) = VLight 1 1 /\
  status_ (threads (shared inflating) 1) = IS_SUSPENDED /\
  suspendCount_ (threads (shared inflating) 1) = 1.
Proof. by vm_compute. Qed.
Example inflated_resumed :
  view_of (marks (shared inflated) 7) = VHeavy 1 /\ depth (shared inflated) 7 1 = 1 /\
  status_ (threads (shared inflated) 1) = RUNNING /\
  suspendCount_ (threads (shared inflated) 1) = 0.
Proof. by vm_compute. Qed.

(** [InflateThinLock] reads the word again and takes its thread id whatever its state: thread 2 asks
    for the hash code of an object that thread 1 holds; before it reads the word again, thread 1
    leaves the object and gives it the hash code 65536, whose bits at the
    place of the thread id are 2.  Thread 2 is about to suspend itself. *)
Definition store1 : Store := {| store0 with g_hashSeed := 65536 |}.

Definition mistaken :=
  exec (whole 1 (OpEnter 7 false) 20 ++ run_alone 2 (OpHash 7) 2 ++
        whole 1 (OpExit 7) 20 ++ whole 1 (OpHash 7) 40 ++ repeat (Run 2 0) 40)
    (start store1).

Definition about_to_stop (c : sconfig) (t ch : Z) : option Stop :=
  match state_of c t with
  | Running _ p => match step t ch p (shared c) with Fault f => Some f | _ => None end
  | Idle => None
  end.

Lemma about_to_stop_faulty c t ch f : about_to_stop c t ch = Some f -> faulty c f.
Proof.
  unfold about_to_stop, faulty. destruct (state_of c t) as [|p q] eqn:E; [done|].
  destruct (step t ch q (shared c)) eqn:Es; try done. intros [= <-]. eauto 10.
Qed.

Lemma suspends_itself :
  rtc (system_step true) (start store1) mistaken /\ faulty mistaken SELF_SUSPENSION.
Proof.
  split; [apply exec_steps|]. apply (about_to_stop_faulty _ 2 0). by vm_compute.
Qed.

Definition ledger_of (c : sconfig) (t : Z) : Ledger := default empty_ledger (local c t).

Definition has_ledger (c : sconfig) (t : Z) : bool :=
  match local c t with Some _ => true | None => false end.

Lemma ledger_of_some (c : sconfig) t : has_ledger c t = true -> local c t = Some (ledger_of c t).
Proof. unfold has_ledger, ledger_of. by destruct (local c t). Qed.

Lemma mutual_exclusion_witness :
  0 < held (ledger_of middle 1) 7 /\ ~ 0 < held (ledger_of middle 2) 7.
Proof.
  assert (H1 : 0 < held (ledger_of middle 1) 7) by by vm_compute. split; [done|]. intros H2.
  apply (@mutual_exclusion config layout build build_ok true store0 middle 1 2 7
           (ledger_of middle 1) (ledger_of middle 2) store0_initial middle_reachable).
  - by left.
  - right. by left.
  - done.
  - by vm_compute.
  - by vm_compute.
  - apply ledger_of_some. by vm_compute.
  - apply ledger_of_some. by vm_compute.
  - split; [exact H1|exact H2].
Defined.

Lemma calls_refine_spec_witness :
  exists l, local middle 1 = Some l /\
    (forall o, depth (shared middle) o 1 = held l o) /\
    (forall o h, known l o = Some h -> hash_of (shared middle) o = Some h).
Proof.
  apply (@calls_refine_spec config layout build build_ok true store0 middle 1).
  - apply store0_initial.
  - apply middle_reachable.
  - by left.
  - by vm_compute.
Defined.

Lemma no_fault_witness : ~ faulty final DANGLING /\ ~ faulty final FATAL.
Proof.
  destruct (@no_fault config layout build build_ok true store0 final store0_initial final_reachable)
    as (H1 & _ & _ & H2). split; [exact H1|exact (H2 eq_refl)].
Defined.

Lemma one_hash_code_witness :
  known (ledger_of final 1) 7 = Some 12345 /\ known (ledger_of final 2) 7 = Some 12345 /\
  12345 = 12345.
Proof.
  assert (K1 : known (ledger_of final 1) 7 = Some 12345) by by vm_compute.
  assert (K2 : known (ledger_of final 2) 7 = Some 12345) by by vm_compute.
  split; [exact K1|]. split; [exact K2|].
  apply (@one_hash_code config layout build build_ok true store0 final 1 2 7 _ _
           (ledger_of final 1) (ledger_of final 2) store0_initial final_reachable).
  - by vm_compute.
  - by vm_compute.
  - apply ledger_of_some. by vm_compute.
  - apply ledger_of_some. by vm_compute.
  - exact K1.
  - exact K2.
Defined.
End Scenario.
