(* ===== verification/MonitorLive.v ===== *)
(** What a thread achieves when the others do not interfere: a free object is
    entered and left again, and leaving a monitor wakes a thread that was notified. *)
From stdpp Require Import base list gmap functions.
From S2P Require Import Prelude MarkWord Threads Monitor MonitorInv MonitorRules MonitorSafe MonitorSystem.
Local Open Scope Z_scope.
Local Open Scope ark_scope.
Local Open Scope prog_scope.

Section Alone.
Context `{MemoryModelConfig} `{!ConfigLayout} `{Build}.

(** Elementary steps. *)
Lemma runs_GetMark t o s : runs t (AtomicGetMark o) s (marks s o) s.
Proof. by apply runs_act. Qed.

Lemma runs_SetMark t o old new s :
  marks s o = old ->
  runs t (AtomicSetMark true o old new) s (true, old) {| s with marks := <[o := new]> (marks s) |}.
Proof. intros E. apply runs_act. intros c. by rewrite E, bool_decide_eq_true_2. Qed.

Lemma runs_monitor_act {A} t p f s M M' (a : A) :
  heap s !! p = Some M -> (forall c, f t c M = Next a M') ->
  runs t (monitor_act p f) s a (upd s p M').
Proof. intros Hp Hf. apply runs_act. intros c. by rewrite Hp, Hf. Qed.

Lemma runs_monitor_get {A} t p (f : Monitor -> A) s M :
  heap s !! p = Some M -> runs t (monitor_get p f) s (f M) s.
Proof.
  intros Hp. rewrite <- (upd_id s p M Hp) at 2. by eapply runs_monitor_act.
Qed.

Definition updt (s : Store) (u : Z) (T : MTManagedThread) : Store :=
  {| s with threads := <[u := T]> (threads s) |}.

Lemma runs_thread_act {A} t u f s T' (a : A) :
  (forall c, f t c (threads s u) = Next a T') -> runs t (thread_act u f) s a (updt s u T').
Proof. intros Hf. apply runs_act. intros c. by rewrite Hf. Qed.

Lemma runs_lookup t id s : runs t (LookupMonitor id) s (monitors_ s !! id) s.
Proof. by apply runs_act. Qed.

(** ** Entering and leaving a free object *)

(** The word of an object that the thread holds [d] times by a light lock. *)
Definition held_lightly (v t d : Z) : Prop :=
  is_word v /\ view_of v = if decide (d = 0) then VUnlocked else VLight t d.

Lemma light_state v t c :
  view_of v = VLight t c ->
  MarkWord.GetState v = STATE_LIGHT_LOCKED /\ MarkWord.GetThreadId v = t /\ MarkWord.GetLockCount v = c.
Proof. unfold view_of. by destruct (MarkWord.GetState v); intros [= <- <-]. Qed.

Lemma unlocked_state v : view_of v = VUnlocked -> MarkWord.GetState v = STATE_UNLOCKED.
Proof. unfold view_of. by destruct (MarkWord.GetState v). Qed.

Lemma runs_push t o s :
  runs t (PushLocalObjectLocked t o) s ()
    (updt s t {| (threads s t) with localObjectsLocked_ := localObjectsLocked_ (threads s t) ++ [o] |}).
Proof. by apply runs_thread_act. Qed.

Lemma enter_lightly t o trylock s d :
  0 < t <= MarkWord.LIGHT_LOCK_THREADID_MAX_COUNT -> 0 <= d ->
  d + 1 < MarkWord.LIGHT_LOCK_LOCK_MAX_COUNT -> held_lightly (marks s o) t d ->
  let new := MarkWord.DecodeFromLightLock (marks s o) t (d + 1) in
  let s1 := {| s with marks := <[o := new]> (marks s) |} in
  runs t (MonitorEnter t o trylock) s OK
    (updt s1 t {| (threads s t) with localObjectsLocked_ := localObjectsLocked_ (threads s t) ++ [o] |}).
Proof.
  intros Ht Hd Hmax [Hw Hv] new s1. eapply runs_loop with (r := inr OK); [|apply solo_ret_runs].
  eapply solo_bind_runs; [apply runs_GetMark|].
  assert (Hend : forall (a : Z), a = marks s o ->
    runs t (Bind (AtomicSetMark true o a new) (fun ret =>
        if fst ret then PushLocalObjectLocked t o;; Ret (inr OK)
        else Ret (if trylock then inr ILLEGAL else inl (false, 0)))) s
      (inr OK : (bool * Z) + State)
      (updt s1 t {| (threads s t) with localObjectsLocked_ := localObjectsLocked_ (threads s t) ++ [o] |})).
  { intros a ->. eapply solo_bind_runs; [by apply runs_SetMark|]. simpl.
    eapply solo_bind_runs; [apply runs_push|apply solo_ret_runs]. }
  destruct (decide (d = 0)) as [->|Hz].
  - rewrite (unlocked_state _ Hv). eapply solo_bind_runs; [|by apply Hend].
    unfold ASSERT. replace (t <=? _) with true by (symmetry; apply Z.leb_le; lia). apply solo_ret_runs.
  - destruct (light_state _ _ _ Hv) as (-> & -> & ->). rewrite bool_decide_eq_true_2 by done.
    pose proof light_count_u32. rewrite (wrapu_id 32) by (unfold in_u; lia). cbv zeta.
    replace (d + 1 <? _) with true by (symmetry; apply Z.ltb_lt; lia). by apply Hend.
Qed.

Lemma exit_lightly t o s d :
  0 < t <= MarkWord.LIGHT_LOCK_THREADID_MAX_COUNT -> 0 <= d ->
  d + 1 < MarkWord.LIGHT_LOCK_LOCK_MAX_COUNT -> held_lightly (marks s o) t (d + 1) ->
  exists new, held_lightly new t d /\ flags_of new = flags_of (marks s o) /\
  runs t (MonitorExit t o) s OK
    (updt {| s with marks := <[o := new]> (marks s) |} t
       {| (threads s t) with localObjectsLocked_ :=
            take (length (localObjectsLocked_ (threads s t)) - 1) (localObjectsLocked_ (threads s t)) |}).
Proof.
  intros Ht Hd Hmax [Hw Hv]. rewrite decide_False in Hv by lia.
  destruct (light_state _ _ _ Hv) as (Es & Et & Ec).
  set (new := if d != 0 then MarkWord.DecodeFromLightLock (marks s o) t d
              else MarkWord.DecodeFromUnlocked (marks s o)).
  assert (Hnew : held_lightly new t d /\ flags_of new = flags_of (marks s o)).
  { unfold new, held_lightly. destruct (decide (d = 0)) as [Ez|Ez].
    - rewrite bool_decide_eq_true_2 by done. simpl.
      by destruct (DecodeFromUnlocked_view (marks s o) Hw) as (? & ? & ?).
    - rewrite bool_decide_eq_false_2 by done. simpl.
      by destruct (DecodeFromLightLock_view (marks s o) t d Hw) as (? & ? & ?); [lia..|]. }
  destruct Hnew as [Hnew Hf]. exists new. split_and!; [done..|].
  eapply runs_loop with (r := inr OK); [|apply solo_ret_runs].
  eapply solo_bind_runs; [apply runs_GetMark|]. rewrite Es, Et, Ec, bool_decide_eq_true_2 by done. simpl.
  pose proof light_count_u32. rewrite (wrapu_id 32) by (unfold in_u; lia).
  replace (d + 1 - 1) with d by lia. fold new.
  eapply solo_bind_runs; [by apply runs_SetMark|]. simpl.
  eapply solo_bind_runs; [by apply runs_thread_act|apply solo_ret_runs].
Qed.

(** C31: A free object is entered.  A thread whose id a light lock can hold runs alone and enters an
    object that is unlocked, or that it holds by a light lock with a count [d] such that [d + 1] is still
    below the maximum (at the maximum [MonitorEnter] inflates the lock), and leaves it again, in a bounded
    number of steps: the count goes up by one and back, and the lock state in the word, the bits of the collector and the list of the thread's locked objects are
    what they were. *)
Theorem enter_exit_alone t o trylock s d :
  0 < t <= MarkWord.LIGHT_LOCK_THREADID_MAX_COUNT -> 0 <= d ->
  d + 1 < MarkWord.LIGHT_LOCK_LOCK_MAX_COUNT -> held_lightly (marks s o) t d ->
  exists s1 s2,
    runs t (MonitorEnter t o trylock) s OK s1 /\ depth s1 o t = d + 1 /\
    runs t (MonitorExit t o) s1 OK s2 /\ depth s2 o t = d /\
    held_lightly (marks s2 o) t d /\ flags_of (marks s2 o) = flags_of (marks s o) /\
    localObjectsLocked_ (threads s2 t) = localObjectsLocked_ (threads s t).
Proof.
  intros Ht Hd Hmax Hl. pose proof (enter_lightly t o trylock s d Ht Hd Hmax Hl) as Hin.
  cbv zeta in Hin. destruct Hl as [Hw _].
  destruct (DecodeFromLightLock_view (marks s o) t (d + 1) Hw) as (Ev & Ef & Hw1); [lia..|].
  set (v1 := MarkWord.DecodeFromLightLock (marks s o) t (d + 1)) in *.
  set (s1 := updt _ _ _) in Hin. exists s1.
  assert (E1 : marks s1 o = v1) by (simpl; by rewrite fn_lookup_insert).
  assert (H1' : held_lightly (marks s1 o) t (d + 1)).
  { rewrite E1. split; [done|]. by rewrite decide_False by lia. }
  destruct (exit_lightly t o s1 d Ht Hd Hmax H1') as (new & Hnew & Hf & Hout).
  eexists. split_and!; [exact Hin| |exact Hout|..].
  - unfold depth. rewrite E1, Ev. by rewrite decide_True.
  - destruct Hnew as [_ Hv]. unfold depth. simpl. rewrite fn_lookup_insert, Hv.
    case_decide; [done|]. by rewrite decide_True.
  - simpl. by rewrite fn_lookup_insert.
  - simpl. rewrite fn_lookup_insert, Hf, E1. done.
  - simpl. rewrite !fn_lookup_insert. simpl. rewrite length_app. simpl.
    replace (length (localObjectsLocked_ (threads s t)) + 1 - 1)%nat
      with (length (localObjectsLocked_ (threads s t))) by lia.
    by rewrite take_app_length.
Qed.

(** ** Waking *)

(** [p] is the monitor of [o], held [n] times by [t]. *)
Record held_monitor (s : Store) (t o p : Z) (M : Monitor) (n : Z) : Prop := {
  hm_state : MarkWord.GetState (marks s o) = STATE_HEAVY_LOCKED;
  hm_pool : monitors_ s !! MarkWord.GetMonitorId (marks s o) = Some p;
  hm_heap : heap s !! p = Some M;
  hm_owner : owner_ M = Some t;
  hm_lock : lock_ M = Some t;
  hm_count : recursiveCounter_ M = n;
}.

Lemma heap_upd s p M : heap (upd s p M) !! p = Some M.
Proof. simpl. apply lookup_insert_eq. Qed.

Lemma runs_GetHead t p l s M : heap s !! p = Some M -> runs t (GetHead p l) s (head_of l M) s.
Proof. apply runs_monitor_get. Qed.

Lemma runs_SetHead t p l h s M :
  heap s !! p = Some M -> runs t (SetHead p l h) s () (upd s p (with_head l h M)).
Proof. intros Hp. by eapply runs_monitor_act. Qed.

Lemma runs_Empty t p l s M : heap s !! p = Some M -> runs t (Empty p l) s (head_of l M == None) s.
Proof. intros Hp. eapply solo_bind_runs; [by apply runs_GetHead|apply solo_ret_runs]. Qed.

Lemma runs_Front t p l s M u :
  heap s !! p = Some M -> head_of l M = Some u -> runs t (Front p l) s u s.
Proof. intros Hp Hu. eapply solo_bind_runs; [by apply runs_GetHead|]. rewrite Hu. apply solo_ret_runs. Qed.

Lemma runs_thread_get {A} t u (f : MTManagedThread -> A) s :
  runs t (thread_get u f) s (f (threads s u)) (updt s u (threads s u)).
Proof. by apply runs_thread_act. Qed.

Lemma runs_PopFront t p l s M u :
  heap s !! p = Some M -> head_of l M = Some u ->
  runs t (PopFront p l) s ()
    (upd (updt s u (threads s u)) p (with_head l (next_ (threads s u)) M)).
Proof.
  intros Hp Hu. eapply solo_bind_runs; [by apply runs_GetHead|]. rewrite Hu.
  eapply solo_bind_runs; [apply runs_thread_get|]. by apply runs_SetHead.
Qed.

Lemma runs_PushFront t p l s M u :
  heap s !! p = Some M ->
  runs t (PushFront p l u) s ()
    (upd (updt s u {| (threads s u) with next_ := head_of l M |}) p (with_head l (Some u) M)).
Proof.
  intros Hp. eapply solo_bind_runs; [by apply runs_GetHead|].
  eapply solo_bind_runs; [by apply runs_thread_act|]. by apply runs_SetHead.
Qed.

Lemma runs_Signal t u s :
  condLock_ (threads s u) = None ->
  exists s', runs t (Signal u) s () s' /\ condSignal (threads s' u) = true /\ heap s' = heap s.
Proof.
  intros Hc. eexists. split_and!.
  - eapply solo_bind_runs; [apply runs_thread_act; intros c; by rewrite Hc|].
    eapply solo_bind_runs; [by apply runs_thread_act|].
    apply runs_thread_act. intros c. simpl. rewrite !fn_lookup_insert. simpl.
    by rewrite bool_decide_eq_true_2.
  - simpl. by rewrite !fn_lookup_insert.
  - done.
Qed.

Lemma notify_alone t o s p M n u :
  held_monitor s t o p M n -> waiters_ M = Some u ->
  exists s', runs t (Notify t o) s OK s' /\
    held_monitor s' t o p {| M with waiters_ := next_ (threads s u); toWakeup_ := Some u |} n /\
    threads s' u = {| (threads s u) with next_ := toWakeup_ M |}.
Proof.
  intros [E1 E2 E3 E4 E5 E6] Ew. eexists. split_and!.
  - unfold Notify, notifying. eapply solo_bind_runs; [apply runs_GetMark|]. rewrite E1.
    eapply solo_bind_runs; [apply runs_lookup|]. rewrite E2.
    eapply solo_bind_runs; [by eapply runs_monitor_get|]. rewrite E4, bool_decide_eq_true_2 by done. simpl.
    eapply solo_bind_runs; [|apply solo_ret_runs].
    eapply solo_bind_runs; [by eapply runs_Empty|]. simpl. rewrite Ew. simpl.
    eapply solo_bind_runs; [by eapply runs_Front|].
    eapply solo_bind_runs; [by eapply runs_PopFront|].
    eapply runs_PushFront. apply heap_upd.
  - split; simpl; try done. by rewrite !lookup_insert_eq.
  - simpl. rewrite !fn_lookup_insert. done.
Qed.

Lemma runs_monitor_set t p f s M :
  heap s !! p = Some M -> runs t (monitor_set p f) s () (upd s p (f M)).
Proof. intros Hp. by eapply runs_monitor_act. Qed.

(** Leaving a monitor held more than once only counts. *)
Lemma exit_nested t o s p M n :
  held_monitor s t o p M (n + 1) -> 0 < n -> n + 1 < 2 ^ 64 ->
  exists s', runs t (MonitorExit t o) s OK s' /\
    held_monitor s' t o p {| M with recursiveCounter_ := n |} n /\
    forall u, u <> t -> threads s' u = threads s u.
Proof.
  intros [E1 E2 E3 E4 E5 E6] Hn Hm. set (M1 := {| M with recursiveCounter_ := n |}).
  eexists. split_and!.
  - eapply runs_loop with (r := inr OK); [|apply solo_ret_runs].
    eapply solo_bind_runs; [apply runs_GetMark|]. rewrite E1.
    eapply solo_bind_runs; [apply runs_lookup|]. rewrite E2.
    eapply solo_bind_runs with (b := true) (s1 := upd s p M1);
      [|eapply solo_bind_runs; [by apply runs_thread_act|apply solo_ret_runs]].
    unfold Release. eapply solo_bind_runs; [by eapply runs_monitor_get|].
    rewrite E4, bool_decide_eq_true_2 by done. simpl.
    eapply solo_bind_runs with (s1 := upd s p M1).
    { eapply solo_bind_runs; [by eapply runs_monitor_get|]. rewrite E6.
      replace (n + 1 - 1) with n by lia. rewrite (wrapu_id 64) by (unfold in_u; lia).
      exact (runs_monitor_set t p _ s M E3). }
    eapply solo_bind_runs; [eapply runs_monitor_get, heap_upd|]. simpl.
    rewrite bool_decide_eq_false_2 by lia. apply solo_ret_runs.
  - split; simpl; try done. by rewrite lookup_insert_eq.
  - intros u Hu. simpl. by rewrite fn_lookup_insert_ne.
Qed.

Lemma exit_alone t o s p M u :
  held_monitor s t o p M 1 -> toWakeup_ M = Some u -> u <> t ->
  waitingMonitor_ (threads s u) = Some p -> condLock_ (threads s u) = None ->
  exists s', runs t (MonitorExit t o) s OK s' /\
    heap s' !! p = Some {| M with owner_ := None; lock_ := None; recursiveCounter_ := 0;
                                  toWakeup_ := next_ (threads s u) |} /\
    condSignal (threads s' u) = true.
Proof.
  intros [E1 E2 E3 E4 E5 E6] Et Hne Hw Hc.
  set (M1 := {| M with recursiveCounter_ := 0 |}).
  set (M2 := {| M1 with owner_ := None |}).
  set (T := threads s u) in *.
  (* the store when the waiter is signalled *)
  set (s2 := upd (upd s p M1) p M2). set (s3 := updt s2 u T).
  set (M3 := {| M2 with toWakeup_ := next_ (threads s3 u) |}).
  set (s4 := upd (updt s3 u (threads s3 u)) p M3).
  set (s5 := updt s4 t {| (threads s4 t) with monitorCount_ := i32 (monitorCount_ (threads s4 t) - 1) |}).
  assert (E3' : threads s3 u = T) by (simpl; by rewrite fn_lookup_insert).
  assert (E5' : threads s5 u = T).
  { simpl. rewrite fn_lookup_insert_ne by done. rewrite !fn_lookup_insert. done. }
  destruct (runs_Signal t u s5) as (s6 & H6 & Hs6 & Hh6); [by rewrite E5'|].
  assert (Hp6 : heap s6 !! p = Some M3) by (rewrite Hh6; apply heap_upd).
  eexists. split_and!.
  - eapply runs_loop with (r := inr OK); [|apply solo_ret_runs].
    eapply solo_bind_runs; [apply runs_GetMark|]. rewrite E1.
    eapply solo_bind_runs; [apply runs_lookup|]. rewrite E2.
    eapply solo_bind_runs with (b := true); [|eapply solo_bind_runs; [by apply runs_thread_act|apply solo_ret_runs]].
    unfold Release. eapply solo_bind_runs; [by eapply runs_monitor_get|].
    rewrite E4, bool_decide_eq_true_2 by done. simpl.
    eapply solo_bind_runs with (s1 := upd s p M1).
    { eapply solo_bind_runs; [by eapply runs_monitor_get|]. rewrite E6. exact (runs_monitor_set t p _ s M E3). }
    eapply solo_bind_runs; [eapply runs_monitor_get, heap_upd|]. simpl.
    eapply solo_bind_runs with (b := true) (s1 := s2).
    { eapply runs_monitor_act; [apply heap_upd|]. intros c. simpl.
      by rewrite E4, bool_decide_eq_true_2. }
    simpl. eapply solo_bind_runs; [eapply runs_Empty, heap_upd|]. simpl. rewrite Et. simpl.
    eapply solo_bind_runs.
    { eapply solo_bind_runs; [eapply runs_Front; [apply heap_upd|done]|].
      eapply solo_bind_runs; [apply runs_thread_get|].
      eapply solo_bind_runs; [|apply solo_ret_runs].
      eapply runs_PopFront; [apply heap_upd|done]. }
    eapply solo_bind_runs; [by apply runs_thread_act|]. simpl. rewrite bool_decide_eq_true_2 by done.
    eapply solo_bind_runs.
    { exact H6. }
    eapply solo_bind_runs; [|apply solo_ret_runs].
    eapply runs_monitor_act; [exact Hp6|]. intros c. by rewrite bool_decide_eq_true_2.
  - etrans; [apply heap_upd|]. unfold M3. by rewrite E3'.
  - simpl. by rewrite fn_lookup_insert_ne.
Qed.

(** [t] leaves [o], [n] times, each time with the answer [OK]. *)
Fixpoint leaves (t o : Z) (n : nat) (s s' : Store) : Prop :=
  match n with
  | O => s = s'
  | S n => exists s1, runs t (MonitorExit t o) s OK s1 /\ leaves t o n s1 s'
  end.

Lemma leaves_alone t o s p M n u :
  held_monitor s t o p M (Z.of_nat (S n)) -> Z.of_nat (S n) < 2 ^ 64 -> toWakeup_ M = Some u -> u <> t ->
  waitingMonitor_ (threads s u) = Some p -> condLock_ (threads s u) = None ->
  exists s', leaves t o (S n) s s' /\
    heap s' !! p = Some {| M with owner_ := None; lock_ := None; recursiveCounter_ := 0;
                                  toWakeup_ := next_ (threads s u) |} /\
    condSignal (threads s' u) = true.
Proof.
  revert s M. induction n as [|n IH]; intros s M Hm Hb Et Hne Hw Hc.
  - destruct (exit_alone t o s p M u Hm Et Hne Hw Hc) as (s' & Hr & Hh & Hs).
    exists s'. split_and!; [|done..]. by exists s'.
  - destruct (exit_nested t o s p M (Z.of_nat (S n))) as (s1 & Hr & Hm1 & Hu); [|lia|lia|].
    { by replace (Z.of_nat (S n) + 1) with (Z.of_nat (S (S n))) by lia. }
    destruct (IH s1 _ Hm1 ltac:(lia) Et Hne) as (s' & Hl & Hh & Hs); [by rewrite Hu..|].
    exists s'. split_and!; [by exists s1| |done]. rewrite Hh. simpl. by rewrite Hu.
Qed.

(** C32: A notified thread is woken.  When the owner of a monitor (a heavy lock), which holds it
    [n] times, runs alone, notifies and then leaves [n] times, the first of the threads that wait is
    taken from the list of waiting threads and signalled, and the monitor is free: the wake-up is not lost.
    The waiting thread is another one, is recorded as waiting in this monitor, and nobody
    holds its [condLock_]. *)
Theorem notify_then_exit_wakes t o s p M n u :
  held_monitor s t o p M (Z.of_nat n) -> (0 < n)%nat -> Z.of_nat n < 2 ^ 64 -> waiters_ M = Some u -> u <> t ->
  waitingMonitor_ (threads s u) = Some p -> condLock_ (threads s u) = None ->
  exists s1 s2, runs t (Notify t o) s OK s1 /\ leaves t o n s1 s2 /\
    condSignal (threads s2 u) = true /\
    heap s2 !! p = Some {| M with owner_ := None; lock_ := None; recursiveCounter_ := 0;
                                  waiters_ := next_ (threads s u) |}.
Proof.
  intros Hm Hn Hb Ew Hne Hw Hc. destruct n as [|n]; [lia|].
  destruct (notify_alone t o s p M _ u Hm Ew) as (s1 & H1' & Hm1 & Eu1).
  destruct (leaves_alone t o s1 p _ n u Hm1 Hb eq_refl Hne) as (s2 & H2' & Hh & Hs).
  - by rewrite Eu1.
  - by rewrite Eu1.
  - exists s1, s2. split_and!; [done..|]. rewrite Hh. simpl. by rewrite Eu1.
Qed.
End Alone.

(** ** Examples *)
Module Examples.
#[local] Instance config : MemoryModelConfig := HighEndConfig32.
#[local] Instance layout : ConfigLayout := HighEndConfig32_layout.
#[local] Instance build : Build := Scenario.build.

Lemma enter_exit_alone_witness :
  exists s1 s2,
    runs 1 (MonitorEnter 1 7 false) Scenario.store0 OK s1 /\ depth s1 7 1 = 1 /\
    runs 1 (MonitorExit 1 7) s1 OK s2 /\ depth s2 7 1 = 0.
Proof.
  destruct (@enter_exit_alone config layout build 1 7 false Scenario.store0 0)
    as (s1 & s2 & H1 & H2 & H3 & H4 & _); [by vm_compute..|].
  exists s1, s2. split; [exact H1|]. split; [exact H2|]. split; [exact H3|exact H4].
Defined.

(** Thread 1 holds the monitor at address 5 twice; thread 2 waits in it. *)
Definition monitor5 : Monitor :=
  {| id_ := 1; obj_ := 7; owner_ := Some 1; waiters_ := Some 2; toWakeup_ := None;
     recursiveCounter_ := 2; lock_ := Some 1; hashCode_ := 0; waitersCounter_ := 1 |}.
Definition waiting_store : Store :=
  {| Scenario.store0 with
     marks := fun _ => MarkWord.DecodeFromMonitor 0 1; heap := {[5 := monitor5]}; monitors_ := {[1 := 5]};
     threads := <[2 := {| Scenario.thread0 with waitingMonitor_ := Some 5; status_ := IS_WAITING |}]>
                  (fun _ => Scenario.thread0) |}.

Lemma notify_then_exit_wakes_witness :
  exists s1 s2, runs 1 (Notify 1 7) waiting_store OK s1 /\ leaves 1 7 2 s1 s2 /\
    condSignal (threads s2 2) = true.
Proof.
  destruct (@notify_then_exit_wakes config 1 7 waiting_store 5 monitor5 2 2)
    as (s1 & s2 & H1 & H2 & H3 & _); [|lia|by vm_compute..|].
  - split; by vm_compute.
  - exists s1, s2. split; [exact H1|]. split; [exact H2|exact H3].
Defined.
End Examples.
