(* ===== verification/Futex.v ===== *)
(** Mutexes and condition variables on futexes:
    platforms/unix/libpandabase/futex/fmutex.{h,cpp} and the classes of
    futex/mutex.{h,cpp} that wrap them.

    The functions are programs (Threads) over one process: the mutexes, the
    condition variables, the readers-writer locks (used in RWLock), the thread-local [current_tid]s, and which thread the
    kernel keeps asleep at which word.  An atomic access, and each access to a plain field,
    is one step; the memory order is sequential.  A thread is named by its id.

    The system call is modelled by its documented behaviour: FUTEX_WAIT compares the
    word and goes to sleep in one step, and a sleeper comes back when it is woken, when a
    signal interrupts it or when its time is over; FUTEX_WAKE wakes as many sleepers as it
    is asked for, or all there are; FUTEX_REQUEUE moves them to another word.
    Which sleepers are taken is up to the kernel, the class [Kernel].  Spinning and yielding ([BackOff])
    are not visible here. *)
From stdpp Require Import base list functions.
From S2P Require Import Prelude Threads.
Local Open Scope Z_scope.
Local Open Scope ark_scope.
Local Open Scope prog_scope.

(** ** Data *)
Record fmutex := mkFmutex {
  stateAndWaiters : Z;
  exclusiveOwner : Z;
  recursiveCount : Z;
  recursiveMutex : bool;
}.

Record CondVar := mkCondVar {
  mutexPtr : option Z;
  cond : Z;
  waiters : Z;
}.

Record RWLock := mkRWLock {
  state_ : Z;
  exclusiveOwner_ : Z;
  waiters_ : Z;
}.

(** The words threads sleep at: the state of a mutex, the counter of a condition variable, the
    state of a readers-writer lock. *)
Inductive uaddr := StateAddr (m : Z) | CondAddr (c : Z) | RWAddr (l : Z).
#[export] Instance uaddr_eq_dec : EqDecision uaddr.
Proof. solve_decision. Defined.

Record Process := mkProcess {
  mutexes : Z -> fmutex;
  conds : Z -> CondVar;
  rwlocks : Z -> RWLock;
  current_tid : Z -> Z;
  sleeping : Z -> option uaddr;
  g_deadlockFlag : bool;
}.

(** Ways the process stops: [LOG(FATAL)], and an assertion of the debug build. *)
Inductive Failure := FATAL | ASSERT_FAILED.

(** The kernel decides in which order the sleepers at a word are taken. *)
Class Kernel := {
  live_threads : list Z;
  wake_order : Z -> list Z -> list Z;
}.

Inductive futex_result := WOKEN | EAGAIN | EINTR | ETIMEDOUT | EINVAL.
#[export] Instance futex_result_eq_dec : EqDecision futex_result.
Proof. solve_decision. Defined.

Record timespec := mkTimespec { tv_sec : Z; tv_nsec : Z }.

Definition HELD_MASK : Z := 1.
Definition WAITER_SHIFT : Z := 1.
Definition WAITER_INCREMENT : Z := Z.shiftl 1 WAITER_SHIFT.
Definition WAKE_ONE : Z := 1.
Definition WAKE_ALL : Z := INT32_MAX.
Definition MILLISECONDS_PER_SEC : Z := 1000.
Definition NANOSECONDS_PER_MILLISEC : Z := 1000000.
Definition NANOSECONDS_PER_SEC : Z := 1000000000.

Abbreviation prog := (prog Z Process Failure).

(** ** Elementary steps *)
Definition halt {A} (f : Failure) : prog A := Act (fun _ _ _ => Fault f).
Definition FAIL_WITH_MESSAGE {A} : prog A := halt FATAL.
Definition Assert (b : bool) : prog () := if b then Ret () else halt ASSERT_FAILED.

Definition mutex_get {A} (m : Z) (f : fmutex -> A) : prog A :=
  Act (fun _ _ s => Next (f (mutexes s m)) s).
Definition mutex_set (m : Z) (f : fmutex -> fmutex) : prog () :=
  Act (fun _ _ s => Next () {| s with mutexes := <[m := f (mutexes s m)]> (mutexes s) |}).
Definition cond_get {A} (c : Z) (f : CondVar -> A) : prog A :=
  Act (fun _ _ s => Next (f (conds s c)) s).
Definition cond_set (c : Z) (f : CondVar -> CondVar) : prog () :=
  Act (fun _ _ s => Next () {| s with conds := <[c := f (conds s c)]> (conds s) |}).

Definition load_state (m : Z) : prog Z := mutex_get m stateAndWaiters.
Definition store_state (m v : Z) : prog () := mutex_set m (fun M => {| M with stateAndWaiters := v |}).
Definition load_owner (m : Z) : prog Z := mutex_get m exclusiveOwner.
Definition store_owner (m v : Z) : prog () := mutex_set m (fun M => {| M with exclusiveOwner := v |}).
Definition get_count (m : Z) : prog Z := mutex_get m recursiveCount.
Definition set_count (m v : Z) : prog () := mutex_set m (fun M => {| M with recursiveCount := v |}).

(** [ATOMIC_CAS_WEAK] on [stateAndWaiters]: whether it was done, and the value of the
    expected variable afterwards. *)
Definition cas_state (m old new : Z) : prog (bool * Z) :=
  Act (fun _ ch s =>
    let M := mutexes s m in
    if (stateAndWaiters M == old) && (0 <=? ch)
    then Next (true, old) {| s with mutexes := <[m := {| M with stateAndWaiters := new |}]> (mutexes s) |}
    else Next (false, stateAndWaiters M) s).

Definition cas_mutexPtr (c : Z) (old : option Z) (new : Z) : prog (bool * option Z) :=
  Act (fun _ ch s =>
    let C := conds s c in
    if (mutexPtr C == old) && (0 <=? ch)
    then Next (true, old) {| s with conds := <[c := {| C with mutexPtr := Some new |}]> (conds s) |}
    else Next (false, mutexPtr C) s).

(** The thread-local cache of the thread's id. *)
Definition GET_CURRENT_THREAD : prog Z := Act (fun t _ s => Next t s).
Definition cached_tid : prog Z :=
  tid ← Act (fun t _ s => Next (current_tid s t) s);
  if tid == 0 then
    tid ← GET_CURRENT_THREAD;
    Act (fun t _ s => Next () {| s with current_tid := <[t := tid]> (current_tid s) |});;
    Ret tid
  else Ret tid.

Section Operations.
Context `{Kernel}.

(** ** The system call *)
Definition word_at (a : uaddr) (s : Process) : Z :=
  match a with
  | StateAddr m => stateAndWaiters (mutexes s m)
  | CondAddr c => cond (conds s c)
  | RWAddr l => state_ (rwlocks s l)
  end.

Definition sleepers (a : uaddr) (s : Process) : list Z :=
  filter (fun u => sleeping s u = Some a) live_threads.

(** The sleepers the kernel takes when asked for [n] of them. *)
Definition taken (ch : Z) (a : uaddr) (n : Z) (s : Process) : list Z :=
  let us := wake_order ch (sleepers a s) in take (Z.to_nat (Z.min n (Z.of_nat (length us)))) us.

Definition move_to (us : list Z) (a : option uaddr) (s : Process) : Process :=
  {| s with sleeping := fun u => if bool_decide (u ∈ us) then a else sleeping s u |}.

Definition valid_time (time : timespec) : bool :=
  (0 <=? tv_sec time) && (0 <=? tv_nsec time) && (tv_nsec time <? NANOSECONDS_PER_SEC).

Definition futex_sleep (timed : bool) : prog futex_result :=
  Act (fun t ch s =>
    match sleeping s t with
    | None => Next WOKEN s
    | Some _ =>
        let awake := {| s with sleeping := <[t := None]> (sleeping s) |} in
        if ch <? 0 then Next EINTR awake
        else if timed && (0 <? ch) then Next ETIMEDOUT awake
        else Blocked
    end).

Definition FUTEX_WAIT (a : uaddr) (val : Z) (timeout : option timespec) : prog futex_result :=
  if match timeout with Some time => negb (valid_time time) | None => false end then Ret EINVAL else
  asleep ← Act (fun t _ s =>
             if word_at a s == val then Next true {| s with sleeping := <[t := Some a]> (sleeping s) |}
             else Next false s);
  if (asleep : bool) then futex_sleep (bool_decide (timeout <> None)) else Ret EAGAIN.

Definition FUTEX_WAKE (a : uaddr) (n : Z) : prog Z :=
  Act (fun _ ch s => let us := taken ch a n s in Next (Z.of_nat (length us)) (move_to us None s)).

(** Wakes none and moves [n]. *)
Definition FUTEX_REQUEUE (a : uaddr) (n : Z) (b : uaddr) : prog Z :=
  Act (fun _ ch s => let us := taken ch a n s in Next (Z.of_nat (length us)) (move_to us (Some b) s)).

(** ** Mutexes *)
Definition MutexDoNotCheckOnTerminationLoop : prog bool := Act (fun _ _ s => Next (g_deadlockFlag s) s).
Definition MutexIgnoreChecksOnTerminationLoop : prog () :=
  Act (fun _ _ s => Next () {| s with g_deadlockFlag := true |}).

Definition IncrementWaiters (m : Z) : prog () :=
  mutex_set m (fun M => {| M with stateAndWaiters := i32 (stateAndWaiters M + WAITER_INCREMENT) |}).
Definition DecrementWaiters (m : Z) : prog () :=
  mutex_set m (fun M => {| M with stateAndWaiters := i32 (stateAndWaiters M - WAITER_INCREMENT) |}).
Definition GetWaiters (m : Z) : prog Z :=
  v ← load_state m; Ret (i32 (Z.shiftr (u32 v) (u32 WAITER_SHIFT))).

Definition IsHeld (m thread : Z) : prog bool := o ← load_owner m; Ret (o == thread).

(** The test of the held bit. *)
Definition held_bit (state : Z) : bool := Z.land (u32 state) (u32 HELD_MASK) != 0.

Definition MAX_ITER : Z := 50.
Definition WaitBrieflyFor (m : Z) : prog bool :=
  Loop (fun i =>
    if i <=? MAX_ITER then
      state ← load_state m;
      Ret (if negb (held_bit state) then inr true else inl (i + 1))
    else Ret (inr false)) 1.

Definition MutexInit (m : Z) : prog () :=
  store_owner m 0;; set_count m 0;;
  mutex_set m (fun M => {| M with recursiveMutex := false |});;
  store_state m 0.

(** [mobile]: PANDA_TARGET_MOBILE. *)
Definition MutexDestroy (mobile : bool) (m : Z) : prog () :=
  ignore ← (if mobile then Ret false else MutexDoNotCheckOnTerminationLoop);
  if (ignore : bool) then Ret () else
  v ← load_state m;
  if v != 0 then FAIL_WITH_MESSAGE else
  o ← load_owner m;
  if o != 0 then FAIL_WITH_MESSAGE else Ret ().

(** The wait of the slow path; [curState] is the loop's variable. *)
Definition wait_until_free (m curState : Z) : prog () :=
  Loop (fun curState =>
    if held_bit curState then
      r ← FUTEX_WAIT (StateAddr m) curState None;
      (if bool_decide (r ∈ [WOKEN; EAGAIN; EINTR]) then Ret () else halt FATAL);;
      curState ← load_state m;
      Ret (inl curState)
    else Ret (inr ())) curState.

(** The loop of [MutexLock]. *)
Definition take_held_bit (m : Z) (trylock : bool) : prog bool :=
  Loop (fun _ : () =>
    curState ← load_state m;
    if negb (held_bit curState) then
      r ← cas_state m curState (i32 (Z.lor (u32 curState) (u32 HELD_MASK)));
      Ret (if fst r then inr true else inl ())
    else if trylock then Ret (inr false)
    else
      b ← WaitBrieflyFor m;
      (if negb b then
         IncrementWaiters m;;
         wait_until_free m (i32 (curState + WAITER_INCREMENT));;
         DecrementWaiters m
       else Ret ());;
      Ret (inl ())) ().

Definition MutexLock (m : Z) (trylock : bool) : prog bool :=
  tid ← cached_tid;
  rec ← mutex_get m recursiveMutex;
  again ← (if (rec : bool) then IsHeld m tid else Ret false);
  if (again : bool) then
    c ← get_count m; set_count m (i32 (c + 1));; Ret true
  else
  h ← IsHeld m tid; Assert (negb h);;
  done ← take_held_bit m trylock;
  if negb done then Ret false else
  v ← load_state m; Assert (held_bit v);;
  o ← load_owner m; Assert (o == 0);;
  store_owner m tid;;
  c ← get_count m; set_count m (i32 (c + 1));;
  c ← get_count m; Assert (c == 1);;
  Ret true.

Definition maxIter : Z := 10.
Definition MutexTryLockWithSpinning (m : Z) : prog bool :=
  Loop (fun i =>
    if i <? maxIter then
      b ← MutexLock m true;
      if (b : bool) then Ret (inr true) else
      f ← WaitBrieflyFor m;
      Ret (if negb f then inr false else inl (i + 1))
    else Ret (inr false)) 0.

Definition MutexUnlock (m : Z) : prog () :=
  tid ← cached_tid;
  h ← IsHeld m tid;
  (if negb h then FAIL_WITH_MESSAGE else Ret ());;
  c ← get_count m; set_count m (i32 (c - 1));;
  rec ← mutex_get m recursiveMutex;
  more ← (if (rec : bool) then c ← get_count m; Ret (0 <? c) else Ret false);
  if (more : bool) then Ret () else
  c ← get_count m; Assert (c == 0);;
  curState ← load_state m;
  Loop (fun curState =>
    let newState := Z.land (u32 curState) (u32 (Z.lnot (u32 HELD_MASK))) in
    (if negb (held_bit curState) then FAIL_WITH_MESSAGE else Ret ());;
    store_owner m 0;;
    r ← cas_state m curState (i32 newState);
    if fst r then
      (if newState != 0 then FUTEX_WAKE (StateAddr m) WAKE_ONE;; Ret () else Ret ());;
      Ret (inr ())
    else Ret (inl (snd r))) curState.

Definition MutexLockForOther (m thread : Z) : prog () :=
  v ← load_state m; Assert (v == 0);;
  store_state m HELD_MASK;; set_count m 1;; store_owner m thread.

Definition MutexUnlockForOther (m thread : Z) : prog () :=
  h ← IsHeld m thread;
  (if negb h then FAIL_WITH_MESSAGE else Ret ());;
  v ← load_state m; Assert (v == HELD_MASK);;
  store_state m 0;; set_count m 0;; store_owner m 0.

(** ** Condition variables *)
Definition ConditionVariableInit (c : Z) : prog () :=
  cond_set c (fun C => {| C with mutexPtr := None |});;
  cond_set c (fun C => {| C with cond := 0 |});;
  cond_set c (fun C => {| C with waiters := 0 |}).

Definition ConditionVariableDestroy (mobile : bool) (c : Z) : prog () :=
  ignore ← (if mobile then Ret false else MutexDoNotCheckOnTerminationLoop);
  if (ignore : bool) then Ret () else
  n ← cond_get c waiters;
  if n != 0 then FAIL_WITH_MESSAGE else Ret ().

(** [time_t] and [tv_nsec] are 64 bits wide. *)
Definition ConvertTime (ms ns : Z) : timespec :=
  let seconds := i64 (ms / MILLISECONDS_PER_SEC) in
  let nanoseconds := i64 (u64 (ms mod MILLISECONDS_PER_SEC * NANOSECONDS_PER_MILLISEC + ns)) in
  if NANOSECONDS_PER_SEC <=? nanoseconds
  then {| tv_sec := seconds + 1; tv_nsec := nanoseconds - NANOSECONDS_PER_SEC |}
  else {| tv_sec := seconds; tv_nsec := nanoseconds |}.

Definition cond_fetch_add (c d : Z) : prog () :=
  cond_set c (fun C => {| C with waiters := i32 (waiters C + d) |}).

(** The part [Wait] and [TimedWait] share before and after the system call. *)
Definition set_mutexPtr (c m : Z) : prog () :=
  Loop (fun oldMutex =>
    r ← cas_mutexPtr c oldMutex m;
    if fst r then Ret (inr ())
    else
      (if (snd r != Some m) && (snd r != None) then FAIL_WITH_MESSAGE else Ret ());;
      Ret (inl (snd r))) None.

Definition waiting {A} (c m : Z) (futex : Z -> prog A) : prog A :=
  tid ← cached_tid;
  h ← IsHeld m tid;
  (if negb h then FAIL_WITH_MESSAGE else Ret ());;
  set_mutexPtr c m;;
  cond_fetch_add c 1;;
  IncrementWaiters m;;
  oldCount ← get_count m;
  set_count m 1;;
  curCond ← cond_get c cond;
  MutexUnlock m;;
  a ← futex curCond;
  MutexLock m false;;
  set_count m oldCount;;
  DecrementWaiters m;;
  cond_fetch_add c (-1);;
  Ret a.

Definition CondVar_Wait (c m : Z) : prog () :=
  waiting c m (fun curCond =>
    r ← FUTEX_WAIT (CondAddr c) curCond None;
    if bool_decide (r ∈ [WOKEN; EAGAIN; EINTR]) then Ret () else halt FATAL).

(** That the time is absolute or relative is not visible here. *)
Definition CondVar_TimedWait (c m ms ns : Z) (isAbsolute : bool) : prog bool :=
  waiting c m (fun curCond =>
    r ← FUTEX_WAIT (CondAddr c) curCond (Some (ConvertTime ms ns));
    if r == ETIMEDOUT then Ret true
    else if bool_decide (r ∈ [WOKEN; EAGAIN; EINTR]) then Ret false else halt FATAL).

Definition SignalCount (c toWake : Z) : prog () :=
  n ← cond_get c waiters;
  if n == 0 then Ret () else
  tid ← cached_tid;
  mutex ← cond_get c mutexPtr;
  match mutex with
  | None => halt ASSERT_FAILED
  | Some m =>
      cond_set c (fun C => {| C with cond := i32 (cond C + 1) |});;
      h ← IsHeld m tid;
      if (h : bool) then
        r ← FUTEX_REQUEUE (CondAddr c) toWake (StateAddr m);
        if r == -1 then FAIL_WITH_MESSAGE else Ret ()
      else FUTEX_WAKE (CondAddr c) toWake;; Ret ()
  end.

(** ** The classes [Mutex] and [ConditionVariable] *)
Definition Mutex_Lock (m : Z) : prog () := MutexLock m false;; Ret ().
Definition Mutex_TryLock (m : Z) : prog bool := MutexLock m true.
Definition Mutex_TryLockWithSpinning (m : Z) : prog bool := MutexTryLockWithSpinning m.
Definition Mutex_Unlock (m : Z) : prog () := MutexUnlock m.
Definition ConditionVariable_Signal (c : Z) : prog () := SignalCount c WAKE_ONE.
Definition ConditionVariable_SignalAll (c : Z) : prog () := SignalCount c WAKE_ALL.
End Operations.
