(* ===== verification/FutexInv.v ===== *)
(** The invariant of mutexes and condition variables, and the rules of their
    elementary steps.

    Auxiliary state: who has the held bit of a mutex ([own]), how often a thread is
    counted among the waiters of a mutex ([reg]) or of a condition variable
    ([creg]), and which threads are on duty for a mutex ([duty]): one that released it
    and is about to wake a sleeper, or one that was woken and has not taken the
    mutex or gone to sleep again.  The invariant says that whenever a thread sleeps at a
    mutex, the mutex is held or somebody is on duty for it. *)
From stdpp Require Import base list functions relations.
From S2P Require Import Prelude Threads Futex.
Local Open Scope Z_scope.
Local Open Scope ark_scope.
Local Open Scope prog_scope.

(** What is known of the kernel and the threads: ids are not zero, there are few enough for a
    32-bit word that counts each thread twice. *)
Class KernelOk `{Kernel} : Prop := {
  live_nodup : NoDup live_threads;
  live_ids : 0 ∉ live_threads;
  live_few : 4 * Z.of_nat (length live_threads) + 4 <= 2 ^ 31;
  wake_order_perm : forall ch l, wake_order ch l ≡ₚ l;
}.

(** Which mutexes are recursive, and with which mutex a condition variable is used. *)
Class Usage := {
  is_recursive : Z -> bool;
  mutex_of : Z -> Z;
}.

Record Ghost := mkGhost {
  own : Z -> option Z;
  reg : Z -> Z -> Z;
  creg : Z -> Z -> Z;
  duty : Z -> option Z;
}.

(** Functions changed at a point. *)
Ltac at_point a b :=
  destruct (decide (b = a)); [subst b; rewrite ?fn_lookup_insert in *|
                              rewrite ?(fn_lookup_insert_ne _ a b) in * by congruence].

(** ** Only sleepers wait

    The one step that can wait is that of a sleeper; every other thread inside a call can go on. *)
Definition awaits (t : Z) (s : Process) : Prop := sleeping s t <> None.

Ltac respond :=
  repeat match goal with
  | |- responsive _ (if ?b then _ else _) => destruct b
  | |- responsive _ (match ?x with _ => _ end) => destruct x
  | |- responsive _ (Bind _ _) => split; [|intros ?]
  | |- responsive _ (Loop _ _) => intros ?; cbv zeta
  | |- responsive _ (Ret _) => exact I
  | |- responsive _ (Act _) =>
      intros ? ? ? ?; simpl in *; repeat case_match; done
  end.

Lemma responsive_wait a v timeout : responsive awaits (FUTEX_WAIT a v timeout).
Proof.
  unfold FUTEX_WAIT. respond. unfold futex_sleep, awaits. intros t ch s. destruct (sleeping s t) eqn:E; [|done].
  by intros _ ?.
Qed.
Lemma responsive_tid : responsive awaits cached_tid.
Proof. unfold cached_tid, GET_CURRENT_THREAD. respond. Qed.

Section CanRun.
Context {op answer loc : Type}.
Local Abbreviation config := (@Threads.config Z Process Failure op answer loc).

(** What a thread can do that is awake inside a call. *)
Definition can_run (c : config) (t : Z) : Prop :=
  exists p q, state_of c t = Running p q /\ sleeping (shared c) t = None /\
    (is_ret q <> None \/ forall ch, exists q' s', step t ch q (shared c) = Next q' s').

Lemma awake_can_run (code : Z -> op -> prog answer) may_call after (c0 c : config) :
  (forall t o, responsive awaits (code t o)) -> (forall t, state_of c0 t = Idle) ->
  rtc (cstep code may_call after) c0 c -> (forall f, ~ faulty c f) ->
  forall t p q, state_of c t = Running p q -> sleeping (shared c) t = None -> can_run c t.
Proof.
  intros Hcode H0 Hr Hf t p q Eq Es. exists p, q. split_and!; [done..|].
  destruct (is_ret q) eqn:Er; [by left|]. right. intros ch.
  destruct (step t ch q (shared c)) as [q' s'| |f] eqn:Est; [eauto|..].
  - assert (Hq : responsive awaits q).
    { eapply (reachable_responsive code may_call after _ c0 c); [done|done| |done]. intros ? ? ? E. by rewrite H0 in E. }
    by destruct (responsive_blocked _ _ _ _ _ Hq Er Est).
  - destruct (Hf f). exists t, p, q, ch. done.
Qed.
Definition is_idle (c : config) (t : Z) : bool :=
  match state_of c t with Idle => true | _ => false end.

Lemma is_idle_true (c : config) t : is_idle c t = true -> state_of c t = Idle.
Proof. unfold is_idle. by destruct (state_of c t). Qed.
End CanRun.

(** ** Sums over the threads *)
Definition total (l : list Z) (f : Z -> Z) : Z := foldr (fun u n => f u + n) 0 l.

Lemma total_ext l f g : (forall u, u ∈ l -> f u = g u) -> total l f = total l g.
Proof.
  induction l as [|u l IH]; intros E; [done|]. simpl. rewrite IH, (E u); [done|left|].
  intros v Hv. apply E. by right.
Qed.

Lemma total_update l f t v : NoDup l -> t ∈ l -> total l (<[t := v]> f) = total l f + (v - f t).
Proof.
  induction 1 as [|u l Hu Hl IH]; intros Ht; [by apply elem_of_nil in Ht|]. simpl.
  apply elem_of_cons in Ht as [->|Ht].
  - rewrite fn_lookup_insert. rewrite (total_ext l (<[u := v]> f) f); [lia|].
    intros w Hw. rewrite fn_lookup_insert_ne; [done|congruence].
  - rewrite fn_lookup_insert_ne by congruence. rewrite IH by done. lia.
Qed.

Lemma total_bounds l f b : (forall u, 0 <= f u <= b) -> 0 <= total l f <= b * Z.of_nat (length l).
Proof.
  intros Hf. induction l as [|u l IH]; simpl; [lia|]. specialize (Hf u). lia.
Qed.

Lemma sum_zero l : total l (fun _ => 0) = 0.
Proof. induction l; simpl; lia. Qed.

Lemma sum_pos l f t : (forall u, 0 <= f u) -> t ∈ l -> 0 < f t -> 0 < total l f.
Proof.
  intros Hf Ht Hp. assert (Hl : forall l, 0 <= total l f).
  { intros l'. induction l' as [|u l' IH]; simpl; [lia|]. specialize (Hf u). lia. }
  induction l as [|u l IH]; [by apply elem_of_nil in Ht|]. simpl. specialize (Hl l). specialize (Hf u).
  apply elem_of_cons in Ht as [->|Ht]; [lia|]. apply IH in Ht. lia.
Qed.

(** ** The held bit *)
Definition bit (o : option Z) : Z := match o with Some _ => 1 | None => 0 end.

Lemma held_bit_odd v : held_bit v = Z.odd v.
Proof.
  unfold held_bit, HELD_MASK. replace (u32 1) with (2 ^ 1 - 1) by done.
  rewrite land_mask, wrapu_mod_le by lia. change (2 ^ 1) with 2. rewrite Zmod_odd. by destruct (Z.odd v).
Qed.

Lemma set_held_bit v :
  0 <= v < 2 ^ 31 -> Z.odd v = false -> i32 (Z.lor (u32 v) (u32 HELD_MASK)) = v + 1.
Proof.
  intros Hv Ho. rewrite (wrapu_id 32) by (unfold in_u; lia). replace (u32 HELD_MASK) with 1 by done.
  pose proof (Zmod_odd v) as E. rewrite Ho in E.
  replace v with (2 * (v / 2)) by (pose proof (Z.div_mod v 2 ltac:(lia)); lia).
  replace (Z.lor _ 1) with (2 * (v / 2) + 1).
  - apply wraps_id; [lia|]. unfold in_s. change (32 - 1) with 31. pose proof (Z.div_mod v 2). lia.
  - rewrite <- Z.lxor_lor, <- Z.add_nocarry_lxor; [done|..].
    all: apply Z.bits_inj'; intros n Hn; rewrite Z.land_spec, Z.bits_0;
      destruct (decide (n = 0)) as [->|]; [by rewrite Z.testbit_even_0|];
      change 1 with (2 ^ 0); rewrite Z.pow2_bits_false by lia; by rewrite andb_false_r.
Qed.

Lemma clear_held_bit v :
  0 <= v < 2 ^ 31 -> Z.odd v = true -> Z.land (u32 v) (u32 (Z.lnot (u32 HELD_MASK))) = v - 1.
Proof.
  intros Hv Ho. rewrite (wrapu_id 32) by (unfold in_u; lia).
  replace (u32 (Z.lnot _)) with (Z.ldiff (Z.ones 32) 1) by done.
  pose proof (Zmod_odd v) as E. rewrite Ho in E. pose proof (Z.div_mod v 2 ltac:(lia)) as D.
  assert (El : Z.land v (Z.ldiff (Z.ones 32) 1) = Z.ldiff v 1).
  { apply Z.bits_inj'. intros n Hn. rewrite Z.land_spec, !Z.ldiff_spec, Z.testbit_ones_nonneg by lia.
    destruct (Z.ltb_spec n 32); [done|].
    rewrite (Z.bits_above_log2 v n); [done|lia|]. destruct (decide (v = 0)) as [->|]; [simpl; lia|].
    apply Z.log2_lt_pow2; [lia|]. pose proof (Z.pow_le_mono_r 2 32 n). lia. }
  rewrite El. rewrite <- Z.sub_nocarry_ldiff; [done|]. apply Z.bits_inj'. intros n Hn.
  rewrite Z.ldiff_spec, Z.bits_0. destruct (decide (n = 0)) as [->|].
  - by rewrite !Z.bit0_odd, Ho.
  - change 1 with (2 ^ 0). by rewrite Z.pow2_bits_false by lia.
Qed.

(** ** The thread's id

    Reading it through the cache, whatever the invariant is: [me] has to tell that the cache is empty or right, and
    filling it has to be a step. *)
Section ThreadId.
Context {ghost X : Type} (inv : Process * ghost -> Prop) (rely : Z -> Process * ghost -> Process * ghost -> Prop).
Context (refl : forall t w, rely t w w) (trans : forall t w1 w2 w3, rely t w1 w2 -> rely t w2 w3 -> rely t w1 w3).
Context (me : Z -> Process * ghost -> X -> Prop).
Context (stable : forall t w w1 x, me t w x -> rely t w w1 -> me t w1 x).
Context (knows : forall t w x, me t w x -> t <> 0 /\ (current_tid w.1 t = 0 \/ current_tid w.1 t = t)).
Context (fills : forall t w x, inv w -> me t w x ->
  step_ok inv rely me t w {| (w.1) with current_tid := <[t := t]> (current_tid w.1) |} x).

Lemma Safe_tid {A} t (k : Z -> prog A) Q w x :
  me t w x -> (forall w2, inv w2 -> me t w2 x -> Safe inv rely (fun _ => False) t (k t) Q w2) ->
  Safe inv rely (fun _ => False) t (Bind cached_tid k) Q w.
Proof.
  intros Hx Hk. unfold cached_tid. seq. eapply (Safe_me _ _ _ refl trans me stable); [done|].
  intros w1 I1 Hx1 ch. exists x. split; [by apply (same_step _ _ refl)|].
  destruct (knows _ _ _ Hx1) as [Hn Ht]. clear w Hx. intros w I Hx. destruct Ht as [Ht|Ht]; rewrite Ht.
  - simpl. seq. eapply (Safe_me _ _ _ refl trans me stable); [done|]. intros w2 I2 Hx2 ch2. exists x.
    split; [by apply (same_step _ _ refl)|]. clear w I Hx. intros w I Hx. seq.
    eapply (Safe_me _ _ _ refl trans me stable); [done|]. intros w3 I3 Hx3 ch3. exists x. split; [by apply fills|].
    clear w I Hx. intros w I Hx. by eapply (Safe_bind_back _ _ _ refl me stable).
  - rewrite bool_decide_eq_false_2 by done. by eapply (Safe_bind_back _ _ _ refl me stable).
Qed.
End ThreadId.

Section Invariant.
Context `{Kernel} `{!KernelOk} `{Usage}.
Abbreviation world := (Process * Ghost)%type.

(** The mutex a sleeper will take when it comes back. *)
Definition bound_for (a : uaddr) (m : Z) : Prop :=
  match a with StateAddr m' => m' = m | CondAddr c => mutex_of c = m | RWAddr _ => False end.

Record inv (w : world) : Prop := {
  inv_state : forall m, stateAndWaiters (mutexes w.1 m) =
    bit (own w.2 m) + 2 * total live_threads (fun u => reg w.2 u m);
  inv_owner : forall m, exclusiveOwner (mutexes w.1 m) <> 0 ->
    own w.2 m = Some (exclusiveOwner (mutexes w.1 m));
  inv_free : forall m, own w.2 m = None -> recursiveCount (mutexes w.1 m) = 0;
  inv_kind : forall m, recursiveMutex (mutexes w.1 m) = is_recursive m;
  inv_reg : forall u m, 0 <= reg w.2 u m <= 2;
  inv_live : forall u, u ∉ live_threads -> sleeping w.1 u = None /\ duty w.2 u = None /\
    forall m, own w.2 m <> Some u;
  inv_asleep : forall u a, sleeping w.1 u = Some a ->
    duty w.2 u = None /\ (forall m, bound_for a m -> 0 < reg w.2 u m /\ own w.2 m <> Some u) /\
    (forall m, own w.2 m = Some u -> exclusiveOwner (mutexes w.1 m) = u);
  inv_awake : forall u m, sleeping w.1 u = Some (StateAddr m) ->
    own w.2 m <> None \/ exists v, duty w.2 v = Some m;
  inv_waiters : forall c, waiters (conds w.1 c) = total live_threads (fun u => creg w.2 u c);
  inv_creg : forall u c, 0 <= creg w.2 u c <= 1;
  inv_mutexPtr : forall c, mutexPtr (conds w.1 c) = None \/ mutexPtr (conds w.1 c) = Some (mutex_of c);
  inv_used : forall c, mutexPtr (conds w.1 c) = None -> forall u, creg w.2 u c = 0;
}.

(** What a thread relies on. *)
Record rely (t : Z) (w w' : world) : Prop := {
  r_own : forall m, own w.2 m = Some t -> own w'.2 m = Some t /\
    recursiveCount (mutexes w'.1 m) = recursiveCount (mutexes w.1 m) /\
    exclusiveOwner (mutexes w'.1 m) = exclusiveOwner (mutexes w.1 m);
  r_other : forall m, own w.2 m <> Some t -> own w'.2 m <> Some t;
  r_reg : forall m, reg w'.2 t m = reg w.2 t m;
  r_creg : forall c, creg w'.2 t c = creg w.2 t c;
  r_awake : sleeping w.1 t = None -> sleeping w'.1 t = None /\ duty w'.2 t = duty w.2 t;
  r_asleep : forall a m, sleeping w.1 t = Some a -> bound_for a m ->
    (exists a', sleeping w'.1 t = Some a' /\ bound_for a' m) \/
    (sleeping w'.1 t = None /\ (duty w'.2 t = None \/ duty w'.2 t = Some m));
  r_tid : current_tid w'.1 t = current_tid w.1 t;
  r_mutexPtr : forall c m, mutexPtr (conds w.1 c) = Some m -> mutexPtr (conds w'.1 c) = Some m;
}.

Lemma fx_rely_refl t w : rely t w w.
Proof. split; auto. intros a m E Hb. left. eauto. Qed.

Lemma fx_rely_trans t w1 w2 w3 : rely t w1 w2 -> rely t w2 w3 -> rely t w1 w3.
Proof.
  intros [A1 A2 A3 A4 A5 A6 A7 A8] [B1 B2 B3 B4 B5 B6 B7 B8]. split; eauto; try congruence.
  - intros m Hm. destruct (A1 m Hm) as (E1 & E2 & E3). destruct (B1 m E1) as (? & ? & ?).
    split_and!; congruence.
  - intros E. destruct (A5 E) as [E1 E2]. destruct (B5 E1). split; congruence.
  - intros a m Ha Hb. destruct (A6 a m Ha Hb) as [(a' & Ea & Hb')|[Es Hd]]; [by eapply B6|].
    right. destruct (B5 Es) as [? ->]. auto.
Qed.

(** ** What a thread knows of itself *)

(** [e_own m] is [Some (named, n)] when the thread has the held bit of [m]; the count is [n],
    and the field for the owner says so when [named].  [e_sleep] is the mutex it is
    asleep for, or has been; [e_ptr] a condition variable that has its mutex. *)
Record Me := mkMe {
  e_own : Z -> option (bool * Z);
  e_reg : Z -> Z;
  e_creg : Z -> Z;
  e_duty : option Z;
  e_sleep : option Z;
  e_ptr : option Z;
}.

Record me (t : Z) (w : world) (x : Me) : Prop := {
  me_live : t ∈ live_threads;
  me_own : forall m, match e_own x m with
    | Some (named, n) => own w.2 m = Some t /\ recursiveCount (mutexes w.1 m) = n /\
                         exclusiveOwner (mutexes w.1 m) = if (named : bool) then t else 0
    | None => own w.2 m <> Some t
    end;
  me_reg : forall m, reg w.2 t m = e_reg x m;
  me_creg : forall c, creg w.2 t c = e_creg x c;
  me_sleep : match e_sleep x with
    | None => sleeping w.1 t = None /\ (duty w.2 t = None \/ duty w.2 t = e_duty x)
    | Some m => e_duty x = Some m /\
        ((exists a, sleeping w.1 t = Some a /\ bound_for a m) \/
         (sleeping w.1 t = None /\ (duty w.2 t = None \/ duty w.2 t = Some m)))
    end;
  me_tid : current_tid w.1 t = 0 \/ current_tid w.1 t = t;
  me_ptr : forall c, e_ptr x = Some c -> mutexPtr (conds w.1 c) = Some (mutex_of c);
}.

Lemma fx_me_rely t w w' x : me t w x -> rely t w w' -> me t w' x.
Proof.
  intros [E1 E2 E3 E4 E5 E6 E7] [R1 R2 R3 R4 R5 R6 R7 R8]. split; [done|..].
  - intros m. specialize (E2 m). destruct (e_own x m) as [[b n]|]; [|auto].
    destruct E2 as (Ho & Hc & He). destruct (R1 m Ho) as (? & ? & ?). split_and!; congruence.
  - intros m. by rewrite R3.
  - intros c. by rewrite R4.
  - destruct (e_sleep x) as [m|].
    + destruct E5 as [Ed [(a & Ea & Hb)|[Es Hd]]]; split; [done| |done|].
      * by eapply R6.
      * right. destruct (R5 Es) as [? ->]. auto.
    + destruct E5 as [Es Hd]. destruct (R5 Es) as [? ->]. auto.
  - rewrite R7. auto.
  - auto.
Qed.

Lemma me_id t w x : me t w x -> t <> 0.
Proof. intros Hx ->. by apply live_ids, (me_live _ _ _ Hx). Qed.

Lemma state_bounds w m : inv w -> 0 <= stateAndWaiters (mutexes w.1 m) <= 2 ^ 31 - 3.
Proof.
  intros I. rewrite (inv_state _ I).
  pose proof (total_bounds live_threads (fun u => reg w.2 u m) 2 (fun u => inv_reg _ I u m)).
  pose proof live_few. destruct (own w.2 m); simpl bit; lia.
Qed.

Lemma state_odd w m : inv w -> Z.odd (stateAndWaiters (mutexes w.1 m)) = bool_decide (own w.2 m <> None).
Proof.
  intros I. rewrite (inv_state _ I), Z.odd_add_mul_2. by destruct (own w.2 m).
Qed.
End Invariant.
