(* ===== verification/FutexRules.v ===== *)
(** Rules of the program logic for the elementary steps of mutexes and
    condition variables.  Each says what a step needs of what the thread knows of itself ([me])
    and what it leaves. *)
From stdpp Require Import base list functions.
From S2P Require Import Prelude Threads Futex FutexInv.
Local Open Scope Z_scope.
Local Open Scope ark_scope.
Local Open Scope prog_scope.

(** The rules of [Threads] for what is known in [me]. *)
Abbreviation step_ok := (step_ok inv rely me).
Abbreviation Safe_me_rely := (Safe_me_rely inv rely (fun _ : Failure => False) fx_rely_refl fx_rely_trans me fx_me_rely).
Abbreviation Safe_me := (Safe_me inv rely (fun _ : Failure => False) fx_rely_refl fx_rely_trans me fx_me_rely).
Abbreviation Safe_read := (Safe_look inv rely (fun _ : Failure => False) fx_rely_refl fx_rely_trans me fx_me_rely).
Abbreviation Safe_back := (Safe_back inv rely (fun _ : Failure => False) me fx_me_rely).
Abbreviation Safe_bind_ret := (Safe_bind_back inv rely (fun _ : Failure => False) fx_rely_refl me fx_me_rely).
Abbreviation same_step := (same_step inv rely fx_rely_refl me).

Section Rules.
Context `{Kernel} `{!KernelOk} `{Usage}.
Abbreviation world := (Process * Ghost)%type.
Abbreviation Safe := (Safe inv rely (fun _ : Failure => False)).
Abbreviation guar := (guar rely).

Lemma Safe_Assert {A} t b (k : () -> prog A) Q w x :
  me t w x -> b = true -> (forall w1, inv w1 -> me t w1 x -> Safe t (k ()) Q w1) ->
  Safe t (Bind (Assert b) k) Q w.
Proof. intros Hx -> Hk. by eapply Safe_bind_ret. Qed.

(** ** Steps on a mutex

    The general rule: the step writes the fields of one mutex and changes who has it, how often the
    thread waits for it, and what the thread is on duty for. *)
Record mutex_change (t : Z) (w : world) (x : Me) (m : Z) (M' : fmutex) (o' : option Z) (r' : Z)
    (d' : option Z) : Prop := {
  mc_awake : e_sleep x = None;
  mc_own : o' = own w.2 m \/ (own w.2 m = None /\ o' = Some t) \/ (own w.2 m = Some t /\ o' = None);
  mc_state : stateAndWaiters M' = stateAndWaiters (mutexes w.1 m) + (bit o' - bit (own w.2 m)) +
    2 * (r' - e_reg x m);
  mc_foreign : o' = own w.2 m -> own w.2 m <> Some t ->
    recursiveCount M' = recursiveCount (mutexes w.1 m) /\
    exclusiveOwner M' = exclusiveOwner (mutexes w.1 m);
  mc_owner : exclusiveOwner M' <> 0 -> o' = Some (exclusiveOwner M');
  mc_free : o' = None -> recursiveCount M' = 0;
  mc_kind : recursiveMutex M' = recursiveMutex (mutexes w.1 m);
  mc_reg : 0 <= r' <= 2;
  mc_watch : forall u m', sleeping w.1 u = Some (StateAddr m') ->
    <[m := o']> (own w.2) m' <> None \/ exists v, <[t := d']> (duty w.2) v = Some m';
}.

Definition own_as (t : Z) (M : fmutex) (o : option Z) : option (bool * Z) :=
  if decide (o = Some t) then Some (exclusiveOwner M == t, recursiveCount M) else None.

Lemma mutex_step t w x m M' o' r' d' ed :
  inv w -> me t w x -> mutex_change t w x m M' o' r' d' -> d' = None \/ d' = ed ->
  step_ok t w {| (w.1) with mutexes := <[m := M']> (mutexes w.1) |}
    {| x with e_own := <[m := own_as t M' o']> (e_own x); e_reg := <[m := r']> (e_reg x);
              e_duty := ed |}.
Proof.
  intros I Hx [C1 C2 C3 C4 C5 C6 C7 C8 C9] Hd. destruct w as [s g]; simpl in *.
  pose proof (me_live _ _ _ Hx) as Hl. pose proof (me_sleep _ _ _ Hx) as Hs. rewrite C1 in Hs.
  destruct Hs as [Hs Hdt]. pose proof (me_reg _ _ _ Hx) as Hr. simpl in *.
  exists {| g with own := <[m := o']> (own g); reg := <[t := <[m := r']> (reg g t)]> (reg g);
                   duty := <[t := d']> (duty g) |}.
  split_and!.
  - destruct I as [I1 I2 I3 I4 I5 I6 I7 I8 I9 I10 I11 I12]. split; simpl in *; try done.
    + intros m'. at_point m m'.
      * rewrite C3, I1, (total_ext _ (fun u => <[t := <[m := r']> (reg g t)]> (reg g) u m)
          (<[t := r']> (fun u => reg g u m))).
        { rewrite total_update by (done || apply live_nodup). cbv beta. rewrite Hr. lia. }
        intros u _. by at_point t u.
      * rewrite I1. f_equal. f_equal. apply total_ext. intros u _. at_point t u; [|done].
        by rewrite fn_lookup_insert_ne.
    + intros m'. at_point m m'; auto.
    + intros m'. at_point m m'; auto.
    + intros m'. at_point m m'; [congruence|auto].
    + intros u m'. at_point t u; [|auto]. at_point m m'; auto.
    + intros u Hu. destruct (I6 u Hu) as (? & ? & Hn). rewrite fn_lookup_insert_ne by congruence.
      split_and!; [done..|]. intros m'. at_point m m'; [|auto].
      destruct C2 as [->|[[_ ->]|[_ ->]]]; [auto|congruence|done].
    + intros u a Ha. assert (u <> t) by congruence. destruct (I7 u a Ha) as (? & Hb & Ho).
      rewrite !(fn_lookup_insert_ne _ t) by done. split_and!; [done|..].
      { intros m' Hm'. destruct (Hb m' Hm'). split; [done|]. at_point m m'; [|done].
        destruct C2 as [->|[[_ ->]|[_ ->]]]; congruence. }
      intros m'. at_point m m'; [|auto]. intros Eu. destruct C2 as [E|[[_ ->]|[_ ->]]]; [|congruence|done]. rewrite E in Eu.
      rewrite (proj2 (C4 E ltac:(congruence))). auto.
  - intros u Hu. split; simpl; rewrite ?(fn_lookup_insert_ne _ t u) by done; try done.
    + intros m' Hm'. at_point m m'; [|done]. destruct C2 as [E|[[E _]|[E _]]]; [|congruence..].
      rewrite E. destruct (C4 E ltac:(congruence)). auto.
    + intros m' Hm'. at_point m m'; [|done]. destruct C2 as [->|[[_ ->]|[_ ->]]]; congruence.
    + intros a m' Ha Hb. left. eauto.
  - destruct Hx as [X1 X2 X3 X4 X5 X6 X7]. split; simpl in *; try done.
    + intros m'. specialize (X2 m'). at_point m m'; [|done]. unfold own_as. case_decide as E; [|done].
      split_and!; [done..|]. case_bool_decide as E'; [done|]. destruct (decide (exclusiveOwner M' = 0)); [done|].
      apply C5 in n. congruence.
    + intros m'. rewrite fn_lookup_insert. at_point m m'; auto.
    + rewrite C1. split; [done|]. rewrite fn_lookup_insert. done.
Qed.

Lemma fx_me_ext t w x x' :
  me t w x -> (forall m, e_own x' m = e_own x m) -> (forall m, e_reg x' m = e_reg x m) ->
  (forall c, e_creg x' c = e_creg x c) -> e_duty x' = e_duty x -> e_sleep x' = e_sleep x -> e_ptr x' = e_ptr x -> me t w x'.
Proof.
  intros [E1 E2 E3 E4 E5 E6 E7] F1 F2 F3 F4 F5 F6. split; try congruence.
  - intros m. rewrite F1. apply E2.
  - by rewrite F5, F4.
  - by rewrite F6.
Qed.

Lemma step_ok_ext t w s' x x' :
  step_ok t w s' x -> (forall m, e_own x' m = e_own x m) -> (forall m, e_reg x' m = e_reg x m) ->
  (forall c, e_creg x' c = e_creg x c) -> e_duty x' = e_duty x -> e_sleep x' = e_sleep x -> e_ptr x' = e_ptr x ->
  step_ok t w s' x'.
Proof. intros (g' & I & G & Hx) **. exists g'. split_and!; [done..|]. by eapply fx_me_ext. Qed.

(** The fields of a mutex the thread has. *)
Lemma own_fields t w x m named n :
  me t w x -> e_own x m = Some (named, n) ->
  own w.2 m = Some t /\ recursiveCount (mutexes w.1 m) = n /\
  exclusiveOwner (mutexes w.1 m) = if (named : bool) then t else 0.
Proof. intros Hx E. pose proof (me_own _ _ _ Hx m) as Hm. by rewrite E in Hm. Qed.

Lemma me_awake t w x : me t w x -> e_sleep x = None -> sleeping w.1 t = None.
Proof. intros Hx E. pose proof (me_sleep _ _ _ Hx) as Hs. rewrite E in Hs. apply Hs. Qed.

(** Writing the count or the owner of a mutex the thread has. *)
Lemma Safe_own_set {A} t m f (k : () -> prog A) Q w x named n named' n' :
  me t w x -> e_sleep x = None -> e_own x m = Some (named, n) ->
  (forall M, stateAndWaiters (f M) = stateAndWaiters M /\ recursiveMutex (f M) = recursiveMutex M /\
     (recursiveCount M = n -> recursiveCount (f M) = n') /\
     (exclusiveOwner M = (if (named : bool) then t else 0) ->
      exclusiveOwner (f M) = if (named' : bool) then t else 0)) ->
  (forall w2, inv w2 -> me t w2 {| x with e_own := <[m := Some (named', n')]> (e_own x) |} ->
     Safe t (k ()) Q w2) ->
  Safe t (Bind (mutex_set m f) k) Q w.
Proof.
  intros Hx Es Eo Hf Hk. eapply Safe_me; [done|]. intros w1 I1 Hx1 ch.
  exists {| x with e_own := <[m := Some (named', n')]> (e_own x) |}. split; [|done].
  destruct (own_fields _ _ _ _ _ _ Hx1 Eo) as (Ho & Hc & He).
  destruct (Hf (mutexes w1.1 m)) as (F1 & F2 & F3 & F4). specialize (F3 Hc). specialize (F4 He).
  pose proof (me_id _ _ _ Hx1) as Ht.
  assert (C : mutex_change t w1 x m (f (mutexes w1.1 m)) (Some t) (e_reg x m) (duty w1.2 t)).
  { split; try done.
    - by left.
    - rewrite F1, Ho. lia.
    - intros Hn. destruct named'; congruence.
    - rewrite <- (me_reg _ _ _ Hx1). apply (inv_reg _ I1).
    - intros u m' Hu. destruct (inv_awake _ I1 u m' Hu) as [?|[v Hv]].
      + left. by at_point m m'.
      + right. exists v. by at_point t v. }
  eapply step_ok_ext; [eapply mutex_step with (ed := e_duty x); [done|done|exact C|]|..]; try done.
  - pose proof (me_sleep _ _ _ Hx1) as Hs. rewrite Es in Hs. apply Hs.
  - intros m'. simpl. at_point m m'; [|done]. unfold own_as. rewrite decide_True, F3 by done.
    f_equal. f_equal. rewrite F4. destruct named'; [by rewrite bool_decide_eq_true_2|].
    by rewrite bool_decide_eq_false_2.
  - intros m'. simpl. by at_point m m'.
Qed.

(** Nobody stops watching when the mutexes and the duties stay. *)
Lemma watch_same t w m :
  inv w -> forall u m', sleeping w.1 u = Some (StateAddr m') ->
  <[m := own w.2 m]> (own w.2) m' <> None \/ exists v, <[t := duty w.2 t]> (duty w.2) v = Some m'.
Proof.
  intros I u m' Hu. destruct (inv_awake _ I u m' Hu) as [?|[v Hv]].
  - left. by at_point m m'.
  - right. exists v. by at_point t v.
Qed.

Lemma me_duty t w x : me t w x -> e_sleep x = None -> duty w.2 t = None \/ duty w.2 t = e_duty x.
Proof. intros Hx E. pose proof (me_sleep _ _ _ Hx) as Hs. rewrite E in Hs. apply Hs. Qed.

Lemma own_as_same t w x m M' :
  inv w -> me t w x -> recursiveCount M' = recursiveCount (mutexes w.1 m) ->
  exclusiveOwner M' = exclusiveOwner (mutexes w.1 m) -> own_as t M' (own w.2 m) = e_own x m.
Proof.
  intros I Hx E1 E2. unfold own_as. rewrite E1, E2. pose proof (me_own _ _ _ Hx m) as Hm.
  pose proof (me_id _ _ _ Hx). destruct (e_own x m) as [[b n]|]; [|by rewrite decide_False].
  destruct Hm as (-> & -> & ->). rewrite decide_True by done. f_equal. f_equal.
  destruct b; [by rewrite bool_decide_eq_true_2|by rewrite bool_decide_eq_false_2].
Qed.

Lemma Safe_waiters {A} t m d (k : () -> prog A) Q w x :
  me t w x -> e_sleep x = None -> d = 1 \/ d = -1 -> 0 <= e_reg x m + d <= 2 ->
  (forall w2, inv w2 -> me t w2 {| x with e_reg := <[m := e_reg x m + d]> (e_reg x) |} ->
     Safe t (k ()) Q w2) ->
  Safe t (Bind (mutex_set m (fun M => {| M with stateAndWaiters := i32 (stateAndWaiters M + 2 * d) |})) k) Q w.
Proof.
  intros Hx Es Hd Hr Hk. eapply Safe_me; [done|]. intros w1 I1 Hx1 ch. eexists. split; [|apply Hk].
  set (M := mutexes w1.1 m).
  assert (C : mutex_change t w1 x m {| M with stateAndWaiters := i32 (stateAndWaiters M + 2 * d) |}
                (own w1.2 m) (e_reg x m + d) (duty w1.2 t)).
  { split; try done; simpl.
    - by left.
    - rewrite wraps_id; [fold M; lia|lia|]. pose proof (state_bounds w1 m I1) as Hb. fold M in Hb.
      unfold in_s. change (32 - 1) with 31. lia.
    - apply (inv_owner _ I1).
    - apply (inv_free _ I1).
    - by apply watch_same. }
  eapply step_ok_ext; [eapply mutex_step with (ed := e_duty x); [done|done|exact C|]|..]; try done.
  - by eapply me_duty.
  - intros m'. simpl. at_point m m'; [|done]. by erewrite own_as_same.
Qed.

Lemma Safe_IncrementWaiters {A} t m (k : () -> prog A) Q w x :
  me t w x -> e_sleep x = None -> 0 <= e_reg x m <= 1 ->
  (forall w2, inv w2 -> me t w2 {| x with e_reg := <[m := e_reg x m + 1]> (e_reg x) |} ->
     Safe t (k ()) Q w2) ->
  Safe t (Bind (IncrementWaiters m) k) Q w.
Proof. intros. eapply (Safe_waiters t m 1); eauto. lia. Qed.

Lemma Safe_DecrementWaiters {A} t m (k : () -> prog A) Q w x :
  me t w x -> e_sleep x = None -> 1 <= e_reg x m <= 2 ->
  (forall w2, inv w2 -> me t w2 {| x with e_reg := <[m := e_reg x m - 1]> (e_reg x) |} ->
     Safe t (k ()) Q w2) ->
  Safe t (Bind (DecrementWaiters m) k) Q w.
Proof. intros. eapply (Safe_waiters t m (-1)); eauto. lia. Qed.

(** Taking the held bit. *)
Lemma Safe_cas_lock {A} t m cur (k : bool * Z -> prog A) Q w x :
  me t w x -> e_sleep x = None -> e_duty x = None \/ e_duty x = Some m ->
  held_bit cur = false ->
  (forall w2, inv w2 ->
     me t w2 {| x with e_own := <[m := Some (false, 0)]> (e_own x); e_duty := None |} ->
     Safe t (k (true, cur)) Q w2) ->
  (forall v w2, inv w2 -> me t w2 x -> Safe t (k (false, v)) Q w2) ->
  Safe t (Bind (cas_state m cur (i32 (Z.lor (u32 cur) (u32 HELD_MASK)))) k) Q w.
Proof.
  intros Hx Es Ed Hc Hk Hk'. eapply Safe_me; [done|]. intros w1 I1 Hx1 ch. simpl.
  set (M := mutexes w1.1 m).
  destruct (_ && _) eqn:E; [|exists x; split; [by apply same_step|auto]].
  apply andb_prop in E as [E%bool_decide_eq_true _]. eexists. split; [|apply Hk].
  pose proof (state_bounds w1 m I1) as Hb. fold M in Hb. rewrite held_bit_odd in Hc.
  assert (Ho : own w1.2 m = None).
  { pose proof (state_odd w1 m I1) as Hodd. fold M in Hodd. rewrite E, Hc in Hodd.
    symmetry in Hodd. apply bool_decide_eq_false in Hodd. destruct (own w1.2 m); [by destruct Hodd|done]. }
  assert (C : mutex_change t w1 x m {| M with stateAndWaiters := i32 (Z.lor (u32 cur) (u32 HELD_MASK)) |}
                (Some t) (e_reg x m) None).
  { split; try done; simpl.
    - auto.
    - rewrite set_held_bit by (done || lia). rewrite Ho. fold M. simpl. lia.
    - intros Hn. apply (inv_owner _ I1) in Hn. congruence.
    - rewrite <- (me_reg _ _ _ Hx1). apply (inv_reg _ I1).
    - intros u m' Hu. destruct (decide (m' = m)) as [->|Hne].
      + left. by rewrite fn_lookup_insert.
      + rewrite fn_lookup_insert_ne by done. destruct (inv_awake _ I1 u m' Hu) as [?|[v Hv]]; [by left|].
        right. exists v. rewrite fn_lookup_insert_ne; [done|]. intros ->.
        destruct (me_duty _ _ _ Hx1 Es); destruct Ed; congruence. }
  eapply step_ok_ext; [eapply mutex_step with (ed := None); [done|done|exact C|by left]|..]; try done.
  - intros m'. simpl. at_point m m'; [|done]. unfold own_as. rewrite decide_True by done. simpl. f_equal.
    pose proof (inv_free _ I1 m Ho) as Hf. fold M in Hf. rewrite Hf. f_equal. symmetry. apply bool_decide_eq_false_2. intros Et.
    pose proof (inv_owner _ I1 m) as Hn. fold M in Hn. rewrite Et, Ho in Hn.
    discriminate (Hn (me_id _ _ _ Hx1)).
  - intros m'. simpl. by at_point m m'.
Qed.

(** Giving it back: the thread is on duty until it has woken a sleeper. *)
Lemma Safe_cas_unlock {A} t m cur (k : bool * Z -> prog A) Q w x :
  let new := Z.land (u32 cur) (u32 (Z.lnot (u32 HELD_MASK))) in
  me t w x -> e_sleep x = None -> e_duty x = None -> e_own x m = Some (false, 0) ->
  (forall w2, inv w2 ->
     me t w2 {| x with e_own := <[m := None]> (e_own x);
                       e_duty := if new == 0 then None else Some m |} ->
     Safe t (k (true, cur)) Q w2) ->
  (forall v w2, held_bit v = true -> inv w2 -> me t w2 x -> Safe t (k (false, v)) Q w2) ->
  Safe t (Bind (cas_state m cur (i32 new)) k) Q w.
Proof.
  intros new Hx Es Ed Eo Hk Hk'. eapply Safe_me; [done|]. intros w1 I1 Hx1 ch. simpl.
  set (M := mutexes w1.1 m). destruct (own_fields _ _ _ _ _ _ Hx1 Eo) as (Ho & Hc & He).
  pose proof (state_bounds w1 m I1) as Hb. fold M in Hb, Hc, He.
  assert (Hodd : Z.odd (stateAndWaiters M) = true).
  { unfold M. rewrite (state_odd w1 m I1), Ho. done. }
  destruct (_ && _) eqn:E.
  2: { exists x. split; [by apply same_step|]. intros w2 I2 Hx2. apply Hk'; [|done..]. by rewrite held_bit_odd. }
  apply andb_prop in E as [E%bool_decide_eq_true _]. eexists. split; [|apply Hk].
  assert (En : new = stateAndWaiters M - 1) by (unfold new; rewrite <- E; apply clear_held_bit; lia || done).
  assert (Ei : i32 new = new).
  { apply wraps_id; [lia|]. unfold in_s. change (32 - 1) with 31. lia. }
  assert (Ht : new = 2 * total live_threads (fun u => reg w1.2 u m)).
  { pose proof (inv_state _ I1 m) as Hst. fold M in Hst. rewrite Ho in Hst. simpl bit in Hst. lia. }
  assert (C : mutex_change t w1 x m {| M with stateAndWaiters := i32 new |} None (e_reg x m)
                (if new == 0 then None else Some m)).
  { split; try done; simpl.
    - auto.
    - rewrite Ei, Ho. fold M. simpl. lia.
    - rewrite <- (me_reg _ _ _ Hx1). apply (inv_reg _ I1).
    - intros u m' Hu. destruct (decide (m' = m)) as [->|Hne].
      + right. exists t. rewrite fn_lookup_insert. rewrite bool_decide_eq_false_2; [done|]. intros Ez.
        destruct (inv_asleep _ I1 u _ Hu) as (_ & Hr & _). destruct (Hr m eq_refl) as [Hr' _]. clear Hr. rename Hr' into Hr.
        assert (Hul : u ∈ live_threads).
        { destruct (decide (u ∈ live_threads)); [done|]. destruct (inv_live _ I1 u n) as (? & _). congruence. }
        pose proof (sum_pos live_threads (fun u => reg w1.2 u m) u
          (fun u => proj1 (inv_reg _ I1 u m)) Hul Hr). lia.
      + rewrite fn_lookup_insert_ne by done. destruct (inv_awake _ I1 u m' Hu) as [?|[v Hv]]; [by left|].
        right. exists v. rewrite fn_lookup_insert_ne; [done|]. intros ->.
        destruct (me_duty _ _ _ Hx1 Es); congruence. }
  eapply step_ok_ext; [eapply mutex_step; [done|done|exact C|by right]|..]; try done.
  - intros m'. simpl. by at_point m m'.
Qed.

(** ** Steps of the kernel *)
Record sleep_change (t : Z) (w : world) (sl' : Z -> option uaddr) (d' : Z -> option Z) : Prop := {
  sc_asleep : forall u a, sl' u = Some a -> d' u = None /\ u ∈ live_threads /\
    (forall m, bound_for a m -> 0 < reg w.2 u m /\ own w.2 m <> Some u) /\
    (forall m, own w.2 m = Some u -> exclusiveOwner (mutexes w.1 m) = u);
  sc_awake : forall u m, sl' u = Some (StateAddr m) -> own w.2 m <> None \/ exists v, d' v = Some m;
  sc_up : forall u, u <> t -> sleeping w.1 u = None -> sl' u = None /\ d' u = duty w.2 u;
  sc_down : forall u a m, u <> t -> sleeping w.1 u = Some a -> bound_for a m ->
    (exists a', sl' u = Some a' /\ bound_for a' m) \/
    (sl' u = None /\ (d' u = None \/ d' u = Some m));
}.

Lemma sleep_step t w x sl' d' ed es :
  inv w -> me t w x -> sleep_change t w sl' d' ->
  match es with
  | None => sl' t = None /\ (d' t = None \/ d' t = ed)
  | Some m => ed = Some m /\ ((exists a, sl' t = Some a /\ bound_for a m) \/
                             (sl' t = None /\ (d' t = None \/ d' t = Some m)))
  end ->
  step_ok t w {| (w.1) with sleeping := sl' |} {| x with e_duty := ed; e_sleep := es |}.
Proof.
  intros I Hx [C1 C2 C3 C4] He. destruct w as [s g]; simpl in *. exists {| g with duty := d' |}. split_and!.
  - destruct I as [I1 I2 I3 I4 I5 I6 I7 I8 I9 I10 I11 I12]. split; simpl in *; try done.
    + intros u Hu. destruct (I6 u Hu) as (Es & Ed & Hn). assert (u <> t) by (intros ->; by destruct Hx).
      destruct (C3 u) as [-> ->]; done.
    + intros u a E. destruct (C1 u a E) as (? & _ & ? & ?). auto.
  - intros u Hu. split; simpl; auto. intros a m Ha Hb. by eapply C4.
  - destruct Hx as [X1 X2 X3 X4 X5 X6 X7]. by split.
Qed.

Lemma asleep_live w u a : inv w -> sleeping w.1 u = Some a -> u ∈ live_threads.
Proof.
  intros I E. destruct (decide (u ∈ live_threads)) as [|Hn]; [done|].
  destruct (inv_live _ I u Hn) as (? & _). congruence.
Qed.

(** Nothing sleeps at [a] that is not among [sleepers]; those taken are. *)
Lemma taken_asleep ch a n s u : u ∈ taken ch a n s -> sleeping s u = Some a.
Proof.
  intros Hu. apply elem_of_take in Hu as (i & Hi & _). apply list_elem_of_lookup_2 in Hi.
  rewrite wake_order_perm in Hi. by apply list_elem_of_filter in Hi as [? _].
Qed.

Lemma taken_some w ch a n u :
  inv w -> 0 < n -> sleeping w.1 u = Some a -> exists v, v ∈ taken ch a n w.1.
Proof.
  intros I Hn E. assert (Hu : u ∈ sleepers a w.1).
  { apply list_elem_of_filter. split; [done|by eapply asleep_live]. }
  rewrite <- (wake_order_perm ch) in Hu. unfold taken.
  destruct (wake_order ch (sleepers a w.1)) as [|v l]; [by apply elem_of_nil in Hu|].
  exists v. cbv zeta. destruct (Z.to_nat _) eqn:En; [simpl length in En; lia|]. left.
Qed.

(** Waking at a mutex: the thread goes off duty, whoever is woken comes on. *)
Lemma Safe_wake_mutex {A} t m (k : Z -> prog A) Q w x :
  me t w x -> e_sleep x = None -> e_duty x = None \/ e_duty x = Some m ->
  (forall n w2, inv w2 -> me t w2 {| x with e_duty := None |} -> Safe t (k n) Q w2) ->
  Safe t (Bind (FUTEX_WAKE (StateAddr m) WAKE_ONE) k) Q w.
Proof.
  intros Hx Es Ed Hk. eapply Safe_me; [done|]. intros w1 I1 Hx1 ch. simpl.
  exists {| x with e_duty := None |}. split; [|auto].
  set (us := taken ch (StateAddr m) WAKE_ONE w1.1).
  assert (Hus : forall u, u ∈ us -> sleeping w1.1 u = Some (StateAddr m)) by (intros u; apply taken_asleep).
  pose proof (me_awake _ _ _ Hx1 Es) as Hs. assert (Ht : t ∉ us) by (intros Ht; apply Hus in Ht; congruence).
  set (d' := fun u => if decide (u = t) then None else if bool_decide (u ∈ us) then Some m else duty w1.2 u).
  eapply (sleep_step t w1 x _ d'); [done..| |].
  - split; unfold d'; simpl.
    + intros u a. case_bool_decide as Hu; [done|]. intros E. destruct (inv_asleep _ I1 u a E) as (? & ? & ?).
      split_and!; [by case_decide|by eapply asleep_live|done..].
    + intros u m'. case_bool_decide as Hu; [done|]. intros E.
      destruct (inv_awake _ I1 u m' E) as [?|[v Hv]]; [by left|]. right.
      destruct (decide (v = t)) as [->|Hv'].
      * assert (m' = m) as -> by (destruct (me_duty _ _ _ Hx1 Es); destruct Ed; congruence).
        destruct (taken_some w1 ch (StateAddr m) WAKE_ONE u I1 ltac:(done) E) as [v Hvu].
        exists v. fold us in Hvu. rewrite decide_False by congruence. by rewrite bool_decide_eq_true_2.
      * exists v. rewrite decide_False by done. rewrite bool_decide_eq_false_2; [done|].
        intros Hvu. apply Hus in Hvu. destruct (inv_asleep _ I1 v _ Hvu). congruence.
    + intros u Hu E. rewrite decide_False by done.
      assert (u ∉ us) by (intros Huu; apply Hus in Huu; congruence). by rewrite bool_decide_eq_false_2.
    + intros u a m' Hu E Hb. rewrite decide_False by done. case_bool_decide as Huu; [|left; eauto].
      right. split; [done|]. right. apply Hus in Huu. rewrite E in Huu. injection Huu as ->. by rewrite <- Hb.
  - simpl. rewrite Es, bool_decide_eq_false_2 by done. unfold d'. rewrite decide_True by done. auto.
Qed.

(** Waking at a condition variable. *)
Lemma Safe_wake_cond {A} t c n (k : Z -> prog A) Q w x :
  me t w x -> e_sleep x = None -> (forall r w2, inv w2 -> me t w2 x -> Safe t (k r) Q w2) ->
  Safe t (Bind (FUTEX_WAKE (CondAddr c) n) k) Q w.
Proof.
  intros Hx Es Hk. eapply Safe_me; [done|]. intros w1 I1 Hx1 ch. simpl. exists x. split; [|auto].
  set (us := taken ch (CondAddr c) n w1.1).
  assert (Hus : forall u, u ∈ us -> sleeping w1.1 u = Some (CondAddr c)) by (intros u; apply taken_asleep).
  pose proof (me_awake _ _ _ Hx1 Es) as Hs. assert (Ht : t ∉ us) by (intros Ht; apply Hus in Ht; congruence).
  eapply step_ok_ext; [eapply (sleep_step t w1 x _ (duty w1.2) (e_duty x) None); [done..| |]|done..].
  - split; simpl.
    + intros u a. case_bool_decide as Hu; [done|]. intros E. destruct (inv_asleep _ I1 u a E) as (? & ? & ?).
      split_and!; [done|by eapply asleep_live|done..].
    + intros u m'. case_bool_decide as Hu; [done|]. apply (inv_awake _ I1).
    + intros u Hu E. by case_bool_decide.
    + intros u a m' Hu E Hb. case_bool_decide as Huu; [|left; eauto]. right. split; [done|]. left.
      by destruct (inv_asleep _ I1 u a E).
  - simpl. rewrite bool_decide_eq_false_2 by done. split; [done|by eapply me_duty].
Qed.

(** Moving sleepers of a condition variable to its mutex, which the thread holds. *)
Lemma Safe_requeue {A} t c n (k : Z -> prog A) Q w x v :
  me t w x -> e_sleep x = None -> e_own x (mutex_of c) = Some v ->
  (forall r w2, 0 <= r -> inv w2 -> me t w2 x -> Safe t (k r) Q w2) ->
  Safe t (Bind (FUTEX_REQUEUE (CondAddr c) n (StateAddr (mutex_of c))) k) Q w.
Proof.
  intros Hx Es Eo Hk. eapply Safe_me; [done|]. intros w1 I1 Hx1 ch. simpl. exists x.
  split; [|intros w2; apply Hk; lia].
  set (us := taken ch (CondAddr c) n w1.1). destruct v as [b v].
  destruct (own_fields _ _ _ _ _ _ Hx1 Eo) as (Ho & _).
  assert (Hus : forall u, u ∈ us -> sleeping w1.1 u = Some (CondAddr c)) by (intros u; apply taken_asleep).
  pose proof (me_awake _ _ _ Hx1 Es) as Hs. assert (Ht : t ∉ us) by (intros Ht; apply Hus in Ht; congruence).
  eapply step_ok_ext; [eapply (sleep_step t w1 x _ (duty w1.2) (e_duty x) None); [done..| |]|done..].
  - split; simpl.
    + intros u a. case_bool_decide as Hu.
      * intros [= <-]. pose proof (Hus u Hu) as E. destruct (inv_asleep _ I1 u _ E) as (? & Hr & ?).
        split_and!; [done|by eapply asleep_live|intros m <-; by apply Hr|done].
      * intros E. destruct (inv_asleep _ I1 u a E) as (? & ? & ?).
        split_and!; [done|by eapply asleep_live|done..].
    + intros u m'. case_bool_decide as Hu; [|apply (inv_awake _ I1)]. intros [= <-]. left. congruence.
    + intros u Hu E. assert (u ∉ us) by (intros Huu; apply Hus in Huu; congruence).
      by rewrite bool_decide_eq_false_2.
    + intros u a m' Hu E Hb. left. case_bool_decide as Huu; [|eauto]. eexists. split; [done|].
      apply Hus in Huu. rewrite E in Huu. injection Huu as ->. done.
  - simpl. rewrite bool_decide_eq_false_2 by done. split; [done|by eapply me_duty].
Qed.

Lemma bound_inj a m m' : bound_for a m -> bound_for a m' -> m = m'.
Proof. destruct a; simpl; [congruence..|done]. Qed.

Lemma me_on_duty t w x m :
  me t w x -> e_sleep x = None -> e_duty x = None \/ e_duty x = Some m ->
  me t w {| x with e_duty := Some m |}.
Proof.
  intros [X1 X2 X3 X4 X5 X6 X7] Es Ed. split; try done. simpl. rewrite Es in *. destruct X5 as [? Hd].
  split; [done|]. destruct Hd as [Hd|Hd]; [by left|]. rewrite Hd. destruct Ed as [Ed|Ed]; rewrite Ed; auto.
Qed.

(** Coming back from sleep. *)
Lemma Safe_futex_sleep {A} t m timed (k : futex_result -> prog A) Q w x :
  me t w x -> e_sleep x = Some m ->
  (forall r w2, r <> EINVAL -> (timed = false -> r <> ETIMEDOUT) -> inv w2 ->
     me t w2 {| x with e_sleep := None |} -> Safe t (k r) Q w2) ->
  Safe t (Bind (futex_sleep timed) k) Q w.
Proof.
  intros Hx Es Hk. eapply Safe_me; [done|]. intros w1 I1 Hx1 ch. cbv beta.
  pose proof (me_sleep _ _ _ Hx1) as Hs. rewrite Es in Hs. destruct Hs as [Ed Hs].
  assert (Hwoken : step_ok t w1 {| (w1.1) with sleeping := <[t := None]> (sleeping w1.1) |}
                     {| x with e_sleep := None |}).
  { eapply step_ok_ext; [eapply (sleep_step t w1 x _ (duty w1.2) (e_duty x) None); [done..| |]|done..].
    - split.
      + intros u a. at_point t u; [done|]. intros E. destruct (inv_asleep _ I1 u a E) as (? & ? & ?).
        split_and!; [done|by eapply asleep_live|done..].
      + intros u m'. at_point t u; [done|]. apply (inv_awake _ I1).
      + intros u Hu E. by rewrite fn_lookup_insert_ne.
      + intros u a m' Hu E Hb. left. rewrite fn_lookup_insert_ne by done. eauto.
    - rewrite fn_lookup_insert. split; [done|]. rewrite Ed.
      destruct Hs as [(a & Ha & _)|[_ ?]]; [|done]. left. by destruct (inv_asleep _ I1 t a Ha). }
  destruct (sleeping w1.1 t) as [a|] eqn:E.
  - destruct (ch <? 0); [exists {| x with e_sleep := None |}; split; [done|intros w2 I2 Hx2; by apply Hk]|].
    destruct timed; [|done]. destruct (0 <? ch); [|done].
    exists {| x with e_sleep := None |}. split; [done|intros w2 I2 Hx2; by apply Hk].
  - exists {| x with e_sleep := None |}. split; [|intros w2 I2 Hx2; by apply Hk].
    exists w1.2. rewrite <- surjective_pairing. split_and!; [done|apply guar_refl, fx_rely_refl|].
    destruct Hx1 as [X1 X2 X3 X4 X5 X6 X7]. split; try done. simpl. split; [done|]. rewrite Ed.
    destruct Hs as [(a & Ha & _)|[_ ?]]; [congruence|done].
Qed.

(** Going to sleep, at a mutex that is held or at a condition variable. *)
Lemma Safe_FUTEX_WAIT {A} t a m val timeout (k : futex_result -> prog A) Q w x :
  me t w x -> e_sleep x = None -> bound_for a m -> 0 < e_reg x m -> e_own x m = None ->
  match a with
  | StateAddr _ => held_bit val = true /\ (e_duty x = None \/ e_duty x = Some m)
  | CondAddr _ | RWAddr _ => e_duty x = None
  end ->
  (forall m' named n, e_own x m' = Some (named, n) -> named = true) ->
  match timeout with Some time => valid_time time = true | None => True end ->
  (forall r w2, r <> EINVAL -> (timeout = None -> r <> ETIMEDOUT) -> inv w2 ->
     me t w2 {| x with e_duty := Some m |} -> Safe t (k r) Q w2) ->
  Safe t (Bind (FUTEX_WAIT a val timeout) k) Q w.
Proof.
  intros Hx Es Hb Hr Em Ha Hn Hv Hk. unfold FUTEX_WAIT.
  replace (match timeout with Some time => negb (valid_time time) | None => false end) with false
    by (destruct timeout; [by rewrite Hv|done]).
  assert (Hab : e_duty x = None \/ e_duty x = Some m) by (destruct a; [apply Ha|by left..]).
  seq. eapply Safe_me; [done|]. intros w1 I1 Hx1 ch. cbv beta.
  destruct (bool_decide_reflect (word_at a w1.1 = val)) as [E|E].
  - exists {| x with e_duty := Some m; e_sleep := Some m |}. split.
    + pose proof (me_awake _ _ _ Hx1 Es) as Hs. pose proof (me_duty _ _ _ Hx1 Es) as Hd.
      assert (Hheld : match a with StateAddr _ => own w1.2 m <> None | _ => True end).
      { destruct a as [m'| |]; [|done..]. simpl in *. subst m'. destruct Ha as [Ha _].
        rewrite held_bit_odd, <- E, (state_odd w1 m I1) in Ha. by apply bool_decide_eq_true in Ha. }
      eapply (sleep_step t w1 x _ (<[t := None]> (duty w1.2))); [done..| |].
      * split.
        -- intros u a'. at_point t u.
           ++ intros [= <-]. split_and!; [done|by apply (me_live _ _ _ Hx1)|..].
              ** intros m' Hm'. rewrite <- (bound_inj a m m' Hb Hm'), (me_reg _ _ _ Hx1).
                 pose proof (me_own _ _ _ Hx1 m) as Hom. by rewrite Em in Hom.
              ** intros m' Hm'. pose proof (me_own _ _ _ Hx1 m') as Hom.
                 destruct (e_own x m') as [[b n]|] eqn:Eo; [|done]. destruct Hom as (_ & _ & ->).
                 by rewrite (Hn _ _ _ Eo).
           ++ intros Eu. destruct (inv_asleep _ I1 u a' Eu) as (? & ? & ?).
              split_and!; [done|by eapply asleep_live|done..].
        -- intros u m'. at_point t u; [intros [= ->]; simpl in Hb; subst m'; by left|].
           intros Eu. destruct (inv_awake _ I1 u m' Eu) as [?|[v Hdv]]; [by left|].
           at_point t v; [|right; exists v; by rewrite fn_lookup_insert_ne]. left.
           destruct Hd as [Hd|Hd]; [congruence|]. destruct a as [m''| |]; [|congruence..].
           destruct Ha as [_ [Ha|Ha]]; congruence.
        -- intros u Hu Eu. by rewrite !fn_lookup_insert_ne.
        -- intros u a' m' Hu Eu Hbu. left. rewrite fn_lookup_insert_ne by done. eauto.
      * split; [done|]. left. exists a. by rewrite fn_lookup_insert.
    + intros w2 I2 Hx2. eapply Safe_futex_sleep; [done..|]. intros r w3 Hr3 Ht3 I3 Hx3. eapply Hk; [done| |done|].
      * intros ->. by apply Ht3.
      * by eapply fx_me_ext.
  - exists x. split; [by apply same_step|]. intros w2 I2 Hx2.
    eapply Safe_bind_ret; [done|]. intros w3 I3 Hx3. apply Hk; [done..|]. by apply me_on_duty.
Qed.

(** ** Steps on a condition variable *)
Lemma cond_step t w x c C' r' :
  inv w -> me t w x ->
  waiters C' = waiters (conds w.1 c) + (r' - e_creg x c) -> 0 <= r' <= 1 ->
  mutexPtr C' = mutexPtr (conds w.1 c) \/ mutexPtr C' = Some (mutex_of c) ->
  (mutexPtr C' = None -> r' = 0) ->
  step_ok t w {| (w.1) with conds := <[c := C']> (conds w.1) |}
    {| x with e_creg := <[c := r']> (e_creg x) |}.
Proof.
  intros I Hx Hw Hr Hp Hz. destruct w as [s g]; simpl in *. pose proof (me_creg _ _ _ Hx) as Hc. simpl in Hc.
  exists {| g with creg := <[t := <[c := r']> (creg g t)]> (creg g) |}. split_and!.
  - destruct I as [I1 I2 I3 I4 I5 I6 I7 I8 I9 I10 I11 I12]. split; simpl in *; try done.
    + intros c'. at_point c c'.
      * rewrite Hw, I9, (total_ext _ (fun u => <[t := <[c := r']> (creg g t)]> (creg g) u c)
          (<[t := r']> (fun u => creg g u c))).
        { rewrite total_update by (apply live_nodup || apply (me_live _ _ _ Hx)). cbv beta. rewrite Hc. lia. }
        intros u _. by at_point t u.
      * rewrite I9. apply total_ext. intros u _. at_point t u; [|done]. by rewrite fn_lookup_insert_ne.
    + intros u c'. at_point t u; [|auto]. at_point c c'; auto.
    + intros c'. at_point c c'; [|auto]. destruct Hp as [->| ->]; auto.
    + intros c'. at_point c c'; intros E u.
      * at_point t u; [auto|]. apply I12. destruct Hp as [<-|Hp]; [done|congruence].
      * at_point t u; [|by apply I12]. rewrite fn_lookup_insert_ne by done. by apply I12.
  - intros u Hu. split; simpl; rewrite ?(fn_lookup_insert_ne _ t u) by done; auto.
    + intros a m Ha Hb. left. eauto.
    + intros c' m. at_point c c'; [|done]. destruct (inv_mutexPtr _ I c) as [E|E]; simpl in E; [congruence|].
      destruct Hp as [->| ->]; congruence.
  - destruct Hx as [X1 X2 X3 X4 X5 X6 X7]. split; simpl in *; try done.
    + intros c'. rewrite fn_lookup_insert. at_point c c'; auto.
    + intros c' E. at_point c c'; [|auto]. destruct Hp as [->| ->]; auto.
Qed.

Lemma waiters_bounds w c : inv w -> 0 <= waiters (conds w.1 c) < 2 ^ 31 - 3.
Proof.
  intros I. rewrite (inv_waiters _ I).
  pose proof (total_bounds live_threads (fun u => creg w.2 u c) 1 (fun u => inv_creg _ I u c)).
  pose proof live_few. lia.
Qed.

Lemma Safe_cond_add {A} t c d (k : () -> prog A) Q w x :
  me t w x -> 0 <= e_creg x c + d <= 1 -> d = 1 \/ d = -1 ->
  (d = 1 -> e_ptr x = Some c) ->
  (forall w2, inv w2 -> me t w2 {| x with e_creg := <[c := e_creg x c + d]> (e_creg x) |} ->
     Safe t (k ()) Q w2) ->
  Safe t (Bind (cond_fetch_add c d) k) Q w.
Proof.
  intros Hx Hr Hd Hp Hk. eapply Safe_me_rely; [done|]. intros w1 R I1 Hx1 ch.
  eexists. split; [|intros g'; apply Hk].
  apply cond_step; [done|done| |done|by left|]; simpl.
  - pose proof (waiters_bounds w1 c I1). rewrite wraps_id; [lia|lia|]. unfold in_s. change (32 - 1) with 31. lia.
  - intros E. destruct Hd as [->| ->].
    { rewrite (me_ptr _ _ _ Hx1 c (Hp eq_refl)) in E. done. }
    rewrite <- (me_creg _ _ _ Hx1), (inv_used _ I1 c E). simpl.
    rewrite <- (me_creg _ _ _ Hx1), (inv_used _ I1 c E) in Hr. lia.
Qed.

(** The condition variable learns its mutex. *)
Lemma Safe_set_mutexPtr {A} t c (k : () -> prog A) Q w x :
  me t w x -> (forall w2, inv w2 -> me t w2 {| x with e_ptr := Some c |} -> Safe t (k ()) Q w2) ->
  Safe t (Bind (set_mutexPtr c (mutex_of c)) k) Q w.
Proof.
  intros Hx Hk. unfold set_mutexPtr.
  eapply (Safe_bind_loop _ _ _ fx_rely_refl fx_rely_trans t _
    (fun old w => me t w x /\ (old = None \/ old = Some (mutex_of c)))); [..|by split; [|left]].
  2: { intros old w0 w1 [Hx0 ?] R _. split; [by eapply fx_me_rely|done]. }
  clear w Hx. intros old w [Hx Hold]. eapply Safe_me; [done|]. intros w1 I1 Hx1 ch. simpl.
  destruct (_ && _) eqn:E.
  - exists {| x with e_ptr := Some c |}. split.
    + destruct (cond_step t w1 x c {| (conds w1.1 c) with mutexPtr := Some (mutex_of c) |} (e_creg x c))
        as (g' & I' & G & Hx'); simpl; [done|done|lia| |by right|done|].
      { rewrite <- (me_creg _ _ _ Hx1). apply (inv_creg _ I1). }
      exists g'. split_and!; [done..|]. destruct Hx' as [X1 X2 X3 X4 X5 X6 X7]. split; simpl in *; try done.
      * intros c'. rewrite X4. by at_point c c'.
      * intros c' [= <-]. by rewrite fn_lookup_insert.
    + intros w2 I2 Hx2. simpl. eapply Safe_back; [done|]. auto.
  - exists x. split; [by apply same_step|]. intros w2 I2 Hx2. simpl.
    assert (Hnew := inv_mutexPtr _ I1 c).
    replace (_ && _) with false.
    + eapply Safe_bind_ret; [done|]. intros w3 I3 Hx3. eapply Safe_back; [done|]. auto.
    + destruct Hnew as [-> | ->]; [done|]. by rewrite bool_decide_eq_true_2.
Qed.

Lemma me_forget t w x : me t w x -> me t w {| x with e_ptr := None |}.
Proof. intros [X1 X2 X3 X4 X5 X6 X7]. by split. Qed.

(** A condition variable that has waiters has its mutex. *)
Lemma Safe_get_waiters {A} t c (k : Z -> prog A) Q w x :
  me t w x ->
  (forall w2, inv w2 -> me t w2 x -> Safe t (k 0) Q w2) ->
  (forall n w2, n <> 0 -> inv w2 -> me t w2 {| x with e_ptr := Some c |} -> Safe t (k n) Q w2) ->
  Safe t (Bind (cond_get c waiters) k) Q w.
Proof.
  intros Hx Hk Hk'. eapply Safe_me; [done|]. intros w1 I1 Hx1 ch. cbv beta.
  destruct (decide (waiters (conds w1.1 c) = 0)) as [->|Ew]; [exists x; split; [by apply same_step|done]|].
  exists {| x with e_ptr := Some c |}. split; [|auto].
  exists w1.2. rewrite <- surjective_pairing. split_and!; [done|apply guar_refl, fx_rely_refl|].
  destruct Hx1 as [X1 X2 X3 X4 X5 X6 X7]. split; try done. intros c' [= <-].
  destruct (inv_mutexPtr _ I1 c) as [E|E]; [|done]. destruct Ew. rewrite (inv_waiters _ I1).
  rewrite (total_ext _ _ (fun _ => 0)) by (intros u _; apply (inv_used _ I1 c E)).
  clear. induction live_threads; simpl; [done|]. lia.
Qed.

Lemma Safe_get_mutexPtr {A} t c (k : option Z -> prog A) Q w x :
  me t w x -> e_ptr x = Some c ->
  (forall w2, inv w2 -> me t w2 x -> Safe t (k (Some (mutex_of c))) Q w2) ->
  Safe t (Bind (cond_get c mutexPtr) k) Q w.
Proof.
  intros Hx E Hk. eapply Safe_read; [done|]. intros w1 w2 I1 Hx1 I2 Hx2.
  rewrite (me_ptr _ _ _ Hx1 c E). auto.
Qed.

Lemma Safe_cond_bump {A} t c (k : () -> prog A) Q w x :
  me t w x -> (forall w2, inv w2 -> me t w2 x -> Safe t (k ()) Q w2) ->
  Safe t (Bind (cond_set c (fun C => {| C with cond := i32 (cond C + 1) |})) k) Q w.
Proof.
  intros Hx Hk. eapply Safe_me; [done|]. intros w1 I1 Hx1 ch. exists x. split; [|done].
  eapply step_ok_ext; [apply (cond_step t w1 x c _ (e_creg x c)); [done|done|..]|..]; simpl; try done.
  - lia.
  - rewrite <- (me_creg _ _ _ Hx1). apply (inv_creg _ I1).
  - by left.
  - intros E. by rewrite <- (me_creg _ _ _ Hx1), (inv_used _ I1 c E).
  - intros c'. by at_point c c'.
Qed.

(** ** The thread's id *)
Lemma Safe_cached_tid {A} t (k : Z -> prog A) Q w x :
  me t w x -> (forall w2, inv w2 -> me t w2 x -> Safe t (k t) Q w2) ->
  Safe t (Bind cached_tid k) Q w.
Proof.
  intros Hx Hk. eapply Safe_tid; [apply fx_rely_refl|apply fx_rely_trans|apply fx_me_rely|..|exact Hx|exact Hk].
  - clear Hx. intros t0 w0 x0 Hx. split; [by eapply me_id|]. apply (me_tid _ _ _ Hx).
  - clear Hx. intros t0 w0 x0 I Hx. exists w0.2. split_and!.
    + by destruct I.
    + intros u Hu. split; simpl; try done; auto; [intros a m ? ?; left; eauto|]. by rewrite fn_lookup_insert_ne.
    + destruct Hx as [X1 X2 X3 X4 X5 X6 X7]. split; simpl; try done. right. by rewrite fn_lookup_insert.
Qed.
End Rules.
