(* ===== verification/FutexSafe.v ===== *)
(** Rules of the program logic for the functions on mutexes and condition
    variables. *)
From stdpp Require Import base list functions.
From S2P Require Import Prelude Threads Futex FutexInv FutexRules.
Local Open Scope Z_scope.
Local Open Scope ark_scope.
Local Open Scope prog_scope.

Section Functions.
Context `{Kernel} `{!KernelOk} `{Usage}.
Abbreviation world := (Process * Ghost)%type.
Abbreviation Safe := (Safe inv rely (fun _ : Failure => False)).

(** The mutexes a thread has say so. *)
Definition all_named (x : Me) : Prop :=
  forall m named n, e_own x m = Some (named, n) -> named = true.

Definition with_own (x : Me) (m : Z) (v : option (bool * Z)) : Me :=
  {| x with e_own := <[m := v]> (e_own x) |}.
Definition with_duty (x : Me) (d : option Z) : Me := {| x with e_duty := d |}.

Lemma Safe_IsHeld {A} t m (k : bool -> prog A) Q w x :
  me t w x ->
  (forall w2, inv w2 -> me t w2 x ->
     Safe t (k match e_own x m with Some (named, _) => named | None => false end) Q w2) ->
  Safe t (Bind (IsHeld m t) k) Q w.
Proof.
  intros Hx Hk. unfold IsHeld. seq. eapply Safe_read; [done|]. intros w1 w2 I1 Hx1 I2 Hx2.
  replace (exclusiveOwner (mutexes w1.1 m) == t)
    with (match e_own x m with Some (named, _) => named | None => false end).
  - eapply Safe_bind_ret; [done|]. auto.
  - pose proof (me_own _ _ _ Hx1 m) as Hm. pose proof (me_id _ _ _ Hx1) as Ht. symmetry.
    destruct (e_own x m) as [[named n]|].
    + destruct Hm as (_ & _ & ->). destruct named; [by apply bool_decide_eq_true_2|].
      by apply bool_decide_eq_false_2.
    + apply bool_decide_eq_false_2. intros E. pose proof (inv_owner _ I1 m) as Ho.
      rewrite E in Ho. auto.
Qed.

Lemma Safe_get_count {A} t m (k : Z -> prog A) Q w x named n :
  me t w x -> e_own x m = Some (named, n) ->
  (forall w2, inv w2 -> me t w2 x -> Safe t (k n) Q w2) -> Safe t (Bind (get_count m) k) Q w.
Proof.
  intros Hx Eo Hk. eapply Safe_read; [done|]. intros w1 w2 I1 Hx1 I2 Hx2.
  destruct (own_fields _ _ _ _ _ _ Hx1 Eo) as (_ & -> & _). auto.
Qed.

Lemma Safe_set_count {A} t m v (k : () -> prog A) Q w x named n :
  me t w x -> e_sleep x = None -> e_own x m = Some (named, n) ->
  (forall w2, inv w2 -> me t w2 (with_own x m (Some (named, v))) -> Safe t (k ()) Q w2) ->
  Safe t (Bind (set_count m v) k) Q w.
Proof. intros Hx Es Eo Hk. eapply Safe_own_set; [done..| |exact Hk]. by intros M. Qed.

Lemma Safe_load_state {A} t m (k : Z -> prog A) Q w x :
  me t w x ->
  (forall v w2, (exists w1, inv w1 /\ me t w1 x /\ v = stateAndWaiters (mutexes w1.1 m)) ->
     inv w2 -> me t w2 x -> Safe t (k v) Q w2) ->
  Safe t (Bind (load_state m) k) Q w.
Proof. intros Hx Hk. eapply Safe_read; [done|]. intros w1 w2 ? ? ? ?. apply Hk; eauto. Qed.

Lemma Safe_kind {A} t m (k : bool -> prog A) Q w x :
  me t w x -> (forall w2, inv w2 -> me t w2 x -> Safe t (k (is_recursive m)) Q w2) ->
  Safe t (Bind (mutex_get m recursiveMutex) k) Q w.
Proof. intros Hx Hk. eapply Safe_read; [done|]. intros w1 w2 I1 ? ? ?. rewrite (inv_kind _ I1). auto. Qed.

(** A mutex the thread has is held. *)
Lemma own_held t w x m v :
  inv w -> me t w x -> e_own x m = Some v -> held_bit (stateAndWaiters (mutexes w.1 m)) = true.
Proof.
  intros I Hx Eo. destruct v as [b n]. destruct (own_fields _ _ _ _ _ _ Hx Eo) as (Ho & _).
  by rewrite held_bit_odd, (state_odd w m I), Ho.
Qed.

Lemma Safe_WaitBrieflyFor {A} t m (k : bool -> prog A) Q w x :
  me t w x -> (forall b w2, inv w2 -> me t w2 x -> Safe t (k b) Q w2) ->
  Safe t (Bind (WaitBrieflyFor m) k) Q w.
Proof.
  intros Hx Hk. eapply (Safe_bind_loop _ _ _ fx_rely_refl fx_rely_trans t _ (fun _ w => me t w x)); [..|done].
  - clear w Hx. intros i w Hx. destruct (i <=? MAX_ITER); [|by eapply Safe_back; [|intros; apply Hk]].
    eapply Safe_load_state; [done|]. intros v w2 _ I2 Hx2. eapply Safe_back; [done|].
    intros w3 I3 Hx3. destruct (negb (held_bit v)); auto.
  - intros i w0 w1 Hx0 R _. by eapply fx_me_rely.
Qed.

Lemma Safe_wait_until_free {A} t m cur (k : () -> prog A) Q w x :
  me t w x -> e_sleep x = None -> e_duty x = Some m -> 0 < e_reg x m -> e_own x m = None ->
  all_named x ->
  (forall w2, inv w2 -> me t w2 x -> Safe t (k ()) Q w2) ->
  Safe t (Bind (wait_until_free m cur) k) Q w.
Proof.
  intros Hx Es Ed Hr Em Hn Hk.
  eapply (Safe_bind_loop _ _ _ fx_rely_refl fx_rely_trans t _ (fun _ w => me t w x)); [..|done].
  - clear w Hx cur. intros cur w Hx. destruct (held_bit cur) eqn:Ec; [|by eapply Safe_back].
    eapply (Safe_FUTEX_WAIT t (StateAddr m) m); [done..|by auto|exact Hn|done|].
    intros r w2 Hr1 Hr2 I2 Hx2. specialize (Hr2 eq_refl).
    assert (Hx2' : me t w2 x) by (by eapply fx_me_ext).
    replace (bool_decide (r ∈ [WOKEN; EAGAIN; EINTR])) with true
      by (by destruct r).
    eapply Safe_bind_ret; [done|]. intros w3 I3 Hx3.
    eapply Safe_load_state; [done|]. intros v w4 _ I4 Hx4. by eapply Safe_back.
  - intros i w0 w1 Hx0 R _. by eapply fx_me_rely.
Qed.

(** The loop that takes the held bit. *)
Lemma Safe_take {A} t m trylock (k : bool -> prog A) Q w x :
  me t w x -> e_sleep x = None -> e_own x m = None -> 0 <= e_reg x m <= 1 -> all_named x ->
  e_duty x = None \/ (trylock = false /\ e_duty x = Some m) ->
  (forall w2, inv w2 -> me t w2 (with_duty (with_own x m (Some (false, 0))) None) ->
     Safe t (k true) Q w2) ->
  (forall w2, trylock = true -> inv w2 -> me t w2 x -> Safe t (k false) Q w2) ->
  Safe t (Bind (take_held_bit m trylock) k) Q w.
Proof.
  intros Hx Es Eo Hr Hn Hd Hk Hk'. set (d := if trylock then None else Some m).
  assert (Hd' : e_duty x = None \/ e_duty x = d) by (unfold d; destruct Hd as [?|[-> ?]]; auto).
  eapply (Safe_bind_loop _ _ _ fx_rely_refl fx_rely_trans t _ (fun _ w => me t w (with_duty x d))).
  - clear w Hx. intros _ w Hx. eapply Safe_load_state; [done|]. intros cur w2 _ I2 Hx2.
    destruct (held_bit cur) eqn:Ec; simpl.
    + destruct trylock.
      * eapply Safe_back; [done|]. intros w3 I3 Hx3. apply Hk'; [done..|].
        eapply fx_me_ext; [exact Hx3|..]; try done. simpl. by destruct Hd as [?|[? _]].
      * eapply Safe_WaitBrieflyFor; [done|]. intros b w3 I3 Hx3. destruct b; simpl.
        { eapply Safe_bind_ret; [done|]. intros w4 I4 Hx4. by eapply Safe_back. }
        seq. eapply Safe_IncrementWaiters; [done..|]. intros w4 I4 Hx4. seq.
        eapply Safe_wait_until_free; [done|done|done| |done|exact Hn|].
        { simpl. rewrite fn_lookup_insert. lia. }
        intros w5 I5 Hx5. eapply Safe_DecrementWaiters; [done|done| |].
        { simpl. rewrite fn_lookup_insert. lia. }
        intros w6 I6 Hx6. eapply Safe_back; [done|]. intros w7 I7 Hx7. eapply fx_me_ext; [done|done| |done..].
        intros m'. simpl. rewrite fn_lookup_insert. at_point m m'; [lia|done].
    + eapply Safe_cas_lock; [done|done| |done|..].
      * simpl. unfold d. destruct trylock; auto.
      * intros w3 I3 Hx3. eapply Safe_back; [done|]. intros w4 I4 Hx4. apply Hk; [done|]. by eapply fx_me_ext.
      * intros v w3 I3 Hx3. by eapply Safe_back.
  - intros i w0 w1 Hx0 R _. by eapply fx_me_rely.
  - destruct Hx as [X1 X2 X3 X4 X5 X6]. split; try done. simpl. rewrite Es in *. destruct X5 as [? Hdx].
    split; [done|]. destruct Hdx as [Hdx|Hdx]; [by left|]. rewrite Hdx. done.
Qed.

Definition count_of (x : Me) (m : Z) : Z :=
  match e_own x m with Some (_, n) => n | None => 0 end.

(** The test for a recursive entry fails on a mutex the thread does not have. *)
Lemma Safe_first {A} t m x w (k : bool -> prog A) Q :
  me t w x -> e_own x m = None -> (forall w2, inv w2 -> me t w2 x -> Safe t (k false) Q w2) ->
  Safe t (Bind (if is_recursive m then IsHeld m t else Ret false) k) Q w.
Proof.
  intros Hx Eo Hk. destruct (is_recursive m); [|by eapply Safe_bind_ret].
  eapply Safe_IsHeld; [done|]. intros w2 I2 Hx2. rewrite Eo. auto.
Qed.

Lemma Safe_MutexLock {A} t m trylock (k : bool -> prog A) Q w x :
  me t w x -> e_sleep x = None -> all_named x -> 0 <= e_reg x m <= 1 ->
  e_duty x = None \/ (trylock = false /\ e_duty x = Some m /\ e_own x m = None) ->
  (e_own x m <> None -> is_recursive m = true) -> 0 <= count_of x m < 2 ^ 31 - 1 ->
  (forall w2, inv w2 -> me t w2 (with_duty (with_own x m (Some (true, count_of x m + 1))) None) ->
     Safe t (k true) Q w2) ->
  (forall w2, trylock = true -> e_own x m = None -> inv w2 -> me t w2 x -> Safe t (k false) Q w2) ->
  Safe t (Bind (MutexLock m trylock) k) Q w.
Proof.
  intros Hx Es Hn Hr Hd Hrec Hc Hk Hk'. unfold MutexLock. seq.
  eapply Safe_cached_tid; [done|]. clear w Hx. intros w I Hx. seq.
  eapply Safe_kind; [done|]. clear w I Hx. intros w I Hx. seq.
  unfold count_of in *. destruct (e_own x m) as [[named n]|] eqn:Eo.
  - rewrite Hrec by done. rewrite (Hn _ _ _ Eo) in Eo.
    eapply Safe_IsHeld; [done|]. clear w I Hx. intros w I Hx. rewrite Eo. seq.
    eapply Safe_get_count; [done..|]. clear w I Hx. intros w I Hx. seq.
    eapply Safe_set_count; [done..|]. clear w I Hx. intros w I Hx.
    eapply Safe_bind_ret; [done|]. clear w I Hx. intros w I Hx. apply Hk; [done|].
    rewrite wraps_id in Hx by (unfold in_s; change (32 - 1) with 31; lia). eapply fx_me_ext; [exact Hx|..]; try done.
    simpl. by destruct Hd as [?|(_ & _ & ?)].
  - assert (Hd' : e_duty x = None \/ (trylock = false /\ e_duty x = Some m)) by (destruct Hd as [?|(? & ? & _)]; auto).
    apply (Safe_first t m x w); [done|done|]. clear w I Hx. intros w I Hx. seq.
    eapply Safe_IsHeld; [done|]. clear w I Hx. intros w I Hx. rewrite Eo. seq.
    eapply Safe_Assert; [done..|]. clear w I Hx. intros w I Hx. seq.
    eapply Safe_take; [done..| |].
    + clear w I Hx. intros w I Hx. simpl. seq.
      assert (Eo' : e_own (with_duty (with_own x m (Some (false, 0))) None) m = Some (false, 0))
        by (simpl; by rewrite fn_lookup_insert).
      eapply Safe_load_state; [done|]. clear w I Hx. intros v w (w1 & I1 & Hx1 & ->) I Hx. seq.
      eapply Safe_Assert; [done|by eapply own_held|]. clear w w1 I Hx I1 Hx1. intros w I Hx. seq.
      eapply Safe_read; [done|]. clear w I Hx. intros w1 w I1 Hx1 I Hx. seq.
      destruct (own_fields _ _ _ _ _ _ Hx1 Eo') as (_ & _ & ->).
      eapply Safe_Assert; [done..|]. clear w w1 I Hx I1 Hx1. intros w I Hx. seq.
      eapply (Safe_own_set t m _ _ _ _ _ false 0 true 0); [done..|by intros M|].
      clear w I Hx. intros w I Hx. seq.
      eapply Safe_get_count; [done|simpl; by rewrite !fn_lookup_insert|]. clear w I Hx. intros w I Hx. seq.
      eapply Safe_set_count; [done|done|simpl; by rewrite !fn_lookup_insert|]. clear w I Hx. intros w I Hx. seq.
      eapply Safe_get_count; [done|simpl; by rewrite !fn_lookup_insert|]. clear w I Hx. intros w I Hx. seq.
      eapply Safe_Assert; [done..|]. clear w I Hx. intros w I Hx.
      eapply Safe_bind_ret; [done|]. clear w I Hx. intros w I Hx. apply Hk; [done|].
      eapply fx_me_ext; [exact Hx|..]; try done. intros m'. simpl. by at_point m m'.
    + clear w I Hx. intros w Et I Hx. simpl. eapply Safe_bind_ret; [done|]. auto.
Qed.

Lemma Safe_MutexTryLockWithSpinning {A} t m (k : bool -> prog A) Q w x :
  me t w x -> e_sleep x = None -> all_named x -> e_reg x m = 0 -> e_duty x = None ->
  (e_own x m <> None -> is_recursive m = true) -> 0 <= count_of x m < 2 ^ 31 - 1 ->
  (forall w2, inv w2 -> me t w2 (with_duty (with_own x m (Some (true, count_of x m + 1))) None) ->
     Safe t (k true) Q w2) ->
  (forall w2, e_own x m = None -> inv w2 -> me t w2 x -> Safe t (k false) Q w2) ->
  Safe t (Bind (MutexTryLockWithSpinning m) k) Q w.
Proof.
  intros Hx Es Hn Hr Hd Hrec Hc Hk Hk'.
  eapply (Safe_bind_loop _ _ _ fx_rely_refl fx_rely_trans t _
    (fun i w => me t w x /\ (i = 0 \/ e_own x m = None))); [..|by auto].
  - clear w Hx. intros i w [Hx Hi]. destruct (i <? maxIter) eqn:Ei.
    + eapply Safe_MutexLock; [done..|lia|by left|done|done| |].
      * clear w Hx. intros w I Hx. by eapply Safe_back; [|intros; apply Hk].
      * clear w Hx. intros w _ Eo I Hx. eapply Safe_WaitBrieflyFor; [done|]. clear w I Hx.
        intros b w I Hx. eapply Safe_back; [done|]. clear w I Hx. intros w I Hx. destruct b; simpl; auto.
    + eapply Safe_back; [done|]. clear w Hx. intros w I Hx. apply Hk'; [|done..].
      destruct Hi as [->|?]; done.
  - intros i w0 w1 [Hx0 ?] R _. split; [by eapply fx_me_rely|done].
Qed.

Definition after_unlock (x : Me) (m n : Z) : Me :=
  with_own x m (if 1 <? n then Some (true, n - 1) else None).

Lemma Safe_MutexUnlock {A} t m (k : () -> prog A) Q w x n :
  me t w x -> e_sleep x = None -> e_duty x = None -> e_own x m = Some (true, n) ->
  0 < n < 2 ^ 31 -> (is_recursive m = false -> n = 1) ->
  (forall w2, inv w2 -> me t w2 (after_unlock x m n) -> Safe t (k ()) Q w2) ->
  Safe t (Bind (MutexUnlock m) k) Q w.
Proof.
  intros Hx Es Hd Eo Hn Hrec Hk. unfold MutexUnlock. seq.
  eapply Safe_cached_tid; [done|]. clear w Hx. intros w I Hx. seq.
  eapply Safe_IsHeld; [done|]. clear w I Hx. intros w I Hx. rewrite Eo. simpl. seq.
  eapply Safe_bind_ret; [done|]. clear w I Hx. intros w I Hx. seq.
  eapply Safe_get_count; [done..|]. clear w I Hx. intros w I Hx. seq.
  eapply Safe_set_count; [done..|]. clear w I Hx. intros w I Hx.
  rewrite wraps_id in Hx by (unfold in_s; change (32 - 1) with 31; lia).
  set (x1 := with_own x m (Some (true, n - 1))) in *.
  assert (Eo1 : e_own x1 m = Some (true, n - 1)) by (simpl; by rewrite fn_lookup_insert). seq.
  eapply Safe_kind; [done|]. clear w I Hx. intros w I Hx. seq.
  assert (Hmore : forall w, me t w x1 -> forall k' : bool -> prog A,
    (forall w2, inv w2 -> me t w2 x1 -> Safe t (k' (is_recursive m && (0 <? n - 1))) Q w2) ->
    Safe t (Bind (if is_recursive m then c ← get_count m; Ret (0 <? c) else Ret false) k') Q w).
  { clear w I Hx. intros w Hx k' Hk'. destruct (is_recursive m); [|by eapply Safe_bind_ret]. seq.
    eapply Safe_get_count; [done..|]. intros w2 I2 Hx2. by eapply Safe_bind_ret. }
  apply Hmore; [done|]. clear w I Hx Hmore. intros w I Hx. unfold after_unlock in Hk.
  destruct (is_recursive m && (0 <? n - 1)) eqn:Em.
  { apply andb_prop in Em as [_ Em%Z.ltb_lt]. rewrite (proj2 (Z.ltb_lt 1 n)) in Hk by lia.
    eapply Safe_bind_ret; [done|]. auto. }
  assert (n = 1) as ->.
  { destruct (is_recursive m); [|auto]. simpl in Em. apply Z.ltb_ge in Em. lia. }
  rewrite Z.ltb_irrefl in Hk. seq.
  eapply Safe_get_count; [done..|]. clear w I Hx. intros w I Hx. seq.
  eapply Safe_Assert; [done..|]. clear w I Hx. intros w I Hx. seq.
  eapply Safe_load_state; [done|]. clear w I Hx. intros cur w (w1 & I1 & Hx1 & ->) I Hx.
  assert (Hheld := own_held _ _ _ _ _ I1 Hx1 Eo1).
  set (J := fun (cur : Z) w => held_bit cur = true /\
              exists named, me t w (with_own x m (Some (named, 0)))).
  eapply (Safe_bind_loop _ _ _ fx_rely_refl fx_rely_trans t _ J).
  - clear w w1 I I1 Hx Hx1 Hheld. intros cur w (Hheld & named & Hx). rewrite Hheld. simpl.
    eapply Safe_bind_ret; [done|]. clear w Hx. intros w I Hx.
    eapply (Safe_own_set t m _ _ _ _ _ named 0 false 0); [done|done|simpl; by rewrite fn_lookup_insert|by intros M|].
    clear w I Hx. intros w I Hx.
    eapply Safe_cas_unlock; [done|done|done|simpl; by rewrite fn_lookup_insert|..].
    + clear w I Hx. intros w I Hx. simpl.
      assert (Hend : forall w, me t w (with_own x m None) ->
        Safe t (Ret (inr ())) (fun r w' => match r with inl x' => J x' w' | inr b => Safe t (k b) Q w' end) w).
      { clear w I Hx. intros w Hx. eapply Safe_back; [done|]. auto. }
      case_bool_decide as Ez; simpl.
      * eapply Safe_bind_ret; [done|]. intros w2 I2 Hx2. apply Hend. eapply fx_me_ext; [exact Hx2|..]; try done.
        intros m'. simpl. by at_point m m'.
      * seq. eapply Safe_wake_mutex; [done|done|by right|]. clear w I Hx. intros r w I Hx.
        eapply Safe_bind_ret; [done|]. intros w2 I2 Hx2. apply Hend. eapply fx_me_ext; [exact Hx2|..]; try done.
        intros m'. simpl. by at_point m m'.
    + clear w I Hx. intros v w Hv I Hx. simpl. eapply Safe_back; [done|]. clear w I Hx. intros w I Hx.
      split; [done|]. exists false. eapply fx_me_ext; [exact Hx|..]; try done. intros m'. simpl. by at_point m m'.
  - intros i w0 w2 (? & named & Hx0) R _. split; [done|]. exists named. by eapply fx_me_rely.
  - split; [done|]. by exists true.
Qed.

(** ** Condition variables *)

(** The state of a thread between the release of the mutex and its return. *)
Definition waiting_as (x : Me) (c : Z) : Me :=
  {| x with e_own := <[mutex_of c := None]> (e_own x);
            e_reg := <[mutex_of c := e_reg x (mutex_of c) + 1]> (e_reg x);
            e_creg := <[c := e_creg x c + 1]> (e_creg x);
            e_ptr := None |}.

Lemma Safe_waiting {A B} t c (futex : Z -> prog B) (k : B -> prog A) Q w x n :
  me t w x -> e_sleep x = None -> e_duty x = None -> all_named x ->
  e_own x (mutex_of c) = Some (true, n) -> e_reg x (mutex_of c) = 0 -> e_creg x c = 0 -> e_ptr x = None ->
  (forall cur (k' : B -> prog A) w, me t w (waiting_as x c) ->
     (forall b w2, inv w2 -> me t w2 (with_duty (waiting_as x c) (Some (mutex_of c))) -> Safe t (k' b) Q w2) ->
     Safe t (Bind (futex cur) k') Q w) ->
  (forall b w2, inv w2 -> me t w2 x -> Safe t (k b) Q w2) ->
  Safe t (Bind (waiting c (mutex_of c) futex) k) Q w.
Proof.
  intros Hx Es Hd Hn Eo Er Ec Ep Hfutex Hk. unfold waiting. seq.
  eapply Safe_cached_tid; [done|]. clear w Hx. intros w I Hx. seq.
  eapply Safe_IsHeld; [done|]. clear w I Hx. intros w I Hx. rewrite Eo. simpl. seq.
  eapply Safe_bind_ret; [done|]. clear w I Hx. intros w I Hx. seq.
  eapply Safe_set_mutexPtr; [done|]. clear w I Hx. intros w I Hx. seq.
  eapply Safe_cond_add; [done|simpl; lia|by left|done|]. clear w I Hx. intros w I Hx. seq.
  eapply Safe_IncrementWaiters; [done|done|simpl; lia|]. clear w I Hx. intros w I Hx. seq.
  eapply Safe_get_count; [done|exact Eo|]. clear w I Hx. intros w I Hx. seq.
  eapply Safe_set_count; [done|done|exact Eo|]. clear w I Hx. intros w I Hx. seq.
  eapply Safe_read; [done|]. clear w I Hx. intros w1 w _ _ I Hx. seq.
  generalize (cond (conds w1.1 c)). clear w1. intros cur.
  eapply (Safe_MutexUnlock _ _ _ _ _ _ 1); [done|done|done|simpl; by rewrite fn_lookup_insert|done|done|].
  clear w I Hx. intros w I Hx. seq.
  eapply Hfutex.
  { apply me_forget in Hx. eapply fx_me_ext; [exact Hx|..]; try done. intros m'. simpl. by at_point (mutex_of c) m'. }
  clear w I Hx. intros b w I Hx. seq.
  eapply Safe_MutexLock; [done|done| | |right; split_and!; [done|done|]| | |..].
  - intros m' named n'. simpl. at_point (mutex_of c) m'; [done|]. apply Hn.
  - simpl. rewrite fn_lookup_insert. lia.
  - simpl. by rewrite fn_lookup_insert.
  - simpl. by rewrite fn_lookup_insert.
  - unfold count_of. simpl. rewrite fn_lookup_insert. lia.
  - clear w I Hx. intros w I Hx. seq.
    eapply Safe_set_count; [done|done|simpl; by rewrite fn_lookup_insert|]. clear w I Hx. intros w I Hx. seq.
    eapply Safe_DecrementWaiters; [done|done|simpl; rewrite fn_lookup_insert; lia|]. clear w I Hx. intros w I Hx. seq.
    eapply Safe_cond_add; [done|simpl; rewrite fn_lookup_insert; lia|by right|done|]. clear w I Hx. intros w I Hx.
    eapply Safe_bind_ret; [done|]. clear w I Hx. intros w I Hx. apply Hk; [done|].
    eapply fx_me_ext; [exact Hx|..]; try done; simpl.
    + intros m'. by at_point (mutex_of c) m'.
    + intros m'. rewrite fn_lookup_insert. at_point (mutex_of c) m'; [lia|done].
    + intros c'. rewrite fn_lookup_insert. at_point c c'; [lia|done].
  - done.
Qed.

Lemma Safe_cond_futex {A} t c cur timeout (k : futex_result -> prog A) Q w x :
  me t w (waiting_as x c) -> e_sleep x = None -> e_duty x = None -> all_named x ->
  e_reg x (mutex_of c) = 0 ->
  match timeout with Some time => valid_time time = true | None => True end ->
  (forall r w2, r <> EINVAL -> (timeout = None -> r <> ETIMEDOUT) -> inv w2 ->
     me t w2 (with_duty (waiting_as x c) (Some (mutex_of c))) -> Safe t (k r) Q w2) ->
  Safe t (Bind (FUTEX_WAIT (CondAddr c) cur timeout) k) Q w.
Proof.
  intros Hx Es Hd Hn Er Hv Hk. eapply (Safe_FUTEX_WAIT t (CondAddr c) (mutex_of c)); [done|done|done| | |done| |done|done].
  - simpl. rewrite fn_lookup_insert. lia.
  - simpl. by rewrite fn_lookup_insert.
  - intros m' named n. simpl. at_point (mutex_of c) m'; [done|]. apply Hn.
Qed.

Lemma Safe_CondVar_Wait {A} t c (k : () -> prog A) Q w x n :
  me t w x -> e_sleep x = None -> e_duty x = None -> all_named x ->
  e_own x (mutex_of c) = Some (true, n) -> e_reg x (mutex_of c) = 0 -> e_creg x c = 0 -> e_ptr x = None ->
  (forall w2, inv w2 -> me t w2 x -> Safe t (k ()) Q w2) ->
  Safe t (Bind (CondVar_Wait c (mutex_of c)) k) Q w.
Proof.
  intros Hx Es Hd Hn Eo Er Ec Ep Hk. eapply Safe_waiting; [done..| |by intros []].
  clear w Hx. intros cur k' w Hx Hk'. seq. eapply Safe_cond_futex; [done..|].
  clear w Hx. intros r w Hr1 Hr2 I Hx. specialize (Hr2 eq_refl).
  replace (bool_decide (r ∈ [WOKEN; EAGAIN; EINTR])) with true by (by destruct r).
  by eapply Safe_bind_ret; [|intros; apply Hk'].
Qed.

Lemma Safe_CondVar_TimedWait {A} t c ms ns isAbsolute (k : bool -> prog A) Q w x n :
  me t w x -> e_sleep x = None -> e_duty x = None -> all_named x ->
  e_own x (mutex_of c) = Some (true, n) -> e_reg x (mutex_of c) = 0 -> e_creg x c = 0 -> e_ptr x = None ->
  valid_time (ConvertTime ms ns) = true ->
  (forall b w2, inv w2 -> me t w2 x -> Safe t (k b) Q w2) ->
  Safe t (Bind (CondVar_TimedWait c (mutex_of c) ms ns isAbsolute) k) Q w.
Proof.
  intros Hx Es Hd Hn Eo Er Ec Ep Hv Hk. eapply Safe_waiting; [done..| |done].
  clear w Hx. intros cur k' w Hx Hk'. seq. eapply Safe_cond_futex; [done..|].
  clear w Hx. intros r w Hr1 Hr2 I Hx.
  destruct (bool_decide_reflect (r = ETIMEDOUT)); [by eapply Safe_bind_ret; [|intros; apply Hk']|].
  replace (bool_decide (r ∈ [WOKEN; EAGAIN; EINTR])) with true by (by destruct r).
  by eapply Safe_bind_ret; [|intros; apply Hk'].
Qed.

Lemma Safe_SignalCount {A} t c toWake (k : () -> prog A) Q w x :
  me t w x -> e_sleep x = None -> all_named x -> e_ptr x = None ->
  (forall w2, inv w2 -> me t w2 x -> Safe t (k ()) Q w2) ->
  Safe t (Bind (SignalCount c toWake) k) Q w.
Proof.
  intros Hx Es Hn Hp Hk. unfold SignalCount. seq.
  eapply Safe_get_waiters; [done|..].
  { intros w2 I2 Hx2. simpl. by eapply Safe_bind_ret. }
  clear w Hx. intros n w Hw I Hx. rewrite bool_decide_eq_false_2 by done. seq.
  eapply Safe_cached_tid; [done|]. clear w I Hx. intros w I Hx. seq.
  eapply Safe_get_mutexPtr; [done..|]. clear w I Hx. intros w I Hx. seq.
  eapply Safe_cond_bump; [done|]. clear w I Hx. intros w I Hx. seq.
  eapply Safe_IsHeld; [done|]. clear w I Hx. intros w I Hx. simpl.
  assert (Hend : forall w, me t w {| x with e_ptr := Some c |} -> Safe t (Bind (Ret ()) k) Q w).
  { clear w I Hx. intros w Hx. eapply Safe_bind_ret; [done|]. intros w2 I2 Hx2. apply Hk; [done|].
    apply me_forget in Hx2. by eapply fx_me_ext. }
  destruct (e_own x (mutex_of c)) as [[named v]|] eqn:Eo.
  - rewrite (Hn _ _ _ Eo). seq. eapply Safe_requeue; [done|done|exact Eo|]. clear w I Hx.
    intros r w Hr I Hx. rewrite bool_decide_eq_false_2 by lia. auto.
  - seq. eapply Safe_wake_cond; [done..|]. auto.
Qed.
End Functions.
