(* ===== verification/FutexSystem.v ===== *)
(** Threads that use mutexes and condition variables.

    Threads call the operations of [Mutex] and [ConditionVariable] in any interleaving.  A client
    keeps a [Ledger]: how often it holds each mutex.  [spec] is the contract: a lock adds one hold,
    a try adds one or fails, an unlock takes one away, a wait leaves what there
    was.  In every reachable configuration the mutexes agree with the ledgers, so that no two threads
    hold the same one; nothing stops the process; and whenever a thread sleeps at a mutex,
    somebody else either can take a step or holds it: no wake-up is lost. *)
From stdpp Require Import base list functions relations.
From S2P Require Import Prelude Threads Futex FutexInv FutexRules FutexSafe.
Local Open Scope Z_scope.
Local Open Scope ark_scope.
Local Open Scope prog_scope.

Module FutexSystem.

Inductive op :=
| OpLock (m : Z)
| OpTryLock (m : Z)
| OpTryLockWithSpinning (m : Z)
| OpUnlock (m : Z)
| OpWait (c : Z)
| OpTimedWait (c ms ns : Z) (isAbsolute : bool)
| OpSignal (c : Z)
| OpSignalAll (c : Z).

Inductive answer := AVoid | ABool (b : bool).

Abbreviation Ledger := (Z -> Z).

Abbreviation config := (@Threads.config Z Process Failure op answer (option Ledger)).

Section System.
Context `{Kernel} `{!KernelOk} `{Usage}.

(** ** The specification *)
Definition spec (p : op) (a : answer) (l : Ledger) : option Ledger :=
  match p, a with
  | OpLock m, AVoid => Some (<[m := l m + 1]> l)
  | (OpTryLock m | OpTryLockWithSpinning m), ABool true => Some (<[m := l m + 1]> l)
  | (OpTryLock m | OpTryLockWithSpinning m), ABool false => if decide (l m = 0) then Some l else None
  | OpUnlock m, AVoid => if decide (0 < l m) then Some (<[m := l m - 1]> l) else None
  | OpWait c, AVoid | OpTimedWait c _ _ _, ABool _ => if decide (0 < l (mutex_of c)) then Some l else None
  | (OpSignal _ | OpSignalAll _), AVoid => Some l
  | _, _ => None
  end.

Definition code (t : Z) (p : op) : prog answer :=
  match p with
  | OpLock m => Mutex_Lock m;; Ret AVoid
  | OpTryLock m => b ← Mutex_TryLock m; Ret (ABool b)
  | OpTryLockWithSpinning m => b ← Mutex_TryLockWithSpinning m; Ret (ABool b)
  | OpUnlock m => Mutex_Unlock m;; Ret AVoid
  | OpWait c => CondVar_Wait c (mutex_of c);; Ret AVoid
  | OpTimedWait c ms ns isAbsolute =>
      b ← CondVar_TimedWait c (mutex_of c) ms ns isAbsolute; Ret (ABool b)
  | OpSignal c => ConditionVariable_Signal c;; Ret AVoid
  | OpSignalAll c => ConditionVariable_SignalAll c;; Ret AVoid
  end.

(** The discipline of the clients: a mutex that is not recursive is locked only by a thread that
    does not hold it, and only a holder unlocks or waits; the time of a timed wait is one
    the kernel accepts. *)
Definition allowed (p : op) (l : Ledger) : Prop :=
  match p with
  | OpLock m | OpTryLock m | OpTryLockWithSpinning m =>
      (l m = 0 \/ is_recursive m = true) /\ l m + 1 < 2 ^ 31
  | OpUnlock m => 0 < l m
  | OpWait c => 0 < l (mutex_of c)
  | OpTimedWait c ms ns _ => 0 < l (mutex_of c) /\ valid_time (ConvertTime ms ns) = true
  | OpSignal _ | OpSignalAll _ => True
  end.

Definition may_call (t : Z) (l : option Ledger) (p : op) : Prop :=
  exists l', l = Some l' /\ allowed p l' /\ t ∈ live_threads.

Definition after (t : Z) (p : op) (a : answer) (l : option Ledger) : option Ledger :=
  match l with Some l => spec p a l | None => None end.

Definition system_step : config -> config -> Prop := cstep code may_call after.

(** ** Between two calls *)
Record idle (x : Me) (l : Ledger) : Prop := {
  id_sleep : e_sleep x = None;
  id_duty : e_duty x = None;
  id_ptr : e_ptr x = None;
  id_named : all_named x;
  id_reg : forall m, e_reg x m = 0;
  id_creg : forall c, e_creg x c = 0;
  id_count : forall m, count_of x m = l m;
  id_own : forall m, match e_own x m with
    | Some (_, n) => 0 < n < 2 ^ 31 /\ (is_recursive m = false -> n = 1)
    | None => True
    end;
}.

Definition idle_ok (t : Z) (l : option Ledger) (w : Process * Ghost) : Prop :=
  exists l', l = Some l' /\ (t ∈ live_threads -> exists x, me t w x /\ idle x l').

Lemma mutex_idle_ok_rely t l w w' : idle_ok t l w -> rely t w w' -> inv w' -> idle_ok t l w'.
Proof.
  intros (l' & -> & Hl) R _. exists l'. split; [done|]. intros Ht. destruct (Hl Ht) as (x & Hx & Hi).
  exists x. split; [by eapply fx_me_rely|done].
Qed.

Lemma held_own x l m : idle x l -> 0 < l m -> e_own x m = Some (true, l m).
Proof.
  intros Hi Hm. rewrite <- (id_count _ _ Hi m) in *. unfold count_of in *.
  destruct (e_own x m) as [[named n]|] eqn:E; [|lia]. by rewrite (id_named _ _ Hi _ _ _ E).
Qed.

Lemma not_held x l m : idle x l -> l m = 0 <-> e_own x m = None.
Proof.
  intros Hi. rewrite <- (id_count _ _ Hi m). unfold count_of. pose proof (id_own _ _ Hi m) as Ho.
  destruct (e_own x m) as [[named n]|]; [|done]. split; [lia|done].
Qed.

Lemma idle_nonneg x l m : idle x l -> 0 <= l m < 2 ^ 31.
Proof.
  intros Hi. rewrite <- (id_count _ _ Hi m). unfold count_of. pose proof (id_own _ _ Hi m) as Ho.
  destruct (e_own x m) as [[named n]|]; lia.
Qed.

(** A thread that got, or gave back, one hold. *)
Lemma idle_locked x l m :
  idle x l -> l m = 0 \/ is_recursive m = true -> l m + 1 < 2 ^ 31 ->
  idle (with_duty (with_own x m (Some (true, count_of x m + 1))) None) (<[m := l m + 1]> l).
Proof.
  intros Hi Hr Hb. pose proof (idle_nonneg x l m Hi). rewrite (id_count _ _ Hi).
  destruct Hi as [D1 D2 D3 D4 D5 D6 D7 D8]. split; simpl; try done.
  - intros m' named n. simpl. at_point m m'; [congruence|]. apply D4.
  - intros m'. unfold count_of. simpl. at_point m m'; [done|]. apply D7.
  - intros m'. at_point m m'; [|apply D8]. split; [lia|]. intros E. destruct Hr; [lia|congruence].
Qed.

Lemma idle_unlocked x l m n :
  idle x l -> e_own x m = Some (true, n) -> idle (after_unlock x m n) (<[m := l m - 1]> l).
Proof.
  intros [D1 D2 D3 D4 D5 D6 D7 D8] E. specialize (D7 m) as E7. unfold count_of in E7. rewrite E in E7.
  specialize (D8 m) as E8. rewrite E in E8. unfold after_unlock. split; simpl; try done.
  - intros m' named n'. simpl. at_point m m'; [|apply D4]. destruct (1 <? n); congruence.
  - intros m'. unfold count_of. simpl. at_point m m'; [|apply D7]. destruct (Z.ltb_spec 1 n); lia.
  - intros m'. at_point m m'; [|apply D8]. destruct (Z.ltb_spec 1 n); [|done]. split; [lia|].
    intros Er. apply E8 in Er. lia.
Qed.

Abbreviation Safe := (Safe inv rely (fun _ : Failure => False)).

Lemma finish t p a l l' x w :
  me t w x -> spec p a l = Some l' -> idle x l' ->
  Safe t (Ret a) (fun a => idle_ok t (after t p a (Some l))) w.
Proof.
  intros Hx E Hi. eapply Safe_back; [done|]. intros w1 I1 Hx1. exists l'. split; [done|]. eauto.
Qed.

Lemma mutex_code_safe t l p w :
  idle_ok t l w -> may_call t l p -> inv w ->
  Safe t (code t p) (fun a => idle_ok t (after t p a l)) w.
Proof.
  intros (l' & -> & Hl) (l0 & [= <-] & Ha & Ht) I. destruct (Hl Ht) as (x & Hx & Hi). clear Hl I.
  pose proof (fun m => idle_nonneg x l' m Hi) as Hb.
  assert (Hlock : forall m, (l' m = 0 \/ is_recursive m = true) -> e_own x m <> None -> is_recursive m = true).
  { intros m [E|E] Ho; [|done]. by apply (not_held _ _ _ Hi) in E. }
  destruct p; cbn [code allowed] in *.
  - destruct Ha as [Hr Hm]. unfold Mutex_Lock. seq.
    eapply Safe_MutexLock; [done|apply Hi|apply Hi|rewrite (id_reg _ _ Hi); lia|left; apply Hi|auto| | |done].
    { rewrite (id_count _ _ Hi). specialize (Hb m). lia. }
    intros w1 I1 Hx1. eapply Safe_bind_ret; [done|]. intros w2 I2 Hx2.
    eapply finish; [done..|]. by apply idle_locked.
  - destruct Ha as [Hr Hm]. unfold Mutex_TryLock.
    eapply Safe_MutexLock; [done|apply Hi|apply Hi|rewrite (id_reg _ _ Hi); lia|left; apply Hi|auto|..].
    { rewrite (id_count _ _ Hi). specialize (Hb m). lia. }
    + intros w1 I1 Hx1. eapply finish; [done..|]. by apply idle_locked.
    + intros w1 _ Eo I1 Hx1. apply (not_held _ _ _ Hi) in Eo.
      eapply finish; [done| |exact Hi]. simpl. by rewrite decide_True.
  - destruct Ha as [Hr Hm].
    eapply Safe_MutexTryLockWithSpinning; [done|apply Hi|apply Hi|apply Hi|apply Hi|auto|..].
    { rewrite (id_count _ _ Hi). specialize (Hb m). lia. }
    + intros w1 I1 Hx1. eapply finish; [done..|]. by apply idle_locked.
    + intros w1 Eo I1 Hx1. apply (not_held _ _ _ Hi) in Eo.
      eapply finish; [done| |exact Hi]. simpl. by rewrite decide_True.
  - pose proof (held_own _ _ _ Hi Ha) as Eo. pose proof (id_own _ _ Hi m) as Ho. rewrite Eo in Ho.
    eapply Safe_MutexUnlock; [done|apply Hi|apply Hi|exact Eo|apply Ho|apply Ho|].
    intros w1 I1 Hx1. eapply finish; [done|simpl; by rewrite decide_True|]. by apply idle_unlocked.
  - pose proof (held_own _ _ _ Hi Ha) as Eo.
    eapply Safe_CondVar_Wait; [done|apply Hi|apply Hi|apply Hi|exact Eo|apply Hi|apply Hi|apply Hi|].
    intros w1 I1 Hx1. eapply finish; [done|simpl; by rewrite decide_True|done].
  - destruct Ha as [Ha Hv]. pose proof (held_own _ _ _ Hi Ha) as Eo.
    eapply Safe_CondVar_TimedWait; [done|apply Hi|apply Hi|apply Hi|exact Eo|apply Hi|apply Hi|apply Hi|done|].
    intros b w1 I1 Hx1. eapply finish; [done|simpl; by rewrite decide_True|done].
  - eapply Safe_SignalCount; [done|apply Hi|apply Hi|apply Hi|]. intros w1 I1 Hx1. by eapply finish.
  - eapply Safe_SignalCount; [done|apply Hi|apply Hi|apply Hi|]. intros w1 I1 Hx1. by eapply finish.
Qed.

(** ** The start *)
Record initial_process (s : Process) : Prop := {
  in_mutexes : forall m, mutexes s m =
    {| stateAndWaiters := 0; exclusiveOwner := 0; recursiveCount := 0; recursiveMutex := is_recursive m |};
  in_conds : forall c, mutexPtr (conds s c) = None /\ waiters (conds s c) = 0;
  in_sleeping : forall t, sleeping s t = None;
  in_tids : forall t, current_tid s t = 0;
}.

Definition start (s : Process) : config :=
  {| shared := s; local := fun _ => Some (fun _ => 0); state_of := fun _ => Idle |}.

Definition ghost0 : Ghost :=
  {| own := fun _ => None; reg := fun _ _ => 0; creg := fun _ _ => 0; duty := fun _ => None |}.

Lemma mutex_initial_inv s : initial_process s -> inv (s, ghost0).
Proof.
  intros [E1 E2 E3 E4]. split; simpl; intros; rewrite ?E1, ?E3, ?sum_zero in *; simpl; try done; try lia.
  - apply E2.
  - left. apply E2.
Qed.

Lemma mutex_initial_ok s t : initial_process s -> idle_ok t (Some (fun _ => 0)) (s, ghost0).
Proof.
  intros [E1 E2 E3 E4]. eexists. split; [done|]. intros Ht.
  exists {| e_own := fun _ => None; e_reg := fun _ => 0; e_creg := fun _ => 0; e_duty := None;
            e_sleep := None; e_ptr := None |}.
  split; split; simpl; auto; done.
Qed.

(** ** Times

    A time with less than a second of nanoseconds is converted exactly, to one the kernel accepts. *)
Lemma ConvertTime_exact ms ns :
  in_u 64 ms -> 0 <= ns < NANOSECONDS_PER_SEC ->
  let time := ConvertTime ms ns in
  valid_time time = true /\
  tv_sec time * NANOSECONDS_PER_SEC + tv_nsec time = ms * NANOSECONDS_PER_MILLISEC + ns.
Proof.
  unfold in_u, ConvertTime, valid_time, MILLISECONDS_PER_SEC, NANOSECONDS_PER_MILLISEC, NANOSECONDS_PER_SEC.
  intros Hms Hns. pose proof (Z.mod_pos_bound ms 1000 ltac:(lia)). pose proof (Z.div_mod ms 1000 ltac:(lia)).
  assert (0 <= ms / 1000 < 2 ^ 62) by (split; [apply Z.div_pos; lia|apply Z.div_lt_upper_bound; lia]).
  rewrite (wrapu_id 64) by (unfold in_u; lia).
  rewrite !(wraps_id 64) by (try lia; unfold in_s; change (64 - 1) with 63; lia).
  destruct (Z.leb_spec 1000000000 (ms mod 1000 * 1000000 + ns)); simpl; split; try lia.
Qed.

(** Two seconds of nanoseconds are not: the system call fails. *)
Example ConvertTime_invalid : valid_time (ConvertTime 0 2000000000) = false.
Proof. reflexivity. Qed.

(** ** Only sleepers wait *)
Lemma responsive_briefly m : responsive awaits (WaitBrieflyFor m).
Proof. unfold WaitBrieflyFor, load_state, mutex_get. respond. Qed.
Lemma responsive_lock m trylock : responsive awaits (MutexLock m trylock).
Proof.
  pose proof responsive_tid. pose proof responsive_briefly. pose proof responsive_wait.
  unfold MutexLock, take_held_bit, wait_until_free, IsHeld, Assert, halt, load_state, load_owner, store_owner,
    get_count, set_count, IncrementWaiters, DecrementWaiters, mutex_get, mutex_set, cas_state.
  respond; auto.
Qed.
Lemma responsive_unlock m : responsive awaits (MutexUnlock m).
Proof.
  pose proof responsive_tid.
  unfold MutexUnlock, FAIL_WITH_MESSAGE, IsHeld, Assert, halt, load_state, load_owner, store_owner,
    get_count, set_count, mutex_get, mutex_set, cas_state, FUTEX_WAKE.
  respond; auto.
Qed.
Lemma responsive_waiting {A} c m (futex : Z -> prog A) :
  (forall v, responsive awaits (futex v)) -> responsive awaits (waiting c m futex).
Proof.
  intros Hf. pose proof responsive_tid. pose proof responsive_lock. pose proof responsive_unlock.
  unfold waiting, set_mutexPtr, FAIL_WITH_MESSAGE, IsHeld, halt, load_owner, cond_fetch_add,
    get_count, set_count, IncrementWaiters, DecrementWaiters, mutex_get, mutex_set, cond_get, cond_set, cas_mutexPtr.
  respond; auto.
Qed.

Lemma responsive_code t p : responsive awaits (code t p).
Proof.
  pose proof responsive_lock. pose proof responsive_unlock. pose proof responsive_briefly.
  pose proof responsive_wait. pose proof responsive_tid.
  assert (Hs : forall c n, responsive awaits (SignalCount c n)).
  { intros c n. unfold SignalCount, FUTEX_WAKE, FUTEX_REQUEUE, FAIL_WITH_MESSAGE, halt, IsHeld, load_owner,
      cond_get, cond_set, mutex_get. respond; auto. }
  destruct p; cbn [code]; unfold Mutex_Lock, Mutex_TryLock, Mutex_TryLockWithSpinning, MutexTryLockWithSpinning,
    Mutex_Unlock, ConditionVariable_Signal, ConditionVariable_SignalAll; respond; auto;
    apply responsive_waiting; intros v; unfold halt; respond; auto.
Qed.

(** ** Reachable configurations *)
Section Reachable.
Context (s : Process) (c : config).
Context (Hinit : initial_process s) (Hreach : rtc system_step (start s) c).

Lemma mutex_reachable_facts :
  (exists g, inv (shared c, g) /\
     forall t, state_of c t = Idle -> idle_ok t (local c t) (shared c, g)) /\
  forall f, ~ faulty c f.
Proof.
  apply (system_safe code may_call after inv rely (fun _ => False) fx_rely_refl fx_rely_trans
           idle_ok mutex_idle_ok_rely mutex_code_safe (start s) c ghost0); [done|..|done].
  - by apply mutex_initial_inv.
  - intros t. by apply mutex_initial_ok.
Qed.

(** What the mutexes show of an idle client's ledger. *)
Lemma ledger_agrees g t l m :
  inv (shared c, g) -> idle_ok t (local c t) (shared c, g) -> t ∈ live_threads -> local c t = Some l ->
  0 <= l m /\ (0 < l m <-> own g m = Some t) /\ (0 < l m <-> exclusiveOwner (mutexes (shared c) m) = t) /\
  (0 < l m -> recursiveCount (mutexes (shared c) m) = l m) /\ duty g t = None.
Proof.
  intros I (l' & El & Hl) Ht El'. assert (l' = l) as -> by congruence. destruct (Hl Ht) as (x & Hx & Hi).
  pose proof (idle_nonneg x l m Hi) as Hb. pose proof (me_own _ _ _ Hx m) as Ho. simpl in Ho.
  pose proof (me_sleep _ _ _ Hx) as Hs. rewrite (id_sleep _ _ Hi), (id_duty _ _ Hi) in Hs.
  assert (Hd : duty g t = None) by (by destruct Hs as [_ [?|?]]).
  split; [lia|]. destruct (decide (0 < l m)) as [Hp|Hp].
  - rewrite (held_own x l m Hi Hp) in Ho. destruct Ho as (? & ? & ?). by split_and!.
  - assert (l m = 0) as E by lia. apply (not_held x l m Hi) in E. rewrite E in Ho. split_and!; try (split; [lia|]); try lia; try done.
    + intros He. destruct Ho. pose proof (inv_owner _ I m) as Ho. simpl in Ho. rewrite He in Ho.
      apply Ho, (me_id _ _ _ Hx).
Qed.
End Reachable.

(** Mutual exclusion of mutexes.  In every reachable configuration two threads that are
    between two calls do not both hold a mutex. *)
Theorem mutex_excludes s c t u m lt lu :
  initial_process s -> rtc system_step (start s) c ->
  t ∈ live_threads -> u ∈ live_threads -> t <> u ->
  state_of c t = Idle -> state_of c u = Idle -> local c t = Some lt -> local c u = Some lu ->
  ~ (0 < lt m /\ 0 < lu m).
Proof.
  intros Hi Hr Ht Hu Hne It Iu Et Eu [Hm Hm'].
  destruct (mutex_reachable_facts s c Hi Hr) as [(g & I & Hok) _].
  destruct (ledger_agrees c g t lt m I (Hok t It) Ht Et) as (_ & Ho & _).
  destruct (ledger_agrees c g u lu m I (Hok u Iu) Hu Eu) as (_ & Ho' & _).
  apply Ho in Hm. apply Ho' in Hm'. congruence.
Qed.

(** C7: The functions on mutexes and condition variables implement their contract.  Every
    client has a ledger, so that no answer was one [spec] forbids, and the fields of every mutex
    are those of the ledger: the owner is the thread that holds it, the count how often. *)
Theorem mutex_refines_spec s c t :
  initial_process s -> rtc system_step (start s) c -> t ∈ live_threads -> state_of c t = Idle ->
  exists l, local c t = Some l /\ forall m,
    (0 < l m <-> exclusiveOwner (mutexes (shared c) m) = t) /\
    (0 < l m -> recursiveCount (mutexes (shared c) m) = l m).
Proof.
  intros Hi Hr Ht It. destruct (mutex_reachable_facts s c Hi Hr) as [(g & I & Hok) _].
  destruct (Hok t It) as (l & El & _). exists l. split; [done|]. intros m.
  destruct (ledger_agrees c g t l m I (Hok t It) Ht El) as (_ & _ & ? & ? & _). done.
Qed.

(** C33: No reachable configuration is about to stop the process: the assertions hold and no
    [LOG(FATAL)] is reached, when the clients keep to the discipline. *)
Theorem mutex_no_fault s c f :
  initial_process s -> rtc system_step (start s) c -> ~ faulty c f.
Proof. intros Hi Hr. apply (proj2 (mutex_reachable_facts s c Hi Hr)). Qed.

(** C8: No wake-up is lost.  When a thread sleeps at a mutex, another thread is awake in a call and
    can take its next step whatever happens, or it holds the mutex (and is between two
    calls or asleep for something else). *)
Theorem no_lost_wakeup s c u m :
  initial_process s -> rtc system_step (start s) c -> sleeping (shared c) u = Some (StateAddr m) ->
  exists t, t <> u /\
    (can_run c t \/
     (exclusiveOwner (mutexes (shared c) m) = t /\
      (state_of c t = Idle \/ sleeping (shared c) t <> None))).
Proof.
  intros Hi Hr Hu. destruct (mutex_reachable_facts s c Hi Hr) as [(g & I & Hok) Hf].
  pose proof (awake_can_run code may_call after (start s) c responsive_code (fun _ => eq_refl) Hr Hf) as Hrun.
  assert (Hidle : forall t, state_of c t = Idle -> duty g t = None).
  { intros t It. destruct (decide (t ∈ live_threads)) as [Ht|Ht].
    - destruct (Hok t It) as (l & El & _). by destruct (ledger_agrees c g t l m I (Hok t It) Ht El) as (_ & _ & _ & _ & ?).
    - by destruct (inv_live _ I t Ht) as (_ & ? & _). }
  destruct (inv_asleep _ I u _ Hu) as (_ & Hb & _). destruct (Hb m eq_refl) as [_ Hnot].
  destruct (inv_awake _ I u m Hu) as [Ho|[v Hv]].
  - simpl in Hnot, Ho. destruct (own g m) as [t|] eqn:Eo; [|done]. exists t. split; [congruence|].
    assert (Ht : t ∈ live_threads).
    { destruct (decide (t ∈ live_threads)) as [|Ht]; [done|].
      destruct (inv_live _ I t Ht) as (_ & _ & Hn). by destruct (Hn m). }
    destruct (sleeping (shared c) t) as [a|] eqn:Es.
    + right. split; [|by right]. destruct (inv_asleep _ I t a Es) as (_ & _ & He). by apply He.
    + destruct (state_of c t) as [|p q] eqn:Eq; [|left; by eapply Hrun]. right. split; [|by left].
      destruct (Hok t Eq) as (l & El & Hl).
      destruct (ledger_agrees c g t l m I (ex_intro _ l (conj El Hl)) Ht El) as (_ & E1 & E2 & _).
      by apply E2, E1.
  - assert (Es : sleeping (shared c) v = None).
    { destruct (sleeping (shared c) v) as [a|] eqn:E; [|done]. destruct (inv_asleep _ I v a E) as (Hd & _).
      simpl in *. congruence. }
    exists v. split; [simpl in *; congruence|]. left.
    destruct (state_of c v) as [|p q] eqn:Eq; [|by eapply Hrun]. apply Hidle in Eq. simpl in *. congruence.
Qed.

#[export] Instance mutex_may_call_dec t l p : Decision (may_call t l p).
Proof.
  destruct l as [l|]; [|right; by intros (? & ? & _)].
  assert (Ha : Decision (allowed p l)) by (destruct p; simpl; apply _).
  destruct Ha as [Ha|Ha]; [|right; by intros (? & [= <-] & ? & _)].
  destruct (decide (t ∈ live_threads)); [left; by exists l|right; by intros (? & _ & _ & ?)].
Defined.
Definition exec := exec code may_call after.
End System.

(** ** A run

    Thread 1 waits for a condition; thread 2 takes the mutex and signals, which moves thread 1 to
    the mutex, and still holds it. *)
Module Scenario.
#[local] Instance kernel : Kernel :=
  {| live_threads := [1; 2]; wake_order := fun ch l => if ch <? 0 then rev l else l |}.
#[local] Instance usage : Usage := {| is_recursive := fun m => m =? 5; mutex_of := fun c => c |}.

Lemma kernel_ok : KernelOk.
Proof.
  split.
  - apply (bool_decide_unpack _). by vm_compute.
  - apply (bool_decide_unpack _). by vm_compute.
  - by vm_compute.
  - intros ch l. simpl. destruct (ch <? 0); [|done]. symmetry. apply Permutation_rev.
Qed.

Definition process0 : Process :=
  {| mutexes := fun m => {| stateAndWaiters := 0; exclusiveOwner := 0; recursiveCount := 0;
                            recursiveMutex := m =? 5 |};
     conds := fun _ => {| mutexPtr := None; cond := 0; waiters := 0 |};
     rwlocks := fun _ => {| state_ := 0; exclusiveOwner_ := 0; waiters_ := 0 |};
     current_tid := fun _ => 0; sleeping := fun _ => None; g_deadlockFlag := false |}.

Lemma process0_initial : initial_process process0.
Proof. by split. Qed.

Definition whole (t : Z) (p : op) (n : nat) : list (event Z op) :=
  Call t p :: repeat (Run t 0) n ++ [Return t].

Definition moved : config :=
  exec (whole 1 (OpLock 5) 60 ++ whole 1 (OpWait 5) 160 ++ whole 2 (OpLock 5) 60 ++
        whole 2 (OpSignal 5) 60) (start process0).

Lemma moved_reachable : rtc system_step (start process0) moved.
Proof. apply exec_steps. Qed.

Definition ledger_of (c : config) (t : Z) : Ledger := default (fun _ => 0) (local c t).

Definition has_ledger (c : config) (t : Z) : bool :=
  match local c t with Some _ => true | None => false end.

Lemma ledger_of_has (c : config) t : has_ledger c t = true -> local c t = Some (ledger_of c t).
Proof. unfold has_ledger, ledger_of. by destruct (local c t). Qed.

(** Thread 1 has gone on once thread 2 has left the mutex, and waits for the other mutex in vain. *)
Definition awake : config :=
  exec (whole 2 (OpUnlock 5) 60 ++ repeat (Run 1 0) 60 ++ [Return 1] ++
        whole 2 (OpLock 3) 60 ++ whole 1 (OpTryLock 3) 60) moved.

Lemma awake_reachable : rtc system_step (start process0) awake.
Proof. etrans; [apply moved_reachable|apply exec_steps]. Qed.

Lemma mutex_excludes_witness : 0 < ledger_of awake 2 3 /\ ~ 0 < ledger_of awake 1 3.
Proof.
  assert (Hp : 0 < ledger_of awake 2 3) by by vm_compute. split; [done|]. intros Hp'.
  apply (@mutex_excludes kernel kernel_ok usage process0 awake 2 1 3 (ledger_of awake 2) (ledger_of awake 1)
           process0_initial awake_reachable).
  - right. by left.
  - by left.
  - done.
  - apply is_idle_true. by vm_compute.
  - apply is_idle_true. by vm_compute.
  - apply ledger_of_has. by vm_compute.
  - apply ledger_of_has. by vm_compute.
  - split; [exact Hp|exact Hp'].
Defined.

Lemma mutex_refines_spec_witness :
  exists l, local awake 1 = Some l /\ (0 < l 5 <-> exclusiveOwner (mutexes (shared awake) 5) = 1).
Proof.
  destruct (@mutex_refines_spec kernel kernel_ok usage process0 awake 1 process0_initial awake_reachable)
    as (l & El & Hl).
  - by left.
  - apply is_idle_true. by vm_compute.
  - exists l. split; [exact El|apply Hl].
Defined.

Lemma mutex_no_fault_witness : ~ faulty moved FATAL.
Proof.
  exact (@mutex_no_fault kernel kernel_ok usage process0 moved FATAL process0_initial moved_reachable).
Defined.

Lemma no_lost_wakeup_witness :
  exists t, t <> 1 /\ (can_run moved t \/
    (exclusiveOwner (mutexes (shared moved) 5) = t /\
     (state_of moved t = Idle \/ sleeping (shared moved) t <> None))).
Proof.
  apply (@no_lost_wakeup kernel kernel_ok usage process0 moved 1 5 process0_initial moved_reachable).
  by vm_compute.
Defined.
End Scenario.
End FutexSystem.
