(* ===== verification/RWLock.v ===== *)
(** Readers-writer locks: the class [RWLock] of
    platforms/unix/libpandabase/futex/mutex.{h,cpp}, as programs over the process of Futex.

    [state_] is -1 while a thread writes, the number of readers otherwise.  A thread that
    has to wait counts itself in [waiters_] and sleeps at the state; whoever sets the state to 0 wakes
    all sleepers when there are waiters. *)
From stdpp Require Import base list functions.
From S2P Require Import Prelude Threads Futex.
Local Open Scope Z_scope.
Local Open Scope ark_scope.
Local Open Scope prog_scope.

Module RWLocks.

Definition WRITE_LOCKED : Z := -1.
Definition UNLOCKED : Z := 0.
Definition READ_INCREMENT : Z := 1.

Definition rw_get {A} (l : Z) (f : RWLock -> A) : prog A := Act (fun _ _ s => Next (f (rwlocks s l)) s).
Definition rw_set (l : Z) (f : RWLock -> RWLock) : prog () :=
  Act (fun _ _ s => Next () {| s with rwlocks := <[l := f (rwlocks s l)]> (rwlocks s) |}).

Definition state_load (l : Z) : prog Z := rw_get l state_.
(** [compare_exchange_weak] on [state_]. *)
Definition state_cas (l old new : Z) : prog (bool * Z) :=
  Act (fun _ ch s =>
    let L := rwlocks s l in
    if (state_ L == old) && (0 <=? ch)
    then Next (true, old) {| s with rwlocks := <[l := {| L with state_ := new |}]> (rwlocks s) |}
    else Next (false, state_ L) s).
Definition owner_store (l v : Z) : prog () := rw_set l (fun L => {| L with exclusiveOwner_ := v |}).

Definition IncrementWaiters (l : Z) : prog () :=
  rw_set l (fun L => {| L with waiters_ := u32 (waiters_ L + 1) |}).
Definition DecrementWaiters (l : Z) : prog () :=
  rw_set l (fun L => {| L with waiters_ := u32 (waiters_ L - 1) |}).

Section Operations.
Context `{Kernel}.

Definition HasExclusiveHolder (l : Z) : prog bool := o ← rw_get l exclusiveOwner_; Ret (o != 0).
Definition IsExclusiveHeld (l thread : Z) : prog bool := o ← rw_get l exclusiveOwner_; Ret (o == thread).

Definition WaitBrieflyFor (l : Z) (pred : Z -> bool) : prog bool :=
  Loop (fun i =>
    if i <=? MAX_ITER then
      v ← state_load l; Ret (if pred v then inr true else inl (i + 1))
    else Ret (inr false)) 1.

(** The wait while [busy] holds of the state. *)
Definition futex_while (l : Z) (busy : Z -> bool) (curState : Z) : prog () :=
  Loop (fun curState =>
    if busy curState then
      r ← FUTEX_WAIT (RWAddr l) curState None;
      (if bool_decide (r ∈ [WOKEN; EAGAIN; EINTR]) then Ret () else halt FATAL);;
      curState ← state_load l;
      Ret (inl curState)
    else Ret (inr ())) curState.

Definition HandleReadLockWait (l curState : Z) : prog () :=
  b ← WaitBrieflyFor l (fun state => UNLOCKED <=? state);
  if negb b then
    IncrementWaiters l;;
    futex_while l (fun state => state == WRITE_LOCKED) curState;;
    DecrementWaiters l
  else Ret ().

Definition ReadLock (l : Z) : prog () :=
  Loop (fun _ : () =>
    curState ← state_load l;
    if UNLOCKED <=? curState then
      r ← state_cas l curState (i32 (curState + READ_INCREMENT));
      Ret (if fst r then inr () else inl ())
    else HandleReadLockWait l curState;; Ret (inl ())) ();;
  h ← HasExclusiveHolder l; Assert (negb h).

Definition TryReadLock (l : Z) : prog bool :=
  curState ← state_load l;
  done ← Loop (fun curState =>
    if UNLOCKED <=? curState then
      r ← state_cas l curState (i32 (curState + READ_INCREMENT));
      Ret (if fst r then inr true else inl (snd r))
    else Ret (inr false)) curState;
  if negb done then Ret false else
  h ← HasExclusiveHolder l; Assert (negb h);; Ret true.

(** What [WriteLock] and [TryWriteLock] do once the state is set. *)
Definition write_locked (l tid : Z) : prog () :=
  v ← state_load l; Assert (v == WRITE_LOCKED);;
  o ← rw_get l exclusiveOwner_; Assert (o == 0);;
  owner_store l tid.

Definition WriteLock (l : Z) : prog () :=
  tid ← cached_tid;
  Loop (fun _ : () =>
    curState ← state_load l;
    if curState == UNLOCKED then
      r ← state_cas l curState WRITE_LOCKED;
      Ret (if fst r then inr () else inl ())
    else
      b ← WaitBrieflyFor l (fun state => state == UNLOCKED);
      (if negb b then
         IncrementWaiters l;;
         futex_while l (fun state => state != UNLOCKED) curState;;
         DecrementWaiters l
       else Ret ());;
      Ret (inl ())) ();;
  write_locked l tid.

Definition TryWriteLock (l : Z) : prog bool :=
  tid ← cached_tid;
  curState ← state_load l;
  done ← Loop (fun curState =>
    if curState == UNLOCKED then
      r ← state_cas l curState WRITE_LOCKED;
      Ret (if fst r then inr true else inl (snd r))
    else Ret (inr false)) curState;
  if negb done then Ret false else write_locked l tid;; Ret true.

(** Waking everybody when there are waiters. *)
Definition wake_waiters (l : Z) : prog () :=
  n ← rw_get l waiters_;
  if 0 <? n then FUTEX_WAKE (RWAddr l) WAKE_ALL;; Ret () else Ret ().

Definition ReadUnlock (l : Z) : prog () :=
  h ← HasExclusiveHolder l; Assert (negb h);;
  curState ← state_load l;
  Loop (fun curState =>
    if 0 <? curState then
      let newState := i32 (curState - READ_INCREMENT) in
      r ← state_cas l curState newState;
      if fst r then
        (if newState == UNLOCKED then wake_waiters l else Ret ());; Ret (inr ())
      else Ret (inl (snd r))
    else halt FATAL) curState.

Definition WriteUnlock (l : Z) : prog () :=
  tid ← cached_tid;
  h ← IsExclusiveHeld l tid; Assert h;;
  curState ← state_load l;
  Loop (fun curState =>
    if curState == WRITE_LOCKED then
      owner_store l 0;;
      r ← state_cas l curState UNLOCKED;
      if fst r then wake_waiters l;; Ret (inr ()) else Ret (inl (snd r))
    else halt FATAL) curState.

Definition Unlock (l : Z) : prog () :=
  h ← HasExclusiveHolder l;
  if (h : bool) then WriteUnlock l else ReadUnlock l.

(** The destructor. *)
Definition RWLock_destroy (mobile : bool) (l : Z) : prog () :=
  ignore ← (if mobile then Ret false else MutexDoNotCheckOnTerminationLoop);
  if (ignore : bool) then Ret () else
  v ← state_load l; if v != 0 then halt FATAL else
  o ← rw_get l exclusiveOwner_; if o != 0 then halt FATAL else
  n ← rw_get l waiters_; if n != 0 then halt FATAL else Ret ().
End Operations.
End RWLocks.
