(* ===== verification/RWLockInv.v ===== *)
(** The invariant of readers-writer locks and the rules of their steps.

    Auxiliary state: how many read locks a thread has ([rd]), who writes ([wr]), who is counted as a
    waiter ([rw_reg]), which sleepers want to read ([reading]), and who has set a lock free and
    has not woken its sleepers yet ([waker]).  A sleeping writer is one whose lock is not free, a
    sleeping reader one whose lock is written, unless there is a waker. *)
From stdpp Require Import base list functions.
From S2P Require Import Prelude Threads Futex FutexInv RWLock.
Import RWLocks.
Local Open Scope Z_scope.
Local Open Scope ark_scope.
Local Open Scope prog_scope.

Module RWLockInv.

(** How many read locks on one lock a thread may have, so that the state does not overflow. *)
Class ReadLimit `{Kernel} := {
  max_reads : Z;
  max_reads_pos : 0 < max_reads;
  max_reads_few : max_reads * Z.of_nat (length live_threads) < 2 ^ 31;
}.

Record Ghost := mkGhost {
  rd : Z -> Z -> Z;
  wr : Z -> option Z;
  rw_reg : Z -> Z -> Z;
  reading : Z -> bool;
  waker : Z -> option Z;
}.

Section Invariant.
Context `{Kernel} `{!KernelOk} `{!ReadLimit}.
Abbreviation world := (Process * Ghost)%type.

Definition readers (g : Ghost) (l : Z) : Z := total live_threads (fun u => rd g u l).

Record inv (w : world) : Prop := {
  inv_state : forall l, state_ (rwlocks w.1 l) =
    match wr w.2 l with Some _ => WRITE_LOCKED | None => readers w.2 l end;
  inv_writer : forall l u v, wr w.2 l = Some u -> rd w.2 v l = 0;
  inv_owner : forall l, exclusiveOwner_ (rwlocks w.1 l) <> 0 ->
    wr w.2 l = Some (exclusiveOwner_ (rwlocks w.1 l));
  inv_waiters : forall l, waiters_ (rwlocks w.1 l) = total live_threads (fun u => rw_reg w.2 u l);
  inv_rd : forall u l, 0 <= rd w.2 u l <= max_reads;
  inv_reg : forall u l, 0 <= rw_reg w.2 u l <= 1;
  inv_live : forall u, u ∉ live_threads -> sleeping w.1 u = None /\ waker w.2 u = None /\
    forall l, rd w.2 u l = 0 /\ wr w.2 l <> Some u;
  inv_asleep : forall u a, sleeping w.1 u = Some a ->
    waker w.2 u = None /\ forall l, a = RWAddr l -> 0 < rw_reg w.2 u l;
  inv_awake : forall u l, sleeping w.1 u = Some (RWAddr l) ->
    wr w.2 l <> None \/ (reading w.2 u = false /\ 0 < readers w.2 l) \/ exists v, waker w.2 v = Some l;
}.

Record rely (t : Z) (w w' : world) : Prop := {
  r_rd : forall l, rd w'.2 t l = rd w.2 t l;
  r_wr : forall l, wr w.2 l = Some t -> wr w'.2 l = Some t /\
    exclusiveOwner_ (rwlocks w'.1 l) = exclusiveOwner_ (rwlocks w.1 l);
  r_other : forall l, wr w.2 l <> Some t -> wr w'.2 l <> Some t;
  r_reg : forall l, rw_reg w'.2 t l = rw_reg w.2 t l;
  r_waker : waker w'.2 t = waker w.2 t;
  r_awake : sleeping w.1 t = None -> sleeping w'.1 t = None;
  r_asleep : forall a, sleeping w.1 t = Some a -> sleeping w'.1 t = Some a \/ sleeping w'.1 t = None;
  r_tid : current_tid w'.1 t = current_tid w.1 t;
}.

Lemma rw_rely_refl t w : rely t w w.
Proof. split; auto. Qed.

Lemma rw_rely_trans t w1 w2 w3 : rely t w1 w2 -> rely t w2 w3 -> rely t w1 w3.
Proof.
  intros [A1 A2 A3 A4 A6 A7 A8 A9] [B1 B2 B3 B4 B6 B7 B8 B9]. split; auto; try congruence.
  - intros l E. destruct (A2 l E) as [E1 E2]. destruct (B2 l E1). split; congruence.
  - intros a E. destruct (A8 a E) as [E1|E1]; [auto|]. right. auto.
Qed.

(** What a thread knows of itself: its read locks, the locks it writes (and whether the owner's field
    says so), where it waits. *)
Record Me := mkMe {
  e_rd : Z -> Z;
  e_wr : Z -> option bool;
  e_reg : Z -> Z;
  e_waker : option Z;
  e_asleep : bool;
}.

Record me (t : Z) (w : world) (x : Me) : Prop := {
  me_live : t ∈ live_threads;
  me_rd : forall l, rd w.2 t l = e_rd x l;
  me_wr : forall l, match e_wr x l with
    | Some named => wr w.2 l = Some t /\ exclusiveOwner_ (rwlocks w.1 l) = if (named : bool) then t else 0
    | None => wr w.2 l <> Some t
    end;
  me_reg : forall l, rw_reg w.2 t l = e_reg x l;
  me_waker : waker w.2 t = e_waker x;
  me_sleep : e_asleep x = false -> sleeping w.1 t = None;
  me_tid : current_tid w.1 t = 0 \/ current_tid w.1 t = t;
}.

Lemma rw_me_rely t w w' x : me t w x -> rely t w w' -> me t w' x.
Proof.
  intros [E1 E2 E3 E4 E6 E7 E8] [R1 R2 R3 R4 R6 R7 R8 R9]. split; try done; try congruence.
  - intros l. specialize (E3 l). destruct (e_wr x l) as [b|]; [|auto]. destruct E3 as [E3 E3'].
    destruct (R2 l E3). split; congruence.
  - auto.
Qed.

Lemma rw_me_id t w x : me t w x -> t <> 0.
Proof. intros Hx ->. by apply live_ids, (me_live _ _ _ Hx). Qed.

Lemma readers_bounds w l : inv w -> 0 <= readers w.2 l < 2 ^ 31.
Proof.
  intros I. unfold readers.
  pose proof (total_bounds live_threads (fun u => rd w.2 u l) max_reads (fun u => inv_rd _ I u l)).
  pose proof max_reads_few. lia.
Qed.

Lemma waiters_range w l : inv w -> 0 <= waiters_ (rwlocks w.1 l) < 2 ^ 31.
Proof.
  intros I. rewrite (inv_waiters _ I).
  pose proof (total_bounds live_threads (fun u => rw_reg w.2 u l) 1 (fun u => inv_reg _ I u l)).
  pose proof live_few. lia.
Qed.

Lemma not_writing w l : inv w -> 0 <= state_ (rwlocks w.1 l) <-> wr w.2 l = None.
Proof.
  intros I. rewrite (inv_state _ I). pose proof (readers_bounds w l I).
  unfold WRITE_LOCKED. destruct (wr w.2 l); [split; [lia|done]|]. split; [done|lia].
Qed.

End Invariant.

(** The rules of [Threads] for what is known in [me]. *)
Abbreviation step_ok := (Threads.step_ok inv rely me).
Abbreviation Safe_me := (Threads.Safe_me inv rely (fun _ : Failure => False) rw_rely_refl rw_rely_trans me rw_me_rely).
Abbreviation Safe_read := (Threads.Safe_look inv rely (fun _ : Failure => False) rw_rely_refl rw_rely_trans me rw_me_rely).
Abbreviation Safe_back := (Threads.Safe_back inv rely (fun _ : Failure => False) me rw_me_rely).
Abbreviation Safe_bind_ret := (Threads.Safe_bind_back inv rely (fun _ : Failure => False) rw_rely_refl me rw_me_rely).
Abbreviation same_step := (Threads.same_step inv rely rw_rely_refl me).

Section Rules.
Context `{Kernel} `{!KernelOk} `{!ReadLimit}.
Abbreviation world := (Process * Ghost)%type.
Abbreviation Safe := (Safe inv rely (fun _ : Failure => False)).


Lemma rw_Safe_Assert {A} t b (k : () -> prog A) Q w x :
  me t w x -> b = true -> (forall w1, inv w1 -> me t w1 x -> Safe t (k ()) Q w1) ->
  Safe t (Bind (Assert b) k) Q w.
Proof. intros Hx -> Hk. by eapply Safe_bind_ret. Qed.

(** ** Steps on a lock *)
Record rw_change (t : Z) (w : world) (x : Me) (l : Z) (L' : RWLock) (n' : Z) (o' : option Z) (r' : Z)
    (k' : option Z) : Prop := {
  rc_awake : e_asleep x = false;
  rc_state : state_ L' =
    match o' with Some _ => WRITE_LOCKED | None => readers w.2 l + (n' - e_rd x l) end;
  rc_own : o' = wr w.2 l \/ (wr w.2 l = None /\ o' = Some t) \/ (wr w.2 l = Some t /\ o' = None);
  rc_writer : o' <> None -> n' = 0 /\ forall v, v <> t -> rd w.2 v l = 0;
  rc_owner : exclusiveOwner_ L' <> 0 -> o' = Some (exclusiveOwner_ L');
  rc_foreign : o' = wr w.2 l -> wr w.2 l <> Some t ->
    exclusiveOwner_ L' = exclusiveOwner_ (rwlocks w.1 l);
  rc_waiters : waiters_ L' = waiters_ (rwlocks w.1 l) + (r' - e_reg x l);
  rc_rd : 0 <= n' <= max_reads;
  rc_reg : 0 <= r' <= 1;
  rc_watch : forall u l', sleeping w.1 u = Some (RWAddr l') ->
    <[l := o']> (wr w.2) l' <> None \/
    (reading w.2 u = false /\ 0 < <[l := readers w.2 l + (n' - e_rd x l)]> (readers w.2) l') \/
    exists v, <[t := k']> (waker w.2) v = Some l';
}.

Definition wr_as (t : Z) (L : RWLock) (o : option Z) : option bool :=
  if decide (o = Some t) then Some (exclusiveOwner_ L == t) else None.

Lemma rw_step t w x l L' n' o' r' k' :
  inv w -> me t w x -> rw_change t w x l L' n' o' r' k' ->
  step_ok t w {| (w.1) with rwlocks := <[l := L']> (rwlocks w.1) |}
    {| x with e_rd := <[l := n']> (e_rd x); e_wr := <[l := wr_as t L' o']> (e_wr x);
              e_reg := <[l := r']> (e_reg x); e_waker := k' |}.
Proof.
  intros I Hx [C1 C2 C3 C4 C5 C6 C7 C8 C9 C10]. destruct w as [s g]; simpl in *.
  pose proof (me_live _ _ _ Hx) as Hl. pose proof (me_sleep _ _ _ Hx C1) as Hs.
  pose proof (me_rd _ _ _ Hx) as Hrd. pose proof (me_reg _ _ _ Hx) as Hreg. simpl in *.
  set (g' := {| g with rd := <[t := <[l := n']> (rd g t)]> (rd g); wr := <[l := o']> (wr g);
                       rw_reg := <[t := <[l := r']> (rw_reg g t)]> (rw_reg g);
                       waker := <[t := k']> (waker g) |}).
  assert (Hupd : forall f v, total live_threads (fun u => <[t := <[l := v]> (f t)]> f u l) =
                             total live_threads (fun u => f u l) + (v - f t l)).
  { intros f v. rewrite (total_ext _ _ (<[t := v]> (fun u => f u l))).
    - by rewrite total_update by (done || apply live_nodup).
    - intros u _. by at_point t u. }
  assert (Hoth : forall f v l', l' <> l -> total live_threads (fun u => <[t := <[l := v]> (f t)]> f u l') =
                                           total live_threads (fun u => f u l')).
  { intros f v l' Hne. apply total_ext. intros u _. at_point t u; [|done]. by rewrite fn_lookup_insert_ne. }
  assert (Hr : forall l', readers g' l' = <[l := readers g l + (n' - e_rd x l)]> (readers g) l').
  { intros l'. unfold readers, g'. simpl. at_point l l'; [by rewrite Hupd, Hrd|by apply Hoth]. }
  exists g'. split_and!.
  - destruct I as [I1 I2 I3 I4 I5 I6 I7 I8 I9]. split; simpl in *.
    + intros l'. rewrite Hr. at_point l l'; [done|]. apply I1.
    + intros l' u v. at_point l l'; [|by at_point t v; [rewrite fn_lookup_insert_ne by done|]; eauto].
      intros E. destruct C4 as [-> Hz]; [congruence|]. at_point t v; [done|auto].
    + intros l'. at_point l l'; auto.
    + intros l'. at_point l l'; [by rewrite C7, I4, Hupd, Hreg|]. rewrite Hoth by done. auto.
    + intros u l'. at_point t u; [|auto]. at_point l l'; auto.
    + intros u l'. at_point t u; [|auto]. at_point l l'; auto.
    + intros u Hu. rewrite !(fn_lookup_insert_ne _ t u) by congruence. destruct (I7 u Hu) as (? & ? & Hz).
      split_and!; [done..|]. intros l'. destruct (Hz l'). split; [done|]. at_point l l'; [|done].
      destruct C3 as [->|[[_ ->]|[_ ->]]]; congruence.
    + intros u l' Hu. rewrite !(fn_lookup_insert_ne _ t u) by congruence. auto.
    + intros u l' Hu. rewrite Hr. auto.
  - intros u Hu. split; simpl; rewrite ?(fn_lookup_insert_ne _ t u) by done; try done; auto.
    + intros l' E. at_point l l'; [|done]. destruct C3 as [E'|[[E' _]|[E' _]]]; [|congruence..].
      rewrite E'. split; [done|]. apply C6; congruence.
    + intros l' E. at_point l l'; [|done]. destruct C3 as [->|[[_ ->]|[_ ->]]]; congruence.
  - destruct Hx as [X1 X2 X3 X4 X6 X7 X8]. split; simpl in *; try done.
    + intros l'. rewrite fn_lookup_insert. at_point l l'; auto.
    + intros l'. specialize (X3 l'). at_point l l'; [|done]. unfold wr_as. case_decide as E; [|done].
      split; [done|]. case_bool_decide; [done|]. destruct (decide (exclusiveOwner_ L' = 0)); [done|].
      apply C5 in n. congruence.
    + intros l'. rewrite fn_lookup_insert. at_point l l'; auto.
    + by rewrite fn_lookup_insert.
Qed.

Lemma rw_me_ext t w x x' :
  me t w x -> (forall l, e_rd x' l = e_rd x l) -> (forall l, e_wr x' l = e_wr x l) ->
  (forall l, e_reg x' l = e_reg x l) -> e_waker x' = e_waker x ->
  e_asleep x' = e_asleep x -> me t w x'.
Proof.
  intros [E1 E2 E3 E4 E6 E7 E8] F1 F2 F3 F5 F6. split; try congruence.
  - intros l. rewrite F2. apply E3.
  - by rewrite F6.
Qed.

Lemma rw_step_ext t w s' x x' :
  step_ok t w s' x -> (forall l, e_rd x' l = e_rd x l) -> (forall l, e_wr x' l = e_wr x l) ->
  (forall l, e_reg x' l = e_reg x l) -> e_waker x' = e_waker x ->
  e_asleep x' = e_asleep x -> step_ok t w s' x'.
Proof. intros (g' & I & G & Hx) **. exists g'. split_and!; [done..|]. by eapply rw_me_ext. Qed.

(** Nobody stops watching when the number of readers does not shrink. *)
Lemma watch_more t w l n k :
  inv w -> 0 <= n -> waker w.2 t = None \/ waker w.2 t = k ->
  forall u l', sleeping w.1 u = Some (RWAddr l') ->
    <[l := wr w.2 l]> (wr w.2) l' <> None \/
    (reading w.2 u = false /\ 0 < <[l := readers w.2 l + n]> (readers w.2) l') \/
    exists v, <[t := k]> (waker w.2) v = Some l'.
Proof.
  intros I Hn Hk u l' Hu. destruct (inv_awake _ I u l' Hu) as [Hw|[[Hr Hp]|[v Hv]]].
  - left. by at_point l l'.
  - right; left. split; [done|]. at_point l l'; [lia|done].
  - right; right. exists v. at_point t v; [|done]. destruct Hk; congruence.
Qed.

Lemma wr_as_same t w x l L' :
  inv w -> me t w x -> exclusiveOwner_ L' = exclusiveOwner_ (rwlocks w.1 l) ->
  wr_as t L' (wr w.2 l) = e_wr x l.
Proof.
  intros I Hx E. unfold wr_as. rewrite E. pose proof (me_wr _ _ _ Hx l) as Hw. pose proof (rw_me_id _ _ _ Hx).
  destruct (e_wr x l) as [b|]; [|by rewrite decide_False]. destruct Hw as (-> & ->).
  rewrite decide_True by done. destruct b; [by rewrite bool_decide_eq_true_2|by rewrite bool_decide_eq_false_2].
Qed.

Lemma own_reads w l u : inv w -> rd w.2 u l <= readers w.2 l.
Proof.
  intros I. destruct (decide (u ∈ live_threads)) as [Hu|Hu].
  - unfold readers. pose proof (total_update live_threads (fun u => rd w.2 u l) u 0 live_nodup Hu) as E.
    cbv beta in E.
    pose proof (total_bounds live_threads (<[u := 0]> (fun u => rd w.2 u l)) max_reads) as Hb.
    destruct Hb; [|lia]. intros v. at_point u v; [|apply (inv_rd _ I)]. pose proof max_reads_pos. lia.
  - destruct (inv_live _ I u Hu) as (_ & _ & Hz). destruct (Hz l) as [-> _]. apply (readers_bounds w l I).
Qed.

Lemma no_readers w l v : inv w -> readers w.2 l = 0 -> rd w.2 v l = 0.
Proof. intros I E. pose proof (own_reads w l v I). pose proof (inv_rd _ I v l). lia. Qed.

Lemma one_more_reader t w l :
  inv w -> t ∈ live_threads -> rd w.2 t l + 1 <= max_reads -> readers w.2 l + 1 < 2 ^ 31.
Proof.
  intros I Ht Hm. unfold readers.
  pose proof (total_update live_threads (fun u => rd w.2 u l) t (rd w.2 t l + 1) live_nodup Ht) as E.
  cbv beta in E. destruct (total_bounds live_threads (<[t := rd w.2 t l + 1]> (fun u => rd w.2 u l)) max_reads) as [_ Hb].
  - intros v. pose proof (inv_rd _ I v l). at_point t v; lia.
  - pose proof max_reads_few. lia.
Qed.

(** A reader sees no owner, a writer sees itself or nobody. *)
Lemma reader_no_owner t w x l : inv w -> me t w x -> 0 < e_rd x l -> exclusiveOwner_ (rwlocks w.1 l) = 0.
Proof.
  intros I Hx Hp. destruct (decide (exclusiveOwner_ (rwlocks w.1 l) = 0)) as [|Hn]; [done|].
  apply (inv_owner _ I) in Hn. pose proof (inv_writer _ I l _ t Hn) as Hz. rewrite (me_rd _ _ _ Hx) in Hz. lia.
Qed.

Lemma writer_owner t w x l b :
  me t w x -> e_wr x l = Some b -> exclusiveOwner_ (rwlocks w.1 l) = if b then t else 0.
Proof. intros Hx E. pose proof (me_wr _ _ _ Hx l) as Hw. rewrite E in Hw. apply Hw. Qed.

Lemma writer_state t w x l b :
  inv w -> me t w x -> e_wr x l = Some b -> state_ (rwlocks w.1 l) = WRITE_LOCKED.
Proof.
  intros I Hx E. pose proof (me_wr _ _ _ Hx l) as Hw. rewrite E in Hw. destruct Hw as [Hw _].
  by rewrite (inv_state _ I), Hw.
Qed.

Lemma reader_state t w x l :
  inv w -> me t w x -> 0 < e_rd x l -> 0 < state_ (rwlocks w.1 l) < 2 ^ 31.
Proof.
  intros I Hx Hp. pose proof (own_reads w l t I) as Ho. rewrite (me_rd _ _ _ Hx) in Ho.
  pose proof (readers_bounds w l I). rewrite (inv_state _ I). destruct (wr w.2 l) as [u|] eqn:E; [|lia].
  pose proof (inv_writer _ I l u t E) as Hz. rewrite (me_rd _ _ _ Hx) in Hz. lia.
Qed.

Lemma writer_reads t w x l b :
  inv w -> me t w x -> e_wr x l = Some b -> e_rd x l = 0 /\ forall u, rd w.2 u l = 0.
Proof.
  intros I Hx E. pose proof (me_wr _ _ _ Hx l) as Hw. rewrite E in Hw. destruct Hw as [Hw _].
  rewrite <- (me_rd _ _ _ Hx). split; [|intros u]; by eapply (inv_writer _ I).
Qed.

Lemma busy_for_reader t w x l : inv w -> me t w x -> state_ (rwlocks w.1 l) < UNLOCKED -> e_rd x l = 0.
Proof.
  intros I Hx Hs. pose proof (reader_state t w x l I Hx) as Hst. pose proof (inv_rd _ I t l) as Hr.
  rewrite (me_rd _ _ _ Hx) in Hr. unfold UNLOCKED in Hs. lia.
Qed.

Lemma unwritten t w x l : me t w x -> wr w.2 l = None -> e_wr x l = None.
Proof. intros Hx E. pose proof (me_wr _ _ _ Hx l) as Hw. destruct (e_wr x l); [|done]. destruct Hw. congruence. Qed.

(** *** Reading *)
Lemma Safe_cas_read {A} t l cur (k : bool * Z -> prog A) Q w x :
  me t w x -> e_asleep x = false -> e_waker x = None -> e_rd x l + 1 <= max_reads -> 0 <= cur ->
  (forall w2, e_wr x l = None -> inv w2 -> me t w2 {| x with e_rd := <[l := e_rd x l + 1]> (e_rd x) |} ->
     Safe t (k (true, cur)) Q w2) ->
  (forall v w2, (v < UNLOCKED -> e_rd x l = 0) -> inv w2 -> me t w2 x -> Safe t (k (false, v)) Q w2) ->
  Safe t (Bind (state_cas l cur (i32 (cur + READ_INCREMENT))) k) Q w.
Proof.
  intros Hx Es Ek Hm Hc Hk Hk'. eapply Safe_me; [done|]. intros w1 I1 Hx1 ch. simpl.
  set (L := rwlocks w1.1 l). destruct (_ && _) eqn:E.
  2: { exists x. split; [by apply same_step|]. intros w2. apply Hk'. by eapply busy_for_reader. }
  apply andb_prop in E as [E%bool_decide_eq_true _].
  assert (Hw : wr w1.2 l = None) by (apply (not_writing w1 l I1); fold L; lia).
  eexists. split; [|intros w2; by apply Hk, (unwritten t w1)].
  pose proof (inv_state _ I1 l) as Hst. rewrite Hw in Hst. fold L in Hst.
  pose proof (one_more_reader t w1 l I1 (me_live _ _ _ Hx1)) as Hb. rewrite (me_rd _ _ _ Hx1) in Hb. specialize (Hb Hm).
  pose proof (inv_rd _ I1 t l) as Hp. rewrite (me_rd _ _ _ Hx1) in Hp.
  assert (C : rw_change t w1 x l {| L with state_ := i32 (cur + READ_INCREMENT) |} (e_rd x l + 1)
                (wr w1.2 l) (e_reg x l) None).
  { split; simpl; try done; auto.
    - rewrite Hw, wraps_id; unfold READ_INCREMENT in *; [lia|lia|]. unfold in_s. change (32 - 1) with 31. lia.
    - apply (inv_owner _ I1).
    - fold L. lia.
    - lia.
    - rewrite <- (me_reg _ _ _ Hx1). apply (inv_reg _ I1).
    - replace (e_rd x l + 1 - e_rd x l) with 1 by lia. apply watch_more; [done|lia|]. left. by rewrite (me_waker _ _ _ Hx1). }
  eapply rw_step_ext; [eapply rw_step; [done|done|exact C]|..]; try done.
  - intros l'. simpl. at_point l l'; [|done]. by rewrite (wr_as_same t w1 x).
  - intros l'. simpl. by at_point l l'.
Qed.

Lemma Safe_cas_read_unlock {A} t l cur (k : bool * Z -> prog A) Q w x :
  let new := i32 (cur - READ_INCREMENT) in
  me t w x -> e_asleep x = false -> e_waker x = None -> 0 < e_rd x l -> 0 < cur < 2 ^ 31 ->
  (forall w2, inv w2 ->
     me t w2 {| x with e_rd := <[l := e_rd x l - 1]> (e_rd x);
                       e_waker := if new == UNLOCKED then Some l else None |} ->
     Safe t (k (true, cur)) Q w2) ->
  (forall v w2, 0 < v < 2 ^ 31 -> inv w2 -> me t w2 x -> Safe t (k (false, v)) Q w2) ->
  Safe t (Bind (state_cas l cur new) k) Q w.
Proof.
  intros new Hx Es Ek Hp Hc Hk Hk'. eapply Safe_me; [done|]. intros w1 I1 Hx1 ch. simpl.
  set (L := rwlocks w1.1 l). pose proof (own_reads w1 l t I1) as Ho. rewrite (me_rd _ _ _ Hx1) in Ho.
  pose proof (readers_bounds w1 l I1) as Hb.
  assert (Hw : wr w1.2 l = None).
  { destruct (wr w1.2 l) as [u|] eqn:E; [|done]. pose proof (inv_writer _ I1 l u t E) as Hz.
    rewrite (me_rd _ _ _ Hx1) in Hz. lia. }
  pose proof (inv_state _ I1 l) as Hst. rewrite Hw in Hst. fold L in Hst.
  destruct (_ && _) eqn:E.
  2: { exists x. split; [by apply same_step|]. intros w2 I2 Hx2. apply Hk'; [lia|done..]. }
  apply andb_prop in E as [E%bool_decide_eq_true _]. eexists. split; [|apply Hk].
  assert (En : new = cur - 1).
  { unfold new, READ_INCREMENT. apply wraps_id; [lia|]. unfold in_s. change (32 - 1) with 31. lia. }
  assert (C : rw_change t w1 x l {| L with state_ := new |} (e_rd x l - 1)
                (wr w1.2 l) (e_reg x l) (if new == UNLOCKED then Some l else None)).
  { split; simpl; try done; auto.
    - rewrite Hw. lia.
    - apply (inv_owner _ I1).
    - fold L. lia.
    - pose proof (inv_rd _ I1 t l) as Hr. rewrite (me_rd _ _ _ Hx1) in Hr. lia.
    - rewrite <- (me_reg _ _ _ Hx1). apply (inv_reg _ I1).
    - intros u l' Hu. destruct (inv_awake _ I1 u l' Hu) as [Hw'|[[Hr Hp']|[v Hv]]].
      + left. by at_point l l'.
      + destruct (decide (l' = l)) as [->|Hne]; [|right; left; by rewrite fn_lookup_insert_ne].
        rewrite fn_lookup_insert. destruct (bool_decide_reflect (new = UNLOCKED)) as [Ez|Ez].
        * right; right. exists t. by rewrite fn_lookup_insert.
        * right; left. split; [done|]. rewrite fn_lookup_insert. unfold UNLOCKED in Ez. lia.
      + right; right. exists v. rewrite fn_lookup_insert_ne; [done|]. intros ->.
        rewrite (me_waker _ _ _ Hx1) in Hv. congruence. }
  eapply rw_step_ext; [eapply rw_step; [done|done|exact C]|..]; try done.
  - intros l'. simpl. at_point l l'; [|done]. by rewrite (wr_as_same t w1 x).
  - intros l'. simpl. by at_point l l'.
Qed.

(** *** Writing *)
Lemma Safe_cas_write {A} t l (k : bool * Z -> prog A) Q w x :
  me t w x -> e_asleep x = false -> e_waker x = None ->
  (forall w2, e_rd x l = 0 -> e_wr x l = None -> inv w2 -> me t w2 {| x with e_wr := <[l := Some false]> (e_wr x) |} ->
     Safe t (k (true, UNLOCKED)) Q w2) ->
  (forall v w2, inv w2 -> me t w2 x -> Safe t (k (false, v)) Q w2) ->
  Safe t (Bind (state_cas l UNLOCKED WRITE_LOCKED) k) Q w.
Proof.
  intros Hx Es Ek Hk Hk'. eapply Safe_me; [done|]. intros w1 I1 Hx1 ch. simpl.
  set (L := rwlocks w1.1 l). destruct (_ && _) eqn:E; [|exists x; split; [by apply same_step|auto]].
  apply andb_prop in E as [E%bool_decide_eq_true _]. unfold UNLOCKED in E.
  assert (Hw : wr w1.2 l = None) by (apply (not_writing w1 l I1); fold L; lia).
  pose proof (inv_state _ I1 l) as Hst. rewrite Hw in Hst. fold L in Hst. symmetry in Hst. rewrite E in Hst.
  assert (Hm : e_rd x l = 0) by (rewrite <- (me_rd _ _ _ Hx1); by apply no_readers).
  eexists. split; [|intros w2; apply Hk; [done|by apply (unwritten t w1)]].
  assert (C : rw_change t w1 x l {| L with state_ := WRITE_LOCKED |} 0 (Some t) (e_reg x l) None).
  { split; simpl; try done; auto.
    - intros _. split; [done|]. intros v _. by apply no_readers.
    - intros Hn. apply (inv_owner _ I1) in Hn. congruence.
    - fold L. lia.
    - pose proof max_reads_pos. lia.
    - rewrite <- (me_reg _ _ _ Hx1). apply (inv_reg _ I1).
    - intros u l' Hu. destruct (decide (l' = l)) as [->|Hne]; [left; by rewrite fn_lookup_insert|].
      destruct (inv_awake _ I1 u l' Hu) as [Hw'|[[Hr Hp']|[v Hv]]].
      + left. by rewrite fn_lookup_insert_ne.
      + right; left. by rewrite fn_lookup_insert_ne.
      + right; right. exists v. rewrite fn_lookup_insert_ne; [done|]. intros ->.
        rewrite (me_waker _ _ _ Hx1) in Hv. congruence. }
  eapply rw_step_ext; [eapply rw_step; [done|done|exact C]|..]; try done.
  - intros l'. simpl. by at_point l l'.
  - intros l'. simpl. at_point l l'; [|done]. unfold wr_as. rewrite decide_True by done. f_equal. symmetry.
    apply bool_decide_eq_false_2. simpl. intros Et. pose proof (inv_owner _ I1 l) as Ho. fold L in Ho.
    rewrite Et, Hw in Ho. discriminate (Ho (rw_me_id _ _ _ Hx1)).
  - intros l'. simpl. by at_point l l'.
Qed.

Lemma Safe_cas_write_unlock {A} t l (k : bool * Z -> prog A) Q w x :
  me t w x -> e_asleep x = false -> e_waker x = None -> e_wr x l = Some false ->
  (forall w2, inv w2 -> me t w2 {| x with e_wr := <[l := None]> (e_wr x); e_waker := Some l |} ->
     Safe t (k (true, WRITE_LOCKED)) Q w2) ->
  (forall w2, inv w2 -> me t w2 x -> Safe t (k (false, WRITE_LOCKED)) Q w2) ->
  Safe t (Bind (state_cas l WRITE_LOCKED UNLOCKED) k) Q w.
Proof.
  intros Hx Es Ek Ew Hk Hk'. eapply Safe_me; [done|]. intros w1 I1 Hx1 ch. simpl.
  set (L := rwlocks w1.1 l). pose proof (me_wr _ _ _ Hx1 l) as Hw. rewrite Ew in Hw. destruct Hw as [Hw Hn].
  pose proof (inv_state _ I1 l) as Hst. rewrite Hw in Hst. fold L in Hst, Hn. rewrite Hst.
  destruct (_ && _) eqn:E; [|exists x; split; [by apply same_step|auto]].
  eexists. split; [|apply Hk].
  assert (Hz : readers w1.2 l = 0).
  { unfold readers. rewrite (total_ext _ _ (fun _ => 0)) by (intros u _; by eapply (inv_writer _ I1)).
    apply sum_zero. }
  assert (Hr0 : e_rd x l = 0) by (rewrite <- (me_rd _ _ _ Hx1); by eapply (inv_writer _ I1)).
  assert (C : rw_change t w1 x l {| L with state_ := UNLOCKED |} 0 None (e_reg x l) (Some l)).
  { split; simpl; try done; auto.
    - unfold UNLOCKED. lia.
    - fold L. lia.
    - pose proof max_reads_pos. lia.
    - rewrite <- (me_reg _ _ _ Hx1). apply (inv_reg _ I1).
    - intros u l' Hu. destruct (decide (l' = l)) as [->|Hne].
      { right; right. exists t. by rewrite fn_lookup_insert. }
      destruct (inv_awake _ I1 u l' Hu) as [Hw'|[[Hr Hp']|[v Hv]]].
      + left. by rewrite fn_lookup_insert_ne.
      + right; left. by rewrite fn_lookup_insert_ne.
      + right; right. exists v. rewrite fn_lookup_insert_ne; [done|]. intros ->.
        rewrite (me_waker _ _ _ Hx1) in Hv. congruence. }
  eapply rw_step_ext; [eapply rw_step; [done|done|exact C]|..]; try done.
  - intros l'. simpl. by at_point l l'.
  - intros l'. simpl. by at_point l l'.
Qed.
End Rules.
End RWLockInv.
