(* ===== verification/RWLockSafe.v ===== *)
(** The operations of readers-writer locks keep the invariant, and what they leave their caller.

    First the rules of the steps RWLockInv has not: the counter of waiters, the owner's field, going to
    sleep and waking; then one rule per operation. *)
From stdpp Require Import base list functions.
From S2P Require Import Prelude Threads Futex FutexInv RWLock RWLockInv.
Import RWLocks RWLockInv.
Local Open Scope Z_scope.
Local Open Scope ark_scope.
Local Open Scope prog_scope.

Module RWLockSafe.

Section Safe.
Context `{Kernel} `{!KernelOk} `{!ReadLimit}.
Abbreviation world := (Process * Ghost)%type.
Abbreviation Safe := (Safe inv rely (fun _ : Failure => False)).

(** A step that leaves the state and the holders of a lock. *)
Lemma fields_step t w x l L' r' :
  inv w -> me t w x -> e_asleep x = false -> state_ L' = state_ (rwlocks w.1 l) ->
  exclusiveOwner_ L' = exclusiveOwner_ (rwlocks w.1 l) \/
    (wr w.2 l = Some t /\ (exclusiveOwner_ L' = 0 \/ exclusiveOwner_ L' = t)) ->
  waiters_ L' = waiters_ (rwlocks w.1 l) + (r' - e_reg x l) -> 0 <= r' <= 1 ->
  step_ok t w {| (w.1) with rwlocks := <[l := L']> (rwlocks w.1) |}
    {| x with e_wr := <[l := wr_as t L' (wr w.2 l)]> (e_wr x); e_reg := <[l := r']> (e_reg x) |}.
Proof.
  intros I Hx Es Est Eo Ew Hr. pose proof (me_rd _ _ _ Hx l) as Er.
  assert (C : rw_change t w x l L' (e_rd x l) (wr w.2 l) r' (e_waker x)).
  { split; try done.
    - rewrite Est, (inv_state _ I). destruct (wr w.2 l); [done|lia].
    - by left.
    - intros Hw. destruct (wr w.2 l) as [u|] eqn:E; [|done]. rewrite <- Er. split; [|intros v _]; by eapply (inv_writer _ I).
    - intros Hn. destruct Eo as [E|[E [E'|E']]]; [rewrite E in *; by apply (inv_owner _ I)|done|congruence].
    - intros _ Hn. destruct Eo as [E|[E _]]; [done|congruence].
    - rewrite <- Er. apply (inv_rd _ I).
    - rewrite Z.sub_diag. apply watch_more; [done|lia|]. right. apply (me_waker _ _ _ Hx). }
  eapply rw_step_ext; [eapply rw_step; [done|done|exact C]|..]; try done.
  intros l'. simpl. by at_point l l'.
Qed.

Lemma Safe_count {A} t l d f (k : () -> prog A) Q w x :
  me t w x -> e_asleep x = false -> d = 1 \/ d = -1 -> 0 <= e_reg x l + d <= 1 ->
  (forall L, f L = {| L with waiters_ := u32 (waiters_ L + d) |}) ->
  (forall w2, inv w2 -> me t w2 {| x with e_reg := <[l := e_reg x l + d]> (e_reg x) |} ->
     Safe t (k ()) Q w2) ->
  Safe t (Bind (rw_set l f) k) Q w.
Proof.
  intros Hx Es Hd Hr Hf Hk. eapply Safe_me; [done|]. intros w1 I1 Hx1 ch. cbv beta iota. rewrite Hf.
  set (L := rwlocks w1.1 l). eexists. split; [|apply Hk].
  assert (Hw : 0 <= waiters_ L + d < 2 ^ 32).
  { pose proof (waiters_range w1 l I1) as Hb. fold L in Hb. destruct Hd as [->| ->]; [lia|].
    assert (Hp : 0 < total live_threads (fun u => rw_reg w1.2 u l)); [|rewrite <- (inv_waiters _ I1) in Hp; fold L in Hp; lia].
    apply (sum_pos _ _ t); [intros u; apply (inv_reg _ I1)|apply (me_live _ _ _ Hx1)|].
    rewrite (me_reg _ _ _ Hx1). lia. }
  eapply rw_step_ext; [apply (fields_step t w1 x l _ (e_reg x l + d)); [done|done|done|..]|..]; simpl; try done.
  - by left.
  - rewrite (wrapu_id 32) by (unfold in_u; lia). fold L. lia.
  - intros l'. at_point l l'; [|done]. by rewrite (wr_as_same t w1 x).
Qed.

Lemma Safe_rw_IncrementWaiters {A} t l (k : () -> prog A) Q w x :
  me t w x -> e_asleep x = false -> e_reg x l = 0 ->
  (forall w2, inv w2 -> me t w2 {| x with e_reg := <[l := 1]> (e_reg x) |} -> Safe t (k ()) Q w2) ->
  Safe t (Bind (IncrementWaiters l) k) Q w.
Proof.
  intros Hx Es Er Hk. eapply (Safe_count t l 1); [done|done|by left|lia|done|].
  rewrite Er. apply Hk.
Qed.

Lemma Safe_rw_DecrementWaiters {A} t l (k : () -> prog A) Q w x :
  me t w x -> e_asleep x = false -> e_reg x l = 1 ->
  (forall w2, inv w2 -> me t w2 {| x with e_reg := <[l := 0]> (e_reg x) |} -> Safe t (k ()) Q w2) ->
  Safe t (Bind (DecrementWaiters l) k) Q w.
Proof.
  intros Hx Es Er Hk. eapply (Safe_count t l (-1)); [done|done|by right|lia|done|].
  rewrite Er. apply Hk.
Qed.

Lemma Safe_owner_store {A} t l b v (k : () -> prog A) Q w x :
  me t w x -> e_asleep x = false -> e_wr x l = Some b -> v = 0 \/ v = t ->
  (forall w2, inv w2 -> me t w2 {| x with e_wr := <[l := Some (v == t)]> (e_wr x) |} ->
     Safe t (k ()) Q w2) ->
  Safe t (Bind (owner_store l v) k) Q w.
Proof.
  intros Hx Es Ew Hv Hk. eapply Safe_me; [done|]. intros w1 I1 Hx1 ch. eexists. split; [|apply Hk].
  pose proof (me_wr _ _ _ Hx1 l) as Hw. rewrite Ew in Hw. destruct Hw as [Hw Ho].
  eapply rw_step_ext; [apply (fields_step t w1 x l _ (e_reg x l)); [done|done|done|..]|..]; simpl; try done.
  - right. split; [done|]. destruct Hv; auto.
  - lia.
  - rewrite <- (me_reg _ _ _ Hx1). apply (inv_reg _ I1).
  - intros l'. at_point l l'; [|done]. unfold wr_as. by rewrite decide_True.
  - intros l'. by at_point l l'.
Qed.

(** ** Going to sleep and waking *)
Record sleep_change (t : Z) (w : world) (x : Me) (f : Z -> option uaddr) (k : option Z) (wants : bool) : Prop := {
  sc_other : forall u, u <> t -> f u = sleeping w.1 u \/ f u = None;
  sc_me : f t = None \/ exists l, f t = Some (RWAddr l) /\ k = None /\ 0 < e_reg x l /\
    (wr w.2 l <> None \/ (wants = false /\ 0 < readers w.2 l));
  sc_watch : forall u l, u <> t -> f u = Some (RWAddr l) ->
    wr w.2 l <> None \/ (reading w.2 u = false /\ 0 < readers w.2 l) \/
    exists v, <[t := k]> (waker w.2) v = Some l;
}.

Lemma rw_sleep_step t w x f k wants b s' :
  inv w -> me t w x -> sleep_change t w x f k wants -> (b = false -> f t = None) ->
  s' = {| (w.1) with sleeping := f |} ->
  step_ok t w s' {| x with e_waker := k; e_asleep := b |}.
Proof.
  intros I Hx [C1 C2 C3] Hb ->. destruct w as [s g]; simpl in *. pose proof (me_live _ _ _ Hx) as Hl.
  exists {| g with waker := <[t := k]> (waker g); reading := <[t := wants]> (reading g) |}. split_and!.
  - destruct I as [I1 I2 I3 I4 I5 I6 I7 I8 I9]. split; simpl in *; try done.
    + intros u Hu. rewrite fn_lookup_insert_ne by congruence. destruct (I7 u Hu) as (E1 & E2 & E3).
      split_and!; [|done|done]. destruct (C1 u); congruence.
    + intros u a Hu. at_point t u.
      * destruct C2 as [E|(l' & E & -> & Hr & _)]; [congruence|]. split; [done|]. intros l ->.
        assert (l' = l) as -> by congruence. by rewrite (me_reg _ _ _ Hx l : rw_reg g t l = _).
      * apply I8. destruct (C1 u); congruence.
    + intros u l Hu. at_point t u; [|by apply C3]. destruct C2 as [E|(l' & E & -> & Hr & Hw)]; [congruence|].
      assert (l' = l) as -> by congruence. destruct Hw as [?|?]; auto.
  - intros u Hu. split; simpl; rewrite ?(fn_lookup_insert_ne _ t u) by done; auto.
    + intros E. destruct (C1 u Hu); congruence.
    + intros a E. destruct (C1 u Hu); [left; congruence|by right].
  - destruct Hx as [X1 X2 X3 X4 X6 X7 X8]. split; simpl in *; try done. by rewrite fn_lookup_insert.
Qed.

(** A sleeper is counted. *)
Lemma sleeper_counted w u l : inv w -> sleeping w.1 u = Some (RWAddr l) -> 0 < waiters_ (rwlocks w.1 l).
Proof.
  intros I Hu. destruct (inv_asleep _ I u _ Hu) as [_ Hr]. specialize (Hr l eq_refl). rewrite (inv_waiters _ I).
  apply (sum_pos _ _ u); [intros v; apply (inv_reg _ I)| |done].
  destruct (decide (u ∈ live_threads)) as [|Hn]; [done|]. destruct (inv_live _ I u Hn). congruence.
Qed.

(** Once nobody sleeps at the lock, the waker is done. *)
Lemma duty_done t w x l f :
  inv w -> me t w x -> e_asleep x = false -> e_waker x = Some l ->
  (forall u, f u = sleeping w.1 u \/ f u = None) -> (forall u, f u <> Some (RWAddr l)) ->
  sleep_change t w x f None false.
Proof.
  intros I Hx Es Ew Hf Hn. split.
  - intros u _. apply Hf.
  - left. destruct (Hf t) as [E|E]; [|done]. by rewrite E, (me_sleep _ _ _ Hx Es).
  - intros u l' Hu Hfu. destruct (Hf u) as [E|E]; [|congruence]. rewrite E in Hfu.
    destruct (inv_awake _ I u l' Hfu) as [?|[?|[v Hv]]]; [auto..|]. right; right. exists v.
    rewrite fn_lookup_insert_ne; [done|]. intros ->. rewrite (me_waker _ _ _ Hx), Ew in Hv. injection Hv as <-.
    by destruct (Hn u); rewrite E.
Qed.

Lemma Safe_wake_waiters {A} t l (k : () -> prog A) Q w x :
  me t w x -> e_asleep x = false -> e_waker x = Some l ->
  (forall w2, inv w2 -> me t w2 {| x with e_waker := None |} -> Safe t (k ()) Q w2) ->
  Safe t (Bind (wake_waiters l) k) Q w.
Proof.
  intros Hx Es Ew Hk. assert (Hd : forall w2, inv w2 -> me t w2 {| x with e_waker := None; e_asleep := false |} -> Safe t (k ()) Q w2).
  { intros w2 I2 Hx2. apply Hk; [done|]. by eapply rw_me_ext. }
  unfold wake_waiters. seq. eapply Safe_me; [done|]. intros w1 I1 Hx1 ch. cbv beta iota.
  destruct (Z.ltb_spec 0 (waiters_ (rwlocks w1.1 l))) as [Hp|Hp].
  - exists x. split; [by apply same_step|]. clear w Hx w1 I1 Hx1 Hp. intros w I Hx. simpl. seq.
    eapply Safe_me; [done|]. intros w1 I1 Hx1 ch2. cbv beta iota zeta. eexists. split.
    + eapply rw_sleep_step; [done|done| | |done].
      * eapply duty_done; [done|done|done|done|..]; intros u; cbv beta.
        { destruct (bool_decide _); auto. }
        destruct (bool_decide_reflect (u ∈ taken ch2 (RWAddr l) WAKE_ALL w1.1)) as [|Hu]; [done|]. intros E. apply Hu.
        unfold taken. cbv zeta. rewrite take_ge.
        -- rewrite wake_order_perm. unfold sleepers. apply list_elem_of_filter. split; [done|].
           destruct (decide (u ∈ live_threads)) as [|Hl]; [done|]. destruct (inv_live _ I1 u Hl). congruence.
        -- rewrite !wake_order_perm. unfold sleepers. pose proof (length_filter (fun u => sleeping w1.1 u = Some (RWAddr l)) live_threads).
           pose proof live_few. replace WAKE_ALL with (2 ^ 31 - 1) by done. lia.
      * intros _. cbv beta. destruct (bool_decide (t ∈ taken ch2 (RWAddr l) WAKE_ALL w1.1)); [done|]. by apply (me_sleep _ _ _ Hx1).
    + intros w2 I2 Hx2. eapply Safe_bind_ret; [done|]. apply Hd.
  - eexists. split.
    + eapply (rw_sleep_step t w1 x (sleeping w1.1) None); [done|done|..].
      * eapply duty_done; [done|done|done|done|auto|]. intros u E. apply (sleeper_counted w1 u l I1) in E. lia.
      * intros _. by apply (me_sleep _ _ _ Hx1).
      * by destruct (w1.1).
    + intros w2 I2 Hx2. eapply Safe_bind_ret; [done|]. apply Hd.
Qed.
(** A step that leaves what is known, whatever it reads. *)
Lemma Safe_state_load {A} t l (k : Z -> prog A) Q w x :
  me t w x ->
  (forall w1 w2, inv w1 -> me t w1 x -> inv w2 -> me t w2 x -> Safe t (k (state_ (rwlocks w1.1 l))) Q w2) ->
  Safe t (Bind (state_load l) k) Q w.
Proof. intros Hx Hk. by eapply Safe_read. Qed.

Lemma Safe_rw_tid {A} t (k : Z -> prog A) Q w x :
  me t w x -> (forall w2, inv w2 -> me t w2 x -> Safe t (k t) Q w2) -> Safe t (Bind cached_tid k) Q w.
Proof.
  intros Hx Hk. eapply Safe_tid; [apply rw_rely_refl|apply rw_rely_trans|apply rw_me_rely|..|exact Hx|exact Hk].
  - clear Hx. intros t0 w0 x0 Hx. split; [by eapply rw_me_id|]. apply (me_tid _ _ _ Hx).
  - clear Hx. intros t0 w0 x0 I Hx. exists w0.2. split_and!.
    + by destruct I.
    + intros u Hu. split; simpl; try done; auto. by rewrite fn_lookup_insert_ne.
    + destruct Hx as [X1 X2 X3 X4 X6 X7 X8]. split; simpl; try done. right. by rewrite fn_lookup_insert.
Qed.

Lemma Safe_brief {A} t l pred (k : bool -> prog A) Q w x :
  me t w x -> (forall b w2, inv w2 -> me t w2 x -> Safe t (k b) Q w2) ->
  Safe t (Bind (WaitBrieflyFor l pred) k) Q w.
Proof.
  intros Hx Hk. eapply (Safe_bind_loop _ _ _ rw_rely_refl rw_rely_trans t _ (fun _ w => me t w x)); [..|done].
  2: { intros i w0 w1 Hx0 R _. by eapply rw_me_rely. }
  clear w Hx. intros i w Hx. destruct (i <=? MAX_ITER).
  - eapply Safe_state_load; [done|]. intros w1 w2 I1 Hx1 I2 Hx2. eapply Safe_back; [done|].
    intros w3 I3 Hx3. destruct (pred _); [by apply Hk|done].
  - eapply Safe_back; [done|]. intros w3 I3 Hx3. by apply Hk.
Qed.

(** The wait at a lock that is not free for the thread. *)
Lemma Safe_wait {A} t l cur wants (k : futex_result -> prog A) Q w x :
  me t w x -> e_asleep x = false -> e_waker x = None -> 0 < e_reg x l ->
  cur = WRITE_LOCKED \/ (wants = false /\ cur <> UNLOCKED) ->
  (forall r w2, r ∈ [WOKEN; EAGAIN; EINTR] -> inv w2 -> me t w2 x -> Safe t (k r) Q w2) ->
  Safe t (Bind (FUTEX_WAIT (RWAddr l) cur None) k) Q w.
Proof.
  intros Hx Es Ew Hr Hc Hk. unfold FUTEX_WAIT. seq. eapply Safe_me; [done|]. intros w1 I1 Hx1 ch.
  cbv beta. simpl word_at. destruct (bool_decide_reflect (state_ (rwlocks w1.1 l) = cur)) as [E|E].
  - eexists. split.
    { eapply (rw_sleep_step t w1 x _ None wants true); [done|done| |discriminate|reflexivity]. split.
      - intros u Hu. left. by rewrite fn_lookup_insert_ne.
      - right. exists l. rewrite fn_lookup_insert. split_and!; [done..|].
        pose proof (inv_state _ I1 l) as Hst. rewrite E in Hst. destruct (wr w1.2 l) as [u|]; [by left|].
        right. pose proof (readers_bounds w1 l I1). unfold WRITE_LOCKED, UNLOCKED in *. destruct Hc as [->|[? ?]]; [lia|].
        split; [done|lia].
      - intros u l' Hu. rewrite fn_lookup_insert_ne by done. intros Hs.
        destruct (inv_awake _ I1 u l' Hs) as [?|[?|[v Hv]]]; [auto..|]. right; right. exists v.
        rewrite fn_lookup_insert_ne; [done|]. intros ->. rewrite (me_waker _ _ _ Hx1), Ew in Hv. done. }
    clear w Hx w1 I1 Hx1 ch E. intros w I Hx. unfold futex_sleep. eapply Safe_me; [done|].
    intros w1 I1 Hx1 ch. cbv beta.
    assert (Hback : forall f, f = sleeping w1.1 \/ f = <[t := None]> (sleeping w1.1) -> f t = None ->
      step_ok t w1 {| (w1.1) with sleeping := f |}
        {| x with e_waker := None; e_asleep := false |}).
    { intros f Hf Hn. destruct (rw_sleep_step t w1 _ f None wants false {| (w1.1) with sleeping := f |} I1 Hx1)
        as (g' & I' & G & Hx'); [|done|done|].
      - split.
        + intros u Hu. left. destruct Hf as [->| ->]; [done|]. by rewrite fn_lookup_insert_ne.
        + by left.
        + intros u l' Hu Hs. destruct Hf as [->| ->]; [|rewrite fn_lookup_insert_ne in Hs by done];
            destruct (inv_awake _ I1 u l' Hs) as [?|[?|[v Hv]]]; auto; right; right; exists v;
            (rewrite fn_lookup_insert_ne; [done|]; intros ->; rewrite (me_waker _ _ _ Hx1) in Hv; done).
      - exists g'. split_and!; [done..|]. by eapply rw_me_ext. }
    assert (Hgo : forall r w2, r ∈ [WOKEN; EAGAIN; EINTR] -> inv w2 ->
      me t w2 {| x with e_waker := None; e_asleep := false |} -> Safe t (k r) Q w2).
    { intros r w2 Hin I2 Hx2. apply Hk; [done..|]. by eapply rw_me_ext. }
    destruct (sleeping w1.1 t) eqn:Et.
    + destruct (ch <? 0); [|done]. eexists. split; [apply Hback; [by right|by rewrite fn_lookup_insert]|].
      intros w2 I2 Hx2. apply Hgo; [by apply (bool_decide_unpack _)|done..].
    + eexists. split; [|intros w2 I2 Hx2; apply Hgo; [by apply (bool_decide_unpack _)|done..]].
      specialize (Hback _ (or_introl eq_refl) Et). by destruct (w1.1).
  - exists x. split; [by apply same_step|]. intros w2 I2 Hx2. eapply Safe_bind_ret; [done|].
    intros w3 I3 Hx3. apply Hk; [by apply (bool_decide_unpack _)|done..].
Qed.

Lemma Safe_futex_while {A} t l busy cur wants (k : () -> prog A) Q w x :
  me t w x -> e_asleep x = false -> e_waker x = None -> 0 < e_reg x l ->
  (forall v, busy v = true -> v = WRITE_LOCKED \/ (wants = false /\ v <> UNLOCKED)) ->
  (forall w2, inv w2 -> me t w2 x -> Safe t (k ()) Q w2) ->
  Safe t (Bind (futex_while l busy cur) k) Q w.
Proof.
  intros Hx Es Ew Hr Hb Hk. eapply (Safe_bind_loop _ _ _ rw_rely_refl rw_rely_trans t _ (fun _ w => me t w x)); [..|done].
  2: { intros i w0 w1 Hx0 R _. by eapply rw_me_rely. }
  clear w Hx. intros v w Hx. destruct (busy v) eqn:E; [|eapply Safe_back; [done|]; auto].
  eapply (Safe_wait t l v wants); [done..|auto|]. intros r w2 Hin I2 Hx2.
  rewrite bool_decide_eq_true_2 by done. eapply Safe_bind_ret; [done|]. intros w3 I3 Hx3.
  eapply Safe_state_load; [done|]. intros w4 w5 I4 Hx4 I5 Hx5. eapply Safe_back; [done|]. auto.
Qed.

(** Counted, asleep while the lock is busy, not counted any more. *)
Lemma Safe_counted_wait {A} t l busy cur wants (k : () -> prog A) Q w x :
  me t w x -> e_asleep x = false -> e_waker x = None -> e_reg x l = 0 ->
  (forall v, busy v = true -> v = WRITE_LOCKED \/ (wants = false /\ v <> UNLOCKED)) ->
  (forall w2, inv w2 -> me t w2 x -> Safe t (k ()) Q w2) ->
  Safe t (Bind (IncrementWaiters l;; futex_while l busy cur;; DecrementWaiters l) k) Q w.
Proof.
  intros Hx Es Ew Hr Hb Hk. seq. eapply Safe_rw_IncrementWaiters; [done..|]. clear w Hx. intros w I Hx. seq.
  eapply (Safe_futex_while t l busy cur wants); [done|done|done|simpl; rewrite fn_lookup_insert; lia|done|].
  clear w I Hx. intros w I Hx. eapply Safe_rw_DecrementWaiters; [done|done|simpl; by rewrite fn_lookup_insert|].
  intros w2 I2 Hx2. apply Hk; [done|]. eapply rw_me_ext; [done|..]; try done. intros l'. simpl. by at_point l l'.
Qed.

(** ** The operations *)
(** Awake, with nobody to wake, not counted. *)
Definition calm (x : Me) (l : Z) : Prop := e_asleep x = false /\ e_waker x = None /\ e_reg x l = 0.

(** The assertion at the end of a read lock. *)
Lemma Safe_no_holder {A} t l (k : () -> prog A) Q w x :
  me t w x -> 0 < e_rd x l -> (forall w2, inv w2 -> me t w2 x -> Safe t (k ()) Q w2) ->
  Safe t (Bind (HasExclusiveHolder l) (fun h => Bind (Assert (negb h)) k)) Q w.
Proof.
  intros Hx Hp Hk. unfold HasExclusiveHolder. seq. eapply Safe_read; [done|]. intros w1 w2 I1 Hx1 I2 Hx2.
  rewrite (reader_no_owner t w1 x l) by done. eapply Safe_bind_ret; [done|]. intros w3 I3 Hx3.
  by eapply rw_Safe_Assert.
Qed.

Definition read_locked (x : Me) (l : Z) : Me := {| x with e_rd := <[l := e_rd x l + 1]> (e_rd x) |}.

Lemma read_locked_pos t w x l : inv w -> me t w x -> 0 < e_rd (read_locked x l) l.
Proof.
  intros I Hx. simpl. rewrite fn_lookup_insert, <- (me_rd _ _ _ Hx). pose proof (inv_rd _ I t l). lia.
Qed.

Lemma Safe_ReadLock t l {A} (k : () -> prog A) Q w x :
  me t w x -> calm x l -> e_rd x l + 1 <= max_reads ->
  (forall w2, e_wr x l = None -> inv w2 -> me t w2 (read_locked x l) -> Safe t (k ()) Q w2) ->
  Safe t (Bind (ReadLock l) k) Q w.
Proof.
  intros Hx (Es & Ew & Er) Hm Hk. assert (Hend : forall w2, e_wr x l = None -> inv w2 -> 0 < e_rd (read_locked x l) l -> me t w2 (read_locked x l) ->
    Safe t (Bind (h ← HasExclusiveHolder l; Assert (negb h)) k) Q w2).
  { intros w2 Hn I2 Hp Hx2. seq. eapply Safe_no_holder; [done..|]. auto. }
  unfold ReadLock. seq.
  eapply (Safe_bind_loop _ _ _ rw_rely_refl rw_rely_trans t _ (fun _ w => me t w x)); [..|done].
  2: { intros i w0 w1 Hx0 R _. by eapply rw_me_rely. }
  clear w Hx. intros _ w Hx. eapply Safe_state_load; [done|]. intros w1 w2 I1 Hx1 I2 Hx2.
  set (cur := state_ _). destruct (Z.leb_spec UNLOCKED cur) as [Hc|Hc].
  - eapply Safe_cas_read; [done..| |].
    + intros w3 Hn I3 Hx3. eapply Safe_back; [done|]. intros w4 I4 Hx4. apply Hend; [done|done| |done].
      by eapply (read_locked_pos t w2).
    + intros v w3 _ I3 Hx3. by eapply Safe_back.
  - unfold HandleReadLockWait. seq. eapply Safe_brief; [done|]. intros b w3 I3 Hx3. destruct b; simpl.
    + eapply Safe_bind_ret; [done|]. intros w4 I4 Hx4. by eapply Safe_back.
    + eapply (Safe_counted_wait t l _ cur true); [done..| |].
      * intros v ->%bool_decide_eq_true. by left.
      * intros w4 I4 Hx4. by eapply Safe_back.
Qed.

Lemma Safe_TryReadLock t l {A} (k : bool -> prog A) Q w x :
  me t w x -> calm x l -> e_rd x l + 1 <= max_reads ->
  (forall w2, e_wr x l = None -> inv w2 -> me t w2 (read_locked x l) -> Safe t (k true) Q w2) ->
  (forall w2, e_rd x l = 0 -> inv w2 -> me t w2 x -> Safe t (k false) Q w2) ->
  Safe t (Bind (TryReadLock l) k) Q w.
Proof.
  intros Hx (Es & Ew & Er) Hm Hk Hk'. unfold TryReadLock. seq. eapply Safe_state_load; [done|].
  intros w1 w2 I1 Hx1 I2 Hx2. pose proof (busy_for_reader t w1 x l I1 Hx1) as Hbusy. pose proof (read_locked_pos t w2 x l I2 Hx2) as Hp. seq.
  eapply (Safe_bind_loop _ _ _ rw_rely_refl rw_rely_trans t _ (fun cur w => me t w x /\ (cur < UNLOCKED -> e_rd x l = 0))); [..|done].
  2: { intros i w3 w4 [Hx0 ?] R _. split; [by eapply rw_me_rely|done]. }
  clear w Hx w1 w2 I1 Hx1 I2 Hx2 Hbusy. intros cur w [Hx Hbusy]. destruct (Z.leb_spec UNLOCKED cur) as [Hc|Hc].
  - eapply Safe_cas_read; [done..| |].
    + intros w3 Hn I3 Hx3. eapply Safe_back; [done|]. intros w4 I4 Hx4. simpl. seq.
      unfold HasExclusiveHolder. seq. eapply Safe_read; [done|]. intros w5 w6 I5 Hx5 I6 Hx6.
      rewrite (reader_no_owner t w5 (read_locked x l) l) by done. eapply Safe_bind_ret; [done|]. intros w7 I7 Hx7.
      seq. eapply rw_Safe_Assert; [done|done|]. intros w8 I8 Hx8. eapply Safe_bind_ret; [done|]. auto.
    + intros v w3 Hv I3 Hx3. by eapply Safe_back.
  - eapply Safe_back; [done|]. intros w3 I3 Hx3. simpl. eapply Safe_bind_ret; [done|]. auto.
Qed.
Definition write_as (x : Me) (l : Z) (b : option bool) : Me := {| x with e_wr := <[l := b]> (e_wr x) |}.

Lemma Safe_write_locked {A} t l (k : () -> prog A) Q w x :
  me t w (write_as x l (Some false)) -> e_asleep x = false ->
  (forall w2, inv w2 -> me t w2 (write_as x l (Some true)) -> Safe t (k ()) Q w2) ->
  Safe t (Bind (write_locked l t) k) Q w.
Proof.
  intros Hx Es Hk. assert (Ew : e_wr (write_as x l (Some false)) l = Some false) by (simpl; by rewrite fn_lookup_insert).
  unfold write_locked. seq. eapply Safe_state_load; [done|]. intros w1 w2 I1 Hx1 I2 Hx2.
  rewrite (writer_state t w1 _ l false) by done. seq. eapply rw_Safe_Assert; [done|done|]. intros w3 I3 Hx3. seq.
  eapply Safe_read; [done|]. intros w4 w5 I4 Hx4 I5 Hx5. rewrite (writer_owner t w4 _ l false) by done.
  seq. eapply rw_Safe_Assert; [done|done|]. intros w6 I6 Hx6.
  eapply Safe_owner_store; [done|done|exact Ew|by right|]. intros w7 I7 Hx7. apply Hk; [done|].
  eapply rw_me_ext; [done|..]; try done. intros l'. simpl. rewrite bool_decide_eq_true_2 by done. by at_point l l'.
Qed.

Lemma Safe_WriteLock {A} t l (k : () -> prog A) Q w x :
  me t w x -> calm x l ->
  (forall w2, e_rd x l = 0 -> e_wr x l = None -> inv w2 -> me t w2 (write_as x l (Some true)) -> Safe t (k ()) Q w2) ->
  Safe t (Bind (WriteLock l) k) Q w.
Proof.
  intros Hx (Es & Ew & Er) Hk. unfold WriteLock. seq. eapply Safe_rw_tid; [done|]. clear w Hx. intros w I Hx. seq.
  eapply (Safe_bind_loop _ _ _ rw_rely_refl rw_rely_trans t _ (fun _ w => me t w x)); [..|done].
  2: { intros i w0 w1 Hx0 R _. by eapply rw_me_rely. }
  clear w I Hx. intros _ w Hx. eapply Safe_state_load; [done|]. intros w1 w2 _ _ I2 Hx2.
  set (cur := state_ _). destruct (bool_decide_reflect (cur = UNLOCKED)) as [Hc|Hc].
  - rewrite Hc. eapply Safe_cas_write; [done..| |].
    + intros w3 Hz Hn I3 Hx3. eapply Safe_back; [done|]. intros w4 I4 Hx4. eapply Safe_write_locked; [done..|]. auto.
    + intros v w3 I3 Hx3. by eapply Safe_back.
  - eapply Safe_brief; [done|]. intros b w3 I3 Hx3. destruct b; simpl.
    + eapply Safe_bind_ret; [done|]. intros w4 I4 Hx4. by eapply Safe_back.
    + eapply (Safe_counted_wait t l _ cur false); [done..| |].
      * intros v Hv%negb_true_iff%bool_decide_eq_false. by right.
      * intros w4 I4 Hx4. by eapply Safe_back.
Qed.

Lemma Safe_TryWriteLock {A} t l (k : bool -> prog A) Q w x :
  me t w x -> calm x l ->
  (forall w2, e_rd x l = 0 -> e_wr x l = None -> inv w2 -> me t w2 (write_as x l (Some true)) -> Safe t (k true) Q w2) ->
  (forall w2, inv w2 -> me t w2 x -> Safe t (k false) Q w2) ->
  Safe t (Bind (TryWriteLock l) k) Q w.
Proof.
  intros Hx (Es & Ew & Er) Hk Hk'. unfold TryWriteLock. seq. eapply Safe_rw_tid; [done|]. clear w Hx. intros w I Hx.
  seq. eapply Safe_state_load; [done|]. intros w1 w2 _ _ I2 Hx2. seq.
  eapply (Safe_bind_loop _ _ _ rw_rely_refl rw_rely_trans t _ (fun _ w => me t w x)); [..|done].
  2: { intros i w3 w4 Hx0 R _. by eapply rw_me_rely. }
  clear w I Hx w1 w2 I2 Hx2. intros cur w Hx. destruct (bool_decide_reflect (cur = UNLOCKED)) as [->|Hc].
  - eapply Safe_cas_write; [done..| |].
    + intros w3 Hz Hn I3 Hx3. eapply Safe_back; [done|]. intros w4 I4 Hx4. simpl. seq.
      eapply Safe_write_locked; [done..|]. intros w5 I5 Hx5. eapply Safe_bind_ret; [done|]. auto.
    + intros v w3 I3 Hx3. by eapply Safe_back.
  - eapply Safe_back; [done|]. intros w3 I3 Hx3. simpl. by eapply Safe_bind_ret.
Qed.

Definition read_unlocked (x : Me) (l : Z) : Me := {| x with e_rd := <[l := e_rd x l - 1]> (e_rd x) |}.

Lemma Safe_ReadUnlock {A} t l (k : () -> prog A) Q w x :
  me t w x -> calm x l -> 0 < e_rd x l ->
  (forall w2, inv w2 -> me t w2 (read_unlocked x l) -> Safe t (k ()) Q w2) ->
  Safe t (Bind (ReadUnlock l) k) Q w.
Proof.
  intros Hx (Es & Ew & Er) Hp Hk. unfold ReadUnlock. seq.
  unfold HasExclusiveHolder. seq. eapply Safe_read; [done|].
  intros w1 w2 I1 Hx1 I2 Hx2. rewrite (reader_no_owner t w1 x l) by done. eapply Safe_bind_ret; [done|].
  intros w3 I3 Hx3. seq. eapply rw_Safe_Assert; [done|done|]. intros w4 I4 Hx4. seq.
  eapply Safe_state_load; [done|]. intros w5 w6 I5 Hx5 I6 Hx6. pose proof (reader_state t w5 x l I5 Hx5 Hp) as Hst.
  eapply (Safe_bind_loop _ _ _ rw_rely_refl rw_rely_trans t _ (fun cur w => me t w x /\ 0 < cur < 2 ^ 31)); [..|done].
  2: { intros i w7 w8 [Hx0 ?] R _. split; [by eapply rw_me_rely|done]. }
  clear - H H0 H1 Es Ew Er Hp Hk. intros cur w [Hx Hc]. rewrite (proj2 (Z.ltb_lt _ _)) by lia. cbv zeta.
  eapply Safe_cas_read_unlock; [done..| |].
  - intros w2 I2 Hx2. cbn [fst].
    destruct (bool_decide_reflect (i32 (cur - READ_INCREMENT) = UNLOCKED)).
    + eapply Safe_wake_waiters; [done..|]. intros w3 I3 Hx3. eapply Safe_back; [done|]. intros w4 I4 Hx4.
      apply Hk; [done|]. by eapply rw_me_ext.
    + eapply Safe_bind_ret; [done|]. intros w3 I3 Hx3. eapply Safe_back; [done|]. intros w4 I4 Hx4.
      apply Hk; [done|]. by eapply rw_me_ext.
  - intros v w2 Hv I2 Hx2. by eapply Safe_back.
Qed.

Lemma Safe_WriteUnlock {A} t l (k : () -> prog A) Q w x :
  me t w x -> calm x l -> e_wr x l = Some true ->
  (forall w2, inv w2 -> me t w2 (write_as x l None) -> Safe t (k ()) Q w2) ->
  Safe t (Bind (WriteUnlock l) k) Q w.
Proof.
  intros Hx (Es & Ew & Er) Hw Hk. unfold WriteUnlock. seq. eapply Safe_rw_tid; [done|]. clear w Hx. intros w I Hx. seq.
  unfold IsExclusiveHeld. seq. eapply Safe_read; [done|]. intros w1 w2 I1 Hx1 I2 Hx2.
  rewrite (writer_owner t w1 x l true) by done. eapply Safe_bind_ret; [done|]. intros w3 I3 Hx3. seq.
  eapply rw_Safe_Assert; [done|by apply bool_decide_eq_true_2|]. intros w4 I4 Hx4. seq.
  eapply Safe_state_load; [done|]. intros w5 w6 I5 Hx5 I6 Hx6. rewrite (writer_state t w5 x l true) by done.
  eapply (Safe_bind_loop _ _ _ rw_rely_refl rw_rely_trans t _
    (fun cur w => cur = WRITE_LOCKED /\ exists b, me t w (write_as x l (Some b)))); [..|].
  2: { intros i w7 w8 (? & b & Hx0) R _. split; [done|]. exists b. by eapply rw_me_rely. }
  2: { split; [done|]. exists true. eapply rw_me_ext; [exact Hx6|..]; try done. intros l'. simpl. by at_point l l'. }
  clear - H H0 H1 Es Ew Er Hk. intros cur w (-> & b & Hx). simpl.
  eapply Safe_owner_store; [done|done|simpl; by rewrite fn_lookup_insert|by left|].
  intros w1 I1 Hx1. pose proof (rw_me_id _ _ _ Hx1) as Hn. rewrite (bool_decide_eq_false_2 (0 = t)) in Hx1 by congruence.
  eapply Safe_cas_write_unlock; [done|done|done|simpl; by rewrite fn_lookup_insert|..].
  - intros w2 I2 Hx2. cbn [fst]. eapply Safe_wake_waiters; [done..|]. intros w3 I3 Hx3.
    eapply Safe_back; [done|]. intros w4 I4 Hx4. apply Hk; [done|]. eapply rw_me_ext; [done|..]; try done.
    intros l'. simpl. by at_point l l'.
  - intros w2 I2 Hx2. eapply Safe_back; [done|]. intros w3 I3 Hx3. split; [done|]. exists false.
    eapply rw_me_ext; [done|..]; try done. intros l'. simpl. by at_point l l'.
Qed.

(** [Unlock] finds out which kind of lock its caller has. *)
Lemma Safe_rw_Unlock {A} t l (k : () -> prog A) Q w x :
  me t w x -> calm x l -> 0 < e_rd x l \/ e_wr x l = Some true ->
  (0 < e_rd x l -> forall w2, inv w2 -> me t w2 (read_unlocked x l) -> Safe t (k ()) Q w2) ->
  (e_wr x l = Some true -> forall w2, inv w2 -> me t w2 (write_as x l None) -> Safe t (k ()) Q w2) ->
  Safe t (Bind (Unlock l) k) Q w.
Proof.
  intros Hx Hc Hh Hk Hk'. unfold Unlock. seq. unfold HasExclusiveHolder. seq. eapply Safe_read; [done|].
  intros w1 w2 I1 Hx1 I2 Hx2. eapply Safe_bind_ret; [done|]. intros w3 I3 Hx3. destruct Hh as [Hp|Hw].
  - rewrite (reader_no_owner t w1 x l) by done. eapply Safe_ReadUnlock; [done..|]. auto.
  - rewrite (writer_owner t w1 x l true) by done. rewrite bool_decide_eq_false_2 by by eapply rw_me_id.
    eapply Safe_WriteUnlock; [done..|]. auto.
Qed.
End Safe.
End RWLockSafe.
