(* ===== verification/RWLockSystem.v ===== *)
(** Threads that use readers-writer locks.

    Threads call the operations of [RWLock] in any interleaving, also a lock they already have.  A client keeps a
    [Ledger]: how often it reads under each lock and which ones it writes under.  [spec] is the contract: a read lock
    is got only by a thread that does not write, and a try for one fails only for a thread that does not read;
    a write lock is got only by a thread that has nothing; an unlock gives back what there is.  In every reachable
    configuration the locks agree with the ledgers: a writer excludes everybody else; nothing stops
    the process; and a thread does not sleep at a free lock unless somebody else is on the way to wake it. *)
From stdpp Require Import base list functions relations.
From S2P Require Import Prelude Threads Futex FutexInv RWLock RWLockInv RWLockSafe.
Import RWLocks RWLockInv RWLockSafe.
Local Open Scope Z_scope.
Local Open Scope ark_scope.
Local Open Scope prog_scope.

Module RWLockSystem.

Inductive op :=
| OpReadLock (l : Z)
| OpTryReadLock (l : Z)
| OpWriteLock (l : Z)
| OpTryWriteLock (l : Z)
| OpUnlock (l : Z).

Inductive answer := AVoid | ABool (b : bool).

Record Ledger := mkLedger { reads : Z -> Z; writes : Z -> bool }.

Abbreviation config := (@Threads.config Z Process Failure op answer (option Ledger)).

Section System.
Context `{Kernel} `{!KernelOk} `{!ReadLimit}.

(** ** The specification *)
Definition reads_more (g : Ledger) (l d : Z) : Ledger := {| g with reads := <[l := reads g l + d]> (reads g) |}.
Definition sets_write (g : Ledger) (l : Z) (b : bool) : Ledger := {| g with writes := <[l := b]> (writes g) |}.

Definition spec (p : op) (a : answer) (g : Ledger) : option Ledger :=
  match p, a with
  | OpReadLock l, AVoid | OpTryReadLock l, ABool true =>
      if writes g l then None else Some (reads_more g l 1)
  | OpTryReadLock l, ABool false => if decide (reads g l = 0) then Some g else None
  | OpWriteLock l, AVoid | OpTryWriteLock l, ABool true =>
      if writes g l || negb (reads g l == 0) then None else Some (sets_write g l true)
  | OpTryWriteLock l, ABool false => Some g
  | OpUnlock l, AVoid =>
      if writes g l then Some (sets_write g l false)
      else if 0 <? reads g l then Some (reads_more g l (-1)) else None
  | _, _ => None
  end.

Definition code (t : Z) (p : op) : prog answer :=
  match p with
  | OpReadLock l => ReadLock l;; Ret AVoid
  | OpTryReadLock l => b ← TryReadLock l; Ret (ABool b)
  | OpWriteLock l => WriteLock l;; Ret AVoid
  | OpTryWriteLock l => b ← TryWriteLock l; Ret (ABool b)
  | OpUnlock l => Unlock l;; Ret AVoid
  end.

(** The discipline of the clients: only who has a lock unlocks it, and nobody has more read locks than
    the state can count. *)
Definition allowed (p : op) (g : Ledger) : Prop :=
  match p with
  | OpReadLock l | OpTryReadLock l => reads g l + 1 <= max_reads
  | OpWriteLock _ | OpTryWriteLock _ => True
  | OpUnlock l => 0 < reads g l \/ writes g l = true
  end.

Definition may_call (t : Z) (g : option Ledger) (p : op) : Prop :=
  exists g', g = Some g' /\ allowed p g' /\ t ∈ live_threads.

Definition after (t : Z) (p : op) (a : answer) (g : option Ledger) : option Ledger :=
  match g with Some g => spec p a g | None => None end.

Definition system_step : config -> config -> Prop := cstep code may_call after.

(** ** Between two calls *)
Record idle (x : Me) (g : Ledger) : Prop := {
  id_asleep : e_asleep x = false;
  id_waker : e_waker x = None;
  id_reg : forall l, e_reg x l = 0;
  id_reads : forall l, e_rd x l = reads g l;
  id_writes : forall l, e_wr x l = if writes g l then Some true else None;
}.

Definition idle_ok (t : Z) (g : option Ledger) (w : Process * Ghost) : Prop :=
  exists g', g = Some g' /\ (t ∈ live_threads -> exists x, me t w x /\ idle x g').

Lemma rw_idle_ok_rely t g w w' : idle_ok t g w -> rely t w w' -> inv w' -> idle_ok t g w'.
Proof.
  intros (g' & -> & Hg) R _. exists g'. split; [done|]. intros Ht. destruct (Hg Ht) as (x & Hx & Hi).
  exists x. split; [by eapply rw_me_rely|done].
Qed.

Lemma idle_calm x g l : idle x g -> calm x l.
Proof. intros Hi. split_and!; apply Hi. Qed.

Lemma idle_reads_more x g l d :
  idle x g -> idle {| x with e_rd := <[l := e_rd x l + d]> (e_rd x) |} (reads_more g l d).
Proof.
  intros [D1 D2 D3 D4 D5]. split; simpl; try done. intros l'. at_point l l'; by rewrite D4.
Qed.

Lemma idle_sets_write x g l b :
  idle x g -> idle (write_as x l (if (b : bool) then Some true else None)) (sets_write g l b).
Proof. intros [D1 D2 D3 D4 D5]. split; simpl; try done. intros l'. by at_point l l'. Qed.

Abbreviation Safe := (Safe inv rely (fun _ : Failure => False)).

Lemma rw_finish t p a g g' x w :
  me t w x -> spec p a g = Some g' -> idle x g' ->
  Safe t (Ret a) (fun a => idle_ok t (after t p a (Some g))) w.
Proof.
  intros Hx E Hi. eapply Safe_back; [done|]. intros w1 I1 Hx1. exists g'. split; [done|]. eauto.
Qed.

Lemma not_writes x g l : idle x g -> e_wr x l = None -> writes g l = false.
Proof. intros Hi. rewrite (id_writes _ _ Hi). by destruct (writes g l). Qed.

Lemma rw_code_safe t g p w :
  idle_ok t g w -> may_call t g p -> inv w ->
  Safe t (code t p) (fun a => idle_ok t (after t p a g)) w.
Proof.
  intros (g' & -> & Hg) (g0 & [= <-] & Ha & Ht) I. destruct (Hg Ht) as (x & Hx & Hi). clear Hg I.
  destruct p; cbn [code allowed] in *; rewrite <- ?(id_reads _ _ Hi) in Ha.
  - eapply Safe_ReadLock; [done|by eapply idle_calm|done|]. intros w1 Hn I1 Hx1.
    eapply rw_finish; [done| |by apply idle_reads_more]. simpl. by rewrite (not_writes x).
  - eapply Safe_TryReadLock; [done|by eapply idle_calm|done|..].
    + intros w1 Hn I1 Hx1. eapply rw_finish; [done| |by apply idle_reads_more]. simpl. by rewrite (not_writes x).
    + intros w1 Hz I1 Hx1. rewrite (id_reads _ _ Hi) in Hz. eapply rw_finish; [done| |exact Hi]. simpl.
      by rewrite decide_True.
  - eapply Safe_WriteLock; [done|by eapply idle_calm|]. intros w1 Hz Hn I1 Hx1.
    eapply rw_finish; [done| |by apply (idle_sets_write x g' l true)]. simpl.
    rewrite (not_writes x) by done. by rewrite <- (id_reads _ _ Hi), Hz.
  - eapply Safe_TryWriteLock; [done|by eapply idle_calm|..].
    + intros w1 Hz Hn I1 Hx1. eapply rw_finish; [done| |by apply (idle_sets_write x g' l true)]. simpl.
      rewrite (not_writes x) by done. by rewrite <- (id_reads _ _ Hi), Hz.
    + intros w1 I1 Hx1. by eapply rw_finish.
  - eapply Safe_inv; [apply rw_rely_refl|]. intros w1 R I1. pose proof (rw_me_rely _ _ _ _ Hx R) as Hx1.
    pose proof (fun b E => proj1 (writer_reads t w1 x l b I1 Hx1 E)) as Hz.
    eapply Safe_rw_Unlock; [done|by eapply idle_calm| |..].
    + destruct Ha as [Ha|Ha]; [by left|right]. by rewrite (id_writes _ _ Hi), Ha.
    + intros Hp w2 I2 Hx2. eapply rw_finish; [done| |by apply (idle_reads_more x g' l (-1))]. simpl.
      rewrite (not_writes x); [|done|destruct (e_wr x l) as [b|]; [specialize (Hz b eq_refl); lia|done]].
      rewrite (id_reads _ _ Hi) in Hp. by rewrite (proj2 (Z.ltb_lt _ _)).
    + intros Hw w2 I2 Hx2. eapply rw_finish; [done| |by apply (idle_sets_write x g' l false)]. simpl.
      rewrite (id_writes _ _ Hi) in Hw. by destruct (writes g' l).
Qed.

(** ** The start *)
Record initial_process (s : Process) : Prop := {
  in_rwlocks : forall l, rwlocks s l = {| state_ := UNLOCKED; exclusiveOwner_ := 0; waiters_ := 0 |};
  in_sleeping : forall t, sleeping s t = None;
  in_tids : forall t, current_tid s t = 0;
}.

Definition ledger0 : Ledger := {| reads := fun _ => 0; writes := fun _ => false |}.

Definition start (s : Process) : config :=
  {| shared := s; local := fun _ => Some ledger0; state_of := fun _ => Idle |}.

Definition ghost0 : Ghost :=
  {| rd := fun _ _ => 0; wr := fun _ => None; rw_reg := fun _ _ => 0; reading := fun _ => false;
     waker := fun _ => None |}.

Lemma rw_initial_inv s : initial_process s -> inv (s, ghost0).
Proof.
  intros [E1 E2 E3]. pose proof max_reads_pos. unfold ghost0.
  split; simpl; intros; unfold readers; simpl; rewrite ?E1, ?E2, ?sum_zero in *; simpl; try done; lia.
Qed.

Lemma rw_initial_ok s t : initial_process s -> idle_ok t (Some ledger0) (s, ghost0).
Proof.
  intros [E1 E2 E3]. eexists. split; [done|]. intros Ht.
  exists {| e_rd := fun _ => 0; e_wr := fun _ => None; e_reg := fun _ => 0; e_waker := None; e_asleep := false |}.
  split; split; simpl; auto; done.
Qed.

(** ** Only sleepers wait *)
Lemma responsive_futex_while l busy cur : responsive awaits (futex_while l busy cur).
Proof.
  pose proof responsive_wait. unfold futex_while, state_load, rw_get, halt. respond; auto.
Qed.

Lemma rw_responsive_code t p : responsive awaits (code t p).
Proof.
  pose proof responsive_futex_while. pose proof responsive_tid.
  destruct p; cbn [code]; unfold ReadLock, TryReadLock, WriteLock, TryWriteLock, Unlock, ReadUnlock, WriteUnlock,
    HandleReadLockWait, WaitBrieflyFor, wake_waiters, write_locked, FUTEX_WAKE, HasExclusiveHolder, IsExclusiveHeld,
    IncrementWaiters, DecrementWaiters, owner_store, state_load, state_cas, Assert, halt, rw_get, rw_set; respond; auto.
Qed.

(** ** Reachable configurations *)
Section Reachable.
Context (s : Process) (c : config).
Context (Hinit : initial_process s) (Hreach : rtc system_step (start s) c).

Lemma rw_reachable_facts :
  (exists g, inv (shared c, g) /\
     forall t, state_of c t = Idle -> idle_ok t (local c t) (shared c, g)) /\
  forall f, ~ faulty c f.
Proof.
  apply (system_safe code may_call after inv rely (fun _ => False) rw_rely_refl rw_rely_trans
           idle_ok rw_idle_ok_rely rw_code_safe (start s) c ghost0); [done|..|done].
  - by apply rw_initial_inv.
  - intros t. by apply rw_initial_ok.
Qed.
End Reachable.

(** What the locks show of an idle client's ledger. *)
Lemma rw_ledger_agrees w t g l :
  inv w -> idle_ok t (Some g) w -> t ∈ live_threads ->
  rd w.2 t l = reads g l /\ (writes g l = true <-> wr w.2 l = Some t) /\
  (writes g l = true <-> exclusiveOwner_ (rwlocks w.1 l) = t) /\ rw_reg w.2 t l = 0 /\ waker w.2 t = None.
Proof.
  intros I (g' & [= <-] & Hg) Ht. destruct (Hg Ht) as (x & Hx & Hi). pose proof (me_wr _ _ _ Hx l) as Hw.
  rewrite (id_writes _ _ Hi) in Hw. rewrite (me_rd _ _ _ Hx), (me_reg _ _ _ Hx), (me_waker _ _ _ Hx), (id_reads _ _ Hi),
    (id_reg _ _ Hi), (id_waker _ _ Hi). destruct (writes g l); [by destruct Hw|]. split_and!; try done.
  split; [done|]. intros E. destruct Hw. rewrite (inv_owner _ I), E; [done|]. rewrite E. by eapply rw_me_id.
Qed.

(** C9: A writer excludes everybody.  In every reachable configuration, of two threads that are between
    two calls, one that writes under a lock and another one that reads or writes under it do not exist together. *)
Theorem rw_excludes s c t u l gt gu :
  initial_process s -> rtc system_step (start s) c ->
  t ∈ live_threads -> u ∈ live_threads -> t <> u ->
  state_of c t = Idle -> state_of c u = Idle -> local c t = Some gt -> local c u = Some gu ->
  ~ (writes gt l = true /\ (writes gu l = true \/ 0 < reads gu l)).
Proof.
  intros Hi Hr Ht Hu Hne It Iu Et Eu [Hw Hh]. destruct (rw_reachable_facts s c Hi Hr) as [(g & I & Hok) _].
  pose proof (Hok t It) as Ot. pose proof (Hok u Iu) as Ou. rewrite Et in Ot. rewrite Eu in Ou.
  destruct (rw_ledger_agrees _ t gt l I Ot Ht) as (_ & Hwt & _).
  destruct (rw_ledger_agrees _ u gu l I Ou Hu) as (Hru & Hwu & _). apply Hwt in Hw.
  pose proof (inv_writer _ I l t u Hw) as Hz. destruct Hh as [Hh|Hh]; [apply Hwu in Hh; congruence|lia].
Qed.

(** C10: The functions on readers-writer locks implement their contract.  When every thread is between two
    calls, every client has a ledger, so that no answer was one [spec] forbids, and the fields of every lock are those
    of the ledgers: nobody waits, the owner is the thread that writes, and the state is -1 when there is one
    and the sum of the read locks of all threads otherwise. *)
Theorem rw_refines_spec s c :
  initial_process s -> rtc system_step (start s) c ->
  (forall t, t ∈ live_threads -> state_of c t = Idle) ->
  exists L : Z -> Ledger, (forall t, t ∈ live_threads -> local c t = Some (L t)) /\
    forall l, waiters_ (rwlocks (shared c) l) = 0 /\
      (forall t, t ∈ live_threads -> writes (L t) l = true <-> exclusiveOwner_ (rwlocks (shared c) l) = t) /\
      state_ (rwlocks (shared c) l) =
        if existsb (fun t => writes (L t) l) live_threads then WRITE_LOCKED
        else total live_threads (fun t => reads (L t) l).
Proof.
  intros Hi Hr Hidle. destruct (rw_reachable_facts s c Hi Hr) as [(g & I & Hok) _].
  assert (Hlive : forall t l, wr g l = Some t -> t ∈ live_threads).
  { intros t l Ht. destruct (decide (t ∈ live_threads)) as [|Hn]; [done|].
    destruct (inv_live _ I t Hn) as (_ & _ & Hz). by destruct (Hz l). }
  exists (fun t => default ledger0 (local c t)).
  assert (Hl : forall t, t ∈ live_threads -> local c t = Some (default ledger0 (local c t))).
  { intros t Ht. by destruct (Hok t (Hidle t Ht)) as (g' & -> & _). }
  assert (Ha : forall t l, t ∈ live_threads -> _) by
    (intros t l Ht; pose proof (Hok t (Hidle t Ht)) as Ot; rewrite (Hl t Ht) in Ot; exact (rw_ledger_agrees _ t _ l I Ot Ht)).
  cbv beta in Ha. split; [done|]. intros l. split_and!.
  - rewrite (inv_waiters _ I), (total_ext _ _ (fun _ => 0)); [apply sum_zero|]. intros t Ht. apply (Ha t l Ht).
  - intros t Ht. apply (Ha t l Ht).
  - rewrite (inv_state _ I). destruct (existsb _ _) eqn:E.
    + apply existsb_exists in E as (t & Ht & Hw). apply list_elem_of_In in Ht.
      destruct (Ha t l Ht) as (_ & Hwt & _). apply Hwt in Hw. simpl in *. by rewrite Hw.
    + simpl. destruct (wr g l) as [t|] eqn:Ew.
      * assert (Ht : t ∈ live_threads) by by eapply Hlive. destruct (Ha t l Ht) as (_ & Hwt & _). apply Hwt in Ew.
        destruct (not_true_iff_false (existsb (fun t => writes (default ledger0 (local c t)) l) live_threads)) as [_ Hf].
        destruct (Hf E). apply existsb_exists. exists t. by rewrite <- list_elem_of_In.
      * apply total_ext. intros t Ht. apply (Ha t l Ht).
Qed.

(** C35: No reachable configuration is about to stop the process: the assertions hold, no error of the
    system call and no bad unlock is reported, when the clients keep to the discipline. *)
Theorem rw_no_fault s c f :
  initial_process s -> rtc system_step (start s) c -> ~ faulty c f.
Proof. intros Hi Hr. apply (proj2 (rw_reachable_facts s c Hi Hr)). Qed.

(** C34: No wake-up is lost.  When a thread sleeps at a lock that is free, another thread is awake in a call and
    can take its next step whatever happens. *)
Theorem rw_no_lost_wakeup s c u l :
  initial_process s -> rtc system_step (start s) c -> sleeping (shared c) u = Some (RWAddr l) ->
  state_ (rwlocks (shared c) l) = UNLOCKED -> exists t, t <> u /\ can_run c t.
Proof.
  intros Hi Hr Hu Hfree. destruct (rw_reachable_facts s c Hi Hr) as [(g & I & Hok) Hf].
  pose proof (awake_can_run code may_call after (start s) c rw_responsive_code (fun _ => eq_refl) Hr Hf) as Hrun.
  pose proof (inv_state _ I l) as Hst. simpl in Hst. rewrite Hfree in Hst.
  destruct (inv_awake _ I u l Hu) as [Hw|[[_ Hp]|[v Hv]]]; simpl in *.
  - by destruct (wr g l).
  - destruct (wr g l); [done|]. unfold UNLOCKED in Hst. lia.
  - assert (Ha : forall a, sleeping (shared c) v <> Some a).
    { intros a E. destruct (inv_asleep _ I v a E) as [Hn _]. simpl in Hn. congruence. }
    exists v. split; [intros ->; by apply Ha in Hu|].
    destruct (state_of c v) as [|p q] eqn:Eq.
    + destruct (Hok v Eq) as (g' & Eg & Hg).
      destruct (decide (v ∈ live_threads)) as [Hl|Hl].
      * destruct (rw_ledger_agrees _ v g' l I (ex_intro _ g' (conj eq_refl Hg)) Hl) as (_ & _ & _ & _ & Hn). simpl in Hn. congruence.
      * destruct (inv_live _ I v Hl) as (_ & Hn & _). simpl in Hn. congruence.
    + eapply Hrun; [done|]. destruct (sleeping (shared c) v) as [a|]; [by destruct (Ha a)|done].
Qed.

#[export] Instance rw_may_call_dec t g p : Decision (may_call t g p).
Proof.
  destruct g as [g|]; [|right; by intros (? & ? & _)].
  assert (Ha : Decision (allowed p g)) by (destruct p; simpl; apply _).
  destruct Ha as [Ha|Ha]; [|right; by intros (? & [= <-] & ? & _)].
  destruct (decide (t ∈ live_threads)); [left; by exists g|right; by intros (? & _ & _ & ?)].
Defined.
Definition exec := exec code may_call after.
End System.

(** ** A run

    Thread 1 writes; thread 2 wants to read and goes to sleep; thread 1 unlocks and has set the lock free, but
    has not woken thread 2 yet; then it does, and thread 2 reads. *)
Module Scenario.
#[local] Instance kernel : Kernel :=
  {| live_threads := [1; 2]; wake_order := fun ch l => if ch <? 0 then rev l else l |}.

Lemma rw_kernel_ok : KernelOk.
Proof.
  split.
  - apply (bool_decide_unpack _). by vm_compute.
  - apply (bool_decide_unpack _). by vm_compute.
  - by vm_compute.
  - intros ch l. simpl. destruct (ch <? 0); [|done]. symmetry. apply Permutation_rev.
Qed.

#[local] Instance read_limit : ReadLimit.
Proof. refine {| max_reads := 1000; max_reads_pos := eq_refl; max_reads_few := eq_refl |}. Defined.

Definition process0 : Process :=
  {| mutexes := fun m => {| stateAndWaiters := 0; exclusiveOwner := 0; recursiveCount := 0; recursiveMutex := false |};
     conds := fun _ => {| mutexPtr := None; cond := 0; waiters := 0 |};
     rwlocks := fun _ => {| state_ := 0; exclusiveOwner_ := 0; waiters_ := 0 |};
     current_tid := fun _ => 0; sleeping := fun _ => None; g_deadlockFlag := false |}.

Lemma rw_process0_initial : initial_process process0.
Proof. by split. Qed.

Definition whole (t : Z) (p : op) (n : nat) : list (event Z op) :=
  Call t p :: repeat (Run t 0) n ++ [Return t].

(** The unlock stops before [wake_waiters]. *)
Definition waking : config :=
  exec (whole 1 (OpWriteLock 7) 40 ++ (Call 2 (OpReadLock 7) :: repeat (Run 2 0) 240) ++
        (Call 1 (OpUnlock 7) :: repeat (Run 1 0) 17)) (start process0).

Definition reading_on : config :=
  exec (repeat (Run 1 0) 20 ++ [Return 1] ++ repeat (Run 2 0) 60 ++ [Return 2] ++ whole 1 (OpTryWriteLock 7) 40) waking.

Lemma waking_reachable : rtc system_step (start process0) waking.
Proof. apply exec_steps. Qed.
Lemma reading_on_reachable : rtc system_step (start process0) reading_on.
Proof. etrans; [apply waking_reachable|apply exec_steps]. Qed.

Definition rw_ledger (c : config) (t : Z) : Ledger := default ledger0 (local c t).

Lemma rw_ledger_has (c : config) t : bool_decide (is_Some (local c t)) = true -> local c t = Some (rw_ledger c t).
Proof. intros [g E]%bool_decide_eq_true. unfold rw_ledger. by rewrite E. Qed.

(** Thread 1 writes; thread 2 tries to read and fails. *)
Definition writing : config := exec (whole 1 (OpWriteLock 7) 40 ++ whole 2 (OpTryReadLock 7) 40) (start process0).

Lemma writing_reachable : rtc system_step (start process0) writing.
Proof. apply exec_steps. Qed.

Lemma rw_excludes_witness : writes (rw_ledger writing 1) 7 = true /\ ~ 0 < reads (rw_ledger writing 2) 7.
Proof.
  assert (Hw : writes (rw_ledger writing 1) 7 = true) by by vm_compute. split; [done|]. intros Hp.
  apply (@rw_excludes kernel rw_kernel_ok read_limit process0 writing 1 2 7 (rw_ledger writing 1) (rw_ledger writing 2)
           rw_process0_initial writing_reachable).
  - by left.
  - right. by left.
  - done.
  - apply is_idle_true. by vm_compute.
  - apply is_idle_true. by vm_compute.
  - apply rw_ledger_has. by vm_compute.
  - apply rw_ledger_has. by vm_compute.
  - split; [exact Hw|by right].
Defined.

Lemma rw_refines_spec_witness :
  state_ (rwlocks (shared reading_on) 7) = 1 /\
  exists L : Z -> Ledger, local reading_on 2 = Some (L 2) /\
    1 = if existsb (fun t => writes (L t) 7) live_threads then WRITE_LOCKED
        else total live_threads (fun t => reads (L t) 7).
Proof.
  assert (E : state_ (rwlocks (shared reading_on) 7) = 1) by by vm_compute. split; [done|].
  destruct (@rw_refines_spec kernel rw_kernel_ok read_limit process0 reading_on rw_process0_initial reading_on_reachable)
    as (L & Hl & HL).
  - intros t Ht. apply is_idle_true. simpl in Ht. apply elem_of_cons in Ht as [->|Ht]; [by vm_compute|].
    apply list_elem_of_singleton in Ht as ->. by vm_compute.
  - exists L. split; [apply Hl; right; by left|]. destruct (HL 7) as (_ & _ & Hs). rewrite E in Hs. exact Hs.
Defined.

Lemma rw_no_fault_witness : ~ faulty reading_on ASSERT_FAILED.
Proof.
  exact (@rw_no_fault kernel rw_kernel_ok read_limit process0 reading_on ASSERT_FAILED rw_process0_initial
           reading_on_reachable).
Defined.

Lemma rw_no_lost_wakeup_witness : sleeping (shared waking) 2 = Some (RWAddr 7) /\ exists t, t <> 2 /\ can_run waking t.
Proof.
  assert (E : sleeping (shared waking) 2 = Some (RWAddr 7)) by by vm_compute. split; [exact E|].
  apply (@rw_no_lost_wakeup kernel rw_kernel_ok read_limit process0 waking 2 7 rw_process0_initial waking_reachable E).
  by vm_compute.
Defined.
End Scenario.
End RWLockSystem.
