(* ===== verification/BytecodeEmitter.v ===== *)
(** The byte code emitter: libpandafile/bytecode_emitter.h and bytecode_emitter.cpp, with the reading of
    operands of bytecode_instruction-inl.h.

    The code is a list of bytes.  A label is an index into the list of positions; the iterators of the source
    stay valid when the list grows in front, the indices when it grows behind.  [std::map] is a list sorted by key,
    [std::multiset] a list sorted by position.

    What the build generates from the instruction tables is the class [Isa]: the offsets of the operands of an
    instruction, which instructions are jumps, and how jumps are widened and reverted.  [UNREACHABLE] and accesses outside
    the code give [Crash]. *)
From S2P Require Import Prelude Leb128 DynChunk.
Import Chunk Leb128.
Local Open Scope ark_scope.

Module BytecodeEmitter.

Inductive BitImmSize := BITSIZE_4 | BITSIZE_8 | BITSIZE_16 | BITSIZE_32.
#[export] Instance BitImmSize_eq_dec : EqDecision BitImmSize.
Proof. solve_decision. Defined.

(** The value of the enumerator, by which sizes are compared, and the number of bits. *)
Definition enumerator (s : BitImmSize) : Z :=
  match s with BITSIZE_4 => 0 | BITSIZE_8 => 1 | BITSIZE_16 => 2 | BITSIZE_32 => 3 end.
Definition bits (s : BitImmSize) : Z :=
  match s with BITSIZE_4 => 4 | BITSIZE_8 => 8 | BITSIZE_16 => 16 | BITSIZE_32 => 32 end.

Inductive ErrorCode := SUCCESS | INTERNAL_ERROR | UNBOUND_LABELS.

Definition GetBitLengthUnsigned (val : Z) : BitImmSize :=
  let bitlen := MinimumBitsToStore 32 val in
  if bitlen <=? 4 then BITSIZE_4
  else if bitlen <=? 8 then BITSIZE_8
  else BITSIZE_16.

Definition GetBitLengthSigned (val : Z) : BitImmSize :=
  if (-8 <=? val) && (val <=? 7) then BITSIZE_4
  else if (INT8_MIN <=? val) && (val <=? INT8_MAX) then BITSIZE_8
  else if (INT16_MIN <=? val) && (val <=? INT16_MAX) then BITSIZE_16
  else BITSIZE_32.

(** ** Writing and reading operands *)

(** One operand is written between the first two of the offsets, which are counted in bits. *)
Definition emit_operand (buf : list Z) (offset next arg : Z) : outcome (list Z) :=
  let bitlen := next - offset in
  let byteOffset := Z.to_nat (offset / 8) in
  let bitOffset := offset mod 8 in
  if bitlen == 4 then
    b ← read buf byteOffset;
    write buf byteOffset (Z.lor b (u8 (Z.shiftl (Z.land (u8 arg) 15) bitOffset)))
  else if bitlen == 8 then store buf byteOffset (bytes_of 1 (u8 arg))
  else if bitlen == 16 then store buf byteOffset (bytes_of 2 (u16 arg))
  else if bitlen == 32 then store buf byteOffset (bytes_of 4 (u32 arg))
  else if bitlen == 64 then store buf byteOffset (bytes_of 8 (u64 arg))
  else Crash.

Fixpoint EmitImpl (buf : list Z) (offsets args : list Z) : outcome (list Z) :=
  match args with
  | [] => Done buf
  | arg :: args =>
      match offsets with
      | offset :: (next :: _) as offsets' =>
          buf ← emit_operand buf offset next arg; EmitImpl buf offsets' args
      | _ => Crash
      end
  end.

(** [w] bits at the bit [offset], [n] being the width of the type that is read. *)
Definition ReadHelper (n : Z) (pc : list Z) (byteoffset bytecount : nat) (offset width : Z) : outcome Z :=
  l ← load pc byteoffset bytecount;
  let v := Z.shiftr (of_bytes l) (offset mod 8) in
  let leftShift := n - width in
  Done (Z.shiftr (wraps n (Z.shiftl v leftShift)) leftShift).

Definition Read64 (pc : list Z) (offset width : Z) : outcome Z :=
  let byteoffset := offset / 8 in
  let byteoffsetEnd := (offset + width + 8 - 1) / 8 in
  ReadHelper 64 pc (Z.to_nat byteoffset) (Z.to_nat (byteoffsetEnd - byteoffset)) offset width.

(** [helpers::TypeHelperT]: the width of the least integer type. *)
Definition TypeHelper (width : Z) : Z :=
  if width <=? 8 then 8 else if width <=? 16 then 16 else if width <=? 32 then 32 else 64.

Definition Read (pc : list Z) (offset width : Z) : outcome Z :=
  let byteoffset := offset / 8 in
  let byteoffsetEnd := (offset + width + 8 - 1) / 8 in
  ReadHelper (TypeHelper width) pc (Z.to_nat byteoffset) (Z.to_nat (byteoffsetEnd - byteoffset)) offset width.

(** ** The generated tables *)
Class Isa := {
  (** The least opcode that is a prefix. *)
  MinPrefixOpcodeIndex : Z;
  (** The offsets of the opcode, of the operands and of the end, in bits. *)
  OFF : Z -> outcome (list Z);
  is_jump : Z -> bool;
  RevertConditionCode : Z -> outcome Z;
  GetLongestJump : Z -> outcome Z;
  GetSuitableJump : Z -> BitImmSize -> outcome Z;
  JMP_IMM32 : Z;
  LAST : Z;
}.

(** *** Labels *)
Abbreviation Label := nat.

Record BytecodeEmitter := mkEmitter {
  pc_ : Z;
  branches_ : list (Z * Label);
  targets_ : list Label;
  pcList_ : list Z;
  bytecode_ : list Z;
}.

Definition new_emitter : BytecodeEmitter := mkEmitter 0 [] [] [] [].

Definition GetPc (pcs : list Z) (l : Label) : Z := default 0 (pcs !! l).

(** [std::map::insert]: a key that is there keeps its value. *)
Fixpoint map_insert (k : Z) (v : Label) (m : list (Z * Label)) : list (Z * Label) :=
  match m with
  | [] => [(k, v)]
  | (k', v') :: m' => if k <? k' then (k, v) :: m else if k == k' then m else (k', v') :: map_insert k v m'
  end.

(** [std::map::lower_bound]: the entries from the first key on that is not less. *)
Fixpoint map_lower_bound (k : Z) (m : list (Z * Label)) : list (Z * Label) :=
  match m with
  | [] => []
  | (k', v') :: m' => if k' <? k then map_lower_bound k m' else m
  end.

(** [std::multiset]: insertion behind the equal elements, [find], and the split at [upper_bound]. *)
Fixpoint set_insert (pcs : list Z) (l : Label) (s : list Label) : list Label :=
  match s with
  | [] => [l]
  | l' :: s' => if GetPc pcs l <? GetPc pcs l' then l :: s else l' :: set_insert pcs l s'
  end.

Fixpoint set_find (pcs : list Z) (l : Label) (s : list Label) : bool :=
  match s with
  | [] => false
  | l' :: s' => if GetPc pcs l' <? GetPc pcs l then set_find pcs l s' else negb (GetPc pcs l <? GetPc pcs l')
  end.

Fixpoint set_upper_bound (pcs : list Z) (pc : Z) (s : list Label) : list Label * list Label :=
  match s with
  | [] => ([], [])
  | l' :: s' =>
      if pc <? GetPc pcs l' then ([], s)
      else let '(lo, hi) := set_upper_bound pcs pc s' in (l' :: lo, hi)
  end.

Definition CreateLabel (e : BytecodeEmitter) : BytecodeEmitter * Label :=
  ({| e with pcList_ := pcList_ e ++ [0] |}, length (pcList_ e)).

Definition Bind (e : BytecodeEmitter) (label : Label) : BytecodeEmitter :=
  let pcs := <[label := pc_ e]> (pcList_ e) in
  {| e with pcList_ := pcs; targets_ := set_insert pcs label (targets_ e) |}.

Definition UpdateLabelTargets (e : BytecodeEmitter) (pc bias : Z) : BytecodeEmitter :=
  let '(kept, updatedLabels) := set_upper_bound (pcList_ e) pc (targets_ e) in
  let pcs := foldl (fun pcs l => <[l := u32 (GetPc pcs l + bias)]> pcs) (pcList_ e) updatedLabels in
  {| e with pcList_ := pcs; targets_ := foldl (fun s l => set_insert pcs l s) kept updatedLabels |}.

Definition CheckLabels (e : BytecodeEmitter) : ErrorCode :=
  if forallb (fun b => set_find (pcList_ e) (snd b) (targets_ e)) (branches_ e) then SUCCESS else UNBOUND_LABELS.

Section Emitter.
Context `{Isa}.

Definition IsPrefixed (opcode : Z) : bool := MinPrefixOpcodeIndex <=? u8 opcode.

(** The opcode of the instruction at the beginning of the bytes. *)
Definition GetOpcode (pc : list Z) : outcome Z :=
  primary ← read pc 0;
  if MinPrefixOpcodeIndex <=? primary then
    secondary ← read pc 1; Done (Z.lor (Z.shiftl secondary 8) primary)
  else Done primary.

Definition last_offset (offsets : list Z) : Z := List.last offsets 0.
Definition GetSizeByOpcode (opcode : Z) : outcome Z := off ← OFF opcode; Done (last_offset off / 8).

(** The offsets of the immediate of a jump, its last operand. *)
Definition branch_offsets (opcode : Z) : outcome (list Z) :=
  if is_jump opcode then off ← OFF opcode; Done (drop (length off - 2) off) else Crash.

Definition GetBitImmSizeByOpcode (opcode : Z) : outcome BitImmSize :=
  off ← branch_offsets opcode;
  match off with
  | [o; e] => if e - o == 4 then Done BITSIZE_4 else if e - o == 8 then Done BITSIZE_8
              else if e - o == 16 then Done BITSIZE_16 else if e - o == 32 then Done BITSIZE_32 else Crash
  | _ => Crash
  end.

(** The bytes of an instruction. *)
Definition Emit (opcode : Z) (args : list Z) : outcome (list Z) :=
  off ← OFF opcode; EmitImpl (replicate (Z.to_nat (last_offset off / 8)) 0) off (opcode :: args).

Definition UpdateBranchOffs (bytecode : list Z) (insn offs : Z) : outcome (list Z) :=
  opcode ← GetOpcode (drop (Z.to_nat insn) bytecode);
  off ← branch_offsets opcode;
  size ← GetSizeByOpcode opcode;
  bytes ← load bytecode (Z.to_nat insn) (Z.to_nat size);
  bytes ← EmitImpl bytes off [offs];
  store bytecode (Z.to_nat insn) bytes.

(** The immediate of the jump at the beginning of the bytes, as the interpreter reads it and as tools do. *)
Definition GetImm (pc : list Z) : outcome Z :=
  opcode ← GetOpcode pc;
  off ← branch_offsets opcode;
  match off with [o; e] => Read pc o (e - o) | _ => Crash end.

Definition GetImm64 (pc : list Z) : outcome Z :=
  opcode ← GetOpcode pc;
  off ← branch_offsets opcode;
  match off with [o; e] => Read64 pc o (e - o) | _ => Crash end.

(** *** The generated methods: one that emits a jump, the others. *)
Definition emit_bytes (e : BytecodeEmitter) (bytes : list Z) : BytecodeEmitter :=
  {| e with pc_ := u32 (pc_ e + Z.of_nat (length bytes)); bytecode_ := bytecode_ e ++ bytes |}.

Definition emit_jump (e : BytecodeEmitter) (opcode : Z) (args : list Z) (label : Label) : outcome BytecodeEmitter :=
  let e := {| e with branches_ := map_insert (pc_ e) label (branches_ e) |} in
  bytes ← Emit opcode (args ++ [0]);
  Done (emit_bytes e bytes).

(** *** Build *)
Fixpoint max_growth (bytecode : list Z) (bias endPc : Z) (it : list (Z * Label)) (distance : Z) : outcome Z :=
  match it with
  | [] => Done distance
  | (first, _) :: it =>
      if first <? endPc then
        opcode ← GetOpcode (drop (Z.to_nat (u32 (first + bias))) bytecode);
        longestOp ← GetLongestJump opcode;
        longest ← GetSizeByOpcode longestOp;
        size ← GetSizeByOpcode opcode;
        max_growth bytecode bias endPc it (i32 (distance + i32 (longest - size)))
      else Done distance
  end.

Definition EstimateMaxDistance (e : BytecodeEmitter) (insnPc targetPc bias : Z) : outcome Z :=
  if insnPc <? targetPc then
    max_growth (bytecode_ e) bias (u32 (targetPc - bias)) (map_lower_bound (u32 (insnPc - bias)) (branches_ e))
      (i32 (u32 (targetPc - insnPc)))
  else if targetPc <? insnPc then
    max_growth (bytecode_ e) bias (u32 (insnPc - bias)) (map_lower_bound (u32 (targetPc - bias)) (branches_ e))
      (i32 (u32 (targetPc - insnPc)))
  else Done 0.

(** [n] zeros inserted at [pos]. *)
Definition insert_zeros (bytecode : list Z) (pos n : Z) : outcome (list Z) :=
  if pos <=? Z.of_nat (length bytecode)
  then Done (take (Z.to_nat pos) bytecode ++ replicate (Z.to_nat n) 0 ++ drop (Z.to_nat pos) bytecode)
  else Crash.

(** The opcode of the instruction at [pc] is replaced. *)
Definition emit_opcode (bytecode : list Z) (pc opcode : Z) : outcome (list Z) :=
  bytes ← (if IsPrefixed opcode then EmitImpl [0; 0] [0; 16] [opcode] else EmitImpl [0] [0; 8] [opcode]);
  store bytecode (Z.to_nat pc) bytes.

(** The code, the number of bytes it has grown by, and where the branch is now. *)
Definition DoReserveSpaceForOffset (bytecode : list Z) (insnPc : Z) (expectedImmSize : BitImmSize) :
    outcome (list Z * Z * Z) :=
  opcode ← GetOpcode (drop (Z.to_nat insnPc) bytecode);
  insnSize ← GetSizeByOpcode opcode;
  updOp ← GetSuitableJump opcode expectedImmSize;
  if updOp != LAST then
    size ← GetSizeByOpcode updOp;
    bytecode ← insert_zeros bytecode (insnPc + insnSize) (size - insnSize);
    bytecode ← emit_opcode bytecode insnPc updOp;
    Done (bytecode, size - insnSize, insnPc)
  else
    size ← GetSizeByOpcode JMP_IMM32;
    bytecode ← insert_zeros bytecode (insnPc + insnSize) size;
    updOp ← RevertConditionCode opcode;
    if updOp == LAST then Crash else
    bytecode ← UpdateBranchOffs bytecode insnPc (i32 (insnSize + size));
    jmp ← Emit JMP_IMM32 [0];
    bytecode ← store bytecode (Z.to_nat (insnPc + insnSize)) jmp;
    bytecode ← emit_opcode bytecode insnPc updOp;
    Done (bytecode, size, u32 (insnPc + insnSize)).

Fixpoint ReserveSpaceForOffsets_loop (branches : list (Z * Label)) (e : BytecodeEmitter) (bias : Z)
    (newBranches : list (Z * Label)) : outcome BytecodeEmitter :=
  match branches with
  | [] => Done {| e with branches_ := newBranches |}
  | (first, label) :: rest =>
      let e := {| e with branches_ := branches |} in
      let insnPc := u32 (first + bias) in
      opcode ← GetOpcode (drop (Z.to_nat insnPc) (bytecode_ e));
      encodedImmSize ← GetBitImmSizeByOpcode opcode;
      distance ← EstimateMaxDistance e insnPc (GetPc (pcList_ e) label) bias;
      let realImmSize := GetBitLengthSigned distance in
      r ← (if enumerator encodedImmSize <? enumerator realImmSize
           then DoReserveSpaceForOffset (bytecode_ e) insnPc realImmSize
           else Done (bytecode_ e, 0, insnPc));
      let '(bytecode, extraBytes, newTarget) := r in
      let newBranches := map_insert newTarget label newBranches in
      let e := {| e with bytecode_ := bytecode |} in
      if 0 <? extraBytes
      then ReserveSpaceForOffsets_loop rest (UpdateLabelTargets e insnPc extraBytes) (u32 (bias + extraBytes)) newBranches
      else ReserveSpaceForOffsets_loop rest e bias newBranches
  end.

Definition ReserveSpaceForOffsets (e : BytecodeEmitter) : outcome BytecodeEmitter :=
  ReserveSpaceForOffsets_loop (branches_ e) e 0 [].

Fixpoint UpdateBranches_loop (branches : list (Z * Label)) (pcs bytecode : list Z) : outcome (list Z) :=
  match branches with
  | [] => Done bytecode
  | (insnPc, label) :: rest =>
      let offset := i32 (i32 (GetPc pcs label) - i32 insnPc) in
      bytecode ← UpdateBranchOffs bytecode insnPc offset;
      UpdateBranches_loop rest pcs bytecode
  end.

Definition UpdateBranches (e : BytecodeEmitter) : outcome BytecodeEmitter :=
  bytecode ← UpdateBranches_loop (branches_ e) (pcList_ e) (bytecode_ e); Done {| e with bytecode_ := bytecode |}.

Definition Build (e : BytecodeEmitter) : outcome (ErrorCode * option (list Z)) :=
  match CheckLabels e with
  | SUCCESS =>
      e ← ReserveSpaceForOffsets e;
      e ← UpdateBranches e;
      Done (SUCCESS, Some (bytecode_ e))
  | err => Done (err, None)
  end.
End Emitter.
End BytecodeEmitter.
