(* ===== verification/BytecodeEncode.v ===== *)
(** Instructions of the byte code as bytes: what [Emit] writes, [GetOpcode] and [GetImm64] read, and what widening a
    jump does to them.

    [IsaOk] says what the emitter needs of the generated tables: where the immediate of a jump is, that a wider
    jump of the same kind has the same operands, and that a jump without a wide form has an inverse. *)
From S2P Require Import Prelude Leb128 DynChunk BytecodeEmitter.
Import Chunk BytecodeEmitter.
Local Open Scope ark_scope.

(** ** Bytes of truncated integers *)
Lemma bytes_of_wrapu (k : nat) (x : Z) : bytes_of k (wrapu (8 * Z.of_nat k) x) = bytes_of k x.
Proof.
  unfold wrapu. revert x. induction k as [|k IH]; intros x; [done|]. cbn [bytes_of].
  assert (E : 2 ^ (8 * Z.of_nat (S k)) = 256 * 2 ^ (8 * Z.of_nat k)).
  { replace (8 * Z.of_nat (S k)) with (8 + 8 * Z.of_nat k) by lia. by rewrite Z.pow_add_r by lia. }
  rewrite E. pose proof (pow2_pos (8 * Z.of_nat k) ltac:(lia)). f_equal.
  - rewrite Z.rem_mul_r by lia. rewrite Z.mul_comm, Z.mod_add by lia. by rewrite Z.mod_mod by lia.
  - rewrite Z.rem_mul_r by lia. rewrite Z.mul_comm, Z.div_add by lia.
    rewrite (Z.div_small (x mod 256)) by (apply Z.mod_pos_bound; lia). apply IH.
Qed.

Lemma of_bytes_of (k : nat) (x : Z) : of_bytes (bytes_of k x) = wrapu (8 * Z.of_nat k) x.
Proof.
  rewrite <- bytes_of_wrapu, of_bytes_bytes_of; [done|].
  replace 256 with (2 ^ 8) by done. rewrite <- Z.pow_mul_r by lia. apply wrapu_range. lia.
Qed.

(** Reading a field of [8 * k] bits gives the value that was written, as a signed number of this width. *)
Lemma read_extends (n w x : Z) :
  0 < w <= n -> Z.shiftr (wraps n (Z.shiftl (wrapu w x) (n - w))) (n - w) = wraps w x.
Proof.
  intros Hw. rewrite Z.shiftl_mul_pow2, Z.shiftr_div_pow2 by lia. unfold wraps, wrapu.
  assert (E : 2 ^ n = 2 ^ w * 2 ^ (n - w)) by (rewrite <- Z.pow_add_r by lia; f_equal; lia).
  assert (E1 : 2 ^ (n - 1) = 2 ^ (w - 1) * 2 ^ (n - w)) by (rewrite <- Z.pow_add_r by lia; f_equal; lia).
  pose proof (pow2_pos (n - w) ltac:(lia)). rewrite E, E1, <- Z.mul_add_distr_r, Z.mul_mod_distr_r by
    (pose proof (pow2_pos w); lia).
  rewrite <- Z.mul_sub_distr_r, Z.div_mul by lia. by rewrite Zplus_mod_idemp_l.
Qed.

Lemma replicate_split {A} (n k : nat) (x : A) : (k <= n)%nat -> replicate n x = replicate k x ++ replicate (n - k) x.
Proof. intros. rewrite <- replicate_add. f_equal. lia. Qed.

(** ** Writing operands *)
Lemma emit_operand_frame (a buf c b : list Z) (o o' v : Z) :
  0 <= o -> emit_operand buf o o' v = Done b ->
  emit_operand (a ++ buf ++ c) (8 * Z.of_nat (length a) + o) (8 * Z.of_nat (length a) + o') v = Done (a ++ b ++ c) /\
  length b = length buf.
Proof.
  intros Ho. unfold emit_operand.
  replace (8 * Z.of_nat (length a) + o' - (8 * Z.of_nat (length a) + o)) with (o' - o) by lia.
  replace ((8 * Z.of_nat (length a) + o) / 8) with (Z.of_nat (length a) + o / 8)
    by (rewrite (Z.mul_comm 8), Z.div_add_l by lia; done).
  replace ((8 * Z.of_nat (length a) + o) mod 8) with (o mod 8) by (rewrite Z.add_comm, (Z.mul_comm 8), Z.mod_add by lia; done).
  assert (0 <= o / 8) by (apply Z.div_pos; lia). rewrite Z2Nat.inj_add, Nat2Z.id by lia.
  set (i := Z.to_nat (o / 8)).
  assert (Hstore : forall d, store buf i d = Done b ->
    store (a ++ buf ++ c) (length a + i) d = Done (a ++ b ++ c) /\ length b = length buf).
  { intros d Hs. split; [|by eapply store_length]. unfold store in *.
    destruct (Nat.leb_spec (i + length d) (length buf)); [|done]. injection Hs as <-.
    rewrite !length_app, (proj2 (Nat.leb_le _ _)) by lia. f_equal.
    rewrite take_app_ge by lia. rewrite <- !(assoc_L (++)). f_equal.
    replace (length a + i - length a)%nat with i by lia. rewrite take_app_le by lia. f_equal. f_equal.
    rewrite drop_app_ge by lia. replace (length a + i + length d - length a)%nat with (i + length d)%nat by lia.
    by rewrite drop_app_le by lia. }
  repeat match goal with |- context [if bool_decide ?P then _ else _] => destruct (decide P); [rewrite (bool_decide_eq_true_2 P) by done|rewrite (bool_decide_eq_false_2 P) by done] end; try done; auto.
  unfold read, write. destruct (buf !! i) as [x|] eqn:E; [|done]. simpl. pose proof (lookup_lt_Some _ _ _ E) as Hi.
  rewrite (proj2 (Nat.ltb_lt i (length buf))) by done. intros [= <-].
  rewrite lookup_app_r by lia. replace (length a + i - length a)%nat with i by lia. rewrite lookup_app_l by done. rewrite E. simpl.
  rewrite (proj2 (Nat.ltb_lt _ _)) by (rewrite !length_app; lia). rewrite length_insert. split; [|done]. f_equal.
  rewrite insert_app_r_alt by lia. replace (length a + i - length a)%nat with i by lia.
  by rewrite insert_app_l by done.
Qed.

Lemma EmitImpl_frame (a c : list Z) (offs args : list Z) (buf b : list Z) :
  Forall (fun o => 0 <= o) offs -> EmitImpl buf offs args = Done b ->
  EmitImpl (a ++ buf ++ c) (map (fun o => 8 * Z.of_nat (length a) + o) offs) args = Done (a ++ b ++ c) /\
  length b = length buf.
Proof.
  revert args buf b. induction offs as [|o offs IH]; intros args buf b Ho; destruct args as [|v args]; simpl;
    try (by intros [= <-]).
  apply Forall_cons_1 in Ho as [H0 Ho]. destruct offs as [|o' offs]; [done|]. simpl in *.
  destruct (emit_operand buf o o' v) as [b1| |] eqn:E; [|done..]. simpl. intros Hb.
  destruct (emit_operand_frame a buf c b1 o o' v H0 E) as [-> Hl]. simpl.
  destruct (IH args b1 b Ho Hb) as [-> Hl']. split; [done|lia].
Qed.

Lemma EmitImpl_prefix (c offs args buf b : list Z) :
  Forall (fun o => 0 <= o) offs -> EmitImpl buf offs args = Done b -> EmitImpl (buf ++ c) offs args = Done (b ++ c).
Proof.
  intros Ho Hb. destruct (EmitImpl_frame [] c offs args buf b Ho Hb) as [E _].
  rewrite (map_ext _ (fun o => o)), map_id in E by (intros; simpl; lia). exact E.
Qed.

Lemma EmitImpl_app (offs1 offs2 args1 args2 buf : list Z) (x : Z) :
  length args1 = length offs1 ->
  EmitImpl buf (offs1 ++ x :: offs2) (args1 ++ args2) =
  b ← EmitImpl buf (offs1 ++ [x]) args1; EmitImpl b (x :: offs2) args2.
Proof.
  revert args1 buf. induction offs1 as [|o offs1 IH]; intros [|v args1] buf Hl; try done.
  simpl in Hl. destruct offs1 as [|o' offs1]; simpl.
  - destruct args1; [|done]. simpl. by destruct (emit_operand buf o x v).
  - destruct (emit_operand buf o o' v); simpl; [|done..]. apply (IH args1). lia.
Qed.

(** A byte-aligned operand at the end of the buffer. *)
Lemma emit_last (k : nat) (old : list Z) (v : Z) :
  k = 1%nat \/ k = 2%nat \/ k = 4%nat -> length old = k ->
  EmitImpl old [0; 8 * Z.of_nat k] [v] = Done (bytes_of k v).
Proof.
  intros Hk Hl. unfold EmitImpl, emit_operand. rewrite Z.sub_0_r. change (Z.to_nat (0 / 8)) with 0%nat.
  assert (E : forall d, length d = k -> store old 0 d = Done d).
  { intros d Hd. unfold store. rewrite (proj2 (Nat.leb_le _ _)) by lia. f_equal. rewrite take_0. simpl.
    rewrite drop_ge by lia. apply app_nil_r. }
  destruct Hk as [->|[->| ->]]; simpl bool_decide; cbv iota; rewrite E by apply bytes_of_length; simpl mbind;
    unfold outcome_bind; f_equal; [apply (bytes_of_wrapu 1)|apply (bytes_of_wrapu 2)|apply (bytes_of_wrapu 4)].
Qed.

(** ** Operands in their bytes *)

(** Every operand has one of the widths and, unless it is half a byte, starts at a byte. *)
Fixpoint fields_ok (offs : list Z) : Prop :=
  match offs with
  | o :: (o' :: _) as rest =>
      0 <= o /\ (o' - o = 4 \/ (o mod 8 = 0 /\ o' - o ∈ [8; 16; 32; 64])) /\ fields_ok rest
  | [o] => 0 <= o
  | [] => False
  end.

Lemma fields_nonneg offs : fields_ok offs -> Forall (fun o => 0 <= o) offs.
Proof.
  induction offs as [|o [|o' offs] IH]; [done|by constructor|]. intros (Ho & _ & Hf). constructor; auto.
Qed.

Lemma width_pos o o' : o' - o = 4 \/ (o mod 8 = 0 /\ o' - o ∈ [8; 16; 32; 64]) -> o < o'.
Proof. rewrite !elem_of_cons, elem_of_nil. lia. Qed.

Lemma fields_le offs o e : fields_ok (o :: offs ++ [e]) -> o <= e.
Proof.
  revert o. induction offs as [|o' offs IH]; intros o (Ho & Hw & Hf); simpl in *; apply width_pos in Hw; [lia|].
  apply IH in Hf. lia.
Qed.

Lemma emit_operand_fits (buf : list Z) (o o' v : Z) :
  0 <= o -> o' - o = 4 \/ (o mod 8 = 0 /\ o' - o ∈ [8; 16; 32; 64]) -> o' <= 8 * Z.of_nat (length buf) ->
  exists b, emit_operand buf o o' v = Done b /\ length b = length buf.
Proof.
  intros Ho Hw He. unfold emit_operand. assert (Hb : 0 <= o / 8) by (apply Z.div_pos; lia).
  destruct (decide (o' - o = 4)) as [E|E].
  - rewrite (bool_decide_eq_true_2 (o' - o = 4)) by done.
    assert (Hi : (Z.to_nat (o / 8) < length buf)%nat).
    { pose proof (Z.div_lt_upper_bound o 8 (Z.of_nat (length buf)) ltac:(lia) ltac:(lia)). lia. }
    destruct (lookup_lt_is_Some_2 buf _ Hi) as [x Ex]. unfold read, write. rewrite Ex. simpl.
    rewrite (proj2 (Nat.ltb_lt _ _)) by done. eexists. split; [done|apply length_insert].
  - rewrite (bool_decide_eq_false_2 (o' - o = 4)) by done. destruct Hw as [?|[Ha Hw]]; [done|].
    assert (Hs : forall k d, o' - o = 8 * Z.of_nat k -> length d = k ->
      exists b, store buf (Z.to_nat (o / 8)) d = Done b /\ length b = length buf).
    { intros k d Ek Hd. unfold store. rewrite (proj2 (Nat.leb_le _ _)).
      - eexists. split; [done|]. rewrite !length_app, length_take, length_drop. pose proof (Z.div_mod o 8 ltac:(lia)). lia.
      - pose proof (Z.div_mod o 8 ltac:(lia)). lia. }
    rewrite !elem_of_cons, elem_of_nil in Hw.
    repeat match goal with |- context [if bool_decide ?P then _ else _] =>
      destruct (decide P); [rewrite (bool_decide_eq_true_2 P) by done|rewrite (bool_decide_eq_false_2 P) by done] end;
      [eapply (Hs 1%nat)|eapply (Hs 2%nat)|eapply (Hs 4%nat)|eapply (Hs 8%nat)|lia];
      (apply bytes_of_length || lia).
Qed.

Lemma EmitImpl_fits (offs args : list Z) (e : Z) (buf : list Z) :
  fields_ok (offs ++ [e]) -> e <= 8 * Z.of_nat (length buf) -> length args = length offs ->
  exists b, EmitImpl buf (offs ++ [e]) args = Done b /\ length b = length buf.
Proof.
  revert args buf. induction offs as [|o offs IH]; intros [|v args] buf Hf He Hl; try done; [by exists buf|].
  assert (Hb : exists o' rest, offs ++ [e] = o' :: rest) by (destruct offs; simpl; eauto).
  destruct Hb as (o' & rest & Eo). simpl app in Hf |- *. simpl. rewrite Eo in Hf |- *. destruct Hf as (Ho & Hw & Hf).
  assert (o' <= e).
  { destruct offs as [|o1 offs]; simplify_eq/=; [lia|]. by apply fields_le in Hf. }
  destruct (emit_operand_fits buf o o' v Ho Hw) as (b & Eb & Lb); [lia|]. rewrite Eb. cbv [mbind outcome_bind].
  rewrite <- Eo in Hf |- *. destruct (IH args b Hf) as (b' & -> & Lb'); [lia|simpl in Hl; lia|].
  exists b'. split; [done|lia].
Qed.

Lemma last_offset_end offs e l : l = offs ++ [e] -> last_offset l = e.
Proof. intros ->. apply List.last_last. Qed.

(** ** Jumps *)
Section Jumps.
Context `{Isa}.

Definition opcode_len (op : Z) : nat := if IsPrefixed op then 2 else 1.

(** The format of a jump: the offsets [m] of its operands, its immediate from the byte [q] to the end [n]. *)
Record JumpFormat (op : Z) (m : list Z) (q n : nat) : Prop := {
  jf_off : OFF op = Done (0 :: m ++ [8 * Z.of_nat q; 8 * Z.of_nat n]);
  jf_jump : is_jump op = true;
  jf_code : 0 <= op < 256 ^ Z.of_nat (opcode_len op);
  jf_start : hd (8 * Z.of_nat q) m = 8 * Z.of_nat (opcode_len op);
  jf_fields : fields_ok (map (fun o => o - 8 * Z.of_nat (opcode_len op)) (m ++ [8 * Z.of_nat q]));
  jf_imm : (n - q = 1 \/ n - q = 2 \/ n - q = 4)%nat;
}.

(** The bytes between the opcode and the immediate. *)
Definition operand_bytes (len : nat) (m : list Z) (q : nat) (args : list Z) : list Z :=
  match EmitImpl (replicate (q - len) 0) (map (fun o => o - 8 * Z.of_nat len) (m ++ [8 * Z.of_nat q])) args with
  | Done b => b
  | _ => []
  end.

Definition insn_bytes (op : Z) (m : list Z) (q n : nat) (args : list Z) (v : Z) : list Z :=
  bytes_of (opcode_len op) op ++ operand_bytes (opcode_len op) m q args ++ bytes_of (n - q) v.

Lemma jf_bounds op m q n : JumpFormat op m q n -> (opcode_len op <= q < n)%nat.
Proof.
  intros [J1 J2 J3 J4 J5 J6]. split; [|lia]. rewrite map_app in J5. simpl in J5.
  destruct m as [|o m]; simpl in *; [lia|]. apply fields_le in J5. lia.
Qed.

Lemma operand_bytes_ok op m q n args :
  JumpFormat op m q n -> length args = length m ->
  EmitImpl (replicate (q - opcode_len op) 0) (map (fun o => o - 8 * Z.of_nat (opcode_len op)) (m ++ [8 * Z.of_nat q])) args =
    Done (operand_bytes (opcode_len op) m q args) /\
  length (operand_bytes (opcode_len op) m q args) = (q - opcode_len op)%nat.
Proof.
  intros J Hl. pose proof (jf_bounds _ _ _ _ J). pose proof (jf_fields _ _ _ _ J) as Hf. rewrite map_app in Hf. simpl in Hf.
  unfold operand_bytes. rewrite map_app. simpl map.
  edestruct (EmitImpl_fits _ args _ (replicate (q - opcode_len op) 0) Hf) as (b & -> & Lb).
  - rewrite length_replicate. lia.
  - by rewrite length_map.
  - split; [done|]. by rewrite Lb, length_replicate.
Qed.

Lemma insn_bytes_length op m q n args v :
  JumpFormat op m q n -> length args = length m -> length (insn_bytes op m q n args v) = n.
Proof.
  intros J Hl. destruct (operand_bytes_ok op m q n args J Hl) as [_ Lb]. unfold insn_bytes.
  rewrite !length_app, !bytes_of_length, Lb. pose proof (jf_bounds _ _ _ _ J). lia.
Qed.

(** [Emit] of a jump. *)
Lemma Emit_jump op m q n args v :
  JumpFormat op m q n -> length args = length m -> Emit op (args ++ [v]) = Done (insn_bytes op m q n args v).
Proof.
  intros J Hl. pose proof (jf_bounds _ _ _ _ J) as Hb. destruct (operand_bytes_ok op m q n args J Hl) as [Eb Lb].
  pose proof (fields_nonneg _ (jf_fields _ _ _ _ J)) as Hf. destruct J as [J1 J2 J3 J4 J5 J6]. unfold Emit. rewrite J1.
  cbv [mbind outcome_bind]. rewrite (last_offset_end (0 :: m ++ [8 * Z.of_nat q]) (8 * Z.of_nat n))
    by by rewrite <- app_comm_cons, <- app_assoc.
  replace (8 * Z.of_nat n / 8) with (Z.of_nat n) by (rewrite Z.mul_comm, Z.div_mul; lia). rewrite Nat2Z.id.
  assert (Hlen : opcode_len op = 1%nat \/ opcode_len op = 2%nat \/ opcode_len op = 4%nat)
    by (unfold opcode_len; destruct (IsPrefixed op); auto).
  unfold insn_bytes. set (len := opcode_len op) in *.
  assert (Em : exists rest, m ++ [8 * Z.of_nat q; 8 * Z.of_nat n] = 8 * Z.of_nat len :: rest).
  { destruct m as [|o m]; simpl in *; rewrite J4; eauto. }
  destruct Em as [rest Em]. rewrite Em. change (op :: args ++ [v]) with ([op] ++ (args ++ [v])).
  change (0 :: 8 * Z.of_nat len :: rest) with ([0] ++ 8 * Z.of_nat len :: rest). rewrite EmitImpl_app by done.
  rewrite (replicate_split n len), (replicate_split (n - len) (q - len)) by lia.
  rewrite (EmitImpl_prefix _ [0; 8 * Z.of_nat len] [op] (replicate len 0) (bytes_of len op));
    [|repeat constructor; lia|apply emit_last; [done|apply length_replicate]].
  cbv [mbind outcome_bind]. rewrite <- Em. change [8 * Z.of_nat q; 8 * Z.of_nat n] with (8 * Z.of_nat q :: [8 * Z.of_nat n]).
  rewrite EmitImpl_app by done.
  destruct (EmitImpl_frame (bytes_of len op) (replicate (n - len - (q - len)) 0) _ args _ _ Hf Eb) as [E2 _].
  rewrite map_map, bytes_of_length, (map_ext _ (fun o => o)), map_id in E2 by (intros; lia). rewrite E2.
  cbv [mbind outcome_bind].
  destruct (EmitImpl_frame (bytes_of len op ++ operand_bytes len m q args) [] [0; 8 * Z.of_nat (n - q)] [v]
    (replicate (n - len - (q - len)) 0) (bytes_of (n - q) v)) as [E3 _].
  { repeat constructor; lia. }
  { apply emit_last; [done|]. rewrite length_replicate. lia. }
  rewrite !app_nil_r, <- !app_assoc, length_app, bytes_of_length, Lb in E3. simpl map in E3.
  replace (8 * Z.of_nat (len + (q - len)) + 0) with (8 * Z.of_nat q) in E3 by lia.
  replace (8 * Z.of_nat (len + (q - len)) + 8 * Z.of_nat (n - q)) with (8 * Z.of_nat n) in E3 by lia. exact E3.
Qed.

Lemma size_jump op m q n : JumpFormat op m q n -> GetSizeByOpcode op = Done (Z.of_nat n).
Proof.
  intros J. unfold GetSizeByOpcode. rewrite (jf_off _ _ _ _ J). cbv [mbind outcome_bind].
  rewrite (last_offset_end (0 :: m ++ [8 * Z.of_nat q]) (8 * Z.of_nat n)) by by rewrite <- app_comm_cons, <- app_assoc.
  rewrite Z.mul_comm, Z.div_mul by lia. done.
Qed.

Lemma branch_offsets_jump op m q n :
  JumpFormat op m q n -> branch_offsets op = Done [8 * Z.of_nat q; 8 * Z.of_nat n].
Proof.
  intros J. unfold branch_offsets. rewrite (jf_jump _ _ _ _ J), (jf_off _ _ _ _ J). cbv [mbind outcome_bind]. f_equal.
  rewrite app_comm_cons. replace (Nat.sub (length ((0 :: m) ++ [8 * Z.of_nat q; 8 * Z.of_nat n])) 2) with (length (0 :: m))
    by (rewrite length_app; simpl; lia). apply drop_app_length.
Qed.

(** The size of the immediate. *)
Definition imm_size (k : nat) : BitImmSize :=
  match k with 1 => BITSIZE_8 | 2 => BITSIZE_16 | _ => BITSIZE_32 end%nat.

Lemma imm_size_jump op m q n : JumpFormat op m q n -> GetBitImmSizeByOpcode op = Done (imm_size (n - q)).
Proof.
  intros J. pose proof (jf_bounds _ _ _ _ J). unfold GetBitImmSizeByOpcode. rewrite (branch_offsets_jump _ _ _ _ J). cbv [mbind outcome_bind].
  replace (8 * Z.of_nat n - 8 * Z.of_nat q) with (8 * Z.of_nat (n - q)) by lia.
  by destruct (jf_imm _ _ _ _ J) as [->|[->| ->]].
Qed.

Lemma opcode_read op m q n args v rest :
  JumpFormat op m q n -> GetOpcode (insn_bytes op m q n args v ++ rest) = Done op.
Proof.
  intros J. pose proof (jf_code _ _ _ _ J) as Hc. unfold insn_bytes, GetOpcode. rewrite <- app_assoc.
  unfold opcode_len in *. destruct (IsPrefixed op) eqn:E; unfold IsPrefixed, wrapu in E; change (2 ^ 8) with 256 in E; simpl.
  - rewrite E. simpl. f_equal. rewrite Z.lor_comm, (lor_add 8) by (try lia; apply Z.mod_pos_bound; lia).
    change (2 ^ 8) with 256. rewrite (Z.mod_small (op / 256)).
    + pose proof (Z.div_mod op 256). lia.
    + change (256 ^ Z.of_nat 2) with (256 * 256) in Hc.
      split; [apply Z.div_pos; lia|apply Z.div_lt_upper_bound; lia].
  - rewrite E. f_equal. apply Z.mod_small. change (256 ^ Z.of_nat 1) with 256 in Hc. lia.
Qed.

(** The immediate is overwritten. *)
Lemma UpdateBranchOffs_jump op m q n args v v' (a c : list Z) :
  JumpFormat op m q n -> length args = length m ->
  UpdateBranchOffs (a ++ insn_bytes op m q n args v ++ c) (Z.of_nat (length a)) v' =
  Done (a ++ insn_bytes op m q n args v' ++ c).
Proof.
  intros J Hl. unfold UpdateBranchOffs. rewrite Nat2Z.id, drop_app_length, (opcode_read _ _ _ _ _ _ _ J).
  cbv [mbind outcome_bind]. rewrite (branch_offsets_jump _ _ _ _ J), (size_jump _ _ _ _ J), Nat2Z.id.
  rewrite <- (insn_bytes_length op m q n args v J Hl) at 2. rewrite load_app.
  destruct (operand_bytes_ok op m q n args J Hl) as [_ Lb]. pose proof (jf_bounds _ _ _ _ J).
  destruct (EmitImpl_frame (bytes_of (opcode_len op) op ++ operand_bytes (opcode_len op) m q args) []
    [0; 8 * Z.of_nat (n - q)] [v'] (bytes_of (n - q) v) (bytes_of (n - q) v')) as [E _].
  { repeat constructor; lia. }
  { apply emit_last; [apply (jf_imm _ _ _ _ J)|apply bytes_of_length]. }
  rewrite !app_nil_r, <- !app_assoc, length_app, bytes_of_length, Lb in E. simpl map in E.
  replace (8 * Z.of_nat (opcode_len op + (q - opcode_len op)) + 0) with (8 * Z.of_nat q) in E by lia.
  replace (8 * Z.of_nat (opcode_len op + (q - opcode_len op)) + 8 * Z.of_nat (n - q)) with (8 * Z.of_nat n) in E by lia.
  unfold insn_bytes at 1. rewrite E. apply store_app. by rewrite !insn_bytes_length.
Qed.

(** The immediate is read with a type of [t] bits. *)
Lemma ReadHelper_jump t op m q n args v rest :
  JumpFormat op m q n -> length args = length m -> 8 * Z.of_nat (n - q) <= t ->
  ReadHelper t (insn_bytes op m q n args v ++ rest) (Z.to_nat (8 * Z.of_nat q / 8))
    (Z.to_nat ((8 * Z.of_nat q + (8 * Z.of_nat n - 8 * Z.of_nat q) + 8 - 1) / 8 - 8 * Z.of_nat q / 8))
    (8 * Z.of_nat q) (8 * Z.of_nat n - 8 * Z.of_nat q) = Done (wraps (8 * Z.of_nat (n - q)) v).
Proof.
  intros J Hl Ht. unfold ReadHelper.
  destruct (operand_bytes_ok op m q n args J Hl) as [_ Lb]. pose proof (jf_bounds _ _ _ _ J).
  replace (8 * Z.of_nat q / 8) with (Z.of_nat q) by (rewrite Z.mul_comm, Z.div_mul; lia).
  replace ((8 * Z.of_nat q + (8 * Z.of_nat n - 8 * Z.of_nat q) + 8 - 1) / 8) with (Z.of_nat n)
    by (apply Z.div_unique with 7; lia).
  replace ((8 * Z.of_nat q) mod 8) with 0 by (rewrite Z.mul_comm, Z.mod_mul; lia).
  rewrite Nat2Z.id. replace (Z.to_nat (Z.of_nat n - Z.of_nat q)) with (n - q)%nat by lia.
  unfold insn_bytes. rewrite <- !app_assoc, (app_assoc _ (operand_bytes _ _ _ _)).
  pose proof (load_app (bytes_of (opcode_len op) op ++ operand_bytes (opcode_len op) m q args) (bytes_of (n - q) v) rest) as El.
  rewrite length_app, !bytes_of_length, Lb in El. replace (opcode_len op + (q - opcode_len op))%nat with q in El by lia.
  rewrite El. cbv [mbind outcome_bind]. rewrite Z.shiftr_0_r, of_bytes_of. f_equal.
  replace (8 * Z.of_nat n - 8 * Z.of_nat q) with (8 * Z.of_nat (n - q)) by lia. apply read_extends. lia.
Qed.

Lemma GetImm_jump op m q n args v rest :
  JumpFormat op m q n -> length args = length m ->
  GetImm (insn_bytes op m q n args v ++ rest) = Done (wraps (8 * Z.of_nat (n - q)) v).
Proof.
  intros J Hl. unfold GetImm. rewrite (opcode_read _ _ _ _ _ _ _ J). cbv [mbind outcome_bind].
  rewrite (branch_offsets_jump _ _ _ _ J). apply ReadHelper_jump; [done..|]. unfold TypeHelper.
  pose proof (jf_imm _ _ _ _ J). repeat case_match; lia.
Qed.

(** Both ways to read the immediate agree. *)
Lemma GetImm64_jump op m q n args v rest :
  JumpFormat op m q n -> length args = length m ->
  GetImm64 (insn_bytes op m q n args v ++ rest) = GetImm (insn_bytes op m q n args v ++ rest).
Proof.
  intros J Hl. rewrite (GetImm_jump op m q n args v rest J Hl). unfold GetImm64. rewrite (opcode_read _ _ _ _ _ _ _ J).
  cbv [mbind outcome_bind]. rewrite (branch_offsets_jump _ _ _ _ J). apply ReadHelper_jump; [done..|].
  pose proof (jf_imm _ _ _ _ J). lia.
Qed.

(** ** Widening and reverting *)

(** The opcode is overwritten by one with the same operands; behind the immediate there is room. *)
Lemma emit_opcode_jump op op' m q n n' args v (a c : list Z) :
  JumpFormat op m q n -> JumpFormat op' m q n' -> opcode_len op' = opcode_len op -> length args = length m ->
  (n <= n')%nat ->
  emit_opcode (a ++ insn_bytes op m q n args v ++ replicate (n' - n) 0 ++ c) (Z.of_nat (length a)) op' =
  Done (a ++ bytes_of (opcode_len op') op' ++ operand_bytes (opcode_len op) m q args ++ bytes_of (n - q) v ++
        replicate (n' - n) 0 ++ c).
Proof.
  intros J J' El Hl Hn. unfold emit_opcode.
  assert (E : (if IsPrefixed op' then EmitImpl [0; 0] [0; 16] [op'] else EmitImpl [0] [0; 8] [op']) =
              Done (bytes_of (opcode_len op') op')).
  { unfold opcode_len. destruct (IsPrefixed op'); [apply (emit_last 2 [0; 0])|apply (emit_last 1 [0])]; auto. }
  rewrite E. cbv [mbind outcome_bind]. rewrite Nat2Z.id. unfold insn_bytes. rewrite <- !app_assoc.
  apply store_app. by rewrite !bytes_of_length, El.
Qed.

Lemma zeros_bytes k : bytes_of k 0 = replicate k 0.
Proof. induction k as [|k IH]; [done|]. cbn [bytes_of replicate]. f_equal. exact IH. Qed.

Lemma insert_zeros_app (a b : list Z) k :
  insert_zeros (a ++ b) (Z.of_nat (length a)) (Z.of_nat k) = Done (a ++ replicate k 0 ++ b).
Proof.
  unfold insert_zeros. rewrite (proj2 (Z.leb_le _ _)) by (rewrite length_app; lia).
  by rewrite !Nat2Z.id, take_app_length, drop_app_length.
Qed.
End Jumps.
