(* ===== verification/BytecodeLayout.v ===== *)
(** What [Build] makes of the emitted instructions.

    The calls of a client are a list of [Item]s: bytes of instructions that are not jumps, jumps to labels, and labels that
    are bound.  [Build] lays them out as a list of [Piece]s: every jump keeps its opcode, gets a wider one of the same
    kind, or becomes a reverted jump around a [JMP_IMM32].  [Build_layout]: the output is the bytes of the
    pieces, with the distance to the label in the immediate of every jump, cut to its width.  [Build_reaches_labels]: in code
    of at most 32767 bytes nothing is cut, and every jump leads to its label. *)
From Stdlib Require Import Sorted.
From S2P Require Import Prelude Leb128 DynChunk BytecodeEmitter BytecodeEncode.
From stdpp Require Import list.
Import Chunk BytecodeEmitter.
Local Open Scope Z_scope.
Local Open Scope ark_scope.

(** ** What is needed of the instruction tables *)
Class IsaOk `{Isa} := {
  (** The jumps the methods of the emitter write, the offsets of their operands, where the immediate starts, their
      sizes, and the size of the longest jump of the kind. *)
  heads : list Z;
  mid : Z -> list Z;
  imm_at : Z -> nat;
  size_of : Z -> nat;
  longest : Z -> nat;
  head_ok op : op ∈ heads -> JumpFormat op (mid op) (imm_at op) (size_of op) /\ (size_of op <= longest op <= 31)%nat;
  longest_ok op : op ∈ heads ->
    exists op', GetLongestJump op = Done op' /\ GetSizeByOpcode op' = Done (Z.of_nat (longest op));
  suitable_ok op s : op ∈ heads -> enumerator (imm_size (size_of op - imm_at op)) < enumerator s ->
    (GetSuitableJump op s = Done LAST /\ s = BITSIZE_32) \/
    exists op', GetSuitableJump op s = Done op' /\ op' <> LAST /\
      JumpFormat op' (mid op) (imm_at op) (size_of op') /\ opcode_len op' = opcode_len op /\
      (size_of op < size_of op' <= longest op)%nat /\ enumerator s <= enumerator (imm_size (size_of op' - imm_at op));
  revert_ok op : op ∈ heads -> GetSuitableJump op BITSIZE_32 = Done LAST ->
    exists r, RevertConditionCode op = Done r /\ r <> LAST /\
      JumpFormat r (mid op) (imm_at op) (size_of op) /\ opcode_len r = opcode_len op;
  jmp_ok : JumpFormat JMP_IMM32 [] 1 5 /\ opcode_len JMP_IMM32 = 1%nat;
}.

Section Layout.
Context `{IsaOk}.

(** ** Items and pieces *)
Inductive Item :=
| Plain (bytes : list Z)
| Jump (op : Z) (args : list Z) (l : Label)
| Mark (l : Label).

Inductive Choice :=
| Pending              (** not looked at yet *)
| Direct (op : Z)      (** the jump with this opcode *)
| Around (op : Z).     (** the reverted jump with this opcode, and a far jump behind it *)

Inductive Piece :=
| PPlain (bytes : list Z)
| PJump (op : Z) (args : list Z) (l : Label) (c : Choice)
| PMark (l : Label).

Definition piece_of (i : Item) : Piece :=
  match i with Plain bs => PPlain bs | Jump op args l => PJump op args l Pending | Mark l => PMark l end.

Definition pbytes (x : Piece) (v : Z) : list Z :=
  match x with
  | PPlain bs => bs
  | PMark _ => []
  | PJump op args l Pending => insn_bytes op (mid op) (imm_at op) (size_of op) args v
  | PJump op args l (Direct op') => insn_bytes op' (mid op) (imm_at op) (size_of op') args v
  | PJump op args l (Around r) =>
      insn_bytes r (mid op) (imm_at op) (size_of op) args (Z.of_nat (size_of op + 5)) ++
      insn_bytes JMP_IMM32 [] 1 5 [] v
  end.

(** Where the branch to the label is in the piece. *)
Definition branch_at (op : Z) (c : Choice) : Z :=
  match c with Around _ => Z.of_nat (size_of op) | _ => 0 end.

Definition choice_ok (op : Z) (c : Choice) : Prop :=
  match c with
  | Pending => True
  | Direct op' => JumpFormat op' (mid op) (imm_at op) (size_of op') /\ (size_of op <= size_of op' <= longest op)%nat /\
      opcode_len op' = opcode_len op /\ (op' = op \/ (op' <> LAST /\ exists s, GetSuitableJump op s = Done op'))
  | Around r => JumpFormat r (mid op) (imm_at op) (size_of op) /\ opcode_len r = opcode_len op /\
      RevertConditionCode op = Done r /\ GetSuitableJump op BITSIZE_32 = Done LAST
  end.

Definition piece_ok (x : Piece) : Prop :=
  match x with
  | PJump op args l c => op ∈ heads /\ length args = length (mid op) /\ choice_ok op c
  | _ => True
  end.

Definition psize (x : Piece) : Z := Z.of_nat (length (pbytes x 0)).

(** An upper bound of the size of a piece whatever is chosen, and one when no jump goes around. *)
Definition most (x : Piece) : Z :=
  match x with PJump op _ _ _ => Z.of_nat (Nat.max (longest op) (size_of op + 5)) | _ => psize x end.
Definition widest (x : Piece) : Z := match x with PJump op _ _ _ => Z.of_nat (longest op) | _ => psize x end.
(** What is known of the final size: that of a pending jump may still be the longest. *)
Definition known (x : Piece) : Z := match x with PJump op _ _ Pending => Z.of_nat (longest op) | _ => psize x end.

Definition sum (f : Piece -> Z) (ps : list Piece) : Z := foldr (fun x n => f x + n) 0 ps.
Abbreviation size := (sum psize).

Definition code0 (ps : list Piece) : list Z := concat (map (fun x => pbytes x 0) ps).

Definition label_of (x : Piece) : list Label := match x with PMark l => [l] | _ => [] end.
Definition labels (ps : list Piece) : list Label := concat (map label_of ps).

Fixpoint marks (p : Z) (ps : list Piece) : list (Label * Z) :=
  match ps with
  | [] => []
  | x :: ps => map (fun l => (l, p)) (label_of x) ++ marks (p + psize x) ps
  end.

Fixpoint brs (p : Z) (ps : list Piece) : list (Z * Label) :=
  match ps with
  | [] => []
  | x :: ps => match x with PJump op _ l c => [(p + branch_at op c, l)] | _ => [] end ++ brs (p + psize x) ps
  end.

(** *** Sums *)
Lemma sum_app f a b : sum f (a ++ b) = sum f a + sum f b.
Proof. induction a as [|x a IH]; simpl; [done|]. lia. Qed.

Lemma sum_le f g ps : Forall (fun x => f x <= g x) ps -> sum f ps <= sum g ps.
Proof. induction 1; simpl; lia. Qed.

Lemma psize_nonneg x : 0 <= psize x.
Proof. unfold psize. lia. Qed.

Lemma size_nonneg ps : 0 <= size ps.
Proof. induction ps as [|x ps IH]; simpl; [done|]. pose proof (psize_nonneg x). lia. Qed.

Lemma code0_app a b : code0 (a ++ b) = code0 a ++ code0 b.
Proof. unfold code0. by rewrite map_app, concat_app. Qed.

Lemma code0_length ps : Z.of_nat (length (code0 ps)) = size ps.
Proof. induction ps as [|x ps IH]; [done|]. unfold code0, psize in *. simpl. rewrite length_app. lia. Qed.

Lemma marks_app p a b : marks p (a ++ b) = marks p a ++ marks (p + size a) b.
Proof.
  revert p. induction a as [|x a IH]; intros p; simpl; [by rewrite Z.add_0_r|]. rewrite IH, <- app_assoc. do 3 f_equal. lia.
Qed.

Lemma brs_app p a b : brs p (a ++ b) = brs p a ++ brs (p + size a) b.
Proof.
  revert p. induction a as [|x a IH]; intros p; simpl; [by rewrite Z.add_0_r|]. rewrite IH, <- app_assoc. do 3 f_equal. lia.
Qed.

Lemma labels_app a b : labels (a ++ b) = labels a ++ labels b.
Proof. unfold labels. by rewrite map_app, concat_app. Qed.

Lemma marks_labels p ps : map fst (marks p ps) = labels ps.
Proof.
  revert p. induction ps as [|x ps IH]; intros p; [done|]. simpl. rewrite map_app, IH, map_map. simpl.
  by rewrite map_id.
Qed.

(** Sizes of jumps. *)
Lemma jump_size op args l c :
  piece_ok (PJump op args l c) ->
  psize (PJump op args l c) = match c with Pending => Z.of_nat (size_of op) | Direct op' => Z.of_nat (size_of op')
                              | Around _ => Z.of_nat (size_of op + 5) end.
Proof.
  intros (Hop & Hl & Hc). destruct (head_ok op Hop) as [Hf _]. unfold psize. simpl. destruct c as [|op'|r]; simpl in Hc.
  - by rewrite insn_bytes_length.
  - destruct Hc. by rewrite insn_bytes_length.
  - destruct Hc. rewrite length_app, !insn_bytes_length; [done|apply jmp_ok|done|done|done].
Qed.

Lemma jump_positive op : op ∈ heads -> (0 < size_of op <= longest op)%nat.
Proof. intros Hop. destruct (head_ok op Hop) as [Hf ?]. pose proof (jf_bounds _ _ _ _ Hf). lia. Qed.

Lemma psize_most x : piece_ok x -> psize x <= most x.
Proof.
  destruct x as [|op args l c|]; simpl most; try lia. intros Hx. rewrite (jump_size op args l c Hx).
  destruct Hx as (Hop & _ & Hc). pose proof (jump_positive op Hop). destruct c; simpl in Hc; lia.
Qed.

Lemma known_widest x : piece_ok x -> (forall op args l r, x <> PJump op args l (Around r)) -> known x <= widest x.
Proof.
  destruct x as [|op args l c|]; simpl known; simpl widest; try lia. intros Hx Hn.
  destruct c as [|op'|r]; [lia| |by destruct (Hn op args l r)]. rewrite (jump_size op args l _ Hx).
  destruct Hx as (Hop & _ & _ & ?). lia.
Qed.

Lemma psize_known x : piece_ok x -> psize x <= known x.
Proof.
  destruct x as [|op args l c|]; simpl known; try lia. intros Hx. destruct c; [|lia..].
  rewrite (jump_size op args l _ Hx). destruct Hx as (Hop & _ & _). pose proof (jump_positive op Hop). lia.
Qed.

Lemma marks_bounds p ps l q : (l, q) ∈ marks p ps -> p <= q <= p + size ps.
Proof.
  revert p. induction ps as [|x ps IH]; intros p; simpl; [by intros ?%elem_of_nil|]. pose proof (psize_nonneg x).
  pose proof (size_nonneg ps). intros [Hq|Hq]%elem_of_app.
  - apply list_elem_of_fmap in Hq as (l' & [= -> ->] & _). lia.
  - apply IH in Hq. lia.
Qed.

Lemma marks_shift k p ps l q : (l, q) ∈ marks (p + k) ps -> (l, q - k) ∈ marks p ps.
Proof.
  revert p. induction ps as [|y t IH]; intros p; simpl; [by intros ?%elem_of_nil|].
  intros [Hq|Hq]%elem_of_app; apply elem_of_app.
  - left. apply list_elem_of_fmap in Hq as (l' & [= -> ->] & Hl). apply list_elem_of_fmap. exists l'. split; [|done].
    f_equal. lia.
  - right. apply IH. by replace (p + psize y + k) with (p + k + psize y) by lia.
Qed.

Lemma label_split ps l : l ∈ labels ps -> exists a b, ps = a ++ PMark l :: b.
Proof.
  induction ps as [|x ps IH]; [by intros ?%elem_of_nil|]. unfold labels. simpl. intros [Hl|Hl]%elem_of_app.
  - destruct x; simpl in Hl; [by apply elem_of_nil in Hl|by apply elem_of_nil in Hl|].
    apply list_elem_of_singleton in Hl as ->. by exists [], ps.
  - destruct (IH Hl) as (a & b & ->). by exists (x :: a), b.
Qed.

Lemma mark_in a l b p : (l, p + size a) ∈ marks p (a ++ PMark l :: b).
Proof. rewrite marks_app. apply elem_of_app. right. simpl. left. Qed.

(** ** The state of the emitter *)
Record laid (e : BytecodeEmitter) (ps : list Piece) : Prop := {
  la_code : bytecode_ e = code0 ps;
  la_pcs : forall l p, (l, p) ∈ marks 0 ps -> pcList_ e !! l = Some p;
  la_targets : targets_ e = labels ps;
}.

Lemma la_pc e ps l p : laid e ps -> (l, p) ∈ marks 0 ps -> GetPc (pcList_ e) l = p.
Proof. intros He Hl. unfold GetPc. by rewrite (la_pcs _ _ He l p Hl). Qed.

(** *** Sorted labels *)
Lemma set_insert_last pcs l s :
  Forall (fun l' => GetPc pcs l' <= GetPc pcs l) s -> set_insert pcs l s = s ++ [l].
Proof.
  induction 1 as [|l' s Hl _ IH]; [done|]. simpl. rewrite (proj2 (Z.ltb_ge _ _)) by lia. by rewrite IH.
Qed.

Lemma set_upper_bound_split pcs pc lo hi :
  Forall (fun l => GetPc pcs l <= pc) lo -> Forall (fun l => pc < GetPc pcs l) hi ->
  set_upper_bound pcs pc (lo ++ hi) = (lo, hi).
Proof.
  induction 1 as [|l lo Hl _ IH]; intros Hh; simpl.
  - destruct Hh as [|l hi Hl _]; [done|]. simpl. by rewrite (proj2 (Z.ltb_lt _ _)).
  - rewrite (proj2 (Z.ltb_ge _ _)) by lia. by rewrite IH.
Qed.

Lemma shift_labels ls bias pcs :
  NoDup ls ->
  let pcs' := foldl (fun pcs l => <[l := u32 (GetPc pcs l + bias)]> pcs) pcs ls in
  forall l, pcs' !! l = if decide (l ∈ ls) then (fun p => u32 (p + bias)) <$> pcs !! l else pcs !! l.
Proof.
  intros Hnd. revert pcs. induction Hnd as [|l0 ls Hl0 _ IH]; intros pcs; simpl; intros l; [done|]. rewrite IH.
  destruct (decide (l = l0)) as [->|Hne].
  - rewrite decide_False, (decide_True (P := l0 ∈ l0 :: ls)) by (done || left).
    destruct (pcs !! l0) as [p|] eqn:E.
    + rewrite list_lookup_insert_eq by (by eapply lookup_lt_Some). unfold GetPc. by rewrite E.
    + rewrite list_insert_ge by (by apply lookup_ge_None). by rewrite E.
  - rewrite list_lookup_insert_ne by done. destruct (decide (l ∈ ls)) as [Hin|Hin].
    + rewrite decide_True by (by right). done.
    + rewrite decide_False; [done|]. intros [?|?]%elem_of_cons; done.
Qed.

(** Labels in the order of their positions. *)
Lemma insert_all pcs lo ps p :
  (forall l q, (l, q) ∈ marks p ps -> GetPc pcs l = q) -> Forall (fun l => GetPc pcs l <= p) lo ->
  foldl (fun s l => set_insert pcs l s) lo (labels ps) = lo ++ labels ps.
Proof.
  revert lo p. induction ps as [|x ps IH]; intros lo p Hm Hlo; [by rewrite app_nil_r|].
  unfold labels in *. simpl in *. rewrite foldl_app. pose proof (psize_nonneg x).
  assert (Hm' : forall l q, (l, q) ∈ marks (p + psize x) ps -> GetPc pcs l = q).
  { intros l q Hq. apply Hm. apply elem_of_app. by right. }
  destruct x as [| |l]; simpl in *.
  1, 2: apply (IH lo (p + psize _) Hm'); eapply Forall_impl; [done|simpl; lia].
  assert (Hl : GetPc pcs l = p) by (apply Hm; left). rewrite set_insert_last by (by rewrite Hl).
  rewrite (IH (lo ++ [l]) (p + psize (PMark l)) Hm').
  - by rewrite <- app_assoc.
  - apply Forall_app. split; [eapply Forall_impl; [done|simpl; lia]|]. constructor; [lia|done].
Qed.

Lemma set_find_in pcs l s :
  StronglySorted (fun l1 l2 => GetPc pcs l1 <= GetPc pcs l2) s -> l ∈ s -> set_find pcs l s = true.
Proof.
  induction 1 as [|l' s _ IH Hs]; [by intros ?%elem_of_nil|]. simpl. intros [->|Hl]%elem_of_cons.
  - by rewrite Z.ltb_irrefl.
  - destruct (Z.ltb_spec (GetPc pcs l') (GetPc pcs l)); [auto|].
    rewrite Forall_forall in Hs. apply Hs in Hl. by rewrite (proj2 (Z.ltb_ge _ _)) by lia.
Qed.

Lemma labels_sorted pcs ps p :
  (forall l q, (l, q) ∈ marks p ps -> GetPc pcs l = q) ->
  StronglySorted (fun l1 l2 => GetPc pcs l1 <= GetPc pcs l2) (labels ps) /\
  Forall (fun l => p <= GetPc pcs l) (labels ps).
Proof.
  revert p. induction ps as [|x ps IH]; intros p Hm; [by split; constructor|]. pose proof (psize_nonneg x).
  destruct (IH (p + psize x)) as [Hs Hf]. { intros l q Hq. apply Hm. simpl. apply elem_of_app. by right. }
  assert (Hf' : Forall (fun l => p <= GetPc pcs l) (labels ps)) by (eapply Forall_impl; [done|simpl; lia]).
  unfold labels in *. destruct x as [| |l]; simpl in *; [done..|].
  assert (Hl : GetPc pcs l = p) by (apply Hm; left).
  split; constructor; [done| |lia|done]. eapply Forall_impl; [done|]. simpl. lia.
Qed.

(** A jump at the end of [done] grows by [extra] bytes: the labels behind it move. *)
Lemma UpdateLabelTargets_laid e e' d x x' t extra :
  laid e (d ++ x :: t) -> NoDup (labels (d ++ x :: t)) -> label_of x = [] -> label_of x' = [] -> 0 < psize x ->
  psize x' = psize x + extra -> 0 <= size (d ++ x' :: t) < 2 ^ 32 ->
  pcList_ e' = pcList_ e -> targets_ e' = targets_ e -> bytecode_ e' = code0 (d ++ x' :: t) ->
  laid (UpdateLabelTargets e' (size d) extra) (d ++ x' :: t).
Proof.
  intros [L1 L2 L3] Hnd Ex Ex' Hp Es Hb E1 E2 E3.
  assert (Elab : labels (d ++ x :: t) = labels d ++ labels t) by
    (rewrite labels_app; unfold labels at 2; simpl; by rewrite Ex).
  assert (Elab' : labels (d ++ x' :: t) = labels d ++ labels t) by
    (rewrite labels_app; unfold labels at 2; simpl; by rewrite Ex').
  rewrite marks_app, Z.add_0_l in L2. simpl in L2. rewrite Ex in L2. simpl in L2.
  assert (Hd : forall l q, (l, q) ∈ marks 0 d -> pcList_ e !! l = Some q).
  { intros l q Hq. apply L2, elem_of_app. by left. }
  assert (Ht : forall l q, (l, q) ∈ marks (size d + psize x) t -> pcList_ e !! l = Some q).
  { intros l q Hq. apply L2, elem_of_app. by right. }
  unfold UpdateLabelTargets. rewrite E1, E2, L3, Elab, set_upper_bound_split.
  - rewrite Elab in Hnd. apply NoDup_app in Hnd as (_ & Hdis & Hnt).
    pose proof (shift_labels (labels t) extra (pcList_ e) Hnt) as Hpcs. cbv zeta in Hpcs.
    set (pcs' := foldl _ _ _) in *.
    assert (Hm : forall l q, (l, q) ∈ marks 0 (d ++ x' :: t) -> pcs' !! l = Some q).
    { intros l q. rewrite marks_app, Z.add_0_l. simpl. rewrite Ex'. simpl. rewrite Hpcs. intros [Hq|Hq]%elem_of_app.
      - rewrite decide_False, (Hd _ _ Hq); [done|]. apply Hdis. rewrite <- (marks_labels 0). apply list_elem_of_fmap.
        by exists (l, q).
      - assert (Hq' : (l, q - extra) ∈ marks (size d + psize x) t).
        { apply (marks_shift extra). rewrite Es in Hq. by replace (size d + psize x + extra) with (size d + (psize x + extra)) by lia. }
        rewrite decide_True.
        + rewrite (Ht _ _ Hq'). simpl. f_equal. rewrite wrapu_id; [lia|]. unfold in_u.
          assert (0 <= q <= size (d ++ x' :: t)); [|lia]. apply marks_bounds in Hq.
          rewrite sum_app. simpl. pose proof (size_nonneg d). pose proof (psize_nonneg x'). lia.
        + rewrite <- (marks_labels (size d + psize x')). apply list_elem_of_fmap. by exists (l, q). }
    split; simpl; [done|done|]. rewrite Elab'. apply (insert_all _ _ _ (size d + psize x')).
    + intros l q Hq. unfold GetPc. rewrite (Hm l q); [done|]. rewrite marks_app, Z.add_0_l. simpl. rewrite Ex'. apply elem_of_app. by right.
    + apply Forall_forall. intros l Hl. rewrite <- (marks_labels 0) in Hl. apply list_elem_of_fmap in Hl as ([l' q] & -> & Hq).
      simpl. unfold GetPc. rewrite (Hm l' q); [|rewrite marks_app; apply elem_of_app; by left]. simpl.
      apply marks_bounds in Hq. pose proof (psize_nonneg x'). lia.
  - apply Forall_forall. intros l Hl. rewrite <- (marks_labels 0) in Hl. apply list_elem_of_fmap in Hl as ([l' q] & -> & Hq).
    simpl. unfold GetPc. rewrite (Hd _ _ Hq). simpl. apply marks_bounds in Hq. lia.
  - apply Forall_forall. intros l Hl. rewrite <- (marks_labels (size d + psize x)) in Hl.
    apply list_elem_of_fmap in Hl as ([l' q] & -> & Hq). simpl. unfold GetPc. rewrite (Ht _ _ Hq). simpl.
    apply marks_bounds in Hq. lia.
Qed.
(** ** The estimate *)
Definition pending (x : Piece) : Prop :=
  piece_ok x /\ match x with PJump _ _ _ c => c = Pending | _ => True end.

Lemma brs_ge o ps : Forall (fun b => o <= fst b) (brs o ps).
Proof.
  revert o. induction ps as [|x ps IH]; intros o; simpl; [constructor|]. pose proof (psize_nonneg x). apply Forall_app. split.
  - destruct x as [|op args l c|]; constructor; [|constructor]. simpl. unfold branch_at. destruct c; lia.
  - eapply Forall_impl; [apply IH|]. simpl. lia.
Qed.

Lemma map_lower_bound_all k m : Forall (fun b => k <= fst b) m -> map_lower_bound k m = m.
Proof. destruct 1 as [|[k' v] m Hk _]; [done|]. simpl in *. by rewrite (proj2 (Z.ltb_ge _ _)) by lia. Qed.

Lemma map_lower_bound_Forall P k m : Forall P m -> Forall P (map_lower_bound k m).
Proof.
  induction 1 as [|[k' v] m Hk Hm IH]; [constructor|]. simpl. destruct (k' <? k); [done|by constructor].
Qed.

Lemma max_growth_none bytecode bias endPc it dist :
  Forall (fun b => endPc <= fst b) it -> max_growth bytecode bias endPc it dist = Done dist.
Proof. destruct 1 as [|[k v] it Hk _]; [done|]. simpl in *. by rewrite (proj2 (Z.ltb_ge _ _)) by lia. Qed.

Lemma code_at d x t op args l c :
  x = PJump op args l c -> pending x -> GetOpcode (drop (Z.to_nat (size d)) (code0 (d ++ x :: t))) = Done op.
Proof.
  intros -> [(Hop & Hl & _) ->]. rewrite code0_app, <- (code0_length d), Nat2Z.id, drop_app_length. unfold code0. simpl.
  eapply opcode_read. by apply head_ok.
Qed.

Lemma known_ge b : Forall piece_ok b -> size b <= sum known b.
Proof. intros Hb. apply sum_le. eapply Forall_impl; [done|]. intros x. apply psize_known. Qed.

Lemma max_growth_spec b pre rest o bias dist :
  Forall pending b -> 0 <= o -> 0 <= bias -> o + bias = size pre -> size (pre ++ b ++ rest) < 2 ^ 31 ->
  0 <= dist -> dist + sum known b - size b < 2 ^ 31 ->
  max_growth (code0 (pre ++ b ++ rest)) bias (o + size b) (brs o (b ++ rest)) dist = Done (dist + sum known b - size b).
Proof.
  intros Hb. revert pre o dist. induction Hb as [|x b Hx Hb IH]; intros pre o dist Ho Hbias Hpre Htot Hd Hlim.
  { simpl. rewrite max_growth_none; [f_equal; lia|]. rewrite Z.add_0_r. apply brs_ge. }
  assert (Hk : size b <= sum known b) by (apply known_ge; eapply Forall_impl; [done|]; by intros y [? _]).
  pose proof (size_nonneg b). pose proof (size_nonneg rest). pose proof (psize_nonneg x).
  assert (E : pre ++ x :: b ++ rest = (pre ++ [x]) ++ b ++ rest) by by rewrite <- app_assoc.
  assert (Hpre' : o + psize x + bias = size (pre ++ [x])) by (rewrite sum_app; simpl; lia).
  assert (Htot' : size ((pre ++ [x]) ++ b ++ rest) < 2 ^ 31) by by rewrite <- E.
  assert (Hk' : psize x <= known x) by (by apply psize_known, Hx).
  simpl in Hlim, Htot |- *. rewrite Z.add_assoc.
  destruct x as [bs|op args l c|l]; simpl app.
  1, 3: (rewrite E, (IH (pre ++ _) (o + psize _) dist) by (done || (simpl known in *; lia)); f_equal; simpl known; lia).
  destruct Hx as [Hx Hc]. subst c. pose proof (jump_size _ _ _ _ Hx) as Es. cbv iota in Es.
  pose proof (jump_positive op (proj1 Hx)) as Hpos. destruct (longest_ok op (proj1 Hx)) as (op' & El & Esz).
  simpl max_growth. rewrite Z.add_0_r. rewrite (proj2 (Z.ltb_lt _ _)) by lia.
  rewrite (wrapu_id 32).
  2: { unfold in_u. pose proof (size_nonneg (b ++ rest)). rewrite sum_app in Htot. simpl in Htot. lia. }
  rewrite Hpre.
  rewrite (code_at pre _ (b ++ rest) op args l Pending eq_refl) by (by split).
  cbv [mbind outcome_bind]. rewrite El, Esz, (size_jump _ _ _ _ (proj1 (head_ok op (proj1 Hx)))).
  simpl known in *. rewrite (wraps_id 32 (Z.of_nat (longest op) - Z.of_nat (size_of op))) by
    (try lia; unfold in_s; change (32 - 1) with 31; lia).
  rewrite (wraps_id 32) by (try lia; unfold in_s; change (32 - 1) with 31; lia).
  rewrite E, (IH (pre ++ [PJump op args l Pending]) (o + psize (PJump op args l Pending))) by (done || lia). f_equal. lia.
Qed.

Lemma estimate e d x t op args l o bias :
  x = PJump op args l Pending -> laid e (d ++ x :: t) -> Forall pending (x :: t) -> Forall piece_ok d ->
  l ∈ labels (d ++ x :: t) -> 0 <= o -> 0 <= bias -> o + bias = size d ->
  branches_ e = brs o (x :: t) -> sum most (d ++ x :: t) < 2 ^ 31 ->
  exists est, EstimateMaxDistance e (size d) (GetPc (pcList_ e) l) bias = Done est /\
    ((exists a1 a2, d = a1 ++ PMark l :: a2 /\ est = - size a2) \/
     (exists b1 b2, t = b1 ++ PMark l :: b2 /\ est = sum known (x :: b1))).
Proof.
  intros Ex He Hp Hd Hl Ho Hbias Hob Hbr Hm. assert (Hall : Forall piece_ok (d ++ x :: t)).
  { apply Forall_app. split; [done|]. eapply Forall_impl; [done|]. by intros y [? _]. }
  assert (Htot : size (d ++ x :: t) < 2 ^ 31).
  { assert (size (d ++ x :: t) <= sum most (d ++ x :: t)); [|lia]. apply sum_le. eapply Forall_impl; [done|].
    intros y. apply psize_most. }
  pose proof (size_nonneg d). pose proof (size_nonneg t). unfold EstimateMaxDistance. rewrite labels_app in Hl.
  apply elem_of_app in Hl as [Hl|Hl].
  - apply label_split in Hl as (a1 & a2 & ->).
    assert (Epc : GetPc (pcList_ e) l = size a1).
    { apply (la_pc _ _ _ _ He). rewrite <- app_assoc. simpl app. apply (mark_in a1 l _ 0). }
    assert (Ed : size (a1 ++ PMark l :: a2) = size a1 + size a2) by (rewrite sum_app; simpl; unfold psize; simpl; lia).
    rewrite Epc, Ed. pose proof (size_nonneg a1). pose proof (size_nonneg a2). exists (- size a2). split; [|left; eauto].
    rewrite (proj2 (Z.ltb_ge _ _)) by lia. destruct (Z.ltb_spec (size a1) (size a1 + size a2)) as [Hlt|Hge].
    + replace (size a1 + size a2 - bias) with o by lia. rewrite sum_app in Htot. pose proof (size_nonneg (x :: t)).
      rewrite (wrapu_id 32 o) by (unfold in_u; lia). rewrite wraps_wrapu, wraps_id; [|lia|].
      * rewrite Hbr. rewrite max_growth_none; [f_equal; lia|]. apply map_lower_bound_Forall, brs_ge.
      * unfold in_s. change (32 - 1) with 31. lia.
    + f_equal. lia.
  - unfold labels in Hl. rewrite Ex in Hl. simpl in Hl. fold (labels t) in Hl. apply label_split in Hl as (b1 & b2 & ->).
    assert (Epc : GetPc (pcList_ e) l = size d + size (x :: b1)).
    { apply (la_pc _ _ _ _ He). rewrite marks_app, Z.add_0_l. apply elem_of_app. right.
      apply (mark_in (x :: b1) l b2). }
    assert (Hb1 : Forall pending (x :: b1)).
    { rewrite app_comm_cons in Hp. by apply Forall_app in Hp as [? _]. }
    assert (Hx : 0 < psize x).
    { subst x. apply Forall_cons_1 in Hp as [[Hx _] _]. rewrite (jump_size _ _ _ _ Hx).
      pose proof (jump_positive op (proj1 Hx)). lia. }
    assert (Hkm : sum known (x :: b1) <= sum most (x :: b1)).
    { apply sum_le. eapply Forall_impl; [exact Hb1|]. intros y [Hy Hc]. destruct y as [|? ? ? c|]; simpl; [lia| |lia].
      subst c. lia. }
    pose proof (size_nonneg b1) as Hb1n.
    assert (Hmb : sum most (x :: b1) < 2 ^ 31).
    { rewrite app_comm_cons, app_assoc, !sum_app in Hm.
      assert (Hn : forall ps, 0 <= sum most ps).
      { intros ps. induction ps as [|y ps IH]; simpl; [lia|]. destruct y; unfold most, psize in *; lia. }
      pose proof (Hn d). pose proof (Hn (PMark l :: b2)). lia. }
    assert (Hks : size (x :: b1) <= sum known (x :: b1)) by
      (apply known_ge; eapply Forall_impl; [exact Hb1|]; by intros y [? _]).
    assert (Ht' : size d + size (x :: b1) < 2 ^ 31).
    { rewrite app_comm_cons, app_assoc, !sum_app in Htot. pose proof (size_nonneg (PMark l :: b2)). lia. }
    exists (sum known (x :: b1)). split; [|right; eauto]. rewrite Epc. simpl in Hks, Hkm, Hmb, Ht' |- *.
    rewrite (proj2 (Z.ltb_lt _ _)) by lia. rewrite Hbr.
    replace (size d + (psize x + size b1) - bias) with (o + size (x :: b1)) by (simpl; lia).
    replace (size d - bias) with o by lia. rewrite !(wrapu_id 32) by (unfold in_u; simpl; lia).
    rewrite (wraps_id 32) by (try lia; unfold in_s; change (32 - 1) with 31; lia).
    rewrite map_lower_bound_all by apply brs_ge. rewrite (la_code _ _ He).
    change (x :: b1 ++ PMark l :: b2) with ((x :: b1) ++ PMark l :: b2).
    rewrite (max_growth_spec (x :: b1) d (PMark l :: b2)) by (done || (simpl; lia)). f_equal. simpl. lia.
Qed.
End Layout.
