(* ===== verification/BytecodeBuild.v ===== *)
(** [Build] lays out the emitted items: [ReserveSpaceForOffsets] chooses a form for every jump, [UpdateBranches] fills
    in the distances.

    The loop of [ReserveSpaceForOffsets] is followed piece by piece.  What it establishes is [fits]: the immediate of a jump
    is wide enough for the distance to its label as it is now known, and this stays true as long as no jump between
    the two is replaced by a pair of jumps. *)
From Stdlib Require Import Sorted.
From S2P Require Import Prelude Leb128 DynChunk BytecodeEmitter BytecodeEncode BytecodeLayout.
From stdpp Require Import list.
Import Chunk BytecodeEmitter.
Local Open Scope Z_scope.
Local Open Scope ark_scope.

Section Build.
Context `{IsaOk}.

Abbreviation size := (sum psize).

(** ** One jump gets its space *)
Lemma code0_cons x t : code0 (x :: t) = pbytes x 0 ++ code0 t.
Proof. done. Qed.

Lemma widen_bytes op op' m q n n' args (a c : list Z) :
  JumpFormat op m q n -> JumpFormat op' m q n' -> opcode_len op' = opcode_len op -> length args = length m ->
  (n <= n')%nat ->
  (b ← insert_zeros (a ++ insn_bytes op m q n args 0 ++ c) (Z.of_nat (length a) + Z.of_nat n) (Z.of_nat n' - Z.of_nat n);
  emit_opcode b (Z.of_nat (length a)) op') = Done (a ++ insn_bytes op' m q n' args 0 ++ c).
Proof.
  intros J J' El Hl Hn. replace (Z.of_nat (length a) + Z.of_nat n) with (Z.of_nat (length (a ++ insn_bytes op m q n args 0)))
    by (rewrite length_app, insn_bytes_length by done; lia).
  replace (Z.of_nat n' - Z.of_nat n) with (Z.of_nat (n' - n)) by lia. rewrite app_assoc, insert_zeros_app.
  cbv [mbind outcome_bind]. rewrite <- app_assoc. rewrite (emit_opcode_jump op op' m q n n') by done. f_equal.
  unfold insn_bytes. rewrite El, <- !app_assoc. do 3 f_equal. rewrite app_assoc, !zeros_bytes, <- replicate_add. do 2 f_equal.
  pose proof (jf_bounds _ _ _ _ J). lia.
Qed.

Lemma around_bytes op r m q n args (a c : list Z) :
  JumpFormat op m q n -> JumpFormat r m q n -> opcode_len r = opcode_len op -> length args = length m ->
  (b ← insert_zeros (a ++ insn_bytes op m q n args 0 ++ c) (Z.of_nat (length a) + Z.of_nat n) 5;
  b ← UpdateBranchOffs b (Z.of_nat (length a)) (Z.of_nat (n + 5));
  b ← store b (Z.to_nat (Z.of_nat (length a) + Z.of_nat n)) (insn_bytes JMP_IMM32 [] 1 5 [] 0);
  emit_opcode b (Z.of_nat (length a)) r) =
  Done (a ++ (insn_bytes r m q n args (Z.of_nat (n + 5)) ++ insn_bytes JMP_IMM32 [] 1 5 [] 0) ++ c).
Proof.
  intros J Jr El Hl.
  assert (Ea : forall v, Z.of_nat (length a) + Z.of_nat n = Z.of_nat (length (a ++ insn_bytes op m q n args v)))
    by (intros v; rewrite length_app, insn_bytes_length by done; lia).
  rewrite (Ea 0), app_assoc. rewrite (insert_zeros_app _ _ 5). cbv [mbind outcome_bind].
  rewrite <- app_assoc, (UpdateBranchOffs_jump op m q n) by done. rewrite <- (Ea 0), (Ea (Z.of_nat (n + 5))), Nat2Z.id.
  rewrite app_assoc, store_app.
  2: { rewrite insn_bytes_length; [done|apply jmp_ok|done]. }
  rewrite <- !app_assoc.
  pose proof (emit_opcode_jump op r m q n n args (Z.of_nat (n + 5)) a (insn_bytes JMP_IMM32 [] 1 5 [] 0 ++ c) J Jr El Hl
    ltac:(lia)) as Eo.
  rewrite Nat.sub_diag in Eo. change (replicate 0 0) with (@nil Z) in Eo. rewrite !app_nil_l in Eo. rewrite Eo. f_equal.
  unfold insn_bytes at 2. rewrite El, <- !app_assoc. done.
Qed.

(** Whether the form of a jump suits the size that was asked for. *)
Definition suits (op : Z) (c : Choice) (s : BitImmSize) : Prop :=
  match c with
  | Pending => False
  | Direct op' => enumerator s <= enumerator (imm_size (size_of op' - imm_at op))
  | Around _ => s = BITSIZE_32
  end.

Lemma reserve_step d t op args l s :
  piece_ok (PJump op args l Pending) -> size (d ++ PJump op args l Pending :: t) + 5 < 2 ^ 31 ->
  exists c, piece_ok (PJump op args l c) /\ suits op c s /\
    (if enumerator (imm_size (size_of op - imm_at op)) <? enumerator s
     then DoReserveSpaceForOffset (code0 (d ++ PJump op args l Pending :: t)) (size d) s
     else Done (code0 (d ++ PJump op args l Pending :: t), 0, size d)) =
    Done (code0 (d ++ PJump op args l c :: t), psize (PJump op args l c) - psize (PJump op args l Pending),
          size d + branch_at op c).
Proof.
  intros Hx Hb. pose proof Hx as (Hop & Hl & _). destruct (head_ok op Hop) as [J Hlong].
  assert (Hd : size d + Z.of_nat (size_of op) < 2 ^ 31).
  { rewrite sum_app in Hb. simpl in Hb. rewrite (jump_size _ _ _ _ Hx) in Hb. pose proof (size_nonneg t). lia. }
  pose proof (size_nonneg d).
  destruct (Z.ltb_spec (enumerator (imm_size (size_of op - imm_at op))) (enumerator s)) as [Hlt|Hge].
  - unfold DoReserveSpaceForOffset. rewrite (code_at d _ t op args l Pending eq_refl) by (by split).
    cbv [mbind outcome_bind]. rewrite (size_jump _ _ _ _ J). rewrite !code0_app, !code0_cons.
    change (pbytes (PJump op args l Pending) 0) with (insn_bytes op (mid op) (imm_at op) (size_of op) args 0).
    destruct (suitable_ok op s Hop Hlt) as [[Es Ess]|(op' & Es & Hne & J' & El & Hn & Hs)].
    + subst s. destruct (revert_ok op Hop Es) as (r & Er & Hr & Jr & El). exists (Around r).
      assert (Hx' : piece_ok (PJump op args l (Around r))) by done.
      split; [done|]. split; [done|]. rewrite Es, bool_decide_eq_true_2 by done. simpl negb. cbv iota.
      destruct jmp_ok as [Jj _]. rewrite (size_jump _ _ _ _ Jj), Er, (bool_decide_eq_false_2 (r = LAST)) by done.
      change [0] with ([] ++ [0]). rewrite (Emit_jump JMP_IMM32 [] 1 5 [] 0 Jj eq_refl). rewrite (wraps_id 32), (wrapu_id 32) by
        (try lia; unfold in_s, in_u; change (32 - 1) with 31; lia).
      pose proof (around_bytes op r _ _ _ args (code0 d) (code0 t) J Jr El Hl) as Ea. rewrite code0_length in Ea.
      cbv [mbind outcome_bind] in Ea. change (Z.of_nat 5) with 5.
      replace (Z.of_nat (size_of op) + 5) with (Z.of_nat (size_of op + 5)) by lia.
      destruct (insert_zeros _ _ 5) as [b1| |]; [|done..]. destruct (UpdateBranchOffs b1 _ _) as [b2| |]; [|done..].
      destruct (store b2 _ _) as [b3| |]; [|done..]. rewrite Ea. rewrite (jump_size _ _ _ _ Hx), (jump_size _ _ _ _ Hx').
      simpl branch_at. rewrite code0_app, code0_cons. do 3 f_equal. lia.
    + exists (Direct op'). assert (Hx' : piece_ok (PJump op args l (Direct op'))).
      { cbn [piece_ok choice_ok]. split_and!; [done..|lia|lia|done|right; eauto]. }
      split; [done|]. split; [done|]. rewrite Es, bool_decide_eq_false_2 by done. simpl negb. cbv iota.
      rewrite (size_jump _ _ _ _ J').
      pose proof (widen_bytes op op' _ _ _ _ args (code0 d) (code0 t) J J' El Hl ltac:(lia)) as Ea.
      rewrite code0_length in Ea. cbv [mbind outcome_bind] in Ea.
      destruct (insert_zeros _ _ _) as [b1| |]; [|done..]. rewrite Ea. rewrite (jump_size _ _ _ _ Hx), (jump_size _ _ _ _ Hx').
      simpl branch_at. rewrite Z.add_0_r, code0_app, code0_cons. done.
  - exists (Direct op). assert (Hx' : piece_ok (PJump op args l (Direct op))).
    { cbn [piece_ok choice_ok]. split_and!; [done..|lia|lia|done|by left]. }
    split; [done|]. split; [done|]. rewrite (jump_size _ _ _ _ Hx), (jump_size _ _ _ _ Hx'). simpl branch_at.
    by rewrite Z.sub_diag, Z.add_0_r, !code0_app, !code0_cons.
Qed.

(** ** The immediates are wide enough *)
Inductive chosen : Piece -> Piece -> Prop :=
| chosen_plain bs : chosen (PPlain bs) (PPlain bs)
| chosen_mark l : chosen (PMark l) (PMark l)
| chosen_jump op args l c :
    c <> Pending -> piece_ok (PJump op args l c) -> chosen (PJump op args l Pending) (PJump op args l c).

Definition around (x : Piece) : bool := match x with PJump _ _ _ (Around _) => true | _ => false end.

(** The distance to a label ahead, as far as it is known, when no jump in between goes around. *)
Fixpoint fwd (l : Label) (ps : list Piece) : option Z :=
  match ps with
  | [] => None
  | x :: ps => if bool_decide (l ∈ label_of x) then Some 0 else if around x then None else Z.add (known x) <$> fwd l ps
  end.

(** The bits of the immediate. *)
Definition imm_bits (op op' : Z) : Z := 8 * Z.of_nat (size_of op' - imm_at op).

Definition wide_enough (pre : list Piece) (x : Piece) (rest : list Piece) : Prop :=
  match x with
  | PJump op _ l (Direct op') =>
      (forall a1 a2, pre = a1 ++ PMark l :: a2 -> - 2 ^ (imm_bits op op' - 1) <= - size a2) /\
      (forall n, fwd l rest = Some n -> known x + n < 2 ^ (imm_bits op op' - 1))
  | _ => True
  end.

Fixpoint fits (pre ps : list Piece) : Prop :=
  match ps with
  | [] => True
  | x :: rest => wide_enough pre x rest /\ fits (pre ++ [x]) rest
  end.

Lemma fwd_change l b y y' t n :
  label_of y = [] -> label_of y' = [] -> (around y' = false -> around y = false /\ known y' <= known y) ->
  fwd l (b ++ y' :: t) = Some n -> exists n', fwd l (b ++ y :: t) = Some n' /\ n <= n'.
Proof.
  intros Ey Ey' Hk. revert n. induction b as [|x b IH]; intros n; simpl.
  - rewrite Ey, Ey', !bool_decide_eq_false_2 by apply not_elem_of_nil. destruct (around y'); [done|].
    destruct Hk as [-> Hk]; [done|]. destruct (fwd l t); simpl; [|done]. intros [= <-]. eexists. split; [done|]. lia.
  - destruct (bool_decide (l ∈ label_of x)); [intros [= <-]; eauto with lia|]. destruct (around x); [done|].
    destruct (fwd l (b ++ y' :: t)) as [m|]; simpl; [|done]. intros [= <-]. destruct (IH m eq_refl) as (m' & -> & ?).
    simpl. eexists. split; [done|]. lia.
Qed.

Lemma fits_pending pre t : Forall pending t -> fits pre t.
Proof.
  intros Ht. revert pre. induction Ht as [|x t [_ Hx] _ IH]; intros pre; simpl; [done|]. split; [|apply IH].
  destruct x as [|op args l c|]; simpl; [done| |done]. by subst c.
Qed.

Lemma fits_change pre d y y' t :
  label_of y = [] -> label_of y' = [] -> (around y' = false -> around y = false /\ known y' <= known y) ->
  Forall pending t -> fits pre (d ++ y :: t) -> wide_enough (pre ++ d) y' t -> fits pre (d ++ y' :: t).
Proof.
  intros Ey Ey' Hk Ht. revert pre. induction d as [|x d IH]; intros pre; simpl.
  - rewrite app_nil_r. intros _ Hw. split; [done|]. by apply fits_pending.
  - intros [Hx Hf] Hw. split.
    + destruct x as [|op args l c|]; simpl in *; [done| |done]. destruct c as [|op'|]; simpl in *; [done| |done].
      destruct Hx as [Hb Hn]. split; [done|]. intros n En. apply (fwd_change l d y y' t n Ey Ey' Hk) in En as (n' & En & ?).
      apply Hn in En. lia.
    + apply IH; [done|]. by rewrite <- app_assoc.
Qed.

Lemma fits_at pre a x b : fits pre (a ++ x :: b) -> wide_enough (pre ++ a) x b.
Proof.
  revert pre. induction a as [|y a IH]; intros pre; simpl; [rewrite app_nil_r; by intros [? _]|].
  intros [_ Hf]. apply IH in Hf. by rewrite <- app_assoc in Hf.
Qed.

Lemma known_nonneg x : 0 <= known x.
Proof. destruct x as [|? ? ? []|]; unfold known, psize; lia. Qed.

Lemma fwd_le l b1 b2 n : fwd l (b1 ++ PMark l :: b2) = Some n -> n <= sum known b1.
Proof.
  revert n. induction b1 as [|x b1 IH]; intros n; simpl.
  - rewrite bool_decide_eq_true_2 by left. intros [= <-]. lia.
  - pose proof (known_nonneg x). assert (Hs : 0 <= sum known b1).
    { clear. induction b1 as [|y b1 IH]; simpl; [lia|]. pose proof (known_nonneg y). lia. }
    destruct (bool_decide _); [intros [= <-]; lia|]. destruct (around x); [done|].
    destruct (fwd l (b1 ++ PMark l :: b2)) as [m|]; simpl; [|done]. intros [= <-]. specialize (IH m eq_refl). lia.
Qed.

Lemma fwd_labels l ps n : fwd l ps = Some n -> l ∈ labels ps.
Proof.
  revert n. induction ps as [|x ps IH]; intros n; simpl; [done|]. unfold labels. simpl. rewrite elem_of_app.
  destruct (bool_decide_reflect (l ∈ label_of x)); [by left|]. destruct (around x); [done|].
  destruct (fwd l ps); [|done]. right. by eapply IH.
Qed.

Lemma size_in_range s k v :
  s = GetBitLengthSigned v -> k = 1%nat \/ k = 2%nat \/ k = 4%nat -> - 2 ^ 31 <= v < 2 ^ 31 ->
  enumerator s <= enumerator (imm_size k) -> in_s (8 * Z.of_nat k) v.
Proof.
  intros -> Hk Hv. unfold GetBitLengthSigned, in_s.
  repeat match goal with |- context [?a <=? ?b] => destruct (Z.leb_spec a b) end; simpl; destruct Hk as [->|[->| ->]]; simpl; lia.
Qed.

(** ** The loop *)
Lemma map_insert_last k l m : Forall (fun b => fst b < k) m -> map_insert k l m = m ++ [(k, l)].
Proof.
  induction 1 as [|[k' l'] m Hk _ IH]; [done|]. simpl in *. rewrite (proj2 (Z.ltb_ge _ _)) by lia.
  rewrite bool_decide_eq_false_2 by lia. by rewrite IH.
Qed.

Lemma brs_lt p ps : Forall piece_ok ps -> Forall (fun b => fst b < p + size ps) (brs p ps).
Proof.
  intros Hp. revert p. induction Hp as [|x ps Hx _ IH]; intros p; simpl; [constructor|].
  pose proof (size_nonneg ps). apply Forall_app. split.
  - destruct x as [|op args l c|]; constructor; [|constructor]. simpl. rewrite (jump_size _ _ _ _ Hx).
    pose proof (jump_positive op (proj1 Hx)). destruct Hx as (_ & _ & Hc). destruct c; simpl in *; lia.
  - eapply Forall_impl; [apply IH|]. simpl. lia.
Qed.

Lemma chosen_ok x y : chosen x y -> piece_ok x -> piece_ok y.
Proof. by destruct 1. Qed.

Lemma chosen_most x y : chosen x y -> most y = most x.
Proof. by destruct 1. Qed.

Lemma chosen_widest x y : chosen x y -> widest y = widest x.
Proof. by destruct 1. Qed.

Lemma chosen_labels x y : chosen x y -> label_of y = label_of x.
Proof. by destruct 1. Qed.

(** The label of a jump is bound. *)
Definition bound_in (ls : list Label) (x : Piece) : Prop := match x with PJump _ _ l _ => l ∈ ls | _ => True end.

(** A choice that suits the estimate is wide enough. *)
Lemma suits_wide e d t op args l c est :
  laid e (d ++ PJump op args l Pending :: t) -> NoDup (labels (d ++ PJump op args l Pending :: t)) ->
  piece_ok (PJump op args l c) -> suits op c (GetBitLengthSigned est) -> - 2 ^ 31 <= est < 2 ^ 31 ->
  ((exists a1 a2, d = a1 ++ PMark l :: a2 /\ est = - size a2) \/
   (exists b1 b2, t = b1 ++ PMark l :: b2 /\ est = sum known (PJump op args l Pending :: b1))) ->
  wide_enough d (PJump op args l c) t.
Proof.
  intros He Hnd Hx Hs Hr Hest. destruct c as [|op'|r]; simpl in Hs |- *; [done| |done].
  pose proof Hx as (Hop & _ & J & Hlen & _).
  apply (size_in_range _ _ est) in Hs; [|done|apply (jf_imm _ _ _ _ J)|done]. fold (imm_bits op op') in Hs. unfold in_s in Hs.
  rewrite labels_app in Hnd. apply NoDup_app in Hnd as (_ & Hdis & _).
  assert (Hex : forall a1 a2, d = a1 ++ PMark l :: a2 -> l ∉ labels t).
  { intros a1 a2 ->. intros Hl. apply (Hdis l); [|done]. rewrite labels_app. apply elem_of_app. right. left. }
  assert (Hpos : forall a1 a2, d = a1 ++ PMark l :: a2 -> size d = GetPc (pcList_ e) l + size a2).
  { intros a1 a2 ->. rewrite (la_pc _ _ l (size a1) He).
    - rewrite sum_app. simpl. unfold psize at 2. simpl. lia.
    - rewrite <- app_assoc. simpl app. apply (mark_in a1 l _ 0). }
  split.
  - intros a1 a2 Ed. destruct Hest as [(a1' & a2' & Ed' & ->)|(b1 & b2 & -> & _)].
    + apply Hpos in Ed, Ed'. lia.
    + destruct (Hex _ _ Ed). rewrite labels_app. apply elem_of_app. right. left.
  - intros n En. destruct Hest as [(a1 & a2 & Ed & _)|(b1 & b2 & -> & ->)].
    + destruct (Hex _ _ Ed). by eapply fwd_labels.
    + apply fwd_le in En. simpl sum in Hs. simpl known in Hs.
      change (known (PJump op args l (Direct op'))) with (psize (PJump op args l (Direct op'))) in *.
      rewrite (jump_size _ _ _ _ Hx). lia.
Qed.

Lemma marks_same p d x x' t :
  label_of x = [] -> label_of x' = [] -> psize x' = psize x -> marks p (d ++ x' :: t) = marks p (d ++ x :: t).
Proof. intros Ex Ex' Es. rewrite !marks_app. simpl. by rewrite Ex, Ex', Es. Qed.

Lemma most_nonneg ps : 0 <= sum most ps.
Proof. induction ps as [|y ps IH]; simpl; [lia|]. destruct y; unfold most, psize in *; lia. Qed.

Lemma size_most ps : Forall piece_ok ps -> size ps <= sum most ps.
Proof. intros Hp. apply sum_le. eapply Forall_impl; [done|]. intros y. apply psize_most. Qed.

Lemma pending_ok t : Forall pending t -> Forall piece_ok t.
Proof. intros Ht. eapply Forall_impl; [done|]. by intros x [? _]. Qed.

(** The estimate stays in the range of 32 bits. *)
Lemma estimate_range d t op args l est :
  Forall piece_ok d -> Forall pending (PJump op args l Pending :: t) -> sum most (d ++ PJump op args l Pending :: t) < 2 ^ 31 ->
  ((exists a1 a2, d = a1 ++ PMark l :: a2 /\ est = - size a2) \/
   (exists b1 b2, t = b1 ++ PMark l :: b2 /\ est = sum known (PJump op args l Pending :: b1))) ->
  - 2 ^ 31 <= est < 2 ^ 31.
Proof.
  intros Hd Ht Hm [(a1 & a2 & -> & ->)|(b1 & b2 & -> & ->)].
  - pose proof (size_most _ Hd) as Hs. rewrite !sum_app in *. simpl in *. pose proof (size_nonneg a1).
    pose proof (size_nonneg a2). pose proof (most_nonneg t). unfold psize at 2 in Hs. simpl in Hs. lia.
  - assert (Hk : sum known (PJump op args l Pending :: b1) <= sum most (PJump op args l Pending :: b1)).
    { apply sum_le. rewrite app_comm_cons in Ht. apply Forall_app in Ht as [Ht _]. eapply Forall_impl; [exact Ht|].
      intros y [Hy Hc]. destruct y as [|? ? ? c|]; simpl; [lia| |lia]. subst c. lia. }
    rewrite app_comm_cons, !sum_app in Hm. pose proof (most_nonneg d). pose proof (most_nonneg (PMark l :: b2)).
    assert (0 <= sum known (PJump op args l Pending :: b1)); [|lia].
    generalize (PJump op args l Pending :: b1). intros ps. induction ps as [|y ps IH]; simpl; [lia|].
    pose proof (known_nonneg y). lia.
Qed.

(** In short code no jump goes around. *)
Definition is_direct (x : Piece) : Prop := around x = false.

Lemma direct_sum f ps :
  (forall x, piece_ok x -> is_direct x -> f x <= widest x) -> Forall piece_ok ps -> Forall is_direct ps ->
  sum f ps <= sum widest ps.
Proof. intros Hf Hp Hd. apply sum_le. apply Forall_forall. intros x Hx. rewrite Forall_forall in *. auto. Qed.

Lemma known_direct x : piece_ok x -> is_direct x -> known x <= widest x.
Proof. intros Hx Hd. apply known_widest; [done|]. intros op args l r ->. done. Qed.

Lemma widest_nonneg ps : 0 <= sum widest ps.
Proof. induction ps as [|y ps IH]; simpl; [lia|]. destruct y; unfold widest, psize in *; lia. Qed.

Lemma short_direct d t op args l c est :
  Forall piece_ok d -> Forall pending (PJump op args l Pending :: t) -> Forall is_direct d ->
  sum widest (d ++ PJump op args l Pending :: t) <= INT16_MAX ->
  ((exists a1 a2, d = a1 ++ PMark l :: a2 /\ est = - size a2) \/
   (exists b1 b2, t = b1 ++ PMark l :: b2 /\ est = sum known (PJump op args l Pending :: b1))) ->
  suits op c (GetBitLengthSigned est) -> is_direct (PJump op args l c).
Proof.
  intros Hd Ht Hdir Hw Hest Hs. assert (Hr : INT16_MIN <= est <= INT16_MAX).
  { destruct Hest as [(a1 & a2 & -> & ->)|(b1 & b2 & -> & ->)].
    - assert (size (a1 ++ PMark l :: a2) <= sum widest (a1 ++ PMark l :: a2)).
      { apply direct_sum; [|done..]. intros x Hx Hxd. etransitivity; [by apply psize_known|by apply known_direct]. }
      rewrite !sum_app in *. simpl in *. pose proof (size_nonneg a1). pose proof (size_nonneg a2). pose proof (widest_nonneg t).
      change (psize (PMark l)) with 0 in *. lia.
    - rewrite app_comm_cons in Ht, Hw. apply Forall_app in Ht as [Ht _]. rewrite !sum_app in Hw.
      assert (sum known (PJump op args l Pending :: b1) <= sum widest (PJump op args l Pending :: b1)).
      { apply direct_sum; [apply known_direct|by apply pending_ok|]. eapply Forall_impl; [exact Ht|].
        intros y [_ Hy]. destruct y; [done| |done]. by subst. }
      pose proof (widest_nonneg d). pose proof (widest_nonneg (PMark l :: b2)).
      assert (0 <= sum known (PJump op args l Pending :: b1)); [|lia].
      generalize (PJump op args l Pending :: b1). intros ps. induction ps as [|y ps IH]; simpl; [lia|].
      pose proof (known_nonneg y). lia. }
  destruct c as [| |r]; [done..|]. simpl in Hs. unfold GetBitLengthSigned in Hs.
  rewrite (proj2 (Z.leb_le INT16_MIN est)), (proj2 (Z.leb_le est INT16_MAX)) in Hs by lia. simpl in Hs.
  by repeat case_match.
Qed.

(** One turn of the loop. *)
Lemma loop_step e d t op args l o bias :
  laid e (d ++ PJump op args l Pending :: t) -> NoDup (labels (d ++ PJump op args l Pending :: t)) ->
  Forall piece_ok d -> Forall pending (PJump op args l Pending :: t) -> l ∈ labels (d ++ PJump op args l Pending :: t) ->
  sum most (d ++ PJump op args l Pending :: t) < 2 ^ 31 -> 0 <= o -> 0 <= bias -> o + bias = size d ->
  exists c e', c <> Pending /\ piece_ok (PJump op args l c) /\ wide_enough d (PJump op args l c) t /\
    (Forall is_direct d -> sum widest (d ++ PJump op args l Pending :: t) <= INT16_MAX -> is_direct (PJump op args l c)) /\
    laid e' (d ++ PJump op args l c :: t) /\
    ReserveSpaceForOffsets_loop (brs o (PJump op args l Pending :: t)) e bias (brs 0 d) =
    ReserveSpaceForOffsets_loop (brs (o + psize (PJump op args l Pending)) t) e'
      (bias + psize (PJump op args l c) - psize (PJump op args l Pending)) (brs 0 (d ++ [PJump op args l c])).
Proof.
  intros He Hnd Hd Hp Hl Hm Ho Hbias Hob. set (x := PJump op args l Pending) in *.
  assert (Hx : piece_ok x) by (by apply Forall_cons_1 in Hp as [[? _] _]).
  assert (Hsz : size (d ++ x :: t) + 5 < 2 ^ 31).
  { pose proof (size_most _ Hd). pose proof (size_most _ (pending_ok _ (proj2 (proj1 (Forall_cons _ _ _) Hp)))).
    rewrite sum_app in Hm |- *. simpl sum in *. unfold x in *. rewrite (jump_size _ _ _ _ Hx). simpl in Hm. lia. }
  pose proof (size_nonneg d). pose proof (size_nonneg t).
  destruct (estimate {| e with branches_ := brs o (x :: t) |} d x t op args l o bias) as (est & Eest & Hest); try done.
  { by destruct He. }
  pose proof (estimate_range _ _ _ _ _ _ Hd Hp Hm Hest) as Hr.
  destruct (reserve_step d t op args l (GetBitLengthSigned est) Hx Hsz) as (c & Hc & Hs & Er). exists c.
  assert (Hw : wide_enough d (PJump op args l c) t) by (by eapply suits_wide).
  assert (Hcp : c <> Pending) by (by intros ->).
  assert (Hdir : Forall is_direct d -> sum widest (d ++ x :: t) <= INT16_MAX -> is_direct (PJump op args l c))
    by (intros ? ?; by eapply short_direct).
  change (brs o (x :: t)) with ((o + 0, l) :: brs (o + psize x) t) in *. rewrite Z.add_0_r in *. simpl.
  rewrite (wrapu_id 32 (o + bias)) by (unfold in_u; rewrite sum_app in Hsz; simpl in Hsz; pose proof (psize_nonneg x); lia).
  rewrite Hob, (la_code _ _ He). unfold x at 1. rewrite (code_at d _ t op args l Pending eq_refl) by (by split).
  cbv [mbind outcome_bind]. destruct (head_ok op (proj1 Hx)) as [J Hlong]. rewrite (imm_size_jump _ _ _ _ J).
  simpl in Eest. rewrite (la_code _ _ He) in Eest. rewrite Eest. fold x in Er. rewrite Er, map_insert_last.
  2: { eapply Forall_impl; [by apply brs_lt|]. intros b. simpl. assert (0 <= branch_at op c) by (unfold branch_at; destruct c; lia). lia. }
  rewrite (brs_app 0 d [_]). simpl brs at 3. rewrite Z.add_0_l.
  assert (Hge : psize x <= psize (PJump op args l c)).
  { unfold x. rewrite (jump_size _ _ _ _ Hx), (jump_size _ _ _ _ Hc). destruct Hc as (_ & _ & Hc).
    destruct c; simpl in Hc; lia. }
  fold x. set (x' := PJump op args l c) in *. replace (bias + psize x' - psize x) with (bias + (psize x' - psize x)) by lia.
  assert (Htot : size (d ++ x' :: t) < 2 ^ 31).
  { assert (Hall : Forall piece_ok (d ++ x' :: t)).
    { apply Forall_app. split; [done|]. constructor; [done|]. by apply pending_ok, (Forall_cons_1 _ _ _ Hp). }
    apply size_most in Hall. rewrite sum_app in Hm. rewrite !sum_app in Hall. simpl sum in *. change (most x') with (most x) in Hall.
    rewrite sum_app. simpl sum. lia. }
  destruct (Z.ltb_spec 0 (psize x' - psize x)) as [Hlt|Hle].
  - eexists. split; [done|]. split; [done|]. split; [done|]. split; [done|]. split; cycle 1.
    + rewrite (wrapu_id 32); [done|]. unfold in_u. rewrite sum_app in Htot. simpl in Htot. pose proof (psize_nonneg x). lia.
    + apply (UpdateLabelTargets_laid e _ d x x' t); try done; [|lia|pose proof (size_nonneg (d ++ x' :: t)); lia].
      unfold x. rewrite (jump_size _ _ _ _ Hx). pose proof (jump_positive op (proj1 Hx)). lia.
  - assert (Es : psize x' = psize x) by lia. eexists. split; [done|]. split; [done|]. split; [done|]. split; [done|]. split; cycle 1.
    + by rewrite Es, Z.sub_diag, Z.add_0_r.
    + destruct He as [L1 L2 L3]. split; simpl; [done| |].
      * intros l' q. rewrite (marks_same 0 d x x' t) by done. apply L2.
      * rewrite L3, !labels_app. done.
Qed.

Lemma step_fits d op args l c t :
  piece_ok (PJump op args l c) -> Forall pending t -> fits [] (d ++ PJump op args l Pending :: t) ->
  wide_enough d (PJump op args l c) t -> fits [] (d ++ PJump op args l c :: t).
Proof.
  intros Hc Ht Hf Hw. eapply fits_change; [..|exact Hf|exact Hw]; try done. intros Ha. split; [done|].
  destruct c as [|op'|]; [done| |done]. change (psize (PJump op args l (Direct op')) <= Z.of_nat (longest op)).
  rewrite (jump_size _ _ _ _ Hc). destruct Hc as (_ & _ & _ & ? & _). lia.
Qed.

Lemma loop_spec t d e bias o :
  laid e (d ++ t) -> NoDup (labels (d ++ t)) -> Forall piece_ok d -> Forall pending t ->
  Forall (bound_in (labels (d ++ t))) t -> sum most (d ++ t) < 2 ^ 31 -> 0 <= o -> 0 <= bias -> o + bias = size d ->
  fits [] (d ++ t) ->
  exists e' t', ReserveSpaceForOffsets_loop (brs o t) e bias (brs 0 d) = Done e' /\ Forall2 chosen t t' /\
    laid e' (d ++ t') /\ branches_ e' = brs 0 (d ++ t') /\ fits [] (d ++ t') /\
    (Forall is_direct d -> sum widest (d ++ t) <= INT16_MAX -> Forall is_direct t').
Proof.
  revert d e bias o. induction t as [|x t IH]; intros d e bias o He Hnd Hd Ht Hl Hm Ho Hbias Hob Hf.
  { exists {| e with branches_ := brs 0 d |}, []. split; [done|]. split; [constructor|]. rewrite app_nil_r in *.
    split; [|by split_and!]. by destruct He. }
  apply Forall_cons_1 in Ht as [Hx Ht]. apply Forall_cons_1 in Hl as [Hlx Hl]. pose proof (psize_nonneg x).
  assert (Hstep : forall x' e' bias', chosen x x' -> piece_ok x' -> laid e' (d ++ x' :: t) -> 0 <= bias' ->
    o + psize x + bias' = size (d ++ [x']) -> fits [] (d ++ x' :: t) ->
    (Forall is_direct d -> sum widest (d ++ x :: t) <= INT16_MAX -> is_direct x') ->
    exists e'' t'', ReserveSpaceForOffsets_loop (brs (o + psize x) t) e' bias' (brs 0 (d ++ [x'])) = Done e'' /\
      Forall2 chosen (x :: t) t'' /\ laid e'' (d ++ t'') /\ branches_ e'' = brs 0 (d ++ t'') /\ fits [] (d ++ t'') /\
      (Forall is_direct d -> sum widest (d ++ x :: t) <= INT16_MAX -> Forall is_direct t'')).
  { intros x' e' bias' Hc Hx' He' Hb' Hob' Hf' Hdir. pose proof (chosen_labels _ _ Hc) as El. pose proof (chosen_most _ _ Hc) as Em.
    assert (Elab : labels (d ++ x' :: t) = labels (d ++ x :: t)) by
      (rewrite !labels_app; unfold labels at 2 4; simpl; by rewrite El).
    assert (Emost : sum most (d ++ x' :: t) = sum most (d ++ x :: t)) by (rewrite !sum_app; simpl; by rewrite Em).
    destruct (IH (d ++ [x']) e' bias' (o + psize x)) as (e'' & t'' & E1 & E2 & E3 & E4 & E5 & E6);
      rewrite <- ?app_assoc; simpl app; rewrite ?Elab, ?Emost; try done; [|lia|].
    { apply Forall_app. by repeat constructor. }
    rewrite <- app_assoc in E3, E4, E5. exists e'', (x' :: t'').
    split; [done|]. split; [by constructor|]. split_and!; [done..|]. intros Hd' Hw. constructor; [by apply Hdir|]. apply E6.
    - apply Forall_app. repeat constructor; [done|]. by apply Hdir.
    - rewrite sum_app in Hw |- *. rewrite sum_app. simpl in *. rewrite (chosen_widest _ _ Hc). lia. }
  destruct x as [bs|op args l c|l].
  - rewrite <- (app_nil_r (brs 0 d)). change [] with (brs (0 + size d) [PPlain bs]) at 1. rewrite <- brs_app.
    change (brs o (PPlain bs :: t)) with (brs (o + psize (PPlain bs)) t).
    apply Hstep; try done; [constructor|]. rewrite sum_app. simpl. lia.
  - destruct Hx as [Hx Hc]. subst c.
    destruct (loop_step e d t op args l o bias) as (c & e' & Hc & Hok & Hw & Hdir & He' & ->); try done.
    { constructor; [done|]. done. }
    assert (psize (PJump op args l Pending) <= psize (PJump op args l c)).
    { rewrite (jump_size _ _ _ _ Hx), (jump_size _ _ _ _ Hok). pose proof Hok as (_ & _ & Hcc).
      destruct c; simpl in Hcc; lia. }
    apply Hstep; try done; [by constructor|lia| |].
    + rewrite sum_app. simpl. lia.
    + by apply step_fits.
  - rewrite <- (app_nil_r (brs 0 d)). change [] with (brs (0 + size d) [PMark l]) at 1. rewrite <- brs_app.
    change (brs o (PMark l :: t)) with (brs (o + psize (PMark l)) t).
    apply Hstep; try done; [constructor|]. rewrite sum_app. simpl. lia.
Qed.

(** ** The distances are filled in *)
Fixpoint label_pos (l : Label) (p : Z) (ps : list Piece) : Z :=
  match ps with
  | [] => p
  | x :: ps => if bool_decide (l ∈ label_of x) then p else label_pos l (p + psize x) ps
  end.

(** The distance from the branch of a piece at [p] to its label. *)
Definition distance (all : list Piece) (p : Z) (x : Piece) : Z :=
  match x with PJump op _ l c => label_pos l 0 all - (p + branch_at op c) | _ => 0 end.

Fixpoint resolve (all : list Piece) (p : Z) (ps : list Piece) : list Z :=
  match ps with
  | [] => []
  | x :: ps => pbytes x (distance all p x) ++ resolve all (p + psize x) ps
  end.

Lemma label_pos_mark l p ps : l ∈ labels ps -> (l, label_pos l p ps) ∈ marks p ps.
Proof.
  revert p. induction ps as [|x ps IH]; intros p; [by intros ?%elem_of_nil|]. unfold labels. simpl. rewrite !elem_of_app.
  destruct (bool_decide_reflect (l ∈ label_of x)) as [Hl|Hl].
  - intros _. left. apply list_elem_of_fmap. by exists l.
  - intros [?|?]; [done|]. right. by apply IH.
Qed.

Lemma pbytes_length x v : piece_ok x -> Z.of_nat (length (pbytes x v)) = psize x.
Proof.
  intros Hx. unfold psize. f_equal. destruct x as [|op args l c|]; [done| |done]. destruct Hx as (Hop & Hl & Hc).
  destruct (head_ok op Hop) as [J _]. destruct c as [|op'|r]; simpl in *.
  - by rewrite !insn_bytes_length.
  - destruct Hc. by rewrite !insn_bytes_length.
  - destruct Hc. rewrite !length_app, !insn_bytes_length; done || apply jmp_ok.
Qed.

(** The branch of a piece is set. *)
Lemma set_branch op args l c v (a b : list Z) :
  piece_ok (PJump op args l c) ->
  UpdateBranchOffs (a ++ pbytes (PJump op args l c) 0 ++ b) (Z.of_nat (length a) + branch_at op c) v =
  Done (a ++ pbytes (PJump op args l c) v ++ b).
Proof.
  intros (Hop & Hl & Hc). destruct (head_ok op Hop) as [J _]. destruct c as [|op'|r]; simpl in *.
  - rewrite Z.add_0_r. by apply UpdateBranchOffs_jump.
  - rewrite Z.add_0_r. apply UpdateBranchOffs_jump; [apply Hc|done].
  - destruct Hc as [Jr _]. rewrite <- !app_assoc, !(app_assoc a).
    replace (Z.of_nat (length a) + Z.of_nat (size_of op)) with
      (Z.of_nat (length (a ++ insn_bytes r (mid op) (imm_at op) (size_of op) args (Z.of_nat (size_of op + 5)))))
      by (rewrite length_app, insn_bytes_length by done; lia).
    apply UpdateBranchOffs_jump; [apply jmp_ok|done].
Qed.

Lemma branches_spec all pcs t a :
  (forall l p, (l, p) ∈ marks 0 all -> GetPc pcs l = p) -> Forall piece_ok t -> Forall (bound_in (labels all)) t ->
  size all < 2 ^ 31 -> Z.of_nat (length a) + size t <= size all ->
  UpdateBranches_loop (brs (Z.of_nat (length a)) t) pcs (a ++ code0 t) = Done (a ++ resolve all (Z.of_nat (length a)) t).
Proof.
  intros Hpcs Ht Hl Hb. revert a. induction Ht as [|x t Hx _ IH]; intros a Hs; [done|].
  apply Forall_cons_1 in Hl as [Hlx Hl]. simpl in Hs |- *. rewrite code0_cons.
  assert (Hrec : forall v, UpdateBranches_loop (brs (Z.of_nat (length a) + psize x) t) pcs (a ++ pbytes x v ++ code0 t) =
    Done (a ++ pbytes x v ++ resolve all (Z.of_nat (length a) + psize x) t)).
  { intros v. pose proof (IH Hl (a ++ pbytes x v)) as E. rewrite length_app, Nat2Z.inj_add, pbytes_length in E by done.
    rewrite <- !app_assoc in E. apply E. lia. }
  destruct x as [bs|op args l c|l]; [apply Hrec| |apply Hrec]. simpl brs. cbn [UpdateBranches_loop app].
  simpl in Hlx. apply (label_pos_mark l 0) in Hlx. rewrite (Hpcs _ _ Hlx). apply marks_bounds in Hlx.
  pose proof (size_nonneg t). assert (0 <= branch_at op c <= psize (PJump op args l c)).
  { rewrite (jump_size _ _ _ _ Hx). destruct c; simpl; lia. }
  rewrite !(wraps_id 32) by (try lia; unfold in_s; change (32 - 1) with 31; rewrite ?(wraps_id 32) by (try lia; unfold in_s; change (32 - 1) with 31; lia); lia).
  rewrite set_branch by done. cbv [mbind outcome_bind]. apply Hrec.
Qed.
End Build.
