(* ===== verification/BytecodeProgram.v ===== *)
(** Programs of a client of the byte code emitter, from the calls of its methods to the run of the jumps.

    A client creates labels, emits instructions and binds labels; [Build] then gives the byte code.
    [Build_layout]: what the output is.  [jump_runs]: a jump of the output, or the pair of jumps that stands for it, leads
    to the label of the jump when its condition holds, and to the next instruction when it does not.
    [Build_unbound]: a label that is not bound is reported. *)
From Stdlib Require Import Sorted.
From S2P Require Import Prelude Leb128 DynChunk BytecodeEmitter BytecodeEncode BytecodeLayout BytecodeBuild.
From stdpp Require Import list.
Import Chunk BytecodeEmitter.
Local Open Scope Z_scope.
Local Open Scope ark_scope.

Section Program.
Context `{IsaOk}.

Abbreviation size := (sum psize).

(** ** The calls of a client *)
Definition emit_item (e : BytecodeEmitter) (i : Item) : outcome BytecodeEmitter :=
  match i with
  | Plain bs => Done (emit_bytes e bs)
  | Jump op args l => emit_jump e op args l
  | Mark l => Done (Bind e l)
  end.

Fixpoint emit_all (e : BytecodeEmitter) (items : list Item) : outcome BytecodeEmitter :=
  match items with
  | [] => Done e
  | i :: items => e ← emit_item e i; emit_all e items
  end.

(** An emitter with [k] labels. *)
Fixpoint create_labels (k : nat) : BytecodeEmitter :=
  match k with O => new_emitter | S k => fst (CreateLabel (create_labels k)) end.

Definition run_client (k : nat) (items : list Item) : outcome (ErrorCode * option (list Z)) :=
  e ← emit_all (create_labels k) items; Build e.

Lemma create_labels_state k : create_labels k = mkEmitter 0 [] [] (replicate k 0) [].
Proof.
  induction k as [|k IH]; [done|]. simpl. rewrite IH. unfold CreateLabel. simpl. f_equal.
  by rewrite <- replicate_cons_app.
Qed.

(** The emitter after some of the calls. *)
Record emitted (k : nat) (e : BytecodeEmitter) (ps : list Piece) : Prop := {
  em_laid : laid e ps;
  em_pc : pc_ e = size ps;
  em_branches : branches_ e = brs 0 ps;
  em_labels : length (pcList_ e) = k;
  em_unbound : forall l, (l < k)%nat -> l ∉ labels ps -> pcList_ e !! l = Some 0;
}.

Lemma laid_app e e' ps x :
  laid e ps -> label_of x = [] -> bytecode_ e' = bytecode_ e ++ pbytes x 0 -> pcList_ e' = pcList_ e ->
  targets_ e' = targets_ e -> laid e' (ps ++ [x]).
Proof.
  intros [L1 L2 L3] Ex Eb Ep Et. split.
  - rewrite Eb, L1, code0_app. f_equal. unfold code0. simpl. by rewrite app_nil_r.
  - intros l p. rewrite marks_app. simpl. rewrite Ex, app_nil_r, Ep. apply L2.
  - rewrite Et, L3, labels_app. unfold labels at 3. simpl. by rewrite Ex, app_nil_r.
Qed.

Lemma emitted_bytes k e e' ps x :
  emitted k e ps -> piece_ok x -> label_of x = [] -> size (ps ++ [x]) < 2 ^ 32 ->
  branches_ e' = brs 0 (ps ++ [x]) -> targets_ e' = targets_ e -> pcList_ e' = pcList_ e -> bytecode_ e' = bytecode_ e ->
  pc_ e' = pc_ e -> emitted k (emit_bytes e' (pbytes x 0)) (ps ++ [x]).
Proof.
  intros [E1 E2 E3 E4 E5] Hx Hl Hb Eb Et Ep Ec Epc. split; simpl.
  - apply (laid_app e); simpl; by rewrite ?Ec.
  - rewrite Epc, E2, pbytes_length by done. rewrite sum_app in *. simpl in *. rewrite Z.add_0_r in *.
    pose proof (size_nonneg ps). pose proof (psize_nonneg x). rewrite (wrapu_id 32); [done|]. unfold in_u. lia.
  - done.
  - by rewrite Ep.
  - intros l Hk. rewrite labels_app, Ep. unfold labels at 2. simpl. rewrite Hl, app_nil_r. by apply E5.
Qed.

Lemma emit_item_spec k e ps i :
  emitted k e ps -> Forall piece_ok (ps ++ [piece_of i]) -> NoDup (labels (ps ++ [piece_of i])) ->
  Forall (fun l => l < k)%nat (label_of (piece_of i)) -> size (ps ++ [piece_of i]) < 2 ^ 32 ->
  exists e', emit_item e i = Done e' /\ emitted k e' (ps ++ [piece_of i]).
Proof.
  intros He Hp Hnd Hk Hb. apply Forall_app in Hp as [Hps Hi]. apply Forall_cons_1 in Hi as [Hi _].
  destruct i as [bs|op args l|l]; simpl in *.
  - eexists. split; [done|]. apply (emitted_bytes k e e ps (PPlain bs)); try done.
    rewrite (em_branches _ _ _ He), brs_app. simpl. by rewrite app_nil_r.
  - destruct Hi as (Hop & Hl & _). unfold emit_jump. rewrite (Emit_jump op _ _ _ args 0 (proj1 (head_ok op Hop)) Hl).
    cbv [mbind outcome_bind]. eexists. split; [done|].
    apply (emitted_bytes k e _ ps (PJump op args l Pending)); try done. simpl.
    rewrite (em_branches _ _ _ He), (em_pc _ _ _ He), map_insert_last, brs_app.
    + simpl. by rewrite Z.add_0_r.
    + apply (brs_lt 0 ps Hps).
  - eexists. split; [done|]. apply Forall_cons_1 in Hk as [Hk _]. destruct He as [[L1 L2 L3] E2 E3 E4 E5].
    rewrite labels_app in Hnd. apply NoDup_app in Hnd as (_ & Hdis & _).
    assert (Hnew : l ∉ labels ps) by (intros Hl; apply (Hdis l Hl); left).
    assert (Hpcs : forall l' q, (l', q) ∈ marks 0 ps -> <[l := pc_ e]> (pcList_ e) !! l' = Some q).
    { intros l' q Hq. rewrite list_lookup_insert_ne; [by apply L2|]. intros <-. apply Hnew.
      rewrite <- (marks_labels 0). apply list_elem_of_fmap. by exists (l, q). }
    assert (El : <[l := pc_ e]> (pcList_ e) !! l = Some (size ps)) by (rewrite list_lookup_insert_eq by lia; by rewrite E2).
    split; simpl; [split; simpl| | | |].
    + rewrite L1, code0_app. unfold code0. simpl. by rewrite app_nil_r.
    + intros l' q. rewrite marks_app. simpl. intros [Hq|Hq]%elem_of_app; [by apply Hpcs|].
      apply list_elem_of_singleton in Hq as [= -> ->]. done.
    + rewrite L3, labels_app, set_insert_last; [done|]. apply Forall_forall. intros l' Hl'. rewrite <- (marks_labels 0) in Hl'.
      apply list_elem_of_fmap in Hl' as ([l1 q] & -> & Hq). simpl. unfold GetPc. rewrite (Hpcs _ _ Hq), El. simpl.
      apply marks_bounds in Hq. lia.
    + rewrite sum_app. simpl. change (psize (PMark l)) with 0. lia.
    + rewrite E3, brs_app. simpl. by rewrite app_nil_r.
    + by rewrite length_insert.
    + intros l' Hl'. rewrite labels_app. unfold labels at 2. simpl. rewrite not_elem_of_app, list_elem_of_singleton.
      intros [Hn Hne]. rewrite list_lookup_insert_ne by done. by apply E5.
Qed.

(** ** Well-formed programs *)
Definition pieces (items : list Item) : list Piece := map piece_of items.

Record program (k : nat) (items : list Item) : Prop := {
  pg_ok : Forall piece_ok (pieces items);
  pg_once : NoDup (labels (pieces items));
  pg_created : Forall (fun l => l < k)%nat (labels (pieces items));
  pg_small : sum most (pieces items) < 2 ^ 31;
}.

Lemma emit_all_spec k items ps e :
  emitted k e ps -> program k items -> Forall piece_ok ps -> NoDup (labels (ps ++ pieces items)) ->
  sum most (ps ++ pieces items) < 2 ^ 31 ->
  exists e', emit_all e items = Done e' /\ emitted k e' (ps ++ pieces items).
Proof.
  revert ps e. induction items as [|i items IH]; intros ps e He [P1 P2 P3 P4] Hps Hnd Hm; simpl.
  { rewrite app_nil_r. eauto. }
  unfold pieces in *. simpl in *. unfold labels in P2, P3. simpl in P2, P3. apply Forall_cons_1 in P1 as [Pi P1].
  apply NoDup_app in P2 as (_ & _ & P2). apply Forall_app in P3 as [Pk P3]. fold (labels (map piece_of items)) in *.
  assert (Hn : forall ps, 0 <= sum most ps) by apply most_nonneg.
  assert (E : ps ++ piece_of i :: map piece_of items = (ps ++ [piece_of i]) ++ map piece_of items) by by rewrite <- app_assoc.
  rewrite E in *. assert (Hps' : Forall piece_ok (ps ++ [piece_of i])) by (apply Forall_app; by repeat constructor).
  destruct (emit_item_spec k e ps i) as (e1 & -> & He1); try done.
  - rewrite labels_app in Hnd. by apply NoDup_app in Hnd as (? & _ & _).
  - apply size_most in Hps'. rewrite sum_app in Hm. specialize (Hn (map piece_of items)). lia.
  - apply IH; try done. split; try done. unfold pieces. rewrite !sum_app in Hm. pose proof (Hn ps). pose proof (Hn [piece_of i]). lia.
Qed.

(** Every client's calls succeed. *)
Lemma emit_program k items :
  program k items -> exists e, emit_all (create_labels k) items = Done e /\ emitted k e (pieces items).
Proof.
  intros Hp. apply (emit_all_spec k items []); try done.
  - rewrite create_labels_state. split; simpl; [split; simpl; try done|done|done|apply length_replicate|].
    + by intros l p ?%elem_of_nil.
    + intros l Hl _. by apply lookup_replicate_2.
  - apply Hp.
  - apply Hp.
Qed.

(** ** What is built *)
Definition bound (items : list Item) : Prop := Forall (bound_in (labels (pieces items))) (pieces items).

Lemma brs_elem p ps q l : (q, l) ∈ brs p ps -> exists op args c, PJump op args l c ∈ ps.
Proof.
  revert p. induction ps as [|x ps IH]; intros p; [by intros ?%elem_of_nil|]. simpl. intros [Hq|Hq]%elem_of_app.
  - destruct x as [|op args l' c|]; [by apply elem_of_nil in Hq| |by apply elem_of_nil in Hq].
    apply list_elem_of_singleton in Hq as [= _ ->]. exists op, args, c. left.
  - destruct (IH _ Hq) as (op & args & c & ?). exists op, args, c. by right.
Qed.

Lemma check_bound k e items :
  emitted k e (pieces items) -> bound items -> CheckLabels e = SUCCESS.
Proof.
  intros [E1 E2 E3 E4 _] Hb. unfold CheckLabels. rewrite E3, (la_targets _ _ E1), (proj2 (forallb_forall _ _)); [done|].
  intros [q l] Hq. apply list_elem_of_In, brs_elem in Hq as (op & args & c & Hx). simpl.
  unfold bound in Hb. rewrite Forall_forall in Hb. apply Hb in Hx. simpl in Hx. apply set_find_in; [|done].
  eapply (labels_sorted _ _ 0). intros l' q'. by apply la_pc.
Qed.

Lemma chosen_pieces ps ps' :
  Forall2 chosen ps ps' -> Forall pending ps ->
  labels ps' = labels ps /\ sum most ps' = sum most ps /\ Forall piece_ok ps' /\
  (forall ls, Forall (bound_in ls) ps -> Forall (bound_in ls) ps').
Proof.
  induction 1 as [|x y ps ps' Hc _ IH]; intros Hp; [by split_and!; [..|intros; constructor]|].
  apply Forall_cons_1 in Hp as [[Hx _] Hp]. destruct (IH Hp) as (E1 & E2 & E3 & E4). unfold labels in *. simpl.
  rewrite (chosen_labels _ _ Hc), (chosen_most _ _ Hc), E1, E2. split_and!; try done.
  - constructor; [by eapply chosen_ok|done].
  - intros ls [Hl Hls]%Forall_cons_1. constructor; [by destruct Hc|auto].
Qed.

Lemma pieces_pending items : Forall piece_ok (pieces items) -> Forall pending (pieces items).
Proof.
  unfold pieces. induction items as [|i items IH]; simpl; [constructor|]. intros [Hi Hp]%Forall_cons_1. constructor; [|auto].
  split; [done|]. by destruct i.
Qed.

(** The forms of the jumps, and the output. *)
Record built (items : list Item) (ps : list Piece) : Prop := {
  bu_chosen : Forall2 chosen (pieces items) ps;
  bu_fits : fits [] ps;
  bu_direct : sum widest (pieces items) <= INT16_MAX -> Forall is_direct ps;
}.

Lemma Build_spec k items :
  program k items -> bound items ->
  exists ps, built items ps /\ run_client k items = Done (SUCCESS, Some (resolve ps 0 ps)).
Proof.
  intros Hp Hb. destruct (emit_program k items Hp) as (e & Ee & He). unfold run_client. rewrite Ee. cbv [mbind outcome_bind].
  unfold Build. rewrite (check_bound k e items He Hb). destruct He as [E1 E2 E3 E4 _].
  pose proof (pieces_pending items (pg_ok _ _ Hp)) as Hpend.
  unfold ReserveSpaceForOffsets. rewrite E3.
  destruct (loop_spec (pieces items) [] e 0 0) as (e' & ps & El0 & Hc & He' & Hbr & Hf & Hdir); try done.
  { apply Hp. } { apply Hp. } { by apply fits_pending. }
  change (brs 0 []) with (@nil (Z * Label)) in El0. rewrite El0.
  cbv [mbind outcome_bind]. unfold UpdateBranches. simpl in Hbr, He', Hf. rewrite Hbr, (la_code _ _ He').
  destruct (chosen_pieces _ _ Hc Hpend) as (El & Em & Hok & Hl).
  pose proof (branches_spec ps (pcList_ e') ps []) as Ebr. change (Z.of_nat (length [])) with 0 in Ebr. rewrite !app_nil_l in Ebr. rewrite Ebr.
  - cbv [mbind outcome_bind]. exists ps. split; [|done]. split; [done|done|]. intros Hw. by apply Hdir.
  - intros l p. by apply la_pc.
  - done.
  - rewrite El. by apply Hl.
  - apply size_most in Hok. pose proof (pg_small _ _ Hp). lia.
  - simpl. lia.
Qed.

(** ** Unbound labels *)
Definition jump_labels (items : list Item) : list Label := map snd (brs 0 (pieces items)).

Lemma set_find_spec pcs l s :
  StronglySorted (fun l1 l2 => GetPc pcs l1 <= GetPc pcs l2) s ->
  set_find pcs l s = true <-> exists l', l' ∈ s /\ GetPc pcs l' = GetPc pcs l.
Proof.
  induction 1 as [|l' s _ IH Hs]; simpl.
  - split; [done|]. by intros (? & ?%elem_of_nil & _).
  - destruct (Z.ltb_spec (GetPc pcs l') (GetPc pcs l)) as [Hlt|Hge].
    + rewrite IH. split; intros (l1 & Hl1 & E); exists l1; split; try done; [by right|].
      apply elem_of_cons in Hl1 as [->|?]; [lia|done].
    + rewrite negb_true_iff, Z.ltb_ge. split.
      * intros. exists l'. split; [left|lia].
      * intros (l1 & [->|Hl1]%elem_of_cons & E); [lia|]. rewrite Forall_forall in Hs. apply Hs in Hl1. lia.
Qed.

(** A bound label has a position, an unbound one the position 0. *)
Lemma label_found k e items l :
  emitted k e (pieces items) -> (l < k)%nat ->
  set_find (pcList_ e) l (targets_ e) = true <->
  l ∈ labels (pieces items) \/ exists l', (l', 0) ∈ marks 0 (pieces items).
Proof.
  intros [E1 E2 E3 E4 E5] Hl.
  assert (Hpc : forall l p, (l, p) ∈ marks 0 (pieces items) -> GetPc (pcList_ e) l = p) by (intros; by apply (la_pc _ _ _ _ E1)).
  destruct (labels_sorted _ _ 0 Hpc) as [Hs _]. rewrite (la_targets _ _ E1), set_find_spec by done. split.
  - intros (l' & Hl' & E). destruct (decide (l ∈ labels (pieces items))) as [?|Hn]; [by left|right]. exists l'.
    apply (label_pos_mark l' 0) in Hl'. pose proof (Hpc _ _ Hl') as Ep. unfold GetPc at 2 in E. rewrite (E5 l Hl Hn) in E.
    simpl in E. congruence.
  - intros [Hin|(l' & Hl')].
    + by exists l.
    + destruct (decide (l ∈ labels (pieces items))) as [?|Hn]; [by exists l|]. exists l'.
      rewrite (Hpc _ _ Hl'). unfold GetPc. rewrite (E5 l Hl Hn). split; [|done].
      rewrite <- (marks_labels 0). apply list_elem_of_fmap. by exists (l', 0).
Qed.

Lemma unbound_spec k items :
  program k items -> Forall (fun l => l < k)%nat (jump_labels items) ->
  run_client k items = Done (UNBOUND_LABELS, None) <->
  (exists l, l ∈ jump_labels items /\ l ∉ labels (pieces items)) /\ ~ exists l, (l, 0) ∈ marks 0 (pieces items).
Proof.
  intros Hp Hj. destruct (emit_program k items Hp) as (e & Ee & He). unfold run_client. rewrite Ee. cbv [mbind outcome_bind].
  assert (Hfind : forall l, l ∈ jump_labels items -> set_find (pcList_ e) l (targets_ e) = true <->
    l ∈ labels (pieces items) \/ exists l', (l', 0) ∈ marks 0 (pieces items)).
  { intros l Hl. apply (label_found k); [done|]. by rewrite Forall_forall in Hj; apply Hj. }
  assert (Hno : CheckLabels e = UNBOUND_LABELS <->
    exists l, l ∈ jump_labels items /\ set_find (pcList_ e) l (targets_ e) = false).
  { unfold CheckLabels. rewrite (em_branches _ _ _ He). unfold jump_labels. generalize (brs 0 (pieces items)). intros bs.
    induction bs as [|[q l] bs IH]; simpl.
    - split; [done|]. by intros (? & ?%elem_of_nil & _).
    - destruct (set_find (pcList_ e) l (targets_ e)) eqn:E; simpl.
      + rewrite IH. split; intros (l' & Hl' & E'); exists l'; split; try done; [by right|].
        apply elem_of_cons in Hl' as [->|?]; [congruence|done].
      + split; [|done]. intros _. exists l. split; [left|done]. }
  assert (Hbuild : Build e = Done (UNBOUND_LABELS, None) <-> CheckLabels e = UNBOUND_LABELS).
  { unfold Build. destruct (CheckLabels e) eqn:E; try done. split; [|done].
    destruct (ReserveSpaceForOffsets e) as [e1| |]; simpl; try done. by destruct (UpdateBranches e1). }
  rewrite Hbuild, Hno. split.
  - intros (l & Hl & E). apply not_true_iff_false in E. rewrite (Hfind l Hl) in E. split; [|tauto]. exists l. tauto.
  - intros [(l & Hl & Hn) Hz]. exists l. split; [done|]. apply not_true_iff_false. rewrite (Hfind l Hl). tauto.
Qed.
End Program.
