(* ===== verification/BytecodeRun.v ===== *)
(** The run of the jumps of built byte code.

    [jump_step] is what the interpreter does at a jump: it decodes the instruction at the program counter, and goes on at the
    distance in its immediate when the condition holds, behind the instruction when it does not.  The condition is a function of
    the opcode and the operands; [CondLaws] says what the emitter relies on: a wider jump has the same condition, a
    reverted one the opposite, and [JMP_IMM32] jumps always. *)
From S2P Require Import Prelude Leb128 DynChunk BytecodeEmitter BytecodeEncode BytecodeLayout BytecodeBuild BytecodeProgram.
From stdpp Require Import list.
Import Chunk BytecodeEmitter.
Local Open Scope Z_scope.
Local Open Scope ark_scope.

(** ** One instruction *)
Section Step.
Context `{Isa} (taken : Z -> list Z -> bool).

Definition jump_step (code : list Z) (pc : Z) : outcome Z :=
  let inst := drop (Z.to_nat pc) code in
  opcode ← GetOpcode inst;
  off ← branch_offsets opcode;
  match off with
  | o :: _ =>
      operands ← load inst (opcode_len opcode) (Z.to_nat (o / 8) - opcode_len opcode);
      if taken opcode operands then imm ← GetImm inst; Done (pc + i32 imm)
      else size ← GetSizeByOpcode opcode; Done (pc + size)
  | [] => Crash
  end.

(** One jump, or two. *)
Definition jumps (code : list Z) (p q : Z) : Prop :=
  jump_step code p = Done q \/ exists p', jump_step code p = Done p' /\ jump_step code p' = Done q.

Lemma jump_step_insn op m q n args v (a c : list Z) :
  JumpFormat op m q n -> length args = length m -> in_s (8 * Z.of_nat (n - q)) v ->
  jump_step (a ++ insn_bytes op m q n args v ++ c) (Z.of_nat (length a)) =
  Done (Z.of_nat (length a) + if taken op (operand_bytes (opcode_len op) m q args) then v else Z.of_nat n).
Proof.
  intros J Hl Hv. pose proof (jf_bounds _ _ _ _ J) as Hb. destruct (operand_bytes_ok op m q n args J Hl) as [_ Lb].
  unfold jump_step. rewrite Nat2Z.id, drop_app_length, (opcode_read _ _ _ _ _ _ _ J). cbv [mbind outcome_bind].
  rewrite (branch_offsets_jump _ _ _ _ J). replace (8 * Z.of_nat q / 8) with (Z.of_nat q) by (rewrite Z.mul_comm, Z.div_mul; lia).
  rewrite Nat2Z.id, (GetImm_jump op m q n args v c J Hl), (size_jump _ _ _ _ J).
  pose proof (load_app (bytes_of (opcode_len op) op) (operand_bytes (opcode_len op) m q args) (bytes_of (n - q) v ++ c)) as El.
  rewrite bytes_of_length, Lb in El. unfold insn_bytes. rewrite <- !app_assoc, El.
  destruct (taken op _); [|done]. rewrite (wraps_id (8 * Z.of_nat (n - q)) v) by (done || lia).
  rewrite (wraps_id 32); [done|lia|]. unfold in_s in *. pose proof (jf_imm _ _ _ _ J) as Hi.
  destruct Hi as [Hi|[Hi|Hi]]; rewrite Hi in Hv; simpl in Hv; simpl; lia.
Qed.
End Step.

Class CondLaws `{IsaOk} (taken : Z -> list Z -> bool) := {
  taken_jmp args : taken JMP_IMM32 args = true;
  taken_wide op s op' args :
    op ∈ heads -> GetSuitableJump op s = Done op' -> op' <> LAST -> taken op' args = taken op args;
  taken_revert op r args :
    op ∈ heads -> GetSuitableJump op BITSIZE_32 = Done LAST -> RevertConditionCode op = Done r ->
    taken r args = negb (taken op args);
}.

Section Run.
Context `{IsaOk}.
Abbreviation size := (sum psize).

(** ** Positions *)
Lemma resolve_app all p a b : resolve all p (a ++ b) = resolve all p a ++ resolve all (p + size a) b.
Proof.
  revert p. induction a as [|x a IH]; intros p; simpl; [by rewrite Z.add_0_r|]. rewrite IH, <- app_assoc. do 3 f_equal. lia.
Qed.

Lemma resolve_length all p a : Forall piece_ok a -> Z.of_nat (length (resolve all p a)) = size a.
Proof.
  intros Ha. revert p. induction Ha as [|x a Hx _ IH]; intros p; [done|]. simpl. rewrite length_app, Nat2Z.inj_add.
  by rewrite IH, pbytes_length.
Qed.

(** The first place of a label. *)
Lemma label_pos_before l a :
  l ∈ labels a -> exists a1 a2, a = a1 ++ PMark l :: a2 /\ forall p rest, label_pos l p (a ++ rest) = p + size a1.
Proof.
  induction a as [|x a IH]; [by intros ?%elem_of_nil|]. unfold labels. simpl. rewrite elem_of_app.
  destruct (decide (l ∈ label_of x)) as [Hl|Hl].
  - intros _. destruct x as [| |l']; simpl in Hl; [by apply elem_of_nil in Hl|by apply elem_of_nil in Hl|].
    apply list_elem_of_singleton in Hl as ->. exists [], a. split; [done|]. intros p rest. simpl.
    rewrite bool_decide_eq_true_2 by left. lia.
  - intros [?|Hla]; [done|]. destruct (IH Hla) as (a1 & a2 & -> & E). exists (x :: a1), a2. split; [done|].
    intros p rest. simpl. rewrite bool_decide_eq_false_2 by done. rewrite E. lia.
Qed.

Lemma label_pos_behind l a p rest : l ∉ labels a -> label_pos l p (a ++ rest) = label_pos l (p + size a) rest.
Proof.
  revert p. induction a as [|x a IH]; intros p; simpl; [by rewrite Z.add_0_r|]. unfold labels. simpl.
  rewrite not_elem_of_app. intros [Hx Ha]. rewrite bool_decide_eq_false_2 by done. rewrite IH by done. f_equal. lia.
Qed.

(** Pieces whose form is chosen. *)
Definition settled (x : Piece) : Prop := match x with PJump _ _ _ c => c <> Pending | _ => True end.

Lemma settled_known x : settled x -> known x = psize x.
Proof. by destruct x as [|? ? ? []|]. Qed.

(** The path to a label ahead. *)
Lemma fwd_first l b :
  l ∈ labels b -> Forall settled b ->
  (forall b1 b2, b = b1 ++ PMark l :: b2 -> Forall is_direct b1) ->
  exists n, fwd l b = Some n /\ 0 <= n /\ forall p, label_pos l p b = p + n.
Proof.
  intros Hl Hs. induction Hs as [|x b Hx _ IH]; intros Hd; [by apply elem_of_nil in Hl|]. unfold labels in Hl. simpl in Hl |- *.
  destruct (bool_decide_reflect (l ∈ label_of x)) as [Hlx|Hlx].
  - exists 0. split_and!; [done|lia|]. intros p. lia.
  - apply elem_of_app in Hl as [?|Hl]; [done|]. destruct (label_split b l Hl) as (b1 & b2 & Eb).
    assert (Hxd : is_direct x).
    { specialize (Hd (x :: b1) b2). rewrite Eb in Hd. by specialize (Hd eq_refl) as [? _]%Forall_cons_1. }
    unfold is_direct in Hxd. rewrite Hxd. destruct IH as (n & -> & Hn & Hp); [done| |].
    { intros b1' b2' ->. by specialize (Hd (x :: b1') b2' eq_refl) as [_ ?]%Forall_cons_1. }
    exists (known x + n). simpl. split; [done|]. pose proof (known_nonneg x). split; [lia|]. intros p. rewrite Hp.
    rewrite (settled_known x Hx). lia.
Qed.

Lemma chosen_settled ps ps' : Forall2 chosen ps ps' -> Forall settled ps'.
Proof. induction 1 as [|x y ps ps' Hc _ IH]; constructor; [by destruct Hc|done]. Qed.

(** A jump that is not replaced has an immediate for the distance, unless a jump in between is replaced. *)
Lemma direct_in_range ps a b op args l op' :
  ps = a ++ PJump op args l (Direct op') :: b -> Forall piece_ok ps -> Forall settled ps -> fits [] ps -> l ∈ labels ps ->
  (forall b1 b2, b = b1 ++ PMark l :: b2 -> Forall is_direct b1) ->
  in_s (imm_bits op op') (label_pos l 0 ps - size a).
Proof.
  intros -> Hok Hs Hf Hl Hd. set (x := PJump op args l (Direct op')) in *. pose proof (fits_at [] a x b Hf) as [Hb Hn].
  apply Forall_app in Hok as [_ [Hx _]%Forall_cons_1]. apply Forall_app in Hs as [_ [Hsx Hsb]%Forall_cons_1].
  assert (Hpow : 0 < 2 ^ (imm_bits op op' - 1)).
  { apply pow2_pos. destruct Hx as (_ & _ & J & _). unfold imm_bits. pose proof (jf_imm _ _ _ _ J). lia. }
  unfold in_s. destruct (decide (l ∈ labels a)) as [Hla|Hla].
  - destruct (label_pos_before l a Hla) as (a1 & a2 & -> & ->). specialize (Hb a1 a2 eq_refl). rewrite sum_app. simpl.
    change (psize (PMark l)) with 0. pose proof (size_nonneg a2). lia.
  - rewrite label_pos_behind by done. simpl.
    rewrite labels_app in Hl. apply elem_of_app in Hl as [?|Hl]; [done|]. unfold labels in Hl. simpl in Hl.
    destruct (fwd_first l b Hl Hsb Hd) as (n & En & Hn0 & ->). apply Hn in En. rewrite (settled_known x Hsx) in En.
    pose proof (psize_nonneg x). lia.
Qed.

(** ** The run *)
Context (taken : Z -> list Z -> bool) `{!CondLaws taken}.

(** The operands of a jump, as bytes. *)
Definition operands (op : Z) (args : list Z) : list Z := operand_bytes (opcode_len op) (mid op) (imm_at op) args.

Lemma direct_runs op args l op' v (a c : list Z) :
  piece_ok (PJump op args l (Direct op')) -> in_s (imm_bits op op') v ->
  jump_step taken (a ++ pbytes (PJump op args l (Direct op')) v ++ c) (Z.of_nat (length a)) =
  Done (Z.of_nat (length a) + if taken op (operands op args) then v else psize (PJump op args l (Direct op'))).
Proof.
  intros Hx Hv. rewrite (jump_size _ _ _ _ Hx). destruct Hx as (Hop & Hl & J & Hn & El & Hop').
  simpl pbytes. rewrite (jump_step_insn taken op' _ _ _ args v a c J Hl Hv). unfold operands. rewrite El.
  destruct Hop' as [->|(Hne & s & Es)]; [done|]. by rewrite (taken_wide op s op').
Qed.

Lemma around_runs op args l r v (a c : list Z) :
  piece_ok (PJump op args l (Around r)) -> in_s 32 v ->
  jumps taken (a ++ pbytes (PJump op args l (Around r)) v ++ c) (Z.of_nat (length a))
    (Z.of_nat (length a) + if taken op (operands op args) then Z.of_nat (size_of op) + v
                           else psize (PJump op args l (Around r))).
Proof.
  intros Hx Hv. rewrite (jump_size _ _ _ _ Hx). destruct Hx as (Hop & Hl & Jr & El & Er & Es).
  destruct (head_ok op Hop) as [J Hlong]. simpl pbytes. rewrite <- app_assoc.
  pose proof (jump_step_insn taken r _ _ _ args (Z.of_nat (size_of op + 5)) a (insn_bytes JMP_IMM32 [] 1 5 [] v ++ c) Jr Hl) as E1.
  rewrite El, (taken_revert op r) in E1 by done. fold (operands op args) in E1.
  assert (Hr : in_s (8 * Z.of_nat (size_of op - imm_at op)) (Z.of_nat (size_of op + 5))).
  { unfold in_s. destruct (jf_imm _ _ _ _ J) as [Hi|[Hi|Hi]]; rewrite Hi; simpl; lia. }
  specialize (E1 Hr). destruct (taken op (operands op args)); simpl in E1.
  - right. eexists. split; [exact E1|]. rewrite app_assoc.
    pose proof (jump_step_insn taken JMP_IMM32 [] 1 5 [] v
      (a ++ insn_bytes r (mid op) (imm_at op) (size_of op) args (Z.of_nat (size_of op + 5))) c (proj1 jmp_ok) eq_refl Hv) as E2.
    rewrite taken_jmp, length_app, insn_bytes_length, (Nat2Z.inj_add (length a)) in E2 by done. rewrite E2. f_equal. lia.
  - left. exact E1.
Qed.

Lemma jump_runs_spec k items ps a b op args l c :
  program k items -> bound items -> built items ps -> ps = a ++ PJump op args l c :: b ->
  (is_direct (PJump op args l c) -> forall b1 b2, b = b1 ++ PMark l :: b2 -> Forall is_direct b1) ->
  jumps taken (resolve ps 0 ps) (size a)
    (if taken op (operands op args) then label_pos l 0 ps else size (a ++ [PJump op args l c])).
Proof.
  intros Hp Hb [B1 B2 _] Eps Hd. destruct (chosen_pieces _ _ B1 (pieces_pending items (pg_ok _ _ Hp))) as (El & Em & Hok & Hl).
  pose proof (chosen_settled _ _ B1) as Hs. pose proof (size_most _ Hok) as Hsz. rewrite Em in Hsz.
  pose proof (pg_small _ _ Hp) as Hsm. pose proof (Hl _ Hb) as Hlab. rewrite <- El in Hlab.
  assert (Hx : piece_ok (PJump op args l c)) by (rewrite Eps in Hok; by apply Forall_app in Hok as [_ [? _]%Forall_cons_1]).
  assert (Ha : Forall piece_ok a) by (rewrite Eps in Hok; by apply Forall_app in Hok as [? _]).
  assert (Hxs : c <> Pending) by (rewrite Eps in Hs; by apply Forall_app in Hs as [_ [? _]%Forall_cons_1]).
  assert (Hlx : l ∈ labels ps) by (rewrite Eps in Hlab at 2; by apply Forall_app in Hlab as [_ [? _]%Forall_cons_1]).
  pose proof (marks_bounds _ _ _ _ (label_pos_mark l 0 ps Hlx)) as Hpos.
  assert (Ecode : resolve ps 0 ps = resolve ps 0 a ++ pbytes (PJump op args l c) (distance ps (size a) (PJump op args l c)) ++
    resolve ps (size a + psize (PJump op args l c)) b).
  { rewrite Eps at 2. by rewrite resolve_app. }
  rewrite Ecode, <- (resolve_length ps 0 a Ha). rewrite sum_app. simpl sum. rewrite Z.add_0_r, <- (resolve_length ps 0 a Ha).
  destruct c as [|op'|r]; [done| |]; simpl distance; rewrite (resolve_length ps 0 a Ha).
  - left. rewrite Z.add_0_r, <- (resolve_length ps 0 a Ha), direct_runs; [|done|].
    + f_equal. destruct (taken op (operands op args)); lia.
    + rewrite (resolve_length ps 0 a Ha). apply (direct_in_range ps a b op args l op'); try done. by apply Hd.
  - assert (Hle : size a + Z.of_nat (size_of op) <= size ps).
    { rewrite Eps, sum_app. simpl. pose proof (size_nonneg b). rewrite (jump_size _ _ _ _ Hx). lia. }
    pose proof (size_nonneg a). pose proof (around_runs op args l r (label_pos l 0 ps - (size a + Z.of_nat (size_of op)))
      (resolve ps 0 a) (resolve ps (size a + psize (PJump op args l (Around r))) b) Hx) as Hr.
    rewrite (resolve_length ps 0 a Ha) in Hr. replace (if taken op (operands op args) then label_pos l 0 ps else _) with
      (size a + (if taken op (operands op args) then Z.of_nat (size_of op) + (label_pos l 0 ps - (size a + Z.of_nat (size_of op)))
                 else psize (PJump op args l (Around r)))) by (destruct (taken op (operands op args)); lia).
    apply Hr. unfold in_s. change (32 - 1) with 31. lia.
Qed.
End Run.
