(* ===== verification/BytecodeIsa.v ===== *)
(** The jumps of the core instruction set: the tables of isa/isa.yaml, what libpandafile/templates/bytecode_emitter_gen.h.erb
    generates from them, and the handlers of the interpreter, runtime/interpreter/interpreter-inl.h.

    The template is followed as it is written: [GetSuitableJump] is the [switch] that its loop prints.  The instances [core_ok] and
    [core_laws] show that the generated functions have what the emitter relies on. *)
From Stdlib Require Import String.
From S2P Require Import Prelude Leb128 DynChunk BytecodeEmitter BytecodeEncode BytecodeLayout BytecodeBuild BytecodeProgram BytecodeRun.
From stdpp Require Import list strings.
Import Chunk BytecodeEmitter.
Local Open Scope Z_scope.
Local Open Scope ark_scope.

Module CoreIsa.

(** ** The table *)
Record Insn := mkInsn {
  mnemonic : string;
  conditional : bool;
  opcode : Z;
  (** where the operands start, in bits, the immediate last *)
  offsets : list Z;
  fmt_size : Z;
}.

(** The formats op_imm_8, op_imm_16, op_imm_32, op_v_8_imm_8 and op_v_8_imm_16. *)
Definition op_imm (n : string) (c : bool) (op bytes : Z) : Insn := mkInsn n c op [8] (1 + bytes).
Definition op_v_8_imm (n : string) (op bytes : Z) : Insn := mkInsn n true op [8; 16] (2 + bytes).

(** A mnemonic with a short and a long form. *)
Definition jz (n : string) (op : Z) : list Insn := [op_imm n true op 1; op_imm n true (op + 1) 2].
Definition jv (n : string) (op : Z) : list Insn := [op_v_8_imm n op 1; op_v_8_imm n (op + 1) 2].

Definition instructions : list Insn :=
  [op_imm "jmp" false 0x22 1; op_imm "jmp" false 0x23 2; op_imm "jmp" false 0x24 4]
  ++ jv "jeq.obj" 0x25 ++ jv "jne.obj" 0x27
  ++ jz "jeqz.obj" 0x29 ++ jz "jnez.obj" 0x2b
  ++ jz "jeqz" 0x2d ++ jz "jnez" 0x2f ++ jz "jltz" 0x31 ++ jz "jgtz" 0x33 ++ jz "jlez" 0x35 ++ jz "jgez" 0x37
  ++ jv "jeq" 0x39 ++ jv "jne" 0x3b ++ jv "jlt" 0x3d ++ jv "jgt" 0x3f ++ jv "jle" 0x41 ++ jv "jge" 0x43.

(** ** What the template generates *)
Definition insn_of (op : Z) : option Insn := List.find (fun i => opcode i =? op) instructions.
Definition group (n : string) : list Insn := List.filter (fun i => String.eqb (mnemonic i) n) instructions.
Definition imm_width (i : Insn) : Z := 8 * fmt_size i - List.last (offsets i) 0.

(** The opcode of the last instruction of the table stands for no opcode. *)
Definition LAST : Z := 0x18ed.

Definition off (op : Z) : outcome (list Z) :=
  match insn_of op with Some i => Done (0 :: offsets i ++ [8 * fmt_size i]) | None => Crash end.

Definition CC_INVERTER : list (string * string) :=
  [("jeq", "jne"); ("jne", "jeq"); ("jlt", "jge"); ("jge", "jlt"); ("jgt", "jle"); ("jle", "jgt")]%string.

(** The opcode of the same format whose name starts with the opposite condition. *)
Definition RevertConditionCode (op : Z) : outcome Z :=
  match insn_of op with
  | Some i =>
      if conditional i then
        match List.find (fun '(c, _) => String.eqb c (String.substring 0 3 (mnemonic i))) CC_INVERTER with
        | Some (_, c) =>
            let n := (c ++ String.substring 3 (String.length (mnemonic i) - 3) (mnemonic i))%string in
            match List.find (fun j => imm_width j =? imm_width i) (group n) with
            | Some j => Done (opcode j)
            | None => Crash
            end
        | None => Done LAST
        end
      else Crash
  | None => Crash
  end.

Definition GetLongestJump (op : Z) : outcome Z :=
  match insn_of op with
  | Some i => match rev (group (mnemonic i)) with j :: _ => Done (opcode j) | [] => Crash end
  | None => Crash
  end.

(** The lines of the inner [switch]; [k] is [- suit_ind]. *)
Inductive line := Return (op : Z) | Case (w : Z).

Fixpoint switch_lines (g : list Insn) (ws : list Z) (k : nat) : list line :=
  let ret := match k with O => LAST | S k => default LAST (opcode <$> rev g !! k) end in
  match ws with
  | [] => [Return ret]
  | w :: ws =>
      if bool_decide (imm_width <$> rev g !! k = Some w)
      then (if w =? 32 then [] else [Return ret]) ++ Case w :: switch_lines g ws (S k)
      else Case w :: switch_lines g ws k
  end.

(** The run of a [switch]: from the case of the value to the first [return]. *)
Fixpoint run_lines (w : Z) (found : bool) (ls : list line) : outcome Z :=
  match ls with
  | [] => Crash
  | Case w' :: ls => run_lines w (found || (w' =? w)) ls
  | Return op :: ls => if found then Done op else run_lines w found ls
  end.

Definition GetSuitableJump (op : Z) (width : BitImmSize) : outcome Z :=
  match insn_of op with
  | Some i =>
      match group (mnemonic i) with
      | h :: _ as g => if opcode h =? op then run_lines (bits width) false (switch_lines g [32; 16; 8; 4] 0) else Crash
      | [] => Crash
      end
  | None => Crash
  end.

#[export] Instance core : Isa := {|
  MinPrefixOpcodeIndex := 0xec;
  OFF := off;
  is_jump := fun op => match insn_of op with Some _ => true | None => false end;
  BytecodeEmitter.RevertConditionCode := RevertConditionCode;
  BytecodeEmitter.GetLongestJump := GetLongestJump;
  BytecodeEmitter.GetSuitableJump := GetSuitableJump;
  JMP_IMM32 := 0x24;
  BytecodeEmitter.LAST := LAST;
|}.

(** ** What the emitter relies on *)
Definition head_list : list Z :=
  [0x22; 0x25; 0x27; 0x29; 0x2b; 0x2d; 0x2f; 0x31; 0x33; 0x35; 0x37; 0x39; 0x3b; 0x3d; 0x3f; 0x41; 0x43].

Definition mid_of (op : Z) : list Z := match insn_of op with Some i => removelast (offsets i) | None => [] end.
Definition imm_start (op : Z) : nat :=
  match insn_of op with Some i => Z.to_nat (List.last (offsets i) 0 / 8) | None => 0%nat end.
Definition bytes_in (op : Z) : nat := match insn_of op with Some i => Z.to_nat (fmt_size i) | None => 0%nat end.
Definition longest_bytes (op : Z) : nat := match GetLongestJump op with Done op' => bytes_in op' | _ => 0%nat end.

Ltac each_head H := unfold head_list in H; rewrite !elem_of_cons, elem_of_nil in H; repeat (destruct H as [->|H]); [..|done].

(** The operands: none, or a register. *)
Lemma no_register : fields_ok [0].
Proof. simpl. lia. Qed.
Lemma one_register : fields_ok [0; 8].
Proof. simpl. split_and!; [lia| |lia]. right. split; [done|]. left. Qed.

Ltac format :=
  split; [reflexivity|reflexivity|vm_compute; by split|reflexivity|first [exact no_register|exact one_register]|vm_compute; auto].

Lemma heads_format op :
  op ∈ head_list -> JumpFormat op (mid_of op) (imm_start op) (bytes_in op) /\ (bytes_in op <= longest_bytes op <= 31)%nat.
Proof. intros H. each_head H. all: split; [format|vm_compute; lia]. Qed.

Lemma heads_longest op :
  op ∈ head_list -> exists op', GetLongestJump op = Done op' /\ GetSizeByOpcode op' = Done (Z.of_nat (longest_bytes op)).
Proof. intros H. each_head H. all: eexists; split; reflexivity. Qed.

Lemma heads_suitable op s :
  op ∈ head_list -> enumerator (imm_size (bytes_in op - imm_start op)) < enumerator s ->
  (GetSuitableJump op s = Done LAST /\ s = BITSIZE_32) \/
  exists op', GetSuitableJump op s = Done op' /\ op' <> LAST /\
    JumpFormat op' (mid_of op) (imm_start op) (bytes_in op') /\ opcode_len op' = opcode_len op /\
    (bytes_in op < bytes_in op' <= longest_bytes op)%nat /\ enumerator s <= enumerator (imm_size (bytes_in op' - imm_start op)).
Proof.
  intros H. each_head H. all: destruct s; intros Hs; try (vm_compute in Hs; done).
  all: first [left; split; reflexivity|right; eexists; split; [reflexivity|]; split; [done|]; split; [format|]; split; [reflexivity|];
    split; [vm_compute; lia|vm_compute; done]].
Qed.

Lemma heads_revert op :
  op ∈ head_list -> GetSuitableJump op BITSIZE_32 = Done LAST ->
  exists r, RevertConditionCode op = Done r /\ r <> LAST /\
    JumpFormat r (mid_of op) (imm_start op) (bytes_in op) /\ opcode_len r = opcode_len op.
Proof.
  intros H. each_head H. all: intros Hs; try (vm_compute in Hs; done).
  all: eexists; split; [reflexivity|]; split; [done|]; split; [format|reflexivity].
Qed.

Lemma jmp_format : JumpFormat 0x24 [] 1 5 /\ opcode_len 0x24 = 1%nat.
Proof. split; [format|reflexivity]. Qed.

#[export] Instance core_ok : IsaOk := {|
  heads := head_list; mid := mid_of; imm_at := imm_start; size_of := bytes_in; longest := longest_bytes;
  head_ok := heads_format; longest_ok := heads_longest; suitable_ok := heads_suitable; revert_ok := heads_revert;
  jmp_ok := jmp_format |}.

(** ** The handlers of the interpreter *)

(** The accumulator and the registers of a frame, as words of 64 bits. *)
Record Frame := mkFrame { acc : Z; vregs : Z -> Z }.

Inductive Op := equal_to | not_equal_to | less | greater | less_equal | greater_equal.

Definition compare_op (o : Op) (a b : Z) : bool :=
  match o with
  | equal_to => a =? b
  | not_equal_to => negb (a =? b)
  | less => a <? b
  | greater => b <? a
  | less_equal => a <=? b
  | greater_equal => b <=? a
  end.

Definition HandleCondJmpz (o : Op) (f : Frame) : bool := compare_op o (i32 (acc f)) 0.
Definition HandleCondJmp (o : Op) (f : Frame) (vs : Z) : bool := compare_op o (i32 (acc f)) (i32 (vregs f vs)).
Definition HandleCondJmpzObj (o : Op) (f : Frame) : bool := compare_op o (acc f) 0.
Definition HandleCondJmpObj (o : Op) (f : Frame) (vs : Z) : bool := compare_op o (acc f) (vregs f vs).

(** The register of a jump: the byte behind the opcode. *)
Definition GetVReg (args : list Z) : Z := hd 0 args.

(** The handlers, and the handler of every mnemonic. *)
Inductive Handler := Jmp | CondJmpz (o : Op) | CondJmp (o : Op) | CondJmpzObj (o : Op) | CondJmpObj (o : Op).

Definition handlers : list (string * Handler) := [
  ("jmp", Jmp);
  ("jeqz", CondJmpz equal_to);
  ("jnez", CondJmpz not_equal_to);
  ("jltz", CondJmpz less);
  ("jgtz", CondJmpz greater);
  ("jlez", CondJmpz less_equal);
  ("jgez", CondJmpz greater_equal);
  ("jeq", CondJmp equal_to);
  ("jne", CondJmp not_equal_to);
  ("jlt", CondJmp less);
  ("jgt", CondJmp greater);
  ("jle", CondJmp less_equal);
  ("jge", CondJmp greater_equal);
  ("jeqz.obj", CondJmpzObj equal_to);
  ("jnez.obj", CondJmpzObj not_equal_to);
  ("jeq.obj", CondJmpObj equal_to);
  ("jne.obj", CondJmpObj not_equal_to)]%string.

Definition handler_of (op : Z) : option Handler :=
  i ← insn_of op; snd <$> List.find (fun '(n, _) => String.eqb n (mnemonic i)) handlers.

(** Whether the handler jumps. *)
Definition run_handler (h : Handler) (f : Frame) (args : list Z) : bool :=
  match h with
  | Jmp => true
  | CondJmpz o => HandleCondJmpz o f
  | CondJmp o => HandleCondJmp o f (GetVReg args)
  | CondJmpzObj o => HandleCondJmpzObj o f
  | CondJmpObj o => HandleCondJmpObj o f (GetVReg args)
  end.

(** Whether the jump with this opcode and these operands is taken. *)
Definition taken (f : Frame) (op : Z) (args : list Z) : bool :=
  match handler_of op with Some h => run_handler h f args | None => false end.

Definition opposite (o : Op) : Op :=
  match o with
  | equal_to => not_equal_to | not_equal_to => equal_to | less => greater_equal | greater_equal => less
  | greater => less_equal | less_equal => greater
  end.

Lemma compare_opposite o a b : compare_op (opposite o) a b = negb (compare_op o a b).
Proof. destruct o; simpl; rewrite ?Z.leb_antisym, ?negb_involutive; done. Qed.

Definition opposite_handler (h : Handler) : Handler :=
  match h with
  | Jmp => Jmp
  | CondJmpz o => CondJmpz (opposite o)
  | CondJmp o => CondJmp (opposite o)
  | CondJmpzObj o => CondJmpzObj (opposite o)
  | CondJmpObj o => CondJmpObj (opposite o)
  end.

Lemma run_opposite h f args : h <> Jmp -> run_handler (opposite_handler h) f args = negb (run_handler h f args).
Proof. intros Hj. destruct h; [done|apply compare_opposite..]. Qed.

#[export] Instance core_laws f : CondLaws (taken f).
Proof.
  split.
  - done.
  - intros op s op' args H. change (op ∈ head_list) in H. each_head H.
    all: destruct s; intros Es Hne; vm_compute in Es; injection Es as <-; first [reflexivity|by destruct Hne].
  - intros op r args H Hs Er.
    assert (Hh : exists h, handler_of op = Some h /\ h <> Jmp /\ handler_of r = Some (opposite_handler h)).
    { change (op ∈ head_list) in H. each_head H. all: first [by vm_compute in Hs|vm_compute in Er; injection Er as <-].
      all: eexists; split; [reflexivity|]; split; [done|reflexivity]. }
    destruct Hh as (h & E1 & Hj & E2). unfold taken. rewrite E1, E2. by apply run_opposite.
Qed.
End CoreIsa.
