(* ===== verification/BytecodeTheorems.v ===== *)
(** What clients of the byte code emitter rely on: the theorems about [Build], for every instruction set with [IsaOk], and
    programs of the core instruction set to which they apply. *)
From S2P Require Import Prelude Leb128 DynChunk BytecodeEmitter BytecodeEncode BytecodeLayout BytecodeBuild BytecodeProgram BytecodeRun BytecodeIsa.
From stdpp Require Import list.
Import Chunk BytecodeEmitter.
Local Open Scope Z_scope.
Local Open Scope ark_scope.

Section Theorems.
Context `{IsaOk}.
Abbreviation size := (sum psize).

Lemma label_pos_at l a b p : l ∉ labels a -> label_pos l p (a ++ PMark l :: b) = p + size a.
Proof. intros Hl. rewrite label_pos_behind by done. simpl. by rewrite bool_decide_eq_true_2 by left. Qed.

Lemma only_mark ps a l b : NoDup (labels ps) -> ps = a ++ PMark l :: b -> l ∉ labels a.
Proof.
  intros Hnd -> Hl. rewrite labels_app in Hnd. apply NoDup_app in Hnd as (_ & Hdis & _). apply (Hdis l Hl). left.
Qed.

Lemma resolve_plain all p a bs b :
  Forall piece_ok (a ++ PPlain bs :: b) -> load (resolve all p (a ++ PPlain bs :: b)) (Z.to_nat (size a)) (length bs) = Done bs.
Proof.
  intros Hok. apply Forall_app in Hok as [Ha _]. rewrite resolve_app. simpl. rewrite <- (resolve_length all p a Ha), Nat2Z.id.
  apply load_app.
Qed.

(** Where a jump leads: to its label when it is taken, behind it when it is not. *)
Definition leads (taken : Z -> list Z -> bool) (code : list Z) (ps : list Piece) : Prop :=
  forall a op args l c b a' b',
    ps = a ++ PJump op args l c :: b -> ps = a' ++ PMark l :: b' ->
    (is_direct (PJump op args l c) -> forall b1 b2, b = b1 ++ PMark l :: b2 -> Forall is_direct b1) ->
    jumps taken code (size a) (if taken op (operands op args) then size a' else size (a ++ [PJump op args l c])).

(** C15: a client creates labels, emits instructions and jumps to these labels, and binds every label a jump names
    once; with every jump in its longest form the program takes less than 2^31 bytes.  Then [Build] succeeds.  Its output holds the instructions in their order, every jump in one of the forms
    [chosen] allows: with its opcode, with a wider one of the same kind, or as the reverted jump around a far one.  An
    instruction that is not a jump has its bytes unchanged.  A jump, run by the interpreter in one step or two, leads to
    the place where its label is bound if its condition holds, and behind itself if not: every backward jump, every
    jump that is replaced by a pair, and every other forward jump unless a jump between it and its label is replaced
    by a pair ([estimate_misses_pair] shows that such a jump may go wrong). *)
Theorem Build_runs (taken : Z -> list Z -> bool) `{!CondLaws taken} (k : nat) (items : list Item) :
  program k items -> bound items ->
  exists ps code, run_client k items = Done (SUCCESS, Some code) /\ Forall2 chosen (pieces items) ps /\
    Z.of_nat (length code) = size ps /\
    (forall a bs b, ps = a ++ PPlain bs :: b -> load code (Z.to_nat (size a)) (length bs) = Done bs) /\
    leads taken code ps.
Proof.
  intros Hp Hb. destruct (Build_spec k items Hp Hb) as (ps & Hbu & Hrun). exists ps, (resolve ps 0 ps).
  destruct (chosen_pieces _ _ (bu_chosen _ _ Hbu) (pieces_pending items (pg_ok _ _ Hp))) as (El & _ & Hok & _).
  split; [done|]. split; [apply Hbu|]. split; [by apply resolve_length|]. split.
  - intros a bs b E. rewrite E in Hok. pose proof (resolve_plain ps 0 a bs b Hok) as R. by rewrite <- E in R.
  - intros a op args l c b a' b' E E' Hd. rewrite <- (Z.add_0_l (size a')), <- (label_pos_at l a' b'), <- E'.
    + by apply (jump_runs_spec taken k items ps a b).
    + apply (only_mark ps a' l b'); [|done]. rewrite El. apply Hp.
Qed.

(** C16: a program whose instructions, with every jump in its longest form, take at most 32767 bytes: no jump is
    replaced by a pair, and every jump leads where it should in one step. *)
Theorem Build_short_code (taken : Z -> list Z -> bool) `{!CondLaws taken} (k : nat) (items : list Item) :
  program k items -> bound items -> sum widest (pieces items) <= INT16_MAX ->
  exists ps code, run_client k items = Done (SUCCESS, Some code) /\ Forall2 chosen (pieces items) ps /\
    Z.of_nat (length code) = size ps /\
    forall a op args l c b a' b', ps = a ++ PJump op args l c :: b -> ps = a' ++ PMark l :: b' ->
      jump_step taken code (size a) =
      Done (if taken op (operands op args) then size a' else size (a ++ [PJump op args l c])).
Proof.
  intros Hp Hb Hw. destruct (Build_spec k items Hp Hb) as (ps & Hbu & Hrun). exists ps, (resolve ps 0 ps).
  destruct (chosen_pieces _ _ (bu_chosen _ _ Hbu) (pieces_pending items (pg_ok _ _ Hp))) as (El & _ & Hok & Hl).
  split; [done|]. split; [apply Hbu|]. split; [by apply resolve_length|]. intros a op args l c b a' b' E E'.
  pose proof (bu_direct _ _ Hbu Hw) as Hdir. pose proof (chosen_settled _ _ (bu_chosen _ _ Hbu)) as Hs.
  assert (Hc : exists op', c = Direct op').
  { rewrite E in Hdir, Hs. apply Forall_app in Hdir as [_ [Hdir _]%Forall_cons_1].
    apply Forall_app in Hs as [_ [Hs _]%Forall_cons_1]. destruct c; [done|eauto|done]. }
  destruct Hc as (op' & ->). assert (Hla : l ∈ labels ps).
  { rewrite E', labels_app. apply elem_of_app. right. left. }
  pose proof (direct_in_range ps a b op args l op' E Hok Hs (bu_fits _ _ Hbu) Hla) as Hr.
  assert (Hok' := Hok). rewrite E in Hok'. apply Forall_app in Hok' as [Ha [Hx _]%Forall_cons_1].
  assert (Ht : label_pos l 0 ps = size a').
  { rewrite E', label_pos_at; [lia|]. apply (only_mark ps a' l b'); [|done]. rewrite El. apply Hp. }
  rewrite E at 2. rewrite resolve_app. cbn [resolve]. rewrite <- (resolve_length ps 0 a Ha) at 3.
  rewrite (direct_runs taken op args l op'); [|done|].
  - cbn [distance branch_at]. rewrite (resolve_length ps 0 a Ha), sum_app, Ht. simpl sum. f_equal.
    destruct (taken op (operands op args)); lia.
  - cbn [distance branch_at]. rewrite Z.add_0_r, Z.add_0_l. apply Hr. intros b1 b2 ->. rewrite E in Hdir.
    apply Forall_app in Hdir as [_ [_ Hdir]%Forall_cons_1]. by apply Forall_app in Hdir as [? _].
Qed.

(** C17: [Build] reports [UNBOUND_LABELS] exactly when a jump names a label that is not bound and no label
    is bound at the beginning of the code.  (An unbound label has the position 0, and labels are compared by
    position.) *)
Theorem Build_unbound (k : nat) (items : list Item) :
  program k items -> Forall (fun l => l < k)%nat (jump_labels items) ->
  run_client k items = Done (UNBOUND_LABELS, None) <->
  (exists l, l ∈ jump_labels items /\ l ∉ labels (pieces items)) /\ ~ exists l, (l, 0) ∈ marks 0 (pieces items).
Proof. apply unbound_spec. Qed.
End Theorems.

(** ** Programs of the core instruction set *)
Import CoreIsa.

(** A loop: [start: jeqz end; nop; nop; jmp start; end: nop]. *)
Definition sample : list Item :=
  [Mark 0%nat; Jump 0x2d [] 1%nat; Plain [0; 0]; Jump 0x22 [] 0%nat; Mark 1%nat; Plain [0]].

Lemma sample_program : program 2 sample /\ bound sample.
Proof.
  split; [split|].
  - repeat constructor; try done; vm_compute; by repeat (left || right).
  - vm_compute. repeat constructor; rewrite ?elem_of_cons, ?elem_of_nil; lia.
  - vm_compute. repeat constructor.
  - vm_compute. done.
  - repeat constructor.
Qed.

Lemma Build_runs_witness :
  exists ps code, run_client 2 sample = Done (SUCCESS, Some code) /\ Forall2 chosen (pieces sample) ps /\
    Z.of_nat (length code) = sum psize ps /\
    (forall a bs b, ps = a ++ PPlain bs :: b -> load code (Z.to_nat (sum psize a)) (length bs) = Done bs) /\
    leads (taken (mkFrame 0 (fun _ => 0))) code ps.
Proof. exact (Build_runs (taken (mkFrame 0 (fun _ => 0))) 2 sample (proj1 sample_program) (proj2 sample_program)). Defined.

Lemma Build_short_code_witness :
  sum widest (pieces sample) = 11 /\
  exists ps code, run_client 2 sample = Done (SUCCESS, Some code) /\ Forall2 chosen (pieces sample) ps /\
    Z.of_nat (length code) = sum psize ps /\
    forall a op args l c b a' b', ps = a ++ PJump op args l c :: b -> ps = a' ++ PMark l :: b' ->
      jump_step (taken (mkFrame 0 (fun _ => 0))) code (sum psize a) =
      Done (if taken (mkFrame 0 (fun _ => 0)) op (operands op args) then sum psize a' else sum psize (a ++ [PJump op args l c])).
Proof.
  split; [reflexivity|].
  apply (Build_short_code (taken (mkFrame 0 (fun _ => 0))) 2 sample (proj1 sample_program) (proj2 sample_program)).
  vm_compute. discriminate.
Defined.

(** The bytes of the sample, and its jumps with 0 and with 1 in the accumulator. *)
Example sample_code : run_client 2 sample = Done (SUCCESS, Some [0x2d; 6; 0; 0; 0x22; 0xfc; 0]).
Proof. vm_compute. reflexivity. Qed.

Example sample_run :
  jump_step (taken (mkFrame 0 (fun _ => 0))) [0x2d; 6; 0; 0; 0x22; 0xfc; 0] 0 = Done 6 /\
  jump_step (taken (mkFrame 1 (fun _ => 0))) [0x2d; 6; 0; 0; 0x22; 0xfc; 0] 0 = Done 2 /\
  jump_step (taken (mkFrame 1 (fun _ => 0))) [0x2d; 6; 0; 0; 0x22; 0xfc; 0] 4 = Done 0.
Proof. vm_compute. auto. Qed.

(** A jump to a label that is not bound. *)
Definition unbound_sample : list Item := [Plain [0]; Mark 0%nat; Jump 0x22 [] 1%nat].

Lemma unbound_program : program 2 unbound_sample.
Proof.
  split.
  - repeat constructor; try done; vm_compute; by repeat (left || right).
  - vm_compute. repeat constructor; rewrite ?elem_of_cons, ?elem_of_nil; lia.
  - vm_compute. repeat constructor.
  - vm_compute. done.
Qed.

Lemma Build_unbound_witness : run_client 2 unbound_sample = Done (UNBOUND_LABELS, None).
Proof.
  apply (Build_unbound 2 unbound_sample unbound_program).
  - vm_compute. repeat constructor.
  - split.
    + exists 1%nat. split; vm_compute; [left|]. intros Hl. apply list_elem_of_singleton in Hl. discriminate.
    + intros [l Hl]. vm_compute in Hl. apply list_elem_of_singleton in Hl. discriminate.
Defined.

(** The same jump behind a label at the beginning: it is not reported and leads to the beginning. *)
Example unbound_missed :
  run_client 2 [Mark 0%nat; Plain [0]; Jump 0x22 [] 1%nat] = Done (SUCCESS, Some [0; 0x22; 0xff]).
Proof. vm_compute. reflexivity. Qed.

(** What [EstimateMaxDistance] counts for a conditional jump is less than the pair that may replace it takes. *)
Lemma estimate_misses_pair l :
  known (PJump 0x2d [] l Pending) = 3 /\ psize (PJump 0x2d [] l (Around 0x2f)) = 7 /\
  piece_ok (PJump 0x2d [] l (Around 0x2f)).
Proof.
  split; [reflexivity|]. split; [reflexivity|]. split; [vm_compute; by repeat (left || right)|]. split; [done|].
  split; [format|]. by vm_compute.
Qed.
