(* ===== verification/GcBitmap.v ===== *)
(** Bitmaps of the collector and of the allocators: runtime/mem/gc/bitmap.h and bitmap.cpp.

    A [Bitmap] is its words of 64 bits; [bit] reads it as a set of numbers.  A [MemBitmap] has a bit for every chunk of a range of
    addresses.  The atomic operations are given as their effect; a read or write of a word outside the bitmap is [Crash].  A
    visitor is a function of a state of its own, which says whether to go on; it does not change the bitmap it visits. *)
From S2P Require Import Prelude Leb128.
Import Leb128.
Local Open Scope ark_scope.

Module Bitmap.

Definition BITSPERWORD : Z := 64.
Definition LOG_BITSPERWORD : Z := 6.
Abbreviation ALL_BITS := (2 ^ 64 - 1).

Record Bitmap := mkBitmap { bitmap_ : list Z; bitsize_ : Z }.

Definition Size (b : Bitmap) : Z := bitsize_ b.

(** [Ctz] of a value that is not 0. *)
Definition Ctz (x : Z) : Z := default 64 (List.find (Z.testbit x) (seqZ 0 64)).

(** ** Words and masks *)
Definition GetWordIdx (bitOffset : Z) : nat := Z.to_nat (Z.shiftr bitOffset LOG_BITSPERWORD).
Definition GetBitIdxWithinWord (bitOffset : Z) : Z := Z.land bitOffset (Z.shiftl 1 LOG_BITSPERWORD - 1).
Definition GetBitMask (bitOffset : Z) : Z := Z.shiftl 1 (GetBitIdxWithinWord bitOffset).

Definition GetRangeBitMask (beginWithinWord endWithinWord : Z) : Z :=
  let endMask := if endWithinWord == BITSPERWORD then ALL_BITS else GetBitMask endWithinWord - 1 in
  u64 (endMask - (GetBitMask beginWithinWord - 1)).

Definition GetBitmapWord (b : Bitmap) (bitOffset : Z) : outcome Z := read (bitmap_ b) (GetWordIdx bitOffset).

Definition set_word (b : Bitmap) (i : nat) (w : Z) : outcome Bitmap :=
  ws ← write (bitmap_ b) i w; Done {| b with bitmap_ := ws |}.

(** [AlignUp] and [RoundUp] to a power of two. *)
Definition AlignUp (value alignment : Z) : Z := Z.land (u64 (value + alignment - 1)) (u64 (Z.lnot (alignment - 1))).
Definition RoundUp (x n : Z) : Z := Z.land (u64 (x + n - 1)) (u64 (- n)).

(** ** One bit *)
Definition SetBit (b : Bitmap) (bitOffset : Z) : outcome Bitmap :=
  w ← GetBitmapWord b bitOffset; set_word b (GetWordIdx bitOffset) (Z.lor w (GetBitMask bitOffset)).

Definition ClearBit (b : Bitmap) (bitOffset : Z) : outcome Bitmap :=
  w ← GetBitmapWord b bitOffset; set_word b (GetWordIdx bitOffset) (Z.land w (u64 (Z.lnot (GetBitMask bitOffset)))).

Definition TestBit (b : Bitmap) (bitOffset : Z) : outcome bool :=
  w ← GetBitmapWord b bitOffset; Done (Z.land w (GetBitMask bitOffset) != 0).

Definition AtomicTestAndSetBit (b : Bitmap) (bitOffset : Z) : outcome (Bitmap * bool) :=
  oldWord ← GetBitmapWord b bitOffset;
  if Z.land oldWord (GetBitMask bitOffset) != 0 then Done (b, true)
  else b ← set_word b (GetWordIdx bitOffset) (Z.lor oldWord (GetBitMask bitOffset)); Done (b, false).

Definition AtomicTestAndClearBit (b : Bitmap) (bitOffset : Z) : outcome (Bitmap * bool) :=
  oldWord ← GetBitmapWord b bitOffset;
  if Z.land oldWord (GetBitMask bitOffset) == 0 then Done (b, false)
  else b ← set_word b (GetWordIdx bitOffset) (Z.land oldWord (u64 (Z.lnot (GetBitMask bitOffset)))); Done (b, true).

Definition AtomicTestBit (b : Bitmap) (bitOffset : Z) : outcome bool := TestBit b bitOffset.

(** ** Ranges *)
Definition ModifyRangeWithinWord (SET : bool) (b : Bitmap) (begin end_ : Z) : outcome Bitmap :=
  if begin == end_ then Done b
  else
    let mask :=
      if end_ mod BITSPERWORD == 0 then GetRangeBitMask (GetBitIdxWithinWord begin) BITSPERWORD
      else GetRangeBitMask (GetBitIdxWithinWord begin) (GetBitIdxWithinWord end_) in
    w ← GetBitmapWord b begin;
    set_word b (GetWordIdx begin) (if SET then Z.lor w mask else Z.land w (u64 (Z.lnot mask))).

Definition SetRangeWithinWord (b : Bitmap) (begin end_ : Z) : outcome Bitmap :=
  if begin != end_ then ModifyRangeWithinWord true b begin end_ else Done b.
Definition ClearRangeWithinWord (b : Bitmap) (begin end_ : Z) : outcome Bitmap :=
  if begin != end_ then ModifyRangeWithinWord false b begin end_ else Done b.

(** [memset_s] over whole words. *)
Definition fill_words (b : Bitmap) (wordBegin wordEnd : nat) (w : Z) : outcome Bitmap :=
  if bool_decide (wordBegin = wordEnd) then Done b
  else if (wordEnd <=? length (bitmap_ b))%nat
  then Done {| b with bitmap_ := take wordBegin (bitmap_ b) ++ replicate (wordEnd - wordBegin) w ++ drop wordEnd (bitmap_ b) |}
  else Crash.
Definition SetWords (b : Bitmap) (wordBegin wordEnd : nat) : outcome Bitmap := fill_words b wordBegin wordEnd ALL_BITS.
Definition ClearWords (b : Bitmap) (wordBegin wordEnd : nat) : outcome Bitmap := fill_words b wordBegin wordEnd 0.

Definition ClearAllBits (b : Bitmap) : Bitmap := {| b with bitmap_ := replicate (length (bitmap_ b)) 0 |}.

Definition fnRounddown (val : Z) : Z := Z.land val (u64 (Z.lnot (Z.shiftl 1 LOG_BITSPERWORD - 1))).

Definition ClearBitsInRange (b : Bitmap) (begin end_ : Z) : outcome Bitmap :=
  if bool_decide (GetWordIdx end_ = GetWordIdx begin) then ClearRangeWithinWord b begin end_
  else
    let beginRoundup := RoundUp begin BITSPERWORD in
    let endRounddown := fnRounddown end_ in
    b ← ClearRangeWithinWord b begin beginRoundup;
    b ← ClearWords b (GetWordIdx beginRoundup) (GetWordIdx endRounddown);
    ClearRangeWithinWord b endRounddown end_.

(** ** Iteration *)
Section Visit.
Context {S : Type} (visitor : Z -> S -> S * bool).

(** The bits of a word that starts at [offsetWordBegin]; whether to go on. *)
Fixpoint visit_word (fuel : nat) (bitmapWord offsetWordBegin : Z) (s : S) : outcome (S * bool) :=
  match fuel with
  | O => NoFuel
  | Datatypes.S fuel =>
      if bitmapWord == 0 then Done (s, true)
      else
        let offsetWithinWord := Ctz bitmapWord in
        let '(s, go_on) := visitor (offsetWordBegin + offsetWithinWord) s in
        if go_on : bool
        then visit_word fuel (Z.land bitmapWord (u64 (Z.lnot (GetBitMask offsetWithinWord)))) offsetWordBegin s
        else Done (s, false)
  end.

Fixpoint visit_words (fuel : nat) (b : Bitmap) (bitmapWord offsetWordBegin end_ : Z) (s : S) : outcome S :=
  match fuel with
  | O => NoFuel
  | Datatypes.S fuel =>
      let rightAligned := GetBitIdxWithinWord end_ == 0 in
      let offsetLastWordBegin := Z.of_nat (GetWordIdx end_) * BITSPERWORD in
      let bitmapWord :=
        if (offsetWordBegin == offsetLastWordBegin) && negb rightAligned
        then Z.land bitmapWord (GetRangeBitMask 0 (GetBitIdxWithinWord end_)) else bitmapWord in
      r ← visit_word 65 bitmapWord offsetWordBegin s;
      let '(s, go_on) := r in
      if go_on : bool then
        let offsetWordBegin := offsetWordBegin + BITSPERWORD in
        if end_ <=? offsetWordBegin then Done s
        else w ← GetBitmapWord b offsetWordBegin; visit_words fuel b w offsetWordBegin end_ s
      else Done s
  end.

Definition IterateOverSetBitsInRange (b : Bitmap) (begin end_ : Z) (s : S) : outcome S :=
  if begin == end_ then Done s
  else
    w ← GetBitmapWord b begin;
    let w := Z.land w (GetRangeBitMask (GetBitIdxWithinWord begin) BITSPERWORD) in
    visit_words (Datatypes.S (length (bitmap_ b))) b w (Z.of_nat (GetWordIdx begin) * BITSPERWORD) end_ s.

Definition IterateOverSetBits (b : Bitmap) (s : S) : outcome S := IterateOverSetBitsInRange b 0 (Size b) s.
End Visit.

(** All bits, set or not. *)
Definition IterateOverBitsInRange {S} (visitor : Z -> S -> S) (begin end_ : Z) (s : S) : S := foldl (fun s i => visitor i s) s (seqZ begin (end_ - begin)).
Definition IterateOverBits {S} (visitor : Z -> S -> S) (b : Bitmap) (s : S) : S := IterateOverBitsInRange visitor 0 (Size b) s.

(** The bitmap [dest] has the same number of words. *)
Definition CopyTo (b dest : Bitmap) : Bitmap := {| dest with bitmap_ := bitmap_ b |}.

(** The loop goes down to the first word. *)
Fixpoint find_down (fuel : nat) (b : Bitmap) (bitmapWord wordBeginOffset begin : Z) : outcome Z :=
  match fuel with
  | O => NoFuel
  | Datatypes.S fuel =>
      if bitmapWord != 0 then Done (wordBeginOffset + (BITSPERWORD - Clz 64 bitmapWord - 1))
      else if wordBeginOffset <? BITSPERWORD then Done begin
      else
        let wordBeginOffset := wordBeginOffset - BITSPERWORD in
        w ← GetBitmapWord b wordBeginOffset; find_down fuel b w wordBeginOffset begin
  end.

Definition FindHighestPrecedingOrSameBit (b : Bitmap) (begin : Z) : outcome Z :=
  let mask := Z.shiftr ALL_BITS (BITSPERWORD - GetBitIdxWithinWord begin - 1) in
  w ← GetBitmapWord b begin;
  find_down (Datatypes.S (length (bitmap_ b))) b (Z.land w mask) (Z.of_nat (GetWordIdx begin) * BITSPERWORD) begin.

(** ** Bitmaps of memory

    The instance whose [PointerType] is a 64-bit [uintptr_t]: addresses are computed at 64 bits. *)
Record MemBitmap := mkMemBitmap { beginAddr_ : Z; endAddr_ : Z; bits_ : Bitmap }.

Section MemBitmap.
Context (BYTESPERCHUNK : Z).

Definition new_MemBitmap (memAddr heapSize : Z) (bitmap : list Z) : MemBitmap :=
  mkMemBitmap memAddr (u64 (memAddr + heapSize)) (mkBitmap bitmap (heapSize / BYTESPERCHUNK)).

Definition MemSizeInBytes (m : MemBitmap) : Z := Size (bits_ m) * BYTESPERCHUNK.

Definition ReInitializeMemoryRange (m : MemBitmap) (memAddr : Z) : MemBitmap :=
  mkMemBitmap memAddr (u64 (memAddr + MemSizeInBytes m)) (ClearAllBits (bits_ m)).

(** The words of a bitmap for [heapSize] bytes. *)
Definition GetBitMapSizeInByte (heapSize : Z) : Z :=
  Z.shiftr (AlignUp (heapSize / BYTESPERCHUNK) BITSPERWORD) LOG_BITSPERWORD * 8.

Definition AddrToBitOffset (m : MemBitmap) (addr : Z) : Z := u64 (addr - beginAddr_ m) / BYTESPERCHUNK.
Definition EndAddrToBitOffset (m : MemBitmap) (addr : Z) : Z := u64 (AlignUp addr BYTESPERCHUNK - beginAddr_ m) / BYTESPERCHUNK.
Definition BitOffsetToAddr (m : MemBitmap) (bitOffset : Z) : Z := u64 (beginAddr_ m + bitOffset * BYTESPERCHUNK).

Definition IsAddrInRange (m : MemBitmap) (addr : Z) : bool := (beginAddr_ m <=? addr) && (addr <? endAddr_ m).
Definition IsAddrValid (m : MemBitmap) (addr : Z) : bool :=
  IsAddrInRange m addr && (u64 (addr - beginAddr_ m) mod BYTESPERCHUNK == 0).

Definition Set_ (m : MemBitmap) (addr : Z) : outcome MemBitmap :=
  b ← SetBit (bits_ m) (AddrToBitOffset m addr); Done {| m with bits_ := b |}.
Definition Clear (m : MemBitmap) (addr : Z) : outcome MemBitmap :=
  b ← ClearBit (bits_ m) (AddrToBitOffset m addr); Done {| m with bits_ := b |}.
Definition ClearRange (m : MemBitmap) (begin end_ : Z) : outcome MemBitmap :=
  b ← ClearBitsInRange (bits_ m) (AddrToBitOffset m begin) (EndAddrToBitOffset m end_); Done {| m with bits_ := b |}.
Definition Test (m : MemBitmap) (addr : Z) : outcome bool := TestBit (bits_ m) (AddrToBitOffset m addr).
Definition TestIfAddrValid (m : MemBitmap) (addr : Z) : outcome bool :=
  if IsAddrValid m addr then TestBit (bits_ m) (AddrToBitOffset m addr) else Done false.
Definition AtomicTestAndSet (m : MemBitmap) (addr : Z) : outcome (MemBitmap * bool) :=
  r ← AtomicTestAndSetBit (bits_ m) (AddrToBitOffset m addr); Done ({| m with bits_ := fst r |}, snd r).
Definition AtomicTestAndClear (m : MemBitmap) (addr : Z) : outcome (MemBitmap * bool) :=
  r ← AtomicTestAndClearBit (bits_ m) (AddrToBitOffset m addr); Done ({| m with bits_ := fst r |}, snd r).
Definition AtomicTest (m : MemBitmap) (addr : Z) : outcome bool := AtomicTestBit (bits_ m) (AddrToBitOffset m addr).

(** The address of the first marked chunk. *)
Definition FindFirstMarkedChunks (m : MemBitmap) : outcome (option Z) :=
  IterateOverSetBits (fun bitOffset _ => (Some (BitOffsetToAddr m bitOffset), false)) (bits_ m) None.

Definition IterateOverMarkedChunks {S} (visitor : Z -> S -> S) (m : MemBitmap) (s : S) : outcome S :=
  IterateOverSetBits (fun bitOffset s => (visitor (BitOffsetToAddr m bitOffset) s, true)) (bits_ m) s.

Definition IterateOverMarkedChunkInRangeInterruptible {S} (visitor : Z -> S -> S * bool) (m : MemBitmap) (begin end_ : Z)
    (s : S) : outcome S :=
  first ← FindHighestPrecedingOrSameBit (bits_ m) (AddrToBitOffset m begin);
  IterateOverSetBitsInRange (fun bitOffset => visitor (BitOffsetToAddr m bitOffset)) (bits_ m) first (EndAddrToBitOffset m end_) s.

Definition IterateOverMarkedChunkInRange {S} (visitor : Z -> S -> S) (m : MemBitmap) (begin end_ : Z) (s : S) : outcome S :=
  IterateOverMarkedChunkInRangeInterruptible (fun a s => (visitor a s, true)) m begin end_ s.

Definition IterateOverChunks {S} (visitor : Z -> S -> S) (m : MemBitmap) (s : S) : S :=
  IterateOverBits (fun bitOffset => visitor (BitOffsetToAddr m bitOffset)) (bits_ m) s.
Definition IterateOverChunkInRange {S} (visitor : Z -> S -> S) (m : MemBitmap) (begin end_ : Z) (s : S) : S :=
  IterateOverBitsInRange (fun bitOffset => visitor (BitOffsetToAddr m bitOffset)) (AddrToBitOffset m begin) (EndAddrToBitOffset m end_) s.

Definition CallForMarkedChunkInHumongousRegion {S} (ATOMIC : bool) (visitor : Z -> S -> S) (m : MemBitmap) (begin : Z) (s : S) : outcome S :=
  marked ← (if ATOMIC then AtomicTest m begin else Test m begin);
  Done (if (marked : bool) then visitor begin s else s).
End MemBitmap.

(** * Bitmaps as sets of numbers *)
Definition bit (b : Bitmap) (i : Z) : bool :=
  match bitmap_ b !! Z.to_nat (i / 64) with Some w => Z.testbit w (i mod 64) | None => false end.

Record wf (b : Bitmap) : Prop := {
  wf_words : Forall (in_u 64) (bitmap_ b);
  wf_length : Z.of_nat (length (bitmap_ b)) = (bitsize_ b + 63) / 64;
  wf_size : 0 <= bitsize_ b < 2 ^ 62;
}.

(** ** Words *)
Lemma word_bits (w : Z) : in_u 64 w <-> 0 <= w /\ forall j, 64 <= j -> Z.testbit w j = false.
Proof.
  unfold in_u. split.
  - intros [H0 H1]. split; [done|]. intros j Hj. destruct (decide (w = 0)) as [->|]; [apply Z.testbit_0_l|].
    apply Z.bits_above_log2; [done|]. apply Z.log2_lt_pow2 in H1; lia.
  - intros [H0 Hb]. split; [done|]. destruct (decide (w = 0)) as [->|]; [lia|]. apply Z.log2_lt_pow2; [lia|].
    apply Znot_ge_lt. intros Hl. specialize (Hb (Z.log2 w) ltac:(lia)). by rewrite Z.bit_log2 in Hb by lia.
Qed.

Lemma u64_testbit x j : 0 <= j -> Z.testbit (u64 x) j = (j <? 64) && Z.testbit x j.
Proof.
  intros Hj. unfold wrapu. destruct (Z.ltb_spec j 64); simpl; [by apply Z.mod_pow2_bits_low|].
  apply Z.mod_pow2_bits_high. lia.
Qed.

Lemma word_idx i : GetWordIdx i = Z.to_nat (i / 64).
Proof. unfold GetWordIdx, LOG_BITSPERWORD. by rewrite Z.shiftr_div_pow2 by lia. Qed.

Lemma bit_idx i : GetBitIdxWithinWord i = i mod 64.
Proof. unfold GetBitIdxWithinWord, LOG_BITSPERWORD. change (Z.shiftl 1 6 - 1) with (2 ^ 6 - 1). by rewrite land_mask by lia. Qed.

Lemma bit_mask i : GetBitMask i = 2 ^ (i mod 64).
Proof.
  unfold GetBitMask. rewrite bit_idx, Z.shiftl_mul_pow2 by (apply Z.mod_pos_bound; lia). lia.
Qed.

Lemma mod64 i : 0 <= i mod 64 < 64.
Proof. apply Z.mod_pos_bound. lia. Qed.

(** The mask of [a, e). *)
Lemma ones_testbit a e j :
  0 <= a <= e -> 0 <= j -> Z.testbit (2 ^ e - 2 ^ a) j = (a <=? j) && (j <? e).
Proof.
  intros Ha Hj. replace (2 ^ e - 2 ^ a) with (Z.shiftl (Z.ones (e - a)) a).
  - rewrite Z.shiftl_spec by done. destruct (Z.leb_spec a j); simpl.
    + rewrite Z.testbit_ones by lia. rewrite (proj2 (Z.leb_le 0 (j - a))) by lia. simpl.
      destruct (Z.ltb_spec j e), (Z.ltb_spec (j - a) (e - a)); done || lia.
    + by rewrite Z.testbit_neg_r by lia.
  - rewrite Z.shiftl_mul_pow2, Z.ones_equiv by lia. unfold Z.pred. rewrite Z.mul_add_distr_r, <- Z.pow_add_r by lia.
    replace (e - a + a) with e by lia. lia.
Qed.

Lemma range_mask a e : 0 <= a < 64 -> a <= e <= 64 -> GetRangeBitMask a e = 2 ^ e - 2 ^ a.
Proof.
  intros Ha He. unfold GetRangeBitMask, BITSPERWORD. rewrite !bit_mask, (Z.mod_small a 64) by lia.
  assert (E : (if e == 64 then ALL_BITS else 2 ^ (e mod 64) - 1) = 2 ^ e - 1).
  { destruct (bool_decide_reflect (e = 64)) as [->|]; [done|]. by rewrite Z.mod_small by lia. }
  rewrite E. rewrite wrapu_id; [lia|]. unfold in_u. pose proof (Z.pow_le_mono_r 2 a e ltac:(lia) ltac:(lia)).
  pose proof (Z.pow_le_mono_r 2 e 64 ltac:(lia) ltac:(lia)). pose proof (pow2_pos a ltac:(lia)). lia.
Qed.

(** ** Reading and writing words *)
Lemma bit_read b i w : bitmap_ b !! Z.to_nat (i / 64) = Some w -> bit b i = Z.testbit w (i mod 64).
Proof. unfold bit. by intros ->. Qed.

Lemma word_in b i : wf b -> 0 <= i < bitsize_ b -> exists w, bitmap_ b !! Z.to_nat (i / 64) = Some w /\ in_u 64 w.
Proof.
  intros [W1 W2 W3] Hi. destruct (lookup_lt_is_Some_2 (bitmap_ b) (Z.to_nat (i / 64))) as [w Hw].
  - pose proof (Z.div_le_mono (i + 64) (bitsize_ b + 63) 64 ltac:(lia) ltac:(lia)) as Hd.
    replace (i + 64) with (i + 1 * 64) in Hd by lia. rewrite Z.div_add in Hd by lia. pose proof (Z.div_pos i 64). lia.
  - exists w. split; [done|]. by eapply Forall_lookup_1.
Qed.

Lemma set_word_spec b i w w0 :
  wf b -> bitmap_ b !! i = Some w0 -> in_u 64 w ->
  exists b', set_word b i w = Done b' /\ wf b' /\ bitsize_ b' = bitsize_ b /\ length (bitmap_ b') = length (bitmap_ b) /\
    forall j, 0 <= j -> bit b' j = if bool_decide (Z.to_nat (j / 64) = i) then Z.testbit w (j mod 64) else bit b j.
Proof.
  intros [W1 W2 W3] Hi Hw. pose proof (lookup_lt_Some _ _ _ Hi) as Hlt. unfold set_word, write.
  rewrite (proj2 (Nat.ltb_lt _ _)) by done. cbv [mbind outcome_bind]. eexists. split; [done|].
  split; [split; simpl|split; [done|split; [simpl; apply length_insert|]]].
  - by apply Forall_insert.
  - by rewrite length_insert.
  - done.
  - intros j Hj. unfold bit. simpl. destruct (bool_decide_reflect (Z.to_nat (j / 64) = i)) as [->|Hne].
    + by rewrite list_lookup_insert_eq.
    + by rewrite list_lookup_insert_ne.
Qed.

(** A word is changed where [f] says. *)
Lemma same_word i j : 0 <= i -> 0 <= j -> Z.to_nat (j / 64) = Z.to_nat (i / 64) <-> j / 64 = i / 64.
Proof. intros. pose proof (Z.div_pos i 64). pose proof (Z.div_pos j 64). lia. Qed.

Lemma lor_word x y : in_u 64 x -> in_u 64 y -> in_u 64 (Z.lor x y).
Proof.
  rewrite !word_bits. intros [Hx Bx] [Hy By]. split; [by apply Z.lor_nonneg|]. intros j Hj. by rewrite Z.lor_spec, Bx, By.
Qed.

Lemma land_word x y : in_u 64 x -> in_u 64 (Z.land x y).
Proof.
  rewrite !word_bits. intros [Hx Bx]. split; [apply Z.land_nonneg; by left|]. intros j Hj. by rewrite Z.land_spec, Bx.
Qed.

Lemma mask_word n : 0 <= n < 64 -> in_u 64 (2 ^ n).
Proof.
  intros Hn. unfold in_u. pose proof (Z.pow_lt_mono_r 2 n 64 ltac:(lia) ltac:(lia) ltac:(lia)). pose proof (pow2_pos n ltac:(lia)). lia.
Qed.

(** A bitmap with the same bits but where [f] says otherwise. *)
Definition becomes (b b' : Bitmap) (f : Z -> bool) : Prop :=
  wf b' /\ bitsize_ b' = bitsize_ b /\ length (bitmap_ b') = length (bitmap_ b) /\ forall j, 0 <= j -> bit b' j = f j.

Lemma becomes_trans b b1 b2 f g : becomes b b1 f -> becomes b1 b2 g -> becomes b b2 g.
Proof. intros (W1 & S1 & L1 & B1) (W2 & S2 & L2 & B2). split_and!; [done|congruence|congruence|done]. Qed.

(** The word of [i] is replaced. *)
Lemma update_word b i w g :
  wf b -> 0 <= i < bitsize_ b -> bitmap_ b !! Z.to_nat (i / 64) = Some w ->
  in_u 64 (g w) ->
  exists b', set_word b (GetWordIdx i) (g w) = Done b' /\
    becomes b b' (fun j => if j / 64 =? i / 64 then Z.testbit (g w) (j mod 64) else bit b j).
Proof.
  intros Wf Hi Hw Hg. rewrite word_idx. destruct (set_word_spec b (Z.to_nat (i / 64)) (g w) w Wf Hw Hg) as (b' & E & W' & S' & L' & B').
  exists b'. split; [done|]. split_and!; try done. intros j Hj. rewrite B' by done.
  destruct (bool_decide_reflect (Z.to_nat (j / 64) = Z.to_nat (i / 64))) as [Ej|Ej]; rewrite same_word in Ej by lia.
  - by rewrite (proj2 (Z.eqb_eq _ _)).
  - by rewrite (proj2 (Z.eqb_neq _ _)).
Qed.

Lemma number_eq i j : i / 64 = j / 64 -> i mod 64 = j mod 64 -> i = j.
Proof. intros. rewrite (Z.div_mod i 64), (Z.div_mod j 64) by lia. lia. Qed.

Lemma word_read b i : wf b -> 0 <= i < bitsize_ b ->
  exists w, GetBitmapWord b i = Done w /\ in_u 64 w /\ bitmap_ b !! Z.to_nat (i / 64) = Some w.
Proof.
  intros Wf Hi. destruct (word_in b i Wf Hi) as (w & Hw & Hu). exists w. unfold GetBitmapWord, read. by rewrite word_idx, Hw.
Qed.

Lemma SetBit_spec b i :
  wf b -> 0 <= i < bitsize_ b -> exists b', SetBit b i = Done b' /\ becomes b b' (fun j => (j =? i) || bit b j).
Proof.
  intros Wf Hi. destruct (word_read b i Wf Hi) as (w & Er & Hu & Hw). unfold SetBit. rewrite Er, bit_mask. cbv [mbind outcome_bind].
  destruct (update_word b i w (fun w => Z.lor w (2 ^ (i mod 64))) Wf Hi Hw) as (b' & -> & W' & S' & L' & B').
  { apply lor_word; [done|]. apply mask_word, mod64. }
  exists b'. split; [done|]. split_and!; try done. intros j Hj. rewrite B' by done. pose proof (mod64 i). pose proof (mod64 j).
  rewrite Z.lor_spec, Z.pow2_bits_eqb by lia. destruct (Z.eqb_spec (j / 64) (i / 64)) as [E|E].
  - rewrite (bit_read b j w) by congruence. rewrite orb_comm. f_equal.
    destruct (Z.eqb_spec (i mod 64) (j mod 64)), (Z.eqb_spec j i); try done; [|congruence].
    destruct n. by apply number_eq.
  - destruct (Z.eqb_spec j i); [congruence|done].
Qed.

Lemma ClearBit_spec b i :
  wf b -> 0 <= i < bitsize_ b -> exists b', ClearBit b i = Done b' /\ becomes b b' (fun j => negb (j =? i) && bit b j).
Proof.
  intros Wf Hi. destruct (word_read b i Wf Hi) as (w & Er & Hu & Hw). unfold ClearBit. rewrite Er, bit_mask. cbv [mbind outcome_bind].
  destruct (update_word b i w (fun w => Z.land w (u64 (Z.lnot (2 ^ (i mod 64))))) Wf Hi Hw) as (b' & -> & W' & S' & L' & B').
  { by apply land_word. }
  exists b'. split; [done|]. split_and!; try done. intros j Hj. rewrite B' by done. pose proof (mod64 i). pose proof (mod64 j).
  rewrite Z.land_spec, u64_testbit, Z.lnot_spec, Z.pow2_bits_eqb by lia. rewrite (proj2 (Z.ltb_lt (j mod 64) 64)) by lia. simpl.
  destruct (Z.eqb_spec (j / 64) (i / 64)) as [E|E].
  - rewrite (bit_read b j w) by congruence. rewrite andb_comm. f_equal. f_equal.
    destruct (Z.eqb_spec (i mod 64) (j mod 64)), (Z.eqb_spec j i); try done; [|congruence].
    destruct n. by apply number_eq.
  - destruct (Z.eqb_spec j i); [congruence|done].
Qed.

Lemma TestBit_spec b i : wf b -> 0 <= i < bitsize_ b -> TestBit b i = Done (bit b i).
Proof.
  intros Wf Hi. destruct (word_read b i Wf Hi) as (w & Er & Hu & Hw). unfold TestBit. rewrite Er, bit_mask. cbv [mbind outcome_bind].
  f_equal. rewrite land_bit by apply mod64. symmetry. by apply bit_read.
Qed.

Lemma AtomicTestAndSetBit_spec b i :
  wf b -> 0 <= i < bitsize_ b ->
  exists b', AtomicTestAndSetBit b i = Done (b', bit b i) /\ becomes b b' (fun j => (j =? i) || bit b j).
Proof.
  intros Wf Hi. destruct (word_read b i Wf Hi) as (w & Er & Hu & Hw). pose proof (SetBit_spec b i Wf Hi) as (b' & Es & Hb).
  unfold SetBit in Es. unfold AtomicTestAndSetBit. rewrite Er in Es |- *. cbv [mbind outcome_bind] in Es |- *.
  rewrite bit_mask, land_bit by apply mod64. rewrite <- (bit_read b i w Hw). rewrite bit_mask in Es. destruct (bit b i) eqn:E.
  - exists b. split; [done|]. split_and!; try done. intros j Hj. destruct (Z.eqb_spec j i) as [->|]; [done|done].
  - rewrite Es. by exists b'.
Qed.

Lemma AtomicTestAndClearBit_spec b i :
  wf b -> 0 <= i < bitsize_ b ->
  exists b', AtomicTestAndClearBit b i = Done (b', bit b i) /\ becomes b b' (fun j => negb (j =? i) && bit b j).
Proof.
  intros Wf Hi. destruct (word_read b i Wf Hi) as (w & Er & Hu & Hw). pose proof (ClearBit_spec b i Wf Hi) as (b' & Es & Hb).
  unfold ClearBit in Es. unfold AtomicTestAndClearBit. rewrite Er in Es |- *. cbv [mbind outcome_bind] in Es |- *.
  pose proof (land_bit w (i mod 64) ltac:(apply mod64)) as El. rewrite <- (bit_read b i w Hw) in El.
  rewrite bit_mask in Es |- *. destruct (bool_decide (Z.land w (2 ^ (i mod 64)) = 0)); rewrite <- El; simpl.
  - exists b. split; [done|]. split_and!; try done. intros j Hj. destruct (Z.eqb_spec j i) as [->|]; [by rewrite <- El|done].
  - rewrite Es. by exists b'.
Qed.

(** ** Ranges of bits *)
Definition in_range (i e j : Z) : bool := (i <=? j) && (j <? e).

Lemma in_range_spec i e j : in_range i e j = true <-> i <= j < e.
Proof. unfold in_range. rewrite andb_true_iff, Z.leb_le, Z.ltb_lt. done. Qed.

Lemma same_word_range i e j :
  0 <= i < e -> e <= 64 * (i / 64) + 64 -> 0 <= j -> i <= j < e <-> j / 64 = i / 64 /\ i mod 64 <= j mod 64 < e - 64 * (i / 64).
Proof.
  intros Hi He Hj. pose proof (Z.div_mod i 64 ltac:(lia)). pose proof (Z.div_mod j 64 ltac:(lia)). pose proof (mod64 i).
  pose proof (mod64 j). split; intros ?; [|lia]. assert (j / 64 = i / 64); [|lia]. symmetry. apply Z.div_unique with (j - 64 * (i / 64)); lia.
Qed.

Lemma ModifyRange_spec SET b i e :
  wf b -> 0 <= i < e -> e <= 64 * (i / 64) + 64 -> i < bitsize_ b ->
  exists b', ModifyRangeWithinWord SET b i e = Done b' /\ becomes b b' (fun j => if in_range i e j then SET else bit b j).
Proof.
  intros Wf Hi He Hs. destruct (word_read b i Wf ltac:(lia)) as (w & Er & Hu & Hw). unfold ModifyRangeWithinWord.
  rewrite bool_decide_eq_false_2 by lia. pose proof (mod64 i) as Hm. pose proof (Z.div_mod i 64 ltac:(lia)) as Hd.
  set (n := e - 64 * (i / 64)). assert (Hn : i mod 64 < n <= 64) by (unfold n; lia).
  assert (Emask : (if e mod BITSPERWORD == 0 then GetRangeBitMask (GetBitIdxWithinWord i) BITSPERWORD
                   else GetRangeBitMask (GetBitIdxWithinWord i) (GetBitIdxWithinWord e)) = 2 ^ n - 2 ^ (i mod 64)).
  { unfold BITSPERWORD. rewrite !bit_idx. assert (Em : e mod 64 = n mod 64) by (unfold n; rewrite Zminus_mod, (Z.mul_comm 64), Z.mod_mul, Z.sub_0_r, Z.mod_mod by lia; done).
    destruct (bool_decide_reflect (e mod 64 = 0)) as [E0|E0].
    - rewrite range_mask by lia. destruct (decide (n = 64)) as [->|]; [done|]. rewrite (Z.mod_small n) in Em by lia. lia.
    - rewrite Em. destruct (decide (n = 64)) as [E64|]; [rewrite E64 in Em; done|]. rewrite (Z.mod_small n) by lia.
      by rewrite range_mask by lia. }
  rewrite Emask, Er. cbv [mbind outcome_bind].
  destruct (update_word b i w (fun w => if SET then Z.lor w (2 ^ n - 2 ^ (i mod 64)) else Z.land w (u64 (Z.lnot (2 ^ n - 2 ^ (i mod 64)))))
    Wf ltac:(lia) Hw) as (b' & -> & W' & S' & L' & B').
  { destruct SET; [|by apply land_word]. apply lor_word; [done|]. unfold in_u. pose proof (Z.pow_le_mono_r 2 n 64 ltac:(lia) ltac:(lia)).
    pose proof (Z.pow_lt_mono_r 2 (i mod 64) n ltac:(lia) ltac:(lia) ltac:(lia)). pose proof (pow2_pos (i mod 64) ltac:(lia)). lia. }
  exists b'. split; [done|]. split_and!; try done. intros j Hj. rewrite B' by done. pose proof (mod64 j) as Hmj.
  pose proof (same_word_range i e j ltac:(lia) He Hj) as Hin. fold n in Hin.
  destruct (Z.eqb_spec (j / 64) (i / 64)) as [E|E].
  - rewrite (bit_read b j w) by congruence.
    assert (Eb : in_range i e j = (i mod 64 <=? j mod 64) && (j mod 64 <? n)).
    { apply eq_iff_eq_true. rewrite in_range_spec, andb_true_iff, Z.leb_le, Z.ltb_lt, Hin. lia. }
    rewrite Eb. destruct SET.
    + rewrite Z.lor_spec, ones_testbit by lia. by destruct (_ && _); rewrite ?orb_true_r, ?orb_false_r.
    + rewrite Z.land_spec, u64_testbit, Z.lnot_spec, ones_testbit by lia. rewrite (proj2 (Z.ltb_lt (j mod 64) 64)) by lia.
      by destruct (_ && _); simpl; rewrite ?andb_true_r, ?andb_false_r.
  - destruct (in_range i e j) eqn:Er'; [|done]. apply in_range_spec, Hin in Er'. lia.
Qed.

Lemma ClearRangeWithinWord_spec b i e :
  wf b -> 0 <= i <= e -> e <= 64 * (i / 64) + 64 -> e <= bitsize_ b ->
  exists b', ClearRangeWithinWord b i e = Done b' /\ becomes b b' (fun j => negb (in_range i e j) && bit b j).
Proof.
  intros Wf Hi He Hs. unfold ClearRangeWithinWord. destruct (bool_decide_reflect (i = e)) as [->|Hne]; simpl.
  - exists b. split; [done|]. split_and!; try done. intros j Hj. destruct (in_range e e j) eqn:E; [|done]. apply in_range_spec in E. lia.
  - destruct (ModifyRange_spec false b i e Wf ltac:(lia) He ltac:(lia)) as (b' & -> & W' & S' & L' & B'). exists b'.
    split; [done|]. split_and!; try done. intros j Hj. rewrite B' by done. by destruct (in_range i e j).
Qed.

Lemma ClearWords_spec b m n :
  wf b -> (m <= n <= length (bitmap_ b))%nat ->
  exists b', ClearWords b m n = Done b' /\
    becomes b b' (fun j => negb (in_range (64 * Z.of_nat m) (64 * Z.of_nat n) j) && bit b j).
Proof.
  intros [W1 W2 W3] Hmn. unfold ClearWords, fill_words. destruct (bool_decide_reflect (m = n)) as [->|Hne].
  - exists b. split; [done|]. split_and!; try done. intros j Hj. destruct (in_range _ _ j) eqn:E; [|done].
    apply in_range_spec in E. lia.
  - rewrite (proj2 (Nat.leb_le _ _)) by lia. eexists. split; [done|].
    assert (Hlen : length (take m (bitmap_ b) ++ replicate (n - m) 0 ++ drop n (bitmap_ b)) = length (bitmap_ b))
      by (rewrite !length_app, length_take, length_replicate, length_drop; lia).
    split; [split; simpl|split; [done|split; [done|]]].
    + repeat apply Forall_app_2; [by apply Forall_take|by apply Forall_replicate|by apply Forall_drop].
    + by rewrite Hlen.
    + done.
    + intros j Hj. unfold bit at 1. simpl. pose proof (Z.div_pos j 64 Hj ltac:(lia)) as Hd.
      pose proof (Z.div_mod j 64 ltac:(lia)). pose proof (mod64 j). set (k := Z.to_nat (j / 64)).
      assert (Ek : Z.of_nat k = j / 64) by lia.
      destruct (in_range (64 * Z.of_nat m) (64 * Z.of_nat n) j) eqn:E.
      * apply in_range_spec in E. rewrite lookup_app_r, lookup_app_l by (rewrite length_take, ?length_replicate; lia).
        rewrite lookup_replicate_2 by (rewrite length_take; lia). apply Z.testbit_0_l.
      * simpl. assert (Hk : (k < m \/ n <= k)%nat).
        { destruct (decide (k < m \/ n <= k)%nat) as [?|Hn]; [done|]. apply not_true_iff_false in E. destruct E.
          apply in_range_spec. lia. }
        unfold bit. fold k. destruct Hk as [Hk|Hk].
        -- by rewrite lookup_app_l, lookup_take_lt by (rewrite ?length_take; lia).
        -- rewrite lookup_app_r, lookup_app_r by (rewrite ?length_take, ?length_replicate; lia).
           rewrite length_take, length_replicate, lookup_drop. by replace (n + (k - m `min` length (bitmap_ b) - (n - m)))%nat with k by lia.
Qed.

(** *** Rounding *)
Lemma land_clear k x : 0 <= k -> in_u 64 x -> Z.land x (u64 (Z.lnot (2 ^ k - 1))) = 2 ^ k * (x / 2 ^ k).
Proof.
  intros Hk Hx. apply word_bits in Hx as [_ Hx]. rewrite Z.mul_comm, <- Z.shiftr_div_pow2, <- Z.shiftl_mul_pow2 by done.
  apply Z.bits_inj'. intros j Hj. rewrite Z.land_spec, u64_testbit, Z.lnot_spec, Z.shiftl_spec by done.
  assert (Eo : Z.testbit (2 ^ k - 1) j = (j <? k)).
  { change 1 with (2 ^ 0). rewrite ones_testbit by lia. by rewrite (proj2 (Z.leb_le 0 j)). }
  rewrite Eo. destruct (Z.ltb_spec j k); simpl.
  - by rewrite andb_false_r, andb_false_r, Z.testbit_neg_r by lia.
  - rewrite Z.shiftr_spec by lia. replace (j - k + k) with j by lia. destruct (Z.ltb_spec j 64); [apply andb_true_r|].
    by rewrite Hx by lia.
Qed.

Lemma AlignUp_spec k x :
  0 <= k -> 0 <= x -> x + 2 ^ k - 1 < 2 ^ 64 -> AlignUp x (2 ^ k) = 2 ^ k * ((x + 2 ^ k - 1) / 2 ^ k).
Proof.
  intros Hk Hx Hb. pose proof (pow2_pos k Hk). unfold AlignUp. rewrite wrapu_id by (unfold in_u; lia).
  by rewrite land_clear by (unfold in_u; lia).
Qed.

Lemma AlignUp_bounds k x :
  0 <= k -> 0 <= x -> x + 2 ^ k - 1 < 2 ^ 64 -> x <= AlignUp x (2 ^ k) < x + 2 ^ k /\ (2 ^ k | AlignUp x (2 ^ k)).
Proof.
  intros Hk Hx Hb. rewrite AlignUp_spec by done. pose proof (pow2_pos k Hk).
  pose proof (Z.div_mod (x + 2 ^ k - 1) (2 ^ k) ltac:(lia)). pose proof (Z.mod_pos_bound (x + 2 ^ k - 1) (2 ^ k) ltac:(lia)).
  split; [lia|]. apply Z.divide_factor_l.
Qed.

Lemma RoundUp64 x : 0 <= x < 2 ^ 62 -> RoundUp x 64 = 64 * ((x + 63) / 64).
Proof.
  intros Hx. unfold RoundUp. replace (x + 64 - 1) with (x + 63) by lia. rewrite (wrapu_id 64 (x + 63)) by (unfold in_u; lia).
  change (- (64)) with (Z.lnot (2 ^ 6 - 1)). by rewrite land_clear by (unfold in_u; lia).
Qed.

Lemma rounddown64 x : in_u 64 x -> fnRounddown x = 64 * (x / 64).
Proof. intros Hx. unfold fnRounddown. change (Z.shiftl 1 LOG_BITSPERWORD - 1) with (2 ^ 6 - 1). by rewrite land_clear by (done || lia). Qed.

Lemma ClearBitsInRange_spec b i e :
  wf b -> 0 <= i <= e -> i < bitsize_ b -> e <= bitsize_ b ->
  exists b', ClearBitsInRange b i e = Done b' /\ becomes b b' (fun j => negb (in_range i e j) && bit b j).
Proof.
  intros Wf Hi Hib He. pose proof (wf_size b Wf) as Hs. unfold ClearBitsInRange. rewrite !word_idx.
  pose proof (Z.div_mod i 64 ltac:(lia)). pose proof (mod64 i). pose proof (Z.div_mod e 64 ltac:(lia)). pose proof (mod64 e).
  pose proof (Z.div_le_mono i e 64 ltac:(lia) ltac:(lia)).
  destruct (bool_decide_reflect (Z.to_nat (e / 64) = Z.to_nat (i / 64))) as [E|E].
  { apply ClearRangeWithinWord_spec; [done|lia| |lia]. rewrite same_word in E by lia. lia. }
  rewrite same_word in E by lia. rewrite RoundUp64, rounddown64 by (unfold in_u; lia).
  pose proof (Z.div_mod (i + 63) 64 ltac:(lia)). pose proof (mod64 (i + 63)). set (r := 64 * ((i + 63) / 64)) in *.
  destruct (ClearRangeWithinWord_spec b i r Wf ltac:(lia) ltac:(lia) ltac:(lia)) as (b1 & -> & Hb1).
  cbv [mbind outcome_bind]. pose proof Hb1 as (W1 & S1 & L1 & B1).
  assert (Er : r / 64 = (i + 63) / 64) by (unfold r; rewrite Z.mul_comm, Z.div_mul; lia).
  assert (Ee : 64 * (e / 64) / 64 = e / 64) by (rewrite Z.mul_comm, Z.div_mul; lia).
  rewrite Er, Ee.
  assert (Hlen : (Z.to_nat (e / 64) <= length (bitmap_ b1))%nat).
  { rewrite L1. pose proof (wf_length b Wf) as Hl. pose proof (Z.div_le_mono e (bitsize_ b + 63) 64 ltac:(lia) ltac:(lia)). lia. }
  destruct (ClearWords_spec b1 (Z.to_nat ((i + 63) / 64)) (Z.to_nat (e / 64)) W1 ltac:(lia)) as (b2 & -> & Hb2).
  pose proof Hb2 as (W2 & S2 & L2 & B2).
  destruct (ClearRangeWithinWord_spec b2 (64 * (e / 64)) e W2 ltac:(lia) ltac:(lia) ltac:(lia)) as (b3 & -> & Hb3).
  exists b3. split; [done|]. destruct Hb3 as (W3 & S3 & L3 & B3). split_and!; [done|congruence|congruence|].
  intros j Hj. rewrite B3, B2, B1, !andb_assoc by done. f_equal. apply eq_iff_eq_true.
  rewrite !andb_true_iff, !negb_true_iff, <- !not_true_iff_false, !in_range_spec. lia.
Qed.

(** ** Iteration *)
(** The numbers in [i, e) that are in the set, in their order. *)
Definition set_bits (b : Bitmap) (i e : Z) : list Z := List.filter (bit b) (seqZ i (e - i)).

Section Iteration.
Context {S : Type} (visitor : Z -> S -> S * bool).

(** A list is visited until the visitor says to stop. *)
Fixpoint visit_list (l : list Z) (s : S) : S * bool :=
  match l with
  | [] => (s, true)
  | i :: l => let '(s, go_on) := visitor i s in if go_on : bool then visit_list l s else (s, false)
  end.

Lemma visit_list_app l1 l2 s :
  visit_list (l1 ++ l2) s = let '(s, go_on) := visit_list l1 s in if go_on : bool then visit_list l2 s else (s, false).
Proof.
  revert s. induction l1 as [|i l1 IH]; intros s; simpl; [done|]. destruct (visitor i s) as [s' []]; [apply IH|done].
Qed.

Definition word_list (w : Z) : list Z := List.filter (Z.testbit w) (seqZ 0 64).

Lemma find_filter (P : Z -> bool) l x :
  NoDup l -> List.find P l = Some x -> List.filter P l = x :: List.filter (fun j => P j && negb (j =? x)) l.
Proof.
  induction 1 as [|y l Hy _ IH]; simpl; [done|]. destruct (P y) eqn:E; simpl.
  - intros [= <-]. rewrite Z.eqb_refl. simpl. f_equal. apply List.filter_ext_in. intros j Hj.
    destruct (Z.eqb_spec j y) as [->|]; [|by rewrite andb_true_r]. by apply list_elem_of_In in Hj.
  - exact IH.
Qed.

Lemma Ctz_spec w : in_u 64 w -> w <> 0 ->
  List.find (Z.testbit w) (seqZ 0 64) = Some (Ctz w) /\ 0 <= Ctz w < 64 /\ Z.testbit w (Ctz w) = true.
Proof.
  intros Hw Hn. unfold Ctz. destruct (List.find (Z.testbit w) (seqZ 0 64)) as [x|] eqn:E.
  - simpl. split; [done|]. apply List.find_some in E as [Hx Ht]. apply list_elem_of_In, elem_of_seqZ in Hx. split; [lia|done].
  - destruct Hn. apply Z.bits_inj'. intros j Hj. rewrite Z.testbit_0_l. destruct (decide (j < 64)).
    + apply (List.find_none _ _ E). apply list_elem_of_In, elem_of_seqZ. lia.
    + apply word_bits in Hw as [_ Hw]. apply Hw. lia.
Qed.

Lemma word_list_cons w :
  in_u 64 w -> w <> 0 -> word_list w = Ctz w :: word_list (Z.land w (u64 (Z.lnot (GetBitMask (Ctz w))))).
Proof.
  intros Hw Hn. destruct (Ctz_spec w Hw Hn) as (Ef & Hc & _). unfold word_list.
  rewrite (find_filter _ _ _ (NoDup_seqZ 0 64) Ef). f_equal. apply List.filter_ext_in. intros j Hj.
  apply list_elem_of_In, elem_of_seqZ in Hj. rewrite bit_mask, (Z.mod_small (Ctz w)) by lia.
  rewrite Z.land_spec, u64_testbit, Z.lnot_spec, Z.pow2_bits_eqb by lia. rewrite (proj2 (Z.ltb_lt j 64)) by lia. simpl.
  by rewrite Z.eqb_sym.
Qed.

Lemma word_list_0 : word_list 0 = [].
Proof. vm_compute. reflexivity. Qed.

Lemma visit_word_list l w fuel base s :
  word_list w = l -> in_u 64 w -> (length l < fuel)%nat ->
  visit_word visitor fuel w base s = Done (visit_list (map (Z.add base) l) s).
Proof.
  revert w fuel s. induction l as [|x l IH]; intros w fuel s El Hw Hf; (destruct fuel as [|fuel]; [inversion Hf|]); cbn [visit_word].
  - destruct (bool_decide_reflect (w = 0)) as [->|Hn]; [done|]. by rewrite (word_list_cons w Hw Hn) in El.
  - destruct (bool_decide_reflect (w = 0)) as [->|Hn]; [by rewrite word_list_0 in El|].
    rewrite (word_list_cons w Hw Hn) in El. injection El as Ex El. rewrite Ex in El |- *. cbn [map visit_list].
    destruct (visitor (base + x) s) as [s' []]; [|done]. apply IH; [done|by apply land_word|by apply Nat.succ_lt_mono in Hf].
Qed.

Lemma visit_word_spec fuel w base s :
  in_u 64 w -> (length (word_list w) < fuel)%nat ->
  visit_word visitor fuel w base s = Done (visit_list (map (Z.add base) (word_list w)) s).
Proof. intros Hw Hf. by apply visit_word_list. Qed.

Lemma filter_map_bits (P : Z -> bool) base l :
  map (Z.add base) (List.filter (fun j => P (base + j)) l) = List.filter P (map (Z.add base) l).
Proof. induction l as [|x l IH]; simpl; [done|]. destruct (P (base + x)); simpl; by rewrite IH. Qed.

(** The bits of a word, as those of the bitmap. *)
Lemma word_list_range w base n (f : Z -> bool) :
  0 <= n <= 64 -> (forall j, 0 <= j < 64 -> Z.testbit w j = (j <? n) && f (base + j)) ->
  map (Z.add base) (word_list w) = List.filter f (seqZ base n).
Proof.
  intros Hn Hw. unfold word_list. replace 64 with (n + (64 - n)) by lia. rewrite seqZ_app, List.filter_app by lia.
  rewrite (filter_none _ (seqZ (0 + n) (64 - n))).
  2: { intros j Hj. apply elem_of_seqZ in Hj. rewrite Hw by lia. by rewrite (proj2 (Z.ltb_ge j n)) by lia. }
  rewrite app_nil_r, (List.filter_ext_in _ (fun j => f (base + j))).
  - rewrite filter_map_bits. f_equal. change (map (Z.add base)) with (fmap (M := list) (Z.add base)). rewrite fmap_add_seqZ.
    f_equal. lia.
  - intros j Hj. apply list_elem_of_In, elem_of_seqZ in Hj. rewrite Hw by lia. by rewrite (proj2 (Z.ltb_lt j n)) by lia.
Qed.

Lemma word_list_short w : (length (word_list w) < 65)%nat.
Proof.
  unfold word_list. pose proof (List.filter_length_le (Z.testbit w) (seqZ 0 64)) as Hl. rewrite length_seqZ in Hl. lia.
Qed.

Lemma visit_words_spec fuel b w k e s (f : Z -> bool) :
  wf b -> in_u 64 w -> 0 <= k -> 64 * k < e -> e <= bitsize_ b ->
  (forall j, 0 <= j < 64 -> Z.testbit w j = f (64 * k + j)) -> (forall j, 64 * k + 64 <= j -> f j = bit b j) ->
  (Z.to_nat ((e + 63) / 64 - k) <= fuel)%nat ->
  visit_words visitor fuel b w (64 * k) e s = Done (fst (visit_list (List.filter f (seqZ (64 * k) (e - 64 * k))) s)).
Proof.
  intros Wf. revert w k s. induction fuel as [|fuel IH]; intros w k s Hw Hk Hke He Hbits Hf Hfuel.
  { pose proof (Z.div_le_mono (64 * k + 64) (e + 63) 64 ltac:(lia) ltac:(lia)) as Hd.
    replace (64 * k + 64) with ((k + 1) * 64) in Hd by lia. rewrite Z.div_mul in Hd by lia. lia. }
  cbn [visit_words]. rewrite bit_idx, word_idx. unfold BITSPERWORD. pose proof (Z.div_mod e 64 ltac:(lia)) as Hd. pose proof (mod64 e).
  pose proof (Z.div_pos e 64 ltac:(lia) ltac:(lia)). rewrite Z2Nat.id by lia.
  set (w' := if _ && _ then _ else w). set (n := Z.min 64 (e - 64 * k)).
  assert (Hw' : in_u 64 w') by (unfold w'; destruct (_ && _); [by apply land_word|done]).
  assert (Hb' : forall j, 0 <= j < 64 -> Z.testbit w' j = (j <? n) && f (64 * k + j)).
  { intros j Hj. unfold w', n. rewrite range_mask by lia. destruct (bool_decide_reflect (64 * k = e / 64 * 64)) as [Ek|Ek]; simpl.
    - destruct (bool_decide_reflect (e mod 64 = 0)) as [E0|E0]; simpl; [lia|].
      rewrite Z.land_spec, ones_testbit, Hbits by lia. rewrite andb_comm. f_equal. rewrite (proj2 (Z.leb_le 0 j)) by lia. simpl.
      f_equal. lia.
    - rewrite Hbits by done. assert (64 * k + 64 <= e) by lia. by rewrite (proj2 (Z.ltb_lt j _)) by lia. }
  rewrite visit_word_spec by (done || apply word_list_short). cbv [mbind outcome_bind].
  rewrite (word_list_range w' (64 * k) n f) by (done || lia).
  replace (e - 64 * k) with (n + (e - 64 * k - n)) by lia. rewrite seqZ_app, List.filter_app, visit_list_app by lia.
  destruct (visit_list (List.filter f (seqZ (64 * k) n)) s) as [s' []]; [|done].
  destruct (Z.leb_spec e (64 * k + 64)) as [Hle|Hlt].
  - replace (e - 64 * k - n) with 0 by lia. done.
  - destruct (word_read b (64 * k + 64) Wf ltac:(lia)) as (w2 & -> & Hu2 & Hw2). cbv [mbind outcome_bind].
    replace (64 * k + n) with (64 * (k + 1)) by lia. replace (64 * k + 64) with (64 * (k + 1)) in * by lia.
    replace (e - 64 * k - n) with (e - 64 * (k + 1)) by lia. apply IH; try done; try lia.
    + intros j Hj. rewrite Hf by lia. symmetry. rewrite (bit_read b _ w2).
      * f_equal. rewrite Z.add_comm, Z.mul_comm, Z.mod_add, Z.mod_small by lia. done.
      * rewrite <- Hw2. f_equal. f_equal. rewrite !(Z.mul_comm 64), Z.div_mul, Z.div_add_l, (Z.div_small j) by lia. lia.
    + intros j Hj. apply Hf. lia.
Qed.

Lemma IterateOverSetBitsInRange_spec b i e s :
  wf b -> 0 <= i <= e -> i < bitsize_ b -> e <= bitsize_ b ->
  IterateOverSetBitsInRange visitor b i e s = Done (fst (visit_list (set_bits b i e) s)).
Proof.
  intros Wf Hi Hib He. unfold IterateOverSetBitsInRange, set_bits. destruct (bool_decide_reflect (i = e)) as [->|Hne].
  { by rewrite Z.sub_diag. }
  destruct (word_read b i Wf ltac:(lia)) as (w & -> & Hu & Hw). cbv [mbind outcome_bind].
  rewrite bit_idx, word_idx. unfold BITSPERWORD. pose proof (mod64 i). pose proof (Z.div_mod i 64 ltac:(lia)).
  pose proof (Z.div_pos i 64 ltac:(lia) ltac:(lia)). rewrite Z2Nat.id, (Z.mul_comm _ 64), range_mask by lia.
  rewrite (visit_words_spec _ b _ (i / 64) e s (fun j => (i <=? j) && bit b j)); try done; try lia.
  - do 3 f_equal. replace (e - 64 * (i / 64)) with (i mod 64 + (e - i)) by lia. rewrite seqZ_app, List.filter_app by lia.
    rewrite filter_none.
    + simpl. replace (64 * (i / 64) + i mod 64) with i by lia. apply List.filter_ext_in. intros j Hj.
      apply list_elem_of_In, elem_of_seqZ in Hj. by rewrite (proj2 (Z.leb_le i j)) by lia.
    + intros j Hj. apply elem_of_seqZ in Hj. by rewrite (proj2 (Z.leb_gt i j)) by lia.
  - by apply land_word.
  - intros j Hj. rewrite Z.land_spec, ones_testbit by lia. rewrite (proj2 (Z.ltb_lt j 64)) by lia. rewrite andb_true_r, andb_comm.
    rewrite (bit_read b (64 * (i / 64) + j) w).
    + f_equal; [|f_equal]; [apply eq_iff_eq_true; rewrite !Z.leb_le; lia|].
      by rewrite Z.add_comm, Z.mul_comm, Z.mod_add, Z.mod_small by lia.
    + rewrite <- Hw. f_equal. f_equal. by rewrite Z.mul_comm, Z.div_add_l, (Z.div_small j), Z.add_0_r by lia.
  - intros j Hj. by rewrite (proj2 (Z.leb_le i j)) by lia.
  - pose proof (wf_length b Wf). pose proof (Z.div_le_mono (e + 63) (bitsize_ b + 63) 64 ltac:(lia) ltac:(lia)). lia.
Qed.
End Iteration.

(** The last number of the set that is not behind [i]. *)
Lemma find_down_spec fuel b w k i :
  wf b -> in_u 64 w -> 0 <= k -> (Z.to_nat k < fuel)%nat -> 64 * k <= i < bitsize_ b ->
  (forall j, 0 <= j < 64 -> Z.testbit w j = (64 * k + j <=? i) && bit b (64 * k + j)) ->
  (forall j, 64 * k + 64 <= j <= i -> bit b j = false) ->
  exists r, find_down fuel b w (64 * k) i = Done r /\
    ((0 <= r <= i /\ bit b r = true /\ (forall j, r < j <= i -> bit b j = false)) \/
     (r = i /\ forall j, 0 <= j <= i -> bit b j = false)).
Proof.
  intros Wf. revert w k. induction fuel as [|fuel IH]; intros w k Hw Hk Hf Hb Hbits Habove; [lia|]. cbn [find_down].
  destruct (bool_decide_reflect (w = 0)) as [->|Hn]; simpl negb; cbv iota.
  - assert (Hnone : forall j, 64 * k <= j <= i -> bit b j = false).
    { intros j Hj. destruct (decide (64 * k + 64 <= j)); [apply Habove; lia|].
      specialize (Hbits (j - 64 * k) ltac:(lia)). rewrite Z.testbit_0_l in Hbits.
      replace (64 * k + (j - 64 * k)) with j in Hbits by lia. by rewrite (proj2 (Z.leb_le j i)) in Hbits by lia. }
    unfold BITSPERWORD. destruct (Z.ltb_spec (64 * k) 64).
    + exists i. split; [done|]. right. split; [done|]. intros j Hj. apply Hnone. lia.
    + destruct (word_read b (64 * k - 64) Wf ltac:(lia)) as (w2 & -> & Hu2 & Hw2). cbv [mbind outcome_bind].
      replace (64 * k - 64) with (64 * (k - 1)) in * by lia. apply IH; try done; try lia.
      * intros j Hj. rewrite (proj2 (Z.leb_le _ i)) by lia. simpl. rewrite (bit_read b _ w2).
        -- by rewrite Z.add_comm, Z.mul_comm, Z.mod_add, Z.mod_small by lia.
        -- rewrite <- Hw2. f_equal. f_equal. rewrite !(Z.mul_comm 64), Z.div_mul, Z.div_add_l, (Z.div_small j) by lia. lia.
      * intros j Hj. apply Hnone. lia.
  - assert (Hlog : 0 <= Z.log2 w < 64).
    { split; [apply Z.log2_nonneg|]. apply Z.log2_lt_pow2; unfold in_u in Hw; lia. }
    assert (Er : 64 * k + (BITSPERWORD - Clz 64 w - 1) = 64 * k + Z.log2 w) by (unfold BITSPERWORD, Clz; simpl; lia).
    exists (64 * k + Z.log2 w). rewrite Er. split; [done|]. left. pose proof (Hbits (Z.log2 w) Hlog) as Hl.
    rewrite Z.bit_log2 in Hl by (unfold in_u in Hw; lia). symmetry in Hl. apply andb_true_iff in Hl as [Hl Hbt].
    apply Z.leb_le in Hl. split; [lia|]. split; [done|]. intros j Hj. destruct (decide (64 * k + 64 <= j)); [apply Habove; lia|].
    specialize (Hbits (j - 64 * k) ltac:(lia)). replace (64 * k + (j - 64 * k)) with j in Hbits by lia.
    rewrite (proj2 (Z.leb_le j i)), Z.bits_above_log2 in Hbits by (unfold in_u in Hw; lia). done.
Qed.

Lemma FindHighest_spec b i :
  wf b -> 0 <= i < bitsize_ b ->
  exists r, FindHighestPrecedingOrSameBit b i = Done r /\
    ((0 <= r <= i /\ bit b r = true /\ (forall j, r < j <= i -> bit b j = false)) \/
     (r = i /\ forall j, 0 <= j <= i -> bit b j = false)).
Proof.
  intros Wf Hi. unfold FindHighestPrecedingOrSameBit. destruct (word_read b i Wf Hi) as (w & -> & Hu & Hw). cbv [mbind outcome_bind].
  rewrite bit_idx, word_idx. unfold BITSPERWORD. pose proof (mod64 i). pose proof (Z.div_mod i 64 ltac:(lia)).
  pose proof (Z.div_pos i 64 ltac:(lia) ltac:(lia)). rewrite Z2Nat.id, (Z.mul_comm _ 64) by lia.
  assert (Hmask : Z.shiftr ALL_BITS (64 - i mod 64 - 1) = 2 ^ (i mod 64 + 1) - 2 ^ 0).
  { rewrite Z.shiftr_div_pow2 by lia. symmetry. apply Z.div_unique with (2 ^ (64 - i mod 64 - 1) - 1).
    - left. pose proof (pow2_pos (64 - i mod 64 - 1) ltac:(lia)). lia.
    - rewrite Z.mul_sub_distr_l, <- Z.pow_add_r by lia. replace (64 - i mod 64 - 1 + (i mod 64 + 1)) with 64 by lia. lia. }
  rewrite Hmask. apply find_down_spec; try done; try lia.
  - by apply land_word.
  - pose proof (lookup_lt_Some _ _ _ Hw). lia.
  - intros j Hj. rewrite Z.land_spec, ones_testbit by lia. rewrite (proj2 (Z.leb_le 0 j)) by lia. simpl. rewrite andb_comm.
    rewrite (bit_read b (64 * (i / 64) + j) w).
    + f_equal; [|f_equal]; [apply eq_iff_eq_true; rewrite Z.ltb_lt, Z.leb_le; lia|].
      by rewrite Z.add_comm, Z.mul_comm, Z.mod_add, Z.mod_small by lia.
    + rewrite <- Hw. f_equal. f_equal. by rewrite Z.mul_comm, Z.div_add_l, (Z.div_small j), Z.add_0_r by lia.
Qed.

(** * Bitmaps of memory as sets of addresses *)
Section Memory.
Context (chunk : Z) (Hchunk : 0 < chunk).

Record mem_wf (m : MemBitmap) : Prop := {
  mw_bits : wf (bits_ m);
  mw_begin : 0 <= beginAddr_ m;
  mw_end : endAddr_ m = beginAddr_ m + bitsize_ (bits_ m) * chunk;
  mw_limit : endAddr_ m < 2 ^ 64;
}.

(** The chunks of the range, and those that are marked. *)
Definition is_chunk (m : MemBitmap) (a : Z) : Prop := beginAddr_ m <= a < endAddr_ m /\ (chunk | a - beginAddr_ m).
Definition marked (m : MemBitmap) (a : Z) : bool := bit (bits_ m) ((a - beginAddr_ m) / chunk).

Lemma chunk_offset m a :
  mem_wf m -> is_chunk m a ->
  AddrToBitOffset chunk m a = (a - beginAddr_ m) / chunk /\ 0 <= (a - beginAddr_ m) / chunk < bitsize_ (bits_ m) /\
  a = beginAddr_ m + (a - beginAddr_ m) / chunk * chunk.
Proof.
  intros [M1 M2 M3 M4] [Ha [k Hk]]. unfold AddrToBitOffset. rewrite wrapu_id by (unfold in_u; lia). rewrite Hk, Z.div_mul by lia.
  split; [done|]. split; [|lia]. split; nia.
Qed.

Lemma chunk_eq m a a' :
  mem_wf m -> is_chunk m a -> is_chunk m a' -> (a' - beginAddr_ m) / chunk = (a - beginAddr_ m) / chunk <-> a' = a.
Proof.
  intros Hm Ha Ha'. destruct (chunk_offset m a Hm Ha) as (_ & _ & E). destruct (chunk_offset m a' Hm Ha') as (_ & _ & E').
  split; [|by intros ->]. intros Hq. rewrite E, E', Hq. done.
Qed.

Lemma offset_chunk m j :
  mem_wf m -> 0 <= j < bitsize_ (bits_ m) ->
  let a := BitOffsetToAddr chunk m j in is_chunk m a /\ (a - beginAddr_ m) / chunk = j /\ a = beginAddr_ m + j * chunk.
Proof.
  intros [M1 M2 M3 M4] Hj. unfold BitOffsetToAddr. cbv zeta. rewrite wrapu_id by (unfold in_u; nia). split; [split|split].
  - nia.
  - exists j. lia.
  - replace (beginAddr_ m + j * chunk - beginAddr_ m) with (j * chunk) by lia. apply Z.div_mul. lia.
  - done.
Qed.

(** The same range with other marks. *)
Definition remarked (m m' : MemBitmap) (f : Z -> bool) : Prop :=
  mem_wf m' /\ beginAddr_ m' = beginAddr_ m /\ endAddr_ m' = endAddr_ m /\ bitsize_ (bits_ m') = bitsize_ (bits_ m) /\
  length (bitmap_ (bits_ m')) = length (bitmap_ (bits_ m)) /\ forall a, is_chunk m a -> marked m' a = f a.

Lemma remark m b' f g :
  mem_wf m -> becomes (bits_ m) b' g -> (forall a, is_chunk m a -> g ((a - beginAddr_ m) / chunk) = f a) ->
  remarked m {| m with bits_ := b' |} f.
Proof.
  intros Hm (W & Sz & L & B) Hg. pose proof Hm as [M1 M2 M3 M4]. split; [split; simpl; try done; by rewrite Sz|].
  split_and!; try done. intros a Ha. unfold marked. simpl. destruct (chunk_offset m a Hm Ha) as (_ & Hi & _).
  rewrite B by lia. by apply Hg.
Qed.

Lemma AtomicTestAndSet_spec m a :
  mem_wf m -> is_chunk m a ->
  exists m', AtomicTestAndSet chunk m a = Done (m', marked m a) /\ remarked m m' (fun a' => (a' =? a) || marked m a').
Proof.
  intros Hm Ha. destruct (chunk_offset m a Hm Ha) as (E & Hi & _). unfold AtomicTestAndSet. rewrite E.
  destruct (AtomicTestAndSetBit_spec (bits_ m) _ (mw_bits m Hm) Hi) as (b' & -> & Hb). cbv [mbind outcome_bind]. eexists. split; [done|].
  eapply remark; [done|exact Hb|]. intros a' Ha'. simpl. unfold marked. f_equal. apply eq_iff_eq_true. rewrite !Z.eqb_eq.
  by apply chunk_eq.
Qed.

Lemma AtomicTestAndClear_spec m a :
  mem_wf m -> is_chunk m a ->
  exists m', AtomicTestAndClear chunk m a = Done (m', marked m a) /\ remarked m m' (fun a' => negb (a' =? a) && marked m a').
Proof.
  intros Hm Ha. destruct (chunk_offset m a Hm Ha) as (E & Hi & _). unfold AtomicTestAndClear. rewrite E.
  destruct (AtomicTestAndClearBit_spec (bits_ m) _ (mw_bits m Hm) Hi) as (b' & -> & Hb). cbv [mbind outcome_bind]. eexists. split; [done|].
  eapply remark; [done|exact Hb|]. intros a' Ha'. simpl. unfold marked. f_equal. f_equal. apply eq_iff_eq_true. rewrite !Z.eqb_eq.
  by apply chunk_eq.
Qed.

Lemma AtomicTest_spec m a : mem_wf m -> is_chunk m a -> AtomicTest chunk m a = Done (marked m a).
Proof.
  intros Hm Ha. destruct (chunk_offset m a Hm Ha) as (E & Hi & _). unfold AtomicTest, AtomicTestBit. rewrite E.
  apply TestBit_spec; [apply Hm|done].
Qed.

Lemma TestIfAddrValid_spec m a :
  mem_wf m -> in_u 64 a ->
  (is_chunk m a /\ TestIfAddrValid chunk m a = Done (marked m a)) \/ (~ is_chunk m a /\ TestIfAddrValid chunk m a = Done false).
Proof.
  intros Hm Ha. unfold TestIfAddrValid. destruct (IsAddrValid chunk m a) eqn:E.
  - left. assert (Hc : is_chunk m a).
    { unfold IsAddrValid, IsAddrInRange in E. rewrite !andb_true_iff, Z.leb_le, Z.ltb_lt in E. destruct E as [Hr E].
      apply bool_decide_eq_true in E. split; [done|]. rewrite wrapu_id in E by (unfold in_u in *; pose proof (mw_begin m Hm); lia).
      apply Z.mod_divide; [lia|done]. }
    split; [done|]. destruct (chunk_offset m a Hm Hc) as (-> & Hi & _). apply TestBit_spec; [apply Hm|done].
  - right. split; [|done]. intros [Hr Hd]. apply not_true_iff_false in E. destruct E. unfold IsAddrValid, IsAddrInRange.
    rewrite !andb_true_iff, Z.leb_le, Z.ltb_lt. split; [done|]. apply bool_decide_eq_true.
    rewrite wrapu_id by (unfold in_u in *; pose proof (mw_begin m Hm); lia). apply Z.mod_divide; [lia|done].
Qed.

Lemma bit_ClearAll b j : bit (ClearAllBits b) j = false.
Proof.
  unfold bit, ClearAllBits. simpl. destruct (_ !! _) as [w|] eqn:E; [|done]. apply lookup_replicate in E as [-> _].
  apply Z.testbit_0_l.
Qed.

Lemma ReInitialize_spec m a :
  wf (bits_ m) -> 0 <= a -> a + bitsize_ (bits_ m) * chunk < 2 ^ 64 ->
  let m' := ReInitializeMemoryRange chunk m a in
  mem_wf m' /\ beginAddr_ m' = a /\ endAddr_ m' = a + bitsize_ (bits_ m) * chunk /\ bitsize_ (bits_ m') = bitsize_ (bits_ m) /\
  (forall j, bit (bits_ m') j = false).
Proof.
  intros [W1 W2 W3] Ha Hl. cbv zeta. unfold ReInitializeMemoryRange, MemSizeInBytes, Size. rewrite wrapu_id by (unfold in_u; nia).
  split; [|split_and!; try done; intros; apply bit_ClearAll]. split; simpl; try done. split; simpl; [|by rewrite length_replicate|done].
  by apply Forall_replicate.
Qed.

(** The marked chunk with the least address. *)
Lemma FindFirstMarkedChunks_spec m :
  mem_wf m -> 0 < bitsize_ (bits_ m) ->
  (FindFirstMarkedChunks chunk m = Done None /\ forall a, is_chunk m a -> marked m a = false) \/
  (exists a, FindFirstMarkedChunks chunk m = Done (Some a) /\ is_chunk m a /\ marked m a = true /\
     forall a', is_chunk m a' -> a' < a -> marked m a' = false).
Proof.
  intros Hm Hs. unfold FindFirstMarkedChunks, IterateOverSetBits.
  rewrite IterateOverSetBitsInRange_spec by (try apply Hm; unfold Size; lia). unfold set_bits, Size. rewrite Z.sub_0_r.
  destruct (List.filter (bit (bits_ m)) (seqZ 0 (bitsize_ (bits_ m)))) as [|j l] eqn:E; simpl.
  - left. split; [done|]. intros a Ha. destruct (chunk_offset m a Hm Ha) as (_ & Hi & _). unfold marked.
    apply not_true_iff_false. intros Hb. assert (Hin : (a - beginAddr_ m) / chunk ∈ List.filter (bit (bits_ m)) (seqZ 0 (bitsize_ (bits_ m)))).
    { apply list_elem_of_In, List.filter_In. split; [|done]. apply list_elem_of_In, elem_of_seqZ. lia. }
    rewrite E in Hin. by apply elem_of_nil in Hin.
  - right. assert (Hj : 0 <= j < bitsize_ (bits_ m) /\ bit (bits_ m) j = true).
    { assert (Hin : In j (List.filter (bit (bits_ m)) (seqZ 0 (bitsize_ (bits_ m))))) by (rewrite E; by left).
      apply List.filter_In in Hin as [Hin Hb]. apply list_elem_of_In, elem_of_seqZ in Hin. split; [lia|done]. }
    destruct Hj as [Hj Hb]. destruct (offset_chunk m j Hm Hj) as (Hc & Ej & Ea). eexists. split; [done|].
    split; [done|]. unfold marked. rewrite Ej. split; [done|]. intros a' Ha' Hlt. destruct (chunk_offset m a' Hm Ha') as (_ & Hi & Ea').
    set (j' := (a' - beginAddr_ m) / chunk) in *. assert (Hjj : j' < j) by nia.
    apply not_true_iff_false. intros Hb'. clear Hlt Ea'.
    assert (Hsplit : seqZ 0 (bitsize_ (bits_ m)) = seqZ 0 j ++ seqZ j (bitsize_ (bits_ m) - j)).
    { replace (bitsize_ (bits_ m)) with (j + (bitsize_ (bits_ m) - j)) at 1 by lia. rewrite seqZ_app by lia. done. }
    rewrite Hsplit, List.filter_app in E.
    assert (Hin : j' ∈ List.filter (bit (bits_ m)) (seqZ 0 j)).
    { apply list_elem_of_In, List.filter_In. split; [|done]. apply list_elem_of_In, elem_of_seqZ. lia. }
    destruct (List.filter (bit (bits_ m)) (seqZ 0 j)) as [|j0 l0] eqn:E0; [by apply elem_of_nil in Hin|].
    injection E as -> _. assert (Hin0 : In j (List.filter (bit (bits_ m)) (seqZ 0 j))) by (rewrite E0; by left).
    apply List.filter_In in Hin0 as [Hin0 _]. apply list_elem_of_In, elem_of_seqZ in Hin0. lia.
Qed.
End Memory.
End Bitmap.
