(* ===== verification/GcBitmapTheorems.v ===== *)
(** Walks over the marked chunks of a range of memory, and a range that is cleared. *)
From S2P Require Import Prelude GcBitmap.
From Stdlib Require Import Sorted.
From stdpp Require Import gmap functions list.
Local Open Scope Z_scope.
Local Open Scope ark_scope.
Import Bitmap.

Section Range.
Context (c : Z) (Hc : 0 <= c < 62).
Abbreviation chunk := (2 ^ c).

Lemma chunk_pos : 0 < chunk.
Proof. apply Z.pow_pos_nonneg; lia. Qed.

(** The end of a range, rounded up to chunks. *)
Lemma EndAddr_offset m e :
  mem_wf chunk m -> (chunk | beginAddr_ m) -> endAddr_ m + chunk < 2 ^ 64 -> beginAddr_ m <= e <= endAddr_ m ->
  exists j, EndAddrToBitOffset chunk m e = j /\ 0 <= j <= bitsize_ (bits_ m) /\ forall i, 0 <= i -> i < j <-> beginAddr_ m + i * chunk < e.
Proof.
  intros Hm [q Eq] Hl He. pose proof chunk_pos. pose proof (mw_begin _ _ Hm). pose proof (mw_end _ _ Hm) as Hend. unfold EndAddrToBitOffset.
  destruct (AlignUp_bounds c e) as (Hu & [u Eu]); [lia..|]. set (x := AlignUp e chunk) in *.
  assert (Ex : x - beginAddr_ m = (u - q) * chunk) by lia. assert (Hj : 0 <= u - q <= bitsize_ (bits_ m)) by nia.
  rewrite wrapu_id by (unfold in_u; nia). rewrite Ex, Z.div_mul by lia. exists (u - q). split_and!; [done|lia..|]. intros i Hi. nia.
Qed.

Lemma visit_list_map {S} (visitor : Z -> S -> S * bool) (f : Z -> Z) l s : visit_list (fun i => visitor (f i)) l s = visit_list visitor (f <$> l) s.
Proof. revert s. induction l as [|i l IH]; intros s; [done|]. cbn. destruct (visitor (f i) s) as [s' []]; [apply IH|done]. Qed.

Lemma sorted_chunks (P : Z -> bool) (f : Z -> Z) n : 0 <= n -> forall i,
  (forall x y, i <= x < y -> y < i + n -> f x < f y) -> StronglySorted Z.lt (f <$> List.filter P (seqZ i n)).
Proof.
  intros Hn. pattern n. apply natlike_ind; [|clear n Hn; intros n Hn IH|done]; intros i Hf; [by constructor|].
  rewrite seqZ_cons by lia. replace (Z.pred (Z.succ n)) with n by lia. cbn [List.filter].
  assert (Ht : StronglySorted Z.lt (f <$> List.filter P (seqZ (Z.succ i) n))) by (apply IH; intros x y Hx Hy; apply Hf; lia).
  destruct (P i); [|done]. cbn. constructor; [done|]. apply Forall_forall. intros a (x & -> & Hx)%list_elem_of_fmap.
  rewrite list_elem_of_In, filter_In, <- list_elem_of_In, elem_of_seqZ in Hx. apply Hf; lia.
Qed.

(** C23: IterateOverMarkedChunkInRangeInterruptible calls the visitor, until it says to stop, for marked chunks in the order of their
    addresses: for all those in the range, and before them for the last marked one in front of the range when the range does not
    start with a marked chunk. *)
Theorem marked_chunks_in_range {S} (visitor : Z -> S -> S * bool) m begin end_ s :
  mem_wf chunk m -> (chunk | beginAddr_ m) -> endAddr_ m + chunk < 2 ^ 64 -> is_chunk chunk m begin -> begin <= end_ <= endAddr_ m ->
  exists from l, IterateOverMarkedChunkInRangeInterruptible chunk visitor m begin end_ s = Done (fst (visit_list visitor l s)) /\ StronglySorted Z.lt l /\
    (forall a, a ∈ l <-> is_chunk chunk m a /\ marked chunk m a = true /\ from <= a < end_) /\
    is_chunk chunk m from /\ from <= begin /\ (forall a, is_chunk chunk m a -> from < a <= begin -> marked chunk m a = false) /\
    (marked chunk m from = true \/ from = begin /\ forall a, is_chunk chunk m a -> a <= begin -> marked chunk m a = false).
Proof.
  intros Hm Hb Hl Hch He. pose proof chunk_pos as Hp. destruct (chunk_offset chunk Hp m begin Hm Hch) as (Eoff & Hoff & Ebegin). set (i := (begin - beginAddr_ m) / chunk) in *.
  destruct (EndAddr_offset m end_ Hm Hb Hl ltac:(split; [|lia]; destruct Hch; lia)) as (j & Ej & Hj & Hlt).
  destruct (FindHighest_spec (bits_ m) i (mw_bits _ _ Hm) Hoff) as (r & Er & Hr). assert (Hri : 0 <= r <= i) by lia.
  unfold IterateOverMarkedChunkInRangeInterruptible. rewrite Eoff, Er, Ej. cbv [mbind outcome_bind].
  assert (Hij : i <= j) by (destruct (decide (i <= j)); [done|]; assert (~ j < j) by lia; exfalso; specialize (Hlt j ltac:(lia)); nia).
  rewrite IterateOverSetBitsInRange_spec by (try apply Hm; lia). rewrite (visit_list_map visitor (BitOffsetToAddr chunk m)).
  assert (Haddr : forall x, 0 <= x < bitsize_ (bits_ m) -> is_chunk chunk m (BitOffsetToAddr chunk m x) /\ marked chunk m (BitOffsetToAddr chunk m x) = bit (bits_ m) x /\ BitOffsetToAddr chunk m x = beginAddr_ m + x * chunk).
  { intros x Hx. destruct (offset_chunk chunk Hp m x Hm Hx) as (H1 & H2 & H3). unfold marked. by rewrite H2. }
  assert (Hinv : forall a, is_chunk chunk m a -> exists x, 0 <= x < bitsize_ (bits_ m) /\ a = BitOffsetToAddr chunk m x).
  { intros a Ha. destruct (chunk_offset chunk Hp m a Hm Ha) as (_ & Hx & Ea). exists ((a - beginAddr_ m) / chunk). split; [done|]. by destruct (Haddr _ Hx) as (_ & _ & ->). }
  assert (Ebeg : begin = BitOffsetToAddr chunk m i) by (by destruct (Haddr i Hoff) as (_ & _ & ->)).
  exists (BitOffsetToAddr chunk m r), (BitOffsetToAddr chunk m <$> set_bits (bits_ m) r j). split; [done|]. destruct (Haddr r ltac:(lia)) as (Hcr & Hmr & Er'). split_and!.
  - apply sorted_chunks; [lia|]. intros x y Hx Hy. destruct (Haddr x ltac:(lia)) as (_ & _ & ->). destruct (Haddr y ltac:(lia)) as (_ & _ & ->). nia.
  - intros a. rewrite list_elem_of_fmap. unfold set_bits. setoid_rewrite list_elem_of_In. setoid_rewrite filter_In. setoid_rewrite <- list_elem_of_In. setoid_rewrite elem_of_seqZ. split.
    + intros (x & -> & Hx & Hbx). destruct (Haddr x ltac:(lia)) as (H1 & H2 & H3). rewrite H2. split_and!; try done; [rewrite Er', H3; nia|]. rewrite H3. apply Hlt; lia.
    + intros (Ha & Hma & Hr1). destruct (Hinv a Ha) as (x & Hx & ->). destruct (Haddr x Hx) as (_ & H2 & H3). exists x. rewrite <- H2. split; [done|]. split; [|done].
      rewrite Er', H3 in Hr1. pose proof (proj2 (Hlt x ltac:(lia)) ltac:(lia)). nia.
  - done.
  - rewrite Er', Ebegin. nia.
  - intros a Ha Hx. destruct (Hinv a Ha) as (x & Hxb & ->). destruct (Haddr x Hxb) as (_ & -> & H3). rewrite H3, Er', Ebegin in Hx. destruct Hr as [(_ & _ & Hr)|[_ Hr]]; apply Hr; nia.
  - destruct Hr as [(_ & Hr & _)|[-> Hr]]; [left; by rewrite Hmr|right]. split; [done|]. intros a Ha Hx. destruct (Hinv a Ha) as (x & Hxb & ->).
    destruct (Haddr x Hxb) as (_ & -> & H3). rewrite H3, Ebegin in Hx. apply Hr. nia.
Qed.
End Range.

(** Two marked chunks of eight bytes, one in front of the range. *)
Definition two_marks : MemBitmap := mkMemBitmap 4096 4608 (mkBitmap [2 + 2 ^ 10] 64).

Lemma marked_chunks_in_range_witness :
  exists from l, IterateOverMarkedChunkInRangeInterruptible (2 ^ 3) (fun a l => (l ++ [a], true)) two_marks 4160 4288 [] = Done (fst (visit_list (fun a l => (l ++ [a], true)) l [])) /\ StronglySorted Z.lt l /\
    (forall a, a ∈ l <-> is_chunk (2 ^ 3) two_marks a /\ marked (2 ^ 3) two_marks a = true /\ from <= a < 4288) /\
    is_chunk (2 ^ 3) two_marks from /\ from <= 4160 /\ (forall a, is_chunk (2 ^ 3) two_marks a -> from < a <= 4160 -> marked (2 ^ 3) two_marks a = false) /\
    (marked (2 ^ 3) two_marks from = true \/ from = 4160 /\ forall a, is_chunk (2 ^ 3) two_marks a -> a <= 4160 -> marked (2 ^ 3) two_marks a = false).
Proof.
  apply (marked_chunks_in_range 3); [lia| |by exists 512|done| |cbn; lia].
  - split; [|done|done|done]. split; [|done|cbn; lia]. by repeat constructor.
  - split; [cbn; lia|]. by exists 8.
Defined.

(** The chunk at 4104 is visited, in front of the range that begins at 4160. *)
Example visited_before_begin : IterateOverMarkedChunkInRange (2 ^ 3) (fun a l => l ++ [a]) two_marks 4160 4288 [] = Done [4104; 4176].
Proof. vm_compute. reflexivity. Qed.
