(* ===== verification/RunSlots.v ===== *)
(** A run of slots: runtime/mem/runslots.h and runslots.cpp.

    A run is a page: its header in front, slots of one size behind it.  Free slots are linked through their first words; slots
    that were never used follow from [firstUninitializedSlotOffset_] on.  A bitmap has a bit for every 8 bytes, set where an occupied slot
    starts.

    Addresses are numbers, 0 is the null pointer; [Words] are the aligned words of memory by address.  The size of the header with its
    lock is a parameter of the layout.  The marks for the address sanitizer have no effect on the state. *)
From S2P Require Import Prelude.
From stdpp Require Import gmap functions list.
Local Open Scope Z_scope.
Local Open Scope ark_scope.

Abbreviation Words := (Z -> Z).

(** What the build and the platform fix: the sizes of the headers of a run and of a pool; the pages of the operating system and what
    a word reads as once its page was given back; the bytes [AllocConfigT::MemoryInit] clears, none for raw memory; whether debug
    checks are off. *)
Class Layout := {
  header_size : Z;
  header_size_ok : 0 < header_size <= 3584;
  pool_header_size : Z;
  pool_header_size_ok : 0 < pool_header_size <= 4096;
  page_log : Z;
  page_log_ok : 0 <= page_log <= 16;
  released_word : Z -> Z;
  init_size : Z;
  init_size_ok : 0 <= init_size;
  NDEBUG : bool;
}.

Module RunSlots.

Definition RUNSLOTS_SIZE : Z := 4096.
Definition RUNSLOTS_ALIGNMENT : Z := 12.
Definition SLOT_MIN_SIZE_BYTES_POWER_OF_TWO : Z := 3.
Definition SLOT_MAX_SIZE_BYTES_POWER_OF_TWO : Z := 8.
Definition BITS_IN_BYTE_POWER_OF_TWO : Z := 3.
Definition BITMAP_ARRAY_SIZE : nat := Z.to_nat (Z.shiftr (Z.shiftr RUNSLOTS_SIZE SLOT_MIN_SIZE_BYTES_POWER_OF_TWO) BITS_IN_BYTE_POWER_OF_TWO).
Definition MaxSlotSize : Z := Z.shiftl 1 SLOT_MAX_SIZE_BYTES_POWER_OF_TWO.
Definition MinSlotSize : Z := Z.shiftl 1 SLOT_MIN_SIZE_BYTES_POWER_OF_TWO.
Definition SlotSizesVariants : Z := SLOT_MAX_SIZE_BYTES_POWER_OF_TWO.

Record RunSlots := mkRunSlots {
  usedSlots_ : Z;
  slotSize_ : Z;
  firstUninitializedSlotOffset_ : Z;
  poolPointer_ : Z;
  nextFree_ : Z;
  nextRunslot_ : Z;
  prevRunslot_ : Z;
  bitmap_ : list Z;
}.

Definition GetPoolPointer (r : RunSlots) : Z := poolPointer_ r.
Definition IsEmpty (r : RunSlots) : bool := usedSlots_ r == 0.
Definition IsFull (r : RunSlots) : bool := (nextFree_ r == 0) && (firstUninitializedSlotOffset_ r == 0).
Definition SetNextRunSlots (r : RunSlots) (runslots : Z) : RunSlots := {| r with nextRunslot_ := runslots |}.
Definition GetNextRunSlots (r : RunSlots) : Z := nextRunslot_ r.
Definition SetPrevRunSlots (r : RunSlots) (runslots : Z) : RunSlots := {| r with prevRunslot_ := runslots |}.
Definition GetPrevRunSlots (r : RunSlots) : Z := prevRunslot_ r.
Definition GetSlotsSize (r : RunSlots) : Z := slotSize_ r.

(** [while (size > val)]; sizes are below [2 ^ 63]. *)
Fixpoint ConvertToPowerOfTwo_loop (fuel : nat) (size i val : Z) : outcome Z :=
  match fuel with
  | O => NoFuel
  | S fuel => if val <? size then ConvertToPowerOfTwo_loop fuel size (i + 1) (u64 (Z.shiftl val 1)) else Done i
  end.
Definition ConvertToPowerOfTwoUnsafe (size : Z) : outcome Z :=
  ConvertToPowerOfTwo_loop 64 size SLOT_MIN_SIZE_BYTES_POWER_OF_TWO MinSlotSize.

(** [FreeSlot::GetNext] and [FreeSlot::SetNext]. *)
Definition GetNext (w : Words) (slot : Z) : Z := w slot.
Definition SetNext (w : Words) (slot next : Z) : Words := <[slot := next]> w.

(** ** The bitmap *)
Definition bitIndex (slotMem : Z) : Z := Z.shiftr (Z.land slotMem (RUNSLOTS_SIZE - 1)) SLOT_MIN_SIZE_BYTES_POWER_OF_TWO.
Definition arrayIndex (slotMem : Z) : nat := Z.to_nat (Z.shiftr (bitIndex slotMem) BITS_IN_BYTE_POWER_OF_TWO).
Definition bitInArrayElement (slotMem : Z) : Z := Z.land (bitIndex slotMem) (Z.shiftl 1 BITS_IN_BYTE_POWER_OF_TWO - 1).

Definition MarkAsOccupied (r : RunSlots) (slotMem : Z) : outcome RunSlots :=
  byte ← read (bitmap_ r) (arrayIndex slotMem);
  bytes ← write (bitmap_ r) (arrayIndex slotMem) (u8 (Z.lor byte (Z.shiftl 1 (bitInArrayElement slotMem))));
  Done {| r with bitmap_ := bytes |}.

Definition MarkAsFree (r : RunSlots) (slotMem : Z) : outcome RunSlots :=
  byte ← read (bitmap_ r) (arrayIndex slotMem);
  bytes ← write (bitmap_ r) (arrayIndex slotMem) (u8 (Z.lxor byte (Z.shiftl 1 (bitInArrayElement slotMem))));
  Done {| r with bitmap_ := bytes |}.

Definition BitMapToSlot (this : Z) (arrayIndex bit : Z) : Z :=
  u64 (this + Z.shiftl (Z.shiftl arrayIndex BITS_IN_BYTE_POWER_OF_TWO + bit) SLOT_MIN_SIZE_BYTES_POWER_OF_TWO).

Definition IsLive (r : RunSlots) (obj : Z) : outcome bool :=
  let memTailByRunslots := Z.land obj (RUNSLOTS_SIZE - 1) in
  if Z.land memTailByRunslots (u64 (slotSize_ r - 1)) != 0 then Done false
  else byte ← read (bitmap_ r) (arrayIndex obj); Done (Z.land byte (Z.shiftl 1 (bitInArrayElement obj)) != 0).

(** The visitor may change the state, the run included: a byte is read before its slots are visited. *)
Section Iterate.
Context {S : Type} (bitmap_of : S -> outcome (list Z)) (visitor : Z -> S -> outcome S) (this : Z).

Fixpoint visit_byte (bits : nat) (byte arrayIndex bit : Z) (s : S) : outcome S :=
  match bits with
  | O => Done s
  | Datatypes.S bits =>
      s ← (if Z.land byte 1 != 0 then visitor (BitMapToSlot this arrayIndex bit) s else Done s);
      visit_byte bits (Z.shiftr byte 1) arrayIndex (bit + 1) s
  end.

Fixpoint visit_bytes (n : nat) (arrayIndex : nat) (s : S) : outcome S :=
  match n with
  | O => Done s
  | Datatypes.S n =>
      bytes ← bitmap_of s;
      byte ← read bytes arrayIndex;
      s ← (if byte == 0 then Done s else visit_byte 8 byte (Z.of_nat arrayIndex) 0 s);
      visit_bytes n (Datatypes.S arrayIndex) s
  end.

Definition IterateOverOccupiedSlots (s : S) : outcome S := visit_bytes BITMAP_ARRAY_SIZE 0 s.
End Iterate.

(** The number of occupied slots whose object has another size class; [object_size] gives the size of an object. *)
Definition VerifyRun (object_size : Z -> Z) (this : Z) (r : RunSlots) : outcome Z :=
  IterateOverOccupiedSlots (fun _ => Done (bitmap_ r))
    (fun obj failCnt =>
       sizePowerOfTwo ← ConvertToPowerOfTwoUnsafe (object_size obj);
       Done (if u32 (Z.shiftl 1 sizePowerOfTwo) != GetSlotsSize r then u64 (failCnt + 1) else failCnt))
    this 0.

(** ** Slots *)
Section Slots.
Context `{Layout}.

Definition GetHeaderSize : Z := header_size.

Definition ComputeFirstSlotOffset (slotSize : Z) : Z :=
  let slotsForHeader := GetHeaderSize / slotSize in
  let slotsForHeader := if 0 <? GetHeaderSize mod slotSize then slotsForHeader + 1 else slotsForHeader in
  slotsForHeader * slotSize.

Definition Initialize (slotSize poolPointer : Z) : RunSlots :=
  mkRunSlots 0 (u16 slotSize) (u16 (ComputeFirstSlotOffset slotSize)) poolPointer 0 0 0 (replicate BITMAP_ARRAY_SIZE 0).

Definition PopUninitializedSlot (this : Z) (r : RunSlots) : RunSlots * Z :=
  if firstUninitializedSlotOffset_ r != 0 then
    let uninitializedSlot := u64 (this + firstUninitializedSlotOffset_ r) in
    let next := u16 (firstUninitializedSlotOffset_ r + slotSize_ r) in
    ({| r with firstUninitializedSlotOffset_ := if RUNSLOTS_SIZE <=? next then 0 else next |}, uninitializedSlot)
  else (r, 0).

Definition PopFreeSlot (this : Z) (r : RunSlots) (w : Words) : outcome (RunSlots * Z) :=
  let '(r, freeSlot) :=
    if nextFree_ r == 0 then PopUninitializedSlot this r
    else ({| r with nextFree_ := GetNext w (nextFree_ r) |}, nextFree_ r) in
  if freeSlot == 0 then Done (r, 0)
  else
    r ← MarkAsOccupied r freeSlot;
    Done ({| r with usedSlots_ := u16 (usedSlots_ r + 1) |}, freeSlot).

Definition PushFreeSlot (r : RunSlots) (w : Words) (memSlot : Z) : outcome (RunSlots * Words) :=
  let w := SetNext w memSlot (nextFree_ r) in
  r ← MarkAsFree {| r with nextFree_ := memSlot |} memSlot;
  Done ({| r with usedSlots_ := u16 (usedSlots_ r - 1) |}, w).
End Slots.

(** ** Bits *)
Definition bit (bs : list Z) (j : Z) : bool :=
  match bs !! Z.to_nat (j / 8) with Some byte => Z.testbit byte (j mod 8) | None => false end.

Record bits_wf (bs : list Z) : Prop := { bits_len : length bs = 64%nat; bits_bytes : bytes_ok bs }.

(** The number of a slot's bit in its page. *)
Definition number (a : Z) : Z := a mod 4096 / 8.

Lemma bitIndex_number a : bitIndex a = number a.
Proof. unfold bitIndex, number. change (RUNSLOTS_SIZE - 1) with (2 ^ 12 - 1). rewrite land_mask, Z.shiftr_div_pow2 by (unfold SLOT_MIN_SIZE_BYTES_POWER_OF_TWO; lia). done. Qed.

Lemma number_bounds a : 0 <= number a < 512.
Proof. unfold number. pose proof (Z.mod_pos_bound a 4096 ltac:(lia)). split; [apply Z.div_pos; lia|apply Z.div_lt_upper_bound; lia]. Qed.

Lemma arrayIndex_number a : arrayIndex a = Z.to_nat (number a / 8).
Proof. unfold arrayIndex. rewrite bitIndex_number, Z.shiftr_div_pow2 by (unfold BITS_IN_BYTE_POWER_OF_TWO; lia). done. Qed.

Lemma bitInArrayElement_number a : bitInArrayElement a = number a mod 8.
Proof. unfold bitInArrayElement. rewrite bitIndex_number. change (Z.shiftl 1 BITS_IN_BYTE_POWER_OF_TWO - 1) with (2 ^ 3 - 1). by rewrite land_mask by lia. Qed.

Lemma byte_in bs j : bits_wf bs -> 0 <= j < 512 -> exists byte, bs !! Z.to_nat (j / 8) = Some byte /\ in_u 8 byte.
Proof.
  intros [Hl Hb] Hj. destruct (lookup_lt_is_Some_2 bs (Z.to_nat (j / 8))) as [byte E].
  { rewrite Hl. assert (j / 8 < 64) by (apply Z.div_lt_upper_bound; lia). assert (0 <= j / 8) by (apply Z.div_pos; lia). lia. }
  exists byte. split; [done|]. by eapply (Forall_lookup_1 (in_u 8)).
Qed.

Lemma in_u8_bits x : in_u 8 x <-> 0 <= x /\ forall j, 8 <= j -> Z.testbit x j = false.
Proof.
  unfold in_u. split.
  - intros H. split; [lia|]. intros j Hj. rewrite <- (Z.mod_small x (2 ^ 8)) by lia. apply Z.mod_pow2_bits_high; lia.
  - intros [H0 Hj]. split; [done|]. destruct (Z.eq_dec x 0); [lia|]. apply Z.log2_lt_pow2; [lia|].
    destruct (Z.lt_ge_cases (Z.log2 x) 8); [done|]. specialize (Hj (Z.log2 x) ltac:(lia)). rewrite Z.bit_log2 in Hj by lia. done.
Qed.

(** An operation on a byte and the mask of one of its bits. *)
Lemma update_bit op bop bs a :
  (forall x y i, Z.testbit (op x y) i = bop (Z.testbit x i) (Z.testbit y i)) -> (forall b, bop b false = b) ->
  (forall x y, 0 <= x -> 0 <= y -> 0 <= op x y) -> bits_wf bs ->
  exists byte bs', read bs (arrayIndex a) = Done byte /\
    write bs (arrayIndex a) (u8 (op byte (Z.shiftl 1 (bitInArrayElement a)))) = Done bs' /\ bits_wf bs' /\
    forall j, 0 <= j < 512 -> bit bs' j = if bool_decide (j = number a) then bop (bit bs j) true else bit bs j.
Proof.
  intros Hop Hf Hpos Hwf. pose proof (number_bounds a) as Hn. destruct (byte_in bs (number a) Hwf Hn) as (byte & E & Hb).
  rewrite arrayIndex_number, bitInArrayElement_number. pose proof (Z.mod_pos_bound (number a) 8 ltac:(lia)) as Hm.
  pose proof (lookup_lt_Some _ _ _ E) as Hlt. rewrite Z.shiftl_1_l. set (v := op byte (2 ^ (number a mod 8))).
  assert (Hv : in_u 8 v).
  { apply in_u8_bits. split; [apply Hpos; [apply Hb|apply Z.pow_nonneg; lia]|]. intros j Hj. unfold v.
    rewrite Hop, Z.pow2_bits_false, Hf by lia. apply in_u8_bits in Hb as [_ Hb]. by apply Hb. }
  exists byte, (<[Z.to_nat (number a / 8) := v]> bs). unfold read, write. fold v. rewrite E, (wrapu_id 8 v) by done.
  rewrite (proj2 (Nat.ltb_lt _ _) Hlt). split_and!; [done|done| |].
  - destruct Hwf as [Hl Hby]. split; [by rewrite length_insert|]. by apply Forall_insert.
  - intros j Hj. unfold bit. case_bool_decide as Ej.
    + subst j. rewrite list_lookup_insert_eq, E by done. unfold v. by rewrite Hop, Z.pow2_bits_true by lia.
    + destruct (decide (j / 8 = number a / 8)) as [Eq|Ne].
      * rewrite Eq, list_lookup_insert_eq, E by done. unfold v. rewrite Hop, Z.pow2_bits_false, Hf; [done|].
        intros Em. apply Ej. rewrite (Z.div_mod j 8), (Z.div_mod (number a) 8) by lia. congruence.
      * rewrite list_lookup_insert_ne; [done|]. intros Eq. apply Ne.
        assert (0 <= j / 8) by (apply Z.div_pos; lia). assert (0 <= number a / 8) by (apply Z.div_pos; lia). lia.
Qed.

Lemma MarkAsOccupied_spec r a :
  bits_wf (bitmap_ r) ->
  exists bs', MarkAsOccupied r a = Done {| r with bitmap_ := bs' |} /\ bits_wf bs' /\
    forall j, 0 <= j < 512 -> bit bs' j = bool_decide (j = number a) || bit (bitmap_ r) j.
Proof.
  intros Hwf. destruct (update_bit Z.lor orb (bitmap_ r) a) as (byte & bs' & E1 & E2 & Hwf' & Hb); [apply Z.lor_spec|apply orb_false_r| |done|].
  { intros. by apply Z.lor_nonneg. }
  exists bs'. unfold MarkAsOccupied. cbv [mbind outcome_bind]. rewrite E1, E2. split_and!; [done..|].
  intros j Hj. rewrite (Hb j Hj). case_bool_decide; [apply orb_true_r|done].
Qed.

Lemma MarkAsFree_spec r a :
  bits_wf (bitmap_ r) -> bit (bitmap_ r) (number a) = true ->
  exists bs', MarkAsFree r a = Done {| r with bitmap_ := bs' |} /\ bits_wf bs' /\
    forall j, 0 <= j < 512 -> bit bs' j = negb (bool_decide (j = number a)) && bit (bitmap_ r) j.
Proof.
  intros Hwf Ha. destruct (update_bit Z.lxor xorb (bitmap_ r) a) as (byte & bs' & E1 & E2 & Hwf' & Hb); [apply Z.lxor_spec|apply xorb_false_r| |done|].
  { intros. by apply Z.lxor_nonneg. }
  exists bs'. unfold MarkAsFree. cbv [mbind outcome_bind]. rewrite E1, E2. split_and!; [done..|].
  intros j Hj. rewrite (Hb j Hj). case_bool_decide; [|done]. subst j. by rewrite Ha.
Qed.

(** ** The invariant of a run *)
(** Following the words from [p] visits [l] and ends with null. *)
Inductive chain (next : Words) : Z -> list Z -> Prop :=
| chain_nil : chain next 0 []
| chain_cons p l : p <> 0 -> chain next (next p) l -> chain next p (p :: l).

Lemma chain_frame (next next' : Words) p l : (forall a, a ∈ l -> next' a = next a) -> chain next p l -> chain next' p l.
Proof.
  intros Hf H. revert Hf. induction H as [|p l Hp H IH]; intros Hf; constructor; [done|].
  rewrite Hf by constructor. apply IH. intros a Ha. apply Hf. by constructor.
Qed.

Section Run.
Context `{Layout}.
Abbreviation first r := (ComputeFirstSlotOffset (slotSize_ r)).

(** Slots before this offset were given out at least once. *)
Definition limit (r : RunSlots) : Z := if firstUninitializedSlotOffset_ r == 0 then 4096 else firstUninitializedSlotOffset_ r.

Definition is_slot (this size a : Z) : Prop := (size | a - this) /\ ComputeFirstSlotOffset size <= a - this < 4096.

(** A run at [this] whose free slots are linked as [fl] and whose occupied slots are [live]. *)
Record run_ok (this : Z) (w : Words) (r : RunSlots) (fl : list Z) (live : gset Z) : Prop := {
  run_page : 0 < this /\ (4096 | this) /\ this + 4096 <= 2 ^ 64;
  run_size : exists k, 3 <= k <= 8 /\ slotSize_ r = 2 ^ k;
  run_uninit : firstUninitializedSlotOffset_ r = 0 \/ first r <= firstUninitializedSlotOffset_ r < 4096 /\ (slotSize_ r | firstUninitializedSlotOffset_ r);
  run_chain : chain w (nextFree_ r) fl;
  run_nodup : NoDup fl;
  run_split : forall a, a ∈ live \/ a ∈ fl <-> is_slot this (slotSize_ r) a /\ a - this < limit r;
  run_disj : forall a, a ∈ live -> a ∈ fl -> False;
  run_bits : bits_wf (bitmap_ r);
  run_live : forall j, 0 <= j < 512 -> bit (bitmap_ r) j = bool_decide (this + 8 * j ∈ live);
  run_used : usedSlots_ r = Z.of_nat (size live);
}.

Lemma ComputeFirstSlotOffset_spec k :
  3 <= k <= 8 -> (2 ^ k | ComputeFirstSlotOffset (2 ^ k)) /\ header_size <= ComputeFirstSlotOffset (2 ^ k) < header_size + 2 ^ k /\
    ComputeFirstSlotOffset (2 ^ k) + 2 * 2 ^ k <= 4096.
Proof.
  intros Hk. assert (Ec : 3584 = 14 * 2 ^ (8 - k) * 2 ^ k) by (rewrite <- Z.mul_assoc, <- Z.pow_add_r by lia; by replace (8 - k + k) with 8 by lia).
  set (c := 14 * 2 ^ (8 - k)) in *. destruct header_size_ok as [Hh1 Hh2]. unfold ComputeFirstSlotOffset, GetHeaderSize.
  assert (Hp : 0 < 2 ^ k) by (apply Z.pow_pos_nonneg; lia). assert (2 ^ k <= 2 ^ 8) by (apply Z.pow_le_mono_r; lia).
  pose proof (Z.div_mod header_size (2 ^ k) ltac:(lia)) as E. pose proof (Z.mod_pos_bound header_size (2 ^ k) ltac:(lia)).
  change (2 ^ 8) with 256 in *. set (q := header_size / 2 ^ k) in *.
  destruct (Z.ltb_spec 0 (header_size mod 2 ^ k)); (split_and!; [by eexists|nia|nia|]); [assert (q + 1 <= c) by nia|assert (q <= c) by nia]; nia.
Qed.

Lemma size_divides k : 3 <= k <= 8 -> (8 | 2 ^ k) /\ (2 ^ k | 4096) /\ 8 <= 2 ^ k <= 256.
Proof.
  intros Hk. split_and!.
  - exists (2 ^ (k - 3)). change 8 with (2 ^ 3). rewrite <- Z.pow_add_r by lia. f_equal; lia.
  - exists (2 ^ (12 - k)). change 4096 with (2 ^ 12). rewrite <- Z.pow_add_r by lia. f_equal; lia.
  - change 8 with (2 ^ 3). apply Z.pow_le_mono_r; lia.
  - change 256 with (2 ^ 8). apply Z.pow_le_mono_r; lia.
Qed.

Lemma slot_eight this k a : (4096 | this) -> 3 <= k <= 8 -> is_slot this (2 ^ k) a -> 0 < a - this < 4096 /\ a = this + 8 * number a.
Proof.
  intros [q Eq] Hk [Hd Hb]. destruct (ComputeFirstSlotOffset_spec k Hk) as (_ & Hf & _). pose proof header_size_ok.
  destruct (size_divides k Hk) as ([c Ec] & _ & _). destruct Hd as [d Ed]. split; [lia|]. unfold number.
  assert (Ea : a = (a - this) + q * 4096) by lia. assert (Em : a mod 4096 = a - this).
  { rewrite Ea at 1. rewrite Z.mod_add, Z.mod_small by lia. done. }
  rewrite Em. replace (a - this) with (d * c * 8) by lia. rewrite Z.div_mul by lia. lia.
Qed.

Lemma is_slot_words this k a : (4096 | this) -> 3 <= k <= 8 -> is_slot this (2 ^ k) a -> (8 | a).
Proof. intros Hp Hk Ha. destruct (slot_eight this k a Hp Hk Ha) as [_ E]. destruct Hp as [q Eq]. exists (q * 512 + number a). lia. Qed.

(** Two slots of a run do not overlap. *)
Lemma slot_apart this size a b : 0 < size -> is_slot this size a -> is_slot this size b -> a <> b -> a + size <= b \/ b + size <= a.
Proof. intros Hs [[x Ex] _] [[y Ey] _] Hne. assert (x <> y) by (intros ->; lia). nia. Qed.

Lemma run_slot this w r fl live a : run_ok this w r fl live -> a ∈ live \/ a ∈ fl -> is_slot this (slotSize_ r) a.
Proof. intros Hr Ha. by apply (run_split _ _ _ _ _ Hr) in Ha as [? _]. Qed.

Lemma run_number this w r fl live a :
  run_ok this w r fl live -> is_slot this (slotSize_ r) a -> 0 < a - this < 4096 /\ a = this + 8 * number a.
Proof. intros Hr Ha. destruct (run_size _ _ _ _ _ Hr) as (k & Hk & E). rewrite E in Ha. apply (slot_eight this k a); [apply Hr|done..]. Qed.

(** The slots of a page, one for every 8 bytes at most. *)
Definition page_slots (this : Z) : gset Z := list_to_set ((fun j => this + 8 * j) <$> seqZ 0 512).

Lemma page_slots_size this : (size (page_slots this) <= 512)%nat.
Proof.
  unfold page_slots. rewrite size_list_to_set; [by rewrite length_fmap, length_seqZ|].
  apply NoDup_fmap_2; [intros x y; lia|]. apply NoDup_seqZ.
Qed.

Lemma run_live_page this w r fl live : run_ok this w r fl live -> live ⊆ page_slots this.
Proof.
  intros Hr a Ha. destruct (run_number _ _ _ _ _ a Hr) as [_ E]; [eapply run_slot; eauto|]. apply elem_of_list_to_set, list_elem_of_fmap.
  exists (number a). split; [done|]. apply elem_of_seqZ. pose proof (number_bounds a). lia.
Qed.

Lemma run_used_bound this w r fl live : run_ok this w r fl live -> (size live <= 512)%nat.
Proof. intros Hr. etrans; [apply subseteq_size, (run_live_page _ _ _ _ _ Hr)|apply page_slots_size]. Qed.

(** Only the words of the free slots matter. *)
Lemma run_frame this w w' r fl live : (forall a, a ∈ fl -> w' a = w a) -> run_ok this w r fl live -> run_ok this w' r fl live.
Proof. intros Hf []. split; try done. by eapply chain_frame. Qed.

(** The links between runs do not matter. *)
Lemma run_relink this w r r' fl live :
  usedSlots_ r' = usedSlots_ r -> slotSize_ r' = slotSize_ r -> firstUninitializedSlotOffset_ r' = firstUninitializedSlotOffset_ r ->
  nextFree_ r' = nextFree_ r -> bitmap_ r' = bitmap_ r -> run_ok this w r fl live -> run_ok this w r' fl live.
Proof. intros E1 E2 E3 E4 E5 []. split; unfold limit in *; rewrite ?E1, ?E2, ?E3, ?E4, ?E5; done. Qed.

Lemma Initialize_ok this w k poolPointer :
  0 < this -> (4096 | this) -> this + 4096 <= 2 ^ 64 -> 3 <= k <= 8 -> run_ok this w (Initialize (2 ^ k) poolPointer) [] ∅.
Proof.
  intros H0 Hd Ht Hk. destruct (ComputeFirstSlotOffset_spec k Hk) as (Hf1 & Hf2 & Hf3). destruct (size_divides k Hk) as (_ & _ & Hs).
  pose proof header_size_ok. unfold Initialize.
  rewrite (wrapu_id 16 (2 ^ k)), (wrapu_id 16 (ComputeFirstSlotOffset (2 ^ k))) by (unfold in_u; lia).
  split; cbn [slotSize_ firstUninitializedSlotOffset_ nextFree_ bitmap_ usedSlots_]; eauto; [right; split; [lia|done]|apply chain_nil|constructor| |set_solver| |].
  - intros a. unfold limit. cbn [firstUninitializedSlotOffset_]. rewrite bool_decide_false by lia. split; [intros [[]%elem_of_empty|[]%elem_of_nil]|]. intros [[_ ?] ?]. lia.
  - split; [by vm_compute|]. apply Forall_replicate. unfold in_u. lia.
  - intros j Hj. rewrite bool_decide_false by set_solver. unfold bit. rewrite lookup_replicate_2; [apply Z.bits_0|].
    change BITMAP_ARRAY_SIZE with 64%nat. assert (j / 8 < 64) by (apply Z.div_lt_upper_bound; lia).
    assert (0 <= j / 8) by (apply Z.div_pos; lia). lia.
Qed.

Lemma live_bit this w r fl live a : run_ok this w r fl live -> is_slot this (slotSize_ r) a -> bit (bitmap_ r) (number a) = bool_decide (a ∈ live).
Proof.
  intros Hr Ha. destruct (run_number _ _ _ _ _ a Hr Ha) as [_ E]. rewrite (run_live _ _ _ _ _ Hr) by apply number_bounds. by rewrite <- E.
Qed.

(** A slot that is not occupied is taken: the bitmap and the counter follow. *)
Lemma occupy this w r fl live a fl' r0 :
  run_ok this w r0 fl live -> a ∉ live -> is_slot this (slotSize_ r0) a ->
  slotSize_ r = slotSize_ r0 -> usedSlots_ r = usedSlots_ r0 -> bitmap_ r = bitmap_ r0 ->
  (firstUninitializedSlotOffset_ r = 0 \/ first r <= firstUninitializedSlotOffset_ r < 4096 /\ (slotSize_ r | firstUninitializedSlotOffset_ r)) ->
  chain w (nextFree_ r) fl' -> NoDup fl' -> (forall x, x ∈ live -> x ∈ fl' -> False) -> a ∉ fl' ->
  (forall x, x ∈ {[a]} ∪ live \/ x ∈ fl' <-> is_slot this (slotSize_ r) x /\ x - this < limit r) ->
  exists r', (r' ← MarkAsOccupied r a; Done ({| r' with usedSlots_ := u16 (usedSlots_ r' + 1) |}, a)) = Done (r', a) /\
    run_ok this w r' fl' ({[a]} ∪ live) /\ slotSize_ r' = slotSize_ r /\ poolPointer_ r' = poolPointer_ r /\
    nextRunslot_ r' = nextRunslot_ r /\ prevRunslot_ r' = prevRunslot_ r.
Proof.
  intros Hr Ha Hs E1 E2 E3 Hu Hc Hn Hd Haf Hsp. destruct (MarkAsOccupied_spec r a) as (bs' & Em & Hwf & Hb); [rewrite E3; apply Hr|].
  eexists. cbv [mbind outcome_bind]. rewrite Em. split; [reflexivity|]. cbn [usedSlots_ slotSize_ poolPointer_ nextRunslot_ prevRunslot_].
  split; [|done]. destruct (run_number _ _ _ _ _ a Hr Hs) as [_ Ea]. pose proof (run_used_bound _ _ _ _ _ Hr).
  split; cbn [usedSlots_ slotSize_ firstUninitializedSlotOffset_ nextFree_ bitmap_]; try done.
  - apply Hr.
  - rewrite E1. apply Hr.
  - intros x Hx. apply elem_of_union in Hx as [->%elem_of_singleton|?]; eauto.
  - intros j Hj. rewrite (Hb j Hj), E3, (run_live _ _ _ _ _ Hr j Hj). apply eq_iff_eq_true.
    rewrite orb_true_iff, !bool_decide_eq_true, elem_of_union, elem_of_singleton. split; (intros [?|?]; [left; lia|by right]).
  - rewrite size_union, size_singleton by set_solver. rewrite E2, (run_used _ _ _ _ _ Hr), wrapu_id by (unfold in_u; lia). lia.
Qed.

(** What an operation on the slots leaves of the run. *)
Definition same_links (r r' : RunSlots) : Prop :=
  slotSize_ r' = slotSize_ r /\ poolPointer_ r' = poolPointer_ r /\ nextRunslot_ r' = nextRunslot_ r /\ prevRunslot_ r' = prevRunslot_ r.

(** A run that is not full gives a slot that was not occupied; a full one gives null. *)
Lemma PopFreeSlot_full this w r fl live : IsFull r = true -> run_ok this w r fl live -> PopFreeSlot this r w = Done (r, 0).
Proof.
  unfold IsFull. rewrite andb_true_iff, !bool_decide_eq_true. intros [E1 E2] Hr. unfold PopFreeSlot, PopUninitializedSlot.
  rewrite E1, E2. by rewrite !bool_decide_true by done.
Qed.

Lemma PopFreeSlot_linked this w r fl live :
  nextFree_ r <> 0 -> run_ok this w r fl live ->
  exists r' a fl', PopFreeSlot this r w = Done (r', a) /\ run_ok this w r' fl' ({[a]} ∪ live) /\ same_links r r' /\ (a ∉ live) /\
    is_slot this (slotSize_ r) a.
Proof.
  intros Hn Hr. pose proof (run_chain _ _ _ _ _ Hr) as Hc. inversion Hc as [E1 E2|p l Hp Hl E1 E2]; subst; [by rewrite <- E1 in Hn|].
  pose proof (run_nodup _ _ _ _ _ Hr) as [Hnot Hnd]%NoDup_cons. set (a := nextFree_ r) in *.
  assert (Hal : a ∉ live) by (intros Ha; apply (run_disj _ _ _ _ _ Hr a Ha); constructor).
  assert (Has : is_slot this (slotSize_ r) a) by (eapply run_slot; [exact Hr|right; constructor]).
  destruct (occupy this w {| r with nextFree_ := GetNext w a |} (a :: l) live a l r) as (r' & E & Hr' & Hlinks);
    cbn [slotSize_ usedSlots_ bitmap_ nextFree_ firstUninitializedSlotOffset_]; try done.
  - apply Hr.
  - intros x Hx Hxl. apply (run_disj _ _ _ _ _ Hr x Hx). by constructor.
  - intros x. change (limit _) with (limit r). rewrite <- (run_split _ _ _ _ _ Hr x), elem_of_union, elem_of_singleton, elem_of_cons. tauto.
  - exists r', a, l. split_and!; try done. unfold PopFreeSlot. rewrite bool_decide_false by done. fold a. by rewrite bool_decide_false by done.
Qed.

(** Taking the next slot that was never used. *)
Lemma PopUninitializedSlot_spec this w r fl live :
  firstUninitializedSlotOffset_ r <> 0 -> run_ok this w r fl live ->
  let a := this + firstUninitializedSlotOffset_ r in
  exists u, PopUninitializedSlot this r = ({| r with firstUninitializedSlotOffset_ := u |}, a) /\ (a ∉ live) /\ (a ∉ fl) /\
    is_slot this (slotSize_ r) a /\ (u = 0 \/ first r <= u < 4096 /\ (slotSize_ r | u)) /\
    (forall x, x = a \/ x ∈ live \/ x ∈ fl <-> is_slot this (slotSize_ r) x /\ x - this < limit {| r with firstUninitializedSlotOffset_ := u |}).
Proof.
  intros Hn Hr a. destruct (run_uninit _ _ _ _ _ Hr) as [|[Hu Hd]]; [done|]. destruct (run_page _ _ _ _ _ Hr) as (H0 & Hp & Ht).
  destruct (run_size _ _ _ _ _ Hr) as (k & Hk & Ek). destruct (size_divides k Hk) as (_ & [c Ec] & Hs).
  destruct (ComputeFirstSlotOffset_spec k Hk) as (_ & Hf & _). pose proof header_size_ok. rewrite <- Ek in Ec, Hs, Hf.
  destruct Hd as [d Ed]. set (f := firstUninitializedSlotOffset_ r) in *. set (sz := slotSize_ r) in *.
  assert (Hle : f + sz <= 4096) by (assert (d < c) by nia; nia). assert (El : limit r = f) by (unfold limit; fold f; by rewrite bool_decide_false by done).
  assert (Hnot : ~ (a ∈ live \/ a ∈ fl)) by (intros [_ ?]%(run_split _ _ _ _ _ Hr); lia).
  assert (Hsl : is_slot this sz a) by (split; [exists d; unfold a; lia|unfold a; lia]).
  exists (if 4096 <=? f + sz then 0 else f + sz). split_and!.
  - unfold PopUninitializedSlot. fold f sz. rewrite bool_decide_false by done. cbn [negb].
    rewrite (wrapu_id 16), (wrapu_id 64) by (unfold in_u; lia). done.
  - tauto.
  - tauto.
  - done.
  - destruct (Z.leb_spec 4096 (f + sz)); [by left|]. right. split; [lia|]. exists (d + 1). lia.
  - intros x. rewrite (run_split _ _ _ _ _ Hr x), El. fold sz. unfold limit. cbn [firstUninitializedSlotOffset_].
    assert (El' : (if (if 4096 <=? f + sz then 0 else f + sz) == 0 then 4096 else (if 4096 <=? f + sz then 0 else f + sz)) = f + sz).
    { destruct (Z.leb_spec 4096 (f + sz)); [rewrite bool_decide_true by done; lia|by rewrite bool_decide_false by lia]. }
    rewrite El'. split.
    + intros [->|[Hx ?]]; [split; [done|unfold a; lia]|split; [done|lia]].
    + intros [Hx Hlt]. destruct (Z.lt_ge_cases (x - this) f); [by right|left]. destruct Hx as [[y Ey] _]. unfold a.
      assert (y = d) by nia. subst y. lia.
Qed.

Lemma PopFreeSlot_spec this w r fl live :
  IsFull r = false -> run_ok this w r fl live ->
  exists r' a fl', PopFreeSlot this r w = Done (r', a) /\ run_ok this w r' fl' ({[a]} ∪ live) /\ same_links r r' /\ (a ∉ live) /\
    is_slot this (slotSize_ r) a.
Proof.
  unfold IsFull. rewrite andb_false_iff, !bool_decide_eq_false. intros Hfull Hr.
  destruct (decide (nextFree_ r = 0)) as [E0|Hn]; [|by eapply PopFreeSlot_linked]. destruct Hfull as [|Hn]; [done|].
  destruct (PopUninitializedSlot_spec this w r fl live Hn Hr) as (u & E & Hal & Haf & Has & Hu & Hsp).
  set (a := this + firstUninitializedSlotOffset_ r) in *. assert (fl = []) as ->.
  { pose proof (run_chain _ _ _ _ _ Hr) as Hc. rewrite E0 in Hc. by inversion Hc. }
  destruct (occupy this w {| r with firstUninitializedSlotOffset_ := u |} [] live a [] r) as (r' & E' & Hr' & Hlinks);
    cbn [slotSize_ usedSlots_ bitmap_ nextFree_ firstUninitializedSlotOffset_]; try done.
  - rewrite E0. apply chain_nil.
  - constructor.
  - intros x _ []%elem_of_nil.
  - intros x. rewrite <- (Hsp x), elem_of_union, elem_of_singleton. tauto.
  - exists r', a, []. split_and!; try done. unfold PopFreeSlot. rewrite bool_decide_true, E by done.
    rewrite bool_decide_false; [done|]. destruct (run_number _ _ _ _ _ a Hr Has). pose proof (run_page _ _ _ _ _ Hr). lia.
Qed.

(** A slot that is given back is the next one that is taken. *)
Lemma PushFreeSlot_spec this w r fl live a :
  a ∈ live -> run_ok this w r fl live ->
  exists r', PushFreeSlot r w a = Done (r', <[a := nextFree_ r]> w) /\
    run_ok this (<[a := nextFree_ r]> w) r' (a :: fl) (live ∖ {[a]}) /\ same_links r r' /\ nextFree_ r' = a.
Proof.
  intros Ha Hr. assert (Has : is_slot this (slotSize_ r) a) by (eapply run_slot; eauto).
  pose proof (live_bit _ _ _ _ _ a Hr Has) as Hbit. rewrite bool_decide_true in Hbit by done.
  destruct (MarkAsFree_spec {| r with nextFree_ := a |} a) as (bs' & E & Hwf & Hb); [apply Hr|done|].
  destruct (run_number _ _ _ _ _ a Hr Has) as [Hoff Ea]. pose proof (run_page _ _ _ _ _ Hr). pose proof (run_used_bound _ _ _ _ _ Hr).
  assert (Haf : a ∉ fl) by (intros ?; by eapply run_disj). assert (Hpos : (0 < size live)%nat).
  { destruct (size live) eqn:Es; [|lia]. apply size_empty_inv in Es. set_solver. }
  eexists. unfold PushFreeSlot, SetNext. cbv [mbind outcome_bind]. rewrite E. split; [reflexivity|]. split; [|done].
  split; cbn [usedSlots_ slotSize_ firstUninitializedSlotOffset_ nextFree_ bitmap_]; try done; try apply Hr.
  - constructor; [lia|]. rewrite fn_lookup_insert. eapply chain_frame; [|apply Hr]. intros x Hx. rewrite fn_lookup_insert_ne; [done|].
    intros ->. done.
  - constructor; [done|apply Hr].
  - intros x. change (limit _) with (limit r). rewrite <- (run_split _ _ _ _ _ Hr x), elem_of_difference, elem_of_singleton, elem_of_cons.
    destruct (decide (x = a)) as [->|]; tauto.
  - intros x [Hx Hne]%elem_of_difference [->|Hxf]%elem_of_cons; [set_solver|]. by eapply run_disj.
  - intros j Hj. rewrite (Hb j Hj). cbn [bitmap_]. rewrite (run_live _ _ _ _ _ Hr j Hj). apply eq_iff_eq_true.
    rewrite andb_true_iff, negb_true_iff, bool_decide_eq_false, !bool_decide_eq_true, elem_of_difference, elem_of_singleton.
    split; (intros [? ?]; split; [done || lia|done || lia]).
  - rewrite (run_used _ _ _ _ _ Hr), size_difference, size_singleton by set_solver. rewrite wrapu_id by (unfold in_u; lia). lia.
Qed.

(** A full run: every slot is occupied, and there are two at least. *)
Lemma IsFull_live this w r fl live : IsFull r = true -> run_ok this w r fl live -> forall a, a ∈ live <-> is_slot this (slotSize_ r) a.
Proof.
  unfold IsFull. rewrite andb_true_iff, !bool_decide_eq_true. intros [E1 E2] Hr a. pose proof (run_chain _ _ _ _ _ Hr) as Hc.
  rewrite E1 in Hc. inversion Hc; subst; [|done]. pose proof (run_split _ _ _ _ _ Hr a) as Hs. unfold limit in Hs. rewrite E2 in Hs.
  rewrite bool_decide_true in Hs by done. split; [intros Ha; apply Hs; by left|]. intros Ha. destruct Hs as [_ Hs].
  destruct Hs as [?|?%elem_of_nil]; [|done..]. split; [done|apply Ha].
Qed.

Lemma IsFull_two this w r fl live : IsFull r = true -> run_ok this w r fl live -> (2 <= size live)%nat.
Proof.
  intros Hf Hr. pose proof (IsFull_live _ _ _ _ _ Hf Hr) as Hl. destruct (run_size _ _ _ _ _ Hr) as (k & Hk & E).
  destruct (ComputeFirstSlotOffset_spec k Hk) as ([d Ed] & _ & Hle). destruct (size_divides k Hk) as (_ & _ & Hs). rewrite <- E in Ed, Hle, Hs.
  assert (Hsub : {[this + first r; this + first r + slotSize_ r]} ⊆ live).
  { intros a [->%elem_of_singleton| ->%elem_of_singleton]%elem_of_union; apply Hl; (split; [|lia]); [exists d|exists (d + 1)]; lia. }
  apply subseteq_size in Hsub. rewrite size_union, !size_singleton in Hsub by set_solver by lia. lia.
Qed.

Lemma IsEmpty_live this w r fl live : run_ok this w r fl live -> IsEmpty r = true <-> live = ∅.
Proof.
  intros Hr. unfold IsEmpty. rewrite bool_decide_eq_true, (run_used _ _ _ _ _ Hr). split.
  - intros E. apply leibniz_equiv, size_empty_inv. lia.
  - intros ->. by rewrite size_empty.
Qed.

(** For every address of the page: is it an occupied slot? *)
Lemma IsLive_spec this w r fl live obj :
  run_ok this w r fl live -> this <= obj < this + 4096 -> IsLive r obj = Done (bool_decide (obj ∈ live)).
Proof.
  intros Hr Ho. destruct (run_page _ _ _ _ _ Hr) as (H0 & [q Eq] & Ht). destruct (run_size _ _ _ _ _ Hr) as (k & Hk & E).
  destruct (size_divides k Hk) as ([e Ee] & [c Ec] & Hs). unfold IsLive. change (RUNSLOTS_SIZE - 1) with (2 ^ 12 - 1).
  rewrite E, (wrapu_id 64 (2 ^ k - 1)), !land_mask by (unfold in_u; lia). change (2 ^ 12) with 4096.
  assert (Em : obj mod 4096 = obj - this) by (rewrite <- (Z.mod_small (obj - this) 4096), Eq, <- Zminus_mod_idemp_r, Z.mod_mul, Z.sub_0_r by lia; done).
  case_bool_decide as Ed; cbn [negb].
  - assert (Hd : (2 ^ k | obj - this)) by (apply Z.mod_divide; [lia|congruence]).
    destruct (byte_in (bitmap_ r) (number obj) (run_bits _ _ _ _ _ Hr) (number_bounds obj)) as (byte & Eb & _).
    cbv [mbind outcome_bind]. unfold read. rewrite arrayIndex_number, Eb, bitInArrayElement_number, Z.shiftl_1_l, land_bit by (apply Z.mod_pos_bound; lia).
    pose proof (run_live _ _ _ _ _ Hr _ (number_bounds obj)) as Hl. unfold bit in Hl. rewrite Eb in Hl. rewrite Hl. do 2 f_equal.
    unfold number. rewrite Em. destruct Hd as [d Hd]. replace (obj - this) with (d * e * 8) by nia. rewrite Z.div_mul by lia.
    apply bool_decide_ext. replace (this + 8 * (d * e)) with obj by nia. done.
  - rewrite bool_decide_false; [done|]. intros Ha. assert (Hs' : is_slot this (slotSize_ r) obj) by (eapply run_slot; eauto).
    destruct Hs' as [Hd _]. rewrite E in Hd. apply Ed. rewrite Em. apply Z.mod_divide; [lia|done].
Qed.
End Run.

(** ** Iteration
    The visitor may free slots it has been called for; [I vs s] is kept with the slots [vs] visited. *)
Definition slots_below (bs : list Z) (this n : Z) : list Z := (fun j => this + 8 * j) <$> List.filter (bit bs) (seqZ 0 n).
Abbreviation occupied_slots bs this := (slots_below bs this 512).

Lemma slots_below_succ bs this n :
  0 <= n -> slots_below bs this (n + 1) = slots_below bs this n ++ (if bit bs n then [this + 8 * n] else []).
Proof.
  intros Hn. unfold slots_below. rewrite seqZ_app, List.filter_app, fmap_app by lia. f_equal.
  change (seqZ (0 + n) 1) with [0 + n]. cbn [List.filter]. rewrite Z.add_0_l. by destruct (bit bs n).
Qed.

Lemma elem_of_slots_below bs this n a : a ∈ slots_below bs this n <-> exists j, 0 <= j < n /\ bit bs j = true /\ a = this + 8 * j.
Proof.
  unfold slots_below. rewrite list_elem_of_fmap. setoid_rewrite list_elem_of_In. setoid_rewrite filter_In.
  setoid_rewrite <- list_elem_of_In. setoid_rewrite elem_of_seqZ. split; intros (j & H1 & H2); exists j; naive_solver lia.
Qed.

Lemma slots_below_split bs this n m :
  0 <= n <= m -> slots_below bs this m = slots_below bs this n ++ ((fun j => this + 8 * j) <$> List.filter (bit bs) (seqZ n (m - n))).
Proof.
  intros Hnm. unfold slots_below. replace (seqZ 0 m) with (seqZ 0 (n + (m - n))) by (f_equal; lia).
  by rewrite seqZ_app, List.filter_app, fmap_app, Z.add_0_l by lia.
Qed.

Section Visits.
Context {S : Type} (bitmap_of : S -> outcome (list Z)) (visitor : Z -> S -> outcome S) (this : Z).
Context (bs0 : list Z) (I : list Z -> S -> Prop).
Hypothesis page : 0 < this /\ this + 4096 <= 2 ^ 64.
Hypothesis I_bits : forall vs s, I vs s ->
  exists bs, bitmap_of s = Done bs /\ bits_wf bs /\ forall j, 0 <= j < 512 -> this + 8 * j ∉ vs -> bit bs j = bit bs0 j.
Hypothesis I_visit : forall vs a rest s,
  occupied_slots bs0 this = vs ++ a :: rest -> I vs s -> exists s', visitor a s = Done s' /\ I (vs ++ [a]) s'.

Lemma visit_byte_spec n byte ai b s :
  0 <= ai < 64 -> 0 <= b -> b + Z.of_nat n = 8 -> (forall i, b <= i < 8 -> Z.testbit byte (i - b) = bit bs0 (8 * ai + i)) ->
  I (slots_below bs0 this (8 * ai + b)) s ->
  exists s', visit_byte visitor this n byte ai b s = Done s' /\ I (slots_below bs0 this (8 * ai + 8)) s'.
Proof.
  revert byte b s. induction n as [|n IH]; intros byte b s Ha Hb Hn Hbits HI; cbn [visit_byte].
  { exists s. split; [done|]. by replace 8 with b at 2 by lia. }
  change (Z.land byte 1) with (Z.land byte (2 ^ 0)). rewrite land_bit by lia.
  pose proof (Hbits b ltac:(lia)) as E. rewrite Z.sub_diag in E. pose proof (slots_below_succ bs0 this (8 * ai + b) ltac:(lia)) as Es.
  assert (Hnext : exists s', (if Z.testbit byte 0 then visitor (BitMapToSlot this ai b) s else Done s) = Done s' /\
                             I (slots_below bs0 this (8 * ai + b + 1)) s').
  { rewrite E, Es. destruct (bit bs0 (8 * ai + b)); [|exists s; by rewrite app_nil_r].
    pose proof (slots_below_split bs0 this (8 * ai + b + 1) 512 ltac:(lia)) as El. rewrite Es, <- app_assoc in El. cbn [app] in El.
    assert (Eslot : BitMapToSlot this ai b = this + 8 * (8 * ai + b)).
    { unfold BitMapToSlot. rewrite !Z.shiftl_mul_pow2 by (unfold SLOT_MIN_SIZE_BYTES_POWER_OF_TWO, BITS_IN_BYTE_POWER_OF_TWO; lia).
      change (2 ^ BITS_IN_BYTE_POWER_OF_TWO) with 8. change (2 ^ SLOT_MIN_SIZE_BYTES_POWER_OF_TWO) with 8.
      rewrite wrapu_id by (unfold in_u; lia). lia. }
    rewrite Eslot. eapply I_visit; eauto. }
  destruct Hnext as (s' & -> & HI'). cbv [mbind outcome_bind]. apply IH; [lia|lia|lia| |by rewrite Z.add_assoc].
  intros i Hi. rewrite Z.shiftr_spec by lia. rewrite <- (Hbits i) by lia. f_equal. lia.
Qed.

Lemma visit_bytes_spec n ai s :
  (ai + n = 64)%nat -> I (slots_below bs0 this (8 * Z.of_nat ai)) s ->
  exists s', visit_bytes bitmap_of visitor this n ai s = Done s' /\ I (occupied_slots bs0 this) s'.
Proof.
  revert ai s. induction n as [|n IH]; intros ai s Hn HI; cbn [visit_bytes].
  { exists s. split; [done|]. by replace 512 with (8 * Z.of_nat ai) by lia. }
  destruct (I_bits _ _ HI) as (bs & E & Hwf & Hb). cbv [mbind outcome_bind]. rewrite E.
  destruct (byte_in bs (8 * Z.of_nat ai) Hwf ltac:(lia)) as (byte & Eb & Hbyte).
  assert (Ei : Z.to_nat (8 * Z.of_nat ai / 8) = ai) by (rewrite Z.mul_comm, Z.div_mul by lia; lia). unfold read.
  rewrite Ei in Eb. rewrite Eb.
  assert (Hbits : forall i, 0 <= i < 8 -> Z.testbit byte (i - 0) = bit bs0 (8 * Z.of_nat ai + i)).
  { intros i Hi. rewrite <- Hb; [|lia|intros (j & Hj & _ & Ej)%elem_of_slots_below; lia]. unfold bit.
    rewrite (Z.mul_comm 8), Z.div_add_l, Z.div_small, Z.add_0_r, Nat2Z.id, Eb by lia.
    rewrite (Z.add_comm _ i), Z.mod_add, Z.mod_small, Z.sub_0_r by lia. done. }
  assert (Hnext : exists s', (if (byte == 0)%ark then Done s else visit_byte visitor this 8 byte (Z.of_nat ai) 0 s) = Done s' /\
                             I (slots_below bs0 this (8 * Z.of_nat ai + 8)) s').
  { case_bool_decide as E0; [|apply visit_byte_spec; try lia; [done|by rewrite Z.add_0_r]]. exists s. split; [done|]. subst byte.
    rewrite (slots_below_split bs0 this (8 * Z.of_nat ai)), filter_none; [by rewrite app_nil_r| |lia]. intros j Hj%elem_of_seqZ.
    replace j with (8 * Z.of_nat ai + (j - 8 * Z.of_nat ai)) by lia. rewrite <- Hbits by lia. apply Z.bits_0. }
  destruct Hnext as (s' & -> & HI'). apply IH; [lia|]. by replace (8 * Z.of_nat (Datatypes.S ai)) with (8 * Z.of_nat ai + 8) by lia.
Qed.

Lemma IterateOverOccupiedSlots_spec s :
  I [] s -> exists s', IterateOverOccupiedSlots bitmap_of visitor this s = Done s' /\ I (occupied_slots bs0 this) s'.
Proof. intros HI. by apply visit_bytes_spec. Qed.
End Visits.

Lemma slots_below_NoDup bs this n : NoDup (slots_below bs this n).
Proof.
  unfold slots_below. apply NoDup_fmap_2; [intros x y; lia|]. apply NoDup_ListNoDup, List.NoDup_filter, NoDup_ListNoDup, NoDup_seqZ.
Qed.

Lemma occupied_live `{Layout} this w r fl live a : run_ok this w r fl live -> a ∈ occupied_slots (bitmap_ r) this <-> a ∈ live.
Proof.
  intros Hr. rewrite elem_of_slots_below. split.
  - intros (j & Hj & Hb & ->). rewrite (run_live _ _ _ _ _ Hr j Hj) in Hb. by apply bool_decide_eq_true in Hb.
  - intros Ha. assert (Hs : is_slot this (slotSize_ r) a) by (eapply run_slot; eauto). destruct (run_number _ _ _ _ _ a Hr Hs) as [_ E].
    exists (number a). split_and!; [apply number_bounds..| |done]. rewrite (live_bit _ _ _ _ _ a Hr Hs). by apply bool_decide_eq_true.
Qed.
End RunSlots.
