(* ===== verification/RunSlotsAllocator.v ===== *)
(** The run-slots allocator: runtime/mem/runslots_allocator.h and runslots_allocator-inl.h.

    Memory comes in pools.  A pool has its header ([PoolListElement]) in front and pages for runs behind it; a bitmap marks the runs
    that were given back.  Pools without a run are linked from [freeTail_]; the others from [occupiedTail_], the ones with room for
    a run at the end, from [partiallyOccupiedHead_] on.  A run in use is in the list of its slot size if it has both free and
    occupied slots, in [freeRunslots_] if it is empty, and in no list if it is full.

    The state has the headers of runs and pools by their addresses, and the words of memory.  An access to a header that is not
    there is [Crash]: a header disappears when the pages it is in are released, or when the pool is handed to a visitor that takes
    its memory back.  Calls are run one at a time: the locks are not in the model.  Statistics and the marks for the address
    sanitizer have no effect on the state. *)
From S2P Require Import Prelude Leb128 GcBitmap RunSlots.
From stdpp Require Import gmap functions list.
Local Open Scope Z_scope.
Local Open Scope ark_scope.
Export RunSlots.

Module Allocator.

Record RunSlotsList := mkList { head_ : Z; tail_ : Z }.

Record PoolListElement := mkPool {
  poolMem_ : Z;
  startMem_ : Z;
  freePtr_ : Z;
  size_ : Z;
  nextPool_ : Z;
  prevPool_ : Z;
  freededRunslotsCount_ : Z;
  freedRunslotsBitmap_ : Bitmap.MemBitmap;
}.

Record MemPoolManager := mkManager { freeTail_ : Z; partiallyOccupiedHead_ : Z; occupiedTail_ : Z }.

Record State := mkState {
  words : Words;
  runs : gmap Z RunSlots;
  pools : gmap Z PoolListElement;
  runslots_ : list RunSlotsList;
  freeRunslots_ : RunSlotsList;
  memoryPool_ : MemPoolManager;
}.

(** ** Calls that change the state *)
Definition M (A : Type) : Type := State -> outcome (State * A).
#[export] Instance M_ret : MRet M := fun A a s => Done (s, a).
#[export] Instance M_bind : MBind M :=
  fun A B k m s => match m s with Done (s, a) => k a s | Crash => Crash | NoFuel => NoFuel end.

Definition get {A} (f : State -> A) : M A := fun s => Done (s, f s).
Definition put (f : State -> State) : M unit := fun s => Done (f s, tt).
Definition lift {A} (o : outcome A) : M A := fun s => match o with Done a => Done (s, a) | Crash => Crash | NoFuel => NoFuel end.
Definition lookup_in {A} (m : gmap Z A) (a : Z) : outcome A := match m !! a with Some x => Done x | None => Crash end.

Definition exec (m : M unit) (s : State) : outcome State := '(s, _) ← m s; Done s.
Definition act (f : State -> outcome State) : M unit := fun s => s ← f s; Done (s, tt).

Definition run_at (a : Z) : M RunSlots := runs ← get runs; lift (lookup_in runs a).
Definition set_run (a : Z) (r : RunSlots) : M unit := put (fun s => {| s with runs := <[a := r]> (runs s) |}).
Definition update_run (a : Z) (f : RunSlots -> RunSlots) : M unit := r ← run_at a; set_run a (f r).
Definition pool_at (a : Z) : M PoolListElement := pools ← get pools; lift (lookup_in pools a).
Definition set_pool (a : Z) (p : PoolListElement) : M unit := put (fun s => {| s with pools := <[a := p]> (pools s) |}).
Definition update_pool (a : Z) (f : PoolListElement -> PoolListElement) : M unit := p ← pool_at a; set_pool a (f p).
Definition set_manager (f : MemPoolManager -> MemPoolManager) : M unit := put (fun s => {| s with memoryPool_ := f (memoryPool_ s) |}).

(** ** Lists of runs *)
(** A list of the allocator: the runs of a size with free slots, or the empty runs. *)
Inductive ListId := SizeList (arrayIndex : nat) | FreeList.
#[export] Instance ListId_eq_dec : EqDecision ListId.
Proof. solve_decision. Defined.

Definition list_of (s : State) (id : ListId) : outcome RunSlotsList :=
  match id with SizeList i => read (runslots_ s) i | FreeList => Done (freeRunslots_ s) end.
Definition get_list (id : ListId) : M RunSlotsList := o ← get (fun s => list_of s id); lift o.
Definition set_list (id : ListId) (l : RunSlotsList) : M unit :=
  match id with
  | SizeList i => put (fun s => {| s with runslots_ := <[i := l]> (runslots_ s) |})
  | FreeList => put (fun s => {| s with freeRunslots_ := l |})
  end.

Definition PushToTail (id : ListId) (runslots : Z) : M unit :=
  l ← get_list id;
  if tail_ l == 0 then set_list id (mkList runslots runslots)
  else
    update_run (tail_ l) (fun r => SetNextRunSlots r runslots);;
    update_run runslots (fun r => SetPrevRunSlots r (tail_ l));;
    set_list id {| l with tail_ := runslots |};;
    update_run runslots (fun r => SetNextRunSlots r 0).

Definition PopFromHead (id : ListId) : M Z :=
  l ← get_list id;
  if head_ l == 0 then mret 0
  else
    let headRunslots := head_ l in
    r ← run_at headRunslots;
    let head := GetNextRunSlots r in
    (if head == 0 then set_list id (mkList head 0)
     else set_list id {| l with head_ := head |};; update_run head (fun r => SetPrevRunSlots r 0));;
    update_run headRunslots (fun r => SetNextRunSlots r 0);;
    mret headRunslots.

Definition PopFromTail (id : ListId) : M Z :=
  l ← get_list id;
  if tail_ l == 0 then mret 0
  else
    let tailRunslots := tail_ l in
    r ← run_at tailRunslots;
    let tail := GetPrevRunSlots r in
    (if tail == 0 then set_list id (mkList 0 tail)
     else set_list id {| l with tail_ := tail |};; update_run tail (fun r => SetNextRunSlots r 0));;
    update_run tailRunslots (fun r => SetPrevRunSlots r 0);;
    mret tailRunslots.

Definition PopFromList (id : ListId) (runslots : Z) : M unit :=
  l ← get_list id;
  if runslots == head_ l then PopFromHead id;; mret tt
  else if runslots == tail_ l then PopFromTail id;; mret tt
  else
    r ← run_at runslots;
    let nextRunslots := GetNextRunSlots r in
    let previousRunslots := GetPrevRunSlots r in
    update_run nextRunslots (fun r => SetPrevRunSlots r previousRunslots);;
    update_run previousRunslots (fun r => SetNextRunSlots r nextRunslots);;
    update_run runslots (fun r => SetNextRunSlots r 0);;
    update_run runslots (fun r => SetPrevRunSlots r 0).

(** ** Pools *)
Definition MIN_POOL_SIZE : Z := 4 * 1024 * 1024.
Abbreviation CHUNK := RUNSLOTS_SIZE.

Section Allocator.
Context `{Layout}.

Definition GetPageSize : Z := 2 ^ page_log.
Definition AlignDownToPageSize (addr : Z) : Z := Z.land addr (u64 (Z.lnot (GetPageSize - 1))).

(** The headers in a range of memory are lost. *)
Definition without {A} (start end_ : Z) (m : gmap Z A) : gmap Z A := filter (fun '(a, _) => ~ (start <= a < end_)) m.

(** The words are what the operating system makes of them. *)
Definition ReleasePages (pagesStart pagesEnd : Z) : M unit :=
  put (fun s => {| s with
         words := fun a => if (pagesStart <=? a) && (a <? pagesEnd) then released_word a else words s a;
         runs := without pagesStart pagesEnd (runs s);
         pools := without pagesStart pagesEnd (pools s) |}).

Definition GetFirstRunSlotsBlock (mem : Z) : Z := Bitmap.AlignUp mem (Z.shiftl 1 RUNSLOTS_ALIGNMENT).

(** [storageForBitmap_] and [freedRunslotsBitmap_] of a new element: a bit for every run of the largest pool. *)
Definition new_bitmap : Bitmap.MemBitmap :=
  Bitmap.new_MemBitmap CHUNK 0 MIN_POOL_SIZE (replicate (Z.to_nat (Bitmap.GetBitMapSizeInByte CHUNK MIN_POOL_SIZE / 8)) 0).

Definition new_PoolListElement : PoolListElement := mkPool 0 0 0 0 0 0 0 new_bitmap.

Definition Initialize_pool (e : PoolListElement) (poolMem unoccupiedMem size prev : Z) : PoolListElement :=
  mkPool poolMem unoccupiedMem (GetFirstRunSlotsBlock unoccupiedMem) size 0 prev 0
    (Bitmap.ReInitializeMemoryRange CHUNK (freedRunslotsBitmap_ e) poolMem).

Definition Create (mem size prev : Z) : M Z :=
  let unoccupiedMem := Bitmap.AlignUp (u64 (mem + pool_header_size)) RUNSLOTS_SIZE in
  set_pool mem (Initialize_pool new_PoolListElement mem unoccupiedMem size prev);;
  mret mem.

Definition IsInitialized (e : PoolListElement) : bool := startMem_ e != 0.

Definition HasMemoryForRunSlots (e : PoolListElement) : bool :=
  IsInitialized e &&
  let hasFreeMemory := u64 (freePtr_ e + RUNSLOTS_SIZE) <=? u64 (poolMem_ e + size_ e) in
  let hasFreedRunslots := 0 <? freededRunslotsCount_ e in
  hasFreeMemory || hasFreedRunslots.

Definition GetFreedRunSlots (this slotsSize : Z) : M Z :=
  e ← pool_at this;
  slots ← lift (Bitmap.FindFirstMarkedChunks CHUNK (freedRunslotsBitmap_ e));
  match slots with
  | None => mret 0
  | Some slots =>
      set_run slots (Initialize slotsSize this);;
      '(bitmap, _) ← lift (Bitmap.AtomicTestAndClear CHUNK (freedRunslotsBitmap_ e) slots);
      set_pool this {| e with freedRunslotsBitmap_ := bitmap; freededRunslotsCount_ := u64 (freededRunslotsCount_ e - 1) |};;
      mret slots
  end.

Definition GetMemoryForRunSlots (this slotsSize : Z) : M Z :=
  e ← pool_at this;
  if HasMemoryForRunSlots e then
    runslots ← GetFreedRunSlots this slotsSize;
    if runslots == 0 then
      e ← pool_at this;
      let oldMem := freePtr_ e in
      set_run oldMem (Initialize slotsSize this);;
      set_pool this {| e with freePtr_ := u64 (oldMem + RUNSLOTS_SIZE) |};;
      mret oldMem
    else mret runslots
  else mret 0.

Definition AddFreedRunSlots (this slots : Z) : M unit :=
  e ← pool_at this;
  '(bitmap, _) ← lift (Bitmap.AtomicTestAndSet CHUNK (freedRunslotsBitmap_ e) slots);
  set_pool this {| e with freedRunslotsBitmap_ := bitmap; freededRunslotsCount_ := u64 (freededRunslotsCount_ e + 1) |}.

(** The page of an address. *)
Definition runslotsAddr (mem : Z) : Z := Z.shiftl (Z.shiftr mem RUNSLOTS_ALIGNMENT) RUNSLOTS_ALIGNMENT.

Definition IsInFreedRunSlots (e : PoolListElement) (addr : Z) : outcome bool :=
  Bitmap.TestIfAddrValid CHUNK (freedRunslotsBitmap_ e) (runslotsAddr addr).

Definition IsInUsedMemory (e : PoolListElement) (object : Z) : outcome bool :=
  if (object <? freePtr_ e) && (GetFirstRunSlotsBlock (startMem_ e) <=? object) then
    freed ← IsInFreedRunSlots e object; Done (negb freed)
  else Done false.

Definition GetOccupiedSize (e : PoolListElement) : Z := if IsInitialized e then u64 (freePtr_ e - poolMem_ e) else 0.

(** Runs are at most [size_ / RUNSLOTS_SIZE]. *)
Definition runs_fuel (e : PoolListElement) : nat := S (Z.to_nat (size_ e / RUNSLOTS_SIZE)).

Fixpoint HasUsedMemory_loop (fuel : nat) (e : PoolListElement) (currentRunslot : Z) : outcome bool :=
  match fuel with
  | O => NoFuel
  | S fuel =>
      if currentRunslot <? freePtr_ e then
        freed ← Bitmap.AtomicTest CHUNK (freedRunslotsBitmap_ e) currentRunslot;
        if negb freed then Done true else HasUsedMemory_loop fuel e (u64 (currentRunslot + RUNSLOTS_SIZE))
      else Done false
  end.
Definition HasUsedMemory (e : PoolListElement) : outcome bool :=
  HasUsedMemory_loop (runs_fuel e) e (GetFirstRunSlotsBlock (startMem_ e)).

(** [lastRunslot] is read once; a visitor says whether to go on. *)
Fixpoint IterateOverRunSlots_loop (fuel : nat) (runslotsVisitor : Z -> M bool) (this lastRunslot currentRunslot : Z) : M unit :=
  match fuel with
  | O => lift NoFuel
  | S fuel =>
      if currentRunslot <? lastRunslot then
        e ← pool_at this;
        freed ← lift (Bitmap.AtomicTest CHUNK (freedRunslotsBitmap_ e) currentRunslot);
        go_on ← (if negb freed then runslotsVisitor currentRunslot else mret true);
        if (go_on : bool) then IterateOverRunSlots_loop fuel runslotsVisitor this lastRunslot (u64 (currentRunslot + RUNSLOTS_SIZE))
        else mret tt
      else mret tt
  end.
Definition IterateOverRunSlots (runslotsVisitor : Z -> M bool) (this : Z) : M unit :=
  e ← pool_at this;
  IterateOverRunSlots_loop (runs_fuel e) runslotsVisitor this (freePtr_ e) (GetFirstRunSlotsBlock (startMem_ e)).

Definition PopPoolFromList (this : Z) : M unit :=
  e ← pool_at this;
  (if nextPool_ e != 0 then update_pool (nextPool_ e) (fun n => {| n with prevPool_ := prevPool_ e |}) else mret tt);;
  (if prevPool_ e != 0 then update_pool (prevPool_ e) (fun p => {| p with nextPool_ := nextPool_ e |}) else mret tt);;
  update_pool this (fun e => {| e with nextPool_ := 0; prevPool_ := 0 |}).

(** *** The manager of the pools *)
Definition new_MemPoolManager : MemPoolManager := mkManager 0 0 0.

Definition GetNewRunSlots (slotsSize : Z) : M Z :=
  m ← get memoryPool_;
  if partiallyOccupiedHead_ m != 0 then
    newRunslots ← GetMemoryForRunSlots (partiallyOccupiedHead_ m) slotsSize;
    e ← pool_at (partiallyOccupiedHead_ m);
    (if negb (HasMemoryForRunSlots e) then set_manager (fun m => {| m with partiallyOccupiedHead_ := nextPool_ e |}) else mret tt);;
    mret newRunslots
  else if freeTail_ m != 0 then
    let freeElement := freeTail_ m in
    e ← pool_at freeElement;
    set_manager (fun m => {| m with freeTail_ := prevPool_ e |});;
    PopPoolFromList freeElement;;
    update_pool freeElement (fun e => {| e with prevPool_ := occupiedTail_ m |});;
    (if occupiedTail_ m != 0 then update_pool (occupiedTail_ m) (fun e => {| e with nextPool_ := freeElement |}) else mret tt);;
    set_manager (fun m => {| m with occupiedTail_ := freeElement |});;
    set_manager (fun m => if partiallyOccupiedHead_ m == 0 then {| m with partiallyOccupiedHead_ := occupiedTail_ m |} else m);;
    GetMemoryForRunSlots freeElement slotsSize
  else mret 0.

Definition AddNewMemoryPool (mem size : Z) : M bool :=
  m ← get memoryPool_;
  newPool ← Create mem size (freeTail_ m);
  (if freeTail_ m != 0 then update_pool (freeTail_ m) (fun e => {| e with nextPool_ := newPool |}) else mret tt);;
  set_manager (fun m => {| m with freeTail_ := newPool |});;
  mret true.

Definition ReturnAndReleaseRunSlotsMemory (runslots : Z) : M unit :=
  r ← run_at runslots;
  let pool := GetPoolPointer r in
  e ← pool_at pool;
  (if negb (HasMemoryForRunSlots e) then
     m ← get memoryPool_;
     (if pool != occupiedTail_ m then
        PopPoolFromList pool;;
        update_pool pool (fun e => {| e with prevPool_ := occupiedTail_ m |});;
        (if occupiedTail_ m == 0 then lift Crash else mret tt);;
        update_pool (occupiedTail_ m) (fun e => {| e with nextPool_ := pool |});;
        set_manager (fun m => {| m with occupiedTail_ := pool |})
      else mret tt);;
     set_manager (fun m => if partiallyOccupiedHead_ m == 0 then {| m with partiallyOccupiedHead_ := occupiedTail_ m |} else m)
   else mret tt);;
  AddFreedRunSlots pool runslots;;
  let startAddr := Bitmap.AlignUp runslots GetPageSize in
  let endAddr := AlignDownToPageSize (u64 (runslots + RUNSLOTS_SIZE)) in
  if startAddr <? endAddr then ReleasePages startAddr endAddr else mret tt.

(** A walk over pools goes through [prevPool_]: it ends within their number. *)
Definition pools_fuel : M nat := get (fun s => S (size (pools s))).

Fixpoint IsInMemPools_loop (fuel : nat) (object current : Z) : M bool :=
  match fuel with
  | O => lift NoFuel
  | S fuel =>
      if current != 0 then
        e ← pool_at current;
        used ← lift (IsInUsedMemory e object);
        if (used : bool) then mret true else IsInMemPools_loop fuel object (prevPool_ e)
      else mret false
  end.
Definition IsInMemPools (object : Z) : M bool :=
  fuel ← pools_fuel; m ← get memoryPool_; IsInMemPools_loop fuel object (occupiedTail_ m).

Definition visit_run (objectVisitor : Z -> M unit) (runslots : Z) : M bool :=
  act (IterateOverOccupiedSlots (fun s => r ← lookup_in (runs s) runslots; Done (bitmap_ r)) (fun a => exec (objectVisitor a)) runslots);;
  mret true.

Fixpoint IterateOverObjects_loop (fuel : nat) (objectVisitor : Z -> M unit) (currentPool : Z) : M unit :=
  match fuel with
  | O => lift NoFuel
  | S fuel =>
      if currentPool != 0 then
        IterateOverRunSlots (visit_run objectVisitor) currentPool;;
        e ← pool_at currentPool;
        IterateOverObjects_loop fuel objectVisitor (prevPool_ e)
      else mret tt
  end.
Definition IterateOverObjects (objectVisitor : Z -> M unit) : M unit :=
  fuel ← pools_fuel; m ← get memoryPool_; IterateOverObjects_loop fuel objectVisitor (occupiedTail_ m).

(** Visitors of pools keep a state [V] of their own. *)
Section Visitors.
Context {V : Type} (memVisitor : Z -> Z -> V -> V).

Fixpoint VisitAllPools_loop (fuel : nat) (currentPool : Z) (v : V) : M V :=
  match fuel with
  | O => lift NoFuel
  | S fuel =>
      if currentPool != 0 then
        e ← pool_at currentPool;
        VisitAllPools_loop fuel (prevPool_ e) (memVisitor (poolMem_ e) (size_ e) v)
      else mret v
  end.
Definition VisitAllPools (v : V) : M V :=
  fuel ← pools_fuel; m ← get memoryPool_; VisitAllPools_loop fuel (occupiedTail_ m) v.

(** From here on the memory of the pool is the visitor's: its headers are no longer in the state. *)
Definition hand_over (this : Z) (v : V) : M V :=
  e ← pool_at this;
  put (fun s => {| s with runs := without this (this + size_ e) (runs s); pools := without this (this + size_ e) (pools s) |});;
  mret (memVisitor (poolMem_ e) (size_ e) v).

Fixpoint VisitFreePools_loop (fuel : nat) (currentPool : Z) (v : V) : M V :=
  match fuel with
  | O => lift NoFuel
  | S fuel =>
      if currentPool != 0 then
        e ← pool_at currentPool;
        v ← hand_over currentPool v;
        VisitFreePools_loop fuel (prevPool_ e) v
      else mret v
  end.

Definition VisitUnusedPool (currentPool : Z) (v : V) : M V :=
  e ← pool_at currentPool;
  used ← lift (HasUsedMemory e);
  if (used : bool) then mret v
  else
    set_manager (fun m => if occupiedTail_ m == currentPool then {| m with occupiedTail_ := prevPool_ e |} else m);;
    set_manager (fun m => if currentPool == partiallyOccupiedHead_ m then {| m with partiallyOccupiedHead_ := nextPool_ e |} else m);;
    PopPoolFromList currentPool;;
    hand_over currentPool v.

Fixpoint VisitUnusedPools_loop (fuel : nat) (currentPool : Z) (v : V) : M V :=
  match fuel with
  | O => lift NoFuel
  | S fuel =>
      if currentPool != 0 then
        e ← pool_at currentPool;
        v ← VisitUnusedPool currentPool v;
        VisitUnusedPools_loop fuel (prevPool_ e) v
      else mret v
  end.

Definition MemPoolManager_VisitAndRemoveFreePools (v : V) : M V :=
  fuel ← pools_fuel;
  m ← get memoryPool_;
  v ← VisitFreePools_loop fuel (freeTail_ m) v;
  set_manager (fun m => {| m with freeTail_ := 0 |});;
  m ← get memoryPool_;
  VisitUnusedPools_loop fuel (occupiedTail_ m) v.
End Visitors.

Fixpoint VisitAllPoolsWithOccupiedSize_loop (fuel : nat) (memVisitor : Z -> Z -> Z -> M unit) (currentPool : Z) : M unit :=
  match fuel with
  | O => lift NoFuel
  | S fuel =>
      if currentPool != 0 then
        e ← pool_at currentPool;
        memVisitor (poolMem_ e) (GetOccupiedSize e) (size_ e);;
        VisitAllPoolsWithOccupiedSize_loop fuel memVisitor (prevPool_ e)
      else mret tt
  end.
Definition VisitAllPoolsWithOccupiedSize (memVisitor : Z -> Z -> Z -> M unit) : M unit :=
  fuel ← pools_fuel; m ← get memoryPool_; VisitAllPoolsWithOccupiedSize_loop fuel memVisitor (occupiedTail_ m).

(** ** The allocator *)
Definition SLOTS_SIZES_VARIANTS : nat := Z.to_nat (SlotSizesVariants + 1).

Definition RunSlotsAllocator (w : Words) : State :=
  mkState w ∅ ∅ (replicate SLOTS_SIZES_VARIANTS (mkList 0 0)) (mkList 0 0) new_MemPoolManager.

Definition GetMaxSize : Z := MaxSlotSize.
Definition GetMinPoolSize : Z := MIN_POOL_SIZE.
Definition GetAlignmentInBytes (logAlignment : Z) : Z := u32 (Z.shiftl 1 logAlignment).

Definition MemoryInit (mem : Z) : M unit :=
  put (fun s => {| s with words := fun a => if (mem <=? a) && (a <? mem + init_size) then 0 else words s a |}).

Definition CreateNewRunSlotsFromMemory (slotsSize : Z) : M Z := GetNewRunSlots slotsSize.

(** The run for an allocation, and whether it is from the list of empty runs. *)
Definition find_run (DISABLE_USE_FREE_RUNSLOTS : bool) (arrayIndex : nat) (runSlotSize : Z) : M (Z * bool) :=
  runslots ← PopFromHead (SizeList arrayIndex);
  if runslots == 0 then
    if DISABLE_USE_FREE_RUNSLOTS then mret (0, false)
    else
      runslots ← PopFromHead FreeList;
      if runslots != 0 then mret (runslots, true)
      else runslots ← CreateNewRunSlotsFromMemory runSlotSize; mret (runslots, false)
  else mret (runslots, false).

Definition Alloc (DISABLE_USE_FREE_RUNSLOTS : bool) (size align : Z) : M Z :=
  if size == 0 then mret 0
  else
    let alignmentSize := GetAlignmentInBytes align in
    let size := if size <? alignmentSize then alignmentSize else size in
    if MaxSlotSize <? size then mret 0
    else
      slotSizePowerOfTwo ← lift (ConvertToPowerOfTwoUnsafe size);
      let arrayIndex := Z.to_nat slotSizePowerOfTwo in
      let runSlotSize := u64 (Z.shiftl 1 slotSizePowerOfTwo) in
      '(runslots, usedFromFreedRunslotsList) ← find_run DISABLE_USE_FREE_RUNSLOTS arrayIndex runSlotSize;
      if runslots == 0 then mret 0
      else
        r ← run_at runslots;
        (if usedFromFreedRunslotsList && (GetSlotsSize r != runSlotSize) then set_run runslots (Initialize runSlotSize (GetPoolPointer r))
         else mret tt);;
        r ← run_at runslots;
        w ← get words;
        '(r, allocatedMem) ← lift (PopFreeSlot runslots r w);
        set_run runslots r;;
        (if allocatedMem == 0 then lift Crash else mret tt);;
        (if negb (IsFull r) then PushToTail (SizeList arrayIndex) runslots else mret tt);;
        MemoryInit allocatedMem;;
        mret allocatedMem.

Definition DEFAULT_ALIGNMENT : Z := 3.
Definition AllocArray (sizeof_T arrLength : Z) : M Z := Alloc false (u64 (sizeof_T * arrLength)) DEFAULT_ALIGNMENT.

Definition FreeUnsafeInternal (runslots mem : Z) : M bool :=
  r ← run_at runslots;
  let runSlotSize := GetSlotsSize r in
  arrayIndex ← lift (ConvertToPowerOfTwoUnsafe runSlotSize);
  let arrayIndex := Z.to_nat arrayIndex in
  let runslotsWasFull := IsFull r in
  w ← get words;
  '(r, w) ← lift (PushFreeSlot r w mem);
  set_run runslots r;;
  put (fun s => {| s with words := w |});;
  if runslotsWasFull then PushToTail (SizeList arrayIndex) runslots;; mret false
  else if IsEmpty r then
    l ← get_list (SizeList arrayIndex);
    if (GetNextRunSlots r != 0) || (GetPrevRunSlots r != 0) || (head_ l == runslots) then
      PopFromList (SizeList arrayIndex) runslots;; mret true
    else mret false
  else mret false.

Definition AllocatedByRunSlotsAllocatorUnsafe (object : Z) : M bool := IsInMemPools object.

Definition FreeUnsafe (mem : Z) : M unit :=
  if mem == 0 then mret tt
  else
    known ← (if NDEBUG then mret true else AllocatedByRunSlotsAllocatorUnsafe mem);
    if negb known then mret tt
    else
      let runslots := runslotsAddr mem in
      needToAddToFreeList ← FreeUnsafeInternal runslots mem;
      if (needToAddToFreeList : bool) then PushToTail FreeList runslots else mret tt.

Definition Free (mem : Z) : M unit := FreeUnsafe mem.

(** [deathCheckerFn]: whether an object is dead. *)
Definition Collect (deathCheckerFn : Z -> bool) : M unit :=
  IterateOverObjects (fun objectHeader => if deathCheckerFn objectHeader then FreeUnsafe objectHeader else mret tt).

Fixpoint ReleaseEmptyRunSlots_loop (fuel : nat) (curFreeRunslots : Z) : M unit :=
  match fuel with
  | O => lift NoFuel
  | S fuel =>
      if curFreeRunslots != 0 then
        ReturnAndReleaseRunSlotsMemory curFreeRunslots;;
        curFreeRunslots ← PopFromHead FreeList;
        ReleaseEmptyRunSlots_loop fuel curFreeRunslots
      else mret tt
  end.
Definition ReleaseEmptyRunSlotsPagesUnsafe : M unit :=
  fuel ← get (fun s => S (size (runs s)));
  curFreeRunslots ← PopFromHead FreeList;
  ReleaseEmptyRunSlots_loop fuel curFreeRunslots.

Definition AddMemoryPool (mem size : Z) : M bool :=
  if mem == 0 then mret false
  else if MIN_POOL_SIZE <? size then mret false
  else AddNewMemoryPool mem size.

Definition VisitAndRemoveAllPools {V} (memVisitor : Z -> Z -> V -> V) (v : V) : M V := VisitAllPools memVisitor v.

Definition VisitAndRemoveFreePools {V} (memVisitor : Z -> Z -> V -> V) (v : V) : M V :=
  ReleaseEmptyRunSlotsPagesUnsafe;; MemPoolManager_VisitAndRemoveFreePools memVisitor v.

Fixpoint IterateOverObjectsInRange_loop (fuel : nat) (memVisitor : Z -> M unit) (rightBorder runslots : Z) : M unit :=
  match fuel with
  | O => lift NoFuel
  | S fuel =>
      if runslots <? rightBorder then
        visit_run memVisitor runslots;; IterateOverObjectsInRange_loop fuel memVisitor rightBorder (u64 (runslots + RUNSLOTS_SIZE))
      else mret tt
  end.
Definition IterateOverObjectsInRange (memVisitor : Z -> M unit) (leftBorder rightBorder : Z) : M unit :=
  known ← AllocatedByRunSlotsAllocatorUnsafe leftBorder;
  if negb known then mret tt
  else IterateOverObjectsInRange_loop (Z.to_nat ((rightBorder - leftBorder) / RUNSLOTS_SIZE + 3)) memVisitor rightBorder (runslotsAddr leftBorder).

Fixpoint VerifyAllocator_loop (n : nat) (object_size : Words -> Z -> Z) (i : nat) (failCnt : Z) : M Z :=
  match n with
  | O => mret failCnt
  | S n =>
      l ← get_list (SizeList i);
      failCnt ← (if head_ l != 0 then
                   r ← run_at (head_ l); w ← get words; c ← lift (VerifyRun (object_size w) (head_ l) r); mret (u64 (failCnt + c))
                 else mret failCnt);
      VerifyAllocator_loop n object_size (S i) failCnt
  end.
Definition VerifyAllocator (object_size : Words -> Z -> Z) : M Z := VerifyAllocator_loop SLOTS_SIZES_VARIANTS object_size 0 0.

Definition ContainObject (obj : Z) : M bool := AllocatedByRunSlotsAllocatorUnsafe obj.

Definition IsLive_object (obj : Z) : M bool :=
  run ← run_at (runslotsAddr obj);
  if IsEmpty run then mret false else lift (IsLive run obj).

Fixpoint TrimUnsafe_loop (fuel : nat) (head : Z) : M unit :=
  match fuel with
  | O => lift NoFuel
  | S fuel =>
      if head != 0 then
        r ← run_at head;
        ReleasePages head (u64 (head + RUNSLOTS_SIZE));;
        TrimUnsafe_loop fuel (GetNextRunSlots r)
      else mret tt
  end.
Definition TrimUnsafe : M unit :=
  fuel ← get (fun s => S (size (runs s)));
  l ← get_list FreeList;
  TrimUnsafe_loop fuel (head_ l);;
  VisitAllPoolsWithOccupiedSize (fun mem usedSize size =>
    let start := Bitmap.AlignUp (u64 (mem + usedSize)) GetPageSize in
    let end_ := u64 (mem + size) in
    if u64 (start + GetPageSize) <=? end_ then ReleasePages start end_ else mret tt).
End Allocator.
End Allocator.
