(* ===== verification/MemLists.v ===== *)
(** Doubly linked lists of headers in memory, shared by the lists of runs and of pools: the null pointer is 0. *)
From S2P Require Import Prelude.
From stdpp Require Import gmap list.
Local Open Scope Z_scope.

Definition headz (l : list Z) : Z := default 0 (head l).
Definition lastz (l : list Z) : Z := default 0 (last l).

Lemma lastz_snoc l x : lastz (l ++ [x]) = x.
Proof. unfold lastz. by rewrite last_snoc. Qed.

Lemma lastz_cons x l : l <> [] -> lastz (x :: l) = lastz l.
Proof. intros Hl. unfold lastz. by destruct l. Qed.

Lemma headz_app l1 l2 : l1 <> [] -> headz (l1 ++ l2) = headz l1.
Proof. by destruct l1. Qed.

Lemma lastz_app l1 l2 : l2 <> [] -> lastz (l1 ++ l2) = lastz l2.
Proof. intros Hl. destruct (exists_last Hl) as (k & x & ->). by rewrite app_assoc, !lastz_snoc. Qed.

Lemma headz_in l : l <> [] -> headz l ∈ l.
Proof. destruct l; [done|]. intros _. constructor. Qed.

Lemma lastz_in l : l <> [] -> lastz l ∈ l.
Proof. intros Hl. destruct (exists_last Hl) as (k & x & ->). rewrite lastz_snoc. set_solver. Qed.

(** In a list without repetitions an element has one place. *)
Lemma split_unique (a : Z) l1 l2 k1 k2 : NoDup (l1 ++ a :: l2) -> l1 ++ a :: l2 = k1 ++ a :: k2 -> l1 = k1 /\ l2 = k2.
Proof.
  revert k1. induction l1 as [|x l1 IH]; intros [|y k1] Hn E; simplify_eq/=; [done| | |].
  - apply NoDup_cons in Hn as [Hn _]. exfalso. apply Hn. set_solver.
  - apply NoDup_cons in Hn as [Hn _]. exfalso. apply Hn. set_solver.
  - apply NoDup_cons in Hn as [_ Hn]. destruct (IH k1 Hn) as [-> ->]; done.
Qed.

Lemma NoDup_size {A} (m : gmap Z A) l : NoDup l -> (forall a, a ∈ l -> is_Some (m !! a)) -> (length l <= size m)%nat.
Proof.
  intros Hn Hd. rewrite <- size_dom, <- (size_list_to_set (C := gset Z) l Hn). apply subseteq_size. intros a Ha%elem_of_list_to_set.
  by apply elem_of_dom, Hd.
Qed.

Section Dll.
Context {A : Type} (nx pv : A -> Z).

Definition next (m : gmap Z A) (a : Z) : Z := default 0 (nx <$> m !! a).
Definition prev (m : gmap Z A) (a : Z) : Z := default 0 (pv <$> m !! a).

Lemma next_insert m a x b : next (<[a := x]> m) b = if decide (b = a) then nx x else next m b.
Proof. unfold next. case_decide; [subst; by rewrite lookup_insert_eq|by rewrite lookup_insert_ne]. Qed.

Lemma prev_insert m a x b : prev (<[a := x]> m) b = if decide (b = a) then pv x else prev m b.
Proof. unfold prev. case_decide; [subst; by rewrite lookup_insert_eq|by rewrite lookup_insert_ne]. Qed.

Lemma next_some m a x : m !! a = Some x -> next m a = nx x.
Proof. intros E. unfold next. by rewrite E. Qed.

Lemma prev_some m a x : m !! a = Some x -> prev m a = pv x.
Proof. intros E. unfold prev. by rewrite E. Qed.

(** [l] is a list in memory: every element is linked with its neighbours. *)
Record dll (m : gmap Z A) (l : list Z) : Prop := {
  dll_nodup : NoDup l;
  dll_null : 0 ∉ l;
  dll_dom : forall a, a ∈ l -> is_Some (m !! a);
  dll_links : forall l1 a l2, l = l1 ++ a :: l2 -> prev m a = lastz l1 /\ next m a = headz l2;
}.

Lemma dll_nil m : dll m [].
Proof. split; [constructor|set_solver|set_solver|]. by intros []. Qed.

Lemma dll_frame m m' l :
  (forall a, a ∈ l -> is_Some (m' !! a) /\ next m' a = next m a /\ prev m' a = prev m a) -> dll m l -> dll m' l.
Proof.
  intros Hf []. split; [done|done|by apply Hf|]. intros l1 a l2 E. destruct (Hf a) as (_ & -> & ->); [subst; set_solver|by apply dll_links0].
Qed.

Lemma dll_push m m' l x :
  dll m l -> x ∉ l -> x <> 0 -> (forall a, a ∈ l ++ [x] -> is_Some (m' !! a)) ->
  (forall a, a ∈ l -> next m' a = if decide (a = lastz l) then x else next m a) -> (forall a, a ∈ l -> prev m' a = prev m a) ->
  prev m' x = lastz l -> next m' x = 0 -> dll m' (l ++ [x]).
Proof.
  intros [Hnd H0 Hd Hl] Hx Hx0 Hd' Hn Hp Hpx Hnx. split; [|set_solver|done|].
  { apply NoDup_app. split_and!; [done|set_solver|apply NoDup_singleton]. }
  intros l1 a l2 E. destruct (decide (a = x)) as [->|Ha].
  - destruct (split_unique x l [] l1 l2) as [<- <-]; [|done|done]. apply NoDup_app. split_and!; [done|set_solver|apply NoDup_singleton].
  - assert (Hin : a ∈ l) by (assert (Ha' : a ∈ l ++ [x]) by (rewrite E; set_solver); set_solver).
    apply list_elem_of_split in Hin as (k1 & k2 & El). assert (l1 = k1 /\ l2 = k2 ++ [x]) as [-> ->].
    { rewrite El, <- app_assoc in E. cbn [app] in E. destruct (split_unique a k1 (k2 ++ [x]) l1 l2) as [<- <-]; [|done|done].
      rewrite El in Hnd, Hx. replace (k1 ++ a :: k2 ++ [x]) with ((k1 ++ a :: k2) ++ [x]) by (by rewrite <- app_assoc).
      apply NoDup_app. split_and!; [done|set_solver|apply NoDup_singleton]. }
    destruct (Hl k1 a k2 El) as [Hpa Hna]. rewrite Hp, Hn, Hpa by (subst l; set_solver). split; [done|]. case_decide as Eq.
    + destruct k2 as [|b k2]; [done|]. exfalso. rewrite El in Eq, Hnd. rewrite lastz_app, lastz_cons in Eq by done.
      assert (a ∈ b :: k2) by (rewrite Eq; by apply lastz_in). apply NoDup_app in Hnd as (_ & _ & [? _]%NoDup_cons). done.
    + destruct k2 as [|b k2]; [|done]. exfalso. apply Eq. rewrite El. by rewrite lastz_snoc.
Qed.

Lemma dll_remove m m' l1 x l2 :
  dll m (l1 ++ x :: l2) -> (forall a, a ∈ l1 ++ l2 -> is_Some (m' !! a)) ->
  (forall a, a ∈ l1 ++ l2 -> next m' a = if decide (a = lastz l1) then headz l2 else next m a) ->
  (forall a, a ∈ l1 ++ l2 -> prev m' a = if decide (a = headz l2) then lastz l1 else prev m a) -> dll m' (l1 ++ l2).
Proof.
  intros [Hnd H0 Hd Hl] Hd' Hn Hp. assert (Hnd' : NoDup (l1 ++ l2)).
  { apply NoDup_app in Hnd as (Hn1 & Hn12 & [Hx Hn2]%NoDup_cons). apply NoDup_app. split_and!; set_solver. }
  split; [done|set_solver|done|]. intros k1 a k2 E.
  assert (Hin : a ∈ l1 ++ l2) by (rewrite E; set_solver). rewrite (Hn a Hin), (Hp a Hin). pose proof (Hd' a Hin) as _.
  apply NoDup_app in Hnd as (Hn1 & Hn12 & [Hx Hn2]%NoDup_cons). rewrite E in Hnd'. apply elem_of_app in Hin as [Hin|Hin].
  - apply list_elem_of_split in Hin as (j1 & j2 & ->). rewrite <- app_assoc in E. cbn [app] in E.
    destruct (split_unique a k1 k2 j1 (j2 ++ l2)) as [<- ->]; [done|done|]. rewrite decide_False by (intros Ea; destruct l2 as [|b l2]; [simpl in Ea; set_solver|set_solver]).
    destruct (Hl k1 a (j2 ++ x :: l2)) as [-> ->]; [by rewrite <- app_assoc|]. split; [done|]. case_decide as Eq.
    + destruct j2 as [|b j2]; [done|]. exfalso. rewrite lastz_app, lastz_cons in Eq by done.
      assert (a ∈ b :: j2) by (rewrite Eq; by apply lastz_in). apply NoDup_app in Hn1 as (_ & _ & [? _]%NoDup_cons). done.
    + destruct j2 as [|b j2]; [|done]. exfalso. apply Eq. by rewrite lastz_snoc.
  - apply list_elem_of_split in Hin as (j1 & j2 & ->). rewrite app_assoc in E.
    destruct (split_unique a k1 k2 (l1 ++ j1) j2) as [-> ->]; [done|done|].
    rewrite (decide_False (P := a = lastz l1)) by (intros Ea; destruct (decide (l1 = [])) as [->|Hl1]; [simpl in Ea; set_solver|pose proof (lastz_in l1 Hl1); set_solver]).
    destruct (Hl (l1 ++ x :: j1) a j2) as [-> ->]; [by rewrite <- app_assoc|]. split; [|done]. case_decide as Eq.
    + destruct j1 as [|b j1]; [by rewrite app_nil_r|]. exfalso. simpl in Eq. apply NoDup_app in Hn2 as (_ & Hn2 & _). apply (Hn2 a); set_solver.
    + destruct j1 as [|b j1]; [done|]. by rewrite !lastz_app, lastz_cons by done.
Qed.
End Dll.
