(* ===== verification/RunSlotsLists.v ===== *)
(** The lists of runs of the allocator: what [RunSlotsList]'s operations do to the lists and to the rest of the state. *)
From S2P Require Import Prelude Leb128 GcBitmap RunSlots RunSlotsAllocator MemLists.
From stdpp Require Import gmap functions list.
Local Open Scope Z_scope.
Local Open Scope ark_scope.
Export Allocator.

(** ** Steps *)
Lemma bind_M {A B} (m : M A) (k : A -> M B) s s' a : m s = Done (s', a) -> (a ← m; k a) s = k a s'.
Proof. intros E. cbv [mbind M_bind]. by rewrite E. Qed.

Definition with_runs (s : State) (m : gmap Z RunSlots) : State := {| s with runs := m |}.
Definition with_list (s : State) (id : ListId) (l : RunSlotsList) : State :=
  match id with SizeList i => {| s with runslots_ := <[i := l]> (runslots_ s) |} | FreeList => {| s with freeRunslots_ := l |} end.

Lemma run_at_eq a r s : runs s !! a = Some r -> run_at a s = Done (s, r).
Proof. intros E. cbv [run_at get lift lookup_in mbind M_bind]. by rewrite E. Qed.

Lemma update_run_eq a r f s : runs s !! a = Some r -> update_run a f s = Done (with_runs s (<[a := f r]> (runs s)), tt).
Proof. intros E. unfold update_run. erewrite bind_M by (by apply run_at_eq). done. Qed.

Lemma get_list_eq id l s : list_of s id = Done l -> get_list id s = Done (s, l).
Proof. intros E. cbv [get_list get lift mbind M_bind]. by rewrite E. Qed.

Lemma set_list_eq id l s : set_list id l s = Done (with_list s id l, tt).
Proof. by destruct id. Qed.

Lemma list_of_with_list s id l l0 id' :
  list_of s id = Done l0 -> list_of (with_list s id l) id' = if decide (id' = id) then Done l else list_of s id'.
Proof.
  intros E. destruct id as [i|], id' as [j|]; cbn [list_of with_list runslots_ freeRunslots_] in *; case_decide as Ed; simplify_eq/=; try done.
  - unfold read in *. destruct (runslots_ s !! i) eqn:Ei; [|done]. apply lookup_lt_Some in Ei. by rewrite list_lookup_insert_eq.
  - unfold read. rewrite list_lookup_insert_ne; [done|congruence].
Qed.

Lemma list_of_with_runs s m id : list_of (with_runs s m) id = list_of s id.
Proof. by destruct id. Qed.

Lemma runs_with_runs s m : runs (with_runs s m) = m.
Proof. done. Qed.

Lemma words_with_runs s m : words (with_runs s m) = words s.
Proof. done. Qed.

Lemma pools_with_runs s m : pools (with_runs s m) = pools s.
Proof. done. Qed.

Lemma manager_with_runs s m : memoryPool_ (with_runs s m) = memoryPool_ s.
Proof. done. Qed.

Lemma runs_with_list s id l : runs (with_list s id l) = runs s.
Proof. by destruct id. Qed.

Lemma words_with_list s id l : words (with_list s id l) = words s.
Proof. by destruct id. Qed.

Lemma pools_with_list s id l : pools (with_list s id l) = pools s.
Proof. by destruct id. Qed.

Lemma manager_with_list s id l : memoryPool_ (with_list s id l) = memoryPool_ s.
Proof. by destruct id. Qed.

(** ** Lists *)
Abbreviation rnext := (next nextRunslot_).
Abbreviation rprev := (prev prevRunslot_).
Abbreviation rdll := (dll nextRunslot_ prevRunslot_).

Definition list_rep (s : State) (id : ListId) (l : list Z) : Prop :=
  list_of s id = Done (mkList (headz l) (lastz l)) /\ rdll (runs s) l.

(** All but the links. *)
Definition same_body (r r' : RunSlots) : Prop :=
  usedSlots_ r' = usedSlots_ r /\ slotSize_ r' = slotSize_ r /\ firstUninitializedSlotOffset_ r' = firstUninitializedSlotOffset_ r /\
  poolPointer_ r' = poolPointer_ r /\ nextFree_ r' = nextFree_ r /\ bitmap_ r' = bitmap_ r.

#[export] Instance same_body_refl : Reflexive same_body.
Proof. done. Qed.

#[export] Instance same_body_trans : Transitive same_body.
Proof. intros r1 r2 r3 (? & ? & ? & ? & ? & ?) (? & ? & ? & ? & ? & ?). split_and!; congruence. Qed.

(** Only links of the runs [ch] and the list [id] change. *)
Record relinked (s s' : State) (ch : list Z) (id : ListId) : Prop := {
  rl_words : words s' = words s;
  rl_pools : pools s' = pools s;
  rl_manager : memoryPool_ s' = memoryPool_ s;
  rl_lists : forall id', id' <> id -> list_of s' id' = list_of s id';
  rl_same : forall a, a ∉ ch -> runs s' !! a = runs s !! a;
  rl_bodies : forall a, option_Forall2 same_body (runs s !! a) (runs s' !! a);
}.

Lemma bodies_insert (m m' : gmap Z RunSlots) b r r' :
  m' !! b = Some r -> same_body r r' -> (forall a, option_Forall2 same_body (m !! a) (m' !! a)) ->
  forall a, option_Forall2 same_body (m !! a) (<[b := r']> m' !! a).
Proof.
  intros E Hr Hb a. destruct (decide (a = b)) as [->|]; [|by rewrite lookup_insert_ne].
  specialize (Hb b). rewrite lookup_insert_eq. rewrite E in Hb. inversion Hb; subst. constructor. by etrans.
Qed.

Lemma bodies_refl (m : gmap Z RunSlots) a : option_Forall2 same_body (m !! a) (m !! a).
Proof. destruct (m !! a); by constructor. Qed.

Lemma rl_dom s s' ch id a : relinked s s' ch id -> is_Some (runs s !! a) -> is_Some (runs s' !! a).
Proof. intros Hr [r E]. pose proof (rl_bodies _ _ _ _ Hr a) as Hb. rewrite E in Hb. inversion Hb; eauto. Qed.

(** What setting links does to [next] and [prev]. *)
Ltac links := repeat (rewrite next_insert || rewrite prev_insert); repeat case_decide; simplify_eq/=; try done.

(** The end of a call: the lists and the headers are read off the state. *)
Ltac state_simpl :=
  repeat (rewrite runs_with_list || rewrite runs_with_runs || rewrite list_of_with_runs || rewrite words_with_list || rewrite words_with_runs ||
          rewrite pools_with_list || rewrite pools_with_runs || rewrite manager_with_list || rewrite manager_with_runs).

Lemma PushToTail_spec s id l x r :
  list_rep s id l -> x ∉ l -> x <> 0 -> runs s !! x = Some r -> nextRunslot_ r = 0 -> prevRunslot_ r = 0 ->
  exists s', PushToTail id x s = Done (s', tt) /\ list_rep s' id (l ++ [x]) /\ relinked s s' (l ++ [x]) id.
Proof.
  intros [El Hd] Hx Hx0 Er Hn Hp. unfold PushToTail. erewrite bind_M by (by apply get_list_eq). cbn [tail_ head_].
  destruct (decide (l = [])) as [->|Hl].
  - rewrite bool_decide_true by done. rewrite set_list_eq. eexists. split; [done|]. cbn [app]. split; [split|split].
    + erewrite list_of_with_list by done. by rewrite decide_True.
    + rewrite runs_with_list. split; [apply NoDup_singleton|set_solver|intros a ->%list_elem_of_singleton; by eexists|].
      intros [|b [|? ?]] a l2 E; simplify_eq/=. by rewrite (next_some _ _ _ _ Er), (prev_some _ _ _ _ Er).
    + apply words_with_list.
    + apply pools_with_list.
    + apply manager_with_list.
    + intros id' Hne. state_simpl. erewrite list_of_with_list by done. by rewrite decide_False.
    + intros a _. by rewrite runs_with_list.
    + intros a. rewrite runs_with_list. apply bodies_refl.
  - set (t := lastz l). assert (Ht : t ∈ l) by (by apply lastz_in). assert (t <> 0) by (intros E; apply (dll_null _ _ _ _ Hd); by rewrite <- E).
    assert (Htx : t <> x) by (intros E; apply Hx; by rewrite <- E). destruct (dll_dom _ _ _ _ Hd t Ht) as [rt Et].
    rewrite bool_decide_false by done. erewrite bind_M by (by apply update_run_eq).
    erewrite bind_M by (apply update_run_eq; state_simpl; by rewrite lookup_insert_ne).
    erewrite bind_M by apply set_list_eq. erewrite update_run_eq by (state_simpl; by rewrite lookup_insert_eq). state_simpl.
    eexists. split; [done|]. split; [split|split]; state_simpl; try done.
    + erewrite list_of_with_list by (by state_simpl). rewrite decide_True, lastz_snoc, headz_app by done. done.
    + eapply dll_push; [exact Hd|done|done| | | | |].
      * intros a [Ha| ->%list_elem_of_singleton]%elem_of_app; [|by rewrite lookup_insert_eq].
        rewrite !lookup_insert_is_Some'. right. right. right. by apply (dll_dom _ _ _ _ Hd).
      * intros a Ha. fold t. links.
      * intros a Ha. links. symmetry. by apply prev_some.
      * links.
      * links.
    + intros id' Hne. state_simpl. erewrite list_of_with_list by (by state_simpl). rewrite decide_False by done. by state_simpl.
    + intros a Ha. rewrite !lookup_insert_ne; [done|set_solver..].
    + eapply bodies_insert; [by rewrite lookup_insert_eq|done|]. eapply bodies_insert; [by rewrite lookup_insert_ne|done|].
      eapply bodies_insert; [done|done|]. apply bodies_refl.
Qed.

Lemma PopFromHead_spec s id x l :
  list_rep s id (x :: l) ->
  exists s', PopFromHead id s = Done (s', x) /\ list_rep s' id l /\ relinked s s' (x :: l) id /\ rnext (runs s') x = 0 /\ rprev (runs s') x = 0.
Proof.
  intros [El Hd]. unfold PopFromHead. erewrite bind_M by (by apply get_list_eq). cbn [tail_ head_].
  pose proof (dll_nodup _ _ _ _ Hd) as [Hx Hnd]%NoDup_cons. pose proof (dll_null _ _ _ _ Hd) as H0.
  destruct (dll_dom _ _ _ _ Hd x ltac:(constructor)) as [r Er]. change (headz (x :: l)) with x.
  destruct (dll_links _ _ _ _ Hd [] x l eq_refl) as [Hpx Hnx]. rewrite bool_decide_false by set_solver.
  rewrite (next_some _ _ _ _ Er) in Hnx. rewrite (prev_some _ _ _ _ Er) in Hpx. change (lastz []) with 0 in Hpx.
  erewrite bind_M by (by apply run_at_eq). unfold GetNextRunSlots. rewrite Hnx.
  destruct l as [|y l].
  - change (headz []) with 0 in *. rewrite bool_decide_true by done. erewrite bind_M by apply set_list_eq.
    erewrite bind_M by (apply update_run_eq; by state_simpl). state_simpl. eexists. split; [done|]. split; [split|split; [split|]]; state_simpl; try done.
    + erewrite list_of_with_list by done. by rewrite decide_True.
    + apply dll_nil.
    + intros id' Hne. state_simpl. erewrite list_of_with_list by done. by rewrite decide_False.
    + intros a Ha. rewrite lookup_insert_ne by set_solver. done.
    + eapply bodies_insert; [done|done|]. apply bodies_refl.
    + split; [by rewrite next_insert, decide_True|by rewrite prev_insert, decide_True].
  - change (headz (y :: l)) with y in *. assert (y <> 0) by set_solver. assert (y <> x) by set_solver. rewrite bool_decide_false by done.
    destruct (dll_dom _ _ _ _ Hd y ltac:(set_solver)) as [ry Ey].
    erewrite bind_M; cycle 1. { erewrite bind_M by apply set_list_eq. apply update_run_eq. by state_simpl. }
    state_simpl. erewrite bind_M by (apply update_run_eq; state_simpl; by rewrite lookup_insert_ne). state_simpl.
    eexists. split; [done|]. split; [split|split; [split|]]; state_simpl; try done.
    + erewrite list_of_with_list by done. by rewrite decide_True.
    + apply (dll_remove _ _ (runs s) _ [] x (y :: l)); [done| | |].
      * intros a Ha. rewrite !lookup_insert_is_Some'. right. right. apply (dll_dom _ _ _ _ Hd). by constructor.
      * intros a Ha. rewrite (decide_False (P := a = lastz [])) by (intros ->; set_solver). links. symmetry. by apply next_some.
      * intros a Ha. change (headz (y :: l)) with y. links; set_solver.
    + intros id' Hne. state_simpl. erewrite list_of_with_list by done. by rewrite decide_False.
    + intros a Ha. rewrite !lookup_insert_ne by set_solver. done.
    + eapply bodies_insert; [by rewrite lookup_insert_ne|done|]. eapply bodies_insert; [done|done|]. apply bodies_refl.
    + split; [by rewrite next_insert, decide_True|by rewrite prev_insert, decide_True].
Qed.

Lemma PopFromHead_nil s id : list_rep s id [] -> PopFromHead id s = Done (s, 0).
Proof. intros [El Hd]. unfold PopFromHead. by erewrite bind_M by (by apply get_list_eq). Qed.

(** The tail of a list that has other elements. *)
Lemma PopFromTail_spec s id l y x :
  list_rep s id (l ++ [y; x]) ->
  exists s', PopFromTail id s = Done (s', x) /\ list_rep s' id (l ++ [y]) /\ relinked s s' (l ++ [y; x]) id /\
    rnext (runs s') x = 0 /\ rprev (runs s') x = 0.
Proof.
  intros [El Hd]. unfold PopFromTail. erewrite bind_M by (by apply get_list_eq). cbn [tail_ head_].
  assert (Et : lastz (l ++ [y; x]) = x) by (by rewrite lastz_app). rewrite Et in *.
  pose proof (dll_nodup _ _ _ _ Hd) as (_ & Hly & [Hyx _]%NoDup_cons)%NoDup_app. pose proof (dll_null _ _ _ _ Hd) as H0.
  assert (Hxl : x ∉ l ++ [y]) by set_solver. assert (Hyl : y ∉ l) by set_solver. assert (y <> 0 /\ x <> 0 /\ y <> x) as (Hy0 & Hx0 & Hne) by set_solver.
  destruct (dll_dom _ _ _ _ Hd x ltac:(set_solver)) as [r Er]. destruct (dll_dom _ _ _ _ Hd y ltac:(set_solver)) as [ry Ey].
  destruct (dll_links _ _ _ _ Hd (l ++ [y]) x []) as [Hpx Hnx]; [by rewrite <- app_assoc|]. rewrite lastz_snoc in Hpx.
  rewrite (next_some _ _ _ _ Er) in Hnx. rewrite (prev_some _ _ _ _ Er) in Hpx. change (headz []) with 0 in Hnx.
  rewrite bool_decide_false by done. erewrite bind_M by (by apply run_at_eq). unfold GetPrevRunSlots. rewrite Hpx.
  rewrite bool_decide_false by done. erewrite bind_M; cycle 1. { erewrite bind_M by apply set_list_eq. apply update_run_eq. by state_simpl. }
  state_simpl. erewrite bind_M by (apply update_run_eq; state_simpl; by rewrite lookup_insert_ne). state_simpl.
  eexists. split; [done|]. split; [split|split; [split|]]; state_simpl; try done.
  - erewrite list_of_with_list by done. rewrite decide_True, lastz_snoc by done. by destruct l.
  - rewrite <- (app_nil_r (l ++ [y])). apply (dll_remove _ _ (runs s) _ (l ++ [y]) x []); [by rewrite <- app_assoc| | |].
    + intros a Ha. rewrite !lookup_insert_is_Some'. right. right. apply (dll_dom _ _ _ _ Hd). set_solver.
    + intros a Ha. rewrite lastz_snoc. change (headz []) with 0. links. set_solver.
    + intros a Ha. change (headz []) with 0. rewrite (decide_False (P := a = 0)) by set_solver. links; [set_solver|]. symmetry. by apply prev_some.
  - intros id' Hid. state_simpl. erewrite list_of_with_list by done. by rewrite decide_False.
  - intros a Ha. rewrite !lookup_insert_ne by set_solver. done.
  - eapply bodies_insert; [by rewrite lookup_insert_ne|done|]. eapply bodies_insert; [done|done|]. apply bodies_refl.
  - split; [by rewrite next_insert, decide_True|by rewrite prev_insert, decide_True].
Qed.

Lemma PopFromMiddle_spec s id l1 x l2 :
  l1 <> [] -> l2 <> [] -> list_rep s id (l1 ++ x :: l2) ->
  exists s', PopFromList id x s = Done (s', tt) /\ list_rep s' id (l1 ++ l2) /\ relinked s s' (l1 ++ x :: l2) id /\
    rnext (runs s') x = 0 /\ rprev (runs s') x = 0.
Proof.
  intros H1 H2 [El Hd]. unfold PopFromList. erewrite bind_M by (by apply get_list_eq). cbn [tail_ head_].
  pose proof (headz_in l1 H1) as Hh1. pose proof (headz_in l2 H2) as Hh2. pose proof (lastz_in l1 H1) as Ht1. pose proof (lastz_in l2 H2) as Ht2.
  rewrite headz_app, lastz_app, lastz_cons in * by done.
  pose proof (dll_nodup _ _ _ _ Hd) as (Hn1 & Hn12 & [Hx2 Hn2]%NoDup_cons)%NoDup_app. pose proof (dll_null _ _ _ _ Hd) as H0.
  assert (Hx1 : x ∉ l1) by set_solver. rewrite !bool_decide_false by (intros ->; done).
  destruct (dll_dom _ _ _ _ Hd x ltac:(set_solver)) as [r Er]. set (p := lastz l1) in *. set (n := headz l2) in *.
  destruct (dll_dom _ _ _ _ Hd p ltac:(set_solver)) as [rp Ep]. destruct (dll_dom _ _ _ _ Hd n ltac:(set_solver)) as [rn En].
  assert (p <> n /\ p <> x /\ n <> x) as (Hpn & Hpx' & Hnx') by (split_and!; [intros E; apply (Hn12 p Ht1); rewrite E; by constructor|set_solver..]).
  destruct (dll_links _ _ _ _ Hd l1 x l2 eq_refl) as [Hpx Hnx]. rewrite (next_some _ _ _ _ Er) in Hnx. rewrite (prev_some _ _ _ _ Er) in Hpx.
  erewrite bind_M by (by apply run_at_eq). unfold GetPrevRunSlots, GetNextRunSlots. rewrite Hpx, Hnx. fold p n.
  erewrite bind_M by (by apply update_run_eq). erewrite bind_M by (apply update_run_eq; state_simpl; by rewrite lookup_insert_ne).
  erewrite bind_M by (apply update_run_eq; state_simpl; by rewrite !lookup_insert_ne).
  erewrite update_run_eq by (state_simpl; by rewrite lookup_insert_eq). state_simpl.
  eexists. split; [done|]. split; [split|split; [split|]]; state_simpl; try done.
  - rewrite El. by rewrite headz_app, lastz_app by done.
  - eapply (dll_remove _ _ (runs s) _ l1 x l2); [done| | |].
    + intros a Ha. rewrite !lookup_insert_is_Some'. do 4 right. apply (dll_dom _ _ _ _ Hd). set_solver.
    + intros a Ha. fold p n. assert (a <> x) by set_solver. repeat (rewrite next_insert; rewrite ?(decide_False (P := a = x)) by done).
      destruct (decide (a = p)); [done|]. destruct (decide (a = n)) as [->|]; [by rewrite (next_some _ _ _ _ En)|done].
    + intros a Ha. fold p n. assert (a <> x) by set_solver. repeat (rewrite prev_insert; rewrite ?(decide_False (P := a = x)) by done).
      destruct (decide (a = p)) as [Ea|], (decide (a = n)); try done; [congruence|]. rewrite Ea. by rewrite (prev_some _ _ _ _ Ep).
  - intros a Ha. rewrite !lookup_insert_ne by set_solver. done.
  - eapply bodies_insert; [by rewrite lookup_insert_eq|done|]. eapply bodies_insert; [by rewrite !lookup_insert_ne|done|].
    eapply bodies_insert; [by rewrite lookup_insert_ne|done|]. eapply bodies_insert; [done|done|]. apply bodies_refl.
  - split; [by rewrite next_insert, decide_True|by rewrite prev_insert, decide_True].
Qed.

Lemma PopFromList_spec s id l1 x l2 :
  list_rep s id (l1 ++ x :: l2) ->
  exists s', PopFromList id x s = Done (s', tt) /\ list_rep s' id (l1 ++ l2) /\ relinked s s' (l1 ++ x :: l2) id /\
    rnext (runs s') x = 0 /\ rprev (runs s') x = 0.
Proof.
  intros Hl. destruct (decide (l1 = [])) as [->|H1].
  - destruct (PopFromHead_spec s id x l2 Hl) as (s' & E & Hs). exists s'. split; [|done]. unfold PopFromList.
    erewrite bind_M by (apply get_list_eq, Hl). cbn [head_ app]. rewrite bool_decide_true by done. by erewrite bind_M.
  - destruct (decide (l2 = [])) as [->|H2]; [|by apply PopFromMiddle_spec]. destruct (exists_last H1) as (l & y & ->).
    rewrite <- app_assoc in Hl. cbn [app] in Hl. destruct (PopFromTail_spec s id l y x Hl) as (s' & E & Hs). exists s'. rewrite app_nil_r, <- app_assoc.
    split; [|done]. destruct Hl as [El Hd]. unfold PopFromList. erewrite bind_M by (by apply get_list_eq). cbn [head_ tail_].
    pose proof (dll_nodup _ _ _ _ Hd) as (_ & Hly & [Hyx _]%NoDup_cons)%NoDup_app.
    rewrite bool_decide_false by (destruct l as [|z l]; cbn; [set_solver|intros ->; apply (Hly z); set_solver]).
    rewrite bool_decide_true by (by rewrite lastz_app). by erewrite bind_M.
Qed.
