(* ===== verification/RunSlotsPools.v ===== *)
(** The pools of the allocator: the pages of a pool, those given back and those in use, and the lists of the manager. *)
From S2P Require Import Prelude Leb128 GcBitmap RunSlots RunSlotsAllocator MemLists RunSlotsLists.
From stdpp Require Import gmap functions list.
Local Open Scope Z_scope.
Local Open Scope ark_scope.

Abbreviation marked := (Bitmap.marked CHUNK).

(** ** One pool *)
Lemma filter_toggle (f g : Z -> bool) l x :
  NoDup l -> x ∈ l -> f x = false -> g x = true -> (forall a, a ∈ l -> a <> x -> g a = f a) ->
  length (List.filter g l) = S (length (List.filter f l)).
Proof.
  intros Hn (l1 & l2 & ->)%list_elem_of_split Hf Hg He. apply NoDup_app in Hn as (Hn1 & Hn12 & [Hx Hn2]%NoDup_cons).
  rewrite !List.filter_app. cbn [List.filter]. rewrite Hf, Hg, !length_app. cbn [length].
  rewrite (List.filter_ext_in g f l1), (List.filter_ext_in g f l2); [lia| |].
  - intros a Ha%list_elem_of_In. apply He; [set_solver|]. intros ->. done.
  - intros a Ha%list_elem_of_In. apply He; [set_solver|]. intros ->. apply (Hn12 x); set_solver.
Qed.

(** A page the pool has handed out, now or before; the ones of them given back, and the ones in use. *)
Definition page (e : PoolListElement) (a : Z) : Prop := poolMem_ e + 4096 <= a < freePtr_ e /\ (4096 | a - poolMem_ e).
Definition used (e : PoolListElement) (a : Z) : Prop := page e a /\ marked (freedRunslotsBitmap_ e) a = false.
Definition pages (e : PoolListElement) : list Z := (fun i => poolMem_ e + 4096 * i) <$> seqZ 1 ((freePtr_ e - poolMem_ e) / 4096 - 1).
Definition freed (e : PoolListElement) : list Z := List.filter (marked (freedRunslotsBitmap_ e)) (pages e).

Record pool_ok (p : Z) (e : PoolListElement) : Prop := {
  po_mem : poolMem_ e = p;
  po_addr : 0 < p /\ (4096 | p) /\ p + 2 * MIN_POOL_SIZE <= 2 ^ 64;
  po_size : 3 * 4096 <= size_ e <= MIN_POOL_SIZE;
  po_start : startMem_ e = p + 4096;
  po_free : p + 4096 <= freePtr_ e <= p + size_ e /\ (4096 | freePtr_ e);
  po_bits : Bitmap.mem_wf CHUNK (freedRunslotsBitmap_ e);
  po_begin : Bitmap.beginAddr_ (freedRunslotsBitmap_ e) = p;
  po_bitsize : Bitmap.bitsize_ (Bitmap.bits_ (freedRunslotsBitmap_ e)) = 1024;
  po_marks : forall a, Bitmap.is_chunk CHUNK (freedRunslotsBitmap_ e) a -> marked (freedRunslotsBitmap_ e) a = true -> page e a;
  po_count : freededRunslotsCount_ e = Z.of_nat (length (freed e));
}.

Lemma elem_of_pages p e a : pool_ok p e -> a ∈ pages e <-> page e a.
Proof.
  intros He. unfold pages, page. rewrite (po_mem _ _ He). destruct (po_addr _ _ He) as (_ & [q Eq] & _). destruct (po_free _ _ He) as [Hf [f Ef]].
  assert (En : (freePtr_ e - p) / 4096 = f - q) by (rewrite Ef, Eq; replace (f * 4096 - q * 4096) with ((f - q) * 4096) by lia; by apply Z.div_mul).
  rewrite En, list_elem_of_fmap. setoid_rewrite elem_of_seqZ. split.
  - intros (i & -> & Hi). split; [lia|]. exists i. lia.
  - intros [Ha [i Ei]]. exists i. lia.
Qed.

Lemma pages_NoDup e : NoDup (pages e).
Proof. unfold pages. apply NoDup_fmap_2; [intros x y; lia|]. apply NoDup_seqZ. Qed.

Lemma page_bounds p e a :
  pool_ok p e -> page e a -> 0 < a /\ (4096 | a) /\ p + 4096 <= a /\ a + 4096 <= freePtr_ e /\ a + 4096 <= p + size_ e /\ a + 4096 < 2 ^ 64.
Proof.
  intros He [Ha [i Ei]]. rewrite (po_mem _ _ He) in *. destruct (po_addr _ _ He) as (H0 & [q Eq] & Hl). destruct (po_free _ _ He) as [Hf [f Ef]].
  pose proof (po_size _ _ He). split_and!; try lia. exists (i + q). lia.
Qed.

Lemma page_high p e a : pool_ok p e -> page e a -> a + 4096 + MIN_POOL_SIZE <= 2 ^ 64.
Proof. intros He Ha. pose proof (page_bounds p e a He Ha). destruct (po_addr _ _ He) as (_ & _ & ?). pose proof (po_size _ _ He). lia. Qed.

Lemma page_chunk p e a : pool_ok p e -> page e a -> Bitmap.is_chunk CHUNK (freedRunslotsBitmap_ e) a.
Proof.
  intros He Ha. pose proof (page_bounds p e a He Ha). destruct Ha as [Ha Hd]. rewrite (po_mem _ _ He) in *. unfold Bitmap.is_chunk.
  rewrite (Bitmap.mw_end _ _ (po_bits _ _ He)), (po_begin _ _ He), (po_bitsize _ _ He). split; [|done].
  pose proof (po_size _ _ He) as Hs. unfold MIN_POOL_SIZE, CHUNK in *. lia.
Qed.

Lemma elem_of_freed p e a : pool_ok p e -> a ∈ freed e <-> page e a /\ marked (freedRunslotsBitmap_ e) a = true.
Proof. intros He. unfold freed. rewrite list_elem_of_In, filter_In, <- list_elem_of_In, (elem_of_pages p e a He). done. Qed.

Lemma freed_bound p e : pool_ok p e -> (length (freed e) <= 1024)%nat.
Proof.
  intros He. etrans; [apply List.filter_length_le|]. unfold pages. rewrite length_fmap, length_seqZ, (po_mem _ _ He).
  destruct (po_free _ _ He) as [Hf _]. pose proof (po_size _ _ He) as Hs. unfold MIN_POOL_SIZE in Hs.
  assert ((freePtr_ e - p) / 4096 <= 1024) by (apply Z.div_le_upper_bound; lia). lia.
Qed.

Section Pools.
Context `{Layout}.

Lemma GetFirst_spec p : 0 <= p -> (4096 | p) -> p + 4096 < 2 ^ 64 -> GetFirstRunSlotsBlock p = p.
Proof.
  intros H0 [q Eq] Hp. unfold GetFirstRunSlotsBlock. change (Z.shiftl 1 RUNSLOTS_ALIGNMENT) with (2 ^ 12).
  destruct (Bitmap.AlignUp_bounds 12 p) as [Hb [c Ec]]; [lia..|]. change (2 ^ 12) with 4096 in *. lia.
Qed.

Lemma first_page p e : pool_ok p e -> GetFirstRunSlotsBlock (startMem_ e) = p + 4096.
Proof.
  intros He. destruct (po_addr _ _ He) as (H0 & [q Eq] & Hl). rewrite (po_start _ _ He). unfold MIN_POOL_SIZE in Hl.
  apply GetFirst_spec; [lia| |lia]. exists (q + 1). lia.
Qed.

(** A pool has room when it has an unused page at its end or one that was given back. *)
Definition room (e : PoolListElement) : Prop := freePtr_ e + 4096 <= poolMem_ e + size_ e \/ freed e <> [].

Lemma HasMemory_room p e : pool_ok p e -> HasMemoryForRunSlots e = true <-> room e.
Proof.
  intros He. unfold HasMemoryForRunSlots, IsInitialized, room. destruct (po_addr _ _ He) as (H0 & _ & Hl).
  destruct (po_free _ _ He) as [Hf _]. pose proof (po_size _ _ He) as Hs. rewrite (po_start _ _ He), (po_count _ _ He), (po_mem _ _ He).
  unfold MIN_POOL_SIZE, RUNSLOTS_SIZE in *. rewrite bool_decide_false by lia. rewrite !wrapu_id by (unfold in_u; lia). cbn [negb andb].
  rewrite orb_true_iff, Z.leb_le, Z.ltb_lt. destruct (freed e); cbn [length]; split; (intros [?|?]; [by left|]); try (right; lia || done); done || lia.
Qed.

Lemma new_pool_ok p size prev :
  0 < p -> (4096 | p) -> p + 2 * MIN_POOL_SIZE <= 2 ^ 64 -> 3 * 4096 <= size <= MIN_POOL_SIZE ->
  let e := Initialize_pool new_PoolListElement p (Bitmap.AlignUp (u64 (p + pool_header_size)) RUNSLOTS_SIZE) size prev in
  pool_ok p e /\ (forall a, ~ page e a) /\ nextPool_ e = 0 /\ prevPool_ e = prev /\ size_ e = size /\ freePtr_ e = p + 4096.
Proof.
  intros H0 Hd Hl Hs e. pose proof pool_header_size_ok as Hh. unfold MIN_POOL_SIZE in *.
  assert (Ea : Bitmap.AlignUp (u64 (p + pool_header_size)) RUNSLOTS_SIZE = p + 4096).
  { rewrite wrapu_id by (unfold in_u; lia). change RUNSLOTS_SIZE with (2 ^ 12).
    destruct (Bitmap.AlignUp_bounds 12 (p + pool_header_size)) as [Hb [c Ec]]; [lia..|]. change (2 ^ 12) with 4096 in *. destruct Hd as [q Eq]. lia. }
  subst e. unfold Initialize_pool. rewrite Ea. rewrite GetFirst_spec by (lia || (destruct Hd as [q Eq]; exists (q + 1); lia)).
  assert (Hwf : Bitmap.wf (Bitmap.bits_ new_bitmap)) by (split; [apply Forall_replicate; unfold in_u; lia|by vm_compute|by vm_compute]).
  destruct (Bitmap.ReInitialize_spec CHUNK ltac:(done) new_bitmap p Hwf) as (Hw & Hb & He & Hn & Hbits); [lia|change (Bitmap.bitsize_ (Bitmap.bits_ new_bitmap)) with 1024; unfold CHUNK; lia|].
  assert (Hnone : forall a, ~ page (mkPool p (p + 4096) (p + 4096) size 0 prev 0 (Bitmap.ReInitializeMemoryRange CHUNK new_bitmap p)) a).
  { intros a [? _]. cbn [poolMem_ freePtr_] in *. lia. }
  split; [split|]; cbn [poolMem_ startMem_ freePtr_ size_ nextPool_ prevPool_ freededRunslotsCount_ freedRunslotsBitmap_ new_PoolListElement]; try done.
  - split; [lia|]. destruct Hd as [q Eq]. exists (q + 1). lia.
  - intros a _ Hm. unfold Bitmap.marked in Hm. by rewrite Hbits in Hm.
  - unfold freed, pages. cbn [poolMem_ freePtr_ freedRunslotsBitmap_]. replace ((p + 4096 - p) / 4096 - 1) with 0; [done|].
    replace (p + 4096 - p) with (1 * 4096) by lia. by rewrite Z.div_mul.
Qed.

(** ** A page is taken or given back *)
Definition with_bitmap (e : PoolListElement) (bm : Bitmap.MemBitmap) (n : Z) : PoolListElement :=
  {| e with freedRunslotsBitmap_ := bm; freededRunslotsCount_ := n |}.

(** The bitmap marks [a] or not, and is as before elsewhere. *)
Lemma remarked_ok p e a bm (b : bool) n :
  pool_ok p e -> page e a -> marked (freedRunslotsBitmap_ e) a = negb b ->
  Bitmap.remarked CHUNK (freedRunslotsBitmap_ e) bm (fun a' => if a' =? a then b else marked (freedRunslotsBitmap_ e) a') ->
  n = freededRunslotsCount_ e + (if b then 1 else -1) ->
  let e' := with_bitmap e bm n in
  pool_ok p e' /\ (forall x, used e' x <-> if decide (x = a) then b = false else used e x) /\ (forall x, page e' x <-> page e x) /\
  (b = true -> freed e' <> []).
Proof.
  intros He Ha Hold (Hw & Hb & Hend & Hn & _ & Hm) En e'. assert (Hpage : forall x, page e' x <-> page e x) by done.
  assert (Hpg : forall x, page e x -> marked bm x = if x =? a then b else marked (freedRunslotsBitmap_ e) x).
  { intros x Hx. apply Hm. by apply (page_chunk p e). }
  assert (Hmarks : forall x, Bitmap.is_chunk CHUNK bm x -> marked bm x = true -> page e x).
  { intros x Hx Hmx. assert (Hx' : Bitmap.is_chunk CHUNK (freedRunslotsBitmap_ e) x) by (unfold Bitmap.is_chunk in *; by rewrite <- Hb, <- Hend).
    rewrite (Hm x Hx') in Hmx. destruct (Z.eqb_spec x a) as [->|]; [done|]. by apply (po_marks _ _ He). }
  assert (Hcount : Z.of_nat (length (freed e')) = n).
  { rewrite En, (po_count _ _ He). unfold freed. change (pages e') with (pages e). cbn [e' with_bitmap freedRunslotsBitmap_].
    assert (Hin : a ∈ pages e) by (by apply (elem_of_pages p)). assert (Hma : marked bm a = b) by (rewrite Hpg by done; by rewrite Z.eqb_refl).
    assert (Hother : forall x, x ∈ pages e -> x <> a -> marked bm x = marked (freedRunslotsBitmap_ e) x).
    { intros x Hx Hne. rewrite Hpg by (by apply (elem_of_pages p)). by apply Z.eqb_neq in Hne as ->. }
    destruct b; cbn [negb] in Hold.
    - rewrite (filter_toggle (marked (freedRunslotsBitmap_ e)) (marked bm) (pages e) a); [lia|apply pages_NoDup|done..].
    - rewrite (filter_toggle (marked bm) (marked (freedRunslotsBitmap_ e)) (pages e) a); [lia|apply pages_NoDup|done..|].
      intros x Hx Hne. symmetry. by apply Hother. }
  assert (Hok : pool_ok p e').
  { destruct He. split; cbn [e' with_bitmap poolMem_ startMem_ freePtr_ size_ freedRunslotsBitmap_ freededRunslotsCount_]; try done; congruence. }
  split_and!; [done| |done|].
  - intros x. unfold used. cbn [e' with_bitmap freedRunslotsBitmap_]. rewrite Hpage. split.
    + intros [Hx Hmx]. rewrite (Hpg x Hx) in Hmx. destruct (Z.eqb_spec x a) as [->|]; [by rewrite decide_True|by rewrite decide_False].
    + destruct (decide (x = a)) as [->|Hne].
      * intros ->. split; [done|]. rewrite Hpg by done. by rewrite Z.eqb_refl.
      * intros [Hx Hmx]. split; [done|]. rewrite Hpg by done. by apply Z.eqb_neq in Hne as ->.
  - intros -> E. rewrite E in Hcount. cbn in Hcount. pose proof (po_count _ _ He). lia.
Qed.

(** The first page that was never handed out. *)
Lemma bump_ok p e :
  pool_ok p e -> freePtr_ e + 4096 <= p + size_ e -> let e' := {| e with freePtr_ := freePtr_ e + 4096 |} in
  pool_ok p e' /\ page e' (freePtr_ e) /\ ~ page e (freePtr_ e) /\ (forall x, used e' x <-> x = freePtr_ e \/ used e x) /\ freed e' = freed e.
Proof.
  intros He Hle e'. destruct (po_addr _ _ He) as (H0 & [q Eq] & Hl). destruct (po_free _ _ He) as [Hf [f Ef]]. pose proof (po_size _ _ He) as Hs.
  assert (Hnew : page e' (freePtr_ e)).
  { split; cbn [e' poolMem_ freePtr_]; rewrite (po_mem _ _ He); [lia|]. exists (f - q). lia. }
  assert (Hnot : ~ page e (freePtr_ e)) by (intros [? _]; lia).
  assert (Hpage : forall x, page e' x <-> x = freePtr_ e \/ page e x).
  { intros x. unfold page. cbn [e' poolMem_ freePtr_]. rewrite (po_mem _ _ He). split.
    - intros [Hx [i Ei]]. destruct (Z.lt_ge_cases x (freePtr_ e)); [right; split; [lia|by exists i]|left; lia].
    - intros [->|[Hx Hd]]; [destruct Hnew as [H1 H2]; cbn [e' poolMem_ freePtr_] in *; by rewrite (po_mem _ _ He) in *|split; [lia|done]]. }
  assert (Hun : marked (freedRunslotsBitmap_ e) (freePtr_ e) = false).
  { destruct (marked (freedRunslotsBitmap_ e) (freePtr_ e)) eqn:E; [|done]. exfalso. apply Hnot, (po_marks _ _ He); [|done].
    unfold Bitmap.is_chunk. rewrite (Bitmap.mw_end _ _ (po_bits _ _ He)), (po_begin _ _ He), (po_bitsize _ _ He). unfold CHUNK, MIN_POOL_SIZE in *.
    split; [lia|]. exists (f - q). lia. }
  assert (Hfreed : freed e' = freed e).
  { unfold freed, pages. cbn [e' poolMem_ freePtr_ freedRunslotsBitmap_]. rewrite (po_mem _ _ He).
    assert (En : (freePtr_ e - p) / 4096 = f - q) by (rewrite Ef, Eq; replace (f * 4096 - q * 4096) with ((f - q) * 4096) by lia; by apply Z.div_mul).
    replace ((freePtr_ e + 4096 - p) / 4096) with (f - q + 1).
    2: { rewrite Ef, Eq. replace (f * 4096 + 4096 - q * 4096) with ((f - q + 1) * 4096) by lia. by rewrite Z.div_mul. }
    rewrite En. replace (f - q + 1 - 1) with ((f - q - 1) + 1) by lia. rewrite seqZ_app, fmap_app, List.filter_app by lia.
    change (seqZ (1 + (f - q - 1)) 1) with [1 + (f - q - 1)]. cbn [fmap list_fmap List.filter].
    replace (p + 4096 * (1 + (f - q - 1))) with (freePtr_ e) by lia. by rewrite Hun, app_nil_r. }
  split_and!; [|done|done| |done].
  - destruct He. split; cbn [e' poolMem_ startMem_ freePtr_ size_ freedRunslotsBitmap_ freededRunslotsCount_]; try done.
    + split; [lia|]. exists (f + 1). lia.
    + intros a Hc Hm. apply Hpage. right. auto.
    + by rewrite po_count0, <- Hfreed.
  - intros x. unfold used. rewrite Hpage. change (freedRunslotsBitmap_ e') with (freedRunslotsBitmap_ e). split; [tauto|].
    intros [->|[? ?]]; [by split; [left|]|by split; [right|]].
Qed.

(** ** The operations of a pool *)
Definition with_pools (s : State) (m : gmap Z PoolListElement) : State := {| s with pools := m |}.

Lemma pool_at_eq a e s : pools s !! a = Some e -> pool_at a s = Done (s, e).
Proof. intros E. cbv [pool_at get lift lookup_in mbind M_bind]. by rewrite E. Qed.

Lemma update_pool_eq a e f s : pools s !! a = Some e -> update_pool a f s = Done (with_pools s (<[a := f e]> (pools s)), tt).
Proof. intros E. unfold update_pool. erewrite bind_M by (by apply pool_at_eq). done. Qed.

Lemma lift_eq {A} (o : outcome A) a s : o = Done a -> lift o s = Done (s, a).
Proof. by intros ->. Qed.

Definition same_place (e e' : PoolListElement) : Prop := size_ e' = size_ e /\ nextPool_ e' = nextPool_ e /\ prevPool_ e' = prevPool_ e.

Lemma remarked_ext m m' f g : (forall a, f a = g a) -> Bitmap.remarked CHUNK m m' f -> Bitmap.remarked CHUNK m m' g.
Proof. intros E (? & ? & ? & ? & ? & Hm). split_and!; try done. intros a Ha. rewrite <- E. by apply Hm. Qed.

Lemma freed_nil p e : pool_ok p e -> freed e = [] <-> forall a, Bitmap.is_chunk CHUNK (freedRunslotsBitmap_ e) a -> marked (freedRunslotsBitmap_ e) a = false.
Proof.
  intros He. split.
  - intros E a Ha. destruct (marked (freedRunslotsBitmap_ e) a) eqn:Em; [|done]. exfalso. apply (not_elem_of_nil a). rewrite <- E.
    apply (elem_of_freed p e a He). split; [by apply (po_marks _ _ He)|done].
  - intros Hn. destruct (freed e) as [|a l] eqn:E; [done|]. exfalso. assert (Ha : a ∈ freed e) by (rewrite E; constructor).
    apply (elem_of_freed p e a He) in Ha as [Hp Hm]. rewrite Hn in Hm; [done|]. by apply (page_chunk p).
Qed.

(** A pool with room hands out a page that was not in use, with a new run in it. *)
Lemma GetMemoryForRunSlots_spec s p e slotsSize :
  pools s !! p = Some e -> pool_ok p e -> room e ->
  exists run e', GetMemoryForRunSlots p slotsSize s =
      Done (with_pools (with_runs s (<[run := Initialize slotsSize p]> (runs s))) (<[p := e']> (pools s)), run) /\
    pool_ok p e' /\ page e' run /\ ~ used e run /\ (forall a, used e' a <-> a = run \/ used e a) /\ same_place e e' /\
    (freePtr_ e + 2 * 4096 <= p + size_ e -> room e').
Proof.
  intros E He Hroom. unfold GetMemoryForRunSlots. erewrite bind_M by (by apply pool_at_eq). rewrite (proj2 (HasMemory_room p e He) Hroom).
  unfold GetFreedRunSlots. destruct (Bitmap.FindFirstMarkedChunks_spec CHUNK ltac:(done) (freedRunslotsBitmap_ e)) as [[Ef Hnone]|(a & Ef & Hc & Hm & _)];
    [apply He|rewrite (po_bitsize _ _ He); lia| |].
  - assert (Hnil : freed e = []) by (by apply (freed_nil p)). destruct Hroom as [Hr|]; [|done]. rewrite (po_mem _ _ He) in Hr.
    erewrite bind_M; cycle 1. { erewrite bind_M by (by apply pool_at_eq). erewrite bind_M by (by apply lift_eq). reflexivity. }
    rewrite bool_decide_true by done. erewrite bind_M by (by apply pool_at_eq).
    destruct (bump_ok p e He Hr) as (Hok & Hp & Hnp & Hu & _). pose proof (page_bounds p _ _ Hok Hp) as (H0 & _ & _ & _ & _ & Hlt).
    erewrite bind_M by reflexivity. erewrite bind_M by reflexivity. rewrite (wrapu_id 64) by (unfold in_u, RUNSLOTS_SIZE; lia).
    eexists _, _. split; [reflexivity|]. split_and!; try done; [by intros [? _]|]. intros ?. left. cbn [freePtr_ poolMem_ size_].
    rewrite (po_mem _ _ He). unfold RUNSLOTS_SIZE. lia.
  - assert (Hfr : a ∈ freed e) by (apply (elem_of_freed p e a He); split; [by apply (po_marks _ _ He)|done]).
    assert (Hp : page e a) by (by apply (elem_of_freed p e a He) in Hfr as [? _]).
    destruct (Bitmap.AtomicTestAndClear_spec CHUNK ltac:(done) (freedRunslotsBitmap_ e) a) as (bm & Ea & Hre); [apply He|done|].
    erewrite bind_M; cycle 1.
    { erewrite bind_M by (by apply pool_at_eq). erewrite bind_M by (by apply lift_eq). cbv beta iota. erewrite bind_M by reflexivity.
      erewrite bind_M by (by apply lift_eq). reflexivity. }
    cbn [put]. pose proof (page_bounds p _ _ He Hp) as (H0 & _). rewrite bool_decide_false by lia.
    pose proof (freed_bound p e He) as Hfb. assert (0 < length (freed e))%nat by (destruct (freed e); [by apply not_elem_of_nil in Hfr|cbn; lia]).
    destruct (remarked_ok p e a bm false (u64 (freededRunslotsCount_ e - 1)) He Hp) as (Hok & Hu & _).
    { by rewrite Hm. }
    { eapply remarked_ext; [|exact Hre]. intros x. cbn. by destruct (Z.eqb_spec x a). }
    { rewrite (po_count _ _ He), wrapu_id by (unfold in_u; lia). lia. }
    eexists a, _. split; [reflexivity|]. split_and!; try done.
    + intros [_ ?]. congruence.
    + intros x. rewrite Hu. destruct (decide (x = a)) as [->|]; [tauto|]. split; [by right|]. by intros [|].
    + intros ?. left. cbn [freePtr_ poolMem_ size_]. rewrite (po_mem _ _ He). lia.
Qed.

Lemma AddFreedRunSlots_spec s p e a :
  pools s !! p = Some e -> pool_ok p e -> used e a ->
  exists e', AddFreedRunSlots p a s = Done (with_pools s (<[p := e']> (pools s)), tt) /\ pool_ok p e' /\ room e' /\
    (forall x, used e' x <-> x <> a /\ used e x) /\ same_place e e'.
Proof.
  intros E He [Hp Hm]. unfold AddFreedRunSlots. erewrite bind_M by (by apply pool_at_eq).
  destruct (Bitmap.AtomicTestAndSet_spec CHUNK ltac:(done) (freedRunslotsBitmap_ e) a) as (bm & Ea & Hre); [apply He|by apply (page_chunk p)|].
  erewrite bind_M by (by apply lift_eq). pose proof (freed_bound p e He).
  destruct (remarked_ok p e a bm true (u64 (freededRunslotsCount_ e + 1)) He Hp) as (Hok & Hu & _ & Hfr).
  { by rewrite Hm. }
  { eapply remarked_ext; [|exact Hre]. intros x. cbn. by destruct (Z.eqb_spec x a). }
  { rewrite (po_count _ _ He), wrapu_id by (unfold in_u; lia). lia. }
  eexists. split; [reflexivity|]. split_and!; try done; [right; by apply Hfr|]. intros x. rewrite Hu. destruct (decide (x = a)); naive_solver.
Qed.

(** The page of an address. *)
Lemma runslotsAddr_spec a : 0 <= a -> runslotsAddr a <= a < runslotsAddr a + 4096 /\ (4096 | runslotsAddr a).
Proof.
  intros Ha. unfold runslotsAddr. rewrite Z.shiftl_mul_pow2, Z.shiftr_div_pow2 by (unfold RUNSLOTS_ALIGNMENT; lia).
  change (2 ^ RUNSLOTS_ALIGNMENT) with 4096. pose proof (Z.div_mod a 4096 ltac:(lia)). pose proof (Z.mod_pos_bound a 4096 ltac:(lia)).
  split; [lia|]. by exists (a / 4096).
Qed.

Lemma runslotsAddr_eq a q : (4096 | q) -> q <= a < q + 4096 -> 0 <= a -> runslotsAddr a = q.
Proof. intros [c Ec] Hq Ha. destruct (runslotsAddr_spec a Ha) as [H1 [d Ed]]. lia. Qed.

Lemma IsInUsedMemory_spec p e a :
  pool_ok p e -> in_u 64 a -> exists b, IsInUsedMemory e a = Done b /\ (b = true <-> used e (runslotsAddr a)).
Proof.
  intros He Ha. unfold IsInUsedMemory, IsInFreedRunSlots. rewrite (first_page p e He). destruct (runslotsAddr_spec a) as [Hr Hd]; [apply Ha|].
  destruct (po_addr _ _ He) as (H0 & [q Eq] & Hl). destruct (po_free _ _ He) as [Hf [f Ef]].
  assert (Hpage : page e (runslotsAddr a) <-> p + 4096 <= a < freePtr_ e).
  { unfold page. rewrite (po_mem _ _ He). destruct Hd as [d Ed]. split; [intros [? _]; lia|]. intros Hb. split; [lia|]. exists (d - q). lia. }
  destruct ((a <? freePtr_ e) && (p + 4096 <=? a)) eqn:Eb.
  - apply andb_true_iff in Eb as [?%Z.ltb_lt ?%Z.leb_le]. assert (Hp : page e (runslotsAddr a)) by (apply Hpage; lia).
    destruct (Bitmap.TestIfAddrValid_spec CHUNK ltac:(done) (freedRunslotsBitmap_ e) (runslotsAddr a)) as [[Hc Et]|[Hc _]]; [apply He|unfold in_u in *; lia| |].
    + cbv [mbind outcome_bind]. rewrite Et. eexists. split; [reflexivity|]. rewrite negb_true_iff. unfold used. tauto.
    + exfalso. apply Hc. by apply (page_chunk p).
  - exists false. split; [done|]. split; [done|]. intros [Hp _]. apply Hpage in Hp. apply andb_false_iff in Eb as [?%Z.ltb_ge|?%Z.leb_gt]; lia.
Qed.

Lemma HasUsedMemory_loop_spec p e fuel a :
  pool_ok p e -> p + 4096 <= a <= freePtr_ e -> (4096 | a - p) -> (freePtr_ e - a) / 4096 < Z.of_nat fuel ->
  (forall x, page e x -> x < a -> marked (freedRunslotsBitmap_ e) x = true) ->
  exists b, HasUsedMemory_loop fuel e a = Done b /\ if (b : bool) then exists x, used e x else forall x, ~ used e x.
Proof.
  intros He. revert a. induction fuel as [|fuel IH]; intros a Ha Hd Hfuel Hbelow; [assert (0 <= (freePtr_ e - a) / 4096) by (apply Z.div_pos; lia); lia|].
  destruct (po_free _ _ He) as [Hf [f Ef]]. destruct (po_addr _ _ He) as (H0 & [q Eq] & Hl). pose proof (po_size _ _ He).
  cbn [HasUsedMemory_loop]. destruct (Z.ltb_spec a (freePtr_ e)) as [Hlt|Hge].
  - assert (Hp : page e a) by (split; rewrite (po_mem _ _ He); [lia|done]).
    rewrite (Bitmap.AtomicTest_spec CHUNK ltac:(done)) by (apply He || by apply (page_chunk p)). cbv [mbind outcome_bind].
    destruct (marked (freedRunslotsBitmap_ e) a) eqn:Em; cbn [negb].
    + rewrite wrapu_id by (unfold in_u, RUNSLOTS_SIZE, MIN_POOL_SIZE in *; lia). unfold RUNSLOTS_SIZE. destruct Hd as [d Ed]. apply IH.
      * split; [lia|]. lia.
      * exists (d + 1). lia.
      * replace (freePtr_ e - (a + 4096)) with (freePtr_ e - a + (-1) * 4096) by lia. rewrite Z.div_add by lia. lia.
      * intros x Hx Hxa. destruct (Z.lt_ge_cases x a); [by apply Hbelow|]. destruct Hx as [_ [i Ei]]. rewrite (po_mem _ _ He) in Ei.
        replace x with a by lia. done.
    + exists true. split; [done|]. by exists a.
  - exists false. split; [done|]. intros x [Hx Hm]. rewrite Hbelow in Hm; [done|done|]. destruct Hx as [? _]. lia.
Qed.

Lemma HasUsedMemory_spec p e : pool_ok p e -> exists b, HasUsedMemory e = Done b /\ if (b : bool) then exists x, used e x else forall x, ~ used e x.
Proof.
  intros He. unfold HasUsedMemory. rewrite (first_page p e He). destruct (po_free _ _ He) as [Hf _]. pose proof (po_size _ _ He).
  apply (HasUsedMemory_loop_spec p); [done|lia|exists 1; lia| |].
  - unfold runs_fuel, RUNSLOTS_SIZE. assert ((freePtr_ e - (p + 4096)) / 4096 <= size_ e / 4096) by (apply Z.div_le_mono; lia).
    assert (0 <= size_ e / 4096) by (apply Z.div_pos; lia). lia.
  - intros x [Hx _] Hlt. rewrite (po_mem _ _ He) in Hx. lia.
Qed.
End Pools.
