(* ===== verification/RunSlotsManager.v ===== *)
(** The manager of the pools: its two lists, and what its operations do to them. *)
From S2P Require Import Prelude Leb128 GcBitmap RunSlots RunSlotsAllocator MemLists RunSlotsLists RunSlotsPools.
From stdpp Require Import gmap functions list.
Local Open Scope Z_scope.
Local Open Scope ark_scope.

Abbreviation pnext := (next nextPool_).
Abbreviation pprev := (prev prevPool_).
Abbreviation pdll := (dll nextPool_ prevPool_).

(** All but the links. *)
Definition same_core (e e' : PoolListElement) : Prop :=
  poolMem_ e' = poolMem_ e /\ startMem_ e' = startMem_ e /\ freePtr_ e' = freePtr_ e /\ size_ e' = size_ e /\
  freededRunslotsCount_ e' = freededRunslotsCount_ e /\ freedRunslotsBitmap_ e' = freedRunslotsBitmap_ e.
Definition same_cores (m m' : gmap Z PoolListElement) : Prop := forall q, option_Forall2 same_core (m !! q) (m' !! q).

#[export] Instance same_core_equiv : Equivalence same_core.
Proof.
  split; [done|intros e e' (? & ? & ? & ? & ? & ?); split_and!; done|].
  intros e1 e2 e3 (? & ? & ? & ? & ? & ?) (? & ? & ? & ? & ? & ?). split_and!; congruence.
Qed.

#[export] Instance same_cores_preorder : PreOrder same_cores.
Proof.
  split; [intros m q; destruct (m !! q); by constructor|]. intros m1 m2 m3 H1 H2 q. specialize (H1 q). specialize (H2 q).
  destruct H1; inversion H2; constructor; by etrans.
Qed.

Lemma page_core e e' a : same_core e e' -> page e' a <-> page e a.
Proof. intros (E1 & _ & E3 & _). unfold page. by rewrite E1, E3. Qed.

Lemma used_core e e' a : same_core e e' -> used e' a <-> used e a.
Proof. intros Hc. unfold used. rewrite (page_core e e' a Hc). destruct Hc as (_ & _ & _ & _ & _ & ->). done. Qed.

Lemma freed_core e e' : same_core e e' -> freed e' = freed e.
Proof. intros (E1 & _ & E3 & _ & _ & E6). unfold freed, pages. by rewrite E1, E3, E6. Qed.

Lemma room_core e e' : same_core e e' -> room e' <-> room e.
Proof. intros Hc. unfold room. rewrite (freed_core e e' Hc). destruct Hc as (-> & _ & -> & -> & _). done. Qed.

Lemma pool_ok_core p e e' : same_core e e' -> pool_ok p e -> pool_ok p e'.
Proof.
  intros Hc []. pose proof (freed_core e e' Hc) as Ef. pose proof (fun a => page_core e e' a Hc) as Hp. destruct Hc as (E1 & E2 & E3 & E4 & E5 & E6).
  split; rewrite ?E1, ?E2, ?E3, ?E4, ?E5, ?E6, ?Ef; try done. intros a Ha Hm. apply Hp. auto.
Qed.

Lemma same_cores_insert m q e e' : m !! q = Some e -> same_core e e' -> same_cores m (<[q := e']> m).
Proof.
  intros E Hc a. destruct (decide (a = q)) as [->|]; [rewrite E, lookup_insert_eq; by constructor|].
  rewrite lookup_insert_ne by done. destruct (m !! a); by constructor.
Qed.

Lemma same_cores_lookup m m' q e : same_cores m m' -> m !! q = Some e -> exists e', m' !! q = Some e' /\ same_core e e'.
Proof. intros Hc E. specialize (Hc q). rewrite E in Hc. inversion Hc; subst. eauto. Qed.

Lemma same_cores_lookup_rev m m' q f : same_cores m m' -> m' !! q = Some f -> exists e, m !! q = Some e /\ same_core e f.
Proof. intros Hc E. specialize (Hc q). rewrite E in Hc. inversion Hc; subst. eauto. Qed.

Lemma same_cores_dom m m' q : same_cores m m' -> is_Some (m !! q) -> is_Some (m' !! q).
Proof. intros Hc [e E]. destruct (same_cores_lookup m m' q e Hc E) as (e' & -> & _). eauto. Qed.

(** ** Unlinking and appending *)
Lemma with_pools_twice s m m' : with_pools (with_pools s m) m' = with_pools s m'.
Proof. done. Qed.

Lemma PopPoolFromList_spec s l1 p l2 :
  pdll (pools s) (l1 ++ p :: l2) ->
  exists m', PopPoolFromList p s = Done (with_pools s m', tt) /\ pdll m' (l1 ++ l2) /\ same_cores (pools s) m' /\
    pnext m' p = 0 /\ pprev m' p = 0 /\ forall q, q ∉ l1 ++ p :: l2 -> m' !! q = pools s !! q.
Proof.
  intros Hd. destruct (dll_dom _ _ _ _ Hd p ltac:(set_solver)) as [e E]. destruct (dll_links _ _ _ _ Hd l1 p l2 eq_refl) as [Hp Hn].
  rewrite (next_some _ _ _ _ E) in Hn. rewrite (prev_some _ _ _ _ E) in Hp. pose proof (dll_null _ _ _ _ Hd) as H0.
  pose proof (dll_nodup _ _ _ _ Hd) as (Hn1 & Hn12 & [Hx2 Hn2]%NoDup_cons)%NoDup_app. assert (Hx1 : p ∉ l1) by set_solver.
  unfold PopPoolFromList. erewrite bind_M by (by apply pool_at_eq). rewrite Hp, Hn. set (b := lastz l1). set (n := headz l2).
  assert (Hnext : n <> 0 -> n ∈ l2) by (intros Hne; apply headz_in; intros ->; done).
  assert (Hprev : b <> 0 -> b ∈ l1) by (intros Hne; apply lastz_in; intros ->; done).
  (* the neighbour behind *)
  assert (H1 : exists m1, (if n != 0 then update_pool n (fun n => {| n with prevPool_ := b |}) else mret tt) s = Done (with_pools s m1, tt) /\
            same_cores (pools s) m1 /\ (forall q, pnext m1 q = pnext (pools s) q) /\
            (forall q, pprev m1 q = if decide (q = n /\ n <> 0) then b else pprev (pools s) q) /\ forall q, ~ (q = n /\ n <> 0) -> m1 !! q = pools s !! q).
  { destruct (decide (n = 0)) as [En|Hne].
    - exists (pools s). rewrite bool_decide_true by done. split; [by destruct s|]. split_and!; try done. intros q. by rewrite decide_False by tauto.
    - destruct (dll_dom _ _ _ _ Hd n ltac:(set_solver)) as [en Een]. rewrite bool_decide_false by done. eexists.
      split; [by apply update_pool_eq|]. split_and!; [by eapply same_cores_insert| | |].
      + intros q. rewrite next_insert. case_decide as Eq; [|done]. rewrite Eq. by rewrite (next_some _ _ _ _ Een).
      + intros q. rewrite prev_insert. destruct (decide (q = n)); [by rewrite decide_True|by rewrite decide_False by tauto].
      + intros q Hq. rewrite lookup_insert_ne; [done|]. intros Eq. apply Hq. by split. }
  destruct H1 as (m1 & E1 & Hc1 & Hn1' & Hp1 & Hs1). erewrite bind_M by exact E1. clear E1.
  (* the neighbour in front *)
  assert (H2 : exists m2, (if b != 0 then update_pool b (fun p => {| p with nextPool_ := n |}) else mret tt) (with_pools s m1) = Done (with_pools s m2, tt) /\
            same_cores m1 m2 /\ (forall q, pnext m2 q = if decide (q = b /\ b <> 0) then n else pnext m1 q) /\ (forall q, pprev m2 q = pprev m1 q) /\
            forall q, ~ (q = b /\ b <> 0) -> m2 !! q = m1 !! q).
  { destruct (decide (b = 0)) as [Eb|Hne].
    - exists m1. rewrite bool_decide_true by done. split; [done|]. split_and!; try done. intros q. by rewrite decide_False by tauto.
    - destruct (same_cores_dom (pools s) m1 b Hc1) as [eb Eeb]; [apply (dll_dom _ _ _ _ Hd); set_solver|]. rewrite bool_decide_false by done.
      eexists. split; [cbn [negb]; erewrite update_pool_eq by exact Eeb; by rewrite with_pools_twice|]. cbn [pools with_pools]. split_and!; [by eapply same_cores_insert| | |].
      + intros q. rewrite next_insert. destruct (decide (q = b)); [by rewrite decide_True|by rewrite decide_False by tauto].
      + intros q. rewrite prev_insert. destruct (decide (q = b)) as [Eq|]; [|reflexivity]. rewrite Eq. by rewrite (prev_some _ _ _ _ Eeb).
      + intros q Hq. rewrite lookup_insert_ne; [done|]. intros Eq. apply Hq. by split. }
  destruct H2 as (m2 & E2 & Hc2 & Hn2' & Hp2 & Hs2). erewrite bind_M by exact E2. clear E2.
  assert (Hpb : p <> b) by (intros ->; destruct (decide (b = 0)); set_solver). assert (Hpn : p <> n) by (intros ->; destruct (decide (n = 0)); set_solver).
  assert (Ep : m2 !! p = Some e) by (rewrite Hs2, Hs1; [done|tauto|tauto]).
  erewrite update_pool_eq by (cbn [pools with_pools]; exact Ep). cbn [pools with_pools]. eexists. split; [reflexivity|].
  set (m' := <[p := _]> m2).
  assert (Hcore : same_cores (pools s) m') by (etrans; [exact Hc1|]; etrans; [exact Hc2|]; by eapply same_cores_insert).
  split_and!; [|done|unfold m'; by rewrite next_insert, decide_True|unfold m'; by rewrite prev_insert, decide_True|].
  - apply (dll_remove _ _ (pools s) _ l1 p l2); [done| | |].
    + intros a Ha. eapply same_cores_dom; [exact Hcore|]. apply (dll_dom _ _ _ _ Hd). set_solver.
    + intros a Ha. fold b n. unfold m'. rewrite next_insert, decide_False, Hn2', Hn1' by set_solver.
      assert (a <> 0) by set_solver.
      destruct (decide (a = b)); [by rewrite decide_True by (split; congruence)|by rewrite decide_False by tauto].
    + intros a Ha. fold b n. unfold m'. rewrite prev_insert, decide_False, Hp2, Hp1 by set_solver.
      assert (a <> 0) by set_solver.
      destruct (decide (a = n)); [by rewrite decide_True by (split; congruence)|by rewrite decide_False by tauto].
  - intros q (Hq1 & Hq)%not_elem_of_app. apply not_elem_of_cons in Hq as [Hqp Hq2]. unfold m'.
    rewrite lookup_insert_ne, Hs2, Hs1; [done| | |congruence]; intros [-> ?]; auto.
Qed.

(** [p] is put behind the last element. *)
Definition append (m : gmap Z PoolListElement) (t p : Z) : gmap Z PoolListElement :=
  if decide (t = 0) then m else alter (fun e => {| e with nextPool_ := p |}) t m.

Lemma append_ok m l p e :
  pdll m l -> p ∉ l -> p <> 0 -> m !! p = Some e -> nextPool_ e = 0 -> prevPool_ e = lastz l ->
  pdll (append m (lastz l) p) (l ++ [p]) /\ same_cores m (append m (lastz l) p) /\ forall q, q ∉ l -> append m (lastz l) p !! q = m !! q.
Proof.
  intros Hd Hp Hp0 E Hn Hpr. unfold append. destruct (decide (l = [])) as [->|Hl].
  - rewrite decide_True by done. split; [|done]. split; [apply NoDup_singleton|set_solver|intros a ->%list_elem_of_singleton; by eexists|].
    intros [|b [|? ?]] a l2 El; simplify_eq/=. by rewrite (next_some _ _ _ _ E), (prev_some _ _ _ _ E).
  - set (t := lastz l). assert (Ht : t ∈ l) by (by apply lastz_in). assert (Ht0 : t <> 0) by (intros Et; apply (dll_null _ _ _ _ Hd); by rewrite <- Et).
    destruct (dll_dom _ _ _ _ Hd t Ht) as [et Et]. rewrite decide_False by done.
    assert (Ealt : alter (fun e => {| e with nextPool_ := p |}) t m = <[t := {| et with nextPool_ := p |}]> m).
    { apply map_eq. intros i. destruct (decide (i = t)) as [->|]; [by rewrite lookup_alter_eq, lookup_insert_eq, Et|by rewrite lookup_alter_ne, lookup_insert_ne]. }
    rewrite Ealt. split_and!; [|by eapply same_cores_insert|intros q Hq; rewrite lookup_insert_ne; [done|intros ->; done]].
    assert (Hpt : p <> t) by (intros ->; done). eapply (dll_push _ _ m); [done|done|done| | | | |].
    + intros a [Ha| ->%list_elem_of_singleton]%elem_of_app; rewrite lookup_insert_is_Some'; right; [by apply (dll_dom _ _ _ _ Hd)|by eexists].
    + intros a Ha. fold t. rewrite next_insert. by case_decide.
    + intros a Ha. rewrite prev_insert. case_decide as Ea; [|done]. rewrite Ea. by rewrite (prev_some _ _ _ _ Et).
    + fold t. rewrite prev_insert, decide_False by done. by rewrite (prev_some _ _ _ _ E).
    + rewrite next_insert, decide_False by done. by rewrite (next_some _ _ _ _ E).
Qed.

Lemma append_eq t p s :
  (t <> 0 -> is_Some (pools s !! t)) ->
  (if t != 0 then update_pool t (fun e => {| e with nextPool_ := p |}) else mret tt) s = Done (with_pools s (append (pools s) t p), tt).
Proof.
  intros Ht. unfold append. destruct (decide (t = 0)); [rewrite bool_decide_true by done; by destruct s|]. destruct (Ht n) as [e E].
  rewrite bool_decide_false by done. cbn [negb]. erewrite update_pool_eq by done. do 3 f_equal. apply map_eq. intros i.
  destruct (decide (i = t)) as [->|]; [by rewrite lookup_alter_eq, lookup_insert_eq, E|by rewrite lookup_alter_ne, lookup_insert_ne].
Qed.

(** ** The lists of the manager
    [full] are the pools without room for a run, [part] those with room and runs, [free] those without a run. *)
Record pools_ok (s : State) (full part free : list Z) : Prop := {
  pk_occ : pdll (pools s) (full ++ part);
  pk_free : pdll (pools s) free;
  pk_disj : forall p, p ∈ full ++ part -> p ∈ free -> False;
  pk_ok : forall p e, p ∈ full ++ part \/ p ∈ free -> pools s !! p = Some e -> pool_ok p e;
  pk_full : forall p e, p ∈ full -> pools s !! p = Some e -> ~ room e;
  pk_part : forall p e, p ∈ part -> pools s !! p = Some e -> room e;
  pk_none : forall p e, p ∈ free -> pools s !! p = Some e -> freePtr_ e = p + 4096;
  pk_manager : memoryPool_ s = mkManager (lastz free) (headz part) (lastz (full ++ part));
  pk_apart : forall p q e f, p ∈ full ++ part \/ p ∈ free -> q ∈ full ++ part \/ q ∈ free -> p <> q ->
    pools s !! p = Some e -> pools s !! q = Some f -> p + size_ e <= q \/ q + size_ f <= p;
}.

(** The pool at [p] has [n] bytes. *)
Definition extent (s : State) (l : list Z) (p n : Z) : Prop := p ∈ l /\ exists e, pools s !! p = Some e /\ size_ e = n.

Lemma extent_cores s s' l l' p n :
  same_cores (pools s) (pools s') -> (forall q, q ∈ l' <-> q ∈ l) -> extent s' l' p n <-> extent s l p n.
Proof.
  intros Hc Hl. unfold extent. rewrite Hl. split; intros (Hp & e & E & Hn); split; try done.
  - destruct (same_cores_lookup_rev _ _ p e Hc E) as (e0 & E0 & (_ & _ & _ & Es & _)). exists e0. split; [done|congruence].
  - destruct (same_cores_lookup _ _ p e Hc E) as (f & F & (_ & _ & _ & Es & _)). exists f. split; [done|congruence].
Qed.

Lemma extent_insert s s' l p e e' q n :
  pools s !! p = Some e -> size_ e' = size_ e -> pools s' = <[p := e']> (pools s) -> extent s' l q n <-> extent s l q n.
Proof.
  intros E Es Ep. unfold extent. rewrite Ep. destruct (decide (q = p)) as [->|]; [rewrite lookup_insert_eq, E|by rewrite lookup_insert_ne].
  split; intros (Hq & f & [= <-] & Hn); (split; [done|]); eexists; (split; [done|congruence]).
Qed.

(** The run at [a] is in use, in the pool [p]. *)
Definition owner (s : State) (occ : list Z) (p a : Z) : Prop := p ∈ occ /\ exists e, pools s !! p = Some e /\ used e a.

Lemma pk_some s full part free p : pools_ok s full part free -> p ∈ full ++ part \/ p ∈ free -> is_Some (pools s !! p).
Proof. intros Hk [Hp|Hp]; [apply (dll_dom _ _ _ _ (pk_occ _ _ _ _ Hk) p Hp)|apply (dll_dom _ _ _ _ (pk_free _ _ _ _ Hk) p Hp)]. Qed.

Lemma pk_null s full part free p : pools_ok s full part free -> p ∈ full ++ part \/ p ∈ free -> p <> 0.
Proof. intros Hk [Hp|Hp] ->; [apply (dll_null _ _ _ _ (pk_occ _ _ _ _ Hk) Hp)|apply (dll_null _ _ _ _ (pk_free _ _ _ _ Hk) Hp)]. Qed.

(** The pages of two pools do not overlap, and a page is in use in one pool at most. *)
Lemma owner_bounds s full part free p a :
  pools_ok s full part free -> owner s (full ++ part) p a -> 0 < a /\ (4096 | a) /\ p + 4096 <= a /\ a + 4096 < 2 ^ 64.
Proof.
  intros Hk (Hp & e & E & Hu). pose proof (pk_ok _ _ _ _ Hk p e (or_introl Hp) E) as He.
  pose proof (page_bounds p e a He (proj1 Hu)). tauto.
Qed.

Lemma owner_unique s full part free p q a :
  pools_ok s full part free -> owner s (full ++ part) p a -> owner s (full ++ part) q a -> p = q.
Proof.
  intros Hk (Hp & e & E & Hu) (Hq & f & F & Hv). destruct (decide (p = q)); [done|exfalso].
  pose proof (page_bounds p e a (pk_ok _ _ _ _ Hk p e (or_introl Hp) E) (proj1 Hu)).
  pose proof (page_bounds q f a (pk_ok _ _ _ _ Hk q f (or_introl Hq) F) (proj1 Hv)).
  destruct (pk_apart _ _ _ _ Hk p q e f); try by left. all: try done; lia.
Qed.

(** No header of a pool is in a page that is in use. *)
Lemma owner_pool s full part free p a q :
  pools_ok s full part free -> owner s (full ++ part) p a -> q ∈ full ++ part \/ q ∈ free -> ~ (a <= q < a + 4096).
Proof.
  intros Hk (Hp & e & E & Hu) Hq Hin. pose proof (page_bounds p e a (pk_ok _ _ _ _ Hk p e (or_introl Hp) E) (proj1 Hu)).
  destruct (decide (p = q)) as [->|Hne]; [lia|]. destruct (pk_some _ _ _ _ q Hk Hq) as [f F].
  pose proof (po_size _ _ (pk_ok _ _ _ _ Hk q f Hq F)). destruct (pk_apart _ _ _ _ Hk p q e f); try by left. all: try done; lia.
Qed.

(** Only the headers of the pools matter, and the manager. *)
Lemma pools_frame s s' full part free :
  (forall p, p ∈ full ++ part \/ p ∈ free -> pools s' !! p = pools s !! p) -> memoryPool_ s' = memoryPool_ s ->
  pools_ok s full part free -> pools_ok s' full part free.
Proof.
  intros Hf Hm Hk. split.
  - eapply dll_frame; [|apply Hk]. intros a Ha. unfold next, prev. rewrite Hf by (by left). split; [|done]. apply (pk_some _ _ _ _ a Hk). by left.
  - eapply dll_frame; [|apply Hk]. intros a Ha. unfold next, prev. rewrite Hf by (by right). split; [|done]. apply (pk_some _ _ _ _ a Hk). by right.
  - apply Hk.
  - intros p e Hp. rewrite Hf by done. by apply (pk_ok _ _ _ _ Hk).
  - intros p e Hp. rewrite Hf by (left; set_solver). by apply (pk_full _ _ _ _ Hk).
  - intros p e Hp. rewrite Hf by (left; set_solver). by apply (pk_part _ _ _ _ Hk).
  - intros p e Hp. rewrite Hf by (by right). by apply (pk_none _ _ _ _ Hk).
  - by rewrite Hm, (pk_manager _ _ _ _ Hk).
  - intros p q e f Hp Hq. rewrite !Hf by done. by apply (pk_apart _ _ _ _ Hk).
Qed.

Lemma owner_frame s s' occ p a : (forall q, q ∈ occ -> pools s' !! q = pools s !! q) -> owner s' occ p a <-> owner s occ p a.
Proof. intros Hf. unfold owner. split; (intros (Hp & e & E & Hu); split; [done|]; exists e; split; [|done]); [by rewrite <- Hf|by rewrite Hf]. Qed.

(** A pool whose pages changed stays in its place; it may go from [part] to [full] or back. *)
Lemma pools_reclass s s' full part full' part' free p e e' :
  pools_ok s full part free -> p ∈ full ++ part -> pools s !! p = Some e -> same_place e e' -> pool_ok p e' -> full' ++ part' = full ++ part ->
  (p ∈ full' -> ~ room e') -> (p ∈ part' -> room e') -> (forall q, q <> p -> q ∈ full' -> q ∈ full) -> (forall q, q <> p -> q ∈ part' -> q ∈ part) ->
  pools s' = <[p := e']> (pools s) -> memoryPool_ s' = mkManager (lastz free) (headz part') (lastz (full ++ part)) ->
  pools_ok s' full' part' free.
Proof.
  intros Hk Hp E (Hsz & Hnx & Hpv) He' Hocc Hfull Hpart Hf1 Hp1 Es Hm.
  assert (Hpf : p ∉ free) by (intros ?; by eapply pk_disj). assert (Hsome : forall q, q ∈ full ++ part \/ q ∈ free -> is_Some (pools s' !! q)).
  { intros q Hq. rewrite Es, lookup_insert_is_Some'. right. by eapply pk_some. }
  assert (Hlinks : forall q, pnext (pools s') q = pnext (pools s) q /\ pprev (pools s') q = pprev (pools s) q).
  { intros q. rewrite Es, next_insert, prev_insert. case_decide; [subst q|done]. by rewrite (next_some _ _ _ _ E), (prev_some _ _ _ _ E). }
  assert (Hlook : forall q f, pools s' !! q = Some f -> q = p /\ f = e' \/ q <> p /\ pools s !! q = Some f).
  { intros q f. rewrite Es. destruct (decide (q = p)) as [->|]; [rewrite lookup_insert_eq; intros [=]; by left|rewrite lookup_insert_ne by done; by right]. }
  assert (Hsize : forall q f, q ∈ full ++ part \/ q ∈ free -> pools s' !! q = Some f -> exists f0, pools s !! q = Some f0 /\ size_ f = size_ f0).
  { intros q f Hq [[-> ->]|[Hne F]]%Hlook; eauto. }
  split; rewrite ?Hocc.
  - eapply dll_frame; [|apply Hk]. intros a Ha. split; [apply Hsome; by left|apply Hlinks].
  - eapply dll_frame; [|apply Hk]. intros a Ha. split; [apply Hsome; by right|apply Hlinks].
  - apply Hk.
  - intros q f Hq [[-> ->]|[Hne F]]%Hlook; [done|by apply (pk_ok _ _ _ _ Hk)].
  - intros q f Hq [[-> ->]|[Hne F]]%Hlook; [by apply Hfull|apply (pk_full _ _ _ _ Hk q); auto].
  - intros q f Hq [[-> ->]|[Hne F]]%Hlook; [by apply Hpart|apply (pk_part _ _ _ _ Hk q); auto].
  - intros q f Hq [[-> ->]|[Hne F]]%Hlook; [done|by apply (pk_none _ _ _ _ Hk)].
  - done.
  - intros q r f g Hq Hr Hne F G. destruct (Hsize q f Hq F) as (f0 & F0 & ->). destruct (Hsize r g Hr G) as (g0 & G0 & ->).
    by eapply (pk_apart _ _ _ _ Hk).
Qed.

(** Pools move between the lists: only links change. *)
Lemma pools_move s s' full part free full' part' free' :
  pools_ok s full part free -> same_cores (pools s) (pools s') -> pdll (pools s') (full' ++ part') -> pdll (pools s') free' ->
  (forall q, q ∈ full' ++ part' -> q ∈ free' -> False) -> (forall q, q ∈ full' ++ part' \/ q ∈ free' -> q ∈ full ++ part \/ q ∈ free) ->
  (forall q e, q ∈ full' -> pools s !! q = Some e -> ~ room e) -> (forall q e, q ∈ part' -> pools s !! q = Some e -> room e) ->
  (forall q, q ∈ free' -> q ∈ free) -> memoryPool_ s' = mkManager (lastz free') (headz part') (lastz (full' ++ part')) ->
  pools_ok s' full' part' free'.
Proof.
  intros Hk Hc Hd Hd' Hdisj Hin Hfull Hpart Hfree Hm.
  assert (Hlook : forall q f, q ∈ full' ++ part' \/ q ∈ free' -> pools s' !! q = Some f -> exists e, pools s !! q = Some e /\ same_core e f).
  { intros q f Hq F. destruct (pk_some _ _ _ _ q Hk (Hin q Hq)) as [e E]. destruct (same_cores_lookup _ _ q e Hc E) as (f' & F' & Hef).
    exists e. split; [done|]. congruence. }
  split; try done.
  - intros q f Hq F. destruct (Hlook q f Hq F) as (e & E & Hef). eapply pool_ok_core; [done|]. eapply pk_ok; eauto.
  - intros q f Hq F. destruct (Hlook q f ltac:(set_solver) F) as (e & E & Hef). rewrite (room_core e f Hef). eauto.
  - intros q f Hq F. destruct (Hlook q f ltac:(set_solver) F) as (e & E & Hef). rewrite (room_core e f Hef). eauto.
  - intros q f Hq F. destruct (Hlook q f ltac:(auto) F) as (e & E & Hef). destruct Hef as (_ & _ & -> & _). eapply pk_none; eauto.
  - intros p q e f Hp Hq Hne E F. destruct (Hlook p e Hp E) as (e0 & E0 & (_ & _ & _ & -> & _)). destruct (Hlook q f Hq F) as (f0 & F0 & (_ & _ & _ & -> & _)).
    eapply (pk_apart _ _ _ _ Hk); eauto.
Qed.

Lemma owner_move s s' occ occ' p a :
  same_cores (pools s) (pools s') -> p ∈ occ' -> p ∈ occ -> owner s' occ' p a <-> owner s occ p a.
Proof.
  intros Hc Hp' Hp. unfold owner. split.
  - intros (_ & f & F & Hu). split; [done|]. destruct (same_cores_lookup_rev _ _ p f Hc F) as (e & E & Hef).
    exists e. split; [done|]. by apply (used_core e f).
  - intros (_ & e & E & Hu). split; [done|]. destruct (same_cores_lookup _ _ p e Hc E) as (f & F & Hef). exists f. split; [done|].
    by apply (used_core e f).
Qed.

Definition with_manager (s : State) (m : MemPoolManager) : State := {| s with memoryPool_ := m |}.

(** What the operations of the manager leave of the state. *)
Definition same_lists (s s' : State) : Prop := words s' = words s /\ forall id, list_of s' id = list_of s id.

Section Manager.
Context `{Layout}.

(** A free pool is moved to the end of the occupied ones. *)
Lemma take_free_pool s full free p slotsSize :
  pools_ok s full [] (free ++ [p]) ->
  exists s', GetNewRunSlots slotsSize s = GetMemoryForRunSlots p slotsSize s' /\ pools_ok s' full [p] free /\ same_cores (pools s) (pools s') /\
    same_lists s s' /\ runs s' = runs s.
Proof.
  intros Hk. pose proof (pk_manager _ _ _ _ Hk) as Hm. rewrite app_nil_r, lastz_snoc in Hm. unfold GetNewRunSlots. erewrite bind_M by reflexivity.
  rewrite Hm. cbn [partiallyOccupiedHead_ freeTail_ occupiedTail_]. rewrite bool_decide_true by done. cbn [negb].
  assert (Hpin : p ∈ free ++ [p]) by set_solver. assert (Hp0 : p <> 0) by (apply (pk_null _ _ _ _ p Hk); by right).
  rewrite bool_decide_false by done. cbn [negb]. destruct (pk_some _ _ _ _ p Hk (or_intror Hpin)) as [e E]. erewrite bind_M by (by apply pool_at_eq).
  pose proof (pk_free _ _ _ _ Hk) as Hdf. pose proof (pk_occ _ _ _ _ Hk) as Hdo. rewrite app_nil_r in Hdo.
  destruct (dll_links _ _ _ _ Hdf free p [] eq_refl) as [Hpv _]. rewrite (prev_some _ _ _ _ E) in Hpv. rewrite Hpv.
  assert (Hpf : p ∉ full) by (intros ?; eapply (pk_disj _ _ _ _ Hk p); [rewrite app_nil_r|]; done).
  erewrite bind_M by reflexivity. cbn [put]. set (s1 := {| s with memoryPool_ := _ |}).
  destruct (PopPoolFromList_spec s1 free p []) as (m1 & E1 & Hd1 & Hc1 & Hn1 & Hp1 & Hs1); [exact Hdf|]. rewrite app_nil_r in Hd1.
  erewrite bind_M by exact E1. destruct (same_cores_lookup _ m1 p e Hc1 E) as (e1 & Ee1 & Hee1).
  erewrite bind_M by (by apply update_pool_eq). cbn [pools with_pools]. set (e2 := {| e1 with prevPool_ := lastz full |}).
  set (m2 := <[p := e2]> m1). rewrite with_pools_twice. rewrite (next_some _ _ _ _ Ee1) in Hn1.
  assert (Hdo2 : pdll m2 full).
  { eapply dll_frame; [|exact Hdo]. intros a Ha. assert (a <> p) by set_solver.
    assert (Ea : m2 !! a = pools s !! a) by (unfold m2; rewrite lookup_insert_ne, Hs1; [done| |done]; intros Ha'; eapply (pk_disj _ _ _ _ Hk a); [by rewrite app_nil_r|done]).
    unfold next, prev. rewrite Ea. split; [|done]. apply (dll_dom _ _ _ _ Hdo a Ha). }
  erewrite bind_M by (apply append_eq; cbn [pools with_pools]; intros Ht; apply (dll_dom _ _ _ _ Hdo2); apply lastz_in; intros ->; done).
  cbn [pools with_pools]. rewrite with_pools_twice.
  destruct (append_ok m2 full p e2 Hdo2) as (Hd3 & Hc3 & Hs3); [done|done|unfold m2; by rewrite lookup_insert_eq|exact Hn1|done|].
  set (m3 := append m2 (lastz full) p) in *. erewrite bind_M by reflexivity. erewrite bind_M by reflexivity.
  cbn [put with_pools memoryPool_ s1 partiallyOccupiedHead_ freeTail_ occupiedTail_]. rewrite Hm. cbn [partiallyOccupiedHead_]. rewrite bool_decide_true by done.
  eexists. split; [reflexivity|]. cbn [pools memoryPool_ runs words with_pools s1]. assert (Hcore : same_cores (pools s) m3).
  { etrans; [exact Hc1|]. etrans; [|exact Hc3]. by eapply same_cores_insert. }
  assert (Hpfree : p ∉ free) by (pose proof (dll_nodup _ _ _ _ Hdf) as (_ & Hnd & _)%NoDup_app; set_solver).
  split_and!; [|exact Hcore| |done].
  - eapply pools_move; [exact Hk|exact Hcore|exact Hd3| | | | | | |]; cbn [pools memoryPool_ with_pools s1].
    + eapply dll_frame; [|exact Hd1]. intros a Ha. assert (a <> p) by (intros ->; done).
      assert (Ea : m3 !! a = m1 !! a).
      { rewrite Hs3; [unfold m2; by rewrite lookup_insert_ne|]. intros Haf. eapply (pk_disj _ _ _ _ Hk a); [by rewrite app_nil_r|set_solver]. }
      unfold next, prev. rewrite Ea. split; [|done]. apply (dll_dom _ _ _ _ Hd1 a Ha).
    + intros q [Hq| ->%list_elem_of_singleton]%elem_of_app Hq'; [|done]. eapply (pk_disj _ _ _ _ Hk q); [by rewrite app_nil_r|set_solver].
    + intros q. rewrite app_nil_r. set_solver.
    + intros q f Hq. by apply (pk_full _ _ _ _ Hk).
    + intros q f ->%list_elem_of_singleton F. left. pose proof (pk_ok _ _ _ _ Hk p f (or_intror Hpin) F) as Hf.
      rewrite (pk_none _ _ _ _ Hk p f Hpin F), (po_mem _ _ Hf). pose proof (po_size _ _ Hf). lia.
    + set_solver.
    + by rewrite lastz_snoc.
  - split; [done|]. by intros [].
Qed.

(** The pages in use of a pool changed. *)
Lemma owner_insert s s' occ p e e' (run : Z) :
  pools s !! p = Some e -> p ∈ occ -> pools s' = <[p := e']> (pools s) -> (forall a, used e' a <-> a = run \/ used e a) ->
  forall q a, owner s' occ q a <-> q = p /\ a = run \/ owner s occ q a.
Proof.
  intros E Hp Es Hu q a. unfold owner. rewrite Es. destruct (decide (q = p)) as [->|Hne].
  - rewrite lookup_insert_eq, E. split.
    + intros (_ & f & [= <-] & [->|Ha]%Hu); [by left|right; eauto].
    + intros [[_ ->]|(_ & f & [= <-] & Ha)]; (split; [done|]; exists e'; split; [done|]; apply Hu; auto).
  - rewrite lookup_insert_ne by done. split; [by right|]. by intros [[? _]|].
Qed.

(** A pool with room hands out a page that is in use in no pool. *)
Lemma take_page s full part free p e slotsSize :
  pools_ok s full part free -> p ∈ full ++ part -> pools s !! p = Some e -> room e ->
  exists s' run e', GetMemoryForRunSlots p slotsSize s = Done (s', run) /\ pools s' = <[p := e']> (pools s) /\ pool_ok p e' /\ same_place e e' /\
    (freePtr_ e + 2 * 4096 <= p + size_ e -> room e') /\
    (forall q a, owner s' (full ++ part) q a <-> q = p /\ a = run \/ owner s (full ++ part) q a) /\ (forall q, ~ owner s (full ++ part) q run) /\
    runs s' = <[run := Initialize slotsSize p]> (runs s) /\ same_lists s s' /\ memoryPool_ s' = memoryPool_ s.
Proof.
  intros Hk Hp E Hroom. pose proof (pk_ok _ _ _ _ Hk p e (or_introl Hp) E) as He.
  destruct (GetMemoryForRunSlots_spec s p e slotsSize E He Hroom) as (run & e' & Eq & He' & Hrun & Hnu & Hu & Hpl & Hmore).
  eexists _, run, e'. split; [exact Eq|]. split_and!; try done.
  - by apply (owner_insert s _ _ p e e').
  - intros q (Hq & f & F & Hf). destruct (decide (q = p)) as [->|Hne]; [by simplify_eq|].
    pose proof (page_bounds p e' run He' Hrun) as (_ & _ & Hb1 & _ & Hb2 & _). destruct Hpl as (Es & _). rewrite Es in Hb2.
    pose proof (page_bounds q f run (pk_ok _ _ _ _ Hk q f (or_introl Hq) F) (proj1 Hf)).
    destruct (pk_apart _ _ _ _ Hk q p f e); try by left. all: try done; lia.
Qed.

(** A new run is in a page that was in use in no pool; there is none only if every pool is full. *)
Lemma GetNewRunSlots_spec s full part free slotsSize :
  pools_ok s full part free ->
  (part = [] /\ free = [] /\ GetNewRunSlots slotsSize s = Done (s, 0)) \/
  exists s' run p full' part' free', GetNewRunSlots slotsSize s = Done (s', run) /\ pools_ok s' full' part' free' /\
    (forall q a, owner s' (full' ++ part') q a <-> q = p /\ a = run \/ owner s (full ++ part) q a) /\ (forall q, ~ owner s (full ++ part) q run) /\
    runs s' = <[run := Initialize slotsSize p]> (runs s) /\ same_lists s s' /\
    (forall q n, extent s' (full' ++ part' ++ free') q n <-> extent s (full ++ part ++ free) q n).
Proof.
  intros Hk. pose proof (pk_manager _ _ _ _ Hk) as Hm. destruct part as [|p part].
  - destruct (decide (free = [])) as [->|Hf].
    { left. split_and!; [done..|]. unfold GetNewRunSlots. erewrite bind_M by reflexivity. by rewrite Hm. }
    right. destruct (exists_last Hf) as (free' & p & ->). clear Hf Hm. destruct (take_free_pool s full free' p slotsSize Hk) as (s1 & -> & Hk1 & Hc1 & Hl1 & Hr1).
    assert (Hp : p ∈ full ++ [p]) by set_solver. destruct (pk_some _ _ _ _ p Hk1 (or_introl Hp)) as [e E].
    pose proof (pk_ok _ _ _ _ Hk1 p e (or_introl Hp) E) as He. pose proof (pk_part _ _ _ _ Hk1 p e ltac:(set_solver) E) as Hroom.
    destruct (take_page s1 full [p] free' p e slotsSize Hk1 Hp E Hroom) as (s2 & run & e' & -> & Ep & He' & Hpl & Hmore & Hown & Hnot & Hr & Hl & Hmg).
    assert (Hfresh : freePtr_ e = p + 4096).
    { destruct (same_cores_lookup_rev _ _ p e Hc1 E) as (e0 & E0 & (_ & _ & Ef & _)). rewrite Ef.
      apply (pk_none _ _ _ _ Hk p e0); [set_solver|done]. }
    assert (Hown1 : forall q a, owner s1 (full ++ [p]) q a <-> owner s (full ++ []) q a).
    { intros q a. destruct (decide (q = p)) as [->|Hne].
      - split; [|intros [Hq _]; exfalso; by eapply (pk_disj _ _ _ _ Hk p); [|set_solver]]. intros (_ & f & F & [[Hb _] _]). simplify_eq.
        rewrite (po_mem _ _ He), Hfresh in Hb. lia.
      - destruct (decide (q ∈ full)) as [Hq|Hq]; [apply owner_move; [done|set_solver..]|]. split; intros [Hq' _]; set_solver. }
    exists s2, run, p, full, [p], free'. split; [done|]. split_and!.
    + apply (pools_reclass s1 s2 full [p] full [p] free' p e e'); try done;
        [|intros _; apply Hmore; pose proof (po_size _ _ He); lia|rewrite Hmg; apply (pk_manager _ _ _ _ Hk1)].
      intros Hpf. exfalso. pose proof (dll_nodup _ _ _ _ (pk_occ _ _ _ _ Hk1)) as (_ & Hnd & _)%NoDup_app. apply (Hnd p Hpf); constructor.
    + intros q a. by rewrite <- Hown1.
    + intros q. rewrite <- Hown1. apply Hnot.
    + by rewrite Hr, Hr1.
    + destruct Hl1, Hl. split; [congruence|]. intros id. congruence.
    + intros q n. rewrite (extent_insert s1 s2 _ p e e') by (done || apply Hpl). apply extent_cores; [done|]. set_solver.
  - right. assert (Hp : p ∈ full ++ p :: part) by set_solver. destruct (pk_some _ _ _ _ p Hk (or_introl Hp)) as [e E].
    pose proof (pk_part _ _ _ _ Hk p e ltac:(constructor) E) as Hroom. assert (Hp0 : p <> 0) by (apply (pk_null _ _ _ _ p Hk); by left).
    destruct (take_page s full (p :: part) free p e slotsSize Hk Hp E Hroom) as (s2 & run & e' & Eg & Ep & He' & Hpl & Hmore & Hown & Hnot & Hr & Hl & Hmg).
    pose proof (dll_nodup _ _ _ _ (pk_occ _ _ _ _ Hk)) as (_ & Hnd & [Hpp _]%NoDup_cons)%NoDup_app.
    assert (Hpf : p ∉ full) by (intros Hpf; apply (Hnd p Hpf); constructor).
    unfold GetNewRunSlots. erewrite bind_M by reflexivity. rewrite Hm. cbn [partiallyOccupiedHead_]. change (headz (p :: part)) with p in *.
    rewrite bool_decide_false by done. cbn [negb]. erewrite bind_M by exact Eg.
    erewrite bind_M by (apply pool_at_eq; rewrite Ep; by rewrite lookup_insert_eq).
    destruct (HasMemoryForRunSlots e') eqn:Eh; cbn [negb].
    + exists s2, run, p, full, (p :: part), free. split; [done|]. split_and!; try done.
      * apply (pools_reclass s s2 full (p :: part) full (p :: part) free p e e'); try done; [intros _; by apply (HasMemory_room p e' He')|by rewrite Hmg].
      * intros q n. apply (extent_insert s s2 _ p e e'); [done|apply Hpl|done].
    + assert (Hnr : ~ room e') by (intros Hr'; apply (HasMemory_room p e' He') in Hr'; congruence).
      erewrite bind_M by reflexivity. cbn [put]. rewrite Hmg, Hm. destruct Hpl as (Hsz & Hnx & Hpv).
      eexists _, run, p, (full ++ [p]), part, free. split; [reflexivity|]. set (s3 := mkState _ _ _ _ _ _).
      assert (Hocc : (full ++ [p]) ++ part = full ++ p :: part) by (by rewrite <- app_assoc).
      destruct (dll_links _ _ _ _ (pk_occ _ _ _ _ Hk) full p part eq_refl) as [_ Hn]. rewrite (next_some _ _ _ _ E) in Hn.
      rewrite !(app_assoc _ part), Hocc. split_and!; try done.
      * apply (pools_reclass s s3 full (p :: part) (full ++ [p]) part free p e e'); try done; [set_solver..|].
        cbn [s3 memoryPool_ freeTail_ occupiedTail_]. by rewrite Hnx, Hn.
      * intros q n. rewrite <- app_assoc. apply (extent_insert s s3 _ p e e'); done.
Qed.

(** New memory becomes a free pool. *)
Lemma AddNewMemoryPool_spec s full part free mem size :
  pools_ok s full part free -> 0 < mem -> (4096 | mem) -> mem + 2 * MIN_POOL_SIZE <= 2 ^ 64 -> 3 * 4096 <= size <= MIN_POOL_SIZE ->
  (forall q n, extent s (full ++ part ++ free) q n -> mem + size <= q \/ q + n <= mem) ->
  exists s', AddNewMemoryPool mem size s = Done (s', true) /\ pools_ok s' full part (free ++ [mem]) /\
    (forall q a, owner s' (full ++ part) q a <-> owner s (full ++ part) q a) /\ runs s' = runs s /\ same_lists s s' /\
    (forall q n, extent s' (full ++ part ++ free ++ [mem]) q n <-> q = mem /\ n = size \/ extent s (full ++ part ++ free) q n).
Proof.
  intros Hk H0 Hd Hl Hs Hap. pose proof (pk_manager _ _ _ _ Hk) as Hm.
  destruct (new_pool_ok mem size (lastz free) H0 Hd Hl Hs) as (He & Hnp & Hnx & Hpv & Hsz & Hfp). set (e := Initialize_pool _ _ _ _ _) in *.
  assert (Hnew : forall q, q ∈ full ++ part \/ q ∈ free -> q <> mem).
  { intros q Hq ->. destruct (pk_some _ _ _ _ mem Hk Hq) as [f F]. pose proof (po_size _ _ (pk_ok _ _ _ _ Hk mem f Hq F)).
    destruct (Hap mem (size_ f)); [split; [set_solver|by exists f]|lia..]. }
  set (m1 := <[mem := e]> (pools s)). assert (Hm1 : forall q, q ∈ full ++ part \/ q ∈ free -> m1 !! q = pools s !! q).
  { intros q Hq. unfold m1. rewrite lookup_insert_ne; [done|]. by apply not_eq_sym, Hnew. }
  assert (Hd1 : pdll m1 free).
  { eapply dll_frame; [|apply Hk]. intros a Ha. unfold next, prev. rewrite Hm1 by (by right). split; [|done]. apply (pk_some _ _ _ _ a Hk). by right. }
  destruct (append_ok m1 free mem e Hd1) as (Hd2 & Hc2 & Hs2); [intros ?; eapply Hnew; eauto|lia|by apply lookup_insert_eq|done|done|].
  unfold AddNewMemoryPool, Create. erewrite bind_M by reflexivity. rewrite Hm. cbn [freeTail_]. fold e.
  erewrite bind_M; cycle 1. { erewrite bind_M by reflexivity. reflexivity. }
  cbn [put set_pool]. erewrite bind_M.
  2: { apply append_eq. cbn [pools]. intros Ht. apply (dll_dom _ _ _ _ Hd1). apply lastz_in. intros ->. done. }
  erewrite bind_M by reflexivity. cbn [pools with_pools put memoryPool_]. fold m1. set (m2 := append m1 (lastz free) mem) in *.
  eexists. split; [reflexivity|]. set (s' := mkState _ _ _ _ _ _). assert (Ep : pools s' = m2) by done.
  assert (Hocc : forall q, q ∈ full ++ part -> m2 !! q = pools s !! q).
  { intros q Hq. rewrite Hs2, Hm1; [done|by left|]. intros Hf. by eapply (pk_disj _ _ _ _ Hk q). }
  assert (Hfree : forall q f, q ∈ free -> m2 !! q = Some f -> exists f0, pools s !! q = Some f0 /\ same_core f0 f).
  { intros q f Hq F. destruct (same_cores_lookup_rev m1 m2 q f Hc2 F) as (f0 & F0 & Hff). exists f0. split; [|done].
    rewrite <- Hm1; [done|by right]. }
  assert (Emem : exists f, m2 !! mem = Some f /\ same_core e f) by (apply (same_cores_lookup m1 m2 mem e Hc2); by apply lookup_insert_eq).
  assert (Hall : forall q f, q ∈ full ++ part \/ q ∈ free ++ [mem] -> m2 !! q = Some f ->
            (q = mem /\ same_core e f) \/ exists f0, (q ∈ full ++ part \/ q ∈ free) /\ pools s !! q = Some f0 /\ same_core f0 f).
  { intros q f [Hq|[Hq| ->%list_elem_of_singleton]%elem_of_app] F.
    - right. exists f. rewrite <- Hocc by done. split; [by left|done].
    - right. destruct (Hfree q f Hq F) as (f0 & F0 & Hc). eauto.
    - left. destruct Emem as (f' & F' & Hc). split; [done|]. congruence. }
  split_and!.
  - split; rewrite ?Ep.
    + eapply dll_frame; [|apply Hk]. intros a Ha. unfold next, prev. rewrite Hocc by done. split; [|done]. apply (pk_some _ _ _ _ a Hk). by left.
    + done.
    + intros q Hq [Hf| ->%list_elem_of_singleton]%elem_of_app; [by eapply (pk_disj _ _ _ _ Hk q)|]. eapply Hnew; eauto.
    + intros q f Hq F. destruct (Hall q f Hq F) as [[-> Hc]|(f0 & Hq0 & F0 & Hc)]; (eapply pool_ok_core; [exact Hc|]); [done|]. by eapply pk_ok.
    + intros q f Hq. rewrite Hocc by set_solver. by apply (pk_full _ _ _ _ Hk).
    + intros q f Hq. rewrite Hocc by set_solver. by apply (pk_part _ _ _ _ Hk).
    + intros q f Hq F. destruct (Hall q f (or_intror Hq) F) as [[-> Hc]|(f0 & Hq0 & F0 & Hc)]; destruct Hc as (_ & _ & -> & _); [done|].
      apply (pk_none _ _ _ _ Hk q f0); [|done]. apply elem_of_app in Hq as [|Hq%list_elem_of_singleton]; [done|]. exfalso. by eapply Hnew.
    + cbn [s' memoryPool_]. by rewrite Hm, lastz_snoc.
    + intros p q f g Hp Hq Hne F G. destruct (Hall p f Hp F) as [[-> Hc]|(f0 & Hp0 & F0 & Hc)], (Hall q g Hq G) as [[-> Hc']|(g0 & Hq0 & G0 & Hc')]; [done| | |];
        destruct Hc as (_ & _ & _ & -> & _), Hc' as (_ & _ & _ & -> & _).
      * rewrite Hsz. apply Hap. split; [set_solver|eauto].
      * rewrite Hsz. destruct (Hap p (size_ f0)); [split; [set_solver|eauto]|by right|by left].
      * by eapply (pk_apart _ _ _ _ Hk).
  - intros q a. apply owner_frame. rewrite Ep. apply Hocc.
  - done.
  - split; [done|]. by intros [].
  - intros q n. unfold extent. rewrite Ep. split.
    + intros (Hq & f & F & Hn). destruct (Hall q f) as [[-> Hc]|(f0 & Hq0 & F0 & Hc)]; [set_solver|done| |]; destruct Hc as (_ & _ & _ & Es & _).
      * left. split; congruence.
      * right. split; [set_solver|]. exists f0. split; congruence.
    + intros [[-> ->]|(Hq & f & F & Hn)].
      * split; [set_solver|]. destruct Emem as (f & F & (_ & _ & _ & Es & _)). exists f. split; congruence.
      * split; [set_solver|]. assert (Hq' : q ∈ full ++ part \/ q ∈ free) by set_solver. rewrite <- (Hm1 q Hq') in F.
        destruct (same_cores_lookup m1 m2 q f Hc2 F) as (g & G & (_ & _ & _ & Es & _)). exists g. split; congruence.
Qed.

(** A pool is moved to the end of its list. *)
Lemma rotate_pool s l1 p l2 (t : Z) (k : M unit) :
  pdll (pools s) (l1 ++ p :: l2) -> l2 <> [] -> t = lastz l2 ->
  exists m', (PopPoolFromList p;; update_pool p (fun e => {| e with prevPool_ := t |});; (if t == 0 then lift Crash else mret tt);;
              update_pool t (fun e => {| e with nextPool_ := p |});; k) s = k (with_pools s m') /\
    pdll m' (l1 ++ l2 ++ [p]) /\ same_cores (pools s) m' /\ forall q, q ∉ l1 ++ p :: l2 -> m' !! q = pools s !! q.
Proof.
  intros Hd Hl2 ->. pose proof (dll_nodup _ _ _ _ Hd) as (Hn1 & Hn12 & [Hx2 Hn2]%NoDup_cons)%NoDup_app. pose proof (dll_null _ _ _ _ Hd) as H0.
  pose proof (lastz_in l2 Hl2) as Ht. destruct (dll_dom _ _ _ _ Hd p ltac:(set_solver)) as [e E].
  destruct (PopPoolFromList_spec s l1 p l2 Hd) as (m1 & E1 & Hd1 & Hc1 & Hnx1 & Hpv1 & Hs1). erewrite bind_M by exact E1.
  destruct (same_cores_lookup _ m1 p e Hc1 E) as (e1 & Ee1 & Hee1). erewrite bind_M by (by apply update_pool_eq). cbn [pools with_pools].
  rewrite with_pools_twice. set (t := lastz l2) in *. assert (Ht0 : t <> 0) by (intros Et; apply H0; rewrite <- Et; set_solver).
  rewrite bool_decide_false by done. erewrite bind_M by reflexivity. set (e2 := {| e1 with prevPool_ := t |}). set (m2 := <[p := e2]> m1).
  assert (Hpl : p ∉ l1 ++ l2) by set_solver. rewrite (next_some _ _ _ _ Ee1) in Hnx1.
  assert (Hd2 : pdll m2 (l1 ++ l2)).
  { eapply dll_frame; [|exact Hd1]. intros a Ha. assert (a <> p) by set_solver. unfold m2. rewrite next_insert, prev_insert, !decide_False, lookup_insert_ne by done.
    split; [|done]. by apply (dll_dom _ _ _ _ Hd1). }
  assert (Htl : lastz (l1 ++ l2) = t) by (by apply lastz_app).
  destruct (append_ok m2 (l1 ++ l2) p e2 Hd2) as (Hd3 & Hc3 & Hs3); [done|set_solver|unfold m2; by rewrite lookup_insert_eq|exact Hnx1|by rewrite Htl|].
  rewrite Htl in *. exists (append m2 t p). split_and!.
  - pose proof (append_eq t p (with_pools s m2)) as Ea. rewrite bool_decide_false in Ea by done. cbn [negb] in Ea.
    erewrite bind_M by (apply Ea; intros _; apply (dll_dom _ _ _ _ Hd2); set_solver). done.
  - by rewrite <- app_assoc in Hd3.
  - etrans; [exact Hc1|]. etrans; [|exact Hc3]. by eapply same_cores_insert.
  - intros q Hq. rewrite Hs3 by set_solver. unfold m2. rewrite lookup_insert_ne by set_solver. by apply Hs1.
Qed.

(** Before a page is given back to a pool without room, the pool goes to the end of the list, where the pools with room are. *)
Lemma ready_pool s full part free p e :
  pools_ok s full part free -> p ∈ full ++ part -> pools s !! p = Some e ->
  exists s1 full' part', (if negb (HasMemoryForRunSlots e) then
       m ← get memoryPool_;
       (if p != occupiedTail_ m then
          PopPoolFromList p;;
          update_pool p (fun e => {| e with prevPool_ := occupiedTail_ m |});;
          (if occupiedTail_ m == 0 then lift Crash else mret tt);;
          update_pool (occupiedTail_ m) (fun e => {| e with nextPool_ := p |});;
          set_manager (fun m => {| m with occupiedTail_ := p |})
        else mret tt);;
       set_manager (fun m => if partiallyOccupiedHead_ m == 0 then {| m with partiallyOccupiedHead_ := occupiedTail_ m |} else m)
     else mret tt) s = Done (s1, tt) /\
    same_cores (pools s) (pools s1) /\ pdll (pools s1) (full' ++ part') /\ pdll (pools s1) free /\ (forall q, q ∈ full' ++ part' <-> q ∈ full ++ part) /\
    (p ∉ full') /\ (forall q, q <> p -> q ∈ full' -> q ∈ full) /\ (forall q, q <> p -> q ∈ part' -> q ∈ part) /\
    memoryPool_ s1 = mkManager (lastz free) (headz part') (lastz (full' ++ part')) /\ same_lists s s1 /\ runs s1 = runs s.
Proof.
  intros Hk Hp E. pose proof (pk_ok _ _ _ _ Hk p e (or_introl Hp) E) as He. pose proof (pk_manager _ _ _ _ Hk) as Hm.
  pose proof (pk_occ _ _ _ _ Hk) as Hdo. pose proof (dll_nodup _ _ _ _ Hdo) as Hnd. destruct (HasMemoryForRunSlots e) eqn:Eh; cbn [negb].
  { exists s, full, part. split; [done|]. assert (Hpf : p ∉ full) by (intros Hpf; apply (pk_full _ _ _ _ Hk p e Hpf E); by apply (HasMemory_room p e He)).
    split_and!; try done; [apply Hk]. }
  assert (Hnr : ~ room e) by (intros Hr; apply (HasMemory_room p e He) in Hr; congruence).
  assert (Hpf : p ∈ full) by (apply elem_of_app in Hp as [|Hp]; [done|]; by apply (pk_part _ _ _ _ Hk p e Hp) in E).
  apply list_elem_of_split in Hpf as (l1 & l2 & ->). erewrite bind_M by reflexivity. rewrite Hm. cbn [occupiedTail_ partiallyOccupiedHead_].
  rewrite <- app_assoc in Hdo, Hnd. cbn [app] in Hdo, Hnd. apply NoDup_app in Hnd as (Hn1 & Hn12 & [Hx2 Hn2]%NoDup_cons).
  assert (Hocc : (l1 ++ p :: l2) ++ part = l1 ++ p :: l2 ++ part) by (by rewrite <- app_assoc). rewrite Hocc in *.
  destruct (decide (l2 ++ part = [])) as [Enil|Hne].
  - apply app_eq_nil in Enil as [-> ->]. cbn [app] in *. rewrite lastz_snoc in *. rewrite bool_decide_true by done. cbn [negb].
    erewrite bind_M by reflexivity. exists {| s with memoryPool_ := mkManager (lastz free) p p |}, l1, [p]. split; [cbv [set_manager put]; by rewrite Hm|].
    cbn [pools memoryPool_ runs]. rewrite lastz_snoc. split_and!; try done; try apply Hk; try (split; [done|]; by intros []); set_solver.
  - assert (Htail : lastz (l1 ++ p :: l2 ++ part) = lastz (l2 ++ part)) by (by rewrite lastz_app, lastz_cons). rewrite Htail.
    assert (Hpt : p <> lastz (l2 ++ part)) by (intros ->; apply Hx2; by apply lastz_in). rewrite bool_decide_false by done. cbn [negb].
    destruct (rotate_pool s l1 p (l2 ++ part) (lastz (l2 ++ part)) (set_manager (fun m => {| m with occupiedTail_ := p |})) Hdo Hne eq_refl) as (m' & Er & Hd' & Hc' & Hs').
    erewrite bind_M by (rewrite Er; reflexivity). cbn [put set_manager]. exists {| s with pools := m'; memoryPool_ := mkManager (lastz free) (headz (part ++ [p])) p |}, (l1 ++ l2), (part ++ [p]).
    split.
    { cbv [set_manager put]. cbn [memoryPool_ with_pools words runs pools runslots_ freeRunslots_]. rewrite Hm. cbn [partiallyOccupiedHead_ occupiedTail_ freeTail_].
      destruct part as [|b part]; [done|]. assert (b <> 0) by (intros ->; apply (dll_null _ _ _ _ Hdo); set_solver).
      cbn [headz head app]. change (headz (b :: part ++ [p])) with b. change (headz (b :: part)) with b. by rewrite bool_decide_false. }
    cbn [pools memoryPool_ runs]. rewrite <- !app_assoc in *. split_and!; try done.
    + eapply dll_frame; [|apply Hk]. intros a Ha. assert (Ea : m' !! a = pools s !! a).
      { apply Hs'. intros Ha'. apply (pk_disj _ _ _ _ Hk a); [set_solver|done]. }
      unfold next, prev. rewrite Ea. split; [|done]. apply (pk_some _ _ _ _ a Hk). by right.
    + set_solver.
    + set_solver.
    + set_solver.
    + set_solver.
    + f_equal. rewrite app_assoc, app_assoc. by rewrite lastz_snoc.
Qed.

(** Headers outside a range are kept. *)
Lemma lookup_without {A} (m : gmap Z A) b c q : ~ (b <= q < c) -> without b c m !! q = m !! q.
Proof.
  intros Hq. unfold without. destruct (m !! q) as [x|] eqn:E.
  - by apply map_lookup_filter_Some.
  - apply map_lookup_filter_None. by left.
Qed.

(** Pages inside the page of a run. *)
Lemma release_range a :
  0 < a -> a + 4096 + MIN_POOL_SIZE <= 2 ^ 64 ->
  a <= Bitmap.AlignUp a GetPageSize /\ AlignDownToPageSize (u64 (a + RUNSLOTS_SIZE)) <= a + 4096.
Proof.
  intros H0 Hl. pose proof page_log_ok as Hp. unfold RUNSLOTS_SIZE, MIN_POOL_SIZE in *. rewrite wrapu_id by (unfold in_u; lia).
  assert (Hpow : 0 < 2 ^ page_log) by (apply Z.pow_pos_nonneg; lia). assert (Hle : 2 ^ page_log <= 2 ^ 16) by (apply Z.pow_le_mono_r; lia).
  unfold AlignDownToPageSize, GetPageSize. split.
  - destruct (Bitmap.AlignUp_bounds page_log a) as [? _]; lia.
  - rewrite Bitmap.land_clear by (unfold in_u; lia). apply Z.mul_div_le. lia.
Qed.

(** A run is given back to its pool, and its pages to the operating system: nothing outside of its page changes. *)
Lemma ReturnAndRelease_spec s full part free p a r :
  pools_ok s full part free -> owner s (full ++ part) p a -> runs s !! a = Some r -> poolPointer_ r = p ->
  exists s' full' part', ReturnAndReleaseRunSlotsMemory a s = Done (s', tt) /\ pools_ok s' full' part' free /\
    (forall q x, owner s' (full' ++ part') q x <-> x <> a /\ owner s (full ++ part) q x) /\
    (forall x, ~ (a <= x < a + 4096) -> words s' x = words s x /\ runs s' !! x = runs s !! x) /\ (forall id, list_of s' id = list_of s id) /\
    (forall q n, extent s' (full' ++ part' ++ free) q n <-> extent s (full ++ part ++ free) q n).
Proof.
  intros Hk Ho Er Hpp. pose proof Ho as (Hp & e & E & Hu). pose proof (pk_ok _ _ _ _ Hk p e (or_introl Hp) E) as He.
  destruct (page_bounds p e a He (proj1 Hu)) as (H0 & _). destruct (release_range a H0 (page_high p e a He (proj1 Hu))) as [Hst Hen].
  unfold ReturnAndReleaseRunSlotsMemory. erewrite bind_M by (by apply run_at_eq). unfold GetPoolPointer. rewrite Hpp.
  erewrite bind_M by (by apply pool_at_eq).
  destruct (ready_pool s full part free p e Hk Hp E) as (s1 & full' & part' & E1 & Hc1 & Hdo & Hdf & Hin & Hpf & Hf1 & Hp1 & Hm1 & [Hw1 Hl1] & Hr1).
  erewrite bind_M by exact E1. clear E1. destruct (same_cores_lookup _ _ p e Hc1 E) as (e1 & E1 & Hee).
  pose proof (pool_ok_core p e e1 Hee He) as He1. pose proof (proj2 (used_core e e1 a Hee) Hu) as Hu1.
  destruct (AddFreedRunSlots_spec s1 p e1 a E1 He1 Hu1) as (e2 & E2 & He2 & Hroom & Hused & (Hsz & Hnx & Hpv)).
  erewrite bind_M by exact E2. clear E2. set (s2 := with_pools s1 (<[p := e2]> (pools s1))).
  (* the pools after the page is marked *)
  assert (Hlook : forall q f, pools s2 !! q = Some f -> q = p /\ f = e2 \/ q <> p /\ exists f0, pools s !! q = Some f0 /\ same_core f0 f).
  { intros q f. cbn [s2 pools with_pools]. destruct (decide (q = p)) as [->|Hne]; [rewrite lookup_insert_eq; intros [= <-]; by left|].
    rewrite lookup_insert_ne by done. intros F. right. split; [done|]. by eapply same_cores_lookup_rev. }
  assert (Hlinks : forall l, pdll (pools s1) l -> pdll (pools s2) l).
  { intros l Hl. eapply dll_frame; [|exact Hl]. intros q Hq. cbn [s2 pools with_pools]. rewrite next_insert, prev_insert, lookup_insert_is_Some'.
    split; [right; by apply (dll_dom _ _ _ _ Hl)|]. case_decide; [subst q|done]. by rewrite (next_some _ _ _ _ E1), (prev_some _ _ _ _ E1). }
  assert (Hsize : forall q f, pools s2 !! q = Some f -> exists f0, pools s !! q = Some f0 /\ size_ f = size_ f0).
  { intros q f [[-> ->]|[Hne (f0 & F0 & (_ & _ & _ & Es & _))]]%Hlook; [|eauto]. exists e. split; [done|]. destruct Hee as (_ & _ & _ & Es & _). congruence. }
  assert (Hk2 : pools_ok s2 full' part' free).
  { split.
    - by apply Hlinks.
    - by apply Hlinks.
    - intros q Hq. apply (pk_disj _ _ _ _ Hk q). by apply Hin.
    - intros q f Hq [[-> ->]|[Hne (f0 & F0 & Hc)]]%Hlook; [done|]. eapply pool_ok_core; [exact Hc|]. apply (pk_ok _ _ _ _ Hk q f0); [|done].
      destruct Hq as [Hq%Hin|]; auto.
    - intros q f Hq [[-> ->]|[Hne (f0 & F0 & Hc)]]%Hlook; [done|]. rewrite (room_core f0 f Hc). apply (pk_full _ _ _ _ Hk q); auto.
    - intros q f Hq [[-> ->]|[Hne (f0 & F0 & Hc)]]%Hlook; [done|]. rewrite (room_core f0 f Hc). apply (pk_part _ _ _ _ Hk q); auto.
    - intros q f Hq [[-> ->]|[Hne (f0 & F0 & Hc)]]%Hlook; [exfalso; by apply (pk_disj _ _ _ _ Hk p)|]. destruct Hc as (_ & _ & -> & _).
      by apply (pk_none _ _ _ _ Hk q).
    - done.
    - intros q q' f f' Hq Hq' Hne F F'. destruct (Hsize q f F) as (g & G & ->). destruct (Hsize q' f' F') as (g' & G' & ->).
      apply (pk_apart _ _ _ _ Hk q q'); try done; [destruct Hq as [Hq%Hin|]|destruct Hq' as [Hq'%Hin|]]; auto. }
  assert (Ho2 : forall q x, owner s2 (full' ++ part') q x <-> x <> a /\ owner s (full ++ part) q x).
  { intros q x. split.
    - intros (Hq%Hin & f & [[-> ->]|[Hne (f0 & F0 & Hc)]]%Hlook & Hx).
      + apply Hused in Hx as [? Hx]. split; [done|]. split; [done|]. exists e. split; [done|]. by apply (used_core e e1).
      + assert (Hox : owner s (full ++ part) q x) by (split; [done|]; exists f0; split; [done|]; by apply (used_core f0 f)).
        split; [|done]. intros ->. apply Hne. exact (owner_unique s full part free q p a Hk Hox Ho).
    - intros [Hxa (Hq & f & F & Hx)]. split; [by apply Hin|]. cbn [s2 pools with_pools]. destruct (decide (q = p)) as [->|Hne].
      + exists e2. rewrite lookup_insert_eq. split; [done|]. apply Hused. simplify_eq. split; [done|]. by apply (used_core e e1).
      + rewrite lookup_insert_ne by done. destruct (same_cores_lookup _ _ q f Hc1 F) as (f1 & F1 & Hc). exists f1. split; [done|]. by apply (used_core f f1). }
  assert (Hext : forall q n, extent s2 (full' ++ part' ++ free) q n <-> extent s (full ++ part ++ free) q n).
  { intros q n. rewrite (extent_insert s1 s2 _ p e1 e2) by done. apply extent_cores; [done|]. intros x. rewrite !app_assoc, !(elem_of_app (_ ++ _)). by rewrite Hin. }
  assert (Hw2 : words s2 = words s) by (rewrite <- Hw1; done). assert (Hr2 : runs s2 = runs s) by (rewrite <- Hr1; done).
  assert (Hl2 : forall id, list_of s2 id = list_of s id) by (intros id; rewrite <- Hl1; by destruct id).
  clearbody s2. clear Hlook Hlinks Hsize Hused. destruct (Z.ltb_spec (Bitmap.AlignUp a GetPageSize) (AlignDownToPageSize (u64 (a + RUNSLOTS_SIZE)))) as [Hlt|Hge].
  - cbv [ReleasePages put]. set (s3 := mkState _ _ _ _ _ _). exists s3, full', part'. split; [done|].
    assert (Hpools : forall q, q ∈ full' ++ part' \/ q ∈ free -> pools s3 !! q = pools s2 !! q).
    { intros q Hq. cbn [s3 pools]. apply lookup_without. assert (Hq' : q ∈ full ++ part \/ q ∈ free) by (rewrite <- Hin; done).
      pose proof (owner_pool s full part free p a q Hk Ho Hq'). lia. }
    split_and!.
    + by eapply pools_frame.
    + intros q x. rewrite <- Ho2. apply owner_frame. auto.
    + intros x Hx. cbn [s3 words runs]. rewrite <- Hr2, <- Hw2. rewrite lookup_without by lia. split; [|done].
      destruct (_ && _) eqn:Eb; [|done]. apply andb_true_iff in Eb as [?%Z.leb_le ?%Z.ltb_lt]. lia.
    + intros id. rewrite <- Hl2. by destruct id.
    + intros q n. rewrite <- Hext. unfold extent. split; intros (Hq & f & F & Hn); (split; [done|]); exists f; (split; [|done]);
        [rewrite <- Hpools by set_solver|rewrite Hpools by set_solver]; done.
  - exists s2, full', part'. split; [done|]. split_and!; try done. intros x _. by rewrite Hw2, Hr2.
Qed.

(** ** Walks over the pools *)
Lemma pools_fuel_enough s l : pdll (pools s) l -> (length l < S (size (pools s)))%nat.
Proof. intros Hd. pose proof (NoDup_size (pools s) l (dll_nodup _ _ _ _ Hd) (dll_dom _ _ _ _ Hd)). lia. Qed.

(** The last pool of a list, and the pool in front of it. *)
Lemma walk_step s l p r :
  pdll (pools s) ((l ++ [p]) ++ r) -> p <> 0 /\ exists e, pools s !! p = Some e /\ prevPool_ e = lastz l.
Proof.
  intros Hd. assert (Hp : p ∈ (l ++ [p]) ++ r) by set_solver. split.
  - intros ->. by apply (dll_null _ _ _ _ Hd).
  - destruct (dll_dom _ _ _ _ Hd p Hp) as [e E]. exists e. split; [done|]. rewrite <- app_assoc in Hd. destruct (dll_links _ _ _ _ Hd l p r eq_refl) as [Hpv _].
    by rewrite (prev_some _ _ _ _ E) in Hpv.
Qed.

Lemma IsInMemPools_loop_spec s fuel obj l r :
  pdll (pools s) (l ++ r) -> (forall p e, p ∈ l -> pools s !! p = Some e -> pool_ok p e) -> in_u 64 obj -> (length l < fuel)%nat ->
  exists b, IsInMemPools_loop fuel obj (lastz l) s = Done (s, b) /\ (b = true <-> exists p, owner s l p (runslotsAddr obj)).
Proof.
  intros Hd Hok Hobj. revert l r Hd Hok. induction fuel as [|fuel IH]; intros l r Hd Hok Hf; [lia|]. cbn [IsInMemPools_loop].
  destruct (decide (l = [])) as [->|Hl].
  { exists false. rewrite bool_decide_true by done. split; [done|]. split; [done|]. intros (p & Hp & _). set_solver. }
  destruct (exists_last Hl) as (l0 & p & ->). rewrite lastz_snoc. destruct (walk_step s l0 p r Hd) as (Hp0 & e & E & Hpv).
  rewrite bool_decide_false by done. cbn [negb]. erewrite bind_M by (by apply pool_at_eq).
  destruct (IsInUsedMemory_spec p e obj) as (b & Eb & Hb); [apply Hok; [set_solver|done]|done|]. erewrite bind_M by (by apply lift_eq).
  destruct b.
  - exists true. split; [done|]. split; [|done]. intros _. exists p. split; [set_solver|]. exists e. split; [done|]. by apply Hb.
  - rewrite Hpv. rewrite <- app_assoc in Hd. rewrite length_app in Hf. cbn [length] in Hf. destruct (IH l0 ([p] ++ r) Hd) as (b & E' & Hb'); [set_solver|lia|].
    exists b. split; [done|]. rewrite Hb'. split; intros (q & Hq & f & F & Hu); exists q.
    + split; [set_solver|eauto].
    + split; [|eauto]. apply elem_of_app in Hq as [|Hq%list_elem_of_singleton]; [done|]. subst q. simplify_eq. apply Hb in Hu. done.
Qed.

Lemma IsInMemPools_spec s full part free obj :
  pools_ok s full part free -> in_u 64 obj ->
  exists b, IsInMemPools obj s = Done (s, b) /\ (b = true <-> exists p, owner s (full ++ part) p (runslotsAddr obj)).
Proof.
  intros Hk Hobj. unfold IsInMemPools, pools_fuel. do 2 erewrite bind_M by reflexivity. rewrite (pk_manager _ _ _ _ Hk). cbn [occupiedTail_].
  pose proof (pk_occ _ _ _ _ Hk) as Hd. apply (IsInMemPools_loop_spec s _ obj (full ++ part) []); [by rewrite app_nil_r| |done|by apply pools_fuel_enough].
  intros p e Hp. apply (pk_ok _ _ _ _ Hk). by left.
Qed.
End Manager.
