(* ===== verification/RunSlotsInv.v ===== *)
(** The invariant of the allocator, and the steps its operations are made of: a run is taken from a list or from a pool, changed, put
    into the list it belongs to, or given back. *)
From S2P Require Import Prelude Leb128 GcBitmap RunSlots RunSlotsAllocator MemLists RunSlotsLists RunSlotsPools RunSlotsManager.
From stdpp Require Import gmap functions list.
Local Open Scope Z_scope.
Local Open Scope ark_scope.

(** ** The lists of runs *)
Definition valid (id : ListId) : Prop := match id with SizeList i => (i < SLOTS_SIZES_VARIANTS)%nat | FreeList => True end.

(** [ls] are the runs in each list; a run of [D] that is in none has no links. *)
Record lists_ok (s : State) (ls : ListId -> list Z) (D : Z -> Prop) : Prop := {
  lo_rep : forall id, valid id -> list_rep s id (ls id);
  lo_valid : forall id a, a ∈ ls id -> valid id;
  lo_in : forall id a, a ∈ ls id -> D a;
  lo_one : forall id id' a, a ∈ ls id -> a ∈ ls id' -> id = id';
  lo_out : forall a, D a -> (forall id, a ∉ ls id) -> rnext (runs s) a = 0 /\ rprev (runs s) a = 0;
}.

Lemma lists_relink s s' ls D id ch l' :
  lists_ok s ls D -> valid id -> relinked s s' ch id -> list_rep s' id l' -> (forall a, a ∈ ch -> D a /\ forall id', id' <> id -> a ∉ ls id') ->
  (forall a, a ∈ l' -> a ∈ ch) -> (forall a, a ∈ ls id -> a ∈ ch) -> (forall a, a ∈ ch -> a ∉ l' -> rnext (runs s') a = 0 /\ rprev (runs s') a = 0) ->
  lists_ok s' (<[id := l']> ls) D.
Proof.
  intros Hk Hid Hr Hl Hch Hsub Hold Hnone.
  assert (Hother : forall a id', id' <> id -> a ∈ ls id' -> runs s' !! a = runs s !! a).
  { intros a id' Hne Ha. apply (rl_same _ _ _ _ Hr). intros Hc. by apply (proj2 (Hch a Hc) id' Hne). }
  split.
  - intros id' Hid'. destruct (decide (id' = id)) as [->|Hne]; [by rewrite fn_lookup_insert|]. rewrite fn_lookup_insert_ne by done.
    destruct (lo_rep _ _ _ Hk id' Hid') as [El Hd]. split; [by rewrite (rl_lists _ _ _ _ Hr)|]. eapply dll_frame; [|exact Hd].
    intros a Ha. unfold next, prev. rewrite (Hother a id' Hne Ha). split; [|done]. by apply (dll_dom _ _ _ _ Hd).
  - intros id' a. destruct (decide (id' = id)) as [->|Hne]; [done|]. rewrite fn_lookup_insert_ne by done. apply (lo_valid _ _ _ Hk).
  - intros id' a. destruct (decide (id' = id)) as [->|Hne]; [rewrite fn_lookup_insert; intros Ha; by apply Hch, Hsub|].
    rewrite fn_lookup_insert_ne by done. apply (lo_in _ _ _ Hk).
  - intros id1 id2 a. destruct (decide (id1 = id)) as [->|H1], (decide (id2 = id)) as [->|H2];
      rewrite ?fn_lookup_insert, ?(fn_lookup_insert_ne _ id) by done; [done| | |apply (lo_one _ _ _ Hk)].
    + intros Ha Ha'. exfalso. by apply (proj2 (Hch a (Hsub a Ha)) id2 H2).
    + intros Ha Ha'. exfalso. by apply (proj2 (Hch a (Hsub a Ha')) id1 H1).
  - intros a Ha Hnot. pose proof (Hnot id) as Hl'. rewrite fn_lookup_insert in Hl'. destruct (decide (a ∈ ch)) as [Hc|Hc]; [by apply Hnone|].
    unfold next, prev. rewrite (rl_same _ _ _ _ Hr a Hc). apply (lo_out _ _ _ Hk a Ha). intros id'. destruct (decide (id' = id)) as [->|Hne].
    + intros Hin. by apply Hc, Hold.
    + specialize (Hnot id'). by rewrite fn_lookup_insert_ne in Hnot.
Qed.

Lemma lists_push s ls D id x :
  lists_ok s ls D -> valid id -> D x -> x <> 0 -> is_Some (runs s !! x) -> (forall id, x ∉ ls id) ->
  exists s', PushToTail id x s = Done (s', tt) /\ lists_ok s' (<[id := ls id ++ [x]]> ls) D /\ relinked s s' (ls id ++ [x]) id.
Proof.
  intros Hk Hid HD Hx0 [r Er] Hx. destruct (lo_out _ _ _ Hk x HD Hx) as [Hn Hp]. rewrite (next_some _ _ _ _ Er) in Hn. rewrite (prev_some _ _ _ _ Er) in Hp.
  destruct (PushToTail_spec s id (ls id) x r) as (s' & E & Hl & Hr); [by apply (lo_rep _ _ _ Hk)|done..|]. exists s'. split_and!; try done.
  eapply lists_relink; try done; [|set_solver]. intros a [Ha| ->%list_elem_of_singleton]%elem_of_app; [|by split].
  split; [by eapply lo_in|]. intros id' Hne Ha'. apply Hne. by eapply lo_one.
Qed.

Lemma lists_remove s ls D id l1 x l2 :
  lists_ok s ls D -> ls id = l1 ++ x :: l2 ->
  exists s', PopFromList id x s = Done (s', tt) /\ lists_ok s' (<[id := l1 ++ l2]> ls) D /\ relinked s s' (ls id) id.
Proof.
  intros Hk E. assert (Hx : x ∈ ls id) by (rewrite E; set_solver). pose proof (lo_valid _ _ _ Hk id x Hx) as Hid.
  pose proof (lo_rep _ _ _ Hk id Hid) as Hl. rewrite E in Hl. destruct (PopFromList_spec s id l1 x l2 Hl) as (s' & Ep & Hl' & Hr & Hn & Hp).
  exists s'. split_and!; [done| |by rewrite E]. eapply lists_relink; try done.
  - rewrite <- E. intros a Ha. split; [by eapply lo_in|]. intros id' Hne Ha'. apply Hne. by eapply lo_one.
  - set_solver.
  - by rewrite E.
  - intros a Ha Hna. assert (a = x) by set_solver. by subst.
Qed.

Lemma lists_pop_head s ls D id x l :
  lists_ok s ls D -> ls id = x :: l ->
  exists s', PopFromHead id s = Done (s', x) /\ lists_ok s' (<[id := l]> ls) D /\ relinked s s' (ls id) id.
Proof.
  intros Hk E. assert (Hx : x ∈ ls id) by (rewrite E; set_solver). pose proof (lo_valid _ _ _ Hk id x Hx) as Hid.
  pose proof (lo_rep _ _ _ Hk id Hid) as Hl. rewrite E in Hl. destruct (PopFromHead_spec s id x l Hl) as (s' & Ep & Hl' & Hr & Hn & Hp).
  exists s'. split_and!; [done| |by rewrite E]. eapply lists_relink; try done.
  - rewrite <- E. intros a Ha. split; [by eapply lo_in|]. intros id' Hne Ha'. apply Hne. by eapply lo_one.
  - set_solver.
  - by rewrite E.
  - intros a Ha Hna. assert (a = x) by set_solver. by subst.
Qed.

(** The lists do not change when the links of the runs in them do not. *)
Lemma lists_frame s s' ls D D' :
  (forall id, list_of s' id = list_of s id) ->
  (forall id a, a ∈ ls id -> is_Some (runs s' !! a) /\ rnext (runs s') a = rnext (runs s) a /\ rprev (runs s') a = rprev (runs s) a) ->
  (forall id a, a ∈ ls id -> D' a) -> (forall a, D' a -> (forall id, a ∉ ls id) -> rnext (runs s') a = 0 /\ rprev (runs s') a = 0) ->
  lists_ok s ls D -> lists_ok s' ls D'.
Proof.
  intros Hl Hf Hin Hout Hk. split; try done; [|apply Hk|apply Hk]. intros id Hid. destruct (lo_rep _ _ _ Hk id Hid) as [El Hd].
  split; [by rewrite Hl|]. eapply dll_frame; [|exact Hd]. intros a. apply Hf.
Qed.

(** ** The invariant *)
Section Inv.
Context `{Layout}.

(** The list a run with the occupied slots [live] belongs to. *)
Definition home (r : RunSlots) (live : gset Z) : option ListId :=
  if decide (live = ∅) then Some FreeList else if IsFull r then None else Some (SizeList (Z.to_nat (Z.log2 (slotSize_ r)))).

(** [G] has the free and the occupied slots of every run in use; the run [out] may be in another list than its own. *)
Record inv (s : State) (full part free : list Z) (ls : ListId -> list Z) (G : gmap Z (list Z * gset Z)) (out : option Z) : Prop := {
  inv_pools : pools_ok s full part free;
  inv_lists : lists_ok s ls (fun a => is_Some (G !! a));
  inv_dom : forall a, is_Some (G !! a) <-> exists p, owner s (full ++ part) p a;
  inv_runs : forall a fl live, G !! a = Some (fl, live) ->
    exists r, runs s !! a = Some r /\ run_ok a (words s) r fl live /\ owner s (full ++ part) (poolPointer_ r) a;
  inv_home : forall a fl live r, G !! a = Some (fl, live) -> runs s !! a = Some r -> out <> Some a -> forall id, a ∈ ls id <-> home r live = Some id;
}.

Lemma inv_weaken s full part free ls G x : inv s full part free ls G None -> inv s full part free ls G (Some x).
Proof. intros []. split; try done. intros a fl live r Ha Hr _. by eapply inv_home0. Qed.

Lemma inv_settle s full part free ls G x fl live r :
  inv s full part free ls G (Some x) -> G !! x = Some (fl, live) -> runs s !! x = Some r -> (forall id, x ∈ ls id <-> home r live = Some id) ->
  inv s full part free ls G None.
Proof.
  intros Hi Hx Hr Hh. destruct Hi. split; try done. intros a fl' live' r' Ha Hr' _. destruct (decide (a = x)) as [->|]; [by simplify_eq|].
  eapply inv_home0; eauto. congruence.
Qed.

Lemma inv_null s full part free ls G out x : inv s full part free ls G out -> is_Some (G !! x) -> x <> 0.
Proof. intros Hi [p Hp]%(inv_dom _ _ _ _ _ _ _ Hi). pose proof (owner_bounds _ _ _ _ _ _ (inv_pools _ _ _ _ _ _ _ Hi) Hp). lia. Qed.

(** The slots of a run are in its page; other runs are in other pages. *)
Lemma inv_apart s full part free ls G out x y fl live b :
  inv s full part free ls G out -> G !! y = Some (fl, live) -> b ∈ live \/ b ∈ fl -> is_Some (G !! x) -> x <> y -> ~ (x <= b < x + 4096).
Proof.
  intros Hi Hy Hb [p Hp]%(inv_dom _ _ _ _ _ _ _ Hi) Hne Hin. destruct (inv_runs _ _ _ _ _ _ _ Hi y fl live Hy) as (r & _ & Hr & _).
  destruct (owner_bounds _ _ _ _ _ _ (inv_pools _ _ _ _ _ _ _ Hi) Hp) as (_ & [c Ec] & _). destruct (run_page _ _ _ _ _ Hr) as (_ & [d Ed] & _).
  pose proof (run_slot _ _ _ _ _ b Hr Hb) as Hs. pose proof (run_number _ _ _ _ _ b Hr Hs) as [? _]. lia.
Qed.

(** A run is changed. *)
Lemma inv_set_run s full part free ls G out x fl live fl' live' r r' w' s' :
  inv s full part free ls G out -> out = None \/ out = Some x -> G !! x = Some (fl, live) -> runs s !! x = Some r ->
  run_ok x w' r' fl' live' -> poolPointer_ r' = poolPointer_ r -> nextRunslot_ r' = nextRunslot_ r -> prevRunslot_ r' = prevRunslot_ r ->
  (forall b, ~ (x <= b < x + 4096) -> w' b = words s b) ->
  words s' = w' -> runs s' = <[x := r']> (runs s) -> pools s' = pools s -> memoryPool_ s' = memoryPool_ s -> (forall id, list_of s' id = list_of s id) ->
  inv s' full part free ls (<[x := (fl', live')]> G) (Some x).
Proof.
  intros Hi Hout Hx Er Hrun Hpp Hnx Hpv Hw Ew Es Ep Em El.
  assert (Hdom : forall a, is_Some (<[x := (fl', live')]> G !! a) <-> is_Some (G !! a)).
  { intros a. destruct (decide (a = x)) as [->|]; [rewrite lookup_insert_eq, Hx; split; eauto|by rewrite lookup_insert_ne]. }
  assert (Hown : forall p a, owner s' (full ++ part) p a <-> owner s (full ++ part) p a) by (intros p a; apply owner_frame; intros q _; by rewrite Ep).
  assert (Hlinks : forall a, rnext (runs s') a = rnext (runs s) a /\ rprev (runs s') a = rprev (runs s) a).
  { intros a. rewrite Es, next_insert, prev_insert. case_decide; [subst a|done]. by rewrite (next_some _ _ _ _ Er), (prev_some _ _ _ _ Er). }
  split.
  - eapply pools_frame; [|done|apply Hi]. intros p _. by rewrite Ep.
  - eapply lists_frame; [done| | | |apply Hi].
    + intros id a Ha. split; [|apply Hlinks]. pose proof (lo_in _ _ _ (inv_lists _ _ _ _ _ _ _ Hi) id a Ha) as [[fa la] HG].
      destruct (inv_runs _ _ _ _ _ _ _ Hi a fa la HG) as (ra & Era & _). rewrite Es, lookup_insert_is_Some'. eauto.
    + intros id a Ha. apply Hdom. by apply (lo_in _ _ _ (inv_lists _ _ _ _ _ _ _ Hi) id).
    + intros a Ha Hnot. destruct (Hlinks a) as [-> ->]. apply (lo_out _ _ _ (inv_lists _ _ _ _ _ _ _ Hi)); [by apply Hdom|done].
  - intros a. rewrite Hdom, (inv_dom _ _ _ _ _ _ _ Hi). by setoid_rewrite Hown.
  - intros a fa la HG. destruct (decide (a = x)) as [->|Hne].
    + rewrite lookup_insert_eq in HG. injection HG as <- <-. exists r'. rewrite Es, lookup_insert_eq, Hpp, Ew. split_and!; [done|done|].
      apply Hown. destruct (inv_runs _ _ _ _ _ _ _ Hi x fl live Hx) as (r0 & Er0 & _ & Ho). congruence.
    + rewrite lookup_insert_ne in HG by done. destruct (inv_runs _ _ _ _ _ _ _ Hi a fa la HG) as (ra & Era & Hra & Ho). exists ra.
      rewrite Es, lookup_insert_ne by done. split_and!; [done| |by apply Hown]. eapply run_frame; [|exact Hra]. intros b Hb. rewrite Ew.
      apply Hw. eapply inv_apart; eauto.
  - intros a fa la ra HG Era Hne id. assert (a <> x) by congruence. rewrite lookup_insert_ne in HG by done. rewrite Es, lookup_insert_ne in Era by done.
    eapply inv_home; eauto. destruct Hout as [->| ->]; congruence.
Qed.

(** Lists change, and with them only links of runs. *)
Lemma inv_relinked s s' full part free ls ls' G out x ch id :
  inv s full part free ls G out -> out = None \/ out = Some x -> relinked s s' ch id -> lists_ok s' ls' (fun a => is_Some (G !! a)) ->
  (forall a id, a <> x -> a ∈ ls' id <-> a ∈ ls id) -> inv s' full part free ls' G (Some x).
Proof.
  intros Hi Hout Hr Hl Hsame.
  assert (Hown : forall p a, owner s' (full ++ part) p a <-> owner s (full ++ part) p a) by (intros p a; apply owner_frame; intros q _; by rewrite (rl_pools _ _ _ _ Hr)).
  assert (Hbody : forall a r, runs s !! a = Some r -> exists r', runs s' !! a = Some r' /\ same_body r r').
  { intros a r Er. pose proof (rl_bodies _ _ _ _ Hr a) as Hb. rewrite Er in Hb. inversion Hb; subst. eauto. }
  split.
  - eapply pools_frame; [|apply Hr|apply Hi]. intros p _. by rewrite (rl_pools _ _ _ _ Hr).
  - done.
  - intros a. rewrite (inv_dom _ _ _ _ _ _ _ Hi). by setoid_rewrite Hown.
  - intros a fa la HG. destruct (inv_runs _ _ _ _ _ _ _ Hi a fa la HG) as (ra & Era & Hra & Ho). destruct (Hbody a ra Era) as (r' & Er' & Hb).
    exists r'. destruct Hb as (E1 & E2 & E3 & E4 & E5 & E6). rewrite E4, (rl_words _ _ _ _ Hr). split_and!; [done| |by apply Hown].
    by eapply run_relink.
  - intros a fa la ra HG Era Hne id'. assert (Hax : a <> x) by congruence. rewrite Hsame by done.
    destruct (inv_runs _ _ _ _ _ _ _ Hi a fa la HG) as (r0 & Er0 & _). destruct (Hbody a r0 Er0) as (r' & Er' & (_ & E2 & E3 & _ & E5 & _)). simplify_eq.
    assert (Eh : home ra la = home r0 la) by (unfold home, IsFull; by rewrite E2, E3, E5). rewrite Eh. eapply inv_home; eauto.
    destruct Hout as [->| ->]; congruence.
Qed.

Lemma inv_attach s full part free ls G x fl live r id :
  inv s full part free ls G (Some x) -> G !! x = Some (fl, live) -> runs s !! x = Some r -> (forall id, x ∉ ls id) -> valid id -> home r live = Some id ->
  exists s' ls', PushToTail id x s = Done (s', tt) /\ inv s' full part free ls' G None /\ words s' = words s /\ pools s' = pools s /\
    (forall a r, runs s !! a = Some r -> exists r', runs s' !! a = Some r' /\ same_body r r').
Proof.
  intros Hi Hx Er Hnot Hid Hh. destruct (lists_push s ls (fun a => is_Some (G !! a)) id x) as (s' & E & Hl & Hr); try done; [apply Hi|eapply inv_null; [done|by rewrite Hx]|].
  exists s', (<[id := ls id ++ [x]]> ls). split; [done|].
  assert (Hbody : forall a r, runs s !! a = Some r -> exists r', runs s' !! a = Some r' /\ same_body r r').
  { intros a ra Era. pose proof (rl_bodies _ _ _ _ Hr a) as Hb. rewrite Era in Hb. inversion Hb; subst. eauto. }
  split_and!; [|apply Hr|apply Hr|done]. destruct (Hbody x r Er) as (r' & Er' & (_ & E2 & E3 & _ & E5 & _)).
  assert (Eh : home r' live = Some id) by (rewrite <- Hh; unfold home, IsFull; by rewrite E2, E3, E5).
  eapply (inv_settle _ _ _ _ _ _ x fl live r'); [|done|done|].
  - eapply inv_relinked; [exact Hi|by right|done|done|]. intros a id' Hne. destruct (decide (id' = id)) as [->|]; [rewrite fn_lookup_insert; set_solver|by rewrite fn_lookup_insert_ne].
  - intros id'. rewrite Eh. destruct (decide (id' = id)) as [->|Hne]; [rewrite fn_lookup_insert; set_solver|].
    rewrite fn_lookup_insert_ne by done. split; [intros Ha; by apply Hnot in Ha|congruence].
Qed.

Definition same_bodies (s s' : State) : Prop := forall a r, runs s !! a = Some r -> exists r', runs s' !! a = Some r' /\ same_body r r'.

Lemma relinked_bodies s s' ch id : relinked s s' ch id -> same_bodies s s'.
Proof. intros Hr a r Er. pose proof (rl_bodies _ _ _ _ Hr a) as Hb. rewrite Er in Hb. inversion Hb; subst. eauto. Qed.

(** A run is taken out of its list. *)
Lemma inv_detach s s' full part free ls G out x id l1 l2 :
  inv s full part free ls G out -> out = None \/ out = Some x -> ls id = l1 ++ x :: l2 ->
  lists_ok s' (<[id := l1 ++ l2]> ls) (fun a => is_Some (G !! a)) -> relinked s s' (ls id) id ->
  inv s' full part free (<[id := l1 ++ l2]> ls) G (Some x) /\ (forall id', x ∉ <[id := l1 ++ l2]> ls id') /\ same_bodies s s' /\
  words s' = words s /\ pools s' = pools s /\ is_Some (G !! x).
Proof.
  intros Hi Hout E Hl Hr. assert (Hx : x ∈ ls id) by (rewrite E; set_solver). split_and!.
  - eapply inv_relinked; [exact Hi|done|done|done|]. intros a id' Hne. destruct (decide (id' = id)) as [->|]; [rewrite fn_lookup_insert, E; set_solver|by rewrite fn_lookup_insert_ne].
  - intros id'. destruct (decide (id' = id)) as [->|Hne].
    + rewrite fn_lookup_insert. pose proof (lo_valid _ _ _ (inv_lists _ _ _ _ _ _ _ Hi) id x Hx) as Hid.
      destruct (lo_rep _ _ _ (inv_lists _ _ _ _ _ _ _ Hi) id Hid) as [_ Hd]. rewrite E in Hd.
      pose proof (dll_nodup _ _ _ _ Hd) as (_ & Hn & [Hn2 _]%NoDup_cons)%NoDup_app. intros [Hx1|Hx2]%elem_of_app; [|done].
      apply (Hn x Hx1). constructor.
    + rewrite fn_lookup_insert_ne by done. intros Hx'. apply Hne. by eapply (lo_one _ _ _ (inv_lists _ _ _ _ _ _ _ Hi)).
  - by eapply relinked_bodies.
  - apply Hr.
  - apply Hr.
  - by apply (lo_in _ _ _ (inv_lists _ _ _ _ _ _ _ Hi) id).
Qed.

Lemma inv_pop_head s full part free ls G id x l :
  inv s full part free ls G None -> ls id = x :: l ->
  exists s' ls', PopFromHead id s = Done (s', x) /\ inv s' full part free ls' G (Some x) /\ (forall id', x ∉ ls' id') /\ same_bodies s s' /\
    words s' = words s /\ pools s' = pools s /\ is_Some (G !! x).
Proof.
  intros Hi E. destruct (lists_pop_head s ls _ id x l (inv_lists _ _ _ _ _ _ _ Hi) E) as (s' & Ep & Hl & Hr). exists s', (<[id := l]> ls).
  split; [done|]. apply (inv_detach s s' full part free ls G None x id [] l); auto.
Qed.

Lemma inv_pop_list s full part free ls G out x id :
  inv s full part free ls G out -> out = None \/ out = Some x -> x ∈ ls id ->
  exists s' ls', PopFromList id x s = Done (s', tt) /\ inv s' full part free ls' G (Some x) /\ (forall id', x ∉ ls' id') /\ same_bodies s s' /\
    words s' = words s /\ pools s' = pools s /\ is_Some (G !! x).
Proof.
  intros Hi Hout (l1 & l2 & E)%list_elem_of_split. destruct (lists_remove s ls _ id l1 x l2 (inv_lists _ _ _ _ _ _ _ Hi) E) as (s' & Ep & Hl & Hr).
  exists s', (<[id := l1 ++ l2]> ls). split; [done|]. by apply (inv_detach s s' full part free ls G out x id l1 l2).
Qed.

(** A new run, from the pools. *)
Lemma inv_new s full part free ls G k :
  inv s full part free ls G None -> 3 <= k <= 8 ->
  (part = [] /\ free = [] /\ GetNewRunSlots (2 ^ k) s = Done (s, 0)) \/
  exists s' x p full' part' free', GetNewRunSlots (2 ^ k) s = Done (s', x) /\ inv s' full' part' free' ls (<[x := ([], ∅)]> G) (Some x) /\
    G !! x = None /\ (forall id, x ∉ ls id) /\ runs s' = <[x := Initialize (2 ^ k) p]> (runs s) /\ words s' = words s /\ x <> 0 /\
    (forall q n, extent s' (full' ++ part' ++ free') q n <-> extent s (full ++ part ++ free) q n).
Proof.
  intros Hi Hk. destruct (GetNewRunSlots_spec s full part free (2 ^ k) (inv_pools _ _ _ _ _ _ _ Hi))
    as [?|(s' & x & p & full' & part' & free' & E & Hp' & Hown & Hnew & Hr & [Hw Hl] & Hext)]; [by left|right].
  assert (HG : G !! x = None).
  { apply eq_None_not_Some. intros [q Hq]%(inv_dom _ _ _ _ _ _ _ Hi). by apply (Hnew q). }
  assert (Hnot : forall id, x ∉ ls id).
  { intros id Hx. apply (lo_in _ _ _ (inv_lists _ _ _ _ _ _ _ Hi)) in Hx as [? Hx]. congruence. }
  assert (Hox : owner s' (full' ++ part') p x) by (apply Hown; by left).
  destruct (owner_bounds _ _ _ _ _ _ Hp' Hox) as (H0 & Hd & Hlow & Hhigh).
  exists s', x, p, full', part', free'. split; [done|]. split_and!; try done; [|lia].
  assert (Hdom : forall a, is_Some (<[x := ([], ∅)]> G !! a) <-> a = x \/ is_Some (G !! a)).
  { intros a. rewrite lookup_insert_is_Some'. naive_solver. }
  split.
  - done.
  - eapply lists_frame; [done| | | |apply Hi].
    + intros id a Ha. assert (a <> x) by (intros ->; by eapply Hnot). rewrite Hr, next_insert, prev_insert, !decide_False, lookup_insert_ne by done.
      split; [|done]. pose proof (lo_in _ _ _ (inv_lists _ _ _ _ _ _ _ Hi) id a Ha) as [[fa la] HGa].
      destruct (inv_runs _ _ _ _ _ _ _ Hi a fa la HGa) as (ra & Era & _). by rewrite Era.
    + intros id a Ha. apply Hdom. right. by apply (lo_in _ _ _ (inv_lists _ _ _ _ _ _ _ Hi) id).
    + intros a [->|Ha]%Hdom Hn; rewrite Hr, next_insert, prev_insert; [by rewrite !decide_True|].
      rewrite !decide_False by (intros ->; rewrite HG in Ha; by destruct Ha). by apply (lo_out _ _ _ (inv_lists _ _ _ _ _ _ _ Hi)).
  - intros a. rewrite Hdom, (inv_dom _ _ _ _ _ _ _ Hi). setoid_rewrite Hown. naive_solver.
  - intros a fa la HGa. destruct (decide (a = x)) as [->|Hne].
    + rewrite lookup_insert_eq in HGa. injection HGa as <- <-. exists (Initialize (2 ^ k) p). rewrite Hr, lookup_insert_eq. split_and!; [done| |done].
      apply Initialize_ok; try done. lia.
    + rewrite lookup_insert_ne in HGa by done. destruct (inv_runs _ _ _ _ _ _ _ Hi a fa la HGa) as (ra & Era & Hra & Ho). exists ra.
      rewrite Hr, lookup_insert_ne, Hw by done. split_and!; [done..|]. apply Hown. by right.
  - intros a fa la ra HGa Era Hne id. assert (a <> x) by congruence. rewrite lookup_insert_ne in HGa by done. rewrite Hr, lookup_insert_ne in Era by done.
    by eapply (inv_home _ _ _ _ _ _ _ Hi).
Qed.
End Inv.
