(* ===== verification/RunSlotsAlloc.v ===== *)
(** Allocation and release: the blocks of the allocator and what [Alloc] and [Free] do to them. *)
From S2P Require Import Prelude Leb128 GcBitmap RunSlots RunSlotsAllocator MemLists RunSlotsLists RunSlotsPools RunSlotsManager RunSlotsInv.
From stdpp Require Import gmap functions list.
Local Open Scope Z_scope.
Local Open Scope ark_scope.

(** ** Slot sizes *)
Lemma Convert_loop fuel size i :
  0 <= i -> 2 ^ i <= 2 ^ 62 -> size <= 2 ^ (i + Z.of_nat fuel) -> i + Z.of_nat fuel <= 62 ->
  exists k, ConvertToPowerOfTwo_loop (S fuel) size i (2 ^ i) = Done k /\ i <= k <= i + Z.of_nat fuel /\ size <= 2 ^ k /\ (i < k -> 2 ^ (k - 1) < size).
Proof.
  revert i. induction fuel as [|fuel IH]; intros i Hi Hp Hs Hb.
  - exists i. unfold ConvertToPowerOfTwo_loop. rewrite Z.add_0_r in Hs. rewrite (proj2 (Z.ltb_ge _ _) Hs). split_and!; try done; lia.
  - cbn [ConvertToPowerOfTwo_loop]. destruct (Z.ltb_spec (2 ^ i) size) as [Hlt|Hge]; [|exists i; split_and!; try done; lia].
    rewrite Z.shiftl_mul_pow2 by lia. assert (E : 2 ^ i * 2 ^ 1 = 2 ^ (i + 1)) by (rewrite Z.pow_add_r by lia; done).
    assert (2 ^ (i + 1) <= 2 ^ 62) by (apply Z.pow_le_mono_r; lia). rewrite E, wrapu_id by (unfold in_u; pose proof (pow2_pos (i + 1)); lia).
    destruct (IH (i + 1)) as (k & Ek & Hk & Hsk & Hlow); [lia|lia|by replace (i + 1 + Z.of_nat fuel) with (i + Z.of_nat (S fuel)) by lia|lia|].
    exists k. split; [exact Ek|]. split_and!; [lia|lia|done|]. intros _. destruct (Z.eq_dec k (i + 1)) as [->|]; [by replace (i + 1 - 1) with i by lia|apply Hlow; lia].
Qed.

Lemma Convert_spec size :
  size <= 256 -> exists k, ConvertToPowerOfTwoUnsafe size = Done k /\ 3 <= k <= 8 /\ size <= 2 ^ k /\ (3 < k -> 2 ^ (k - 1) < size).
Proof.
  intros Hs. unfold ConvertToPowerOfTwoUnsafe. change MinSlotSize with (2 ^ 3). unfold SLOT_MIN_SIZE_BYTES_POWER_OF_TWO.
  destruct (Convert_loop 59 size 3) as (k & E & Hk & Hsk & Hlow); [lia|done| |lia|].
  { etrans; [exact Hs|]. change 256 with (2 ^ 8). apply Z.pow_le_mono_r; lia. }
  assert (Hk8 : k <= 8).
  { destruct (Z.le_gt_cases k 8); [done|]. exfalso. specialize (Hlow ltac:(lia)). assert (2 ^ 8 <= 2 ^ (k - 1)) by (apply Z.pow_le_mono_r; lia).
    change (2 ^ 8) with 256 in *. lia. }
  exists k. split; [|split_and!; try done; lia]. revert E. clear.
  assert (Hmono : forall m n i v k, ConvertToPowerOfTwo_loop n size i v = Done k -> ConvertToPowerOfTwo_loop (n + m) size i v = Done k).
  { clear. intros m. induction n as [|n IH]; intros i v k; [done|]. cbn [ConvertToPowerOfTwo_loop Nat.add]. destruct (v <? size); [apply IH|done]. }
  intros E. apply (Hmono 4%nat) in E. by rewrite Nat.add_comm in E.
Qed.

Lemma Convert_pow k : 3 <= k <= 8 -> ConvertToPowerOfTwoUnsafe (2 ^ k) = Done k.
Proof.
  intros Hk. destruct (size_divides k Hk) as (_ & _ & Hs). destruct (Convert_spec (2 ^ k)) as (j & E & Hj & Hle & Hlow); [lia|]. rewrite E. f_equal.
  apply Z.pow_le_mono_r_iff in Hle; [|lia..]. destruct (Z.eq_dec j 3); [lia|]. specialize (Hlow ltac:(lia)). apply Z.pow_lt_mono_r_iff in Hlow; lia.
Qed.

(** ** Blocks
    The occupied slots of the runs in use, with their sizes. *)
Definition is_block (s : State) (G : gmap Z (list Z * gset Z)) (p n : Z) : Prop :=
  exists a fl live r, G !! a = Some (fl, live) /\ runs s !! a = Some r /\ p ∈ live /\ slotSize_ r = n.

Lemma block_bodies s s' G p n :
  same_bodies s s' -> (forall a, is_Some (G !! a) -> is_Some (runs s !! a)) -> is_block s' G p n <-> is_block s G p n.
Proof.
  intros Hb Hd. split; intros (a & fl & live & r & HG & Er & Hp & Hn); exists a, fl, live.
  - destruct (Hd a) as [r0 Er0]; [by rewrite HG|]. destruct (Hb a r0 Er0) as (r' & Er' & (_ & E2 & _)). exists r0. split_and!; try done. congruence.
  - destruct (Hb a r Er) as (r' & Er' & (_ & E2 & _)). exists r'. split_and!; try done. congruence.
Qed.

(** The slots of the run [x] become [live']. *)
Lemma block_set s s' G x fl' live' r' q n :
  runs s' = <[x := r']> (runs s) ->
  is_block s' (<[x := (fl', live')]> G) q n <->
  q ∈ live' /\ slotSize_ r' = n \/ exists a fl live r, a <> x /\ G !! a = Some (fl, live) /\ runs s !! a = Some r /\ q ∈ live /\ slotSize_ r = n.
Proof.
  intros Es. split.
  - intros (a & fl & live & r & HG & Er & Hq & Hn). rewrite Es in Er. destruct (decide (a = x)) as [->|Hne].
    + rewrite lookup_insert_eq in HG. rewrite lookup_insert_eq in Er. simplify_eq. by left.
    + rewrite lookup_insert_ne in HG by done. rewrite lookup_insert_ne in Er by done. right. eauto 10.
  - intros [[Hq Hn]|(a & fl & live & r & Hne & HG & Er & Hq & Hn)].
    + exists x, fl', live', r'. by rewrite Es, !lookup_insert_eq.
    + exists a, fl, live, r. by rewrite Es, !lookup_insert_ne.
Qed.

Lemma block_split s G x fl live r q n :
  G !! x = Some (fl, live) -> runs s !! x = Some r ->
  is_block s G q n <->
  q ∈ live /\ slotSize_ r = n \/ exists a fl live r, a <> x /\ G !! a = Some (fl, live) /\ runs s !! a = Some r /\ q ∈ live /\ slotSize_ r = n.
Proof.
  intros Hx Er. unfold is_block. split.
  - intros (a & fl0 & live0 & r0 & HG & Er0 & Hq & Hn). destruct (decide (a = x)) as [->|Hne]; [simplify_eq; by left|right; eauto 10].
  - intros [[Hq Hn]|(a & fl0 & live0 & r0 & Hne & HG & Er0 & Hq & Hn)]; eauto 10.
Qed.

Section Alloc.
Context `{Layout}.

Lemma inv_header s full part free ls G out a : inv s full part free ls G out -> is_Some (G !! a) -> is_Some (runs s !! a).
Proof. intros Hi [[fl live] HG]. destruct (inv_runs _ _ _ _ _ _ _ Hi a fl live HG) as (r & -> & _). eauto. Qed.

(** The blocks of the allocator are apart from each other. *)
Lemma block_apart s full part free ls G out p n q m :
  inv s full part free ls G out -> is_block s G p n -> is_block s G q m -> p <> q -> p + n <= q \/ q + m <= p.
Proof.
  intros Hi (a & fl & live & r & HG & Er & Hp & <-) (b & fl' & live' & r' & HG' & Er' & Hq & <-) Hne.
  destruct (inv_runs _ _ _ _ _ _ _ Hi a fl live HG) as (r0 & Er0 & Hr & _). destruct (inv_runs _ _ _ _ _ _ _ Hi b fl' live' HG') as (r1 & Er1 & Hr' & _).
  assert (r0 = r) as -> by congruence. assert (r1 = r') as -> by congruence.
  pose proof (run_slot _ _ _ _ _ p Hr (or_introl Hp)) as Hs. pose proof (run_slot _ _ _ _ _ q Hr' (or_introl Hq)) as Hs'.
  destruct (run_size _ _ _ _ _ Hr) as (k & Hk & E). destruct (run_size _ _ _ _ _ Hr') as (k' & Hk' & E').
  destruct (size_divides k Hk) as (_ & [c Ec] & Hsz). destruct (size_divides k' Hk') as (_ & [c' Ec'] & Hsz'). rewrite <- E in *. rewrite <- E' in *.
  destruct (decide (a = b)) as [->|Hab].
  - assert (r' = r) as -> by congruence. destruct (slot_apart b (slotSize_ r) p q) as [?|?]; try done; [lia|by left|by right].
  - destruct (run_page _ _ _ _ _ Hr) as (_ & [u Eu] & _). destruct (run_page _ _ _ _ _ Hr') as (_ & [v Ev] & _).
    destruct Hs as [[i Ei] Hb]. destruct Hs' as [[j Ej] Hb']. assert (p + slotSize_ r <= a + 4096) by (assert (i < c) by nia; nia).
    assert (q + slotSize_ r' <= b + 4096) by (assert (j < c') by nia; nia).
    assert (0 < ComputeFirstSlotOffset (slotSize_ r)) by (rewrite E; pose proof (ComputeFirstSlotOffset_spec k Hk); pose proof header_size_ok; lia).
    assert (0 < ComputeFirstSlotOffset (slotSize_ r')) by (rewrite E'; pose proof (ComputeFirstSlotOffset_spec k' Hk'); pose proof header_size_ok; lia).
    lia.
Qed.

(** ** Allocation *)
(** A run in a list is the one the list is for. *)
Lemma in_list s full part free ls G a id :
  inv s full part free ls G None -> a ∈ ls id -> exists fl live r, G !! a = Some (fl, live) /\ runs s !! a = Some r /\ run_ok a (words s) r fl live /\ home r live = Some id.
Proof.
  intros Hi Ha. pose proof (lo_in _ _ _ (inv_lists _ _ _ _ _ _ _ Hi) id a Ha) as [[fl live] HG]. destruct (inv_runs _ _ _ _ _ _ _ Hi a fl live HG) as (r & Er & Hr & _).
  exists fl, live, r. split_and!; try done. by eapply (inv_home _ _ _ _ _ _ _ Hi).
Qed.

Lemma home_size r live this w fl k :
  run_ok this w r fl live -> 3 <= k <= 8 -> home r live = Some (SizeList (Z.to_nat k)) -> slotSize_ r = 2 ^ k /\ IsFull r = false /\ live <> ∅.
Proof.
  intros Hr Hk. unfold home. case_decide; [done|]. destruct (IsFull r); [done|]. intros [= E]. destruct (run_size _ _ _ _ _ Hr) as (j & Hj & Ej).
  rewrite Ej, Z.log2_pow2 in E by lia. assert (j = k) as <- by lia. done.
Qed.

Lemma home_free r live : home r live = Some FreeList -> live = ∅.
Proof. unfold home. case_decide; [done|]. by destruct (IsFull r). Qed.

(** The run [x] with header [r] is taken from its list, or is new; blocks and pools are as before. *)
Record taken (s : State) (L P : Z -> Z -> Prop) (x : Z) (r : RunSlots) (live : gset Z) (s' : State) : Prop := {
  tk_inv : exists full part free ls G fl, inv s' full part free ls G (Some x) /\ (forall id, x ∉ ls id) /\ G !! x = Some (fl, live) /\
    (forall p n, is_block s' G p n <-> L p n) /\ (forall p n, extent s' (full ++ part ++ free) p n <-> P p n);
  tk_run : runs s' !! x = Some r;
  tk_words : words s' = words s;
  tk_null : x <> 0;
}.

(** Every run in use has occupied slots, those with slots of this size are full, and no pool has room for another run. *)
Definition exhausted (s : State) (full part free : list Z) (G : gmap Z (list Z * gset Z)) (k : Z) : Prop :=
  part = [] /\ free = [] /\
  forall a fl live r, G !! a = Some (fl, live) -> runs s !! a = Some r -> live <> ∅ /\ (slotSize_ r = 2 ^ k -> IsFull r = true).

Lemma pop_taken s full part free ls G id x l :
  inv s full part free ls G None -> ls id = x :: l ->
  exists s' fl live r, PopFromHead id s = Done (s', x) /\ taken s (is_block s G) (extent s (full ++ part ++ free)) x r live s' /\ run_ok x (words s') r fl live /\ home r live = Some id.
Proof.
  intros Hi E. destruct (inv_pop_head s full part free ls G id x l Hi E) as (s' & ls' & Ep & Hi' & Hnot & Hb & Hw & Hpl & Hx).
  destruct (in_list s full part free ls G x id Hi) as (fl & live & r & HG & Er & Hr & Hh); [rewrite E; constructor|].
  destruct (Hb x r Er) as (r' & Er' & (E1 & E2 & E3 & E4 & E5 & E6)). exists s', fl, live, r'. split_and!; [done| | |].
  - split; [|done|done|by eapply inv_null]. exists full, part, free, ls', G, fl. split_and!; try done.
    + intros p n. apply block_bodies; [done|]. intros a. by eapply inv_header.
    + intros p n. unfold extent. by rewrite Hpl.
  - rewrite Hw. by eapply run_relink.
  - rewrite <- Hh. unfold home, IsFull. by rewrite E2, E3, E5.
Qed.

Lemma find_run_spec s full part free ls G k disable :
  inv s full part free ls G None -> 3 <= k <= 8 ->
  (find_run disable (Z.to_nat k) (2 ^ k) s = Done (s, (0, false)) /\ (disable = false -> exhausted s full part free G k)) \/
  exists s' x b r live, find_run disable (Z.to_nat k) (2 ^ k) s = Done (s', (x, b)) /\ taken s (is_block s G) (extent s (full ++ part ++ free)) x r live s' /\
    (if (b : bool) then live = ∅ else slotSize_ r = 2 ^ k /\ IsFull r = false).
Proof.
  intros Hi Hk. unfold find_run. assert (Hvalid : valid (SizeList (Z.to_nat k))) by (cbn; change SLOTS_SIZES_VARIANTS with 9%nat; lia).
  destruct (ls (SizeList (Z.to_nat k))) as [|x l] eqn:El.
  - erewrite bind_M by (apply PopFromHead_nil; rewrite <- El; by apply (lo_rep _ _ _ (inv_lists _ _ _ _ _ _ _ Hi))). rewrite bool_decide_true by done.
    destruct disable; [left; by split|]. destruct (ls FreeList) as [|x l] eqn:Ef.
    + erewrite bind_M by (apply PopFromHead_nil; rewrite <- Ef; by apply (lo_rep _ _ _ (inv_lists _ _ _ _ _ _ _ Hi))). rewrite bool_decide_true by done. cbn [negb].
      unfold CreateNewRunSlotsFromMemory. destruct (inv_new s full part free ls G k Hi Hk) as [(-> & -> & En)|(s' & x & p & full' & part' & free' & En & Hi' & HG & Hnot & Hr & Hw & Hx0 & Hext)].
      * left. erewrite bind_M by exact En. split; [done|]. intros _. split_and!; [done..|]. intros a fl live r HG Er.
        pose proof (inv_home _ _ _ _ _ _ _ Hi a fl live r HG Er ltac:(done)) as Hh. split.
        -- intros ->. specialize (Hh FreeList). rewrite Ef in Hh. apply (not_elem_of_nil a), Hh. unfold home. by rewrite decide_True.
        -- intros Esz. destruct (IsFull r) eqn:Efull; [done|]. exfalso. destruct (decide (live = ∅)) as [->|Hne].
           ++ specialize (Hh FreeList). rewrite Ef in Hh. apply (not_elem_of_nil a), Hh. unfold home. by rewrite decide_True.
           ++ specialize (Hh (SizeList (Z.to_nat k))). rewrite El in Hh. apply (not_elem_of_nil a), Hh. unfold home. rewrite decide_False, Efull, Esz, Z.log2_pow2 by (done || lia). done.
      * right. erewrite bind_M by exact En. exists s', x, false, (Initialize (2 ^ k) p), ∅. split; [done|]. split.
        -- split; [|by rewrite Hr, lookup_insert_eq|done|done]. exists full', part', free', ls, (<[x := ([], ∅)]> G), []. split_and!; try done; [by rewrite lookup_insert_eq|].
           intros q n. rewrite (block_set s s' G x [] ∅ (Initialize (2 ^ k) p) q n Hr). unfold is_block. split.
           ++ intros [[? _]|(a & fl & live & r & _ & ?)]; [set_solver|eauto 10].
           ++ intros (a & fl & live & r & HGa & ?). right. exists a, fl, live, r. split; [|done]. intros ->. congruence.
        -- destruct (ComputeFirstSlotOffset_spec k Hk) as (_ & Hf & Hf2). destruct (size_divides k Hk) as (_ & _ & Hs). pose proof header_size_ok.
           unfold Initialize, IsFull. cbn [slotSize_ nextFree_ firstUninitializedSlotOffset_]. rewrite !wrapu_id by (unfold in_u; lia).
           rewrite (bool_decide_false (ComputeFirstSlotOffset (2 ^ k) = 0)) by lia. split; [done|apply andb_false_r].
    + right. destruct (pop_taken s full part free ls G FreeList x l Hi Ef) as (s' & fl & live & r & Ep & Ht & Hr & Hh). erewrite bind_M by exact Ep.
      rewrite bool_decide_false by apply Ht. exists s', x, true, r, live. split_and!; [done|done|]. by apply home_free in Hh.
  - right. destruct (pop_taken s full part free ls G _ x l Hi El) as (s' & fl & live & r & Ep & Ht & Hr & Hh). erewrite bind_M by exact Ep.
    rewrite bool_decide_false by apply Ht. exists s', x, false, r, live. split_and!; [done|done| |]; by destruct (home_size _ _ _ _ _ k Hr Hk Hh) as (? & ? & _).
Qed.

(** A block is inside the page of its run. *)
Lemma block_page a w r fl live p :
  run_ok a w r fl live -> p ∈ live -> a + header_size <= p /\ p + slotSize_ r <= a + 4096 /\ (slotSize_ r | p) /\ exists k, 3 <= k <= 8 /\ slotSize_ r = 2 ^ k.
Proof.
  intros Hr Hp. destruct (run_size _ _ _ _ _ Hr) as (k & Hk & E). pose proof (run_slot _ _ _ _ _ p Hr (or_introl Hp)) as [[i Ei] Hb].
  destruct (size_divides k Hk) as (_ & [c Ec] & Hsz). destruct (run_page _ _ _ _ _ Hr) as (_ & [u Eu] & _).
  destruct (ComputeFirstSlotOffset_spec k Hk) as (_ & Hf & _). rewrite <- E in Ec, Hsz, Hf. split_and!; [lia| | |eauto].
  - assert (i < c) by nia. nia.
  - exists (i + u * c). rewrite Z.mul_add_distr_r, <- Z.mul_assoc, <- Ec. lia.
Qed.

(** No free slot starts inside of a block. *)
Lemma block_free s full part free ls G out p n b a fl live :
  inv s full part free ls G out -> is_block s G p n -> p <= b < p + n -> G !! a = Some (fl, live) -> b ∉ fl.
Proof.
  intros Hi (a' & fl' & live' & r' & HG' & Er' & Hp & <-) Hb HG Hbf. destruct (inv_runs _ _ _ _ _ _ _ Hi a' fl' live' HG') as (r & Er & Hr & _).
  assert (r' = r) as -> by congruence. destruct (decide (a' = a)) as [->|Hne].
  - assert (fl' = fl) as -> by congruence. assert (live' = live) as -> by congruence. pose proof (run_slot _ _ _ _ _ p Hr (or_introl Hp)) as H1.
    pose proof (run_slot _ _ _ _ _ b Hr (or_intror Hbf)) as H2. destruct (block_page _ _ _ _ _ p Hr Hp) as (_ & _ & _ & k & Hk & E).
    destruct (size_divides k Hk) as (_ & _ & Hsz). destruct (decide (p = b)) as [->|Hpb]; [by apply (run_disj _ _ _ _ _ Hr b)|].
    destruct (slot_apart a (slotSize_ r) p b) as [?|?]; try done; lia.
  - destruct (block_page _ _ _ _ _ p Hr Hp) as (H1 & H2 & _). pose proof header_size_ok.
    eapply (inv_apart _ _ _ _ _ _ _ a' a fl live b Hi HG (or_intror Hbf)); [by rewrite HG'|done|lia].
Qed.

(** Only the words of free slots matter. *)
Lemma inv_words s full part free ls G out w' :
  inv s full part free ls G out -> (forall a fl live b, G !! a = Some (fl, live) -> b ∈ fl -> w' b = words s b) ->
  inv {| s with words := w' |} full part free ls G out.
Proof.
  intros Hi Hw. split.
  - eapply pools_frame; [| |apply Hi]; done.
  - eapply (lists_frame s); [by intros []| | | |apply Hi].
    + intros id a Ha. split; [|done]. apply (inv_header s full part free ls G out a Hi). by apply (lo_in _ _ _ (inv_lists _ _ _ _ _ _ _ Hi) id).
    + intros id a Ha. by apply (lo_in _ _ _ (inv_lists _ _ _ _ _ _ _ Hi) id).
    + intros a Ha Hnot. by apply (lo_out _ _ _ (inv_lists _ _ _ _ _ _ _ Hi)).
  - intros a. apply (inv_dom _ _ _ _ _ _ _ Hi).
  - intros a fl live HG. destruct (inv_runs _ _ _ _ _ _ _ Hi a fl live HG) as (r & Er & Hr & Ho). exists r. split_and!; try done.
    eapply run_frame; [|exact Hr]. intros b Hb. by eapply Hw.
  - intros a fl live r HG Er. by apply (inv_home _ _ _ _ _ _ _ Hi a fl).
Qed.

(** The state of the allocator with blocks [L] and pools [P]. *)
Definition holds (s : State) (L P : Z -> Z -> Prop) : Prop :=
  exists full part free ls G, inv s full part free ls G None /\ (forall p n, is_block s G p n <-> L p n) /\
    (forall p n, extent s (full ++ part ++ free) p n <-> P p n).

(** Words inside of blocks are the client's. *)
Lemma holds_words s L P w' :
  holds s L P -> (forall b, w' b <> words s b -> exists p n, L p n /\ p <= b < p + n) -> holds {| s with words := w' |} L P.
Proof.
  intros (full & part & free & ls & G & Hi & HL & HP) Hw. exists full, part, free, ls, G. split_and!; [|by intros; rewrite <- HL|by intros; rewrite <- HP].
  apply inv_words; [done|]. intros a fl live b HG Hb. destruct (decide (w' b = words s b)) as [|Hne]; [done|]. destruct (Hw b Hne) as (p & n & Hp & Hin).
  exfalso. eapply block_free; [exact Hi|by apply HL|exact Hin|exact HG|exact Hb].
Qed.

(** An empty run gets the slot size that is needed. *)
Lemma ready_run s L P x r live s' k (b : bool) :
  taken s L P x r live s' -> 3 <= k <= 8 -> (if b then live = ∅ else slotSize_ r = 2 ^ k /\ IsFull r = false) ->
  exists s1 r1 live1, (if b && (GetSlotsSize r != 2 ^ k) then set_run x (Initialize (2 ^ k) (GetPoolPointer r)) else mret tt) s' = Done (s1, tt) /\
    taken s L P x r1 live1 s1 /\ slotSize_ r1 = 2 ^ k /\ IsFull r1 = false.
Proof.
  intros Ht Hk Hb. unfold GetSlotsSize, GetPoolPointer. destruct b; cbn [andb]; [subst live|exists s', r, live; naive_solver].
  destruct Ht as [(full & part & free & ls & G & fl & Hi & Hnot & HG & HL & HP) Er Hw H0].
  destruct (inv_runs _ _ _ _ _ _ _ Hi x fl ∅ HG) as (r0 & Er0 & Hr & Ho). assert (r0 = r) as -> by congruence.
  assert (Hfull : IsFull r = false).
  { destruct (IsFull r) eqn:Ef; [|done]. pose proof (IsFull_two _ _ _ _ _ Ef Hr) as H2. rewrite size_empty in H2. lia. }
  destruct (decide (slotSize_ r = 2 ^ k)) as [Es|Hne].
  { rewrite bool_decide_true by done. exists s', r, ∅. split; [done|]. split_and!; try done. split; try done. eauto 20. }
  rewrite bool_decide_false by done. cbn [negb]. destruct (lo_out _ _ _ (inv_lists _ _ _ _ _ _ _ Hi) x) as [Hn Hp]; [by rewrite HG|done|].
  rewrite (next_some _ _ _ _ Er) in Hn. rewrite (prev_some _ _ _ _ Er) in Hp. destruct (run_page _ _ _ _ _ Hr) as (Hx0 & Hd & Hx).
  pose proof (Initialize_ok x (words s') k (poolPointer_ r) Hx0 Hd Hx Hk) as Hinit.
  eexists _, (Initialize (2 ^ k) (poolPointer_ r)), ∅. split; [reflexivity|]. set (s1 := mkState _ _ _ _ _ _). split.
  - split; [|cbn [runs s1]; by rewrite lookup_insert_eq|done|done]. exists full, part, free, ls, (<[x := ([], ∅)]> G), []. split_and!.
    + eapply (inv_set_run s' _ _ _ _ _ (Some x)); [exact Hi|by right|exact HG|exact Er|exact Hinit|done|by rewrite Hn|by rewrite Hp|done|done|done|done|done|by intros []].
    + done.
    + by rewrite lookup_insert_eq.
    + intros q n. rewrite <- HL, (block_set s' s1 G x [] ∅ (Initialize (2 ^ k) (poolPointer_ r)) q n eq_refl), (block_split s' G x fl ∅ r q n HG Er).
      split; (intros [[? _]|?]; [set_solver|by right]).
    + intros q n. by rewrite <- HP.
  - destruct (ComputeFirstSlotOffset_spec k Hk) as (_ & Hf & Hf2). destruct (size_divides k Hk) as (_ & _ & Hs). pose proof header_size_ok.
    unfold Initialize, IsFull. cbn [slotSize_ nextFree_ firstUninitializedSlotOffset_]. rewrite !wrapu_id by (unfold in_u; lia).
    rewrite (bool_decide_false (ComputeFirstSlotOffset (2 ^ k) = 0)) by lia. split; [done|apply andb_false_r].
Qed.

(** A run of the right size that is not full gives a block: it was not a block before. *)
Lemma alloc_slot s L P x r live s1 k :
  taken s L P x r live s1 -> 3 <= k <= 8 -> slotSize_ r = 2 ^ k -> IsFull r = false -> init_size <= 2 ^ k ->
  exists s2 p, (w ← get words;
                '(r, allocatedMem) ← lift (PopFreeSlot x r w);
                set_run x r;;
                (if allocatedMem == 0 then lift Crash else mret tt);;
                (if negb (IsFull r) then PushToTail (SizeList (Z.to_nat k)) x else mret tt);;
                MemoryInit allocatedMem;;
                mret allocatedMem) s1 = Done (s2, p) /\
    holds s2 (fun q n => q = p /\ n = 2 ^ k \/ L q n) P /\ p <> 0 /\ (2 ^ k | p) /\ (forall n, ~ L p n) /\
    (forall b, words s2 b = if (p <=? b) && (b <? p + init_size) then 0 else words s b).
Proof.
  intros [(full & part & free & ls & G & fl & Hi & Hnot & HG & HL & HP) Er Hw H0] Hk Esz Hfull Hinit.
  destruct (inv_runs _ _ _ _ _ _ _ Hi x fl live HG) as (r0 & Er0 & Hr & Ho). assert (r0 = r) as -> by congruence.
  destruct (PopFreeSlot_spec x (words s1) r fl live Hfull Hr) as (r' & p & fl' & Epop & Hr' & (E1 & E2 & E3 & E4) & Hp & Hslot).
  pose proof (run_number _ _ _ _ _ p Hr Hslot) as [Hoff _]. assert (Hpl : p ∈ {[p]} ∪ live) by set_solver.
  destruct (run_page _ _ _ _ _ Hr) as (Hx0 & _). assert (Hp0 : p <> 0) by lia.
  destruct (block_page _ _ _ _ _ p Hr' Hpl) as (_ & _ & Hdiv & _). rewrite E1, Esz in Hdiv.
  erewrite bind_M by reflexivity. cbv beta. erewrite bind_M by (by apply lift_eq). cbv beta iota. erewrite bind_M by reflexivity. cbn [put set_run].
  rewrite bool_decide_false by done. erewrite bind_M by reflexivity. set (s2 := mkState _ _ _ _ _ _).
  assert (Hi2 : inv s2 full part free ls (<[x := (fl', {[p]} ∪ live)]> G) (Some x)).
  { eapply (inv_set_run s1 _ _ _ _ _ (Some x)); [exact Hi|by right|exact HG|exact Er|exact Hr'|done|done|done|done|done|done|done|done|by intros []]. }
  assert (Hx : <[x := (fl', {[p]} ∪ live)]> G !! x = Some (fl', {[p]} ∪ live)) by (by rewrite lookup_insert_eq).
  assert (Er2 : runs s2 !! x = Some r') by (cbn [s2 runs]; by rewrite lookup_insert_eq).
  assert (HL2 : forall q n, is_block s2 (<[x := (fl', {[p]} ∪ live)]> G) q n <-> q = p /\ n = 2 ^ k \/ L q n).
  { intros q n. rewrite <- HL, (block_set s1 s2 G x fl' ({[p]} ∪ live) r' q n eq_refl), (block_split s1 G x fl live r q n HG Er), E1, Esz.
    rewrite elem_of_union, elem_of_singleton. split; [|naive_solver]. intros [[[->|Hq] <-]|?]; [by left|right; by left|right; by right]. }
  assert (Hnew : forall n, ~ L p n).
  { intros n (a & fa & la & ra & HGa & Era & Hpa & _)%HL. destruct (decide (a = x)) as [->|Hne]; [naive_solver|].
    eapply (inv_apart _ _ _ _ _ _ _ x a fa la p Hi HGa (or_introl Hpa)); [by rewrite HG|done|lia]. }
  assert (Hhome : home r' ({[p]} ∪ live) = if IsFull r' then None else Some (SizeList (Z.to_nat k))).
  { unfold home. rewrite decide_False by set_solver. destruct (IsFull r'); [done|]. by rewrite E1, Esz, Z.log2_pow2 by lia. }
  assert (Hfin : exists s3 ls3, (if negb (IsFull r') then PushToTail (SizeList (Z.to_nat k)) x else mret tt) s2 = Done (s3, tt) /\
            inv s3 full part free ls3 (<[x := (fl', {[p]} ∪ live)]> G) None /\ words s3 = words s2 /\ pools s3 = pools s2 /\ same_bodies s2 s3).
  { destruct (IsFull r') eqn:Ef; cbn [negb].
    - exists s2, ls. split; [done|]. split_and!; try done; [|intros a ra Era; by exists ra]. eapply inv_settle; [exact Hi2|exact Hx|exact Er2|].
      intros id. rewrite Hhome. split; [intros Hin; by apply Hnot in Hin|done].
    - eapply inv_attach; eauto. cbn. change SLOTS_SIZES_VARIANTS with 9%nat. lia. }
  destruct Hfin as (s3 & ls3 & Epush & Hi3 & Hw3 & Hp3 & Hb3). erewrite bind_M by exact Epush. erewrite bind_M by reflexivity.
  eexists _, p. split; [reflexivity|]. split_and!; [|done|done|done|].
  - apply holds_words.
    + exists full, part, free, ls3, (<[x := (fl', {[p]} ∪ live)]> G). split_and!; [done| |].
      * intros q n. rewrite <- HL2. apply block_bodies; [done|]. intros a. by eapply inv_header.
      * intros q n. rewrite <- HP. unfold extent. by rewrite Hp3.
    + intros b Hb. exists p, (2 ^ k). split; [by left|]. destruct (_ && _) eqn:Eb; [|done]. apply andb_true_iff in Eb as [?%Z.leb_le ?%Z.ltb_lt]. lia.
  - intros b. cbn [words]. rewrite Hw3. cbn [s2 words]. by rewrite Hw.
Qed.

(** The size of the slot for a request. *)
Definition request (size align : Z) : Z := if size <? 2 ^ align then 2 ^ align else size.

Lemma Alloc_spec s L P disable size align :
  holds s L P -> 0 < size -> 2 <= align <= 13 -> init_size <= size -> request size align <= 256 ->
  exists k, 3 <= k <= 8 /\ size <= 2 ^ k /\ align <= k /\ (3 < k -> 2 ^ (k - 1) < request size align) /\
  ((Alloc disable size align s = Done (s, 0) /\ (disable = false -> exists full part free ls G, inv s full part free ls G None /\
      (forall p n, is_block s G p n <-> L p n) /\ (forall p n, extent s (full ++ part ++ free) p n <-> P p n) /\ exhausted s full part free G k)) \/
   exists s' p, Alloc disable size align s = Done (s', p) /\ holds s' (fun q n => q = p /\ n = 2 ^ k \/ L q n) P /\ p <> 0 /\ (2 ^ k | p) /\
     (forall n, ~ L p n) /\ (forall b, words s' b = if (p <=? b) && (b <? p + init_size) then 0 else words s b)).
Proof.
  intros (full & part & free & ls & G & Hi & HL & HP) Hsz Hal Hin Hreq. destruct (Convert_spec (request size align) Hreq) as (k & Ek & Hk & Hle & Hlow).
  assert (Hbig : size <= request size align /\ 2 ^ align <= request size align) by (unfold request; destruct (Z.ltb_spec size (2 ^ align)); lia).
  assert (Hkal : align <= k) by (apply (Z.pow_le_mono_r_iff 2); lia). exists k. split; [done|]. split; [lia|]. split; [done|]. split; [done|].
  assert (Eal : GetAlignmentInBytes align = 2 ^ align).
  { unfold GetAlignmentInBytes. rewrite Z.shiftl_1_l, wrapu_id; [done|]. unfold in_u. split; [apply Z.pow_nonneg; lia|apply Z.pow_lt_mono_r; lia]. }
  assert (Hpow : 2 ^ k <= 256) by (apply (size_divides k Hk)). assert (Esz : u64 (Z.shiftl 1 k) = 2 ^ k).
  { rewrite Z.shiftl_1_l, wrapu_id; [done|]. unfold in_u. split; [apply Z.pow_nonneg; lia|lia]. }
  unfold Alloc. rewrite bool_decide_false by lia. rewrite Eal. fold (request size align).
  rewrite (proj2 (Z.ltb_ge MaxSlotSize (request size align))) by (change MaxSlotSize with 256; lia).
  erewrite bind_M by (by apply lift_eq). rewrite Esz.
  destruct (find_run_spec s full part free ls G k disable Hi Hk) as [[Ef Hex]|(s1 & x & b & r & live & Ef & Ht & Hb)]; (erewrite bind_M by exact Ef); cbv beta iota.
  - left. split; [done|]. intros Hd. exists full, part, free, ls, G. auto.
  - right. rewrite bool_decide_false by apply Ht. erewrite bind_M by (apply run_at_eq, Ht).
    destruct (ready_run s _ _ x r live s1 k b Ht Hk Hb) as (s2 & r2 & live2 & E2 & Ht2 & Hs2 & Hf2). erewrite bind_M by exact E2.
    erewrite bind_M by (apply run_at_eq, Ht2).
    destruct (alloc_slot s _ _ x r2 live2 s2 k Ht2 Hk Hs2 Hf2 ltac:(lia)) as (s3 & p & E3 & Hh & H0 & Hd & Hnew & Hw).
    exists s3, p. split; [exact E3|]. split_and!; try done.
    + destruct Hh as (full' & part' & free' & ls' & G' & Hi' & HL' & HP'). exists full', part', free', ls', G'. split; [done|]. split.
      * intros q n. by rewrite HL', HL.
      * intros q n. by rewrite HP', HP.
    + intros n. rewrite <- HL. apply Hnew.
Qed.

(** ** Release *)
(** The run of a block. *)
Lemma block_run s full part free ls G out p n :
  inv s full part free ls G out -> is_block s G p n -> exists fl live r, G !! runslotsAddr p = Some (fl, live) /\ runs s !! runslotsAddr p = Some r /\
    run_ok (runslotsAddr p) (words s) r fl live /\ p ∈ live /\ slotSize_ r = n /\ in_u 64 p /\ p <> 0.
Proof.
  intros Hi (a & fl & live & r & HG & Er & Hp & Hn). destruct (inv_runs _ _ _ _ _ _ _ Hi a fl live HG) as (r0 & Er0 & Hr & _). assert (r0 = r) as -> by congruence.
  destruct (block_page _ _ _ _ _ p Hr Hp) as (H1 & H2 & _ & k & Hk & E). destruct (run_page _ _ _ _ _ Hr) as (H0 & Hd & Hl). pose proof header_size_ok.
  destruct (size_divides k Hk) as (_ & _ & Hs). assert (Ea : runslotsAddr p = a) by (apply runslotsAddr_eq; [done|lia..]). rewrite Ea.
  exists fl, live, r. split_and!; try done; unfold in_u; lia.
Qed.

(** A slot is pushed on the free list of its run: the run may have to change its list. *)
Lemma free_slot s full part free ls G a fl live r p :
  inv s full part free ls G None -> G !! a = Some (fl, live) -> runs s !! a = Some r -> p ∈ live ->
  exists r' s', PushFreeSlot r (words s) p = Done (r', <[p := nextFree_ r]> (words s)) /\ same_links r r' /\ nextFree_ r' = p /\
    s' = {| s with words := <[p := nextFree_ r]> (words s); runs := <[a := r']> (runs s) |} /\
    inv s' full part free ls (<[a := (p :: fl, live ∖ {[p]})]> G) (Some a) /\ run_ok a (words s') r' (p :: fl) (live ∖ {[p]}) /\
    (forall q n, is_block s' (<[a := (p :: fl, live ∖ {[p]})]> G) q n <-> q <> p /\ is_block s G q n).
Proof.
  intros Hi HG Er Hp. destruct (inv_runs _ _ _ _ _ _ _ Hi a fl live HG) as (r0 & Er0 & Hr & _). assert (r0 = r) as -> by congruence.
  destruct (PushFreeSlot_spec a (words s) r fl live p Hp Hr) as (r' & E & Hr' & Hl & Hn). eexists r', _. split; [done|]. split; [done|]. split; [done|]. split; [done|].
  set (s' := mkState _ _ _ _ _ _). pose proof (run_slot _ _ _ _ _ p Hr (or_introl Hp)) as Hs. pose proof (run_number _ _ _ _ _ p Hr Hs) as [Hoff _].
  destruct Hl as (E1 & E2 & E3 & E4). split_and!; [|done|].
  - eapply (inv_set_run s _ _ _ _ _ None); [exact Hi|by left|exact HG|exact Er|exact Hr'|done|done|done| |done|done|done|done|by intros []].
    intros b Hb. rewrite fn_lookup_insert_ne; [done|]. intros ->. lia.
  - intros q n. rewrite (block_set s s' G a (p :: fl) (live ∖ {[p]}) r' q n eq_refl), (block_split s G a fl live r q n HG Er), E1, elem_of_difference, elem_of_singleton.
    split; [intros [[[? ?] ?]|(b & fb & lb & rb & Hne & HGb & Erb & Hq & Hm)]|naive_solver].
    + split; [done|]. by left.
    + split; [|right; eauto 10]. intros ->. eapply (inv_apart _ _ _ _ _ _ _ a b fb lb p Hi HGb (or_introl Hq)); [by rewrite HG|done|lia].
Qed.

(** The run after a slot of it became free: full runs enter the list of their size, empty ones leave it. *)
Lemma FreeUnsafeInternal_spec s full part free ls G p n :
  inv s full part free ls G None -> is_block s G p n ->
  exists s' b ls' G', FreeUnsafeInternal (runslotsAddr p) p s = Done (s', b) /\ pools s' = pools s /\ (forall b, b <> p -> words s' b = words s b) /\
    (forall q m, is_block s' G' q m <-> q <> p /\ is_block s G q m) /\
    (if (b : bool) then inv s' full part free ls' G' (Some (runslotsAddr p)) /\ (forall id, runslotsAddr p ∉ ls' id) /\ exists fl, G' !! runslotsAddr p = Some (fl, ∅)
     else inv s' full part free ls' G' None).
Proof.
  intros Hi Hp. destruct (block_run _ _ _ _ _ _ _ p n Hi Hp) as (fl & live & r & HG & Er & Hr & Hpl & Hn & _ & H0).
  set (a := runslotsAddr p) in *. destruct (run_size _ _ _ _ _ Hr) as (k & Hk & Esz).
  destruct (free_slot s full part free ls G a fl live r p Hi HG Er Hpl) as (r' & s2 & Epush & (E1 & E2 & E3 & E4) & Hnf & Es2 & Hi2 & Hr2 & HL2).
  set (G2 := <[a := (p :: fl, live ∖ {[p]})]> G) in *.
  assert (Er2 : runs s2 !! a = Some r') by (rewrite Es2; cbn [runs]; by rewrite lookup_insert_eq).
  assert (HG2 : G2 !! a = Some (p :: fl, live ∖ {[p]})) by (by apply lookup_insert_eq).
  assert (Hhome0 : forall id, a ∈ ls id <-> home r live = Some id) by (by eapply (inv_home _ _ _ _ _ _ _ Hi)).
  assert (Hlive : live <> ∅) by set_solver. assert (Hnotfull : IsFull r' = false) by (unfold IsFull; rewrite Hnf, bool_decide_false by done; done).
  assert (Hlog : Z.log2 (slotSize_ r) = k) by (rewrite Esz; apply Z.log2_pow2; lia).
  assert (Hvalid : valid (SizeList (Z.to_nat k))) by (cbn; change SLOTS_SIZES_VARIANTS with 9%nat; lia).
  assert (Hwords : forall b, b <> p -> words s2 b = words s b) by (intros b Hb; rewrite Es2; cbn [words]; by rewrite fn_lookup_insert_ne).
  assert (Hpools2 : pools s2 = pools s) by (by rewrite Es2).
  assert (Hblocks : forall s3, same_bodies s2 s3 -> forall q m, is_block s3 G2 q m <-> q <> p /\ is_block s G q m).
  { intros s3 Hb3 q m. rewrite <- HL2. apply block_bodies; [done|]. intros x. by eapply inv_header. }
  unfold FreeUnsafeInternal. erewrite bind_M by (by apply run_at_eq). unfold GetSlotsSize. rewrite Esz.
  erewrite bind_M by (apply lift_eq; by apply Convert_pow). erewrite bind_M by reflexivity. erewrite bind_M by (by apply lift_eq). cbv beta iota.
  erewrite bind_M by reflexivity. erewrite bind_M by reflexivity. cbn [put set_run words runs pools runslots_ freeRunslots_ memoryPool_]. rewrite <- Es2.
  destruct (IsFull r) eqn:Ef.
  - (* it was full: in no list, now in the list of its size *)
    assert (Hne : live ∖ {[p]} <> ∅).
    { intros Ee. pose proof (IsFull_two _ _ _ _ _ Ef Hr) as H2. assert (Hsz : size (live ∖ {[p]}) = 0%nat) by (by rewrite Ee, size_empty).
      rewrite size_difference, size_singleton in Hsz by set_solver. lia. }
    destruct (inv_attach s2 full part free ls G2 a (p :: fl) (live ∖ {[p]}) r' (SizeList (Z.to_nat k))) as (s3 & ls3 & E & Hi3 & Hw3 & Hp3 & Hb3); try done.
    { intros id Hin%Hhome0. unfold home in Hin. by rewrite decide_False, Ef in Hin. }
    { unfold home. rewrite decide_False, Hnotfull, E1, Hlog by done. done. }
    erewrite bind_M by exact E. exists s3, false, ls3, G2. split; [done|]. split_and!; [congruence|intros b Hb; rewrite Hw3; auto|by apply Hblocks|done].
  - assert (Hin : a ∈ ls (SizeList (Z.to_nat k))) by (apply Hhome0; unfold home; by rewrite decide_False, Ef, Hlog).
    destruct (IsEmpty r') eqn:Ee.
    + (* it is empty: it leaves its list *)
      assert (Hempty : live ∖ {[p]} = ∅) by (by eapply IsEmpty_live).
      destruct (lo_rep _ _ _ (inv_lists _ _ _ _ _ _ _ Hi2) _ Hvalid) as [El Hd]. erewrite bind_M by (by apply get_list_eq). cbn [head_].
      assert (Hcond : (GetNextRunSlots r' != 0) || (GetPrevRunSlots r' != 0) || (headz (ls (SizeList (Z.to_nat k))) == a) = true).
      { apply list_elem_of_split in Hin as (l1 & l2 & El'). rewrite El' in *. destruct (dll_links _ _ _ _ Hd l1 a l2 eq_refl) as [Hpv _].
        rewrite (prev_some _ _ _ _ Er2) in Hpv. destruct (decide (l1 = [])) as [->|Hl1].
        - cbn [app]. rewrite (bool_decide_true (headz _ = a)) by done. apply orb_true_r.
        - unfold GetPrevRunSlots. rewrite Hpv, (bool_decide_false (lastz l1 = 0)); [cbn [negb]; by rewrite orb_true_r|]. intros Et.
          apply (dll_null _ _ _ _ Hd). rewrite <- Et. pose proof (lastz_in l1 Hl1). set_solver. }
      rewrite Hcond. destruct (inv_pop_list s2 full part free ls G2 (Some a) a _ Hi2 (or_intror eq_refl) Hin) as (s3 & ls3 & E & Hi3 & Hnot & Hb3 & Hw3 & Hp3 & _).
      erewrite bind_M by exact E. exists s3, true, ls3, G2. split; [done|]. split_and!; [congruence|intros b Hb; rewrite Hw3; auto|by apply Hblocks|done|done|].
      rewrite <- Hempty. eauto.
    + (* it stays where it is *)
      exists s2, false, ls, G2. split; [done|]. split_and!; [done|done|apply Hblocks; intros x rx Erx; by exists rx|]. eapply inv_settle; [exact Hi2|exact HG2|exact Er2|].
      intros id. rewrite Hhome0. assert (live ∖ {[p]} <> ∅) by (intros Eemp; apply (IsEmpty_live _ _ _ _ _ Hr2) in Eemp; congruence).
      unfold home. by rewrite !decide_False, Ef, Hnotfull, E1 by done.
Qed.

Lemma FreeUnsafe_spec s full part free ls G p n :
  inv s full part free ls G None -> is_block s G p n ->
  exists s' ls' G', FreeUnsafe p s = Done (s', tt) /\ inv s' full part free ls' G' None /\ pools s' = pools s /\
    (forall q m, is_block s' G' q m <-> q <> p /\ is_block s G q m) /\ (forall b, b <> p -> words s' b = words s b).
Proof.
  intros Hi Hp. destruct (block_run _ _ _ _ _ _ _ p n Hi Hp) as (fl & live & r & HG & _ & _ & _ & _ & Hu & H0).
  unfold FreeUnsafe. rewrite bool_decide_false by done. erewrite bind_M.
  2: { instantiate (1 := true). instantiate (1 := s). destruct NDEBUG; [done|]. unfold AllocatedByRunSlotsAllocatorUnsafe.
       destruct (IsInMemPools_spec s full part free p (inv_pools _ _ _ _ _ _ _ Hi) Hu) as (b & -> & Hb). do 2 f_equal. apply Hb, (inv_dom _ _ _ _ _ _ _ Hi). by rewrite HG. }
  cbn [negb]. destruct (FreeUnsafeInternal_spec s full part free ls G p n Hi Hp) as (s' & b & ls' & G' & E & Hp' & Hw & HL' & Hb). erewrite bind_M by exact E.
  destruct b; [|by exists s', ls', G']. destruct Hb as (Hi' & Hnot & fl' & HG'). destruct (inv_runs _ _ _ _ _ _ _ Hi' _ _ _ HG') as (r' & Er' & Hr' & _).
  destruct (inv_attach s' full part free ls' G' _ _ ∅ r' FreeList Hi' HG' Er' Hnot I) as (s3 & ls3 & E3 & Hi3 & Hw3 & Hp3 & Hb3); [done|].
  exists s3, ls3, G'. split; [exact E3|]. split_and!; [done|congruence| |intros x Hx; rewrite Hw3; auto].
  intros q m. rewrite <- HL'. apply block_bodies; [done|]. intros x. by eapply inv_header.
Qed.
End Alloc.
