(* ===== verification/RunSlotsIterate.v ===== *)
(** Iteration over the objects of the allocator, and the collection of dead ones. *)
From S2P Require Import Prelude Leb128 GcBitmap RunSlots RunSlotsAllocator MemLists RunSlotsLists RunSlotsPools RunSlotsManager RunSlotsInv RunSlotsAlloc.
From stdpp Require Import gmap functions list.
Local Open Scope Z_scope.
Local Open Scope ark_scope.

(** The occupied slots of a run, the runs in use of a pool, and the objects of the pools from the last to the first. *)
Definition run_objects (s : State) (a : Z) : list Z := match runs s !! a with Some r => occupied_slots (bitmap_ r) a | None => [] end.
Definition pool_runs (s : State) (p : Z) : list Z :=
  match pools s !! p with Some e => List.filter (fun a => negb (marked (freedRunslotsBitmap_ e) a)) (pages e) | None => [] end.
Definition objects (s : State) (occ : list Z) : list Z := flat_map (fun p => flat_map (run_objects s) (pool_runs s p)) (rev occ).

Lemma elem_of_flat_map {A B} (f : A -> list B) l y : y ∈ flat_map f l <-> exists x, x ∈ l /\ y ∈ f x.
Proof. rewrite list_elem_of_In, in_flat_map. setoid_rewrite list_elem_of_In. done. Qed.

(** A visitor is called for the elements of a list, in order. *)
Fixpoint each (visitor : Z -> M unit) (l : list Z) : M unit :=
  match l with [] => mret tt | o :: l => visitor o;; each visitor l end.

Lemma each_app visitor l1 l2 s s' : each visitor l1 s = Done (s', tt) -> each visitor (l1 ++ l2) s = each visitor l2 s'.
Proof.
  revert s. induction l1 as [|o l1 IH]; intros s; cbn [each app]; [by intros [= <-]|]. cbv [mbind M_bind]. destruct (visitor o s) as [[s1 []]| |]; [apply IH|done..].
Qed.

Lemma run_objects_page s a o : o ∈ run_objects s a -> a <= o < a + 4096.
Proof. unfold run_objects. destruct (runs s !! a); [|set_solver]. intros (j & Hj & _ & ->)%elem_of_slots_below. lia. Qed.

(** The runs of a pool from the page [i] on. *)
Definition runs_from (e : PoolListElement) (i n : Z) : list Z :=
  List.filter (fun a => negb (marked (freedRunslotsBitmap_ e) a)) ((fun i => poolMem_ e + 4096 * i) <$> seqZ i (n + 1 - i)).

Section PoolObjects.
Context `{Layout} (s0 : State) (full part free : list Z).
Abbreviation occ := (full ++ part).
Hypothesis s0_pools : pools_ok s0 full part free.

Lemma pool_runs_from p e : p ∈ occ -> pools s0 !! p = Some e -> exists n, 0 <= n /\ freePtr_ e = p + 4096 * (n + 1) /\ pool_runs s0 p = runs_from e 1 n.
Proof.
  intros Hp E. pose proof (pk_ok _ _ _ _ s0_pools p e (or_introl Hp) E) as He. destruct (po_addr _ _ He) as (H0 & [c Ec] & Hl).
  destruct (po_free _ _ He) as [Hf [f Ef]]. exists (f - c - 1). split_and!; [lia|lia|]. unfold pool_runs, runs_from, pages. rewrite E, (po_mem _ _ He).
  replace ((freePtr_ e - p) / 4096) with (f - c); [by replace (f - c - 1 + 1 - 1) with (f - c - 1) by lia|].
  rewrite Ef, Ec. replace (f * 4096 - c * 4096) with ((f - c) * 4096) by lia. by rewrite Z.div_mul.
Qed.

(** A run of a pool is in use in it. *)
Lemma elem_of_pool_runs p a : p ∈ occ -> a ∈ pool_runs s0 p <-> owner s0 occ p a.
Proof.
  intros Hp. destruct (pk_some _ _ _ _ p s0_pools (or_introl Hp)) as [e E]. pose proof (pk_ok _ _ _ _ s0_pools p e (or_introl Hp) E) as He.
  unfold pool_runs, owner. rewrite E, list_elem_of_In, filter_In, <- list_elem_of_In, (elem_of_pages p e a He), negb_true_iff. split.
  - intros Hu. split; [done|]. by exists e.
  - by intros (_ & f & [= <-] & Hu).
Qed.

(** The objects of a pool are in pages of it. *)
Lemma pool_objects_page p o : p ∈ occ -> o ∈ flat_map (run_objects s0) (pool_runs s0 p) -> exists a, owner s0 occ p a /\ a <= o < a + 4096.
Proof. intros Hp (a & Ha & Ho)%elem_of_flat_map. exists a. split; [by apply elem_of_pool_runs|by apply run_objects_page in Ho]. Qed.

End PoolObjects.

Section Iterate.
Context `{Layout} (visitor : Z -> M unit) (s0 : State) (full part free : list Z) (J : list Z -> State -> Prop).
Abbreviation occ := (full ++ part).
Abbreviation all := (objects s0 occ).

(** The visitor does not change the pools, and no bit of an object it was not called for. *)
Hypothesis s0_pools : pools_ok s0 full part free.
Hypothesis J_pools : forall vs s, J vs s -> pools s = pools s0.
Hypothesis J_bits : forall vs s a r0, J vs s -> (exists p, owner s0 occ p a) -> runs s0 !! a = Some r0 ->
  exists r, runs s !! a = Some r /\ bits_wf (bitmap_ r) /\ forall j, 0 <= j < 512 -> a + 8 * j ∉ vs -> bit (bitmap_ r) j = bit (bitmap_ r0) j.
Hypothesis J_visit : forall vs o rest s, all = vs ++ o :: rest -> J vs s -> exists s', visitor o s = Done (s', tt) /\ J (vs ++ [o]) s'.
Hypothesis s0_runs : forall p a, owner s0 occ p a -> exists r, runs s0 !! a = Some r.

(** One run: [pre] has been visited, in other pages. *)
Lemma visit_run_spec pre a rest p s :
  all = pre ++ run_objects s0 a ++ rest -> owner s0 occ p a -> (forall o, o ∈ pre -> ~ (a <= o < a + 4096)) -> J pre s ->
  exists s', visit_run visitor a s = Done (s', true) /\ J (pre ++ run_objects s0 a) s'.
Proof.
  intros Hall Ho Hpre HJ. destruct (s0_runs p a Ho) as [r0 Er0]. assert (Eobj : run_objects s0 a = occupied_slots (bitmap_ r0) a) by (unfold run_objects; by rewrite Er0).
  rewrite Eobj in *. destruct (owner_bounds _ _ _ _ _ _ s0_pools Ho) as (H0 & _ & _ & Hl).
  destruct (IterateOverOccupiedSlots_spec (fun s => r ← lookup_in (runs s) a; Done (bitmap_ r)) (fun o => exec (visitor o)) a (bitmap_ r0)
              (fun vs s => J (pre ++ vs) s)) with (s := s) as (s' & E & HJ').
  - lia.
  - intros vs s1 HJ1. destruct (J_bits _ _ a r0 HJ1) as (r & Er & Hwf & Hb); [eauto|done|]. exists (bitmap_ r). split_and!; [|done|].
    + cbv [mbind outcome_bind]. unfold lookup_in. by rewrite Er.
    + intros j Hj Hn. apply Hb; [done|]. rewrite elem_of_app. intros [Hp|]; [|done]. apply (Hpre _ Hp). lia.
  - intros vs o rest' s1 Hsplit HJ1. destruct (J_visit (pre ++ vs) o (rest' ++ rest) s1) as (s' & E & HJ'); [|done|].
    + rewrite Hall, Hsplit. by rewrite <- !app_assoc.
    + exists s'. rewrite app_assoc. split; [|done]. unfold exec. cbv [mbind outcome_bind]. by rewrite E.
  - by rewrite app_nil_r.
  - exists s'. split; [|done]. unfold visit_run, act. erewrite bind_M; [done|]. cbv [mbind outcome_bind] in *. by rewrite E.
Qed.

Lemma visit_pages fuel p e n i pre post s :
  p ∈ occ -> pools s0 !! p = Some e -> freePtr_ e = p + 4096 * (n + 1) -> 1 <= i <= n + 1 -> n + 1 - i < Z.of_nat fuel ->
  all = pre ++ flat_map (run_objects s0) (runs_from e i n) ++ post -> (forall o j, o ∈ pre -> i <= j <= n -> ~ (p + 4096 * j <= o < p + 4096 * j + 4096)) -> J pre s ->
  exists s', IterateOverRunSlots_loop fuel (visit_run visitor) p (freePtr_ e) (p + 4096 * i) s = Done (s', tt) /\
    J (pre ++ flat_map (run_objects s0) (runs_from e i n)) s'.
Proof.
  intros Hp E Hn. pose proof (pk_ok _ _ _ _ s0_pools p e (or_introl Hp) E) as He. pose proof (po_mem _ _ He) as Hm. destruct (po_addr _ _ He) as (H0 & [c Ec] & Hl).
  destruct (po_free _ _ He) as [Hf _]. pose proof (po_size _ _ He) as Hs. unfold MIN_POOL_SIZE in *.
  revert i pre s. induction fuel as [|fuel IH]; intros i pre s Hi Hfuel Hall Hpre HJ; [lia|]. cbn [IterateOverRunSlots_loop].
  destruct (Z.ltb_spec (p + 4096 * i) (freePtr_ e)) as [Hlt|Hge].
  - assert (Hin : i <= n) by lia. assert (Hpg : page e (p + 4096 * i)) by (split; rewrite Hm; [lia|exists i; lia]).
    assert (Ers : runs_from e i n = (if negb (marked (freedRunslotsBitmap_ e) (p + 4096 * i)) then [p + 4096 * i] else []) ++ runs_from e (i + 1) n).
    { unfold runs_from. rewrite (seqZ_cons i) by lia. cbn [fmap list_fmap List.filter]. rewrite Hm. replace (Z.succ i) with (i + 1) by lia.
      replace (Z.pred (n + 1 - i)) with (n + 1 - (i + 1)) by lia. by destruct (marked _ _). }
    erewrite bind_M by (apply pool_at_eq; by rewrite (J_pools _ _ HJ)).
    erewrite bind_M by (apply lift_eq, (Bitmap.AtomicTest_spec CHUNK ltac:(done)); [apply He|by apply (page_chunk p)]).
    rewrite Ers, flat_map_app, <- !app_assoc in Hall. rewrite Ers, flat_map_app, app_assoc.
    assert (Hnext : u64 (p + 4096 * i + RUNSLOTS_SIZE) = p + 4096 * (i + 1)) by (rewrite wrapu_id by (unfold in_u, RUNSLOTS_SIZE; lia); unfold RUNSLOTS_SIZE; lia).
    destruct (marked (freedRunslotsBitmap_ e) (p + 4096 * i)) eqn:Em; cbn [negb flat_map app] in *.
    + rewrite app_nil_r. erewrite bind_M by reflexivity. rewrite Hnext. apply IH; try done; [lia|lia|]. intros o j Ho Hj. apply Hpre; [done|lia].
    + rewrite app_nil_r in *. destruct (visit_run_spec pre (p + 4096 * i) (flat_map (run_objects s0) (runs_from e (i + 1) n) ++ post) p s) as (s1 & E1 & HJ1); try done.
      { split; [done|]. exists e. split; [done|]. by split. }
      { intros o Ho. apply Hpre; [done|lia]. }
      erewrite bind_M by exact E1. rewrite Hnext. apply IH; try done; [lia|lia|by rewrite <- app_assoc|]. intros o j [Ho|Ho]%elem_of_app Hj; [apply Hpre; [done|lia]|].
      apply run_objects_page in Ho. lia.
  - exists s. split; [done|]. assert (i = n + 1) as -> by lia. unfold runs_from. rewrite Z.sub_diag. cbn. by rewrite app_nil_r.
Qed.

Lemma visit_pools fuel l r s pre :
  occ = l ++ r -> (length l < fuel)%nat -> all = pre ++ flat_map (fun p => flat_map (run_objects s0) (pool_runs s0 p)) (rev l) ->
  (forall o, o ∈ pre -> exists p a, p ∈ r /\ owner s0 occ p a /\ a <= o < a + 4096) -> J pre s ->
  exists s', IterateOverObjects_loop fuel visitor (lastz l) s = Done (s', tt) /\ J all s'.
Proof.
  intros Hocc. revert l r s pre Hocc. induction fuel as [|fuel IH]; intros l r s pre Hocc Hf Hall Hpre HJ; [lia|]. cbn [IterateOverObjects_loop].
  destruct (decide (l = [])) as [->|Hl].
  { rewrite bool_decide_true by done. cbn in Hall. rewrite app_nil_r in Hall. exists s. rewrite Hall. done. }
  destruct (exists_last Hl) as (l0 & p & ->). rewrite lastz_snoc. rewrite rev_app_distr in Hall. cbn [rev app flat_map] in Hall.
  pose proof (pk_occ _ _ _ _ s0_pools) as Hd. rewrite Hocc in Hd. destruct (walk_step s0 l0 p r Hd) as (Hp0 & e & E & Hpv).
  rewrite bool_decide_false by done. cbn [negb]. assert (Hp : p ∈ occ) by (rewrite Hocc; set_solver).
  destruct (pool_runs_from s0 full part free s0_pools p e Hp E) as (n & Hn & Hfp & Ers). pose proof (pk_ok _ _ _ _ s0_pools p e (or_introl Hp) E) as He. pose proof (po_size _ _ He) as Hs.
  destruct (po_free _ _ He) as [Hfr _].
  assert (Hvisit : exists s1, IterateOverRunSlots (visit_run visitor) p s = Done (s1, tt) /\ J (pre ++ flat_map (run_objects s0) (pool_runs s0 p)) s1).
  { unfold IterateOverRunSlots. erewrite bind_M by (apply pool_at_eq; by rewrite (J_pools _ _ HJ)). rewrite (first_page p e He), Ers.
    replace (p + 4096) with (p + 4096 * 1) by lia. eapply visit_pages; try done; [lia| |by rewrite <- Ers|].
    - unfold runs_fuel, RUNSLOTS_SIZE. assert (n + 1 <= size_ e / 4096) by (apply Z.div_le_lower_bound; lia). lia.
    - intros o j Ho Hj Hin. destruct (Hpre o Ho) as (q & a & Hq & Ha & Hoa).
      assert (Hne : q <> p).
      { intros ->. pose proof (dll_nodup _ _ _ _ Hd) as (_ & Hnd & _)%NoDup_app. apply (Hnd p); [set_solver|done]. }
      destruct Ha as (Hqo & f & F & Hu). pose proof (page_bounds q f a (pk_ok _ _ _ _ s0_pools q f (or_introl Hqo) F) (proj1 Hu)).
      destruct (pk_apart _ _ _ _ s0_pools q p f e); try by left. all: try done; lia. }
  destruct Hvisit as (s1 & E1 & HJ1). erewrite bind_M by exact E1. erewrite bind_M by (apply pool_at_eq; by rewrite (J_pools _ _ HJ1)). rewrite Hpv.
  apply (IH l0 ([p] ++ r) s1 (pre ++ flat_map (run_objects s0) (pool_runs s0 p))); [by rewrite Hocc, <- app_assoc|rewrite length_app in Hf; cbn in Hf; lia|by rewrite <- app_assoc| |done].
  intros o [Ho|Ho]%elem_of_app.
  - destruct (Hpre o Ho) as (q & a & Hq & Ha). exists q, a. split; [set_solver|done].
  - destruct (pool_objects_page s0 full part free s0_pools p o Hp Ho) as (a & Ha & Hoa). exists p, a. split; [set_solver|done].
Qed.

Lemma IterateOverObjects_spec : J [] s0 -> exists s', IterateOverObjects visitor s0 = Done (s', tt) /\ J all s'.
Proof.
  intros HJ. unfold IterateOverObjects, pools_fuel. do 2 erewrite bind_M by reflexivity. rewrite (pk_manager _ _ _ _ s0_pools). cbn [occupiedTail_].
  apply (visit_pools _ occ [] s0 []); [by rewrite app_nil_r|by apply pools_fuel_enough, s0_pools|done|set_solver|done].
Qed.
End Iterate.

(** ** The objects are the blocks *)
Lemma NoDup_flat_map (f : Z -> list Z) l :
  NoDup l -> (forall x, x ∈ l -> NoDup (f x)) -> (forall x y o, x ∈ l -> y ∈ l -> o ∈ f x -> o ∈ f y -> x = y) -> NoDup (flat_map f l).
Proof.
  induction 1 as [|x l Hx Hl IH]; intros Hn Hd; cbn [flat_map]; [constructor|]. apply NoDup_app. split_and!.
  - apply Hn. constructor.
  - intros o Ho (y & Hy & Ho')%elem_of_flat_map. assert (x = y) as <- by (apply (Hd x y o); [constructor|by constructor|done..]). done.
  - apply IH; [intros y Hy; apply Hn; by constructor|]. intros y z o Hy Hz. apply Hd; by constructor.
Qed.

Section Objects.
Context `{Layout}.

Lemma elem_of_objects s full part free ls G out o : inv s full part free ls G out -> o ∈ objects s (full ++ part) <-> exists n, is_block s G o n.
Proof.
  intros Hi. pose proof (inv_pools _ _ _ _ _ _ _ Hi) as Hk. unfold objects. rewrite elem_of_flat_map. split.
  - intros (p & Hp & (a & Ha & Ho)%elem_of_flat_map). rewrite list_elem_of_In, <- in_rev, <- list_elem_of_In in Hp.
    apply (elem_of_pool_runs s full part free Hk p a Hp) in Ha. assert (HD : is_Some (G !! a)) by (apply (inv_dom _ _ _ _ _ _ _ Hi); eauto).
    destruct HD as [[fl live] HG]. destruct (inv_runs _ _ _ _ _ _ _ Hi a fl live HG) as (r & Er & Hr & _). unfold run_objects in Ho. rewrite Er in Ho.
    apply (occupied_live _ _ _ _ _ o Hr) in Ho. exists (slotSize_ r), a, fl, live, r. done.
  - intros (n & a & fl & live & r & HG & Er & Ho & Hn). destruct (inv_runs _ _ _ _ _ _ _ Hi a fl live HG) as (r0 & Er0 & Hr & Hown). assert (r0 = r) as -> by congruence.
    exists (poolPointer_ r). pose proof (proj1 Hown) as Hp. split; [by rewrite list_elem_of_In, <- in_rev, <- list_elem_of_In|]. apply elem_of_flat_map. exists a.
    split; [by apply (elem_of_pool_runs s full part free Hk)|]. unfold run_objects. rewrite Er. by apply (occupied_live _ _ _ _ _ o Hr).
Qed.

Lemma objects_NoDup s full part free : pools_ok s full part free -> NoDup (objects s (full ++ part)).
Proof.
  intros Hk. assert (Hrev : forall p, p ∈ rev (full ++ part) <-> p ∈ full ++ part) by (intros p; by rewrite list_elem_of_In, <- in_rev, <- list_elem_of_In).
  apply NoDup_flat_map.
  - rewrite NoDup_ListNoDup. apply NoDup_rev, NoDup_ListNoDup, (pk_occ _ _ _ _ Hk).
  - intros p Hp%Hrev. apply NoDup_flat_map.
    + unfold pool_runs. destruct (pools s !! p); [|constructor]. rewrite NoDup_ListNoDup. apply List.NoDup_filter, NoDup_ListNoDup, pages_NoDup.
    + intros a _. unfold run_objects. destruct (runs s !! a); [apply slots_below_NoDup|constructor].
    + intros a b o Ha Hb Hoa%run_objects_page Hob%run_objects_page. apply (elem_of_pool_runs s full part free Hk) in Ha, Hb; try done.
      destruct (owner_bounds _ _ _ _ _ _ Hk Ha) as (_ & [c Ec] & _). destruct (owner_bounds _ _ _ _ _ _ Hk Hb) as (_ & [d Ed] & _). lia.
  - intros p q o Hp%Hrev Hq%Hrev Hop Hoq. destruct (pool_objects_page s full part free Hk p o Hp Hop) as (a & Ha & Hoa).
    destruct (pool_objects_page s full part free Hk q o Hq Hoq) as (b & Hb & Hob). assert (a = b) as <-.
    { destruct (owner_bounds _ _ _ _ _ _ Hk Ha) as (_ & [c Ec] & _). destruct (owner_bounds _ _ _ _ _ _ Hk Hb) as (_ & [d Ed] & _). lia. }
    by eapply owner_unique.
Qed.

(** ** Collection *)
Section Collect.
Context (dead : Z -> bool) (s0 : State) (full part free : list Z) (ls0 : ListId -> list Z) (G0 : gmap Z (list Z * gset Z)).
Hypothesis Hi0 : inv s0 full part free ls0 G0 None.

(** The dead objects of [vs] are freed. *)
Definition collected (vs : list Z) (s : State) : Prop :=
  exists ls G, inv s full part free ls G None /\ pools s = pools s0 /\ (forall q m, is_block s G q m <-> is_block s0 G0 q m /\ ~ (q ∈ vs /\ dead q = true)) /\
    (forall b, ~ (b ∈ vs /\ dead b = true) -> words s b = words s0 b).

(** The occupied slots of a run are the blocks in its page. *)
Lemma live_block s ls G a fl live r o :
  inv s full part free ls G None -> G !! a = Some (fl, live) -> runs s !! a = Some r -> a <= o < a + 4096 -> o ∈ live <-> exists n, is_block s G o n.
Proof.
  intros Hi HG Er Ho. split; [intros Hl; exists (slotSize_ r), a, fl, live, r; done|]. intros (n & b & fb & lb & rb & HGb & Erb & Hob & _).
  destruct (decide (b = a)) as [->|Hne]; [congruence|]. exfalso. eapply (inv_apart _ _ _ _ _ _ _ a b fb lb o Hi HGb (or_introl Hob)); [by rewrite HG|done|done].
Qed.

Lemma collected_bits vs s a r0 :
  collected vs s -> (exists p, owner s0 (full ++ part) p a) -> runs s0 !! a = Some r0 ->
  exists r, runs s !! a = Some r /\ bits_wf (bitmap_ r) /\ forall j, 0 <= j < 512 -> a + 8 * j ∉ vs -> bit (bitmap_ r) j = bit (bitmap_ r0) j.
Proof.
  intros (ls & G & Hi & Hp & HL & _) Ho Er0. pose proof (proj2 (inv_dom _ _ _ _ _ _ _ Hi0 a) Ho) as [[fl0 live0] HG0].
  assert (HD : is_Some (G !! a)).
  { apply (inv_dom _ _ _ _ _ _ _ Hi). destruct Ho as [p Ho]. exists p. eapply owner_frame; [|exact Ho]. intros q _. by rewrite Hp. }
  destruct HD as [[fl live] HG]. destruct (inv_runs _ _ _ _ _ _ _ Hi a fl live HG) as (r & Er & Hr & _).
  destruct (inv_runs _ _ _ _ _ _ _ Hi0 a fl0 live0 HG0) as (r1 & Er1 & Hr0 & _). assert (r1 = r0) as -> by congruence.
  exists r. split_and!; [done|apply Hr|]. intros j Hj Hn. rewrite (run_live _ _ _ _ _ Hr j Hj), (run_live _ _ _ _ _ Hr0 j Hj). apply bool_decide_ext.
  rewrite (live_block s ls G a fl live r) by (done || lia). rewrite (live_block s0 ls0 G0 a fl0 live0 r0) by (done || lia).
  setoid_rewrite HL. split; intros [n Hb]; exists n; [apply Hb|]. split; [done|]. by intros [? _].
Qed.

Lemma collected_visit vs o rest s :
  objects s0 (full ++ part) = vs ++ o :: rest -> collected vs s ->
  exists s', (if dead o then FreeUnsafe o else mret tt) s = Done (s', tt) /\ collected (vs ++ [o]) s'.
Proof.
  intros Hall (ls & G & Hi & Hp & HL & Hw). destruct (dead o) eqn:Ed.
  - assert (Ho : exists n, is_block s0 G0 o n) by (apply (elem_of_objects _ _ _ _ _ _ _ o Hi0); rewrite Hall; set_solver). destruct Ho as [n Hn].
    assert (Hnot : o ∉ vs).
    { pose proof (objects_NoDup s0 full part free (inv_pools _ _ _ _ _ _ _ Hi0)) as Hnd. rewrite Hall in Hnd. apply NoDup_app in Hnd as (_ & Hnd & _).
      intros Hin. apply (Hnd o Hin). constructor. }
    destruct (FreeUnsafe_spec s full part free ls G o n Hi) as (s' & ls' & G' & E & Hi' & Hp' & HL' & Hw'); [apply HL; naive_solver|].
    exists s'. split; [done|]. exists ls', G'. split_and!; [done|congruence| |].
    + intros q m. rewrite HL', HL, elem_of_app, list_elem_of_singleton. destruct (decide (q = o)) as [->|]; naive_solver.
    + intros b Hb. rewrite elem_of_app, list_elem_of_singleton in Hb. destruct (decide (b = o)) as [->|Hne]; [naive_solver|]. rewrite Hw' by done. apply Hw. naive_solver.
  - assert (Hsame : forall q, q ∈ vs ++ [o] /\ dead q = true <-> q ∈ vs /\ dead q = true).
    { intros q. rewrite elem_of_app, list_elem_of_singleton. split; [intros [[?| ->] ?]; [done|congruence]|intros [? ?]; auto]. }
    exists s. split; [done|]. exists ls, G. split_and!; [done|done| |]; intros q; [intros m|]; rewrite Hsame; auto.
Qed.

Lemma Collect_collected : exists s', Collect dead s0 = Done (s', tt) /\ collected (objects s0 (full ++ part)) s'.
Proof.
  unfold Collect. apply (IterateOverObjects_spec _ s0 full part free collected).
  - apply Hi0.
  - by intros vs s (ls & G & _ & Hp & _).
  - apply collected_bits.
  - apply collected_visit.
  - intros p a Ho. eapply (inv_header _ _ _ _ _ _ _ a Hi0). apply (inv_dom _ _ _ _ _ _ _ Hi0). eauto.
  - exists ls0, G0. split_and!; [done|done| |done]. set_solver.
Qed.
End Collect.

Lemma Collect_spec s L P dead :
  holds s L P ->
  exists s', Collect dead s = Done (s', tt) /\ holds s' (fun q m => L q m /\ dead q = false) P /\
    (forall b, ~ (dead b = true /\ exists n, L b n) -> words s' b = words s b).
Proof.
  intros (full & part & free & ls & G & Hi & HL & HP). destruct (Collect_collected dead s full part free ls G Hi) as (s' & E & ls' & G' & Hi' & Hp' & HL' & Hw').
  exists s'. split; [done|]. split.
  - exists full, part, free, ls', G'. split_and!; [done| |].
    + intros q m. rewrite HL', HL, (elem_of_objects _ _ _ _ _ _ _ q Hi). setoid_rewrite HL. destruct (dead q); naive_solver.
    + intros q m. rewrite <- HP. unfold extent. by rewrite Hp'.
  - intros b Hb. apply Hw'. rewrite (elem_of_objects _ _ _ _ _ _ _ b Hi). setoid_rewrite HL. naive_solver.
Qed.
End Objects.
