(* ===== verification/RunSlotsReturn.v ===== *)
(** Empty runs go back to their pools, and pools without a run to their owner. *)
From S2P Require Import Prelude Leb128 GcBitmap RunSlots RunSlotsAllocator MemLists RunSlotsLists RunSlotsPools RunSlotsManager RunSlotsInv RunSlotsAlloc.
From stdpp Require Import gmap functions list.
Local Open Scope Z_scope.
Local Open Scope ark_scope.

Section Return.
Context `{Layout}.

(** Pools change, runs that are not in a list may be given up; the other runs stay as they are. *)
Lemma inv_frame s s' full part free full' part' free' ls G G' out :
  inv s full part free ls G out -> pools_ok s' full' part' free' -> G' ⊆ G ->
  (forall a, is_Some (G' !! a) <-> exists p, owner s' (full' ++ part') p a) -> (forall p a, is_Some (G' !! a) -> owner s (full ++ part) p a -> owner s' (full' ++ part') p a) ->
  (forall a, is_Some (G' !! a) -> runs s' !! a = runs s !! a) -> (forall id a, a ∈ ls id -> is_Some (G' !! a)) -> (forall id, list_of s' id = list_of s id) ->
  (forall a fl live b, G' !! a = Some (fl, live) -> b ∈ fl -> words s' b = words s b) -> (forall x, out = Some x -> G' !! x = None) ->
  inv s' full' part' free' ls G' None.
Proof.
  intros Hi Hk Hsub Hdom Hown Hruns Hls Hlist Hw Hout. assert (HG : forall a v, G' !! a = Some v -> G !! a = Some v) by (intros a v Hv; by apply (lookup_weaken G' G)).
  assert (Hlinks : forall a, is_Some (G' !! a) -> rnext (runs s') a = rnext (runs s) a /\ rprev (runs s') a = rprev (runs s) a).
  { intros a Ha. unfold next, prev. by rewrite Hruns. }
  split.
  - done.
  - eapply (lists_frame s); [done| |done| |apply Hi].
    + intros id a Ha. pose proof (Hls id a Ha) as HD. split; [|by apply Hlinks]. rewrite Hruns by done. eapply inv_header; [exact Hi|]. destruct HD as [v Hv]. eauto.
    + intros a Ha Hnot. destruct (Hlinks a Ha) as [-> ->]. apply (lo_out _ _ _ (inv_lists _ _ _ _ _ _ _ Hi)); [|done]. destruct Ha as [v Hv]. eauto.
  - done.
  - intros a fl live Ha. destruct (inv_runs _ _ _ _ _ _ _ Hi a fl live (HG _ _ Ha)) as (r & Er & Hr & Ho). exists r. rewrite Hruns by eauto.
    split_and!; [done| |apply Hown; eauto]. eapply run_frame; [|exact Hr]. intros b Hb. by eapply Hw.
  - intros a fl live r Ha Er _. rewrite Hruns in Er by eauto. eapply (inv_home _ _ _ _ _ _ _ Hi); [eauto|done|]. intros ->. by rewrite (Hout a) in Ha.
Qed.

(** A free slot is not in another page. *)
Lemma free_apart s full part free ls G out x a fl live b :
  inv s full part free ls G out -> is_Some (G !! x) -> x <> a -> G !! a = Some (fl, live) -> b ∈ fl -> ~ (x <= b < x + 4096).
Proof. intros Hi Hx Hne HG Hb. eapply inv_apart; eauto. Qed.

Lemma inv_return s full part free ls G x fl :
  inv s full part free ls G (Some x) -> (forall id, x ∉ ls id) -> G !! x = Some (fl, ∅) ->
  exists s' full' part', ReturnAndReleaseRunSlotsMemory x s = Done (s', tt) /\ inv s' full' part' free ls (delete x G) None /\
    (forall q n, is_block s' (delete x G) q n <-> is_block s G q n) /\ (forall q n, extent s' (full' ++ part' ++ free) q n <-> extent s (full ++ part ++ free) q n) /\
    (forall q n b, is_block s G q n -> q <= b < q + n -> words s' b = words s b).
Proof.
  intros Hi Hnot HG. destruct (inv_runs _ _ _ _ _ _ _ Hi x fl ∅ HG) as (r & Er & Hr & Ho).
  destruct (ReturnAndRelease_spec s full part free (poolPointer_ r) x r (inv_pools _ _ _ _ _ _ _ Hi) Ho Er eq_refl) as (s' & full' & part' & E & Hk & Hown & Hsame & Hl & Hext).
  assert (Hpage : forall a, is_Some (G !! a) -> a <> x -> ~ (x <= a < x + 4096)).
  { intros a [p Hp]%(inv_dom _ _ _ _ _ _ _ Hi) Hne. destruct (owner_bounds _ _ _ _ _ _ (inv_pools _ _ _ _ _ _ _ Hi) Hp) as (_ & [c Ec] & _).
    destruct (run_page _ _ _ _ _ Hr) as (_ & [d Ed] & _). lia. }
  assert (Hdel : forall a, is_Some (delete x G !! a) <-> a <> x /\ is_Some (G !! a)) by (intros a; rewrite lookup_delete_is_Some; naive_solver).
  exists s', full', part'. split; [done|]. split_and!; [| |done|].
  - eapply (inv_frame s); [exact Hi|done|apply delete_subseteq| | | | |done| |].
    + intros a. rewrite Hdel, (inv_dom _ _ _ _ _ _ _ Hi). setoid_rewrite Hown. naive_solver.
    + intros p a [Ha _]%Hdel Hp. by apply Hown.
    + intros a [Ha HD]%Hdel. apply Hsame. by apply Hpage.
    + intros id a Ha. apply Hdel. split; [intros ->; by eapply Hnot|]. by apply (lo_in _ _ _ (inv_lists _ _ _ _ _ _ _ Hi) id).
    + intros a fa la b [Hne Ha]%lookup_delete_Some Hb. apply Hsame. eapply free_apart; eauto.
    + intros y [= <-]. apply lookup_delete_eq.
  - intros q n. unfold is_block. split; intros (a & fa & la & ra & HGa & Era & Hq & Hn).
    + apply lookup_delete_Some in HGa as [Hne HGa]. exists a, fa, la, ra. split_and!; try done. rewrite <- Era. symmetry. apply Hsame. apply Hpage; eauto.
    + assert (Hne : a <> x) by (intros ->; simplify_eq; set_solver). exists a, fa, la, ra. rewrite lookup_delete_ne by done. split_and!; try done.
      rewrite <- Era. apply Hsame. apply Hpage; eauto.
  - intros q n b (a & fa & la & ra & HGa & Era & Hq & Hn) Hb. apply Hsame. assert (Hne : a <> x) by (intros ->; simplify_eq; set_solver).
    destruct (inv_runs _ _ _ _ _ _ _ Hi a fa la HGa) as (r0 & Er0 & Hr0 & Ho0). assert (r0 = ra) as -> by congruence.
    destruct (block_page _ _ _ _ _ q Hr0 Hq) as (H1 & H2 & _). pose proof header_size_ok. destruct (run_page _ _ _ _ _ Hr) as (_ & [d Ed] & _).
    destruct (run_page _ _ _ _ _ Hr0) as (_ & [c Ec] & _). lia.
Qed.

(** All empty runs are returned. *)
Lemma ReleaseEmpty_loop l s full part free ls G fuel :
  inv s full part free ls G None -> ls FreeList = l -> (length l < fuel)%nat ->
  exists s' full' part' ls' G', (x ← PopFromHead FreeList; ReleaseEmptyRunSlots_loop fuel x) s = Done (s', tt) /\ inv s' full' part' free ls' G' None /\ ls' FreeList = [] /\
    (forall q n, is_block s' G' q n <-> is_block s G q n) /\ (forall q n, extent s' (full' ++ part' ++ free) q n <-> extent s (full ++ part ++ free) q n) /\
    (forall q n b, is_block s G q n -> q <= b < q + n -> words s' b = words s b).
Proof.
  revert s full part ls G fuel. induction l as [|x l IH]; intros s full part ls G fuel Hi El Hf; (destruct fuel as [|fuel]; [cbn in Hf; lia|]).
  - erewrite bind_M by (apply PopFromHead_nil; rewrite <- El; by apply (lo_rep _ _ _ (inv_lists _ _ _ _ _ _ _ Hi))). cbn [ReleaseEmptyRunSlots_loop].
    rewrite bool_decide_true by done. exists s, full, part, ls, G. done.
  - destruct (in_list s full part free ls G x FreeList Hi) as (fl & live & r & HG & Er & Hr & Hh); [rewrite El; constructor|]. apply home_free in Hh as ->.
    destruct (lists_pop_head s ls _ FreeList x l (inv_lists _ _ _ _ _ _ _ Hi) El) as (s1 & Ep & Hl1 & Hr1).
    destruct (inv_detach s s1 full part free ls G None x FreeList [] l Hi (or_introl eq_refl) El Hl1 Hr1) as (Hi1 & Hnot1 & Hb1 & Hw1 & Hp1 & _).
    cbn [app] in *. destruct (inv_return s1 full part free _ G x fl Hi1 Hnot1 HG) as (s2 & full2 & part2 & E2 & Hi2 & HL2 & HP2 & Hw2).
    destruct (IH s2 full2 part2 _ _ fuel Hi2) as (s3 & full3 & part3 & ls3 & G3 & E3 & Hi3 & Hnil & HL3 & HP3 & Hw3); [by rewrite fn_lookup_insert|cbn in Hf; lia|].
    assert (HL1 : forall q n, is_block s1 G q n <-> is_block s G q n) by (intros q n; apply block_bodies; [done|]; intros a; by eapply inv_header).
    exists s3, full3, part3, ls3, G3. split_and!; try done.
    + erewrite bind_M by exact Ep. cbn [ReleaseEmptyRunSlots_loop]. rewrite bool_decide_false by (eapply inv_null; [exact Hi|by rewrite HG]). cbn [negb].
      erewrite bind_M by exact E2. exact E3.
    + intros q n. by rewrite HL3, HL2, HL1.
    + intros q n. rewrite HP3, HP2. unfold extent. by rewrite Hp1.
    + intros q n b Hq Hb. rewrite (Hw3 q n), (Hw2 q n), Hw1; [done|by apply HL1|done| |done]. by apply HL2, HL1.
Qed.

(** ** Pools are handed back *)
(** Headers in a range without pools and runs are lost. *)
Lemma inv_without s full part free ls G b c :
  inv s full part free ls G None -> (forall q, q ∈ full ++ part \/ q ∈ free -> ~ (b <= q < c)) -> (forall a, is_Some (G !! a) -> ~ (b <= a < c)) ->
  let s' := {| s with runs := without b c (runs s); pools := without b c (pools s) |} in
  inv s' full part free ls G None /\ (forall q n, is_block s' G q n <-> is_block s G q n) /\
  (forall l q n, (forall x, x ∈ l -> x ∈ full ++ part \/ x ∈ free) -> extent s' l q n <-> extent s l q n).
Proof.
  intros Hi Hp Hr s'. assert (Hruns : forall a, is_Some (G !! a) -> runs s' !! a = runs s !! a) by (intros a Ha; apply lookup_without; auto).
  assert (Hpools : forall q, q ∈ full ++ part \/ q ∈ free -> pools s' !! q = pools s !! q) by (intros q Hq; apply lookup_without; auto).
  assert (Hown : forall p a, owner s' (full ++ part) p a <-> owner s (full ++ part) p a) by (intros p a; apply owner_frame; auto). split_and!.
  - eapply (inv_frame s); [exact Hi| |done| | |done| |by intros []|done|done].
    + eapply pools_frame; [done|done|apply Hi].
    + intros a. rewrite (inv_dom _ _ _ _ _ _ _ Hi). by setoid_rewrite Hown.
    + intros p a _. by rewrite Hown.
    + intros id a. apply (lo_in _ _ _ (inv_lists _ _ _ _ _ _ _ Hi)).
  - intros q n. unfold is_block. split; intros (a & fl & live & r & HG & Er & Hq); exists a, fl, live, r; (split; [done|]); (split; [|done]);
      [rewrite <- Hruns by eauto|rewrite Hruns by eauto]; done.
  - intros l q n Hl. unfold extent. split; intros (Hq & e & E & Hn); (split; [done|]); exists e; (split; [|done]); [rewrite <- Hpools by auto|rewrite Hpools by auto]; done.
Qed.

(** A run in use is in no other pool than its own. *)
Lemma owner_outside s full part free q p e a :
  pools_ok s full part free -> owner s (full ++ part) q a -> p ∈ full ++ part \/ p ∈ free -> pools s !! p = Some e -> p <> q -> ~ (p <= a < p + size_ e).
Proof.
  intros Hk (Hq & f & F & Hu) Hp E Hne Hin. pose proof (page_bounds q f a (pk_ok _ _ _ _ Hk q f (or_introl Hq) F) (proj1 Hu)).
  destruct (pk_apart _ _ _ _ Hk p q e f); try by left. all: try done; lia.
Qed.

Section Visitor.
Context {V : Type} (memVisitor : Z -> Z -> V -> V).

Definition visits (l : list (Z * Z)) (v : V) : V := foldl (fun v '(p, n) => memVisitor p n v) v l.

Lemma hand_over_eq s p e v :
  pools s !! p = Some e ->
  hand_over memVisitor p v s = Done ({| s with runs := without p (p + size_ e) (runs s); pools := without p (p + size_ e) (pools s) |}, memVisitor (poolMem_ e) (size_ e) v).
Proof. intros E. unfold hand_over. erewrite bind_M by (by apply pool_at_eq). by erewrite bind_M by reflexivity. Qed.

(** A pool without a run in use has room. *)
Lemma unused_room p e : pool_ok p e -> (forall a, ~ used e a) -> room e.
Proof.
  intros He Hn. destruct (po_free _ _ He) as [Hf [f Ef]]. destruct (po_addr _ _ He) as (_ & [c Ec] & _). pose proof (po_size _ _ He) as Hs.
  destruct (decide (freePtr_ e = p + 4096)) as [E|Hne]; [left; rewrite (po_mem _ _ He); lia|]. right. intros Enil.
  assert (Hp : page e (p + 4096)) by (split; rewrite (po_mem _ _ He); [lia|exists 1; lia]). apply (Hn (p + 4096)). split; [done|].
  by apply (proj1 (freed_nil p e He) Enil), (page_chunk p).
Qed.

(** An occupied pool without a run in use is taken out of the list and handed to the visitor. *)
Lemma VisitUnusedPool_spec s full part ls G p e v :
  inv s full part [] ls G None -> p ∈ full ++ part -> pools s !! p = Some e ->
  (VisitUnusedPool memVisitor p v s = Done (s, v) /\ exists a, owner s (full ++ part) p a) \/
  exists s' pa pb, part = pa ++ p :: pb /\ VisitUnusedPool memVisitor p v s = Done (s', memVisitor p (size_ e) v) /\ inv s' full (pa ++ pb) [] ls G None /\
    (forall a, ~ owner s (full ++ part) p a) /\ (forall q n, is_block s' G q n <-> is_block s G q n) /\
    (forall q n, extent s' (full ++ pa ++ pb) q n <-> q <> p /\ extent s (full ++ part) q n) /\ (forall q a, owner s' (full ++ pa ++ pb) q a <-> owner s (full ++ part) q a) /\
    words s' = words s.
Proof.
  intros Hi Hp E. pose proof (inv_pools _ _ _ _ _ _ _ Hi) as Hk. pose proof (pk_ok _ _ _ _ Hk p e (or_introl Hp) E) as He. unfold VisitUnusedPool.
  erewrite bind_M by (by apply pool_at_eq). destruct (HasUsedMemory_spec p e He) as (b & Eb & Hb). erewrite bind_M by (by apply lift_eq). destruct b.
  { left. split; [done|]. destruct Hb as [a Ha]. exists a. split; [done|]. by exists e. }
  right. pose proof (unused_room p e He Hb) as Hroom. assert (Hpf : p ∉ full) by (intros Hf; by apply (pk_full _ _ _ _ Hk p e Hf E)).
  assert (Hpp : p ∈ part) by set_solver. apply list_elem_of_split in Hpp as (pa & pb & ->). pose proof (pk_occ _ _ _ _ Hk) as Hd. pose proof (pk_manager _ _ _ _ Hk) as Hm.
  rewrite (app_assoc full) in Hd. pose proof (dll_nodup _ _ _ _ Hd) as (Hn1 & Hn12 & [Hnb Hn2]%NoDup_cons)%NoDup_app. pose proof (dll_null _ _ _ _ Hd) as H0.
  destruct (dll_links _ _ _ _ Hd (full ++ pa) p pb eq_refl) as [Hpv Hnx]. rewrite (prev_some _ _ _ _ E) in Hpv. rewrite (next_some _ _ _ _ E) in Hnx.
  assert (Hnot : p ∉ (full ++ pa) ++ pb) by set_solver. assert (Hnone : forall a, ~ owner s (full ++ pa ++ p :: pb) p a) by (intros a (_ & f & F & Hu); simplify_eq; by apply (Hb a)).
  (* the manager *)
  assert (Htail : (if lastz ((full ++ pa) ++ p :: pb) == p then lastz (full ++ pa) else lastz ((full ++ pa) ++ p :: pb)) = lastz ((full ++ pa) ++ pb)).
  { destruct (decide (pb = [])) as [->|Hpb]; [by rewrite lastz_snoc, bool_decide_true, app_nil_r|]. rewrite lastz_app, lastz_cons, (lastz_app _ pb) by done.
    rewrite bool_decide_false; [done|]. intros Ep. apply Hnb. rewrite <- Ep. by apply lastz_in. }
  assert (Hhead : (if p == headz (pa ++ p :: pb) then headz pb else headz (pa ++ p :: pb)) = headz (pa ++ pb)).
  { destruct pa as [|c pa]; [by rewrite bool_decide_true|]. cbn. rewrite bool_decide_false; [done|]. intros ->. apply Hnot. set_solver. }
  set (mg := mkManager 0 (headz (pa ++ pb)) (lastz ((full ++ pa) ++ pb))). set (s1 := {| s with memoryPool_ := mg |}).
  assert (Emg : forall k : M V, (set_manager (fun m => if occupiedTail_ m == p then {| m with occupiedTail_ := prevPool_ e |} else m);;
      set_manager (fun m => if p == partiallyOccupiedHead_ m then {| m with partiallyOccupiedHead_ := nextPool_ e |} else m);; k) s = k s1).
  { intros k. do 2 erewrite bind_M by reflexivity. cbn [put memoryPool_]. rewrite Hm, Hpv, Hnx, !(app_assoc full). cbn [occupiedTail_ partiallyOccupiedHead_ freeTail_].
    f_equal. unfold s1, mg. f_equal. rewrite <- Htail, <- Hhead. destruct (bool_decide (lastz _ = p)), (bool_decide (p = headz _)) eqn:E2; cbn; by rewrite E2. }
  rewrite Emg. clear Emg. destruct (PopPoolFromList_spec s1 (full ++ pa) p pb Hd) as (m2 & E2 & Hd2 & Hc2 & _ & _ & _). erewrite bind_M by exact E2. clear E2.
  set (s2 := with_pools s1 m2). destruct (same_cores_lookup _ m2 p e Hc2 E) as (e2 & Ee2 & Hee2). pose proof Hee2 as (Em2 & _ & _ & Es2 & _).
  rewrite (hand_over_eq s2 p e2 v Ee2), Em2, Es2, (po_mem _ _ He).
  assert (Hk2 : pools_ok s2 full (pa ++ pb) []).
  { eapply (pools_move s s2 full (pa ++ p :: pb) []); [exact Hk|exact Hc2|by rewrite app_assoc|apply dll_nil|set_solver|set_solver| | |set_solver|].
    - intros q f Hq. by apply (pk_full _ _ _ _ Hk).
    - intros q f Hq. apply (pk_part _ _ _ _ Hk). set_solver.
    - cbn [s2 with_pools s1 memoryPool_]. by rewrite app_assoc. }
  assert (Hown : forall q a, owner s2 (full ++ pa ++ pb) q a <-> owner s (full ++ pa ++ p :: pb) q a).
  { intros q a. destruct (decide (q = p)) as [->|Hqp].
    - split; [intros [Hq _]; rewrite app_assoc in Hq; done|]. intros Ho. by apply Hnone in Ho.
    - destruct (decide (q ∈ full ++ pa ++ pb)) as [Hq|Hq]; [apply owner_move; [done|done|set_solver]|]. split; intros [Hq' _]; set_solver. }
  assert (Hi2 : inv s2 full (pa ++ pb) [] ls G None).
  { eapply (inv_frame s); [exact Hi|exact Hk2|done| | |done| |by intros []|done|done].
    - intros a. rewrite (inv_dom _ _ _ _ _ _ _ Hi). by setoid_rewrite Hown.
    - intros q a _. by rewrite Hown.
    - intros id a. apply (lo_in _ _ _ (inv_lists _ _ _ _ _ _ _ Hi)). }
  assert (Hout : forall a, is_Some (G !! a) -> ~ (p <= a < p + size_ e)).
  { intros a [q Hq]%(inv_dom _ _ _ _ _ _ _ Hi). eapply (owner_outside s full (pa ++ p :: pb) [] q p e a Hk Hq); [by left|done|]. intros ->. by apply (Hnone a). }
  assert (Hpout : forall q, q ∈ full ++ pa ++ pb \/ q ∈ [] -> ~ (p <= q < p + size_ e)).
  { intros q [Hq|Hq%elem_of_nil]; [|done]. assert (Hq' : q ∈ full ++ pa ++ p :: pb) by set_solver. destruct (pk_some _ _ _ _ q Hk (or_introl Hq')) as [f F].
    assert (p <> q) by (intros ->; apply Hnot; by rewrite <- app_assoc). pose proof (po_size _ _ (pk_ok _ _ _ _ Hk q f (or_introl Hq') F)). pose proof (po_size _ _ He).
    destruct (pk_apart _ _ _ _ Hk p q e f); try by left. all: try done; lia. }
  destruct (inv_without s2 full (pa ++ pb) [] ls G p (p + size_ e) Hi2 Hpout Hout) as (Hi3 & HL3 & HP3).
  eexists _, pa, pb. split; [done|]. split; [reflexivity|]. split_and!; try done.
  - intros q n. rewrite HP3 by auto. rewrite (extent_cores s s2 (full ++ pa ++ pb)) by done. unfold extent. split.
    + intros [Hq Hx]. split; [intros ->; apply Hnot; by rewrite <- app_assoc|]. split; [set_solver|done].
    + intros [Hqp [Hq Hx]]. split; [set_solver|done].
  - intros q a. rewrite <- Hown. apply owner_frame. intros x Hx. cbn [pools]. apply lookup_without. by apply Hpout; left.
Qed.

(** The walk over the occupied pools: [rem] are handed back, the others have a run in use. *)
Lemma VisitUnusedPools_spec fuel l r s full part ls G v :
  inv s full part [] ls G None -> full ++ part = l ++ r -> (length l < fuel)%nat -> (forall q, q ∈ r -> exists a, owner s (full ++ part) q a) ->
  exists s' full' part' rem, VisitUnusedPools_loop memVisitor fuel (lastz l) v s = Done (s', visits rem v) /\ inv s' full' part' [] ls G None /\
    (forall q n, is_block s' G q n <-> is_block s G q n) /\ words s' = words s /\ NoDup rem /\
    (forall q n, (q, n) ∈ rem -> extent s (full ++ part) q n /\ forall a, ~ owner s (full ++ part) q a) /\
    (forall q n, extent s' (full' ++ part') q n <-> extent s (full ++ part) q n /\ (q, n) ∉ rem) /\
    (forall q, q ∈ full' ++ part' -> exists a, owner s' (full' ++ part') q a) /\ (forall q a, owner s' (full' ++ part') q a <-> owner s (full ++ part) q a).
Proof.
  revert l r s part v. induction fuel as [|fuel IH]; intros l r s part v Hi Hocc Hf Hr; [lia|]. cbn [VisitUnusedPools_loop].
  destruct (decide (l = [])) as [->|Hl].
  { rewrite bool_decide_true by done. exists s, full, part, []. split; [done|]. split_and!; try done; [constructor|set_solver| |].
    - intros q n. split; [|naive_solver]. intros ?. split; [done|]. apply not_elem_of_nil.
    - intros q Hq. apply Hr. by rewrite Hocc in Hq. }
  destruct (exists_last Hl) as (l0 & p & ->). rewrite lastz_snoc. pose proof (pk_occ _ _ _ _ (inv_pools _ _ _ _ _ _ _ Hi)) as Hd. rewrite Hocc in Hd.
  destruct (walk_step s l0 p r Hd) as (Hp0 & e & E & Hpv). rewrite bool_decide_false by done. cbn [negb]. erewrite bind_M by (by apply pool_at_eq).
  assert (Hp : p ∈ full ++ part) by (rewrite Hocc; set_solver). rewrite length_app in Hf. cbn [length] in Hf.
  destruct (VisitUnusedPool_spec s full part ls G p e v Hi Hp E) as [[Ev Huse]|(s1 & pa & pb & -> & Ev & Hi1 & Hnone & HL1 & HP1 & Ho1 & Hw1)];
    (erewrite bind_M by exact Ev); rewrite Hpv.
  - apply (IH l0 ([p] ++ r) s part v); [done|by rewrite Hocc, <- app_assoc|lia|]. intros q [->%list_elem_of_singleton|Hq]%elem_of_app; [done|by apply Hr].
  - assert (Hocc1 : full ++ pa ++ pb = l0 ++ r).
    { assert (Hocc2 : (full ++ pa) ++ p :: pb = l0 ++ p :: r) by (rewrite <- app_assoc, Hocc, <- app_assoc; done).
      destruct (split_unique p (full ++ pa) pb l0 r) as [<- <-]; [|done|by rewrite app_assoc]. apply (dll_nodup _ _ _ _) in Hd. rewrite Hocc2.
      by rewrite <- app_assoc in Hd. }
    destruct (IH l0 r s1 (pa ++ pb) (memVisitor p (size_ e) v)) as (s' & full' & part' & rem & E' & Hi' & HL' & Hw' & Hnd & Hrem & HP' & Hkeep & Ho'); [done|done|lia| |].
    { intros q Hq. destruct (Hr q Hq) as [a Ha]. exists a. by apply Ho1. }
    assert (Hpn : forall n, (p, n) ∉ rem) by (intros n Hin; apply Hrem in Hin as [Hx _]; apply HP1 in Hx as [? _]; done).
    exists s', full', part', ((p, size_ e) :: rem). split; [exact E'|]. split_and!; try done.
    + intros q n. by rewrite HL', HL1.
    + congruence.
    + by constructor.
    + intros q n [[= -> ->]|Hin]%elem_of_cons; [split; [split; [done|by exists e]|done]|]. destruct (Hrem q n Hin) as [Hx Hq]. apply HP1 in Hx as [_ Hx].
      split; [done|]. intros a. rewrite <- Ho1. apply Hq.
    + intros q n. rewrite HP', HP1, not_elem_of_cons. split.
      * intros [[Hqp Hx] Hn]. split; [done|]. split; [congruence|done].
      * intros [Hx [Hne Hn]]. split; [|done]. split; [|done]. intros ->. apply Hne. destruct Hx as (_ & f & F & <-). congruence.
    + intros q a. by rewrite Ho', Ho1.
Qed.

(** The free pools are handed back; what they were linked with is forgotten. *)
Lemma VisitFreePools_spec fuel l s0 full part free ls G s v :
  inv s0 full part free ls G None -> (exists r, free = l ++ r) -> (length l < fuel)%nat ->
  (forall q, q ∈ full ++ part \/ q ∈ l -> pools s !! q = pools s0 !! q) -> (forall a, is_Some (G !! a) -> runs s !! a = runs s0 !! a) ->
  words s = words s0 -> memoryPool_ s = memoryPool_ s0 -> (forall id, list_of s id = list_of s0 id) ->
  exists s' rem, VisitFreePools_loop memVisitor fuel (lastz l) v s = Done (s', visits rem v) /\ rem.*1 = rev l /\ (forall q n, (q, n) ∈ rem -> extent s0 l q n) /\
    (forall q, q ∈ full ++ part -> pools s' !! q = pools s0 !! q) /\ (forall a, is_Some (G !! a) -> runs s' !! a = runs s0 !! a) /\
    words s' = words s0 /\ memoryPool_ s' = memoryPool_ s0 /\ (forall id, list_of s' id = list_of s0 id).
Proof.
  intros Hi. pose proof (inv_pools _ _ _ _ _ _ _ Hi) as Hk. revert l s v. induction fuel as [|fuel IH]; intros l s v [r Hfr] Hf Hp Hr Hw Hm Hls; [lia|]. cbn [VisitFreePools_loop].
  destruct (decide (l = [])) as [->|Hl].
  { rewrite bool_decide_true by done. exists s, []. split; [done|]. split_and!; try done; [set_solver|auto]. }
  destruct (exists_last Hl) as (l0 & p & ->). rewrite lastz_snoc. pose proof (pk_free _ _ _ _ Hk) as Hd. rewrite Hfr in Hd.
  destruct (walk_step s0 l0 p r Hd) as (Hp0 & e & E & Hpv). rewrite bool_decide_false by done. cbn [negb].
  assert (Es : pools s !! p = Some e) by (rewrite Hp by set_solver; done). erewrite bind_M by (by apply pool_at_eq). erewrite bind_M by (by apply hand_over_eq).
  assert (Hpin : p ∈ free) by (rewrite Hfr; set_solver). pose proof (pk_ok _ _ _ _ Hk p e (or_intror Hpin) E) as He. rewrite (po_mem _ _ He), Hpv.
  rewrite length_app in Hf. cbn [length] in Hf.
  assert (Hother : forall q, q ∈ full ++ part \/ q ∈ free -> q <> p -> ~ (p <= q < p + size_ e)).
  { intros q Hq Hne. destruct (pk_some _ _ _ _ q Hk Hq) as [f F]. pose proof (po_size _ _ (pk_ok _ _ _ _ Hk q f Hq F)). pose proof (po_size _ _ He).
    destruct (pk_apart _ _ _ _ Hk p q e f) as [?|?]; try done; [by right|lia|lia]. }
  assert (Hnp : p ∉ l0) by (pose proof (dll_nodup _ _ _ _ Hd) as ((_ & Hnd & _)%NoDup_app & _ & _)%NoDup_app; set_solver).
  set (s1 := mkState _ _ _ _ _ _). destruct (IH l0 s1 (memVisitor p (size_ e) v)) as (s' & rem & E' & Hrev & Hrem & Hp' & Hr' & Hw' & Hm' & Hls'); try done.
  - exists ([p] ++ r). by rewrite Hfr, <- app_assoc.
  - lia.
  - intros q Hq. cbn [s1 pools]. rewrite lookup_without; [apply Hp; set_solver|]. apply Hother; [rewrite Hfr; set_solver|]. intros ->.
    destruct Hq as [Hq|Hq]; [|done]. by apply (pk_disj _ _ _ _ Hk p).
  - intros a Ha. cbn [s1 runs]. rewrite lookup_without; [by apply Hr|]. apply (inv_dom _ _ _ _ _ _ _ Hi) in Ha as [q Hq].
    eapply (owner_outside s0 full part free q p e a Hk Hq); [by right|done|]. intros ->. apply (pk_disj _ _ _ _ Hk q); [apply Hq|done].
  - exists s', ((p, size_ e) :: rem). split; [exact E'|]. rewrite fmap_cons, rev_app_distr. cbn [rev app fst]. rewrite Hrev. split_and!; try done.
    intros q n [[= -> ->]|Hin]%elem_of_cons; [split; [set_solver|eauto]|]. destruct (Hrem q n Hin) as [Hq Hx]. split; [set_solver|done].
Qed.

(** The free pools are dropped. *)
Lemma inv_drop_free s s' full part free ls G :
  inv s full part free ls G None -> (forall q, q ∈ full ++ part -> pools s' !! q = pools s !! q) -> (forall a, is_Some (G !! a) -> runs s' !! a = runs s !! a) ->
  words s' = words s -> memoryPool_ s' = mkManager 0 (headz part) (lastz (full ++ part)) -> (forall id, list_of s' id = list_of s id) ->
  inv s' full part [] ls G None /\ (forall q a, owner s' (full ++ part) q a <-> owner s (full ++ part) q a) /\
  (forall q n, is_block s' G q n <-> is_block s G q n) /\ (forall q n, extent s' (full ++ part) q n <-> extent s (full ++ part) q n).
Proof.
  intros Hi Hp Hr Hw Hm Hl. pose proof (inv_pools _ _ _ _ _ _ _ Hi) as Hk.
  assert (Hown : forall q a, owner s' (full ++ part) q a <-> owner s (full ++ part) q a) by (intros q a; by apply owner_frame).
  assert (Hk' : pools_ok s' full part []).
  { split; try done.
    - eapply dll_frame; [|apply Hk]. intros a Ha. unfold next, prev. rewrite Hp by done. split; [|done]. apply (pk_some _ _ _ _ a Hk). by left.
    - apply dll_nil.
    - intros q _. by intros ?%elem_of_nil.
    - intros q e [Hq|Hq%elem_of_nil]; [|done]. rewrite Hp by done. apply (pk_ok _ _ _ _ Hk). by left.
    - intros q e Hq. rewrite Hp by set_solver. by apply (pk_full _ _ _ _ Hk).
    - intros q e Hq. rewrite Hp by set_solver. by apply (pk_part _ _ _ _ Hk).
    - intros q e Hq. by apply elem_of_nil in Hq.
    - intros q x e f [Hq|Hq%elem_of_nil] [Hx|Hx%elem_of_nil]; [|done..]. rewrite !Hp by done. apply (pk_apart _ _ _ _ Hk); by left. }
  split_and!; [|done| |].
  - eapply (inv_frame s); [exact Hi|exact Hk'|done| | |done| |done| |done].
    + intros a. rewrite (inv_dom _ _ _ _ _ _ _ Hi). by setoid_rewrite Hown.
    + intros q a _. by rewrite Hown.
    + intros id a. apply (lo_in _ _ _ (inv_lists _ _ _ _ _ _ _ Hi)).
    + intros a fl live b _ _. by rewrite Hw.
  - intros q n. unfold is_block. split; intros (a & fl & live & r & HG & Er & Hq); exists a, fl, live, r; (split; [done|]); (split; [|done]);
      [rewrite <- Hr by eauto|rewrite Hr by eauto]; done.
  - intros q n. unfold extent. split; intros (Hq & e & E & Hn); (split; [done|]); exists e; (split; [|done]); [rewrite <- Hp by done|rewrite Hp by done]; done.
Qed.

(** A block is in a page in use of a pool. *)
Lemma block_owner s full part free ls G out p n :
  inv s full part free ls G out -> is_block s G p n -> exists q e, owner s (full ++ part) q (runslotsAddr p) /\ pools s !! q = Some e /\ pool_ok q e /\
    q + 4096 <= p /\ p + n <= q + size_ e.
Proof.
  intros Hi Hb. pose proof Hb as (a & fl & live & r & HG & Er & Hp & Hn). destruct (inv_runs _ _ _ _ _ _ _ Hi a fl live HG) as (r0 & Er0 & Hr & Ho). assert (r0 = r) as -> by congruence.
  destruct (block_page _ _ _ _ _ p Hr Hp) as (H1 & H2 & _ & k & Hk & Ek). destruct (size_divides k Hk) as (_ & _ & Hs). destruct (run_page _ _ _ _ _ Hr) as (H0 & Hd & _). pose proof header_size_ok.
  assert (Ea : runslotsAddr p = a) by (apply runslotsAddr_eq; [done|lia..]). rewrite Ea. pose proof Ho as (Hq & e & E & Hu).
  pose proof (pk_ok _ _ _ _ (inv_pools _ _ _ _ _ _ _ Hi) _ e (or_introl Hq) E) as He. destruct (page_bounds _ e a He (proj1 Hu)) as (_ & _ & B3 & _ & B4 & _).
  exists (poolPointer_ r), e. split_and!; try done; lia.
Qed.

Lemma VisitAndRemoveFreePools_spec s L P v :
  holds s L P ->
  exists s' rem, VisitAndRemoveFreePools memVisitor v s = Done (s', visits rem v) /\ holds s' L (fun q n => P q n /\ (q, n) ∉ rem) /\ NoDup rem /\
    (forall q n, (q, n) ∈ rem -> P q n /\ forall p m, L p m -> p + m <= q \/ q + n <= p) /\
    (forall q n, P q n -> (q, n) ∉ rem -> exists p m, L p m /\ q <= p < q + n) /\ (forall p m b, L p m -> p <= b < p + m -> words s' b = words s b).
Proof.
  intros (full0 & part0 & free & ls0 & G0 & Hi0 & HL0 & HP0). unfold VisitAndRemoveFreePools, ReleaseEmptyRunSlotsPagesUnsafe.
  assert (Hfuel : (length (ls0 FreeList) < S (size (runs s)))%nat).
  { destruct (lo_rep _ _ _ (inv_lists _ _ _ _ _ _ _ Hi0) FreeList I) as [_ Hd]. pose proof (NoDup_size (runs s) _ (dll_nodup _ _ _ _ Hd) (dll_dom _ _ _ _ Hd)). lia. }
  destruct (ReleaseEmpty_loop (ls0 FreeList) s full0 part0 free ls0 G0 _ Hi0 eq_refl Hfuel) as (s1 & full & part & ls & G & E1 & Hi & Hnil & HL1 & HP1 & Hw1).
  erewrite bind_M by (erewrite bind_M by reflexivity; exact E1). clear E1 Hfuel. pose proof (inv_pools _ _ _ _ _ _ _ Hi) as Hk. pose proof (pk_manager _ _ _ _ Hk) as Hm.
  assert (HL : forall q n, is_block s1 G q n <-> L q n) by (intros q n; by rewrite HL1, HL0). assert (HP : forall q n, extent s1 (full ++ part ++ free) q n <-> P q n) by (intros q n; by rewrite HP1, HP0).
  unfold MemPoolManager_VisitAndRemoveFreePools, pools_fuel. do 2 erewrite bind_M by reflexivity. rewrite Hm. cbn [freeTail_].
  destruct (VisitFreePools_spec (S (size (pools s1))) free s1 full part free ls G s1 v Hi) as (s2 & rem1 & E2 & Hrev & Hrem1 & Hp2 & Hr2 & Hw2 & Hm2 & Hls2); try done;
    [by exists []; rewrite app_nil_r|apply pools_fuel_enough, Hk|]. erewrite bind_M by exact E2. erewrite bind_M by reflexivity. cbn [put]. erewrite bind_M by reflexivity.
  cbn [memoryPool_]. rewrite Hm2, Hm. cbn [occupiedTail_]. set (s3 := mkState _ _ _ _ _ _).
  destruct (inv_drop_free s1 s3 full part free ls G Hi) as (Hi3 & Ho3 & HL3 & HP3); [done|done|done|done|intros id; rewrite <- Hls2; by destruct id|].
  destruct (VisitUnusedPools_spec (S (size (pools s1))) (full ++ part) [] s3 full part ls G (visits rem1 v)) as (s4 & full4 & part4 & rem2 & E4 & Hi4 & HL4 & Hw4 & Hnd2 & Hrem2 & HP4 & Hkeep & Ho4);
    [done|by rewrite app_nil_r|apply pools_fuel_enough, Hk|set_solver|].
  assert (Hnd1 : NoDup rem1).
  { apply (NoDup_fmap_1 fst). rewrite Hrev, NoDup_ListNoDup. apply NoDup_rev, NoDup_ListNoDup, (pk_free _ _ _ _ Hk). }
  assert (Hrem1' : forall q n, (q, n) ∈ rem1 <-> extent s1 free q n).
  { intros q n. split; [apply Hrem1|]. intros (Hq & e & E & Hn). assert (Hq' : q ∈ rem1.*1) by (rewrite Hrev; by rewrite list_elem_of_In, <- in_rev, <- list_elem_of_In).
    apply list_elem_of_fmap in Hq' as ([q' n'] & -> & Hin). cbn [fst] in *. destruct (Hrem1 q' n' Hin) as (_ & e' & E' & Hn'). congruence. }
  exists s4, (rem1 ++ rem2). split; [rewrite E4; unfold visits; by rewrite foldl_app|]. split_and!.
  - exists full4, part4, [], ls, G. split_and!; [done| |].
    + intros q n. by rewrite HL4, HL3.
    + intros q n. rewrite app_nil_r, HP4, HP3, not_elem_of_app, Hrem1', <- HP. unfold extent. split.
      * intros [[Hq Hx] Hn]. split; [split; [set_solver|done]|]. split; [|done]. intros [Hf _]. by apply (pk_disj _ _ _ _ Hk q).
      * intros [[Hq Hx] [Hnf Hn]]. split; [|done]. split; [|done]. rewrite app_assoc in Hq. apply elem_of_app in Hq as [|Hq]; [done|]. by exfalso; apply Hnf.
  - apply NoDup_app. split_and!; [done| |done]. intros [q n] Hx%Hrem1' Hy. apply Hrem2 in Hy as [[Hy _] _]. by apply (pk_disj _ _ _ _ Hk q); [|apply Hx].
  - intros q n Hin. assert (Hq : (q ∈ full ++ part \/ q ∈ free) /\ (exists e, pools s1 !! q = Some e /\ size_ e = n) /\ forall a, ~ owner s1 (full ++ part) q a).
    { apply elem_of_app in Hin as [[Hq Hx]%Hrem1'|Hin]; [split_and!; [by right|done|]|].
      - intros a [Hq' _]. by apply (pk_disj _ _ _ _ Hk q).
      - destruct (Hrem2 q n Hin) as [Hx Hn]. apply HP3 in Hx as [Hq Hx]. split_and!; [by left|done|]. intros a. rewrite <- Ho3. apply Hn. }
    destruct Hq as (Hq & (e & E & Hn) & Hno). split; [apply HP; split; [set_solver|by exists e]|]. intros p m Hpm%HL.
    destruct (block_owner _ _ _ _ _ _ _ p m Hi Hpm) as (q' & e' & Ho & E' & He' & H1 & H2). assert (q <> q') by (intros ->; by apply (Hno _ Ho)). pose proof (proj1 Ho) as Hq'.
    destruct (pk_apart _ _ _ _ Hk q q' e e'); try by left. all: try done; lia.
  - intros q n Hqn Hno. assert (Hx : extent s4 (full4 ++ part4) q n).
    { apply HP4. rewrite HP3. rewrite not_elem_of_app in Hno. destruct Hno as [Hn1 Hn2]. split; [|done]. apply HP in Hqn as [Hq Hx]. split; [|done].
      rewrite app_assoc in Hq. apply elem_of_app in Hq as [|Hq]; [done|]. exfalso. by apply Hn1, Hrem1'. }
    destruct Hx as (Hq & e & E & Hn). destruct (Hkeep q Hq) as [a Ha]. assert (HD : is_Some (G !! a)) by (apply (inv_dom _ _ _ _ _ _ _ Hi4); eauto). destruct HD as [[fl live] HG].
    destruct (inv_runs _ _ _ _ _ _ _ Hi4 a fl live HG) as (r & Er & Hr & _). assert (Hlive : live <> ∅).
    { intros ->. assert (Hf : a ∈ ls FreeList) by (apply (inv_home _ _ _ _ _ _ _ Hi4 a fl ∅ r HG Er ltac:(done)); unfold home; by rewrite decide_True). rewrite Hnil in Hf. by apply elem_of_nil in Hf. }
    apply set_choose_L in Hlive as [o Ho]. exists o, (slotSize_ r). assert (Hb : is_block s4 G o (slotSize_ r)) by (exists a, fl, live, r; done). split; [by rewrite <- HL, <- HL3, <- HL4|].
    destruct (block_owner _ _ _ _ _ _ _ o _ Hi4 Hb) as (q' & e' & Ho' & E' & _ & H1 & H2).
    destruct (block_run _ _ _ _ _ _ _ o _ Hi4 Hb) as (fl' & live' & r' & HG' & _ & _ & Hol & _). assert (q' = q) as ->.
    { assert (Ea : runslotsAddr o = a).
      { destruct (block_page _ _ _ _ _ o Hr Ho) as (H3 & H4 & _ & k & Hkk & Ek). destruct (size_divides k Hkk) as (_ & _ & Hs). pose proof header_size_ok.
        destruct (run_page _ _ _ _ _ Hr) as (H5 & Hd & _). apply runslotsAddr_eq; [done|lia..]. }
      rewrite Ea in Ho'. by eapply (owner_unique s4 full4 part4 [] q' q a (inv_pools _ _ _ _ _ _ _ Hi4)). }
    assert (e' = e) as -> by congruence. destruct (block_page _ _ _ _ _ o Hr Ho) as (_ & _ & _ & k & Hkk & Ek). destruct (size_divides k Hkk) as (_ & _ & Hs). lia.
  - intros p m b Hp Hb. rewrite Hw4. cbn [s3 words]. rewrite Hw2. apply (Hw1 p m); [by apply HL0|done].
Qed.
End Visitor.
End Return.
