(* ===== verification/RunSlotsSpec.v ===== *)
(** What the run-slots allocator promises its clients: an abstract heap of blocks and pools, the calls of a client, and a simulation
    of the heap by the allocator, call by call. *)
From S2P Require Import Prelude Leb128 GcBitmap RunSlots RunSlotsAllocator MemLists RunSlotsLists RunSlotsPools RunSlotsManager RunSlotsInv RunSlotsAlloc RunSlotsIterate RunSlotsReturn.
From stdpp Require Import gmap functions list.
Local Open Scope Z_scope.
Local Open Scope ark_scope.

(** ** The abstract heap *)
(** The blocks a client has and the pools the allocator was given, with their sizes, and the words in the blocks. *)
Record Heap := mkHeap { blocks : gmap Z Z; arenas : gmap Z Z; contents : Z -> Z }.
Definition new_heap : Heap := mkHeap ∅ ∅ (fun _ => 0).

Definition inside (h : Heap) (b : Z) : Prop := exists p n, blocks h !! p = Some n /\ p <= b < p + n.
(** The words of the blocks both heaps have are the same. *)
Definition kept (h h' : Heap) : Prop :=
  forall p n b, blocks h !! p = Some n -> blocks h' !! p = Some n -> p <= b < p + n -> contents h' b = contents h b.

Inductive Call :=
| CallAlloc (DISABLE_USE_FREE_RUNSLOTS : bool) (size align : Z)
| CallFree (mem : Z)
| CallCollect (deathCheckerFn : Z -> bool)
| CallAddMemoryPool (mem size : Z)
| CallVisitAndRemoveFreePools
| CallWrite (b v : Z)
| CallRead (b : Z).

Inductive Result :=
| Nothing
| Flag (b : bool)
| Value (v : Z)
| Removed (l : list (Z * Z)).

(** A client: a call, and what it does with the result. *)
Inductive Client := Stop | Step (c : Call) (k : Result -> Client).

Section Spec.
Context `{Layout}.

(** Every page of every pool has a block in it, and the slots of the pages with blocks of the size [2 ^ k] are all taken. *)
Definition full_heap (h : Heap) (k : Z) : Prop :=
  forall q m a, arenas h !! q = Some m -> (4096 | a) -> q + 4096 <= a -> a + 4096 <= q + m ->
  exists o n, blocks h !! o = Some n /\ a <= o < a + 4096 /\ (n = 2 ^ k -> forall p, is_slot a n p -> blocks h !! p = Some n).

(** What a client may call: it frees and uses blocks it has, and gives memory that it has not given before. *)
Definition pre (h : Heap) (c : Call) : Prop :=
  match c with
  | CallAlloc _ size align => 0 <= size /\ (size <> 0 -> init_size <= size) /\ 2 <= align <= 13
  | CallFree mem => mem = 0 \/ is_Some (blocks h !! mem)
  | CallAddMemoryPool mem size =>
      mem = 0 \/ MIN_POOL_SIZE < size \/
      0 < mem /\ (4096 | mem) /\ mem + 2 * MIN_POOL_SIZE <= 2 ^ 64 /\ 3 * 4096 <= size /\
      (forall q n, arenas h !! q = Some n -> mem + size <= q \/ q + n <= mem)
  | CallWrite b _ | CallRead b => inside h b
  | CallCollect _ | CallVisitAndRemoveFreePools => True
  end.

(** A new block [p] of [2 ^ k] bytes. *)
Record new_block (h : Heap) (size align k p : Z) (h' : Heap) : Prop := {
  nb_null : p <> 0;
  nb_size : 3 <= k <= 8 /\ size <= 2 ^ k;
  nb_tight : 3 < k -> 2 ^ (k - 1) < request size align;
  nb_align : align <= k /\ (2 ^ k | p);
  nb_apart : forall q n, blocks h !! q = Some n -> p + 2 ^ k <= q \/ q + n <= p;
  nb_arena : exists q m, arenas h !! q = Some m /\ q + 4096 <= p /\ p + 2 ^ k <= q + m;
  nb_blocks : blocks h' = <[p := 2 ^ k]> (blocks h);
  nb_arenas : arenas h' = arenas h;
  nb_init : forall b, p <= b < p + init_size -> contents h' b = 0;
  nb_kept : kept h h';
}.

(** What a call may return, and the heap after it. *)
Definition spec (h : Heap) (c : Call) (r : Result) (h' : Heap) : Prop :=
  match c, r with
  | CallAlloc disable size align, Value p =>
      (p = 0 /\ h' = h /\
       (size = 0 \/ 256 < request size align \/ disable = true \/ exists k, 3 <= k <= 8 /\ request size align <= 2 ^ k /\ (3 < k -> 2 ^ (k - 1) < request size align) /\ full_heap h k)) \/
      (0 < size /\ request size align <= 256 /\ exists k, new_block h size align k p h')
  | CallFree mem, Nothing => blocks h' = delete mem (blocks h) /\ arenas h' = arenas h /\ kept h h'
  | CallCollect dead, Nothing => blocks h' = filter (fun '(p, _) => dead p = false) (blocks h) /\ arenas h' = arenas h /\ kept h h'
  | CallAddMemoryPool mem size, Flag b =>
      b = negb (bool_decide (mem = 0) || bool_decide (MIN_POOL_SIZE < size)) /\ blocks h' = blocks h /\
      arenas h' = (if b then <[mem := size]> (arenas h) else arenas h) /\ kept h h'
  | CallVisitAndRemoveFreePools, Removed l =>
      NoDup l /\ (forall q n, (q, n) ∈ l <-> arenas h !! q = Some n /\ forall p m, blocks h !! p = Some m -> ~ (q <= p < q + n)) /\
      blocks h' = blocks h /\ arenas h' = filter (fun x => x ∉ l) (arenas h) /\ kept h h'
  | CallWrite b v, Nothing => blocks h' = blocks h /\ arenas h' = arenas h /\ (forall a, inside h a -> contents h' a = if a =? b then v else contents h a)
  | CallRead b, Value v => v = contents h b /\ h' = h
  | _, _ => False
  end.

Fixpoint legal (h : Heap) (client : Client) : Prop :=
  match client with
  | Stop => True
  | Step c k => pre h c /\ forall r h', spec h c r h' -> legal h' (k r)
  end.

(** The results a client may see. *)
Inductive behaves : Heap -> Client -> list Result -> Heap -> Prop :=
| behaves_stop h : behaves h Stop [] h
| behaves_step h c k r h' rs h'' : spec h c r h' -> behaves h' (k r) rs h'' -> behaves h (Step c k) (r :: rs) h''.

(** ** The client and the allocator *)
Definition perform (c : Call) : M Result :=
  match c with
  | CallAlloc disable size align => p ← Alloc disable size align; mret (Value p)
  | CallFree mem => Free mem;; mret Nothing
  | CallCollect dead => Collect dead;; mret Nothing
  | CallAddMemoryPool mem size => b ← AddMemoryPool mem size; mret (Flag b)
  | CallVisitAndRemoveFreePools => l ← VisitAndRemoveFreePools (fun mem size l => l ++ [(mem, size)]) []; mret (Removed l)
  | CallWrite b v => put (fun s => {| s with words := <[b := v]> (words s) |});; mret Nothing
  | CallRead b => v ← get (fun s => words s b); mret (Value v)
  end.

Fixpoint run (client : Client) : M (list Result) :=
  match client with
  | Stop => mret []
  | Step c k => r ← perform c; rs ← run (k r); mret (r :: rs)
  end.

(** ** The simulation *)
Definition models (s : State) (h : Heap) : Prop :=
  holds s (fun p n => blocks h !! p = Some n) (fun q n => arenas h !! q = Some n) /\ forall b, inside h b -> words s b = contents h b.

Lemma holds_ext s L P L' P' : (forall p n, L' p n <-> L p n) -> (forall p n, P' p n <-> P p n) -> holds s L P -> holds s L' P'.
Proof. intros HL HP (full & part & free & ls & G & Hi & H1 & H2). exists full, part, free, ls, G. split_and!; [done|intros; by rewrite HL|intros; by rewrite HP]. Qed.

(** Facts on blocks and pools that do not depend on how they are kept. *)
Lemma holds_apart s L P p n q m : holds s L P -> L p n -> L q m -> p <> q -> p + n <= q \/ q + m <= p.
Proof. intros (full & part & free & ls & G & Hi & HL & _) Hp%HL Hq%HL. by eapply block_apart. Qed.

Lemma holds_size s L P p n : holds s L P -> L p n -> 8 <= n /\ p <> 0.
Proof.
  intros (full & part & free & ls & G & Hi & HL & _) Hp%HL. destruct (block_run _ _ _ _ _ _ _ p n Hi Hp) as (fl & live & r & _ & _ & Hr & _ & <- & _ & H0).
  split; [|done]. destruct (run_size _ _ _ _ _ Hr) as (k & Hk & ->). change 8 with (2 ^ 3). apply Z.pow_le_mono_r; lia.
Qed.

Lemma holds_arena s L P p n : holds s L P -> L p n -> exists q m, P q m /\ q + 4096 <= p /\ p + n <= q + m.
Proof.
  intros (full & part & free & ls & G & Hi & HL & HP) Hp%HL. destruct (block_owner _ _ _ _ _ _ _ p n Hi Hp) as (q & e & [Hq _] & E & _ & H1 & H2).
  exists q, (size_ e). split; [|done]. apply HP. split; [set_solver|by exists e].
Qed.

Lemma holds_arenas s L P q n q' n' : holds s L P -> P q n -> P q' n' -> q <> q' -> q + n <= q' \/ q' + n' <= q.
Proof.
  intros (full & part & free & ls & G & Hi & _ & HP) [Hq (e & E & <-)]%HP [Hq' (e' & E' & <-)]%HP Hne.
  apply (pk_apart _ _ _ _ (inv_pools _ _ _ _ _ _ _ Hi)); set_solver.
Qed.

(** The heap after a call: what the allocator holds, with the words of memory. *)
Lemma models_step s h s' B A :
  models s h -> holds s' (fun p n => B !! p = Some n) (fun q n => A !! q = Some n) ->
  (forall p n b, blocks h !! p = Some n -> B !! p = Some n -> p <= b < p + n -> words s' b = words s b) ->
  models s' (mkHeap B A (words s')) /\ kept h (mkHeap B A (words s')).
Proof.
  intros [_ Hc] Hs Hw. split; [by split|]. intros p n b Hp Hp' Hb. cbn [contents]. rewrite (Hw p n b) by done. apply Hc. by exists p, n.
Qed.

Lemma new_models w : models (RunSlotsAllocator w) new_heap.
Proof.
  split; [|by intros b (p & n & Hp & _)]. exists [], [], [], (fun _ => []), ∅. split_and!.
  - split.
    + split; try done; try apply dll_nil; intros *; rewrite ?elem_of_nil; naive_solver.
    + split; try (intros *; by rewrite ?elem_of_nil).
      * intros id Hid. split; [|apply dll_nil]. destruct id as [i|]; [|done]. cbn in Hid. unfold list_of, read. cbn [runslots_ RunSlotsAllocator].
        by rewrite lookup_replicate_2.
      * intros _ a Ha. by apply elem_of_nil in Ha.
    + intros a. rewrite lookup_empty. split; [by intros [? ?]|]. intros (p & Hp & _). by apply elem_of_nil in Hp.
    + intros a fl live HG. by rewrite lookup_empty in HG.
    + intros a fl live r HG. by rewrite lookup_empty in HG.
  - intros p n. unfold is_block. cbn [blocks new_heap]. rewrite lookup_empty. split; [|done]. intros (a & fl & live & r & HG & _). by rewrite lookup_empty in HG.
  - intros p n. cbn [arenas new_heap]. rewrite lookup_empty. split; [|done]. intros [Hp _]. by apply elem_of_nil in Hp.
Qed.

(** *** Free *)
Lemma free_step s h mem :
  models s h -> pre h (CallFree mem) -> exists s' h', Free mem s = Done (s', tt) /\ spec h (CallFree mem) Nothing h' /\ models s' h'.
Proof.
  intros Hm Hpre. pose proof Hm as [(full & part & free & ls & G & Hi & HL & HP) Hc]. destruct (decide (mem = 0)) as [->|H0].
  - exists s, h. split; [done|]. split; [|done]. split; [|done]. rewrite delete_id; [done|]. apply eq_None_not_Some. intros [n Hn%HL].
    by destruct (block_run _ _ _ _ _ _ _ 0 n Hi Hn) as (_ & _ & _ & _ & _ & _ & _ & _ & _ & ?).
  - destruct Hpre as [?|[n Hn]]; [done|]. destruct (FreeUnsafe_spec s full part free ls G mem n Hi) as (s' & ls' & G' & E & Hi' & Hp' & HL' & Hw'); [by apply HL|].
    destruct (models_step s h s' (delete mem (blocks h)) (arenas h) Hm) as [Hm' Hk'].
    + exists full, part, free, ls', G'. split_and!; [done| |].
      * intros p m. rewrite HL', HL, lookup_delete_Some. naive_solver.
      * intros q m. rewrite <- HP. unfold extent. by rewrite Hp'.
    + intros p m b Hp [Hne _]%lookup_delete_Some Hb. apply Hw'. intros ->.
      pose proof (holds_apart s _ _ p m mem n (proj1 Hm) Hp Hn ltac:(done)) as Hap. destruct (holds_size s _ _ mem n (proj1 Hm) Hn). lia.
    + eexists s', _. split; [exact E|]. split; [|exact Hm']. done.
Qed.

(** *** Collect *)
Lemma collect_step s h dead :
  models s h -> exists s' h', Collect dead s = Done (s', tt) /\ spec h (CallCollect dead) Nothing h' /\ models s' h'.
Proof.
  intros Hm. destruct (Collect_spec s _ _ dead (proj1 Hm)) as (s' & E & Hh & Hw).
  destruct (models_step s h s' (filter (fun '(p, _) => dead p = false) (blocks h)) (arenas h) Hm) as [Hm' Hk'].
  - refine (holds_ext s' _ _ _ _ _ _ Hh); [|done]. intros p n. apply map_lookup_filter_Some.
  - intros p n b Hp [_ Hd]%map_lookup_filter_Some Hb. apply Hw. intros [Hdb [m Hm0]]. cbn in Hd. destruct (decide (p = b)) as [->|Hne]; [congruence|].
    pose proof (holds_apart s _ _ p n b m (proj1 Hm) Hp Hm0 Hne). destruct (holds_size s _ _ b m (proj1 Hm) Hm0). lia.
  - eexists s', _. split; [exact E|]. split; [|exact Hm']. done.
Qed.

(** *** Memory *)
Lemma write_step s h b v :
  models s h -> pre h (CallWrite b v) ->
  exists h', spec h (CallWrite b v) Nothing h' /\ models {| s with words := <[b := v]> (words s) |} h'.
Proof.
  intros [Hh Hc] Hb. exists (mkHeap (blocks h) (arenas h) (<[b := v]> (words s))). split.
  - split_and!; [done..|]. intros a Ha. cbn [contents]. destruct (Z.eqb_spec a b) as [->|Hne]; [by rewrite fn_lookup_insert|].
    rewrite fn_lookup_insert_ne by done. by apply Hc.
  - split; [|done]. apply holds_words; [exact Hh|]. intros a Ha. destruct (decide (a = b)) as [->|Hne]; [exact Hb|]. by rewrite fn_lookup_insert_ne in Ha.
Qed.

(** *** Pools *)
Lemma add_pool_step s h mem size :
  models s h -> pre h (CallAddMemoryPool mem size) ->
  exists s' b h', AddMemoryPool mem size s = Done (s', b) /\ spec h (CallAddMemoryPool mem size) (Flag b) h' /\ models s' h'.
Proof.
  intros Hm Hpre. unfold AddMemoryPool. cbn [spec]. destruct (decide (mem = 0)) as [->|H0].
  { exists s, false, h. rewrite bool_decide_true by done. done. }
  rewrite bool_decide_false by done. destruct (Z.ltb_spec MIN_POOL_SIZE size) as [Hbig|Hok].
  { exists s, false, h. by rewrite bool_decide_true. }
  rewrite bool_decide_false by lia. cbn [orb negb]. destruct Hpre as [?|[?|(Hpos & Hd & Hl & Hs & Hap)]]; [done|lia|].
  pose proof Hm as [(full & part & free & ls & G & Hi & HL & HP) Hc].
  destruct (AddNewMemoryPool_spec s full part free mem size (inv_pools _ _ _ _ _ _ _ Hi)) as (s' & E & Hk & Hown & Hr & [Hw Hls] & Hext);
    [done..| |]. { intros q n Hq. by apply Hap, HP. }
  assert (Hi' : inv s' full part (free ++ [mem]) ls G None).
  { eapply (inv_frame s); [exact Hi|exact Hk|done| | |by rewrite Hr| |done|by rewrite Hw|done].
    - intros a. rewrite (inv_dom _ _ _ _ _ _ _ Hi). by setoid_rewrite Hown.
    - intros q a _. by rewrite Hown.
    - apply (inv_lists _ _ _ _ _ _ _ Hi). }
  destruct (models_step s h s' (blocks h) (<[mem := size]> (arenas h)) Hm) as [Hm' Hk'].
  - exists full, part, (free ++ [mem]), ls, G. split_and!; [done| |].
    + intros p n. rewrite <- HL. unfold is_block. by rewrite Hr.
    + intros q n. rewrite Hext, HP, lookup_insert_Some. split; [intros [[-> ->]|Hq]; [by left|]|naive_solver].
      destruct (decide (mem = q)) as [->|]; [|by right]. pose proof Hq as [Hq1 (e & Ee & En)]%HP.
      pose proof (po_size _ _ (pk_ok _ _ _ _ (inv_pools _ _ _ _ _ _ _ Hi) q e ltac:(set_solver) Ee)). destruct (Hap q n Hq); lia.
  - intros p n b _ _ _. by rewrite Hw.
  - eexists s', true, _. split; [exact E|]. split; [|exact Hm']. done.
Qed.

Lemma visits_snoc l v : visits (fun mem size (l : list (Z * Z)) => l ++ [(mem, size)]) l v = v ++ l.
Proof. revert v. induction l as [|[q n] l IH]; intros v; cbn; [by rewrite app_nil_r|]. unfold visits in IH. rewrite IH. by rewrite <- app_assoc. Qed.

Lemma remove_step s h :
  models s h -> exists s' l h', VisitAndRemoveFreePools (fun mem size l => l ++ [(mem, size)]) [] s = Done (s', l) /\
    spec h CallVisitAndRemoveFreePools (Removed l) h' /\ models s' h'.
Proof.
  intros Hm. destruct (VisitAndRemoveFreePools_spec (fun mem size l => l ++ [(mem, size)]) s _ _ [] (proj1 Hm)) as (s' & l & E & Hh & Hnd & Hin & Hout & Hw).
  destruct (models_step s h s' (blocks h) (filter (fun x => x ∉ l) (arenas h)) Hm) as [Hm' Hk'].
  - refine (holds_ext s' _ _ _ _ _ _ Hh); [done|]. intros q n. by rewrite map_lookup_filter_Some.
  - intros p n b Hp _ Hb. by apply (Hw p n).
  - eexists s', l, _. split; [rewrite E, visits_snoc; reflexivity|]. split; [|exact Hm']. split_and!; [done| |done..].
    intros q n. split.
    + intros Hq. destruct (Hin q n Hq) as [HP Hap]. split; [done|]. intros p m Hp. destruct (holds_size s _ _ p m (proj1 Hm) Hp). destruct (Hap p m Hp); lia.
    + intros [HP Hno]. destruct (decide ((q, n) ∈ l)) as [|Hnot]; [done|]. destruct (Hout q n HP Hnot) as (p & m & Hp & Hpq). by destruct (Hno p m Hp).
Qed.

(** *** Alloc *)
(** A pool without room has all its pages in use. *)
Lemma full_used p e a : pool_ok p e -> ~ room e -> (4096 | a) -> p + 4096 <= a -> a + 4096 <= p + size_ e -> used e a.
Proof.
  intros He Hno Hd Hlo Hhi. pose proof (po_mem _ _ He) as Hm. destruct (po_addr _ _ He) as (_ & Hp & _). destruct (po_free _ _ He) as [Hf Hfd].
  assert (Hlt : a < freePtr_ e).
  { destruct (decide (a < freePtr_ e)) as [|Hge]; [done|]. exfalso. apply Hno. left. rewrite Hm. lia. }
  assert (Hpg : page e a) by (split; rewrite Hm; [lia|by apply Z.divide_sub_r]). split; [done|].
  destruct (marked (freedRunslotsBitmap_ e) a) eqn:Em; [|done]. exfalso. apply Hno. right. intros Hnil.
  apply (elem_of_pages p e a He) in Hpg. assert (Hin : a ∈ freed e) by (unfold freed; rewrite list_elem_of_In, filter_In, <- list_elem_of_In; done).
  rewrite Hnil in Hin. by apply elem_of_nil in Hin.
Qed.

Lemma exhausted_full s h full part free ls G k :
  inv s full part free ls G None -> (forall p n, is_block s G p n <-> blocks h !! p = Some n) -> (forall p n, extent s (full ++ part ++ free) p n <-> arenas h !! p = Some n) ->
  exhausted s full part free G k -> full_heap h k.
Proof.
  intros Hi HL HP (-> & -> & Hex) q m a [Hq (e & E & Hn)]%HP Hd Hlo Hhi. rewrite app_nil_r in Hq. pose proof (inv_pools _ _ _ _ _ _ _ Hi) as Hk.
  assert (Hq' : q ∈ full ++ []) by by rewrite app_nil_r. pose proof (pk_ok _ _ _ _ Hk q e (or_introl Hq') E) as He.
  assert (Hu : used e a) by (subst m; apply (full_used q); [done|by apply (pk_full _ _ _ _ Hk q)|done..]).
  assert (HD : is_Some (G !! a)) by (apply (inv_dom _ _ _ _ _ _ _ Hi); exists q; split; [done|by exists e]). destruct HD as [[fl live] HG].
  destruct (inv_runs _ _ _ _ _ _ _ Hi a fl live HG) as (r & Er & Hr & _). destruct (Hex a fl live r HG Er) as [Hlive Hfull].
  apply set_choose_L in Hlive as [o Ho]. exists o, (slotSize_ r). split; [apply HL; by exists a, fl, live, r|]. split.
  - destruct (run_number _ _ _ _ _ o Hr (run_slot _ _ _ _ _ o Hr (or_introl Ho))). lia.
  - intros Hsz p Hp. apply HL. exists a, fl, live, r. split_and!; try done. by apply (IsFull_live _ _ _ _ _ (Hfull Hsz) Hr).
Qed.

Lemma Alloc_refused s disable size align : 2 <= align <= 13 -> size = 0 \/ 256 < request size align -> Alloc disable size align s = Done (s, 0).
Proof.
  intros Hal Hr. unfold Alloc. destruct (decide (size = 0)) as [->|H0]; [done|]. destruct Hr as [?|Hr]; [done|]. rewrite bool_decide_false by done.
  assert (Eal : GetAlignmentInBytes align = 2 ^ align).
  { unfold GetAlignmentInBytes. rewrite Z.shiftl_1_l, wrapu_id; [done|]. unfold in_u. split; [apply Z.pow_nonneg; lia|apply Z.pow_lt_mono_r; lia]. }
  unfold request in Hr. rewrite Eal. change MaxSlotSize with 256. by destruct (Z.ltb_spec 256 (if size <? 2 ^ align then 2 ^ align else size)); [|lia].
Qed.

Lemma alloc_step s h disable size align :
  models s h -> pre h (CallAlloc disable size align) ->
  exists s' p h', Alloc disable size align s = Done (s', p) /\ spec h (CallAlloc disable size align) (Value p) h' /\ models s' h'.
Proof.
  intros Hm (Hs0 & Hin & Hal). destruct (decide (size = 0 \/ 256 < request size align)) as [Hr|Hr].
  { exists s, 0, h. split; [by apply Alloc_refused|]. split; [|done]. left. split_and!; [done..|]. destruct Hr; auto. }
  assert (Hsz : 0 < size) by lia. destruct (Alloc_spec s _ _ disable size align (proj1 Hm)) as (k & Hk & Hle & Hak & Htight & Hres); [lia|done|apply Hin; lia|lia|].
  destruct Hres as [[E Hex]|(s' & p & E & Hh & Hp0 & Hpd & Hnew & Hw)].
  - exists s, 0, h. split; [done|]. split; [|done]. left. split_and!; [done..|]. right; right. destruct disable; [by left|right].
    destruct (Hex eq_refl) as (full & part & free & ls & G & Hi & HL & HP & Hex'). exists k. split_and!; [lia..| |done|].
    + unfold request. destruct (Z.ltb_spec size (2 ^ align)); [|lia]. apply Z.pow_le_mono_r; lia.
    + by eapply exhausted_full.
  - assert (Hfresh : blocks h !! p = None) by (destruct (blocks h !! p) as [n|] eqn:En; [by destruct (Hnew n)|done]).
    assert (Hh' : holds s' (fun q n => <[p := 2 ^ k]> (blocks h) !! q = Some n) (fun q n => arenas h !! q = Some n)).
    { refine (holds_ext s' _ _ _ _ _ _ Hh); [|done]. intros q n. rewrite lookup_insert_Some. split; [naive_solver|]. intros [[-> ->]|Hq]; [by left|].
      right. split; [|done]. intros ->. congruence. }
    assert (Hap : forall q n, blocks h !! q = Some n -> p + 2 ^ k <= q \/ q + n <= p).
    { intros q n Hq. assert (p <> q) by congruence. apply (holds_apart s' _ _ p (2 ^ k) q n Hh'); [by rewrite lookup_insert_eq|by rewrite lookup_insert_ne|done]. }
    destruct (models_step s h s' (<[p := 2 ^ k]> (blocks h)) (arenas h) Hm Hh') as [Hm' Hk'].
    + intros q n b Hq _ Hb. rewrite Hw. destruct (Z.leb_spec p b), (Z.ltb_spec b (p + init_size)); cbn [andb]; try done. specialize (Hin ltac:(lia)). destruct (Hap q n Hq); lia.
    + eexists s', p, _. split; [exact E|]. split; [|exact Hm']. right. split; [done|]. split; [lia|]. exists k. split; try done.
      * by apply (holds_arena s' _ _ p (2 ^ k) Hh'), lookup_insert_eq.
      * intros b Hb. cbn [contents]. rewrite Hw. destruct (Z.leb_spec p b), (Z.ltb_spec b (p + init_size)); cbn [andb]; lia.
Qed.

(** ** Every call, and every client *)
Lemma perform_refines s h c : models s h -> pre h c -> exists s' r h', perform c s = Done (s', r) /\ spec h c r h' /\ models s' h'.
Proof.
  intros Hm Hp. destruct c; cbn [perform].
  - destruct (alloc_step s h _ _ _ Hm Hp) as (s' & p & h' & E & Hs & Hm'). exists s', (Value p), h'. by erewrite bind_M by exact E.
  - destruct (free_step s h _ Hm Hp) as (s' & h' & E & Hs & Hm'). exists s', Nothing, h'. by erewrite bind_M by exact E.
  - destruct (collect_step s h deathCheckerFn Hm) as (s' & h' & E & Hs & Hm'). exists s', Nothing, h'. by erewrite bind_M by exact E.
  - destruct (add_pool_step s h _ _ Hm Hp) as (s' & b & h' & E & Hs & Hm'). exists s', (Flag b), h'. by erewrite bind_M by exact E.
  - destruct (remove_step s h Hm) as (s' & l & h' & E & Hs & Hm'). exists s', (Removed l), h'. by erewrite bind_M by exact E.
  - destruct (write_step s h b v Hm Hp) as (h' & Hs & Hm'). eexists _, Nothing, h'. split; [reflexivity|]. done.
  - exists s, (Value (words s b)), h. split; [done|]. split; [|done]. split; [|done]. by apply Hm.
Qed.

Lemma run_refines client s h : models s h -> legal h client -> exists s' rs h', run client s = Done (s', rs) /\ behaves h client rs h' /\ models s' h'.
Proof.
  revert s h. induction client as [|c k IH]; intros s h Hm Hl; cbn [run].
  - exists s, [], h. split; [done|]. split; [constructor|done].
  - destruct Hl as [Hp Hl]. destruct (perform_refines s h c Hm Hp) as (s1 & r & h1 & E & Hs & Hm1). erewrite bind_M by exact E.
    destruct (IH r s1 h1 Hm1 (Hl r h1 Hs)) as (s' & rs & h' & E' & Hb & Hm'). erewrite bind_M by exact E'. exists s', (r :: rs), h'.
    split; [done|]. split; [by econstructor|done].
Qed.
End Spec.
