(* ===== verification/RunSlotsTheorems.v ===== *)
(** The theorems of the run-slots allocator: it implements the heap of RunSlotsSpec for every client, walks over the blocks of the
    client and over nothing else, and gives all memory back once the blocks are free. *)
From S2P Require Import Prelude Leb128 GcBitmap RunSlots RunSlotsAllocator MemLists RunSlotsLists RunSlotsPools RunSlotsManager RunSlotsInv RunSlotsAlloc RunSlotsIterate RunSlotsReturn RunSlotsSpec.
From stdpp Require Import gmap functions list.
Local Open Scope Z_scope.
Local Open Scope ark_scope.

Section Theorems.
Context `{Layout}.

(** C11: a client can make any sequence of calls, each chosen by the results of the ones before, as long as every call meets [pre]: it
    frees and uses the blocks it has, and only those; it asks for 0 bytes or at least as many as a new block is cleared, aligned to
    2^2 .. 2^13; a pool it adds is null or too large (then it is refused), or starts at a page (a multiple of 4096, while PoolAlign
    asks for 8 bytes only: [misaligned_pool] shows what happens otherwise), has at least three pages, ends 2 * MIN_POOL_SIZE below the
    end of memory and is apart from the pools it has given.  Then on a new allocator every call returns, and the results are those of the abstract heap.  So a block that is
    handed out is not null, is aligned, has the least size class for the request, lies in a pool behind its header and apart from
    every other block; null is returned only for sizes no run has, when new runs are disabled, or when every page of every pool is in
    use and no run of the size has a free slot; words in blocks are kept until the block is freed; Collect frees the dead blocks and
    no others; VisitAndRemoveFreePools gives back exactly the pools without a block. *)
Theorem allocator_refines w client :
  legal new_heap client -> exists s rs h, run client (RunSlotsAllocator w) = Done (s, rs) /\ behaves new_heap client rs h.
Proof. intros Hl. destruct (run_refines client _ _ (new_models w) Hl) as (s & rs & h & E & Hb & _). by exists s, rs, h. Qed.

(** ** Walks over the blocks *)
(** A visitor that leaves the headers of runs and pools alone. *)
Definition harmless (visitor : Z -> M unit) : Prop :=
  forall o s, exists s', visitor o s = Done (s', tt) /\ runs s' = runs s /\ pools s' = pools s.

Lemma iterate_models s h visitor :
  models s h -> harmless visitor ->
  exists l, NoDup l /\ (forall o, o ∈ l <-> is_Some (blocks h !! o)) /\ IterateOverObjects visitor s = each visitor l s.
Proof.
  intros [(full & part & free & ls & G & Hi & HL & HP) _] Hv. exists (objects s (full ++ part)). split_and!.
  - by eapply objects_NoDup, Hi.
  - intros o. rewrite (elem_of_objects _ _ _ _ _ _ _ o Hi). unfold is_Some. by setoid_rewrite HL.
  - destruct (IterateOverObjects_spec visitor s full part free (fun vs s' => each visitor vs s = Done (s', tt) /\ runs s' = runs s /\ pools s' = pools s)) as (s' & E & E' & _);
      [apply Hi|by intros vs s' (_ & _ & ?)| | | |done|by rewrite E, E'].
    + intros vs s' a r0 (_ & Hr & _) Ho Er. exists r0. rewrite Hr. split; [done|]. split; [|done]. apply (inv_dom _ _ _ _ _ _ _ Hi) in Ho as [[fl live] HG].
      destruct (inv_runs _ _ _ _ _ _ _ Hi a fl live HG) as (r & Er' & Hr' & _). assert (r = r0) as <- by congruence. apply Hr'.
    + intros vs o rest s1 _ (E & Hr & Hp). destruct (Hv o s1) as (s2 & E2 & Hr2 & Hp2). exists s2. split; [done|]. split_and!; [|congruence..].
      rewrite (each_app visitor vs [o] s s1 E). cbn [each]. by erewrite bind_M by exact E2.
    + intros p a Ho. eapply (inv_header _ _ _ _ _ _ _ a Hi). apply (inv_dom _ _ _ _ _ _ _ Hi). eauto.
Qed.

(** C22: after any client that meets [pre] (its pools start at a page and have at least three, the other conditions are
    those of the refinement above), IterateOverObjects calls a visitor that leaves the headers alone for every block of the client once, and
    for nothing else: its effect is that of the calls in some order of the blocks. *)
Theorem IterateOverObjects_visits_blocks w client visitor :
  legal new_heap client -> harmless visitor ->
  exists s rs h l, run client (RunSlotsAllocator w) = Done (s, rs) /\ behaves new_heap client rs h /\
    NoDup l /\ (forall o, o ∈ l <-> is_Some (blocks h !! o)) /\ IterateOverObjects visitor s = each visitor l s.
Proof.
  intros Hl Hv. destruct (run_refines client _ _ (new_models w) Hl) as (s & rs & h & E & Hb & Hm). destruct (iterate_models s h visitor Hm Hv) as (l & Hl').
  by exists s, rs, h, l.
Qed.

(** C12: no memory is lost: after any client that meets [pre] (its pools start at a page and have at least three, the other conditions
    are those of the refinement above), once all blocks are found dead by Collect, VisitAndRemoveFreePools hands every pool that
    was added and not handed back before to its visitor, each once and with its size. *)
Theorem all_pools_come_back w client :
  legal new_heap client ->
  exists s rs h s1 s2 l, run client (RunSlotsAllocator w) = Done (s, rs) /\ behaves new_heap client rs h /\ Collect (fun _ => true) s = Done (s1, tt) /\
    VisitAndRemoveFreePools (fun mem size l => l ++ [(mem, size)]) [] s1 = Done (s2, l) /\ NoDup l /\ (forall q n, (q, n) ∈ l <-> arenas h !! q = Some n).
Proof.
  intros Hl. destruct (run_refines client _ _ (new_models w) Hl) as (s & rs & h & E & Hb & Hm). destruct (collect_step s h (fun _ => true) Hm) as (s1 & h1 & E1 & (Hb1 & Ha1 & _) & Hm1).
  destruct (remove_step s1 h1 Hm1) as (s2 & l & h2 & E2 & (Hnd & Hl2 & _) & _). exists s, rs, h, s1, s2, l. split_and!; try done.
  intros q n. rewrite Hl2, Ha1, Hb1. split; [by intros [? _]|]. intros Hq. split; [done|]. intros p m [_ ?]%map_lookup_filter_Some. done.
Qed.
End Theorems.

(** ** A concrete client *)
(** A header of 160 bytes in runs and 256 in pools, pages of 4096 bytes, no words cleared. *)
Definition layout64 : Layout :=
  {| header_size := 160; header_size_ok := ltac:(lia); pool_header_size := 256; pool_header_size_ok := ltac:(lia); page_log := 12; page_log_ok := ltac:(lia);
     released_word := fun _ => 0; init_size := 0; init_size_ok := ltac:(lia); NDEBUG := true |}.

(** A block is allocated, written, read and freed, and the pool taken back. *)
Definition demo : Client :=
  Step (CallAddMemoryPool 4194304 12288) (fun _ =>
  Step (CallAlloc false 24 3) (fun r =>
    match r with
    | Value p =>
        if p =? 0 then Stop
        else Step (CallWrite p 7) (fun _ => Step (CallRead p) (fun _ => Step (CallFree p) (fun _ => Step CallVisitAndRemoveFreePools (fun _ => Stop))))
    | _ => Stop
    end)).

Lemma demo_legal : @legal layout64 new_heap demo.
Proof.
  split.
  - right; right. split_and!; [done|by exists 1024|vm_compute; congruence|done|]. intros q n Hq. cbn in Hq. by rewrite lookup_empty in Hq.
  - intros r h _. split; [cbn; lia|]. intros r1 h1 Hs. destruct r1 as [| |p|]; try done. destruct (Z.eqb_spec p 0) as [|Hp]; [done|].
    destruct Hs as [[? _]|(_ & _ & k & Hk)]; [done|]. pose proof (nb_size _ _ _ _ _ _ Hk) as [Hk1 _]. assert (0 < 2 ^ k) by (apply Z.pow_pos_nonneg; lia).
    assert (Hin : inside h1 p) by (exists p, (2 ^ k); rewrite (nb_blocks _ _ _ _ _ _ Hk), lookup_insert_eq; split; [done|lia]).
    split; [done|]. intros r2 h2 Hs2. destruct r2; try done. destruct Hs2 as (Hb2 & _ & _). assert (Hin2 : inside h2 p) by (unfold inside; by rewrite Hb2).
    split; [done|]. intros r3 h3 Hs3. destruct r3; try done. destruct Hs3 as [_ ->]. split; [|done].
    right. rewrite Hb2, (nb_blocks _ _ _ _ _ _ Hk), lookup_insert_eq. by eexists.
Qed.

Lemma allocator_refines_witness :
  exists s rs h, @run layout64 demo (RunSlotsAllocator (fun _ => 0)) = Done (s, rs) /\ @behaves layout64 new_heap demo rs h.
Proof. exact (@allocator_refines layout64 (fun _ => 0) demo demo_legal). Defined.

Lemma IterateOverObjects_visits_blocks_witness :
  exists s rs h l, @run layout64 demo (RunSlotsAllocator (fun _ => 0)) = Done (s, rs) /\ @behaves layout64 new_heap demo rs h /\
    NoDup l /\ (forall o, o ∈ l <-> is_Some (blocks h !! o)) /\
    @IterateOverObjects (fun o => put (fun s => {| s with words := <[o := 1]> (words s) |})) s = each (fun o => put (fun s => {| s with words := <[o := 1]> (words s) |})) l s.
Proof.
  apply (@IterateOverObjects_visits_blocks layout64 (fun _ => 0) demo (fun o => put (fun s => {| s with words := <[o := 1]> (words s) |})) demo_legal).
  intros o s. eexists. split; [reflexivity|]. done.
Defined.

Lemma all_pools_come_back_witness :
  exists s rs h s1 s2 l, @run layout64 demo (RunSlotsAllocator (fun _ => 0)) = Done (s, rs) /\ @behaves layout64 new_heap demo rs h /\
    @Collect layout64 (fun _ => true) s = Done (s1, tt) /\
    @VisitAndRemoveFreePools layout64 _ (fun mem size l => l ++ [(mem, size)]) [] s1 = Done (s2, l) /\ NoDup l /\ (forall q n, (q, n) ∈ l <-> arenas h !! q = Some n).
Proof. exact (@all_pools_come_back layout64 (fun _ => 0) demo demo_legal). Defined.

(** The results of the client: the first slot of the first page, and the pool at the end. *)
Example demo_results : (match @run layout64 demo (RunSlotsAllocator (fun _ => 0)) with Done (_, rs) => Some rs | _ => None end) =
  Some [Flag true; Value 4198560; Nothing; Value 7; Nothing; Removed [(4194304, 12288)]].
Proof. vm_compute. reflexivity. Qed.

(** ** Pools that are not aligned to pages *)
(** A pool at 4196352, half a page behind 4194304: the run at 4198400 is given back, and found again at the header of the pool. *)
Definition half_page_pool : PoolListElement :=
  @Initialize_pool new_PoolListElement 4196352 (Bitmap.AlignUp (4196352 + 256) RUNSLOTS_SIZE) 12288 0.

Example misaligned_pool :
  freePtr_ half_page_pool = 4198400 /\
  (match Bitmap.AtomicTestAndSet CHUNK (freedRunslotsBitmap_ half_page_pool) 4198400 with
   | Done (bitmap, _) => Bitmap.FindFirstMarkedChunks CHUNK bitmap
   | _ => Crash
   end) = Done (Some 4196352).
Proof. vm_compute. split; reflexivity. Qed.

(** ** Trimming *)
(** A run that is empty stays in the list of empty runs when its page is released, and an allocation would read its header: trimming is for
    an allocator that is no longer allocated from, as the pygote space after the fork. *)
Definition trim_then_alloc : M Z :=
  @AddMemoryPool layout64 4194304 12288;;
  p ← @Alloc layout64 false 24 3;
  @Free layout64 p;;
  @TrimUnsafe layout64;;
  @Alloc layout64 false 24 3.

Example trim_loses_header : trim_then_alloc (RunSlotsAllocator (fun _ => 0)) = Crash.
Proof. vm_compute. reflexivity. Qed.
