(* ===== verification/LineProgram.v ===== *)
(** Line number programs: libpandafile/file_items.cpp (LineNumberProgramItem), line_number_program.h (their interpreter),
    debug_helpers.h and debug_info_extractor.cpp (its two clients).

    A program is a list of bytes, opcodes and registers; the other operands are in the constant pool of the debug information, which is
    read along.  Items of strings are given by their offsets in the file. *)
From S2P Require Import Prelude Leb128.
From stdpp Require Import list.
Local Open Scope Z_scope.
Local Open Scope ark_scope.

Module LineProgram.

Definition END_SEQUENCE : Z := 0x00.
Definition ADVANCE_PC : Z := 0x01.
Definition ADVANCE_LINE : Z := 0x02.
Definition START_LOCAL : Z := 0x03.
Definition START_LOCAL_EXTENDED : Z := 0x04.
Definition END_LOCAL : Z := 0x05.
Definition RESTART_LOCAL : Z := 0x06.
Definition SET_PROLOGUE_END : Z := 0x07.
Definition SET_EPILOGUE_BEGIN : Z := 0x08.
Definition SET_FILE : Z := 0x09.
Definition SET_SOURCE_CODE : Z := 0x0a.
Definition SET_COLUMN : Z := 0x0b.
Definition LAST : Z := 0x0c.

Definition OPCODE_BASE : Z := LAST.
Definition LINE_RANGE : Z := 15.
Definition LINE_BASE : Z := -4.

(** ** Emission *)
(** The bytes of the program item, and the constant pool its emitter is given, which is never null. *)
Record Out := mkOut { data_ : list Z; pool : list Z }.

(** A vector of [n] bytes that an encoder writes its bytes into. *)
Definition into (n : Z) (bytes : list Z) : outcome (list Z) :=
  if Z.of_nat (length bytes) <=? n then Done (bytes ++ replicate (Z.to_nat n - length bytes) 0) else Crash.

Definition EmitUleb128 (data : list Z) (value : Z) : outcome (list Z) :=
  bytes ← Leb128.EncodeUnsigned 32 value;
  out ← into (Leb128.UnsignedEncodingSize 32 value) bytes;
  Done (data ++ out).

Definition EmitSleb128 (data : list Z) (value : Z) : outcome (list Z) :=
  bytes ← Leb128.EncodeSigned 32 value;
  out ← into (Leb128.SignedEncodingSize 32 value) bytes;
  Done (data ++ out).

Definition EmitOpcode (opcode : Z) (o : Out) : Out := {| o with data_ := data_ o ++ [u8 opcode] |}.

Definition EmitRegister (registerNumber : Z) (o : Out) : outcome Out :=
  data ← EmitSleb128 (data_ o) registerNumber; Done {| o with data_ := data |}.

(** The operand of an opcode, in the constant pool. *)
Definition pool_unsigned (value : Z) (o : Out) : outcome Out := p ← EmitUleb128 (pool o) value; Done {| o with pool := p |}.
Definition pool_signed (value : Z) (o : Out) : outcome Out := p ← EmitSleb128 (pool o) value; Done {| o with pool := p |}.

Definition EmitEnd (o : Out) : Out := EmitOpcode END_SEQUENCE o.
Definition EmitAdvancePc (value : Z) (o : Out) : outcome Out := pool_unsigned value (EmitOpcode ADVANCE_PC o).
Definition EmitAdvanceLine (value : Z) (o : Out) : outcome Out := pool_signed value (EmitOpcode ADVANCE_LINE o).

Definition EmitColumn (pcInc column : Z) (o : Out) : outcome Out :=
  o ← (if pcInc != 0 then EmitAdvancePc pcInc o else Done o);
  pool_unsigned column (EmitOpcode SET_COLUMN o).

Definition EmitStartLocalExtended (registerNumber name : Z) (type typeSignature : option Z) (o : Out) : outcome Out :=
  match type with
  | None => Done o
  | Some type =>
      o ← EmitRegister registerNumber (EmitOpcode (match typeSignature with None => START_LOCAL | Some _ => START_LOCAL_EXTENDED end) o);
      o ← pool_unsigned name o;
      o ← pool_unsigned type o;
      match typeSignature with Some sig => pool_unsigned sig o | None => Done o end
  end.
Definition EmitStartLocal (registerNumber name : Z) (type : option Z) (o : Out) : outcome Out :=
  EmitStartLocalExtended registerNumber name type None o.

Definition EmitEndLocal (registerNumber : Z) (o : Out) : outcome Out := EmitRegister registerNumber (EmitOpcode END_LOCAL o).
Definition EmitRestartLocal (registerNumber : Z) (o : Out) : outcome Out := EmitRegister registerNumber (EmitOpcode RESTART_LOCAL o).

Definition EmitSpecialOpcode (pcInc lineInc : Z) (o : Out) : Out * bool :=
  if (lineInc <? LINE_BASE) || (LINE_RANGE <=? i32 (lineInc - LINE_BASE)) then (o, false)
  else
    let opcode := u64 (u64 (u64 (i32 (lineInc - LINE_BASE)) + u32 (pcInc * LINE_RANGE)) + OPCODE_BASE) in
    if 255 <? opcode then (o, false) else ({| o with data_ := data_ o ++ [u8 opcode] |}, true).

Definition EmitPrologEnd (o : Out) : Out := EmitOpcode SET_PROLOGUE_END o.
Definition EmitEpilogBegin (o : Out) : Out := EmitOpcode SET_EPILOGUE_BEGIN o.

Definition EmitSetFile (sourceFile : option Z) (o : Out) : outcome Out :=
  let o := EmitOpcode SET_FILE o in
  match sourceFile with Some offset => pool_unsigned offset o | None => Done o end.
Definition EmitSetSourceCode (sourceCode : option Z) (o : Out) : outcome Out :=
  let o := EmitOpcode SET_SOURCE_CODE o in
  match sourceCode with Some offset => pool_unsigned offset o | None => Done o end.

Definition CalculateSize (o : Out) : Z := Z.of_nat (length (data_ o)).
(** The bytes of the item follow those that were written. *)
Definition Write_program (o : Out) (written : list Z) : list Z := written ++ data_ o.
Definition SetData (data : list Z) (o : Out) : Out := {| o with data_ := data |}.

(** ** The state of the interpreter *)
Definition ReadULeb128 (sp : list Z) : outcome (Z * list Z) :=
  d ← Leb128.DecodeUnsigned_uint32 sp; Done (Leb128.dec_value d, drop (Leb128.dec_size d) sp).
Definition ReadLeb128 (sp : list Z) : outcome (Z * list Z) :=
  d ← Leb128.DecodeSigned 32 sp; Done (Leb128.dec_value d, drop (Leb128.dec_size d) sp).

Record LineProgramState := mkLPS {
  file_ : Z;
  sourceCode_ : Z;
  line_ : Z;
  column_ : Z;
  constantPool_ : list Z;
  address_ : Z;
}.

Definition new_LineProgramState (file line : Z) (constantPool : list Z) : LineProgramState := mkLPS file 0 line 0 constantPool 0.

Definition AdvanceLine (st : LineProgramState) (v : Z) : LineProgramState := {| st with line_ := u64 (line_ st + u64 v) |}.
Definition AdvancePc (st : LineProgramState) (v : Z) : LineProgramState := {| st with address_ := u32 (address_ st + v) |}.
Definition SetFile (st : LineProgramState) (offset : Z) : LineProgramState := {| st with file_ := offset |}.
Definition SetSourceCode (st : LineProgramState) (offset : Z) : LineProgramState := {| st with sourceCode_ := offset |}.
Definition SetColumn (st : LineProgramState) (c : Z) : LineProgramState := {| st with column_ := u64 c |}.
Definition GetLine (st : LineProgramState) : Z := line_ st.
Definition GetColumn (st : LineProgramState) : Z := column_ st.
Definition GetAddress (st : LineProgramState) : Z := address_ st.

Definition State_ReadULeb128 (st : LineProgramState) : outcome (Z * LineProgramState) :=
  '(v, sp) ← ReadULeb128 (constantPool_ st); Done (v, {| st with constantPool_ := sp |}).
Definition State_ReadSLeb128 (st : LineProgramState) : outcome (Z * LineProgramState) :=
  '(v, sp) ← ReadLeb128 (constantPool_ st); Done (v, {| st with constantPool_ := sp |}).

(** ** The interpreter *)
(** A handler shares the state with the interpreter and says whether to go on. *)
Abbreviation Handled H := (outcome (H * LineProgramState * bool)).
Class Handler (H : Type) := {
  ProcessBegin : H -> LineProgramState -> H;
  ProcessEnd : H -> LineProgramState -> H;
  HandleAdvanceLine : Z -> H -> LineProgramState -> Handled H;
  HandleAdvancePc : Z -> H -> LineProgramState -> Handled H;
  HandleSetFile : Z -> H -> LineProgramState -> Handled H;
  HandleSetSourceCode : Z -> H -> LineProgramState -> Handled H;
  HandleStartLocal : Z -> Z -> Z -> H -> LineProgramState -> Handled H;
  HandleStartLocalExtended : Z -> Z -> Z -> Z -> H -> LineProgramState -> Handled H;
  HandleEndLocal : Z -> H -> LineProgramState -> Handled H;
  HandleSetColumn : Z -> H -> LineProgramState -> Handled H;
  HandleSpecialOpcode : Z -> Z -> H -> LineProgramState -> Handled H;
}.

Section Processor.
Context {H : Type} `{Handler H}.

Definition ReadOpcode (program : list Z) : outcome (Z * list Z) :=
  match program with opcode :: program => Done (opcode, program) | [] => Crash end.

Definition ReadRegisterNumber (program : list Z) : outcome (Z * list Z) :=
  d ← Leb128.DecodeSigned 32 program;
  if Leb128.dec_full d then Done (Leb128.dec_value d, drop (Leb128.dec_size d) program) else Crash.

(** What is left of the program, and what the handler made of the opcode. *)
Definition special (opcode : Z) (program : list Z) (h : H) (st : LineProgramState) : outcome (list Z * (H * LineProgramState * bool)) :=
  let adjustOpcode := opcode - OPCODE_BASE in
  let pcOffset := adjustOpcode / LINE_RANGE in
  let lineOffset := adjustOpcode mod LINE_RANGE + LINE_BASE in
  x ← HandleSpecialOpcode pcOffset lineOffset h st; Done (program, x).

Definition dispatch (opcode : Z) (program : list Z) (res : bool) (h : H) (st : LineProgramState) : outcome (list Z * (H * LineProgramState * bool)) :=
  if opcode == ADVANCE_LINE then '(lineDiff, st) ← State_ReadSLeb128 st; x ← HandleAdvanceLine lineDiff h st; Done (program, x)
  else if opcode == ADVANCE_PC then '(pcDiff, st) ← State_ReadULeb128 st; x ← HandleAdvancePc pcDiff h st; Done (program, x)
  else if opcode == SET_FILE then '(offset, st) ← State_ReadULeb128 st; x ← HandleSetFile offset h st; Done (program, x)
  else if opcode == SET_SOURCE_CODE then '(offset, st) ← State_ReadULeb128 st; x ← HandleSetSourceCode offset h st; Done (program, x)
  else if (opcode == SET_PROLOGUE_END) || (opcode == SET_EPILOGUE_BEGIN) then Done (program, (h, st, res))
  else if opcode == START_LOCAL then
    '(regNumber, program) ← ReadRegisterNumber program;
    '(nameIndex, st) ← State_ReadULeb128 st;
    '(typeIndex, st) ← State_ReadULeb128 st;
    x ← HandleStartLocal regNumber nameIndex typeIndex h st; Done (program, x)
  else if opcode == START_LOCAL_EXTENDED then
    '(regNumber, program) ← ReadRegisterNumber program;
    '(nameIndex, st) ← State_ReadULeb128 st;
    '(typeIndex, st) ← State_ReadULeb128 st;
    '(typeSignatureIndex, st) ← State_ReadULeb128 st;
    x ← HandleStartLocalExtended regNumber nameIndex typeIndex typeSignatureIndex h st; Done (program, x)
  else if opcode == RESTART_LOCAL then Crash
  else if opcode == END_LOCAL then
    '(regNumber, program) ← ReadRegisterNumber program;
    x ← HandleEndLocal regNumber h st; Done (program, x)
  else if opcode == SET_COLUMN then '(cn, st) ← State_ReadULeb128 st; x ← HandleSetColumn (i32 cn) h st; Done (program, x)
  else special opcode program h st.

(** Every round takes a byte of the program. *)
Fixpoint Process_loop (fuel : nat) (program : list Z) (res : bool) (h : H) (st : LineProgramState) : outcome (H * LineProgramState) :=
  match fuel with
  | O => NoFuel
  | S fuel =>
      '(opcode, program) ← ReadOpcode program;
      if opcode == END_SEQUENCE then Done (h, st)
      else
        '(program, (h, st, res)) ← dispatch opcode program res h st;
        if (res : bool) then Process_loop fuel program res h st else Done (h, st)
  end.

Definition Process (program : list Z) (h : H) (st : LineProgramState) : outcome (H * LineProgramState) :=
  let h := ProcessBegin h st in
  '(h, st) ← Process_loop (S (length program)) program false h st;
  Done (ProcessEnd h st, st).
End Processor.

(** ** The line of a bytecode offset *)
Record BytecodeOffsetResolver := mkResolver { bcOffset_ : Z; prevLine_ : Z; found_line_ : Z }.
Definition new_resolver (st : LineProgramState) (bcOffset : Z) : BytecodeOffsetResolver := mkResolver bcOffset (u32 (GetLine st)) 0.

Definition resolver_special (pcOffset lineOffset : Z) (r : BytecodeOffsetResolver) (st : LineProgramState) : Handled BytecodeOffsetResolver :=
  let st := AdvanceLine (AdvancePc st pcOffset) lineOffset in
  if GetAddress st == bcOffset_ r then Done ({| r with found_line_ := u32 (GetLine st) |}, st, false)
  else if bcOffset_ r <? GetAddress st then Done ({| r with found_line_ := prevLine_ r |}, st, false)
  else Done ({| r with prevLine_ := u32 (GetLine st) |}, st, true).

Definition resolver_handler : Handler BytecodeOffsetResolver := {|
  ProcessBegin r _ := r;
  ProcessEnd r st := if found_line_ r == 0 then {| r with found_line_ := u32 (GetLine st) |} else r;
  HandleAdvanceLine lineDiff r st := Done (r, AdvanceLine st lineDiff, true);
  HandleAdvancePc pcDiff r st := Done (r, AdvancePc st pcDiff, true);
  HandleSetFile _ r st := Done (r, st, true);
  HandleSetSourceCode _ r st := Done (r, st, true);
  HandleStartLocal _ _ _ r st := Done (r, st, true);
  HandleStartLocalExtended _ _ _ _ r st := Done (r, st, true);
  HandleEndLocal _ r st := Done (r, st, true);
  HandleSetColumn _ r st := Done (r, st, true);
  HandleSpecialOpcode := resolver_special;
|}.
#[export] Existing Instance resolver_handler.

(** ** The tables of a method *)
(** Strings are given by their offsets. *)
Record LocalVariableInfo := mkLocal { name : Z; type : Z; typeSignature : Z; regNumber : Z; startOffset : Z; endOffset : Z }.
Record LineNumberProgramHandler := mkHandler { lnt_ : list (Z * Z); lvt_ : list LocalVariableInfo; cnt_ : list (Z * Z) }.
Definition new_handler : LineNumberProgramHandler := mkHandler [] [] [].

(** The last variable of the register gets its end. *)
Fixpoint end_local (regNumber_ address : Z) (vars : list LocalVariableInfo) : option (list LocalVariableInfo) :=
  match vars with
  | [] => None
  | v :: vars =>
      match end_local regNumber_ address vars with
      | Some vars => Some (v :: vars)
      | None => if regNumber v == regNumber_ then Some ({| v with endOffset := address |} :: vars) else None
      end
  end.

Definition ProcessVars (st : LineProgramState) (vars : list LocalVariableInfo) : list LocalVariableInfo :=
  (fun v => if endOffset v == 0 then {| v with endOffset := GetAddress st |} else v) <$> vars.

Definition table_handler : Handler LineNumberProgramHandler := {|
  ProcessBegin h st := {| h with lnt_ := lnt_ h ++ [(GetAddress st, GetLine st)] |};
  ProcessEnd h st := {| h with lvt_ := ProcessVars st (lvt_ h) |};
  HandleAdvanceLine lineDiff h st := Done (h, AdvanceLine st lineDiff, true);
  HandleAdvancePc pcDiff h st := Done (h, AdvancePc st pcDiff, true);
  HandleSetFile offset h st := Done (h, SetFile st offset, true);
  HandleSetSourceCode offset h st := Done (h, SetSourceCode st offset, true);
  HandleStartLocal reg name type h st := Done ({| h with lvt_ := lvt_ h ++ [mkLocal name type type reg (GetAddress st) 0] |}, st, true);
  HandleStartLocalExtended reg name type sig h st := Done ({| h with lvt_ := lvt_ h ++ [mkLocal name type sig reg (GetAddress st) 0] |}, st, true);
  HandleEndLocal reg h st :=
    match end_local reg (GetAddress st) (lvt_ h) with Some vars => Done ({| h with lvt_ := vars |}, st, true) | None => Crash end;
  HandleSetColumn c h st := let st := SetColumn st c in Done ({| h with cnt_ := cnt_ h ++ [(GetAddress st, GetColumn st)] |}, st, true);
  HandleSpecialOpcode pcOffset lineOffset h st :=
    let st := AdvanceLine (AdvancePc st pcOffset) lineOffset in Done ({| h with lnt_ := lnt_ h ++ [(GetAddress st, GetLine st)] |}, st, true);
|}.
#[export] Existing Instance table_handler.
End LineProgram.
