(* ===== verification/DebugInfo.v ===== *)
(** Debug information from the assembler to its readers: assembler/assembly-emitter.cpp ([Function::BuildLineNumberProgram],
    [AsmEmitter::EmitDebugInfo]), the item DebugInfoItem of libpandafile/file_items.cpp, and DebugInfoDataAccessor and GetLineNumber of
    libpandafile.

    Strings have offsets in the file; [String_offset] gives the one of a string that is in the container.  The size of an instruction comes
    from generated tables: [GetSize] of the bytes from the instruction on.  A file is read from a position on: the list of bytes behind it. *)
From S2P Require Import Prelude Leb128 LineProgram.
From stdpp Require Import gmap list strings.
Local Open Scope Z_scope.
Local Open Scope ark_scope.
Export LineProgram.

Module DebugInfo.

(** ** Functions of the assembler *)
Record Ins := mkIns { is_invalid : bool; ins_CanThrow : bool; lineNumber : Z; columnNumber : Z }.
Record LocalVariable := mkVariable { var_name : string; signature : string; signatureType : string; reg : Z; start : Z; length_ : Z }.
Record Function_ := mkFunction {
  ins : list Ins;
  localVariableDebug : list LocalVariable;
  regsNum : Z;
  is_dynamic : bool;
  sourceFile : string;
  sourceCode : string;
}.

Class Tables := { String_offset : string -> Z; GetSize : list Z -> Z }.

Section Assembler.
Context `{Tables}.

Definition IsParameter (f : Function_) (regNumber : Z) : bool := regsNum f <=? u32 regNumber.
Definition CanThrow (f : Function_) : bool := existsb ins_CanThrow (ins f).

(** [pcInc] is taken by reference. *)
Definition tryEmitPc (pcInc : Z) (o : Out) : outcome (Out * Z) :=
  if pcInc != 0 then o ← EmitAdvancePc pcInc o; Done (o, 0) else Done (o, pcInc).

Definition emit_variable (f : Function_) (instructionNumber : Z) (v : LocalVariable) (pcInc : Z) (o : Out) : outcome (Out * Z) :=
  if IsParameter f (reg v) then Done (o, pcInc)
  else
    '(o, pcInc) ← (if instructionNumber == start v then
      '(o, pcInc) ← tryEmitPc pcInc o;
      let variableName := String_offset (var_name v) in
      let variableType := String_offset (signature v) in
      o ← (if bool_decide (signatureType v = "")%string then EmitStartLocal (reg v) variableName (Some variableType) o
           else EmitStartLocalExtended (reg v) variableName (Some variableType) (Some (String_offset (signatureType v))) o);
      Done (o, pcInc)
    else Done (o, pcInc));
    if instructionNumber == u32 (start v + length_ v) then
      '(o, pcInc) ← tryEmitPc pcInc o;
      o ← EmitEndLocal (reg v) o;
      Done (o, pcInc)
    else Done (o, pcInc).

Fixpoint EmitLocalVariable (f : Function_) (vars : list LocalVariable) (instructionNumber pcInc : Z) (o : Out) : outcome (Out * Z) :=
  match vars with
  | [] => Done (o, pcInc)
  | v :: vars => '(o, pcInc) ← emit_variable f instructionNumber v pcInc o; EmitLocalVariable f vars instructionNumber pcInc o
  end.

Definition GetLineNumber_ins (x : Ins) : Z := u64 (i32 (lineNumber x)).
Definition GetColumnNumber_ins (x : Ins) : Z := u32 (i32 (columnNumber x)).

Definition EmitNumber (pcInc lineInc : Z) (o : Out) : outcome Out :=
  let '(o, done) := EmitSpecialOpcode pcInc lineInc o in
  if done : bool then Done o
  else if pcInc != 0 then
    o ← EmitAdvancePc pcInc o;
    let '(o, done) := EmitSpecialOpcode 0 lineInc o in
    if done : bool then Done o else o ← EmitAdvanceLine lineInc o; Done (fst (EmitSpecialOpcode 0 0 o))
  else o ← EmitAdvanceLine lineInc o; Done (fst (EmitSpecialOpcode 0 0 o)).

(** The previous line and the increment are taken by reference. *)
Definition EmitLineNumber (x : Ins) (prevLineNumber pcInc : Z) (o : Out) : outcome (Out * Z * Z) :=
  let lineInc := u64 (GetLineNumber_ins x - prevLineNumber) in
  if lineInc != 0 then o ← EmitNumber pcInc (i32 lineInc) o; Done (o, u32 (GetLineNumber_ins x), 0)
  else Done (o, prevLineNumber, pcInc).

Definition EmitColumnNumber (x : Ins) (prevColumnNumber pcInc : Z) (o : Out) : outcome (Out * Z * Z) :=
  let cn := GetColumnNumber_ins x in
  if cn != prevColumnNumber then o ← EmitColumn pcInc cn o; Done (o, cn, 0) else Done (o, prevColumnNumber, pcInc).

(** The instructions from number [i] on, with the bytes [bi] of their code. *)
Fixpoint Build_loop (f : Function_) (emitDebugInfo : bool) (i : Z) (rest : list Ins) (bi : list Z) (pcInc prevLineNumber prevColumnNumber : Z) (o : Out) : outcome Out :=
  match rest with
  | [] => Done o
  | x :: rest =>
      '(o, pcInc) ← (if emitDebugInfo then EmitLocalVariable f (localVariableDebug f) i pcInc o else Done (o, pcInc));
      if is_invalid x then Build_loop f emitDebugInfo (i + 1) rest bi pcInc prevLineNumber prevColumnNumber o
      else
        '(o, prevLineNumber, pcInc) ← (if emitDebugInfo || ins_CanThrow x then EmitLineNumber x prevLineNumber pcInc o else Done (o, prevLineNumber, pcInc));
        '(o, prevColumnNumber, pcInc) ← (if is_dynamic f && emitDebugInfo then EmitColumnNumber x prevColumnNumber pcInc o else Done (o, prevColumnNumber, pcInc));
        Build_loop f emitDebugInfo (i + 1) rest (drop (Z.to_nat (GetSize bi)) bi) (u32 (pcInc + GetSize bi)) prevLineNumber prevColumnNumber o
  end.

(** The line the debug information starts with, and the program. *)
Definition BuildLineNumberProgram (f : Function_) (bytecode : list Z) (emitDebugInfo : bool) (lineNum : Z) (o : Out) : outcome (Z * Out) :=
  match ins f with
  | [] => Done (lineNum, EmitEnd o)
  | x :: _ =>
      let prevLineNumber := u32 (GetLineNumber_ins x) in
      o ← Build_loop f emitDebugInfo 0 (ins f) bytecode 0 prevLineNumber (2 ^ 32 - 1) o;
      Done (prevLineNumber, EmitEnd o)
  end.

(** ** The item *)
(** The program item is at its index; a parameter may have no name. *)
Record DebugInfoItem := mkItem { lineNum_ : Z; program_ : list Z; constantPool : list Z; parameters_ : list (option Z) }.
Definition new_item : DebugInfoItem := mkItem 0 [] [] [].

Definition SetCodeAndDebugInfo (f : Function_) (emitDebugInfo : bool) (nparams : nat) : option DebugInfoItem :=
  if negb emitDebugInfo && negb (CanThrow f) then None
  else Some {| new_item with parameters_ :=
    if emitDebugInfo then (fun v => Some (String_offset (var_name v))) <$> List.filter (fun v => IsParameter f (reg v)) (localVariableDebug f)
    else replicate nparams None |}.

(** For a method that has debug information; [recordSourceFile] is the source file of the record that owns the function. *)
Definition EmitDebugInfo (f : Function_) (bytecode : list Z) (recordSourceFile : string) (emitDebugInfo : bool) (item : DebugInfoItem) : outcome DebugInfoItem :=
  let o := mkOut (program_ item) (constantPool item) in
  o ← (if negb (bool_decide (sourceFile f = "")%string) && negb (bool_decide (sourceFile f = recordSourceFile)) then
         o ← (if negb (bool_decide (sourceCode f = "")%string) then EmitSetSourceCode (Some (String_offset (sourceCode f))) o else Done o);
         EmitSetFile (Some (String_offset (sourceFile f))) o
       else Done o);
  '(line, o) ← BuildLineNumberProgram f bytecode emitDebugInfo (lineNum_ item) o;
  Done {| item with lineNum_ := line; program_ := data_ o; constantPool := pool o |}.
End Assembler.

(** The bytes a memory writer has, and what is added to them. *)
Definition WriteUleb128 (w v : Z) (written : list Z) : outcome (list Z) :=
  bytes ← Leb128.EncodeUnsigned w v; out ← into (Leb128.UnsignedEncodingSize w v) bytes; Done (written ++ out).
Definition WriteBytes (bytes written : list Z) : list Z := written ++ bytes.

Definition parameter_offset (p : option Z) : Z := match p with Some offset => offset | None => 0 end.
Fixpoint Write_parameters (params : list (option Z)) (written : list Z) : outcome (list Z) :=
  match params with
  | [] => Done written
  | p :: params => written ← WriteUleb128 32 (parameter_offset p) written; Write_parameters params written
  end.

Definition Write (item : DebugInfoItem) (index : Z) (written : list Z) : outcome (list Z) :=
  written ← WriteUleb128 64 (lineNum_ item) written;
  written ← WriteUleb128 64 (Z.of_nat (length (parameters_ item))) written;
  written ← Write_parameters (parameters_ item) written;
  written ← WriteUleb128 64 (Z.of_nat (length (constantPool item))) written;
  WriteUleb128 32 index (WriteBytes (constantPool item) written).

Definition CalculateSize_item (item : DebugInfoItem) (index : Z) : Z :=
  Leb128.UnsignedEncodingSize 64 (lineNum_ item) + Leb128.UnsignedEncodingSize 64 (Z.of_nat (length (parameters_ item))) +
  foldr (fun p n => Leb128.UnsignedEncodingSize 32 (parameter_offset p) + n) 0 (parameters_ item) +
  Leb128.UnsignedEncodingSize 64 (Z.of_nat (length (constantPool item))) + Z.of_nat (length (constantPool item)) + Leb128.UnsignedEncodingSize 32 index.

(** ** Reading *)
(** Spans that are not known yet are null; [size_] is 0 until it is known. *)
Record DebugInfoDataAccessor := mkAccessor {
  span : list Z;
  lineStart_ : Z;
  numParams_ : Z;
  parametersSp_ : list Z;
  constantPoolSizeSp_ : option (list Z);
  lineNumProgramOffSp_ : option (list Z);
  item_size_ : Z;
}.

Definition new_accessor (sp : list Z) : outcome DebugInfoDataAccessor :=
  '(lineStart, rest) ← ReadULeb128 sp;
  '(numParams, rest) ← ReadULeb128 rest;
  Done (mkAccessor sp lineStart numParams rest None None 0).

Fixpoint read_parameters (n : nat) (sp : list Z) : outcome (list Z * list Z) :=
  match n with
  | O => Done ([], sp)
  | S n => '(id, sp) ← ReadULeb128 sp; '(ids, sp) ← read_parameters n sp; Done (id :: ids, sp)
  end.

(** The identifiers the callback is called for. *)
Definition EnumerateParameters (a : DebugInfoDataAccessor) : outcome (list Z * DebugInfoDataAccessor) :=
  '(ids, sp) ← read_parameters (Z.to_nat (numParams_ a)) (parametersSp_ a);
  Done (ids, {| a with constantPoolSizeSp_ := Some sp |}).
Definition SkipParameters (a : DebugInfoDataAccessor) : outcome DebugInfoDataAccessor := '(_, a) ← EnumerateParameters a; Done a.

Definition GetConstantPool (a : DebugInfoDataAccessor) : outcome (list Z * DebugInfoDataAccessor) :=
  a ← match constantPoolSizeSp_ a with None => SkipParameters a | Some _ => Done a end;
  match constantPoolSizeSp_ a with
  | None => Crash
  | Some sp =>
      '(size, sp) ← ReadULeb128 sp;
      if size <=? Z.of_nat (length sp) then Done (take (Z.to_nat size) sp, {| a with lineNumProgramOffSp_ := Some (drop (Z.to_nat size) sp) |})
      else Crash
  end.
Definition SkipConstantPool (a : DebugInfoDataAccessor) : outcome DebugInfoDataAccessor := '(_, a) ← GetConstantPool a; Done a.

(** [ResolveLineNumberProgramIndex] gives the bytes of the file from the program on. *)
Definition GetLineNumberProgram (ResolveLineNumberProgramIndex : Z -> list Z) (a : DebugInfoDataAccessor) : outcome (list Z * DebugInfoDataAccessor) :=
  a ← match lineNumProgramOffSp_ a with None => SkipConstantPool a | Some _ => Done a end;
  match lineNumProgramOffSp_ a with
  | None => Crash
  | Some sp =>
      '(index, sp) ← ReadULeb128 sp;
      Done (ResolveLineNumberProgramIndex index, {| a with item_size_ := Z.of_nat (length (span a)) - Z.of_nat (length sp) |})
  end.
Definition SkipLineNumberProgram (resolve : Z -> list Z) (a : DebugInfoDataAccessor) : outcome DebugInfoDataAccessor :=
  '(_, a) ← GetLineNumberProgram resolve a; Done a.
Definition accessor_GetSize (resolve : Z -> list Z) (a : DebugInfoDataAccessor) : outcome (Z * DebugInfoDataAccessor) :=
  a ← (if item_size_ a == 0 then SkipLineNumberProgram resolve a else Done a); Done (item_size_ a, a).

(** [debugInfo] are the bytes from the debug information of the method on. *)
Definition GetLineNumber (resolve : Z -> list Z) (debugInfo : option (list Z)) (bcOffset : Z) : outcome Z :=
  match debugInfo with
  | None => Done (u64 (-1))
  | Some sp =>
      dda ← new_accessor sp;
      '(program, dda) ← GetLineNumberProgram resolve dda;
      '(constantPool, _) ← GetConstantPool dda;
      let state := new_LineProgramState 0 (lineStart_ dda) constantPool in
      '(resolver, _) ← Process program (new_resolver state bcOffset) state;
      Done (found_line_ resolver)
  end.

(** ** The extractor *)
(** A signature is the name of the class, one of a primitive type, or a string of the file. *)
Inductive Signature := NoSignature | ClassName | OfPrimitive (type : Z) | OfReference (offset : Z).
(** A name is the offset of a string, or empty. *)
Record ParamInfo := mkParam { param_name : option Z; param_signature : Signature }.

(** What the accessors of a method and of its prototype tell: [GetArgType] gives a primitive type or none. *)
Record Method := mkMethod {
  methodId : Z;
  debugInfo : option (list Z);
  is_static : bool;
  returns_reference : bool;
  GetArgType : Z -> option Z;
  GetReferenceType : Z -> Z;
}.
Record Class_ := mkClass { is_external : bool; sourceFileId : option Z; class_methods : list Method }.

Record MethodDebugInfo := mkMethodInfo { m_file : Z; m_code : Z; m_lines : list (Z * Z); m_vars : list LocalVariableInfo; m_params : list ParamInfo; m_columns : list (Z * Z) }.

Definition EntityId_IsValid (offset : Z) : bool := 64 <? offset.

(** The variables that the callback of EnumerateParameters captures. *)
Record Captured := mkCaptured { idx : Z; idxRef : Z; firstParam : bool; paramInfo : list ParamInfo }.

Definition param_callback (m : Method) (paramId : Z) (c : Captured) : Captured :=
  let '(info, i, iRef) :=
    if EntityId_IsValid paramId then
      if firstParam c && negb (is_static m) then (mkParam (Some paramId) ClassName, idx c, idxRef c)
      else
        match GetArgType m (idx c) with
        | Some t => (mkParam (Some paramId) (OfPrimitive t), idx c + 1, idxRef c)
        | None => (mkParam (Some paramId) (OfReference (GetReferenceType m (idxRef c))), idx c + 1, idxRef c + 1)
        end
    else (mkParam None NoSignature, idx c, idxRef c) in
  mkCaptured i iRef false (paramInfo c ++ [info]).

Definition param_infos (m : Method) (ids : list Z) : list ParamInfo :=
  paramInfo (fold_left (fun c id => param_callback m id c) ids (mkCaptured 0 (if returns_reference m then 1 else 0) true [])).

(** One method that has debug information: [sp] are the bytes from there on. *)
Definition Extract_method (resolve : Z -> list Z) (sourceFileId : option Z) (m : Method) (sp : list Z) : outcome MethodDebugInfo :=
  dda ← new_accessor sp;
  '(ids, dda) ← EnumerateParameters dda;
  '(program, dda) ← GetLineNumberProgram resolve dda;
  '(constantPool, _) ← GetConstantPool dda;
  let state := new_LineProgramState (match sourceFileId with Some id => id | None => 0 end) (lineStart_ dda) constantPool in
  '(handler, state) ← Process program new_handler state;
  Done (mkMethodInfo (file_ state) (sourceCode_ state) (lnt_ handler) (lvt_ handler) (param_infos m ids) (cnt_ handler)).

(** [emplace] keeps what the table has. *)
Definition emplace (id : Z) (info : MethodDebugInfo) (methods_ : gmap Z MethodDebugInfo) : gmap Z MethodDebugInfo :=
  match methods_ !! id with Some _ => methods_ | None => <[id := info]> methods_ end.

Fixpoint Extract_methods (resolve : Z -> list Z) (sourceFileId : option Z) (ms : list Method) (methods_ : gmap Z MethodDebugInfo) : outcome (gmap Z MethodDebugInfo) :=
  match ms with
  | [] => Done methods_
  | m :: ms =>
      methods_ ← match debugInfo m with
                 | None => Done methods_
                 | Some sp => info ← Extract_method resolve sourceFileId m sp; Done (emplace (methodId m) info methods_)
                 end;
      Extract_methods resolve sourceFileId ms methods_
  end.

Fixpoint Extract_loop (resolve : Z -> list Z) (classes : list Class_) (methods_ : gmap Z MethodDebugInfo) : outcome (gmap Z MethodDebugInfo) :=
  match classes with
  | [] => Done methods_
  | c :: classes =>
      methods_ ← (if is_external c then Done methods_ else Extract_methods resolve (sourceFileId c) (class_methods c) methods_);
      Extract_loop resolve classes methods_
  end.
Definition Extract (resolve : Z -> list Z) (classes : list Class_) : outcome (gmap Z MethodDebugInfo) := Extract_loop resolve classes ∅.

Definition GetLineNumberTable (methods_ : gmap Z MethodDebugInfo) (id : Z) : list (Z * Z) := match methods_ !! id with Some i => m_lines i | None => [] end.
Definition GetColumnNumberTable (methods_ : gmap Z MethodDebugInfo) (id : Z) : list (Z * Z) := match methods_ !! id with Some i => m_columns i | None => [] end.
Definition GetLocalVariableTable (methods_ : gmap Z MethodDebugInfo) (id : Z) : list LocalVariableInfo := match methods_ !! id with Some i => m_vars i | None => [] end.
Definition GetParameterInfo (methods_ : gmap Z MethodDebugInfo) (id : Z) : list ParamInfo := match methods_ !! id with Some i => m_params i | None => [] end.
(** No string where the method is not there. *)
Definition GetSourceFile (methods_ : gmap Z MethodDebugInfo) (id : Z) : option Z := m_file <$> methods_ !! id.
Definition GetSourceCode (methods_ : gmap Z MethodDebugInfo) (id : Z) : option Z := m_code <$> methods_ !! id.
Definition GetMethodIdList (methods_ : gmap Z MethodDebugInfo) : list Z := (map_to_list methods_).*1.
End DebugInfo.
