(* ===== verification/LineProgramOps.v ===== *)
(** Line number programs as lists of operations: what is emitted is read back, and what a program means. *)
From S2P Require Import Prelude Leb128 LineProgram.
From stdpp Require Import list.
Local Open Scope Z_scope.
Local Open Scope ark_scope.
Import LineProgram.

(** ** Numbers in bytes *)
Definition uleb (v : Z) : list Z := Leb128.ubytes 6 v.
Definition sleb (v : Z) : list Z := Leb128.sbytes 5 v.

Lemma ubytes_ok n x : bytes_ok (Leb128.ubytes n x).
Proof.
  revert x. induction n as [|n IH]; intros x; cbn [Leb128.ubytes]; [constructor|]. pose proof (Z.mod_pos_bound x 128 ltac:(lia)).
  destruct (x / 128 =? 0); constructor; try (unfold in_u; lia); [constructor|apply IH].
Qed.

Lemma sbytes_ok n x : bytes_ok (Leb128.sbytes n x).
Proof.
  revert x. induction n as [|n IH]; intros x; cbn [Leb128.sbytes]; [constructor|]. pose proof (Z.mod_pos_bound x 128 ltac:(lia)).
  destruct (_ && _); constructor; try (unfold in_u; lia); [constructor|apply IH].
Qed.

Lemma ubytes_enough n m x : 0 <= x < 2 ^ (7 * Z.of_nat n) -> (0 < n <= m)%nat -> Leb128.ubytes m x = Leb128.ubytes n x.
Proof.
  revert m x. induction n as [|n IH]; intros m x Hx Hn; [lia|]. destruct m as [|m]; [lia|]. cbn [Leb128.ubytes]. destruct (Z.eqb_spec (x / 128) 0) as [|Hne]; [done|].
  f_equal. destruct n as [|n].
  - change (2 ^ (7 * Z.of_nat 1)) with 128 in Hx. rewrite Z.div_small in Hne by lia. done.
  - apply IH; [|lia]. rewrite Leb128.pow2_step in Hx. split; [apply Z.div_pos; lia|apply Z.div_lt_upper_bound; lia].
Qed.

Lemma into_exact bytes n : Z.of_nat (length bytes) = n -> into n bytes = Done bytes.
Proof. intros <-. unfold into. rewrite Z.leb_refl, Nat2Z.id, Nat.sub_diag. cbn. by rewrite app_nil_r. Qed.

Lemma uleb_encoded w v : w = 32 \/ w = 64 -> in_u 32 v -> Leb128.EncodeUnsigned w v = Done (uleb v) /\ Z.of_nat (length (uleb v)) = Leb128.UnsignedEncodingSize w v.
Proof.
  intros Hw Hv. assert (Hvw : in_u w v) by (destruct Hv; unfold in_u; destruct Hw as [->| ->]; lia).
  assert (E : Leb128.EncodeUnsigned w v = Done (uleb v)).
  { rewrite Leb128.EncodeUnsigned_ubytes; [|lia|done]. f_equal. apply ubytes_enough; [destruct Hv; change (2 ^ (7 * Z.of_nat 6)) with (2 ^ 42); lia|].
    destruct Hw as [->| ->]; vm_compute; lia. }
  split; [done|]. destruct (Leb128.UnsignedEncodingSize_exact w v ltac:(lia) Hvw) as (bs & E' & L). congruence.
Qed.

Lemma EmitUleb128_eq d v : in_u 32 v -> EmitUleb128 d v = Done (d ++ uleb v).
Proof.
  intros Hv. destruct (uleb_encoded 32 v (or_introl eq_refl) Hv) as [E L]. unfold EmitUleb128. rewrite E. cbn [mbind outcome_bind]. by rewrite into_exact.
Qed.

Lemma EmitSleb128_eq d v : in_s 32 v -> EmitSleb128 d v = Done (d ++ sleb v).
Proof.
  intros Hv. assert (E : Leb128.EncodeSigned 32 v = Done (sleb v)) by (unfold Leb128.EncodeSigned; rewrite Leb128.EncodeSigned_loop_sbytes;
    [done|vm_compute; lia|unfold in_s in Hv; change (7 * Z.of_nat (Leb128.max_bytes 32) - 1) with 34; lia]).
  destruct (Leb128.SignedEncodingSize_exact 32 v ltac:(lia) Hv) as (bs & E' & L). assert (bs = sleb v) as -> by congruence.
  unfold EmitSleb128. rewrite E. cbn [mbind outcome_bind]. by rewrite into_exact.
Qed.

Lemma ReadULeb128_eq v suf : in_u 32 v -> bytes_ok suf -> ReadULeb128 (uleb v ++ suf) = Done (v, suf).
Proof.
  intros Hv Hs. unfold ReadULeb128. rewrite Leb128.uint32_decoder by (apply Forall_app; split; [apply ubytes_ok|done]).
  destruct (uleb_encoded 32 v (or_introl eq_refl) Hv) as [E _]. destruct (Leb128.unsigned_bytes 32 v suf ltac:(lia) Hv) as (bs & E' & D).
  assert (bs = uleb v) as -> by congruence. rewrite D. cbn [mbind outcome_bind Leb128.dec_value Leb128.dec_size]. by rewrite drop_app_length.
Qed.

Lemma DecodeSigned_eq v suf : in_s 32 v -> Leb128.DecodeSigned 32 (sleb v ++ suf) = Done (Leb128.Decoded v (length (sleb v)) true).
Proof.
  intros Hv. destruct (Leb128.signed_bytes 32 v suf ltac:(lia) Hv) as (bs & E & D). assert (bs = sleb v) as ->; [|done].
  pose proof (EmitSleb128_eq [] v Hv) as Es. unfold EmitSleb128 in Es. rewrite E in Es. cbn [mbind outcome_bind] in Es.
  destruct (Leb128.SignedEncodingSize_exact 32 v ltac:(lia) Hv) as (bs' & E' & L). assert (bs' = bs) as -> by congruence. rewrite into_exact in Es by done. by injection Es.
Qed.

Lemma ReadLeb128_eq v suf : in_s 32 v -> ReadLeb128 (sleb v ++ suf) = Done (v, suf).
Proof. intros Hv. unfold ReadLeb128. rewrite DecodeSigned_eq by done. cbn [mbind outcome_bind Leb128.dec_value Leb128.dec_size]. by rewrite drop_app_length. Qed.

Lemma ReadRegister_eq v suf : in_s 32 v -> ReadRegisterNumber (sleb v ++ suf) = Done (v, suf).
Proof. intros Hv. unfold ReadRegisterNumber. rewrite DecodeSigned_eq by done. cbn [mbind outcome_bind Leb128.dec_value Leb128.dec_size Leb128.dec_full]. by rewrite drop_app_length. Qed.

(** ** Operations *)
Inductive Op :=
| OPc (v : Z)
| OLine (v : Z)
| OSpecial (opcode : Z)
| OStart (reg name type : Z) (sig : option Z)
| OEnd (reg : Z)
| OColumn (c : Z)
| OFile (offset : Z)
| OSource (offset : Z).

Definition op_ok (op : Op) : Prop :=
  match op with
  | OPc v | OColumn v | OFile v | OSource v => in_u 32 v
  | OLine v | OEnd v => in_s 32 v
  | OSpecial b => OPCODE_BASE <= b <= 255
  | OStart reg name type sig => in_s 32 reg /\ in_u 32 name /\ in_u 32 type /\ match sig with Some s => in_u 32 s | None => True end
  end.

Definition op_data (op : Op) : list Z :=
  match op with
  | OPc _ => [ADVANCE_PC]
  | OLine _ => [ADVANCE_LINE]
  | OSpecial b => [b]
  | OStart reg _ _ None => START_LOCAL :: sleb reg
  | OStart reg _ _ (Some _) => START_LOCAL_EXTENDED :: sleb reg
  | OEnd reg => END_LOCAL :: sleb reg
  | OColumn _ => [SET_COLUMN]
  | OFile _ => [SET_FILE]
  | OSource _ => [SET_SOURCE_CODE]
  end.

Definition op_pool (op : Op) : list Z :=
  match op with
  | OPc v | OColumn v | OFile v | OSource v => uleb v
  | OLine v => sleb v
  | OSpecial _ | OEnd _ => []
  | OStart _ name type None => uleb name ++ uleb type
  | OStart _ name type (Some sig) => uleb name ++ uleb type ++ uleb sig
  end.

Definition data_of (ops : list Op) : list Z := flat_map op_data ops.
Definition pool_of (ops : list Op) : list Z := flat_map op_pool ops.

Lemma op_pool_ok op : bytes_ok (op_pool op).
Proof. destruct op as [| | |? ? ? []| | | |]; cbn [op_pool]; repeat (apply Forall_app; split); try apply ubytes_ok; try apply sbytes_ok; constructor. Qed.

Lemma pool_of_ok ops : bytes_ok (pool_of ops).
Proof. induction ops as [|op ops IH]; [constructor|]. apply Forall_app. split; [apply op_pool_ok|done]. Qed.

(** What the call of an emitter adds. *)
Definition emits (o : Out) (ops : list Op) (o' : Out) : Prop := data_ o' = data_ o ++ data_of ops /\ pool o' = pool o ++ pool_of ops.

Lemma emits_nil o : emits o [] o.
Proof. split; by rewrite app_nil_r. Qed.

Lemma emits_app o o1 o2 ops1 ops2 : emits o ops1 o1 -> emits o1 ops2 o2 -> emits o (ops1 ++ ops2) o2.
Proof. unfold emits, data_of, pool_of. intros [D1 P1] [D2 P2]. split; rewrite flat_map_app, app_assoc; congruence. Qed.

Lemma emits_one o op d p : data_ o ++ op_data op = d -> pool o ++ op_pool op = p -> emits o [op] (mkOut d p).
Proof. intros <- <-. split; cbn; by rewrite app_nil_r. Qed.

Lemma u8_id b : 0 <= b <= 255 -> u8 b = b.
Proof. intros. apply wrapu_id. unfold in_u. lia. Qed.

(** *** The emitters *)
Lemma pool_unsigned_eq v o : in_u 32 v -> pool_unsigned v o = Done (mkOut (data_ o) (pool o ++ uleb v)).
Proof. intros Hv. unfold pool_unsigned. by rewrite EmitUleb128_eq. Qed.

Lemma pool_signed_eq v o : in_s 32 v -> pool_signed v o = Done (mkOut (data_ o) (pool o ++ sleb v)).
Proof. intros Hv. unfold pool_signed. by rewrite EmitSleb128_eq. Qed.

Lemma EmitRegister_eq v o : in_s 32 v -> EmitRegister v o = Done (mkOut (data_ o ++ sleb v) (pool o)).
Proof. intros Hv. unfold EmitRegister. by rewrite EmitSleb128_eq. Qed.

Lemma EmitAdvancePc_spec v o : in_u 32 v -> exists o', EmitAdvancePc v o = Done o' /\ emits o [OPc v] o'.
Proof. intros Hv. eexists. split; [by apply pool_unsigned_eq|]. by apply emits_one. Qed.

Lemma EmitAdvanceLine_spec v o : in_s 32 v -> exists o', EmitAdvanceLine v o = Done o' /\ emits o [OLine v] o'.
Proof. intros Hv. eexists. split; [by apply pool_signed_eq|]. by apply emits_one. Qed.

(** The increment of the address that is pending, if there is one. *)
Definition pending (pcInc : Z) : list Op := if pcInc != 0 then [OPc pcInc] else [].

Lemma EmitColumn_spec pcInc c o : in_u 32 pcInc -> in_u 32 c -> exists o', EmitColumn pcInc c o = Done o' /\ emits o (pending pcInc ++ [OColumn c]) o'.
Proof.
  intros Hp Hc. unfold EmitColumn, pending. assert (Hlast : forall o1, exists o', pool_unsigned c (EmitOpcode SET_COLUMN o1) = Done o' /\ emits o1 [OColumn c] o').
  { intros o1. eexists. split; [by apply pool_unsigned_eq|]. by apply emits_one. }
  destruct (decide (pcInc = 0)) as [->|Hne].
  - destruct (Hlast o) as (o' & E & He). exists o'. by split.
  - rewrite bool_decide_false by done. cbn [negb]. destruct (EmitAdvancePc_spec pcInc o Hp) as (o1 & E1 & H1). rewrite E1. cbn [mbind outcome_bind].
    destruct (Hlast o1) as (o' & E & He). exists o'. split; [done|]. by eapply emits_app.
Qed.

Lemma EmitStartLocalExtended_spec reg name type sig o :
  op_ok (OStart reg name type sig) -> exists o', EmitStartLocalExtended reg name (Some type) sig o = Done o' /\ emits o [OStart reg name type sig] o'.
Proof.
  intros (Hr & Hn & Ht & Hs). unfold EmitStartLocalExtended, EmitOpcode. rewrite EmitRegister_eq by done. cbn [mbind outcome_bind data_ pool].
  rewrite pool_unsigned_eq by done. cbn [mbind outcome_bind data_ pool]. rewrite pool_unsigned_eq by done. cbn [mbind outcome_bind data_ pool].
  destruct sig as [s|]; [rewrite pool_unsigned_eq by done|]; (eexists; split; [reflexivity|]); apply emits_one; cbn [op_data op_pool data_ pool];
    rewrite ?u8_id by done; rewrite <- ?app_assoc; reflexivity.
Qed.

Lemma EmitEndLocal_spec reg o : in_s 32 reg -> exists o', EmitEndLocal reg o = Done o' /\ emits o [OEnd reg] o'.
Proof.
  intros Hr. eexists. split; [by apply EmitRegister_eq|]. apply emits_one; cbn; [|by rewrite app_nil_r]. rewrite <- app_assoc. done.
Qed.

Lemma EmitSetFile_spec v o : in_u 32 v -> exists o', EmitSetFile (Some v) o = Done o' /\ emits o [OFile v] o'.
Proof. intros Hv. eexists. split; [by apply pool_unsigned_eq|]. by apply emits_one. Qed.

Lemma EmitSetSourceCode_spec v o : in_u 32 v -> exists o', EmitSetSourceCode (Some v) o = Done o' /\ emits o [OSource v] o'.
Proof. intros Hv. eexists. split; [by apply pool_unsigned_eq|]. by apply emits_one. Qed.

(** The opcode for increments of address and line. *)
Definition special_code (pcInc lineInc : Z) : Z := lineInc - LINE_BASE + pcInc * LINE_RANGE + OPCODE_BASE.
Definition has_special (pcInc lineInc : Z) : bool := (LINE_BASE <=? lineInc) && (lineInc <? LINE_BASE + LINE_RANGE) && (special_code pcInc lineInc <=? 255).

Lemma EmitSpecialOpcode_spec pcInc lineInc o :
  0 <= pcInc <= 2 ^ 28 -> - 2 ^ 31 <= lineInc < 2 ^ 31 - 4 ->
  exists o', EmitSpecialOpcode pcInc lineInc o = (o', has_special pcInc lineInc) /\ emits o (if has_special pcInc lineInc then [OSpecial (special_code pcInc lineInc)] else []) o' /\
    (has_special pcInc lineInc = true -> op_ok (OSpecial (special_code pcInc lineInc))).
Proof.
  intros Hp Hl. unfold EmitSpecialOpcode, has_special, special_code, LINE_BASE, LINE_RANGE, OPCODE_BASE, LAST. destruct (Z.ltb_spec lineInc (-4)) as [Hlo|Hlo]; cbn [orb].
  { rewrite (proj2 (Z.leb_gt (-4) lineInc)) by lia. exists o. split; [done|]. split; [apply emits_nil|done]. }
  rewrite (proj2 (Z.leb_le (-4) lineInc)) by lia. rewrite wraps_id by (unfold in_s; lia). destruct (Z.leb_spec 15 (lineInc - -4)) as [Hhi|Hhi].
  { rewrite (proj2 (Z.ltb_ge lineInc (-4 + 15))) by lia. exists o. split; [done|]. split; [apply emits_nil|done]. }
  rewrite (proj2 (Z.ltb_lt lineInc (-4 + 15))) by lia. cbn [andb]. rewrite (wrapu_id 64 (lineInc - -4)), (wrapu_id 32 (pcInc * 15)) by (unfold in_u; lia).
  rewrite (wrapu_id 64 (lineInc - -4 + pcInc * 15)) by (unfold in_u; lia). rewrite (wrapu_id 64 (lineInc - -4 + pcInc * 15 + 12)) by (unfold in_u; lia).
  destruct (Z.ltb_spec 255 (lineInc - -4 + pcInc * 15 + 12)) as [Hb|Hb].
  - rewrite (proj2 (Z.leb_gt (lineInc - -4 + pcInc * 15 + 12) 255)) by lia. exists o. split; [done|]. split; [apply emits_nil|done].
  - rewrite (proj2 (Z.leb_le (lineInc - -4 + pcInc * 15 + 12) 255)) by lia. eexists. split; [reflexivity|]. split; [|cbn; unfold OPCODE_BASE, LAST; lia].
    apply emits_one; [|by rewrite app_nil_r]. by rewrite u8_id by lia.
Qed.

(** ** The interpreter on operations *)
Section Process.
Context {H : Type} `{Handler H}.

Definition handle (op : Op) (h : H) (st : LineProgramState) : Handled H :=
  match op with
  | OPc v => HandleAdvancePc v h st
  | OLine v => HandleAdvanceLine v h st
  | OSpecial b => HandleSpecialOpcode ((b - OPCODE_BASE) / LINE_RANGE) ((b - OPCODE_BASE) mod LINE_RANGE + LINE_BASE) h st
  | OStart reg name type None => HandleStartLocal reg name type h st
  | OStart reg name type (Some sig) => HandleStartLocalExtended reg name type sig h st
  | OEnd reg => HandleEndLocal reg h st
  | OColumn c => HandleSetColumn (i32 c) h st
  | OFile offset => HandleSetFile offset h st
  | OSource offset => HandleSetSourceCode offset h st
  end.

(** A handler does not read operands. *)
Definition keeps_pool : Prop := forall op h st h' st' b, handle op h st = Done (h', st', b) -> constantPool_ st' = constantPool_ st.

Definition with_pool (p : list Z) (st : LineProgramState) : LineProgramState := {| st with constantPool_ := p |}.

Fixpoint exec (ops : list Op) (p : list Z) (h : H) (st : LineProgramState) : outcome (H * LineProgramState) :=
  match ops with
  | [] => Done (h, st)
  | op :: ops => '(h, st, b) ← handle op h (with_pool (pool_of ops ++ p) st); if (b : bool) then exec ops p h st else Done (h, st)
  end.

Lemma read_unsigned v suf st : constantPool_ st = uleb v ++ suf -> in_u 32 v -> bytes_ok suf -> State_ReadULeb128 st = Done (v, with_pool suf st).
Proof. intros E Hv Hs. unfold State_ReadULeb128. rewrite E, ReadULeb128_eq by done. done. Qed.

Lemma read_signed v suf st : in_s 32 v -> constantPool_ st = sleb v ++ suf -> State_ReadSLeb128 st = Done (v, with_pool suf st).
Proof. intros Hv E. unfold State_ReadSLeb128. rewrite E, ReadLeb128_eq by done. done. Qed.

Ltac codes := repeat match goal with |- context [bool_decide (?x = ?y)] => first [rewrite (bool_decide_true (x = y)) by done | rewrite (bool_decide_false (x = y)) by done]; cbn [orb] end.
Ltac operand := erewrite read_unsigned; [cbn [mbind outcome_bind]|cbn [with_pool constantPool_]; first [eassumption|reflexivity]|done|repeat (apply Forall_app; split); try apply ubytes_ok; done].

Lemma dispatch_op op program p res h st :
  op_ok op -> bytes_ok p -> constantPool_ st = op_pool op ++ p ->
  exists opcode rest, op_data op ++ program = opcode :: rest /\ opcode <> END_SEQUENCE /\
    dispatch opcode rest res h st = x ← handle op h (with_pool p st); Done (program, x).
Proof.
  intros Hok Hp E. destruct op as [v|v|b|reg name type sig|reg|c|v|v]; cbn [op_ok op_pool op_data handle] in *.
  - eexists _, _. split; [reflexivity|]. split; [done|]. unfold dispatch. codes. by operand.
  - eexists _, _. split; [reflexivity|]. split; [done|]. unfold dispatch. codes. by erewrite read_signed.
  - eexists _, _. split; [reflexivity|]. unfold OPCODE_BASE, LAST in Hok. split; [unfold END_SEQUENCE; lia|]. unfold dispatch.
    unfold ADVANCE_LINE, ADVANCE_PC, SET_FILE, SET_SOURCE_CODE, SET_PROLOGUE_END, SET_EPILOGUE_BEGIN, START_LOCAL, START_LOCAL_EXTENDED, RESTART_LOCAL, END_LOCAL, SET_COLUMN.
    repeat rewrite bool_decide_false by lia. cbn [orb]. unfold special. destruct st. cbn in *. by subst.
  - destruct Hok as (Hr & Hn & Ht & Hs). destruct sig as [sig|]; (eexists _, _; split; [reflexivity|]); (split; [done|]); unfold dispatch; codes; cbn [app]; rewrite ReadRegister_eq by done;
      cbn [mbind outcome_bind]; rewrite <- ?app_assoc in E; repeat operand; done.
  - eexists _, _. split; [reflexivity|]. split; [done|]. unfold dispatch. codes. cbn [app]. rewrite ReadRegister_eq by done. cbn [mbind outcome_bind]. destruct st. cbn in *. by subst.
  - eexists _, _. split; [reflexivity|]. split; [done|]. unfold dispatch. codes. by operand.
  - eexists _, _. split; [reflexivity|]. split; [done|]. unfold dispatch. codes. by operand.
  - eexists _, _. split; [reflexivity|]. split; [done|]. unfold dispatch. codes. by operand.
Qed.

(** The loop on the bytes of operations runs the handler on the operations. *)
Lemma process_ops fuel ops tail p res h st :
  keeps_pool -> Forall op_ok ops -> bytes_ok p -> constantPool_ st = pool_of ops ++ p -> (length (data_of ops) < fuel)%nat ->
  Process_loop fuel (data_of ops ++ END_SEQUENCE :: tail) res h st = exec ops p h st.
Proof.
  intros Hkeep Hops Hp. revert fuel res h st. induction Hops as [|op ops Hop Hops IH]; intros fuel res h st E Hf; (destruct fuel as [|fuel]; [lia|]); cbn [Process_loop].
  { done. }
  cbn [data_of pool_of flat_map] in *. rewrite <- app_assoc in *. rewrite length_app in Hf.
  destruct (dispatch_op op (data_of ops ++ END_SEQUENCE :: tail) (pool_of ops ++ p) res h st Hop) as (opcode & rest & Ed & Hne & Ex); [apply Forall_app; split; [apply pool_of_ok|done]|done|].
  unfold data_of in Ed. rewrite Ed. cbn [ReadOpcode mbind outcome_bind]. rewrite bool_decide_false by done. rewrite Ex. cbn [exec]. cbn [mbind outcome_bind].
  destruct (handle op h (with_pool (pool_of ops ++ p) st)) as [[[h' st'] b]| |] eqn:Eh; cbn [mbind outcome_bind]; [|done..]. destruct b; [|done]. apply IH.
  - apply Hkeep in Eh. rewrite Eh. done.
  - assert (length (op_data op) <> 0%nat) by (destruct op as [| | |? ? ? []| | | |]; done). unfold data_of. lia.
Qed.
End Process.

(** ** What a program means *)
Inductive Event :=
| ELine (a l : Z)
| EColumn (a c : Z)
| EStart (a reg name type sig : Z)
| EEnd (a reg : Z).

(** The events of operations from an address and a line on, and where they end. *)
Fixpoint trace (ops : list Op) (a l : Z) : list Event * Z * Z :=
  match ops with
  | [] => ([], a, l)
  | op :: ops =>
      match op with
      | OPc v => trace ops (u32 (a + v)) l
      | OLine v => trace ops a (u64 (l + u64 v))
      | OSpecial b =>
          let a := u32 (a + (b - OPCODE_BASE) / LINE_RANGE) in
          let l := u64 (l + u64 ((b - OPCODE_BASE) mod LINE_RANGE + LINE_BASE)) in
          let '(es, a', l') := trace ops a l in (ELine a l :: es, a', l')
      | OStart reg name type sig =>
          let '(es, a', l') := trace ops a l in (EStart a reg name type (match sig with Some s => s | None => type end) :: es, a', l')
      | OEnd reg => let '(es, a', l') := trace ops a l in (EEnd a reg :: es, a', l')
      | OColumn c => let '(es, a', l') := trace ops a l in (EColumn a c :: es, a', l')
      | OFile _ | OSource _ => trace ops a l
      end
  end.

Lemma trace_app ops1 ops2 a l es1 a1 l1 es2 a2 l2 :
  trace ops1 a l = (es1, a1, l1) -> trace ops2 a1 l1 = (es2, a2, l2) -> trace (ops1 ++ ops2) a l = (es1 ++ es2, a2, l2).
Proof.
  revert a l es1. induction ops1 as [|op ops1 IH]; intros a l es1 E1 E2; cbn [trace app] in *; [by injection E1 as <- <- <-|].
  destruct op; try (by apply IH); (match type of E1 with context [trace ops1 ?x ?y] => destruct (trace ops1 x y) as [[es b] k] eqn:E end);
    injection E1 as <- <- <-; by rewrite (IH _ _ _ E E2).
Qed.

(** *** The resolver *)
Fixpoint resolve_events (off prev : Z) (es : list Event) (fin : Z) : Z :=
  match es with
  | [] => u32 fin
  | ELine a l :: es => if a =? off then u32 l else if off <? a then (if prev =? 0 then u32 l else prev) else resolve_events off (u32 l) es fin
  | _ :: es => resolve_events off prev es fin
  end.

Lemma resolver_keeps : @keeps_pool _ resolver_handler.
Proof.
  intros op h st h' st' b. destruct op as [| | |? ? ? []| | | |]; cbn [handle]; try (by intros [= _ <- _]). cbn [HandleSpecialOpcode resolver_handler]. unfold resolver_special.
  destruct (bool_decide _); [by intros [= _ <- _]|]. destruct (_ <? _); by intros [= _ <- _].
Qed.

Lemma resolver_exec ops p off prev st es a' l' :
  trace ops (address_ st) (line_ st) = (es, a', l') ->
  exists r st', exec ops p (mkResolver off prev 0) st = Done (r, st') /\ found_line_ (ProcessEnd r st') = resolve_events off prev es l'.
Proof.
  revert prev st es. induction ops as [|op ops IH]; intros prev st es; cbn [trace exec].
  { intros [= <- <- <-]. eexists _, _. split; [reflexivity|]. done. }
  destruct op as [v|v|b|reg name type [sig|]|reg|c|v|v]; cbn [handle mbind outcome_bind]; try (intros E; by apply (IH prev _ es)).
  - cbn [HandleSpecialOpcode resolver_handler]. unfold resolver_special. cbn [AdvanceLine AdvancePc GetAddress GetLine address_ line_ with_pool bcOffset_ prevLine_].
    set (a := u32 _). set (l := u64 _). destruct (trace ops a l) as [[es1 a1] l1] eqn:E. intros [= <- <- <-]. cbn [resolve_events].
    destruct (Z.eqb_spec a off) as [Ea|Hne].
    + rewrite bool_decide_true by done. cbn [mbind outcome_bind]. eexists _, _. split; [reflexivity|]. cbn [ProcessEnd resolver_handler found_line_]. by destruct (bool_decide _).
    + rewrite bool_decide_false by done. destruct (Z.ltb_spec off a); cbn [mbind outcome_bind].
      * eexists _, _. split; [reflexivity|]. cbn [ProcessEnd resolver_handler found_line_]. destruct (Z.eqb_spec prev 0) as [->|H0]; [by rewrite bool_decide_true|by rewrite bool_decide_false].
      * apply (IH (u32 l) (mkLPS _ _ l _ _ a)). exact E.
  - destruct (trace ops _ _) as [[es1 a1] l1] eqn:E. intros [= <- <- <-]. by apply (IH prev _ es1).
  - destruct (trace ops _ _) as [[es1 a1] l1] eqn:E. intros [= <- <- <-]. by apply (IH prev _ es1).
  - destruct (trace ops _ _) as [[es1 a1] l1] eqn:E. intros [= <- <- <-]. by apply (IH prev _ es1).
  - destruct (trace ops _ _) as [[es1 a1] l1] eqn:E. intros [= <- <- <-]. by apply (IH prev _ es1).
Qed.

(** *** The tables *)
Fixpoint tabulate (es : list Event) (h : LineNumberProgramHandler) : outcome LineNumberProgramHandler :=
  match es with
  | [] => Done h
  | ELine a l :: es => tabulate es {| h with lnt_ := lnt_ h ++ [(a, l)] |}
  | EColumn a c :: es => tabulate es {| h with cnt_ := cnt_ h ++ [(a, u64 (i32 c))] |}
  | EStart a reg name type sig :: es => tabulate es {| h with lvt_ := lvt_ h ++ [mkLocal name type sig reg a 0] |}
  | EEnd a reg :: es => match end_local reg a (lvt_ h) with Some vars => tabulate es {| h with lvt_ := vars |} | None => Crash end
  end.

Lemma table_keeps : @keeps_pool _ table_handler.
Proof.
  intros op h st h' st' b. destruct op as [| | |? ? ? []| | | |]; cbn [handle]; try (by intros [= _ <- _]). cbn [HandleEndLocal table_handler].
  destruct (end_local _ _ _); by intros [= _ <- _].
Qed.

Lemma table_exec ops p h st es a' l' :
  trace ops (address_ st) (line_ st) = (es, a', l') ->
  match tabulate es h with
  | Done h' => exists st', exec ops p h st = Done (h', st') /\ address_ st' = a' /\ line_ st' = l'
  | Crash => exec ops p h st = Crash
  | NoFuel => True
  end.
Proof.
  revert h st es. induction ops as [|op ops IH]; intros h st es; cbn [trace exec].
  { intros [= <- <- <-]. cbn [tabulate]. by exists st. }
  destruct op as [v|v|b|reg name type [sig|]|reg|c|v|v]; cbn [handle mbind outcome_bind]; try (intros E; by apply (IH h _ es));
    (destruct (trace ops _ _) as [[es1 a1] l1] eqn:E); intros [= <- <- <-]; cbn [tabulate].
  - by apply IH.
  - by apply IH.
  - by apply IH.
  - cbn [HandleEndLocal table_handler GetAddress address_ with_pool]. destruct (end_local _ _ _) as [vars|]; [|done]. cbn [mbind outcome_bind]. by apply IH.
  - by apply IH.
Qed.
