(* ===== verification/DebugBuild.v ===== *)
(** The line number program of a function: its events are the changes of line and column and the variables of the function, at the offsets
    of the instructions. *)
From S2P Require Import Prelude Leb128 LineProgram DebugInfo LineProgramOps.
From stdpp Require Import list strings.
Local Open Scope Z_scope.
Local Open Scope ark_scope.
Import DebugInfo.

(** ** Pieces of programs *)
(** From [o] to [o'] operations are emitted that give the events [es] and move the address and the line. *)
Definition built (o o' : Out) (a l : Z) (es : list Event) (a' l' : Z) : Prop :=
  exists ops, emits o ops o' /\ Forall op_ok ops /\ trace ops a l = (es, a', l').

Lemma built_nil o a l : built o o a l [] a l.
Proof. exists []. split_and!; [apply emits_nil|constructor|done]. Qed.

Lemma built_app o o1 o2 a l es1 a1 l1 es2 a2 l2 : built o o1 a l es1 a1 l1 -> built o1 o2 a1 l1 es2 a2 l2 -> built o o2 a l (es1 ++ es2) a2 l2.
Proof.
  intros (ops1 & E1 & F1 & T1) (ops2 & E2 & F2 & T2). exists (ops1 ++ ops2). split_and!; [by eapply emits_app|by apply Forall_app|by eapply trace_app].
Qed.

(** Where events end. *)
Fixpoint ends (es : list Event) (a l : Z) : Z * Z :=
  match es with
  | [] => (a, l)
  | ELine a l :: es => ends es a l
  | EColumn a _ :: es | EStart a _ _ _ _ :: es | EEnd a _ :: es => ends es a l
  end.

Lemma ends_app es1 es2 a l : ends (es1 ++ es2) a l = ends es2 (fst (ends es1 a l)) (snd (ends es1 a l)).
Proof. revert a l. induction es1 as [|e es1 IH]; intros a l; [done|]. destruct e; cbn [app ends]; apply IH. Qed.

Definition code_limit : Z := 2 ^ 28.
Definition line_limit : Z := 2 ^ 31 - 4.

Lemma u64_add l v : 0 <= l < line_limit -> 0 <= l + v < line_limit -> u64 (l + u64 v) = l + v.
Proof. unfold line_limit. intros Hl Hv. unfold wrapu. rewrite Zplus_mod_idemp_r. apply Z.mod_small. lia. Qed.

(** *** Addresses and lines *)
Lemma built_pc o pcInc a l :
  0 < pcInc -> 0 <= a -> a + pcInc <= code_limit -> exists o', EmitAdvancePc pcInc o = Done o' /\ built o o' a l [] (a + pcInc) l.
Proof.
  unfold code_limit. intros Hp Ha Hl. assert (Hu : in_u 32 pcInc) by (unfold in_u; lia). destruct (EmitAdvancePc_spec pcInc o Hu) as (o' & E & He). exists o'. split; [done|].
  exists [OPc pcInc]. split_and!; [done|constructor; [done|constructor]|]. cbn [trace]. rewrite wrapu_id by (unfold in_u; lia). done.
Qed.

Lemma tryEmitPc_spec pcInc o a l :
  0 <= pcInc -> 0 <= a -> a + pcInc <= code_limit -> exists o', tryEmitPc pcInc o = Done (o', 0) /\ built o o' a l [] (a + pcInc) l.
Proof.
  intros Hp Ha Hl. unfold tryEmitPc. destruct (decide (pcInc = 0)) as [->|Hne].
  - exists o. split; [done|]. rewrite Z.add_0_r. apply built_nil.
  - rewrite bool_decide_false by done. cbn [negb]. destruct (built_pc o pcInc a l) as (o' & E & Hb); [lia|done|done|]. rewrite E. by exists o'.
Qed.

Lemma built_special o pcInc lineInc a l :
  has_special pcInc lineInc = true -> 0 <= pcInc -> 0 <= a -> a + pcInc <= code_limit -> 0 <= l < line_limit -> 0 <= l + lineInc < line_limit ->
  exists o', EmitSpecialOpcode pcInc lineInc o = (o', true) /\ built o o' a l [ELine (a + pcInc) (l + lineInc)] (a + pcInc) (l + lineInc).
Proof.
  unfold code_limit. intros Hs Hp Ha Hc Hl Hl'. destruct (EmitSpecialOpcode_spec pcInc lineInc o) as (o' & E & He & Hok); [lia|unfold line_limit in *; lia|]. rewrite Hs in *.
  exists o'. split; [done|]. exists [OSpecial (special_code pcInc lineInc)]. split_and!; [done|constructor; [by apply Hok|constructor]|]. cbn [trace].
  unfold has_special, special_code, LINE_BASE, LINE_RANGE in *. apply andb_true_iff in Hs as [[H1%Z.leb_le H2%Z.ltb_lt]%andb_true_iff _].
  set (x := lineInc - -4 + pcInc * 15 + OPCODE_BASE - OPCODE_BASE). assert (Ex : x = 15 * pcInc + (lineInc + 4)) by lia.
  rewrite <- (Z.div_unique x 15 pcInc (lineInc + 4)), <- (Z.mod_unique x 15 pcInc (lineInc + 4)) by lia.
  replace (lineInc + 4 + -4) with lineInc by lia. rewrite u64_add by done. rewrite wrapu_id by (unfold in_u; lia). done.
Qed.

(** Nothing is emitted where there is no special opcode. *)
Lemma no_special o pcInc lineInc l :
  has_special pcInc lineInc = false -> 0 <= pcInc <= code_limit -> 0 <= l < line_limit -> 0 <= l + lineInc < line_limit -> EmitSpecialOpcode pcInc lineInc o = (o, false).
Proof.
  intros Hs Hp Hl Hl'. destruct (EmitSpecialOpcode_spec pcInc lineInc o) as (o' & E & [D P] & _); [unfold code_limit in *; lia|unfold line_limit in *; lia|].
  rewrite Hs in *. rewrite app_nil_r in D, P. rewrite E. destruct o', o. cbn in *. by subst.
Qed.

Lemma built_line o lineInc a l :
  0 <= a <= code_limit -> 0 <= l < line_limit -> 0 <= l + lineInc < line_limit ->
  exists o', (o ← EmitAdvanceLine lineInc o; Done (fst (EmitSpecialOpcode 0 0 o))) = Done o' /\ built o o' a l [ELine a (l + lineInc)] a (l + lineInc).
Proof.
  intros Ha Hl Hl'. assert (Hs : in_s 32 lineInc) by (unfold in_s, line_limit in *; lia). destruct (EmitAdvanceLine_spec lineInc o Hs) as (o1 & E1 & He1). rewrite E1. cbn [mbind outcome_bind].
  destruct (built_special o1 0 0 a (l + lineInc)) as (o' & E & Hb); [done|lia|lia|lia|done|by rewrite Z.add_0_r|]. rewrite !Z.add_0_r in Hb. rewrite E. exists o'. split; [done|].
  eapply (built_app _ _ _ _ _ []); [|exact Hb]. exists [OLine lineInc]. split_and!; [done|constructor; [done|constructor]|]. cbn [trace]. by rewrite u64_add.
Qed.

Lemma EmitNumber_spec o pcInc lineInc a l :
  0 <= pcInc -> 0 <= a -> a + pcInc <= code_limit -> 0 <= l < line_limit -> 0 <= l + lineInc < line_limit ->
  exists o', EmitNumber pcInc lineInc o = Done o' /\ built o o' a l [ELine (a + pcInc) (l + lineInc)] (a + pcInc) (l + lineInc).
Proof.
  intros Hp Ha Hc Hl Hl'. unfold EmitNumber. destruct (has_special pcInc lineInc) eqn:Hs.
  { destruct (built_special o pcInc lineInc a l Hs) as (o' & E & Hb); [done..|]. rewrite E. by exists o'. }
  rewrite (no_special o pcInc lineInc l) by (done || lia). destruct (decide (pcInc = 0)) as [->|Hne].
  - rewrite bool_decide_true by done. cbn [negb]. rewrite Z.add_0_r in *. by apply built_line.
  - rewrite bool_decide_false by done. cbn [negb]. destruct (built_pc o pcInc a l) as (o1 & E1 & Hb1); [lia|done|done|]. rewrite E1. cbn [mbind outcome_bind].
    destruct (has_special 0 lineInc) eqn:Hs0.
    + destruct (built_special o1 0 lineInc (a + pcInc) l Hs0) as (o' & E & Hb); [lia|lia|lia|done..|]. rewrite E. exists o'. split; [done|]. rewrite Z.add_0_r in Hb. by eapply (built_app _ _ _ _ _ []).
    + rewrite (no_special o1 0 lineInc l) by (done || lia). destruct (built_line o1 lineInc (a + pcInc) l) as (o' & E' & Hb); [lia|done..|]. rewrite E'.
      exists o'. split; [done|]. by eapply (built_app _ _ _ _ _ []).
Qed.

(** ** Functions *)
Section Functions.
Context `{Tables}.

Record ins_ok (x : Ins) : Prop := { io_line : 0 <= lineNumber x < line_limit; io_column : 0 <= columnNumber x < 2 ^ 31 }.
Definition var_ok (v : LocalVariable) : Prop := in_s 32 (reg v).

(** Instructions take bytes, and the code is at most [code_limit] long. *)
Fixpoint code_ok (rest : list Ins) (bi : list Z) (off : Z) : Prop :=
  match rest with
  | [] => True
  | x :: rest => if is_invalid x then code_ok rest bi off
                 else 0 < GetSize bi /\ off + GetSize bi <= code_limit /\ code_ok rest (drop (Z.to_nat (GetSize bi)) bi) (off + GetSize bi)
  end.

Record fun_ok (f : Function_) (bytecode : list Z) : Prop := {
  fo_ins : Forall ins_ok (ins f);
  fo_vars : Forall var_ok (localVariableDebug f);
  fo_code : code_ok (ins f) bytecode 0;
  fo_strings : forall s, in_u 32 (String_offset s);
}.

(** *** The events of a function *)
Definition var_events (f : Function_) (i off : Z) (v : LocalVariable) : list Event :=
  if IsParameter f (reg v) then []
  else (if i == start v then [EStart off (reg v) (String_offset (var_name v)) (String_offset (signature v))
                                (String_offset (if bool_decide (signatureType v = "")%string then signature v else signatureType v))] else []) ++
       (if i == u32 (start v + length_ v) then [EEnd off (reg v)] else []).

Fixpoint events (f : Function_) (emitDebugInfo : bool) (i : Z) (rest : list Ins) (bi : list Z) (off prevLine prevColumn : Z) : list Event :=
  match rest with
  | [] => []
  | x :: rest =>
      (if emitDebugInfo then flat_map (var_events f i off) (localVariableDebug f) else []) ++
      (if is_invalid x then events f emitDebugInfo (i + 1) rest bi off prevLine prevColumn
       else
         let shown := emitDebugInfo || ins_CanThrow x in
         let column := is_dynamic f && emitDebugInfo in
         (if shown && (lineNumber x != prevLine) then [ELine off (lineNumber x)] else []) ++
         (if column && (columnNumber x != prevColumn) then [EColumn off (columnNumber x)] else []) ++
         events f emitDebugInfo (i + 1) rest (drop (Z.to_nat (GetSize bi)) bi) (off + GetSize bi)
           (if shown then lineNumber x else prevLine) (if column then columnNumber x else prevColumn))
  end.

(** *** The emitters of a function *)
Lemma emit_variable_spec f i v pcInc o a l off :
  var_ok v -> (forall s, in_u 32 (String_offset s)) -> 0 <= pcInc -> 0 <= a -> a + pcInc = off -> off <= code_limit ->
  exists o' pcInc' a', emit_variable f i v pcInc o = Done (o', pcInc') /\ built o o' a l (var_events f i off v) a' l /\
    a' + pcInc' = off /\ 0 <= pcInc' /\ 0 <= a' /\ ends (var_events f i off v) a l = (a', l).
Proof.
  intros Hv Hstr Hp Ha Hoff Hl. unfold emit_variable, var_events. destruct (IsParameter f (reg v)).
  { exists o, pcInc, a. split_and!; try done. apply built_nil. }
  destruct (decide (i = start v)) as [->|Hne].
  - rewrite (bool_decide_true (start v = start v)) by done. destruct (tryEmitPc_spec pcInc o a l Hp Ha) as (o1 & E1 & Hb1); [lia|]. rewrite Hoff in Hb1. rewrite E1. cbn [mbind outcome_bind].
    set (sig := if bool_decide (signatureType v = "")%string then None else Some (String_offset (signatureType v))).
    destruct (EmitStartLocalExtended_spec (reg v) (String_offset (var_name v)) (String_offset (signature v)) sig o1) as (o2 & E2 & He2).
    { split_and!; try done; [apply Hstr..|]. unfold sig. destruct (bool_decide _); [done|apply Hstr]. }
    assert (E2' : (if bool_decide (signatureType v = "")%string then EmitStartLocal (reg v) (String_offset (var_name v)) (Some (String_offset (signature v))) o1
            else EmitStartLocalExtended (reg v) (String_offset (var_name v)) (Some (String_offset (signature v))) (Some (String_offset (signatureType v))) o1) = Done o2)
      by (rewrite <- E2; unfold sig; by destruct (bool_decide _)).
    rewrite E2'. cbn [mbind outcome_bind].
    assert (Hb2 : built o o2 a l [EStart off (reg v) (String_offset (var_name v)) (String_offset (signature v)) (String_offset (if bool_decide (signatureType v = "")%string then signature v else signatureType v))] off l).
    { eapply (built_app _ _ _ _ _ []); [exact Hb1|]. eexists. split_and!; [exact He2| |].
      - constructor; [|constructor]. split_and!; try done; [apply Hstr..|]. unfold sig. destruct (bool_decide _); [done|apply Hstr].
      - cbn [trace]. unfold sig. by destruct (bool_decide _). }
    destruct (bool_decide (start v = u32 _)).
    + cbn [tryEmitPc bool_decide negb decide]. unfold tryEmitPc. rewrite bool_decide_true by done. cbn [negb mbind outcome_bind].
      destruct (EmitEndLocal_spec (reg v) o2 Hv) as (o3 & E3 & He3). rewrite E3. cbn [mbind outcome_bind]. exists o3, 0, off. split_and!; try done; try lia.
      eapply built_app; [exact Hb2|]. eexists. split_and!; [exact He3|constructor; [done|constructor]|done].
    + exists o2, 0, off. split_and!; try done; lia.
  - rewrite (bool_decide_false (i = start v)) by done. cbn [mbind outcome_bind app]. destruct (bool_decide (i = u32 _)).
    + destruct (tryEmitPc_spec pcInc o a l Hp Ha) as (o1 & E1 & Hb1); [lia|]. rewrite Hoff in Hb1. rewrite E1. cbn [mbind outcome_bind].
      destruct (EmitEndLocal_spec (reg v) o1 Hv) as (o3 & E3 & He3). rewrite E3. cbn [mbind outcome_bind]. exists o3, 0, off. split_and!; try done; try lia.
      eapply (built_app _ _ _ _ _ []); [exact Hb1|]. eexists. split_and!; [exact He3|constructor; [done|constructor]|done].
    + exists o, pcInc, a. split_and!; try done. apply built_nil.
Qed.

Lemma EmitLocalVariable_spec f i vars pcInc o a l off :
  Forall var_ok vars -> (forall s, in_u 32 (String_offset s)) -> 0 <= pcInc -> 0 <= a -> a + pcInc = off -> off <= code_limit ->
  exists o' pcInc' a', EmitLocalVariable f vars i pcInc o = Done (o', pcInc') /\ built o o' a l (flat_map (var_events f i off) vars) a' l /\
    a' + pcInc' = off /\ 0 <= pcInc' /\ 0 <= a' /\ ends (flat_map (var_events f i off) vars) a l = (a', l).
Proof.
  intros Hvars Hstr. revert pcInc o a. induction Hvars as [|v vars Hv Hvars IH]; intros pcInc o a Hp Ha Hoff Hl; cbn [EmitLocalVariable flat_map].
  { exists o, pcInc, a. split_and!; try done. apply built_nil. }
  destruct (emit_variable_spec f i v pcInc o a l off Hv Hstr Hp Ha Hoff Hl) as (o1 & p1 & a1 & E1 & Hb1 & Hoff1 & Hp1 & Ha1 & He1). rewrite E1. cbn [mbind outcome_bind].
  destruct (IH p1 o1 a1 Hp1 Ha1 Hoff1 Hl) as (o2 & p2 & a2 & E2 & Hb2 & Hoff2 & Hp2 & Ha2 & He2). exists o2, p2, a2. split_and!; try done; [by eapply built_app|].
  by rewrite ends_app, He1.
Qed.

Lemma line_of_ins x : ins_ok x -> GetLineNumber_ins x = lineNumber x.
Proof. intros [Hl _]. unfold GetLineNumber_ins, line_limit in *. rewrite wraps_id by (unfold in_s; lia). apply wrapu_id. unfold in_u. lia. Qed.

Lemma column_of_ins x : ins_ok x -> GetColumnNumber_ins x = columnNumber x.
Proof. intros [_ Hc]. unfold GetColumnNumber_ins. rewrite wraps_id by (unfold in_s; lia). apply wrapu_id. unfold in_u. lia. Qed.

Lemma difference x y : 0 <= x < line_limit -> 0 <= y < line_limit -> i32 (u64 (x - y)) = x - y.
Proof.
  unfold line_limit. intros Hx Hy. rewrite (wraps_congr 32 _ (x - y)) by (by apply wrapu_mod_le). apply wraps_id; [lia|]. unfold in_s. lia.
Qed.

(** The event of a value that may have changed, at the address of the instruction. *)
Lemma EmitLineNumber_spec x prev pcInc o a off :
  ins_ok x -> 0 <= prev < line_limit -> 0 <= pcInc -> 0 <= a -> a + pcInc = off -> off <= code_limit ->
  let es := if lineNumber x != prev then [ELine off (lineNumber x)] else [] in
  exists o' pcInc' a', EmitLineNumber x prev pcInc o = Done (o', lineNumber x, pcInc') /\ built o o' a prev es a' (lineNumber x) /\
    a' + pcInc' = off /\ 0 <= pcInc' /\ 0 <= a' /\ ends es a prev = (a', lineNumber x).
Proof.
  intros Hx Hprev Hp Ha Hoff Hl. cbn zeta. pose proof (io_line x Hx) as Hline. unfold EmitLineNumber. rewrite line_of_ins by done.
  assert (Hz : u64 (lineNumber x - prev) = 0 <-> lineNumber x = prev) by (split; [intros E; pose proof (difference _ _ Hline Hprev) as D; rewrite E in D; change (i32 0) with 0 in D; lia|intros ->; by rewrite Z.sub_diag]).
  destruct (decide (lineNumber x = prev)) as [Eq|Hne].
  - rewrite (bool_decide_true (u64 _ = 0)), (bool_decide_true (lineNumber x = prev)) by tauto. rewrite Eq. exists o, pcInc, a. split_and!; try done. apply built_nil.
  - rewrite (bool_decide_false (u64 _ = 0)), (bool_decide_false (lineNumber x = prev)) by tauto. cbn [negb]. rewrite difference by done.
    destruct (EmitNumber_spec o pcInc (lineNumber x - prev) a prev) as (o' & E & Hb); [done|done|lia|done|lia|]. rewrite E. cbn [mbind outcome_bind].
    rewrite Hoff in Hb. replace (prev + (lineNumber x - prev)) with (lineNumber x) in Hb by lia. rewrite wrapu_id by (unfold in_u, line_limit in *; lia).
    exists o', 0, off. split_and!; try done; lia.
Qed.

Lemma EmitColumnNumber_spec x prev pcInc o a l off :
  ins_ok x -> in_u 32 prev -> 0 <= pcInc -> 0 <= a -> a + pcInc = off -> off <= code_limit ->
  let es := if columnNumber x != prev then [EColumn off (columnNumber x)] else [] in
  exists o' pcInc' a', EmitColumnNumber x prev pcInc o = Done (o', columnNumber x, pcInc') /\ built o o' a l es a' l /\
    a' + pcInc' = off /\ 0 <= pcInc' /\ 0 <= a' /\ ends es a l = (a', l).
Proof.
  intros Hx Hprev Hp Ha Hoff Hl. cbn zeta. pose proof (io_column x Hx) as Hcol. unfold EmitColumnNumber. rewrite column_of_ins by done.
  destruct (decide (columnNumber x = prev)) as [Eq|Hne].
  - rewrite (bool_decide_true (columnNumber x = prev)) by done. rewrite Eq. exists o, pcInc, a. split_and!; try done. apply built_nil.
  - rewrite (bool_decide_false (columnNumber x = prev)) by done. cbn [negb]. unfold code_limit in *.
    destruct (EmitColumn_spec pcInc (columnNumber x) o) as (o' & E & He); [unfold in_u; lia..|]. rewrite E. cbn [mbind outcome_bind]. exists o', 0, off. split_and!; try done; try lia.
    eexists. split_and!; [exact He| |].
    + unfold pending. apply Forall_app. split; [|constructor; [cbn; unfold in_u; lia|constructor]]. destruct (bool_decide _); constructor; [cbn; unfold in_u; lia|constructor].
    + unfold pending. destruct (decide (pcInc = 0)) as [->|]; [rewrite bool_decide_true by done|rewrite bool_decide_false by done]; cbn [negb app trace]; rewrite ?wrapu_id by (unfold in_u; lia);
        by rewrite <- Hoff, ?Z.add_0_r.
Qed.

(** A step that may be left out. *)
Definition stepped (o : Out) (a l off : Z) (es : list Event) (o' : Out) (pcInc' a' l' : Z) : Prop :=
  built o o' a l es a' l' /\ a' + pcInc' = off /\ 0 <= pcInc' /\ 0 <= a' /\ ends es a l = (a', l').

Lemma stepped_nil o a l off pcInc : a + pcInc = off -> 0 <= pcInc -> 0 <= a -> stepped o a l off [] o pcInc a l.
Proof. intros. split_and!; try done. apply built_nil. Qed.

(** The loop emits the events of the instructions. *)
Lemma Build_loop_spec f emit i rest bi pcInc prevLine prevColumn o a off :
  Forall var_ok (localVariableDebug f) -> (forall s, in_u 32 (String_offset s)) -> Forall ins_ok rest -> code_ok rest bi off ->
  0 <= prevLine < line_limit -> in_u 32 prevColumn -> a + pcInc = off -> 0 <= pcInc -> 0 <= a -> off <= code_limit ->
  let es := events f emit i rest bi off prevLine prevColumn in
  exists o' a' l', Build_loop f emit i rest bi pcInc prevLine prevColumn o = Done o' /\ built o o' a prevLine es a' l' /\ ends es a prevLine = (a', l').
Proof.
  intros Hvars Hstr Hrest. revert i bi pcInc prevLine prevColumn o a off.
  induction Hrest as [|x rest Hx Hrest IH]; intros i bi pcInc prevLine prevColumn o a off Hcode Hprev Hcol Hoff Hp Ha Hl; cbn [Build_loop events].
  { exists o, a, prevLine. split_and!; try done. apply built_nil. }
  assert (exists o1 p1 a1, (if emit then EmitLocalVariable f (localVariableDebug f) i pcInc o else Done (o, pcInc)) = Done (o1, p1) /\
    stepped o a prevLine off (if emit then flat_map (var_events f i off) (localVariableDebug f) else []) o1 p1 a1 prevLine) as (o1 & p1 & a1 & E1 & B1 & Hoff1 & Hp1 & Ha1 & N1).
  { destruct emit; [by apply EmitLocalVariable_spec|]. exists o, pcInc, a. split; [done|]. by apply stepped_nil. }
  rewrite E1. cbn [mbind outcome_bind code_ok] in *. destruct (is_invalid x).
  { destruct (IH (i + 1) bi p1 prevLine prevColumn o1 a1 off) as (o2 & a2 & l2 & E2 & B2 & N2); [done..|]. rewrite E2. exists o2, a2, l2. split_and!; [done|by eapply built_app|by rewrite ends_app, N1]. }
  destruct Hcode as (Hs & Hend & Hcode). cbn zeta. set (shown := emit || ins_CanThrow x). set (column := is_dynamic f && emit).
  assert (exists o2 p2 a2, (if shown then EmitLineNumber x prevLine p1 o1 else Done (o1, prevLine, p1)) = Done (o2, if shown then lineNumber x else prevLine, p2) /\
    stepped o1 a1 prevLine off (if shown && (lineNumber x != prevLine) then [ELine off (lineNumber x)] else []) o2 p2 a2 (if shown then lineNumber x else prevLine))
    as (o2 & p2 & a2 & E2 & B2 & Hoff2 & Hp2 & Ha2 & N2).
  { destruct shown; [by apply EmitLineNumber_spec|]. exists o1, p1, a1. split; [done|]. by apply stepped_nil. }
  rewrite E2. cbn [mbind outcome_bind]. set (line := if shown then lineNumber x else prevLine) in *.
  assert (Hline : 0 <= line < line_limit) by (unfold line; destruct shown; [apply (io_line x Hx)|done]).
  assert (exists o3 p3 a3, (if column then EmitColumnNumber x prevColumn p2 o2 else Done (o2, prevColumn, p2)) = Done (o3, if column then columnNumber x else prevColumn, p3) /\
    stepped o2 a2 line off (if column && (columnNumber x != prevColumn) then [EColumn off (columnNumber x)] else []) o3 p3 a3 line)
    as (o3 & p3 & a3 & E3 & B3 & Hoff3 & Hp3 & Ha3 & N3).
  { destruct column; [by apply EmitColumnNumber_spec|]. exists o2, p2, a2. split; [done|]. by apply stepped_nil. }
  rewrite E3. cbn [mbind outcome_bind]. set (col := if column then columnNumber x else prevColumn).
  assert (Hcol' : in_u 32 col) by (unfold col; destruct column; [pose proof (io_column x Hx); unfold in_u; lia|done]).
  rewrite (wrapu_id 32) by (unfold in_u, code_limit in *; lia).
  destruct (IH (i + 1) (drop (Z.to_nat (GetSize bi)) bi) (p3 + GetSize bi) line col o3 a3 (off + GetSize bi)) as (o4 & a4 & l4 & E4 & B4 & N4); try done; try lia.
  rewrite E4. exists o4, a4, l4. split_and!; [done| |by rewrite ends_app, N1; cbn [fst snd]; rewrite ends_app, N2; cbn [fst snd]; rewrite ends_app, N3].
  repeat (eapply built_app; [eassumption|]). exact B4.
Qed.
End Functions.
