(* ===== verification/DebugItem.v ===== *)
(** The debug information item: its bytes, their number, and what the accessor reads from them. *)
From S2P Require Import Prelude Leb128 LineProgram DebugInfo LineProgramOps.
From stdpp Require Import list.
Local Open Scope Z_scope.
Local Open Scope ark_scope.
Import DebugInfo.

(** ** Writing *)
Lemma WriteUleb128_eq w v written : w = 32 \/ w = 64 -> in_u 32 v -> WriteUleb128 w v written = Done (written ++ uleb v).
Proof.
  intros Hw Hv. destruct (uleb_encoded w v Hw Hv) as [E L]. unfold WriteUleb128. rewrite E. cbn [mbind outcome_bind]. by rewrite into_exact.
Qed.

(** The fields of an item fit the numbers of the file. *)
Record item_ok (item : DebugInfoItem) (index : Z) : Prop := {
  ok_line : in_u 32 (lineNum_ item);
  ok_params : Forall (fun p => in_u 32 (parameter_offset p)) (parameters_ item);
  ok_nparams : in_u 32 (Z.of_nat (length (parameters_ item)));
  ok_npool : in_u 32 (Z.of_nat (length (constantPool item)));
  ok_pool : bytes_ok (constantPool item);
  ok_index : in_u 32 index;
}.

Definition params_bytes (params : list (option Z)) : list Z := flat_map (fun p => uleb (parameter_offset p)) params.

Definition pool_bytes (item : DebugInfoItem) (index : Z) : list Z := uleb (Z.of_nat (length (constantPool item))) ++ constantPool item ++ uleb index.

Definition item_bytes (item : DebugInfoItem) (index : Z) : list Z :=
  uleb (lineNum_ item) ++ uleb (Z.of_nat (length (parameters_ item))) ++ params_bytes (parameters_ item) ++ pool_bytes item index.

Lemma Write_parameters_eq params written :
  Forall (fun p => in_u 32 (parameter_offset p)) params -> Write_parameters params written = Done (written ++ params_bytes params).
Proof.
  intros Hps. revert written. induction Hps as [|p params Hp Hps IH]; intros written; cbn [Write_parameters params_bytes flat_map]; [by rewrite app_nil_r|].
  rewrite WriteUleb128_eq by auto. cbn [mbind outcome_bind]. rewrite IH, <- app_assoc. done.
Qed.

Lemma Write_eq item index written : item_ok item index -> Write item index written = Done (written ++ item_bytes item index).
Proof.
  intros [Hl Hp Hn Hc Hb Hi]. unfold Write, WriteBytes, item_bytes, pool_bytes. rewrite WriteUleb128_eq by auto. cbn [mbind outcome_bind]. rewrite WriteUleb128_eq by auto. cbn [mbind outcome_bind].
  rewrite Write_parameters_eq by done. cbn [mbind outcome_bind]. rewrite WriteUleb128_eq by auto. cbn [mbind outcome_bind]. rewrite WriteUleb128_eq by auto. by rewrite <- !app_assoc.
Qed.

Lemma params_size params : Forall (fun p => in_u 32 (parameter_offset p)) params ->
  foldr (fun p n => Leb128.UnsignedEncodingSize 32 (parameter_offset p) + n) 0 params = Z.of_nat (length (params_bytes params)).
Proof.
  induction 1 as [|p params Hp Hps IH]; [done|]. cbn [foldr params_bytes flat_map]. rewrite IH, length_app, Nat2Z.inj_add. by destruct (uleb_encoded 32 _ (or_introl eq_refl) Hp) as [_ <-].
Qed.

(** [CalculateSize] is the number of bytes that [Write] writes. *)
Lemma CalculateSize_item_eq item index : item_ok item index -> CalculateSize_item item index = Z.of_nat (length (item_bytes item index)).
Proof.
  intros [Hl Hp Hn Hc Hb Hi]. unfold CalculateSize_item, item_bytes, pool_bytes. rewrite !length_app, !Nat2Z.inj_add.
  destruct (uleb_encoded 64 _ (or_intror eq_refl) Hl) as [_ <-]. destruct (uleb_encoded 64 _ (or_intror eq_refl) Hn) as [_ <-]. destruct (uleb_encoded 64 _ (or_intror eq_refl) Hc) as [_ <-].
  destruct (uleb_encoded 32 _ (or_introl eq_refl) Hi) as [_ <-].
  rewrite params_size by done. lia.
Qed.

(** ** Reading *)
Lemma params_bytes_ok params : bytes_ok (params_bytes params).
Proof. induction params as [|p params IH]; [constructor|]. apply Forall_app. split; [apply ubytes_ok|done]. Qed.

Lemma pool_bytes_ok item index : bytes_ok (constantPool item) -> bytes_ok (pool_bytes item index).
Proof. intros Hp. apply Forall_app. split; [apply ubytes_ok|]. apply Forall_app. split; [done|apply ubytes_ok]. Qed.

Lemma read_parameters_eq params suf :
  Forall (fun p => in_u 32 (parameter_offset p)) params -> bytes_ok suf -> read_parameters (length params) (params_bytes params ++ suf) = Done (parameter_offset <$> params, suf).
Proof.
  intros Hps Hs. induction Hps as [|p params Hp Hps IH]; [done|]. cbn [length read_parameters params_bytes flat_map]. rewrite <- app_assoc.
  rewrite ReadULeb128_eq by first [done | apply Forall_app; split; [apply params_bytes_ok|done]]. cbn [mbind outcome_bind]. unfold params_bytes in IH. rewrite IH. done.
Qed.

Section Reading.
Context (item : DebugInfoItem) (index : Z) (tail : list Z).
Hypothesis Hitem : item_ok item index.
Hypothesis Htail : bytes_ok tail.

(** The accessor at the start, after the parameters and after the pool. *)
Definition at_start := mkAccessor (item_bytes item index ++ tail) (lineNum_ item) (Z.of_nat (length (parameters_ item))) (params_bytes (parameters_ item) ++ pool_bytes item index ++ tail) None None 0.

Lemma new_accessor_eq : new_accessor (item_bytes item index ++ tail) = Done at_start.
Proof.
  destruct Hitem as [Hl Hp Hn Hc Hb Hi]. unfold new_accessor, item_bytes. rewrite <- !app_assoc.
  assert (H2 : bytes_ok (pool_bytes item index ++ tail)) by (apply Forall_app; split; [by apply pool_bytes_ok|done]).
  assert (H1 : bytes_ok (params_bytes (parameters_ item) ++ pool_bytes item index ++ tail)) by (apply Forall_app; split; [apply params_bytes_ok|done]).
  rewrite ReadULeb128_eq by first [done | apply Forall_app; split; [apply ubytes_ok|done]]. cbn [mbind outcome_bind]. rewrite ReadULeb128_eq by done. cbn [mbind outcome_bind].
  unfold at_start, item_bytes. by rewrite <- !app_assoc.
Qed.

Definition at_pool := {| at_start with constantPoolSizeSp_ := Some (pool_bytes item index ++ tail) |}.

Lemma EnumerateParameters_eq : EnumerateParameters at_start = Done (parameter_offset <$> parameters_ item, at_pool).
Proof.
  destruct Hitem as [Hl Hp Hn Hc Hb Hi]. unfold EnumerateParameters. cbn [at_start numParams_ parametersSp_]. rewrite Nat2Z.id.
  rewrite read_parameters_eq; [done|done|]. apply Forall_app. split; [by apply pool_bytes_ok|done].
Qed.

Definition at_program := {| at_pool with lineNumProgramOffSp_ := Some (uleb index ++ tail) |}.

Lemma pool_read sz : let a := {| at_pool with item_size_ := sz |} in
  GetConstantPool a = Done (constantPool item, {| at_program with item_size_ := sz |}) /\ GetConstantPool {| at_program with item_size_ := sz |} = Done (constantPool item, {| at_program with item_size_ := sz |}).
Proof.
  destruct Hitem as [Hl Hp Hn Hc Hb Hi]. cbn zeta.
  assert (Hrest : bytes_ok (constantPool item ++ uleb index ++ tail)) by (apply Forall_app; split; [done|]; apply Forall_app; split; [apply ubytes_ok|done]).
  assert (E : ReadULeb128 (pool_bytes item index ++ tail) = Done (Z.of_nat (length (constantPool item)), constantPool item ++ uleb index ++ tail))
    by (unfold pool_bytes; rewrite <- !app_assoc; by apply ReadULeb128_eq).
  unfold GetConstantPool. cbn [at_pool at_program at_start constantPoolSizeSp_ mbind outcome_bind]. rewrite E. cbn [mbind outcome_bind].
  rewrite Nat2Z.id, length_app, (proj2 (Z.leb_le _ _)), take_app_length, drop_app_length by lia. done.
Qed.

(** From the start, or after the parameters were read, the accessor gives the program, then the pool, and knows the size of the item. *)
Lemma program_and_pool resolve a : a = at_start \/ a = at_pool ->
  exists a1 a2, GetLineNumberProgram resolve a = Done (resolve index, a1) /\ GetConstantPool a1 = Done (constantPool item, a2) /\ lineStart_ a1 = lineNum_ item /\
    item_size_ a1 = Z.of_nat (length (item_bytes item index)).
Proof.
  intros Ha. pose proof (ok_index item index Hitem) as Hi. assert (E0 : GetConstantPool at_pool = Done (constantPool item, at_program)) by apply (pool_read 0).
  assert (Ep : SkipConstantPool a = Done at_program).
  { unfold SkipConstantPool. destruct Ha as [-> | ->]; [|by rewrite E0].
    assert (Ef : GetConstantPool at_start = GetConstantPool at_pool) by (unfold GetConstantPool, SkipParameters; cbn [at_start constantPoolSizeSp_ at_pool]; fold at_start; rewrite EnumerateParameters_eq; done).
    by rewrite Ef, E0. }
  assert (En : lineNumProgramOffSp_ a = None) by (by destruct Ha as [-> | ->]).
  unfold GetLineNumberProgram. rewrite En, Ep. cbn [mbind outcome_bind]. cbn [at_program lineNumProgramOffSp_]. rewrite ReadULeb128_eq by done. cbn [mbind outcome_bind].
  set (sz := _ - _). exists {| at_program with item_size_ := sz |}, {| at_program with item_size_ := sz |}. split_and!; [done|apply pool_read|done|].
  cbn [item_size_ at_program at_pool at_start]. unfold sz. cbn [span at_program at_pool at_start]. rewrite length_app. lia.
Qed.
End Reading.
