(* ===== verification/DebugTheorems.v ===== *)
(** The debug information of a function, from the assembler through the file to its readers. *)
From S2P Require Import Prelude Leb128 LineProgram DebugInfo LineProgramOps DebugBuild DebugItem.
From stdpp Require Import list strings.
Local Open Scope Z_scope.
Local Open Scope ark_scope.
Import DebugInfo.

Section Emission.
Context `{Tables}.

Definition first_line (f : Function_) : Z := match ins f with [] => 0 | x :: _ => lineNumber x end.
Definition fun_events (f : Function_) (bytecode : list Z) (emit : bool) : list Event := events f emit 0 (ins f) bytecode 0 (first_line f) (2 ^ 32 - 1).

(** The operations in front that name the source file. *)
Lemma EmitDebugInfo_spec f bytecode rec emit item :
  fun_ok f bytecode -> program_ item = [] -> constantPool item = [] -> lineNum_ item = 0 ->
  exists ops, let es := fun_events f bytecode emit in
    EmitDebugInfo f bytecode rec emit item = Done (mkItem (first_line f) (data_of ops ++ [END_SEQUENCE]) (pool_of ops) (parameters_ item)) /\
    Forall op_ok ops /\ trace ops 0 (first_line f) = (es, fst (ends es 0 (first_line f)), snd (ends es 0 (first_line f))).
Proof.
  intros [Hins Hvars Hcode Hstr] Eprog Epool Eline. cbn zeta. unfold EmitDebugInfo. rewrite Eprog, Epool, Eline.
  assert (exists o1, (if negb (bool_decide (sourceFile f = "")%string) && negb (bool_decide (sourceFile f = rec)) then
         o ← (if negb (bool_decide (sourceCode f = "")%string) then EmitSetSourceCode (Some (String_offset (sourceCode f))) (mkOut [] []) else Done (mkOut [] []));
         EmitSetFile (Some (String_offset (sourceFile f))) o else Done (mkOut [] [])) = Done o1 /\ built (mkOut [] []) o1 0 (first_line f) [] 0 (first_line f)) as (o1 & E1 & B1).
  { destruct (_ && _); [|eexists; split; [done|apply built_nil]]. destruct (negb _).
    - destruct (EmitSetSourceCode_spec (String_offset (sourceCode f)) (mkOut [] []) (Hstr _)) as (o & E & He). rewrite E. cbn [mbind outcome_bind].
      destruct (EmitSetFile_spec (String_offset (sourceFile f)) o (Hstr _)) as (o' & E' & He'). exists o'. split; [done|].
      exists ([OSource (String_offset (sourceCode f))] ++ [OFile (String_offset (sourceFile f))]). split_and!; [by eapply emits_app| |done]. constructor; [apply Hstr|]. constructor; [apply Hstr|constructor].
    - destruct (EmitSetFile_spec (String_offset (sourceFile f)) (mkOut [] []) (Hstr _)) as (o' & E' & He'). exists o'. split; [done|].
      eexists. split_and!; [exact He'| |done]. constructor; [apply Hstr|constructor]. }
  rewrite E1. cbn [mbind outcome_bind].
  assert (exists o2, BuildLineNumberProgram f bytecode emit 0 o1 = Done (first_line f, EmitEnd o2) /\
    built o1 o2 0 (first_line f) (fun_events f bytecode emit) (fst (ends (fun_events f bytecode emit) 0 (first_line f))) (snd (ends (fun_events f bytecode emit) 0 (first_line f)))) as (o2 & E2 & B2).
  { unfold BuildLineNumberProgram, fun_events, first_line. destruct (ins f) as [|x rest] eqn:Ef; [eexists; split; [done|apply built_nil]|]. pose proof (Forall_inv Hins) as Hx.
    rewrite line_of_ins, wrapu_id by (first [done|destruct Hx; unfold in_u, line_limit in *; lia]).
    destruct (Build_loop_spec f emit 0 (x :: rest) bytecode 0 (lineNumber x) (2 ^ 32 - 1) o1 0 0) as (o2 & a' & l' & E & B & N); try done; [apply (io_line x Hx)|].
    rewrite E. exists o2. split; [done|]. rewrite N. exact B. }
  rewrite E2. cbn [mbind outcome_bind]. destruct (built_app _ _ _ _ _ [] _ _ _ _ _ B1 B2) as (ops & [D P] & Hok & T). cbn [app data_ pool] in D, P, T.
  exists ops. split_and!; [|done|done]. cbn [EmitEnd EmitOpcode data_ pool]. rewrite D, P. done.
Qed.

(** ** The item in the file *)
(** The numbers of parameters and of bytes in the pool, and the index of the program, are 32 bits wide. *)
Definition fits (item : DebugInfoItem) (index : Z) : Prop :=
  in_u 32 (Z.of_nat (length (parameters_ item))) /\ in_u 32 (Z.of_nat (length (constantPool item))) /\ in_u 32 index.

Lemma SetCodeAndDebugInfo_item f emit nparams item0 :
  SetCodeAndDebugInfo f emit nparams = Some item0 -> (forall s, in_u 32 (String_offset s)) ->
  program_ item0 = [] /\ constantPool item0 = [] /\ lineNum_ item0 = 0 /\ Forall (fun p => in_u 32 (parameter_offset p)) (parameters_ item0).
Proof.
  intros E Hstr. unfold SetCodeAndDebugInfo in E. destruct (_ && _); [done|]. injection E as <-. split_and!; try done. destruct emit; cbn [parameters_].
  - apply Forall_fmap, Forall_true. intros v. apply Hstr.
  - apply Forall_replicate. cbn. unfold in_u. lia.
Qed.

Lemma first_line_ok f bytecode : fun_ok f bytecode -> 0 <= first_line f < line_limit.
Proof. intros [Hins _ _ _]. unfold first_line. destruct (ins f) as [|x rest]; [done|]. apply (io_line x), (Forall_inv Hins). Qed.

(** What is written for a function and read from it: the operations of its events. *)
Record in_file (f : Function_) (bytecode : list Z) (emit : bool) (item : DebugInfoItem) (index : Z) (ops : list Op) : Prop := {
  if_item : item_ok item index;
  if_line : lineNum_ item = first_line f;
  if_program : program_ item = data_of ops ++ [END_SEQUENCE];
  if_pool : constantPool item = pool_of ops;
  if_ops : Forall op_ok ops;
  if_trace : trace ops 0 (first_line f) = (fun_events f bytecode emit, fst (ends (fun_events f bytecode emit) 0 (first_line f)), snd (ends (fun_events f bytecode emit) 0 (first_line f)));
}.

Lemma emitted_in_file f bytecode rec emit nparams item0 index :
  fun_ok f bytecode -> SetCodeAndDebugInfo f emit nparams = Some item0 ->
  exists item, EmitDebugInfo f bytecode rec emit item0 = Done item /\ parameters_ item = parameters_ item0 /\
    (fits item index -> Write item index [] = Done (item_bytes item index) /\ exists ops, in_file f bytecode emit item index ops).
Proof.
  intros Hf E0. destruct (SetCodeAndDebugInfo_item _ _ _ _ E0 (fo_strings _ _ Hf)) as (Hp & Hc & Hl & Hps). destruct (EmitDebugInfo_spec f bytecode rec emit item0 Hf Hp Hc Hl) as (ops & E & Hok & T).
  eexists. split; [exact E|]. split; [done|]. intros (F1 & F2 & F3). cbn [parameters_ constantPool] in *.
  assert (Hitem : item_ok (mkItem (first_line f) (data_of ops ++ [END_SEQUENCE]) (pool_of ops) (parameters_ item0)) index).
  { pose proof (first_line_ok f bytecode Hf). split; try done; [unfold in_u, line_limit in *; cbn; lia|apply pool_of_ok]. }
  split; [by rewrite Write_eq|]. by exists ops.
Qed.

(** ** The readers *)
Lemma Process_ops {T} `{Handler T} f bytecode emit item index ops ptail h file :
  in_file f bytecode emit item index ops -> keeps_pool ->
  let st := new_LineProgramState file (lineNum_ item) (constantPool item) in
  Process (program_ item ++ ptail) h st = '(h', st') ← exec ops [] (ProcessBegin h st) st; Done (ProcessEnd h' st', st').
Proof.
  intros [Hi Hl Hp Hc Hok T'] Hk. cbn zeta. unfold Process. rewrite Hp, <- app_assoc. cbn [app]. rewrite (process_ops _ ops ptail []); try done; [constructor|by rewrite app_nil_r|].
  rewrite length_app. lia.
Qed.

Lemma GetLineNumber_events f bytecode emit item index ops tail resolve ptail off :
  fun_ok f bytecode -> in_file f bytecode emit item index ops -> bytes_ok tail -> resolve index = program_ item ++ ptail ->
  GetLineNumber resolve (Some (item_bytes item index ++ tail)) off =
    Done (resolve_events off (first_line f) (fun_events f bytecode emit) (snd (ends (fun_events f bytecode emit) 0 (first_line f)))).
Proof.
  intros Hf Hin Htail Hres. pose proof (if_item _ _ _ _ _ _ Hin) as Hitem. unfold GetLineNumber. rewrite new_accessor_eq by done. cbn [mbind outcome_bind].
  destruct (program_and_pool item index tail Hitem Htail resolve _ (or_introl eq_refl)) as (a1 & a2 & E1 & E2 & L & _). rewrite E1. cbn [mbind outcome_bind]. rewrite E2, Hres, L. cbn [mbind outcome_bind].
  rewrite (Process_ops f bytecode emit item index ops) by (done || apply resolver_keeps). pose proof (first_line_ok f bytecode Hf). pose proof (if_trace _ _ _ _ _ _ Hin) as T.
  set (st := new_LineProgramState _ _ _). assert (Er : ProcessBegin (new_resolver st off) st = mkResolver off (first_line f) 0).
  { unfold new_resolver, st. cbn. rewrite (if_line _ _ _ _ _ _ Hin), wrapu_id; [done|]. unfold in_u, line_limit in *. lia. }
  rewrite <- (if_line _ _ _ _ _ _ Hin) in T at 1. destruct (resolver_exec ops [] off (first_line f) st _ _ _ T) as (r & st' & Ee & Ef).
  rewrite Er, Ee. cbn [mbind outcome_bind]. by rewrite Ef.
Qed.

(** ** The line of an offset *)
(** The instruction with the byte at offset [off]. *)
Fixpoint instruction_at (rest : list Ins) (bi : list Z) (start off : Z) : option Ins :=
  match rest with
  | [] => None
  | x :: rest =>
      if is_invalid x then instruction_at rest bi start off
      else if (start <=? off) && (off <? start + GetSize bi) then Some x
      else instruction_at rest (drop (Z.to_nat (GetSize bi)) bi) (start + GetSize bi) off
  end.

Definition is_line (e : Event) : bool := match e with ELine _ _ => true | _ => false end.

Definition resolved (off prev : Z) (es : list Event) (a : Z) : Z := resolve_events off prev es (snd (ends es a prev)).

Lemma resolved_skip off prev es es' a : Forall (fun e => is_line e = false) es -> exists a', resolved off prev (es ++ es') a = resolved off prev es' a'.
Proof. intros Hes. revert a. induction Hes as [|e es He Hes IH]; intros a; [by exists a|]. destruct e; [done|..]; apply IH. Qed.

Lemma var_events_skip f (emit : bool) i off : Forall (fun e => is_line e = false) (if emit then flat_map (var_events f i off) (localVariableDebug f) else []).
Proof.
  destruct emit; [|constructor]. apply Forall_flat_map, Forall_true. intros v. unfold var_events. destruct (IsParameter f (reg v)); [constructor|].
  apply Forall_app. split; destruct (bool_decide _); repeat constructor.
Qed.

Lemma column_skip (b : bool) off c : Forall (fun e => is_line e = false) (if b then [EColumn off c] else []).
Proof. destruct b; repeat constructor. Qed.

(** The changes at an instruction before the offset. *)
Lemma resolved_past off prev start (shown b : bool) l c es a :
  start < off -> in_u 32 l ->
  exists a', resolved off prev ((if shown && (l != prev) then [ELine start l] else []) ++ (if b then [EColumn start c] else []) ++ es) a = resolved off (if shown then l else prev) es a'.
Proof.
  intros Hoff Hl. destruct (shown && (l != prev)) eqn:El.
  - apply andb_true_iff in El as [-> _]. unfold resolved. cbn [app resolve_events ends]. rewrite wrapu_id by done. rewrite (proj2 (Z.eqb_neq start off)), (proj2 (Z.ltb_ge off start)) by lia.
    apply (resolved_skip off l), column_skip.
  - assert (Ep : (if shown then l else prev) = prev) by (destruct shown; [by apply negb_false_iff, bool_decide_eq_true in El|done]). rewrite Ep. cbn [app]. apply resolved_skip, column_skip.
Qed.

(** Behind the instruction its line stays: the next change of lines is at a greater offset. *)
Lemma resolved_behind f emit i rest bi start prev col off a :
  Forall ins_ok rest -> code_ok rest bi start -> off < start -> 1 <= prev < line_limit -> resolved off prev (events f emit i rest bi start prev col) a = prev.
Proof.
  intros Hrest. revert i bi start col a. induction Hrest as [|x rest Hx Hrest IH]; intros i bi start col a Hcode Hoff Hprev; cbn [events].
  { apply wrapu_id. unfold in_u, line_limit in *. lia. }
  cbn zeta. edestruct resolved_skip as (a' & ->); [apply var_events_skip|].
  cbn [code_ok] in Hcode. destruct (is_invalid x); [by apply IH|]. destruct Hcode as (Hs & Hc & Hcode). destruct (_ && (lineNumber x != prev)) eqn:El.
  - unfold resolved. cbn [app resolve_events]. rewrite (proj2 (Z.eqb_neq start off)), (proj2 (Z.ltb_lt off start)), (proj2 (Z.eqb_neq prev 0)) by lia. done.
  - cbn [app]. edestruct resolved_skip as (a'' & ->); [apply column_skip|].
    assert (Ep : (if emit || ins_CanThrow x then lineNumber x else prev) = prev).
    { destruct (emit || ins_CanThrow x); [|done]. by apply negb_false_iff, bool_decide_eq_true in El. }
    rewrite Ep. apply IH; [done|lia|done].
Qed.

Lemma resolved_line f emit i rest bi start prev col off a x :
  Forall ins_ok rest -> code_ok rest bi start -> start <= off -> 0 <= prev < line_limit ->
  instruction_at rest bi start off = Some x -> emit || ins_CanThrow x = true -> 1 <= lineNumber x ->
  resolved off prev (events f emit i rest bi start prev col) a = lineNumber x.
Proof.
  intros Hrest. revert i bi start prev col a. induction Hrest as [|y rest Hy Hrest IH]; intros i bi start prev col a Hcode Hoff Hprev; cbn [events instruction_at]; [done|].
  intros Hat Hshown Hline. cbn zeta. edestruct resolved_skip as (a' & ->); [apply var_events_skip|]. cbn [code_ok] in Hcode. destruct (is_invalid y); [by apply IH|].
  destruct Hcode as (Hs & Hc & Hcode). rewrite (proj2 (Z.leb_le start off)) in Hat by done. cbn [andb] in Hat. pose proof (io_line y Hy) as Hl.
  assert (Hu : in_u 32 (lineNumber y)) by (unfold in_u, line_limit in *; lia).
  destruct (Z.ltb_spec off (start + GetSize bi)) as [Hin|Hout].
  - injection Hat as ->. destruct (decide (start = off)) as [->|Hne].
    + destruct (decide (lineNumber x = prev)) as [Eq|Hne].
      * rewrite (bool_decide_true (lineNumber x = prev)) by done. rewrite andb_false_r. cbn [app]. edestruct resolved_skip as (a'' & ->); [apply column_skip|].
        rewrite Hshown, <- Eq. apply resolved_behind; [done|done|lia|lia].
      * rewrite (bool_decide_false (lineNumber x = prev)), Hshown by done. unfold resolved. cbn [negb andb app resolve_events]. by rewrite wrapu_id, Z.eqb_refl.
    + edestruct resolved_past as (a'' & ->); [lia|done|]. rewrite Hshown. apply resolved_behind; [done|done|lia|lia].
  - edestruct resolved_past as (a'' & ->); [lia|done|]. apply IH; try done. destruct (emit || ins_CanThrow y); lia.
Qed.
End Emission.

(** C13: the debug information that the assembler emits for a function - the line number program with its constant pool, the item that is
    written, as long as its computed size - gives [GetLineNumber], for every offset inside an instruction whose line was to be recorded
    and is at least 1 (0 stands for no line, [line_zero_is_next]), the line of that instruction, whatever bytes follow the item and the
    program in the file.  Instructions have a positive size, the code is at most 2^28 bytes, lines are below 2^31 - 4 and columns below
    2^31, registers are 32-bit signed, and string offsets, the index of the program and the numbers of parameters and of constants fit
    32 bits. *)
Theorem GetLineNumber_gives_line `{Tables} f bytecode rec emit nparams item0 index :
  fun_ok f bytecode -> SetCodeAndDebugInfo f emit nparams = Some item0 ->
  exists item, EmitDebugInfo f bytecode rec emit item0 = Done item /\
    (fits item index -> exists bytes, Write item index [] = Done bytes /\ Z.of_nat (length bytes) = CalculateSize_item item index /\
      forall tail resolve ptail off x, bytes_ok tail -> resolve index = program_ item ++ ptail ->
        0 <= off -> instruction_at (ins f) bytecode 0 off = Some x -> emit || ins_CanThrow x = true -> 1 <= lineNumber x ->
        GetLineNumber resolve (Some (bytes ++ tail)) off = Done (lineNumber x)).
Proof.
  intros Hf E0. destruct (emitted_in_file f bytecode rec emit nparams item0 index Hf E0) as (item & E & _ & Hw). exists item. split; [done|].
  intros Hfits. destruct (Hw Hfits) as (Ew & ops & Hin). exists (item_bytes item index). split_and!; [done|symmetry; apply CalculateSize_item_eq, (if_item _ _ _ _ _ _ Hin)|].
  intros tail resolve ptail off x Htail Hres Hoff Hat Hshown Hline. rewrite (GetLineNumber_events f bytecode emit item index ops tail resolve ptail) by done. f_equal.
  destruct Hf as [Hins Hvars Hcode Hstr] eqn:Ef. apply resolved_line; try done. by apply (first_line_ok f bytecode).
Qed.

(** A function of three instructions of two bytes and a label, with two variables in one register. *)
Definition sample_tables : Tables := {| String_offset s := if bool_decide (s = "x")%string then 1000 else 70; GetSize _ := 2 |}.
Definition sample : Function_ := {|
  ins := [mkIns false false 3 0; mkIns true false 0 0; mkIns false false 5 7; mkIns false true 20 1];
  localVariableDebug := [mkVariable "x" "I" "" 0 0 2; mkVariable "y" "I" "T" 0 2 2; mkVariable "p" "I" "" 1 0 4];
  regsNum := 1; is_dynamic := true; sourceFile := "f"; sourceCode := "";
|}.

Lemma sample_ok : @fun_ok sample_tables sample [].
Proof.
  split.
  - cbn. repeat constructor; cbn; unfold line_limit; lia.
  - cbn. repeat constructor; cbn; unfold in_s; lia.
  - cbn. unfold code_limit. lia.
  - intros s. cbn. destruct (bool_decide _); unfold in_u; lia.
Qed.

Lemma GetLineNumber_witness : exists item bytes, @EmitDebugInfo sample_tables sample [] "" true (mkItem 0 [] [] [Some 70]) = Done item /\ Write item 7 [] = Done bytes /\
  GetLineNumber (fun _ => program_ item ++ [9]) (Some (bytes ++ [255])) 3 = Done 5.
Proof.
  destruct (@GetLineNumber_gives_line sample_tables sample [] "" true 1 (mkItem 0 [] [] [Some 70]) 7 sample_ok) as (item & E & Hw); [reflexivity|].
  assert (Hfits : fits item 7) by (vm_compute in E; injection E as <-; vm_compute; split_and!; congruence).
  destruct (Hw Hfits) as (bytes & Ew & _ & Hl). exists item, bytes. split; [exact E|]. split; [exact Ew|].
  apply (Hl _ _ [9] 3 (mkIns false false 5 7)); [constructor; [unfold in_u; lia|constructor]|reflexivity|lia|reflexivity|reflexivity|cbn; lia].
Defined.
