(* ===== verification/DebugTables.v ===== *)
(** The tables that DebugInfoExtractor makes of the debug information of a function: lines, columns and local variables. *)
From S2P Require Import Prelude Leb128 LineProgram DebugInfo LineProgramOps DebugBuild DebugItem DebugTheorems.
From stdpp Require Import gmap list sets strings sorting.
Local Open Scope Z_scope.
Local Open Scope ark_scope.
Import DebugInfo.

(** ** Tables of events *)
Definition lines_of (es : list Event) : list (Z * Z) := omap (fun e => match e with ELine a l => Some (a, l) | _ => None end) es.
Definition columns_of (es : list Event) : list (Z * Z) := omap (fun e => match e with EColumn a c => Some (a, c) | _ => None end) es.

Fixpoint vars_of (es : list Event) (vars : list LocalVariableInfo) : option (list LocalVariableInfo) :=
  match es with
  | [] => Some vars
  | EStart a reg name type sig :: es => vars_of es (vars ++ [mkLocal name type sig reg a 0])
  | EEnd a reg :: es => end_local reg a vars ≫= vars_of es
  | _ :: es => vars_of es vars
  end.

Lemma vars_of_app es1 es2 vars : vars_of (es1 ++ es2) vars = vars_of es1 vars ≫= vars_of es2.
Proof. revert vars. induction es1 as [|e es1 IH]; intros vars; [done|]. destruct e; cbn [app vars_of]; try apply IH. destruct (end_local _ _ _); [apply IH|done]. Qed.

Definition column_ok (e : Event) : Prop := match e with EColumn _ c => 0 <= c < 2 ^ 31 | _ => True end.

Lemma tabulate_eq es h : Forall column_ok es ->
  tabulate es h = match vars_of es (lvt_ h) with Some vars => Done (mkHandler (lnt_ h ++ lines_of es) vars (cnt_ h ++ columns_of es)) | None => Crash end.
Proof.
  intros Hes. revert h. induction Hes as [|e es He Hes IH]; intros h; cbn [tabulate vars_of].
  { cbn. rewrite !app_nil_r. by destruct h. }
  destruct e as [a l|a c|a reg name type sig|a reg]; cbn [lines_of columns_of omap list_omap]; try rewrite IH; cbn [lnt_ lvt_ cnt_].
  - by rewrite <- app_assoc.
  - cbn in He. rewrite wraps_id, wrapu_id, <- app_assoc by (unfold in_u, in_s; lia). done.
  - done.
  - destruct (end_local reg a (lvt_ h)) as [vars|]; [|done]. rewrite IH. done.
Qed.

(** ** Starts and ends of variables *)
(** Variable number [a_var] starts or ends at instruction [a_ins], whose offset is [a_off]. *)
Record Act := mkAct { a_ins : Z; a_var : nat; a_end : bool; a_off : Z }.

(** The order in which they are emitted. *)
Definition earlier (a b : Act) : Prop :=
  a_ins a < a_ins b \/ a_ins a = a_ins b /\ ((a_var a < a_var b)%nat \/ a_var a = a_var b /\ a_end a = false /\ a_end b = true).

Lemma earlier_irrefl a : ~ earlier a a.
Proof. unfold earlier. intros [|(_ & [|(_ & E1 & E2)])]; [lia|lia|congruence]. Qed.

Lemma earlier_asym a b : earlier a b -> ~ earlier b a.
Proof. unfold earlier. intros [|(E & [|(E' & E1 & E2)])] [|(F & [|(F' & F1 & F2)])]; lia || congruence. Qed.

Definition starts (acts : list Act) : list (nat * Z) := omap (fun a => if a_end a then None else Some (a_var a, a_off a)) acts.

Fixpoint end_of (acts : list Act) (j : nat) : Z :=
  match acts with
  | [] => 0
  | a :: acts => if a_end a && (a_var a == j) then a_off a else end_of acts j
  end.

Lemma end_of_none acts j : (forall a, a ∈ acts -> a_end a = true -> a_var a <> j) -> end_of acts j = 0.
Proof.
  induction acts as [|a acts IH]; intros Hno; cbn [end_of]; [done|]. destruct (a_end a) eqn:Ee; cbn [andb]; [rewrite bool_decide_false by (apply Hno; [left|done])|]; apply IH; intros b Hb; apply Hno; by right.
Qed.

Lemma end_of_some acts a : a ∈ acts -> a_end a = true -> (forall b, b ∈ acts -> a_end b = true -> a_var b = a_var a -> a_off b = a_off a) -> end_of acts (a_var a) = a_off a.
Proof.
  intros Ha Ea Hsame. induction acts as [|b acts IH]; [set_solver|]. cbn [end_of]. destruct (a_end b && _) eqn:Eb.
  - apply andb_true_iff in Eb as [Eb Ev%bool_decide_eq_true]. apply Hsame; [left|done..].
  - apply elem_of_cons in Ha as [<-|Ha]; [by rewrite Ea, bool_decide_true in Eb|]. apply IH; [done|]. intros c Hc. apply Hsame. by right.
Qed.

Lemma end_of_app acts a j : (forall b, b ∈ acts -> a_end b = true -> a_end a = true -> a_var a = j -> a_var b <> j) ->
  end_of (acts ++ [a]) j = if a_end a && (a_var a == j) then a_off a else end_of acts j.
Proof.
  induction acts as [|b acts IH]; intros Hno; cbn [end_of app]; [done|]. rewrite IH by (intros c Hc; apply Hno; by right).
  destruct (a_end b) eqn:Eb; cbn [andb]; [|done]. destruct (decide (a_var b = j)) as [Ej|Hne]; [|by rewrite (bool_decide_false (a_var b = j))].
  rewrite (bool_decide_true (a_var b = j)) by done. destruct (a_end a) eqn:Ea; cbn [andb]; [|done]. rewrite bool_decide_false; [done|]. intros Ej'. by apply (Hno b (list_elem_of_here _ _)).
Qed.

Definition with_end (off : Z) (v : LocalVariableInfo) : LocalVariableInfo := {| v with endOffset := off |}.

Lemma end_local_none r off vars : Forall (fun v => regNumber v <> r) vars -> end_local r off vars = None.
Proof. induction 1 as [|v vars Hv Hvars IH]; cbn [end_local]; [done|]. by rewrite IH, bool_decide_false. Qed.

Lemma end_local_app r off A e B :
  regNumber e = r -> Forall (fun v => regNumber v <> r) B -> end_local r off (A ++ e :: B) = Some (A ++ with_end off e :: B).
Proof. intros He HB. induction A as [|v A IH]; cbn [app end_local]; [by rewrite end_local_none, bool_decide_true|by rewrite IH]. Qed.

Section Acts.
Context (entry : nat -> Z -> LocalVariableInfo) (reg_of : nat -> Z).
Hypothesis entry_reg : forall j s, regNumber (entry j s) = reg_of j.
Hypothesis entry_end : forall j s, endOffset (entry j s) = 0.

Fixpoint run (acts : list Act) (vars : list LocalVariableInfo) : option (list LocalVariableInfo) :=
  match acts with
  | [] => Some vars
  | a :: acts => if a_end a then end_local (reg_of (a_var a)) (a_off a) vars ≫= run acts else run acts (vars ++ [entry (a_var a) (a_off a)])
  end.

Lemma run_app acts1 acts2 vars : run (acts1 ++ acts2) vars = run acts1 vars ≫= run acts2.
Proof. revert vars. induction acts1 as [|a acts1 IH]; intros vars; cbn [app run]; [done|]. destruct (a_end a); [|apply IH]. destruct (end_local _ _ _); [apply IH|done]. Qed.

(** The variables that started, with the ends they have. *)
Definition table (acts : list Act) : list LocalVariableInfo := (fun '(j, s) => with_end (end_of acts j) (entry j s)) <$> starts acts.

(** Every end has a start before it, no other variable of its register starts in between, and nothing happens twice. *)
Record orderly (acts : list Act) : Prop := {
  or_sorted : StronglySorted earlier acts;
  or_started : forall e, e ∈ acts -> a_end e = true -> exists s, s ∈ acts /\ a_end s = false /\ a_var s = a_var e /\ earlier s e;
  or_separate : forall s e t, s ∈ acts -> e ∈ acts -> t ∈ acts -> a_end s = false -> a_end e = true -> a_end t = false -> a_var s = a_var e -> reg_of (a_var t) = reg_of (a_var s) ->
    earlier s t -> earlier t e -> a_var t = a_var s;
  or_once : forall a b, a ∈ acts -> b ∈ acts -> a_end a = a_end b -> a_var a = a_var b -> a = b;
}.

Lemma elem_of_starts acts j s : (j, s) ∈ starts acts -> exists a, a ∈ acts /\ a_end a = false /\ a_var a = j /\ a_off a = s.
Proof. intros (a & Ha & E)%list_elem_of_omap. exists a. destruct (a_end a) eqn:Ee; [done|]. by injection E as <- <-. Qed.

Lemma starts_app acts1 acts2 : starts (acts1 ++ acts2) = starts acts1 ++ starts acts2.
Proof. apply omap_app. Qed.

Lemma table_start acts a : a_end a = false -> (forall b, b ∈ acts -> a_end b = true -> a_var b <> a_var a) -> table (acts ++ [a]) = table acts ++ [entry (a_var a) (a_off a)].
Proof.
  intros Ha Hno. assert (E : forall k, end_of (acts ++ [a]) k = end_of acts k) by (intros k; rewrite end_of_app, Ha; [done|congruence]).
  unfold table. rewrite starts_app, fmap_app. f_equal.
  - apply list_fmap_ext. intros _ [k s] _. by rewrite E.
  - cbn. rewrite Ha. cbn. rewrite E, end_of_none by done. unfold with_end. specialize (entry_end (a_var a) (a_off a)). destruct (entry _ _). cbn in *. by subst.
Qed.

(** The end of the last variable of its register. *)
Lemma table_end acts1 s acts2 a :
  a_end s = false -> a_end a = true -> a_var s = a_var a -> (forall b, b ∈ acts1 ++ s :: acts2 -> a_end b = true -> a_var b <> a_var a) ->
  (forall b, b ∈ acts1 -> a_end b = false -> a_var b <> a_var a) -> (forall b, b ∈ acts2 -> a_end b = false -> reg_of (a_var b) <> reg_of (a_var a)) ->
  end_local (reg_of (a_var a)) (a_off a) (table (acts1 ++ s :: acts2)) = Some (table ((acts1 ++ s :: acts2) ++ [a])).
Proof.
  intros Hs Ha Hv Hno H1 H2. set (acts := acts1 ++ s :: acts2) in *.
  assert (Eend : forall k, end_of (acts ++ [a]) k = if a_var a == k then a_off a else end_of acts k) by (intros k; rewrite end_of_app, Ha; [done|]; intros b Hb Eb _ <-; by apply Hno).
  assert (Est : starts (acts ++ [a]) = starts acts1 ++ (a_var a, a_off s) :: starts acts2).
  { unfold acts. rewrite !starts_app. cbn [starts omap list_omap]. rewrite Ha, Hs, Hv, app_nil_r. done. }
  assert (Est' : starts acts = starts acts1 ++ (a_var a, a_off s) :: starts acts2) by (unfold acts; rewrite starts_app; cbn [starts omap list_omap]; by rewrite Hs, Hv).
  unfold table. rewrite Est, Est', !fmap_app, !fmap_cons. rewrite end_local_app.
  - f_equal. f_equal; [|f_equal].
    + apply list_fmap_ext. intros i [k t] Hk%list_elem_of_lookup_2%elem_of_starts. destruct Hk as (b & Hb & Eb & <- & <-). rewrite Eend, bool_decide_false; [done|]. intros E. by apply (H1 b).
    + by rewrite Eend, bool_decide_true.
    + apply list_fmap_ext. intros i [k t] Hk%list_elem_of_lookup_2%elem_of_starts. destruct Hk as (b & Hb & Eb & <- & <-). rewrite Eend, bool_decide_false; [done|]. intros E. apply (H2 b Hb Eb). by rewrite E.
  - cbn. apply entry_reg.
  - apply Forall_fmap, Forall_forall. intros [k t] (b & Hb & Eb & <- & <-)%elem_of_starts. cbn. rewrite entry_reg. by apply H2.
Qed.

Lemma run_table acts : orderly acts -> run acts [] = Some (table acts).
Proof.
  intros [Hsort Hst Hsep Honce]. assert (Hpre : forall pre suf, acts = pre ++ suf -> run pre [] = Some (table pre)); [|by apply (Hpre acts []); rewrite app_nil_r].
  induction pre as [|a pre IH] using rev_ind; intros suf E; [done|]. rewrite run_app, (IH (a :: suf)) by (by rewrite E, <- app_assoc). cbn [mbind option_bind run].
  assert (Hin : forall b, b ∈ pre -> b ∈ acts) by (intros b Hb; rewrite E; set_solver). assert (Ha : a ∈ acts) by (rewrite E; set_solver).
  assert (Hbefore : forall b, b ∈ pre -> earlier b a) by (intros b Hb; rewrite E in Hsort; apply StronglySorted_app_1_l in Hsort; apply (StronglySorted_app_1_elem_of _ _ _ _ _ Hsort Hb); set_solver).
  assert (Hback : forall b, b ∈ acts -> earlier b a -> b ∈ pre).
  { intros b Hb Hba. rewrite E in Hb, Hsort. apply elem_of_app in Hb as [[Hb|Hb]%elem_of_app|Hb]; [done| |].
    - apply list_elem_of_singleton in Hb as ->. by apply earlier_irrefl in Hba.
    - exfalso. apply (earlier_asym b a Hba). apply (StronglySorted_app_1_elem_of _ _ _ _ _ Hsort); [set_solver|done]. }
  destruct (a_end a) eqn:Ea.
  - destruct (Hst a Ha Ea) as (s & Hs & Es & Ev & Hlt). destruct (list_elem_of_split _ _ (Hback s Hs Hlt)) as (acts1 & acts2 & ->).
    rewrite table_end; try done.
    + intros b Hb Eb Eq. assert (b = a) as -> by (apply Honce; auto; congruence). by apply (earlier_irrefl a), Hbefore.
    + intros b Hb Eb Eq. assert (b = s) as ->. { apply Honce; auto; [|congruence..]. apply Hin. set_solver. }
      apply (earlier_irrefl s). rewrite E in Hsort. do 2 apply StronglySorted_app_1_l in Hsort. apply (StronglySorted_app_1_elem_of _ _ _ _ _ Hsort Hb). set_solver.
    + intros b Hb Eb Eq. assert (Hbin : b ∈ acts1 ++ s :: acts2) by set_solver. assert (Hsb : earlier s b).
      { rewrite E in Hsort. do 2 apply StronglySorted_app_1_l in Hsort. replace (acts1 ++ s :: acts2) with ((acts1 ++ [s]) ++ acts2) in Hsort by (by rewrite <- app_assoc).
        apply (StronglySorted_app_1_elem_of _ _ _ _ _ Hsort); [set_solver|done]. }
      assert (Eq' : a_var b = a_var s) by (apply (Hsep s a b); auto; congruence). assert (b = s) as -> by (apply Honce; auto; congruence). by apply (earlier_irrefl s).
  - rewrite table_start; [done|done|]. intros b Hb Eb Eq. destruct (Hst b (Hin b Hb) Eb) as (s & Hs & Es & Ev & Hlt). assert (s = a) as -> by (apply Honce; auto; congruence).
    by apply (earlier_asym a b), Hbefore.
Qed.
End Acts.

(** ** The variables of a function *)
Section Variables.
Context `{Tables} (f : Function_).

Definition end_ins (v : LocalVariable) : Z := start v + length_ v.

(** The numbers of a variable are 32 bits wide, and it does not end behind the last number. *)
Record var_range (v : LocalVariable) : Prop := { vr_start : 0 <= start v; vr_length : 0 <= length_ v; vr_end : end_ins v < 2 ^ 32 }.

(** Variables in one register do not overlap: where one ends at the start of another it comes first in the list. *)
Definition before (j : nat) (v : LocalVariable) (k : nat) (w : LocalVariable) : Prop := end_ins v < start w \/ end_ins v = start w /\ (j < k)%nat.
Definition separated : Prop := forall j k v w, localVariableDebug f !! j = Some v -> localVariableDebug f !! k = Some w -> j <> k -> reg v = reg w ->
  IsParameter f (reg v) = false -> before j v k w \/ before k w j v.

Definition entry_at (v : LocalVariable) (s : Z) : LocalVariableInfo :=
  mkLocal (String_offset (var_name v)) (String_offset (signature v)) (String_offset (if bool_decide (signatureType v = "")%string then signature v else signatureType v)) (reg v) s 0.

Definition nth_var (j : nat) : LocalVariable := default (mkVariable "" "" "" 0 0 0) (localVariableDebug f !! j).
Definition nth_entry (j : nat) (s : Z) : LocalVariableInfo := entry_at (nth_var j) s.
Definition nth_reg (j : nat) : Z := reg (nth_var j).

(** The offset of instruction number [n]. *)
Fixpoint offset_at (i : Z) (rest : list Ins) (bi : list Z) (off n : Z) : option Z :=
  match rest with
  | [] => None
  | x :: rest =>
      if n =? i then Some off
      else if is_invalid x then offset_at (i + 1) rest bi off n
      else offset_at (i + 1) rest (drop (Z.to_nat (GetSize bi)) bi) (off + GetSize bi) n
  end.

Lemma offset_at_lt i rest bi off n : n < i -> offset_at i rest bi off n = None.
Proof.
  revert i bi off. induction rest as [|x rest IH]; intros i bi off Hn; cbn [offset_at]; [done|]. rewrite (proj2 (Z.eqb_neq n i)) by lia.
  destruct (is_invalid x); apply IH; lia.
Qed.

Lemma offset_at_le i rest bi off m n t : i <= m <= n -> offset_at i rest bi off n = Some t -> exists s, offset_at i rest bi off m = Some s.
Proof.
  revert i bi off. induction rest as [|x rest IH]; intros i bi off Hm; cbn [offset_at]; [done|]. destruct (Z.eqb_spec m i) as [->|Hne]; [by eexists|].
  rewrite (proj2 (Z.eqb_neq n i)) by lia. destruct (is_invalid x); apply IH; lia.
Qed.

(** *** Their starts and ends *)
Definition var_acts (i off : Z) (j : nat) (v : LocalVariable) : list Act :=
  if IsParameter f (reg v) then []
  else (if i == start v then [mkAct i j false off] else []) ++ (if i == u32 (start v + length_ v) then [mkAct i j true off] else []).

Fixpoint ins_acts (i off : Z) (j : nat) (vars : list LocalVariable) : list Act :=
  match vars with [] => [] | v :: vars => var_acts i off j v ++ ins_acts i off (S j) vars end.

Fixpoint acts (i : Z) (rest : list Ins) (bi : list Z) (off : Z) : list Act :=
  match rest with
  | [] => []
  | x :: rest =>
      ins_acts i off 0 (localVariableDebug f) ++
      (if is_invalid x then acts (i + 1) rest bi off else acts (i + 1) rest (drop (Z.to_nat (GetSize bi)) bi) (off + GetSize bi))
  end.

(** The variables of the events are those of the acts. *)
Lemma vars_of_ins i off j vars lvt : (forall k, vars !! k = localVariableDebug f !! (j + k)%nat) ->
  vars_of (flat_map (var_events f i off) vars) lvt = run nth_entry nth_reg (ins_acts i off j vars) lvt.
Proof.
  revert j lvt. induction vars as [|v vars IH]; intros j lvt Hv; [done|]. cbn [flat_map ins_acts]. rewrite vars_of_app, run_app.
  assert (Ev : nth_var j = v) by (unfold nth_var; specialize (Hv 0%nat); rewrite Nat.add_0_r in Hv; by rewrite <- Hv).
  assert (E : vars_of (var_events f i off v) lvt = run nth_entry nth_reg (var_acts i off j v) lvt).
  { unfold var_events, var_acts. destruct (IsParameter f (reg v)); [done|]. destruct (bool_decide (i = start v)), (bool_decide (i = u32 _)); cbn [app vars_of run a_end a_var a_off];
      unfold nth_entry, nth_reg, entry_at; by rewrite ?Ev. }
  rewrite E. destruct (run _ _ _ _) as [lvt'|]; [|done]. apply IH. intros k. rewrite Nat.add_succ_comm. apply (Hv (S k)).
Qed.

Lemma vars_of_events i rest bi off prevLine prevCol lvt : vars_of (events f true i rest bi off prevLine prevCol) lvt = run nth_entry nth_reg (acts i rest bi off) lvt.
Proof.
  revert i bi off prevLine prevCol lvt. induction rest as [|x rest IH]; intros i bi off prevLine prevCol lvt; cbn [events acts]; [done|].
  rewrite vars_of_app, run_app, (vars_of_ins i off 0) by done. destruct (run _ _ _ _) as [lvt'|]; [|done]. cbn [mbind option_bind].
  destruct (is_invalid x); [apply IH|]. cbn zeta. rewrite !vars_of_app. destruct (bool_decide (lineNumber x = prevLine)), (is_dynamic f), (bool_decide (columnNumber x = prevCol)); cbn [orb andb negb vars_of mbind option_bind]; apply IH.
Qed.

(** *** What is in them *)
Lemma elem_of_var_acts i off j v a : a ∈ var_acts i off j v <->
  IsParameter f (reg v) = false /\ a_ins a = i /\ a_var a = j /\ a_off a = off /\ i = (if a_end a then u32 (start v + length_ v) else start v).
Proof.
  unfold var_acts. destruct (IsParameter f (reg v)); [set_solver|]. rewrite elem_of_app. split.
  - intros [Ha|Ha]; (destruct (bool_decide _) eqn:Ed; [|set_solver]); apply bool_decide_eq_true in Ed; apply list_elem_of_singleton in Ha as ->; done.
  - destruct a as [a1 a2 [] a3]; cbn; intros (_ & -> & -> & -> & Ei); [right|left]; rewrite bool_decide_true by done; by left.
Qed.

Lemma elem_of_ins_acts i off j vars a : a ∈ ins_acts i off j vars <->
  exists k v, vars !! k = Some v /\ a_var a = (j + k)%nat /\ IsParameter f (reg v) = false /\ a_ins a = i /\ a_off a = off /\ i = (if a_end a then u32 (start v + length_ v) else start v).
Proof.
  revert j. induction vars as [|v vars IH]; intros j; cbn [ins_acts]; [set_solver|]. rewrite elem_of_app, elem_of_var_acts, IH. split.
  - intros [(H1 & H2 & H3 & H4 & H5)|(k & w & H1 & H2 & H3)]; [exists 0%nat, v; split_and!; try done; lia|]. exists (S k), w. split_and!; [done|lia|naive_solver..].
  - intros ([|k] & w & H1 & H2 & H3 & H4 & H5 & H6); [left; injection H1 as ->; split_and!; try done; lia|]. right. exists k, w. split_and!; try done. lia.
Qed.

Lemma elem_of_acts i rest bi off a : a ∈ acts i rest bi off <->
  exists v, localVariableDebug f !! a_var a = Some v /\ IsParameter f (reg v) = false /\ offset_at i rest bi off (a_ins a) = Some (a_off a) /\
    a_ins a = (if a_end a then u32 (start v + length_ v) else start v).
Proof.
  revert i bi off. induction rest as [|x rest IH]; intros i bi off; cbn [acts offset_at]; [split; [set_solver|naive_solver]|].
  rewrite elem_of_app, elem_of_ins_acts. cbn [Nat.add].
  assert (Hrest : forall bi' off', a ∈ acts (i + 1) rest bi' off' <-> a_ins a <> i /\ a ∈ acts (i + 1) rest bi' off').
  { intros bi' off'. split; [|tauto]. intros Ha. split; [|done]. apply IH in Ha as (v & _ & _ & Ho & _). intros Ei. rewrite offset_at_lt in Ho by lia. done. }
  destruct (Z.eqb_spec (a_ins a) i) as [Ei|Hne].
  - destruct (is_invalid x); rewrite Hrest; naive_solver.
  - destruct (is_invalid x); rewrite IH; naive_solver.
Qed.

(** *** Their order *)
Lemma ins_acts_sorted i off j vars : StronglySorted earlier (ins_acts i off j vars).
Proof.
  revert j. induction vars as [|v vars IH]; intros j; cbn [ins_acts]; [constructor|]. apply StronglySorted_app_2; [| |apply IH].
  - intros a b Ha Hb. apply elem_of_var_acts in Ha. apply elem_of_ins_acts in Hb as (k & w & Hb). unfold earlier. right. split; [naive_solver congruence|]. left. naive_solver lia.
  - unfold var_acts. destruct (IsParameter f (reg v)); [constructor|]. destruct (bool_decide _), (bool_decide _); cbn [app]; [|repeat constructor..].
    constructor; [repeat constructor|]. constructor; [|constructor]. right. split; [done|]. by right.
Qed.

Lemma acts_sorted i rest bi off : StronglySorted earlier (acts i rest bi off).
Proof.
  revert i bi off. induction rest as [|x rest IH]; intros i bi off; cbn [acts]; [constructor|]. apply StronglySorted_app_2; [|apply ins_acts_sorted|destruct (is_invalid x); apply IH].
  intros a b Ha Hb. left. apply elem_of_ins_acts in Ha as (k & v & _ & _ & _ & -> & _). destruct (Z.lt_ge_cases i (a_ins b)) as [|Hlt]; [done|exfalso].
  destruct (is_invalid x); apply elem_of_acts in Hb as (w & _ & _ & Ho & _); rewrite offset_at_lt in Ho by lia; done.
Qed.

Section Ranges.
Hypothesis Hranges : Forall var_range (localVariableDebug f).
Hypothesis Hsep : separated.
Context (rest : list Ins) (bi : list Z).

Lemma end_ins_eq v : v ∈ localVariableDebug f -> u32 (start v + length_ v) = end_ins v.
Proof. intros Hv. rewrite Forall_forall in Hranges. destruct (Hranges v Hv) as [? ? ?]. apply wrapu_id. unfold in_u, end_ins in *. lia. Qed.

Lemma elem_of_acts_ins a : a ∈ acts 0 rest bi 0 -> exists v, localVariableDebug f !! a_var a = Some v /\ nth_var (a_var a) = v /\ IsParameter f (reg v) = false /\
  offset_at 0 rest bi 0 (a_ins a) = Some (a_off a) /\ a_ins a = (if a_end a then end_ins v else start v) /\ var_range v.
Proof.
  intros (v & Hv & Hp & Ho & Hi)%elem_of_acts. pose proof (list_elem_of_lookup_2 _ _ _ Hv) as Hin. exists v. rewrite (end_ins_eq v Hin) in Hi. rewrite Forall_forall in Hranges.
  split_and!; auto. unfold nth_var. by rewrite Hv.
Qed.

Lemma acts_orderly : orderly nth_reg (acts 0 rest bi 0).
Proof.
  split.
  - apply acts_sorted.
  - intros e He Ee. apply elem_of_acts_ins in He as (v & Hv & _ & Hp & Ho & Hi & [Hr1 Hr2 Hr3]). rewrite Ee in Hi. unfold end_ins in *.
    destruct (offset_at_le 0 rest bi 0 (start v) (a_ins e) (a_off e)) as (s & Hs); [lia|done|]. exists (mkAct (start v) (a_var e) false s). split_and!; try done.
    + apply elem_of_acts. by exists v.
    + unfold earlier. cbn. destruct (decide (length_ v = 0)); [right|left; lia]. split; [lia|]. by right.
  - intros s e t Hs He Ht Es Ee Et Ev Er Hst Hte. destruct (decide (a_var t = a_var s)) as [|Hne]; [done|exfalso].
    apply elem_of_acts_ins in Hs as (v & Hv & Nv & Hp & _ & Hi & [Hr1 Hr2 Hr3]). apply elem_of_acts_ins in He as (v' & Hv' & _ & _ & _ & Hi' & _).
    apply elem_of_acts_ins in Ht as (w & Hw & Nw & _ & _ & Hi'' & [Hr1' Hr2' Hr3']). rewrite Es in Hi. rewrite Ee in Hi'. rewrite Et in Hi''. rewrite <- Ev, Hv in Hv'. injection Hv' as <-.
    unfold nth_reg in Er. rewrite Nv, Nw in Er. destruct (Hsep _ _ v w Hv Hw) as [Hb|Hb]; [done|done|done|..]; unfold before, earlier, end_ins in *; lia.
  - intros a b Ha Hb Ee Ev. apply elem_of_acts_ins in Ha as (v & Hv & _ & _ & Ho & Hi & _). apply elem_of_acts_ins in Hb as (w & Hw & _ & _ & Ho' & Hi' & _).
    destruct a as [a1 a2 a3 a4], b as [b1 b2 b3 b4]. cbn in *. subst a2 a3. rewrite Hv in Hw. injection Hw as <-. rewrite <- Hi in Hi'. subst b1. congruence.
Qed.

Lemma end_of_acts j v : localVariableDebug f !! j = Some v -> IsParameter f (reg v) = false -> end_of (acts 0 rest bi 0) j = default 0 (offset_at 0 rest bi 0 (end_ins v)).
Proof.
  intros Hv Hp. pose proof (end_ins_eq v (list_elem_of_lookup_2 _ _ _ Hv)) as He. destruct (offset_at 0 rest bi 0 (end_ins v)) as [t|] eqn:Et.
  - apply (end_of_some _ (mkAct (end_ins v) j true t)); [|done|].
    + apply elem_of_acts. exists v. by rewrite He.
    + intros b Hb Eb Ev. apply elem_of_acts_ins in Hb as (w & Hw & _ & _ & Ho & Hi & _). cbn in *. rewrite Ev, Hv in Hw. injection Hw as <-. rewrite Eb in Hi. congruence.
  - apply end_of_none. intros a Ha Ea Ev. apply elem_of_acts_ins in Ha as (w & Hw & _ & _ & Ho & Hi & _). rewrite Ev, Hv in Hw. injection Hw as <-. rewrite Ea in Hi. congruence.
Qed.

(** A variable is in the table from the offset of its first instruction on, with the offset where it ends, or 0. *)
Lemma elem_of_table e : e ∈ table nth_entry (acts 0 rest bi 0) <->
  exists v s, v ∈ localVariableDebug f /\ IsParameter f (reg v) = false /\ offset_at 0 rest bi 0 (start v) = Some s /\ e = with_end (default 0 (offset_at 0 rest bi 0 (end_ins v))) (entry_at v s).
Proof.
  unfold table. rewrite list_elem_of_fmap. split.
  - intros ([j s] & -> & (a & Ha & Ea & <- & <-)%elem_of_starts). apply elem_of_acts_ins in Ha as (v & Hv & Nv & Hp & Ho & Hi & _). rewrite Ea in Hi. exists v, (a_off a).
    split_and!; [by eapply list_elem_of_lookup_2|done|congruence|]. rewrite (end_of_acts _ v) by done. unfold nth_entry. by rewrite Nv.
  - intros (v & s & (j & Hv)%list_elem_of_lookup_1 & Hp & Ho & ->). exists (j, s). split; [rewrite (end_of_acts j v) by done; unfold nth_entry, nth_var; by rewrite Hv|].
    apply list_elem_of_omap. exists (mkAct (start v) j false s). split; [|done]. apply elem_of_acts. by exists v.
Qed.
End Ranges.
End Variables.

(** ** The extractor *)
Section Extraction.
Context `{Tables}.

Lemma events_columns f emit i rest bi off prevLine prevCol : Forall ins_ok rest -> Forall column_ok (events f emit i rest bi off prevLine prevCol).
Proof.
  intros Hrest. revert i bi off prevLine prevCol. induction Hrest as [|x rest Hx Hrest IH]; intros i bi off prevLine prevCol; cbn [events]; [constructor|]. apply Forall_app. split.
  - destruct emit; [|constructor]. apply Forall_flat_map, Forall_true. intros v. unfold var_events. destruct (IsParameter f (reg v)); [constructor|].
    apply Forall_app. split; destruct (bool_decide _); repeat constructor.
  - destruct (is_invalid x); [apply IH|]. cbn zeta. repeat (apply Forall_app; split); [destruct (_ && (lineNumber x != prevLine)); repeat constructor| |apply IH].
    destruct (_ && (columnNumber x != prevCol)); constructor; [apply (io_column x Hx)|constructor].
Qed.

Lemma vars_of_none f i rest bi off prevLine prevCol lvt : vars_of (events f false i rest bi off prevLine prevCol) lvt = Some lvt.
Proof.
  revert i bi off prevLine prevCol. induction rest as [|x rest IH]; intros i bi off prevLine prevCol; cbn [events app]; [done|]. destruct (is_invalid x); [apply IH|]. cbn zeta.
  rewrite andb_false_r. cbn [andb app]. rewrite vars_of_app. destruct (_ && (lineNumber x != prevLine)); apply IH.
Qed.

(** The address behind the last event, which ends the variables that have no end. *)
Definition last_address (f : Function_) (bytecode : list Z) (emit : bool) : Z := fst (ends (fun_events f bytecode emit) 0 (first_line f)).

Lemma Extract_events f bytecode emit item index ops tail resolve ptail src m lvt :
  fun_ok f bytecode -> in_file f bytecode emit item index ops -> bytes_ok tail -> resolve index = program_ item ++ ptail -> vars_of (fun_events f bytecode emit) [] = Some lvt ->
  exists info st, Extract_method resolve src m (item_bytes item index ++ tail) = Done info /\ address_ st = last_address f bytecode emit /\
    m_lines info = (0, first_line f) :: lines_of (fun_events f bytecode emit) /\ m_vars info = ProcessVars st lvt /\ m_columns info = columns_of (fun_events f bytecode emit) /\
    m_params info = param_infos m (parameter_offset <$> parameters_ item).
Proof.
  intros Hf Hin Htail Hres Hlvt. pose proof (if_item _ _ _ _ _ _ Hin) as Hitem. unfold Extract_method. rewrite new_accessor_eq by done. cbn [mbind outcome_bind]. rewrite EnumerateParameters_eq by done. cbn [mbind outcome_bind].
  destruct (program_and_pool item index tail Hitem Htail resolve _ (or_intror eq_refl)) as (a1 & a2 & E1 & E2 & L & _). rewrite E1. cbn [mbind outcome_bind]. rewrite E2, Hres, L. cbn [mbind outcome_bind].
  rewrite (Process_ops f bytecode emit item index ops) by (done || apply table_keeps). pose proof (if_trace _ _ _ _ _ _ Hin) as T. set (st := new_LineProgramState _ _ _).
  assert (Eb : ProcessBegin new_handler st = mkHandler [(0, first_line f)] [] []) by (cbn; by rewrite (if_line _ _ _ _ _ _ Hin)).
  rewrite <- (if_line _ _ _ _ _ _ Hin) in T at 1. pose proof (table_exec ops [] (mkHandler [(0, first_line f)] [] []) st _ _ _ T) as Ht.
  rewrite tabulate_eq in Ht by apply events_columns, (fo_ins _ _ Hf). cbn [lvt_ lnt_ cnt_] in Ht. rewrite Hlvt in Ht. destruct Ht as (st' & Ex & Ha & _).
  rewrite Eb, Ex. eexists _, st'. split; [reflexivity|]. split; [exact Ha|]. done.
Qed.
End Extraction.

(** ** Parameters *)
(** The number of reference types among the first [n] arguments. *)
Fixpoint references (m : Method) (n : nat) : Z :=
  match n with O => 0 | S n => references m n + (match GetArgType m (Z.of_nat n) with None => 1 | Some _ => 0 end) end.

(** The argument of the [k]-th parameter. *)
Definition arg_of (m : Method) (k : nat) : nat := if is_static m then k else Nat.pred k.

(** The signature of the [k]-th parameter: the object of a method that is not static is the first one. *)
Definition signature_of (m : Method) (k : nat) : Signature :=
  if negb (is_static m) && (k == 0%nat) then ClassName
  else
    match GetArgType m (Z.of_nat (arg_of m k)) with
    | Some t => OfPrimitive t
    | None => OfReference (GetReferenceType m ((if returns_reference m then 1 else 0) + references m (arg_of m k)))
    end.

Lemma param_infos_eq m ids : Forall (fun id => EntityId_IsValid id = true) ids -> param_infos m ids = imap (fun k id => mkParam (Some id) (signature_of m k)) ids.
Proof.
  intros Hids. unfold param_infos. set (c0 := mkCaptured _ _ _ _).
  assert (Hc : fold_left (fun c id => param_callback m id c) ids c0 =
    mkCaptured (Z.of_nat (arg_of m (length ids))) ((if returns_reference m then 1 else 0) + references m (arg_of m (length ids))) (length ids == 0%nat)
      (imap (fun k id => mkParam (Some id) (signature_of m k)) ids)); [|by rewrite Hc].
  revert Hids. induction ids as [|id ids IH] using rev_ind; intros Hids.
  { cbn. unfold c0, arg_of. destruct (is_static m); cbn; by rewrite Z.add_0_r. }
  apply Forall_app in Hids as [Hids Hid%Forall_inv]. rewrite fold_left_app, IH by done. cbn [fold_left]. unfold param_callback. cbn beta in Hid. rewrite Hid. cbn [firstParam idx idxRef paramInfo].
  rewrite imap_app, length_app, Nat.add_comm. cbn [imap length Nat.add]. rewrite Nat.add_0_r. rewrite (bool_decide_false (S (length ids) = 0%nat)) by done.
  set (infos := imap (fun k id => mkParam (Some id) (signature_of m k)) ids). unfold signature_of, arg_of. destruct (is_static m); cbn [negb andb Nat.pred].
  - rewrite andb_false_r. cbn [references]. destruct (GetArgType m (Z.of_nat (length ids))) as [t|]; f_equal; lia.
  - rewrite andb_true_r. destruct (length ids) as [|n]; [done|]. rewrite (bool_decide_false (S n = 0%nat)) by done. cbn [references Nat.pred].
    destruct (GetArgType m (Z.of_nat n)) as [t|]; f_equal; lia.
Qed.

(** C14: the tables that the extractor makes of the debug information of a function: the line table has the line of the first instruction
    and every change of lines, the column table every change of columns; the variable table has exactly the variables of the function
    that are not parameters, from the offset of their first instruction to the offset of their end, which is the address of the last
    event where the variable has no end in the code or ends at offset 0; the parameters have their names, and signatures that follow
    the prototype, when all string offsets are valid entity ids.  Variables and parameters are there only when debug information is
    emitted ([emit]), otherwise the variable table is empty.  Variables in one register must not overlap, and one that ends where
    another one starts must come before it in the list ([variable_ends_another] shows the other order going wrong); start and end
    of a variable are below 2^32; the limits on code, lines and columns are those of [fun_ok] (code at most 2^28 bytes, lines below
    2^31 - 4, columns below 2^31). *)
Theorem Extract_tables `{Tables} f bytecode rec emit nparams item0 index :
  fun_ok f bytecode -> Forall var_range (localVariableDebug f) -> separated f -> SetCodeAndDebugInfo f emit nparams = Some item0 ->
  let offset := offset_at 0 (ins f) bytecode 0 in
  exists item, EmitDebugInfo f bytecode rec emit item0 = Done item /\
    (fits item index -> exists bytes, Write item index [] = Done bytes /\
      forall tail resolve ptail src m, bytes_ok tail -> resolve index = program_ item ++ ptail ->
        exists info, Extract_method resolve src m (bytes ++ tail) = Done info /\
          m_lines info = (0, first_line f) :: lines_of (fun_events f bytecode emit) /\ m_columns info = columns_of (fun_events f bytecode emit) /\
          (forall e, e ∈ m_vars info <-> emit = true /\ exists v s, v ∈ localVariableDebug f /\ IsParameter f (reg v) = false /\ offset (start v) = Some s /\
            e = with_end (let t := default 0 (offset (end_ins v)) in if t == 0 then last_address f bytecode emit else t) (entry_at v s)) /\
          (emit = true -> (forall s, EntityId_IsValid (String_offset s) = true) ->
            m_params info = imap (fun k v => mkParam (Some (String_offset (var_name v))) (signature_of m k)) (List.filter (fun v => IsParameter f (reg v)) (localVariableDebug f)))).
Proof.
  intros Hf Hr Hsep E0 offset. destruct (emitted_in_file f bytecode rec emit nparams item0 index Hf E0) as (item & E & Ep & Hw). exists item. split; [done|].
  intros Hfits. destruct (Hw Hfits) as (Ew & ops & Hin). exists (item_bytes item index). split; [done|]. intros tail resolve ptail src m Htail Hres.
  set (lvt := if emit then table (nth_entry f) (acts f 0 (ins f) bytecode 0) else []).
  assert (Hlvt : vars_of (fun_events f bytecode emit) [] = Some lvt).
  { unfold fun_events, lvt. destruct emit; [rewrite vars_of_events; by apply run_table, acts_orderly|apply vars_of_none]. }
  destruct (Extract_events f bytecode emit item index ops tail resolve ptail src m lvt Hf Hin Htail Hres Hlvt) as (info & st & Ex & Ha & El & Ev & Ec & Epar). exists info. split_and!; [done..| |].
  - intros e. rewrite Ev. unfold ProcessVars. rewrite list_elem_of_fmap. unfold lvt. destruct emit; [|set_solver]. split.
    + intros (e' & -> & (v & s & Hv & Hp & Ho & ->)%elem_of_table); [|done..]. split; [done|]. exists v, s. split_and!; try done. cbn. rewrite <- Ha. by destruct (bool_decide _).
    + intros [_ (v & s & Hv & Hp & Ho & ->)]. eexists. split; [|apply elem_of_table; [done..|]; exists v, s; split_and!; try done]. cbn. rewrite <- Ha. by destruct (bool_decide _).
  - intros -> Hvalid. rewrite Epar, Ep. unfold SetCodeAndDebugInfo in E0. cbn [negb andb] in E0. injection E0 as <-. cbn [parameters_]. rewrite param_infos_eq.
    + by rewrite !imap_fmap.
    + do 2 apply Forall_fmap. apply Forall_true. intros v. apply Hvalid.
Qed.

Lemma sample_separated : separated sample.
Proof.
  intros j k v w Hj Hk Hne Hr Hp. destruct j as [|[|[|]]]; cbn in Hj; simplify_eq; destruct k as [|[|[|]]]; cbn in Hk; simplify_eq; try done; unfold before, end_ins; cbn in *; try lia.
Qed.

Lemma Extract_tables_witness : exists item bytes info, @EmitDebugInfo sample_tables sample [] "" true (mkItem 0 [] [] [Some 70]) = Done item /\ Write item 7 [] = Done bytes /\
  Extract_method (fun _ => program_ item ++ [9]) None (mkMethod 1 None true false (fun _ => None) (fun _ => 300)) (bytes ++ [255]) = Done info /\
  m_lines info = [(0, 3); (2, 5); (4, 20)] /\ m_columns info = [(0, 0); (2, 7); (4, 1)] /\ mkLocal 1000 70 70 0 0 2 ∈ m_vars info /\ m_params info = [mkParam (Some 70) (OfReference 300)].
Proof.
  destruct (@Extract_tables sample_tables sample [] "" true 1 (mkItem 0 [] [] [Some 70]) 7 sample_ok) as (item & E & Hw); [repeat constructor; cbn; lia|exact sample_separated|reflexivity|].
  assert (Hfits : fits item 7) by (vm_compute in E; injection E as <-; vm_compute; split_and!; congruence).
  destruct (Hw Hfits) as (bytes & Ew & Hl).
  destruct (Hl [255] (fun _ => program_ item ++ [9]) [9] None (mkMethod 1 None true false (fun _ => None) (fun _ => 300))) as (info & Ex & Hlines & Hcols & Hv & Hp); [constructor; [unfold in_u; lia|constructor]|reflexivity|].
  exists item, bytes, info. split; [exact E|]. split; [exact Ew|]. split; [exact Ex|]. split; [exact Hlines|]. split; [exact Hcols|]. split.
  - apply Hv. split; [reflexivity|]. exists (mkVariable "x" "I" "" 0 0 2), 0. split; [left|]. split; [reflexivity|]. split; reflexivity.
  - apply Hp; [reflexivity|]. intros s. cbn. by destruct (bool_decide _).
Defined.

(** ** All methods *)
(** A method whose identifier no earlier method has is found with what was extracted for it. *)
Lemma emplace_other id info methods_ k : k <> id -> emplace id info methods_ !! k = methods_ !! k.
Proof. intros Hne. unfold emplace. destruct (methods_ !! id); [done|]. by rewrite lookup_insert_ne. Qed.

Lemma emplace_keeps id info methods_ k x : methods_ !! k = Some x -> emplace id info methods_ !! k = Some x.
Proof. intros Hk. unfold emplace. destruct (methods_ !! id) eqn:E; [done|]. by rewrite lookup_insert_ne by congruence. Qed.

Lemma Extract_methods_keep resolve src ms t t' k x : Extract_methods resolve src ms t = Done t' -> t !! k = Some x -> t' !! k = Some x.
Proof.
  revert t. induction ms as [|m ms IH]; intros t; cbn [Extract_methods]; [by intros [= ->]|]. destruct (debugInfo m) as [sp|]; [|apply IH]. cbn [mbind outcome_bind].
  destruct (Extract_method _ _ _ _) as [info| |]; cbn [mbind outcome_bind]; [|done..]. intros E Hk. by apply (IH _ E), emplace_keeps.
Qed.

Lemma Extract_first_method resolve src ms1 m ms2 t t' sp :
  Extract_methods resolve src (ms1 ++ m :: ms2) t = Done t' -> debugInfo m = Some sp -> t !! methodId m = None -> Forall (fun n => methodId n <> methodId m) ms1 ->
  exists info, Extract_method resolve src m sp = Done info /\ t' !! methodId m = Some info.
Proof.
  intros E Hsp Ht Hms. revert t E Ht. induction Hms as [|n ms1 Hn Hms IH]; intros t; cbn [app Extract_methods].
  - rewrite Hsp. cbn [mbind outcome_bind]. destruct (Extract_method _ _ _ _) as [info| |] eqn:Ei; cbn [mbind outcome_bind]; [|done..]. intros E Ht. exists info. split; [done|].
    eapply Extract_methods_keep; [exact E|]. unfold emplace. rewrite Ht. apply lookup_insert_eq.
  - destruct (debugInfo n) as [sp'|]; [|apply IH]. cbn [mbind outcome_bind]. destruct (Extract_method resolve src n sp') as [info| |]; cbn [mbind outcome_bind]; [|done..].
    intros E Ht. apply (IH _ E). by rewrite emplace_other.
Qed.

(** ** At the edges *)
Definition extracted (f : Function_) : outcome (list LocalVariableInfo) :=
  item ← @EmitDebugInfo sample_tables f [] "" true new_item;
  bytes ← Write item 0 [];
  info ← Extract_method (fun _ => program_ item) None (mkMethod 1 None true false (fun _ => None) (fun _ => 300)) bytes;
  Done (m_vars info).

Definition straight (lines : list Z) (vars : list LocalVariable) : Function_ :=
  {| ins := (fun l => mkIns false false l 0) <$> lines; localVariableDebug := vars; regsNum := 2; is_dynamic := false; sourceFile := ""; sourceCode := "" |}.

(** A variable that lives to the end of the function gets no end, as its end is not the number of an instruction; the address of the last
    event ends it, which here is 0: where it starts. *)
Lemma variable_to_the_end : extracted (straight [3; 3; 3] [mkVariable "x" "I" "" 0 0 3]) = Done [mkLocal 1000 70 70 0 0 0].
Proof. vm_compute. reflexivity. Qed.

(** Where a variable ends at the start of another of the same register that is before it in the list, the end goes to the other. *)
Lemma variable_ends_another :
  extracted (straight [3; 3; 3] [mkVariable "x" "I" "" 0 1 1; mkVariable "y" "I" "" 0 0 1; mkVariable "z" "I" "" 1 2 1]) = Done [mkLocal 70 70 70 0 0 4; mkLocal 1000 70 70 0 2 4; mkLocal 70 70 70 1 4 4].
Proof. vm_compute. reflexivity. Qed.

(** Line 0 stands for a line that was not found. *)
Lemma line_zero_is_next : exists item bytes,
  @EmitDebugInfo sample_tables (straight [0; 9] []) [] "" true new_item = Done item /\ Write item 0 [] = Done bytes /\
  GetLineNumber (fun _ => program_ item) (Some bytes) 1 = Done 9.
Proof. eexists _, _. split; [vm_compute; reflexivity|]. split; [vm_compute; reflexivity|]. vm_compute. reflexivity. Qed.

(** A program that starts with the end of the prologue is not run: nothing has been handled yet. *)
Lemma prologue_end_stops : exists st, Process (data_ (fst (EmitSpecialOpcode 0 5 (EmitPrologEnd (mkOut [] [])))) ++ [END_SEQUENCE]) new_handler (new_LineProgramState 0 1 []) = Done (mkHandler [(0, 1)] [] [], st).
Proof. eexists. vm_compute. reflexivity. Qed.

(** The opcode of an increment of 286331154 addresses wraps: it is the one of a single address and another line. *)
Lemma special_wraps : data_ (fst (EmitSpecialOpcode 286331154 (-3) (mkOut [] []))) = data_ (fst (EmitSpecialOpcode 1 (-4) (mkOut [] []))).
Proof. vm_compute. reflexivity. Qed.

(** A file without a name has an opcode without its operand. *)
Lemma set_file_without_name : EmitSetFile None (mkOut [] []) = Done (mkOut [SET_FILE] []).
Proof. reflexivity. Qed.
